(* ===== verification/_CoqProject ===== *)
-Q . S2P
Prelude.v
GoStrings.v
Position.v
Diag.v
Unicode.v
Meta.v
MetaLaws.v
Directive.v
EditDistance.v
DirectiveLaws.v
DirectiveParser.v
ParserLaws.v
Plugin.v
Resolve.v
ResolveLaws.v
Build.v
BuildLaws.v
FilePath.v
Imports.v
ImportLaws.v
Manifest.v
Layout.v
LayoutLaws.v
ManifestRun.v
ManifestLaws.v
Sinks.v
Prune.v
Node.v
NodeQueries.v
NodeInduction.v
TypeRefEqual.v
NodeWalk.v
ValidateRun.v
Rewire.v
MethodSet.v
MethodSetLaws.v
StoreIndex.v
StoreOps.v
StoreNodes.v
StoreNodeLaws.v
Override.v
Emit.v
EmitSlots.v
StoreEmit.v
StoreEmitLaws.v
Cache.v
Run.v
RunLaws.v
RunOutcome.v
Reader.v
Naming.v
NamingLaws.v
Writer.v
Opt.v
EmitCtors.v
EmitWalk.v
GoIdents.v
GoQuote.v
GoTypes.v
GoSignatures.v
GoEmbed.v
Shape.v
ShapeDetectors.v
ShapeCatalog.v
ShapeResolver.v
ShapeLaws.v
ShapeResolverLaws.v
ShapeIds.v
EmitBuilder.v
EmitContrib.v
GoRefs.v
GoSatisfies.v
GoConventions.v
GoEnum.v
GoWitness.v
GoSample.v
GoMethods.v
