(* ===== verification/Prelude.v ===== *)
(** * Eidos: a verification library

    Eidos generates code.  A run loads source through frontends into a store
    of nodes, lets plugins annotate it and generate declarations from it,
    routes the declarations to target files, renders them through one backend
    into a sink, and records what it wrote in a manifest.  Comments in the
    source carry directives ([+gen:name arg key=value]); annotations live in
    layered metadata bags; a builder validates the plugin set and fixes the
    order the plugins run in.

    This library models those parts as executable functions and proves what
    makes them correct.  It uses stdpp (finite maps and sets, sorting, string
    printing) and the Standard Library, and assumes nothing.

    ** Parts, files and sources

    Shared ground:
    - [Prelude]: results and panics, tactics, the order Go uses on strings,
      sorting, list lemmas, and [MapOrder], the arbitrary order in which Go
      ranges over a map.
    - [GoStrings], [Unicode], [FilePath]: what the code uses of [strings],
      [strconv], [unicode/utf8], [path/filepath] and [os].  The letter and
      digit tables of [unicode] are a class ([UnicodeTables]) whose laws fix
      ASCII only.

    The core packages:
    - [Position] ([core/position]): positions and ranges.
    - [Diag] ([core/diag]): the diagnostics sink, its per-plugin view, panic
      containment, the summary line.
    - [Meta], [MetaLaws] ([core/meta]): the bag, in which every name holds at
      most one entry or tombstone per authority; typed keys and their
      registry; value parsers; observers; the JSON form.
    - [Directive], [EditDistance], [DirectiveLaws] ([core/directive]):
      schemas, registry with suggestions, validator.
    - [DirectiveParser], [ParserLaws] ([core/directive/parser.go],
      [default.go]): lexer and parser at byte level.
    - [Naming], [NamingLaws] ([core/naming]): splitting names
      into words, the case styles, initialisms, identifiers.  Case mapping is
      a class ([CaseTables]) with the laws the code relies on.
    - [Opt] ([core/opt]): option schemas, their binding from a
      struct and the decoding of option values, over a model of the part of
      [reflect] it uses.

    The model of source and output, and the store that holds both:
    - [Node], [NodeQueries], [NodeInduction], [TypeRefEqual], [NodeWalk],
      [Rewire], [MethodSet], [MethodSetLaws] ([node], [core/contract]): the
      source nodes with an induction principle of their own, predicates, type
      equality, the walk, owner links and method sets.
    - [Emit], [EmitSlots] ([emit]): the declarations plugins emit, and slots,
      the typed insertion points plugins contribute to.
    - [StoreIndex], [StoreOps], [StoreNodes], [StoreNodeLaws] ([store]):
      buckets, inverted indexes, queries, read sets, the node view.
    - [StoreEmit], [StoreEmitLaws] ([store/emit_view.go], [store.go]): the emit
      view, package merging, the target index, freezing.
    - [Reader] ([store/reader.go], [method_set.go],
      [resolver.go]): what a plugin sees of the store, with the reads it makes.

    The pipeline:
    - [Plugin] ([plugin], [priority]): a plugin as the record of the optional
      interfaces it implements; capabilities and their gaps.
    - [Resolve], [ResolveLaws] ([pipeline/resolve.go], [plan.go]): priority
      buckets and the topological order within a bucket.
    - [Build], [BuildLaws] ([pipeline/builder.go], [capability.go],
      [templates.go], [core_directives.go]): every validation of [Build] and
      the registry, parser, plan and layout policies it pins.
    - [ValidateRun] ([pipeline/validate.go]): the directive validation pass.
    - [Override] ([pipeline/override.go], [scope.go]): the pass
      that applies [meta] directives, and the target-symbol predicate.
    - [Layout], [LayoutLaws] ([pipeline/layout.go], [pipeline.go]): the routing
      of declarations and slot contributions to target files.
    - [Cache] ([cache]): keys, digests and the disk cache.
    - [Run], [RunLaws], [RunOutcome] ([pipeline/run.go], [phase.go],
      [pipeline.go]): the run as a program of actions with a step relation
      whose parallel stages interleave freely.

    Output:
    - [Imports], [ImportLaws] ([writer/import_set.go], [provenance.go]): the
      import set of one generated file and the provenance trailer.
    - [Writer] ([writer/writer.go], [core/srcfile]): the body of a
      generated file, assembled from keyed and sequential entries.
    - [Manifest] ([manifest], [emit/target.go]), [ManifestRun]
      ([pipeline/manifest_sink.go], [run.go]), [ManifestLaws]: the record of
      what a run wrote, its assembly, merge and file.
    - [Sinks] ([sink]): disk, memory, stream and combined sinks.
    - [Prune] ([cli/prune.go]): the command that deletes what is
      no longer generated.

    More of the emission model, the Go vocabulary and the shape annotator:
    - [EmitCtors], [EmitWalk] ([emit]): the constructors of the
      declarations, the walk over an emitted value and the pass of
      [pipeline/layout.go] that hands output packages to plugin-defined values.
    - [GoIdents] ([lang/golang/idents.go], [imports.go],
      [numeric.go], [typenames.go]): free identifiers and the numeric ranges of
      the basic types.
    - [GoQuote] ([lang/golang/literals.go], [values.go],
      [conventions.go]): string literals as [strconv] quotes and unquotes them,
      struct tags, values written as Go source.
    - [GoTypes], [GoSignatures] ([lang/golang/query.go],
      [accessors.go], [meta.go], [signature.go], [sigshape.go], [generics.go]):
      predicates on types, the shape of signatures, parameter names.
    - [GoEmbed] ([lang/golang/embed.go], [refs.go]): promotion
      of fields and methods through embedding.
    - [Shape], [ShapeDetectors], [ShapeCatalog], [ShapeResolver]
      ([plugins/annotator/shape]): the model of contracts and mixins, the
      detectors, the catalogue of contracts and mixins, the annotator, its
      resolver and its validator; [ShapeLaws], [ShapeResolverLaws] and
      [ShapeIds] ([shape/ids]) are about them.
    - [EmitBuilder], [EmitContrib] ([emit/builder]): the
      fluent builders over a store of packages and builders, the slot
      contributions, the queue, and the builders of expressions and statements.
    - [GoRefs] ([lang/golang/refconv.go], [refs.go],
      [typestring.go]): references lifted from source types, qualifiers, and
      type expressions printed and read back.
    - [GoSatisfies] ([lang/golang/satisfies.go]): interface
      satisfaction and comparability.
    - [GoConventions] ([lang/golang/conventions.go]):
      generated-file markers, composed names, wrapped doc comments.
    - [GoEnum] ([lang/golang/enum.go], [emit/enum_info.go]):
      enumerations, their texts and what lies outside them.
    - [GoWitness] ([lang/golang/witness.go],
      [emit/witness.go]): the types a generic declaration is instantiated at,
      and substitution in references and in source types.
    - [GoSample] ([lang/golang/sample.go], [values.go],
      [literals.go], [emit/sample.go], [emit/sample_authored.go]): sample and
      zero values of a type.
    - [GoMethods] ([lang/golang/method.go],
      [construct.go], [generics.go]): the projected signature of a callable
      and the types, calls and statements built from it.

    ** How the code is represented

    A Go function that returns an error gives [res E T]; one that may panic
    gives [run T].  State is passed explicitly, and a method that mutates its
    receiver returns the new value.  Mutexes are left out: the methods they
    guard are atomic steps.  Objects the code shares by pointer (the metadata
    bags of nodes, the slots of emitted declarations) live in a heap indexed
    by pointer, so that aliasing is visible.  Maps are [gmap] and sets [gset];
    a nil map the code tells from an empty one is an [option].  A loop over a
    map takes its order from [MapOrder], so theorems hold for every order.
    Integers are kept at their width where they can wrap (option decoding);
    elsewhere counters are [nat] or [Z].  Diagnostics keep the format string
    and its arguments.  The file system is a map from path strings, and what
    the operating system may refuse, with the bytes a refused write leaves, is
    an argument; a disk write gives the list of states it goes through.  JSON
    is modelled by what it does to the values: text that is not UTF-8 comes
    back with the replacement character, and a plugin name with an escape JSON
    lacks makes the encoding fail.  SHA-256, the module
    lookup of [golang.org/x/mod], float parsing and the texts of system errors
    are arguments too.

    ** Fuel

    Recursion that is not structural carries fuel, and each time a theorem shows
    the fuel is enough rather than assuming a result: the parser runs on the
    length of the line ([parse_total_wellformed], kept as a lemma); Kahn's loop
    on the number of plugins ([schedule_exists_iff] gives a schedule whenever
    one exists); the binary search on the length of the slice; the search for a
    tombstoned ancestor on the length of the name; the alias probe on the number
    of names taken ([imp_total_and_stable] excludes running out); decoding
    runes, splitting words and trimming space on the length of the string; the
    method set of an interface on the number of interfaces it has not seen
    ([method_set_contents]); the emit walk on the objects of the heap it has not
    seen ([emit_walk_visits_reachable]); the choice of a free identifier on the
    number of names taken and of a value out of range on the number of values
    given ([next_out_of_range_is_exact] shows a value is found exactly when
    there is one); unquoting and tag reading on the length of the literal
    ([quote_unquote_roundtrip]).  The levels of embedding are bounded by the
    code itself, at [maxEmbedDepth].  A run is a finite program, and its step
    relation completes it ([run_completes_the_plan]).

    ** What the theorems show

    - Directives: parsing is total, inverts printing and ignores exactly the
      comments without the prefix; validation accepts exactly what conforms to
      the schema, reports what it rejects and changes only what defaults add;
      suggestions are closest by edit distance, which the two-row algorithm
      computes; the validation pass checks every directive of the walk.
    - Metadata: the bag implements the layered resolution rule; lower
      authorities cannot shadow higher ones; prefix tombstones cover exactly
      their descendants; typed reads do not panic; the JSON form of a bag of
      valid UTF-8 reads back.
    - Names and options: words conserve the text, the styles settle, an
      identifier is valid and kept when it already was; decoding an option
      struct follows its schema, and binding applies the defaults.
    - Nodes and store: type equality is equality of shape; the walk is the
      preorder of the graph; rewiring restores owners; a method set holds what
      embedding promises, in order; the indexed views answer as a scan of their
      contents would, and name the first repeated declaration otherwise; the
      operations of a frozen view do not change it; two stores that agree on the
      recorded reads answer a plugin alike, which makes the cache fingerprint
      sound.
    - Slots: the kind of a slot is stable, insertion keeps its bounds, and each
      item keeps its provenance.
    - Scheduling: the order is correct, exists exactly when the requirements
      are acyclic with single providers, and does not depend on registration
      or map order.
    - Building: [Build] accepts exactly the valid configurations, reports
      every error otherwise, and pins the registry and layout policies by the
      documented precedence.
    - The run: every interleaving completes the plan; failures
      and panics of plugins are contained and reported; views are frozen
      before the phases that rely on it.
    - Override pass: the bag of each node of the thirteen buckets ends up as its
      directives say, for every order.
    - Imports and writing: aliases are unambiguous identifiers, stable and
      always found; the provenance hash reads back; the body of a file does not
      depend on the order in which keyed parts arrive.
    - Layout: no override moves a file out of the directory its policy gives
      it; the file name comes from the documented layer; the routing directive
      used is the most specific one, ties are reported; a declaration that
      cannot be routed is reported; a file has one package; the compact record
      of output packages is a map.
    - Manifest, sinks, cache and pruning: a disk write is all or nothing in
      every state the file system passes through, and idempotent; the disk cache
      refines a map; the merge forgets no file that is still there; the manifest
      file describes the merged result when JSON can carry it, and settles;
      pruning deletes only stale, marked files of its own pipeline and keeps the
      manifest in step with the disk below the working directory.
    - Emission: the walk visits exactly what is reachable and tells every
      object once, so output packages are handed out once.
    - The Go vocabulary: a quoted string unquotes to itself; the value chosen
      outside a set is in range and found whenever one exists; parameter names
      are usable and distinct; the field set of a struct is what promotion
      among fields gives on embeddings without a repeated type.
    - The shape annotator: detection honours priority, dispatch over the
      catalogue does not depend on map order, a directive is stamped as given,
      partners of plain bags are linked both ways, and the validator is silent
      exactly on complete contracts.
    - Builders: whatever calls of the builders are made, the declaration that
      lands in the package owns its children; tagged sub-contexts share one
      package; contributions land where asked.
    - References: a type expression printed for a plain type reads back as the
      reference lifted from it; comparability is decided wherever no type is
      reported as unreachable, up to embedded fields and type arguments.  The
      depths 16 ([typeText], [parseTypeRef]) and 10 ([comparableDeep]) are
      bounds of the code itself; [PkgPathOf] runs with the size of the owner
      table, enough for every acyclic chain.
    - Enumerations and samples: the literals of variants read back, probes of
      texts and integers lie outside the declared set, unauthored sample pairs
      differ or come with a reason, and substitution commutes with projection on
      types without functions and anonymous structs.  The depth 10 of
      [sampleRefFor], [zeroLiteralFor] and [substituteNode] is the code's;
      [ZeroRefFor] has no bound in the code and its fuel is enough for every
      chain of definitions that ends ([zero_walk_returns]).
    - Signatures: the identifiers of a projected method can be bound together up
      to the locals of unnamed results, a recorded call fills its struct,
      delegation forwards every argument.

    Theorems that are counterexamples to a comment of the source are kept next
    to the property they limit ([default_fills_wrong_slot],
    [unnamed_plugins_reported_as_cycle], [cycle_report_names_dependents],
    [prune_forgets_absolute_outputs], [test_named_package_counts_as_gone],
    [directive_overrides_cli_package], [root_conflicts_unnoticed],
    [adjacent_divergence_unnoticed], [errors_outlive_the_run],
    [embed_kinds_are_unrecorded], [fixed_point_takes_longer],
    [narrow_integers_are_truncated], [unescapable_name_empties_manifest],
    [bucket_add_passes_the_freeze], [parameter_overrides_are_ignored],
    [typed_nil_passes_the_check], [methods_do_not_compete],
    [type_arguments_are_overlooked] and others).

    ** What is not modelled

    The JSON form of nodes; the plugin-author helpers of [sdk]; the commands
    other than prune; the annotators other than shape and the generators; of
    [lang/golang], the error projections, the assertion helpers and the template
    functions; the language frontends and backends, which are driven
    by external toolchains and templates; the TypeScript and protobuf
    languages; test harnesses. *)

From stdpp Require Export base tactics strings gmap list sorting pretty.
From Stdlib Require Export Ascii ZArith Lia Bool.

#[global] Set Default Proof Using "Type".

(** Appending to a literal string reduces. *)
#[global] Arguments String.append !s1 s2 /.

(** ** Errors and panics

    A Go function that returns [(T, error)] is modelled by [res E T]: the two
    results are exclusive in every function of the development.  A Go function
    that may panic returns [run T]. *)

Inductive res (E A : Type) : Type :=
| Ok (a : A)
| Err (e : E).
Arguments Ok {E A} _.
Arguments Err {E A} _.

Inductive run (A : Type) : Type :=
| Returns (a : A)
| Panics (why : string).
Arguments Returns {A} _.
Arguments Panics {A} _.

Declare Scope eidos_scope.
Delimit Scope eidos_scope with eidos.

Definition res_bind {E A B} (m : res E A) (k : A → res E B) : res E B :=
  match m with Ok a => k a | Err e => Err e end.

Notation "'let!' x := m 'in' k" := (res_bind m (λ x, k))
  (at level 10, x pattern, m at level 100, k at level 200) : eidos_scope.

Definition is_ok {E A} (m : res E A) : bool :=
  match m with Ok _ => true | Err _ => false end.

(** ** Tactics *)

(** Case analysis on the scrutinee of the first [match] or [if] found. *)
Ltac split_match :=
  match goal with
  | |- context [match ?x with _ => _ end] => destruct x eqn:?
  | H : context [match ?x with _ => _ end] |- _ => destruct x eqn:?
  end.

Ltac split_matches := repeat (split_match; simplify_eq/=).

(** Boolean connectives as propositions, in hypotheses and goal. *)
Ltac bool_props :=
  repeat match goal with
  | H : _ && _ = true |- _ => apply andb_true_iff in H; destruct H
  | H : _ && _ = false |- _ => apply andb_false_iff in H
  | H : _ || _ = true |- _ => apply orb_true_iff in H
  | H : _ || _ = false |- _ => apply orb_false_iff in H; destruct H
  | H : negb _ = true |- _ => apply negb_true_iff in H
  | H : negb _ = false |- _ => apply negb_false_iff in H
  | |- _ && _ = true => apply andb_true_iff
  | |- _ || _ = true => apply orb_true_iff
  | |- negb _ = true => apply negb_true_iff
  end.

Create HintDb eidos discriminated.

(** ** The order Go uses on strings

    [cmp.Compare] and [slices.Sort] order strings bytewise; [String.compare]
    compares the 8-bit codes in the same way. *)

Lemma ascii_compare_refl a : Ascii.compare a a = Eq.
Proof. unfold Ascii.compare. apply N.compare_refl. Qed.

Lemma string_compare_refl s : String.compare s s = Eq.
Proof. induction s as [|a s IH]; simpl; [done|]. by rewrite ascii_compare_refl. Qed.

Lemma string_compare_eq s t : String.compare s t = Eq ↔ s = t.
Proof.
  split; [apply String.compare_eq_iff|]. intros ->. apply string_compare_refl.
Qed.

Lemma ascii_compare_trans c a b d :
  Ascii.compare a b = c → Ascii.compare b d = c → Ascii.compare a d = c.
Proof.
  unfold Ascii.compare. destruct c.
  - rewrite !N.compare_eq_iff. congruence.
  - rewrite !N.compare_lt_iff. lia.
  - rewrite !N.compare_gt_iff. lia.
Qed.

Lemma string_compare_trans c s t u :
  String.compare s t = c → String.compare t u = c → String.compare s u = c.
Proof.
  revert t u. induction s as [|a s IH]; intros [|b t] [|d u]; simpl; try congruence.
  destruct (Ascii.compare a b) eqn:Hab.
  - apply Ascii.compare_eq_iff in Hab as ->. destruct (Ascii.compare b d); eauto; congruence.
  - intros <-. destruct (Ascii.compare b d) eqn:Hbd; [|intros _|congruence].
    + apply Ascii.compare_eq_iff in Hbd as ->. by rewrite Hab.
    + by rewrite (ascii_compare_trans Lt _ _ _ Hab Hbd).
  - intros <-. destruct (Ascii.compare b d) eqn:Hbd; [|congruence|intros _].
    + apply Ascii.compare_eq_iff in Hbd as ->. by rewrite Hab.
    + by rewrite (ascii_compare_trans Gt _ _ _ Hab Hbd).
Qed.

Definition str_le (s t : string) : Prop := String.compare s t ≠ Gt.
Definition str_lt (s t : string) : Prop := String.compare s t = Lt.

#[global] Instance str_le_dec s t : Decision (str_le s t).
Proof. unfold str_le. apply _. Defined.
#[global] Instance str_lt_dec s t : Decision (str_lt s t).
Proof. unfold str_lt. apply _. Defined.

Lemma str_le_lt_eq s t : str_le s t ↔ str_lt s t ∨ s = t.
Proof.
  unfold str_le, str_lt. rewrite <- string_compare_eq.
  destruct (String.compare s t); naive_solver.
Qed.

#[global] Instance str_lt_strict : StrictOrder str_lt.
Proof.
  split.
  - intros s. unfold complement, str_lt. by rewrite string_compare_refl.
  - intros s t u. apply string_compare_trans.
Qed.

#[global] Instance str_le_preorder : PreOrder str_le.
Proof.
  split.
  - intros s. rewrite str_le_lt_eq. auto.
  - intros s t u. rewrite !str_le_lt_eq. intros [?| ->] [?| ->]; auto.
    left. by transitivity t.
Qed.

#[global] Instance str_le_antisymm : AntiSymm (=) str_le.
Proof.
  intros s t. rewrite !str_le_lt_eq. intros [H1|?] [H2|?]; auto.
  destruct (irreflexivity str_lt s). by transitivity t.
Qed.

#[global] Instance str_le_total : Total str_le.
Proof.
  intros s t. unfold str_le. rewrite (String.compare_antisym t s).
  destruct (String.compare s t); simpl; auto.
Qed.

#[global] Instance str_lt_trichotomy : Trichotomy str_lt.
Proof.
  intros s t. unfold str_lt. rewrite <- string_compare_eq, (String.compare_antisym t).
  destruct (String.compare s t); simpl; auto.
Qed.

(** ** [slices.Sort] on strings

    The Go routine is in-place and unstable; on a total order its result is
    the unique sorted permutation, which [merge_sort] computes. *)

Definition sort_strings (l : list string) : list string := merge_sort str_le l.

Lemma sort_strings_perm l : sort_strings l ≡ₚ l.
Proof. apply merge_sort_Permutation. Qed.

Lemma sort_strings_sorted l : StronglySorted str_le (sort_strings l).
Proof. apply (StronglySorted_merge_sort str_le). Qed.

Lemma sort_strings_unique l k : l ≡ₚ k → sort_strings l = sort_strings k.
Proof.
  intros Hp. eapply (StronglySorted_unique str_le); [apply sort_strings_sorted..|].
  by rewrite !sort_strings_perm.
Qed.

Lemma elem_of_sort_strings x l : x ∈ sort_strings l ↔ x ∈ l.
Proof. by rewrite sort_strings_perm. Qed.

Lemma sort_strings_id l : StronglySorted str_le l → sort_strings l = l.
Proof.
  intros Hs. eapply (StronglySorted_unique str_le); [apply sort_strings_sorted|done|].
  apply sort_strings_perm.
Qed.

(** ** Lists *)

Lemma filter_length_pos {A} (P : A → Prop) `{∀ x, Decision (P x)} (l : list A) :
  0 < length (filter P l) ↔ ∃ x, x ∈ l ∧ P x.
Proof.
  split.
  - intros Hl. destruct (filter P l) as [|x k] eqn:E; [simpl in Hl; lia|].
    assert (x ∈ filter P l) as Hx by (rewrite E; left).
    apply list_elem_of_filter in Hx. naive_solver.
  - intros (x & Hx & HP). assert (x ∈ filter P l) as Hin by by apply list_elem_of_filter.
    destruct (filter P l); [by apply elem_of_nil in Hin|simpl; lia].
Qed.

Lemma filter_none {A} (P : A → Prop) `{∀ x, Decision (P x)} (l : list A) :
  (∀ x, x ∈ l → ¬ P x) → filter P l = [].
Proof.
  intros Hn. destruct (filter P l) as [|x k] eqn:E; [done|].
  assert (x ∈ filter P l) as Hx by (rewrite E; left).
  apply list_elem_of_filter in Hx as [HP Hx]. by destruct (Hn x).
Qed.

Lemma filter_all {A} (P : A → Prop) `{∀ x, Decision (P x)} (l : list A) :
  (∀ x, x ∈ l → P x) → filter P l = l.
Proof.
  induction l as [|x l IH]; intros Hl; [done|]. rewrite filter_cons, decide_True by (apply Hl; left).
  f_equal. apply IH. intros y Hy. apply Hl. by right.
Qed.

Lemma filter_ext_in {A} (P Q : A → Prop) `{∀ x, Decision (P x), ∀ x, Decision (Q x)} (l : list A) :
  (∀ x, x ∈ l → P x ↔ Q x) → filter P l = filter Q l.
Proof.
  induction l as [|x l IH]; intros Hl; [done|]. rewrite !filter_cons.
  rewrite IH by (intros y Hy; apply Hl; by right).
  assert (P x ↔ Q x) as Hx by (apply Hl; left). repeat case_decide; naive_solver.
Qed.

Lemma elem_of_concat_map {A B} (f : A → list B) (l : list A) b :
  b ∈ concat (map f l) ↔ ∃ a, a ∈ l ∧ b ∈ f a.
Proof.
  rewrite list_elem_of_In, in_concat. setoid_rewrite in_map_iff.
  setoid_rewrite list_elem_of_In. naive_solver.
Qed.

Lemma StronglySorted_lookup_lt {A} (R : relation A) (l : list A) i j x y :
  StronglySorted R l → i < j → l !! i = Some x → l !! j = Some y → R x y.
Proof.
  intros Hs. revert i j. induction Hs as [|a l Hs IH Hall]; intros [|i] [|j] Hij Hx Hy;
    simplify_eq/=; try lia; [|apply (IH i j); auto; lia].
  rewrite Forall_forall in Hall. apply Hall. by eapply list_elem_of_lookup_2.
Qed.

(** Elements mapped to the empty list contribute nothing. *)
Lemma concat_map_nonempty {A B} (f : A → list B) `{∀ x, Decision (f x ≠ [])} (l : list A) :
  concat (map f l) = concat (map f (filter (λ x, f x ≠ []) l)).
Proof.
  induction l as [|x l IH]; [done|]. simpl. rewrite filter_cons.
  case_decide as Hx; simpl; [by rewrite IH|]. by rewrite Hx.
Qed.

(** ** Go map iteration

    [range] over a map visits every key once, in an unspecified order.  Code
    that ranges over a map is modelled for an arbitrary [MapOrder]; a theorem
    about it therefore holds for every order the runtime may choose. *)

Class MapOrder := {
  map_keys : ∀ {V : Type}, gmap string V → list string;
  map_keys_perm : ∀ {V : Type} (m : gmap string V), map_keys m ≡ₚ (map_to_list m).*1;
}.

Lemma elem_of_map_keys `{MapOrder} {V} (m : gmap string V) k :
  k ∈ map_keys m ↔ is_Some (m !! k).
Proof.
  rewrite map_keys_perm, list_elem_of_fmap. split.
  - intros ([k' v] & -> & Hin). exists v. by apply elem_of_map_to_list.
  - intros [v Hv]. exists (k, v). split; [done|]. by apply elem_of_map_to_list.
Qed.

Lemma NoDup_map_keys `{MapOrder} {V} (m : gmap string V) : NoDup (map_keys m).
Proof. rewrite map_keys_perm. apply NoDup_fst_map_to_list. Qed.

(** Two concrete orders, for evaluation. *)
#[global] Program Instance sorted_order : MapOrder := {|
  map_keys V m := sort_strings (map_to_list m).*1
|}.
Next Obligation. intros. apply sort_strings_perm. Qed.

#[global] Program Instance reverse_order : MapOrder | 100 := {|
  map_keys V m := reverse (sort_strings (map_to_list m).*1)
|}.
Next Obligation. intros. by rewrite reverse_Permutation, sort_strings_perm. Qed.
