(* ===== verification/GoStrings.v ===== *)
(** * The parts of Go's string library the program uses

    A Go string is a sequence of bytes; [string] is a sequence of 8-bit
    [ascii], so slices, byte indexing, and comparison are modelled at byte
    level.  Indices and lengths are [nat]: Go slices by in-range indices only
    in the modelled code, and every slice below is guarded as the source
    guards it. *)

From S2P Require Import Prelude.

Local Open Scope string_scope.
Local Open Scope nat_scope.
Local Open Scope list_scope.

(** ** Slices *)

(** [s[n:]] *)
Fixpoint str_drop (n : nat) (s : string) : string :=
  match n, s with
  | O, _ => s
  | S _, EmptyString => EmptyString
  | S n, String _ s => str_drop n s
  end.

(** [s[:n]] *)
Fixpoint str_take (n : nat) (s : string) : string :=
  match n, s with
  | O, _ => EmptyString
  | S _, EmptyString => EmptyString
  | S n, String a s => String a (str_take n s)
  end.

(** Every byte of the string satisfies the test. *)
Fixpoint str_all (f : ascii → bool) (s : string) : bool :=
  match s with
  | EmptyString => true
  | String a s => f a && str_all f s
  end.

(** ** Package [strings] *)

(** [strings.HasPrefix(s, p)] *)
Definition has_prefix (s p : string) : bool := String.prefix p s.

(** [strings.HasSuffix(s, p)] *)
Definition has_suffix (s p : string) : bool :=
  (String.length p <=? String.length s)%nat &&
  String.eqb (str_drop (String.length s - String.length p) s) p.

(** [strings.CutSuffix(s, p)]: [None] when the second result is false. *)
Definition cut_suffix (s p : string) : option string :=
  if has_suffix s p then Some (str_take (String.length s - String.length p) s) else None.

(** [strings.TrimPrefix], [strings.TrimSuffix] *)
Definition trim_prefix (s p : string) : string :=
  if has_prefix s p then str_drop (String.length p) s else s.
Definition trim_suffix (s p : string) : string :=
  if has_suffix s p then str_take (String.length s - String.length p) s else s.

(** [strings.IndexByte(s, c)], with [None] for [-1]. *)
Fixpoint index_byte (s : string) (c : ascii) : option nat :=
  match s with
  | EmptyString => None
  | String a s => if Ascii.eqb a c then Some 0 else S <$> index_byte s c
  end.

(** [strings.LastIndexByte(s, c)], with [None] for [-1]. *)
Fixpoint last_index_byte (s : string) (c : ascii) : option nat :=
  match s with
  | EmptyString => None
  | String a s =>
      match last_index_byte s c with
      | Some i => Some (S i)
      | None => if Ascii.eqb a c then Some 0 else None
      end
  end.

(** [strings.TrimLeft] and [strings.TrimRight] for an ASCII cutset, given as a
    test on bytes. *)
Fixpoint trim_left (f : ascii → bool) (s : string) : string :=
  match s with
  | EmptyString => EmptyString
  | String a t => if f a then trim_left f t else s
  end.
Fixpoint trim_right (f : ascii → bool) (s : string) : string :=
  match s with
  | EmptyString => EmptyString
  | String a t =>
      match trim_right f t with
      | EmptyString => if f a then EmptyString else String a EmptyString
      | t' => String a t'
      end
  end.

Definition is_blank (a : ascii) : bool := Ascii.eqb a " " || Ascii.eqb a "009".

(** [strings.Split(s, sep)] for a one-byte separator. *)
Fixpoint split_byte (s : string) (sep : ascii) : list string :=
  match s with
  | EmptyString => [EmptyString]
  | String a s =>
      if Ascii.eqb a sep then EmptyString :: split_byte s sep
      else match split_byte s sep with
           | [] => [String a EmptyString]
           | w :: ws => String a w :: ws
           end
  end.

(** [strings.Join] *)
Fixpoint str_join (sep : string) (l : list string) : string :=
  match l with
  | [] => ""
  | [w] => w
  | w :: l => w +:+ sep +:+ str_join sep l
  end.

(** ASCII case mapping. *)
Definition byte_in (lo hi a : ascii) : bool :=
  (nat_of_ascii lo <=? nat_of_ascii a)%nat && (nat_of_ascii a <=? nat_of_ascii hi)%nat.
Definition ascii_lower (a : ascii) : ascii :=
  if byte_in "A" "Z" a then ascii_of_nat (nat_of_ascii a + 32) else a.
Fixpoint str_map (f : ascii → ascii) (s : string) : string :=
  match s with
  | EmptyString => EmptyString
  | String a s => String (f a) (str_map f s)
  end.

(** [unicode.IsSpace] as UTF-8 byte sequences: the White_Space code points. *)
Definition byte_string (l : list nat) : string := String.string_of_list_ascii (ascii_of_nat <$> l).
Definition space_runes : list string :=
  byte_string <$>
  [[9]; [10]; [11]; [12]; [13]; [32]; [194; 133]; [194; 160]; [225; 154; 128];
   [226; 128; 128]; [226; 128; 129]; [226; 128; 130]; [226; 128; 131];
   [226; 128; 132]; [226; 128; 133]; [226; 128; 134]; [226; 128; 135];
   [226; 128; 136]; [226; 128; 137]; [226; 128; 138]; [226; 128; 168];
   [226; 128; 169]; [226; 128; 175]; [226; 129; 159]; [227; 128; 128]]%nat.

(** [strings.TrimSpace]: each round strips one rune, so the length bounds the
    number of rounds. *)
Fixpoint trim_space_left (fuel : nat) (s : string) : string :=
  match fuel with
  | O => s
  | S fuel =>
      match filter (λ p, has_prefix s p = true) space_runes with
      | [] => s
      | p :: _ => trim_space_left fuel (str_drop (String.length p) s)
      end
  end.
Fixpoint trim_space_right (fuel : nat) (s : string) : string :=
  match fuel with
  | O => s
  | S fuel =>
      match filter (λ p, has_suffix s p = true) space_runes with
      | [] => s
      | p :: _ => trim_space_right fuel (str_take (String.length s - String.length p) s)
      end
  end.
Definition trim_space (s : string) : string :=
  let t := trim_space_left (String.length s) s in trim_space_right (String.length t) t.

(** ** Package [strconv] *)

(** [strconv.Itoa] *)
Definition itoa (z : Z) : string := pretty z.

Definition digit_val (a : ascii) : option Z :=
  if byte_in "0" "9" a then Some (Z.of_nat (nat_of_ascii a) - 48)%Z else None.
Fixpoint digits_val (acc : Z) (s : string) : option Z :=
  match s with
  | EmptyString => Some acc
  | String a s => d ← digit_val a; digits_val (acc * 10 + d)%Z s
  end.
Definition in_int64 (z : Z) : bool := (- 2 ^ 63 <=? z)%Z && (z <=? 2 ^ 63 - 1)%Z.

(** [strconv.Atoi] on a 64-bit platform: an optional sign, at least one
    decimal digit, and a value that fits; [None] for a non-nil error. *)
Definition atoi (s : string) : option Z :=
  let signed (neg : bool) (t : string) :=
    if String.eqb t "" then None
    else v ← digits_val 0 t;
         let z := if neg then (- v)%Z else v in
         if in_int64 z then Some z else None in
  match s with
  | String "-" t => signed true t
  | String "+" t => signed false t
  | _ => signed false s
  end.

(** [cmp.Compare] on ints and strings, as the three-way result it returns. *)
Definition cmp_result (c : comparison) : Z :=
  match c with Lt => -1 | Eq => 0 | Gt => 1 end.

(** ** Lemmas *)

Lemma append_nil_r s : s +:+ "" = s.
Proof. induction s; simpl; congruence. Qed.

Lemma append_assoc (s t u : string) : s +:+ (t +:+ u) = (s +:+ t) +:+ u.
Proof. induction s; simpl; congruence. Qed.

Lemma append_length s t : String.length (s +:+ t) = String.length s + String.length t.
Proof. induction s; simpl; lia. Qed.

Lemma length_zero_nil s : String.length s = 0 → s = "".
Proof. by destruct s. Qed.

Lemma take_drop_app n s : str_take n s +:+ str_drop n s = s.
Proof. revert s. induction n; intros [|a s]; simpl; f_equal; auto. Qed.

Lemma str_drop_app s t : str_drop (String.length s) (s +:+ t) = t.
Proof. induction s; simpl; auto. Qed.

Lemma str_take_app s t : str_take (String.length s) (s +:+ t) = s.
Proof. induction s; simpl; f_equal; auto. Qed.

Lemma str_drop_length n s : String.length (str_drop n s) = String.length s - n.
Proof. revert s. induction n; intros [|a s]; simpl; auto. Qed.

Lemma str_take_length (n : nat) s : (n ≤ String.length s)%nat → String.length (str_take n s) = n.
Proof. revert s. induction n; intros [|a s]; simpl; intros; auto; [lia|]. rewrite IHn; lia. Qed.

Lemma str_drop_drop n m s : str_drop n (str_drop m s) = str_drop (m + n) s.
Proof. revert s. induction m; intros [|a s]; simpl; auto. by destruct n. Qed.

Lemma append_inj_r s t u : s +:+ t = s +:+ u → t = u.
Proof. induction s; simpl; intros; simplify_eq; auto. Qed.

Lemma append_inj_len s s' t t' :
  String.length s = String.length s' → s +:+ t = s' +:+ t' → s = s' ∧ t = t'.
Proof.
  revert s'. induction s as [|a s IH]; intros [|a' s']; simpl; try lia; [auto|].
  intros Hl He. simplify_eq. destruct (IH s') as [-> ->]; auto.
Qed.

Lemma append_inj_l s t u : s +:+ u = t +:+ u → s = t.
Proof.
  intros H. assert (String.length s = String.length t) as Hl.
  { apply (f_equal String.length) in H. rewrite !append_length in H. lia. }
  by apply append_inj_len in H as [? _].
Qed.

Lemma has_prefix_spec s p : has_prefix s p = true ↔ ∃ t, s = p +:+ t.
Proof.
  unfold has_prefix. revert s. induction p as [|a p IH]; intros [|b s]; simpl.
  - split; eauto.
  - split; eauto.
  - split; [done|]. by intros [t ?].
  - destruct (ascii_dec a b) as [->|Hn].
    + rewrite IH. split; intros [t Ht]; exists t; simpl in *; congruence.
    + split; [done|]. intros [t ?]. simpl in *. congruence.
Qed.

Lemma has_prefix_app p t : has_prefix (p +:+ t) p = true.
Proof. apply has_prefix_spec. eauto. Qed.

Lemma has_suffix_spec s p : has_suffix s p = true ↔ ∃ t, s = t +:+ p.
Proof.
  unfold has_suffix. rewrite andb_true_iff, Nat.leb_le, String.eqb_eq. split.
  - intros [Hl He]. exists (str_take (String.length s - String.length p) s).
    rewrite <- He at 2. by rewrite take_drop_app.
  - intros [t ->]. rewrite append_length. split; [lia|].
    replace (_ + _ - _) with (String.length t) by lia. apply str_drop_app.
Qed.

Lemma cut_suffix_spec s p t : cut_suffix s p = Some t ↔ s = t +:+ p.
Proof.
  unfold cut_suffix. destruct (has_suffix s p) eqn:H.
  - apply has_suffix_spec in H as [u ->]. rewrite append_length.
    replace (_ + _ - _) with (String.length u) by lia. rewrite str_take_app.
    split; [by intros [= ->]|]. intros Heq%append_inj_l. congruence.
  - split; [done|]. intros ->. rewrite <- not_true_iff_false, has_suffix_spec in H.
    naive_solver.
Qed.

Lemma last_index_byte_None s c :
  last_index_byte s c = None ↔ ¬ ∃ t u, s = t +:+ String c u.
Proof.
  induction s as [|a s IH]; simpl.
  - split; [|done]. intros _ (t & u & H). by destruct t.
  - destruct (last_index_byte s c) as [i|].
    + split; [done|]. intros H. exfalso. cut (¬ ∃ t u, s = t +:+ String c u).
      { intros Hn. by apply IH in Hn. }
      intros (t & u & ->). apply H. by exists (String a t), u.
    + destruct (Ascii.eqb_spec a c) as [->|Hn]; split; auto; try done.
      * intros []. by exists "", s.
      * intros _ ([|b t] & u & Heq); simplify_eq/=. apply IH; eauto.
Qed.

Lemma last_index_byte_Some s c i :
  last_index_byte s c = Some i →
  s = str_take i s +:+ String c (str_drop (S i) s) ∧
  ¬ ∃ t u, str_drop (S i) s = t +:+ String c u.
Proof.
  revert i. induction s as [|a s IH]; simpl; [done|]. intros i.
  destruct (last_index_byte s c) as [j|] eqn:E.
  - intros [= <-]. destruct (IH j) as [H1 H2]; auto. simpl. split; [by f_equal|done].
  - destruct (Ascii.eqb_spec a c) as [->|]; [|done]. intros [= <-]. simpl.
    split; [by destruct s|]. replace (str_drop 0 s) with s by by destruct s.
    by apply last_index_byte_None.
Qed.

Lemma itoa_inj z w : itoa z = itoa w → z = w.
Proof. apply pretty_Z_inj. Qed.

Lemma itoa_nonempty z : itoa z ≠ "".
Proof.
  assert (∀ x s, String.length s ≤ String.length (pretty_N_go x s)) as Hlen.
  { intros x. induction (N.lt_wf_0 x) as [x _ IH]; intros s.
    assert (x = 0 ∨ 0 < x)%N as [->|Hx] by lia; [by rewrite pretty_N_go_0|].
    rewrite pretty_N_go_step by done. etrans; [|by apply IH, N.div_lt]. simpl. lia. }
  assert (∀ p, pretty (Npos p) ≠ "") as Hp.
  { intros p. unfold pretty, pretty_N. rewrite decide_False by done.
    rewrite pretty_N_go_step by done. intros He.
    specialize (Hlen (N.pos p `div` 10)%N (String (pretty_N_char (N.pos p `mod` 10)) "")).
    rewrite He in Hlen. simpl in Hlen. lia. }
  unfold itoa. destruct z; [done|apply Hp|done].
Qed.
