(* ===== verification/Position.v ===== *)
(** * Source positions and ranges ([core/position])

    [Pos] and [Range] with every operation of [pos.go] and [range.go]: the
    three-way comparison, validated construction, half-open membership, union
    and overlap.  Go [int] fields are [Z]; the operations only compare them. *)

From S2P Require Import Prelude GoStrings.

Local Open Scope string_scope.
Local Open Scope nat_scope.
Local Open Scope list_scope.

(** ** [pos.go] *)

Record Pos := MkPos {
  File : string;
  Line : Z;
  Column : Z;
  Offset : Z;
}.

#[global] Instance Pos_eq_dec : EqDecision Pos.
Proof. solve_decision. Defined.

Definition zero_pos : Pos := MkPos "" 0 0 0.

Definition At (file : string) (line column : Z) : Pos := MkPos file line column 0.
Definition AtOffset (file : string) (line column offset : Z) : Pos :=
  MkPos file line column offset.

Module PosOps.

Definition IsZero (p : Pos) : bool :=
  String.eqb (File p) "" && (Line p =? 0)%Z && (Column p =? 0)%Z && (Offset p =? 0)%Z.

Definition ToString (p : Pos) : string :=
  if IsZero p then ""
  else File p +:+
       (if (0 <? Line p)%Z then
          ":" +:+ itoa (Line p) +:+
          (if (0 <? Column p)%Z then ":" +:+ itoa (Column p) else "")
        else "").

Definition Compare (p other : Pos) : Z :=
  let c := cmp_result (String.compare (File p) (File other)) in
  if negb (c =? 0)%Z then c else
  let c := cmp_result (Z.compare (Line p) (Line other)) in
  if negb (c =? 0)%Z then c else
  let c := cmp_result (Z.compare (Column p) (Column other)) in
  if negb (c =? 0)%Z then c else
  cmp_result (Z.compare (Offset p) (Offset other)).

Definition Equal (p other : Pos) : bool := (Compare p other =? 0)%Z.
Definition Before (p other : Pos) : bool := (Compare p other <? 0)%Z.
Definition After (p other : Pos) : bool := (0 <? Compare p other)%Z.

Definition IsSynthetic (p : Pos) : bool :=
  has_prefix (File p) "<" && has_suffix (File p) ">" && (2 <=? String.length (File p))%nat.

Definition Synthetic (tag : string) : Pos := MkPos ("<" +:+ tag +:+ ">") 0 0 0.

End PosOps.

(** ** [range.go] *)

Record Range := MkRange {
  Start : Pos;
  End_ : Pos;
}.

#[global] Instance Range_eq_dec : EqDecision Range.
Proof. solve_decision. Defined.

(** The wrapped sentinels of [range.go]. *)
Inductive RangeError :=
| ErrCrossFileRange (f g : string)
| ErrInvalidRangeOrder (s e : Pos).

Module RangeOps.
Import PosOps.

Definition NewRange (start stop : Pos) : res RangeError Range :=
  if negb (String.eqb (File start) (File stop)) then
    Err (ErrCrossFileRange (File start) (File stop))
  else if After start stop then Err (ErrInvalidRangeOrder start stop)
  else Ok (MkRange start stop).

Definition IsZero (r : Range) : bool := PosOps.IsZero (Start r) && PosOps.IsZero (End_ r).

Definition Contains (r : Range) (p : Pos) : bool :=
  if IsZero r then false
  else if negb (String.eqb (File (Start r)) (File p)) then false
  else (Compare (Start r) p <=? 0)%Z && (Compare p (End_ r) <? 0)%Z.

Definition ToString (r : Range) : string :=
  if IsZero r then ""
  else if decide (Start r = End_ r) then PosOps.ToString (Start r)
  else PosOps.ToString (Start r) +:+ "-" +:+ PosOps.ToString (End_ r).

Definition Union (r other : Range) : res RangeError Range :=
  if IsZero r then Ok other
  else if IsZero other then Ok r
  else if negb (String.eqb (File (Start r)) (File (Start other))) then
    Err (ErrCrossFileRange (File (Start r)) (File (Start other)))
  else
    let start := if Before (Start other) (Start r) then Start other else Start r in
    let stop := if After (End_ other) (End_ r) then End_ other else End_ r in
    Ok (MkRange start stop).

Definition Overlaps (r other : Range) : bool :=
  if IsZero r || IsZero other then false
  else if negb (String.eqb (File (Start r)) (File (Start other))) then false
  else Before (Start r) (End_ other) && Before (Start other) (End_ r).

End RangeOps.

(** ** The order on positions *)

Import PosOps.

(** The order [Compare] decides, as a proposition. *)
Definition pos_le (p q : Pos) : Prop := (Compare p q <= 0)%Z.
Definition pos_lt (p q : Pos) : Prop := (Compare p q < 0)%Z.

#[global] Instance pos_le_dec p q : Decision (pos_le p q).
Proof. unfold pos_le. apply _. Defined.

Lemma cmp_result_zero c : (cmp_result c =? 0)%Z = true ↔ c = Eq.
Proof. by destruct c. Qed.

Lemma cmp_result_opp c : cmp_result (CompOpp c) = (- cmp_result c)%Z.
Proof. by destruct c. Qed.

(** [Compare] as the lexicographic combination of the field comparisons. *)
Definition pos_cmp (p q : Pos) : comparison :=
  match String.compare (File p) (File q) with
  | Eq => match Z.compare (Line p) (Line q) with
          | Eq => match Z.compare (Column p) (Column q) with
                  | Eq => Z.compare (Offset p) (Offset q)
                  | c => c
                  end
          | c => c
          end
  | c => c
  end.

Lemma Compare_pos_cmp p q : Compare p q = cmp_result (pos_cmp p q).
Proof.
  unfold Compare, pos_cmp. destruct (String.compare _ _); simpl; try done.
  destruct (Line p ?= Line q)%Z; simpl; try done.
  by destruct (Column p ?= Column q)%Z.
Qed.

Lemma pos_cmp_antisym p q : pos_cmp p q = CompOpp (pos_cmp q p).
Proof.
  unfold pos_cmp. rewrite (String.compare_antisym (File p)).
  destruct (String.compare (File q) (File p)); simpl; try done.
  rewrite (Z.compare_antisym (Line q)). destruct (Line q ?= Line p)%Z; simpl; try done.
  rewrite (Z.compare_antisym (Column q)). destruct (Column q ?= Column p)%Z; simpl; try done.
  by rewrite (Z.compare_antisym (Offset q)).
Qed.

Lemma pos_cmp_eq p q : pos_cmp p q = Eq ↔ p = q.
Proof.
  unfold pos_cmp. split.
  - destruct (String.compare _ _) eqn:H1; try done.
    destruct (Line p ?= Line q)%Z eqn:H2; try done.
    destruct (Column p ?= Column q)%Z eqn:H3; try done. intros H4.
    apply string_compare_eq in H1. apply Z.compare_eq in H2, H3, H4.
    destruct p, q; simpl in *; congruence.
  - intros ->. by rewrite string_compare_refl, !Z.compare_refl.
Qed.

Lemma pos_cmp_lt p q :
  pos_cmp p q = Lt ↔
  str_lt (File p) (File q) ∨ File p = File q ∧
  ((Line p < Line q)%Z ∨ Line p = Line q ∧
  ((Column p < Column q)%Z ∨ Column p = Column q ∧ (Offset p < Offset q)%Z)).
Proof.
  unfold pos_cmp, str_lt. rewrite <- string_compare_eq.
  destruct (String.compare (File p) (File q)); [|naive_solver..].
  destruct (Z.compare_spec (Line p) (Line q)); [|naive_solver lia..].
  destruct (Z.compare_spec (Column p) (Column q)); [|naive_solver lia..].
  rewrite Z.compare_lt_iff. naive_solver lia.
Qed.

Lemma pos_cmp_lt_trans p q r : pos_cmp p q = Lt → pos_cmp q r = Lt → pos_cmp p r = Lt.
Proof.
  rewrite !pos_cmp_lt.
  intros [Hf|[Hf Hr]] [Hf'|[Hf' Hr']].
  - left. by transitivity (File q).
  - left. by rewrite <- Hf'.
  - left. by rewrite Hf.
  - right. split; [congruence|]. lia.
Qed.

Lemma pos_lt_cmp p q : pos_lt p q ↔ pos_cmp p q = Lt.
Proof. unfold pos_lt. rewrite Compare_pos_cmp. by destruct (pos_cmp p q). Qed.

Lemma pos_le_cmp p q : pos_le p q ↔ pos_cmp p q ≠ Gt.
Proof. unfold pos_le. rewrite Compare_pos_cmp. by destruct (pos_cmp p q). Qed.

Lemma pos_le_lt_eq p q : pos_le p q ↔ pos_lt p q ∨ p = q.
Proof.
  rewrite pos_le_cmp, pos_lt_cmp, <- pos_cmp_eq. destruct (pos_cmp p q); naive_solver.
Qed.

#[global] Instance pos_lt_strict : StrictOrder pos_lt.
Proof.
  split.
  - intros p. unfold complement. rewrite pos_lt_cmp. by rewrite (proj2 (pos_cmp_eq p p)).
  - intros p q r. rewrite !pos_lt_cmp. apply pos_cmp_lt_trans.
Qed.

#[global] Instance pos_le_partial : PartialOrder pos_le.
Proof.
  split; [split|].
  - intros p. rewrite pos_le_lt_eq. auto.
  - intros p q r. rewrite !pos_le_lt_eq. intros [?|?] [?|?]; simplify_eq; auto.
    left. by transitivity q.
  - intros p q. rewrite !pos_le_lt_eq. intros [?|?] [?|?]; simplify_eq; auto.
    destruct (irreflexivity pos_lt p). by transitivity q.
Qed.

Lemma pos_lt_nle p q : pos_lt p q ↔ ¬ pos_le q p.
Proof.
  rewrite pos_lt_cmp, pos_le_cmp, (pos_cmp_antisym p).
  destruct (pos_cmp q p); naive_solver.
Qed.

Lemma pos_le_lt_trans p q r : pos_le p q → pos_lt q r → pos_lt p r.
Proof. rewrite pos_le_lt_eq. intros [?|?] ?; simplify_eq; auto. by transitivity q. Qed.

Lemma pos_lt_le_trans p q r : pos_lt p q → pos_le q r → pos_lt p r.
Proof. rewrite pos_le_lt_eq. intros ? [?|?]; simplify_eq; auto. by transitivity q. Qed.

Lemma Before_spec p q : Before p q = true ↔ pos_lt p q.
Proof. unfold Before, pos_lt. apply Z.ltb_lt. Qed.

Lemma After_spec p q : After p q = true ↔ pos_lt q p.
Proof.
  unfold After. rewrite Z.ltb_lt, Compare_pos_cmp, pos_lt_cmp, pos_cmp_antisym.
  by destruct (pos_cmp q p).
Qed.

#[global] Hint Rewrite Before_spec After_spec : eidos.

(** ** Ranges *)

(** The invariant [NewRange] establishes. *)
Definition range_wf (r : Range) : Prop :=
  File (Start r) = File (End_ r) ∧ pos_le (Start r) (End_ r).

Lemma NewRange_spec s e r :
  RangeOps.NewRange s e = Ok r ↔ r = MkRange s e ∧ range_wf r.
Proof.
  unfold RangeOps.NewRange, range_wf.
  destruct (String.eqb_spec (File s) (File e)) as [Hf|Hf]; simpl.
  - destruct (After s e) eqn:Ha.
    + apply After_spec, pos_lt_nle in Ha. split; [done|]. intros (-> & _ & H). done.
    + split; [|naive_solver]. intros [= <-]. repeat split; auto.
      destruct (decide (Compare s e <= 0)%Z); [done|].
      assert (After s e = true); [|congruence]. unfold After. apply Z.ltb_lt. lia.
  - split; [done|]. intros (-> & ? & _). done.
Qed.

Lemma Contains_spec r p :
  RangeOps.Contains r p = true ↔
  RangeOps.IsZero r = false ∧ File (Start r) = File p ∧ pos_le (Start r) p ∧ pos_lt p (End_ r).
Proof.
  unfold RangeOps.Contains, pos_le, pos_lt. destruct (RangeOps.IsZero r); [naive_solver|].
  destruct (String.eqb_spec (File (Start r)) (File p)); simpl; [|naive_solver].
  rewrite andb_true_iff, Z.leb_le, Z.ltb_lt. naive_solver.
Qed.

Lemma IsZero_range r : RangeOps.IsZero r = true → Start r = zero_pos ∧ End_ r = zero_pos.
Proof.
  unfold RangeOps.IsZero, PosOps.IsZero. rewrite !andb_true_iff, !String.eqb_eq, !Z.eqb_eq.
  destruct r as [[] []]; simpl; intros; unfold zero_pos; destruct_and!; by subst.
Qed.

Lemma nonempty_not_zero r : pos_lt (Start r) (End_ r) → RangeOps.IsZero r = false.
Proof.
  intros H. destruct (RangeOps.IsZero r) eqn:E; [|done].
  apply IsZero_range in E as [H1 H2]. rewrite H1, H2 in H. by apply irreflexivity in H.
Qed.

(** The later of two starts, in the same file, lies in both ranges as soon as
    it precedes both ends. *)
Lemma contains_later_start r o :
  File (Start r) = File (Start o) → pos_le (Start r) (Start o) →
  pos_lt (Start o) (End_ r) → pos_lt (Start o) (End_ o) →
  RangeOps.Contains r (Start o) = true ∧ RangeOps.Contains o (Start o) = true.
Proof.
  intros Hf Hle Hr Ho. rewrite !Contains_spec. repeat split; auto.
  - apply nonempty_not_zero. by eapply pos_le_lt_trans.
  - by apply nonempty_not_zero.
  - reflexivity.
Qed.

(** [Pos.Compare] is a total order that agrees with [==]: it is zero
    exactly on equal positions, flips sign when its arguments are swapped, and
    its [<= 0] relation is transitive, so sorting by it is well defined. *)
Theorem compare_total_order p q r :
  (Compare p q = 0 ↔ p = q)%Z ∧
  Compare q p = (- Compare p q)%Z ∧
  ((Compare p q <= 0)%Z ∧ (Compare q r <= 0)%Z → (Compare p r <= 0)%Z).
Proof.
  split_and!.
  - rewrite Compare_pos_cmp, <- pos_cmp_eq. by destruct (pos_cmp p q).
  - rewrite !Compare_pos_cmp, pos_cmp_antisym. apply cmp_result_opp.
  - intros [H1 H2]. by apply (transitivity (R := pos_le) (y := q)).
Qed.

(** [Range.Union] of two well-formed, non-zero ranges of one file succeeds
    with a well-formed range that contains every position of either and lies
    inside every range spanning both: the smallest such range. *)
Theorem union_least r o :
  range_wf r → range_wf o →
  RangeOps.IsZero r = false → RangeOps.IsZero o = false →
  File (Start r) = File (Start o) →
  ∃ u, RangeOps.Union r o = Ok u ∧ range_wf u ∧
    (∀ p, RangeOps.Contains r p = true ∨ RangeOps.Contains o p = true →
          RangeOps.Contains u p = true) ∧
    (∀ w, pos_le (Start w) (Start r) → pos_le (Start w) (Start o) →
          pos_le (End_ r) (End_ w) → pos_le (End_ o) (End_ w) →
          pos_le (Start w) (Start u) ∧ pos_le (End_ u) (End_ w)).
Proof.
  intros [Hfr Hr] [Hfo Ho] Zr Zo Hf. unfold RangeOps.Union. rewrite Zr, Zo.
  rewrite (proj2 (String.eqb_eq _ _) Hf). simpl. eexists. split; [done|].
  set (s := if Before _ _ then _ else _). set (e := if After _ _ then _ else _).
  assert (pos_le s (Start r) ∧ pos_le s (Start o) ∧ File s = File (Start r) ∧
          (s = Start r ∨ s = Start o)) as (Hs1 & Hs2 & Hs3 & Hs4).
  { unfold s. destruct (Before (Start o) (Start r)) eqn:E.
    - apply Before_spec in E. rewrite !pos_le_lt_eq. auto.
    - split_and!; auto; [reflexivity|].
      destruct (decide (pos_le (Start r) (Start o))) as [|n]; [done|].
      apply pos_lt_nle, Before_spec in n. congruence. }
  assert (pos_le (End_ r) e ∧ pos_le (End_ o) e ∧ File e = File (Start r) ∧
          (e = End_ r ∨ e = End_ o)) as (He1 & He2 & He3 & He4).
  { unfold e. destruct (After (End_ o) (End_ r)) eqn:E.
    - apply After_spec in E. rewrite !pos_le_lt_eq. split_and!; auto. congruence.
    - split_and!; auto; [reflexivity|].
      destruct (decide (pos_le (End_ o) (End_ r))) as [|n]; [done|].
      apply pos_lt_nle, After_spec in n. congruence. }
  split_and!.
  - split; simpl; [congruence|]. by do 2 (etrans; [eassumption|]).
  - intros p. rewrite !Contains_spec. simpl. intros Hp.
    assert (pos_le s p ∧ pos_lt p e ∧ File s = File p) as (H1 & H2 & H3).
    { destruct Hp as [(? & ? & H1 & H2)|(? & ? & H1 & H2)];
        (split_and!; [etrans; [|exact H1]; done|by eapply pos_lt_le_trans|congruence]). }
    split_and!; auto. apply nonempty_not_zero. by eapply pos_le_lt_trans.
  - simpl. intros w ????. destruct Hs4 as [->| ->], He4 as [->| ->]; auto.
Qed.

Lemma union_least_witness :
  ∃ u, RangeOps.Union (MkRange (At "a.go" 1 1) (At "a.go" 2 1))
                      (MkRange (At "a.go" 4 1) (At "a.go" 9 1)) = Ok u ∧ range_wf u.
Proof.
  destruct (union_least (MkRange (At "a.go" 1 1) (At "a.go" 2 1))
                        (MkRange (At "a.go" 4 1) (At "a.go" 9 1))) as (u & H & Hw & _).
  - split; [reflexivity|]. by vm_compute.
  - split; [reflexivity|]. by vm_compute.
  - reflexivity.
  - reflexivity.
  - reflexivity.
  - exists u. split; assumption.
Defined.

(** For non-empty ranges [Range.Overlaps] holds exactly when some position
    belongs to both ranges. *)
Theorem overlaps_iff_shared r o :
  pos_lt (Start r) (End_ r) → pos_lt (Start o) (End_ o) →
  RangeOps.Overlaps r o = true ↔
  ∃ p, RangeOps.Contains r p = true ∧ RangeOps.Contains o p = true.
Proof.
  intros Hr Ho. unfold RangeOps.Overlaps. rewrite !nonempty_not_zero by done. simpl.
  destruct (String.eqb_spec (File (Start r)) (File (Start o))) as [Hf|Hf]; simpl.
  - rewrite andb_true_iff, !Before_spec. split.
    + intros [H1 H2]. destruct (decide (pos_le (Start r) (Start o))) as [Hle|Hle].
      * exists (Start o). by apply contains_later_start.
      * apply pos_lt_nle in Hle. exists (Start r). apply and_comm.
        apply contains_later_start; auto. rewrite pos_le_lt_eq. auto.
    + intros (p & Hp). rewrite !Contains_spec in Hp. destruct_and!.
      split; by eapply pos_le_lt_trans.
  - split; [done|]. intros (p & Hp). rewrite !Contains_spec in Hp. destruct_and!. congruence.
Qed.

Lemma overlaps_iff_shared_witness :
  RangeOps.Overlaps (MkRange (At "a.go" 1 1) (At "a.go" 5 1))
                    (MkRange (At "a.go" 3 1) (At "a.go" 9 1)) = true.
Proof.
  apply overlaps_iff_shared; [by vm_compute|by vm_compute|].
  exists (At "a.go" 3 1). split; vm_compute; reflexivity.
Defined.

(** On an empty range strictly inside another one, [Range.Overlaps]
    answers true although no position belongs to the empty range: the
    documented "share at least one position" fails there. *)
Theorem overlaps_empty_range :
  ∃ r o, range_wf r ∧ range_wf o ∧ RangeOps.Overlaps r o = true ∧
    ∀ p, RangeOps.Contains r p = false.
Proof.
  exists (MkRange (At "a.go" 5 1) (At "a.go" 5 1)), (MkRange (At "a.go" 3 1) (At "a.go" 8 1)).
  split_and!; [by vm_compute..|]. intros p. apply not_true_iff_false.
  rewrite Contains_spec. simpl. intros (_ & _ & H1 & H2).
  apply pos_lt_nle in H2. done.
Qed.
