(* ===== verification/Diag.v ===== *)
(** * Diagnostics ([core/diag])

    The collector one run shares ([sink.go]), the per-plugin view of it
    ([plugin_sink.go]), severities ([severity.go]), panic containment
    ([recover.go]) and the human-readable summary ([text_formatter.go]).

    The mutable [Sink] is passed explicitly; a method that mutates it returns
    the new sink.  The mutex makes each method atomic and leaves no trace.  A
    [fmt.Sprintf] message is kept as its format string and arguments. *)

From S2P Require Import Prelude GoStrings Position.

Local Open Scope string_scope.
Local Open Scope nat_scope.
Local Open Scope list_scope.

(** ** [severity.go] *)

(** [Severity] is an [int]; the declared levels are the constants below and
    the type admits every other value. *)
Definition Severity := Z.
Definition Info : Severity := 0%Z.
Definition Warn : Severity := 1%Z.
Definition Error : Severity := 2%Z.
Definition Internal : Severity := 3%Z.

Definition Severity_String (s : Severity) : string :=
  if (s =? Info)%Z then "info"
  else if (s =? Warn)%Z then "warn"
  else if (s =? Error)%Z then "error"
  else if (s =? Internal)%Z then "internal"
  else "severity(" +:+ itoa s +:+ ")".

Inductive SeverityError := ErrUnknownSeverity (s : string).

Definition ParseSeverity (s : string) : res SeverityError Severity :=
  if String.eqb s "info" then Ok Info
  else if String.eqb s "warn" then Ok Warn
  else if String.eqb s "error" then Ok Error
  else if String.eqb s "internal" then Ok Internal
  else Err (ErrUnknownSeverity s).

(** ** [diag.go] *)

(** An argument of a formatted message. *)
Inductive arg :=
| AStr (s : string)
| AInt (z : Z)
| AList (l : list string).

Record message := Sprintf { format : string; args : list arg }.

Record Diag := MkDiag {
  d_severity : Severity;
  d_plugin : string;
  d_pos : Pos;
  d_message : message;
  d_detail : string;
}.

(** ** [sink.go], [helpers.go] *)

Record Sink := MkSink { diags : list Diag; discard : bool }.

Definition New : Sink := MkSink [] false.
Definition Capture : Sink := New.
Definition Discard : Sink := MkSink (diags New) true.

Definition Append (s : Sink) (d : Diag) : Sink :=
  if discard s then s else MkSink (diags s ++ [d]) (discard s).

Definition Sink_Errorf (s : Sink) (pos : Pos) (f : string) (a : list arg) : Sink :=
  Append s (MkDiag Error "" pos (Sprintf f a) "").
Definition Sink_Warnf (s : Sink) (pos : Pos) (f : string) (a : list arg) : Sink :=
  Append s (MkDiag Warn "" pos (Sprintf f a) "").
Definition Sink_Infof (s : Sink) (pos : Pos) (f : string) (a : list arg) : Sink :=
  Append s (MkDiag Info "" pos (Sprintf f a) "").
Definition Sink_Internalf (s : Sink) (pos : Pos) (f : string) (a : list arg) : Sink :=
  Append s (MkDiag Internal "" pos (Sprintf f a) "").

(** [PluginSink]: the sink it points at is the one the caller threads. *)
Record PluginSink := MkPluginSink { plugin_name : string }.
Definition For (plugin : string) : PluginSink := MkPluginSink plugin.

Definition Diagnostics (s : Sink) : list Diag := diags s.
Definition Count (s : Sink) (sev : Severity) : nat :=
  length (filter (λ d, d_severity d = sev) (diags s)).
Fixpoint has_errors_loop (l : list Diag) : bool :=
  match l with
  | [] => false
  | d :: l => if (Error <=? d_severity d)%Z then true else has_errors_loop l
  end.
Definition HasErrors (s : Sink) : bool := has_errors_loop (diags s).

(** ** [plugin_sink.go] *)

Definition Errorf (p : PluginSink) (s : Sink) (pos : Pos) (f : string) (a : list arg) : Sink :=
  Append s (MkDiag Error (plugin_name p) pos (Sprintf f a) "").
Definition Warnf (p : PluginSink) (s : Sink) (pos : Pos) (f : string) (a : list arg) : Sink :=
  Append s (MkDiag Warn (plugin_name p) pos (Sprintf f a) "").
Definition Infof (p : PluginSink) (s : Sink) (pos : Pos) (f : string) (a : list arg) : Sink :=
  Append s (MkDiag Info (plugin_name p) pos (Sprintf f a) "").
Definition AppendDetail (p : PluginSink) (s : Sink) (sev : Severity) (pos : Pos)
    (msg : message) (detail : string) : Sink :=
  Append s (MkDiag sev (plugin_name p) pos msg detail).

(** ** [recover.go]

    [r] is what [recover()] returns: [None] when the goroutine did not panic.
    [stack] is [debug.Stack()]. *)

Definition RecoverAs (p : PluginSink) (s : Sink) (pos : Pos) (r : option string)
    (stack : string) : Sink :=
  match r with
  | None => s
  | Some v =>
      AppendDetail p s Error pos
        (Sprintf "plugin %q panicked: %v" [AStr (plugin_name p); AStr v]) stack
  end.

Definition RecoverInternal (s : Sink) (pos : Pos) (location : string) (r : option string)
    (stack : string) : Sink :=
  match r with
  | None => s
  | Some v =>
      Append s (MkDiag Internal "" pos
        (Sprintf "internal panic in %s: %v" [AStr location; AStr v]) stack)
  end.

(** ** [text_formatter.go]: filtering and the summary line *)

Record TextFormatter := MkTextFormatter { Verbose : bool; HideSummary : bool }.

Definition tf_filter (f : TextFormatter) (ds : list Diag) : list Diag :=
  if Verbose f then ds else filter (λ d, d_severity d ≠ Info) ds.

Definition plural (n : nat) (noun : string) : string :=
  if (n =? 1)%nat then itoa (Z.of_nat n) +:+ " " +:+ noun
  else itoa (Z.of_nat n) +:+ " " +:+ noun +:+ "s".

Definition plainOrDash (s : string) : string := if String.eqb s "" then "-" else s.

Record tally := MkTally { errs : nat; warns : nat; infos : nat; internals : nat }.
Definition tally_add (t : tally) (d : Diag) : tally :=
  let 'MkTally e w i n := t in
  if (d_severity d =? Error)%Z then MkTally (S e) w i n
  else if (d_severity d =? Warn)%Z then MkTally e (S w) i n
  else if (d_severity d =? Info)%Z then MkTally e w (S i) n
  else if (d_severity d =? Internal)%Z then MkTally e w i (S n)
  else t.

Definition not_written_suffix : string := " (run completed; output not written due to errors)".

(** What [writeSummary] appends to the buffer. *)
Definition writeSummary (f : TextFormatter) (ds : list Diag) : string :=
  let 'MkTally e w i n := fold_left tally_add ds (MkTally 0 0 0 0) in
  let parts : list string :=
    ((if (0 <? e)%nat then [plural e "error"] else []) ++
    (if (0 <? w)%nat then [plural w "warning"] else []) ++
    (if (0 <? n)%nat then [plural n "internal error"] else []) ++
    (if negb (Verbose f) && (0 <? i)%nat
     then [plural i "info hidden" +:+ " (run with --verbose to show)"] else []))%list in
  match parts with
  | [] => ""
  | _ =>
      let suffix := if (0 <? e)%nat || (0 <? n)%nat then not_written_suffix else "" in
      str_join ", " parts +:+ suffix +:+ String "010" ""
  end.

(** ** Lemmas *)

Lemma diags_Append s d :
  diags (Append s d) = if discard s then diags s else diags s ++ [d].
Proof. unfold Append. by destruct (discard s). Qed.

Lemma discard_Append s d : discard (Append s d) = discard s.
Proof. unfold Append. by destruct (discard s) eqn:?. Qed.

Lemma has_errors_loop_spec l :
  has_errors_loop l = true ↔ ∃ d, d ∈ l ∧ (Error <= d_severity d)%Z.
Proof.
  induction l as [|d l IH]; simpl.
  - split; [done|]. intros (? & ?%elem_of_nil & _). done.
  - destruct (Z.leb_spec Error (d_severity d)) as [Hd|Hd].
    + split; [|done]. intros _. exists d. split; [left|done].
    + rewrite IH. split.
      * intros (d' & ? & ?). exists d'. split; [by right|done].
      * intros (d' & [->|?]%elem_of_cons & ?); [lia|]. by exists d'.
Qed.

Lemma tally_fold ds t :
  let t' := fold_left tally_add ds t in
  let n sev := length (filter (λ d, d_severity d = sev) ds) in
  errs t' = errs t + n Error ∧ warns t' = warns t + n Warn ∧
  infos t' = infos t + n Info ∧ internals t' = internals t + n Internal.
Proof.
  revert t. induction ds as [|d ds IH]; intros [e w i n]; [simpl; lia|].
  cbn [fold_left]. destruct (IH (tally_add (MkTally e w i n) d)) as (H1 & H2 & H3 & H4).
  cbv zeta. rewrite H1, H2, H3, H4, !filter_cons. unfold tally_add.
  unfold Error, Warn, Info, Internal in *.
  repeat case_decide; try (exfalso; lia);
    repeat match goal with
    | |- context [(?a =? ?b)%Z] => destruct (Z.eqb_spec a b); try (exfalso; lia)
    end; simpl; lia.
Qed.

(** ** Sequences of emissions *)

(** One call against the shared sink, by plugin or by the runtime. *)
Inductive emission :=
| EmErrorf (plugin : string) (pos : Pos) (f : string) (a : list arg)
| EmWarnf (plugin : string) (pos : Pos) (f : string) (a : list arg)
| EmInfof (plugin : string) (pos : Pos) (f : string) (a : list arg)
| EmDetail (plugin : string) (sev : Severity) (pos : Pos) (msg : message) (detail : string)
| EmRecover (plugin : string) (pos : Pos) (r : option string) (stack : string)
| EmInternal (pos : Pos) (location : string) (r : option string) (stack : string).

Definition emit (s : Sink) (e : emission) : Sink :=
  match e with
  | EmErrorf p pos f a => Errorf (For p) s pos f a
  | EmWarnf p pos f a => Warnf (For p) s pos f a
  | EmInfof p pos f a => Infof (For p) s pos f a
  | EmDetail p sev pos m d => AppendDetail (For p) s sev pos m d
  | EmRecover p pos r st => RecoverAs (For p) s pos r st
  | EmInternal pos loc r st => RecoverInternal s pos loc r st
  end.

(** Severity and attribution a reader of the run expects from one call;
    a recover without a panic contributes nothing. *)
Definition emission_outcome (e : emission) : list (Severity * string * Pos) :=
  match e with
  | EmErrorf p pos _ _ => [(Error, p, pos)]
  | EmWarnf p pos _ _ => [(Warn, p, pos)]
  | EmInfof p pos _ _ => [(Info, p, pos)]
  | EmDetail p sev pos _ _ => [(sev, p, pos)]
  | EmRecover p pos (Some _) _ => [(Error, p, pos)]
  | EmInternal pos _ (Some _) _ => [(Internal, "", pos)]
  | EmRecover _ _ None _ | EmInternal _ _ None _ => []
  end.

Definition attribution (d : Diag) : Severity * string * Pos :=
  (d_severity d, d_plugin d, d_pos d).

Lemma emit_step s e :
  discard (emit s e) = discard s ∧
  map attribution (diags (emit s e)) =
    if discard s then map attribution (diags s)
    else map attribution (diags s) ++ emission_outcome e.
Proof.
  destruct e as [| | | |p pos [r|] st|pos loc [r|] st];
    unfold emit, Errorf, Warnf, Infof, RecoverAs, RecoverInternal, AppendDetail;
    (split; [by rewrite ?discard_Append|]); rewrite ?diags_Append; simpl;
    destruct (discard s); rewrite ?map_app, ?app_nil_r; done.
Qed.

Lemma emit_all es s :
  discard (fold_left emit es s) = discard s ∧
  map attribution (diags (fold_left emit es s)) =
    map attribution (diags s) ++
    (if discard s then [] else concat (map emission_outcome es)).
Proof.
  revert s. induction es as [|e es IH]; intros s; simpl.
  - split; [done|]. destruct (discard s); by rewrite app_nil_r.
  - destruct (IH (emit s e)) as [-> ->]. destruct (emit_step s e) as [-> ->].
    split; [done|]. destruct (discard s); [done|]. by rewrite <- app_assoc.
Qed.

Lemma HasErrors_attribution s :
  HasErrors s = true ↔ ∃ a, a ∈ map attribution (diags s) ∧ (Error <= a.1.1)%Z.
Proof.
  unfold HasErrors. rewrite has_errors_loop_spec. split.
  - intros (d & Hd & ?). exists (attribution d). split; [|done].
    by apply (list_elem_of_fmap_2 attribution).
  - intros (a & (d & -> & Hd)%list_elem_of_fmap & ?). by exists d.
Qed.

(** Whatever plugins and the runtime emit, a recording sink holds one
    diagnostic per emission, in emission order and attributed to its emitter
    (a contained panic becomes one [Error] of the panicking plugin, a recover
    without a panic none), and [HasErrors] answers whether an [Error] or
    [Internal] one was emitted; a discarding sink stays empty. *)
Theorem sink_records_emissions es :
  map attribution (Diagnostics (fold_left emit es New)) = concat (map emission_outcome es) ∧
  (HasErrors (fold_left emit es New) = true ↔
     ∃ e a, e ∈ es ∧ a ∈ emission_outcome e ∧ (Error <= a.1.1)%Z) ∧
  Diagnostics (fold_left emit es Discard) = [] ∧
  HasErrors (fold_left emit es Discard) = false.
Proof.
  destruct (emit_all es New) as [_ HN]. destruct (emit_all es Discard) as [_ HD].
  simpl in HN, HD. assert (diags (fold_left emit es Discard) = []) as HD'.
  { by destruct (diags (fold_left emit es Discard)). }
  split_and!; [done| |done|].
  - rewrite HasErrors_attribution, HN. setoid_rewrite elem_of_concat_map. naive_solver.
  - unfold HasErrors. by rewrite HD'.
Qed.

(** On the four declared severities the summary line counts every
    diagnostic, including the hidden [Info] ones, as [Sink.Count] does, and
    carries the "output not written" suffix exactly when [HasErrors] holds. *)
Theorem summary_counts_and_suffix f ds :
  Forall (λ d, d_severity d ∈ [Info; Warn; Error; Internal]) ds →
  let s := MkSink ds false in
  let parts :=
    (if (0 <? Count s Error)%nat then [plural (Count s Error) "error"] else []) ++
    (if (0 <? Count s Warn)%nat then [plural (Count s Warn) "warning"] else []) ++
    (if (0 <? Count s Internal)%nat then [plural (Count s Internal) "internal error"] else []) ++
    (if negb (Verbose f) && (0 <? Count s Info)%nat
     then [plural (Count s Info) "info hidden" +:+ " (run with --verbose to show)"] else []) in
  writeSummary f ds =
    if (length parts =? 0)%nat then ""
    else str_join ", " parts +:+
         (if HasErrors s then not_written_suffix else "") +:+ String "010" "".
Proof.
  intros Hall. pose proof (tally_fold ds (MkTally 0 0 0 0)) as Ht. cbv zeta in Ht |- *.
  unfold writeSummary. destruct (fold_left _ _ _) as [e w i n]. simpl in Ht.
  destruct Ht as (-> & -> & -> & ->). unfold Count. cbn [diags].
  assert (HasErrors (MkSink ds false) =
    (0 <? length (filter (λ d, d_severity d = Error) ds))%nat ||
    (0 <? length (filter (λ d, d_severity d = Internal) ds))%nat) as ->; [|by split_match].
  apply eq_true_iff_eq. unfold HasErrors. rewrite has_errors_loop_spec, orb_true_iff, !Nat.ltb_lt.
  rewrite !filter_length_pos. split.
  - intros (d & Hd & Hs). rewrite Forall_forall in Hall. pose proof (Hall d Hd) as Hin.
    unfold Info, Warn, Error, Internal in *. rewrite !elem_of_cons, elem_of_nil in Hin.
    destruct Hin as [?|[?|[?|[?|[]]]]]; try lia; [left|right]; by exists d.
  - intros [(d & Hd & Hs)|(d & Hd & Hs)]; exists d; rewrite Hs; done.
Qed.

Lemma summary_counts_and_suffix_witness :
  writeSummary (MkTextFormatter false false)
    [MkDiag Warn "p" zero_pos (Sprintf "w" []) ""; MkDiag Error "q" zero_pos (Sprintf "e" []) ""]
  = "1 error, 1 warning (run completed; output not written due to errors)" +:+ String "010" "".
Proof.
  rewrite (summary_counts_and_suffix (MkTextFormatter false false)).
  - vm_compute. reflexivity.
  - repeat constructor; apply (bool_decide_unpack _); vm_compute; exact I.
Defined.
