(* ===== verification/Unicode.v ===== *)
(** * Runes

    Ranging over a Go string decodes UTF-8; an invalid byte yields
    [utf8.RuneError] of width one.  The Unicode letter and digit tables are a
    parameter: the code uses only that they extend the ASCII classes, that no
    rune is both, and that the replacement character is neither. *)

From S2P Require Import Prelude GoStrings.

Local Open Scope string_scope.
Local Open Scope nat_scope.
Local Open Scope list_scope.

Definition RuneError : N := 65533.

Definition between (lo hi n : N) : bool := (lo <=? n)%N && (n <=? hi)%N.
Definition cont (n : N) : bool := between 128 191 n.

(** The bytes that start a sequence, with its length and the range of the
    second byte. *)
Definition lead (b : N) : option (nat * N * N) :=
  if between 194 223 b then Some (2, 128%N, 191%N)
  else if (b =? 224)%N then Some (3, 160%N, 191%N)
  else if between 225 236 b || between 238 239 b then Some (3, 128%N, 191%N)
  else if (b =? 237)%N then Some (3, 128%N, 159%N)
  else if (b =? 240)%N then Some (4, 144%N, 191%N)
  else if between 241 243 b then Some (4, 128%N, 191%N)
  else if (b =? 244)%N then Some (4, 128%N, 143%N)
  else None.

Definition byte_at (s : string) (i : nat) : option N := N_of_ascii <$> String.get i s.

(** [utf8.DecodeRuneInString] on a non-empty string: the rune and its width. *)
Definition decode_rune (s : string) : N * nat :=
  match byte_at s 0 with
  | None => (RuneError, 0)
  | Some b0 =>
      if (b0 <? 128)%N then (b0, 1)
      else match lead b0, byte_at s 1 with
           | Some (n, lo, hi), Some b1 =>
               if negb (between lo hi b1) then (RuneError, 1)
               else if n =? 2 then (((b0 - 192) * 64 + (b1 - 128))%N, 2)
               else match byte_at s 2 with
                    | Some b2 =>
                        if negb (cont b2) then (RuneError, 1)
                        else if n =? 3
                        then ((((b0 - 224) * 64 + (b1 - 128)) * 64 + (b2 - 128))%N, 3)
                        else match byte_at s 3 with
                             | Some b3 =>
                                 if negb (cont b3) then (RuneError, 1)
                                 else (((((b0 - 240) * 64 + (b1 - 128)) * 64 + (b2 - 128)) * 64
                                         + (b3 - 128))%N, 4)
                             | None => (RuneError, 1)
                             end
                    | None => (RuneError, 1)
                    end
           | _, _ => (RuneError, 1)
           end
  end.

(** [for _, r := range s]: each rune with the bytes it was decoded from. *)
Fixpoint runes_fuel (fuel : nat) (s : string) : list (N * string) :=
  match fuel, s with
  | S fuel, String _ _ =>
      let '(r, w) := decode_rune s in (r, str_take w s) :: runes_fuel fuel (str_drop w s)
  | _, _ => []
  end.
Definition runes (s : string) : list (N * string) := runes_fuel (String.length s) s.

Definition ascii_letter (r : N) : bool := between 65 90 r || between 97 122 r.
Definition ascii_digit (r : N) : bool := between 48 57 r.

(** [unicode.IsLetter] and [unicode.IsDigit]. *)
Class UnicodeTables := {
  is_letter : N → bool;
  is_digit : N → bool;
  letter_ascii : ∀ r, (r < 128)%N → is_letter r = ascii_letter r;
  digit_ascii : ∀ r, (r < 128)%N → is_digit r = ascii_digit r;
  letter_not_digit : ∀ r, is_letter r = true → is_digit r = false;
  error_no_letter : is_letter RuneError = false;
  error_no_digit : is_digit RuneError = false;
}.

(** A table to evaluate with: ASCII, and the letters of Latin-1. *)
Definition latin_letter (r : N) : bool :=
  ascii_letter r || (between 192 255 r && negb (r =? 215)%N && negb (r =? 247)%N).
#[global] Program Instance latin_tables : UnicodeTables := {|
  is_letter := latin_letter;
  is_digit := ascii_digit;
|}.
Next Obligation.
  intros r Hr. unfold latin_letter, between.
  rewrite (proj2 (N.leb_gt 192 r)) by lia. by rewrite orb_false_r.
Qed.
Next Obligation. done. Qed.
Next Obligation.
  intros r. unfold latin_letter, ascii_letter, ascii_digit, between.
  rewrite <- not_true_iff_false, !orb_true_iff, !andb_true_iff, !N.leb_le. lia.
Qed.
Next Obligation. vm_compute. done. Qed.
Next Obligation. vm_compute. done. Qed.

Lemma decode_width s : s ≠ "" → 1 ≤ (decode_rune s).2 ≤ String.length s.
Proof.
  intros Hs. destruct s as [|a s]; [done|]. unfold decode_rune.
  assert (∀ i b, byte_at (String a s) i = Some b → i < String.length (String a s)) as Hlt.
  { intros i b. generalize (String a s). intros t. unfold byte_at.
    revert i. induction t as [|c t IH]; intros [|i] Hb; simpl in *; try done; [lia|].
    specialize (IH i Hb). lia. }
  assert (1 ≤ String.length (String a s)) by (simpl; lia). generalize dependent (String a s).
  intros t Ht Hlt H1. repeat (case_match; cbn [snd]; try lia);
    repeat match goal with H : byte_at t _ = Some _ |- _ => apply Hlt in H end; simplify_eq/=; try lia.
  destruct t; [done|]. done.
Qed.

(** Decoding loses no bytes. *)
Lemma runes_concat s : foldr String.append "" (runes s).*2 = s.
Proof.
  unfold runes. assert (∀ f s, String.length s ≤ f → foldr String.append "" (runes_fuel f s).*2 = s) as H.
  { induction f as [|f IH]; intros [|a t] Hl; simpl in Hl; try lia; try done.
    cbn [runes_fuel]. pose proof (decode_width (String a t)) as Hw.
    destruct (decode_rune (String a t)) as [r w]. simpl in Hw. cbn [fmap list_fmap foldr snd].
    rewrite IH; [apply take_drop_app|]. rewrite str_drop_length. simpl. specialize (Hw ltac:(done)). lia. }
  by apply H.
Qed.

(** ASCII bytes are runes of their own. *)
Lemma runes_ascii_cons a s :
  (N_of_ascii a < 128)%N → runes (String a s) = (N_of_ascii a, String a "") :: runes s.
Proof.
  intros Ha. unfold runes. cbn [String.length runes_fuel]. unfold decode_rune, byte_at. simpl.
  rewrite (proj2 (N.ltb_lt _ _) Ha). by destruct s.
Qed.

(** ** Text in JSON

    [encoding/json] writes a string as valid UTF-8: a byte that starts no rune
    is replaced by the replacement character, every other rune reads back as it
    was. *)

Definition broken (x : N * string) : bool := (x.1 =? RuneError)%N && (String.length x.2 =? 1).
Definition valid_utf8 (s : string) : bool := forallb (λ x, negb (broken x)) (runes s).

(** The bytes of [RuneError]. *)
Definition replacement : string := String "239" (String "191" (String "189" "")).
Definition json_text (s : string) : string :=
  foldr String.append "" ((λ x, if broken x then replacement else x.2) <$> runes s).

Lemma json_text_valid s : valid_utf8 s = true → json_text s = s.
Proof.
  intros Hv. rewrite <- (runes_concat s) at 2. unfold json_text, valid_utf8 in *. f_equal.
  induction (runes s) as [|x l IH]; [done|]. cbn in *. apply andb_true_iff in Hv as [Hx Hl].
  apply negb_true_iff in Hx as ->. by rewrite IH.
Qed.

Example json_text_examples :
  (json_text "a", json_text (String "255" "a")) = ("a", replacement +:+ "a").
Proof. vm_compute. done. Qed.
