(* ===== verification/Meta.v ===== *)
(** * Typed metadata with provenance ([core/meta])

    The authority ladder ([authority.go]), the per-owner store ([bag.go],
    [observer.go]), typed keys and their registry ([key.go]), the directive
    value parsers ([parser.go]) and the wire form ([bag_json.go]).

    A [*Bag] is an [option Bag]: every read tolerates [nil].  Writes are given
    the live bag; the lock makes each one atomic.  A slot is the Go array
    [[numAuthorities]*entry]: a list indexed by authority, and indexing it out
    of range panics after the slot has been created, as in the source.

    Values are the types the built-in parsers produce; [VRaw] is a
    [json.RawMessage], represented by the JSON value its bytes spell. *)

From S2P Require Import Prelude GoStrings Position Unicode.

Local Open Scope string_scope.
Local Open Scope nat_scope.
Local Open Scope list_scope.

(** ** [authority.go] *)

Definition Authority := Z.
Definition AuthorityPlugin : Authority := 0%Z.
Definition AuthorityDirective : Authority := 1%Z.
Definition AuthorityManual : Authority := 2%Z.
Definition numAuthorities : nat := 3.

Definition Authority_String (a : Authority) : string :=
  if (a =? AuthorityPlugin)%Z then "plugin"
  else if (a =? AuthorityDirective)%Z then "directive"
  else if (a =? AuthorityManual)%Z then "manual"
  else "authority(" +:+ itoa a +:+ ")".

Inductive AuthorityError := ErrUnknownAuthority (s : string).

Definition ParseAuthority (s : string) : res AuthorityError Authority :=
  if String.eqb s "plugin" then Ok AuthorityPlugin
  else if String.eqb s "directive" then Ok AuthorityDirective
  else if String.eqb s "manual" then Ok AuthorityManual
  else Err (ErrUnknownAuthority s).

(** ** Values *)

Inductive json :=
| JNull
| JBool (b : bool)
| JNum (z : Z)
| JStr (s : string)
| JArr (l : list json).

(** The type argument of a [Key]. *)
Inductive ty := TBool | TString | TInt | TStrings.

#[global] Instance ty_eq_dec : EqDecision ty.
Proof. solve_decision. Defined.

(** A non-nil [any]; [VStrings None] is the nil slice. *)
Inductive value :=
| VBool (b : bool)
| VString (s : string)
| VInt (z : Z)
| VStrings (l : option (list string))
| VRaw (j : json).

Definition has_ty (t : ty) (v : value) : bool :=
  match t, v with
  | TBool, VBool _ | TString, VString _ | TInt, VInt _ | TStrings, VStrings _ => true
  | _, _ => false
  end.

(** [json.Marshal] of a value; invalid UTF-8 in a string is replaced. *)
Definition json_marshal (v : value) : json :=
  match v with
  | VBool b => JBool b
  | VString s => JStr (json_text s)
  | VInt z => JNum z
  | VStrings None => JNull
  | VStrings (Some l) => JArr (JStr ∘ json_text <$> l)
  | VRaw j => j
  end.

Definition unmarshal_string (j : json) : option string :=
  match j with JStr s => Some s | JNull => Some "" | _ => None end.

(** [json.Unmarshal] into a variable of the given type: [null] leaves the
    zero value, a mismatch or an out-of-range number is an error. *)
Definition json_unmarshal (t : ty) (j : json) : option value :=
  match t, j with
  | TBool, JBool b => Some (VBool b)
  | TBool, JNull => Some (VBool false)
  | TString, _ => VString <$> unmarshal_string j
  | TInt, JNum z => if in_int64 z then Some (VInt z) else None
  | TInt, JNull => Some (VInt 0)
  | TStrings, JArr l => (VStrings ∘ Some) <$> mapM unmarshal_string l
  | TStrings, JNull => Some (VStrings None)
  | _, _ => None
  end.

(** ** [bag.go] *)

Record entry := MkEntry {
  tombstone : bool;
  e_value : option value;
  setBy : string;
  e_pos : Pos;
}.

Abbreviation slot := (list (option entry)).

Record Bag := MkBag {
  entries : gmap string slot;
  observers : list nat;
}.

(** [provenance.go] *)
Record Provenance := MkProvenance {
  p_authority : Authority;
  p_tombstone : bool;
  p_value : option value;
  p_setBy : string;
  p_pos : Pos;
  p_coveredBy : string;
}.

Definition NewBag : Bag := MkBag ∅ [].

(** The effect of a write: the bag it leaves, the observers it fired with the
    name they received, and whether it panicked. *)
Record effect := MkEffect {
  after : Bag;
  fired : list (nat * string);
  panicked : bool;
}.

Definition slotLocked (b : Bag) (name : string) : slot * Bag :=
  match entries b !! name with
  | Some s => (s, b)
  | None =>
      let s := replicate numAuthorities None in
      (s, MkBag (<[name := s]> (entries b)) (observers b))
  end.

(** [slot[auth] = e]; [None] when the index is out of range. *)
Definition slot_set (s : slot) (auth : Authority) (e : entry) : option slot :=
  if (0 <=? auth)%Z && (auth <? Z.of_nat numAuthorities)%Z
  then Some (<[Z.to_nat auth := Some e]> s) else None.

Definition slot_get (s : slot) (auth : Authority) : option entry := mjoin (s !! Z.to_nat auth).

Definition fireObservers (b : Bag) (name : string) : list (nat * string) :=
  (λ o, (o, name)) <$> observers b.

Definition setEntry (b : Bag) (name : string) (v : value) (auth : Authority)
    (by_ : string) (pos : Pos) : effect :=
  let '(s, b) := slotLocked b name in
  match slot_set s auth (MkEntry false (Some v) by_ pos) with
  | None => MkEffect b [] true
  | Some s' =>
      let b' := MkBag (<[name := s']> (entries b)) (observers b) in
      MkEffect b' (fireObservers b' name) false
  end.

Definition setTombstone (b : Bag) (name : string) (auth : Authority)
    (by_ : string) (pos : Pos) : effect :=
  let '(s, b) := slotLocked b name in
  match slot_set s auth (MkEntry true None by_ pos) with
  | None => MkEffect b [] true
  | Some s' => MkEffect (MkBag (<[name := s']> (entries b)) (observers b)) [] false
  end.

Definition TombstonePrefix (b : Bag) (prefix : string) (auth : Authority)
    (by_ : string) (pos : Pos) : effect :=
  setTombstone b prefix auth by_ pos.

Definition AddObserver (b : Bag) (o : nat) : Bag := MkBag (entries b) (observers b ++ [o]).

Definition entryToProv (e : entry) (auth : Authority) (coveredBy : string) : Provenance :=
  MkProvenance auth (tombstone e) (e_value e) (setBy e) (e_pos e) coveredBy.

Definition parentName (name : string) : string :=
  match last_index_byte name "." with
  | None => ""
  | Some i => str_take i name
  end.

(** The ancestor walk; each step shortens the name, so its length is enough
    fuel ([prefix_loop_ancestors]). *)
Fixpoint prefix_loop (fuel : nat) (b : Bag) (ancestor : string) (auth : Authority)
    : option (entry * string) :=
  match fuel with
  | O => None
  | S fuel =>
      if String.eqb ancestor "" then None
      else match entries b !! ancestor with
           | None => prefix_loop fuel b (parentName ancestor) auth
           | Some s =>
               match slot_get s auth with
               | Some e => if tombstone e then Some (e, ancestor)
                           else prefix_loop fuel b (parentName ancestor) auth
               | None => prefix_loop fuel b (parentName ancestor) auth
               end
           end
  end.

Definition prefixTombstoneLocked (b : Bag) (name : string) (auth : Authority)
    : option (entry * string) :=
  prefix_loop (String.length name) b (parentName name) auth.

Definition entryAtAuthorityLocked (b : Bag) (name : string) (auth : Authority)
    : option Provenance :=
  let direct := match entries b !! name with Some s => slot_get s auth | None => None end in
  let pt := prefixTombstoneLocked b name auth in
  match direct, pt with
  | Some e, _ =>
      if tombstone e then Some (entryToProv e auth "")
      else match pt with
           | Some (pe, pn) => Some (entryToProv pe auth pn)
           | None => Some (entryToProv e auth "")
           end
  | None, Some (pe, pn) => Some (entryToProv pe auth pn)
  | None, None => None
  end.

(** [for auth := numAuthorities - 1; auth >= 0; auth--]: [n] authorities are
    left to visit. *)
Fixpoint winning_loop (b : Bag) (name : string) (n : nat) : option Provenance :=
  match n with
  | O => None
  | S a => match entryAtAuthorityLocked b name (Z.of_nat a) with
           | Some p => Some p
           | None => winning_loop b name a
           end
  end.

Definition winningLocked (b : Bag) (name : string) : option Provenance :=
  winning_loop b name numAuthorities.

Definition Winning (ob : option Bag) (name : string) : option Provenance :=
  match ob with None => None | Some b => winningLocked b name end.

Definition Tombstoned (ob : option Bag) (name : string) : bool :=
  match ob with
  | None => false
  | Some b => match winningLocked b name with Some p => p_tombstone p | None => false end
  end.

(** [RawValue]: the inner option is the [any], [Some None] the nil one. *)
Definition RawValue (ob : option Bag) (name : string) : option (option value) :=
  match ob with
  | None => None
  | Some b =>
      match winningLocked b name with
      | None => None
      | Some p => if p_tombstone p then None else Some (p_value p)
      end
  end.

Definition Has (ob : option Bag) (name : string) : bool :=
  match RawValue ob name with Some _ => true | None => false end.

Definition History (ob : option Bag) (name : string) : list Provenance :=
  match ob with
  | None => []
  | Some b =>
      match entries b !! name with
      | None => []
      | Some s =>
          omap (λ a : nat, (λ e, entryToProv e (Z.of_nat a) "") <$> slot_get s (Z.of_nat a))
               (seq 0 numAuthorities)
      end
  end.

Definition Names (ob : option Bag) : list string :=
  match ob with
  | None => []
  | Some b => sort_strings (map_to_list (entries b)).*1
  end.

(** ** [parser.go] *)

Inductive ParseError := ErrParse (what raw : string).
Definition Parser := string → res ParseError value.

Definition BoolParser : Parser := λ raw,
  let l := str_map ascii_lower raw in
  if String.eqb l "" || String.eqb l "true" || String.eqb l "1" then Ok (VBool true)
  else if String.eqb l "false" || String.eqb l "0" then Ok (VBool false)
  else Err (ErrParse "bool" raw).
Definition StringParser : Parser := λ raw, Ok (VString raw).
Definition IntParser : Parser := λ raw,
  match atoi raw with
  | Some n => Ok (VInt n)
  | None => Err (ErrParse "int" raw)
  end.
Definition StringListParser : Parser := λ raw,
  if String.eqb raw "" then Ok (VStrings (Some []))
  else Ok (VStrings (Some (split_byte raw ","))).
Definition NodeRefParser : Parser := λ raw,
  if String.eqb raw "" then Err (ErrParse "empty node ref" "") else Ok (VString raw).

(** ** [key.go] *)

Record Key := MkKey { k_name : string; k_ty : ty; k_parser : Parser }.

(** The global registry, passed explicitly. *)
Abbreviation registry := (gmap string Key).

Definition register (r : registry) (k : Key) : run registry :=
  match r !! k_name k with
  | Some _ => Panics ("meta: duplicate key registration: " +:+ k_name k)
  | None => Returns (<[k_name k := k]> r)
  end.

Definition NewKey (r : registry) (name : string) (t : ty) (p : Parser) : run (Key * registry) :=
  let k := MkKey name t p in
  match register r k with
  | Returns r' => Returns (k, r')
  | Panics w => Panics w
  end.

Definition EnsureKey (r : registry) (name : string) (t : ty) (p : Parser)
    : run (Key * registry) :=
  match r !! name with
  | Some existing =>
      if decide (k_ty existing = t) then Returns (existing, r)
      else Panics ("meta: duplicate key registration: type mismatch for " +:+ name)
  | None =>
      let k := MkKey name t p in Returns (k, <[name := k]> r)
  end.

Inductive LookupError := ErrUnregisteredKey (name : string).
Definition Lookup (r : registry) (name : string) : res LookupError Key :=
  match r !! name with Some k => Ok k | None => Err (ErrUnregisteredKey name) end.

(** [Key.Get]: [Returns None] is the false second result; the type assertion
    [raw.(T)] panics on a value of another type. *)
Definition Get (k : Key) (ob : option Bag) : run (option value) :=
  match RawValue ob (k_name k) with
  | None => Returns None
  | Some (Some (VRaw j)) => Returns (json_unmarshal (k_ty k) j)
  | Some (Some v) => if has_ty (k_ty k) v then Returns (Some v)
                     else Panics "interface conversion"
  | Some None => Panics "interface conversion"
  end.

Definition Key_Has (k : Key) (ob : option Bag) : run bool :=
  match Get k ob with
  | Returns o => Returns (match o with Some _ => true | None => false end)
  | Panics w => Panics w
  end.

Definition SetAt (k : Key) (b : Bag) (v : value) (auth : Authority) (by_ : string) (pos : Pos)
    : effect := setEntry b (k_name k) v auth by_ pos.
Definition Set_ (k : Key) (b : Bag) (v : value) (by_ : string) : effect :=
  setEntry b (k_name k) v AuthorityPlugin by_ zero_pos.
Definition SetDirective (k : Key) (b : Bag) (v : value) (pos : Pos) : effect :=
  setEntry b (k_name k) v AuthorityDirective "directive" pos.
Definition SetManual (k : Key) (b : Bag) (v : value) (by_ : string) : effect :=
  setEntry b (k_name k) v AuthorityManual by_ zero_pos.
Definition Tombstone (k : Key) (b : Bag) (by_ : string) : effect :=
  setTombstone b (k_name k) AuthorityPlugin by_ zero_pos.
Definition TombstoneAt (k : Key) (b : Bag) (auth : Authority) (by_ : string) (pos : Pos)
    : effect := setTombstone b (k_name k) auth by_ pos.
Definition TombstoneDirective (k : Key) (b : Bag) (pos : Pos) : effect :=
  setTombstone b (k_name k) AuthorityDirective "directive" pos.
Definition TombstoneManual (k : Key) (b : Bag) (by_ : string) : effect :=
  setTombstone b (k_name k) AuthorityManual by_ zero_pos.

Definition SetDirectiveFromString (k : Key) (b : Bag) (raw : string) (pos : Pos)
    : res ParseError effect :=
  match k_parser k raw with
  | Err e => Err e
  | Ok v => Ok (SetDirective k b v pos)
  end.

(** ** [bag_json.go] *)

Record bagEntryJSON := MkBagEntryJSON {
  j_name : string;
  j_authority : Authority;
  j_tombstone : bool;
  j_value : option json;
  j_setBy : string;
  j_pos : Pos;
}.

(** The wire form; [WireNull] is the encoding of the nil bag. *)
Inductive wire := WireNull | WireEntries (l : list bagEntryJSON).

Definition marshalEntryValue (e : entry) : option json :=
  if tombstone e then None
  else match e_value e with None => None | Some v => Some (json_marshal v) end.

Definition marshal_slot (name : string) (s : slot) : list bagEntryJSON :=
  omap (λ a : nat,
    (λ e, MkBagEntryJSON name (Z.of_nat a) (tombstone e) (marshalEntryValue e)
                         (setBy e) (e_pos e)) <$> slot_get s (Z.of_nat a))
    (seq 0 numAuthorities).

(** The list [out.Entries]: names in order, authorities in order. *)
Definition marshal_list (b : Bag) : list bagEntryJSON :=
  concat (map
    (λ name, match entries b !! name with Some s => marshal_slot name s | None => [] end)
    (sort_strings (map_to_list (entries b)).*1)).

(** [json.Marshal] of a record: its strings as JSON keeps them. *)
Definition json_pos (p : Pos) : Pos := MkPos (json_text (File p)) (Line p) (Column p) (Offset p).
Definition json_entry (e : bagEntryJSON) : bagEntryJSON :=
  MkBagEntryJSON (json_text (j_name e)) (j_authority e) (j_tombstone e) (j_value e)
    (json_text (j_setBy e)) (json_pos (j_pos e)).

Definition MarshalJSON (ob : option Bag) : wire :=
  match ob with
  | None => WireNull
  | Some b => WireEntries (json_entry <$> marshal_list b)
  end.

Inductive UnmarshalError := ErrAuthorityRange (a : Authority).

(** One round of the decoding loop over the map under construction. *)
Definition unmarshal_entry (m : gmap string slot) (e : bagEntryJSON)
    : res UnmarshalError (gmap string slot) :=
  if (j_authority e <? 0)%Z || (Z.of_nat numAuthorities <=? j_authority e)%Z
  then Err (ErrAuthorityRange (j_authority e))
  else
    let s := match m !! j_name e with
             | Some s => s
             | None => replicate numAuthorities None
             end in
    let v := if j_tombstone e then None else VRaw <$> j_value e in
    Ok (<[j_name e := <[Z.to_nat (j_authority e) :=
          Some (MkEntry (j_tombstone e) v (j_setBy e) (j_pos e))]> s]> m).

Fixpoint unmarshal_loop (m : gmap string slot) (l : list bagEntryJSON)
    : res UnmarshalError (gmap string slot) :=
  match l with
  | [] => Ok m
  | e :: l => match unmarshal_entry m e with
              | Err x => Err x
              | Ok m => unmarshal_loop m l
              end
  end.

(** [null] leaves the wire struct empty, so it decodes to an empty bag. *)
Definition UnmarshalJSON (w : wire) : res UnmarshalError Bag :=
  match unmarshal_loop ∅ (match w with WireNull => [] | WireEntries l => l end) with
  | Err x => Err x
  | Ok m => Ok (MkBag m [])
  end.
