(* ===== verification/MetaLaws.v ===== *)
(** * Correctness of metadata resolution ([core/meta])

    The ancestor walk against its declarative meaning, the resolution rule as
    a specification, and its consequences: authority precedence under any
    interleaving of writes, the reach of a prefix tombstone, typed reads, and
    the JSON round trip. *)

From S2P Require Import Prelude GoStrings Position Meta Unicode.

Local Open Scope string_scope.
Local Open Scope nat_scope.
Local Open Scope list_scope.

(** ** Dotted ancestors *)

(** [a] is a non-empty proper dotted prefix of [n]. *)
Definition ancestor (a n : string) : Prop := a ≠ "" ∧ ∃ r, n = a +:+ String "." r.

Lemma parentName_cases n :
  (parentName n = "" ∧ ∀ a, ¬ ancestor a n) ∨
  (ancestor (parentName n) n ∧
   ∀ a, ancestor a n ↔ a = parentName n ∨ ancestor a (parentName n)).
Proof.
  unfold parentName. destruct (last_index_byte n ".") as [i|] eqn:E.
  - apply last_index_byte_Some in E as [Hn Hr].
    set (p := str_take i n) in *. set (r := str_drop (S i) n) in *. clearbody p r. subst n.
    assert (∀ a q, a +:+ String "." q = p +:+ String "." r →
                   a = p ∨ ∃ u, p = a +:+ String "." u) as Hsplit.
    { intros a. clear -Hr. revert p. induction a as [|x a IH]; intros [|y p] q; simpl.
      - auto.
      - intros [= <- ->]. right. eauto.
      - intros [= -> He]. exfalso. apply Hr. rewrite <- He. eauto.
      - intros [= -> He]. destruct (IH _ _ He) as [->|[u ->]]; eauto. }
    destruct (decide (p = "")) as [->|Hp]; [left|right].
    + split; [done|]. intros a [Ha [q Hq]]. destruct (Hsplit a q (eq_sym Hq)) as [->|[u Hu]]; [done|].
      by destruct a.
    + assert (ancestor p (p +:+ String "." r)) as Hanc by (split; eauto).
      split; [done|]. intros a. split.
      * intros [Ha [q Hq]]. destruct (Hsplit a q (eq_sym Hq)) as [->|[u ->]]; [by left|right].
        split; eauto.
      * intros [->|[Ha [u ->]]]; [done|]. split; [done|].
        exists (u +:+ String "." r). by rewrite <- append_assoc.
  - left. split; [done|]. intros a [Ha [r ->]].
    apply (proj1 (last_index_byte_None _ _) E). eauto.
Qed.

Lemma ancestor_length a n : ancestor a n → String.length a < String.length n.
Proof. intros [_ [r ->]]. rewrite append_length. simpl. lia. Qed.

Lemma ancestor_trans a b c : ancestor a b → ancestor b c → ancestor a c.
Proof.
  intros [Ha [r ->]] [Hb [q ->]]. split; [done|].
  exists (r +:+ String "." q). by rewrite <- append_assoc.
Qed.

Lemma parentName_length n : parentName n ≠ "" → String.length (parentName n) < String.length n.
Proof.
  intros Hp. destruct (parentName_cases n) as [[? _]|[Ha _]]; [done|]. by apply ancestor_length.
Qed.

(** ** Entries and the walk *)

Definition entry_at (b : Bag) (name : string) (auth : Authority) : option entry :=
  match entries b !! name with Some s => slot_get s auth | None => None end.

Definition tombstoned_at (b : Bag) (auth : Authority) (a : string) : Prop :=
  ∃ e, entry_at b a auth = Some e ∧ tombstone e = true.

Definition is_tombstone_at (b : Bag) (auth : Authority) (a : string) : option (entry * string) :=
  match entry_at b a auth with
  | Some e => if tombstone e then Some (e, a) else None
  | None => None
  end.

Lemma is_tombstone_at_Some b auth a e a' :
  is_tombstone_at b auth a = Some (e, a') ↔
  a' = a ∧ entry_at b a auth = Some e ∧ tombstone e = true.
Proof.
  unfold is_tombstone_at. destruct (entry_at b a auth) as [e'|]; [|split; [done|intros (_ & ? & _); done]].
  destruct (tombstone e') eqn:?; split; [intros [= <- <-]; done| |done|];
    intros (-> & [= <-] & ?); [done|congruence].
Qed.

Lemma prefix_loop_step f b anc auth :
  prefix_loop (S f) b anc auth =
  if String.eqb anc "" then None
  else match is_tombstone_at b auth anc with
       | Some r => Some r
       | None => prefix_loop f b (parentName anc) auth
       end.
Proof.
  unfold is_tombstone_at, entry_at. simpl. destruct (String.eqb anc ""); [done|].
  destruct (entries b !! anc) as [s|]; [|done].
  destruct (slot_get s auth) as [e|]; [|done]. by destruct (tombstone e).
Qed.

(** With enough fuel the walk finds the nearest tombstoned name among [anc]
    and its ancestors. *)
Lemma prefix_loop_ancestors f b anc auth :
  String.length anc ≤ f →
  match prefix_loop f b anc auth with
  | Some (e, a) =>
      (a = anc ∨ ancestor a anc) ∧ a ≠ "" ∧
      entry_at b a auth = Some e ∧ tombstone e = true ∧
      ∀ a', a' ≠ "" → a' = anc ∨ ancestor a' anc → tombstoned_at b auth a' →
            a' = a ∨ ancestor a' a
  | None => ∀ a', a' ≠ "" → a' = anc ∨ ancestor a' anc → ¬ tombstoned_at b auth a'
  end.
Proof.
  revert anc. induction f as [|f IH]; intros anc Hf.
  - simpl. intros a' Ha' [->|H]; [destruct anc; simpl in *; [done|lia]|].
    apply ancestor_length in H. lia.
  - rewrite prefix_loop_step. destruct (String.eqb_spec anc "") as [->|Hne].
    { intros a' Ha' [->|H]; [done|]. apply ancestor_length in H. simpl in H. lia. }
    destruct (is_tombstone_at b auth anc) as [[e a]|] eqn:Ht.
    + apply is_tombstone_at_Some in Ht as (-> & He & Hte). split_and!; auto.
    + assert (¬ tombstoned_at b auth anc) as Hno.
      { intros (e & He & Hte). assert (is_tombstone_at b auth anc = Some (e, anc)); [|congruence].
        by apply is_tombstone_at_Some. }
      destruct (parentName_cases anc) as [[Hp Hna]|[Hp Hiff]].
      * rewrite Hp. destruct f; simpl; intros a' Ha' [->|H]; naive_solver.
      * specialize (IH (parentName anc)).
        destruct (prefix_loop f b (parentName anc) auth) as [[e a]|].
        -- destruct IH as (Ha & Hane & He & Hte & Hmax).
           { apply ancestor_length in Hp. lia. }
           split_and!; auto.
           { right. apply Hiff. naive_solver. }
           intros a' Ha'ne [->|Ha'] Hta; [done|]. apply Hmax; auto. by apply Hiff.
        -- intros a' Ha'ne [->|Ha']; [done|]. apply IH; auto.
           { apply ancestor_length in Hp. lia. } by apply Hiff.
Qed.

Lemma prefixTombstone_spec b name auth :
  match prefixTombstoneLocked b name auth with
  | Some (e, a) =>
      ancestor a name ∧ entry_at b a auth = Some e ∧ tombstone e = true ∧
      ∀ a', ancestor a' name → tombstoned_at b auth a' → a' = a ∨ ancestor a' a
  | None => ∀ a', ancestor a' name → ¬ tombstoned_at b auth a'
  end.
Proof.
  unfold prefixTombstoneLocked. pose proof (prefix_loop_ancestors
    (String.length name) b (parentName name) auth) as H.
  destruct (parentName_cases name) as [[Hp Hna]|[Hp Hiff]].
  - rewrite Hp in *. destruct (prefix_loop _ _ _ _) as [[e a]|]; [|naive_solver].
    exfalso. destruct H as ([->|Ha] & ? & _); [simpl; lia|done|].
    apply ancestor_length in Ha. simpl in Ha. lia.
  - assert (String.length (parentName name) ≤ String.length name) as Hl.
    { apply ancestor_length in Hp. lia. }
    specialize (H Hl). destruct (prefix_loop _ _ _ _) as [[e a]|].
    + destruct H as (Ha & Hane & He & Hte & Hmax). split_and!; auto; [by apply Hiff|].
      intros a' Ha'. apply Hmax; [apply Ha'|by apply Hiff].
    + intros a' Ha'. apply H; [apply Ha'|by apply Hiff].
Qed.

(** ** The resolution rule as a specification *)

(** What wins at one authority: a tombstone at the name itself, else the
    tombstone of its nearest tombstoned ancestor, else the value. *)
Inductive resolves_at (b : Bag) (name : string) (auth : Authority) : Provenance → Prop :=
| resolves_tombstone e :
    entry_at b name auth = Some e → tombstone e = true →
    resolves_at b name auth (entryToProv e auth "")
| resolves_prefix e a :
    ¬ tombstoned_at b auth name → ancestor a name →
    entry_at b a auth = Some e → tombstone e = true →
    (∀ a', ancestor a' name → tombstoned_at b auth a' → a' = a ∨ ancestor a' a) →
    resolves_at b name auth (entryToProv e auth a)
| resolves_value e :
    entry_at b name auth = Some e → tombstone e = false →
    (∀ a, ancestor a name → ¬ tombstoned_at b auth a) →
    resolves_at b name auth (entryToProv e auth "").

(** The highest authority at which anything wins decides. *)
Definition resolves (b : Bag) (name : string) (p : Provenance) : Prop :=
  ∃ auth, (0 <= auth < 3)%Z ∧ resolves_at b name auth p ∧
    ∀ auth' q, (auth < auth' < 3)%Z → ¬ resolves_at b name auth' q.

Lemma entryAt_unfold b name auth :
  entryAtAuthorityLocked b name auth =
  match is_tombstone_at b auth name with
  | Some (e, _) => Some (entryToProv e auth "")
  | None => match prefixTombstoneLocked b name auth with
            | Some (e, a) => Some (entryToProv e auth a)
            | None => (λ e, entryToProv e auth "") <$> entry_at b name auth
            end
  end.
Proof.
  unfold entryAtAuthorityLocked, is_tombstone_at, entry_at.
  destruct (entries b !! name) as [s|]; simpl.
  - destruct (slot_get s auth) as [e|]; [destruct (tombstone e)|];
      by destruct (prefixTombstoneLocked b name auth) as [[]|].
  - by destruct (prefixTombstoneLocked b name auth) as [[]|].
Qed.

Lemma entryAt_resolves b name auth p :
  entryAtAuthorityLocked b name auth = Some p ↔ resolves_at b name auth p.
Proof.
  rewrite entryAt_unfold. pose proof (prefixTombstone_spec b name auth) as Hp.
  destruct (is_tombstone_at b auth name) as [[e a]|] eqn:Ht.
  - apply is_tombstone_at_Some in Ht as (-> & He & Hte). split.
    + intros [= <-]. by apply resolves_tombstone.
    + inversion 1; simplify_eq; try done. exfalso; eauto using ex_intro, conj.
      match goal with H : ¬ tombstoned_at _ _ _ |- _ => apply H end. by exists e.
  - assert (¬ tombstoned_at b auth name) as Hno.
    { intros (e & He & Hte). by rewrite (proj2 (is_tombstone_at_Some b auth name e name)) in Ht. }
    destruct (prefixTombstoneLocked b name auth) as [[e a]|].
    + destruct Hp as (Ha & He & Hte & Hmax). split.
      * intros [= <-]. by apply resolves_prefix.
      * inversion 1 as [e' He' Hte'|e' a' _ Ha' He' Hte' Hmax'|e' He' Hte' Hv]; subst.
        -- destruct Hno. by exists e'.
        -- assert (a = a') as ->.
           { destruct (Hmax a' Ha') as [?|H1]; [by exists e'|done|].
             destruct (Hmax' a Ha) as [?|H2]; [by exists e|done|].
             apply ancestor_length in H1, H2. lia. }
           congruence.
        -- destruct (Hv a Ha). by exists e.
    + destruct (entry_at b name auth) as [e|] eqn:He; simpl; split.
      * intros [= <-]. apply resolves_value; auto.
        destruct (tombstone e) eqn:?; [|done]. destruct Hno. by exists e.
      * inversion 1 as [|e' a' _ Ha' He' Hte' _|]; simplify_eq; try done.
        destruct (Hp a' Ha'). by exists e'.
      * done.
      * inversion 1 as [|e' a' _ Ha' He' Hte' _|]; simplify_eq.
        destruct (Hp a' Ha'). by exists e'.
Qed.

Lemma winning_loop_spec b name n p :
  winning_loop b name n = Some p ↔
  ∃ a : nat, a < n ∧ entryAtAuthorityLocked b name (Z.of_nat a) = Some p ∧
    ∀ a', a < a' < n → entryAtAuthorityLocked b name (Z.of_nat a') = None.
Proof.
  induction n as [|n IH]; simpl.
  - split; [done|]. intros (a & ? & _). lia.
  - destruct (entryAtAuthorityLocked b name (Z.of_nat n)) as [q|] eqn:E.
    + split.
      * intros [= ->]. exists n. split_and!; auto. lia.
      * intros (a & Ha & Hp & Hn). destruct (decide (a = n)) as [->|]; [congruence|].
        rewrite Hn in E by lia. done.
    + rewrite IH. split; intros (a & Ha & Hp & Hn); exists a; split_and!; auto.
      * intros a' ?. destruct (decide (a' = n)) as [->|]; [done|]. apply Hn. lia.
      * destruct (decide (a = n)) as [->|]; [congruence|lia].
      * intros a' ?. apply Hn. lia.
Qed.

Lemma Winning_resolves b name p :
  Winning (Some b) name = Some p ↔ resolves b name p.
Proof.
  simpl. unfold winningLocked, resolves, numAuthorities. rewrite winning_loop_spec. split.
  - intros (a & Ha & Hp & Hn). exists (Z.of_nat a). split_and!; [lia|lia|by apply entryAt_resolves|].
    intros auth' q Hb Hq. apply entryAt_resolves in Hq.
    rewrite <- (Z2Nat.id auth') in Hq by lia. rewrite Hn in Hq by lia. done.
  - intros (auth & Hb & Hp & Hn). exists (Z.to_nat auth). rewrite Z2Nat.id by lia.
    split_and!; [lia|by apply entryAt_resolves|].
    intros a' ?. destruct (entryAtAuthorityLocked b name (Z.of_nat a')) as [q|] eqn:E; [|done].
    apply entryAt_resolves in E. destruct (Hn (Z.of_nat a') q); [lia|done].
Qed.

(** C5: [Bag.Winning] implements the documented resolution rule: the entry it
    returns is the one the rule names -- highest authority first, and within
    an authority a direct tombstone, then the nearest ancestor's tombstone,
    then the value -- and it returns nothing exactly when the rule names none. *)
Theorem winning_implements_resolution b name p :
  Winning (Some b) name = Some p ↔ resolves b name p.
Proof. apply Winning_resolves. Qed.

(** ** Writes *)

(** The effect of one write on one (name, authority) entry. *)
Lemma slotLocked_lookup b name s b' n' :
  slotLocked b name = (s, b') →
  entries b' !! name = Some s ∧ observers b' = observers b ∧
  (n' ≠ name → entries b' !! n' = entries b !! n') ∧
  ∀ auth, slot_get s auth = entry_at b name auth.
Proof.
  unfold slotLocked, entry_at. destruct (entries b !! name) as [t|] eqn:E; intros [= <- <-]; simpl.
  - done.
  - rewrite lookup_insert_eq. split_and!; auto.
    + intros ?. by rewrite lookup_insert_ne.
    + intros auth. unfold slot_get. by destruct (Z.to_nat auth) as [|[|[|[]]]].
Qed.

(** Every slot has one cell per authority. *)
Definition bag_wf (b : Bag) : Prop := map_Forall (λ _ s, length s = numAuthorities) (entries b).

Inductive write :=
| WSet (name : string) (v : value) (auth : Authority) (by_ : string) (pos : Pos)
| WTombstone (name : string) (auth : Authority) (by_ : string) (pos : Pos).

Definition w_name (w : write) := match w with WSet n _ _ _ _ | WTombstone n _ _ _ => n end.
Definition w_auth (w : write) := match w with WSet _ _ a _ _ | WTombstone _ a _ _ => a end.
Definition w_entry (w : write) : entry :=
  match w with
  | WSet _ v _ by_ pos => MkEntry false (Some v) by_ pos
  | WTombstone _ _ by_ pos => MkEntry true None by_ pos
  end.
Definition do_write (b : Bag) (w : write) : effect :=
  match w with
  | WSet n v a by_ pos => setEntry b n v a by_ pos
  | WTombstone n a by_ pos => setTombstone b n a by_ pos
  end.
Definition run_writes (b : Bag) (ws : list write) : Bag :=
  fold_left (λ b w, after (do_write b w)) ws b.

Lemma slotLocked_wf b name s b' :
  slotLocked b name = (s, b') → bag_wf b → bag_wf b' ∧ length s = numAuthorities.
Proof.
  unfold slotLocked, bag_wf. destruct (entries b !! name) as [t|] eqn:E; intros [= <- <-] Hwf.
  - split; [done|]. by apply Hwf in E.
  - split; [|done]. by apply map_Forall_insert_2.
Qed.

Lemma do_write_after b w :
  after (do_write b w) =
  let '(s, b') := slotLocked b (w_name w) in
  match slot_set s (w_auth w) (w_entry w) with
  | None => b'
  | Some s' => MkBag (<[w_name w := s']> (entries b')) (observers b')
  end.
Proof.
  destruct w; simpl; unfold setEntry, setTombstone; destruct (slotLocked b name);
    by destruct (slot_set _ _ _).
Qed.

Lemma do_write_wf b w : bag_wf b → bag_wf (after (do_write b w)).
Proof.
  intros Hwf. rewrite do_write_after. destruct (slotLocked b (w_name w)) as [s b'] eqn:E.
  apply slotLocked_wf in E as [Hwf' Hs]; [|done]. destruct (slot_set s (w_auth w) (w_entry w)) as [s'|] eqn:Hs'; [|done].
  apply map_Forall_insert_2; [|done]. revert Hs'. unfold slot_set.
  case_match; intros [= <-]. by rewrite length_insert.
Qed.

Lemma entry_at_do_write b w name auth :
  bag_wf b → (0 <= auth < 3)%Z →
  entry_at (after (do_write b w)) name auth =
  if decide (w_name w = name ∧ w_auth w = auth) then Some (w_entry w)
  else entry_at b name auth.
Proof.
  intros Hwf Ha. rewrite do_write_after. destruct (slotLocked b (w_name w)) as [s b'] eqn:E.
  destruct (slotLocked_lookup _ _ _ _ name E) as (Hs & _ & Hne & Hg).
  apply slotLocked_wf in E as [_ Hlen]; [|done]. unfold slot_set, numAuthorities in *.
  destruct (decide (w_name w = name)) as [Hn|Hn].
  - subst name. destruct (_ && _) eqn:Hin; unfold entry_at at 1; simpl.
    + rewrite lookup_insert_eq. unfold slot_get at 1. bool_props.
      destruct (decide (w_auth w = auth)) as [<-|Hna].
      * rewrite list_lookup_insert_eq by lia. by rewrite decide_True.
      * rewrite list_lookup_insert_ne by lia. rewrite decide_False by naive_solver. apply Hg.
    + rewrite Hs, Hg, decide_False; [done|]. intros [_ <-].
      apply andb_false_iff in Hin as [?%Z.leb_gt|?%Z.ltb_ge]; lia.
  - rewrite (decide_False (P := _ ∧ _)) by naive_solver. unfold entry_at.
    destruct (_ && _); simpl; [rewrite lookup_insert_ne by done|]; by rewrite Hne.
Qed.

Lemma run_writes_wf b ws : bag_wf b → bag_wf (run_writes b ws).
Proof. revert b. induction ws; intros b Hwf; simpl; auto using do_write_wf. Qed.

#[global] Hint Resolve do_write_wf run_writes_wf : eidos.

(** Resolution at an authority reads only the entries at that authority. *)
Lemma entryAt_ext b b' name auth :
  (∀ n, entry_at b n auth = entry_at b' n auth) →
  entryAtAuthorityLocked b name auth = entryAtAuthorityLocked b' name auth.
Proof.
  intros He. assert (∀ n, is_tombstone_at b auth n = is_tombstone_at b' auth n) as Ht.
  { intros n. unfold is_tombstone_at. by rewrite He. }
  rewrite !entryAt_unfold, Ht, He. unfold prefixTombstoneLocked.
  replace (prefix_loop (String.length name) b (parentName name) auth)
    with (prefix_loop (String.length name) b' (parentName name) auth); [done|].
  generalize (parentName name). induction (String.length name) as [|f IH]; intros n; [done|].
  by rewrite !prefix_loop_step, Ht, IH.
Qed.

Lemma run_writes_entry b ws name auth :
  bag_wf b → (0 <= auth < 3)%Z → Forall (λ w, w_name w ≠ name ∨ w_auth w ≠ auth) ws →
  entry_at (run_writes b ws) name auth = entry_at b name auth.
Proof.
  intros Hwf Ha Hws. revert b Hwf. induction Hws as [|w ws Hw _ IH]; intros b Hwf; [done|].
  cbn [run_writes fold_left]. fold (run_writes (after (do_write b w)) ws).
  rewrite IH by auto with eidos. rewrite entry_at_do_write by done.
  rewrite decide_False; [done|]. naive_solver.
Qed.

Lemma resolves_at_authority b name auth p : resolves_at b name auth p → p_authority p = auth.
Proof. by destruct 1. Qed.

(** Writes at other authorities leave the resolution at [auth] alone. *)
Lemma run_writes_resolution b ws name auth :
  bag_wf b → (0 <= auth < 3)%Z → Forall (λ w, w_auth w ≠ auth) ws →
  entryAtAuthorityLocked (run_writes b ws) name auth = entryAtAuthorityLocked b name auth.
Proof.
  intros Hwf Ha Hws. apply entryAt_ext. intros n. apply run_writes_entry; auto.
  eapply Forall_impl; [exact Hws|]. naive_solver.
Qed.

(** Authority precedence holds whatever the write order: no sequence of
    writes below the winning entry's authority -- values or tombstones, at any
    names -- changes what the name resolves to.  In particular no plugin and
    no directive can shadow a manual override. *)
Theorem lower_writes_cannot_shadow b ws name p :
  bag_wf b → Winning (Some b) name = Some p →
  Forall (λ w, (w_auth w < p_authority p)%Z) ws →
  Winning (Some (run_writes b ws)) name = Some p.
Proof.
  simpl. unfold winningLocked, numAuthorities. intros Hwf Hp Hws.
  apply winning_loop_spec in Hp as (a & Ha & Hp & Hn). apply winning_loop_spec.
  exists a. pose proof (proj1 (entryAt_resolves _ _ _ _) Hp) as Hr.
  apply resolves_at_authority in Hr. rewrite Hr in Hws.
  assert (∀ a', a ≤ a' → Forall (λ w, w_auth w ≠ Z.of_nat a') ws) as Hne.
  { intros a' ?. eapply Forall_impl; [exact Hws|]. simpl. lia. }
  split_and!; [done| |].
  - rewrite run_writes_resolution; auto; lia.
  - intros a' ?. rewrite run_writes_resolution; [apply Hn; lia|done|lia|apply Hne; lia].
Qed.

Definition sample_key : Key := MkKey "shape.writer" TBool BoolParser.

Lemma lower_writes_cannot_shadow_witness :
  Winning (Some (run_writes (after (SetManual sample_key NewBag (VBool true) "test"))
                   [WTombstone "shape" AuthorityDirective "directive" zero_pos;
                    WSet "shape.writer" (VBool false) AuthorityPlugin "p" zero_pos]))
          "shape.writer"
  = Some (MkProvenance AuthorityManual false (Some (VBool true)) "test" zero_pos "").
Proof.
  apply lower_writes_cannot_shadow.
  - apply (do_write_wf NewBag (WSet _ _ _ _ _)). apply map_Forall_empty.
  - vm_compute. reflexivity.
  - repeat constructor; vm_compute; reflexivity.
Defined.

(** A prefix tombstone also covers descendants set later: after
    [TombstonePrefix prefix auth], any later writes at [auth] or below that do
    not replace the tombstone itself by a value leave every descendant that
    nothing above [auth] decides tombstoned, hence not set. *)
Theorem prefix_tombstone_covers b ws prefix auth by_ pos d :
  bag_wf b → (0 <= auth < 3)%Z → ancestor prefix d →
  (∀ a q, (auth < a < 3)%Z → ¬ resolves_at b d a q) →
  Forall (λ w, (w_auth w <= auth)%Z ∧
               (w_name w = prefix → w_auth w = auth → tombstone (w_entry w) = true)) ws →
  let b' := run_writes (after (TombstonePrefix b prefix auth by_ pos)) ws in
  Tombstoned (Some b') d = true ∧ Has (Some b') d = false.
Proof.
  intros Hwf Ha Hanc Hab Hws b'.
  set (w0 := WTombstone prefix auth by_ pos).
  assert (b' = run_writes b (w0 :: ws)) as Hb' by done.
  assert (Forall (λ w, (w_auth w <= auth)%Z) (w0 :: ws)) as Hlow.
  { constructor; [simpl; lia|]. eapply Forall_impl; [exact Hws|]. naive_solver. }
  assert (tombstoned_at b' auth prefix) as Ht.
  { unfold tombstoned_at. rewrite Hb'. clear Hab Hlow Hanc Hb' b'.
    assert (∃ e, entry_at (after (do_write b w0)) prefix auth = Some e ∧ tombstone e = true) as H0.
    { rewrite entry_at_do_write by done. exists (w_entry w0). by rewrite decide_True. }
    cbn [run_writes fold_left]. assert (bag_wf (after (do_write b w0))) as Hwf0 by auto with eidos.
    revert H0 Hwf0. generalize (after (do_write b w0)). clear Hwf b w0. induction Hws as [|w ws [_ Hw] _ IH]; [done|].
    intros b0 H0 Hwf0. simpl. apply IH; auto with eidos.
    rewrite entry_at_do_write by done. case_decide as Hd; [|done].
    exists (w_entry w). split; [done|]. naive_solver. }
  assert (∃ q, entryAtAuthorityLocked b' d auth = Some q ∧ p_tombstone q = true) as (q & Hq & Hqt).
  { rewrite entryAt_unfold. pose proof (prefixTombstone_spec b' d auth) as Hs.
    destruct (is_tombstone_at b' auth d) as [[e x]|] eqn:E.
    - apply is_tombstone_at_Some in E as (-> & _ & ?). eexists. split; [done|done].
    - destruct (prefixTombstoneLocked b' d auth) as [[e x]|].
      + destruct Hs as (_ & _ & ? & _). eexists. split; [done|done].
      + by destruct (Hs prefix Hanc). }
  assert (Winning (Some b') d = Some q) as HW.
  { apply Winning_resolves.
    exists auth. split_and!; [lia|lia|by apply entryAt_resolves|].
    intros a q' ? Hq'. apply (Hab a q'); [lia|]. apply entryAt_resolves.
    apply entryAt_resolves in Hq'. rewrite Hb' in Hq'.
    rewrite run_writes_resolution in Hq'; [done|done|lia|].
    eapply Forall_impl; [exact Hlow|]. simpl. lia. }
  unfold Tombstoned, Has, RawValue. simpl in HW. by rewrite HW, Hqt.
Qed.

Lemma prefix_tombstone_covers_witness :
  let b' := run_writes
    (after (TombstonePrefix NewBag "shape.writer" AuthorityDirective "directive" zero_pos))
    [WSet "shape.writer.method" (VString "Write") AuthorityPlugin "p" zero_pos;
     WSet "shape.writer.method" (VString "Put") AuthorityDirective "directive" zero_pos] in
  Tombstoned (Some b') "shape.writer.method" = true ∧ Has (Some b') "shape.writer.method" = false.
Proof.
  apply prefix_tombstone_covers.
  - apply map_Forall_empty.
  - by vm_compute.
  - split; [discriminate|]. by exists "method".
  - intros a q _ Hq. by inversion Hq.
  - repeat constructor; simpl; try discriminate; lia.
Defined.

(** A typed value written through a key at an authority that nothing above
    outranks and no ancestor tombstone covers is what [Get] returns, and every
    registered observer is notified of the name once, in registration order. *)
Theorem set_then_get k b v auth by_ pos :
  bag_wf b → (0 <= auth < 3)%Z → has_ty (k_ty k) v = true →
  (∀ a q, (auth < a < 3)%Z → ¬ resolves_at b (k_name k) a q) →
  (∀ a, ancestor a (k_name k) → ¬ tombstoned_at b auth a) →
  let eff := SetAt k b v auth by_ pos in
  Get k (Some (after eff)) = Returns (Some v) ∧
  fired eff = (λ o, (o, k_name k)) <$> observers b ∧ panicked eff = false.
Proof.
  intros Hwf Ha Hty Hab Hanc eff. set (w := WSet (k_name k) v auth by_ pos).
  assert (Winning (Some (after eff)) (k_name k)
          = Some (MkProvenance auth false (Some v) by_ pos "")) as HW.
  { apply Winning_resolves. exists auth. change (after eff) with (after (do_write b w)).
    split_and!; [lia|lia| |].
    - apply (resolves_value _ _ _ (w_entry w)); [|done|].
      + rewrite entry_at_do_write by done. by rewrite decide_True.
      + intros a Hn (e & He & Hte). rewrite entry_at_do_write in He by done.
        rewrite decide_False in He; [apply (Hanc a Hn); by exists e|].
        intros [Heq _]. simpl in Heq. apply ancestor_length in Hn. subst a. lia.
    - intros a' q ? Hq. apply (Hab a' q); [lia|]. apply entryAt_resolves.
      apply entryAt_resolves in Hq. rewrite <- Hq. symmetry.
      apply (run_writes_resolution b [w]); [done|lia|]. repeat constructor. simpl. lia. }
  split_and!.
  - unfold Get, RawValue. simpl in HW. rewrite HW. simpl. rewrite Hty. by destruct v, (k_ty k).
  - unfold eff, SetAt, setEntry. destruct (slotLocked b (k_name k)) as [s b1] eqn:E.
    destruct (slotLocked_lookup _ _ _ _ "" E) as (_ & Ho & _). unfold slot_set.
    destruct (_ && _) eqn:Hin; [simpl; unfold fireObservers; simpl; by rewrite Ho|].
    unfold numAuthorities in Hin. apply andb_false_iff in Hin as [?%Z.leb_gt|?%Z.ltb_ge]; lia.
  - unfold eff, SetAt, setEntry. destruct (slotLocked b (k_name k)) as [s b1]. unfold slot_set.
    destruct (_ && _) eqn:Hin; [done|].
    unfold numAuthorities in Hin. apply andb_false_iff in Hin as [?%Z.leb_gt|?%Z.ltb_ge]; lia.
Qed.

Lemma set_then_get_witness :
  let b := AddObserver (AddObserver NewBag 7) 9 in
  let eff := SetAt sample_key b (VBool true) AuthorityDirective "directive" zero_pos in
  Get sample_key (Some (after eff)) = Returns (Some (VBool true)) ∧
  fired eff = [(7, "shape.writer"); (9, "shape.writer")] ∧ panicked eff = false.
Proof.
  apply (set_then_get sample_key (AddObserver (AddObserver NewBag 7) 9)).
  - apply map_Forall_empty.
  - by vm_compute.
  - reflexivity.
  - intros a q _ Hq. by inversion Hq.
  - intros a _ (e & He & _). discriminate He.
Defined.

(** ** Typed reads *)

(** Every value entry holds a value of the type its registered key declares,
    or raw JSON still to be decoded. *)
Definition value_ok (t : ty) (v : value) : Prop :=
  has_ty t v = true ∨ ∃ j, v = VRaw j.

Definition bag_typed (r : registry) (b : Bag) : Prop :=
  ∀ name k auth e, (0 <= auth < 3)%Z → r !! name = Some k →
    entry_at b name auth = Some e → tombstone e = false →
    ∃ v, e_value e = Some v ∧ value_ok (k_ty k) v.

Definition write_typed (r : registry) (w : write) : Prop :=
  match w with
  | WSet n v _ _ _ => ∀ k, r !! n = Some k → value_ok (k_ty k) v
  | WTombstone _ _ _ _ => True
  end.

Lemma do_write_typed r b w :
  bag_wf b → bag_typed r b → write_typed r w → bag_typed r (after (do_write b w)).
Proof.
  intros Hwf Hb Hw name k auth e Ha Hk. rewrite entry_at_do_write by done.
  case_decide as Hd; [|by eapply Hb]. intros [= <-] Hte. destruct Hd as [<- _].
  destruct w as [n v a by_ pos|]; [|done]. exists v. split; [done|]. by apply Hw.
Qed.

Lemma NewBag_typed r : bag_wf NewBag ∧ bag_typed r NewBag.
Proof. split; [apply map_Forall_empty|]. by intros name k auth e. Qed.

Lemma run_writes_typed r b ws :
  bag_wf b → bag_typed r b → Forall (write_typed r) ws → bag_typed r (run_writes b ws).
Proof.
  intros Hwf Hb Hws. revert b Hwf Hb. induction Hws as [|w ws Hw _ IH]; intros b Hwf Hb; [done|].
  simpl. apply IH; [auto with eidos|]. by apply do_write_typed.
Qed.

Lemma Winning_value_entry b name p :
  Winning (Some b) name = Some p → p_tombstone p = false →
  ∃ auth e, (0 <= auth < 3)%Z ∧ entry_at b name auth = Some e ∧
            tombstone e = false ∧ e_value e = p_value p.
Proof.
  intros (auth & Ha & Hr & _)%Winning_resolves Ht.
  destruct Hr as [e He Hte|e a _ _ _ Hte _|e He Hte _]; simpl in Ht; try congruence.
  by exists auth, e.
Qed.

Lemma Get_typed r b k :
  bag_typed r b → r !! k_name k = Some k → ∃ o, Get k (Some b) = Returns o.
Proof.
  intros Hb Hk. unfold Get, RawValue. destruct (winningLocked b (k_name k)) as [p|] eqn:HW; [|eauto].
  destruct (p_tombstone p) eqn:Ht; [eauto|].
  destruct (Winning_value_entry b (k_name k) p HW Ht) as (auth & e & Ha & He & Hte & Hv).
  destruct (Hb _ _ _ _ Ha Hk He Hte) as (v & Hev & Hok). rewrite <- Hv, Hev.
  destruct Hok as [Hty|[j ->]]; [|eauto]. rewrite Hty. destruct v; eauto.
Qed.

(** The type assertion inside [Key.Get] never panics: in a bag built by any
    sequence of writes that store, under each registered name, values of the
    type its key declares (or raw JSON), reading a registered key returns. *)
Theorem typed_get_never_panics r ws k :
  Forall (write_typed r) ws → r !! k_name k = Some k →
  ∃ o, Get k (Some (run_writes NewBag ws)) = Returns o.
Proof.
  intros Hws Hk. apply (Get_typed r); [|done]. by apply run_writes_typed; [apply (NewBag_typed r)..|].
Qed.

Lemma typed_get_never_panics_witness :
  ∃ o, Get sample_key (Some (run_writes NewBag
         [WSet "shape.writer" (VBool true) AuthorityPlugin "p" zero_pos])) = Returns o.
Proof.
  apply (typed_get_never_panics {["shape.writer" := sample_key]}).
  - constructor; [|constructor]. intros k' [_ <-]%lookup_singleton_Some. by left.
  - reflexivity.
Defined.

(** ** The wire form *)

(** What decoding leaves of an entry: the value as raw JSON. *)
Definition raw_entry (e : entry) : entry :=
  MkEntry (tombstone e)
    (if tombstone e then None else VRaw <$> (json_marshal <$> e_value e))
    (setBy e) (e_pos e).

Definition wire_of (name : string) (auth : Authority) (e : entry) : bagEntryJSON :=
  MkBagEntryJSON name auth (tombstone e) (marshalEntryValue e) (setBy e) (e_pos e).

Lemma elem_of_marshal_list b w :
  w ∈ marshal_list b ↔
  ∃ name auth e, (0 <= auth < 3)%Z ∧ entry_at b name auth = Some e ∧ w = wire_of name auth e.
Proof.
  unfold marshal_list. rewrite elem_of_concat_map. unfold marshal_slot, entry_at, numAuthorities.
  setoid_rewrite elem_of_sort_strings. split.
  - intros (name & Hn & Hw). destruct (entries b !! name) as [s|] eqn:Es; [|by apply elem_of_nil in Hw].
    apply list_elem_of_omap in Hw as (a & Ha & Hw). apply elem_of_seq in Ha.
    destruct (slot_get s (Z.of_nat a)) as [e|] eqn:Ee; simpl in Hw; simplify_eq.
    exists name, (Z.of_nat a), e. rewrite Es. split_and!; auto; lia.
  - intros (name & auth & e & Ha & He & ->).
    destruct (entries b !! name) as [s|] eqn:Es; [|done]. exists name. rewrite Es. split.
    + apply list_elem_of_fmap. exists (name, s). split; [done|]. by apply elem_of_map_to_list.
    + apply list_elem_of_omap. exists (Z.to_nat auth). rewrite Z2Nat.id by lia. rewrite He.
      split; [|done]. apply elem_of_seq. lia.
Qed.

(** The entry a wire record decodes to. *)
Definition dec_entry (w : bagEntryJSON) : entry :=
  MkEntry (j_tombstone w) (if j_tombstone w then None else VRaw <$> j_value w)
          (j_setBy w) (j_pos w).

Lemma dec_wire_of name auth e : dec_entry (wire_of name auth e) = raw_entry e.
Proof.
  unfold dec_entry, wire_of, raw_entry, marshalEntryValue. simpl.
  destruct (tombstone e); [done|]. by destruct (e_value e).
Qed.

Definition as_bag (m : gmap string slot) : Bag := MkBag m [].

Lemma unmarshal_entry_spec m w :
  bag_wf (as_bag m) → (0 <= j_authority w < 3)%Z →
  ∃ m', unmarshal_entry m w = Ok m' ∧ bag_wf (as_bag m') ∧
    ∀ n a, (0 <= a < 3)%Z → entry_at (as_bag m') n a =
      if decide (j_name w = n ∧ j_authority w = a) then Some (dec_entry w)
      else entry_at (as_bag m) n a.
Proof.
  intros Hwf Ha. unfold unmarshal_entry, numAuthorities.
  rewrite (proj2 (Z.ltb_ge _ _)), (proj2 (Z.leb_gt _ _)) by lia. simpl.
  set (s := match m !! j_name w with Some s => s | None => _ end).
  assert (length s = 3 ∧ ∀ a, slot_get s a = entry_at (as_bag m) (j_name w) a) as [Hs Hg].
  { unfold s, entry_at. simpl. destruct (m !! j_name w) eqn:E; [by apply Hwf in E|].
    split; [done|]. intros a. unfold slot_get. by destruct (Z.to_nat a) as [|[|[|[]]]]. }
  eexists. split; [done|]. split.
  { apply map_Forall_insert_2; [by rewrite length_insert|done]. }
  intros n a Hb. unfold entry_at at 1. simpl. destruct (decide (j_name w = n)) as [<-|Hn].
  - rewrite lookup_insert_eq. unfold slot_get. destruct (decide (j_authority w = a)) as [<-|Hna].
    + rewrite list_lookup_insert_eq by lia. by rewrite decide_True.
    + rewrite list_lookup_insert_ne by lia. rewrite decide_False by naive_solver. apply Hg.
  - rewrite lookup_insert_ne by done. by rewrite decide_False by naive_solver.
Qed.

(** Decoding a list whose records are all determined by their (name,
    authority) pair. *)
Lemma unmarshal_loop_spec (f : string → Authority → entry) l m :
  bag_wf (as_bag m) →
  Forall (λ w, (0 <= j_authority w < 3)%Z ∧ dec_entry w = f (j_name w) (j_authority w)) l →
  ∃ m', unmarshal_loop m l = Ok m' ∧ bag_wf (as_bag m') ∧
    ∀ n a, (0 <= a < 3)%Z → entry_at (as_bag m') n a =
      if decide ((n, a) ∈ (λ w, (j_name w, j_authority w)) <$> l) then Some (f n a)
      else entry_at (as_bag m) n a.
Proof.
  intros Hwf Hl. revert m Hwf. induction Hl as [|w l [Ha Hd] _ IH]; intros m Hwf.
  { exists m. split_and!; auto. }
  destruct (unmarshal_entry_spec m w Hwf Ha) as (m1 & Hm1 & Hwf1 & He1).
  destruct (IH m1 Hwf1) as (m2 & Hm2 & Hwf2 & He2). exists m2. simpl. rewrite Hm1.
  split_and!; auto. intros n a Hb. rewrite He2, He1 by done. rewrite !Hd.
  destruct (decide ((n, a) ∈ _)) as [Hin|Hin].
  - rewrite decide_True; [done|]. by right.
  - case_decide as Hd1.
    + destruct Hd1 as [<- <-]. rewrite decide_True; [done|]. left.
    + rewrite decide_False; [done|]. rewrite elem_of_cons. naive_solver.
Qed.

(** Go [int] values fit 64 bits; a text is kept when it is valid UTF-8. *)
Definition value_encodable (v : value) : bool :=
  match v with
  | VInt z => in_int64 z
  | VString s => valid_utf8 s
  | VStrings (Some l) => forallb valid_utf8 l
  | _ => true
  end.

Definition entry_encodable (n : string) (e : entry) : Prop :=
  valid_utf8 n = true ∧ valid_utf8 (setBy e) = true ∧ valid_utf8 (File (e_pos e)) = true ∧
  ∀ v, e_value e = Some v → value_encodable v = true.

Definition bag_encodable (b : Bag) : Prop :=
  ∀ n a e, (0 <= a < 3)%Z → entry_at b n a = Some e → entry_encodable n e.

Lemma do_write_encodable b w :
  bag_wf b → bag_encodable b → entry_encodable (w_name w) (w_entry w) →
  bag_encodable (after (do_write b w)).
Proof.
  intros Hwf Hb Hw n a e Ha. rewrite entry_at_do_write by done.
  case_decide as Hd; [destruct Hd as [<- _]; intros [= <-]; apply Hw|by apply Hb].
Qed.

Lemma json_entry_id b : bag_encodable b → json_entry <$> marshal_list b = marshal_list b.
Proof.
  intros Hb. rewrite <- (list_fmap_id (marshal_list b)) at 2. apply Forall_fmap_ext_1, Forall_forall.
  intros w (n & a & e & Ha & He & ->)%elem_of_marshal_list.
  destruct (Hb n a e Ha He) as (Hn & Hs & Hp & _). unfold json_entry, json_pos, wire_of. simpl.
  rewrite !json_text_valid by done. by destruct (e_pos e).
Qed.

Lemma unmarshal_marshal b :
  bag_encodable b →
  ∃ b', UnmarshalJSON (MarshalJSON (Some b)) = Ok b' ∧ bag_wf b' ∧ observers b' = [] ∧
    ∀ n a, (0 <= a < 3)%Z → entry_at b' n a = raw_entry <$> entry_at b n a.
Proof.
  intros Henc.
  set (f n a := match entry_at b n a with Some e => raw_entry e | None => MkEntry true None "" zero_pos end).
  destruct (unmarshal_loop_spec f (marshal_list b) ∅) as (m & Hm & Hwf & He).
  { apply map_Forall_empty. }
  { apply Forall_forall. intros w (n & a & e & Ha & Hea & ->)%elem_of_marshal_list.
    split; [done|]. rewrite dec_wire_of. unfold f. simpl. by rewrite Hea. }
  exists (as_bag m). unfold UnmarshalJSON, MarshalJSON. rewrite json_entry_id, Hm by done.
  split_and!; auto. intros n a Ha. rewrite He by done.
  destruct (entry_at b n a) as [e|] eqn:E; simpl.
  - rewrite decide_True; [unfold f; by rewrite E|]. apply list_elem_of_fmap.
    exists (wire_of n a e). split; [done|]. apply elem_of_marshal_list. eauto 7.
  - rewrite decide_False; [done|]. intros (w & Hw & Hin)%list_elem_of_fmap.
    apply elem_of_marshal_list in Hin as (n' & a' & e' & _ & He' & ->). simpl in Hw. congruence.
Qed.

(** The wire records of one name, from its entries. *)
Definition name_records (b : Bag) (name : string) : list bagEntryJSON :=
  omap (λ a : nat, wire_of name (Z.of_nat a) <$> entry_at b name (Z.of_nat a)) (seq 0 numAuthorities).

Definition live_names (b : Bag) : list string :=
  filter (λ n, name_records b n ≠ []) (sort_strings (map_to_list (entries b)).*1).

Lemma name_records_slot b n :
  match entries b !! n with Some s => marshal_slot n s | None => [] end = name_records b n.
Proof.
  unfold name_records, entry_at, marshal_slot. by destruct (entries b !! n).
Qed.

Lemma marshal_list_live b : marshal_list b = concat (map (name_records b) (live_names b)).
Proof.
  unfold marshal_list, live_names. rewrite (map_ext _ _ (name_records_slot b)).
  apply concat_map_nonempty.
Qed.

Lemma live_names_sorted b : StronglySorted str_le (live_names b).
Proof.
  unfold live_names. pose proof (sort_strings_sorted (map_to_list (entries b)).*1) as Hs.
  induction Hs as [|n l _ IH Hn]; [constructor|]. rewrite filter_cons.
  case_decide; [|done]. constructor; [done|].
  rewrite Forall_forall in Hn |- *. intros m Hm%list_elem_of_filter. naive_solver.
Qed.

Lemma elem_of_live_names b n : n ∈ live_names b ↔ name_records b n ≠ [].
Proof.
  unfold live_names. rewrite list_elem_of_filter, elem_of_sort_strings. split; [naive_solver|].
  intros H. split; [done|]. unfold name_records, entry_at in H.
  destruct (entries b !! n) as [s|] eqn:E; [|done].
  apply list_elem_of_fmap. exists (n, s). split; [done|]. by apply elem_of_map_to_list.
Qed.

Lemma NoDup_live_names b : NoDup (live_names b).
Proof.
  apply NoDup_filter. rewrite sort_strings_perm. apply NoDup_fst_map_to_list.
Qed.

Lemma wire_of_raw n a e : wire_of n a (raw_entry e) = wire_of n a e.
Proof.
  unfold wire_of, marshalEntryValue, raw_entry. simpl.
  destruct (tombstone e); [done|]. by destruct (e_value e).
Qed.

(** [b'] holds the entries of [b] with raw values. *)
Definition raw_image (b' b : Bag) : Prop :=
  ∀ n a, (0 <= a < 3)%Z → entry_at b' n a = raw_entry <$> entry_at b n a.

Lemma raw_image_records b' b n : raw_image b' b → name_records b' n = name_records b n.
Proof.
  intros Hr. unfold name_records.
  assert (∀ a : nat, a < 3 → wire_of n (Z.of_nat a) <$> entry_at b' n (Z.of_nat a) =
                             wire_of n (Z.of_nat a) <$> entry_at b n (Z.of_nat a)) as Ha.
  { intros a ?. rewrite Hr by lia. destruct (entry_at b n (Z.of_nat a)); simpl; [|done].
    by rewrite wire_of_raw. }
  unfold numAuthorities. cbn [seq]. simpl omap. cbn [omap list_omap].
  by rewrite !Ha by lia.
Qed.

Lemma raw_image_marshal b' b : raw_image b' b → marshal_list b' = marshal_list b.
Proof.
  intros Hr. rewrite !marshal_list_live. replace (live_names b') with (live_names b).
  - f_equal. apply map_ext. intros n. by apply raw_image_records.
  - apply (StronglySorted_unique str_le); [apply live_names_sorted..|].
    apply NoDup_Permutation; [apply NoDup_live_names..|]. intros n.
    by rewrite !elem_of_live_names, (raw_image_records b' b).
Qed.

Definition raw_prov (p : Provenance) : Provenance :=
  MkProvenance (p_authority p) (p_tombstone p)
    (if p_tombstone p then None else VRaw <$> (json_marshal <$> p_value p))
    (p_setBy p) (p_pos p) (p_coveredBy p).

Lemma raw_image_prefix b' b f n a :
  raw_image b' b → (0 <= a < 3)%Z →
  prefix_loop f b' n a = (λ '(e, x), (raw_entry e, x)) <$> prefix_loop f b n a.
Proof.
  intros Hr Ha. revert n. induction f as [|f IH]; intros n; [done|]. rewrite !prefix_loop_step.
  destruct (String.eqb n ""); [done|]. unfold is_tombstone_at. rewrite Hr by done.
  destruct (entry_at b n a) as [e|]; simpl; [|apply IH]. destruct (tombstone e); [done|apply IH].
Qed.

Lemma raw_image_entryAt b' b n a :
  raw_image b' b → (0 <= a < 3)%Z →
  entryAtAuthorityLocked b' n a = raw_prov <$> entryAtAuthorityLocked b n a.
Proof.
  intros Hr Ha. rewrite !entryAt_unfold. unfold prefixTombstoneLocked, is_tombstone_at.
  rewrite (raw_image_prefix b' b) by done. rewrite Hr by done.
  destruct (entry_at b n a) as [e|]; simpl.
  - destruct (tombstone e) eqn:?; [done|].
    destruct (prefix_loop _ _ _ _) as [[e' x]|]; done.
  - by destruct (prefix_loop _ _ _ _) as [[e' x]|].
Qed.

Lemma raw_image_winning b' b n :
  raw_image b' b → winningLocked b' n = raw_prov <$> winningLocked b n.
Proof.
  intros Hr. unfold winningLocked, numAuthorities. cbn [winning_loop].
  rewrite !(raw_image_entryAt b' b) by (done || lia).
  destruct (entryAtAuthorityLocked b n (Z.of_nat 2)); [done|].
  destruct (entryAtAuthorityLocked b n (Z.of_nat 1)); [done|].
  by destruct (entryAtAuthorityLocked b n (Z.of_nat 0)).
Qed.

Lemma mapM_unmarshal_strings l :
  forallb valid_utf8 l = true → mapM unmarshal_string (JStr ∘ json_text <$> l) = Some l.
Proof.
  induction l as [|s l IH]; [done|]. cbn -[valid_utf8 json_text]. intros [Hs Hl]%andb_true_iff.
  by rewrite IH, json_text_valid.
Qed.

Lemma json_value_roundtrip t v :
  has_ty t v = true → value_encodable v = true → json_unmarshal t (json_marshal v) = Some v.
Proof.
  destruct t, v as [b|s|z|[l|]|j]; try done; cbn [json_marshal json_unmarshal value_encodable unmarshal_string];
    intros _ Hv.
  - by rewrite json_text_valid.
  - by rewrite Hv.
  - by rewrite mapM_unmarshal_strings.
Qed.

Lemma raw_image_get r b' b k :
  raw_image b' b → bag_typed r b → bag_encodable b → r !! k_name k = Some k →
  Get k (Some b') = Get k (Some b).
Proof.
  intros Hr Ht Hi Hk. unfold Get, RawValue. rewrite (raw_image_winning b' b) by done.
  destruct (winningLocked b (k_name k)) as [p|] eqn:HW; simpl; [|done].
  destruct (p_tombstone p) eqn:Hp; simpl; [done|].
  destruct (Winning_value_entry b _ p HW Hp) as (a & e & Ha & He & Hte & Hv).
  destruct (Ht _ _ _ _ Ha Hk He Hte) as (v & Hev & Hok). rewrite <- Hv, Hev. simpl.
  destruct Hok as [Hty|[j ->]]; [|done]. rewrite json_value_roundtrip; [|done|by eapply Hi].
  rewrite Hty. by destruct v, (k_ty k).
Qed.

(** C27: Encoding and decoding a bag preserves what it means, for bags whose
    values have their keys' types and can be encoded: the value types are those
    of the package's parsers (bool, string, int and []string), ints fit 64
    bits, and names, setters, file names and string values are valid UTF-8,
    which [encoding/json] does not keep otherwise
    ([invalid_text_is_replaced]).  Decoding succeeds, [Get] of every registered
    key answers the same typed value, [Has] and [Tombstoned] answer the same
    for every name, and encoding the decoded bag reproduces the wire form
    exactly. *)
Theorem json_roundtrip r b :
  bag_typed r b → bag_encodable b →
  ∃ b', UnmarshalJSON (MarshalJSON (Some b)) = Ok b' ∧
    (∀ k, r !! k_name k = Some k → Get k (Some b') = Get k (Some b)) ∧
    (∀ n, Has (Some b') n = Has (Some b) n ∧ Tombstoned (Some b') n = Tombstoned (Some b) n) ∧
    MarshalJSON (Some b') = MarshalJSON (Some b).
Proof.
  intros Ht Hi. destruct (unmarshal_marshal b Hi) as (b' & Hb' & _ & _ & Hr).
  exists b'. split_and!; [done| | |].
  - intros k Hk. by eapply raw_image_get.
  - intros n. unfold Has, Tombstoned, RawValue. rewrite (raw_image_winning b' b) by done.
    destruct (winningLocked b n) as [p|]; simpl; [|done]. by destruct (p_tombstone p).
  - unfold MarshalJSON. by rewrite (raw_image_marshal b' b).
Qed.

Lemma json_roundtrip_witness :
  ∃ b', UnmarshalJSON (MarshalJSON (Some (after (Set_ sample_key NewBag (VBool true) "p")))) = Ok b' ∧
        Get sample_key (Some b') = Returns (Some (VBool true)).
Proof.
  destruct (json_roundtrip {["shape.writer" := sample_key]}
              (after (Set_ sample_key NewBag (VBool true) "p"))) as (b' & H1 & H2 & _).
  - apply (run_writes_typed _ NewBag [WSet _ _ _ _ _]);
      [apply (NewBag_typed {["shape.writer" := sample_key]})..|].
    constructor; [|constructor]. intros k [_ <-]%lookup_singleton_Some. by left.
  - apply (do_write_encodable NewBag (WSet _ _ _ _ _)); [apply (NewBag_typed ∅)|by intros ???|].
    split_and!; [reflexivity..|]. intros v [= <-]. reflexivity.
  - exists b'. split; [exact H1|]. rewrite H2 by reflexivity. vm_compute. reflexivity.
Defined.

(** A value that is not valid UTF-8 does not survive: the byte 255 comes back
    as the replacement character. *)
Theorem invalid_text_is_replaced :
  let k := MkKey "note" TString StringParser in
  let b := after (Set_ k NewBag (VString (String "255" "")) "p") in
  ∃ b', UnmarshalJSON (MarshalJSON (Some b)) = Ok b' ∧
    Get k (Some b') = Returns (Some (VString replacement)).
Proof. eexists. split; vm_compute; reflexivity. Qed.
