(* ===== verification/Directive.v ===== *)
(** * Directives: schemas, registry, validation ([core/directive])

    The parsed directive ([directive.go]), the schema and its builder
    ([schema.go], [positional.go], [builder.go]), the schema registry with its
    "did you mean" search ([registry.go], [distance.go]) and validation
    ([validator.go]).  The parser is in [DirectiveParser].

    [Validate] mutates the directives it is given and the diagnostic sink; the
    model threads both.  Map iterations go through [MapOrder]. *)

From S2P Require Import Prelude GoStrings Position Diag.

Local Open Scope string_scope.
Local Open Scope nat_scope.
Local Open Scope list_scope.

(** ** [directive.go] *)

Record Directive := MkDirective {
  Name : string;
  Negated : bool;
  Args : list string;
  KV : gmap string string;
  Raw : string;
  DPos : Pos;
}.

Definition set_args (d : Directive) (a : list string) : Directive :=
  MkDirective (Name d) (Negated d) a (KV d) (Raw d) (DPos d).

Definition Arg (d : Directive) (i : Z) : string :=
  if (i <? 0)%Z || (Z.of_nat (length (Args d)) <=? i)%Z then ""
  else nth (Z.to_nat i) (Args d) "".

Definition HasKey (d : Directive) (key : string) : bool := bool_decide (is_Some (KV d !! key)).
Definition Value (d : Directive) (key : string) : string := default "" (KV d !! key).

Fixpoint HasPositive (l : list Directive) (name : string) : bool :=
  match l with
  | [] => false
  | d :: l => if String.eqb (Name d) name && negb (Negated d) then true else HasPositive l name
  end.
Fixpoint HasNegated (l : list Directive) (name : string) : bool :=
  match l with
  | [] => false
  | d :: l => if String.eqb (Name d) name && Negated d then true else HasNegated l name
  end.

(** [for _, d := range slices.Backward(list)] *)
Fixpoint last_loop (l : list Directive) (name : string) : option Directive :=
  match l with
  | [] => None
  | d :: l => if String.eqb (Name d) name then Some d else last_loop l name
  end.
Definition Last (l : list Directive) (name : string) : option Directive :=
  last_loop (reverse l) name.

(** ** [positional.go], [schema.go] *)

Record PositionalArg := MkPositionalArg {
  pa_Name : string;
  pa_Required : bool;
  pa_OneOf : list string;
  pa_Default : string;
  pa_Description : string;
}.

Definition PositionalOption := PositionalArg → PositionalArg.
Definition Required : PositionalOption := λ p,
  MkPositionalArg (pa_Name p) true (pa_OneOf p) (pa_Default p) (pa_Description p).
Definition OneOf (values : list string) : PositionalOption := λ p,
  MkPositionalArg (pa_Name p) (pa_Required p) (pa_OneOf p ++ values) (pa_Default p)
                  (pa_Description p).
Definition Default (v : string) : PositionalOption := λ p,
  MkPositionalArg (pa_Name p) (pa_Required p) (pa_OneOf p) v (pa_Description p).
Definition Describe (s : string) : PositionalOption := λ p,
  MkPositionalArg (pa_Name p) (pa_Required p) (pa_OneOf p) (pa_Default p) s.

Record Schema := MkSchema {
  s_Name : string;
  AppliesTo : list string;
  Requires : list string;
  MutuallyExclusiveWith : list string;
  RequiredKeys : list string;
  AllowedKeys : list string;
  DenyKeys : bool;
  PositionalArgs : list PositionalArg;
  AllowExtraPositional : bool;
  AllowNegated : bool;
  s_Description : string;
}.

(** ** [builder.go]: every method updates one field of the schema. *)

Module Builder.
Definition NewSchema (name : string) : Schema :=
  MkSchema name [] [] [] [] [] false [] false true "".
Definition On (s : Schema) (kinds : list string) : Schema :=
  let 'MkSchema n a r m rk ak dk pa ep an d := s in
  MkSchema n (a ++ kinds) r m rk ak dk pa ep an d.
Definition Requires (s : Schema) (names : list string) : Schema :=
  let 'MkSchema n a r m rk ak dk pa ep an d := s in
  MkSchema n a (r ++ names) m rk ak dk pa ep an d.
Definition ExclusiveWith (s : Schema) (names : list string) : Schema :=
  let 'MkSchema n a r m rk ak dk pa ep an d := s in
  MkSchema n a r (m ++ names) rk ak dk pa ep an d.
Definition RequiredKeys (s : Schema) (keys : list string) : Schema :=
  let 'MkSchema n a r m rk ak dk pa ep an d := s in
  MkSchema n a r m (rk ++ keys) ak dk pa ep an d.
Definition AllowedKeys (s : Schema) (keys : list string) : Schema :=
  let 'MkSchema n a r m rk ak dk pa ep an d := s in
  MkSchema n a r m rk (ak ++ keys) dk pa ep an d.
Definition DenyKeys (s : Schema) : Schema :=
  let 'MkSchema n a r m rk ak dk pa ep an d := s in
  MkSchema n a r m rk ak true pa ep an d.
Definition Positional (s : Schema) (name : string) (opts : list PositionalOption) : Schema :=
  let 'MkSchema n a r m rk ak dk pa ep an d := s in
  let p := fold_left (λ p opt, opt p) opts (MkPositionalArg name false [] "" "") in
  MkSchema n a r m rk ak dk (pa ++ [p]) ep an d.
Definition AllowExtraPositional (s : Schema) : Schema :=
  let 'MkSchema n a r m rk ak dk pa ep an d := s in
  MkSchema n a r m rk ak dk pa true an d.
Definition DenyNegation (s : Schema) : Schema :=
  let 'MkSchema n a r m rk ak dk pa ep an d := s in
  MkSchema n a r m rk ak dk pa ep false d.
Definition Describe (s : Schema) (text : string) : Schema :=
  let 'MkSchema n a r m rk ak dk pa ep an d := s in
  MkSchema n a r m rk ak dk pa ep an text.
End Builder.

(** ** [distance.go]

    The two rolling rows are arrays updated by index, as in the source. *)

Definition min3 (a b c : nat) : nat := min a (min b c).

(** Inner loop: [j] runs from [j] for [n] more rounds. *)
Fixpoint dist_inner (ca : ascii) (b : list ascii) (prev curr : list nat) (j n : nat) : list nat :=
  match n with
  | O => curr
  | S n =>
      let cost := match b !! (j - 1) with
                  | Some cb => if Ascii.eqb ca cb then 0 else 1
                  | None => 1
                  end in
      let v := min3 (curr !!! (j - 1) + 1) (prev !!! j + 1) (prev !!! (j - 1) + cost) in
      dist_inner ca b prev (<[j := v]> curr) (S j) n
  end.

(** Outer loop over the remaining bytes of [a], the [i]-th being [ca]. *)
Fixpoint dist_outer (a b : list ascii) (prev curr : list nat) (i : nat) : list nat :=
  match a with
  | [] => prev
  | ca :: a =>
      let curr' := dist_inner ca b prev (<[0 := i]> curr) 1 (length b) in
      dist_outer a b curr' prev (S i)
  end.

Definition editDistance (a b : string) : nat :=
  let la := String.list_ascii_of_string a in
  let lb := String.list_ascii_of_string b in
  dist_outer la lb (seq 0 (length lb + 1)) (replicate (length lb + 1) 0) 1 !!! length lb.

(** ** [registry.go] *)

Record Registry := MkRegistry { schemas : gmap string Schema; unclaimed : bool }.

Definition NewRegistry : Registry := MkRegistry ∅ false.
Definition AllowUnclaimed (r : Registry) : Registry := MkRegistry (schemas r) true.
Definition UnclaimedAllowed (r : Registry) : bool := unclaimed r.

Inductive RegistryError := ErrSchemaConflict (name : string).

Definition Register (r : Registry) (s : Schema) : res RegistryError Registry :=
  match schemas r !! s_Name s with
  | Some _ => Err (ErrSchemaConflict (s_Name s))
  | None => Ok (MkRegistry (<[s_Name s := s]> (schemas r)) (unclaimed r))
  end.

Definition LookupSchema (r : Registry) (name : string) : option Schema := schemas r !! name.

Definition Names (r : Registry) : list string := sort_strings (map_to_list (schemas r)).*1.

Section Iteration.
Context `{MapOrder}.

(** One round of the search: [None] stands for [bestDist == -1]. *)
Definition suggest_step (query : string) (best : option (nat * string)) (n : string)
    : option (nat * string) :=
  let d := editDistance query n in
  match best with
  | None => Some (d, n)
  | Some (bd, bn) => if d <? bd then Some (d, n) else Some (bd, bn)
  end.

Definition Suggest (r : Registry) (query : string) : option string :=
  match fold_left (suggest_step query) (map_keys (schemas r)) None with
  | None => None
  | Some (bestDist, bestName) =>
      let threshold := String.length query / 2 + 1 in
      if threshold <? bestDist then None else Some bestName
  end.

(** ** [validator.go]

    Each check returns its verdict and the sink it leaves. *)

Definition str_mem (s : string) (l : list string) : bool := bool_decide (s ∈ l).

Fixpoint peersContain (peers : list Directive) (name : string) : bool :=
  match peers with
  | [] => false
  | p :: peers => if String.eqb (Name p) name then true else peersContain peers name
  end.

Definition checkClaimed (ps : PluginSink) (sk : Sink) (d : Directive) (r : Registry)
    : bool * Sink :=
  if UnclaimedAllowed r then (true, sk)
  else match Suggest r (Name d) with
  | Some did =>
      (false, Errorf ps sk (DPos d) "no directive named %q is registered — did you mean %q?"
                     [AStr (Name d); AStr did])
  | None =>
      (false, Errorf ps sk (DPos d) "no directive named %q is registered, and nothing registered is close enough to be the one you meant"
                     [AStr (Name d)])
  end.

Definition checkNegation (ps : PluginSink) (sk : Sink) (d : Directive) (s : Schema)
    : bool * Sink :=
  if Negated d && negb (AllowNegated s) then
    (false, Errorf ps sk (DPos d) "directive %q does not accept the -gen: form" [AStr (Name d)])
  else (true, sk).

Definition checkAppliesTo (ps : PluginSink) (sk : Sink) (d : Directive) (s : Schema)
    (nodeKind : string) : bool * Sink :=
  if (length (AppliesTo s) =? 0) || str_mem nodeKind (AppliesTo s) then (true, sk)
  else (false, Errorf ps sk (DPos d) "directive %q does not apply to %q nodes (allowed: %v)"
                      [AStr (Name d); AStr nodeKind; AList (AppliesTo s)]).

(** A loop that reports each offending element of a list. *)
Fixpoint check_each (ps : PluginSink) (d : Directive) (bad : string → bool)
    (msg : string → message) (l : list string) (ok : bool) (sk : Sink) : bool * Sink :=
  match l with
  | [] => (ok, sk)
  | x :: l =>
      if bad x
      then check_each ps d bad msg l false (Errorf ps sk (DPos d) (format (msg x)) (args (msg x)))
      else check_each ps d bad msg l ok sk
  end.

Definition checkRequires (ps : PluginSink) (sk : Sink) (d : Directive) (s : Schema)
    (peers : list Directive) : bool * Sink :=
  check_each ps d (λ req, negb (peersContain peers req))
    (λ req, Sprintf "directive %q requires %q to also be present" [AStr (Name d); AStr req])
    (Requires s) true sk.

Definition checkExclusive (ps : PluginSink) (sk : Sink) (d : Directive) (s : Schema)
    (peers : list Directive) : bool * Sink :=
  check_each ps d (λ excl, peersContain peers excl)
    (λ excl, Sprintf "directive %q is mutually exclusive with %q" [AStr (Name d); AStr excl])
    (MutuallyExclusiveWith s) true sk.

Definition checkKeys (ps : PluginSink) (sk : Sink) (d : Directive) (s : Schema) : bool * Sink :=
  let '(ok, sk) :=
    check_each ps d (λ key, negb (HasKey d key))
      (λ key, Sprintf "directive %q requires key %q" [AStr (Name d); AStr key])
      (RequiredKeys s) true sk in
  if DenyKeys s then
    check_each ps d (λ _, true)
      (λ key, Sprintf "directive %q accepts no keys; %q was given" [AStr (Name d); AStr key])
      (map_keys (KV d)) ok sk
  else if 0 <? length (AllowedKeys s) then
    check_each ps d (λ key, negb (str_mem key (AllowedKeys s)))
      (λ key, Sprintf "directive %q does not accept key %q (allowed: %v)"
                [AStr (Name d); AStr key; AList (AllowedKeys s)])
      (map_keys (KV d)) ok sk
  else (ok, sk).

(** The slot loop: [i] is the slot's index, [a] the argument list so far. *)
Fixpoint positional_loop (ps : PluginSink) (d : Directive) (declared : list PositionalArg)
    (i : nat) (a : list string) (ok : bool) (sk : Sink) : list string * bool * Sink :=
  match declared with
  | [] => (a, ok, sk)
  | slot :: declared =>
      match a !! i with
      | None =>
          if pa_Required slot then
            positional_loop ps d declared (S i) a false
              (Errorf ps sk (DPos d) "directive %q requires positional arg %d (%q)"
                 [AStr (Name d); AInt (Z.of_nat i); AStr (pa_Name slot)])
          else if negb (String.eqb (pa_Default slot) "") then
            positional_loop ps d declared (S i) (a ++ [pa_Default slot]) ok sk
          else positional_loop ps d declared (S i) a ok sk
      | Some v =>
          if (0 <? length (pa_OneOf slot)) && negb (str_mem v (pa_OneOf slot)) then
            positional_loop ps d declared (S i) a false
              (Errorf ps sk (DPos d) "directive %q positional %d (%q) must be one of %v, got %q"
                 [AStr (Name d); AInt (Z.of_nat i); AStr (pa_Name slot);
                  AList (pa_OneOf slot); AStr v])
          else positional_loop ps d declared (S i) a ok sk
      end
  end.

Definition checkPositional (ps : PluginSink) (sk : Sink) (d : Directive) (s : Schema)
    : Directive * bool * Sink :=
  let declared := PositionalArgs s in
  let '(a, ok, sk) := positional_loop ps d declared 0 (Args d) true sk in
  let d' := set_args d a in
  if negb (AllowExtraPositional s) && (length declared <? length a) then
    (d', false,
     Errorf ps sk (DPos d) "directive %q accepts %d positional args, got %d"
       [AStr (Name d); AInt (Z.of_nat (length declared)); AInt (Z.of_nat (length a))])
  else (d', ok, sk).

Definition validateOne (ps : PluginSink) (sk : Sink) (d : Directive) (nodeKind : string)
    (peers : list Directive) (r : Registry) : Directive * bool * Sink :=
  match LookupSchema r (Name d) with
  | None => let '(ok, sk) := checkClaimed ps sk d r in (d, ok, sk)
  | Some s =>
      let '(ok1, sk) := checkNegation ps sk d s in
      let '(ok2, sk) := checkAppliesTo ps sk d s nodeKind in
      let '(ok3, sk) := checkRequires ps sk d s peers in
      let '(ok4, sk) := checkExclusive ps sk d s peers in
      let '(ok5, sk) := checkKeys ps sk d s in
      let '(d', ok6, sk) := checkPositional ps sk d s in
      (d', ok6 && (ok5 && (ok4 && (ok3 && (ok2 && ok1)))), sk)
  end.

(** [peers] is the whole list: the directives already visited carry their
    folded arguments, and only names are read from it. *)
Fixpoint validate_loop (ps : PluginSink) (sk : Sink) (done todo : list Directive)
    (nodeKind : string) (r : Registry) (ok : bool) : list Directive * bool * Sink :=
  match todo with
  | [] => (done, ok, sk)
  | d :: todo =>
      let '(d', okd, sk) := validateOne ps sk d nodeKind (done ++ d :: todo) r in
      validate_loop ps sk (done ++ [d']) todo nodeKind r (okd && ok)
  end.

Definition Validate (ps : PluginSink) (sk : Sink) (directives : list Directive)
    (nodeKind : string) (r : Registry) : list Directive * bool * Sink :=
  validate_loop ps sk [] directives nodeKind r true.

End Iteration.
