(* ===== verification/EditDistance.v ===== *)
(** * The edit distance is Levenshtein's ([core/directive/distance.go])

    [editDistance] keeps two rolling rows.  Its result is shown to be the
    length of a shortest sequence of single-byte insertions, deletions and
    substitutions: the rows hold the prefix distances [D], which are the
    optimal alignments, and an alignment of cost [n] exists exactly when [n]
    edits (or fewer) do. *)

From S2P Require Import Prelude GoStrings Directive.

Local Open Scope nat_scope.
Local Open Scope list_scope.

Implicit Types a b c : list ascii.

(** One edit, and sequences of them. *)
Inductive edit1 : list ascii → list ascii → Prop :=
| edit_insert l r x : edit1 (l ++ r) (l ++ x :: r)
| edit_delete l r x : edit1 (l ++ x :: r) (l ++ r)
| edit_subst l r x y : edit1 (l ++ x :: r) (l ++ y :: r).

Inductive edits : nat → list ascii → list ascii → Prop :=
| edits_nil a : edits 0 a a
| edits_cons n a b c : edits n a b → edit1 b c → edits (S n) a c.

(** Alignments: column by column, with their cost. *)
Inductive align : nat → list ascii → list ascii → Prop :=
| align_nil : align 0 [] []
| align_keep n x a b : align n a b → align n (x :: a) (x :: b)
| align_sub n x y a b : align n a b → align (S n) (x :: a) (y :: b)
| align_ins n y a b : align n a b → align (S n) a (y :: b)
| align_del n x a b : align n a b → align (S n) (x :: a) b.

Lemma align_refl a : align 0 a a.
Proof. induction a; eauto using align. Qed.

Lemma align_app n m a b c d : align n a b → align m c d → align (n + m) (a ++ c) (b ++ d).
Proof. induction 1; simpl; eauto using align. Qed.

Lemma align_rev n a b : align n a b → align n (reverse a) (reverse b).
Proof.
  induction 1; rewrite ?reverse_cons.
  - constructor.
  - rewrite <- (Nat.add_0_r n). apply align_app; eauto using align.
  - replace (S n) with (n + 1) by lia. apply align_app; eauto using align.
  - replace (S n) with (n + 1) by lia. rewrite <- (app_nil_r (reverse a)).
    apply align_app; eauto using align.
  - replace (S n) with (n + 1) by lia. rewrite <- (app_nil_r (reverse b)).
    apply align_app; eauto using align.
Qed.

(** An alignment is performed by at most as many edits. *)
Lemma edit1_cons x a b : edit1 a b → edit1 (x :: a) (x :: b).
Proof.
  destruct 1 as [l r y|l r y|l r y z].
  - apply (edit_insert (x :: l)).
  - apply (edit_delete (x :: l)).
  - apply (edit_subst (x :: l)).
Qed.

Lemma edits_under n x a b : edits n a b → edits n (x :: a) (x :: b).
Proof. induction 1; eauto using edits, edit1_cons. Qed.

Lemma edits_trans n m a b c : edits n a b → edits m b c → edits (n + m) a c.
Proof.
  intros H1 H2. revert n a H1. induction H2; intros k z H1.
  - by rewrite Nat.add_0_r.
  - rewrite Nat.add_succ_r. eauto using edits.
Qed.

Lemma edits_first n a b c : edit1 a b → edits n b c → edits (S n) a c.
Proof.
  intros H1 H2. apply (edits_trans 1 n a b c); [|done]. eauto using edits.
Qed.

Lemma align_edits n a b : align n a b → edits n a b.
Proof.
  induction 1.
  - constructor.
  - by apply edits_under.
  - apply (edits_first _ _ (y :: a)); [apply (edit_subst [])|by apply edits_under].
  - apply (edits_first _ _ (y :: a)); [apply (edit_insert [])|by apply edits_under].
  - apply (edits_first _ _ a); [apply (edit_delete [])|done].
Qed.

(** Conversely one more edit costs an alignment at most one. *)
Lemma align_split_r n a l r :
  align n a (l ++ r) → ∃ a1 a2 n1 n2, a = a1 ++ a2 ∧ n = n1 + n2 ∧ align n1 a1 l ∧ align n2 a2 r.
Proof.
  intros H. remember (l ++ r) as b eqn:Hb. revert l r Hb.
  induction H as [|n x a b H IH|n x y a b H IH|n y a b H IH|n x a b H IH]; intros l r Hb.
  - symmetry in Hb. apply app_nil in Hb as [-> ->]. exists [], [], 0, 0. eauto using align.
  - destruct l as [|z l]; simplify_eq/=.
    + exists [], (x :: a), 0, n. eauto 6 using align.
    + destruct (IH l r eq_refl) as (a1 & a2 & n1 & n2 & -> & -> & ? & ?).
      exists (z :: a1), a2, n1, n2. eauto 6 using align.
  - destruct l as [|z l]; simplify_eq/=.
    + exists [], (x :: a), 0, (S n). eauto 6 using align.
    + destruct (IH l r eq_refl) as (a1 & a2 & n1 & n2 & -> & -> & ? & ?).
      exists (x :: a1), a2, (S n1), n2. eauto 6 using align.
  - destruct l as [|z l]; simplify_eq/=.
    + exists [], a, 0, (S n). eauto 6 using align.
    + destruct (IH l r eq_refl) as (a1 & a2 & n1 & n2 & -> & -> & ? & ?).
      exists a1, a2, (S n1), n2. eauto 6 using align.
  - destruct (IH l r Hb) as (a1 & a2 & n1 & n2 & -> & -> & ? & ?).
    exists (x :: a1), a2, (S n1), n2. eauto 6 using align.
Qed.

Lemma align_uncons_r n a x b :
  align n a (x :: b) →
  ∃ a1 a2 n1 n2, a = a1 ++ a2 ∧ n = n1 + n2 ∧ align n1 a1 [x] ∧ align n2 a2 b.
Proof. apply (align_split_r n a [x] b). Qed.

Lemma align_all_del a : align (length a) a [].
Proof. induction a; simpl; eauto using align. Qed.

Lemma align_nil_r n a : align n a [] → n = length a.
Proof.
  intros H. remember [] as b eqn:Hb. induction H; simplify_eq/=; auto.
Qed.

(** Against a single byte, the aligned part can be re-aligned to any other
    byte, or to nothing, at one more unit of cost at most. *)
Lemma align_single n a x :
  align n a [x] → (∀ y, ∃ m, m ≤ S n ∧ align m a [y]) ∧ ∃ m, m ≤ S n ∧ align m a [].
Proof.
  intros H. assert (length a ≤ S n ∧ (a = [] → 1 ≤ n)) as [Hl Hn].
  { remember [x] as b eqn:Hb. revert x Hb.
    induction H as [|n z a b H IH|n z w a b H IH|n w a b H IH|n z a b H IH]; intros x Hb; simplify_eq/=.
    - apply align_nil_r in H. split; [lia|done].
    - apply align_nil_r in H. split; [lia|done].
    - apply align_nil_r in H. lia.
    - destruct (IH x eq_refl). split; [lia|done]. }
  split.
  - intros y. destruct a as [|z a]; simpl in *.
    + exists 1. split; [lia|]. eauto using align.
    + exists (S (length a)). split; [lia|]. apply align_sub, align_all_del.
  - exists (length a). split; [done|]. apply align_all_del.
Qed.

Lemma align_edit1 n a b c : align n a b → edit1 b c → ∃ m, m ≤ S n ∧ align m a c.
Proof.
  intros H He. destruct He as [l r x|l r x|l r x y].
  - apply align_split_r in H as (a1 & a2 & n1 & n2 & -> & -> & H1 & H2).
    exists (n1 + S n2). split; [lia|]. apply align_app; eauto using align.
  - apply align_split_r in H as (a1 & a2 & n1 & n2 & -> & -> & H1 & H2).
    apply align_uncons_r in H2 as (a3 & a4 & n3 & n4 & -> & -> & H3 & H4).
    apply align_single in H3 as [_ (m & Hm & H3)].
    exists (n1 + (m + n4)). split; [lia|]. apply align_app; [done|].
    by apply (align_app m n4 a3 [] a4 r).
  - apply align_split_r in H as (a1 & a2 & n1 & n2 & -> & -> & H1 & H2).
    apply align_uncons_r in H2 as (a3 & a4 & n3 & n4 & -> & -> & H3 & H4).
    apply align_single in H3 as [H3 _]. destruct (H3 y) as (m & Hm & H3').
    exists (n1 + (m + n4)). split; [lia|]. apply align_app; [done|].
    by apply (align_app m n4 a3 [y] a4 r).
Qed.

Lemma edits_align n a b : edits n a b → ∃ m, m ≤ n ∧ align m a b.
Proof.
  induction 1 as [a|n a b c _ (m & Hm & IH) He].
  - exists 0. split; [lia|]. apply align_refl.
  - destruct (align_edit1 m a b c IH He) as (k & Hk & ?). exists k. split; [lia|done].
Qed.

(** ** Prefix distances *)

Definition cost (x y : option ascii) : nat :=
  match x, y with Some x, Some y => if Ascii.eqb x y then 0 else 1 | _, _ => 1 end.

Section Prefix.
Context (a b : list ascii).

Fixpoint D (i : nat) : nat → nat :=
  match i with
  | O => λ j, j
  | S i' =>
      fix row (j : nat) : nat :=
        match j with
        | O => S i'
        | S j' => min3 (row j' + 1) (D i' (S j') + 1) (D i' j' + cost (a !! i') (b !! j'))
        end
  end.

Definition pa (i : nat) : list ascii := reverse (take i a).
Definition pb (j : nat) : list ascii := reverse (take j b).

Lemma pa_S i x : a !! i = Some x → pa (S i) = x :: pa i.
Proof. intros Hx. unfold pa. by rewrite (take_S_r _ _ x), reverse_snoc. Qed.
Lemma pb_S j y : b !! j = Some y → pb (S j) = y :: pb j.
Proof. intros Hy. unfold pb. by rewrite (take_S_r _ _ y), reverse_snoc. Qed.

Lemma D_align i j : i ≤ length a → j ≤ length b → align (D i j) (pa i) (pb j).
Proof.
  revert j. induction i as [|i IHi]; intros j Hi.
  - induction j as [|j IHj]; intros Hj; [constructor|].
    destruct (lookup_lt_is_Some_2 b j) as [y Hy]; [lia|]. rewrite (pb_S j y) by done.
    apply align_ins, IHj. lia.
  - destruct (lookup_lt_is_Some_2 a i) as [x Hx]; [lia|]. rewrite (pa_S i x) by done.
    induction j as [|j IHj]; intros Hj.
    + apply align_del. specialize (IHi 0). apply align_nil_r in IHi; [|lia|lia].
      replace i with (length (pa i)) at 1; [apply align_all_del|].
      unfold pa. rewrite length_reverse, length_take. lia.
    + destruct (lookup_lt_is_Some_2 b j) as [y Hy]; [lia|]. rewrite (pb_S j y) by done.
      change (D (S i) (S j)) with
        (min3 (D (S i) j + 1) (D i (S j) + 1) (D i j + cost (a !! i) (b !! j))).
      rewrite Hx, Hy. unfold min3.
      destruct (Nat.min_spec (D (S i) j + 1)
                  (min (D i (S j) + 1) (D i j + cost (Some x) (Some y)))) as [[_ ->]|[_ ->]].
      { rewrite Nat.add_1_r. apply align_ins, IHj. lia. }
      destruct (Nat.min_spec (D i (S j) + 1) (D i j + cost (Some x) (Some y))) as [[_ ->]|[_ ->]].
      { rewrite Nat.add_1_r. apply align_del. rewrite <- (pb_S j y) by done. apply IHi; lia. }
      simpl. destruct (Ascii.eqb_spec x y) as [->|].
      { rewrite Nat.add_0_r. apply align_keep, IHi; lia. }
      rewrite Nat.add_1_r. apply align_sub, IHi; lia.
Qed.

Lemma D_least i j n : i ≤ length a → j ≤ length b → align n (pa i) (pb j) → D i j ≤ n.
Proof.
  revert j n. induction i as [|i IHi]; intros j n Hi.
  - intros Hj H. simpl. apply align_rev in H. unfold pa, pb in H. rewrite !reverse_involutive in H.
    rewrite take_0 in H. assert (length (take j b) ≤ n) as Hl.
    { revert H. generalize (take j b). intros z Hz. remember [] as w eqn:Hw. revert Hw.
      induction Hz; intros; simplify_eq/=; [lia|]. specialize (IHHz eq_refl). lia. }
    rewrite length_take in Hl. lia.
  - destruct (lookup_lt_is_Some_2 a i) as [x Hx]; [lia|].
    revert n. induction j as [|j IHj]; intros n Hj H.
    + unfold pb in H. rewrite take_0 in H. apply align_nil_r in H. subst n. simpl.
      unfold pa. rewrite length_reverse, length_take. lia.
    + destruct (lookup_lt_is_Some_2 b j) as [y Hy]; [lia|].
      change (D (S i) (S j)) with
        (min3 (D (S i) j + 1) (D i (S j) + 1) (D i j + cost (a !! i) (b !! j))).
      rewrite (pa_S i x), (pb_S j y) in H by done. rewrite Hx, Hy. unfold min3.
      inversion H as [|n' x' a' b' H'|n' x' y' a' b' H'|n' y' a' b' H'|n' x' a' b' H']; subst.
      * simpl. rewrite Ascii.eqb_refl. assert (D i j ≤ n) by (apply IHi; [lia|lia|done]). lia.
      * assert (D i j ≤ n') by (apply IHi; [lia|lia|done]). assert (cost (Some x) (Some y) ≤ 1)
          by (simpl; destruct (Ascii.eqb x y); lia). lia.
      * rewrite <- (pa_S i x) in H' by done. assert (D (S i) j ≤ n') by (apply IHj; [lia|done]). lia.
      * rewrite <- (pb_S j y) in H' by done. assert (D i (S j) ≤ n') by (apply IHi; [lia|lia|done]). lia.
Qed.

(** ** The rolling rows hold the prefix distances *)

Lemma dist_inner_spec ca i prev curr j n :
  a !! i = Some ca → 1 ≤ j → j + n = S (length b) → length curr = S (length b) →
  (∀ k, k ≤ length b → prev !!! k = D i k) →
  (∀ k, k < j → curr !!! k = D (S i) k) →
  let curr' := dist_inner ca b prev curr j n in
  length curr' = S (length b) ∧ ∀ k, k ≤ length b → curr' !!! k = D (S i) k.
Proof.
  intros Ha. revert curr j. induction n as [|n IH]; intros curr j Hj Hn Hc Hp Hk; simpl.
  - split; [done|]. intros k ?. apply Hk. lia.
  - apply IH; [lia|lia|by rewrite length_insert|done|].
    intros k ?. destruct (decide (k = j)) as [->|Hne].
    + rewrite list_lookup_total_insert_eq by lia. destruct j as [|j]; [lia|].
      change (D (S i) (S j)) with
        (min3 (D (S i) j + 1) (D i (S j) + 1) (D i j + cost (a !! i) (b !! j))).
      replace (S j - 1) with j by lia. rewrite !Hp, Hk by lia. rewrite Ha. unfold cost.
      destruct (lookup_lt_is_Some_2 b j) as [y Hy]; [lia|]. by rewrite Hy.
    + rewrite list_lookup_total_insert_ne by done. apply Hk. lia.
Qed.

Lemma dist_outer_spec i prev curr :
  i ≤ length a → length prev = S (length b) → length curr = S (length b) →
  (∀ k, k ≤ length b → prev !!! k = D i k) →
  dist_outer (drop i a) b prev curr (S i) !!! length b = D (length a) (length b).
Proof.
  remember (length a - i) as n eqn:Hn. revert i prev curr Hn.
  induction n as [|n IH]; intros i prev curr Hn Hi Hp Hc Hk.
  - rewrite drop_ge by lia. simpl. rewrite Hk by lia. f_equal. lia.
  - destruct (lookup_lt_is_Some_2 a i) as [x Hx]; [lia|].
    rewrite (drop_S _ x i) by done. cbn [dist_outer].
    destruct (dist_inner_spec x i prev (<[0 := S i]> curr) 1 (length b)) as [Hl Hk']; auto; try lia.
    + by rewrite length_insert.
    + intros k ?. replace k with 0 by lia. by rewrite list_lookup_total_insert_eq by lia.
    + apply IH; auto; lia.
Qed.

End Prefix.

Lemma editDistance_D a b :
  editDistance (String.string_of_list_ascii a) (String.string_of_list_ascii b)
  = D a b (length a) (length b).
Proof.
  unfold editDistance. rewrite !String.list_ascii_of_string_of_list_ascii.
  rewrite <- (drop_0 a) at 1. apply dist_outer_spec; [lia| | |].
  - rewrite length_seq. lia.
  - rewrite length_replicate. lia.
  - intros k ?. simpl. rewrite list_lookup_total_alt, lookup_seq_lt by lia. done.
Qed.

Lemma editDistance_shortest s t :
  let a := String.list_ascii_of_string s in
  let b := String.list_ascii_of_string t in
  edits (editDistance s t) a b ∧ ∀ n, edits n a b → editDistance s t ≤ n.
Proof.
  intros a b. assert (editDistance s t = D a b (length a) (length b)) as ->.
  { rewrite <- editDistance_D. unfold a, b. by rewrite !String.string_of_list_ascii_of_string. }
  split.
  - apply align_edits. pose proof (D_align a b (length a) (length b)) as H.
    unfold pa, pb in H. rewrite !firstn_all in H.
    rewrite <- (reverse_involutive a), <- (reverse_involutive b).
    rewrite (reverse_involutive a) at 1 2. rewrite (reverse_involutive b) at 1 2.
    apply align_rev, H; lia.
  - intros n (m & Hm & H)%edits_align. etrans; [|exact Hm]. apply D_least; [lia|lia|].
    unfold pa, pb. rewrite !firstn_all. by apply align_rev.
Qed.

(** C18: [editDistance] is the Levenshtein distance: its result is the length of
    some sequence of single-byte insertions, deletions and substitutions
    turning one string into the other, and no shorter sequence does. *)
Theorem edit_distance_is_levenshtein s t :
  let a := String.list_ascii_of_string s in
  let b := String.list_ascii_of_string t in
  edits (editDistance s t) a b ∧ ∀ n, edits n a b → editDistance s t ≤ n.
Proof. apply editDistance_shortest. Qed.
