(* ===== verification/DirectiveLaws.v ===== *)
(** * Correctness of directive validation ([core/directive])

    [Validate] decides a declarative conformance relation, reports exactly
    when it rejects, and folds positional defaults; [Suggest] finds a closest
    name. *)

From S2P Require Import Prelude GoStrings Position Diag Directive.

Local Open Scope string_scope.
Local Open Scope nat_scope.
Local Open Scope list_scope.

(** ** Reports *)

(** The diagnostics a check may add: errors of the plugin, at the directive. *)
Definition report (ps : PluginSink) (pos : Pos) (x : Diag) : Prop :=
  d_severity x = Error ∧ d_plugin x = plugin_name ps ∧ d_pos x = pos.

(** From [sk] to [sk'] the diagnostics [ds] were appended. *)
Definition appended (sk sk' : Sink) (ds : list Diag) : Prop := sk' = fold_left Append ds sk.

(** The verdict became [ok'] from [ok], negative exactly if something was reported. *)
Definition reported (ps : PluginSink) (pos : Pos) (ok ok' : bool) (sk sk' : Sink) : Prop :=
  ∃ ds, appended sk sk' ds ∧ Forall (report ps pos) ds ∧
        (ok' = true ↔ ok = true ∧ ds = []).

Lemma reported_refl ps pos ok sk : reported ps pos ok ok sk sk.
Proof. exists []. split_and!; [done|constructor|naive_solver]. Qed.

Lemma reported_trans ps pos ok1 ok2 ok3 sk1 sk2 sk3 :
  reported ps pos ok1 ok2 sk1 sk2 → reported ps pos ok2 ok3 sk2 sk3 →
  reported ps pos ok1 ok3 sk1 sk3.
Proof.
  intros (d1 & -> & H1 & E1) (d2 & -> & H2 & E2). exists (d1 ++ d2). split_and!.
  - unfold appended. by rewrite fold_left_app.
  - by apply Forall_app.
  - rewrite E2, E1. destruct d1, d2; naive_solver.
Qed.

Lemma reported_error ps pos ok sk f a : reported ps pos ok false sk (Errorf ps sk pos f a).
Proof.
  exists [MkDiag Error (plugin_name ps) pos (Sprintf f a) ""]. split_and!; [done| |naive_solver].
  constructor; [done|constructor].
Qed.

(** A check run on its own, conjoined with the running verdict. *)
Lemma reported_and ps pos ok okc sk sk' :
  reported ps pos true okc sk sk' → reported ps pos ok (okc && ok) sk sk'.
Proof.
  intros (ds & H1 & H2 & H3). exists ds. split_and!; auto. rewrite andb_true_iff, H3. naive_solver.
Qed.

#[global] Hint Resolve reported_refl reported_error : eidos.

(** ** The conformance relation *)

Definition slot_ok (slot : PositionalArg) (v : option string) : Prop :=
  match v with
  | Some v => pa_OneOf slot = [] ∨ v ∈ pa_OneOf slot
  | None => pa_Required slot = false
  end.

Record conforms_schema (s : Schema) (kind : string) (peers : list Directive) (d : Directive)
    : Prop := {
  c_negation : Negated d = true → AllowNegated s = true;
  c_kind : AppliesTo s = [] ∨ kind ∈ AppliesTo s;
  c_requires : ∀ n, n ∈ Requires s → ∃ p, p ∈ peers ∧ Name p = n;
  c_exclusive : ∀ n, n ∈ MutuallyExclusiveWith s → ¬ ∃ p, p ∈ peers ∧ Name p = n;
  c_required_keys : ∀ k, k ∈ RequiredKeys s → is_Some (KV d !! k);
  c_allowed_keys : ∀ k, is_Some (KV d !! k) →
    DenyKeys s = false ∧ (AllowedKeys s = [] ∨ k ∈ AllowedKeys s);
  c_slots : ∀ i slot, PositionalArgs s !! i = Some slot → slot_ok slot (Args d !! i);
  c_extra : AllowExtraPositional s = true ∨ length (Args d) ≤ length (PositionalArgs s);
}.

Definition conforms (r : Registry) (kind : string) (peers : list Directive) (d : Directive)
    : Prop :=
  match schemas r !! Name d with
  | Some s => conforms_schema s kind peers d
  | None => unclaimed r = true
  end.

(** The defaults folded in for the slots the source left out. *)
Definition slot_default (slot : PositionalArg) : option string :=
  if pa_Required slot then None
  else if String.eqb (pa_Default slot) "" then None else Some (pa_Default slot).
Definition folded (slots : list PositionalArg) : list string := omap slot_default slots.

Lemma folded_cons slot slots :
  folded (slot :: slots) = match slot_default slot with
                           | Some x => x :: folded slots
                           | None => folded slots
                           end.
Proof. done. Qed.

Section Order.
Context `{MapOrder}.

Lemma check_each_spec ps d bad msg l ok sk ok' sk' :
  check_each ps d bad msg l ok sk = (ok', sk') →
  reported ps (DPos d) ok ok' sk sk' ∧
  (ok' = true ↔ ok = true ∧ ∀ x, x ∈ l → bad x = false).
Proof.
  revert ok sk. induction l as [|x l IH]; intros ok sk; simpl.
  - intros [= <- <-]. split; [auto with eidos|]. split; [|naive_solver].
    intros ->. split; [done|]. by intros x ?%elem_of_nil.
  - destruct (bad x) eqn:Hx; intros He; apply IH in He as [H1 H2].
    + split; [eapply reported_trans; [apply reported_error|done]|].
      rewrite H2. split; [naive_solver|]. intros [_ Hb]. specialize (Hb x). rewrite Hb in Hx; [done|left].
    + split; [done|]. rewrite H2. setoid_rewrite elem_of_cons. naive_solver.
Qed.

Lemma peersContain_spec peers n : peersContain peers n = true ↔ ∃ p, p ∈ peers ∧ Name p = n.
Proof.
  induction peers as [|p peers IH]; simpl.
  - split; [done|]. intros (p & ?%elem_of_nil & _). done.
  - setoid_rewrite elem_of_cons. destruct (String.eqb_spec (Name p) n); [naive_solver|].
    rewrite IH. naive_solver.
Qed.

Lemma str_mem_spec s l : str_mem s l = true ↔ s ∈ l.
Proof. unfold str_mem. apply bool_decide_eq_true. Qed.

Lemma checkNegation_spec ps sk d s ok sk' :
  checkNegation ps sk d s = (ok, sk') →
  reported ps (DPos d) true ok sk sk' ∧ (ok = true ↔ (Negated d = true → AllowNegated s = true)).
Proof.
  unfold checkNegation. destruct (Negated d), (AllowNegated s); simpl; intros [= <- <-];
    split; auto with eidos; naive_solver.
Qed.

Lemma checkAppliesTo_spec ps sk d s kind ok sk' :
  checkAppliesTo ps sk d s kind = (ok, sk') →
  reported ps (DPos d) true ok sk sk' ∧ (ok = true ↔ AppliesTo s = [] ∨ kind ∈ AppliesTo s).
Proof.
  unfold checkAppliesTo. destruct (_ || _) eqn:E; intros [= <- <-]; (split; [auto with eidos|]).
  - bool_props. rewrite Nat.eqb_eq, str_mem_spec in E. destruct (AppliesTo s); naive_solver.
  - bool_props. split; [done|]. intros Hk. destruct (AppliesTo s); [done|].
    destruct Hk as [?|Hk%str_mem_spec]; [done|congruence].
Qed.

Lemma checkRequires_spec ps sk d s peers ok sk' :
  checkRequires ps sk d s peers = (ok, sk') →
  reported ps (DPos d) true ok sk sk' ∧
  (ok = true ↔ ∀ n, n ∈ Requires s → ∃ p, p ∈ peers ∧ Name p = n).
Proof.
  intros [H1 H2]%check_each_spec. split; [done|]. rewrite H2.
  setoid_rewrite negb_false_iff. setoid_rewrite peersContain_spec. naive_solver.
Qed.

Lemma checkExclusive_spec ps sk d s peers ok sk' :
  checkExclusive ps sk d s peers = (ok, sk') →
  reported ps (DPos d) true ok sk sk' ∧
  (ok = true ↔ ∀ n, n ∈ MutuallyExclusiveWith s → ¬ ∃ p, p ∈ peers ∧ Name p = n).
Proof.
  intros [H1 H2]%check_each_spec. split; [done|]. rewrite H2.
  setoid_rewrite <- not_true_iff_false. setoid_rewrite peersContain_spec. naive_solver.
Qed.

Lemma checkKeys_spec ps sk d s ok sk' :
  checkKeys ps sk d s = (ok, sk') →
  reported ps (DPos d) true ok sk sk' ∧
  (ok = true ↔ (∀ k, k ∈ RequiredKeys s → is_Some (KV d !! k)) ∧
    ∀ k, is_Some (KV d !! k) → DenyKeys s = false ∧ (AllowedKeys s = [] ∨ k ∈ AllowedKeys s)).
Proof.
  unfold checkKeys. destruct (check_each _ _ _ _ (RequiredKeys s) true sk) as [ok1 sk1] eqn:E1.
  apply check_each_spec in E1 as [R1 H1].
  assert (ok1 = true ↔ ∀ k, k ∈ RequiredKeys s → is_Some (KV d !! k)) as H1'.
  { rewrite H1. setoid_rewrite negb_false_iff. unfold HasKey.
    setoid_rewrite bool_decide_eq_true. naive_solver. }
  clear H1. destruct (DenyKeys s) eqn:Hd; [|destruct (0 <? length (AllowedKeys s)) eqn:Hl].
  - intros [R2 H2]%check_each_spec. split; [by eapply reported_trans|].
    rewrite H2, H1'. setoid_rewrite elem_of_map_keys. split.
    + intros [? Hk]. split; [done|]. intros k Hk'%Hk. done.
    + intros [? Hk]. split; [done|]. intros k Hk'. by destruct (Hk k Hk').
  - intros [R2 H2]%check_each_spec. split; [by eapply reported_trans|].
    rewrite H2, H1'. setoid_rewrite elem_of_map_keys. setoid_rewrite negb_false_iff.
    setoid_rewrite str_mem_spec. apply Nat.ltb_lt in Hl.
    assert (AllowedKeys s ≠ []) by (by intros Hn; rewrite Hn in Hl; simpl in Hl; lia). naive_solver.
  - intros [= <- <-]. split; [done|]. rewrite H1'.
    assert (AllowedKeys s = []) as -> by (destruct (AllowedKeys s); [done|discriminate]).
    naive_solver.
Qed.

Lemma lookup_beyond {A} (l : list A) (x : A) i : l !! i = None → (l ++ [x]) !! S i = None.
Proof. rewrite !lookup_ge_None, length_app. simpl. lia. Qed.

Lemma positional_loop_spec ps d slots i a ok sk a' ok' sk' :
  positional_loop ps d slots i a ok sk = (a', ok', sk') →
  a' = a ++ folded (drop (length a - i) slots) ∧
  reported ps (DPos d) ok ok' sk sk' ∧
  (ok' = true ↔ ok = true ∧ ∀ j slot, slots !! j = Some slot → slot_ok slot (a !! (i + j))).
Proof.
  revert i a ok sk. induction slots as [|slot slots IH]; intros i a ok sk; simpl.
  { intros [= <- <- <-]. rewrite drop_nil. unfold folded. simpl. rewrite app_nil_r.
    split_and!; auto with eidos. naive_solver. }
  assert (∀ P : option string → PositionalArg → Prop,
    (∀ j sl, (slot :: slots) !! j = Some sl → P (a !! (i + j)) sl) ↔
    P (a !! i) slot ∧ ∀ j sl, slots !! j = Some sl → P (a !! (S i + j)) sl) as Hcons.
  { intros P. split.
    - intros Hj. split; [rewrite <- (Nat.add_0_r i); by apply (Hj 0)|].
      intros j sl Hs. replace (S i + j) with (i + S j) by lia. by apply (Hj (S j)).
    - intros [H0 Hj] [|j] sl Hs; simpl in Hs; simplify_eq.
      + by rewrite Nat.add_0_r.
      + replace (i + S j) with (S i + j) by lia. by apply Hj. }
  rewrite (Hcons (λ v sl, slot_ok sl v)). clear Hcons.
  destruct (a !! i) as [v|] eqn:Hai.
  - assert (drop (length a - i) (slot :: slots) = drop (length a - S i) slots) as ->.
    { apply lookup_lt_Some in Hai. by replace (length a - i) with (S (length a - S i)) by lia. }
    destruct (_ && _) eqn:Hone; intros He; apply IH in He as (-> & HR & Hok); split_and!; auto.
    + eapply reported_trans; [apply reported_error|done].
    + rewrite Hok. apply andb_true_iff in Hone as [Hl Hm%negb_true_iff]. simpl.
      split; [naive_solver|]. intros (_ & [Hn|Hin%str_mem_spec] & _); [|congruence].
      rewrite Hn in Hl. discriminate.
    + rewrite Hok. simpl. enough (pa_OneOf slot = [] ∨ v ∈ pa_OneOf slot) by naive_solver.
      apply andb_false_iff in Hone as [Hl|Hm]; [left|right].
      * destruct (pa_OneOf slot); [done|discriminate].
      * apply negb_false_iff in Hm. by apply str_mem_spec.
  - pose proof (proj1 (lookup_ge_None a i) Hai) as Hle.
    assert (∀ k, length a - k = 0 ∨ k < length a) as Hk0 by lia.
    replace (length a - i) with 0 by lia. rewrite drop_0.
    destruct (pa_Required slot) eqn:Hreq; [|destruct (String.eqb (pa_Default slot) "") eqn:Hdef];
      cbn [negb]; intros He; apply IH in He as (-> & HR & Hok); rewrite folded_cons;
      (assert (slot_default slot = if pa_Required slot then None
               else if String.eqb (pa_Default slot) "" then None
               else Some (pa_Default slot)) as -> by done); rewrite Hreq, ?Hdef.
    + replace (length a - S i) with 0 by lia. rewrite drop_0. split_and!; auto.
      * eapply reported_trans; [apply reported_error|done].
      * rewrite Hok. naive_solver.
    + replace (length a - S i) with 0 by lia. rewrite drop_0. split_and!; auto.
      rewrite Hok. naive_solver.
    + rewrite length_app. simpl. replace (length a + 1 - S i) with 0 by lia.
      rewrite drop_0, <- app_assoc. split_and!; auto. rewrite Hok.
      assert (∀ j, (a ++ [pa_Default slot]) !! (S i + j) = a !! (S i + j)) as Heq.
      { intros j. rewrite !(proj2 (lookup_ge_None _ _)); [done|lia|]. rewrite length_app. simpl. lia. }
      setoid_rewrite Heq. naive_solver.
Qed.

Lemma folded_length slots : length (folded slots) ≤ length slots.
Proof.
  induction slots as [|s slots IH]; [done|]. rewrite folded_cons.
  destruct (slot_default s); cbn [length]; lia.
Qed.

Lemma checkPositional_spec ps sk d s d' ok sk' :
  checkPositional ps sk d s = (d', ok, sk') →
  d' = set_args d (Args d ++ folded (drop (length (Args d)) (PositionalArgs s))) ∧
  reported ps (DPos d) true ok sk sk' ∧
  (ok = true ↔ (∀ i slot, PositionalArgs s !! i = Some slot → slot_ok slot (Args d !! i)) ∧
    (AllowExtraPositional s = true ∨ length (Args d) ≤ length (PositionalArgs s))).
Proof.
  unfold checkPositional.
  destruct (positional_loop _ _ _ _ _ _ _) as [[a ok1] sk1] eqn:E.
  apply positional_loop_spec in E as (-> & HR & Hok). rewrite Nat.sub_0_r in *. simpl in Hok.
  set (fs := folded _). assert (length fs ≤ length (PositionalArgs s) - length (Args d)) as Hfs.
  { unfold fs. rewrite <- length_drop. apply folded_length. }
  rewrite length_app.
  destruct (_ && _) eqn:Hx; intros [= <- <- <-]; split_and!; auto.
  - eapply reported_trans; [done|apply reported_error].
  - apply andb_true_iff in Hx as [Hae%negb_true_iff Hlt%Nat.ltb_lt]. split; [done|].
    intros [_ [?|?]]; [congruence|lia].
  - rewrite Hok. enough (AllowExtraPositional s = true ∨ length (Args d) ≤ length (PositionalArgs s))
      by naive_solver.
    apply andb_false_iff in Hx as [Hae%negb_false_iff|Hlt%Nat.ltb_ge]; [by left|right; lia].
Qed.

Lemma validateOne_spec ps sk d kind peers r d' ok sk' :
  validateOne ps sk d kind peers r = (d', ok, sk') →
  (∃ slots, d' = set_args d (Args d ++ folded slots) ∧
     slots = match schemas r !! Name d with
             | Some s => drop (length (Args d)) (PositionalArgs s)
             | None => []
             end) ∧
  reported ps (DPos d) true ok sk sk' ∧
  (ok = true ↔ conforms r kind peers d).
Proof.
  unfold validateOne, LookupSchema, conforms. destruct (schemas r !! Name d) as [s|] eqn:Es.
  - destruct (checkNegation ps sk d s) as [ok1 sk1] eqn:E1.
    destruct (checkAppliesTo ps sk1 d s kind) as [ok2 sk2] eqn:E2.
    destruct (checkRequires ps sk2 d s peers) as [ok3 sk3] eqn:E3.
    destruct (checkExclusive ps sk3 d s peers) as [ok4 sk4] eqn:E4.
    destruct (checkKeys ps sk4 d s) as [ok5 sk5] eqn:E5.
    destruct (checkPositional ps sk5 d s) as [[dd ok6] sk6] eqn:E6. intros [= <- <- <-].
    apply checkNegation_spec in E1 as [R1 H1]. apply checkAppliesTo_spec in E2 as [R2 H2].
    apply checkRequires_spec in E3 as [R3 H3]. apply checkExclusive_spec in E4 as [R4 H4].
    apply checkKeys_spec in E5 as [R5 H5]. apply checkPositional_spec in E6 as (-> & R6 & H6).
    split_and!; [eauto| |].
    + do 5 (eapply reported_trans; [|apply reported_and; eassumption]). exact R1.
    + rewrite !andb_true_iff, H1, H2, H3, H4, H5, H6. split.
      * intros. destruct_and!. by constructor.
      * intros []. naive_solver.
  - unfold checkClaimed, UnclaimedAllowed.
    assert (d = set_args d (Args d ++ folded [])) as Hd.
    { unfold folded. simpl. rewrite app_nil_r. by destruct d. }
    destruct (unclaimed r) eqn:Hu; [|destruct (Suggest r (Name d))];
      intros [= <- <- <-]; split_and!; auto with eidos; eauto; naive_solver.
Qed.

(** Peers are consulted by name only. *)
Lemma conforms_peers r kind peers peers' d :
  Name <$> peers = Name <$> peers' → conforms r kind peers d → conforms r kind peers' d.
Proof.
  intros Hn. assert (∀ n, (∃ p, p ∈ peers ∧ Name p = n) ↔ ∃ p, p ∈ peers' ∧ Name p = n) as Hp.
  { intros n. transitivity (n ∈ Name <$> peers).
    - rewrite list_elem_of_fmap. naive_solver.
    - rewrite Hn, list_elem_of_fmap. naive_solver. }
  unfold conforms. destruct (schemas r !! Name d); [|done]. intros [].
  constructor; auto; setoid_rewrite <- Hp; auto.
Qed.

Lemma validate_loop_spec ps sk dn todo kind r ok ds ok' sk' :
  validate_loop ps sk dn todo kind r ok = (ds, ok', sk') →
  (∃ todo', ds = dn ++ todo' ∧
     Forall2 (λ d d', d' = set_args d (Args d ++ folded
       match schemas r !! Name d with
       | Some s => drop (length (Args d)) (PositionalArgs s)
       | None => []
       end)) todo todo') ∧
  (∃ rs, appended sk sk' rs ∧
     Forall (λ x, ∃ d, d ∈ todo ∧ report ps (DPos d) x) rs ∧
     (ok' = true ↔ ok = true ∧ rs = [])) ∧
  (ok' = true ↔ ok = true ∧ Forall (conforms r kind (dn ++ todo)) todo).
Proof.
  revert sk dn ok. induction todo as [|d todo IH]; intros sk dn ok; simpl.
  { intros [= <- <- <-]. split_and!.
    - exists []. by rewrite app_nil_r.
    - exists []. split_and!; [done|constructor|naive_solver].
    - split; [naive_solver constructor|naive_solver]. }
  destruct (validateOne ps sk d kind (dn ++ d :: todo) r) as [[d' okd] sk1] eqn:E.
  apply validateOne_spec in E as ((sl & -> & Hsl) & (r1 & A1 & F1 & O1) & C1).
  intros He. apply IH in He as ((td & -> & Htd) & (r2 & A2 & F2 & O2) & C2). split_and!.
  - eexists (_ :: td). split; [by rewrite <- app_assoc|]. constructor; [by subst sl|done].
  - exists (r1 ++ r2). split_and!.
    + unfold appended in *. by rewrite fold_left_app, <- A1.
    + apply Forall_app. split; (eapply Forall_impl; [eassumption|]).
      * intros x Hx. exists d. split; [left|done].
      * intros x (d0 & ? & ?). exists d0. split; [by right|done].
    + rewrite O2, andb_true_iff, O1. destruct r1, r2; naive_solver.
  - rewrite C2, andb_true_iff, C1, Forall_cons, <- app_assoc. simpl.
    assert (∀ x, conforms r kind (dn ++ set_args d (Args d ++ folded sl) :: todo) x ↔
                 conforms r kind (dn ++ d :: todo) x) as Heq.
    { intros x. split; apply conforms_peers; by rewrite !fmap_app, !fmap_cons. }
    assert (Forall (conforms r kind (dn ++ set_args d (Args d ++ folded sl) :: todo)) todo ↔
            Forall (conforms r kind (dn ++ d :: todo)) todo) as ->; [|naive_solver].
    rewrite !Forall_forall. by setoid_rewrite Heq.
Qed.

End Order.

(** ** Validation *)

(** C7: [Validate] decides conformance: whatever the map iteration order, it
    returns true exactly when every directive of the node satisfies its schema
    -- negation, node kind, required and excluded peers, required, allowed and
    denied keys, positional slots, surplus arguments -- and every unregistered
    name is tolerated by the registry. *)
Theorem validate_decides_conformance `{MapOrder} ps sk ds kind r :
  (Validate ps sk ds kind r).1.2 = true ↔ Forall (conforms r kind ds) ds.
Proof.
  unfold Validate. destruct (validate_loop ps sk [] ds kind r true) as [[ds' ok] sk'] eqn:E.
  apply validate_loop_spec in E as (_ & _ & Hc). simpl. naive_solver.
Qed.

(** [Validate] never rejects silently and never reports while accepting: the
    sink it leaves extends the given one by diagnostics that are all errors of
    the given plugin at the position of one of the directives, and the verdict
    is true exactly when there are none. *)
Theorem validate_reports_rejections `{MapOrder} ps sk ds kind r :
  ∃ rs, (Validate ps sk ds kind r).2 = fold_left Append rs sk ∧
    Forall (λ x, d_severity x = Error ∧ d_plugin x = plugin_name ps ∧
                 ∃ d, d ∈ ds ∧ d_pos x = DPos d) rs ∧
    ((Validate ps sk ds kind r).1.2 = true ↔ rs = []).
Proof.
  unfold Validate. destruct (validate_loop ps sk [] ds kind r true) as [[ds' ok] sk'] eqn:E.
  apply validate_loop_spec in E as (_ & (rs & Ha & Hr & Ho) & _). exists rs. split_and!.
  - done.
  - eapply Forall_impl; [exact Hr|]. intros x (d & Hd & H1 & H2 & H3). eauto.
  - simpl. naive_solver.
Qed.

(** [Validate] leaves every directive unchanged except for its positional
    arguments, to which it appends, in slot order, the non-empty defaults of
    the optional slots the source left out; a directive that supplied every
    declared slot, or that no schema claims, is returned as it was. *)
Theorem validate_folds_defaults `{MapOrder} ps sk ds kind r :
  Forall2 (λ d d',
      Name d' = Name d ∧ Negated d' = Negated d ∧ KV d' = KV d ∧ Raw d' = Raw d ∧
      DPos d' = DPos d ∧
      Args d' = Args d ++ omap slot_default
        (match schemas r !! Name d with
         | Some s => drop (length (Args d)) (PositionalArgs s)
         | None => []
         end))
    ds (Validate ps sk ds kind r).1.1.
Proof.
  unfold Validate. destruct (validate_loop ps sk [] ds kind r true) as [[ds' ok] sk'] eqn:E.
  apply validate_loop_spec in E as ((todo & -> & Ht) & _ & _). simpl.
  eapply Forall2_impl; [exact Ht|]. by intros d d' ->.
Qed.

(** A schema with an optional slot without a default, followed by one with. *)
Definition two_slot_schema : Schema :=
  Builder.Positional (Builder.Positional (Builder.NewSchema "mock") "variant" [])
    "mode" [Default "strict"].

(** A folded default does not always fill its own slot: when an optional
    slot without a default is also left out before it, the default of the
    second slot is accepted as the value of the first. *)
Theorem default_fills_wrong_slot `{MapOrder} :
  let r := MkRegistry {["mock" := two_slot_schema]} false in
  let d := MkDirective "mock" false [] ∅ "mock" zero_pos in
  let '(ds, ok, _) := Validate (For "pipeline") New [d] "interface" r in
  ok = true ∧ map (λ d', (Arg d' 0, Arg d' 1)) ds = [("strict", "")].
Proof.
  cbv zeta. set (r := MkRegistry _ _). set (d := MkDirective _ _ _ _ _ _).
  unfold Validate. destruct (validate_loop _ _ _ _ _ _ _) as [[ds ok] sk] eqn:E.
  apply validate_loop_spec in E as ((todo & -> & Ht) & _ & Hc). split.
  - apply Hc. split; [done|]. constructor; [|constructor]. unfold conforms.
    change (conforms_schema two_slot_schema "interface" [d] d).
    constructor; simpl; try (by intros ? ?%elem_of_nil); auto.
    intros [|[|i]] slot Hs; by simplify_eq/=.
  - apply Forall2_cons_inv_l in Ht as (d' & l & -> & Hl & ->).
    apply Forall2_nil_inv_l in Hl as ->. reflexivity.
Qed.

(** ** Suggestions *)

Lemma suggest_fold `{MapOrder} q l best :
  match fold_left (suggest_step q) l best with
  | None => l = [] ∧ best = None
  | Some (bd, bn) =>
      (best = Some (bd, bn) ∨ bn ∈ l ∧ bd = editDistance q bn) ∧
      (∀ m, m ∈ l → bd ≤ editDistance q m) ∧ (∀ d n, best = Some (d, n) → bd ≤ d)
  end.
Proof.
  revert best. induction l as [|n l IH]; intros best; simpl.
  - destruct best as [[bd bn]|]; [|done]. split_and!; auto.
    + by intros m ?%elem_of_nil.
    + intros d n [= -> ->]. done.
  - specialize (IH (suggest_step q best n)).
    destruct (fold_left (suggest_step q) l (suggest_step q best n)) as [[bd bn]|] eqn:E.
    + destruct IH as (H1 & H2 & H3). unfold suggest_step in H1, H3.
      setoid_rewrite elem_of_cons. destruct best as [[d0 n0]|].
      * destruct (Nat.ltb_spec (editDistance q n) d0) as [Hlt|Hge]; split_and!.
        -- naive_solver.
        -- intros m [->|Hm]; [by eapply H3|by apply H2].
        -- intros d n' [= -> ->]. specialize (H3 _ _ eq_refl). lia.
        -- naive_solver.
        -- intros m [->|Hm]; [|by apply H2]. specialize (H3 _ _ eq_refl). lia.
        -- intros d n' [= -> ->]. by eapply H3.
      * split_and!; [naive_solver| |done]. intros m [->|Hm]; [by eapply H3|by apply H2].
    + destruct IH as [_ IH]. unfold suggest_step in IH.
      destruct best as [[d0 n0]|]; [by destruct (_ <? _)|done].
Qed.

(** In every map iteration order, [Suggest] answers a registered name at
    the least edit distance from the query, within the typo threshold; it
    answers nothing exactly when every registered name is beyond it. *)
Theorem suggest_closest_name `{MapOrder} r q :
  match Suggest r q with
  | Some n => is_Some (schemas r !! n) ∧ editDistance q n ≤ String.length q / 2 + 1 ∧
              ∀ m, is_Some (schemas r !! m) → editDistance q n ≤ editDistance q m
  | None => ∀ m, is_Some (schemas r !! m) → String.length q / 2 + 1 < editDistance q m
  end.
Proof.
  unfold Suggest. pose proof (suggest_fold q (map_keys (schemas r)) None) as Hf.
  destruct (fold_left _ _ _) as [[bd bn]|].
  - destruct Hf as ([?|[Hin ->]] & Hm & _); [done|]. setoid_rewrite elem_of_map_keys in Hm.
    apply elem_of_map_keys in Hin.
    destruct (Nat.ltb_spec (String.length q / 2 + 1) (editDistance q bn)) as [Hlt|Hge]; [|done].
    intros m Hm'. specialize (Hm m Hm'). lia.
  - destruct Hf as [Hk _]. intros m Hm. apply elem_of_map_keys in Hm. rewrite Hk in Hm.
    by apply elem_of_nil in Hm.
Qed.

(** Between equally close names the suggestion depends on the runtime's map
    iteration order: one registry and one misspelling, two orders, two
    different suggestions. *)
Theorem suggest_tie_depends_on_order :
  ∃ r q, @Suggest sorted_order r q ≠ @Suggest reverse_order r q.
Proof.
  exists (MkRegistry (<["mocks" := Builder.NewSchema "mocks"]>
                     {["mocka" := Builder.NewSchema "mocka"]}) false), "mock".
  vm_compute. discriminate.
Qed.
