(* ===== verification/DirectiveParser.v ===== *)
(** * The directive parser ([core/directive/parser.go], [default.go])

    The lexer is a cursor into the source text; every scanning method is a
    recursion on the text that remains.  The two parsing loops carry fuel:
    each round consumes at least one byte, so the length of the text is
    enough, and [Parse] never runs out ([parse_total]). *)

From S2P Require Import Prelude GoStrings Position Directive.

Local Open Scope string_scope.
Local Open Scope nat_scope.
Local Open Scope list_scope.

(** ** Errors *)

Inductive LexError :=
| UnterminatedEscape
| UnknownEscape (c : ascii)
| UnterminatedString.

(** Every constructor but the last wraps [ErrMalformedDirective]. *)
Inductive ParseErr :=
| MissingPrefix
| EmptyName
| InvalidName (n : string)
| Lexical (e : LexError)
| EmptyKey (value : string)
| OutOfFuel.

(** ** The lexer *)

Record lexer := MkLexer { src : string; lpos : nat }.

Definition rest (l : lexer) : string := str_drop (lpos l) (src l).
Definition advance (n : nat) (l : lexer) : lexer := MkLexer (src l) (lpos l + n).

Definition eof (l : lexer) : bool := String.length (src l) <=? lpos l.

(** The number of leading bytes that satisfy the test. *)
Fixpoint span (f : ascii → bool) (s : string) : nat :=
  match s with
  | EmptyString => 0
  | String a s => if f a then S (span f s) else 0
  end.

Definition skipWS (l : lexer) : lexer := advance (span is_blank (rest l)) l.

Definition str_has (s : string) (c : ascii) : bool :=
  match index_byte s c with Some _ => true | None => false end.

Definition readBareTo (stopAt : string) (l : lexer) : string * lexer :=
  let n := span (λ c, negb (is_blank c) && negb (str_has stopAt c)) (rest l) in
  (str_take n (rest l), advance n l).

(** The double quote. *)
Definition quote_byte : ascii := "034"%char.

(** The body of a quoted string: its value and the bytes consumed, the closing
    quote included. *)
Fixpoint quoted_body (s : string) : res LexError (string * nat) :=
  match s with
  | EmptyString => Err UnterminatedString
  | String c s1 =>
      if Ascii.eqb c "\" then
        match s1 with
        | EmptyString => Err UnterminatedEscape
        | String esc s2 =>
            let put (b : ascii) :=
              match quoted_body s2 with
              | Ok (v, n) => Ok (String b v, S (S n))
              | Err e => Err e
              end in
            if Ascii.eqb esc quote_byte || Ascii.eqb esc "\" then put esc
            else if Ascii.eqb esc "n" then put "010"%char
            else if Ascii.eqb esc "t" then put "009"%char
            else Err (UnknownEscape esc)
        end
      else if Ascii.eqb c quote_byte then Ok (EmptyString, 1)
      else match quoted_body s1 with
           | Ok (v, n) => Ok (String c v, S n)
           | Err e => Err e
           end
  end.

Definition readQuoted (l : lexer) : res LexError (string * lexer) :=
  let l := advance 1 l in
  match quoted_body (rest l) with
  | Ok (v, n) => Ok (v, advance n l)
  | Err e => Err e
  end.

Definition at_byte (l : lexer) (c : ascii) : bool :=
  match rest l with String a _ => Ascii.eqb a c | EmptyString => false end.

Definition readValue (l : lexer) : res LexError (string * lexer) :=
  if negb (eof l) && at_byte l quote_byte then readQuoted l
  else let '(v, l) := readBareTo "" l in Ok (v, l).

(** [Some value] when the argument is a key/value pair. *)
Definition readArg (l : lexer) : res LexError (string * option string * lexer) :=
  let '(first, l) := readBareTo "=" l in
  if negb (eof l) && at_byte l "=" then
    match readValue (advance 1 l) with
    | Ok (v, l) => Ok (first, Some v, l)
    | Err e => Err e
    end
  else Ok (first, None, l).

(** ** Names and prefixes *)

Definition byte_code (a : ascii) : nat := nat_of_ascii a.

(** [unicode.IsLetter(rune(b))] and [unicode.IsDigit(rune(b))] for a byte: the
    Latin-1 letters, and the ASCII digits. *)
Definition is_letter_byte (a : ascii) : bool :=
  byte_in "a" "z" a || byte_in "A" "Z" a ||
  (byte_code a =? 170) || (byte_code a =? 181) || (byte_code a =? 186) ||
  ((192 <=? byte_code a) && negb (byte_code a =? 215) && negb (byte_code a =? 247)).
Definition is_digit_byte (a : ascii) : bool := byte_in "0" "9" a.

Definition isNameStart (a : ascii) : bool := is_letter_byte a.
Definition isNameRune (a : ascii) : bool :=
  is_letter_byte a || is_digit_byte a || Ascii.eqb a "_" || Ascii.eqb a "-".
Definition isValidName (s : string) : bool :=
  match s with
  | EmptyString => false
  | String a s => isNameStart a && str_all isNameRune s
  end.

(** [p] occurs somewhere in [s]. *)
Fixpoint occurs (p s : string) : bool :=
  has_prefix s p || match s with EmptyString => false | String _ s => occurs p s end.

Definition isValidPrefix (s : string) : bool :=
  negb (String.eqb s "") &&
  negb (str_has s ":" || str_has s "+" || str_has s "-" || existsb (λ p, occurs p s) space_runes).

(** ** The parser *)

Record Parser := MkParser {
  prefix : string;
  neutral : string;
  setForm : string;
  negateFor : string;
}.

Definition newParser (p : string) : Parser :=
  MkParser p (p +:+ ":") ("+" +:+ p +:+ ":") ("-" +:+ p +:+ ":").

Inductive PrefixError := ErrInvalidPrefix (p : string).
Definition NewParser (p : string) : res PrefixError Parser :=
  if negb (isValidPrefix p) then Err (ErrInvalidPrefix p) else Ok (newParser p).

Definition DefaultPrefix : string := "gen".
Definition DefaultParser : Parser := newParser DefaultPrefix.

Section Parsing.
Context (p : Parser).

Definition stripPrefix (body : string) : option (bool * string) :=
  if has_prefix body (negateFor p) then Some (true, str_drop (String.length (negateFor p)) body)
  else if has_prefix body (setForm p) then Some (false, str_drop (String.length (setForm p)) body)
  else if has_prefix body (neutral p) then Some (false, str_drop (String.length (neutral p)) body)
  else None.

Definition consumePrefix (l : lexer) : option (bool * lexer) :=
  if has_prefix (rest l) (negateFor p) then Some (true, advance (String.length (negateFor p)) l)
  else if has_prefix (rest l) (setForm p) then Some (false, advance (String.length (setForm p)) l)
  else if has_prefix (rest l) (neutral p) then Some (false, advance (String.length (neutral p)) l)
  else None.

Definition looksLikePrefix (l : lexer) : bool :=
  has_prefix (rest l) (negateFor p) || has_prefix (rest l) (setForm p) ||
  has_prefix (rest l) (neutral p).

(** The argument loop of [parseOne]. *)
Fixpoint arg_loop (fuel : nat) (l : lexer) (a : list string) (kv : gmap string string)
    : res ParseErr (list string * gmap string string * lexer) :=
  match fuel with
  | O => Err OutOfFuel
  | S fuel =>
      let l := skipWS l in
      if eof l then Ok (a, kv, l)
      else if looksLikePrefix l then Ok (a, kv, l)
      else match readArg l with
           | Err e => Err (Lexical e)
           | Ok (key, Some value, l) =>
               if String.eqb key "" then Err (EmptyKey value)
               else arg_loop fuel l a (<[key := value]> kv)
           | Ok (key, None, l) => arg_loop fuel l (a ++ [key]) kv
           end
  end.

(** [l.src[from:to]] *)
Definition slice (s : string) (from to : nat) : string := str_take (to - from) (str_drop from s).

Definition parseOne (fuel : nat) (l : lexer) (pos : Pos) : res ParseErr (Directive * lexer) :=
  match consumePrefix l with
  | None => Err MissingPrefix
  | Some (negated, l) =>
      let bodyStart := lpos l in
      let '(name, l) := readBareTo (String " " (String "009" "=")) l in
      if String.eqb name "" then Err EmptyName
      else if negb (isValidName name) then Err (InvalidName name)
      else match arg_loop fuel l [] ∅ with
           | Err e => Err e
           | Ok (a, kv, l) =>
               let raw := trim_right is_blank (slice (src l) bodyStart (lpos l)) in
               Ok (MkDirective name negated a kv raw pos, l)
           end
  end.

Fixpoint parse_loop (fuel : nat) (l : lexer) (pos : Pos) (out : list Directive)
    : res ParseErr (list Directive) :=
  match fuel with
  | O => Err OutOfFuel
  | S f =>
      let l := skipWS l in
      if eof l then Ok out
      else match parseOne (S (String.length (src l))) l pos with
           | Err e => Err e
           | Ok (d, l) => parse_loop f l pos (out ++ [d])
           end
  end.

Definition Parse (text : string) (pos : Pos) : res ParseErr (list Directive) :=
  let trimmed := trim_left is_blank text in
  match parse_loop (S (String.length trimmed)) (MkLexer trimmed 0) pos [] with
  | Err e => Err e
  | Ok [] => Err MissingPrefix
  | Ok out => Ok out
  end.

Definition ParseComment (comment : string) (pos : Pos) : res ParseErr (list Directive) :=
  let body := trim_space comment in
  let body := trim_prefix body "//" in
  let body := trim_prefix body "/*" in
  let body := trim_suffix body "*/" in
  let body := trim_space body in
  if String.eqb body "" then Ok []
  else match stripPrefix body with
       | None => Ok []
       | Some _ => Parse body pos
       end.

End Parsing.

Example parse_readme_line :
  (λ ds, map (λ d, (Name d, Negated d, Args d, Raw d)) ds) <$>
    (match Parse DefaultParser "gen:meta +gen:out users.go -gen:repo k=v" zero_pos with
     | Ok ds => Some ds | Err _ => None end)
  = Some [("meta", false, [], "meta"); ("out", false, ["users.go"], "out users.go");
          ("repo", true, [], "repo k=v")].
Proof. vm_compute. reflexivity. Qed.
