(* ===== verification/ParserLaws.v ===== *)
(** * Properties of the directive parser

    Both loops of the parser consume at least one byte per round, so [Parse]
    answers on every input; what it answers is well formed; it reports a
    missing prefix exactly when the text does not open with one of the three
    forms; and it reads back every directive line that a printer writes. *)

From S2P Require Import Prelude GoStrings Position Directive DirectiveParser.

Local Open Scope string_scope.
Local Open Scope nat_scope.
Local Open Scope list_scope.

(** ** Progress of the scanning methods *)

Definition remaining (l : lexer) : nat := String.length (src l) - lpos l.

Lemma rest_length l : String.length (rest l) = remaining l.
Proof. apply str_drop_length. Qed.

Lemma eof_rest l : eof l = true ↔ rest l = "".
Proof.
  unfold eof. rewrite Nat.leb_le. pose proof (rest_length l) as Hl. unfold remaining in Hl.
  split; intros H.
  - apply length_zero_nil. lia.
  - rewrite H in Hl. simpl in Hl. lia.
Qed.

Lemma remaining_advance n l : remaining (advance n l) = remaining l - n.
Proof. unfold remaining. simpl. lia. Qed.

Lemma rest_advance n l : rest (advance n l) = str_drop n (rest l).
Proof. unfold rest. simpl. by rewrite str_drop_drop. Qed.

(** The text does not open with a byte of the class. *)
Definition stops (f : ascii → bool) (s : string) : bool :=
  match s with String a _ => negb (f a) | EmptyString => true end.

Lemma span_stops f s : stops f (str_drop (span f s) s) = true.
Proof. induction s as [|a s IH]; simpl; [done|]. by destruct (f a) eqn:E; simpl; rewrite ?E. Qed.

Lemma span_all f s : str_all f (str_take (span f s) s) = true.
Proof. induction s as [|a s IH]; simpl; [done|]. by destruct (f a) eqn:E; simpl; rewrite ?E. Qed.

Lemma span_app f w s : str_all f w = true → stops f s = true → span f (w +:+ s) = String.length w.
Proof.
  intros Hw Hs. induction w as [|a w IH]; simpl in *.
  - destruct s as [|b s]; simpl in *; [done|]. by destruct (f b).
  - bool_props. rewrite H. f_equal. auto.
Qed.

(** A lexer that stands behind [pre], with [s] still to read. *)
Definition lx (pre s : string) : lexer := MkLexer (pre +:+ s) (String.length pre).

Lemma rest_lx pre s : rest (lx pre s) = s.
Proof. apply str_drop_app. Qed.

Lemma advance_lx pre t s : advance (String.length t) (lx pre (t +:+ s)) = lx (pre +:+ t) s.
Proof. unfold lx, advance. simpl. by rewrite append_length, append_assoc. Qed.

Lemma eof_lx pre s : eof (lx pre s) = String.eqb s "".
Proof.
  apply eq_true_iff_eq. by rewrite eof_rest, rest_lx, String.eqb_eq.
Qed.

(** ** What a bare word is *)

Definition word_byte (c : ascii) : bool := negb (is_blank c) && negb (Ascii.eqb c "=").
Definition is_word (w : string) : bool := negb (String.eqb w "") && str_all word_byte w.

Lemma str_all_ext f g s : (∀ a, f a = g a) → str_all f s = str_all g s.
Proof. intros H. induction s as [|a s IH]; simpl; [done|]. by rewrite H, IH. Qed.

Lemma arg_stop c : negb (is_blank c) && negb (str_has "=" c) = word_byte c.
Proof.
  unfold word_byte, str_has, index_byte. rewrite (Ascii.eqb_sym "=" c).
  by destruct (Ascii.eqb c "=").
Qed.

Lemma span_ext f g s : (∀ a, f a = g a) → span f s = span g s.
Proof. intros H. induction s as [|a s IH]; simpl; [done|]. by rewrite H, IH. Qed.

Lemma readBareTo_arg l :
  readBareTo "=" l =
  (str_take (span word_byte (rest l)) (rest l), advance (span word_byte (rest l)) l).
Proof. unfold readBareTo. by rewrite (span_ext _ word_byte) by apply arg_stop. Qed.

Lemma readValue_remaining l v l' :
  readValue l = Ok (v, l') → src l' = src l ∧ remaining l' ≤ remaining l.
Proof.
  unfold readValue, readQuoted, readBareTo. intros H. split_matches; simplify_eq/=;
    rewrite ?remaining_advance; split; auto; lia.
Qed.

(** A word, or a pair whose key is a word or empty; and progress. *)
Lemma readArg_progress l key ov l' :
  rest l ≠ "" → stops is_blank (rest l) = true → readArg l = Ok (key, ov, l') →
  src l' = src l ∧ remaining l' < remaining l ∧ str_all word_byte key = true ∧
  (ov = None → key ≠ "").
Proof.
  intros Hne Hst. unfold readArg. rewrite readBareTo_arg.
  set (n := span word_byte (rest l)). intros H.
  assert (0 < remaining l) as Hpos.
  { rewrite <- rest_length. by destruct (rest l); simpl; try lia. }
  pose proof (span_all word_byte (rest l)) as Hall.
  assert (n = 0 → at_byte l "=" = true) as Hz.
  { unfold n, at_byte. destruct (rest l) as [|a s]; [done|]. simpl in *. unfold word_byte.
    rewrite Hst. simpl. by destruct (Ascii.eqb a "="). }
  destruct (negb (eof (advance n l)) && at_byte (advance n l) "=") eqn:E; simplify_eq/=.
  - split_matches. destruct (readValue_remaining _ _ _ Heqr) as [H1 H2].
    rewrite !remaining_advance in H2. simpl in H1. repeat split; auto; try done.
    bool_props. apply not_true_iff_false in H.
    assert (remaining (advance n l) ≠ 0) as Hr.
    { rewrite <- rest_length. intros Hl%length_zero_nil. by apply H, eof_rest. }
    rewrite remaining_advance in Hr. lia.
  - rewrite remaining_advance. assert (n ≠ 0) as Hn.
    { intros Hn. rewrite Hn in E. unfold advance in E. rewrite Nat.add_0_r in E.
      destruct l as [s q]. simpl in *. rewrite Hz in E by done.
      rewrite andb_true_r in E. apply negb_false_iff in E. by apply eof_rest in E. }
    repeat split; auto; [lia|]. intros _ He. apply Hn. unfold n in *.
    destruct (rest l); [done|]. simpl in *. by destruct (word_byte a).
Qed.

Lemma skipWS_src l : src (skipWS l) = src l.
Proof. done. Qed.

Lemma skipWS_remaining l : remaining (skipWS l) ≤ remaining l.
Proof. unfold skipWS. rewrite remaining_advance. lia. Qed.

Lemma skipWS_stops l : stops is_blank (rest (skipWS l)) = true.
Proof. unfold skipWS. rewrite rest_advance. apply span_stops. Qed.

(** ** The loops *)

Section Loops.
Context (p : Parser).

Definition boundary (l : lexer) : Prop := eof l = true ∨ looksLikePrefix p l = true.

(** What the argument loop establishes, whatever it answers. *)
Definition args_post (l : lexer)
    (r : res ParseErr (list string * gmap string string * lexer)) : Prop :=
  match r with
  | Ok (a, kv, l') =>
      src l' = src l ∧ remaining l' ≤ remaining l ∧ boundary l' ∧
      Forall (λ w, is_word w = true) a ∧ map_Forall (λ k _, is_word k = true) kv ∧
      stops is_blank (rest l') = true
  | Err (Lexical _) | Err (EmptyKey _) => True
  | Err _ => False
  end.

Lemma args_post_mono l l' r :
  src l' = src l → remaining l' ≤ remaining l → args_post l' r → args_post l r.
Proof.
  destruct r as [[[a kv] l'']|[]]; simpl; auto. intros Hs Hr (H1 & H2 & H3).
  split; [congruence|]. split; [lia|done].
Qed.

Lemma arg_loop_post fuel l a kv :
  remaining l < fuel →
  Forall (λ w, is_word w = true) a → map_Forall (λ k _, is_word k = true) kv →
  args_post l (arg_loop p fuel l a kv).
Proof.
  revert l a kv. induction fuel as [|fuel IH]; [lia|]. intros l a kv Hf Ha Hkv. simpl.
  pose proof (skipWS_remaining l) as Hr. pose proof (skipWS_stops l) as Hst.
  destruct (eof (skipWS l)) eqn:He.
  { simpl. unfold boundary. auto 10. }
  destruct (looksLikePrefix p (skipWS l)) eqn:Hp.
  { simpl. unfold boundary. auto 10. }
  destruct (readArg (skipWS l)) as [[[key ov] l']|e] eqn:E; [|done].
  apply readArg_progress in E as (Hs & Hlt & Hw & Hne); auto; last first.
  { intros H%eof_rest. congruence. }
  destruct ov as [v|].
  - destruct (String.eqb key "") eqn:Hk; [done|].
    apply (args_post_mono _ l'); [done|lia|]. apply IH; [lia|done|].
    apply map_Forall_insert_2; [|done]. unfold is_word. by rewrite Hk, Hw.
  - apply (args_post_mono _ l'); [done|lia|]. apply IH; [lia| |done].
    apply Forall_app_2; [done|]. constructor; [|done]. unfold is_word. rewrite Hw.
    destruct (String.eqb_spec key ""); [|done]. by destruct Hne.
Qed.

(** A directive the parser may return. *)
Definition directive_wf (pos : Pos) (d : Directive) : Prop :=
  isValidName (Name d) = true ∧ DPos d = pos ∧
  Forall (λ w, is_word w = true) (Args d) ∧ map_Forall (λ k _, is_word k = true) (KV d).

Lemma consumePrefix_advance l neg l' :
  consumePrefix p l = Some (neg, l') → src l' = src l ∧ remaining l' ≤ remaining l.
Proof.
  unfold consumePrefix. intros H. split_matches; rewrite remaining_advance; split; auto; lia.
Qed.

Lemma consumePrefix_None l : consumePrefix p l = None ↔ looksLikePrefix p l = false.
Proof.
  unfold consumePrefix, looksLikePrefix.
  destruct (has_prefix _ (negateFor p)), (has_prefix _ (setForm p)), (has_prefix _ (neutral p));
    simpl; split; congruence.
Qed.

Definition one_post (pos : Pos) (l : lexer) (r : res ParseErr (Directive * lexer)) : Prop :=
  match r with
  | Ok (d, l') =>
      src l' = src l ∧ remaining l' < remaining l ∧ boundary l' ∧ directive_wf pos d ∧
      stops is_blank (rest l') = true
  | Err MissingPrefix => looksLikePrefix p l = false
  | Err OutOfFuel => False
  | Err _ => True
  end.

Lemma parseOne_post fuel l pos :
  remaining l < fuel → one_post pos l (parseOne p fuel l pos).
Proof.
  intros Hf. unfold parseOne. destruct (consumePrefix p l) as [[neg l1]|] eqn:Ec; last first.
  { by apply consumePrefix_None. }
  apply consumePrefix_advance in Ec as [Hs Hr].
  unfold readBareTo. set (n := span _ (rest l1)). set (name := str_take n _).
  destruct (String.eqb_spec name "") as [|Hne]; [done|].
  destruct (isValidName name) eqn:Hv; [|done]. simpl.
  assert (0 < n ∧ 0 < remaining l1) as [Hn Hr1].
  { rewrite <- rest_length. unfold name in Hne. destruct (rest l1), n; simpl in *; try done; lia. }
  assert (remaining (advance n l1) < fuel) as Hlt by (rewrite remaining_advance; lia).
  pose proof (arg_loop_post fuel (advance n l1) [] ∅ Hlt (Forall_nil_2 _) (map_Forall_empty _)) as Hp.
  destruct (arg_loop p fuel (advance n l1) [] ∅) as [[[a kv] l2]|e].
  - destruct Hp as (H1 & H2 & H3 & H4 & H5 & H6). rewrite remaining_advance in H2. simpl in *.
    split; [congruence|]. split; [lia|]. repeat split; auto.
  - by destruct e.
Qed.

Definition loop_post (pos : Pos) (r : res ParseErr (list Directive)) : Prop :=
  match r with
  | Ok ds => Forall (directive_wf pos) ds
  | Err MissingPrefix | Err OutOfFuel => False
  | Err _ => True
  end.

Lemma skipWS_id l : stops is_blank (rest l) = true → skipWS l = l.
Proof.
  intros H. unfold skipWS.
  assert (span is_blank (rest l) = 0) as ->.
  { destruct (rest l) as [|a s]; simpl in *; [done|]. by destruct (is_blank a). }
  destruct l. unfold advance. simpl. by rewrite Nat.add_0_r.
Qed.

Lemma parse_loop_post fuel l pos out :
  remaining l < fuel → Forall (directive_wf pos) out → boundary l →
  stops is_blank (rest l) = true → loop_post pos (parse_loop p fuel l pos out).
Proof.
  revert l out. induction fuel as [|fuel IH]; [lia|]. intros l out Hf Ho Hb Hst. cbn [parse_loop].
  rewrite skipWS_id by done. destruct (eof l) eqn:He; [done|].
  assert (remaining l < S (String.length (src l))) as Hlt by (unfold remaining; lia).
  pose proof (parseOne_post _ l pos Hlt) as Hp.
  destruct (parseOne p _ l pos) as [[d l']|e].
  - destruct Hp as (Hs & Hr & Hb' & Hw & Hst'). apply IH; [lia| |done|done].
    apply Forall_app_2; auto.
  - destruct e; try done. simpl in *. destruct Hb; congruence.
Qed.

End Loops.

(** ** [Parse] and [ParseComment] *)

Lemma trim_left_stops f s : stops f (trim_left f s) = true.
Proof. induction s as [|a s IH]; simpl; [done|]. by destruct (f a) eqn:E; simpl; rewrite ?E. Qed.

Lemma stripPrefix_None p s : stripPrefix p s = None ↔ looksLikePrefix p (MkLexer s 0) = false.
Proof.
  unfold stripPrefix, looksLikePrefix, rest. simpl.
  destruct (has_prefix _ (negateFor p)), (has_prefix _ (setForm p)), (has_prefix _ (neutral p));
    simpl; split; congruence.
Qed.

Lemma no_form_of_empty pfx : stripPrefix (newParser pfx) "" = None.
Proof. unfold stripPrefix. simpl. by destruct pfx. Qed.

(** What [Parse] answers. *)
Definition parse_post (pfx text : string) (pos : Pos) (r : res ParseErr (list Directive)) : Prop :=
  match r with
  | Ok ds => ds ≠ [] ∧ Forall (directive_wf pos) ds ∧
             stripPrefix (newParser pfx) (trim_left is_blank text) ≠ None
  | Err MissingPrefix => stripPrefix (newParser pfx) (trim_left is_blank text) = None
  | Err OutOfFuel => False
  | Err _ => stripPrefix (newParser pfx) (trim_left is_blank text) ≠ None
  end.

Lemma Parse_post pfx text pos : parse_post pfx text pos (Parse (newParser pfx) text pos).
Proof.
  unfold Parse. set (t := trim_left is_blank text). cbn [parse_loop].
  pose proof (trim_left_stops is_blank text) as Hst. fold t in Hst.
  assert (rest (MkLexer t 0) = t) as Hrest by by destruct t.
  rewrite skipWS_id by by rewrite Hrest.
  destruct (eof (MkLexer t 0)) eqn:He.
  { apply eof_rest in He. rewrite Hrest in He. simpl. fold t. rewrite He.
    apply no_form_of_empty. }
  set (p := newParser pfx).
  assert (remaining (MkLexer t 0) < S (String.length t)) as Hlt
    by (unfold remaining; simpl; lia).
  pose proof (parseOne_post p _ (MkLexer t 0) pos Hlt) as Hp. cbn [src] in *.
  pose proof (parseOne_post p (S (String.length t)) (MkLexer t 0) pos Hlt) as Hq.
  destruct (stripPrefix p t) eqn:Hsp; last first.
  { pose proof Hsp as Hl. apply stripPrefix_None in Hl. unfold parseOne.
    apply consumePrefix_None in Hl. rewrite Hl. done. }
  assert (looksLikePrefix p (MkLexer t 0) = true) as Hl.
  { apply not_false_iff_true. rewrite <- stripPrefix_None. congruence. }
  assert (stripPrefix p t ≠ None) as Hsome by congruence.
  destruct (parseOne p _ (MkLexer t 0) pos) as [[d l']|e].
  - destruct Hp as (Hs & Hr & Hb & Hw & Hst'). simpl in Hs.
    assert (remaining l' < String.length t) as Hlt'.
    { unfold remaining in *. rewrite Hs in *. simpl in *. lia. }
    pose proof (parse_loop_post p _ l' pos ([] ++ [d]) Hlt' (Forall_cons_2 _ _ _ Hw (Forall_nil_2 _)) Hb Hst')
      as Hpost.
    assert (∀ f l o ds, o ≠ [] → parse_loop p f l pos o = Ok ds → ds ≠ []) as Hgrow.
    { clear. induction f as [|f IH]; [done|]. intros l o ds Ho. cbn [parse_loop].
      intros H. split_matches; auto. eapply IH; [|done]. by destruct o. }
    destruct (parse_loop p _ l' pos ([] ++ [d])) as [ds|e] eqn:E.
    + destruct ds as [|d0 ds]; [by apply Hgrow in E|]. simpl in *. auto.
    + by destruct e.
  - destruct e; simpl in *; try done. congruence.
Qed.

(** The parser answers on every text, for every prefix (the fuel of its
    two loops is enough).  When it accepts, it returns at least one directive,
    each with a valid name, the position given, positional arguments and keys
    that are non-empty bare words (no blank, no [=], so never the empty key).
    It reports a missing prefix exactly when the text, blanks trimmed, opens
    with none of the three forms: never because of a later directive of the
    line. *)
Theorem parse_total_wellformed (pfx text : string) (pos : Pos) :
  match Parse (newParser pfx) text pos with
  | Ok ds => ds ≠ [] ∧ Forall (directive_wf pos) ds ∧
             stripPrefix (newParser pfx) (trim_left is_blank text) ≠ None
  | Err MissingPrefix => stripPrefix (newParser pfx) (trim_left is_blank text) = None
  | Err OutOfFuel => False
  | Err _ => stripPrefix (newParser pfx) (trim_left is_blank text) ≠ None
  end.
Proof. apply (Parse_post pfx text pos). Qed.

(** ** A printer of directive lines *)

Inductive token :=
| Word (w : string)
| Pair (k v : string)
| Quoted (k v : string).

Inductive sigil := Neutral | Plus | Minus.

Record item := MkItem { sig : sigil; iname : string; toks : list token }.

Fixpoint escape (s : string) : string :=
  match s with
  | EmptyString => EmptyString
  | String c s =>
      (if Ascii.eqb c quote_byte || Ascii.eqb c "\" then String "\" (String c "")
       else if Ascii.eqb c "010" then String "\" "n"
       else if Ascii.eqb c "009" then String "\" "t"
       else String c "") +:+ escape s
  end.
Definition quoted (s : string) : string :=
  String quote_byte (escape s +:+ String quote_byte "").

Definition render (t : token) : string :=
  match t with
  | Word w => w
  | Pair k v => k +:+ String "=" v
  | Quoted k v => k +:+ String "=" (quoted v)
  end.
Fixpoint render_all (ts : list token) : string :=
  match ts with [] => "" | t :: ts => String " " (render t +:+ render_all ts) end.

Definition body (i : item) : string := iname i +:+ render_all (toks i).
Definition form (p : Parser) (g : sigil) : string :=
  match g with Neutral => neutral p | Plus => setForm p | Minus => negateFor p end.
Definition print_item (p : Parser) (i : item) : string := form p (sig i) +:+ body i.
Fixpoint print_line (p : Parser) (l : list item) : string :=
  match l with
  | [] => ""
  | [i] => print_item p i
  | i :: l => print_item p i +:+ String " " (print_line p l)
  end.

(** What the line means: the last pair for a key wins. *)
Definition words (ts : list token) : list string :=
  omap (λ t, match t with Word w => Some w | _ => None end) ts.
Definition add_pair (kv : gmap string string) (t : token) : gmap string string :=
  match t with Word _ => kv | Pair k v | Quoted k v => <[k := v]> kv end.
Definition denote (pos : Pos) (i : item) : Directive :=
  MkDirective (iname i) (match sig i with Minus => true | _ => false end)
    (words (toks i)) (foldl add_pair ∅ (toks i)) (body i) pos.

(** A token the grammar can carry: bare words and keys, and nothing that reads
    as the start of the next directive. *)
Definition non_blank (c : ascii) : bool := negb (is_blank c).
Definition starts_form (p : Parser) (s : string) : bool :=
  has_prefix s (negateFor p) || has_prefix s (setForm p) || has_prefix s (neutral p).
Definition token_ok (p : Parser) (t : token) : bool :=
  negb (starts_form p (render t)) &&
  match t with
  | Word w => is_word w
  | Pair k v =>
      is_word k && str_all non_blank v &&
      match v with String c _ => negb (Ascii.eqb c quote_byte) | EmptyString => true end
  | Quoted k _ => is_word k
  end.
Definition item_ok (p : Parser) (i : item) : bool :=
  isValidName (iname i) && forallb (token_ok p) (toks i).

(** ** Reading back what was printed *)

Lemma quoted_body_escape v s :
  quoted_body (escape v +:+ String quote_byte s) = Ok (v, S (String.length (escape v))).
Proof.
  induction v as [|c v IH]; [done|]. cbn [escape].
  destruct (Ascii.eqb_spec c quote_byte) as [->|Hq]; simpl; [by rewrite IH|].
  destruct (Ascii.eqb_spec c "\") as [->|Hb]; simpl; [by rewrite IH|].
  destruct (Ascii.eqb_spec c "010") as [->|Hn]; simpl; [by rewrite IH|].
  destruct (Ascii.eqb_spec c "009") as [->|Ht]; simpl; [by rewrite IH|].
  apply Ascii.eqb_neq in Hq, Hb. by rewrite Hb, Hq, IH.
Qed.

Lemma non_blank_split f r :
  (∀ c, f c = true → non_blank c = true) → stops non_blank r = true → stops f r = true.
Proof.
  destruct r as [|a r]; simpl; [done|]. intros H Hb. specialize (H a). destruct (f a); [|done].
  by rewrite H in Hb.
Qed.

Lemma word_byte_non_blank c : word_byte c = true → non_blank c = true.
Proof. unfold word_byte, non_blank. intros. by bool_props. Qed.

Lemma str_all_impl f g s :
  (∀ c, f c = true → g c = true) → str_all f s = true → str_all g s = true.
Proof. intros H. induction s as [|a s IH]; simpl; [done|]. intros. bool_props. auto. Qed.

Lemma is_word_all w : is_word w = true → str_all word_byte w = true.
Proof. unfold is_word. intros. by bool_props. Qed.

Lemma readBareTo_lx stop w pre r :
  str_all (λ c, negb (is_blank c) && negb (str_has stop c)) w = true →
  stops (λ c, negb (is_blank c) && negb (str_has stop c)) r = true →
  readBareTo stop (lx pre (w +:+ r)) = (w, lx (pre +:+ w) r).
Proof.
  intros Hw Hr. unfold readBareTo. rewrite rest_lx, span_app by done.
  by rewrite str_take_app, advance_lx.
Qed.

Lemma readBareTo_word w pre r :
  str_all word_byte w = true → stops word_byte r = true →
  readBareTo "=" (lx pre (w +:+ r)) = (w, lx (pre +:+ w) r).
Proof.
  intros Hw Hr. apply readBareTo_lx.
  - by rewrite (str_all_ext _ word_byte) by apply arg_stop.
  - destruct r as [|a r]; simpl in *; [done|]. by rewrite arg_stop.
Qed.

Lemma advance1_lx pre c s : advance 1 (lx pre (String c s)) = lx (pre +:+ String c "") s.
Proof. apply (advance_lx pre (String c "") s). Qed.

Lemma readArg_render p t pre r :
  token_ok p t = true → stops non_blank r = true →
  readArg (lx pre (render t +:+ r)) =
  Ok (match t with Word w => (w, None) | Pair k v | Quoted k v => (k, Some v) end,
      lx (pre +:+ render t) r).
Proof.
  unfold token_ok. intros Hok Hr. apply andb_true_iff in Hok as [_ Hok].
  unfold readArg. destruct t as [w|k v|k v]; cbn [render].
  - rewrite readBareTo_word;
      [|by apply is_word_all|by eapply non_blank_split, Hr; apply word_byte_non_blank].
    replace (negb (eof _) && at_byte _ _) with false; [done|].
    unfold at_byte. rewrite rest_lx, eof_lx. destruct r as [|a r]; [done|]. simpl in *.
    by destruct (Ascii.eqb_spec a "=") as [->|].
  - bool_props. rewrite <- append_assoc. change (String "=" v +:+ r) with (String "=" (v +:+ r)).
    rewrite readBareTo_word; [|by apply is_word_all|done].
    unfold at_byte at 1. rewrite eof_lx, rest_lx. simpl. rewrite advance1_lx.
    unfold readValue. rewrite eof_lx. unfold at_byte. rewrite rest_lx.
    replace (negb (String.eqb (v +:+ r) "") && _) with false.
    + rewrite readBareTo_lx.
      * do 2 f_equal. by rewrite <- !append_assoc.
      * by rewrite (str_all_ext _ non_blank) by (intros c; by rewrite andb_true_r).
      * destruct r as [|a r]; simpl in *; [done|]. by rewrite andb_true_r.
    + destruct v as [|c v]; simpl in *.
      * destruct r as [|a r]; [done|]. simpl in *.
        by destruct (Ascii.eqb_spec a quote_byte) as [->|].
      * apply negb_true_iff in H0. by rewrite H0.
  - rewrite <- append_assoc. change (String "=" (quoted v) +:+ r) with (String "=" (quoted v +:+ r)).
    rewrite readBareTo_word; [|by apply is_word_all|done].
    unfold at_byte at 1. rewrite eof_lx, rest_lx. simpl. rewrite advance1_lx.
    unfold readValue. rewrite eof_lx. unfold at_byte. rewrite rest_lx. unfold quoted. simpl.
    unfold readQuoted. rewrite advance1_lx, rest_lx, <- append_assoc. simpl.
    rewrite quoted_body_escape.
    replace (S (String.length (escape v))) with (String.length (escape v +:+ String quote_byte ""))
      by (rewrite append_length; simpl; lia).
    replace (escape v +:+ String quote_byte r) with ((escape v +:+ String quote_byte "") +:+ r)
      by by rewrite <- append_assoc.
    rewrite advance_lx. do 2 f_equal. by rewrite <- !append_assoc.
Qed.

(** The prefix forms hold no blank, so a form never spans a separator. *)
Lemma has_prefix_sep w r f :
  str_all non_blank f = true → stops non_blank r = true →
  has_prefix (w +:+ r) f = has_prefix w f.
Proof.
  unfold has_prefix. intros Hf Hr. revert w Hf. induction f as [|a f IH]; intros [|c w] Hf;
    simpl in *; bool_props; try done.
  - by destruct r.
  - destruct r as [|b r]; [done|]. simpl in *. destruct (ascii_dec a b) as [->|]; [|done].
    bool_props. congruence.
  - destruct (ascii_dec a c); auto.
Qed.

Lemma occurs_byte_false c s :
  occurs (String c "") s = false → str_all (λ a, negb (Ascii.eqb a c)) s = true.
Proof.
  induction s as [|a s IH]; simpl; [done|]. intros. bool_props. split; [|auto].
  unfold has_prefix in *. simpl in *. destruct (ascii_dec c a) as [->|Hn]; [by destruct s|].
  by rewrite (proj2 (Ascii.eqb_neq a c)) by congruence.
Qed.

Lemma valid_prefix_non_blank pfx : isValidPrefix pfx = true → str_all non_blank pfx = true.
Proof.
  unfold isValidPrefix. intros. bool_props. clear - H1.
  assert (occurs (byte_string [9]) pfx = false ∧ occurs (byte_string [32]) pfx = false) as [H2 H3].
  { assert (∀ q, In q space_runes → occurs q pfx = false) as H.
    { intros q Hq. apply not_true_iff_false. intros Ho. apply not_true_iff_false in H1. apply H1.
      apply existsb_exists. eauto. }
    split; apply H; vm_compute; tauto. }
  apply occurs_byte_false in H2, H3. clear H1. induction pfx as [|a s IH]; simpl in *; [done|].
  bool_props. split; [|auto]. unfold non_blank, is_blank.
  change (ascii_of_nat 9) with "009"%char in *. change (ascii_of_nat 32) with " "%char in *.
  by repeat match goal with E : Ascii.eqb _ _ = false |- _ => rewrite E; clear E end.
Qed.

Lemma str_all_app f s t : str_all f (s +:+ t) = str_all f s && str_all f t.
Proof. induction s as [|a s IH]; simpl; [done|]. by rewrite IH, andb_assoc. Qed.

Lemma valid_name_word n : isValidName n = true → is_word n = true.
Proof.
  assert (∀ c, isNameRune c = true → word_byte c = true) as Hc
    by (intros [[] [] [] [] [] [] [] []]; vm_compute; done).
  destruct n as [|a n]; [done|]. simpl. intros. bool_props. unfold is_word. simpl.
  rewrite (str_all_impl isNameRune) by done. rewrite andb_true_r. apply Hc.
  unfold isNameRune. unfold isNameStart in H. by rewrite H.
Qed.

(** The text ends in a byte outside the class. *)
Definition ends_in (f : ascii → bool) (s : string) : Prop := ∃ u c, s = u +:+ String c "" ∧ f c = true.

Lemma ends_in_app f s t : ends_in f t → ends_in f (s +:+ t).
Proof. intros (u & c & -> & H). exists (s +:+ u), c. by rewrite append_assoc. Qed.

Lemma ends_in_all f s : s ≠ "" → str_all f s = true → ends_in f s.
Proof.
  induction s as [|a s IH]; [done|]. intros _ H. simpl in H. bool_props. destruct s as [|b s].
  - by exists "", a.
  - apply (ends_in_app f (String a "")). by apply IH.
Qed.

Lemma trim_right_ends w sp :
  ends_in non_blank w → str_all is_blank sp = true → trim_right is_blank (w +:+ sp) = w.
Proof.
  intros (u & c & -> & Hc) Hsp. unfold non_blank in Hc. bool_props.
  assert (trim_right is_blank sp = "") as Ht.
  { clear - Hsp. induction sp as [|a s IH]; simpl in *; [done|]. bool_props. by rewrite IH, H. }
  induction u as [|a u IH]; simpl; [by rewrite Ht, Hc|]. rewrite IH. by destruct u.
Qed.

Lemma render_ends p t : token_ok p t = true → ends_in non_blank (render t).
Proof.
  unfold token_ok, is_word. destruct t as [w|k v|k v]; simpl; intros H; bool_props.
  - apply ends_in_all; [by apply String.eqb_neq|]. by eapply str_all_impl, H1; apply word_byte_non_blank.
  - apply ends_in_app. apply (ends_in_all _ (String "=" v)); [done|]. simpl. by rewrite H2.
  - apply ends_in_app. apply (ends_in_app _ (String "=" (String quote_byte (escape v)))
      (String quote_byte "")). by exists "", quote_byte.
Qed.

Lemma body_ends p i : item_ok p i = true → ends_in non_blank (body i).
Proof.
  unfold item_ok, body. destruct i as [g n ts]. simpl. intros. bool_props.
  apply valid_name_word in H. unfold is_word in H. bool_props.
  induction ts as [|t ts IH] using rev_ind.
  - simpl. rewrite append_nil_r. apply ends_in_all; [by apply String.eqb_neq|].
    by eapply str_all_impl, H1; apply word_byte_non_blank.
  - rewrite forallb_app in H0. simpl in H0. bool_props.
    assert (∀ us, render_all (us ++ [t]) = render_all us +:+ String " " (render t)) as Hsnoc.
    { induction us as [|u us IHu]; simpl; [by rewrite append_nil_r|].
      by rewrite IHu, append_assoc. }
    rewrite Hsnoc, append_assoc. apply ends_in_app.
    apply (ends_in_app _ (String " " "")). by eapply render_ends.
Qed.

Lemma skipWS_lx pre sp s :
  str_all is_blank sp = true → stops is_blank s = true →
  skipWS (lx pre (sp +:+ s)) = lx (pre +:+ sp) s.
Proof. intros. unfold skipWS. rewrite rest_lx, span_app by done. by rewrite advance_lx. Qed.

Lemma looksLikePrefix_lx p pre s : looksLikePrefix p (lx pre s) = starts_form p s.
Proof. unfold looksLikePrefix. by rewrite rest_lx. Qed.

Lemma str_all_blank_stops sp s :
  sp ≠ "" → str_all is_blank sp = true → stops non_blank (sp +:+ s) = true.
Proof.
  destruct sp as [|a sp]; [done|]. intros _ H. simpl in *. bool_props. unfold non_blank.
  by rewrite H.
Qed.

Lemma stops_word p t s : token_ok p t = true → stops is_blank (render t +:+ s) = true.
Proof.
  unfold token_ok, is_word. intros H. bool_props. destruct t as [w|k v|k v]; simpl in *; bool_props;
    [destruct w|destruct k|destruct k]; simpl in *; unfold word_byte in *; bool_props; try done;
    by rewrite H1 || by rewrite H2 || idtac;
    match goal with E : is_blank _ = false |- _ => by rewrite E end.
Qed.

Section RoundTrip.
Context (pfx : string) (Hpfx : isValidPrefix pfx = true).
Abbreviation p := (newParser pfx).

Lemma forms_non_blank g : str_all non_blank (form p g) = true.
Proof using Hpfx.
  pose proof (valid_prefix_non_blank _ Hpfx) as H.
  destruct g; simpl; by rewrite str_all_app, H.
Qed.

Lemma starts_form_sep w r :
  stops non_blank r = true → starts_form p (w +:+ r) = starts_form p w.
Proof using Hpfx.
  intros Hr. unfold starts_form.
  by rewrite (has_prefix_sep w r (negateFor p) (forms_non_blank Minus) Hr),
    (has_prefix_sep w r (setForm p) (forms_non_blank Plus) Hr),
    (has_prefix_sep w r (neutral p) (forms_non_blank Neutral) Hr).
Qed.

(** What may follow a directive on its line: nothing, or blanks and the next
    directive. *)
Definition tail_ok (sp s : string) : Prop :=
  (sp = "" ∧ s = "") ∨
  (sp ≠ "" ∧ str_all is_blank sp = true ∧ stops is_blank s = true ∧ starts_form p s = true).

Lemma tail_sep sp s : tail_ok sp s → stops non_blank (sp +:+ s) = true.
Proof. intros [[-> ->]|(Hne & Hsp & _)]; [done|]. by apply str_all_blank_stops. Qed.

Lemma render_all_sep ts r : stops non_blank r = true → stops non_blank (render_all ts +:+ r) = true.
Proof. by destruct ts. Qed.

Lemma arg_loop_render ts pre sp s a kv fuel :
  length ts < fuel → forallb (token_ok p) ts = true → tail_ok sp s →
  arg_loop p fuel (lx pre (render_all ts +:+ (sp +:+ s))) a kv =
  Ok (a ++ words ts, foldl add_pair kv ts, lx ((pre +:+ render_all ts) +:+ sp) s).
Proof using Hpfx.
  revert pre a kv fuel. induction ts as [|t ts IH]; intros pre a kv [|fuel] Hf Hts Ht;
    try (simpl in Hf; lia); cbn [arg_loop].
  - cbn [render_all words omap foldl]. rewrite !append_nil_r, app_nil_r.
    cbn [String.append].
    assert (str_all is_blank sp = true ∧ stops is_blank s = true) as [H1 H2].
    { by destruct Ht as [[-> ->]|(_ & ? & ? & _)]. }
    rewrite skipWS_lx by done. rewrite eof_lx, looksLikePrefix_lx.
    destruct Ht as [[-> ->]|(_ & _ & _ & Hs)]; [done|]. rewrite Hs. by destruct (String.eqb s "").
  - cbn [forallb] in Hts. apply andb_true_iff in Hts as [Ht1 Hts].
    cbn [render_all]. set (r := render_all ts +:+ (sp +:+ s)).
    assert (stops non_blank r = true) as Hr by by apply render_all_sep, tail_sep.
    replace (String " " (render t +:+ render_all ts) +:+ (sp +:+ s))
      with ((String " " "") +:+ (render t +:+ r)) by (simpl; unfold r; by rewrite append_assoc).
    rewrite skipWS_lx by (done || by eapply stops_word).
    rewrite eof_lx, looksLikePrefix_lx, starts_form_sep by done.
    assert (starts_form p (render t) = false) as -> by (unfold token_ok in Ht1; by bool_props).
    assert (String.eqb (render t +:+ r) "" = false) as ->.
    { apply String.eqb_neq. intros He. destruct (render_ends _ _ Ht1) as (u & c & Hu & _).
      rewrite Hu in He. by destruct u. }
    rewrite (readArg_render p) by done.
    assert (∀ a' kv', arg_loop p fuel (lx ((pre +:+ String " " "") +:+ render t) r) a' kv' =
      Ok (a' ++ words ts, foldl add_pair kv' ts,
          lx ((pre +:+ String " " (render t +:+ render_all ts)) +:+ sp) s)) as Hgo.
    { intros a' kv'. unfold r. rewrite IH by first [done | simpl in Hf; lia].
      do 2 f_equal. rewrite <- !append_assoc. simpl. by rewrite <- ?append_assoc. }
    assert (∀ k, is_word k = true → String.eqb k "" = false) as Hk.
    { unfold is_word. intros k H. by bool_props. }
    unfold token_ok in Ht1. bool_props. destruct t as [w|k v|k v]; bool_props.
    + rewrite Hgo. by rewrite <- app_assoc.
    + rewrite Hk by done. by rewrite Hgo.
    + rewrite Hk by done. by rewrite Hgo.
Qed.

Lemma prefix_heads : ∃ c t, pfx = String c t ∧ c ≠ "-"%char ∧ c ≠ "+"%char.
Proof using Hpfx.
  unfold isValidPrefix in Hpfx. destruct pfx as [|c t]; [done|]. exists c, t. split; [done|].
  unfold str_has in Hpfx. simpl in Hpfx. split; intros ->; simpl in Hpfx; bool_props;
    simpl in *; try done; by rewrite !orb_true_r in *.
Qed.

Lemma consumePrefix_form g pre s :
  consumePrefix p (lx pre (form p g +:+ s)) =
  Some (match g with Minus => true | _ => false end, lx (pre +:+ form p g) s).
Proof using Hpfx.
  destruct prefix_heads as (c & t & Hc & Hm & Hp). unfold consumePrefix. rewrite rest_lx.
  destruct g; cbn [form].
  - replace (has_prefix (neutral p +:+ s) (negateFor p)) with false.
    + replace (has_prefix (neutral p +:+ s) (setForm p)) with false.
      * by rewrite has_prefix_app, advance_lx.
      * symmetry. apply not_true_iff_false. rewrite has_prefix_spec. intros [u Hu].
        rewrite Hc in Hu. simpl in Hu. congruence.
    + symmetry. apply not_true_iff_false. rewrite has_prefix_spec. intros [u Hu].
      rewrite Hc in Hu. simpl in Hu. congruence.
  - by rewrite has_prefix_app, advance_lx.
  - by rewrite has_prefix_app, advance_lx.
Qed.

Lemma render_all_length ts : length ts ≤ String.length (render_all ts).
Proof. induction ts as [|t ts IH]; simpl; [lia|]. rewrite append_length. lia. Qed.

Lemma name_stop c :
  negb (is_blank c) && negb (str_has (String " " (String "009" "=")) c) = word_byte c.
Proof. revert c. intros [[] [] [] [] [] [] [] []]; vm_compute; done. Qed.

Lemma slice_mid s t u : slice (s +:+ (t +:+ u)) (String.length s) (String.length s + String.length t) = t.
Proof.
  unfold slice. rewrite str_drop_app. replace (_ + _ - _) with (String.length t) by lia.
  apply str_take_app.
Qed.

Lemma parseOne_print i pre sp s pos fuel :
  item_ok p i = true → tail_ok sp s → length (toks i) < fuel →
  parseOne p fuel (lx pre (print_item p i +:+ (sp +:+ s))) pos =
  Ok (denote pos i, lx ((pre +:+ print_item p i) +:+ sp) s).
Proof using Hpfx.
  intros Hok Ht Hf. pose proof (body_ends _ _ Hok) as Hends.
  unfold print_item, parseOne. rewrite <- append_assoc, consumePrefix_form.
  unfold body at 1. rewrite <- append_assoc. unfold item_ok in Hok. bool_props.
  pose proof (valid_name_word _ H) as Hw. unfold is_word in Hw. bool_props.
  rewrite readBareTo_lx; last first.
  { assert (stops non_blank (render_all (toks i) +:+ (sp +:+ s)) = true) as Hs
      by by apply render_all_sep, tail_sep.
    destruct (render_all (toks i) +:+ (sp +:+ s)) as [|a r]; [done|]. simpl stops in *.
    rewrite name_stop. unfold word_byte, non_blank in *. bool_props. by rewrite Hs. }
  { by rewrite (str_all_ext _ word_byte) by apply name_stop. }
  rewrite H1, H. cbn [negb]. rewrite arg_loop_render by done. f_equal. f_equal.
  - unfold denote. f_equal. unfold lx. cbn [src lpos].
    set (at_ := pre +:+ form p (sig i)).
    replace (String.length (((at_ +:+ iname i) +:+ render_all (toks i)) +:+ sp))
      with (String.length at_ + String.length (body i +:+ sp));
      [|unfold body; rewrite !append_length; lia].
    replace ((((at_ +:+ iname i) +:+ render_all (toks i)) +:+ sp) +:+ s)
      with (at_ +:+ ((body i +:+ sp) +:+ s));
      [|unfold body; by rewrite <- !append_assoc].
    rewrite slice_mid. apply trim_right_ends; [done|].
    by destruct Ht as [[-> ->]|(_ & ? & _)].
  - unfold body. by rewrite <- !append_assoc.
Qed.

Lemma form_opens g s :
  stops is_blank (form p g +:+ s) = true ∧ starts_form p (form p g +:+ s) = true ∧
  form p g +:+ s ≠ "".
Proof using Hpfx.
  pose proof (forms_non_blank g) as Hf. split_and!.
  - destruct (form p g) eqn:E; [by destruct prefix_heads as (c & t & -> & _), g|].
    simpl in *. bool_props. unfold non_blank in *. by bool_props.
  - unfold starts_form. destruct g; cbn [form]; rewrite has_prefix_app, ?orb_true_r; done.
  - destruct prefix_heads as (c & t & -> & _). by destruct g.
Qed.

Lemma line_cons i l :
  ∃ sp, print_line p (i :: l) = print_item p i +:+ (sp +:+ print_line p l) ∧
        tail_ok sp (print_line p l).
Proof using Hpfx.
  destruct l as [|j l].
  - exists "". simpl. rewrite append_nil_r. split; [done|]. by left.
  - exists " ". split; [done|]. right.
    assert (∃ r, print_line p (j :: l) = form p (sig j) +:+ r) as [r ->].
    { destruct l; simpl; unfold print_item; rewrite <- ?append_assoc; eauto. }
    by destruct (form_opens (sig j) r) as (? & ? & _).
Qed.

Lemma parse_loop_print l pre pos out fuel :
  length l < fuel → Forall (λ i, item_ok p i = true) l →
  parse_loop p fuel (lx pre (print_line p l)) pos out = Ok (out ++ map (denote pos) l).
Proof using Hpfx.
  revert pre out fuel. induction l as [|i l IH]; intros pre out [|fuel] Hf Hl;
    try (simpl in Hf; lia); cbn [parse_loop].
  - rewrite skipWS_id by by rewrite rest_lx. rewrite eof_lx. simpl. by rewrite app_nil_r.
  - destruct (line_cons i l) as (sp & -> & Ht). inversion_clear Hl as [|? ? Hi Hl'].
    assert (print_item p i +:+ (sp +:+ print_line p l) =
      form p (sig i) +:+ (body i +:+ (sp +:+ print_line p l))) as He
      by (unfold print_item; by rewrite <- append_assoc).
    destruct (form_opens (sig i) (body i +:+ (sp +:+ print_line p l))) as (Hs & _ & Hne).
    rewrite <- He in Hs, Hne. rewrite skipWS_id by by rewrite rest_lx.
    rewrite eof_lx. apply String.eqb_neq in Hne. rewrite Hne.
    rewrite parseOne_print; [|done|done|].
    + rewrite IH by first [done | simpl in Hf; lia]. by rewrite <- app_assoc.
    + simpl. unfold print_item, body. rewrite !append_length.
      pose proof (render_all_length (toks i)). lia.
Qed.

Lemma print_line_length l : length l ≤ String.length (print_line p l).
Proof using Hpfx.
  induction l as [|i l IH]; [simpl; lia|]. destruct (line_cons i l) as (sp & -> & _).
  rewrite !append_length. unfold print_item. rewrite append_length.
  destruct prefix_heads as (c & t & Hc & _).
  assert (0 < String.length (form p (sig i))); [|simpl; lia].
  destruct (sig i); simpl; rewrite ?append_length; simpl; lia.
Qed.

Lemma trim_left_id f s : stops f s = true → trim_left f s = s.
Proof. destruct s as [|a s]; simpl; [done|]. by destruct (f a). Qed.

Lemma Parse_print_line l pos :
  l ≠ [] → Forall (λ i, item_ok p i = true) l →
  Parse p (print_line p l) pos = Ok (map (denote pos) l).
Proof using Hpfx.
  intros Hne Hl. unfold Parse.
  assert (stops is_blank (print_line p l) = true) as Hs.
  { destruct l as [|i l]; [done|]. destruct (line_cons i l) as (sp & -> & _). unfold print_item.
    rewrite <- append_assoc. by apply form_opens. }
  rewrite trim_left_id by done.
  change (MkLexer (print_line p l) 0) with (lx "" (print_line p l)).
  rewrite parse_loop_print; [by destruct l| |done].
  pose proof (print_line_length l). lia.
Qed.
End RoundTrip.

(** C14: The parser reads back what a directive line says.  For every valid
    prefix and every non-empty list of directives, printed one after the other
    with any mix of the three forms, of bare words, bare pairs and quoted pairs
    (whose values are arbitrary bytes, escaped), [Parse] returns exactly those
    directives: names, negation, positional arguments in order, the key/value
    map with the last pair of a key winning, and [Raw] equal to the
    directive's own body. *)
Theorem parse_print_roundtrip (pfx : string) (P : Parser) (l : list item) (pos : Pos) :
  NewParser pfx = Ok P → l ≠ [] → Forall (λ i, item_ok P i = true) l →
  Parse P (print_line P l) pos = Ok (map (denote pos) l).
Proof.
  unfold NewParser. destruct (isValidPrefix pfx) eqn:Hv; simpl; [|done].
  intros [= <-] Hne Hl. by apply Parse_print_line.
Qed.

Definition sample_line : list item :=
  [MkItem Neutral "meta" [Quoted "doc" "say \hi"; Pair "k" "v=w"; Pair "k" ""];
   MkItem Minus "out" [Word "users.go"];
   MkItem Plus "repo" []].

Lemma parse_print_roundtrip_witness :
  Parse DefaultParser (print_line DefaultParser sample_line) (At "a.go" 3 1) =
  Ok (map (denote (At "a.go" 3 1)) sample_line).
Proof.
  apply (parse_print_roundtrip "gen"); [reflexivity|discriminate|].
  repeat constructor; vm_compute; reflexivity.
Defined.

(** [ParseComment] leaves alone every comment that carries no directive of
    the prefix: it returns no directive and no error exactly when the comment,
    markers and white space stripped, does not open with one of the three
    forms.  So a comment that does open with one is never skipped silently. *)
Theorem parse_comment_ignores_iff (pfx comment : string) (pos : Pos) :
  let body := trim_space (trim_suffix (trim_prefix (trim_prefix (trim_space comment) "//") "/*") "*/") in
  ParseComment (newParser pfx) comment pos = Ok [] ↔ stripPrefix (newParser pfx) body = None.
Proof.
  intros body. unfold ParseComment. fold body. destruct (String.eqb_spec body "") as [->|Hne].
  { by rewrite no_form_of_empty. }
  destruct (stripPrefix (newParser pfx) body) eqn:E; [|done]. split; [|done].
  intros Hp. pose proof (Parse_post pfx body pos) as H. rewrite Hp in H. by destruct H.
Qed.
