(* ===== verification/Plugin.v ===== *)
(** * Plugins and their optional capabilities ([plugin/], [priority/])

    A plugin is a Go interface value.  What the pipeline sees of it is its
    identity, its name, and for each optional single-method interface whether
    the assertion succeeds and, if so, what the method answers.  Those answers
    are code of the plugin, so they are fields of the record: every theorem
    quantifies over them. *)

From S2P Require Import Prelude GoStrings Directive.

Local Open Scope string_scope.
Local Open Scope nat_scope.
Local Open Scope list_scope.

(** [plugin.Output] *)
Record Output := MkOutput { o_Tag : string; o_Suffix : string }.

Record Plugin := MkPlugin {
  p_id : nat;                                    (* the interface value's identity *)
  p_comparable : bool;                           (* its dynamic type is comparable *)
  p_name : string;
  p_Priority : option Z;                         (* PrioritySource *)
  p_Provides : option (list string);             (* ProvidesSource *)
  p_Requires : option (list string);             (* RequiresSource *)
  p_Templates : bool;                            (* TemplateSource *)
  p_TemplateFuncs : option (string → gmap string unit); (* TemplateFuncSource *)
  p_TemplateOverrides : bool;                    (* TemplateOverrideSource *)
  p_SetOptions : option (gmap string string → option string); (* OptionsProvider *)
  p_Directives : option (list Schema);           (* DirectiveProvider *)
  p_EmitVersions : option (list string);         (* EmitVersioned *)
  p_Outputs : option (string → list Output);     (* FilenameProvider *)
  p_Language : string;                           (* Backend *)
}.

(** The zero value of a plugin-typed variable, and a plugin that implements no
    optional capability. *)
Definition plain_plugin (id : nat) (name : string) : Plugin :=
  MkPlugin id true name None None None false None false None None None None "".
Definition zero_plugin : Plugin := plain_plugin 0 "".

(** ** [priority/priority.go] *)

Definition Priority := Z.
Definition AnnotatorShape : Priority := 200%Z.
Definition AnnotatorRefinement : Priority := 300%Z.
Definition AnnotatorValidation : Priority := 400%Z.
Definition GeneratorFoundation : Priority := 100%Z.
Definition GeneratorComposition : Priority := 200%Z.
Definition GeneratorCrossCutting : Priority := 300%Z.
Definition GeneratorFinalize : Priority := 400%Z.
Definition Default_priority : Priority := 300%Z.

(** ** [plugin/capability.go] *)

Record CapabilityMethod := MkMethod { cm_Name : string; cm_Declared : Plugin → bool }.
Record Capability := MkCapability { c_Name : string; c_Methods : list CapabilityMethod }.
Record Gap := MkGap { g_Capability : string; g_Declared : list string; g_Missing : list string }.

Definition declares {A} (o : option A) : bool := match o with Some _ => true | None => false end.

Definition Capabilities : list Capability :=
  [MkCapability "plugin.TemplateProvider"
     [MkMethod "Templates" p_Templates;
      MkMethod "TemplateFuncs" (λ p, declares (p_TemplateFuncs p));
      MkMethod "TemplateOverrides" p_TemplateOverrides];
   MkCapability "plugin.CapabilityProvider"
     [MkMethod "Priority" (λ p, declares (p_Priority p));
      MkMethod "Provides" (λ p, declares (p_Provides p));
      MkMethod "Requires" (λ p, declares (p_Requires p))]].

Fixpoint partition_loop (p : Plugin) (ms : list CapabilityMethod) (declared missing : list string)
    : list string * list string :=
  match ms with
  | [] => (declared, missing)
  | m :: ms =>
      if cm_Declared m p then partition_loop p ms (declared ++ [cm_Name m]) missing
      else partition_loop p ms declared (missing ++ [cm_Name m])
  end.
Definition partition (c : Capability) (p : Plugin) : list string * list string :=
  partition_loop p (c_Methods c) [] [].

Fixpoint gaps_loop (p : Plugin) (cs : list Capability) (out : list Gap) : list Gap :=
  match cs with
  | [] => out
  | c :: cs =>
      let '(declared, missing) := partition c p in
      if (length declared =? 0) || (length missing =? 0) then gaps_loop p cs out
      else gaps_loop p cs (out ++ [MkGap (c_Name c) declared missing])
  end.
Definition Gaps (p : Plugin) : list Gap := gaps_loop p Capabilities [].

(** ** The assertions the pipeline makes *)

(** [any(p).(plugin.CapabilityProvider)]: all three methods or nothing. *)
Record CapabilityProvider := MkCP {
  cp_Priority : Priority; cp_Provides : list string; cp_Requires : list string }.
Definition pluginCapability (p : Plugin) : option CapabilityProvider :=
  match p_Priority p, p_Provides p, p_Requires p with
  | Some pr, Some ps, Some rs => Some (MkCP pr ps rs)
  | _, _, _ => None
  end.

Definition pluginPriority (p : Plugin) : Priority :=
  match pluginCapability p with
  | Some cp => cp_Priority cp
  | None => Default_priority
  end.

(** [p.(plugin.TemplateProvider)]: the function map it answers for a language. *)
Definition templateFuncs (p : Plugin) : option (string → gmap string unit) :=
  match p_TemplateFuncs p with
  | Some f => if p_Templates p && p_TemplateOverrides p then Some f else None
  | None => None
  end.

(** A plugin has a gap exactly when it declares some but not all of a
    capability's three methods. *)
Lemma gaps_nil_iff p :
  Gaps p = [] ↔
  ((p_Templates p = declares (p_TemplateFuncs p) ∧
    p_TemplateOverrides p = declares (p_TemplateFuncs p)) ∧
   (declares (p_Priority p) = declares (p_Provides p) ∧
    declares (p_Requires p) = declares (p_Provides p))).
Proof.
  unfold Gaps, gaps_loop, partition, Capabilities, partition_loop; simpl.
  destruct (p_Templates p), (declares (p_TemplateFuncs p)), (p_TemplateOverrides p),
    (declares (p_Priority p)), (declares (p_Provides p)), (declares (p_Requires p));
    simpl; split; intros; naive_solver.
Qed.
