(* ===== verification/Resolve.v ===== *)
(** * Scheduling a phase ([pipeline/resolve.go])

    Plugins are grouped into priority buckets; within a bucket Kahn's algorithm
    orders them by the capabilities they provide and require, the ready
    frontier kept sorted by name.  Maps keyed by plugin name are ranged over in
    an arbitrary [MapOrder]. *)

From S2P Require Import Prelude GoStrings Directive Plugin.

Local Open Scope string_scope.
Local Open Scope nat_scope.
Local Open Scope list_scope.

Inductive ResolveError :=
| ErrDuplicateProvider (capability existing claimant : string)
| ErrCycle (cyclic : list string)
| ResolveOutOfFuel.

Record resolvedBucket := MkBucket { b_Priority : Priority; b_Plugins : list Plugin }.

(** [slices.BinarySearch]: the least index whose element is not below the
    target; the interval at least halves in each round. *)
Fixpoint binary_search (fuel : nat) (s : list string) (v : string) (i j : nat) : nat :=
  match fuel with
  | O => i
  | S fuel =>
      if i <? j then
        let h := (i + j) / 2 in
        if bool_decide (str_lt (s !!! h) v) then binary_search fuel s v (h + 1) j
        else binary_search fuel s v i h
      else i
  end.

Definition insertSorted (s : list string) (v : string) : list string :=
  let i := binary_search (length s) s v 0 (length s) in
  take i s ++ v :: drop i s.

(** ** [buildProvidesIndex] *)

Fixpoint provide_all (p : Plugin) (names : list string) (provides : gmap string Plugin)
    : res ResolveError (gmap string Plugin) :=
  match names with
  | [] => Ok provides
  | name :: names =>
      match provides !! name with
      | Some existing => Err (ErrDuplicateProvider name (p_name existing) (p_name p))
      | None => provide_all p names (<[name := p]> provides)
      end
  end.

Fixpoint provides_loop (plugins : list Plugin) (provides : gmap string Plugin)
    : res ResolveError (gmap string Plugin) :=
  match plugins with
  | [] => Ok provides
  | p :: plugins =>
      match pluginCapability p with
      | None => provides_loop plugins provides
      | Some cp =>
          match provide_all p (cp_Provides cp) provides with
          | Err e => Err e
          | Ok provides => provides_loop plugins provides
          end
      end
  end.

Definition buildProvidesIndex (plugins : list Plugin) : res ResolveError (gmap string Plugin) :=
  provides_loop plugins ∅.

(** ** [topoSortBucket] *)

(** The graph: the in-degree of every plugin name, and the names that depend
    on each name, once per satisfied requirement. *)
Record graph := MkGraph { inDegree : gmap string Z; dependents : gmap string (list string) }.

Definition add_edge (g : graph) (provider p : string) : graph :=
  MkGraph (<[p := (default 0 (inDegree g !! p) + 1)%Z]> (inDegree g))
          (<[provider := default [] (dependents g !! provider) ++ [p]]> (dependents g)).

Definition require_step (provides : gmap string Plugin) (p : Plugin) (g : graph) (req : string)
    : graph :=
  match provides !! req with
  | None => g
  | Some provider =>
      if String.eqb (p_name provider) (p_name p) then g
      else add_edge g (p_name provider) (p_name p)
  end.

Definition plugin_step (provides : gmap string Plugin) (g : graph) (p : Plugin) : graph :=
  match pluginCapability p with
  | None => g
  | Some cp => foldl (require_step provides p) g (cp_Requires cp)
  end.

Definition build_graph (provides : gmap string Plugin) (plugins : list Plugin) : graph :=
  foldl (plugin_step provides)
    (MkGraph (foldl (λ m p, <[p_name p := 0%Z]> m) ∅ plugins) ∅) plugins.

(** [for _, dep := range dependents[name]]: release the dependents of a name. *)
Fixpoint release (deps : list string) (deg : gmap string Z) (ready : list string)
    : gmap string Z * list string :=
  match deps with
  | [] => (deg, ready)
  | dep :: deps =>
      let d := (default 0 (deg !! dep) - 1)%Z in
      release deps (<[dep := d]> deg) (if (d =? 0)%Z then insertSorted ready dep else ready)
  end.

(** The main loop: each round takes one name off the frontier, and no name
    enters it twice, so one round per plugin is enough. *)
Fixpoint kahn (fuel : nat) (dependents : gmap string (list string)) (deg : gmap string Z)
    (ready out : list string) : option (gmap string Z * list string) :=
  match ready with
  | [] => Some (deg, out)
  | name :: ready =>
      match fuel with
      | O => None
      | S fuel =>
          let '(deg, ready) := release (default [] (dependents !! name)) deg ready in
          kahn fuel dependents deg ready (out ++ [name])
      end
  end.

Section Iteration.
Context `{MapOrder}.

Definition topoSortBucket (plugins : list Plugin) : res ResolveError (list Plugin) :=
  match buildProvidesIndex plugins with
  | Err e => Err e
  | Ok provides =>
      let byName := foldl (λ m p, <[p_name p := p]> m) (∅ : gmap string Plugin) plugins in
      let g := build_graph provides plugins in
      let ready := sort_strings (filter (λ n, inDegree g !! n = Some 0%Z) (map_keys (inDegree g))) in
      match kahn (length plugins) (dependents g) (inDegree g) ready [] with
      | None => Err ResolveOutOfFuel
      | Some (deg, out) =>
          let out := map (λ n, default zero_plugin (byName !! n)) out in
          if length out <? length plugins then
            Err (ErrCycle (sort_strings
              (filter (λ n, (0 < default 0 (deg !! n))%Z) (map_keys deg))))
          else Ok out
      end
  end.

(** ** [resolvePhase] *)

Definition group_by_priority (plugins : list Plugin) : gmap Z (list Plugin) :=
  foldl (λ m p, <[pluginPriority p := default [] (m !! pluginPriority p) ++ [p]]> m) ∅ plugins.

(** The buckets in ascending order; [slices.Sort] makes the order in which the
    map yields its keys immaterial. *)
Definition sorted_keys (m : gmap Z (list Plugin)) : list Z := merge_sort Z.le (map_to_list m).*1.

Fixpoint resolve_buckets (byPrio : gmap Z (list Plugin)) (keys : list Z)
    (flat : list Plugin) (buckets : list resolvedBucket)
    : res ResolveError (list Plugin * list resolvedBucket) :=
  match keys with
  | [] => Ok (flat, buckets)
  | k :: keys =>
      match topoSortBucket (default [] (byPrio !! k)) with
      | Err e => Err e
      | Ok ordered =>
          resolve_buckets byPrio keys (flat ++ ordered) (buckets ++ [MkBucket k ordered])
      end
  end.

Definition resolvePhase (plugins : list Plugin)
    : res ResolveError (list Plugin * list resolvedBucket) :=
  if length plugins =? 0 then Ok ([], [])
  else let byPrio := group_by_priority plugins in
       resolve_buckets byPrio (sorted_keys byPrio) [] [].

End Iteration.
