(* ===== verification/ResolveLaws.v ===== *)
(** * Properties of phase scheduling

    The order Kahn's algorithm produces is characterised as the greedy one:
    at each point the alphabetically least plugin whose providers have all
    run.  That order is a function of the set of plugins, so neither the
    registration order nor the map iteration order shows in it; it respects
    every dependency; and it is complete exactly when the graph is acyclic. *)

From S2P Require Import Prelude GoStrings Directive Plugin Resolve.
From stdpp Require Import relations.

Local Open Scope string_scope.
Local Open Scope nat_scope.
Local Open Scope list_scope.

(** ** The sorted frontier *)

Lemma binary_search_spec fuel s v i j :
  StronglySorted str_le s → j - i ≤ fuel → i ≤ j → j ≤ length s →
  (∀ k x, k < i → s !! k = Some x → str_lt x v) →
  (∀ k x, j ≤ k → s !! k = Some x → ¬ str_lt x v) →
  let r := binary_search fuel s v i j in
  r ≤ length s ∧ (∀ k x, k < r → s !! k = Some x → str_lt x v) ∧
  (∀ k x, r ≤ k → s !! k = Some x → ¬ str_lt x v).
Proof.
  intros Hs. revert i j. induction fuel as [|fuel IH]; intros i j Hf Hij Hj Hlo Hhi; cbn [binary_search]; cbv zeta.
  { replace i with j in * by lia. auto. }
  destruct (Nat.ltb_spec i j) as [Hlt|Hge]; last first.
  { replace i with j in * by lia. auto. }
  assert (i ≤ (i + j) / 2 < j) as Hh.
  { split; [apply Nat.div_le_lower_bound; lia|apply Nat.Div0.div_lt_upper_bound; lia]. }
  set (h := (i + j) / 2) in *.
  destruct (lookup_lt_is_Some_2 s h) as [y Hy]; [lia|].
  assert (s !!! h = y) as -> by by apply list_lookup_total_correct.
  case_bool_decide as Hd; apply IH; auto; try lia.
  - intros k x Hk Hx. destruct (decide (k = h)) as [->|]; [by simplify_eq|].
    assert (str_le x y) as Hxy.
    { eapply (StronglySorted_lookup_lt str_le s k h); eauto; lia. }
    apply str_le_lt_eq in Hxy as [Hxy| ->]; [by transitivity y|done].
  - intros k x Hk Hx Hlt'. destruct (decide (k = h)) as [->|]; [by simplify_eq|].
    assert (str_le y x) as Hyx.
    { eapply (StronglySorted_lookup_lt str_le s h k); eauto; lia. }
    apply Hd. apply str_le_lt_eq in Hyx as [Hyx| ->]; [by transitivity x|done].
Qed.

Lemma insertSorted_split s v :
  StronglySorted str_le s →
  ∃ s1 s2, s = s1 ++ s2 ∧ insertSorted s v = s1 ++ v :: s2 ∧
    (∀ x, x ∈ s1 → str_lt x v) ∧ (∀ x, x ∈ s2 → ¬ str_lt x v).
Proof.
  intros Hs. unfold insertSorted.
  destruct (binary_search_spec (length s) s v 0 (length s)) as (Hr & Hlo & Hhi); auto; try lia.
  { intros k x Hk Hx. apply lookup_lt_Some in Hx. lia. }
  set (r := binary_search _ _ _ _ _) in *. exists (take r s), (drop r s).
  split; [by rewrite take_drop|]. split; [done|]. split.
  - intros x Hx. apply list_elem_of_lookup in Hx as [k Hk].
    apply lookup_take_Some in Hk as [Hk Hlt]. eauto.
  - intros x Hx. apply list_elem_of_lookup in Hx as [k Hk]. rewrite lookup_drop in Hk.
    eapply Hhi; [|done]. lia.
Qed.

Lemma insertSorted_perm s v : StronglySorted str_le s → insertSorted s v ≡ₚ v :: s.
Proof.
  intros Hs. destruct (insertSorted_split s v Hs) as (s1 & s2 & -> & -> & _).
  by rewrite <- Permutation_middle.
Qed.

Lemma not_lt_le x v : ¬ str_lt x v → str_le v x.
Proof.
  intros Hn. rewrite str_le_lt_eq. destruct (trichotomy str_lt x v) as [?|[?|?]]; auto. done.
Qed.

Lemma insertSorted_sorted s v :
  StronglySorted str_le s → StronglySorted str_le (insertSorted s v).
Proof.
  intros Hs. destruct (insertSorted_split s v Hs) as (s1 & s2 & -> & -> & Hlo & Hhi).
  apply StronglySorted_app in Hs as (H12 & H1 & H2).
  apply StronglySorted_app_2; [|done|].
  - intros x y Hx Hy. apply elem_of_cons in Hy as [->|Hy]; [|auto].
    apply str_le_lt_eq. auto.
  - constructor; [done|]. apply Forall_forall. intros x Hx. by apply not_lt_le, Hhi.
Qed.

(** ** Kahn's algorithm on an abstract graph *)

Section Kahn.
(** Nodes and edges; an edge goes from a provider to a dependent, and a pair
    occurs once per requirement it satisfies. *)
Context (N : list string) (E : list (string * string)).
Context (HN : NoDup N) (HE : ∀ m n, (m, n) ∈ E → m ∈ N ∧ n ∈ N).

(** The requirements of [n] not yet met when [done] has run. *)
Definition pending (done : list string) (n : string) : nat :=
  length (filter (λ e, e.2 = n ∧ e.1 ∉ done) E).

Definition deps_of (m : string) : list string := (filter (λ e, e.1 = m) E).*2.

Definition occ (n : string) (l : list string) : nat := length (filter (λ x, x = n) l).

Definition available (done : list string) (n : string) : Prop :=
  n ∈ N ∧ n ∉ done ∧ ∀ m, (m, n) ∈ E → m ∈ done.

(** The greedy order: each next node is the least available one. *)
Fixpoint greedy (done o : list string) : Prop :=
  match o with
  | [] => True
  | x :: o => available done x ∧ (∀ y, available done y → str_le x y) ∧ greedy (done ++ [x]) o
  end.

Definition stuck (done : list string) : Prop := ∀ y, ¬ available done y.

Lemma pending_zero done n : pending done n = 0 ↔ ∀ m, (m, n) ∈ E → m ∈ done.
Proof.
  unfold pending. split.
  - intros Hz m Hm. destruct (decide (m ∈ done)) as [|Hn]; [done|].
    assert (0 < length (filter (λ e, e.2 = n ∧ e.1 ∉ done) E)); [|lia].
    apply filter_length_pos. by exists (m, n).
  - intros Hall. destruct (decide (length (filter (λ e, e.2 = n ∧ e.1 ∉ done) E) = 0)) as [|Hn];
      [done|].
    destruct (proj1 (filter_length_pos (λ e, e.2 = n ∧ e.1 ∉ done) E)) as ([m n'] & Hin & Heq & Hd);
      [lia|]. simpl in *. subst. by destruct Hd; apply Hall.
Qed.

Lemma occ_deps n x : occ n (deps_of x) = length (filter (λ e, e.1 = x ∧ e.2 = n) E).
Proof.
  unfold occ, deps_of. clear HE HN N. induction E as [|[m k] E' IH]; [done|]. rewrite !filter_cons. simpl.
  destruct (decide (m = x)) as [->|Hm]; simpl.
  - rewrite filter_cons. destruct (decide (k = n)) as [->|Hk]; simpl.
    + rewrite decide_True by done. simpl. f_equal. exact IH.
    + by rewrite decide_False by naive_solver.
  - by rewrite decide_False by naive_solver.
Qed.

Lemma pending_step done x n :
  x ∉ done → pending done n = pending (done ++ [x]) n + occ n (deps_of x).
Proof.
  intros Hx. rewrite occ_deps. unfold pending. clear HE HN N.
  induction E as [|[m k] E' IH]; [done|]. rewrite !filter_cons. simpl.
  destruct (decide (k = n)) as [->|Hk].
  - destruct (decide (m ∈ done)) as [Hm|Hm].
    + rewrite !decide_False by set_solver. done.
    + rewrite decide_True by done. destruct (decide (m = x)) as [->|Hmx].
      * rewrite decide_False, decide_True by set_solver. simpl. lia.
      * rewrite decide_True, decide_False by set_solver. simpl. lia.
  - rewrite !decide_False by naive_solver. done.
Qed.

Lemma greedy_app done o1 o2 : greedy done (o1 ++ o2) ↔ greedy done o1 ∧ greedy (done ++ o1) o2.
Proof.
  revert done. induction o1 as [|x o1 IH]; intros done; simpl.
  - rewrite app_nil_r. tauto.
  - rewrite IH, <- app_assoc. simpl. tauto.
Qed.

(** What the loop maintains at its head. *)
Record kahn_inv (deg : gmap string Z) (ready out : list string) : Prop := {
  ki_nodup : NoDup (out ++ ready);
  ki_sorted : StronglySorted str_le ready;
  ki_in : ∀ n, n ∈ out ++ ready → n ∈ N;
  ki_dom : ∀ n, is_Some (deg !! n) → n ∈ N;
  ki_deg : ∀ n, n ∈ N → deg !! n = Some (Z.of_nat (pending out n));
  ki_zero : ∀ n, n ∈ N → n ∈ out ++ ready ↔ pending out n = 0;
  ki_greedy : greedy [] out;
}.

(** What the inner loop maintains, [ds] being left to release. *)
Record release_inv (deg : gmap string Z) (ready out ds : list string) : Prop := {
  ri_nodup : NoDup (out ++ ready);
  ri_sorted : StronglySorted str_le ready;
  ri_in : ∀ n, n ∈ out ++ ready → n ∈ N;
  ri_dom : ∀ n, is_Some (deg !! n) → n ∈ N;
  ri_deg : ∀ n, n ∈ N → deg !! n = Some (Z.of_nat (pending out n + occ n ds));
  ri_zero : ∀ n, n ∈ N → n ∈ out ++ ready ↔ pending out n + occ n ds = 0;
  ri_ds : ∀ d, d ∈ ds → d ∈ N;
}.

Lemma occ_cons n d ds : occ n (d :: ds) = (if decide (d = n) then 1 else 0) + occ n ds.
Proof. unfold occ. rewrite filter_cons. by destruct (decide (d = n)). Qed.

Lemma release_step deg ready out d ds :
  release_inv deg ready out (d :: ds) →
  let v := (default 0 (deg !! d) - 1)%Z in
  release_inv (<[d := v]> deg) (if (v =? 0)%Z then insertSorted ready d else ready) out ds.
Proof.
  clear HN HE. intros [Hnd Hs Hin Hdom Hdeg Hz Hds]. assert (d ∈ N) as Hd by (apply Hds; set_solver).
  pose proof (Hdeg d Hd) as Hdd. rewrite occ_cons, decide_True in Hdd by done. rewrite Hdd. simpl.
  set (v := (Z.of_nat _ - 1)%Z).
  assert (v = Z.of_nat (pending out d + occ d ds)) as Hv by (unfold v; lia).
  assert (d ∉ out ++ ready) as Hnin.
  { rewrite Hz by done. rewrite occ_cons, decide_True by done. lia. }
  assert (∀ n, n ∈ N → n ≠ d → n ∈ out ++ ready ↔ pending out n + occ n ds = 0) as Hother.
  { intros n Hn Hne. rewrite Hz by done. rewrite occ_cons, decide_False by done. done. }
  assert (∀ n, n ∈ N → <[d:=v]> deg !! n = Some (Z.of_nat (pending out n + occ n ds))) as Hdeg'.
  { intros n Hn. destruct (decide (n = d)) as [->|Hne].
    - rewrite lookup_insert_eq. by rewrite Hv.
    - rewrite lookup_insert_ne by done. rewrite Hdeg by done.
      by rewrite occ_cons, decide_False by done. }
  assert (∀ n, is_Some (<[d:=v]> deg !! n) → n ∈ N) as Hdom'.
  { intros n. destruct (decide (n = d)) as [->|Hne]; [done|].
    rewrite lookup_insert_ne by done. apply Hdom. }
  destruct (Z.eqb_spec v 0) as [Hv0|Hv0].
  - pose proof (insertSorted_perm ready d Hs) as Hp.
    split; auto.
    + rewrite Hp, <- Permutation_middle. by constructor.
    + by apply insertSorted_sorted.
    + intros n. rewrite Hp, <- Permutation_middle. set_solver.
    + intros n Hn. rewrite Hp, <- Permutation_middle, elem_of_cons.
      destruct (decide (n = d)) as [->|Hne]; [|rewrite <- Hother by done; naive_solver].
      split; [intros _; lia|auto].
    + set_solver.
  - split; auto; [|set_solver]. intros n Hn. destruct (decide (n = d)) as [->|Hne]; [|auto].
    split; [done|lia].
Qed.

Lemma release_spec ds deg ready out :
  release_inv deg ready out ds →
  release_inv (release ds deg ready).1 (release ds deg ready).2 out [].
Proof.
  revert deg ready. induction ds as [|d ds IH]; intros deg ready Hi; [done|].
  cbn [release]. apply IH. by apply release_step.
Qed.

Lemma kahn_inv_release deg x ready out :
  kahn_inv deg (x :: ready) out → release_inv deg ready (out ++ [x]) (deps_of x).
Proof using HE.
  clear HN. intros [Hnd Hs Hin Hdom Hdeg Hz _].
  assert (x ∉ out) as Hx.
  { apply NoDup_app in Hnd as (_ & Hnd & _). intros Hi. apply (Hnd x); set_solver. }
  split.
  - by rewrite <- app_assoc.
  - by apply StronglySorted_inv in Hs as [? _].
  - intros n. rewrite <- app_assoc. apply Hin.
  - done.
  - intros n Hn. rewrite Hdeg by done. by rewrite (pending_step out x n Hx).
  - intros n Hn. rewrite <- app_assoc. simpl. rewrite Hz by done.
    by rewrite (pending_step out x n Hx).
  - intros d Hd. apply list_elem_of_fmap in Hd as ([m k] & -> & Hd).
    apply list_elem_of_filter in Hd as [_ Hd]. by apply HE in Hd as [_ ?].
Qed.

Lemma available_iff deg ready out n :
  kahn_inv deg ready out → available out n ↔ n ∈ ready.
Proof.
  clear HN HE. intros [Hnd Hs Hin Hdom Hdeg Hz _]. unfold available.
  rewrite <- pending_zero. split.
  - intros (Hn & Hno & Hp). apply Hz in Hp; [|done]. set_solver.
  - intros Hr. assert (n ∈ N) as Hn by set_solver. split; [done|]. split.
    + apply NoDup_app in Hnd as (_ & Hnd & _). intros Ho. by apply (Hnd n).
    + apply Hz; set_solver.
Qed.

Lemma release_kahn_inv deg ready out x :
  greedy [] (out ++ [x]) → release_inv deg ready (out ++ [x]) [] → kahn_inv deg ready (out ++ [x]).
Proof.
  clear HN HE. intros Hg [Hnd Hs Hin Hdom Hdeg Hz _]. split; auto.
  - intros n Hn. rewrite Hdeg by done. by rewrite Nat.add_0_r.
  - intros n Hn. rewrite Hz by done. by rewrite Nat.add_0_r.
Qed.

Lemma kahn_spec fuel dependents deg ready out :
  (∀ m, default [] (dependents !! m) = deps_of m) → kahn_inv deg ready out →
  length N ≤ fuel + length out →
  ∃ deg' out', kahn fuel dependents deg ready out = Some (deg', out') ∧ kahn_inv deg' [] out'.
Proof using HE.
  intros Hd. revert deg ready out.
  induction fuel as [|fuel IH]; intros deg [|x ready] out Hi Hf; simpl; eauto.
  - exfalso. destruct Hi as [Hnd _ Hin _ _ _ _].
    assert (length (out ++ x :: ready) ≤ length N) as Hl
      by (apply submseteq_length, NoDup_submseteq; auto).
    rewrite length_app in Hl. simpl in *. lia.
  - rewrite Hd. pose proof (kahn_inv_release _ _ _ _ Hi) as Hr.
    apply release_spec in Hr. destruct (release (deps_of x) deg ready) as [deg1 ready1].
    apply IH; [|rewrite length_app; simpl; lia]. apply release_kahn_inv; [|done].
    apply greedy_app. split; [apply Hi|]. simpl. split; [|split; [|done]].
    + apply (available_iff _ _ _ _ Hi). left.
    + intros y Hy. apply (available_iff _ _ _ _ Hi) in Hy. destruct Hi as [_ Hs _ _ _ _ _].
      apply StronglySorted_inv in Hs as [_ Hs]. apply elem_of_cons in Hy as [->|Hy]; [done|].
      rewrite Forall_forall in Hs. auto.
Qed.

Lemma kahn_inv_stuck deg out : kahn_inv deg [] out → stuck out.
Proof.
  intros Hi y Hy. apply (available_iff _ _ _ _ Hi) in Hy. by apply elem_of_nil in Hy.
Qed.

(** *** What the greedy order means *)

(** Node [n] requires node [m]. *)
Definition requires (n m : string) : Prop := (m, n) ∈ E.

Lemma greedy_lookup done o i n :
  greedy done o → o !! i = Some n → ∀ m, requires n m → m ∈ done ++ take i o.
Proof.
  clear HN HE. revert done i. induction o as [|x o IH]; intros dn i Hg Hi m Hm; [by destruct i|].
  destruct Hg as (Ha & _ & Hg). destruct i as [|i]; simplify_eq/=.
  - rewrite app_nil_r. by apply Ha.
  - specialize (IH (dn ++ [x]) i Hg Hi m Hm). by rewrite <- app_assoc in IH.
Qed.

Lemma greedy_tc o n m i :
  greedy [] o → tc requires n m → o !! i = Some n → ∃ j, j < i ∧ o !! j = Some m.
Proof.
  clear HN HE. intros Hg Ht. revert i. induction Ht as [n m Hr|n k m Hr _ IH]; intros i Hi.
  - pose proof (greedy_lookup [] o i n Hg Hi m Hr) as Hin. simpl in Hin.
    apply list_elem_of_lookup in Hin as [j Hj]. apply lookup_take_Some in Hj as [Hj Hlt]. eauto.
  - pose proof (greedy_lookup [] o i n Hg Hi k Hr) as Hin. simpl in Hin.
    apply list_elem_of_lookup in Hin as [j Hj]. apply lookup_take_Some in Hj as [Hj Hlt].
    destruct (IH j Hj) as (j' & Hlt' & Hj'). exists j'. split; [lia|done].
Qed.

(** The order is complete exactly when no node requires itself, directly or
    through others. *)
Lemma complete_iff_acyclic o :
  NoDup o → (∀ n, n ∈ o → n ∈ N) → greedy [] o → stuck o →
  length N ≤ length o ↔ ∀ x, ¬ tc requires x x.
Proof using HN HE.
  intros Hnd Hin Hg Hst. split.
  - intros Hl x Hx.
    assert (x ∈ o) as Hxo.
    { assert (N ≡ₚ o) as Hp.
      { symmetry. apply submseteq_length_Permutation; [|lia]. by apply NoDup_submseteq. }
      rewrite <- Hp. inversion Hx as [? ? Hr|? ? ? Hr]; subst; by apply HE in Hr as []. }
    apply list_elem_of_lookup in Hxo as [i Hi].
    destruct (greedy_tc o x x i Hg Hx Hi) as (j & Hlt & Hj).
    assert (i = j) by (by eapply NoDup_lookup). lia.
  - intros Hac. assert (∀ n, n ∈ N → n ∈ o) as Hall; last first.
    { apply submseteq_length, NoDup_submseteq; auto. }
    assert (∀ n, sn requires n) as Hsn.
    { intros n. apply tc_finite_sn; [exact Hac|]. exists N. intros y Hy.
      induction Hy as [? ? Hr|]; [by apply HE in Hr as []|done]. }
    intros n. induction (Hsn n) as [n _ IH]. intros Hn. destruct (decide (n ∈ o)) as [|Hno]; [done|].
    destruct (Hst n). split; [done|]. split; [done|]. intros m Hm. apply IH; [done|].
    by apply HE in Hm as [].
Qed.

Lemma greedy_unique done o1 o2 :
  greedy done o1 → stuck (done ++ o1) → greedy done o2 → stuck (done ++ o2) → o1 = o2.
Proof.
  clear HN HE. revert done o2. induction o1 as [|x o1 IH]; intros dn [|y o2]; simpl; auto.
  - rewrite app_nil_r. intros _ Hs (Ha & _) _. by destruct (Hs y).
  - rewrite app_nil_r. intros (Ha & _) _ _ Hs. by destruct (Hs x).
  - intros (Ha1 & Hm1 & Hg1) Hs1 (Ha2 & Hm2 & Hg2) Hs2.
    assert (x = y) as -> by (apply (anti_symm str_le); auto). f_equal.
    eapply (IH (dn ++ [y])); auto; by rewrite <- app_assoc.
Qed.
End Kahn.

Lemma available_ext N1 N2 E1 E2 done n :
  (∀ x, x ∈ N1 ↔ x ∈ N2) → (∀ e, e ∈ E1 ↔ e ∈ E2) →
  available N1 E1 done n ↔ available N2 E2 done n.
Proof. intros HN HE. unfold available. rewrite HN. by setoid_rewrite HE. Qed.

Lemma greedy_ext N1 N2 E1 E2 done o :
  (∀ x, x ∈ N1 ↔ x ∈ N2) → (∀ e, e ∈ E1 ↔ e ∈ E2) →
  greedy N1 E1 done o → greedy N2 E2 done o.
Proof.
  intros HN HE. revert done. induction o as [|x o IH]; intros dn; simpl; [done|].
  rewrite (available_ext N1 N2 E1 E2) by done. intros (Ha & Hm & Hg). split; [done|]. split; [|auto].
  intros y Hy. apply Hm. by rewrite (available_ext N1 N2 E1 E2).
Qed.

(** ** The provider index *)

(** The capabilities a plugin provides and requires, as the scheduler reads them. *)
Definition caps (p : Plugin) : list string :=
  match pluginCapability p with Some cp => cp_Provides cp | None => [] end.
Definition reqs (p : Plugin) : list string :=
  match pluginCapability p with Some cp => cp_Requires cp | None => [] end.

Lemma provide_all_spec p names m :
  match provide_all p names m with
  | Ok m' => NoDup names ∧ (∀ c, c ∈ names → m !! c = None) ∧
             (∀ c q, m' !! c = Some q ↔ m !! c = Some q ∨ (q = p ∧ c ∈ names))
  | Err e => (∃ c a b, e = ErrDuplicateProvider c a b) ∧
             ¬ (NoDup names ∧ ∀ c, c ∈ names → m !! c = None)
  end.
Proof.
  revert m. induction names as [|c names IH]; intros m; simpl.
  - split; [constructor|]. split; [set_solver|]. set_solver.
  - destruct (m !! c) as [q|] eqn:Hc.
    { split; [eauto|]. intros [_ Hn]. rewrite (Hn c) in Hc by set_solver. done. }
    specialize (IH (<[c := p]> m)). destruct (provide_all p names _) as [m'|e].
    + destruct IH as (Hnd & Hnone & Hm').
      assert (c ∉ names) as Hcn by (intros Hin%Hnone; by rewrite lookup_insert_eq in Hin).
      split; [by constructor|]. split.
      * intros d Hd. apply elem_of_cons in Hd as [->|Hd]; [done|].
        pose proof (Hnone d Hd) as Hx. rewrite lookup_insert_ne in Hx by set_solver. done.
      * intros d q. rewrite Hm', elem_of_cons. destruct (decide (d = c)) as [->|Hne].
        -- rewrite lookup_insert_eq, Hc. naive_solver.
        -- rewrite lookup_insert_ne by done. naive_solver.
    + destruct IH as [He Hn]. split; [done|]. intros [Hnd Hnone]. apply Hn.
      apply NoDup_cons in Hnd as [Hcn Hnd]. split; [done|]. intros d Hd.
      rewrite lookup_insert_ne by set_solver. apply Hnone. by right.
Qed.

Lemma provides_loop_spec ps m :
  match provides_loop ps m with
  | Ok m' => NoDup (concat (map caps ps)) ∧ (∀ c, c ∈ concat (map caps ps) → m !! c = None) ∧
             (∀ c q, m' !! c = Some q ↔ m !! c = Some q ∨ (q ∈ ps ∧ c ∈ caps q))
  | Err e => (∃ c a b, e = ErrDuplicateProvider c a b) ∧
             ¬ (NoDup (concat (map caps ps)) ∧ ∀ c, c ∈ concat (map caps ps) → m !! c = None)
  end.
Proof.
  revert m. induction ps as [|p ps IH]; intros m; simpl.
  - split; [constructor|]. set_solver.
  - destruct (pluginCapability p) as [cp|] eqn:Hcp; last first.
    { assert (caps p = []) as Hcaps by (unfold caps; by rewrite Hcp). rewrite Hcaps. simpl.
      specialize (IH m). destruct (provides_loop ps m) as [m'|e]; [|done].
      destruct IH as (Hnd & Hnone & Hm'). split; [done|]. split; [done|]. intros c q.
      rewrite Hm', elem_of_cons. split; [naive_solver|]. intros [?|[[->|?] Hc]]; auto.
      rewrite Hcaps in Hc. by apply elem_of_nil in Hc. }
    assert (caps p = cp_Provides cp) as Hcaps by (unfold caps; by rewrite Hcp). rewrite Hcaps.
    pose proof (provide_all_spec p (cp_Provides cp) m) as Hp.
    destruct (provide_all p (cp_Provides cp) m) as [m1|e]; last first.
    { destruct Hp as [He Hn]. split; [done|]. intros [Hnd Hnone]. apply Hn.
      apply NoDup_app in Hnd as (Hnd & _ & _). split; [done|]. intros c Hc. apply Hnone.
      set_solver. }
    destruct Hp as (Hnd1 & Hnone1 & Hm1). specialize (IH m1).
    assert (∀ c, m1 !! c = None ↔ m !! c = None ∧ c ∉ cp_Provides cp) as Hm1n.
    { intros c. rewrite !eq_None_not_Some. unfold is_Some. setoid_rewrite Hm1. naive_solver. }
    destruct (provides_loop ps m1) as [m'|e].
    + destruct IH as (Hnd & Hnone & Hm'). setoid_rewrite Hm1n in Hnone.
      split; [|split].
      * apply NoDup_app. split; [done|]. split; [|done]. intros c Hc Hc'. by apply Hnone in Hc' as [_ ?].
      * intros c Hc. apply elem_of_app in Hc as [Hc|Hc]; [auto|]. by apply Hnone in Hc as [? _].
      * intros c q. rewrite Hm', Hm1, elem_of_cons, <- Hcaps. naive_solver.
    + destruct IH as [He Hn]. split; [done|]. intros [Hnd Hnone]. apply Hn.
      apply NoDup_app in Hnd as (_ & Hd & Hnd). split; [done|]. intros c Hc. apply Hm1n. split.
      * apply Hnone. set_solver.
      * intros Hc'. by apply (Hd c).
Qed.

(** No two claims of one capability in the bucket (by one plugin or two). *)
Definition single_providers (ps : list Plugin) : Prop := NoDup (concat (map caps ps)).
#[global] Instance single_providers_dec ps : Decision (single_providers ps).
Proof. unfold single_providers. apply _. Defined.

Lemma provides_index_ok ps :
  single_providers ps → ∃ m, buildProvidesIndex ps = Ok m ∧
    ∀ c q, m !! c = Some q ↔ q ∈ ps ∧ c ∈ caps q.
Proof.
  intros Hs. unfold buildProvidesIndex. pose proof (provides_loop_spec ps ∅) as H.
  destruct (provides_loop ps ∅) as [m|e].
  - exists m. split; [done|]. destruct H as (_ & _ & H). intros c q. rewrite H, lookup_empty.
    naive_solver.
  - destruct H as [_ H]. destruct H. split; [done|]. intros. apply lookup_empty.
Qed.

Lemma provides_index_err ps :
  ¬ single_providers ps → ∃ c a b, buildProvidesIndex ps = Err (ErrDuplicateProvider c a b).
Proof.
  intros Hs. unfold buildProvidesIndex. pose proof (provides_loop_spec ps ∅) as H.
  destruct (provides_loop ps ∅) as [m|e].
  - by destruct H as (Hn & _).
  - destruct H as ((c & a & b & ->) & _). eauto.
Qed.

(** ** The graph the code builds *)

(** [q] requires a capability [p] provides, and they are different plugins. *)
Definition needs (ps : list Plugin) (q p : Plugin) : Prop :=
  p ∈ ps ∧ q ∈ ps ∧ p_name p ≠ p_name q ∧ ∃ c, c ∈ caps p ∧ c ∈ reqs q.

Definition req_edges (provides : gmap string Plugin) (p : Plugin) : list (string * string) :=
  omap (λ req, q ← provides !! req;
               if String.eqb (p_name q) (p_name p) then None else Some (p_name q, p_name p))
    (reqs p).
Definition edges (provides : gmap string Plugin) (ps : list Plugin) : list (string * string) :=
  concat (map (req_edges provides) ps).

Definition graph_of (N : list string) (E : list (string * string)) (g : graph) : Prop :=
  (∀ n, inDegree g !! n =
        if decide (n ∈ N) then Some (Z.of_nat (pending E [] n)) else None) ∧
  (∀ m, default [] (dependents g !! m) = deps_of E m).

Lemma pending_nil_snoc E m n k :
  pending (E ++ [(m, n)]) [] k = pending E [] k + (if decide (n = k) then 1 else 0).
Proof.
  unfold pending. rewrite filter_app, length_app. f_equal. rewrite filter_cons. simpl.
  destruct (decide (n = k)) as [->|Hn].
  - by rewrite decide_True by (split; [done|set_solver]).
  - by rewrite decide_False by naive_solver.
Qed.

Lemma deps_of_snoc E m n k :
  deps_of (E ++ [(m, n)]) k = deps_of E k ++ (if decide (m = k) then [n] else []).
Proof.
  unfold deps_of. rewrite filter_app, fmap_app. f_equal. rewrite filter_cons. simpl.
  by destruct (decide (m = k)).
Qed.

Lemma add_edge_graph N E g m n :
  n ∈ N → graph_of N E g → graph_of N (E ++ [(m, n)]) (add_edge g m n).
Proof.
  intros Hn [Hd Hp]. split; simpl.
  - intros k. rewrite pending_nil_snoc. destruct (decide (n = k)) as [<-|Hne].
    + rewrite lookup_insert_eq, Hd, !decide_True by done. simpl. f_equal. lia.
    + rewrite lookup_insert_ne, Hd by done. by rewrite Nat.add_0_r.
  - intros k. rewrite deps_of_snoc. destruct (decide (m = k)) as [<-|Hne].
    + rewrite lookup_insert_eq. simpl. by rewrite Hp.
    + rewrite lookup_insert_ne by done. by rewrite Hp, app_nil_r.
Qed.

Lemma require_fold_graph N E provides p rs g :
  p_name p ∈ N → graph_of N E g →
  graph_of N (E ++ omap (λ req, q ← provides !! req;
      if String.eqb (p_name q) (p_name p) then None else Some (p_name q, p_name p)) rs)
    (foldl (require_step provides p) g rs).
Proof.
  intros Hp. revert E g. induction rs as [|r rs IH]; intros E g Hg; simpl.
  - by rewrite app_nil_r.
  - unfold require_step at 2. destruct (provides !! r) as [q|]; simpl; [|by apply IH].
    destruct (String.eqb (p_name q) (p_name p)); simpl; [by apply IH|].
    rewrite (cons_middle _ E). rewrite (assoc_L (++) E [_]). apply IH. by apply add_edge_graph.
Qed.

Lemma plugin_fold_graph N E provides ps g :
  (∀ p, p ∈ ps → p_name p ∈ N) → graph_of N E g →
  graph_of N (E ++ edges provides ps) (foldl (plugin_step provides) g ps).
Proof.
  revert E g. induction ps as [|p ps IH]; intros E g Hin Hg.
  - unfold edges. simpl. by rewrite app_nil_r.
  - unfold edges. simpl. rewrite app_assoc. apply IH; [set_solver|].
    unfold plugin_step, req_edges, reqs. destruct (pluginCapability p) as [cp|]; simpl.
    + apply require_fold_graph; [set_solver|done].
    + by rewrite app_nil_r.
Qed.

Lemma fold_zero_degrees ps m n :
  (foldl (λ m p, <[p_name p := 0%Z]> m) m ps) !! n =
  if decide (n ∈ p_name <$> ps) then Some 0%Z else (m : gmap string Z) !! n.
Proof.
  revert m. induction ps as [|p ps IH]; intros m; simpl; [done|].
  rewrite IH. destruct (decide (n ∈ p_name <$> ps)) as [Hin|Hnin].
  - by rewrite decide_True by set_solver.
  - destruct (decide (n = p_name p)) as [->|Hne].
    + by rewrite lookup_insert_eq, decide_True by set_solver.
    + by rewrite lookup_insert_ne, decide_False by set_solver.
Qed.

Lemma build_graph_spec provides ps :
  graph_of (p_name <$> ps) (edges provides ps) (build_graph provides ps).
Proof.
  unfold build_graph. rewrite <- (app_nil_l (edges provides ps)). apply plugin_fold_graph.
  - intros p Hp. by apply list_elem_of_fmap_2.
  - split; simpl.
    + intros n. rewrite fold_zero_degrees. by rewrite lookup_empty.
    + intros m. by rewrite lookup_empty.
Qed.

(** The edges of the code are the needs of the plugins. *)
Lemma elem_of_edges provides ps m n :
  (∀ c q, provides !! c = Some q ↔ q ∈ ps ∧ c ∈ caps q) →
  (m, n) ∈ edges provides ps ↔ ∃ p q, needs ps q p ∧ p_name p = m ∧ p_name q = n.
Proof.
  intros Hpr. unfold edges. rewrite elem_of_concat_map. unfold req_edges.
  setoid_rewrite list_elem_of_omap. split.
  - intros (q & Hq & r & Hr & He). destruct (provides !! r) as [p|] eqn:Hp; simpl in *; [|done].
    destruct (String.eqb_spec (p_name p) (p_name q)) as [|Hne]; simplify_eq.
    apply Hpr in Hp as [Hp Hc]. exists p, q. split; [|done]. unfold needs. eauto 6.
  - intros (p & q & (Hp & Hq & Hne & c & Hc & Hr) & <- & <-). exists q. split; [done|].
    exists c. split; [done|]. rewrite (proj2 (Hpr c p)) by done. simpl.
    by apply String.eqb_neq in Hne as ->.
Qed.

(** ** One bucket *)

Definition by_name (ps : list Plugin) : gmap string Plugin :=
  foldl (λ m p, <[p_name p := p]> m) ∅ ps.

Lemma fold_by_name ps m p :
  NoDup (p_name <$> ps) → p ∈ ps →
  (foldl (λ m p, <[p_name p := p]> m) (m : gmap string Plugin) ps) !! p_name p = Some p.
Proof.
  revert m. induction ps as [|q ps IH] using rev_ind; intros m; [set_solver|].
  rewrite fmap_app, foldl_app. simpl. intros Hnd Hp. apply NoDup_app in Hnd as (Hnd & Hd & _).
  apply elem_of_app in Hp as [Hp|Hp%list_elem_of_singleton]; [|subst; by rewrite lookup_insert_eq].
  rewrite lookup_insert_ne; [by apply IH|]. intros Heq. apply (Hd (p_name p)).
  - by apply list_elem_of_fmap_2.
  - rewrite <- Heq. by left.
Qed.

Definition pick (ps : list Plugin) (n : string) : Plugin := default zero_plugin (by_name ps !! n).

Lemma pick_name ps p : NoDup (p_name <$> ps) → p ∈ ps → pick ps (p_name p) = p.
Proof. intros Hnd Hp. unfold pick, by_name. by rewrite fold_by_name. Qed.

Section Bucket.
Context `{MapOrder} (ps : list Plugin) (Hnd : NoDup (p_name <$> ps)).
Abbreviation N := (p_name <$> ps).

Lemma initial_inv E g :
  graph_of N E g →
  kahn_inv N E (inDegree g)
    (sort_strings (filter (λ n, inDegree g !! n = Some 0%Z) (map_keys (inDegree g)))) [].
Proof.
  clear Hnd. intros [Hd _].
  assert (∀ n, n ∈ sort_strings (filter (λ n, inDegree g !! n = Some 0%Z) (map_keys (inDegree g)))
          ↔ n ∈ N ∧ pending E [] n = 0) as Hr.
  { intros n. rewrite elem_of_sort_strings, list_elem_of_filter, elem_of_map_keys, Hd.
    destruct (decide (n ∈ N)); [|naive_solver]. split.
    - intros [Heq _]. simplify_eq. split; [done|lia].
    - intros [_ ->]. split; [done|]. eauto. }
  split; simpl.
  - rewrite sort_strings_perm. apply NoDup_filter, NoDup_map_keys.
  - apply sort_strings_sorted.
  - intros n Hn. by apply Hr in Hn as [? _].
  - intros n. rewrite Hd. destruct (decide (n ∈ N)); [done|]. by intros [].
  - intros n Hn. by rewrite Hd, decide_True by done.
  - intros n Hn. rewrite Hr. naive_solver.
  - done.
Qed.

Lemma cyclic_names E deg out :
  kahn_inv N E deg [] out →
  sort_strings (filter (λ n, (0 < default 0 (deg !! n))%Z) (map_keys deg)) =
  sort_strings (filter (λ n, n ∉ out) N).
Proof using Hnd.
  intros [_ _ _ Hdom Hdeg Hz _]. apply sort_strings_unique, NoDup_Permutation.
  - apply NoDup_filter, NoDup_map_keys.
  - by apply NoDup_filter.
  - intros n. rewrite !list_elem_of_filter, elem_of_map_keys. rewrite app_nil_r in Hz. split.
    + intros [Hlt Hs]. apply Hdom in Hs. rewrite Hdeg in Hlt by done. simpl in Hlt.
      rewrite Hz by done. split; [lia|done].
    + intros [Hno Hn]. rewrite Hdeg by done. rewrite Hz in Hno by done. simpl. split; [lia|eauto].
Qed.

Lemma topo_spec :
  single_providers ps → ∃ E out,
    (∀ m n, (m, n) ∈ E ↔ ∃ p q, needs ps q p ∧ p_name p = m ∧ p_name q = n) ∧
    NoDup out ∧ (∀ n, n ∈ out → n ∈ N) ∧ greedy N E [] out ∧ stuck N E out ∧
    topoSortBucket ps =
      if length out <? length ps
      then Err (ErrCycle (sort_strings (filter (λ n, n ∉ out) N)))
      else Ok (map (pick ps) out).
Proof using Hnd.
  intros Hs. destruct (provides_index_ok ps Hs) as (provides & Hidx & Hpr).
  set (E := edges provides ps). pose proof (build_graph_spec provides ps) as Hg. fold E in Hg.
  assert (∀ m n, (m, n) ∈ E → m ∈ N ∧ n ∈ N) as HE.
  { intros m n Hmn. apply (elem_of_edges _ _ _ _ Hpr) in Hmn as (p & q & (Hp & Hq & _) & <- & <-).
    split; by apply list_elem_of_fmap_2. }
  destruct (kahn_spec N E HE (length ps) (dependents (build_graph provides ps))
              (inDegree (build_graph provides ps)) _ [] (proj2 Hg) (initial_inv E _ Hg))
    as (deg & out & Hk & Hinv).
  { rewrite length_fmap. simpl. lia. }
  exists E, out. split; [intros; by apply elem_of_edges|].
  pose proof (ki_nodup _ _ _ _ _ Hinv) as Hndo. rewrite app_nil_r in Hndo.
  split; [done|]. split; [|split; [|split]].
  - intros n Hn. apply (ki_in _ _ _ _ _ Hinv). by rewrite app_nil_r.
  - apply Hinv.
  - by eapply kahn_inv_stuck.
  - unfold topoSortBucket. rewrite Hidx, Hk, length_map.
    by rewrite (cyclic_names E deg out Hinv).
Qed.

(** *** Consequences *)

Definition before {A} (l : list A) (x y : A) : Prop :=
  ∃ i j, i < j ∧ l !! i = Some x ∧ l !! j = Some y.

Lemma bucket_dup : ¬ single_providers ps → ∃ c a b, topoSortBucket ps = Err (ErrDuplicateProvider c a b).
Proof.
  clear Hnd. intros Hs. destruct (provides_index_err ps Hs) as (c & a & b & He).
  exists c, a, b. unfold topoSortBucket. by rewrite He.
Qed.

Lemma complete_out out :
  NoDup out → (∀ n, n ∈ out → n ∈ N) → length ps ≤ length out → out ≡ₚ N.
Proof.
  clear Hnd. intros Ho Hin Hl. apply submseteq_length_Permutation; [by apply NoDup_submseteq|].
  by rewrite length_fmap.
Qed.

Lemma map_pick_perm out : out ≡ₚ N → map (pick ps) out ≡ₚ ps.
Proof using Hnd.
  intros ->. replace (map (pick ps) N) with ps; [done|]. clear H.
  assert (∀ l, (∀ p, p ∈ l → p ∈ ps) → l = map (pick ps) (p_name <$> l)) as Hm; [|auto].
  induction l as [|p l IH]; intros Hl; [done|]. simpl. rewrite pick_name; [|done|set_solver].
  f_equal. apply IH. set_solver.
Qed.

Lemma bucket_ok o :
  topoSortBucket ps = Ok o →
  single_providers ps ∧ o ≡ₚ ps ∧ ∀ p q, needs ps q p → before o p q.
Proof using Hnd.
  intros Ht. destruct (decide (single_providers ps)) as [Hs|Hs]; last first.
  { destruct (bucket_dup Hs) as (c & a & b & He). congruence. }
  split; [done|]. destruct (topo_spec Hs) as (E & out & HEd & Ho & Hin & Hg & Hst & Heq).
  rewrite Ht in Heq. destruct (Nat.ltb_spec (length out) (length ps)) as [|Hl]; [done|].
  injection Heq as ->. pose proof (complete_out out Ho Hin Hl) as Hp. split; [by apply map_pick_perm|].
  intros p q Hn. pose proof Hn as (Hpp & Hqp & _).
  assert (p_name q ∈ out) as Hqo by (rewrite Hp; by apply list_elem_of_fmap_2).
  apply list_elem_of_lookup in Hqo as [j Hj].
  destruct (greedy_tc N E out (p_name q) (p_name p) j Hg) as (i & Hlt & Hi); [|done|].
  { apply tc_once. apply HEd. eauto. }
  exists i, j. split; [done|].
  change (map (pick ps) out) with (pick ps <$> out). rewrite !list_lookup_fmap, Hi, Hj. simpl.
  by rewrite !pick_name.
Qed.
End Bucket.

(** No plugin of the list requires itself, directly or through others. *)
Definition acyclic (ps : list Plugin) : Prop := ∀ p, ¬ tc (needs ps) p p.

Lemma name_inj ps p q :
  NoDup (p_name <$> ps) → p ∈ ps → q ∈ ps → p_name p = p_name q → p = q.
Proof.
  intros Hnd Hp Hq Heq. rewrite <- (pick_name ps p), <- (pick_name ps q) by done. by rewrite Heq.
Qed.

Lemma tc_names ps E :
  NoDup (p_name <$> ps) →
  (∀ m n, (m, n) ∈ E ↔ ∃ p q, needs ps q p ∧ p_name p = m ∧ p_name q = n) →
  ∀ n m, tc (requires E) n m ↔ ∃ q p, tc (needs ps) q p ∧ p_name q = n ∧ p_name p = m.
Proof.
  intros Hnd HE n m. split.
  - induction 1 as [n m Hr|n k m Hr _ (q & p & Ht & <- & <-)];
      apply HE in Hr as (p1 & q1 & Hn & Hp1 & Hq1).
    + exists q1, p1. split; [by apply tc_once|done].
    + exists q1, p. split; [|done]. apply tc_l with p1; [done|].
      assert (p1 = q) as ->; [|done]. apply (name_inj ps); auto; [apply Hn|].
      inversion Ht as [? ? (_ & ? & _)|? ? ? (_ & ? & _)]; by subst.
  - intros (q & p & Ht & <- & <-). induction Ht as [q p Hn|q k p Hn _ IH].
    + apply tc_once, HE. eauto.
    + apply tc_l with (p_name k); [|done]. apply HE. eauto.
Qed.

Lemma bucket_ok_iff `{MapOrder} ps :
  NoDup (p_name <$> ps) →
  (∃ o, topoSortBucket ps = Ok o) ↔ single_providers ps ∧ acyclic ps.
Proof.
  intros Hnd. destruct (decide (single_providers ps)) as [Hs|Hs]; last first.
  { destruct (bucket_dup ps Hs) as (c & a & b & He). split; [|by intros [? _]].
    intros [o Ho]. congruence. }
  destruct (topo_spec ps Hnd Hs) as (E & out & HEd & Ho & Hin & Hg & Hst & Heq).
  assert (∀ m n, (m, n) ∈ E → m ∈ p_name <$> ps ∧ n ∈ p_name <$> ps) as HE.
  { intros m n Hmn. apply HEd in Hmn as (p & q & (Hp & Hq & _) & <- & <-).
    split; by apply list_elem_of_fmap_2. }
  pose proof (complete_iff_acyclic _ E Hnd HE out Ho Hin Hg Hst) as Hc. rewrite length_fmap in Hc.
  assert (acyclic ps ↔ length ps ≤ length out) as Hac.
  { rewrite Hc. unfold acyclic. setoid_rewrite (tc_names ps E Hnd HEd). split.
    - intros Ha x (q & p & Ht & <- & Hpq). apply (Ha q).
      assert (p = q) as ->; [|done]. apply (name_inj ps); auto.
      + clear - Ht. induction Ht as [? ? (? & _)|]; auto.
      + clear - Ht. by inversion Ht as [? ? (_ & ? & _)|? ? ? (_ & ? & _)].
    - intros Ha p Hp. apply (Ha (p_name p)). eauto. }
  rewrite Hac, Heq. destruct (Nat.ltb_spec (length out) (length ps)) as [Hl|Hl].
  - split; [by intros [? ?]|]. intros [_ ?]. lia.
  - split; eauto.
Qed.

Lemma needs_perm ps ps' q p : ps ≡ₚ ps' → needs ps q p ↔ needs ps' q p.
Proof. intros Hp. unfold needs. by rewrite Hp. Qed.

Lemma single_providers_perm ps ps' : ps ≡ₚ ps' → single_providers ps → single_providers ps'.
Proof.
  intros Hp. unfold single_providers. intros Hs.
  assert (concat (map caps ps) ≡ₚ concat (map caps ps')) as <-; [|done].
  clear Hs. induction Hp as [|x l k _ IH|x y l|l k k' _ IH1 _ IH2]; simpl.
  - done.
  - by rewrite IH.
  - rewrite !app_assoc. by rewrite (Permutation_app_comm (caps y)).
  - by rewrite IH1.
Qed.

Lemma bucket_perm (M1 M2 : MapOrder) ps ps' o :
  NoDup (p_name <$> ps) → ps ≡ₚ ps' →
  @topoSortBucket M1 ps = Ok o → @topoSortBucket M2 ps' = Ok o.
Proof.
  intros Hnd Hp Ht. assert (NoDup (p_name <$> ps')) as Hnd' by by rewrite <- Hp.
  destruct (@bucket_ok M1 ps Hnd o Ht) as (Hs & _ & _).
  destruct (@topo_spec M1 ps Hnd Hs) as (E & out & HEd & Ho & Hin & Hg & Hst & Heq).
  destruct (@topo_spec M2 ps' Hnd' (single_providers_perm _ _ Hp Hs))
    as (E' & out' & HEd' & Ho' & Hin' & Hg' & Hst' & Heq').
  assert (∀ n, n ∈ p_name <$> ps' ↔ n ∈ p_name <$> ps) as HNN by (intros; by rewrite Hp).
  assert (∀ e, e ∈ E' ↔ e ∈ E) as HEE.
  { intros [m n]. rewrite HEd, HEd'. by setoid_rewrite (needs_perm _ _ _ _ Hp). }
  assert (out = out') as <-.
  { eapply (greedy_unique (p_name <$> ps) E []); auto.
    - by eapply greedy_ext, Hg'.
    - intros y Hy. apply (Hst' y). by eapply available_ext, Hy. }
  rewrite Heq'. rewrite Ht in Heq. rewrite <- (Permutation_length Hp).
  destruct (length out <? length ps); [done|]. f_equal. injection Heq as ->.
  apply map_ext_in. intros n Hn. apply list_elem_of_In, Hin, list_elem_of_fmap in Hn as (p & -> & Hn).
  rewrite !pick_name; try done. by rewrite <- Hp.
Qed.

(** ** The whole phase *)

Definition bucket (ps : list Plugin) (k : Z) : list Plugin := filter (λ p, pluginPriority p = k) ps.

Lemma group_lookup ps k :
  group_by_priority ps !! k = if decide (bucket ps k = []) then None else Some (bucket ps k).
Proof.
  unfold group_by_priority, bucket. revert k.
  induction ps as [|p ps IH] using rev_ind; intros k; [done|].
  rewrite foldl_app, filter_app, filter_cons. simpl.
  destruct (decide (pluginPriority p = k)) as [<-|Hne].
  - rewrite lookup_insert_eq, IH. by destruct (filter _ ps) as [|a l].
  - rewrite lookup_insert_ne, IH by done. by rewrite app_nil_r.
Qed.

Lemma sorted_keys_elem ps k : k ∈ sorted_keys (group_by_priority ps) ↔ ∃ p, p ∈ ps ∧ pluginPriority p = k.
Proof.
  unfold sorted_keys. rewrite merge_sort_Permutation, list_elem_of_fmap. split.
  - intros ([k' l] & -> & Hin). apply elem_of_map_to_list in Hin. rewrite group_lookup in Hin. simpl.
    destruct (decide (bucket ps k' = [])) as [|Hne]; [done|].
    destruct (bucket ps k') as [|p l'] eqn:Hb; [done|].
    assert (p ∈ bucket ps k') as Hp by (rewrite Hb; left).
    apply list_elem_of_filter in Hp. naive_solver.
  - intros (p & Hp & Hk). exists (k, bucket ps k). split; [done|].
    apply elem_of_map_to_list. rewrite group_lookup. rewrite decide_False; [done|].
    intros Hb. assert (p ∈ bucket ps k) as Hin by by apply list_elem_of_filter.
    rewrite Hb in Hin. by apply elem_of_nil in Hin.
Qed.

Lemma sorted_keys_ascending ps : StronglySorted Z.lt (sorted_keys (group_by_priority ps)).
Proof.
  assert (NoDup (sorted_keys (group_by_priority ps))) as Hnd.
  { unfold sorted_keys. rewrite merge_sort_Permutation. apply NoDup_fst_map_to_list. }
  assert (StronglySorted Z.le (sorted_keys (group_by_priority ps))) as Hs
    by apply (StronglySorted_merge_sort Z.le).
  revert Hnd Hs. generalize (sorted_keys (group_by_priority ps)).
  induction l as [|k l IH]; intros Hnd Hs; [constructor|].
  apply NoDup_cons in Hnd as [Hk Hnd]. apply StronglySorted_inv in Hs as [Hs Hall].
  constructor; [auto|]. rewrite Forall_forall in *. intros x Hx.
  pose proof (Hall x Hx). assert (k ≠ x) by set_solver. lia.
Qed.

Lemma default_bucket ps k :
  default [] (group_by_priority ps !! k) = bucket ps k.
Proof. rewrite group_lookup. by destruct (decide (bucket ps k = [])) as [->|]. Qed.

Section Phase.
Context `{MapOrder}.

Lemma resolve_buckets_ok ps keys flat bs flat' bs' :
  resolve_buckets (group_by_priority ps) keys flat bs = Ok (flat', bs') →
  ∃ new, bs' = bs ++ new ∧ flat' = flat ++ concat (map b_Plugins new) ∧
    Forall2 (λ k b, b_Priority b = k ∧ topoSortBucket (bucket ps k) = Ok (b_Plugins b)) keys new.
Proof.
  revert flat bs. induction keys as [|k keys IH]; intros flat bs; simpl.
  - intros [= <- <-]. exists []. simpl. rewrite !app_nil_r. auto.
  - rewrite default_bucket. destruct (topoSortBucket (bucket ps k)) as [o|] eqn:Ht; [|done].
    intros (new & -> & -> & Hf)%IH. exists (MkBucket k o :: new). simpl.
    rewrite <- !app_assoc. simpl. auto.
Qed.

Lemma resolve_buckets_all ps keys flat bs new :
  Forall2 (λ k b, b_Priority b = k ∧ topoSortBucket (bucket ps k) = Ok (b_Plugins b)) keys new →
  resolve_buckets (group_by_priority ps) keys flat bs =
    Ok (flat ++ concat (map b_Plugins new), bs ++ new).
Proof.
  intros Hf. revert flat bs. induction Hf as [|k [k' o] keys new [Hk Ht] _ IH]; intros flat bs; simpl in *.
  - by rewrite !app_nil_r.
  - subst. rewrite default_bucket, Ht, IH. by rewrite <- !app_assoc.
Qed.

Lemma resolvePhase_eq ps :
  resolvePhase ps = resolve_buckets (group_by_priority ps) (sorted_keys (group_by_priority ps)) [] [].
Proof. by destruct ps. Qed.

Lemma bucket_nodup ps k : NoDup (p_name <$> ps) → NoDup (p_name <$> bucket ps k).
Proof.
  unfold bucket. induction ps as [|p ps IH]; [done|]. simpl. rewrite NoDup_cons. intros [Hp Hnd].
  rewrite filter_cons. case_decide; [|auto]. simpl. apply NoDup_cons. split; [|auto].
  intros Hin. apply Hp. apply list_elem_of_fmap in Hin as (q & -> & Hq).
  apply list_elem_of_filter in Hq as [_ Hq]. by apply list_elem_of_fmap_2.
Qed.
End Phase.

Lemma before_app_l {A} (l k : list A) x y : before l x y → before (l ++ k) x y.
Proof.
  intros (i & j & Hlt & Hi & Hj). exists i, j. split; [done|].
  split; by apply lookup_app_l_Some.
Qed.
Lemma before_app_r {A} (l k : list A) x y : before k x y → before (l ++ k) x y.
Proof.
  intros (i & j & Hlt & Hi & Hj). exists (length l + i), (length l + j). split; [lia|].
  by rewrite !lookup_app_r, !Nat.add_sub' by lia.
Qed.
Lemma before_app_lr {A} (l k : list A) x y : x ∈ l → y ∈ k → before (l ++ k) x y.
Proof.
  intros [i Hi]%list_elem_of_lookup [j Hj]%list_elem_of_lookup.
  exists i, (length l + j). pose proof (lookup_lt_Some _ _ _ Hi). split; [lia|].
  split; [by apply lookup_app_l_Some|]. by rewrite lookup_app_r, Nat.add_sub' by lia.
Qed.

Lemma before_concat {A} (ls : list (list A)) l x y :
  l ∈ ls → before l x y → before (concat ls) x y.
Proof.
  induction ls as [|l' ls IH]; [set_solver|]. intros Hl Hb. simpl.
  apply elem_of_cons in Hl as [<-|Hl]; [by apply before_app_l|by apply before_app_r, IH].
Qed.

Lemma before_buckets bs b1 b2 p q :
  StronglySorted Z.lt (map b_Priority bs) → b1 ∈ bs → b2 ∈ bs → (b_Priority b1 < b_Priority b2)%Z →
  p ∈ b_Plugins b1 → q ∈ b_Plugins b2 → before (concat (map b_Plugins bs)) p q.
Proof.
  induction bs as [|b bs IH]; intros Hs H1 H2 Hlt Hp Hq; [set_solver|]. simpl in *.
  apply StronglySorted_inv in Hs as [Hs Hall].
  apply elem_of_cons in H1 as [->|H1], H2 as [->|H2].
  - lia.
  - apply before_app_lr; [done|]. apply elem_of_concat_map. eauto.
  - rewrite Forall_forall in Hall. specialize (Hall (b_Priority b1)).
    assert (b_Priority b1 ∈ map b_Priority bs) as Hin by by apply (list_elem_of_fmap_2 b_Priority).
    specialize (Hall Hin). lia.
  - by apply before_app_r, IH.
Qed.

Lemma Forall2_priorities ps keys bs `{MapOrder} :
  Forall2 (λ k b, b_Priority b = k ∧ topoSortBucket (bucket ps k) = Ok (b_Plugins b)) keys bs →
  map b_Priority bs = keys ∧
  Forall (λ b, topoSortBucket (bucket ps (b_Priority b)) = Ok (b_Plugins b)) bs.
Proof. induction 1 as [|k b keys bs [<- Ht] _ [<- IH]]; simpl; auto. Qed.

Lemma concat_buckets_perm ps bs :
  NoDup (map b_Priority bs) →
  (∀ p, p ∈ ps → pluginPriority p ∈ map b_Priority bs) →
  Forall (λ b, b_Plugins b ≡ₚ bucket ps (b_Priority b)) bs →
  concat (map b_Plugins bs) ≡ₚ ps.
Proof.
  revert ps. induction bs as [|b bs IH]; intros ps Hnd Hin Hf; simpl in *.
  - destruct ps as [|p ps]; [done|]. exfalso. assert (p ∈ p :: ps) as Hp by left.
    apply Hin in Hp. by apply elem_of_nil in Hp.
  - apply NoDup_cons in Hnd as [Hb Hnd]. apply Forall_cons in Hf as [Hbp Hf].
    set (rest := filter (λ p, pluginPriority p ≠ b_Priority b) ps).
    assert (ps ≡ₚ bucket ps (b_Priority b) ++ rest) as Hsplit.
    { unfold bucket, rest. clear. induction ps as [|p ps IH]; [done|]. rewrite !filter_cons.
      destruct (decide (pluginPriority p = b_Priority b)) as [Heq|Hne].
      - rewrite decide_False by auto. simpl. by rewrite IH at 1.
      - rewrite decide_True by done. rewrite <- Permutation_middle. by rewrite IH at 1. }
    rewrite Hbp, (IH rest); [by symmetry|done| |].
    + intros p Hp. apply list_elem_of_filter in Hp as [Hne Hp]. apply Hin in Hp. set_solver.
    + rewrite Forall_forall in *. intros b' Hb'. rewrite (Hf b' Hb'). unfold bucket, rest.
      rewrite list_filter_filter. apply Permutation_refl'. apply list_filter_iff. intros p.
      split; [|tauto]. intros ->. split; [done|]. intros Heq. apply Hb. rewrite <- Heq.
      by apply (list_elem_of_fmap_2 b_Priority).
Qed.

Lemma resolve_phase_parts `{MapOrder} ps flat bs :
  resolvePhase ps = Ok (flat, bs) →
  flat = concat (map b_Plugins bs) ∧ map b_Priority bs = sorted_keys (group_by_priority ps) ∧
  Forall (λ b, topoSortBucket (bucket ps (b_Priority b)) = Ok (b_Plugins b)) bs.
Proof.
  rewrite resolvePhase_eq. intros (new & -> & -> & Hf)%resolve_buckets_ok. simpl.
  by apply Forall2_priorities in Hf as [-> Hf].
Qed.

Lemma resolve_sound `{MapOrder} ps flat bs :
  NoDup (p_name <$> ps) → resolvePhase ps = Ok (flat, bs) →
  flat ≡ₚ ps ∧ flat = concat (map b_Plugins bs) ∧
  StronglySorted Z.lt (map b_Priority bs) ∧
  Forall (λ b, Forall (λ p, pluginPriority p = b_Priority b) (b_Plugins b)) bs ∧
  (∀ p q, needs ps q p → pluginPriority p = pluginPriority q → before flat p q) ∧
  (∀ p q, p ∈ ps → q ∈ ps → (pluginPriority p < pluginPriority q)%Z → before flat p q).
Proof.
  intros Hnd (Hflat & Hkeys & Hf)%resolve_phase_parts.
  assert (StronglySorted Z.lt (map b_Priority bs)) as Hasc
    by (rewrite Hkeys; apply sorted_keys_ascending).
  assert (∀ p, p ∈ ps → ∃ b, b ∈ bs ∧ b_Priority b = pluginPriority p) as Hcover.
  { intros p Hp. assert (pluginPriority p ∈ map b_Priority bs) as Hin
      by (rewrite Hkeys; apply sorted_keys_elem; eauto).
    apply (list_elem_of_fmap b_Priority) in Hin as (b & ? & ?). eauto. }
  rewrite Forall_forall in Hf.
  assert (∀ b, b ∈ bs → b_Plugins b ≡ₚ bucket ps (b_Priority b) ∧
            ∀ p q, needs (bucket ps (b_Priority b)) q p → before (b_Plugins b) p q) as Hb.
  { intros b Hb. apply Hf, bucket_ok in Hb as (_ & ? & ?); [done|]. by apply bucket_nodup. }
  split_and!; auto.
  - rewrite Hflat. apply concat_buckets_perm.
    + rewrite Hkeys. unfold sorted_keys. rewrite merge_sort_Permutation. apply NoDup_fst_map_to_list.
    + intros p (b & Hbb & <-)%Hcover. by apply (list_elem_of_fmap_2 b_Priority).
    + apply Forall_forall. intros b Hbb. by apply Hb.
  - apply Forall_forall. intros b Hbb. apply Forall_forall. intros p Hp.
    rewrite (proj1 (Hb b Hbb)) in Hp. by apply list_elem_of_filter in Hp as [? _].
  - intros p q (Hp & Hq & Hne & Hc) Hpr. destruct (Hcover p Hp) as (b & Hbb & Hbp). rewrite Hflat.
    apply (before_concat _ (b_Plugins b)); [by apply (list_elem_of_fmap_2 b_Plugins)|].
    apply (Hb b Hbb). unfold needs. split_and!; auto; apply list_elem_of_filter; split; auto; congruence.
  - intros p q Hp Hq Hlt. destruct (Hcover p Hp) as (b1 & Hb1 & Hp1).
    destruct (Hcover q Hq) as (b2 & Hb2 & Hp2). rewrite Hflat.
    apply (before_buckets bs b1 b2); auto; [lia| |].
    + rewrite (proj1 (Hb b1 Hb1)). by apply list_elem_of_filter.
    + rewrite (proj1 (Hb b2 Hb2)). by apply list_elem_of_filter.
Qed.

(** ** The claims *)

(** C2: A schedule that [resolvePhase] returns runs every plugin once, runs the
    buckets in strictly ascending priority with every plugin in the bucket of
    its own priority, and runs a plugin after every other plugin of its bucket
    that provides a capability it requires. *)
Theorem schedule_is_correct `{MapOrder} ps flat bs :
  NoDup (p_name <$> ps) → resolvePhase ps = Ok (flat, bs) →
  flat ≡ₚ ps ∧ flat = concat (map b_Plugins bs) ∧
  StronglySorted Z.lt (map b_Priority bs) ∧
  Forall (λ b, Forall (λ p, pluginPriority p = b_Priority b) (b_Plugins b)) bs ∧
  (∀ p q, needs ps q p → pluginPriority p = pluginPriority q → before flat p q) ∧
  (∀ p q, p ∈ ps → q ∈ ps → (pluginPriority p < pluginPriority q)%Z → before flat p q).
Proof. apply resolve_sound. Qed.

Definition cap_plugin (id : nat) (name : string) (prio : Z) (provides requires : list string) : Plugin :=
  MkPlugin id true name (Some prio) (Some provides) (Some requires) false None false
    None None None None "".

Definition sample_plugins : list Plugin :=
  [cap_plugin 1 "a" 200 [] ["db"; "log"]; cap_plugin 2 "z" 200 ["db"] ["log"];
   cap_plugin 3 "m" 200 ["log"] []; plain_plugin 4 "plain"; cap_plugin 5 "x" 100 [] ["db"]].

Lemma sample_plugins_nodup : NoDup (p_name <$> sample_plugins).
Proof. refine (bool_decide_eq_true_1 (NoDup (p_name <$> sample_plugins)) _). vm_compute. reflexivity. Qed.

Lemma schedule_is_correct_witness :
  ∃ flat bs, resolvePhase sample_plugins = Ok (flat, bs) ∧
    map p_name flat = ["x"; "m"; "z"; "a"; "plain"] ∧
    StronglySorted Z.lt (map b_Priority bs).
Proof.
  destruct (resolvePhase sample_plugins) as [[flat bs]|e] eqn:E; [|exfalso; vm_compute in E; discriminate].
  exists flat, bs. split; [reflexivity|]. split.
  - vm_compute in E. injection E as <- _. reflexivity.
  - destruct (schedule_is_correct sample_plugins flat bs sample_plugins_nodup E) as (_ & _ & Hs & _). exact Hs.
Defined.

(** C17: For plugins of distinct names, [resolvePhase] returns a schedule
    exactly when, in every priority bucket, each capability is claimed once and
    no plugin requires itself through the others; in particular it never loops
    and never drops a schedulable plugin.  [Build] rejects equal names that are
    not empty; two plugins without a name are reported as a cycle that is not
    there ([unnamed_plugins_reported_as_cycle]). *)
Theorem schedule_exists_iff `{MapOrder} ps :
  NoDup (p_name <$> ps) →
  (∃ r, resolvePhase ps = Ok r) ↔
  ∀ k, single_providers (bucket ps k) ∧ acyclic (bucket ps k).
Proof.
  intros Hnd. rewrite resolvePhase_eq. split.
  - intros [[flat bs] Hr] k. apply resolve_buckets_ok in Hr as (new & _ & _ & Hf).
    destruct (decide (bucket ps k = [])) as [->|Hne].
    { split; [constructor|]. intros p Hp. inversion Hp as [? ? (? & _)|? ? ? (? & _)]; set_solver. }
    rewrite <- (bucket_ok_iff (bucket ps k)) by by apply bucket_nodup.
    assert (k ∈ sorted_keys (group_by_priority ps)) as Hk.
    { apply sorted_keys_elem. destruct (bucket ps k) as [|p l] eqn:Hb; [done|].
      assert (p ∈ bucket ps k) as Hp by (rewrite Hb; left).
      apply list_elem_of_filter in Hp as [? ?]. eauto. }
    apply list_elem_of_lookup in Hk as [i Hi].
    destruct (Forall2_lookup_l _ _ _ _ _ Hf Hi) as (b & _ & _ & Ht). eauto.
  - intros Hall.
    assert (∃ new, Forall2 (λ k b, b_Priority b = k ∧ topoSortBucket (bucket ps k) = Ok (b_Plugins b))
      (sorted_keys (group_by_priority ps)) new) as [new Hf].
    { induction (sorted_keys (group_by_priority ps)) as [|k ks [new IH]]; [by exists []|].
      destruct (proj2 (bucket_ok_iff (bucket ps k) (bucket_nodup ps k Hnd)) (Hall k)) as [o Ho].
      exists (MkBucket k o :: new). by constructor. }
    exists ([] ++ concat (map b_Plugins new), [] ++ new). by apply resolve_buckets_all.
Qed.

Lemma schedule_exists_iff_witness :
  single_providers (bucket sample_plugins 200%Z) ∧ acyclic (bucket sample_plugins 200%Z).
Proof.
  refine (proj1 (schedule_exists_iff sample_plugins _) _ 200%Z).
  - exact sample_plugins_nodup.
  - destruct (resolvePhase sample_plugins) as [r|e] eqn:E; [exists r; reflexivity|].
    exfalso. vm_compute in E. discriminate.
Defined.

(** The schedule does not depend on the order in which plugins were
    registered, nor on the order in which the runtime ranges over its maps. *)
Theorem schedule_is_deterministic (M1 M2 : MapOrder) ps ps' r :
  NoDup (p_name <$> ps) → ps ≡ₚ ps' →
  @resolvePhase M1 ps = Ok r → @resolvePhase M2 ps' = Ok r.
Proof.
  intros Hnd Hp. destruct r as [flat bs]. rewrite !resolvePhase_eq. intros Hr.
  apply (@resolve_buckets_ok M1) in Hr as (new & -> & -> & Hf).
  assert (sorted_keys (group_by_priority ps') = sorted_keys (group_by_priority ps)) as ->.
  { apply (StronglySorted_unique_strong Z.lt); try apply sorted_keys_ascending.
    - intros x y _ _ ? ?. lia.
    - apply NoDup_Permutation;
        [unfold sorted_keys; rewrite merge_sort_Permutation; apply NoDup_fst_map_to_list..|].
      intros k. rewrite !sorted_keys_elem. by setoid_rewrite Hp. }
  apply (@resolve_buckets_all M2). eapply Forall2_impl; [exact Hf|]. intros k b [Hk Ht].
  split; [done|]. apply (bucket_perm M1 M2 (bucket ps k)); [by apply bucket_nodup| |done].
  unfold bucket. by rewrite Hp.
Qed.

Lemma schedule_is_deterministic_witness :
  map p_name (match @resolvePhase reverse_order (reverse sample_plugins) with
              | Ok (flat, _) => flat | Err _ => [] end) = ["x"; "m"; "z"; "a"; "plain"].
Proof.
  destruct (@resolvePhase sorted_order sample_plugins) as [r|e] eqn:E;
    [|exfalso; vm_compute in E; discriminate].
  rewrite (schedule_is_deterministic sorted_order reverse_order sample_plugins
             (reverse sample_plugins) r).
  - vm_compute in E. injection E as <-. reflexivity.
  - exact sample_plugins_nodup.
  - symmetry. apply reverse_Permutation.
  - exact E.
Defined.

(** Plugins without capabilities run in alphabetical order, not in the
    registration order that the documentation of the default priority names. *)
Theorem default_bucket_runs_by_name :
  match resolvePhase [plain_plugin 1 "b"; plain_plugin 2 "a"] with
  | Ok (flat, _) => map p_name flat = ["a"; "b"]
  | Err _ => False
  end.
Proof. vm_compute. reflexivity. Qed.

Definition cycle_with_dependent : list Plugin :=
  [cap_plugin 1 "a" 200 ["x"] ["y"]; cap_plugin 2 "b" 200 ["y"] ["x"];
   cap_plugin 3 "c" 200 [] ["y"]].

(** The cycle error also names plugins that are not on a cycle: those that
    only depend on one.  Here nothing requires [c]. *)
Theorem cycle_report_names_dependents :
  resolvePhase cycle_with_dependent = Err (ErrCycle ["a"; "b"; "c"]) ∧
  ∀ p q, needs cycle_with_dependent q p → p_name p ≠ "c".
Proof.
  split; [vm_compute; reflexivity|]. intros p q (Hp & _ & _ & c & Hc & _) Hn.
  unfold cycle_with_dependent in Hp. rewrite !elem_of_cons in Hp.
  destruct Hp as [->|[->|[->|Hp]]]; [done|done| |by apply elem_of_nil in Hp].
  by apply elem_of_nil in Hc.
Qed.

(** Two plugins with an empty name, which the duplicate-name check lets
    through, are reported as a cycle among no plugins. *)
Theorem unnamed_plugins_reported_as_cycle :
  resolvePhase [plain_plugin 1 ""; plain_plugin 2 ""] = Err (ErrCycle []).
Proof. vm_compute. reflexivity. Qed.
