(* ===== verification/Build.v ===== *)
(** * Building a pipeline ([pipeline/builder.go], [capability.go],
      [templates.go], [core_directives.go])

    [Build] first runs the structural checks, and only when all pass resolves
    the plan, the directive registry, the parser and the output declarations.
    Each check returns the list of problems it found; a failing build reports
    every problem of the failing stage as one diagnostic. *)

From S2P Require Import Prelude GoStrings Position Diag Directive DirectiveParser Plugin Resolve.

Local Open Scope string_scope.
Local Open Scope nat_scope.
Local Open Scope list_scope.

(** ** Errors *)

Inductive OutputFault :=
| SuffixRequired (i : nat)
| TagTwice (tag : string) (prev i : nat)
| EmptyTagNotFirst (i : nat)
| ManyEmptyTags (n : nat).

Inductive BuildError :=
| ErrDuplicatePlugin (name : string)
| ErrNoFrontend
| ErrNoBackend
| ErrMultipleBackends
| ErrInvalidOptions (name err : string)
| ErrPartialCapability (name : string) (gap : Gap)
| ErrPlan (e : ResolveError)
| ErrTemplateFuncCollision (func plugin prior : string)
| ErrDuplicateDirective (e : RegistryError)
| ErrInvalidDirectivePrefix (e : PrefixError)
| ErrIncompatibleEmitVersion (name : string) (declared : list string)
| ErrInvalidOutputs (name : string) (f : OutputFault).

(** ** Layout policies *)

(** [manifest.Layer] *)
Inductive Layer := LayerFramework | LayerPluginSuffix | LayerProject | LayerPerPlugin
                 | LayerDirective | LayerCLI.
#[global] Instance Layer_eq_dec : EqDecision Layer.
Proof. solve_decision. Defined.

Record LayoutPolicy := MkPolicy {
  Layout : string; LayoutFrom : Layer;
  Package : string; PackageFrom : Layer;
  Dir : string; DirFrom : Layer;
}.
Record layoutOverride := MkOverride { ov_Layout : string; ov_Package : string; ov_Dir : string }.

(** [pluginTagKey]: plugin and tag. *)
Abbreviation pluginTagKey := (string * string)%type.

Definition LayoutAlongsideSource : string := "alongside-source".

Definition NewLayoutPolicy : LayoutPolicy :=
  MkPolicy LayoutAlongsideSource LayerFramework "" LayerFramework "" LayerFramework.

(** ** The builder *)

Record Builder := MkBuilder {
  frontends : list Plugin;
  annotators : list Plugin;
  generators : list Plugin;
  backends : list Plugin;
  directives : list Schema;
  directivePrefix : string;
  unclaimedDirectives : bool;
  diag_ : option Sink;
  pipelineID : string;
  options : gmap string (gmap string string);
  outputPackage : string;
  outputLayout : string;
  outputDir : string;
  projectLayout : string;
  projectPackage : string;
  projectDir : string;
  pluginOutputs : gmap string layoutOverride;
  pluginTagOutputs : gmap pluginTagKey layoutOverride;
}.

(** [b.backends[0]], read only after the role counts were checked. *)
Definition backend0 (b : Builder) : Plugin := default zero_plugin (head (backends b)).

(** Every role in the order the builder visits them. *)
Definition roles (b : Builder) : list (list Plugin) :=
  [frontends b; annotators b; generators b; backends b].

(** ** Identity and names *)

Definition comparablePlugin (p : Plugin) : bool := p_comparable p.
Definition samePlugin (a b : Plugin) : bool :=
  if negb (comparablePlugin a) || negb (comparablePlugin b) then false
  else p_id a =? p_id b.

(** The closure [check] of [validateNoDuplicateNames]. *)
Definition check_name (st : gmap string Plugin * list BuildError) (p : Plugin)
    : gmap string Plugin * list BuildError :=
  let '(seen, errs) := st in
  let name := p_name p in
  if String.eqb name "" then (seen, errs)
  else match seen !! name with
       | Some prior =>
           if negb (samePlugin prior p) then (seen, errs ++ [ErrDuplicatePlugin name])
           else (<[name := p]> seen, errs)
       | None => (<[name := p]> seen, errs)
       end.

(** The closure [checkSlice]. *)
Fixpoint check_slice (ps : list Plugin) (withinRole : gset string)
    (st : gmap string Plugin * list BuildError) : gmap string Plugin * list BuildError :=
  match ps with
  | [] => st
  | p :: ps =>
      let name := p_name p in
      if String.eqb name "" then check_slice ps withinRole st
      else if decide (name ∈ withinRole)
      then check_slice ps withinRole (st.1, st.2 ++ [ErrDuplicatePlugin name])
      else check_slice ps ({[name]} ∪ withinRole) (check_name st p)
  end.

Definition validateNoDuplicateNames (b : Builder) : list BuildError :=
  (foldl (λ st ps, check_slice ps ∅ st) (∅, []) (roles b)).2.

Definition validateRoleCounts (b : Builder) : list BuildError :=
  (if length (frontends b) =? 0 then [ErrNoFrontend] else []) ++
  match length (backends b) with
  | 0 => [ErrNoBackend]
  | 1 => []
  | _ => [ErrMultipleBackends]
  end.

(** [opt.New] copies the raw options of the plugin; its [SetOptions] answers
    [Some] error or nil. *)
Definition apply_options (b : Builder) (p : Plugin) : list BuildError :=
  match p_SetOptions p with
  | None => []
  | Some set =>
      match set (default ∅ (options b !! p_name p)) with
      | Some e => [ErrInvalidOptions (p_name p) e]
      | None => []
      end
  end.
Definition applyAndValidateOptions (b : Builder) : list BuildError :=
  concat (map (λ ps, concat (map (apply_options b) ps)) (roles b)).

(** ** [capability.go] *)

Fixpoint distinct_names (ps : list Plugin) (seen : gset string) (out : list Plugin) : list Plugin :=
  match ps with
  | [] => out
  | p :: ps =>
      if decide (p_name p ∈ seen) then distinct_names ps seen out
      else distinct_names ps ({[p_name p]} ∪ seen) (out ++ [p])
  end.
(** [Builder.allPlugins] *)
Definition allPlugins_by_name (b : Builder) : list Plugin :=
  distinct_names (concat (roles b)) ∅ [].

Definition validatePartialCapabilities (b : Builder) : list BuildError :=
  concat (map (λ p, map (ErrPartialCapability (p_name p)) (Gaps p)) (allPlugins_by_name b)).

(** ** Flattening roles *)

(** The comparable plugins seen so far are kept by identity. *)
Fixpoint dedupe_loop (ps : list Plugin) (seen : gset nat) (out : list Plugin) : list Plugin :=
  match ps with
  | [] => out
  | p :: ps =>
      if negb (comparablePlugin p) then dedupe_loop ps seen (out ++ [p])
      else if decide (p_id p ∈ seen) then dedupe_loop ps seen out
      else dedupe_loop ps ({[p_id p]} ∪ seen) (out ++ [p])
  end.
Definition dedupePlugins (ps : list Plugin) : list Plugin := dedupe_loop ps ∅ [].

(** The package function [allPlugins]. *)
Definition allPlugins (b : Builder) : list Plugin := dedupePlugins (concat (roles b)).

(** ** [templates.go] *)

Section Iteration.
Context `{MapOrder}.

Definition func_step (p : Plugin) (st : gmap string string * list BuildError) (name : string)
    : gmap string string * list BuildError :=
  let '(seen, errs) := st in
  match seen !! name with
  | Some prior => (seen, errs ++ [ErrTemplateFuncCollision name (p_name p) prior])
  | None => (<[name := p_name p]> seen, errs)
  end.

Definition template_step (lang : string) (st : gmap string string * list BuildError) (p : Plugin)
    : gmap string string * list BuildError :=
  match templateFuncs p with
  | None => st
  | Some f => foldl (func_step p) st (map_keys (f lang))
  end.

Definition validateTemplateFuncs (ps : list Plugin) (lang : string) : list BuildError :=
  (foldl (template_step lang) (∅, []) ps).2.

(** ** [resolvePlan] *)

Record Plan := MkPlan {
  pl_Frontends : list Plugin;
  pl_Annotators : list Plugin;
  pl_AnnotatorBuckets : list resolvedBucket;
  pl_Generators : list Plugin;
  pl_GeneratorBuckets : list resolvedBucket;
  pl_Backend : Plugin;
}.

Definition plan_error {A} (r : res ResolveError A) : list BuildError :=
  match r with Ok _ => [] | Err e => [ErrPlan e] end.

Definition resolvePlan (b : Builder) : res (list BuildError) Plan :=
  let ann := resolvePhase (annotators b) in
  let gen := resolvePhase (generators b) in
  let tplErrs := validateTemplateFuncs (allPlugins b) (p_Language (backend0 b)) in
  let errs := plan_error ann ++ plan_error gen ++ tplErrs in
  match errs, ann, gen with
  | [], Ok (a, abs), Ok (g, gbs) => Ok (MkPlan (frontends b) a abs g gbs (backend0 b))
  | _, _, _ => Err errs
  end.
End Iteration.

(** ** [core_directives.go] *)

Definition OutDirective : string := "out".
Definition MetaDirectiveName : string := "meta".
Definition ValueDirective : string := "value".
Definition RoutingKeys : list string := ["out"; "pkg"; "tag"].

(** [slices.Contains] *)
Definition contains (l : list string) (k : string) : bool := bool_decide (k ∈ l).

Definition set_keys (s : Schema) (allowed : list string) (deny : bool) : Schema :=
  let 'MkSchema n a r m rk _ _ pa ep an d := s in MkSchema n a r m rk allowed deny pa ep an d.

Definition widenRoutingKeys (s : Schema) : Schema :=
  if DenyKeys s then set_keys s RoutingKeys false
  else if length (AllowedKeys s) =? 0 then s
  else foldl (λ s k, if contains (AllowedKeys s) k then s
                     else set_keys s (AllowedKeys s ++ [k]) (DenyKeys s))
         s RoutingKeys.

Definition out_description : string :=
   "Routing override for emit entities anchored to this source node. " +:+
   "Positional path (filename or relative dir + filename) is required; " +:+
   "optional `plugin=<name>` scopes the override to one plugin's output, " +:+
   "optional `tag=<name>` scopes it to one of that plugin's outputs, and " +:+
   "optional `pkg=<name>` pins the rendered package clause. CLI -o and -p " +:+
   "override this directive in turn. Per-directive `out=` / `pkg=` keys on " +:+
   "any plugin's own directive serve the same role with the emitter as " +:+
   "natural anchor.".
Definition meta_description : string :=
   "Sets or clears metadata on the host node. The positive form takes " +:+
   "`KEY=VALUE` pairs, or a bare positional KEY to set it true; the negated " +:+
   "form tombstones each named key, and a name no meta key matches is read as " +:+
   "a prefix so a group can be cleared without enumerating its leaves. " +:+
   "Applied by the pipeline between the annotator and generator phases.".
Definition value_description : string :=
   "Per-source override for the rendered or serialised string form of the " +:+
   "host node. Generic by design — consumed by any plugin that translates " +:+
   "node identity into a string representation (serialisation tags, error " +:+
   "codes, configuration keys, identifier renames, route patterns, …). " +:+
   "Reserved centrally so plugins share the schema rather than re-registering " +:+
   "per-plugin variants.".

Definition coreDirectives : list Schema :=
  [Builder.DenyNegation
     (Builder.AllowedKeys
        (Builder.Positional (Builder.Describe (Builder.NewSchema OutDirective) out_description)
           "filename" [])
        ["plugin"; "tag"; "pkg"]);
   Builder.AllowExtraPositional
     (Builder.Positional (Builder.Describe (Builder.NewSchema MetaDirectiveName) meta_description)
        "key" []);
   Builder.DenyNegation
     (Builder.DenyKeys
        (Builder.Positional (Builder.Describe (Builder.NewSchema ValueDirective) value_description)
           "override" []))].

(** ** [buildDirectiveRegistry] *)

Definition register_core (r : Registry) (s : Schema) : Registry :=
  match Register r s with Ok r => r | Err _ => r end.

Definition register_manual (st : Registry * list BuildError) (s : Schema)
    : Registry * list BuildError :=
  let '(r, errs) := st in
  match Register r s with
  | Ok r => (r, errs)
  | Err e => (r, errs ++ [ErrDuplicateDirective e])
  end.

Definition register_owned (p : Plugin) (st : Registry * gmap string string * list BuildError)
    (s : Schema) : Registry * gmap string string * list BuildError :=
  let '(r, owners, errs) := st in
  let s := widenRoutingKeys s in
  match Register r s with
  | Ok r => (r, <[s_Name s := p_name p]> owners, errs)
  | Err e => (r, owners, errs ++ [ErrDuplicateDirective e])
  end.

Definition register_plugin (st : Registry * gmap string string * list BuildError) (p : Plugin)
    : Registry * gmap string string * list BuildError :=
  match p_Directives p with
  | None => st
  | Some ss => foldl (register_owned p) st ss
  end.

Definition buildDirectiveRegistry (b : Builder)
    : Registry * gmap string string * list BuildError :=
  let r := if unclaimedDirectives b then AllowUnclaimed NewRegistry else NewRegistry in
  let r := foldl register_core r coreDirectives in
  let '(r, errs) := foldl register_manual (r, []) (directives b) in
  foldl register_plugin (r, ∅, errs) (allPlugins b).

Definition buildDirectiveParser (b : Builder) : res BuildError Parser :=
  let prefix := if String.eqb (directivePrefix b) "" then DefaultPrefix else directivePrefix b in
  match NewParser prefix with
  | Ok p => Ok p
  | Err e => Err (ErrInvalidDirectivePrefix e)
  end.

(** ** [validateEmitVersions], [validateOutputs] *)

Definition emit_Version : string := "1.0.0".
(** [emit.Major]: [strings.Cut] at the first dot. *)
Definition Major : string :=
  match index_byte emit_Version "." with
  | Some i => str_take i emit_Version
  | None => emit_Version
  end.

Definition check_version (p : Plugin) : list BuildError :=
  match p_EmitVersions p with
  | None => []
  | Some declared =>
      if contains declared Major then [] else [ErrIncompatibleEmitVersion (p_name p) declared]
  end.
Definition validateEmitVersions (b : Builder) : list BuildError :=
  concat (map (λ ps, concat (map check_version ps)) (roles b)).

(** The loop over one plugin's outputs. *)
Fixpoint outputs_loop (name : string) (os : list Output) (i : nat) (seenTags : gmap string nat)
    (emptyTagCount : nat) (errs : list BuildError) : nat * list BuildError :=
  match os with
  | [] => (emptyTagCount, errs)
  | o :: os =>
      let errs := if String.eqb (o_Suffix o) ""
                  then errs ++ [ErrInvalidOutputs name (SuffixRequired i)] else errs in
      let errs := match seenTags !! o_Tag o with
                  | Some prev => errs ++ [ErrInvalidOutputs name (TagTwice (o_Tag o) prev i)]
                  | None => errs
                  end in
      let seenTags := <[o_Tag o := i]> seenTags in
      if String.eqb (o_Tag o) ""
      then outputs_loop name os (S i) seenTags (S emptyTagCount)
             (if negb (i =? 0) then errs ++ [ErrInvalidOutputs name (EmptyTagNotFirst i)] else errs)
      else outputs_loop name os (S i) seenTags emptyTagCount errs
  end.

Definition validate_plugin_outputs (lang : string) (gen : Plugin) : list BuildError :=
  match p_Outputs gen with
  | None => []
  | Some fp =>
      let outputs := fp lang in
      if length outputs =? 0 then []
      else let '(emptyTagCount, errs) := outputs_loop (p_name gen) outputs 0 ∅ 0 [] in
           if 1 <? emptyTagCount
           then errs ++ [ErrInvalidOutputs (p_name gen) (ManyEmptyTags emptyTagCount)]
           else errs
  end.

Definition validateOutputs (b : Builder) : list BuildError :=
  if length (backends b) =? 0 then []
  else concat (map (validate_plugin_outputs (p_Language (backend0 b))) (generators b)).

(** ** Layout policy merge *)

(** One field of the merge: a non-empty value replaces it and its layer. *)
Definition override_field (v : string) (l : Layer) (cur : string * Layer) : string * Layer :=
  if String.eqb v "" then cur else (v, l).

Definition apply_layer (layout pkg dir : string) (l : Layer) (p : LayoutPolicy) : LayoutPolicy :=
  let '(lv, lf) := override_field layout l (Layout p, LayoutFrom p) in
  let '(pv, pf) := override_field pkg l (Package p, PackageFrom p) in
  let '(dv, df) := override_field dir l (Dir p, DirFrom p) in
  MkPolicy lv lf pv pf dv df.

Definition mergedBasePolicy (b : Builder) : LayoutPolicy :=
  apply_layer (projectLayout b) (projectPackage b) (projectDir b) LayerProject NewLayoutPolicy.

Definition apply_cli (b : Builder) (p : LayoutPolicy) : LayoutPolicy :=
  apply_layer (outputLayout b) (outputPackage b) (outputDir b) LayerCLI p.

Definition applyPerPluginAndCLI (b : Builder) (base : LayoutPolicy) (name : string) : LayoutPolicy :=
  let policy :=
    if negb (String.eqb name "") then
      match pluginOutputs b !! name with
      | Some over => apply_layer (ov_Layout over) (ov_Package over) (ov_Dir over) LayerPerPlugin base
      | None => base
      end
    else base in
  apply_cli b policy.

Definition applyPerTagOverride (b : Builder) (base : LayoutPolicy) (key : pluginTagKey) : LayoutPolicy :=
  match pluginTagOutputs b !! key with
  | None => base
  | Some over =>
      apply_cli b (apply_layer (ov_Layout over) (ov_Package over) (ov_Dir over) LayerPerPlugin base)
  end.

(** The three results: the default policy, the per-plugin policies, and the
    per-tag policies; each map is filled by independent insertions, so the
    order of the loops does not show. *)
Definition resolveLayoutPolicies (b : Builder)
    : LayoutPolicy * gmap string LayoutPolicy * gmap pluginTagKey LayoutPolicy :=
  let base := mergedBasePolicy b in
  let out := foldl (λ m p, <[p_name p := applyPerPluginAndCLI b base (p_name p)]> m)
               (∅ : gmap string LayoutPolicy) (concat (roles b)) in
  let tagOut := map_imap (λ key _,
      let pluginBase := match out !! key.1 with
                        | Some p => p
                        | None => applyPerPluginAndCLI b base key.1
                        end in
      Some (applyPerTagOverride b pluginBase key)) (pluginTagOutputs b) in
  (applyPerPluginAndCLI b base "", out, tagOut).

(** ** [resolvePipelineID] and [Build] *)

Section Building.
Context `{MapOrder}.
(** [hex.EncodeToString] of the first six bytes of [sha256.Sum256], and the
    text [Error()] gives for an error: both only carried around. *)
Context (digest12 : string → string) (error_text : BuildError → string).

Definition resolvePipelineID (b : Builder) : string :=
  if negb (String.eqb (pipelineID b) "") then pipelineID b
  else digest12 (str_join (byte_string [10]) (sort_strings (p_name <$> concat (roles b)))).

Record Pipeline := MkPipeline {
  pp_backend : Plugin;
  pp_pipelineID : string;
  pp_defaultPolicy : LayoutPolicy;
  pp_pluginPolicies : gmap string LayoutPolicy;
  pp_pluginTagPolicies : gmap pluginTagKey LayoutPolicy;
  pp_plan : Plan;
  pp_registry : Registry;
  pp_parser : Parser;
  pp_directiveOwners : gmap string string;
}.

Definition emitErrors (sk : Sink) (errs : list BuildError) : Sink :=
  foldl (λ sk e, Errorf (For "pipeline") sk zero_pos "%s" [AStr (error_text e)]) sk errs.

Definition res_errors {A} (r : res (list BuildError) A) : list BuildError :=
  match r with Ok _ => [] | Err es => es end.
Definition res_error {A} (r : res BuildError A) : list BuildError :=
  match r with Ok _ => [] | Err e => [e] end.

Definition structural_errors (b : Builder) : list BuildError :=
  validateNoDuplicateNames b ++ validateRoleCounts b ++ applyAndValidateOptions b ++
  validatePartialCapabilities b.

Definition Build (b : Builder) : res (list BuildError) Pipeline * Sink :=
  let sk := default New (diag_ b) in
  let structural := structural_errors b in
  if 0 <? length structural then (Err structural, emitErrors sk structural)
  else
    let plan := resolvePlan b in
    let '(registry, directiveOwners, regErrs) := buildDirectiveRegistry b in
    let parser := buildDirectiveParser b in
    let postStructural :=
      res_errors plan ++ regErrs ++ res_error parser ++ validateEmitVersions b ++
      validateOutputs b in
    match plan, parser with
    | Ok plan, Ok parser =>
        if 0 <? length postStructural then (Err postStructural, emitErrors sk postStructural)
        else
          let '(defaultPolicy, pluginPolicies, pluginTagPolicies) := resolveLayoutPolicies b in
          (Ok (MkPipeline (backend0 b) (resolvePipelineID b) defaultPolicy pluginPolicies
                 pluginTagPolicies plan registry parser directiveOwners), sk)
    | _, _ => (Err postStructural, emitErrors sk postStructural)
    end.
End Building.
