(* ===== verification/BuildLaws.v ===== *)
(** * Properties of [Build]

    [Build] accepts a configuration exactly when it meets a declarative
    specification, one clause per validation; a rejected configuration is
    reported problem by problem.  The layout policies it pins follow the
    documented precedence, the directive registry it builds reserves the core
    directives and lets every plugin-owned directive carry routing keys. *)

From S2P Require Import Prelude GoStrings Position Diag Directive DirectiveParser Plugin Resolve Build.

Local Open Scope string_scope.
Local Open Scope nat_scope.
Local Open Scope list_scope.


(** ** Names *)


















(** ** The other structural checks *)






(** [allPlugins_by_name] keeps the first registered plugin of each name. *)
Lemma distinct_names_elem ps seen out p :
  p ∈ distinct_names ps seen out ↔
  p ∈ out ∨ ∃ l1 l2, ps = l1 ++ p :: l2 ∧ p_name p ∉ seen ∧ p_name p ∉ p_name <$> l1.
Proof.
  revert seen out. induction ps as [|q ps IH]; intros seen out; simpl.
  { split; [auto|]. intros [?|(l1 & l2 & H & _)]; [done|]. by destruct l1. }
  case_decide as Hs; rewrite IH; clear IH.
  - split; (intros [?|(l1 & l2 & H & H1 & H2)]; [by left|right]).
    + exists (q :: l1), l2. subst. split_and!; [done|done|]. rewrite fmap_cons, not_elem_of_cons.
      split; [|done]. intros Heq. by rewrite Heq in H1.
    + destruct l1 as [|q' l1]; simplify_eq/=; [done|]. exists l1, l2.
      rewrite not_elem_of_cons in H2. naive_solver.
  - rewrite elem_of_app, list_elem_of_singleton. setoid_rewrite not_elem_of_union.
    setoid_rewrite not_elem_of_singleton. split.
    + intros [[?| ->]|(l1 & l2 & -> & [H0 H1] & H2)]; [by left| |].
      * right. exists [], ps. split_and!; [done|done|]. apply not_elem_of_nil.
      * right. exists (q :: l1), l2. split_and!; [done|done|]. by apply not_elem_of_cons.
    + intros [?|(l1 & l2 & H & H1 & H2)]; [by auto|]. destruct l1 as [|q' l1]; simplify_eq/=; [auto|].
      rewrite not_elem_of_cons in H2. right. exists l1, l2. naive_solver.
Qed.

Lemma all_plugins_by_name_elem b p :
  p ∈ allPlugins_by_name b ↔ ∃ l1 l2, concat (roles b) = l1 ++ p :: l2 ∧ p_name p ∉ p_name <$> l1.
Proof. unfold allPlugins_by_name. rewrite distinct_names_elem. set_solver. Qed.

(** ** Template functions *)


Section Templates.
Context `{MapOrder}.




End Templates.

(** ** The directive registry *)

(** The registry holds exactly the schemas of the list, one per name. *)
Definition reg_inv (l : list Schema) (r : Registry) : Prop :=
  NoDup (s_Name <$> l) ∧ ∀ n s, schemas r !! n = Some s ↔ s ∈ l ∧ s_Name s = n.

Lemma register_spec l r s :
  reg_inv l r →
  match Register r s with
  | Ok r' => reg_inv (l ++ [s]) r' ∧ unclaimed r' = unclaimed r
  | Err _ => s_Name s ∈ s_Name <$> l
  end.
Proof.
  intros [Hnd Hl]. unfold Register. destruct (schemas r !! s_Name s) as [t|] eqn:Ht.
  - apply Hl in Ht as [Ht <-]. by apply list_elem_of_fmap_2.
  - assert (s_Name s ∉ s_Name <$> l) as Hs.
    { intros (t & Heq & Hin)%list_elem_of_fmap. rewrite (proj2 (Hl _ t)) in Ht; [done|]. auto. }
    split; [|done]. split; simpl.
    + rewrite fmap_app. apply NoDup_app. split_and!; [done| |apply NoDup_singleton].
      intros n Hn ->%list_elem_of_singleton. done.
    + intros n t. rewrite elem_of_app, list_elem_of_singleton.
      destruct (decide (n = s_Name s)) as [->|Hne].
      * rewrite lookup_insert_eq. split; [intros [= ->]; auto|]. intros [[Hin| ->] Heq]; [|done].
        destruct Hs. rewrite <- Heq. by apply list_elem_of_fmap_2.
      * rewrite lookup_insert_ne, Hl by done. naive_solver.
Qed.

Lemma NoDup_names_snoc (l : list Schema) s k :
  s_Name s ∈ s_Name <$> l → ¬ NoDup (s_Name <$> l ++ s :: k).
Proof.
  intros Hin Hnd. rewrite fmap_app in Hnd. apply NoDup_app in Hnd as (_ & Hd & _).
  apply (Hd _ Hin). left.
Qed.

Lemma register_manual_spec ss l r errs :
  reg_inv l r →
  let st := foldl register_manual (r, errs) ss in
  (st.2 = [] ↔ errs = [] ∧ NoDup (s_Name <$> l ++ ss)) ∧
  (st.2 = [] → reg_inv (l ++ ss) st.1 ∧ unclaimed st.1 = unclaimed r).
Proof.
  revert l r errs. induction ss as [|s ss IH]; intros l r errs Hr; simpl.
  { rewrite app_nil_r. destruct Hr as [Hnd Hl]. split; [naive_solver|]. intros _. split; [|done]. by split. }
  pose proof (register_spec l r s Hr) as Hs. destruct (Register r s) as [r'|e].
  - destruct Hs as [Hs Hu]. destruct (IH _ _ errs Hs) as [H1 H2]. rewrite <- app_assoc in H1, H2.
    split; [done|]. intros Hnil. destruct (H2 Hnil) as [? ->]. done.
  - destruct (IH l r (errs ++ [ErrDuplicateDirective e]) Hr) as [H1 _].
    assert ((foldl register_manual (r, errs ++ [ErrDuplicateDirective e]) ss).2 ≠ []) as Hne
      by (rewrite H1; intros [? _]; by destruct errs).
    split; [|done]. split; [done|]. intros [_ Hnd]. by apply NoDup_names_snoc in Hnd.
Qed.

(** The schemas of a plugin, each with the plugin. *)
Definition owned (ps : list Plugin) : list (Plugin * Schema) :=
  concat (map (λ p, map (pair p) (default [] (p_Directives p))) ps).

Lemma register_plugins_flat ps st :
  foldl register_plugin st ps = foldl (λ st o, register_owned o.1 st o.2) st (owned ps).
Proof.
  revert st. induction ps as [|p ps IH]; intros st; [done|]. unfold owned. cbn [map concat foldl].
  rewrite foldl_app, IH. f_equal. unfold register_plugin. destruct (p_Directives p) as [ss|]; [|done].
  simpl. revert st. induction ss as [|s ss IHs]; intros st; [done|]. simpl. apply IHs.
Qed.

Definition owned_schemas (os : list (Plugin * Schema)) : list Schema :=
  map (λ o, widenRoutingKeys o.2) os.

Definition owners_inv (os : list (Plugin * Schema)) (owners : gmap string string) : Prop :=
  ∀ o, o ∈ os → owners !! s_Name (widenRoutingKeys o.2) = Some (p_name o.1).

Lemma register_owned_spec os l done r owners errs :
  reg_inv (l ++ owned_schemas done) r → owners_inv done owners →
  let st := foldl (λ st o, register_owned o.1 st o.2) (r, owners, errs) os in
  (st.2 = [] ↔ errs = [] ∧ NoDup (s_Name <$> l ++ owned_schemas (done ++ os))) ∧
  (st.2 = [] → reg_inv (l ++ owned_schemas (done ++ os)) st.1.1 ∧ owners_inv (done ++ os) st.1.2 ∧
               unclaimed st.1.1 = unclaimed r).
Proof.
  revert done r owners errs. induction os as [|[p s] os IH]; intros dn r owners errs Hr Ho; simpl.
  { rewrite app_nil_r. destruct Hr as [Hnd Hl]. split; [naive_solver|]. intros _. split; [by split|done]. }
  set (w := widenRoutingKeys s).
  assert (∀ k, l ++ owned_schemas (dn ++ (p, s) :: k) = (l ++ owned_schemas dn) ++ w :: owned_schemas k) as Hsh.
  { intros k. unfold owned_schemas. by rewrite map_app, app_assoc. }
  pose proof (register_spec _ r w Hr) as Hs. destruct (Register r w) as [r'|e].
  - destruct Hs as [Hs Hu]. change [w] with (w :: owned_schemas []) in Hs. rewrite <- Hsh in Hs.
    assert (owners_inv (dn ++ [(p, s)]) (<[s_Name w := p_name p]> owners)) as Ho'.
    { intros o [Hin|Hin%list_elem_of_singleton]%elem_of_app; [|subst o; by rewrite lookup_insert_eq].
      rewrite lookup_insert_ne; [by apply Ho|]. intros Heq. destruct Hs as [Hnd _].
      rewrite Hsh, fmap_app in Hnd. apply NoDup_app in Hnd as (_ & Hd & _).
      apply (Hd (s_Name w)); [|left]. rewrite Heq, fmap_app. apply elem_of_app. right.
      apply list_elem_of_fmap_2. unfold owned_schemas.
      by apply (list_elem_of_fmap_2 (λ o, widenRoutingKeys o.2)). }
    destruct (IH _ _ _ errs Hs Ho') as [H1 H2]. rewrite <- app_assoc in H1, H2. simpl in *.
    split; [done|]. intros Hnil. destruct (H2 Hnil) as (? & ? & ->). done.
  - destruct (IH dn r owners (errs ++ [ErrDuplicateDirective e]) Hr Ho) as [H1 _].
    assert ((foldl (λ st o, register_owned o.1 st o.2)
      (r, owners, errs ++ [ErrDuplicateDirective e]) os).2 ≠ []) as Hne
      by (rewrite H1; intros [? _]; by destruct errs).
    split; [|done]. split; [done|]. intros [_ Hnd]. rewrite Hsh in Hnd.
    by apply NoDup_names_snoc in Hnd.
Qed.

(** Every schema the build registers, in registration order. *)
Definition all_schemas (b : Builder) : list Schema :=
  coreDirectives ++ directives b ++ owned_schemas (owned (allPlugins b)).

Lemma register_core_spec ss l r :
  reg_inv l r → NoDup (s_Name <$> l ++ ss) →
  reg_inv (l ++ ss) (foldl register_core r ss) ∧ unclaimed (foldl register_core r ss) = unclaimed r.
Proof.
  revert l r. induction ss as [|s ss IH]; intros l r Hr Hnd; simpl; [by rewrite app_nil_r|].
  unfold register_core at 2 4. pose proof (register_spec l r s Hr) as Hs.
  destruct (Register r s) as [r'|e]; [|by apply NoDup_names_snoc in Hnd].
  destruct Hs as [Hs <-]. rewrite (cons_middle s l ss), app_assoc in Hnd |- *. by apply IH.
Qed.

Lemma core_names : s_Name <$> coreDirectives = ["out"; "meta"; "value"].
Proof. reflexivity. Qed.

Lemma core_inv u :
  reg_inv coreDirectives (foldl register_core (MkRegistry ∅ u) coreDirectives) ∧
  unclaimed (foldl register_core (MkRegistry ∅ u) coreDirectives) = u.
Proof.
  apply (register_core_spec coreDirectives []).
  - split; [constructor|]. intros n s. simpl. rewrite lookup_empty. set_solver.
  - simpl app. rewrite core_names. refine (bool_decide_eq_true_1 (NoDup _) _). reflexivity.
Qed.

Lemma registry_spec b :
  let st := buildDirectiveRegistry b in
  (st.2 = [] ↔ NoDup (s_Name <$> all_schemas b)) ∧
  (st.2 = [] → reg_inv (all_schemas b) st.1.1 ∧ owners_inv (owned (allPlugins b)) st.1.2 ∧
               unclaimed st.1.1 = unclaimedDirectives b).
Proof.
  intros st. subst st. unfold buildDirectiveRegistry.
  set (r0 := if unclaimedDirectives b then AllowUnclaimed NewRegistry else NewRegistry).
  assert (r0 = MkRegistry ∅ (unclaimedDirectives b)) as -> by by unfold r0; destruct (unclaimedDirectives b).
  destruct (core_inv (unclaimedDirectives b)) as [Hc Hu].
  set (rc := foldl register_core _ _) in *.
  destruct (register_manual_spec (directives b) coreDirectives rc [] Hc) as [H1 H2].
  destruct (foldl register_manual (rc, []) (directives b)) as [rm em]. simpl in H1, H2.
  rewrite register_plugins_flat.
  destruct em as [|e em].
  - destruct (H2 eq_refl) as [Hm Hum].
    destruct (register_owned_spec (owned (allPlugins b)) (coreDirectives ++ directives b) [] rm ∅ [])
      as [H3 H4]; [by rewrite app_nil_r|intros o Ho; by apply elem_of_nil in Ho|].
    rewrite <- app_assoc in H3, H4. simpl in H3, H4. fold (all_schemas b) in *.
    unfold all_schemas. split; [naive_solver|]. intros Hnil. destruct (H4 Hnil) as (? & ? & Hun).
    split_and!; auto. by rewrite Hun, Hum.
  - assert (∀ os r ow es, es ≠ [] →
      (foldl (λ st o, register_owned o.1 st o.2) (r, ow, es) os).2 ≠ []) as Hne.
    { clear. induction os as [|[p s] os IH]; intros r ow es Hne; simpl; [done|].
      destruct (Register r (widenRoutingKeys s)); apply IH; [done|]. by destruct es. }
    split; [|intros H; by apply Hne in H]. split; [intros H; by apply Hne in H|].
    intros Hnd. unfold all_schemas in Hnd. rewrite app_assoc, fmap_app in Hnd.
    apply NoDup_app in Hnd as (Hnd & _ & _). by discriminate (proj2 H1 (conj eq_refl Hnd)).
Qed.

(** ** Prefix, versions, outputs *)












(** ** What [Build] accepts *)



Section Accepts.
Context `{MapOrder}.


Definition post_errors (b : Builder) : list BuildError :=
  res_errors (resolvePlan b) ++ (buildDirectiveRegistry b).2 ++
  res_error (buildDirectiveParser b) ++ validateEmitVersions b ++ validateOutputs b.


(** A failed plan always carries an error. *)
Lemma res_errors_nil b : res_errors (resolvePlan b) = [] ↔ ∃ pl, resolvePlan b = Ok pl.
Proof.
  unfold resolvePlan.
  destruct (resolvePhase (annotators b)) as [[a abs]|e], (resolvePhase (generators b)) as [[g gbs]|e'];
    simpl; try naive_solver.
  destruct (validateTemplateFuncs _ _) as [|x l]; simpl; naive_solver.
Qed.


Context (digest12 : string → string) (error_text : BuildError → string).

(** The three outcomes of [Build]. *)
Lemma build_cases b :
  let sk := default New (diag_ b) in
  let r := Build digest12 error_text b in
  (structural_errors b ≠ [] ∧
     r = (Err (structural_errors b), emitErrors error_text sk (structural_errors b))) ∨
  (structural_errors b = [] ∧ post_errors b ≠ [] ∧
     r = (Err (post_errors b), emitErrors error_text sk (post_errors b))) ∨
  (structural_errors b = [] ∧ post_errors b = [] ∧ ∃ pl parser,
     resolvePlan b = Ok pl ∧ buildDirectiveParser b = Ok parser ∧
     r = (Ok (MkPipeline (backend0 b) (resolvePipelineID digest12 b)
                (resolveLayoutPolicies b).1.1 (resolveLayoutPolicies b).1.2 (resolveLayoutPolicies b).2
                pl (buildDirectiveRegistry b).1.1 parser (buildDirectiveRegistry b).1.2), sk)).
Proof.
  unfold Build. destruct (structural_errors b) as [|e es] eqn:Hs; [|by left].
  right. unfold post_errors. pose proof (res_errors_nil b) as Hpl. simpl.
  destruct (buildDirectiveRegistry b) as [[reg own] regErrs], (resolveLayoutPolicies b) as [[dp pp] tp].
  destruct (resolvePlan b) as [pl|pes].
  - destruct (buildDirectiveParser b) as [parser|pe].
    + destruct (res_errors (Ok pl) ++ regErrs ++ res_error (Ok parser) ++ validateEmitVersions b ++
        validateOutputs b) as [|x l] eqn:Hl; simpl in Hl |- *; rewrite Hl; simpl; [right|left]; eauto 10.
    + left. simpl. split; [done|]. split; [|done]. by destruct regErrs.
  - left. split; [done|]. split; [|done]. destruct pes; [|done]. exfalso.
    destruct (proj1 Hpl eq_refl) as [? ?]. done.
Qed.


Lemma fold_errorf sk l :
  discard sk = false →
  diags (emitErrors error_text sk l) =
  diags sk ++ map (λ e, MkDiag Error "pipeline" zero_pos (Sprintf "%s" [AStr (error_text e)]) "") l.
Proof.
  unfold emitErrors. revert sk. induction l as [|e l IH]; intros sk Hd; simpl; [by rewrite app_nil_r|].
  rewrite IH; unfold Errorf, Append; rewrite Hd; simpl; [|done]. by rewrite <- app_assoc.
Qed.

(** A build either succeeds and leaves the diagnostic sink as it was, or
    fails with at least one error and appends one [Error] diagnostic of the
    pipeline per error, in order. *)
Theorem build_reports_every_error b :
  let sk := default New (diag_ b) in
  discard sk = false →
  match Build digest12 error_text b with
  | (Ok _, sk') => sk' = sk
  | (Err es, sk') =>
      es ≠ [] ∧ diags sk' = diags sk ++
        map (λ e, MkDiag Error "pipeline" zero_pos (Sprintf "%s" [AStr (error_text e)]) "") es
  end.
Proof.
  intros sk Hd. destruct (build_cases b) as [(Hs & ->)|[(Hs & Hp & ->)|(Hs & Hp & pl & pr & _ & _ & ->)]].
  - split; [done|]. by apply fold_errorf.
  - split; [done|]. by apply fold_errorf.
  - done.
Qed.

(** The registry of a successful build holds exactly the core directives,
    the schemas given to the builder, and every plugin's schemas widened by the
    routing keys; the core directives keep the framework's schema whatever
    plugins declare, each plugin directive is owned by the plugin that declares
    it, and unclaimed directives are tolerated exactly when asked for. *)
Theorem build_registry_contents b p :
  (Build digest12 error_text b).1 = Ok p →
  (∀ n s, LookupSchema (pp_registry p) n = Some s ↔ s ∈ all_schemas b ∧ s_Name s = n) ∧
  Forall (λ s, LookupSchema (pp_registry p) (s_Name s) = Some s) coreDirectives ∧
  (∀ q s, (q, s) ∈ owned (allPlugins b) →
     pp_directiveOwners p !! s_Name (widenRoutingKeys s) = Some (p_name q)) ∧
  UnclaimedAllowed (pp_registry p) = unclaimedDirectives b.
Proof.
  destruct (build_cases b) as [(_ & ->)|[(_ & _ & ->)|(_ & Hp & pl & parser & _ & _ & ->)]]; try done.
  simpl. intros [= <-]. simpl. unfold post_errors in Hp. rewrite !app_nil in Hp.
  destruct Hp as (_ & Hreg & _). destruct (registry_spec b) as [_ Hr].
  destruct (Hr Hreg) as ([_ Hl] & Ho & Hu). split_and!.
  - intros n s. apply Hl.
  - apply Forall_forall. intros s Hs. apply Hl. split; [|done]. apply elem_of_app. by left.
  - intros q s Hq. apply (Ho (q, s) Hq).
  - done.
Qed.
End Accepts.

(** ** Layout precedence *)

Inductive field := FLayout | FPackage | FDir.

Definition policy_field (f : field) (p : LayoutPolicy) : string * Layer :=
  match f with
  | FLayout => (Layout p, LayoutFrom p)
  | FPackage => (Package p, PackageFrom p)
  | FDir => (Dir p, DirFrom p)
  end.
Definition over_field (f : field) (o : layoutOverride) : string :=
  match f with FLayout => ov_Layout o | FPackage => ov_Package o | FDir => ov_Dir o end.
Definition cli_field (f : field) (b : Builder) : string :=
  match f with FLayout => outputLayout b | FPackage => outputPackage b | FDir => outputDir b end.
Definition project_field (f : field) (b : Builder) : string :=
  match f with FLayout => projectLayout b | FPackage => projectPackage b | FDir => projectDir b end.
(** The per-plugin configuration of a plugin; the empty name has none. *)
Definition plugin_field (f : field) (b : Builder) (name : string) : string :=
  if String.eqb name "" then ""
  else match pluginOutputs b !! name with Some o => over_field f o | None => "" end.
Definition framework_field (f : field) : string * Layer :=
  (match f with FLayout => "alongside-source" | _ => "" end, LayerFramework).

(** The first layer, highest first, that sets the field. *)
Fixpoint first_set (layers : list (string * Layer)) (dflt : string * Layer) : string * Layer :=
  match layers with
  | [] => dflt
  | (v, l) :: layers => if String.eqb v "" then first_set layers dflt else (v, l)
  end.

Lemma apply_layer_field f x y z l p :
  policy_field f (apply_layer x y z l p) =
  override_field (match f with FLayout => x | FPackage => y | FDir => z end) l (policy_field f p).
Proof.
  unfold apply_layer, override_field.
  by destruct f, (String.eqb x "") eqn:Hx, (String.eqb y "") eqn:Hy, (String.eqb z "") eqn:Hz;
    simpl; rewrite ?Hx, ?Hy, ?Hz.
Qed.

Lemma base_field f b :
  policy_field f (mergedBasePolicy b) = first_set [(project_field f b, LayerProject)] (framework_field f).
Proof. unfold mergedBasePolicy. rewrite apply_layer_field. by destruct f. Qed.

Lemma cli_layer_field f b p :
  policy_field f (apply_cli b p) = override_field (cli_field f b) LayerCLI (policy_field f p).
Proof. unfold apply_cli. rewrite apply_layer_field. by destruct f. Qed.

Lemma plugin_layer_field f b name :
  policy_field f (applyPerPluginAndCLI b (mergedBasePolicy b) name) =
  first_set [(cli_field f b, LayerCLI); (plugin_field f b name, LayerPerPlugin);
             (project_field f b, LayerProject)] (framework_field f).
Proof.
  unfold applyPerPluginAndCLI. rewrite cli_layer_field. unfold plugin_field, override_field. simpl.
  destruct (String.eqb (cli_field f b) ""); [|done].
  destruct (String.eqb name ""); simpl; [by rewrite base_field|].
  destruct (pluginOutputs b !! name) as [o|]; simpl; [|by rewrite base_field].
  rewrite apply_layer_field. unfold override_field. rewrite base_field. by destruct f.
Qed.

Lemma tag_layer_field f b key o :
  pluginTagOutputs b !! key = Some o →
  policy_field f (applyPerTagOverride b (applyPerPluginAndCLI b (mergedBasePolicy b) key.1) key) =
  first_set [(cli_field f b, LayerCLI); (over_field f o, LayerPerPlugin);
             (plugin_field f b key.1, LayerPerPlugin); (project_field f b, LayerProject)]
            (framework_field f).
Proof.
  intros Ho. unfold applyPerTagOverride. rewrite Ho, cli_layer_field, apply_layer_field, plugin_layer_field.
  unfold override_field. simpl. destruct (String.eqb (cli_field f b) ""); [|done].
  by destruct f.
Qed.

Lemma fold_policies b base ps m n :
  (foldl (λ m p, <[p_name p := applyPerPluginAndCLI b base (p_name p)]> m) m ps
     : gmap string LayoutPolicy) !! n =
  if decide (n ∈ p_name <$> ps) then Some (applyPerPluginAndCLI b base n) else m !! n.
Proof.
  revert m. induction ps as [|p ps IH]; intros m; simpl; [done|].
  rewrite IH. destruct (decide (n ∈ p_name <$> ps)) as [Hin|Hnin].
  - by rewrite decide_True by (by right).
  - destruct (decide (n = p_name p)) as [->|Hne].
    + by rewrite lookup_insert_eq, decide_True by left.
    + by rewrite lookup_insert_ne, decide_False by set_solver.
Qed.

(** C13: The layout policies a build pins follow the documented precedence field
    by field, with the layer each value came from: command line, then per-tag
    configuration (for a tag), then per-plugin, then project, then the
    framework default; an unset value never hides a lower layer.  Every
    registered plugin has a policy, every configured tag has one, and nothing
    else has. *)
Theorem layout_precedence b :
  let '(dflt, plugins, tags) := resolveLayoutPolicies b in
  (∀ f, policy_field f dflt =
     first_set [(cli_field f b, LayerCLI); (project_field f b, LayerProject)] (framework_field f)) ∧
  (∀ n, match plugins !! n with
        | Some p => n ∈ p_name <$> concat (roles b) ∧ ∀ f, policy_field f p =
            first_set [(cli_field f b, LayerCLI); (plugin_field f b n, LayerPerPlugin);
                       (project_field f b, LayerProject)] (framework_field f)
        | None => n ∉ p_name <$> concat (roles b)
        end) ∧
  (∀ key, match tags !! key, pluginTagOutputs b !! key with
          | Some p, Some o => ∀ f, policy_field f p =
              first_set [(cli_field f b, LayerCLI); (over_field f o, LayerPerPlugin);
                         (plugin_field f b key.1, LayerPerPlugin);
                         (project_field f b, LayerProject)] (framework_field f)
          | None, None => True
          | _, _ => False
          end).
Proof.
  unfold resolveLayoutPolicies. split_and!.
  - intros f. rewrite plugin_layer_field. unfold plugin_field. simpl. done.
  - intros n. rewrite fold_policies, lookup_empty.
    destruct (decide (n ∈ p_name <$> concat (roles b))) as [Hin|Hin]; [|done].
    split; [done|]. intros f. apply plugin_layer_field.
  - intros key. rewrite map_lookup_imap, fold_policies, lookup_empty.
    destruct (pluginTagOutputs b !! key) as [o|] eqn:Ho; [|done]. cbn [mbind option_bind].
    intros f. destruct (decide (key.1 ∈ p_name <$> concat (roles b))); by apply tag_layer_field.
Qed.

(** ** Routing keys *)

(** The key test of the validator. *)
Definition accepts_key (s : Schema) (k : string) : Prop :=
  DenyKeys s = false ∧ (AllowedKeys s = [] ∨ k ∈ AllowedKeys s).

Lemma set_keys_allowed s ks dk : AllowedKeys (set_keys s ks dk) = ks ∧ DenyKeys (set_keys s ks dk) = dk.
Proof. by destruct s. Qed.

Lemma widen_fold ks s k :
  AllowedKeys s ≠ [] →
  let s' := foldl (λ s k, if contains (AllowedKeys s) k then s
                          else set_keys s (AllowedKeys s ++ [k]) (DenyKeys s)) s ks in
  DenyKeys s' = DenyKeys s ∧ AllowedKeys s' ≠ [] ∧
  (k ∈ AllowedKeys s' ↔ k ∈ AllowedKeys s ∨ k ∈ ks).
Proof.
  revert s. induction ks as [|k0 ks IH]; intros s Hs; cbn [foldl]; [set_solver|].
  destruct (contains (AllowedKeys s) k0) eqn:Hk; unfold contains in Hk.
  - apply bool_decide_eq_true in Hk. destruct (IH s Hs) as (H1 & H2 & H3).
    split_and!; [done|done|]. rewrite H3, elem_of_cons. naive_solver.
  - destruct (set_keys_allowed s (AllowedKeys s ++ [k0]) (DenyKeys s)) as [Ha Hd].
    destruct (IH (set_keys s (AllowedKeys s ++ [k0]) (DenyKeys s))) as (H1 & H2 & H3).
    { rewrite Ha. by destruct (AllowedKeys s). }
    split_and!; [by rewrite H1, Hd|done|]. rewrite H3, Ha. set_solver.
Qed.

(** Widening a plugin's directive schema adds the routing keys and nothing
    else: the widened schema accepts a key exactly when the declared one does
    or when it is one of [out], [pkg], [tag]; so no plugin-owned directive
    rejects a key that the layout phase honours, not even one that denied all
    keys. *)
Theorem widen_adds_exactly_routing_keys s k :
  accepts_key (widenRoutingKeys s) k ↔ accepts_key s k ∨ k ∈ ["out"; "pkg"; "tag"].
Proof.
  unfold accepts_key, widenRoutingKeys. destruct (DenyKeys s) eqn:Hd.
  - destruct (set_keys_allowed s RoutingKeys false) as [-> ->]. unfold RoutingKeys. naive_solver.
  - destruct (AllowedKeys s) as [|a l] eqn:Ha; cbn [length Nat.eqb].
    + rewrite Hd, Ha. naive_solver.
    + destruct (widen_fold RoutingKeys s k) as (H1 & H2 & H3); [by rewrite Ha|].
      rewrite H1, Hd, H3, Ha. unfold RoutingKeys. naive_solver.
Qed.

(** The [out] directive is accepted without its path: its description calls
    the positional path required, but the slot is declared optional. *)
Theorem out_directive_accepts_no_path :
  let r := foldl register_core NewRegistry coreDirectives in
  let d := MkDirective "out" false [] ∅ "out" zero_pos in
  (Validate (For "pipeline") New [d] "struct" r).1.2 = true.
Proof. vm_compute. reflexivity. Qed.

(** ** A concrete builder *)

Definition mock_plugin : Plugin :=
  MkPlugin 3 true "mock" (Some 300%Z) (Some []) (Some ["shape"]) false None false
    (Some (λ kv, if decide (kv = ∅) then None else Some "unknown option"))
    (Some [Builder.DenyKeys (Builder.NewSchema "mock")]) (Some ["1"])
    (Some (λ _, [MkOutput "" "_mock.go"; MkOutput "test" "_mock_test.go"])) "".

Definition sample_builder (opts : gmap string (gmap string string)) : Builder :=
  MkBuilder [plain_plugin 1 "go"] [plain_plugin 2 "shape"] [mock_plugin] [plain_plugin 4 "backend"]
    [Builder.NewSchema "doc"] "" false None "" opts "" "" "" "" "" "" ∅ ∅.

Lemma build_registry_contents_witness :
  ∃ p, (Build (λ s, s) (λ _, "error") (sample_builder ∅)).1 = Ok p ∧
    LookupSchema (pp_registry p) "doc" = Some (Builder.NewSchema "doc") ∧
    UnclaimedAllowed (pp_registry p) = false.
Proof.
  destruct ((Build (λ s, s) (λ _, "error") (sample_builder ∅)).1) as [p|es] eqn:E.
  - exists p. split; [reflexivity|].
    destruct (build_registry_contents (λ s, s) (λ _, "error") (sample_builder ∅) p E)
      as (Hl & _ & _ & Hu).
    split; [|exact Hu]. apply Hl. split; [|reflexivity].
    unfold all_schemas. rewrite !elem_of_app. right. left. left.
  - exfalso. assert (is_ok (Build (λ s, s) (λ _, "error") (sample_builder ∅)).1 = true) as Hok
      by (vm_compute; reflexivity).
    rewrite E in Hok. discriminate Hok.
Defined.

Lemma build_reports_every_error_witness :
  let b := sample_builder {["mock" := {["mode" := "x"]}]} in
  match Build (λ s, s) (λ _, "error") b with
  | (Ok _, _) => False
  | (Err es, sk') => es = [ErrInvalidOptions "mock" "unknown option"] ∧ length (diags sk') = 1
  end.
Proof.
  intros b. pose proof (build_reports_every_error (λ s, s) (λ _, "error") b eq_refl) as H.
  destruct (Build (λ s, s) (λ _, "error") b) as [r sk'] eqn:E.
  assert (r = (Build (λ s, s) (λ _, "error") b).1) as Hr by (rewrite E; reflexivity).
  assert (r = Err [ErrInvalidOptions "mock" "unknown option"]) as ->
    by (rewrite Hr; vm_compute; reflexivity).
  destruct H as [_ H]. split; [reflexivity|]. rewrite H. reflexivity.
Defined.

Example gap_is_rejected :
  let p := MkPlugin 9 true "half" (Some 100%Z) None None false None false None None None None "" in
  map g_Missing (Gaps p) = [["Provides"; "Requires"]].
Proof. reflexivity. Qed.
