(* ===== verification/FilePath.v ===== *)
(** * Paths and files

    The part of [path/filepath] and [os] the sinks, the manifest and the prune
    command use, on Unix: [IsAbs], [Clean], [Join], and a file system with
    [Stat], [ReadFile], [WriteFile], [Rename] and [Remove].

    A file system maps the path strings the program computes to what is there;
    two different strings name two different files (no links, and a relative
    path is relative to one fixed working directory).  Failures that depend on
    permissions or devices are an argument, so theorems hold for all of them. *)

From S2P Require Import Prelude GoStrings.

Local Open Scope string_scope.
Local Open Scope nat_scope.
Local Open Scope list_scope.

(** ** [path/filepath] *)

Definition IsAbs (p : string) : bool := has_prefix p "/".

(** One path element: [""] and ["."] vanish, [".."] takes back the element
    before it; [out] is the result so far, last element first. *)
Definition clean_step (rooted : bool) (out : list string) (seg : string) : list string :=
  if String.eqb seg "" || String.eqb seg "." then out
  else if String.eqb seg ".." then
    match out with
    | [] => if rooted then [] else [".."]
    | x :: out' => if String.eqb x ".." then ".." :: out else out'
    end
  else seg :: out.

Definition clean_segments (p : string) : list string :=
  foldl (clean_step (IsAbs p)) [] (split_byte p "/").

Definition Clean (p : string) : string :=
  let body := str_join "/" (reverse (clean_segments p)) in
  if IsAbs p then "/" +:+ body
  else if String.eqb body "" then "." else body.

(** [Join] drops leading empty elements and cleans the rest. *)
Fixpoint Join (elems : list string) : string :=
  match elems with
  | [] => ""
  | e :: rest => if String.eqb e "" then Join rest else Clean (str_join "/" elems)
  end.

(** [Dir] *)
Definition path_dir (p : string) : string :=
  match last_index_byte p "/" with
  | Some i => Clean (str_take (S i) p)
  | None => Clean ""
  end.

(** [Base] *)
Definition Base (p : string) : string :=
  if String.eqb p "" then "."
  else
    let p := trim_right (Ascii.eqb "/") p in
    let p := match last_index_byte p "/" with Some i => str_drop (S i) p | None => p end in
    if String.eqb p "" then "/" else p.

(** [Ext] of a name without separator. *)
Definition Ext (base : string) : string :=
  match last_index_byte base "." with Some i => str_drop i base | None => "" end.

(** [Rel] towards an absolute path; [None] is its error. *)
Fixpoint strip_common (b t : list string) : list string * list string :=
  match b, t with
  | x :: b', y :: t' => if String.eqb x y then strip_common b' t' else (b, t)
  | _, _ => (b, t)
  end.
Definition Rel_abs (base targ : string) : option string :=
  if negb (IsAbs base) then None
  else
    let '(b, t) := strip_common (reverse (clean_segments base)) (reverse (clean_segments targ)) in
    let rel := str_join "/" (map (λ _, "..") b ++ t) in
    Some (if String.eqb rel "" then "." else rel).

(** [path.Split] *)
Definition path_Split (p : string) : string * string :=
  match last_index_byte p "/" with
  | Some i => (str_take (S i) p, str_drop (S i) p)
  | None => ("", p)
  end.

(** ** [os] *)

(** What a path names: a regular file that can be read, or something else
    that exists (a directory, or a file that cannot be opened or read). *)
Inductive entry := File (body : string) | Opaque.
#[global] Instance entry_eq_dec : EqDecision entry.
Proof. solve_decision. Defined.

Abbreviation files := (gmap string entry).

(** [errors.Is(err, os.ErrNotExist)] for the error of [os.Stat]. *)
Definition not_exist (fs : files) (path : string) : bool := bool_decide (fs !! path = None).

Definition read_file (fs : files) (path : string) : option string :=
  match fs !! path with Some (File body) => Some body | _ => None end.

(** Which operations the system refuses.  A write that is refused may have been
    under way: [written] is how many bytes reached the file, [None] when it was
    not opened. *)
Record refusals := MkRefusals {
  no_mkdir : string → bool;
  no_write : string → bool;
  written : string → option nat;
  no_rename : string → bool;
  no_remove : string → bool;
}.
Definition permissive : refusals :=
  MkRefusals (λ _, false) (λ _, false) (λ _, None) (λ _, false) (λ _, false).

(** [os.Remove]: the new file system and whether it failed with an error
    other than "does not exist". *)
Definition remove (w : refusals) (fs : files) (path : string) : bool * files :=
  match fs !! path with
  | None => (false, fs)
  | Some _ => if no_remove w path then (true, fs) else (false, delete path fs)
  end.

(** The states of the file system while a file grows to [n] bytes of [body]. *)
Definition growing (fs : files) (path body : string) (n : nat) : list files :=
  (λ k, <[path := File (str_take k body)]> fs) <$> seq 0 (S n).

(** [os.WriteFile]: whether it succeeded and the states it goes through, the
    last of which it leaves. *)
Definition write_file (w : refusals) (fs : files) (path body : string) : bool * list files :=
  if no_write w path
  then (false, match written w path with None => [fs] | Some n => growing fs path body (n `min` String.length body) end)
  else (true, growing fs path body (String.length body)).

(** [os.Rename] *)
Definition rename (fs : files) (old new : string) : files :=
  match fs !! old with Some e => <[new := e]> (delete old fs) | None => fs end.

(** Writing through a temporary sibling and renaming it over the path, as
    [Disk.Write] and the cache both do: the result, and every state the file
    system goes through. *)
Inductive WriteFault := FaultMkdir (dir : string) | FaultWrite (tmp : string) | FaultRename (tmp full : string).

Definition tempSuffix : string := ".eidos.tmp".

Definition last_state (fs : files) (states : list files) : files := default fs (last states).

Definition atomic_run (w : refusals) (fs : files) (dir full body : string)
    : res WriteFault unit * list files :=
  let tmp := full +:+ tempSuffix in
  if no_mkdir w dir then (Err (FaultMkdir dir), [fs])
  else
    let '(ok, states) := write_file w fs tmp body in
    let fs1 := last_state fs states in
    if negb ok then (Err (FaultWrite tmp), states ++ [(remove w fs1 tmp).2])
    else if no_rename w full then (Err (FaultRename tmp full), states ++ [(remove w fs1 tmp).2])
    else (Ok tt, states ++ [rename fs1 tmp full]).

Definition atomic_write (w : refusals) (fs : files) (dir full body : string)
    : res WriteFault unit * files :=
  let '(r, states) := atomic_run w fs dir full body in (r, last_state fs states).

(** ** Examples *)

Example Clean_examples :
  (Clean "", Clean "a//b/./c/../d", Clean "/../a", Clean "../../a/..", Clean "/", Clean "a/") =
  (".", "a/b/d", "/a", "../..", "/", "a").
Proof. reflexivity. Qed.

Example Join_examples :
  (Join ["/w"; "internal/repo"; "x_gen.go"], Join [""; ""; "x"], Join ["/w"; "/abs"; "x"], Join [""; ""]) =
  ("/w/internal/repo/x_gen.go", "x", "/w/abs/x", "").
Proof. reflexivity. Qed.

Example path_examples :
  (Base "a/b.go", Base "/", Ext "user.pb.go", path_dir "a/b/c.go", path_dir "c.go") =
    ("b.go", "/", ".go", "a/b", ".") ∧
  (Rel_abs "/w" "/w/a/b", Rel_abs "/w/x" "/w/a", Rel_abs "/w" "/w", Rel_abs "w" "/w") =
    (Some "a/b", Some "../a", Some ".", None).
Proof. by split; vm_compute. Qed.

(** ** Joining in two steps *)

Lemma split_byte_nonempty s c : split_byte s c ≠ [].
Proof. induction s as [|a s IH]; simpl; [done|]. destruct (Ascii.eqb a c); [done|]. by destruct (split_byte s c). Qed.

Lemma split_byte_app s t c : split_byte (s +:+ String c t) c = split_byte s c ++ split_byte t c.
Proof.
  induction s as [|a s IH]; simpl; [by rewrite Ascii.eqb_refl|].
  rewrite IH. destruct (Ascii.eqb a c); [done|].
  destruct (split_byte s c) eqn:E; [by apply split_byte_nonempty in E|done].
Qed.

(** A string without the separator is one field. *)
Definition no_byte (c : ascii) (s : string) : Prop := split_byte s c = [s].

Lemma split_byte_fields s c : Forall (no_byte c) (split_byte s c).
Proof.
  unfold no_byte. induction s as [|a s IH]; simpl; [by repeat constructor|].
  destruct (Ascii.eqb a c) eqn:Ea; [by constructor|].
  destruct (split_byte s c) as [|w ws]; [constructor; [simpl; by rewrite Ea|done]|].
  inversion IH as [|? ? Hw Hws]; subst. constructor; [|done]. simpl. by rewrite Ea, Hw.
Qed.

Lemma split_join l c :
  l ≠ [] → Forall (no_byte c) l → split_byte (str_join (String c "") l) c = l.
Proof.
  intros Hne Hl. induction Hl as [|w l Hw Hl IH]; [done|].
  destruct l as [|w' l]; [done|].
  change (str_join (String c "") (w :: w' :: l)) with (w +:+ String c (str_join (String c "") (w' :: l))).
  rewrite split_byte_app, Hw, IH by done. done.
Qed.

(** What survives cleaning: a proper name, or a leading [".."]. *)
Lemma clean_step_elems r out seg :
  no_byte "/" seg → Forall (λ x, no_byte "/" x ∧ x ≠ "" ∧ x ≠ ".") out →
  Forall (λ x, no_byte "/" x ∧ x ≠ "" ∧ x ≠ ".") (clean_step r out seg).
Proof.
  intros Hs Hout. unfold clean_step.
  destruct (String.eqb_spec seg ""); [done|]. destruct (String.eqb_spec seg "."); [done|]. simpl.
  destruct (String.eqb_spec seg ".."); [|by constructor].
  destruct Hout as [|x out Hx Hout]; [destruct r; [constructor|by apply Forall_singleton]|].
  destruct (String.eqb x ".."); [|done]. by do 2 (constructor; [done|]).
Qed.

Lemma clean_segments_elems p :
  Forall (λ x, no_byte "/" x ∧ x ≠ "" ∧ x ≠ ".") (clean_segments p).
Proof.
  unfold clean_segments. pose proof (split_byte_fields p "/") as Hs. revert Hs.
  generalize (split_byte p "/"). intros l. induction l as [|s l IH] using rev_ind; [intros _; constructor|].
  intros [Hl Hs]%Forall_app. apply (proj1 (Forall_singleton _ _)) in Hs.
  rewrite foldl_snoc. apply clean_step_elems; auto.
Qed.

Lemma clean_step_name r out x :
  x ≠ "" → x ≠ "." → x ≠ ".." → clean_step r out x = x :: out.
Proof. intros ???. unfold clean_step. by rewrite !(proj2 (String.eqb_neq _ _)). Qed.

(** Cleaning a relative path first does not change what it is appended to. *)
Lemma clean_absorb r out segs :
  Forall (no_byte "/") segs →
  foldl (clean_step r) out (reverse (foldl (clean_step false) [] segs)) = foldl (clean_step r) out segs.
Proof.
  intros Hsegs.
  assert (Forall (λ x, no_byte "/" x ∧ x ≠ "" ∧ x ≠ ".") (foldl (clean_step false) [] segs) ∧
    foldl (clean_step r) out (reverse (foldl (clean_step false) [] segs)) = foldl (clean_step r) out segs)
    as [_ H]; [|done].
  induction segs as [|s l IH] using rev_ind; [by split|].
  apply Forall_app in Hsegs as [Hl Hs]. apply (proj1 (Forall_singleton _ _)) in Hs. destruct (IH Hl) as [He Heq]. clear IH.
  rewrite !foldl_snoc. split; [by apply clean_step_elems|]. rewrite <- Heq. clear Heq.
  destruct (decide (s = "")) as [->|H1]; [done|]. destruct (decide (s = ".")) as [->|H2]; [done|].
  destruct (decide (s = "..")) as [->|H3].
  - set (acc := foldl _ _ _) in *. destruct He as [|x acc' (_ & Hx1 & Hx2) He]; [done|].
    change (clean_step false (x :: acc') "..") with (if String.eqb x ".." then ".." :: x :: acc' else acc').
    destruct (String.eqb_spec x "..") as [->|Hx3].
    + by rewrite (reverse_cons (".." :: acc')), foldl_snoc.
    + rewrite reverse_cons, foldl_snoc, (clean_step_name r _ x) by done.
      set (rest := foldl _ _ _).
      change (clean_step r (x :: rest) "..") with (if String.eqb x ".." then ".." :: x :: rest else rest).
      by rewrite (proj2 (String.eqb_neq x "..")).
  - rewrite clean_step_name by done. by rewrite reverse_cons, foldl_snoc.
Qed.

Lemma IsAbs_app root s : root ≠ "" → IsAbs (root +:+ s) = IsAbs root.
Proof.
  destruct root as [|a root]; [done|]. intros _. unfold IsAbs, has_prefix.
  cbn [String.prefix String.append]. destruct (ascii_dec "/" a); [|done]. by destruct (root +:+ s), root.
Qed.

Lemma str_join_nonempty_elems l :
  Forall (λ x : string, x ≠ "") l → str_join "/" l = "" → l = [].
Proof. intros Hl. destruct Hl as [|x l Hx Hl]; [done|]. simpl. destruct x; [done|]. by destruct l. Qed.

Lemma split_Clean_rel p r out :
  IsAbs p = false →
  foldl (clean_step r) out (split_byte (Clean p) "/") = foldl (clean_step r) out (split_byte p "/").
Proof.
  intros Hp. unfold Clean. rewrite Hp. rewrite <- (clean_absorb r out (split_byte p "/")) by apply split_byte_fields.
  pose proof (clean_segments_elems p) as He. unfold clean_segments in *. rewrite Hp in *.
  set (segs := foldl (clean_step false) [] (split_byte p "/")) in *.
  assert (Forall (λ x, no_byte "/" x ∧ x ≠ "" ∧ x ≠ ".") (reverse segs)) as He' by by apply Forall_reverse.
  destruct (String.eqb_spec (str_join "/" (reverse segs)) "") as [Hj|Hj].
  - apply str_join_nonempty_elems in Hj; [by rewrite Hj|].
    eapply Forall_impl; [exact He'|]. naive_solver.
  - rewrite split_join; [done| |eapply Forall_impl; [exact He'|]; naive_solver].
    intros E. by rewrite E in Hj.
Qed.

Lemma Clean_nested root p :
  root ≠ "" → IsAbs p = false → Clean (root +:+ String "/" (Clean p)) = Clean (root +:+ String "/" p).
Proof.
  intros Hr Hp. unfold Clean at 1 3, clean_segments. rewrite !IsAbs_app by done.
  rewrite !split_byte_app, !foldl_app, split_Clean_rel by done. done.
Qed.

Lemma Clean_nonempty p : Clean p ≠ "".
Proof. unfold Clean. destruct (IsAbs p); [done|]. by destruct (String.eqb_spec (str_join "/" (reverse (clean_segments p))) ""). Qed.

(** Joining the relative pieces first, as [onDisk] does, names the same path
    as joining all three at once, as the disk sink and [prune] do. *)
Lemma Join_nested root d f :
  root ≠ "" → IsAbs d = false → IsAbs f = false → f ≠ "" →
  Join [root; Join [d; f]] = Join [root; d; f].
Proof.
  intros Hr Hd Hf Hne. unfold Join at 1 3. apply String.eqb_neq in Hr as Hr'. rewrite Hr'. simpl.
  apply String.eqb_neq in Hne as ->.
  destruct (String.eqb_spec d "") as [->|Hdn]; simpl; rewrite Clean_nested; try done.
  - unfold Clean, clean_segments. rewrite !IsAbs_app, !split_byte_app, !foldl_app by done. done.
  - by rewrite IsAbs_app.
Qed.

(** ** Plain names and containment *)

(** A path element that names something: no separator, not [""], ["."], [".."]. *)
Definition plain_name (x : string) : Prop := no_byte "/" x ∧ x ≠ "" ∧ x ≠ "." ∧ x ≠ "..".

Lemma clean_names r out l :
  Forall plain_name l → foldl (clean_step r) out l = reverse l ++ out.
Proof.
  intros Hl. revert out. induction Hl as [|x l (_ & H1 & H2 & H3) Hl IH]; intros out; [done|].
  cbn [foldl]. rewrite clean_step_name, IH by done. by rewrite reverse_cons, <- app_assoc.
Qed.

(** Cleaning a rooted path leaves plain names only. *)
Lemma rooted_names l :
  Forall (no_byte "/") l → Forall plain_name (foldl (clean_step true) [] l).
Proof.
  induction l as [|s l IH] using rev_ind; [intros _; constructor|].
  intros [Hl Hs]%Forall_app. apply (proj1 (Forall_singleton _ _)) in Hs. specialize (IH Hl).
  rewrite foldl_snoc. revert IH. generalize (foldl (clean_step true) [] l). intros acc IH. unfold clean_step.
  destruct (String.eqb_spec s ""); [done|]. destruct (String.eqb_spec s "."); [done|]. simpl.
  destruct (String.eqb_spec s ".."); [|by constructor].
  destruct IH as [|x out (_ & _ & _ & Hx) Hout]; [constructor|]. apply String.eqb_neq in Hx. by rewrite Hx.
Qed.

Lemma no_byte_last s c : no_byte c s → last_index_byte s c = None.
Proof.
  unfold no_byte. induction s as [|a s IH]; simpl; [done|].
  destruct (Ascii.eqb a c) eqn:E; [by intros [=]|].
  destruct (split_byte s c) as [|w ws] eqn:Es; [by apply split_byte_nonempty in Es|].
  intros [= -> ->]. by rewrite IH.
Qed.

Lemma last_index_byte_app s c u :
  last_index_byte u c = None → last_index_byte (s +:+ String c u) c = Some (String.length s).
Proof.
  intros Hu. induction s as [|a s IH]; simpl; [by rewrite Hu, Ascii.eqb_refl|]. by rewrite IH.
Qed.

Lemma path_Split_app a f : no_byte "/" f → path_Split (a +:+ String "/" f) = (a +:+ "/", f).
Proof.
  intros Hf. unfold path_Split. rewrite last_index_byte_app by by apply no_byte_last.
  change (String "/" f) with ("/" +:+ f). rewrite append_assoc.
  replace (S (String.length a)) with (String.length (a +:+ "/")) by (rewrite append_length; simpl; lia).
  by rewrite str_take_app, str_drop_app.
Qed.

Lemma path_Split_name f : no_byte "/" f → path_Split f = ("", f).
Proof. intros Hf. unfold path_Split. by rewrite no_byte_last. Qed.

Lemma str_join_snoc l x :
  l ≠ [] → str_join "/" (l ++ [x]) = str_join "/" l +:+ String "/" x.
Proof.
  induction l as [|y l IH]; [done|]. intros _. destruct l as [|z l]; [done|].
  change (str_join "/" ((y :: z :: l) ++ [x])) with (y +:+ "/" +:+ str_join "/" ((z :: l) ++ [x])).
  rewrite IH by done. change (str_join "/" (y :: z :: l)) with (y +:+ "/" +:+ str_join "/" (z :: l)).
  by rewrite !append_assoc.
Qed.

Lemma trim_right_slash s : trim_right (Ascii.eqb "/") (s +:+ "/") = trim_right (Ascii.eqb "/") s.
Proof.
  induction s as [|a s IH]; [done|]. change (String a s +:+ "/") with (String a (s +:+ "/")).
  cbn [trim_right]. by rewrite IH.
Qed.

Lemma trim_right_name s x :
  no_byte "/" x → x ≠ "" → trim_right (Ascii.eqb "/") (s +:+ x) = s +:+ x.
Proof.
  intros Hx Hne. assert (trim_right (Ascii.eqb "/") x = x) as Ht.
  { clear s. unfold no_byte in Hx. induction x as [|a x IH]; [done|]. cbn [split_byte trim_right] in *.
    rewrite Ascii.eqb_sym. destruct (Ascii.eqb a "/") eqn:E; [by injection Hx|].
    destruct (split_byte x "/") as [|w ws] eqn:Es; [by apply split_byte_nonempty in Es|].
    injection Hx as -> ->. destruct x as [|b x]; [done|]. by rewrite IH. }
  induction s as [|a s IH]; [done|]. change (String a s +:+ x) with (String a (s +:+ x)).
  cbn [trim_right]. rewrite IH. destruct (s +:+ x) eqn:E; [|done]. by destruct s, x.
Qed.

Lemma trim_right_join l :
  Forall plain_name l → trim_right (Ascii.eqb "/") (str_join "/" l) = str_join "/" l.
Proof.
  intros Hl. destruct l as [|x l _] using rev_ind; [done|].
  apply Forall_app in Hl as [Hl Hx]. apply (proj1 (Forall_singleton _ _)) in Hx as (H1 & H2 & _).
  destruct (decide (l = [])) as [->|Hne]; [by apply (trim_right_name "")|].
  rewrite str_join_snoc by done. change (String "/" x) with ("/" +:+ x). rewrite append_assoc.
  by apply trim_right_name.
Qed.

Lemma join_relative l : Forall plain_name l → IsAbs (str_join "/" l) = false.
Proof.
  intros Hl. destruct Hl as [|x l (H1 & H2 & _) Hl]; [done|].
  assert (IsAbs x = false) as Hx.
  { destruct x as [|a x]; [done|]. unfold no_byte in H1. cbn [split_byte] in H1.
    destruct (Ascii.eqb_spec a "/") as [->|Ha]; [by injection H1|].
    unfold IsAbs, has_prefix. cbn [String.prefix]. by destruct (ascii_dec "/" a). }
  destruct l as [|y l]; [done|].
  change (str_join "/" (x :: y :: l)) with (x +:+ "/" +:+ str_join "/" (y :: l)). by rewrite IsAbs_app.
Qed.

Lemma clean_segments_join l : Forall plain_name l → clean_segments (str_join "/" l) = reverse l.
Proof.
  intros Hl. unfold clean_segments. destruct (decide (l = [])) as [->|Hne]; [done|].
  rewrite split_join; [|done|eapply Forall_impl; [exact Hl|]; by intros x []].
  rewrite clean_names by done. by rewrite app_nil_r.
Qed.

Lemma IsAbs_Clean p : IsAbs (Clean p) = IsAbs p.
Proof.
  unfold Clean. destruct (IsAbs p) eqn:E; [apply has_prefix_app|].
  destruct (String.eqb_spec (str_join "/" (reverse (clean_segments p))) "") as [|Hne]; [done|].
  pose proof (proj2 (Forall_reverse _ _) (clean_segments_elems p)) as He.
  destruct (reverse (clean_segments p)) as [|x l] eqn:El; [done|].
  inversion He as [|? ? (H1 & H2 & _) Hl]; subst.
  destruct x as [|a x]; [done|]. unfold no_byte in H1. cbn [split_byte] in H1.
  destruct (Ascii.eqb_spec a "/") as [->|Ha]; [by injection H1|].
  destruct l as [|y l]; cbn [str_join String.append]; unfold IsAbs, has_prefix; cbn [String.prefix];
    by destruct (ascii_dec "/" a).
Qed.

Lemma clean_segments_Clean p : clean_segments (Clean p) = clean_segments p.
Proof.
  unfold clean_segments at 1. rewrite IsAbs_Clean. destruct (IsAbs p) eqn:E.
  - unfold Clean. rewrite E. set (l := reverse (clean_segments p)).
    assert (Forall plain_name l) as Hl.
    { apply Forall_reverse. unfold clean_segments. rewrite E. apply rooted_names, split_byte_fields. }
    change ("/" +:+ ?s) with ("" +:+ String "/" s). rewrite split_byte_app, foldl_app. simpl.
    destruct (decide (l = [])) as [Hn|Hn].
    { rewrite Hn. simpl. unfold l in Hn. apply (f_equal reverse) in Hn. by rewrite reverse_involutive in Hn. }
    rewrite split_join; [|done|eapply Forall_impl; [exact Hl|]; by intros x []].
    change (clean_step true [] "") with (@nil string).
    rewrite clean_names, app_nil_r by done. unfold l. by rewrite reverse_involutive.
  - rewrite split_Clean_rel by done. unfold clean_segments. by rewrite E.
Qed.

(** [p] is [base] or lies below it, going down through plain names only. *)
Definition below (base p : string) : Prop :=
  IsAbs p = IsAbs base ∧
  ∃ l, Forall plain_name l ∧ clean_segments p = reverse l ++ clean_segments base.

Lemma below_refl base : below base base.
Proof. split; [done|]. by exists []. Qed.

Lemma below_Join base p l :
  below base p → Forall plain_name l → below base (Join [p; str_join "/" l]).
Proof.
  intros (Ha & k & Hk & Hc) Hl. destruct (decide (l = [])) as [->|Hne].
  { simpl. destruct (String.eqb_spec p "") as [->|Hp]; simpl; [by split; [|exists k]|].
    assert (clean_segments (p +:+ "/") = clean_segments p) as Heq.
    { unfold clean_segments. rewrite IsAbs_app by done.
      by rewrite split_byte_app, foldl_app. }
    split; [by rewrite IsAbs_Clean, IsAbs_app|].
    exists k. split; [done|]. by rewrite clean_segments_Clean, Heq. }
  assert (str_join "/" l ≠ "") as Hj.
  { intros Hj. apply Hne. apply str_join_nonempty_elems; [|done].
    eapply Forall_impl; [exact Hl|]. by intros x (_ & ? & _). }
  unfold Join. destruct (String.eqb_spec p "") as [->|Hp].
  - apply String.eqb_neq in Hj. rewrite Hj. change (str_join "/" [str_join "/" l]) with (str_join "/" l).
    split; [by rewrite IsAbs_Clean, join_relative|]. exists (k ++ l). split; [by apply Forall_app|].
    rewrite clean_segments_Clean, clean_segments_join by done.
    rewrite reverse_app, <- app_assoc, <- Hc. by rewrite app_nil_r.
  - change (str_join "/" [p; str_join "/" l]) with (p +:+ String "/" (str_join "/" l)).
    split; [by rewrite IsAbs_Clean, IsAbs_app|]. exists (k ++ l). split; [by apply Forall_app|].
    rewrite clean_segments_Clean, reverse_app, <- app_assoc, <- Hc.
    unfold clean_segments. rewrite IsAbs_app, split_byte_app, foldl_app by done.
    rewrite split_join; [|done|eapply Forall_impl; [exact Hl|]; by intros x []]. by rewrite clean_names.
Qed.

(** ** Atomic writes *)

Lemma tmp_ne (full : string) : full +:+ tempSuffix ≠ full.
Proof.
  intros H. apply (f_equal String.length) in H. rewrite append_length in H. simpl in H. lia.
Qed.

Lemma remove_ne w fs q q' : q ≠ q' → (remove w fs q).2 !! q' = fs !! q'.
Proof.
  intros Hne. unfold remove. destruct (fs !! q); [|done]. destruct (no_remove w q); [done|].
  simpl. by rewrite lookup_delete_ne.
Qed.

Lemma str_take_all s : str_take (String.length s) s = s.
Proof. induction s as [|a s IH]; [done|]. simpl. by rewrite IH. Qed.

Lemma growing_snoc fs path body n :
  growing fs path body n =
  ((λ k, <[path := File (str_take k body)]> fs) <$> seq 0 n) ++ [<[path := File (str_take n body)]> fs].
Proof. unfold growing. by rewrite seq_S, fmap_app. Qed.

Lemma last_state_snoc fs l fs' : last_state fs (l ++ [fs']) = fs'.
Proof. unfold last_state. by rewrite last_snoc. Qed.

(** A write touches nothing but its file, and on success leaves the body. *)
Lemma write_file_spec w fs path body :
  let '(ok, states) := write_file w fs path body in
  (∀ st q, st ∈ states → q ≠ path → st !! q = fs !! q) ∧
  (∀ q, q ≠ path → last_state fs states !! q = fs !! q) ∧
  (ok = true → last_state fs states = <[path := File body]> fs).
Proof.
  assert (∀ n st q, st ∈ growing fs path body n → q ≠ path → st !! q = fs !! q) as Hg.
  { intros n st q (k & -> & _)%list_elem_of_fmap Hq. by apply lookup_insert_ne. }
  assert (∀ n, last_state fs (growing fs path body n) = <[path := File (str_take n body)]> fs) as Hf.
  { intros n. rewrite growing_snoc. apply last_state_snoc. }
  unfold write_file. destruct (no_write w path).
  - destruct (written w path) as [n|].
    + split_and!; [apply Hg| |done]. intros q Hq. by rewrite Hf, lookup_insert_ne.
    + split_and!; [|done..]. by intros st q ->%list_elem_of_singleton.
  - split_and!; [apply Hg| |].
    + intros q Hq. by rewrite Hf, lookup_insert_ne.
    + intros _. by rewrite Hf, str_take_all.
Qed.

(** What every state of an atomic write shows: the path holds what it held or
    the whole body, and nothing else changes but the temporary file. *)
Definition old_or_new (fs : files) (full body : string) (st : files) : Prop :=
  (∀ q, q ≠ full → q ≠ full +:+ tempSuffix → st !! q = fs !! q) ∧
  (st !! full = fs !! full ∨ st !! full = Some (File body)).

Lemma atomic_run_spec w fs dir full body :
  let '(r, states) := atomic_run w fs dir full body in
  Forall (old_or_new fs full body) states ∧
  match r with
  | Ok _ => last_state fs states !! full = Some (File body) ∧ last_state fs states !! (full +:+ tempSuffix) = None
  | Err _ => last_state fs states !! full = fs !! full
  end.
Proof.
  pose proof (tmp_ne full) as Ht. unfold atomic_run.
  assert (old_or_new fs full body fs) as H0 by (split; [done|by left]).
  destruct (no_mkdir w dir); [by split; [apply Forall_singleton|]|].
  pose proof (write_file_spec w fs (full +:+ tempSuffix) body) as Hw.
  destruct (write_file w fs (full +:+ tempSuffix) body) as [ok states]. destruct Hw as (Hall & Hfin & Hok).
  assert (Forall (old_or_new fs full body) states) as Hs.
  { apply Forall_forall. intros st Hst. split; [intros q _ Hq; by apply Hall|left; by apply Hall]. }
  assert (old_or_new fs full body (remove w (last_state fs states) (full +:+ tempSuffix)).2 ∧
          (remove w (last_state fs states) (full +:+ tempSuffix)).2 !! full = fs !! full) as [Hr Hrf].
  { split; [|by rewrite remove_ne, Hfin by done].
    split; [intros q _ Hq; by rewrite remove_ne, Hfin by done|left; by rewrite remove_ne, Hfin by done]. }
  destruct ok; cbn [negb]; [destruct (no_rename w full)|].
  - rewrite last_state_snoc. split; [|done]. apply Forall_app_2; [done|by apply Forall_singleton].
  - specialize (Hok eq_refl). rewrite Hok. unfold rename. rewrite lookup_insert_eq, last_state_snoc. split.
    + apply Forall_app_2; [done|]. apply Forall_singleton. split.
      * intros q H1 H2. by rewrite lookup_insert_ne, lookup_delete_ne, lookup_insert_ne by done.
      * right. apply lookup_insert_eq.
    + split; [apply lookup_insert_eq|]. by rewrite lookup_insert_ne, lookup_delete_eq by done.
  - rewrite last_state_snoc. split; [|done]. apply Forall_app_2; [done|by apply Forall_singleton].
Qed.

Lemma last_state_elem fs l : last_state fs l = fs ∨ last_state fs l ∈ l.
Proof.
  unfold last_state. destruct (last l) as [x|] eqn:E; [right|by left]. apply last_Some in E as [l' ->]. set_solver.
Qed.

Lemma atomic_write_old_or_new w fs dir full body r fs' :
  atomic_write w fs dir full body = (r, fs') →
  (∀ q, q ≠ full → q ≠ full +:+ tempSuffix → fs' !! q = fs !! q) ∧
  match r with
  | Ok _ => fs' !! full = Some (File body) ∧ fs' !! (full +:+ tempSuffix) = None
  | Err _ => fs' !! full = fs !! full
  end.
Proof.
  unfold atomic_write. pose proof (atomic_run_spec w fs dir full body) as H.
  destruct (atomic_run w fs dir full body) as [r' states]. destruct H as [Hall Hr]. intros [= <- <-].
  split; [|done]. intros q H1 H2. destruct (last_state_elem fs states) as [->|Hin]; [done|].
  rewrite Forall_forall in Hall. by apply Hall.
Qed.
