(* ===== verification/Imports.v ===== *)
(** * The per-file import set ([writer/import_set.go]) and the provenance
      trailer ([writer/provenance.go])

    The import set assigns each package path a local alias.  The collision
    loop carries fuel: it probes distinct names, so one round more than there
    are names in use is enough. *)

From S2P Require Import Prelude GoStrings Unicode.

Local Open Scope string_scope.
Local Open Scope nat_scope.
Local Open Scope list_scope.

Definition BlankAlias : string := "_".
Definition DotAlias : string := ".".

(** ** Aliases from paths *)

(** [go/token.IsKeyword] *)
Definition go_keywords : list string :=
  ["break"; "case"; "chan"; "const"; "continue"; "default"; "defer"; "else"; "fallthrough";
   "for"; "func"; "go"; "goto"; "if"; "import"; "interface"; "map"; "package"; "range";
   "return"; "select"; "struct"; "switch"; "type"; "var"].
Definition is_keyword (s : string) : bool := bool_decide (s ∈ go_keywords).

Definition underscore : N := N_of_ascii "_".

Section Unicode.
Context `{UnicodeTables}.

Definition alias_rune (r : N) : bool := (r =? underscore)%N || is_letter r || is_digit r.

Definition sanitiseAlias (seg : string) : string :=
  let out := foldr String.append "" (filter (λ x, alias_rune x.1 = true) (runes seg)).*2 in
  if String.eqb out "" then ""
  else if is_digit (decode_rune out).1 then "pkg" +:+ out
  else if is_keyword out then out +:+ "_"
  else out.

Definition rawSegment (path : string) : string :=
  let path := trim_right (Ascii.eqb "/") path in
  match last_index_byte path "/" with
  | Some i => str_drop (S i) path
  | None => path
  end.

Definition DefaultAlias (path : string) : string := sanitiseAlias (rawSegment path).

Definition NeedsExplicitAlias (path alias : string) : bool := negb (String.eqb alias (rawSegment path)).
End Unicode.

(** ** The set *)

Record ImportSet := MkSet {
  derive : string → string;
  order : list string;
  aliases : gmap string string;
  explicit : gmap string string;
  used : gmap string string;
  lastSfx : gmap string Z;
  self : string;
}.

Inductive ImportError := ErrEmptyPath (path : string) | ErrAliasAfterImp (path : string) | ImpOutOfFuel.

(** [None] stands for a nil derivation function. *)
Definition NewImportSet `{UnicodeTables} (d : option (string → string)) : ImportSet :=
  MkSet (default DefaultAlias d) [] ∅ ∅ ∅ ∅ "".

Definition SetSelf (i : ImportSet) (path name : string) : ImportSet :=
  if String.eqb path "" && String.eqb name "" then i
  else
    let self' := if negb (String.eqb path "") then path else self i in
    let used' := if negb (String.eqb name "") then <[name := self']> (used i) else used i in
    MkSet (derive i) (order i) (aliases i) (explicit i) used' (lastSfx i) self'.

(** [fmt.Sprintf("%s%d", desired, n)] *)
Definition suffixed (desired : string) (n : Z) : string := desired +:+ itoa n.

(** The probing loop: the alias it settles on and the suffix it reached. *)
Fixpoint probe (fuel : nat) (used : gmap string string) (path desired alias : string) (n : Z)
    : option (string * Z) :=
  let free := match used !! alias with
              | None => true
              | Some owner => String.eqb owner path
              end in
  if free then Some (alias, n)
  else match fuel with
       | O => None
       | S fuel =>
           let n := if (n =? 0)%Z then 2%Z else (n + 1)%Z in
           probe fuel used path desired (suffixed desired n) n
       end.

Definition Imp (i : ImportSet) (path : string) : res ImportError string * ImportSet :=
  if String.eqb path "" then (Err (ErrEmptyPath path), i)
  else if String.eqb path (self i) then (Ok "", i)
  else match aliases i !! path with
  | Some existing => (Ok existing, i)
  | None =>
      let desired := default "" (explicit i !! path) in
      let desired := if String.eqb desired "" then derive i path else desired in
      if String.eqb desired "" then (Err (ErrEmptyPath path), i)
      else if String.eqb desired BlankAlias || String.eqb desired DotAlias then
        (Ok desired,
         MkSet (derive i) (order i ++ [path]) (<[path := desired]> (aliases i)) (explicit i)
           (used i) (lastSfx i) (self i))
      else
        let n := default 0%Z (lastSfx i !! desired) in
        let alias := if negb (n =? 0)%Z then suffixed desired n else desired in
        match probe (size (used i)) (used i) path desired alias n with
        | None => (Err ImpOutOfFuel, i)
        | Some (alias, n) =>
            (Ok alias,
             MkSet (derive i) (order i ++ [path]) (<[path := alias]> (aliases i)) (explicit i)
               (<[alias := path]> (used i))
               (if negb (n =? 0)%Z then <[desired := n]> (lastSfx i) else lastSfx i) (self i))
        end
  end.

Definition Alias (i : ImportSet) (path alias : string) : res ImportError unit * ImportSet :=
  if String.eqb path "" then (Err (ErrEmptyPath path), i)
  else match aliases i !! path with
  | Some _ => (Err (ErrAliasAfterImp path), i)
  | None =>
      (Ok tt, MkSet (derive i) (order i) (aliases i) (<[path := alias]> (explicit i)) (used i)
                (lastSfx i) (self i))
  end.

Definition AliasOf (i : ImportSet) (path : string) : option string := aliases i !! path.

Record Import := MkImport { i_Path : string; i_Alias : string }.
Definition Imports (i : ImportSet) : list Import :=
  map (λ p, MkImport p (default "" (aliases i !! p))) (order i).
Definition Len (i : ImportSet) : nat := length (order i).
Definition Reset (i : ImportSet) : ImportSet := MkSet (derive i) [] ∅ ∅ ∅ ∅ "".

(** ** Provenance *)

Definition ProvenanceMarker : string := ":provenance ".

(** [bytes.LastIndex] *)
Fixpoint last_index (s p : string) : option nat :=
  match s with
  | EmptyString => if has_prefix s p then Some 0 else None
  | String a t =>
      match last_index t p with
      | Some i => Some (S i)
      | None => if has_prefix s p then Some 0 else None
      end
  end.

Definition is_newline (a : ascii) : bool := Ascii.eqb a "013" || Ascii.eqb a "010".

(** [bytes.IndexAny(rest, "\r\n")] *)
Fixpoint index_newline (s : string) : option nat :=
  match s with
  | EmptyString => None
  | String a s => if is_newline a then Some 0 else S <$> index_newline s
  end.

Definition ExtractProvenance (body : string) : option string :=
  match last_index body ProvenanceMarker with
  | None => None
  | Some idx =>
      let rest := str_drop (idx + String.length ProvenanceMarker) body in
      let stop := default (String.length rest) (index_newline rest) in
      Some (str_take stop rest)
  end.

Definition IsProvenanceAtTail (body : string) : bool :=
  match last_index body ProvenanceMarker with
  | None => false
  | Some idx =>
      let rest := str_drop (idx + String.length ProvenanceMarker) body in
      match index_newline rest with
      | None => true
      | Some nl => String.eqb (trim_space (str_drop nl rest)) ""
      end
  end.
