(* ===== verification/ImportLaws.v ===== *)
(** * Properties of the import set and of the provenance trailer *)

From S2P Require Import Prelude GoStrings Unicode Imports.

Local Open Scope string_scope.
Local Open Scope nat_scope.
Local Open Scope list_scope.

(** ** The probing loop *)

Lemma suffixed_inj d n m : suffixed d n = suffixed d m → n = m.
Proof. unfold suffixed. intros H%append_inj_r. by apply itoa_inj. Qed.

Lemma suffixed_ne d n : suffixed d n ≠ d.
Proof.
  unfold suffixed. intros H. apply (itoa_nonempty n). apply length_zero_nil.
  apply (f_equal String.length) in H. rewrite append_length in H. lia.
Qed.

(** A candidate: the name itself, or the name with a suffix from two on. *)
Definition candidate (d alias : string) (n : Z) : Prop :=
  (n = 0%Z ∧ alias = d) ∨ ((2 <= n)%Z ∧ alias = suffixed d n).

Definition next_suffix (n : Z) : Z := if (n =? 0)%Z then 2%Z else (n + 1)%Z.

Lemma next_candidate d alias n :
  candidate d alias n → candidate d (suffixed d (next_suffix n)) (next_suffix n) ∧ (n < next_suffix n)%Z.
Proof.
  intros [[-> _]|[Hn _]]; unfold next_suffix; [by split; [right|]|].
  destruct (Z.eqb_spec n 0); [lia|]. split; [right; split; [lia|done]|lia].
Qed.

Definition is_free (used : gmap string string) (path alias : string) : Prop :=
  used !! alias = None ∨ used !! alias = Some path.

Lemma probe_unfold fuel used path d alias n :
  probe fuel used path d alias n =
  if decide (is_free used path alias) then Some (alias, n)
  else match fuel with
       | O => None
       | S fuel => probe fuel used path d (suffixed d (next_suffix n)) (next_suffix n)
       end.
Proof.
  destruct fuel; cbn [probe]; unfold is_free;
    (destruct (used !! alias) as [o|] eqn:Ho; [|by rewrite decide_True by auto]);
    (destruct (String.eqb_spec o path) as [->|Hne];
       [by rewrite decide_True by auto|by rewrite decide_False by naive_solver]).
Qed.

Lemma probe_some fuel used path d alias n a m :
  candidate d alias n → probe fuel used path d alias n = Some (a, m) →
  is_free used path a ∧ candidate d a m.
Proof.
  revert alias n. induction fuel as [|fuel IH]; intros alias n Hc; rewrite probe_unfold;
    (case_decide; [by intros [= <- <-]|]); [done|].
  apply IH. by apply next_candidate in Hc as [? _].
Qed.

(** When every candidate is taken, there are more names in use than probes. *)
Lemma probe_none fuel used path d alias n :
  candidate d alias n → probe fuel used path d alias n = None →
  ∃ l, length l = S fuel ∧ NoDup l ∧
    Forall (λ x, is_Some (used !! x) ∧ (x = alias ∨ ∃ m, (n < m)%Z ∧ x = suffixed d m)) l.
Proof.
  revert alias n. induction fuel as [|fuel IH]; intros alias n Hc; rewrite probe_unfold;
    (case_decide as Hf; [done|]); intros Hp;
    (assert (is_Some (used !! alias)) as Hs by
      (destruct (used !! alias) eqn:E; [eauto|]; destruct Hf; by left)).
  - exists [alias]. split; [done|]. split; [apply NoDup_singleton|]. constructor; auto.
  - destruct (next_candidate _ _ _ Hc) as [Hc' Hlt].
    destruct (IH _ _ Hc' Hp) as (l & Hl & Hnd & Hall). exists (alias :: l).
    split; [simpl; lia|]. split.
    + constructor; [|done]. intros Hin. rewrite Forall_forall in Hall.
      destruct (Hall _ Hin) as [_ Hx].
      assert (∃ m, (n < m)%Z ∧ alias = suffixed d m) as (m & Hm & He).
      { destruct Hx as [Hx|(m & Hm & Hx)]; [eauto|]. exists m. split; [lia|done]. }
      destruct Hc as [[_ ->]|[_ ->]]; [by apply eq_sym, suffixed_ne in He|].
      apply suffixed_inj in He. lia.
    + constructor; [auto|]. eapply Forall_impl; [exact Hall|]. intros x [Hx Hm]. split; [done|].
      right. destruct Hm as [->|(m & ? & ->)]; [eauto|]. exists m. split; [lia|done].
Qed.

Lemma probe_total used path d alias n :
  candidate d alias n → ∃ a m, probe (size used) used path d alias n = Some (a, m).
Proof.
  intros Hc. destruct (probe (size used) used path d alias n) as [[a m]|] eqn:E; [eauto|].
  destruct (probe_none _ _ _ _ _ _ Hc E) as (l & Hl & Hnd & Hall). exfalso.
  assert (length l ≤ length (map_to_list used).*1) as Hle.
  { apply submseteq_length, NoDup_submseteq; [done|]. intros x Hx.
    rewrite Forall_forall in Hall. destruct (Hall x Hx) as [[o Ho] _].
    apply list_elem_of_fmap. exists (x, o). split; [done|]. by apply elem_of_map_to_list. }
  rewrite length_fmap, length_map_to_list in Hle. lia.
Qed.

(** ** The invariant of the set *)

Record import_inv (name : string) (i : ImportSet) : Prop := {
  ii_order : NoDup (order i);
  ii_dom : ∀ p, p ∈ order i ↔ is_Some (aliases i !! p);
  ii_alias : ∀ p a, aliases i !! p = Some a →
    a ≠ "" ∧ p ≠ "" ∧ p ≠ self i ∧ (a = "_" ∨ a = "." ∨ (used i !! a = Some p ∧ a ≠ name));
  ii_used : ∀ a p, used i !! a = Some p → aliases i !! p = Some a ∨ (a = name ∧ p = self i);
  ii_self : name ≠ "" → used i !! name = Some (self i);
  ii_sfx : ∀ d n, lastSfx i !! d = Some n → (2 <= n)%Z;
}.

Inductive op := OpImp (path : string) | OpAlias (path alias : string).
Definition run_op (i : ImportSet) (o : op) : ImportSet :=
  match o with OpImp p => (Imp i p).2 | OpAlias p a => (Alias i p a).2 end.

Lemma fresh_import_inv name dv u s :
  (∀ a p, u !! a = Some p → a = name ∧ p = s) → (name ≠ "" → u !! name = Some s) →
  import_inv name (MkSet dv [] ∅ ∅ u ∅ s).
Proof.
  intros Hu Hn. split; simpl; auto.
  - constructor.
  - intros p. rewrite lookup_empty. split; [by intros ?%elem_of_nil|by intros []].
  - intros p a Hl. by rewrite lookup_empty in Hl.
  - intros d n Hl. by rewrite lookup_empty in Hl.
Qed.

Lemma initial_import_inv `{UnicodeTables} d path name :
  import_inv name (SetSelf (NewImportSet d) path name).
Proof.
  unfold SetSelf, NewImportSet.
  destruct (String.eqb_spec path "") as [->|Hp], (String.eqb_spec name "") as [->|Hn]; simpl;
    apply fresh_import_inv; try done; try (intros a p Hl; by rewrite lookup_empty in Hl);
    try (intros _; by rewrite lookup_insert_eq);
    intros a p [[<- <-]|[_ Hl]]%lookup_insert_Some; try done; by rewrite lookup_empty in Hl.
Qed.

(** The bookkeeping both branches of a first import share. *)
Lemma record_import_inv name i path alias used' sfx :
  import_inv name i → aliases i !! path = None → path ≠ "" → path ≠ self i → alias ≠ "" →
  (used' = used i ∧ (alias = "_" ∨ alias = ".") ∨
   used' = <[alias := path]> (used i) ∧ is_free (used i) path alias) →
  (∀ d n, sfx !! d = Some n → (2 <= n)%Z) →
  import_inv name (MkSet (derive i) (order i ++ [path]) (<[path := alias]> (aliases i)) (explicit i)
                     used' sfx (self i)).
Proof.
  intros [Ho Hd Ha Hu Hs _] Hnone Hp Hself Hne Hcase Hsfx.
  assert (path ∉ order i) as Hnin by (rewrite Hd, Hnone; by intros []).
  assert (∀ a, is_free (used i) path a → used i !! a = None) as Hfree.
  { intros a [Hf|Hf]; [done|]. apply Hu in Hf as [Hf|[_ Hf]]; congruence. }
  split; simpl; auto.
  - apply NoDup_app. split_and!; [done| |apply NoDup_singleton].
    intros x Hx ->%list_elem_of_singleton. done.
  - intros p. rewrite elem_of_app, list_elem_of_singleton, Hd.
    destruct (decide (p = path)) as [->|Hpp]; [rewrite lookup_insert_eq|rewrite lookup_insert_ne by done];
      naive_solver.
  - intros p a. destruct (decide (p = path)) as [->|Hpp].
    + rewrite lookup_insert_eq. intros [= <-]. split_and!; auto.
      destruct Hcase as [[_ [?|?]]|[-> Hf]]; auto. right. right. rewrite lookup_insert_eq.
      split; [done|]. intros ->. apply Hfree in Hf. rewrite Hs in Hf; done.
    + rewrite lookup_insert_ne by done. intros (? & ? & ? & Hx)%Ha. split_and!; auto.
      destruct Hx as [?|[?|[Hx ?]]]; auto. right. right. split; [|done].
      destruct Hcase as [[-> _]|[-> Hf]]; [done|]. rewrite lookup_insert_ne; [done|].
      intros ->. apply Hfree in Hf. congruence.
  - intros a p Hap. destruct Hcase as [[-> _]|[-> Hf]].
    + apply Hu in Hap as [Hap|?]; [|auto]. left. rewrite lookup_insert_ne; [done|]. congruence.
    + destruct (decide (a = alias)) as [->|Hna].
      * rewrite lookup_insert_eq in Hap. injection Hap as <-. left. by rewrite lookup_insert_eq.
      * rewrite lookup_insert_ne in Hap by done. apply Hu in Hap as [Hap|?]; [|auto].
        left. rewrite lookup_insert_ne; [done|]. congruence.
  - intros Hn. destruct Hcase as [[-> _]|[-> Hf]]; [auto|]. rewrite lookup_insert_ne; [auto|].
    intros ->. apply Hfree in Hf. rewrite Hs in Hf; done.
Qed.

(** The alias a path asks for. *)
Definition desired_of (i : ImportSet) (path : string) : string :=
  let d := default "" (explicit i !! path) in if String.eqb d "" then derive i path else d.

(** What [Imp] answers, and the set it leaves. *)
Definition imp_post (name : string) (i : ImportSet) (path : string)
    (r : res ImportError string * ImportSet) : Prop :=
  match r with
  | (Ok a, i') =>
      path ≠ "" ∧ import_inv name i' ∧ self i' = self i ∧
      (path = self i → a = "" ∧ i' = i) ∧
      (path ≠ self i → a ≠ "" ∧ AliasOf i' path = Some a) ∧
      (∀ q b, AliasOf i q = Some b → AliasOf i' q = Some b)
  | (Err (ErrEmptyPath p), i') =>
      p = path ∧ i' = i ∧
      (path = "" ∨ path ≠ self i ∧ AliasOf i path = None ∧ desired_of i path = "")
  | (Err _, _) => False
  end.

Lemma candidate_nonempty d a n : d ≠ "" → candidate d a n → a ≠ "".
Proof.
  intros Hd [[_ ->]|[_ ->]]; [done|]. unfold suffixed. by destruct d.
Qed.

Lemma Imp_spec name i path : import_inv name i → imp_post name i path (Imp i path).
Proof.
  intros Hi. unfold Imp. destruct (String.eqb_spec path "") as [->|Hp]; [by simpl; auto|].
  destruct (String.eqb_spec path (self i)) as [Hs|Hs]; [simpl; by split_and!|].
  destruct (aliases i !! path) as [a|] eqn:Ha.
  { simpl. split_and!; auto; [done|]. intros _. split; [|done]. by apply (ii_alias _ _ Hi) in Ha as [? _]. }
  fold (desired_of i path). destruct (String.eqb_spec (desired_of i path) "") as [Hd|Hd].
  { simpl. auto 10. }
  assert (∀ alias used' sfx,
    import_inv name (MkSet (derive i) (order i ++ [path]) (<[path := alias]> (aliases i)) (explicit i)
                       used' sfx (self i)) → alias ≠ "" →
    imp_post name i path (Ok alias, MkSet (derive i) (order i ++ [path]) (<[path := alias]> (aliases i))
                       (explicit i) used' sfx (self i))) as Hpost.
  { intros alias used' sfx Hinv Hne. simpl. split_and!; auto; [done| |].
    - intros _. split; [done|]. unfold AliasOf. simpl. by rewrite lookup_insert_eq.
    - intros q b. unfold AliasOf. simpl. intros Hq. rewrite lookup_insert_ne; congruence. }
  destruct (String.eqb_spec (desired_of i path) BlankAlias) as [Hb|Hb];
    [|destruct (String.eqb_spec (desired_of i path) DotAlias) as [Hdot|Hdot]]; cbn [orb].
  - apply Hpost; [|done]. eapply record_import_inv; eauto; apply Hi.
  - apply Hpost; [|done]. eapply record_import_inv; eauto; apply Hi.
  - set (n := default 0%Z (lastSfx i !! desired_of i path)).
    set (start := if negb (n =? 0)%Z then suffixed (desired_of i path) n else desired_of i path).
    assert (candidate (desired_of i path) start n) as Hc.
    { unfold start, n. destruct (lastSfx i !! desired_of i path) as [m|] eqn:Hm; simpl; [|by left].
      apply (ii_sfx _ _ Hi) in Hm. destruct (Z.eqb_spec m 0); [lia|]. by right. }
    destruct (probe_total (used i) path _ _ _ Hc) as (a & m & Hpr). rewrite Hpr.
    destruct (probe_some _ _ _ _ _ _ _ _ Hc Hpr) as [Hf Hcm].
    pose proof (candidate_nonempty _ _ _ Hd Hcm) as Hane.
    apply Hpost; [|done]. eapply record_import_inv; eauto.
    intros d k. destruct (Z.eqb_spec m 0) as [|Hm]; simpl; [apply (ii_sfx _ _ Hi)|].
    intros [[<- <-]|[_ Hk]]%lookup_insert_Some; [|by apply (ii_sfx _ _ Hi) in Hk].
    destruct Hcm as [[? _]|[? _]]; [done|lia].
Qed.

Lemma Alias_inv name i path alias : import_inv name i → import_inv name (Alias i path alias).2.
Proof.
  intros Hi. unfold Alias. destruct (String.eqb path ""); [done|].
  destruct (aliases i !! path); [done|]. destruct Hi. by split.
Qed.

Lemma run_ops_inv name i ops : import_inv name i → import_inv name (foldl run_op i ops).
Proof.
  revert i. induction ops as [|[p|p a] ops IH]; intros i Hi; simpl; [done| |].
  - apply IH. pose proof (Imp_spec name i p Hi) as H. destruct (Imp i p) as [[a|e] i']; simpl in *.
    + by destruct H as (_ & ? & _).
    + destruct e; [|done|done]. by destruct H as (_ & -> & _).
  - by apply IH, Alias_inv.
Qed.

(** C16: In a file whose package is announced first and once, whatever is
    imported and aliased afterwards, in any order: every path is listed once,
    two paths never share a local name other than the blank and the dot ones,
    which bind no name and may repeat, no other import takes the file's own
    package name, the file's own package is never imported, and no recorded
    alias is the empty one that means "emit the bare name". *)
Theorem import_aliases_unambiguous `{UnicodeTables} d path name ops :
  let i := foldl run_op (SetSelf (NewImportSet d) path name) ops in
  NoDup (map i_Path (Imports i)) ∧
  (∀ p a, MkImport p a ∈ Imports i → AliasOf i p = Some a) ∧
  (∀ p q a, AliasOf i p = Some a → AliasOf i q = Some a → a ≠ "_" → a ≠ "." → p = q) ∧
  (∀ p a, AliasOf i p = Some a →
     a ≠ "" ∧ p ≠ self i ∧ (a ≠ "_" → a ≠ "." → a ≠ name)).
Proof.
  intros i. assert (import_inv name i) as Hi by apply run_ops_inv, initial_import_inv.
  split_and!.
  - unfold Imports. rewrite map_map. simpl. rewrite map_id. apply Hi.
  - intros p a Hin. unfold Imports in Hin.
    apply (list_elem_of_fmap (λ p, MkImport p (default "" (aliases i !! p)))) in Hin as (q & Heq & Hq).
    simplify_eq. apply (ii_dom _ _ Hi) in Hq as [a Ha]. unfold AliasOf. by rewrite Ha.
  - unfold AliasOf. intros p q a Hp Hq H1 H2.
    apply (ii_alias _ _ Hi) in Hp as (_ & _ & _ & Hp). apply (ii_alias _ _ Hi) in Hq as (_ & _ & _ & Hq).
    naive_solver.
  - unfold AliasOf. intros p a Hp. apply (ii_alias _ _ Hi) in Hp as (? & _ & ? & Hp). naive_solver.
Qed.

(** [Imp] always answers: its collision loop ends.  It returns the empty
    alias, and records nothing, exactly for the file's own package; otherwise a
    non-empty alias that is recorded for the path, leaving every earlier alias
    as it was; asking again returns the same alias and changes nothing.  It
    fails only on an empty path or a path without a derivable alias, and then
    leaves the set alone. *)
Theorem imp_total_and_stable `{UnicodeTables} d path name ops q :
  let i := foldl run_op (SetSelf (NewImportSet d) path name) ops in
  match Imp i q with
  | (Ok a, i') =>
      q ≠ "" ∧ (q = self i → a = "" ∧ i' = i) ∧
      (q ≠ self i → a ≠ "" ∧ AliasOf i' q = Some a) ∧
      (∀ p b, AliasOf i p = Some b → AliasOf i' p = Some b) ∧ Imp i' q = (Ok a, i')
  | (Err (ErrEmptyPath p), i') =>
      p = q ∧ i' = i ∧ (q = "" ∨ q ≠ self i ∧ AliasOf i q = None ∧ desired_of i q = "")
  | (Err _, _) => False
  end.
Proof.
  intros i. assert (import_inv name i) as Hi by apply run_ops_inv, initial_import_inv.
  pose proof (Imp_spec name i q Hi) as Hq. destruct (Imp i q) as [[a|e] i'] eqn:E; [|by destruct e].
  destruct Hq as (Hne & _ & Hs & H1 & H2 & H3). split_and!; auto.
  unfold Imp. apply String.eqb_neq in Hne as ->. rewrite Hs.
  destruct (String.eqb_spec q (self i)) as [Heq|Hneq]; [by destruct (H1 Heq) as [-> ->]|].
  destruct (H2 Hneq) as [_ Ha]. unfold AliasOf in Ha. by rewrite Ha.
Qed.

(** ** Derived aliases are identifiers *)

Section Identifiers.
Context `{UnicodeTables}.

(** A rune together with a valid encoding of it. *)
Definition chunk_ok (x : N * string) : Prop :=
  x.2 ≠ "" ∧ ∀ t, decode_rune (x.2 +:+ t) = (x.1, String.length x.2).

Lemma byte_at_take s w t i : i < w → w ≤ String.length s → byte_at (str_take w s +:+ t) i = byte_at s i.
Proof.
  unfold byte_at. revert w i. induction s as [|a s IH]; intros [|w] i Hi Hw; simpl in *; try lia.
  destruct i as [|i]; [done|]. simpl. apply IH; lia.
Qed.

Lemma decode_chunk s :
  s ≠ "" → (decode_rune s).1 ≠ RuneError →
  chunk_ok ((decode_rune s).1, str_take (decode_rune s).2 s).
Proof.
  intros Hs Hr. pose proof (decode_width s Hs) as Hw. split; simpl.
  - intros He. apply (f_equal String.length) in He. rewrite str_take_length in He by lia. simpl in He. lia.
  - intros t. rewrite str_take_length by lia.
    assert (∀ i, i < (decode_rune s).2 →
      byte_at (str_take (decode_rune s).2 s +:+ t) i = byte_at s i) as Hb
      by (intros; apply byte_at_take; lia).
    revert Hr Hw Hb. generalize (str_take (decode_rune s).2 s +:+ t). intros u Hr Hw Hb.
    pose proof (Hb 0 ltac:(lia)) as Hb0. unfold decode_rune in Hr, Hw, Hb |- *. rewrite Hb0.
    destruct (byte_at s 0) as [b0|]; [|done]. destruct (b0 <? 128)%N; [done|].
    destruct (lead b0) as [[[n lo] hi]|]; [|done].
    destruct (byte_at s 1) as [b1|] eqn:E1; [|done].
    destruct (negb (between lo hi b1)) eqn:Hlo; [done|].
    destruct (n =? 2) eqn:Hn2; [rewrite (Hb 1) by (simpl; lia); by rewrite E1, Hlo|].
    destruct (byte_at s 2) as [b2|] eqn:E2; [|done]. destruct (negb (cont b2)) eqn:Hc2; [done|].
    destruct (n =? 3) eqn:Hn3.
    { rewrite (Hb 1), (Hb 2) by (simpl; lia). by rewrite E1, Hlo, E2, Hc2. }
    destruct (byte_at s 3) as [b3|] eqn:E3; [|done]. destruct (negb (cont b3)) eqn:Hc3; [done|].
    rewrite (Hb 1), (Hb 2), (Hb 3) by (simpl; lia). by rewrite E1, Hlo, E2, Hc2, E3, Hc3.
Qed.

Lemma runes_chunks s : Forall (λ x, x.1 ≠ RuneError → chunk_ok x) (runes s).
Proof.
  unfold runes. generalize (String.length s). intros f. revert s.
  induction f as [|f IH]; intros [|a s]; simpl; try constructor.
  pose proof (decode_chunk (String a s)) as Hd.
  destruct (decode_rune (String a s)) as [r w]. constructor; [|apply IH].
  intros Hr. by apply Hd.
Qed.

Lemma runes_fuel_step f s :
  s ≠ "" → runes_fuel (S f) s =
  let '(r, w) := decode_rune s in (r, str_take w s) :: runes_fuel f (str_drop w s).
Proof. by destruct s. Qed.

Lemma runes_of_chunks l : Forall chunk_ok l → runes (foldr String.append "" l.*2) = l.
Proof.
  intros Hl. unfold runes.
  assert (∀ f, String.length (foldr String.append "" l.*2) ≤ f →
    runes_fuel f (foldr String.append "" l.*2) = l) as Hf; [|by apply Hf].
  induction Hl as [|[r c] l [Hc Hd] _ IH]; intros f Hlen; [by destruct f|].
  change (foldr String.append "" ((r, c) :: l).*2) with (c +:+ foldr String.append "" l.*2) in *.
  rewrite append_length in Hlen. simpl in Hc, Hd.
  assert (0 < String.length c) as Hpos by (destruct c; simpl; [done|lia]).
  destruct f as [|f]; [lia|]. rewrite runes_fuel_step by (by destruct c).
  rewrite Hd, str_take_app, str_drop_app. f_equal. apply IH. lia.
Qed.

(** What Go accepts as a package alias: a letter or underscore, then letters,
    digits and underscores, and no keyword. *)
Definition go_identifier (s : string) : Prop :=
  (∃ r c l, runes s = (r, c) :: l ∧ ((r =? underscore)%N || is_letter r) = true ∧
            Forall (λ x, alias_rune x.1 = true) l) ∧ is_keyword s = false.

Lemma alias_rune_ok r : alias_rune r = true → r ≠ RuneError.
Proof.
  unfold alias_rune. intros Hr ->. rewrite error_no_letter, error_no_digit in Hr. vm_compute in Hr. done.
Qed.

Lemma kept_runes seg :
  let l := filter (λ x, alias_rune x.1 = true) (runes seg) in
  runes (foldr String.append "" l.*2) = l ∧ Forall (λ x, alias_rune x.1 = true) l.
Proof.
  intros l. assert (Forall (λ x, alias_rune x.1 = true) l) as Hl.
  { apply Forall_forall. intros x Hx. by apply list_elem_of_filter in Hx as [? _]. }
  split; [|done]. apply runes_of_chunks. apply Forall_forall. intros x Hx.
  apply list_elem_of_filter in Hx as [Ha Hx].
  pose proof (runes_chunks seg) as Hc. rewrite Forall_forall in Hc. apply Hc; [done|].
  by apply alias_rune_ok.
Qed.

Lemma runes_head s : s ≠ "" → ∃ c l, runes s = ((decode_rune s).1, c) :: l.
Proof.
  intros Hs. unfold runes. destruct (String.length s) eqn:E; [by apply length_zero_nil in E|].
  rewrite runes_fuel_step by done. destruct (decode_rune s) as [r w]. eauto.
Qed.

Lemma keyword_no_pkg s : is_keyword ("pkg" +:+ s) = false.
Proof.
  unfold is_keyword. apply bool_decide_eq_false. intros Hin.
  assert (forallb (λ k, negb (has_prefix k "pkg")) go_keywords = true) as Hall by reflexivity.
  rewrite forallb_forall in Hall. apply list_elem_of_In, Hall in Hin.
  by rewrite has_prefix_app in Hin.
Qed.

Lemma keyword_no_underscore s : is_keyword (s +:+ "_") = false.
Proof.
  unfold is_keyword. apply bool_decide_eq_false. intros Hin.
  assert (forallb (λ k, negb (has_suffix k "_")) go_keywords = true) as Hall by reflexivity.
  rewrite forallb_forall in Hall. apply list_elem_of_In, Hall in Hin.
  assert (has_suffix (s +:+ "_") "_" = true) as Hs by (apply has_suffix_spec; eauto).
  by rewrite Hs in Hin.
Qed.

Lemma first_not_digit r : alias_rune r = true → is_digit r = false → ((r =? underscore)%N || is_letter r) = true.
Proof. unfold alias_rune. intros Ha Hd. by rewrite Hd, orb_false_r in Ha. Qed.

Lemma runes_snoc_underscore l :
  Forall (λ x, alias_rune x.1 = true) l → runes (foldr String.append "" l.*2) = l → Forall chunk_ok l →
  runes (foldr String.append "" l.*2 +:+ "_") = l ++ [(underscore, "_")].
Proof.
  intros _ _ Hl. rewrite <- (runes_of_chunks (l ++ [(underscore, "_")])).
  - f_equal. rewrite fmap_app. clear. induction (l.*2) as [|c k IH]; [done|]. simpl.
    by rewrite <- append_assoc, IH.
  - apply Forall_app_2; [done|]. constructor; [|done]. split; [done|]. intros t. reflexivity.
Qed.

Lemma kept_chunks seg : Forall chunk_ok (filter (λ x, alias_rune x.1 = true) (runes seg)).
Proof.
  apply Forall_forall. intros x Hx. apply list_elem_of_filter in Hx as [Ha Hx].
  pose proof (runes_chunks seg) as Hc. rewrite Forall_forall in Hc. apply Hc; [done|].
  by apply alias_rune_ok.
Qed.

Lemma sanitise_identifier seg : sanitiseAlias seg = "" ∨ go_identifier (sanitiseAlias seg).
Proof.
  unfold sanitiseAlias. set (l := filter (λ x, alias_rune x.1 = true) (runes seg)).
  destruct (kept_runes seg) as [Hr Hall]. fold l in Hr, Hall. cbv zeta in Hr, Hall.
  set (out := foldr String.append "" l.*2) in *.
  destruct (String.eqb_spec out "") as [|Hne]; [by left|]. right.
  destruct (runes_head out Hne) as (c & l' & Hh). rewrite Hr in Hh.
  assert (alias_rune (decode_rune out).1 = true ∧ Forall (λ x, alias_rune x.1 = true) l') as [H1 H2].
  { rewrite Hh in Hall. by apply Forall_cons in Hall. }
  destruct (is_digit (decode_rune out).1) eqn:Hd.
  - split; [|apply keyword_no_pkg].
    change ("pkg" +:+ out) with (String "p" (String "k" (String "g" out))).
    rewrite !runes_ascii_cons, Hr by done. do 3 eexists. split; [done|]. split.
    { rewrite letter_ascii by done. done. }
    constructor; [|constructor; [|done]]; unfold alias_rune; simpl; rewrite letter_ascii by done; done.
  - destruct (is_keyword out) eqn:Hk.
    + split; [|apply keyword_no_underscore]. unfold out.
      rewrite runes_snoc_underscore; [|done|done|apply kept_chunks]. rewrite Hh. simpl.
      do 3 eexists. split; [done|]. split; [by apply first_not_digit|].
      apply Forall_app_2; [done|]. by constructor.
    + split; [|done]. rewrite Hr, Hh. do 3 eexists. split; [done|].
      split; [by apply first_not_digit|done].
Qed.

Lemma sanitise_id seg : go_identifier seg → sanitiseAlias seg = seg.
Proof.
  intros [(r & c & l & Hr & Hf & Hall) Hk]. unfold sanitiseAlias.
  assert (alias_rune r = true) as Har by (unfold alias_rune; by rewrite Hf).
  assert (filter (λ x, alias_rune x.1 = true) (runes seg) = runes seg) as ->.
  { rewrite Hr. apply filter_all. intros x Hx. apply elem_of_cons in Hx as [->|Hx]; [done|].
    rewrite Forall_forall in Hall. auto. }
  rewrite runes_concat. destruct (String.eqb_spec seg "") as [->|Hne]; [done|].
  destruct (runes_head seg Hne) as (c' & l' & Hh). rewrite Hr in Hh. injection Hh as Hd _ _.
  rewrite <- Hd. assert (is_digit r = false) as ->; [|by rewrite Hk].
  apply orb_true_iff in Hf as [Hf|Hf]; [|by apply letter_not_digit].
  apply N.eqb_eq in Hf as ->. by rewrite digit_ascii.
Qed.
End Identifiers.

(** The alias derived from a path is a Go identifier that is not a keyword,
    or it is empty; it is the last path segment itself when that already is an
    identifier; and it is empty exactly when the segment holds no letter, digit
    or underscore, which [Imp] rejects instead of emitting a bare name. *)
Theorem default_alias_is_identifier `{UnicodeTables} path :
  (DefaultAlias path = "" ∨ go_identifier (DefaultAlias path)) ∧
  (go_identifier (rawSegment path) → DefaultAlias path = rawSegment path) ∧
  (DefaultAlias path = "" ↔ Forall (λ x, alias_rune x.1 = false) (runes (rawSegment path))).
Proof.
  unfold DefaultAlias. split; [apply sanitise_identifier|]. split; [apply sanitise_id|].
  set (seg := rawSegment path). unfold sanitiseAlias.
  destruct (kept_runes seg) as [Hr _]. cbv zeta in Hr.
  assert (foldr String.append "" (filter (λ x, alias_rune x.1 = true) (runes seg)).*2 = "" ↔
          Forall (λ x, alias_rune x.1 = false) (runes seg)) as Hnil.
  { split.
    - intros He. rewrite He in Hr. apply Forall_forall. intros x Hx. apply not_true_iff_false. intros Ha.
      assert (x ∈ filter (λ x, alias_rune x.1 = true) (runes seg)) as Hin by by apply list_elem_of_filter.
      rewrite <- Hr in Hin. by apply elem_of_nil in Hin.
    - intros Hall. rewrite filter_none; [done|]. intros x Hx Ha.
      rewrite Forall_forall in Hall. by rewrite Hall in Ha. }
  rewrite <- Hnil. set (out := foldr String.append "" _).
  destruct (String.eqb_spec out "") as [->|Hne]; [done|].
  split; [|done]. destruct (is_digit _); [done|]. destruct (is_keyword out); [|done].
  intros He. by destruct out.
Qed.

(** ** Provenance *)

Lemma last_index_none s p :
  last_index s p = None ↔ ∀ i, i ≤ String.length s → has_prefix (str_drop i s) p = false.
Proof.
  induction s as [|a s IH]; cbn [last_index].
  - split.
    + intros H i Hi. assert (i = 0) as -> by (simpl in Hi; lia). change (str_drop 0 "") with "".
      by destruct (has_prefix "" p).
    + intros H. pose proof (H 0 (le_n 0)) as H0. change (str_drop 0 "") with "" in H0. by rewrite H0.
  - destruct (last_index s p) as [k|] eqn:E.
    + split; [done|]. intros H. assert (Some k = None) as Hk; [|done].
      apply IH. intros i Hi. apply (H (S i)). simpl. lia.
    + split.
      * intros H [|i] Hi.
        -- change (str_drop 0 (String a s)) with (String a s). by destruct (has_prefix (String a s) p).
        -- apply (proj1 IH eq_refl). simpl in Hi. lia.
      * intros H. pose proof (H 0 (Nat.le_0_l _)) as H0.
        change (str_drop 0 (String a s)) with (String a s) in H0. by rewrite H0.
Qed.

Lemma last_index_app s p u :
  p ≠ "" → (∀ i, 0 < i → i ≤ String.length (p +:+ u) → has_prefix (str_drop i (p +:+ u)) p = false) →
  last_index (s +:+ (p +:+ u)) p = Some (String.length s).
Proof.
  intros Hp Hn. induction s as [|a s IH]; simpl; [|by rewrite IH].
  destruct (p +:+ u) as [|b t] eqn:E; [by destruct p|]. cbn [last_index].
  rewrite (proj2 (last_index_none t p)).
  - rewrite <- E. by rewrite has_prefix_app.
  - intros i Hi. apply (Hn (S i)); simpl; lia.
Qed.

(** The marker starts with the only colon in it. *)
Lemma marker_once t i :
  last_index t ProvenanceMarker = None → 0 < i → i ≤ String.length (ProvenanceMarker +:+ t) →
  has_prefix (str_drop i (ProvenanceMarker +:+ t)) ProvenanceMarker = false.
Proof.
  intros Ht Hi Hle. do 12 (destruct i as [|i]; [by first [lia | reflexivity]|]).
  simpl. apply (proj1 (last_index_none _ _) Ht). simpl in Hle. lia.
Qed.

Lemma index_newline_app h t :
  index_newline h = None → index_newline (h +:+ byte_string [10] +:+ t) = Some (String.length h).
Proof.
  induction h as [|a h IH]; [done|]. intros H. change (String a h +:+ ?u) with (String a (h +:+ u)).
  cbn [index_newline String.length] in *. destruct (is_newline a); [done|].
  destruct (index_newline h); [done|]. by rewrite IH.
Qed.

(** The provenance trailer reads back: from any body followed by the marker,
    a one-line hash, the line break and any further text without another
    marker, the hash is extracted, even when the body itself mentions the
    marker; and the trailer counts as being at the tail exactly when the text
    behind it is white space only. *)
Theorem provenance_roundtrip body h more :
  index_newline h = None →
  last_index (h +:+ byte_string [10] +:+ more) ProvenanceMarker = None →
  let stamped := body +:+ (ProvenanceMarker +:+ (h +:+ byte_string [10] +:+ more)) in
  ExtractProvenance stamped = Some h ∧
  IsProvenanceAtTail stamped = String.eqb (trim_space (byte_string [10] +:+ more)) "".
Proof.
  intros Hh Ht stamped. unfold ExtractProvenance, IsProvenanceAtTail, stamped.
  rewrite last_index_app by (done || intros; by apply marker_once).
  rewrite append_assoc, <- append_length, str_drop_app, index_newline_app by done.
  unfold default, from_option, id. by rewrite str_take_app, str_drop_app.
Qed.

Lemma provenance_roundtrip_witness :
  let nl := byte_string [10] in
  let stamped := "x :provenance old" +:+ (ProvenanceMarker +:+ ("sha256:00ff" +:+ nl +:+ "// edited")) in
  ExtractProvenance stamped = Some "sha256:00ff" ∧ IsProvenanceAtTail stamped = false.
Proof.
  intros nl stamped.
  destruct (provenance_roundtrip "x :provenance old" "sha256:00ff" "// edited") as [H1 H2];
    [reflexivity|reflexivity|].
  split; [exact H1|]. unfold stamped, nl. rewrite H2. vm_compute. reflexivity.
Defined.
