(* ===== verification/Manifest.v ===== *)
(** * The run manifest ([manifest])

    The record of every file a run produced ([manifest.go]), the orphan
    classification against it ([prune.go]) and its reading and writing
    ([io.go]).  [emit.Target], the key of an entry, comes from [emit].

    A Go map used as a set is a [gset]; where the code distinguishes a nil map
    it is an [option].  The manifest file is modelled by what [json.Unmarshal]
    makes of it: [None] when it is absent, unreadable or malformed, as an empty
    file is.  Writing therefore gives what the written text reads back as:
    [encoding/json] replaces invalid UTF-8, and [PluginAttribution.MarshalJSON]
    quotes names by Go's rules, whose escapes are not all JSON; then
    [MarshalIndent] fails, the error is dropped and an empty file is written.
    The keys of [rl_ResolvedFrom] are the names of layout fields. *)

From S2P Require Import Prelude GoStrings Unicode Plugin Build FilePath.

Local Open Scope string_scope.
Local Open Scope nat_scope.
Local Open Scope list_scope.

(** ** [emit.Target] *)

Record Target := MkTarget {
  t_Dir : string;
  t_Filename : string;
  t_Package : string;
  t_ImportPath : string;
}.
#[global] Instance Target_eq_dec : EqDecision Target.
Proof. solve_decision. Defined.
#[global] Program Instance Target_countable : Countable Target :=
  inj_countable' (λ t, (t_Dir t, t_Filename t, t_Package t, t_ImportPath t))
    (λ x, MkTarget x.1.1.1 x.1.1.2 x.1.2 x.2) _.
Next Obligation. by intros []. Qed.

Definition IsZero (t : Target) : bool := bool_decide (t = MkTarget "" "" "" "").

Definition JoinPath (t : Target) : string :=
  if String.eqb (t_Dir t) "" || String.eqb (t_Filename t) "" then ""
  else t_Dir t +:+ "/" +:+ t_Filename t.

(** ** [manifest.go] *)

Definition manifest_Version : Z := 2.

Record PluginAttribution := MkAttr { a_Name : string; a_OutputTag : string }.
#[global] Instance PluginAttribution_eq_dec : EqDecision PluginAttribution.
Proof. solve_decision. Defined.

Definition attr_String (a : PluginAttribution) : string :=
  if String.eqb (a_OutputTag a) "" then a_Name a else a_Name a +:+ ":" +:+ a_OutputTag a.

Record ResolvedLayout := MkResolved {
  rl_Layout : string;
  rl_Package : string;
  rl_Dir : string;
  rl_Filename : string;
  rl_ResolvedFrom : gmap string Layer;
}.
#[global] Instance ResolvedLayout_eq_dec : EqDecision ResolvedLayout.
Proof. solve_decision. Defined.

Record Output := MkOutput {
  out_Target : Target;
  out_Plugins : list PluginAttribution;
  out_Hash : string;
  out_ResolvedLayout : option ResolvedLayout;
  out_PipelineID : string;
}.
#[global] Instance Output_eq_dec : EqDecision Output.
Proof. solve_decision. Defined.

Record Manifest := MkManifest {
  m_Version : Z;
  m_Brand : string;
  m_RunID : string;
  m_Outputs : list Output;
}.
#[global] Instance Manifest_eq_dec : EqDecision Manifest.
Proof. solve_decision. Defined.

Definition New (runID : string) : Manifest := MkManifest manifest_Version "" runID [].

Definition Add (m : Manifest) (out : Output) : Manifest :=
  MkManifest (m_Version m) (m_Brand m) (m_RunID m) (m_Outputs m ++ [out]).

Definition set_brand (m : Manifest) (brand : string) : Manifest :=
  MkManifest (m_Version m) brand (m_RunID m) (m_Outputs m).

Definition Targets (m : Manifest) : list Target := map out_Target (m_Outputs m).

Fixpoint has_target (l : list Output) (t : Target) : bool :=
  match l with
  | [] => false
  | o :: l => if bool_decide (out_Target o = t) then true else has_target l t
  end.
Definition HasTarget (m : Manifest) (t : Target) : bool := has_target (m_Outputs m) t.

(** ** [io.go] *)

Inductive ReadError := ErrUnreadable | ErrUnsupportedVersion (got : Z).

Definition Read (file : option Manifest) : res ReadError Manifest :=
  match file with
  | None => Err ErrUnreadable
  | Some m =>
      if (m_Version m =? manifest_Version)%Z then Ok m else Err (ErrUnsupportedVersion (m_Version m))
  end.

(** Whether the escape [strconv.AppendQuote] writes for a rune is one of JSON's:
    it also writes [\a], [\v], [\x] and [\U].  [is_print] is [strconv.IsPrint]. *)
Definition json_escape (is_print : N → bool) (x : N * string) : bool :=
  let '(r, c) := x in
  if broken x then false
  else if (r =? 34)%N || (r =? 92)%N || is_print r then true
  else if (r =? 8)%N || (r =? 9)%N || (r =? 10)%N || (r =? 12)%N || (r =? 13)%N then true
  else if (r <? 32)%N || (r =? 127)%N then false
  else (r <? 65536)%N.
Definition quotable (is_print : N → bool) (s : string) : bool := forallb (json_escape is_print) (runes s).

(** [PluginAttribution.MarshalJSON] gives valid JSON, which then reads back as
    the attribution. *)
Definition attr_MarshalJSON (is_print : N → bool) (a : PluginAttribution) : bool :=
  quotable is_print (a_Name a) && quotable is_print (a_OutputTag a).

Definition json_target (t : Target) : Target :=
  MkTarget (json_text (t_Dir t)) (json_text (t_Filename t)) (json_text (t_Package t)) (json_text (t_ImportPath t)).
Definition json_layout (l : ResolvedLayout) : ResolvedLayout :=
  MkResolved (json_text (rl_Layout l)) (json_text (rl_Package l)) (json_text (rl_Dir l)) (json_text (rl_Filename l))
    (rl_ResolvedFrom l).
Definition json_output (o : Output) : Output :=
  MkOutput (json_target (out_Target o)) (out_Plugins o) (json_text (out_Hash o))
    (json_layout <$> out_ResolvedLayout o) (json_text (out_PipelineID o)).

(** What the text of [json.MarshalIndent] reads back as; [None] when it fails
    and there is no text. *)
Definition MarshalIndent (is_print : N → bool) (m : Manifest) : option Manifest :=
  if forallb (λ o, forallb (attr_MarshalJSON is_print) (out_Plugins o)) (m_Outputs m)
  then Some (MkManifest (m_Version m) (json_text (m_Brand m)) (json_text (m_RunID m)) (json_output <$> m_Outputs m))
  else None.

(** [Write]: [fault] is the file-system error of this call, if any; the file is
    replaced by renaming, so a call that fails leaves it. *)
Definition Write (is_print : N → bool) (fault : option WriteFault) (file : option Manifest) (m : Manifest)
    : res WriteFault unit * option Manifest :=
  match fault with Some e => (Err e, file) | None => (Ok tt, MarshalIndent is_print m) end.

(** The manifests JSON carries unchanged: all texts are UTF-8, and the names
    and tags of plugins need no escape that JSON lacks. *)
Definition output_texts (o : Output) : list string :=
  let t := out_Target o in
  [t_Dir t; t_Filename t; t_Package t; t_ImportPath t; out_Hash o; out_PipelineID o] ++
  match out_ResolvedLayout o with
  | Some l => [rl_Layout l; rl_Package l; rl_Dir l; rl_Filename l]
  | None => []
  end.
Definition output_encodable (is_print : N → bool) (o : Output) : bool :=
  forallb valid_utf8 (output_texts o) && forallb (attr_MarshalJSON is_print) (out_Plugins o).
Definition encodable (is_print : N → bool) (m : Manifest) : bool :=
  valid_utf8 (m_Brand m) && valid_utf8 (m_RunID m) && forallb (output_encodable is_print) (m_Outputs m).

Lemma json_output_id is_print o : output_encodable is_print o = true → json_output o = o.
Proof.
  destruct o as [[d f p i] pl h [[l lp ld lf lr]|] pid]; unfold output_encodable, output_texts; cbn -[json_text valid_utf8];
    rewrite !andb_true_iff; intros [Ht _]; unfold json_output, json_target, json_layout; cbn -[json_text valid_utf8];
    rewrite !json_text_valid by tauto; done.
Qed.

Lemma MarshalIndent_id is_print m : encodable is_print m = true → MarshalIndent is_print m = Some m.
Proof.
  destruct m as [v b r os]. unfold encodable, MarshalIndent. cbn -[json_text valid_utf8]. rewrite !andb_true_iff. intros [[Hb Hr] Ho].
  rewrite !json_text_valid by done.
  assert (forallb (λ o, forallb (attr_MarshalJSON is_print) (out_Plugins o)) os = true ∧ json_output <$> os = os) as [-> ->]; [|done].
  induction os as [|o os IH]; [done|]. cbn in *. apply andb_true_iff in Ho as [Ho Hos]. destruct (IH Hos) as [-> ->].
  rewrite (json_output_id is_print o Ho). unfold output_encodable in Ho. apply andb_true_iff in Ho as [_ ->]. done.
Qed.

(** ** [prune.go] *)

Inductive OrphanReason := ReasonUnclaimed | ReasonSourceGone.
#[global] Instance OrphanReason_eq_dec : EqDecision OrphanReason.
Proof. solve_decision. Defined.

Definition OrphanReason_String (r : OrphanReason) : string :=
  match r with ReasonUnclaimed => "unclaimed" | ReasonSourceGone => "source-gone" end.

Record Orphan := MkOrphan { or_Output : Output; or_Reason : OrphanReason }.

Record PruneOptions := MkPruneOptions {
  Emitted : option (gset Target);
  Scope : option (gset string);
  PipelineID : string;
  GoneSources : option (gset string);
}.

(** Membership with the [_test] shift undone. *)
Definition shifted_in (path : string) (s : gset string) : bool :=
  if bool_decide (path ∈ s) then true
  else match cut_suffix path "_test" with
       | Some stripped => bool_decide (stripped ∈ s)
       | None => false
       end.

Definition inScope (path : string) (scope : gset string) : bool :=
  if String.eqb path "" then false else shifted_in path scope.

Definition isGone (path : string) (gone : option (gset string)) : bool :=
  match gone with
  | None => false
  | Some gone => if String.eqb path "" then false else shifted_in path gone
  end.

Fixpoint prune_loop (emitted : gset Target) (scope : gset string) (pid : string)
    (gone : option (gset string)) (l : list Output) : list Orphan :=
  match l with
  | [] => []
  | o :: l =>
      let rest := prune_loop emitted scope pid gone l in
      if negb (String.eqb (out_PipelineID o) pid) then rest
      else if bool_decide (out_Target o ∈ emitted) then rest
      else if inScope (t_ImportPath (out_Target o)) scope then MkOrphan o ReasonUnclaimed :: rest
      else if isGone (t_ImportPath (out_Target o)) gone then MkOrphan o ReasonSourceGone :: rest
      else rest
  end.

Definition PruneAll (prev : option Manifest) (opts : PruneOptions) : list Orphan :=
  match prev, Scope opts, Emitted opts with
  | Some prev, Some scope, Some emitted =>
      if String.eqb (PipelineID opts) "" then []
      else prune_loop emitted scope (PipelineID opts) (GoneSources opts) (m_Outputs prev)
  | _, _, _ => []
  end.

Definition Prune (prev : option Manifest) (emitted : option (gset Target))
    (scope : option (gset string)) (pid : string) : list Output :=
  map or_Output (PruneAll prev (MkPruneOptions emitted scope pid None)).
