(* ===== verification/Layout.v ===== *)
(** * Routing declarations to files ([pipeline/layout.go])

    Every generated declaration, and every contribution to a file slot, is
    routed to a target: the source position of its origin, the plugin's
    declared suffix, the layout policy, the routing directives on the origin
    and its package, and the command line each may decide a field of it.  The
    recorder, the policy lookups and the override maps are those of
    [pipeline/pipeline.go].

    The phase threads the diagnostics, the retained layout errors, the recorder
    and the map of output packages.  The walk that hands the output packages to
    plugin-defined values is not modelled, nor is the append to a file slot. *)

From S2P Require Import Prelude GoStrings Position Diag Directive Plugin Build FilePath Manifest.

Local Open Scope string_scope.
Local Open Scope nat_scope.
Local Open Scope list_scope.

Definition LayoutCentralised : string := "centralised".

(** ** Source nodes as the router sees them *)

(** The owning-package chain: packaged kinds, files, methods and fields with
    their owner, enum variants, and the kinds without routing semantics. *)
Inductive onode :=
| OPackaged (pkg : string)
| OFile (owner : option string)
| OMember (owner : option onode)
| OVariant (owner : option string)
| OOther.

Fixpoint originPackagePath (n : onode) : string :=
  match n with
  | OPackaged pkg => pkg
  | OFile owner => default "" owner
  | OMember (Some owner) => originPackagePath owner
  | OMember None => ""
  | OVariant owner => default "" owner
  | OOther => ""
  end.

(** [og_id] is the identity of the node value. *)
Record Origin := MkOrigin {
  og_id : nat; og_shape : onode; og_pos : Pos; og_directives : list Directive;
}.
Record SrcPackage := MkSrc { sp_Name : string; sp_Path : string; sp_directives : list Directive }.
Record EmitPackage := MkEmit { ep_Name : string; ep_Path : string }.

(** The pipeline and the store as the phase reads them. *)
Record LayoutEnv := MkLayoutEnv {
  defaultPolicy : LayoutPolicy;
  pluginPolicies : gmap string LayoutPolicy;
  pluginTagPolicies : gmap pluginTagKey LayoutPolicy;
  outFilename : string;
  pluginOutFilenames : gmap pluginTagKey string;
  directiveOwners : gmap string string;
  sourceRoot : string;
  nodePackages : gmap string SrcPackage;
  emitPackages : gmap string EmitPackage;
}.

Definition LayoutPolicyFor (p : LayoutEnv) (plugin : string) : LayoutPolicy :=
  match pluginPolicies p !! plugin with Some pol => pol | None => defaultPolicy p end.

Definition LayoutPolicyForTag (p : LayoutEnv) (plugin tag : string) : LayoutPolicy :=
  if String.eqb tag "" then LayoutPolicyFor p plugin
  else match pluginTagPolicies p !! (plugin, tag) with
       | Some pol => pol
       | None => LayoutPolicyFor p plugin
       end.

Definition PluginOutputFilename (p : LayoutEnv) (plugin tag : string) : option string :=
  match pluginOutFilenames p !! (plugin, tag) with
  | Some path => Some path
  | None => if String.eqb tag "" then None else pluginOutFilenames p !! (plugin, "")
  end.

Definition originSourcePackage (p : LayoutEnv) (origin : Origin) : option SrcPackage :=
  let path := originPackagePath (og_shape origin) in
  if String.eqb path "" then None else nodePackages p !! path.

Definition emitPackageByPath (p : LayoutEnv) (path : string) : option EmitPackage :=
  if String.eqb path "" then None else emitPackages p !! path.

Definition originSourceDirBasename (origin : Origin) (root : string) : string * string :=
  let file := Position.File (og_pos origin) in
  if String.eqb file "" then ("", "")
  else
    let base := Base file in
    let base := str_take (String.length base - String.length (Ext base)) base in
    let d := path_dir file in
    let d := if negb (String.eqb root "") && IsAbs d then
               match Rel_abs root d with
               | Some rel => if negb (has_prefix rel "..") then rel else d
               | None => d
               end
             else d in
    (if String.eqb d "." then "" else d, base).

(** ** Routing directives *)

Inductive outScope := scopePackage | scopeEntity.
#[global] Instance outScope_eq_dec : EqDecision outScope.
Proof. solve_decision. Defined.

Record outDirectiveSpec := MkSpec {
  os_Path : string; os_PluginName : string; os_Tag : string; os_Package : string; os_scope : outScope;
}.
#[global] Instance outDirectiveSpec_eq_dec : EqDecision outDirectiveSpec.
Proof. solve_decision. Defined.

Definition scopeWeight : nat := 4.

Definition score (s : outDirectiveSpec) : nat :=
  (if String.eqb (os_PluginName s) "" then 0 else 1) +
  (if String.eqb (os_Tag s) "" then 0 else 1) +
  (if decide (os_scope s = scopeEntity) then scopeWeight else 0).

Definition out_spec (p : LayoutEnv) (scope : outScope) (d : Directive) : option outDirectiveSpec :=
  if String.eqb (Name d) OutDirective then
    match Args d with
    | [] => None
    | path :: _ => Some (MkSpec path (Value d "plugin") (Value d "tag") (Value d "pkg") scope)
    end
  else match directiveOwners p !! Name d with
  | None => None
  | Some owner =>
      let out := Value d "out" in
      let pkg := Value d "pkg" in
      let tag := Value d "tag" in
      if String.eqb out "" && String.eqb pkg "" && String.eqb tag "" then None
      else Some (MkSpec out owner tag pkg scope)
  end.

Definition appendOutSpecs (p : LayoutEnv) (dst : list outDirectiveSpec) (ds : list Directive)
    (scope : outScope) : list outDirectiveSpec := dst ++ omap (out_spec p scope) ds.

Definition outDirectivesFor (p : LayoutEnv) (n : Origin) (pkg : option SrcPackage)
    : list outDirectiveSpec :=
  let specs := appendOutSpecs p [] (og_directives n) scopeEntity in
  match pkg with
  | Some pkg => appendOutSpecs p specs (sp_directives pkg) scopePackage
  | None => specs
  end.

Definition applies (plugin tag : string) (s : outDirectiveSpec) : bool :=
  (String.eqb (os_PluginName s) "" || String.eqb (os_PluginName s) plugin) &&
  (String.eqb (os_Tag s) "" || String.eqb (os_Tag s) tag).

(** The loop: the best spec so far with its score, and whether one of the same
    score disagreed. *)
Definition select_step (plugin tag : string) (st : option (outDirectiveSpec * nat) * bool)
    (s : outDirectiveSpec) : option (outDirectiveSpec * nat) * bool :=
  if negb (applies plugin tag s) then st
  else match st.1 with
  | None => (Some (s, score s), false)
  | Some (best, bestScore) =>
      if bestScore <? score s then (Some (s, score s), false)
      else if (score s =? bestScore) && negb (bool_decide (s = best)) then (st.1, true)
      else st
  end.

Definition selectOutDirective (specs : list outDirectiveSpec) (plugin tag : string)
    (ps : PluginSink) (origin : Origin) (sk : Sink) : option outDirectiveSpec * Sink :=
  let '(best, conflict) := foldl (select_step plugin tag) (None, false) specs in
  (fst <$> best,
   if conflict then
     Errorf ps sk (og_pos origin)
       "conflicting routing for %q: two directives of equal scope both apply and neither takes precedence; scope one with `+gen:out plugin=<name>` or remove it"
       [AStr plugin]
   else sk).

Definition splitOutDirectivePath (value : string) : string * string :=
  let dirOnly := has_suffix value "/" in
  let value := trim_prefix (Clean ("/" +:+ value)) "/" in
  let value := if dirOnly && negb (String.eqb value "") then value +:+ "/" else value in
  let '(dir, filename) := path_Split value in
  (trim_right (Ascii.eqb "/") dir, filename).

(** ** The phase state *)

Inductive LayoutError :=
| ErrMissingFilenameProvider (kind qname setBy : string)
| ErrNoDefaultOutput (kind qname setBy : string) (tags : list string)
| ErrUnknownOutputTag (kind qname setBy tag : string) (tags : list string)
| ErrUnscopedMultiOutputOverride (kind qname plugin path : string)
| ErrPositionlessOrigin (kind qname plugin filename : string).

Record layerSet := MkLayers {
  l_Filename : Layer; l_Layout : Layer; l_Dir : Layer; l_Package : Layer;
}.
#[global] Instance layerSet_eq_dec : EqDecision layerSet.
Proof. solve_decision. Defined.

(** The [ResolvedLayout] before its [ResolvedFrom] map is built. *)
Record route := MkRoute { r_target : Target; r_Layout : string; r_layers : layerSet }.

(** [resolvedEntry], [resolvedRecorder] *)
Record resolvedEntry := MkResolvedEntry { re_Layout : string; re_target : Target; re_layers : layerSet }.
Record recorder := MkRecorder {
  rec_entries : gmap Target resolvedEntry;
  rec_last : option (Target * layerSet);
}.

(** The manifest form of an entry, and of everything the phase recorded. *)
Definition resolved (e : resolvedEntry) : ResolvedLayout :=
  MkResolved (re_Layout e) (t_Package (re_target e)) (t_Dir (re_target e)) (t_Filename (re_target e))
    {[ "filename" := l_Filename (re_layers e); "layout" := l_Layout (re_layers e);
       "dir" := l_Dir (re_layers e); "package" := l_Package (re_layers e) ]}.
Definition resolved_layouts (r : recorder) : gmap Target ResolvedLayout := resolved <$> rec_entries r.

(** The first tag inline, the rest in a map. *)
Record outputPaths := MkPaths {
  op_tag : string; op_path : string; op_set : bool; op_more : gmap string string;
}.
Definition no_paths : outputPaths := MkPaths "" "" false ∅.

Record LState := MkL {
  ls_sink : Sink;
  ls_errs : list LayoutError;
  ls_rec : recorder;
  ls_loc : gmap (nat * string) outputPaths;
}.

Definition with_sink (st : LState) (sk : Sink) : LState := MkL sk (ls_errs st) (ls_rec st) (ls_loc st).

Definition recordOutputPath (loc : gmap (nat * string) outputPaths) (origin : nat)
    (plugin tag importPath : string) : gmap (nat * string) outputPaths :=
  let key := (origin, plugin) in
  let cur := default no_paths (loc !! key) in
  if negb (op_set cur) then <[key := MkPaths tag importPath true (op_more cur)]> loc
  else if String.eqb tag (op_tag cur)
  then <[key := MkPaths (op_tag cur) importPath (op_set cur) (op_more cur)]> loc
  else <[key := MkPaths (op_tag cur) (op_path cur) (op_set cur) (<[tag := importPath]> (op_more cur))]> loc.

Definition byTag (o : outputPaths) : option (gmap string string) :=
  if negb (op_set o) then None
  else Some (op_more o ∪ <[op_tag o := op_path o]> ∅).

Definition record (st : LState) (r : route) : LState :=
  let rec := ls_rec st in
  let t := r_target r in
  if bool_decide (rec_last rec = Some (t, r_layers r)) then st
  else match rec_entries rec !! t with
  | Some existing =>
      let sk := if negb (bool_decide (re_layers existing = r_layers r)) ||
                   negb (String.eqb (re_Layout existing) (r_Layout r))
                then Sink_Internalf (ls_sink st) zero_pos
                  "pipeline.layout: divergent ResolvedLayout for target %+v: existing=%+v new=%+v"
                  [AStr (t_Filename t); AStr (re_Layout existing); AStr (r_Layout r)]
                else ls_sink st in
      MkL sk (ls_errs st) (MkRecorder (rec_entries rec) (Some (t, r_layers r))) (ls_loc st)
  | None =>
      MkL (ls_sink st) (ls_errs st)
        (MkRecorder (<[t := MkResolvedEntry (r_Layout r) t (r_layers r)]> (rec_entries rec))
           (Some (t, r_layers r))) (ls_loc st)
  end.

(** ** Composing one target *)

Section Compose.
Context (error_text : LayoutError → string).

Definition layout_channel : PluginSink := For "pipeline.layout".

Definition reportLayoutErr (st : LState) (e : LayoutError) : LState :=
  MkL (Errorf layout_channel (ls_sink st) zero_pos "%s" [AStr (error_text e)])
    (ls_errs st ++ [e]) (ls_rec st) (ls_loc st).

Definition declaredTags (os : list Plugin.Output) : list string := map o_Tag os.

Definition resolveSuffix (st : LState) (outputs : gmap string (list Plugin.Output))
    (setBy tag kind qname : string) : option string * LState :=
  match default [] (outputs !! setBy) with
  | [] => (None, reportLayoutErr st (ErrMissingFilenameProvider kind qname setBy))
  | os =>
      match filter (λ o, o_Tag o = tag) os with
      | o :: _ => (Some (o_Suffix o), st)
      | [] =>
          if String.eqb tag ""
          then (None, reportLayoutErr st (ErrNoDefaultOutput kind qname setBy (declaredTags os)))
          else (None, reportLayoutErr st (ErrUnknownOutputTag kind qname setBy tag (declaredTags os)))
      end
  end.

(** The policy switch; [None] for an unknown layout. *)
Definition base_route (policy : LayoutPolicy) (src : option SrcPackage) (emit : option EmitPackage)
    (srcDir filename : string) : option route :=
  if String.eqb (Layout policy) LayoutCentralised then
    let '(dir, dirFrom) := if String.eqb (Dir policy) "" then (Package policy, PackageFrom policy)
                           else (Dir policy, DirFrom policy) in
    Some (MkRoute (MkTarget dir filename (Package policy) "") (Layout policy)
            (MkLayers LayerPluginSuffix (LayoutFrom policy) dirFrom (PackageFrom policy)))
  else if String.eqb (Layout policy) LayoutAlongsideSource then
    let src_route := match src with Some s => (sp_Name s, sp_Path s) | None => ("", "") end in
    let '(pkg, ip) := match emit with
                      | Some e => if String.eqb (ep_Name e) "" then src_route else (ep_Name e, ep_Path e)
                      | None => src_route
                      end in
    Some (if String.eqb (Package policy) "" then
            MkRoute (MkTarget srcDir filename pkg ip) (Layout policy)
              (MkLayers LayerPluginSuffix (LayoutFrom policy) LayerFramework LayerFramework)
          else
            MkRoute (MkTarget srcDir filename (Package policy)
                       match src with Some s => sp_Path s | None => "" end) (Layout policy)
              (MkLayers LayerPluginSuffix (LayoutFrom policy) LayerFramework (PackageFrom policy)))
  else None.

Definition set_filename (r : route) (f : string) (l : Layer) : route :=
  let t := r_target r in let ly := r_layers r in
  MkRoute (MkTarget (t_Dir t) f (t_Package t) (t_ImportPath t)) (r_Layout r)
    (MkLayers l (l_Layout ly) (l_Dir ly) (l_Package ly)).
Definition stack_dir (r : route) (d : string) (l : Layer) : route :=
  let t := r_target r in let ly := r_layers r in
  MkRoute (MkTarget (Join [t_Dir t; d]) (t_Filename t) (t_Package t) (t_ImportPath t)) (r_Layout r)
    (MkLayers (l_Filename ly) (l_Layout ly) l (l_Package ly)).
Definition set_package (r : route) (pkg ip : string) (l : Layer) : route :=
  let t := r_target r in let ly := r_layers r in
  MkRoute (MkTarget (t_Dir t) (t_Filename t) pkg ip) (r_Layout r)
    (MkLayers (l_Filename ly) (l_Layout ly) (l_Dir ly) l).

(** The selected routing directive, with its split path. *)
Definition apply_directive (r : route) (src : option SrcPackage) (spec : outDirectiveSpec)
    (dir filename : string) : route :=
  let r := if String.eqb filename "" then r else set_filename r filename LayerDirective in
  let r := if String.eqb dir "" then r
           else
             let r := stack_dir r dir LayerDirective in
             if negb (String.eqb (os_Package spec) "") then r
             else set_package r (Base (t_Dir (r_target r)))
                    match src with
                    | Some s => Join [sp_Path s; dir]
                    | None => t_ImportPath (r_target r)
                    end (l_Package (r_layers r)) in
  if String.eqb (os_Package spec) "" then r
  else set_package r (os_Package spec)
         match src with
         | None => ""
         | Some s => if String.eqb dir "" then sp_Path s else Join [sp_Path s; dir]
         end LayerDirective.

(** The [-o] override. *)
Definition apply_cli (r : route) (cli : string) : route :=
  if String.eqb cli "" then r
  else
    let '(dir, filename) := splitOutDirectivePath cli in
    let r := if String.eqb filename "" then r else set_filename r filename LayerCLI in
    if String.eqb dir "" then r else stack_dir r dir LayerCLI.

(** Go's external test package. *)
Definition test_shift (r : route) : route :=
  let t := r_target r in
  if has_suffix (t_Filename t) "_test.go" && negb (String.eqb (t_Package t) "") &&
     negb (has_suffix (t_Package t) "_test")
  then set_package r (t_Package t +:+ "_test")
         (if String.eqb (t_ImportPath t) "" then "" else t_ImportPath t +:+ "_test") (l_Package (r_layers r))
  else r.

Definition composeTarget (p : LayoutEnv) (st : LState) (plugin tag suffix : string)
    (multiOutput : bool) (origin : Origin) (emitPkgPath kind qname : string)
    : option route * LState :=
  let policy := LayoutPolicyForTag p plugin tag in
  let src := originSourcePackage p origin in
  let emit := emitPackageByPath p emitPkgPath in
  let '(srcDir, basename) := originSourceDirBasename origin (sourceRoot p) in
  match base_route policy src emit srcDir (basename +:+ suffix) with
  | None =>
      (None, with_sink st (Sink_Internalf (ls_sink st) zero_pos
         "pipeline.layout: unknown layout %q for plugin %q; cannot route"
         [AStr (Layout policy); AStr plugin]))
  | Some r =>
      let '(sel, sk) := selectOutDirective (outDirectivesFor p origin src) plugin tag layout_channel
                          origin (ls_sink st) in
      let st := with_sink st sk in
      let directed :=
        match sel with
        | None => Ok r
        | Some spec =>
            let '(dir, filename) := splitOutDirectivePath (os_Path spec) in
            if multiOutput && negb (String.eqb filename "") && String.eqb (os_Tag spec) ""
            then Err (ErrUnscopedMultiOutputOverride kind qname plugin (os_Path spec))
            else Ok (apply_directive r src spec dir filename)
        end in
      match directed with
      | Err e => (None, reportLayoutErr st e)
      | Ok r =>
          let cli := match PluginOutputFilename p plugin tag with
                     | Some path => path
                     | None => outFilename p
                     end in
          let r := apply_cli r cli in
          if String.eqb basename "" && bool_decide (l_Filename (r_layers r) = LayerPluginSuffix)
          then (None, reportLayoutErr st
                  (ErrPositionlessOrigin kind qname plugin (t_Filename (r_target r))))
          else (Some (test_shift r), st)
      end
  end.

(** ** Routing everything *)

Record Decl := MkDecl {
  d_kind : string; d_qname : string; d_setBy : string; d_tag : string;
  d_origin : option Origin; d_pkgPath : string; d_target : Target;
}.
Definition zero_target : Target := MkTarget "" "" "" "".
Definition set_target (d : Decl) (t : Target) : Decl :=
  MkDecl (d_kind d) (d_qname d) (d_setBy d) (d_tag d) (d_origin d) (d_pkgPath d) t.

Definition composeOrZero (p : LayoutEnv) (outputs : gmap string (list Plugin.Output))
    (st : LState) (d : Decl) : Target * LState :=
  match d_origin d with
  | None =>
      (zero_target, with_sink st (Errorf layout_channel (ls_sink st) zero_pos
         "synthetic %s %q has no Origin; cannot route" [AStr (d_kind d); AStr (d_qname d)]))
  | Some origin =>
      match resolveSuffix st outputs (d_setBy d) (d_tag d) (d_kind d) (d_qname d) with
      | (None, st) => (zero_target, st)
      | (Some suffix, st) =>
          let multi := 1 <? length (default [] (outputs !! d_setBy d)) in
          match composeTarget p st (d_setBy d) (d_tag d) suffix multi origin (d_pkgPath d)
                  (d_kind d) (d_qname d) with
          | (None, st) => (zero_target, st)
          | (Some r, st) =>
              let st := record st r in
              (r_target r,
               MkL (ls_sink st) (ls_errs st) (ls_rec st)
                 (recordOutputPath (ls_loc st) (og_id origin) (d_setBy d) (d_tag d)
                    (t_ImportPath (r_target r))))
          end
      end
  end.

(** The declarations come in dispatch order: structs, interfaces, functions,
    variables, constants, enums, top-level methods, aliases. *)
Fixpoint routeDecls (p : LayoutEnv) (outputs : gmap string (list Plugin.Output)) (st : LState)
    (ds : list Decl) : list Decl * LState :=
  match ds with
  | [] => ([], st)
  | d :: ds =>
      let '(t, st) := composeOrZero p outputs st d in
      let '(ds', st) := routeDecls p outputs st ds in
      (set_target d t :: ds', st)
  end.

(** A pending contribution to a slot of the file its origin routes to. *)
Record SlotTuple := MkTuple { st_slot : string; st_setBy : string; st_tag : string; st_origin : Origin }.

Fixpoint materialiseOriginSlots (p : LayoutEnv) (outputs : gmap string (list Plugin.Output))
    (append_err : Target → SlotTuple → option string) (st : LState) (pending : list SlotTuple)
    : list (Target * SlotTuple) * LState :=
  match pending with
  | [] => ([], st)
  | tup :: pending =>
      let kind := "slot " +:+ st_slot tup in
      match resolveSuffix st outputs (st_setBy tup) (st_tag tup) kind "" with
      | (None, st) => materialiseOriginSlots p outputs append_err st pending
      | (Some suffix, st) =>
          let multi := 1 <? length (default [] (outputs !! st_setBy tup)) in
          match composeTarget p st (st_setBy tup) (st_tag tup) suffix multi (st_origin tup) "" kind "" with
          | (None, st) => materialiseOriginSlots p outputs append_err st pending
          | (Some r, st) =>
              let st := record st r in
              let st := MkL (ls_sink st) (ls_errs st) (ls_rec st)
                          (recordOutputPath (ls_loc st) (og_id (st_origin tup)) (st_setBy tup)
                             (st_tag tup) (t_ImportPath (r_target r))) in
              let '(ok, st) :=
                match append_err (r_target r) tup with
                | None => (true, st)
                | Some err => (false, with_sink st (Errorf layout_channel (ls_sink st) zero_pos
                      "slot %q: append failed on %s: %v"
                      [AStr (st_slot tup); AStr (JoinPath (r_target r)); AStr err]))
                end in
              let '(rest, st) := materialiseOriginSlots p outputs append_err st pending in
              ((if ok then [(r_target r, tup)] else []) ++ rest, st)
          end
      end
  end.
End Compose.

(** ** One file, one package *)

(** [fileKey] *)
Abbreviation fileKey := (string * string)%type.
Definition key_path (k : fileKey) : string := k.1 +:+ "/" +:+ k.2.
Definition file_key (t : Target) : fileKey := (t_Dir t, t_Filename t).

(** The order in which the runtime ranges over the set of conflicted files. *)
Class KeyOrder := {
  key_list : gset fileKey → list fileKey;
  key_list_perm : ∀ s, key_list s ≡ₚ elements s;
}.
#[global] Program Instance elements_order : KeyOrder := {| key_list s := elements s |}.
Next Obligation. done. Qed.

Definition visit (st : gmap fileKey string * gset fileKey) (t : Target) : gmap fileKey string * gset fileKey :=
  let '(firstPkg, conflicted) := st in
  if String.eqb (t_Dir t) "" || String.eqb (t_Filename t) "" then st
  else match firstPkg !! file_key t with
  | None => (<[file_key t := t_Package t]> firstPkg, conflicted)
  | Some prev =>
      if negb (String.eqb prev (t_Package t)) then (firstPkg, {[file_key t]} ∪ conflicted) else st
  end.

(** Both passes walk every bucket but the top-level methods. *)
Definition walked (d : Decl) : bool := negb (String.eqb (d_kind d) "method").

Definition find_conflicts (ds : list Decl) : gset fileKey :=
  (foldl visit (∅, ∅) (map d_target (filter (λ d, walked d = true) ds))).2.

Definition take_detail (conflicted : gset fileKey) (details : gmap fileKey (gmap string (list string)))
    (d : Decl) : gmap fileKey (gmap string (list string)) :=
  let key := file_key (d_target d) in
  if bool_decide (key ∈ conflicted) && walked d then
    let pkgs := default ∅ (details !! key) in
    let qnames := default [] (pkgs !! t_Package (d_target d)) in
    <[key := <[t_Package (d_target d) := qnames ++ [d_qname d]]> pkgs]> details
  else details.

Definition clear_decl (conflicted : gset fileKey) (d : Decl) : Decl :=
  if bool_decide (file_key (d_target d) ∈ conflicted) && walked d then set_target d zero_target else d.

Definition formatPackageConflict (pkgs : gmap string (list string)) : string :=
  let keys := sort_strings (map_to_list pkgs).*1 in
  str_join "; " (map (λ pkg, pkg +:+ "={" +:+ str_join "," (default [] (pkgs !! pkg)) +:+ "}") keys).

Definition enforceOneFileOnePackage `{KeyOrder} (ds : list Decl) (sk : Sink) : list Decl * Sink :=
  let conflicted := find_conflicts ds in
  if bool_decide (conflicted = ∅) then (ds, sk)
  else
    let details := foldl (take_detail conflicted) ∅ ds in
    (map (clear_decl conflicted) ds,
     foldl (λ sk key, Errorf layout_channel sk zero_pos
              "one-file-one-package violation at %s: conflicting package declarations %s"
              [AStr (key_path key); AStr (formatPackageConflict (default ∅ (details !! key)))])
       sk (key_list conflicted)).

(** ** The phase *)

Definition collectPluginOutputs (generators : list Plugin) (lang : string)
    : gmap string (list Plugin.Output) :=
  foldl (λ m gen, match p_Outputs gen with
                  | None => m
                  | Some fp => match fp lang with [] => m | os => <[p_name gen := os]> m end
                  end) ∅ generators.

Definition runLayout `{KeyOrder} (error_text : LayoutError → string) (p : LayoutEnv)
    (generators : list Plugin) (lang : string) (append_err : Target → SlotTuple → option string)
    (ds : list Decl) (pending : list SlotTuple) (sk : Sink)
    : list Decl * list (Target * SlotTuple) * LState :=
  let outputs := collectPluginOutputs generators lang in
  let st := MkL sk [] (MkRecorder ∅ None) ∅ in
  let '(ds, st) := routeDecls error_text p outputs st ds in
  let '(slots, st) := materialiseOriginSlots error_text p outputs append_err st pending in
  let '(ds, sk) := enforceOneFileOnePackage ds (ls_sink st) in
  (ds, slots, with_sink st sk).
