(* ===== verification/LayoutLaws.v ===== *)
(** * What routing guarantees

    Where a routed file can end up, which layer decides its name, how routing
    directives are chosen, the one-file-one-package rule, and the compact
    record of output packages.  Two theorems at the end show where the code
    falls short of its comments. *)

From S2P Require Import Prelude GoStrings Position Diag Directive Plugin Build FilePath Manifest Layout.

Local Open Scope string_scope.
Local Open Scope nat_scope.
Local Open Scope list_scope.

(** ** The path of a routing directive *)

(** What the value of a directive splits into: directories that are plain
    names, and a file name that is empty or a plain name. *)
Lemma split_out_spec value dir filename :
  splitOutDirectivePath value = (dir, filename) →
  (∃ l, Forall plain_name l ∧ dir = str_join "/" l) ∧ (filename = "" ∨ plain_name filename).
Proof.
  unfold splitOutDirectivePath, Clean.
  assert (IsAbs ("/" +:+ value) = true) as Ha by apply has_prefix_app. rewrite Ha.
  set (l := reverse (clean_segments ("/" +:+ value))).
  assert (Forall plain_name l) as Hl.
  { apply Forall_reverse. unfold clean_segments. rewrite Ha. apply rooted_names, split_byte_fields. }
  assert (trim_prefix ("/" +:+ str_join "/" l) "/" = str_join "/" l) as ->.
  { unfold trim_prefix. rewrite has_prefix_app. apply (str_drop_app "/"). }
  destruct (has_suffix value "/" && _) eqn:Ed.
  - rewrite (path_Split_app _ "") by done. intros [= <- <-].
    rewrite trim_right_slash, trim_right_join by done. split; [by exists l|by left].
  - clear Ed. destruct l as [|f l' _] using rev_ind.
    { intros [= <- <-]. split; [by exists []|by left]. }
    apply Forall_app in Hl as [Hl' Hf]. apply (proj1 (Forall_singleton _ _)) in Hf.
    destruct (decide (l' = [])) as [->|Hne].
    + simpl app. change (str_join "/" [f]) with f. rewrite path_Split_name by apply Hf.
      intros [= <- <-]. split; [by exists []|by right].
    + rewrite str_join_snoc, path_Split_app by (done || apply Hf). intros [= <- <-].
      rewrite trim_right_slash, trim_right_join by done. split; [by exists l'|by right].
Qed.

(** ** Where a file can land *)

(** The directory the policy starts from. *)
Definition base_dir (policy : LayoutPolicy) (srcDir : string) : string :=
  if String.eqb (Layout policy) LayoutCentralised
  then if String.eqb (Dir policy) "" then Package policy else Dir policy
  else srcDir.

Lemma base_route_dir policy src emit srcDir filename r :
  base_route policy src emit srcDir filename = Some r →
  t_Dir (r_target r) = base_dir policy srcDir ∧ t_Filename (r_target r) = filename ∧
  l_Filename (r_layers r) = LayerPluginSuffix.
Proof.
  unfold base_route, base_dir. destruct (String.eqb (Layout policy) LayoutCentralised).
  - destruct (String.eqb (Dir policy) ""); intros [= <-]; done.
  - destruct (String.eqb (Layout policy) LayoutAlongsideSource); [|done].
    destruct (match emit with Some _ => _ | None => _ end) as [pkg ip].
    destruct (String.eqb (Package policy) ""); intros [= <-]; done.
Qed.

Lemma apply_directive_dir r src spec dir filename :
  t_Dir (r_target (apply_directive r src spec dir filename)) =
  (if String.eqb dir "" then t_Dir (r_target r) else Join [t_Dir (r_target r); dir]) ∧
  t_Filename (r_target (apply_directive r src spec dir filename)) =
  (if String.eqb filename "" then t_Filename (r_target r) else filename) ∧
  l_Filename (r_layers (apply_directive r src spec dir filename)) =
  (if String.eqb filename "" then l_Filename (r_layers r) else LayerDirective).
Proof.
  unfold apply_directive. destruct (String.eqb filename ""), (String.eqb dir ""), (String.eqb (os_Package spec) "");
    done.
Qed.

Lemma apply_cli_dir r cli :
  let '(dir, filename) := splitOutDirectivePath cli in
  let hit b := negb (String.eqb cli "") && negb (String.eqb b "") in
  t_Dir (r_target (apply_cli r cli)) =
  (if hit dir then Join [t_Dir (r_target r); dir] else t_Dir (r_target r)) ∧
  t_Filename (r_target (apply_cli r cli)) =
  (if hit filename then filename else t_Filename (r_target r)) ∧
  l_Filename (r_layers (apply_cli r cli)) =
  (if hit filename then LayerCLI else l_Filename (r_layers r)).
Proof.
  unfold apply_cli. destruct (splitOutDirectivePath cli) as [dir filename].
  destruct (String.eqb cli ""), (String.eqb filename ""), (String.eqb dir ""); done.
Qed.

Lemma test_shift_fields r :
  t_Dir (r_target (test_shift r)) = t_Dir (r_target r) ∧
  t_Filename (r_target (test_shift r)) = t_Filename (r_target r) ∧
  l_Filename (r_layers (test_shift r)) = l_Filename (r_layers r).
Proof. unfold test_shift. by destruct (_ && _). Qed.

Lemma test_shift_package r :
  has_suffix (t_Filename (r_target r)) "_test.go" = true →
  t_Package (r_target (test_shift r)) = "" ∨ has_suffix (t_Package (r_target (test_shift r))) "_test" = true.
Proof.
  intros Hf. unfold test_shift. rewrite Hf. simpl.
  destruct (String.eqb_spec (t_Package (r_target r)) ""); [by left|]. right.
  destruct (has_suffix (t_Package (r_target r)) "_test") eqn:E; [done|].
  apply has_suffix_spec. eauto.
Qed.

Lemma below_step base p value dir filename :
  splitOutDirectivePath value = (dir, filename) → below base p →
  below base (Join [p; dir]).
Proof. intros (l & Hl & ->)%split_out_spec%proj1 Hb. by apply below_Join. Qed.

(** ** Choosing a routing directive *)

(** [s] is the first applicable spec with the highest score. *)
Definition is_best (plugin tag : string) (specs : list outDirectiveSpec) (s : outDirectiveSpec) : Prop :=
  ∃ pre post, specs = pre ++ s :: post ∧ applies plugin tag s = true ∧
    (∀ x, x ∈ pre → applies plugin tag x = true → score x < score s) ∧
    (∀ x, x ∈ post → applies plugin tag x = true → score x ≤ score s).

(** Another applicable spec of the same score says something else. *)
Definition ambiguous (plugin tag : string) (specs : list outDirectiveSpec) (s : outDirectiveSpec) : Prop :=
  ∃ x, x ∈ specs ∧ applies plugin tag x = true ∧ score x = score s ∧ x ≠ s.

Lemma ambiguous_snoc plugin tag specs x s :
  ambiguous plugin tag (specs ++ [x]) s ↔
  ambiguous plugin tag specs s ∨ applies plugin tag x = true ∧ score x = score s ∧ x ≠ s.
Proof.
  unfold ambiguous. split.
  - intros (y & [Hy|Hy%list_elem_of_singleton]%elem_of_app & H); [left; by exists y|right].
    by rewrite <- Hy.
  - intros [(y & Hy & H)|H]; [exists y|exists x]; (split; [apply elem_of_app|done]); [by left|right; left].
Qed.

Lemma select_fold plugin tag specs :
  match foldl (select_step plugin tag) (None, false) specs with
  | (None, c) => c = false ∧ ∀ x, x ∈ specs → applies plugin tag x = false
  | (Some (s, n), c) => n = score s ∧ is_best plugin tag specs s ∧ (c = true ↔ ambiguous plugin tag specs s)
  end.
Proof.
  induction specs as [|x specs IH] using rev_ind.
  { split; [done|]. intros x Hx. by apply elem_of_nil in Hx. }
  rewrite foldl_snoc. destruct (foldl _ _ specs) as [[[s n]|] c].
  - destruct IH as (-> & (pre & post & -> & Hs & Hpre & Hpost) & Hc). unfold select_step at 1.
    destruct (applies plugin tag x) eqn:Ex; simpl.
    2: { split; [done|]. split.
      - exists pre, (post ++ [x]). rewrite <- app_assoc. split_and!; [done..|].
        intros y [Hy|Hy%list_elem_of_singleton]%elem_of_app; [auto|]. rewrite Hy. congruence.
      - rewrite Hc, ambiguous_snoc. intuition congruence. }
    destruct (Nat.ltb_spec (score s) (score x)) as [Hlt|Hge].
    + split; [done|]. split.
      * exists (pre ++ s :: post), []. split_and!; [done..| |by intros ? ?%elem_of_nil].
        intros y [Hy|[->|Hy]%elem_of_cons]%elem_of_app Ha; [|done|];
          [specialize (Hpre y Hy Ha)|specialize (Hpost y Hy Ha)]; lia.
      * split; [done|]. intros (y & Hy & Ha & Hsc & Hne).
        apply elem_of_app in Hy as [Hy|Hy%list_elem_of_singleton]; [|done].
        apply elem_of_app in Hy as [Hy|[->|Hy]%elem_of_cons]; [|lia|];
          [specialize (Hpre y Hy Ha)|specialize (Hpost y Hy Ha)]; lia.
    + assert (is_best plugin tag ((pre ++ s :: post) ++ [x]) s) as Hb.
      { exists pre, (post ++ [x]). rewrite <- app_assoc. split_and!; [done..|].
        intros y [Hy|Hy%list_elem_of_singleton]%elem_of_app Ha; [auto|]. rewrite Hy. lia. }
      destruct (Nat.eqb_spec (score x) (score s)) as [He|He]; simpl.
      * case_bool_decide as Hxs; simpl.
        -- split; [done|]. split; [done|]. rewrite Hc, ambiguous_snoc. intuition congruence.
        -- split; [done|]. split; [done|]. rewrite ambiguous_snoc. intuition congruence.
      * split; [done|]. split; [done|]. rewrite Hc, ambiguous_snoc. intuition congruence.
  - destruct IH as [-> Hn]. unfold select_step. destruct (applies plugin tag x) eqn:Ex; simpl.
    + split; [done|]. split.
      * exists specs, []. split_and!; [done..| |by intros ? ?%elem_of_nil]. intros y Hy Ha. by rewrite Hn in Ha.
      * split; [done|]. intros (y & Hy & Ha & _ & Hne).
        apply elem_of_app in Hy as [Hy|Hy%list_elem_of_singleton]; [|done]. by rewrite Hn in Ha.
    + split; [done|]. intros y [Hy|Hy%list_elem_of_singleton]%elem_of_app; [auto|]. by rewrite Hy.
Qed.

Lemma entity_beats_package s x :
  os_scope s = scopePackage → os_scope x = scopeEntity → score s < score x.
Proof.
  intros Hs Hx. unfold score, scopeWeight. rewrite Hs, Hx. simpl.
  destruct (String.eqb _ _), (String.eqb _ _), (String.eqb _ _), (String.eqb _ _); lia.
Qed.

(** Of the routing directives that apply to a plugin's output the one used
    is the first with the highest score, so a directive on the declaration
    beats every directive on its package whatever filters they carry; none is
    used exactly when none applies.  A diagnostic is emitted, one error at the
    origin, exactly when another applicable directive of the same score says
    something else. *)
Theorem out_directive_selection specs plugin tag ps origin sk :
  match selectOutDirective specs plugin tag ps origin sk with
  | (None, sk') => sk' = sk ∧ ∀ x, x ∈ specs → applies plugin tag x = false
  | (Some s, sk') =>
      is_best plugin tag specs s ∧
      (os_scope s = scopePackage →
       ∀ x, x ∈ specs → applies plugin tag x = true → os_scope x = scopePackage) ∧
      (ambiguous plugin tag specs s ∧
         (∃ m, sk' = Append sk (MkDiag Error (plugin_name ps) (og_pos origin) m "")) ∨
       ¬ ambiguous plugin tag specs s ∧ sk' = sk)
  end.
Proof.
  unfold selectOutDirective. pose proof (select_fold plugin tag specs) as H.
  destruct (foldl _ _ specs) as [[[s n]|] c]; simpl; [|by destruct H as [-> ?]].
  destruct H as (_ & Hb & Hc). split; [done|]. split.
  - destruct Hb as (pre & post & -> & Hs & Hpre & Hpost). intros Hp x Hx Ha.
    destruct (os_scope x) eqn:Ex; [done|exfalso]. pose proof (entity_beats_package s x Hp Ex).
    apply elem_of_app in Hx as [Hx|[->|Hx]%elem_of_cons]; [|congruence|];
      [specialize (Hpre x Hx Ha)|specialize (Hpost x Hx Ha)]; lia.
  - destruct c; [left|right]; split.
    + by apply Hc.
    + by eexists.
    + intros Ha. by apply Hc in Ha.
    + done.
Qed.

(** ** Composing *)

Section Compose.
Context (error_text : LayoutError → string).
Abbreviation compose := (composeTarget error_text).

(** The routing directive that decides, if any. *)
Definition chosen (p : LayoutEnv) (origin : Origin) (plugin tag : string) : option outDirectiveSpec :=
  fst <$> (foldl (select_step plugin tag) (None, false)
             (outDirectivesFor p origin (originSourcePackage p origin))).1.

Definition cli_value (p : LayoutEnv) (plugin tag : string) : string :=
  match PluginOutputFilename p plugin tag with Some path => path | None => outFilename p end.

Lemma selected_is_chosen p origin plugin tag ps sk :
  (selectOutDirective (outDirectivesFor p origin (originSourcePackage p origin)) plugin tag ps origin sk).1 =
  chosen p origin plugin tag.
Proof. unfold selectOutDirective, chosen. by destruct (foldl _ _ _) as [[[]|] c]. Qed.

(** The last steps of the composition. *)
Lemma compose_tail r1 cli basename (bad good st' : LState) r :
  (let r := apply_cli r1 cli in
   if String.eqb basename "" && bool_decide (l_Filename (r_layers r) = LayerPluginSuffix)
   then (None, bad) else (Some (test_shift r), good)) = (Some r, st') →
  r = test_shift (apply_cli r1 cli) ∧ (basename ≠ "" ∨ l_Filename (r_layers r) ≠ LayerPluginSuffix).
Proof.
  cbv zeta. destruct (String.eqb_spec basename "") as [Hb|Hb]; simpl.
  - case_bool_decide as Hl; [done|]. intros [= <- _]. split; [done|]. right.
    by destruct (test_shift_fields (apply_cli r1 cli)) as (_ & _ & ->).
  - intros [= <- _]. split; [done|by left].
Qed.

(** How a composed route comes about. *)
Lemma compose_cases p st plugin tag suffix multi origin pkgPath kind qname r st' :
  compose p st plugin tag suffix multi origin pkgPath kind qname = (Some r, st') →
  let src := originSourcePackage p origin in
  let sb := originSourceDirBasename origin (sourceRoot p) in
  ∃ r0 r1,
    base_route (LayoutPolicyForTag p plugin tag) src (emitPackageByPath p pkgPath) sb.1 (sb.2 +:+ suffix) = Some r0 ∧
    r1 = match chosen p origin plugin tag with
         | None => r0
         | Some spec => let '(dir, filename) := splitOutDirectivePath (os_Path spec) in
                        apply_directive r0 src spec dir filename
         end ∧
    r = test_shift (apply_cli r1 (cli_value p plugin tag)) ∧
    (sb.2 ≠ "" ∨ l_Filename (r_layers r) ≠ LayerPluginSuffix).
Proof.
  unfold composeTarget. intros H. destruct (originSourceDirBasename origin (sourceRoot p)) as [srcDir basename].
  simpl. destruct (base_route _ _ _ _ _) as [r0|] eqn:Er; [|done].
  pose proof (selected_is_chosen p origin plugin tag layout_channel (ls_sink st)) as Hsel.
  destruct (selectOutDirective _ _ _ _ _ _) as [sel sk]. simpl in Hsel. subst sel.
  exists r0. destruct (chosen p origin plugin tag) as [spec|].
  - destruct (splitOutDirectivePath (os_Path spec)) as [dir filename].
    destruct (multi && _ && _); [done|]. eexists. split; [done|]. split; [done|].
    by eapply compose_tail.
  - eexists. split; [done|]. split; [done|]. by eapply compose_tail.
Qed.

Lemma compose_below p st plugin tag suffix multi origin pkgPath kind qname r st' :
  compose p st plugin tag suffix multi origin pkgPath kind qname = (Some r, st') →
  let sb := originSourceDirBasename origin (sourceRoot p) in
  below (base_dir (LayoutPolicyForTag p plugin tag) sb.1) (t_Dir (r_target r)) ∧
  (t_Filename (r_target r) = sb.2 +:+ suffix ∧ sb.2 ≠ "" ∨ plain_name (t_Filename (r_target r))).
Proof.
  intros (r0 & r1 & Hr0 & Hr1 & -> & Hn)%compose_cases. cbv zeta in *.
  set (sb := originSourceDirBasename origin (sourceRoot p)) in *.
  set (base := base_dir (LayoutPolicyForTag p plugin tag) sb.1).
  apply base_route_dir in Hr0 as (Hd0 & Hf0 & Hl0). fold base in Hd0.
  assert (below base (t_Dir (r_target r1)) ∧
    (t_Filename (r_target r1) = sb.2 +:+ suffix ∧ l_Filename (r_layers r1) = LayerPluginSuffix ∨
     plain_name (t_Filename (r_target r1)))) as [Hb1 Hf1].
  { rewrite Hr1. destruct (chosen p origin plugin tag) as [spec|];
      [|rewrite Hd0; split; [apply below_refl|by left]].
    destruct (splitOutDirectivePath (os_Path spec)) as [dir filename] eqn:Es.
    destruct (apply_directive_dir r0 (originSourcePackage p origin) spec dir filename) as (-> & -> & ->).
    rewrite Hd0. split.
    - destruct (String.eqb dir ""); [apply below_refl|]. eapply below_step; [done|apply below_refl].
    - destruct (String.eqb_spec filename ""); [by left|right].
      apply split_out_spec in Es as [_ [?|?]]; done. }
  destruct (test_shift_fields (apply_cli r1 (cli_value p plugin tag))) as (Ht1 & Ht2 & Ht3).
  rewrite Ht1, Ht2. rewrite Ht3 in Hn.
  pose proof (apply_cli_dir r1 (cli_value p plugin tag)) as Hc.
  destruct (splitOutDirectivePath (cli_value p plugin tag)) as [dir filename] eqn:Es.
  destruct Hc as (Hcd & Hcf & Hcl). rewrite Hcl in Hn. rewrite Hcd, Hcf. split.
  - destruct (negb _ && negb (String.eqb dir "")); [|done]. by eapply below_step.
  - destruct (String.eqb (cli_value p plugin tag) ""), (String.eqb_spec filename ""); simpl in *;
      try (destruct Hf1 as [[Hf1 Hl1]|?]; [left; split; [done|]; by destruct Hn|by right]).
    right. apply split_out_spec in Es as [_ [?|?]]; done.
Qed.

(** C3: No override can move a generated file out of the directory the policy
    puts it in (the source directory, or the shared directory of a centralised
    layout): the directory a target ends up with is that one or lies below it,
    reached through plain names only, whatever [..] segments or leading
    slashes a routing directive or the command line spells.  The file name is
    the origin's base name with the plugin's suffix, or a plain name; it is
    never empty. *)
Theorem routed_files_stay_below p st plugin tag suffix multi origin pkgPath kind qname r st' :
  compose p st plugin tag suffix multi origin pkgPath kind qname = (Some r, st') →
  let sb := originSourceDirBasename origin (sourceRoot p) in
  below (base_dir (LayoutPolicyForTag p plugin tag) sb.1) (t_Dir (r_target r)) ∧
  (t_Filename (r_target r) = sb.2 +:+ suffix ∧ sb.2 ≠ "" ∨ plain_name (t_Filename (r_target r))).
Proof. apply compose_below. Qed.

(** The file name a routing value asks for. *)
Definition asked_name (value : string) : string := (splitOutDirectivePath value).2.

(** The file name of a routed target comes from the highest layer that
    names one: the command line, then the chosen routing directive, then the
    origin's base name with the plugin's suffix; the recorded layer is the one
    it came from.  A target named like a Go test file is never left in a
    non-test package. *)
Theorem filename_precedence p st plugin tag suffix multi origin pkgPath kind qname r st' :
  compose p st plugin tag suffix multi origin pkgPath kind qname = (Some r, st') →
  let cli := asked_name (cli_value p plugin tag) in
  let directive := default "" (asked_name ∘ os_Path <$> chosen p origin plugin tag) in
  (t_Filename (r_target r), l_Filename (r_layers r)) =
    (if String.eqb cli "" then
       if String.eqb directive "" then
         ((originSourceDirBasename origin (sourceRoot p)).2 +:+ suffix, LayerPluginSuffix)
       else (directive, LayerDirective)
     else (cli, LayerCLI)) ∧
  (has_suffix (t_Filename (r_target r)) "_test.go" = true →
   t_Package (r_target r) = "" ∨ has_suffix (t_Package (r_target r)) "_test" = true).
Proof.
  intros (r0 & r1 & Hr0 & Hr1 & -> & _)%compose_cases. cbv zeta in *.
  set (r2 := apply_cli r1 (cli_value p plugin tag)).
  destruct (test_shift_fields r2) as (_ & Hf & Hl). split.
  2: { intros Ht. apply test_shift_package. by rewrite <- Hf. }
  rewrite Hf, Hl. apply base_route_dir in Hr0 as (_ & Hf0 & Hl0).
  assert ((t_Filename (r_target r1), l_Filename (r_layers r1)) =
    (let directive := default "" (asked_name ∘ os_Path <$> chosen p origin plugin tag) in
     if String.eqb directive "" then
       ((originSourceDirBasename origin (sourceRoot p)).2 +:+ suffix, LayerPluginSuffix)
     else (directive, LayerDirective))) as H1.
  { rewrite Hr1. destruct (chosen p origin plugin tag) as [spec|]; [|by rewrite Hf0, Hl0].
    unfold asked_name. simpl. destruct (splitOutDirectivePath (os_Path spec)) as [dir filename].
    destruct (apply_directive_dir r0 (originSourcePackage p origin) spec dir filename) as (_ & -> & ->).
    simpl. rewrite Hf0, Hl0. by destruct (String.eqb filename ""). }
  cbv zeta in H1. rewrite <- H1. unfold r2, asked_name. pose proof (apply_cli_dir r1 (cli_value p plugin tag)) as Hc.
  destruct (String.eqb_spec (cli_value p plugin tag) "") as [He|He].
  - rewrite He. reflexivity.
  - destruct (splitOutDirectivePath (cli_value p plugin tag)) as [dir filename]. simpl in Hc.
    destruct Hc as (_ & -> & ->). simpl. by destruct (String.eqb filename "").
Qed.

(** ** Nothing is dropped silently *)

(** The diagnostics only grow. *)
Definition grows (a b : Sink) : Prop := ∃ ds, b = foldl Append a ds.

Lemma grows_refl a : grows a a.
Proof. by exists []. Qed.
Lemma grows_trans a b c : grows a b → grows b c → grows a c.
Proof. intros [d1 ->] [d2 ->]. exists (d1 ++ d2). by rewrite foldl_app. Qed.
Lemma grows_Append a d : grows a (Append a d).
Proof. by exists [d]. Qed.

Lemma grows_discard a b : grows a b → discard b = discard a.
Proof.
  intros [ds ->]. revert a. induction ds as [|d ds IH]; intros a; [done|]. cbn [foldl].
  by rewrite IH, discard_Append.
Qed.

Lemma HasErrors_spec sk : HasErrors sk = true ↔ ∃ d, d ∈ diags sk ∧ (Error <= d_severity d)%Z.
Proof. apply has_errors_loop_spec. Qed.

Lemma grows_errors a b : grows a b → HasErrors a = true → HasErrors b = true.
Proof.
  intros [ds ->]. revert a. induction ds as [|d ds IH]; intros a Ha; [done|]. cbn [foldl]. apply IH.
  rewrite HasErrors_spec in *. destruct Ha as (x & Hx & Hs). exists x. split; [|done].
  rewrite diags_Append. destruct (discard a); [done|]. apply elem_of_app. by left.
Qed.

Lemma Append_error sk d :
  discard sk = false → (Error <= d_severity d)%Z → HasErrors (Append sk d) = true.
Proof.
  intros Hd Hs. apply HasErrors_spec. exists d. split; [|done]. rewrite diags_Append, Hd.
  apply elem_of_app. right. left.
Qed.

Lemma select_grows specs plugin tag ps origin sk :
  grows sk (selectOutDirective specs plugin tag ps origin sk).2.
Proof.
  unfold selectOutDirective. destruct (foldl _ _ _) as [best []]; simpl; [apply grows_Append|apply grows_refl].
Qed.

Lemma compose_grows p st plugin tag suffix multi origin pkgPath kind qname :
  let x := compose p st plugin tag suffix multi origin pkgPath kind qname in
  grows (ls_sink st) (ls_sink x.2) ∧
  (x.1 = None → discard (ls_sink st) = false → HasErrors (ls_sink x.2) = true).
Proof.
  unfold composeTarget. destruct (originSourceDirBasename origin (sourceRoot p)) as [srcDir basename].
  destruct (base_route _ _ _ _ _) as [r0|].
  2: { simpl. split; [apply grows_Append|]. intros _ Hd. by apply Append_error. }
  pose proof (select_grows (outDirectivesFor p origin (originSourcePackage p origin)) plugin tag
                layout_channel origin (ls_sink st)) as Hg.
  destruct (selectOutDirective _ _ _ _ _ _) as [sel sk]. simpl in Hg.
  assert (∀ e, grows (ls_sink st) (ls_sink (reportLayoutErr error_text (with_sink st sk) e)) ∧
    (discard (ls_sink st) = false → HasErrors (ls_sink (reportLayoutErr error_text (with_sink st sk) e)) = true))
    as Hrep.
  { intros e. split; [eapply grows_trans; [exact Hg|apply grows_Append]|].
    intros Hd. simpl. apply Append_error; [|done]. by rewrite (grows_discard _ _ Hg). }
  cbv zeta. destruct (match sel with Some _ => _ | None => _ end) as [r|e].
  - destruct (_ && bool_decide _); simpl; [|done].
    specialize (Hrep (ErrPositionlessOrigin kind qname plugin
      (t_Filename (r_target (apply_cli r match PluginOutputFilename p plugin tag with
         | Some path => path | None => outFilename p end))))).
    destruct Hrep as [H1 H2]. split; [done|]. auto.
  - destruct (Hrep e) as [H1 H2]. split; [done|]. auto.
Qed.

Lemma resolveSuffix_grows st outputs setBy tag kind qname :
  let x := resolveSuffix error_text st outputs setBy tag kind qname in
  grows (ls_sink st) (ls_sink x.2) ∧
  (x.1 = None → discard (ls_sink st) = false → HasErrors (ls_sink x.2) = true).
Proof.
  unfold resolveSuffix. assert (∀ e,
    grows (ls_sink st) (ls_sink (reportLayoutErr error_text st e)) ∧
    (discard (ls_sink st) = false → HasErrors (ls_sink (reportLayoutErr error_text st e)) = true)) as Hrep.
  { intros e. split; [apply grows_Append|]. intros Hd. by apply Append_error. }
  destruct (default [] _) as [|o os]; [simpl; naive_solver|].
  destruct (filter _ _); [|simpl; split; [apply grows_refl|done]].
  destruct (String.eqb tag ""); simpl; naive_solver.
Qed.

Lemma record_grows st r : grows (ls_sink st) (ls_sink (record st r)).
Proof.
  unfold record. case_bool_decide; [apply grows_refl|].
  destruct (rec_entries _ !! _); [|apply grows_refl]. simpl.
  destruct (_ || _); [apply grows_Append|apply grows_refl].
Qed.

Lemma composeOrZero_grows p outputs st d :
  let x := composeOrZero error_text p outputs st d in
  grows (ls_sink st) (ls_sink x.2) ∧
  (x.1 = zero_target → discard (ls_sink st) = false → HasErrors (ls_sink x.2) = true).
Proof.
  unfold composeOrZero. destruct (d_origin d) as [origin|].
  2: { simpl. split; [apply grows_Append|]. intros _ Hd. by apply Append_error. }
  destruct (resolveSuffix_grows st outputs (d_setBy d) (d_tag d) (d_kind d) (d_qname d)) as [Hg1 He1].
  destruct (resolveSuffix _ _ _ _ _ _ _) as [[suffix|] st1]; simpl in *; [|auto].
  set (multi := 1 <? _).
  destruct (compose_grows p st1 (d_setBy d) (d_tag d) suffix multi origin (d_pkgPath d) (d_kind d) (d_qname d))
    as [Hg2 He2].
  destruct (composeTarget _ _ _ _ _ _ _ _ _ _ _) as [[r|] st2] eqn:Ec; simpl in *.
  - split; [eapply grows_trans; [exact Hg1|]; eapply grows_trans; [exact Hg2|apply record_grows]|].
    intros Hz. exfalso. apply compose_below in Ec as [_ Hf]. rewrite Hz in Hf. simpl in Hf.
    destruct Hf as [[Hf Hb]|(_ & Hf & _)]; [|done].
    destruct (originSourceDirBasename origin (sourceRoot p)) as [dir []]; done.
  - split; [by eapply grows_trans|]. intros _ Hd. apply He2; [done|]. by rewrite (grows_discard _ _ Hg1).
Qed.

(** No declaration is dropped silently: routing answers for every
    declaration, in order and changing nothing but its target, and when one of
    them is left without a target (no origin, no suffix for its output tag, an
    ambiguous file name for several outputs, no base name to build on, an
    unknown layout) the run has an error diagnostic. *)
Theorem no_silent_drop p outputs st ds :
  discard (ls_sink st) = false →
  let x := routeDecls error_text p outputs st ds in
  Forall2 (λ d d', d' = set_target d (d_target d')) ds x.1 ∧
  (∀ d', d' ∈ x.1 → d_target d' = zero_target → HasErrors (ls_sink x.2) = true).
Proof.
  intros Hd x. cut (grows (ls_sink st) (ls_sink x.2) ∧
    Forall2 (λ d d', d' = set_target d (d_target d')) ds x.1 ∧
    (∀ d', d' ∈ x.1 → d_target d' = zero_target → HasErrors (ls_sink x.2) = true)); [by intros []|].
  unfold x. clear x. revert st Hd. induction ds as [|d ds IH]; intros st Hd; simpl.
  { split; [apply grows_refl|]. split; [constructor|]. intros d' H'. by apply elem_of_nil in H'. }
  destruct (composeOrZero_grows p outputs st d) as [Hg He].
  destruct (composeOrZero error_text p outputs st d) as [t st1]. simpl in Hg, He.
  destruct (IH st1) as (Hg2 & Hf & Hall); [by rewrite (grows_discard _ _ Hg)|].
  destruct (routeDecls error_text p outputs st1 ds) as [ds' st2]. simpl in *.
  split; [by eapply grows_trans|]. split; [by constructor|].
  intros d' [->|Hin]%elem_of_cons Hz; [|by eapply Hall]. simpl in Hz.
  eapply grows_errors; [exact Hg2|auto].
Qed.
End Compose.

(** ** One file, one package *)

Definition placed (t : Target) : Prop := t_Dir t ≠ "" ∧ t_Filename t ≠ "".

(** Two targets of the list share a file and differ in package. *)
Definition clash (l : list Target) (k : fileKey) : Prop :=
  ∃ t u, t ∈ l ∧ u ∈ l ∧ placed t ∧ file_key t = k ∧ file_key u = k ∧ t_Package t ≠ t_Package u.

Lemma visit_placed t : (String.eqb (t_Dir t) "" || String.eqb (t_Filename t) "") = true ↔ ¬ placed t.
Proof.
  unfold placed. destruct (String.eqb_spec (t_Dir t) ""), (String.eqb_spec (t_Filename t) ""); naive_solver.
Qed.

Lemma placed_key t u : file_key t = file_key u → placed t → placed u.
Proof. unfold placed, file_key. intros [= -> ->]. done. Qed.

Lemma clash_snoc l x k :
  clash (l ++ [x]) k ↔
  clash l k ∨ (placed x ∧ file_key x = k ∧ ∃ t, t ∈ l ∧ file_key t = k ∧ t_Package t ≠ t_Package x).
Proof.
  unfold clash. split.
  - intros (t & u & Ht & Hu & Hp & Hkt & Hku & Hne).
    apply elem_of_app in Ht as [Ht|Ht%list_elem_of_singleton],
      Hu as [Hu|Hu%list_elem_of_singleton]; subst.
    + left. by exists t, u.
    + right. split_and!; [by eapply placed_key|done|]. by exists t.
    + right. split_and!; [done|done|]. exists u. split_and!; [done|done|congruence].
    + done.
  - intros [(t & u & Ht & Hu & H)|(Hp & Hk & t & Ht & Hkt & Hne)].
    + exists t, u. split_and!; try apply H; apply elem_of_app; by left.
    + exists x, t. split_and!; [apply elem_of_app; right; left|apply elem_of_app; by left|done..|congruence].
Qed.

(** What the first pass knows after visiting [l]. *)
Definition seen_inv (l : list Target) (first : gmap fileKey string) : Prop :=
  (∀ k, first !! k = None ↔ ∀ t, t ∈ l → placed t → file_key t ≠ k) ∧
  (∀ k q, first !! k = Some q → ∃ t, t ∈ l ∧ placed t ∧ file_key t = k ∧ t_Package t = q).
Definition conflict_inv (l : list Target) (conf : gset fileKey) : Prop := ∀ k, k ∈ conf ↔ clash l k.

(** A target that is not placed, or whose file was seen, adds nothing. *)
Lemma seen_inv_old l x first :
  seen_inv l first → (placed x → ∃ t, t ∈ l ∧ placed t ∧ file_key t = file_key x) →
  seen_inv (l ++ [x]) first.
Proof.
  intros [H1 H2] Hx. split.
  - intros k. rewrite H1. split; [|intros H u Hu; apply H, elem_of_app; by left].
    intros H u [Hu|Hu%list_elem_of_singleton]%elem_of_app Hpl; [auto|]. subst u.
    destruct (Hx Hpl) as (t & Ht & Htp & <-). auto.
  - intros k q (u & Hu & H)%H2. exists u. split; [apply elem_of_app; by left|done].
Qed.

Lemma seen_inv_new l x first :
  seen_inv l first → placed x → seen_inv (l ++ [x]) (<[file_key x := t_Package x]> first).
Proof.
  intros [H1 H2] Hx. split; intros k; destruct (decide (k = file_key x)) as [->|Hk].
  - rewrite lookup_insert_eq. split; [done|]. intros H. exfalso. apply (H x); [|done|done].
    apply elem_of_app. right. left.
  - rewrite lookup_insert_ne, H1 by done. split; [|intros H u Hu; apply H, elem_of_app; by left].
    intros H u [Hu|Hu%list_elem_of_singleton]%elem_of_app Hpl; [auto|]. subst u. congruence.
  - intros q. rewrite lookup_insert_eq. intros [= <-]. exists x.
    split_and!; [apply elem_of_app; right; left|done..].
  - intros q. rewrite lookup_insert_ne by done. intros (u & Hu & H)%H2. exists u.
    split; [apply elem_of_app; by left|done].
Qed.

(** No new clash, when what was seen of the file agrees. *)
Lemma conflict_inv_same l x conf :
  conflict_inv l conf →
  (placed x → ∀ u, u ∈ l → file_key u = file_key x → t_Package u ≠ t_Package x → clash l (file_key x)) →
  conflict_inv (l ++ [x]) conf.
Proof.
  intros Hc Hx k. rewrite (Hc k), clash_snoc. split; [by left|].
  intros [?|(Hp & <- & u & Hu & Huk & Hne)]; [done|]. by apply (Hx Hp u).
Qed.

Lemma visit_inv l :
  seen_inv l (foldl visit (∅, ∅) l).1 ∧ conflict_inv l (foldl visit (∅, ∅) l).2.
Proof.
  induction l as [|x l [Hs Hc]] using rev_ind.
  { split; [split|]; simpl.
    - intros k. split; [|done]. intros _ t Ht. by apply elem_of_nil in Ht.
    - intros k q H. by rewrite lookup_empty in H.
    - intros k. split; [set_solver|]. intros (t & _ & Ht & _). by apply elem_of_nil in Ht. }
  rewrite foldl_snoc. destruct (foldl visit (∅, ∅) l) as [first conf]. simpl in Hs, Hc. unfold visit.
  destruct (_ || _) eqn:Ep.
  { apply visit_placed in Ep. split; [by apply seen_inv_old|by apply conflict_inv_same]. }
  assert (placed x) as Hx by (apply orb_false_iff in Ep as [E1 E2]; by apply String.eqb_neq in E1, E2).
  clear Ep. destruct (first !! file_key x) as [q|] eqn:Ef.
  - destruct (proj2 Hs _ _ Ef) as (t & Ht & Htp & Htk & Htq).
    assert (seen_inv (l ++ [x]) first) as Hs' by (apply seen_inv_old; eauto).
    destruct (String.eqb_spec q (t_Package x)) as [Hq|Hq]; simpl; split; try done.
    + apply conflict_inv_same; [done|]. intros _ u Hu Huk Hne. exists u, t.
      split_and!; [done..|by eapply placed_key, Hx|done|done|congruence].
    + intros k. rewrite clash_snoc, elem_of_union, elem_of_singleton, (Hc k). split.
      * intros [->|?]; [right|by left]. split_and!; [done|done|]. exists t. split_and!; congruence.
      * intros [?|(_ & Hk & _)]; [by right|by left].
  - split; [by apply seen_inv_new|]. apply conflict_inv_same; [done|]. intros _ u Hu Huk _. exfalso.
    apply (proj1 (proj1 Hs _) Ef u Hu); [|done]. by eapply placed_key, Hx.
Qed.

Lemma find_conflicts_spec ds k :
  k ∈ find_conflicts ds ↔
  ∃ d e, d ∈ ds ∧ e ∈ ds ∧ walked d = true ∧ walked e = true ∧ placed (d_target d) ∧
    file_key (d_target d) = k ∧ file_key (d_target e) = k ∧ t_Package (d_target d) ≠ t_Package (d_target e).
Proof.
  unfold find_conflicts. rewrite (proj2 (visit_inv (map d_target (filter (λ d, walked d = true) ds))) k).
  unfold clash. split.
  - intros (t & u & Ht & Hu & H). apply list_elem_of_fmap in Ht as (d & -> & Hd), Hu as (e & -> & He).
    apply list_elem_of_filter in Hd as [? ?], He as [? ?]. exists d, e. split_and!; try done; apply H.
  - intros (d & e & Hd & He & Hwd & Hwe & H). exists (d_target d), (d_target e).
    split_and!; try apply H; apply list_elem_of_fmap_2, list_elem_of_filter; done.
Qed.

(** After the phase a file belongs to one package: no two declarations the
    pass looks at share a directory and file name and differ in package.  The
    pass takes away the target of exactly the declarations in such a file,
    leaves every other declaration as it was, and reports each such file once,
    in whatever order the runtime visits them. *)
Theorem one_file_one_package `{KeyOrder} ds sk :
  let '(ds', sk') := enforceOneFileOnePackage ds sk in
  (∀ d e, d ∈ ds' → e ∈ ds' → walked d = true → walked e = true → placed (d_target d) →
     file_key (d_target d) = file_key (d_target e) → t_Package (d_target d) = t_Package (d_target e)) ∧
  Forall2 (λ d d',
    if bool_decide (file_key (d_target d) ∈ find_conflicts ds) && walked d
    then d' = set_target d zero_target else d' = d) ds ds' ∧
  ∃ msgs, sk' = foldl Append sk msgs ∧ length msgs = size (find_conflicts ds) ∧
    Forall (λ m, d_severity m = Error) msgs.
Proof.
  unfold enforceOneFileOnePackage. case_bool_decide as Hc.
  - split_and!.
    + intros d e Hd He Hwd Hwe Hp Hk. destruct (decide (t_Package (d_target d) = t_Package (d_target e))) as [|Hn];
        [done|exfalso]. apply (not_elem_of_empty (C:=gset fileKey) (file_key (d_target d))). rewrite <- Hc.
      apply find_conflicts_spec. by exists d, e.
    + rewrite Hc. clear. induction ds; constructor; [|done]. by rewrite bool_decide_eq_false_2 by set_solver.
    + exists []. by rewrite Hc, size_empty.
  - split_and!.
    + intros d' e' Hd He Hwd Hwe Hp Hk.
      apply list_elem_of_fmap in Hd as (d & -> & Hd), He as (e & -> & He). unfold clear_decl in *.
      destruct (bool_decide (file_key (d_target d) ∈ find_conflicts ds) && walked d) eqn:Ed.
      { by destruct Hp. }
      destruct (bool_decide (file_key (d_target e) ∈ find_conflicts ds) && walked e) eqn:Ee.
      { apply (placed_key _ _ Hk) in Hp. by destruct Hp. }
      destruct (decide (t_Package (d_target d) = t_Package (d_target e))) as [|Hn]; [done|exfalso].
      rewrite Hwd, andb_true_r in Ed. apply bool_decide_eq_false in Ed. apply Ed.
      apply find_conflicts_spec. by exists d, e.
    + unfold clear_decl. clear. generalize (find_conflicts ds). intros c.
      induction ds as [|d ds IH]; constructor; [|done]. by destruct (_ && _).
    + set (msg := λ key : fileKey, MkDiag Error "pipeline.layout" zero_pos (Sprintf
        "one-file-one-package violation at %s: conflicting package declarations %s"
        [AStr (key_path key); AStr (formatPackageConflict
           (default ∅ (foldl (take_detail (find_conflicts ds)) ∅ ds !! key)))]) "").
      exists (map msg (key_list (find_conflicts ds))). split_and!.
      * generalize (key_list (find_conflicts ds)). intros l. clear. revert sk.
        induction l as [|k l IH]; intros sk; [done|]. cbn [foldl map]. apply IH.
      * rewrite length_map, key_list_perm. done.
      * apply Forall_forall. intros m (k & -> & _)%list_elem_of_fmap. done.
Qed.

(** ** The record of output packages *)

(** The reference: one map from tag to path per origin and plugin. *)
Definition ref_record (m : gmap (nat * string) (gmap string string)) (x : nat * string * string * string)
    : gmap (nat * string) (gmap string string) :=
  let '(o, plugin, tag, path) := x in
  <[(o, plugin) := <[tag := path]> (default ∅ (m !! (o, plugin)))]> m.

Definition record_path (loc : gmap (nat * string) outputPaths) (x : nat * string * string * string)
    : gmap (nat * string) outputPaths :=
  let '(o, plugin, tag, path) := x in recordOutputPath loc o plugin tag path.

(** The inline tag is never in the overflow map too. *)
Definition paths_inv (o : outputPaths) : Prop := op_set o = true ∧ op_more o !! op_tag o = None.

Lemma recordOutputPath_other loc o plugin tag path k :
  k ≠ (o, plugin) → recordOutputPath loc o plugin tag path !! k = loc !! k.
Proof.
  intros Hk. unfold recordOutputPath. repeat case_match; by rewrite lookup_insert_ne.
Qed.

Lemma recordOutputPath_same loc o plugin tag path :
  (∀ c, loc !! (o, plugin) = Some c → paths_inv c) →
  ∃ c', recordOutputPath loc o plugin tag path !! (o, plugin) = Some c' ∧ paths_inv c' ∧
    byTag c' = Some (<[tag := path]> (default ∅ (loc !! (o, plugin) ≫= byTag))).
Proof.
  intros Hc. unfold recordOutputPath. destruct (loc !! (o, plugin)) as [c|] eqn:El; simpl.
  - destruct (Hc c eq_refl) as [Hs Hm]. rewrite Hs. simpl. unfold byTag at 2. rewrite Hs. simpl.
    destruct (String.eqb_spec tag (op_tag c)) as [->|Hne]; rewrite lookup_insert_eq; eexists;
      (split; [done|]); split; try done.
    + unfold byTag. simpl. f_equal. rewrite insert_union_r by done. by rewrite insert_insert_eq.
    + split; [done|]. simpl. by rewrite lookup_insert_ne.
    + unfold byTag. simpl. f_equal. by rewrite insert_union_l.
  - rewrite lookup_insert_eq. eexists. split; [done|]. split; [by split|].
    unfold byTag. simpl. f_equal. by rewrite (left_id_L ∅ (∪)).
Qed.

(** The compact record of output packages (the first tag held inline, the
    others in a map) answers like the plain map it stands for, after any
    sequence of records: for every origin and plugin it yields exactly the last
    path recorded for each tag, and nothing when nothing was recorded. *)
Theorem output_paths_refine_map ops o plugin :
  (foldl record_path ∅ ops !! (o, plugin) ≫= byTag) = foldl ref_record ∅ ops !! (o, plugin).
Proof.
  cut ((∀ k c, foldl record_path ∅ ops !! k = Some c → paths_inv c) ∧
       ∀ k, (foldl record_path ∅ ops !! k ≫= byTag) = foldl ref_record ∅ ops !! k); [by intros []|].
  induction ops as [|[[[o' pl] tag] path] ops [Hi Heq]] using rev_ind.
  { simpl. split; [intros k c Hk; by rewrite lookup_empty in Hk|]. intros k. by rewrite !lookup_empty. }
  rewrite !foldl_snoc. simpl.
  destruct (recordOutputPath_same (foldl record_path ∅ ops) o' pl tag path) as (c' & Hc' & Hinv & Hb);
    [by apply Hi|].
  split; intros k.
  - intros c. destruct (decide (k = (o', pl))) as [->|Hk]; [rewrite Hc'; intros [= <-]; done|].
    rewrite recordOutputPath_other by done. apply Hi.
  - destruct (decide (k = (o', pl))) as [->|Hk].
    + rewrite Hc', lookup_insert_eq. simpl. by rewrite Hb, Heq.
    + rewrite recordOutputPath_other, lookup_insert_ne by done. apply Heq.
Qed.

(** ** A concrete route *)

Module LayoutExample.
Definition at_file (f : string) : Pos := MkPos f 3 1 40.
Definition out_dir (path : string) : Directive := MkDirective OutDirective false [path] ∅ "" zero_pos.
Definition user : Origin :=
  MkOrigin 1 (OPackaged "example.com/p/repo") (at_file "/w/repo/user.go") [out_dir "../../../etc/mocks/"].
Definition repo_pkg : SrcPackage := MkSrc "repo" "example.com/p/repo" [].
Definition lenv : LayoutEnv :=
  MkLayoutEnv NewLayoutPolicy ∅ ∅ "" ∅ ∅ "/w" {["example.com/p/repo" := repo_pkg]} ∅.
Definition st0 : LState := MkL Diag.New [] (MkRecorder ∅ None) ∅.
Abbreviation compose := (composeTarget (λ _, "")).
Definition routed : option route * LState :=
  compose lenv st0 "mock" "" "_mock_test.go" false user "" "struct" "repo.User".
End LayoutExample.

Lemma routed_files_stay_below_witness :
  ∃ r st', LayoutExample.routed = (Some r, st') ∧
    r_target r = MkTarget "repo/etc/mocks" "user_mock_test.go" "mocks_test" "example.com/p/repo/etc/mocks_test" ∧
    below "repo" (t_Dir (r_target r)).
Proof.
  destruct LayoutExample.routed as [[r|] st'] eqn:E; [|vm_compute in E; discriminate].
  exists r, st'. split; [reflexivity|]. split; [vm_compute in E; injection E as <- _; reflexivity|].
  unfold LayoutExample.routed in E.
  exact (proj1 (routed_files_stay_below (λ _, "") _ _ _ _ _ _ _ _ _ _ _ _ E)).
Defined.

Lemma filename_precedence_witness :
  ∃ r st', LayoutExample.routed = (Some r, st') ∧
    t_Filename (r_target r) = "user_mock_test.go" ∧
    (t_Package (r_target r) = "" ∨ has_suffix (t_Package (r_target r)) "_test" = true).
Proof.
  destruct LayoutExample.routed as [[r|] st'] eqn:E; [|vm_compute in E; discriminate].
  exists r, st'. split; [reflexivity|].
  assert (t_Filename (r_target r) = "user_mock_test.go") as Hf
    by (vm_compute in E; injection E as <- _; reflexivity).
  split; [exact Hf|]. unfold LayoutExample.routed in E.
  apply (proj2 (filename_precedence (λ _, "") _ _ _ _ _ _ _ _ _ _ _ _ E)). rewrite Hf. vm_compute. reflexivity.
Defined.

Lemma no_silent_drop_witness :
  let d := MkDecl "struct" "repo.User" "mock" "" None "" zero_target in
  HasErrors (ls_sink (routeDecls (λ _, "") LayoutExample.lenv ∅ LayoutExample.st0 [d]).2) = true.
Proof.
  intros d. refine (proj2 (no_silent_drop (λ _, "") LayoutExample.lenv ∅ LayoutExample.st0 [d] _) d _ _).
  - reflexivity.
  - vm_compute. left.
  - reflexivity.
Defined.

(** ** Where the code falls short of its comments *)

(** A directory in a routing directive replaces a package pinned on the command
    line, although the command line is documented to win, and the manifest
    still attributes the package to the command line. *)
Theorem directive_overrides_cli_package :
  let policy := MkPolicy LayoutAlongsideSource LayerFramework "pinned" LayerCLI "" LayerFramework in
  let env := MkLayoutEnv policy ∅ ∅ "" ∅ ∅ "/w" {["example.com/p/repo" := LayoutExample.repo_pkg]} ∅ in
  ∃ r st', LayoutExample.compose env LayoutExample.st0 "gen" "" "_gen.go" false LayoutExample.user "" "struct" ""
             = (Some r, st') ∧
    t_Package (r_target r) = "mocks" ∧ l_Package (r_layers r) = LayerCLI.
Proof. vm_compute. do 2 eexists. split; [reflexivity|]. split; reflexivity. Qed.

(** Two declarations of one file at the module root may disagree on the
    package: targets with an empty directory are not compared. *)
Theorem root_conflicts_unnoticed :
  let t pkg := MkTarget "" "x_gen.go" pkg "example.com/p" in
  let d pkg := MkDecl "struct" "X" "gen" "" None "" (t pkg) in
  enforceOneFileOnePackage [d "a"; d "b"] Diag.New = ([d "a"; d "b"], Diag.New).
Proof. vm_compute. reflexivity. Qed.

(** Nor are the targets of top-level methods. *)
Theorem method_conflicts_unnoticed :
  let t pkg := MkTarget "repo" "x_gen.go" pkg "example.com/p" in
  let d kind pkg := MkDecl kind "X" "gen" "" None "" (t pkg) in
  enforceOneFileOnePackage [d "struct" "a"; d "method" "b"] Diag.New =
    ([d "struct" "a"; d "method" "b"], Diag.New).
Proof. vm_compute. reflexivity. Qed.

(** The recorder notices that two declarations reach one target under different
    layouts, except when one comes right after the other. *)
Theorem adjacent_divergence_unnoticed :
  let ly := MkLayers LayerDirective LayerPerPlugin LayerDirective LayerDirective in
  let r layout := MkRoute (MkTarget "sub" "x.go" "foo" "") layout ly in
  let other := MkRoute (MkTarget "sub" "y.go" "foo" "") LayoutCentralised ly in
  HasErrors (ls_sink (foldl record LayoutExample.st0 [r LayoutCentralised; r LayoutAlongsideSource])) = false ∧
  HasErrors (ls_sink (foldl record LayoutExample.st0 [r LayoutCentralised; other; r LayoutAlongsideSource])) = true.
Proof. vm_compute. split; reflexivity. Qed.
