(* ===== verification/ManifestRun.v ===== *)
(** * The manifest of a run ([pipeline/manifest_sink.go], [pipeline/run.go])

    The sink wrapper that records what a run wrote, the manifest assembled
    from it, its merge with the manifest of the previous runs, the report of
    outputs left behind, and the step that writes the manifest file.

    The SHA-256 digest is an argument; a sink is seen through the root it
    offers and the result of its [Write]. *)

From S2P Require Import Prelude GoStrings Unicode Position Diag Plugin Build FilePath Manifest.

Local Open Scope string_scope.
Local Open Scope nat_scope.
Local Open Scope list_scope.

(** ** Ordering

    [SortFunc] compares field by field and stops at the first difference. *)

Fixpoint cmp_fields (l k : list string) : comparison :=
  match l, k with
  | x :: l, y :: k => match String.compare x y with Eq => cmp_fields l k | c => c end
  | [], [] => Eq
  | [], _ => Lt
  | _, [] => Gt
  end.

Definition target_fields (t : Target) : list string :=
  [t_Dir t; t_Filename t; t_Package t; t_ImportPath t].
Definition output_fields (o : Output) : list string :=
  target_fields (out_Target o) ++ [out_PipelineID o].

Definition target_le (a b : Target) : Prop := cmp_fields (target_fields a) (target_fields b) ≠ Gt.
Definition output_le (a b : Output) : Prop := cmp_fields (output_fields a) (output_fields b) ≠ Gt.
#[global] Instance target_le_dec a b : Decision (target_le a b).
Proof. unfold target_le. apply _. Defined.
#[global] Instance output_le_dec a b : Decision (output_le a b).
Proof. unfold output_le. apply _. Defined.

Definition sort_targets (l : list Target) : list Target := merge_sort target_le l.
Definition sort_outputs (l : list Output) : list Output := merge_sort output_le l.

(** ** [recordingSink] *)

Abbreviation captured := (gmap Target string).

(** [inner] is the wrapped sink's [Write]. *)
Definition rec_Write {E} (inner : Target → string → res E unit) (files : captured)
    (t : Target) (body : string) : res E unit * captured :=
  match inner t body with
  | Err e => (Err e, files)
  | Ok _ => (Ok tt, <[t := body]> files)
  end.

Definition emittedTargets (files : captured) : gset Target := dom files.

(** An emitted declaration, as the attribution walk sees it: who set it, its
    output tag, who contributed to each of its slots, and the methods of a
    struct, interface or alias (none for the other kinds). *)
Record Contributor := MkContributor {
  c_SetBy : string; c_OutputTag : string; c_slots : list (list string);
}.
Record Entity := MkEntity { e_node : Contributor; e_methods : list Contributor }.

Definition note_name (tag : string) (out : gmap string string) (setBy : string) : gmap string string :=
  let name := trim_space setBy in
  if String.eqb name "" then out
  else match out !! name with Some _ => out | None => <[name := tag]> out end.

Definition collect_node (out : gmap string string) (n : Contributor) : gmap string string :=
  let out := note_name (c_OutputTag n) out (c_SetBy n) in
  foldl (foldl (note_name (c_OutputTag n))) out (c_slots n).

Definition collectTargetContributors (out : gmap string string) (e : Entity) : gmap string string :=
  foldl collect_node (collect_node out (e_node e)) (e_methods e).

Definition pluginsForTarget (entities : list Entity) (order : list string)
    : list PluginAttribution :=
  let contributed := foldl collectTargetContributors ∅ entities in
  if bool_decide (contributed = ∅) then map (λ name, MkAttr name "") order
  else omap (λ name, MkAttr name <$> contributed !! name) order.

(** ** The pipeline as these steps see it *)

Record RunEnv := MkRunEnv {
  manifestPath : string;
  rootedSink : option string;
  pkgPaths : list string;
  pipelineID : string;
  brand : string;
  dryRun : bool;
  resolvedLayouts : gmap Target ResolvedLayout;
  byTarget : Target → list Entity;
  pluginNames : list string;
}.

Definition outputRoot (p : RunEnv) : option string :=
  match rootedSink p with
  | Some root => if String.eqb root "" then None else Some root
  | None => None
  end.

Definition ScopeImportPaths (p : RunEnv) : gset string :=
  list_to_set (filter (λ x, x ≠ "") (pkgPaths p)).

Section Run.
Context (is_print : N → bool) (sha256_hex : string → string) (fault_text : WriteFault → string).

Definition hasLayoutActivity (p : RunEnv) : bool := negb (bool_decide (resolvedLayouts p = ∅)).

Definition manifest_step (p : RunEnv) (files : captured) (st : Manifest * Sink) (t : Target)
    : Manifest * Sink :=
  let body := default "" (files !! t) in
  let rl := resolvedLayouts p !! t in
  let sk := match rl with
            | None =>
                if hasLayoutActivity p then
                  Sink_Internalf st.2 zero_pos
                    "manifest: backend wrote to %+v without Layout-composed attribution"
                    [AList (target_fields t)]
                else st.2
            | Some _ => st.2
            end in
  (Add st.1 (MkOutput t (pluginsForTarget (byTarget p t) (pluginNames p))
               ("sha256:" +:+ sha256_hex body) rl (pipelineID p)), sk).

Definition asManifest (p : RunEnv) (runID : string) (files : captured) (sk : Sink)
    : Manifest * Sink :=
  let targets := sort_targets (elements (dom files)) in
  foldl (manifest_step p files) (set_brand (New runID) (brand p), sk) targets.

(** ** Merging with the previous runs *)

Definition sourceImportPath (ip : string) : string := trim_suffix ip "_test".

Definition target_path (root : string) (t : Target) : string :=
  let path := Join [t_Dir t; t_Filename t] in
  if negb (IsAbs (t_Dir t)) then Join [root; path] else path.

Definition onDisk (fs : files) (root : string) (o : Output) : bool :=
  negb (not_exist fs (target_path root (out_Target o))).

Definition converged (fs : files) (root : option string) (scope : gset string) (o : Output) : bool :=
  match root with
  | None => false
  | Some root =>
      if bool_decide (scope = ∅) then false
      else if negb (bool_decide (sourceImportPath (t_ImportPath (out_Target o)) ∈ scope)) then false
      else negb (onDisk fs root o)
  end.

Definition okey (o : Output) : Target * string := (out_Target o, out_PipelineID o).

Definition mergeManifestPreservingOutOfScope (fs : files) (p : RunEnv) (prev : option Manifest)
    (current : Manifest) : Manifest :=
  match prev with
  | None => current
  | Some prev =>
      let currentKeys : gset (Target * string) := list_to_set (map okey (m_Outputs current)) in
      let merged := set_brand (New (m_RunID current)) (m_Brand current) in
      let merged := foldl (λ m o,
        if bool_decide (okey o ∈ currentKeys) then m
        else if converged fs (outputRoot p) (ScopeImportPaths p) o then m
        else Add m o) merged (m_Outputs prev) in
      let merged := foldl Add merged (m_Outputs current) in
      MkManifest (m_Version merged) (m_Brand merged) (m_RunID merged) (sort_outputs (m_Outputs merged))
  end.

(** ** Reporting what is left behind *)

Definition orphanCap : nat := 5.

(** [slices.Compact] *)
Fixpoint compact (l : list string) : list string :=
  match l with
  | x :: (y :: _) as l' => if String.eqb x y then compact l' else x :: compact l'
  | _ => l
  end.

Definition orphan_paths (fs : files) (root : string) (scope : gset string) (prev current : Manifest)
    : list string :=
  let produced : gset Target := list_to_set (Targets current) in
  let keep := filter (λ o, out_Target o ∉ produced ∧
    sourceImportPath (t_ImportPath (out_Target o)) ∈ scope ∧ onDisk fs root o = true) (m_Outputs prev) in
  compact (sort_strings (map (λ o, Join [t_Dir (out_Target o); t_Filename (out_Target o)]) keep)).

Definition reportOrphans (fs : files) (p : RunEnv) (prev : option Manifest) (current : Manifest)
    (sk : Sink) : Sink :=
  match prev with
  | None => sk
  | Some prev =>
      let scope := ScopeImportPaths p in
      if bool_decide (scope = ∅) then sk
      else match outputRoot p with
      | None => sk
      | Some root =>
          let orphans := orphan_paths fs root scope prev current in
          match orphans with
          | [] => sk
          | _ =>
              let named := if orphanCap <? length orphans then take orphanCap orphans else orphans in
              let suffix := if orphanCap <? length orphans
                            then " and " +:+ itoa (Z.of_nat (length orphans - orphanCap)) +:+ " more" else "" in
              Warnf (For "pipeline") sk zero_pos
                "%d output(s) from a previous run are no longer produced and remain on disk: %s%s — run the `prune` subcommand to remove them"
                [AInt (Z.of_nat (length orphans)); AStr (str_join ", " named); AStr suffix]
          end
      end
  end.

(** ** Content equality *)

Definition layout_equal (a b : ResolvedLayout) : bool :=
  bool_decide (rl_Layout a = rl_Layout b) && bool_decide (rl_Package a = rl_Package b) &&
  bool_decide (rl_Dir a = rl_Dir b) && bool_decide (rl_Filename a = rl_Filename b) &&
  (size (rl_ResolvedFrom a) =? size (rl_ResolvedFrom b)) &&
  forallb (λ kv, bool_decide (rl_ResolvedFrom b !! kv.1 = Some kv.2)) (map_to_list (rl_ResolvedFrom a)).

Fixpoint list_equal {A} (eqb : A → A → bool) (l k : list A) : bool :=
  match l, k with
  | [], [] => true
  | x :: l, y :: k => eqb x y && list_equal eqb l k
  | _, _ => false
  end.

Definition manifestOutputEqual (a b : Output) : bool :=
  if negb (bool_decide (out_Target a = out_Target b)) || negb (String.eqb (out_Hash a) (out_Hash b))
  then false
  else if negb (list_equal (λ x y, bool_decide (x = y)) (out_Plugins a) (out_Plugins b)) then false
  else match out_ResolvedLayout a, out_ResolvedLayout b with
  | None, None => true
  | Some x, Some y => layout_equal x y
  | _, _ => false
  end.

Definition manifestContentEqual (prev current : Manifest) : bool :=
  if negb (m_Version prev =? m_Version current)%Z || negb (String.eqb (m_Brand prev) (m_Brand current))
  then false
  else list_equal manifestOutputEqual (m_Outputs prev) (m_Outputs current).

(** ** [writeManifest]

    The state is the manifest file, [lastManifest] and the diagnostics. *)

Definition writeManifest (fs : files) (fault : option WriteFault) (p : RunEnv) (now : string)
    (captures : captured) (file last : option Manifest) (sk : Sink)
    : option Manifest * option Manifest * Sink :=
  if String.eqb (manifestPath p) "" then (file, last, sk)
  else
    let '(current, sk) := asManifest p now captures sk in
    let prev := match Read file with Ok m => Some m | Err _ => None end in
    let merged := mergeManifestPreservingOutOfScope fs p prev current in
    let sk := reportOrphans fs p prev current sk in
    if dryRun p then (file, Some merged, sk)
    else if match prev with Some prev => manifestContentEqual prev merged | None => false end
    then (file, Some merged, sk)
    else match Write is_print fault file merged with
         | (Ok _, file') => (file', Some merged, sk)
         | (Err e, file') =>
             (file', Some merged,
              Warnf (For "pipeline") sk zero_pos "manifest write failed: %v" [AStr (fault_text e)])
         end.
End Run.
