(* ===== verification/ManifestLaws.v ===== *)
(** * What the manifest guarantees

    The orphan classification of [prune.go]; what the merge of a run's
    manifest with the previous ones keeps, refreshes and drops; and that the
    manifest file settles: a second identical run leaves it alone, and a
    skipped write loses nothing. *)

From S2P Require Import Prelude GoStrings Unicode Position Diag Plugin Build FilePath Manifest ManifestRun.

Local Open Scope string_scope.
Local Open Scope nat_scope.
Local Open Scope list_scope.

(** ** The order on entries *)

Lemma cmp_fields_refl l : cmp_fields l l = Eq.
Proof. induction l as [|x l IH]; simpl; [done|]. by rewrite string_compare_refl. Qed.

Lemma cmp_fields_eq l k : cmp_fields l k = Eq ↔ l = k.
Proof.
  split; [|intros ->; apply cmp_fields_refl]. revert k.
  induction l as [|x l IH]; intros [|y k]; simpl; try done.
  destruct (String.compare x y) eqn:E; try done. apply string_compare_eq in E as ->.
  intros H. f_equal. by apply IH.
Qed.

Lemma cmp_fields_antisym l k : cmp_fields k l = CompOpp (cmp_fields l k).
Proof.
  revert k. induction l as [|x l IH]; intros [|y k]; simpl; try done.
  rewrite (String.compare_antisym y x). destruct (String.compare x y); simpl; auto.
Qed.

Lemma cmp_fields_trans c l k j : cmp_fields l k = c → cmp_fields k j = c → cmp_fields l j = c.
Proof.
  revert k j. induction l as [|x l IH]; intros [|y k] [|z j]; simpl; try congruence.
  destruct (String.compare x y) eqn:Hxy.
  - apply string_compare_eq in Hxy as ->. destruct (String.compare y z); eauto; congruence.
  - intros <-. destruct (String.compare y z) eqn:Hyz; [|intros _|congruence].
    + apply string_compare_eq in Hyz as ->. by rewrite Hxy.
    + by rewrite (string_compare_trans Lt _ _ _ Hxy Hyz).
  - intros <-. destruct (String.compare y z) eqn:Hyz; [|congruence|intros _].
    + apply string_compare_eq in Hyz as ->. by rewrite Hxy.
    + by rewrite (string_compare_trans Gt _ _ _ Hxy Hyz).
Qed.

Definition fields_le (l k : list string) : Prop := cmp_fields l k ≠ Gt.

#[global] Instance fields_le_trans : Transitive fields_le.
Proof.
  intros l k j. unfold fields_le. intros H1 H2.
  destruct (cmp_fields l k) eqn:E1; [|destruct (cmp_fields k j) eqn:E2|done]; [| | |done].
  - apply cmp_fields_eq in E1 as ->. done.
  - apply cmp_fields_eq in E2 as ->. by rewrite E1.
  - by rewrite (cmp_fields_trans Lt _ _ _ E1 E2).
Qed.

#[global] Instance fields_le_total : Total fields_le.
Proof.
  intros l k. unfold fields_le. rewrite (cmp_fields_antisym l k).
  destruct (cmp_fields l k); simpl; auto.
Qed.

#[global] Instance fields_le_antisymm : AntiSymm (=) fields_le.
Proof.
  intros l k. unfold fields_le. rewrite (cmp_fields_antisym l k). rewrite <- cmp_fields_eq.
  destruct (cmp_fields l k); simpl; naive_solver.
Qed.

#[global] Instance target_le_trans : Transitive target_le.
Proof. intros a b c. apply fields_le_trans. Qed.
#[global] Instance target_le_total : Total target_le.
Proof. intros a b. apply fields_le_total. Qed.
#[global] Instance output_le_trans : Transitive output_le.
Proof. intros a b c. apply fields_le_trans. Qed.
#[global] Instance output_le_total : Total output_le.
Proof. intros a b. apply fields_le_total. Qed.

Lemma target_fields_inj a b : target_fields a = target_fields b → a = b.
Proof. destruct a, b. unfold target_fields. simpl. naive_solver. Qed.
#[global] Instance target_le_antisymm : AntiSymm (=) target_le.
Proof. intros a b H1 H2. apply target_fields_inj. by apply fields_le_antisymm. Qed.

Lemma output_fields_okey a b : output_fields a = output_fields b ↔ okey a = okey b.
Proof.
  unfold output_fields, okey. split.
  - intros [H1 H2]%app_inj_2; [|done]. apply target_fields_inj in H1. injection H2 as H2. by rewrite H1, H2.
  - intros [= H1 H2]. by rewrite H1, H2.
Qed.

(** Two sorted lists with distinct keys and the same entries are equal. *)
Lemma sorted_outputs_unique l k :
  StronglySorted output_le l → StronglySorted output_le k → NoDup (map okey l) → l ≡ₚ k → l = k.
Proof.
  intros Hl. revert k. induction Hl as [|x l Hl IH Hall]; intros k Hk Hnd Hp.
  { by apply Permutation_nil in Hp as ->. }
  destruct Hk as [|y k Hk Hall']; [by apply Permutation_sym, Permutation_nil in Hp|].
  assert (x = y) as ->.
  { destruct (decide (x = y)) as [|Hne]; [done|exfalso].
    assert (y ∈ l) as Hy by (assert (y ∈ x :: l) by (rewrite Hp; left); set_solver).
    assert (x ∈ k) as Hx by (assert (x ∈ y :: k) by (rewrite <- Hp; left); set_solver).
    rewrite Forall_forall in Hall, Hall'. specialize (Hall y Hy). specialize (Hall' x Hx).
    apply NoDup_cons in Hnd as [Hnd _]. apply Hnd.
    assert (okey x = okey y) as -> by (apply output_fields_okey; by apply fields_le_antisymm).
    by apply list_elem_of_fmap_2. }
  f_equal. apply NoDup_cons in Hnd as [_ Hnd]. apply IH; [done..|]. by apply Permutation_cons_inv in Hp.
Qed.

Lemma sort_outputs_perm l : sort_outputs l ≡ₚ l.
Proof. apply merge_sort_Permutation. Qed.
Lemma sort_outputs_sorted l : StronglySorted output_le (sort_outputs l).
Proof. apply (StronglySorted_merge_sort output_le). Qed.

(** ** Orphans *)

(** A package set covers an import path that it holds, up to the [_test]
    shift of test outputs. *)
Definition covers (s : gset string) (ip : string) : Prop :=
  ip ≠ "" ∧ (ip ∈ s ∨ ∃ q, ip = q +:+ "_test" ∧ q ∈ s).

Lemma shifted_in_spec ip s : shifted_in ip s = true ↔ ip ∈ s ∨ ∃ q, ip = q +:+ "_test" ∧ q ∈ s.
Proof.
  unfold shifted_in. case_bool_decide as H; [naive_solver|].
  destruct (cut_suffix ip "_test") as [q|] eqn:E.
  - apply cut_suffix_spec in E. rewrite bool_decide_eq_true. split; [naive_solver|].
    intros [?|(q' & Hq & ?)]; [done|]. rewrite Hq in E. by apply append_inj_l in E as ->.
  - split; [done|]. intros [?|(q & Hq & _)]; [done|]. apply cut_suffix_spec in Hq. congruence.
Qed.

Lemma inScope_spec ip s : inScope ip s = true ↔ covers s ip.
Proof.
  unfold inScope, covers. destruct (String.eqb_spec ip ""); [naive_solver|].
  rewrite shifted_in_spec. naive_solver.
Qed.

Lemma isGone_spec ip g : isGone ip g = true ↔ ∃ s, g = Some s ∧ covers s ip.
Proof.
  unfold isGone, covers. destruct g as [s|]; [|naive_solver].
  destruct (String.eqb_spec ip ""); [naive_solver|]. rewrite shifted_in_spec. naive_solver.
Qed.

Lemma elem_of_prune_loop em scope pid gone l o r :
  MkOrphan o r ∈ prune_loop em scope pid gone l ↔
  o ∈ l ∧ out_PipelineID o = pid ∧ out_Target o ∉ em ∧
  match r with
  | ReasonUnclaimed => covers scope (t_ImportPath (out_Target o))
  | ReasonSourceGone =>
      ¬ covers scope (t_ImportPath (out_Target o)) ∧
      ∃ s, gone = Some s ∧ covers s (t_ImportPath (out_Target o))
  end.
Proof.
  induction l as [|x l IH]; simpl; [split; [by intros ?%elem_of_nil|by intros [?%elem_of_nil _]]|].
  destruct (String.eqb_spec (out_PipelineID x) pid) as [Hp|Hp]; simpl.
  2: { rewrite IH, elem_of_cons. naive_solver. }
  case_bool_decide as He; [rewrite IH, elem_of_cons; naive_solver|].
  destruct (inScope _ scope) eqn:Es.
  { apply inScope_spec in Es. rewrite !elem_of_cons, IH. destruct r; naive_solver. }
  assert (¬ covers scope (t_ImportPath (out_Target x))) as Hs by (rewrite <- inScope_spec; congruence).
  destruct (isGone _ gone) eqn:Eg.
  { apply isGone_spec in Eg. rewrite !elem_of_cons, IH. destruct r; naive_solver. }
  assert (¬ ∃ s, gone = Some s ∧ covers s (t_ImportPath (out_Target x))) as Hg
    by (rewrite <- isGone_spec; congruence).
  rewrite IH, elem_of_cons. destruct r; naive_solver.
Qed.

Lemma prune_loop_sublist em scope pid gone l :
  sublist (map or_Output (prune_loop em scope pid gone l)) l.
Proof.
  induction l as [|x l IH]; simpl; [constructor|].
  repeat case_match; simpl; by constructor.
Qed.

Lemma prune_loop_no_gone em scope pid gone l :
  prune_loop em scope pid None l =
  filter (λ x, or_Reason x = ReasonUnclaimed) (prune_loop em scope pid gone l).
Proof.
  induction l as [|x l IH]; simpl; [done|].
  destruct (negb _); [done|]. case_bool_decide; [done|].
  destruct (inScope _ _); [by rewrite filter_cons, decide_True, IH by done|].
  destruct (isGone _ gone); [|done]. by rewrite filter_cons, decide_False by done.
Qed.

Lemma elem_of_PruneAll prev opts o r :
  MkOrphan o r ∈ PruneAll prev opts ↔
    PipelineID opts ≠ "" ∧ ∃ m scope em, prev = Some m ∧ Scope opts = Some scope ∧ Emitted opts = Some em ∧
      o ∈ m_Outputs m ∧ out_PipelineID o = PipelineID opts ∧ out_Target o ∉ em ∧
      match r with
      | ReasonUnclaimed => covers scope (t_ImportPath (out_Target o))
      | ReasonSourceGone => ¬ covers scope (t_ImportPath (out_Target o)) ∧
          ∃ s, GoneSources opts = Some s ∧ covers s (t_ImportPath (out_Target o))
      end.
Proof.
  destruct opts as [em scope pid gone]. unfold PruneAll. simpl.
  destruct prev as [m|]; [|rewrite elem_of_nil; naive_solver].
  destruct scope as [scope|]; [|rewrite elem_of_nil; naive_solver].
  destruct em as [em|]; [|rewrite elem_of_nil; naive_solver].
  destruct (String.eqb_spec pid "") as [->|Hp]; [rewrite elem_of_nil; naive_solver|].
  rewrite elem_of_prune_loop. naive_solver.
Qed.

(** An entry of the previous manifest is an orphan exactly when it belongs
    to this pipeline, the run did not emit its target, and its source package
    (up to the [_test] shift) was loaded by the run, or, reported apart, was
    not loaded and is known to be gone; an entry of another pipeline, an
    emitted target or a package the run never looked at is never an orphan.
    The orphans come in manifest order, and [Prune] returns the first class. *)
Theorem prune_classification prev opts :
  (∀ o r, MkOrphan o r ∈ PruneAll prev opts ↔
    PipelineID opts ≠ "" ∧ ∃ m scope em, prev = Some m ∧ Scope opts = Some scope ∧ Emitted opts = Some em ∧
      o ∈ m_Outputs m ∧ out_PipelineID o = PipelineID opts ∧ out_Target o ∉ em ∧
      match r with
      | ReasonUnclaimed => covers scope (t_ImportPath (out_Target o))
      | ReasonSourceGone => ¬ covers scope (t_ImportPath (out_Target o)) ∧
          ∃ s, GoneSources opts = Some s ∧ covers s (t_ImportPath (out_Target o))
      end) ∧
  (∀ m, prev = Some m → sublist (map or_Output (PruneAll prev opts)) (m_Outputs m)) ∧
  Prune prev (Emitted opts) (Scope opts) (PipelineID opts) =
    map or_Output (filter (λ x, or_Reason x = ReasonUnclaimed) (PruneAll prev opts)).
Proof.
  split; [intros o r; apply elem_of_PruneAll|].
  destruct opts as [em scope pid gone]. unfold Prune, PruneAll. simpl.
  destruct prev as [m|]; [|done].
  destruct scope as [scope|]; [|split; [intros; apply sublist_nil_l|done]].
  destruct em as [em|]; [|split; [intros; apply sublist_nil_l|done]].
  destruct (String.eqb_spec pid "") as [->|Hp]; [split; [intros; apply sublist_nil_l|done]|].
  split; [intros m' [= ->]; apply prune_loop_sublist|]. f_equal. apply prune_loop_no_gone.
Qed.

(** ** The merge *)

Lemma foldl_Add m l :
  foldl Add m l = MkManifest (m_Version m) (m_Brand m) (m_RunID m) (m_Outputs m ++ l).
Proof.
  revert m. induction l as [|o l IH]; intros m; simpl; [by destruct m; rewrite app_nil_r|].
  rewrite IH. simpl. by rewrite <- app_assoc.
Qed.

Lemma foldl_Add_unless (P : Output → bool) m l :
  foldl (λ m o, if P o then m else Add m o) m l = foldl Add m (filter (λ o, P o = false) l).
Proof.
  revert m. induction l as [|o l IH]; intros m; [done|]. cbn [foldl]. rewrite filter_cons, IH.
  by destruct (P o).
Qed.

(** The previous entries a merge carries over. *)
Definition carried (fs : files) (p : RunEnv) (current : Manifest) (o : Output) : Prop :=
  okey o ∉ map okey (m_Outputs current) ∧
  converged fs (outputRoot p) (ScopeImportPaths p) o = false.
#[global] Instance carried_dec fs p current o : Decision (carried fs p current o).
Proof. unfold carried. apply _. Defined.

Lemma merge_eq fs p prev current :
  mergeManifestPreservingOutOfScope fs p (Some prev) current =
  MkManifest manifest_Version (m_Brand current) (m_RunID current)
    (sort_outputs (filter (carried fs p current) (m_Outputs prev) ++ m_Outputs current)).
Proof.
  unfold mergeManifestPreservingOutOfScope. set (keys := list_to_set _).
  set (skip := λ o, bool_decide (okey o ∈ keys) || converged fs (outputRoot p) (ScopeImportPaths p) o).
  assert (∀ m l, foldl (λ m o, if bool_decide (okey o ∈ keys) then m
       else if converged fs (outputRoot p) (ScopeImportPaths p) o then m else Add m o) m l =
     foldl (λ m o, if skip o then m else Add m o) m l) as Hskip.
  { intros m l. revert m. induction l as [|o l IH]; intros m; [done|]. cbn [foldl]. rewrite IH.
    unfold skip. by case_bool_decide. }
  rewrite Hskip, foldl_Add_unless, !foldl_Add. simpl.
  rewrite (filter_ext_in _ (carried fs p current)); [done|]. intros o _. unfold skip, carried, keys.
  rewrite orb_false_iff, bool_decide_eq_false. by rewrite elem_of_list_to_set.
Qed.

Lemma merge_sorted fs p prev current :
  StronglySorted output_le (m_Outputs (mergeManifestPreservingOutOfScope fs p (Some prev) current)).
Proof. rewrite merge_eq. apply sort_outputs_sorted. Qed.

Lemma merge_NoDup fs p prev current :
  NoDup (map okey (m_Outputs prev)) → NoDup (map okey (m_Outputs current)) →
  NoDup (map okey (m_Outputs (mergeManifestPreservingOutOfScope fs p (Some prev) current))).
Proof.
  intros Hp Hc. rewrite merge_eq. simpl. rewrite sort_outputs_perm, map_app.
  apply NoDup_app. split_and!; [| |done].
  - eapply sublist_NoDup; [exact Hp|]. apply fmap_sublist, sublist_filter.
  - intros k Hk. apply list_elem_of_fmap in Hk as (o & -> & Ho).
    by apply list_elem_of_filter in Ho as [[Ho _] _].
Qed.

(** Merging a run's manifest with the previous one keeps an entry for
    everything still on disk: the result holds every current entry and every
    previous entry that was not re-emitted under the same target and pipeline
    and did not converge.  A previous entry leaves only when it was re-emitted
    or when the run loaded its package, the sink has a root and the file is not
    there any more; entries of packages the run never loaded always stay.  The
    result is sorted and its keys stay distinct. *)
Theorem merge_never_forgets_files fs p prev current :
  let m := mergeManifestPreservingOutOfScope fs p (Some prev) current in
  (∀ o, o ∈ m_Outputs m ↔ o ∈ m_Outputs current ∨ o ∈ m_Outputs prev ∧ carried fs p current o) ∧
  (∀ o, o ∈ m_Outputs prev →
     o ∈ m_Outputs m ∨ (∃ o', o' ∈ m_Outputs current ∧ okey o' = okey o) ∨
     ∃ root, outputRoot p = Some root ∧
       sourceImportPath (t_ImportPath (out_Target o)) ∈ ScopeImportPaths p ∧
       fs !! target_path root (out_Target o) = None) ∧
  StronglySorted output_le (m_Outputs m) ∧
  (NoDup (map okey (m_Outputs prev)) → NoDup (map okey (m_Outputs current)) →
   NoDup (map okey (m_Outputs m))).
Proof.
  intros m. unfold m. rewrite merge_eq. simpl.
  assert (∀ o, o ∈ sort_outputs (filter (carried fs p current) (m_Outputs prev) ++ m_Outputs current) ↔
     o ∈ m_Outputs current ∨ o ∈ m_Outputs prev ∧ carried fs p current o) as Hin.
  { intros o. rewrite sort_outputs_perm, elem_of_app, list_elem_of_filter. naive_solver. }
  split_and!; [done| |apply sort_outputs_sorted|intros Hp Hc; generalize (merge_NoDup fs p prev current Hp Hc); by rewrite merge_eq].
  - intros o Ho. rewrite Hin. destruct (decide (okey o ∈ map okey (m_Outputs current))) as [Hk|Hk].
    { apply list_elem_of_fmap in Hk as (o' & Hk & ?). right. left. eauto. }
    destruct (converged fs (outputRoot p) (ScopeImportPaths p) o) eqn:Ec; [|left; right; by split].
    right; right. unfold converged in Ec. destruct (outputRoot p) as [root|]; [|done].
    exists root. case_bool_decide; [done|]. simpl in Ec. case_bool_decide as Hs; [|done]. simpl in Ec.
    split_and!; [done..|]. unfold onDisk, not_exist in Ec. by case_bool_decide.
Qed.

(** ** The manifest of one run *)

Section Run.
Context (is_print : N → bool) (sha256_hex : string → string) (fault_text : WriteFault → string).

Definition entry_of (p : RunEnv) (files : captured) (t : Target) : Output :=
  MkOutput t (pluginsForTarget (byTarget p t) (pluginNames p))
    ("sha256:" +:+ sha256_hex (default "" (files !! t))) (resolvedLayouts p !! t) (pipelineID p).

Lemma asManifest_eq p now files sk :
  (asManifest sha256_hex p now files sk).1 =
  MkManifest manifest_Version (brand p) now
    (map (entry_of p files) (sort_targets (elements (dom files)))).
Proof.
  unfold asManifest. generalize (sort_targets (elements (dom files))). intros l.
  assert (∀ m sk, (foldl (manifest_step sha256_hex p files) (m, sk) l).1 =
            foldl Add m (map (entry_of p files) l)) as H.
  { induction l as [|t l IH]; intros m sk'; [done|]. cbn [foldl map]. exact (IH _ _). }
  by rewrite H, foldl_Add.
Qed.

Lemma cmp_fields_snoc l k x :
  length l = length k → cmp_fields (l ++ [x]) (k ++ [x]) = cmp_fields l k.
Proof.
  revert k. induction l as [|a l IH]; intros [|b k] Hlen; simplify_eq/=.
  - by rewrite string_compare_refl.
  - destruct (String.compare a b); auto.
Qed.

Lemma entries_sorted p files l :
  StronglySorted target_le l → StronglySorted output_le (map (entry_of p files) l).
Proof.
  induction 1 as [|t l Hl IH Hall]; simpl; constructor; [done|].
  apply Forall_fmap. eapply Forall_impl; [exact Hall|]. intros t' Ht. unfold compose, output_le.
  unfold output_fields. by rewrite cmp_fields_snoc.
Qed.

Lemma entries_NoDup p files l : NoDup l → NoDup (map okey (map (entry_of p files) l)).
Proof.
  intros Hl. rewrite map_map. apply (NoDup_fmap_2_strong (λ t, okey (entry_of p files t))); [|done].
  intros x y _ _ [= ->]. done.
Qed.

(** A manifest as this tool writes it. *)
Definition manifest_wf (m : Manifest) : Prop :=
  m_Version m = manifest_Version ∧ StronglySorted output_le (m_Outputs m) ∧
  NoDup (map okey (m_Outputs m)).

Lemma asManifest_wf p now files sk : manifest_wf (asManifest sha256_hex p now files sk).1.
Proof.
  rewrite asManifest_eq. split_and!; simpl; [done| |].
  - apply entries_sorted. apply (StronglySorted_merge_sort target_le).
  - apply entries_NoDup. unfold sort_targets. rewrite (merge_sort_Permutation target_le).
    apply NoDup_elements.
Qed.

Lemma merge_wf fs p prev current :
  (∀ m, prev = Some m → manifest_wf m) → manifest_wf current →
  manifest_wf (mergeManifestPreservingOutOfScope fs p prev current).
Proof.
  intros Hprev Hcur. destruct prev as [m|]; [|done].
  destruct (Hprev m eq_refl) as (_ & _ & Hp), Hcur as (_ & _ & Hc).
  split_and!; [by rewrite merge_eq|apply merge_sorted|by apply merge_NoDup].
Qed.

(** ** Content equality *)

Lemma list_equal_spec {A} (eqb : A → A → bool) (R : A → A → Prop) l k :
  (∀ x y, eqb x y = true ↔ R x y) → list_equal eqb l k = true ↔ Forall2 R l k.
Proof.
  intros HR. revert k. induction l as [|x l IH]; intros [|y k]; simpl.
  - split; [constructor|done].
  - split; [done|by inversion 1].
  - split; [done|by inversion 1].
  - rewrite andb_true_iff, HR, IH. split; [intros []; by constructor|by inversion 1].
Qed.

Lemma layout_equal_spec a b : layout_equal a b = true ↔ a = b.
Proof.
  unfold layout_equal. rewrite !andb_true_iff, !bool_decide_eq_true, forallb_forall, Nat.eqb_eq. split.
  - intros [[[[[H1 H2] H3] H4] H5] H6]. destruct a as [a1 a2 a3 a4 ma], b as [b1 b2 b3 b4 mb]. simpl in *.
    f_equal; try done. apply map_subseteq_size_eq; [|lia]. apply map_subseteq_spec. intros k v Hk.
    apply elem_of_map_to_list, list_elem_of_In, H6 in Hk. by apply bool_decide_eq_true in Hk.
  - intros ->. split_and!; try done. intros [k v] Hk. apply list_elem_of_In, elem_of_map_to_list in Hk.
    by apply bool_decide_eq_true.
Qed.

(** Equal entries up to the pipeline they are tagged with. *)
Definition same_content (a b : Output) : Prop :=
  out_Target a = out_Target b ∧ out_Hash a = out_Hash b ∧ out_Plugins a = out_Plugins b ∧
  out_ResolvedLayout a = out_ResolvedLayout b.

Lemma manifestOutputEqual_spec a b : manifestOutputEqual a b = true ↔ same_content a b.
Proof.
  unfold manifestOutputEqual, same_content.
  assert (list_equal (λ x y : PluginAttribution, bool_decide (x = y)) (out_Plugins a) (out_Plugins b) = true
            ↔ out_Plugins a = out_Plugins b) as Hpl.
  { rewrite (list_equal_spec _ eq); [by rewrite list_eq_Forall2|]. intros. apply bool_decide_eq_true. }
  case_bool_decide; simpl; [|naive_solver].
  destruct (String.eqb_spec (out_Hash a) (out_Hash b)); simpl; [|naive_solver].
  destruct (list_equal _ _ _); simpl; [|naive_solver].
  destruct (out_ResolvedLayout a), (out_ResolvedLayout b); rewrite ?layout_equal_spec; naive_solver.
Qed.

Lemma manifestContentEqual_spec a b :
  manifestContentEqual a b = true ↔
  m_Version a = m_Version b ∧ m_Brand a = m_Brand b ∧ Forall2 same_content (m_Outputs a) (m_Outputs b).
Proof.
  unfold manifestContentEqual. rewrite <- (list_equal_spec manifestOutputEqual same_content)
    by apply manifestOutputEqual_spec.
  destruct (Z.eqb_spec (m_Version a) (m_Version b)), (String.eqb_spec (m_Brand a) (m_Brand b));
    simpl; naive_solver.
Qed.

Lemma same_content_refl l : Forall2 same_content l l.
Proof. induction l; constructor; [by unfold same_content|done]. Qed.

(** ** A skipped write loses nothing *)

Lemma sorted_keys_eq l k :
  StronglySorted output_le l → StronglySorted output_le k → map okey l ≡ₚ map okey k →
  map okey l = map okey k.
Proof.
  intros Hl Hk Hp.
  assert (∀ l, StronglySorted output_le l → StronglySorted fields_le (map output_fields l)) as Hs.
  { clear. induction 1 as [|x l _ IH Hall]; simpl; constructor; [done|].
    by apply Forall_fmap. }
  set (fields_of := λ k : Target * string, target_fields k.1 ++ [k.2]).
  assert (∀ l, map output_fields l = map fields_of (map okey l)) as Hf by (intros; by rewrite map_map).
  assert (map output_fields l = map output_fields k) as Heq.
  { eapply (StronglySorted_unique fields_le); [auto..|]. rewrite !Hf. by apply Permutation_map. }
  rewrite !Hf in Heq. revert Heq. apply list_fmap_eq_inj.
  intros [t1 i1] [t2 i2] [H1 H2]%app_inj_2; [|done]. apply target_fields_inj in H1. simpl in *. congruence.
Qed.

Lemma same_content_targets l k : Forall2 same_content l k → map out_Target l = map out_Target k.
Proof. induction 1 as [|x y l k [H _] _ IH]; simpl; congruence. Qed.

Lemma same_content_keys l k : Forall2 same_content l k → map okey l = map okey k → l = k.
Proof.
  induction 1 as [|x y l k (H1 & H2 & H3 & H4) _ IH]; simpl; [done|]. intros [= _ Hid Hrest].
  f_equal; [|auto]. destruct x, y. simpl in *. congruence.
Qed.

(** The previous entries that are not carried over are exactly the re-emitted
    ones, once the targets agree and what the run emitted is on disk. *)
Lemma dropped_keys fs p prev current :
  (∀ o root, o ∈ m_Outputs current → outputRoot p = Some root →
     fs !! target_path root (out_Target o) ≠ None) →
  NoDup (map okey (m_Outputs prev)) →
  let rest := filter (λ o, ¬ carried fs p current o) (m_Outputs prev) in
  map out_Target rest ≡ₚ map out_Target (m_Outputs current) →
  map okey rest ≡ₚ map okey (m_Outputs current).
Proof.
  intros Hdisk Hnd rest Ht.
  assert (∀ o, o ∈ rest → okey o ∈ map okey (m_Outputs current)) as Hin.
  { intros o Ho. assert (out_Target o ∈ map out_Target (m_Outputs current)) as Hto
      by (rewrite <- Ht; by apply list_elem_of_fmap_2).
    apply list_elem_of_filter in Ho as [Hn _].
    destruct (decide (okey o ∈ map okey (m_Outputs current))) as [|Hk]; [done|].
    destruct Hn. split; [done|]. unfold converged. destruct (outputRoot p) as [root|] eqn:Er; [|done].
    repeat case_bool_decide; simpl; try done. unfold onDisk, not_exist.
    apply list_elem_of_fmap in Hto as (c & Hc & Hc'). rewrite Hc.
    rewrite bool_decide_eq_false_2; [done|]. by apply Hdisk. }
  apply submseteq_length_Permutation.
  - apply NoDup_submseteq.
    + eapply sublist_NoDup; [exact Hnd|]. apply fmap_sublist, sublist_filter.
    + intros k Hk. apply list_elem_of_fmap in Hk as (o & -> & Ho). auto.
  - apply Permutation_length in Ht. rewrite !length_map in *. lia.
Qed.

Lemma content_equal_lossless fs p prev current :
  (∀ o root, o ∈ m_Outputs current → outputRoot p = Some root →
     fs !! target_path root (out_Target o) ≠ None) →
  manifest_wf prev →
  manifestContentEqual prev (mergeManifestPreservingOutOfScope fs p (Some prev) current) = true →
  m_Outputs (mergeManifestPreservingOutOfScope fs p (Some prev) current) = m_Outputs prev.
Proof.
  intros Hdisk (_ & Hs & Hnd) (_ & _ & Hf)%manifestContentEqual_spec.
  symmetry. apply same_content_keys; [done|].
  apply sorted_keys_eq; [done|apply merge_sorted|].
  pose proof (same_content_targets _ _ Hf) as Ht. rewrite merge_eq in Ht |- *. simpl in *.
  pose proof (filter_app_complement (carried fs p current) (m_Outputs prev)) as Hc.
  rewrite sort_outputs_perm, map_app, <- Hc at 1. rewrite map_app. apply Permutation_app_head.
  apply dropped_keys; [done..|]. apply (Permutation_app_inv_l (map out_Target (filter (carried fs p current) (m_Outputs prev)))).
  rewrite <- !map_app. rewrite Hc, Ht. apply Permutation_map. by rewrite sort_outputs_perm.
Qed.

(** ** The manifest file *)

Definition previous (file : option Manifest) : option Manifest :=
  match Read file with Ok m => Some m | Err _ => None end.

Lemma Read_wf m : manifest_wf m → previous (Some m) = Some m.
Proof. intros (Hv & _). unfold previous, Read. by rewrite Hv. Qed.

Lemma previous_file file m : previous file = Some m → file = Some m.
Proof. unfold previous, Read. destruct file as [f|]; [|done]. by destruct (_ =? _)%Z; intros; simplify_eq. Qed.

(** What [writeManifest] does to the file and to [lastManifest]. *)
Lemma writeManifest_eq fs fault p now caps file last sk :
  manifestPath p ≠ "" →
  let merged := mergeManifestPreservingOutOfScope fs p (previous file)
                  (asManifest sha256_hex p now caps sk).1 in
  (writeManifest is_print sha256_hex fault_text fs fault p now caps file last sk).1 =
  (if dryRun p || match previous file with Some prev => manifestContentEqual prev merged | None => false end
   then file else if fault then file else MarshalIndent is_print merged, Some merged).
Proof.
  intros Hp merged. unfold writeManifest. apply String.eqb_neq in Hp as ->.
  unfold merged, previous. destruct (asManifest _ _ _ _ _) as [cur sk']. simpl.
  destruct (dryRun p); [done|]. simpl. destruct (match _ with Some _ => _ | None => _ end); [done|].
  by destruct fault.
Qed.

(** A current manifest merged into its own result gives that result back. *)
Lemma merge_again fs p prev current current' :
  (∀ m, prev = Some m → manifest_wf m) → manifest_wf current →
  m_Outputs current' = m_Outputs current → m_Brand current' = m_Brand current →
  let merged := mergeManifestPreservingOutOfScope fs p prev current in
  m_Outputs (mergeManifestPreservingOutOfScope fs p (Some merged) current') = m_Outputs merged.
Proof.
  intros Hprev Hcur Ho Hb merged.
  assert (manifest_wf merged) as (_ & Hs & Hnd) by by apply merge_wf.
  symmetry. apply sorted_outputs_unique; [done|apply merge_sorted|done|].
  assert (∃ K, m_Outputs merged ≡ₚ K ++ m_Outputs current ∧ Forall (carried fs p current) K) as (K & Hp & HK).
  { unfold merged. destruct prev as [m|]; [|by exists []]. rewrite merge_eq. simpl.
    exists (filter (carried fs p current) (m_Outputs m)). split; [apply sort_outputs_perm|].
    apply Forall_forall. intros o Ho'. by apply list_elem_of_filter in Ho' as [? _]. }
  rewrite merge_eq. simpl. rewrite sort_outputs_perm, Ho, Hp, filter_app.
  assert (∀ o, carried fs p current' o ↔ carried fs p current o) as Hc by (intros; unfold carried; by rewrite Ho).
  rewrite (filter_all _ K), (filter_none _ (m_Outputs current)).
  - by rewrite app_nil_r.
  - intros o Hin [Hn _]%Hc. apply Hn. by apply list_elem_of_fmap_2.
  - intros o Hin. rewrite Hc. rewrite Forall_forall in HK. auto.
Qed.

Lemma asManifest_again p now now' caps sk sk' :
  m_Outputs (asManifest sha256_hex p now caps sk).1 = m_Outputs (asManifest sha256_hex p now' caps sk').1 ∧
  m_Brand (asManifest sha256_hex p now caps sk).1 = m_Brand (asManifest sha256_hex p now' caps sk').1.
Proof. by rewrite !asManifest_eq. Qed.

(** Running again over the same sources leaves the manifest file alone,
    whatever the clock says: once a run has written its captures, a second run
    with the same captures, packages and files on disk finds the file
    describing its own result and does not rewrite it, provided JSON carries
    that result. *)
Theorem manifest_settles fs fault p now now' caps file last sk sk' :
  (∀ m, Read file = Ok m → manifest_wf m) →
  let st := (writeManifest is_print sha256_hex fault_text fs None p now caps file last sk).1 in
  (∀ m, st.2 = Some m → encodable is_print m = true) →
  (writeManifest is_print sha256_hex fault_text fs fault p now' caps st.1 st.2 sk').1.1 = st.1.
Proof.
  intros Hwf st He. destruct (decide (manifestPath p = "")) as [Hp|Hp].
  { unfold writeManifest at 1. by rewrite Hp. }
  unfold st in He. rewrite writeManifest_eq in He by done. specialize (He _ eq_refl).
  assert (∀ m, previous file = Some m → manifest_wf m) as Hprev.
  { unfold previous. intros m. destruct (Read file) eqn:E; naive_solver. }
  rewrite writeManifest_eq by done. unfold st. rewrite writeManifest_eq by done. simpl.
  destruct (dryRun p); [done|]. simpl.
  destruct (asManifest_again p now' now caps sk' sk) as [Ho Hb].
  pose proof (asManifest_wf p now caps sk) as Hcur.
  set (current := (asManifest sha256_hex p now caps sk).1) in *.
  set (current' := (asManifest sha256_hex p now' caps sk').1) in *.
  set (merged := mergeManifestPreservingOutOfScope fs p (previous file) current) in *.
  rewrite (MarshalIndent_id is_print merged He).
  destruct (match previous file with Some prev => manifestContentEqual prev merged | None => false end) eqn:E.
  - simpl. destruct (previous file) as [prev|] eqn:Ep; [|done].
    replace (manifestContentEqual prev _) with true; [done|]. symmetry. apply manifestContentEqual_spec.
    apply manifestContentEqual_spec in E. unfold merged in E. rewrite merge_eq in E |- *. simpl in *.
    rewrite Ho, Hb. destruct E as (? & ? & E). split_and!; [done..|]. 
    erewrite list_filter_iff; [exact E|]. intros o. unfold carried. by rewrite Ho.
  - simpl. assert (manifest_wf merged) as Hm by by apply merge_wf.
    rewrite Read_wf by done.
    replace (manifestContentEqual merged _) with true; [done|]. symmetry. apply manifestContentEqual_spec.
    split_and!.
    + destruct Hm as [-> _]. by rewrite merge_eq.
    + rewrite merge_eq. simpl. rewrite Hb. unfold merged. destruct (previous file); [|done]. by rewrite merge_eq.
    + unfold merged. rewrite (merge_again fs p _ current current') by done. apply same_content_refl.
Qed.

Lemma captured_in_current p now caps sk t body :
  caps !! t = Some body →
  ∃ o, o ∈ m_Outputs (asManifest sha256_hex p now caps sk).1 ∧ okey o = (t, pipelineID p) ∧
       out_Hash o = "sha256:" +:+ sha256_hex body.
Proof.
  intros Ht. exists (entry_of p caps t). rewrite asManifest_eq. simpl. rewrite Ht. split_and!; [|done..].
  apply (list_elem_of_fmap_2 (entry_of p caps)). unfold sort_targets.
  rewrite (merge_sort_Permutation target_le). apply elem_of_elements. by eapply elem_of_dom_2.
Qed.

Lemma merge_has_current fs p prev current o :
  o ∈ m_Outputs current → o ∈ m_Outputs (mergeManifestPreservingOutOfScope fs p prev current).
Proof.
  intros Ho. destruct prev; [|done]. rewrite merge_eq. simpl.
  rewrite sort_outputs_perm. apply elem_of_app. by right.
Qed.

Lemma current_targets p now caps sk o :
  o ∈ m_Outputs (asManifest sha256_hex p now caps sk).1 → out_Target o ∈ dom caps.
Proof.
  rewrite asManifest_eq. simpl. intros Ho.
  apply (list_elem_of_fmap (entry_of p caps)) in Ho as (t & -> & Ht). simpl.
  unfold sort_targets in Ht. rewrite (merge_sort_Permutation target_le) in Ht. by apply elem_of_elements.
Qed.

(** C9: After a run that writes its manifest (a path is set, it is no dry run,
    and the file system accepts the write) the manifest file describes the
    merged manifest exactly, whether the write happened or was skipped as
    unnecessary: the comparison does not look at pipeline identifiers, and still
    never skips a write that matters when every file the run emitted is on disk.
    The file is again one the tool could have written (current version, sorted,
    distinct keys) when the one before it was, and lists every captured file
    under this pipeline with the digest of its content.  The texts of the merged
    manifest are UTF-8 and the names and tags of its plugins need no escape that
    JSON lacks; without that the file is left empty
    ([unescapable_name_empties_manifest]). *)
Theorem manifest_file_is_current fs p now caps file last sk :
  manifestPath p ≠ "" → dryRun p = false →
  (∀ m, Read file = Ok m → manifest_wf m) →
  (∀ t root, t ∈ dom caps → outputRoot p = Some root → fs !! target_path root t ≠ None) →
  let st := (writeManifest is_print sha256_hex fault_text fs None p now caps file last sk).1 in
  (∀ m, st.2 = Some m → encodable is_print m = true) →
  ∃ f m,
    st = (Some f, Some m) ∧
    manifest_wf f ∧ m_Brand f = m_Brand m ∧ m_Outputs f = m_Outputs m ∧
    ∀ t body, caps !! t = Some body →
      ∃ o, o ∈ m_Outputs f ∧ okey o = (t, pipelineID p) ∧ out_Hash o = "sha256:" +:+ sha256_hex body.
Proof.
  intros Hp Hd Hwf Hdisk. cbv zeta. rewrite writeManifest_eq, Hd by done. simpl. intros He. specialize (He _ eq_refl).
  rewrite (MarshalIndent_id _ _ He).
  assert (∀ m, previous file = Some m → manifest_wf m) as Hprev.
  { unfold previous. intros m. destruct (Read file) eqn:E; naive_solver. }
  pose proof (asManifest_wf p now caps sk) as Hcur.
  pose proof (current_targets p now caps sk) as Hct.
  pose proof (captured_in_current p now caps sk) as Hcap.
  set (current := (asManifest sha256_hex p now caps sk).1) in *.
  set (merged := mergeManifestPreservingOutOfScope fs p (previous file) current).
  assert (∀ t body, caps !! t = Some body → ∃ o, o ∈ m_Outputs merged ∧ okey o = (t, pipelineID p) ∧
            out_Hash o = "sha256:" +:+ sha256_hex body) as Hall.
  { intros t body (o & Ho & ?)%Hcap. exists o. split; [by apply merge_has_current|done]. }
  destruct (match previous file with Some prev => manifestContentEqual prev merged | None => false end) eqn:E.
  - destruct (previous file) as [prev|] eqn:Ep; [|done].
    assert (m_Outputs merged = m_Outputs prev) as Heq.
    { apply content_equal_lossless; [|auto|done]. intros o root Ho. by apply Hdisk, Hct. }
    apply manifestContentEqual_spec in E as (_ & Hb & _).
    exists prev, merged. split_and!; [by rewrite (previous_file file prev)|auto|done|done|].
    by rewrite <- Heq.
  - exists merged, merged. split_and!; [done|by apply merge_wf|done..].
Qed.
End Run.

(** ** A concrete run *)

Module Example.
Definition t_user : Target := MkTarget "internal/repo" "user_gen.go" "repo" "example.com/p/repo".
Definition t_old : Target := MkTarget "internal/repo" "old_gen.go" "repo" "example.com/p/repo".
Definition t_other : Target := MkTarget "internal/web" "web_gen.go" "web" "example.com/p/web".
Definition env : RunEnv :=
  MkRunEnv ".eidos/manifest.json" (Some "/w") ["example.com/p/repo"] "P" "eidos" false ∅
    (λ _, [MkEntity (MkContributor "repo" "" [["weaver"]]) []]) ["repo"; "weaver"; "go"].
Definition entry_for (t : Target) (pid : string) : Output := MkOutput t [MkAttr "repo" ""] "sha256:0" None pid.
Definition prev : Manifest :=
  MkManifest 2 "eidos" "run-0" [entry_for t_old "P"; entry_for t_user "Q"; entry_for t_other "P"].
Definition caps : captured := {[ t_user := "package repo" ]}.
Definition disk : files :=
  {[ "/w/internal/repo/user_gen.go" := File "package repo"; "/w/internal/repo/old_gen.go" := File "x" ]}.

Lemma prev_wf : manifest_wf prev.
Proof.
  split_and!; [done| |].
  - repeat constructor; vm_compute; done.
  - apply (bool_decide_unpack _). vm_compute. done.
Qed.
End Example.

Lemma manifest_settles_witness :
  let st := (writeManifest (between 32 126) (λ b, b) (λ _, "") Example.disk None Example.env "run-1" Example.caps
               (Some Example.prev) None Diag.New).1 in
  (writeManifest (between 32 126) (λ b, b) (λ _, "") Example.disk None Example.env "run-2" Example.caps st.1 st.2 Diag.New).1.1
  = st.1 ∧ length (default [] (m_Outputs <$> st.1)) = 4.
Proof.
  split; [|vm_compute; reflexivity].
  apply manifest_settles.
  - intros m [= <-]. exact Example.prev_wf.
  - intros m Hm. vm_compute in Hm. injection Hm as <-. vm_compute. reflexivity.
Defined.

Lemma manifest_file_is_current_witness :
  ∃ f m,
    (writeManifest (between 32 126) (λ b, b) (λ _, "") Example.disk None Example.env "run-1" Example.caps
       (Some Example.prev) None Diag.New).1 = (Some f, Some m) ∧
    manifest_wf f ∧ m_Outputs f = m_Outputs m.
Proof.
  destruct (manifest_file_is_current (between 32 126) (λ b, b) (λ _, "") Example.disk Example.env "run-1" Example.caps
              (Some Example.prev) None Diag.New) as (f & m & H1 & H2 & _ & H3 & _).
  - discriminate.
  - reflexivity.
  - intros m [= <-]. exact Example.prev_wf.
  - intros t root Ht [= <-]. unfold Example.caps in Ht. rewrite dom_singleton in Ht.
    apply elem_of_singleton in Ht as ->. vm_compute. discriminate.
  - intros m Hm. vm_compute in Hm. injection Hm as <-. vm_compute. reflexivity.
  - exists f, m. split_and!; assumption.
Defined.

(** A plugin whose name holds a character that Go escapes and JSON does not: the
    error of [MarshalIndent] is dropped and the manifest file is left empty, the
    entries of the other pipelines included. *)
Theorem unescapable_name_empties_manifest :
  let env := MkRunEnv ".eidos/manifest.json" (Some "/w") ["example.com/p/repo"] "P" "eidos" false ∅
    (λ _, [MkEntity (MkContributor (String "007" "repo") "" []) []]) [String "007" "repo"; "go"] in
  let st := (writeManifest (between 32 126) (λ b, b) (λ _, "") Example.disk None env "run-1" Example.caps
               (Some Example.prev) None Diag.New).1 in
  st.1 = None ∧ ∃ m, st.2 = Some m ∧ m_Outputs m ≠ [].
Proof. split; [vm_compute; reflexivity|]. eexists. split; [vm_compute; reflexivity|]. discriminate. Qed.
