(* ===== verification/Sinks.v ===== *)
(** * Output sinks ([sink])

    The destinations a rendered file can go to: the disk with its atomic
    replacement and its check for files that need no write ([disk.go]), memory
    ([memory.go]), a writer ([stdout.go]) and several sinks at once
    ([multi.go]), with what a successful and a failed write guarantee. *)

From S2P Require Import Prelude GoStrings Unicode FilePath Imports Plugin Build Manifest ManifestRun.

Local Open Scope string_scope.
Local Open Scope nat_scope.
Local Open Scope list_scope.

Inductive SinkError :=
| ErrInvalidTarget (t : Target)
| ErrDisk (f : WriteFault)
| ErrStream (path : string)
| ErrJoined (errs : list SinkError).

(** ** [disk.go] *)

Definition bodiesMatch (a b : string) : bool :=
  if String.eqb a b then true
  else match ExtractProvenance a with
  | None => false
  | Some ah =>
      if negb (IsProvenanceAtTail a) then false
      else match ExtractProvenance b with
      | None => false
      | Some bh => String.eqb ah bh
      end
  end.

Definition disk_path (root : string) (t : Target) : string :=
  if IsAbs (t_Dir t) then Join [t_Dir t; t_Filename t] else Join [root; t_Dir t; t_Filename t].

(** The result, and the states the file system goes through. *)
Definition Disk_run (w : refusals) (root : string) (fs : files) (t : Target) (body : string)
    : res SinkError unit * list files :=
  if String.eqb (t_Filename t) "" then (Err (ErrInvalidTarget t), [fs])
  else
    let full := disk_path root t in
    let write := match atomic_run w fs (path_dir full) full body with
                 | (Ok _, states) => (Ok tt, states)
                 | (Err e, states) => (Err (ErrDisk e), states)
                 end in
    match read_file fs full with
    | Some existing => if bodiesMatch existing body then (Ok tt, [fs]) else write
    | None => write
    end.
Definition Disk_Write (w : refusals) (root : string) (fs : files) (t : Target) (body : string)
    : res SinkError unit * files :=
  let '(r, states) := Disk_run w root fs t body in (r, last_state fs states).

(** ** [memory.go] *)

Definition Memory_Write (m : gmap Target string) (t : Target) (body : string)
    : res SinkError unit * gmap Target string :=
  if String.eqb (t_Filename t) "" then (Err (ErrInvalidTarget t), m) else (Ok tt, <[t := body]> m).
Definition Memory_Get (m : gmap Target string) (t : Target) : option string := m !! t.
Definition Memory_Len (m : gmap Target string) : nat := size m.
Definition Memory_Clear (m : gmap Target string) : gmap Target string := ∅.

(** ** [stdout.go]: [refuse] tells which of the writes the stream rejects,
    counted from the first of the call. *)

Definition Stdout_Write (refuse : nat → bool) (out : string) (t : Target) (body : string)
    : res SinkError unit * string :=
  if String.eqb (t_Filename t) "" then (Err (ErrInvalidTarget t), out)
  else
    let path := if String.eqb (JoinPath t) "" then t_Filename t else JoinPath t in
    if refuse 0 then (Err (ErrStream path), out)
    else
      let out := out +:+ "// === " +:+ path +:+ " ===" +:+ byte_string [10] in
      if refuse 1 then (Err (ErrStream path), out)
      else
        let out := out +:+ body in
        if refuse 2 then (Err (ErrStream path), out) else (Ok tt, out +:+ byte_string [10]).

(** ** [multi.go]: the members are the states of the wrapped sinks with the
    function that writes to each. *)

Definition member (S : Type) : Type := S → Target → string → res SinkError unit * S.

Fixpoint multi_loop {S} (ws : list (member S)) (ss : list S) (t : Target) (body : string)
    : list SinkError * list S :=
  match ws, ss with
  | w :: ws, s :: ss =>
      let '(r, s') := w s t body in
      let '(errs, ss') := multi_loop ws ss t body in
      (match r with Ok _ => errs | Err e => e :: errs end, s' :: ss')
  | _, _ => ([], ss)
  end.

Definition Multi_Write {S} (ws : list (member S)) (ss : list S) (t : Target) (body : string)
    : res SinkError unit * list S :=
  let '(errs, ss') := multi_loop ws ss t body in
  (match errs with [] => Ok tt | _ => Err (ErrJoined errs) end, ss').

(** ** Lemmas *)

Lemma bodiesMatch_refl b : bodiesMatch b b = true.
Proof. unfold bodiesMatch. by rewrite String.eqb_refl. Qed.





(** Where the sink writes is where the manifest merge looks. *)
Lemma disk_path_target_path root t :
  root ≠ "" → IsAbs (t_Filename t) = false → t_Filename t ≠ "" → disk_path root t = target_path root t.
Proof.
  intros Hr Hf Hn. unfold disk_path, target_path. destruct (IsAbs (t_Dir t)) eqn:E; [done|].
  simpl negb. cbv iota. by rewrite Join_nested.
Qed.
