(* ===== verification/Prune.v ===== *)
(** * The prune command ([cli/prune.go])

    What happens after the pipeline run of [prune]: the entries of the merged
    manifest that may be deleted ([classify], with the probe for deleted source
    packages), the guarded deletion ([applyPrune], [hasGeneratedMarker]) and
    the rewrite of the manifest file ([rewriteManifestAfterPrune]).

    The module lookup ([moduleIdentity], through [golang.org/x/mod]) and the
    directories that exist are arguments.  Standard output and error are the
    lists of messages printed. *)

From S2P Require Import Prelude GoStrings Unicode Position Diag Plugin Build FilePath Manifest ManifestRun ManifestLaws.

Local Open Scope string_scope.
Local Open Scope nat_scope.
Local Open Scope list_scope.

Record Env := MkEnv {
  Workdir : string;
  Brand : string;
  env_module : option (string * string);   (* root directory and module path *)
  env_dirs : string → bool;                (* the directories that exist *)
  env_mpath : string;                      (* [manifestPath(env, cfg)] *)
}.

Record PruneConfig := MkPruneConfig { DryRun : bool; DeletedSources : bool }.

(** What [Pipeline.Run] leaves behind for the command. *)
Record RunResult := MkRun {
  LastManifest : option Manifest;
  EmittedTargets : gset Target;
  run_scope : option (gset string);
  run_pipelineID : string;
}.

(** ** Deleted source packages *)

Definition moduleRelative (importPath modPath : string) : option string :=
  if String.eqb importPath modPath then Some "."
  else if has_prefix importPath (modPath +:+ "/")
  then Some (str_drop (String.length (modPath +:+ "/")) importPath) else None.

Definition probe_gone (env : Env) (modRoot modPath : string) (gone : gset string) (ip : string)
    : gset string :=
  match moduleRelative ip modPath with
  | None => gone
  | Some rel => if negb (env_dirs env (Join [modRoot; rel])) then {[ip]} ∪ gone else gone
  end.

Definition goneSources (env : Env) (candidates : list string) : option (gset string) :=
  match env_module env with
  | None => None
  | Some (modRoot, modPath) =>
      let gone := foldl (probe_gone env modRoot modPath) ∅ candidates in
      if bool_decide (gone = ∅) then None else Some gone
  end.

Fixpoint candidates_loop (scope : gset string) (pid : string) (seen : gset string)
    (l : list Output) : list string :=
  match l with
  | [] => []
  | o :: l =>
      let ip := t_ImportPath (out_Target o) in
      if negb (String.eqb (out_PipelineID o) pid) then candidates_loop scope pid seen l
      else if String.eqb ip "" then candidates_loop scope pid seen l
      else if bool_decide (ip ∈ seen) then candidates_loop scope pid seen l
      else if bool_decide (ip ∈ scope) then candidates_loop scope pid seen l
      else trim_suffix ip "_test" :: candidates_loop scope pid ({[ip]} ∪ seen) l
  end.

(** Reading a nil scope map finds nothing. *)
Definition pruneCandidates (prev : option Manifest) (scope : option (gset string)) (pid : string)
    : list string :=
  match prev with
  | None => []
  | Some m => if String.eqb pid "" then []
              else candidates_loop (default ∅ scope) pid ∅ (m_Outputs m)
  end.

(** ** [classify] *)

Definition prune_options (cfg : PruneConfig) (env : Env) (r : RunResult) : PruneOptions :=
  MkPruneOptions (Some (EmittedTargets r)) (run_scope r) (run_pipelineID r)
    (if DeletedSources cfg
     then goneSources env (pruneCandidates (LastManifest r) (run_scope r) (run_pipelineID r))
     else None).

(** [position.Pos{File: path}] *)
Definition file_pos (path : string) : Pos := MkPos path 0 0 0.

(** [env.Diag] may be nil. *)
Definition classify_note (sk : option Sink) (x : Orphan) : option Sink :=
  match or_Reason x with
  | ReasonSourceGone =>
      (λ sk, Infof (For "pipeline.prune") sk
        (file_pos (Join [t_Dir (out_Target (or_Output x)); t_Filename (out_Target (or_Output x))]))
        "source package %q no longer exists in the module"
        [AStr (t_ImportPath (out_Target (or_Output x)))]) <$> sk
  | ReasonUnclaimed => sk
  end.

Definition classify (cfg : PruneConfig) (env : Env) (r : RunResult) (sk : option Sink)
    : list Output * option Sink :=
  let orphans := PruneAll (LastManifest r) (prune_options cfg env r) in
  (map or_Output orphans, foldl classify_note sk orphans).

(** ** [hasGeneratedMarker] *)

Inductive MarkerError := ErrOpen (path : string) | ErrScan (path : string).

(** [bufio.Scanner] with [ScanLines]: a line of 64 KiB or more stops the scan
    with an error; an empty rest after the last newline is no line. *)
Definition max_token : Z := 65536.

Definition generated_prefix (brand : string) : string := "// Code generated by " +:+ brand +:+ ".".

Fixpoint scan_marker (path brand : string) (lines : list string) : res MarkerError bool :=
  match lines with
  | [] => Ok false
  | raw :: lines =>
      if (max_token <=? Z.of_nat (String.length raw))%Z then Err (ErrScan path)
      else
        let line := trim_space (trim_suffix raw (byte_string [13])) in
        if String.eqb line "" then scan_marker path brand lines
        else Ok (has_prefix line (generated_prefix brand))
  end.

Definition hasGeneratedMarker (fs : files) (path brand : string) : res MarkerError bool :=
  match fs !! path with
  | None => Ok false
  | Some Opaque => Err (ErrOpen path)
  | Some (File body) => scan_marker path brand (split_byte body "010")
  end.

(** ** [applyPrune] *)

Record PruneState := MkPrune {
  ps_fs : files;
  ps_deleted : nat;
  ps_skipped : nat;
  ps_gone : nat;
  ps_survivors : gset Target;
  ps_stdout : list message;
  ps_stderr : list message;
  ps_diag : option Sink;
}.

Definition prune_path (env : Env) (t : Target) : string := Join [Workdir env; t_Dir t; t_Filename t].

Section Prune.
Context (is_print : N → bool) (w : refusals) (error_text : MarkerError → string) (remove_text : string → string)
  (write_text : WriteFault → string).

Definition survive (st : PruneState) (t : Target) (sk : option Sink) : PruneState :=
  MkPrune (ps_fs st) (ps_deleted st) (S (ps_skipped st)) (ps_gone st) ({[t]} ∪ ps_survivors st)
    (ps_stdout st) (ps_stderr st) sk.

Definition prune_step (cfg : PruneConfig) (env : Env) (st : PruneState) (o : Output) : PruneState :=
  let t := out_Target o in
  let fullPath := prune_path env t in
  if not_exist (ps_fs st) fullPath then
    MkPrune (ps_fs st) (ps_deleted st) (ps_skipped st) (S (ps_gone st)) (ps_survivors st)
      (ps_stdout st ++ [Sprintf "already gone: %s" [AStr fullPath]]) (ps_stderr st) (ps_diag st)
  else match hasGeneratedMarker (ps_fs st) fullPath (Brand env) with
  | Err e =>
      survive st t ((λ sk, Warnf (For "pipeline.prune") sk (file_pos fullPath) "%v"
                             [AStr (error_text e)]) <$> ps_diag st)
  | Ok false =>
      survive st t ((λ sk, Infof (For "pipeline.prune") sk (file_pos fullPath)
        "skipped: no `// Code generated by %s.` marker — refusing to delete a manually-edited file"
        [AStr (Brand env)]) <$> ps_diag st)
  | Ok true =>
      if DryRun cfg then
        MkPrune (ps_fs st) (S (ps_deleted st)) (ps_skipped st) (ps_gone st) (ps_survivors st)
          (ps_stdout st ++ [Sprintf "would delete: %s" [AStr fullPath]]) (ps_stderr st) (ps_diag st)
      else match remove w (ps_fs st) fullPath with
      | (true, fs) =>
          MkPrune fs (ps_deleted st) (S (ps_skipped st)) (ps_gone st) ({[t]} ∪ ps_survivors st)
            (ps_stdout st) (ps_stderr st ++ [Sprintf "delete %s: %v" [AStr fullPath; AStr (remove_text fullPath)]]) (ps_diag st)
      | (false, fs) =>
          MkPrune fs (S (ps_deleted st)) (ps_skipped st) (ps_gone st) (ps_survivors st)
            (ps_stdout st ++ [Sprintf "deleted: %s" [AStr fullPath]]) (ps_stderr st) (ps_diag st)
      end
  end.

(** ** [rewriteManifestAfterPrune] *)

Definition stale_keys (stale : list Output) (survivors : gset Target) : gset (Target * string) :=
  list_to_set (map okey (filter (λ o, out_Target o ∉ survivors) stale)).

Definition rewriteManifestAfterPrune (env : Env) (fault : option WriteFault) (r : RunResult)
    (stale : list Output) (survivors : gset Target) (file : option Manifest) (sk : option Sink)
    : option Manifest * option Sink :=
  if String.eqb (env_mpath env) "" then (file, sk)
  else match LastManifest r with
  | None => (file, sk)
  | Some source =>
      let staleKeys := stale_keys stale survivors in
      if bool_decide (staleKeys = ∅) then (file, sk)
      else
        let updated := set_brand (New (m_RunID source)) (m_Brand source) in
        let updated := foldl (λ m o, if bool_decide (okey o ∈ staleKeys) then m else Add m o)
                         updated (m_Outputs source) in
        match Write is_print fault file updated with
        | (Ok _, file') => (file', sk)
        | (Err e, file') =>
            (file', (λ sk, Warnf (For "pipeline.prune") sk (file_pos (env_mpath env))
               "manifest write after prune failed: %v" [AStr (write_text e)]) <$> sk)
        end
  end.

Definition ExitOK : Z := 0.
Definition ExitPipelineError : Z := 2.

(** The run's error: none, [ErrRunHadErrors], or another one. *)
Inductive run_err := RunOk | RunHadErrors | RunFailed (text : string).

Record CommandState := MkCmd {
  cs_fs : files;
  cs_file : option Manifest;
  cs_diag : option Sink;
  cs_stdout : list message;
  cs_stderr : list message;
}.

Definition applyPrune (cfg : PruneConfig) (env : Env) (fault : option WriteFault) (r : RunResult)
    (stale : list Output) (err : run_err) (s : CommandState) : Z * CommandState :=
  let st := foldl (prune_step cfg env)
              (MkPrune (cs_fs s) 0 0 0 ∅ (cs_stdout s) (cs_stderr s) (cs_diag s)) stale in
  let counts := [AInt (Z.of_nat (ps_deleted st)); AInt (Z.of_nat (ps_gone st));
                 AInt (Z.of_nat (ps_skipped st))] in
  let '(file, sk) :=
    if DryRun cfg then (cs_file s, ps_diag st)
    else rewriteManifestAfterPrune env fault r stale (ps_survivors st) (cs_file s) (ps_diag st) in
  let line := if DryRun cfg
              then Sprintf "prune dry-run: %d would-delete, %d already gone, %d skipped" counts
              else Sprintf "prune: %d deleted, %d already gone, %d skipped" counts in
  (match err with RunHadErrors => ExitPipelineError | _ => ExitOK end,
   MkCmd (ps_fs st) file sk (ps_stdout st ++ [line]) (ps_stderr st)).

(** [Execute] after the pipeline has run. *)
Definition Execute (cfg : PruneConfig) (env : Env) (fault : option WriteFault) (r : RunResult)
    (err : run_err) (s : CommandState) : Z * CommandState :=
  match err with
  | RunFailed text =>
      (ExitPipelineError,
       MkCmd (cs_fs s) (cs_file s) (cs_diag s) (cs_stdout s) (cs_stderr s ++ [Sprintf "%v" [AStr text]]))
  | _ =>
      let '(stale, sk) := classify cfg env r (cs_diag s) in
      applyPrune cfg env fault r stale err
        (MkCmd (cs_fs s) (cs_file s) sk (cs_stdout s) (cs_stderr s))
  end.
End Prune.

(** * What pruning may delete, and what it may forget

    The files [prune] removes, the entries it removes from the manifest, and
    how the two fit together: for outputs placed under the working directory an
    entry leaves the manifest exactly when its file is gone.  For outputs with
    an absolute directory the command looks in the wrong place. *)

(** ** The marker *)

(** The first line that is not blank starts with the marker. *)
Definition marked (brand body : string) : Prop :=
  ∃ pre line post, split_byte body "010" = pre ++ line :: post ∧
    Forall (λ l, trim_space (trim_suffix l (byte_string [13])) = "") pre ∧
    has_prefix (trim_space (trim_suffix line (byte_string [13]))) (generated_prefix brand) = true.

Lemma scan_marker_true path brand lines :
  scan_marker path brand lines = Ok true →
  ∃ pre line post, lines = pre ++ line :: post ∧
    Forall (λ l, trim_space (trim_suffix l (byte_string [13])) = "") pre ∧
    has_prefix (trim_space (trim_suffix line (byte_string [13]))) (generated_prefix brand) = true.
Proof.
  induction lines as [|raw lines IH]; [done|]. cbn [scan_marker].
  destruct (_ <=? _)%Z; [done|]. destruct (String.eqb_spec (trim_space (trim_suffix raw (byte_string [13]))) "")
    as [Hb|Hb].
  - intros (pre & line & post & -> & Hpre & Hl)%IH. exists (raw :: pre), line, post.
    split_and!; [done|by constructor|done].
  - intros [= Hp]. exists [], raw, lines. split_and!; [done|constructor|done].
Qed.

Lemma hasGeneratedMarker_true fs path brand :
  hasGeneratedMarker fs path brand = Ok true → ∃ body, fs !! path = Some (FilePath.File body) ∧ marked brand body.
Proof.
  unfold hasGeneratedMarker. destruct (fs !! path) as [[body|]|]; [|done|done].
  intros H%scan_marker_true. by exists body.
Qed.

Lemma hasGeneratedMarker_delete fs q path brand :
  path ≠ q → hasGeneratedMarker (delete q fs) path brand = hasGeneratedMarker fs path brand.
Proof. intros Hne. unfold hasGeneratedMarker. by rewrite lookup_delete_ne. Qed.

(** ** The deletion loop *)

Section Loop.
Context (w : refusals) (cfg : PruneConfig) (env : Env).

(** A file the command will not remove. *)
Definition stuck (fs : files) (q : string) : Prop :=
  fs !! q ≠ None ∧ (hasGeneratedMarker fs q (Brand env) ≠ Ok true ∨ no_remove w q = true).

Record loop_inv (fs0 : files) (l : list Output) (st : PruneState) : Prop := {
  li_fs : ∀ q, ps_fs st !! q ≠ fs0 !! q →
    DryRun cfg = false ∧ ps_fs st !! q = None ∧
    ∃ o body, o ∈ l ∧ q = prune_path env (out_Target o) ∧
              fs0 !! q = Some (FilePath.File body) ∧ marked (Brand env) body;
  li_stuck : ∀ t, t ∈ ps_survivors st → stuck (ps_fs st) (prune_path env t);
  li_gone : DryRun cfg = false → ∀ o, o ∈ l → out_Target o ∉ ps_survivors st →
    ps_fs st !! prune_path env (out_Target o) = None;
  li_counts : ps_deleted st + ps_skipped st + ps_gone st = length l;
}.

Lemma loop_inv_survive fs0 l st o out err sk :
  loop_inv fs0 l st → stuck (ps_fs st) (prune_path env (out_Target o)) →
  loop_inv fs0 (l ++ [o])
    (MkPrune (ps_fs st) (ps_deleted st) (S (ps_skipped st)) (ps_gone st)
       ({[out_Target o]} ∪ ps_survivors st) out err sk).
Proof.
  intros [H1 H2 H3 H4] Hs. split; simpl.
  - intros q (Hd & Hn & o' & body & Ho & Hrest)%H1. split_and!; [done..|].
    exists o', body. split; [set_solver|done].
  - intros t [Ht%elem_of_singleton|Ht]%elem_of_union; [by rewrite Ht|auto].
  - intros Hd o' Ho Hn. apply H3; [done| |set_solver].
    apply elem_of_app in Ho as [|Ho%list_elem_of_singleton]; [done|set_solver].
  - rewrite length_app. simpl. lia.
Qed.

(** The cases where the file system stays and the file is not kept. *)
Lemma loop_inv_same fs0 l st o d g out err sk :
  loop_inv fs0 l st →
  (DryRun cfg = false → ps_fs st !! prune_path env (out_Target o) = None) →
  d + g = S (ps_deleted st + ps_gone st) →
  loop_inv fs0 (l ++ [o]) (MkPrune (ps_fs st) d (ps_skipped st) g (ps_survivors st) out err sk).
Proof.
  intros [H1 H2 H3 H4] Hn Hc. split; simpl; [|done| |].
  - intros q (Hd & Hq & o' & body & Ho & Hrest)%H1. split_and!; [done..|].
    exists o', body. split; [set_solver|done].
  - intros Hd o' [Ho|Ho%list_elem_of_singleton]%elem_of_app Hs; [auto|]. rewrite Ho. auto.
  - rewrite length_app. simpl. lia.
Qed.

Lemma loop_inv_delete fs0 l st o d out err sk :
  loop_inv fs0 l st → DryRun cfg = false →
  hasGeneratedMarker (ps_fs st) (prune_path env (out_Target o)) (Brand env) = Ok true →
  no_remove w (prune_path env (out_Target o)) = false →
  d = S (ps_deleted st) →
  loop_inv fs0 (l ++ [o])
    (MkPrune (delete (prune_path env (out_Target o)) (ps_fs st)) d (ps_skipped st) (ps_gone st)
       (ps_survivors st) out err sk).
Proof.
  intros [H1 H2 H3 H4] Hd Hm Hr ->. set (q0 := prune_path env (out_Target o)) in *.
  split; simpl.
  - intros q Hq. split; [done|]. destruct (decide (q = q0)) as [->|Hne].
    + rewrite lookup_delete_eq in *. split; [done|].
      destruct (hasGeneratedMarker_true _ _ _ Hm) as (body & Hb & Hmk).
      destruct (decide (ps_fs st !! q0 = fs0 !! q0)) as [He|He].
      * exists o, body. split_and!; [set_solver|done|congruence|done].
      * apply H1 in He as (_ & He & _). congruence.
    + rewrite lookup_delete_ne in * by done. apply H1 in Hq as (_ & Hn & o' & body & Ho & Hrest).
      split; [done|]. exists o', body. split; [set_solver|done].
  - intros t Ht. destruct (H2 t Ht) as [Hp Hs].
    assert (prune_path env t ≠ q0) as Hne by (intros He; rewrite He in *; destruct Hs; congruence).
    split; [by rewrite lookup_delete_ne|]. by rewrite hasGeneratedMarker_delete.
  - intros _ o' [Ho|Ho%list_elem_of_singleton]%elem_of_app Hs.
    + destruct (decide (prune_path env (out_Target o') = q0)) as [->|Hne]; [by rewrite lookup_delete_eq|].
      rewrite lookup_delete_ne by done. auto.
    + rewrite Ho. by rewrite lookup_delete_eq.
  - rewrite length_app. simpl. lia.
Qed.

Context (error_text : MarkerError → string) (remove_text : string → string).
Abbreviation step := (prune_step w error_text remove_text cfg env).

Lemma loop_inv_step fs0 l st o : loop_inv fs0 l st → loop_inv fs0 (l ++ [o]) (step st o).
Proof.
  intros Hinv. unfold prune_step, not_exist. case_bool_decide as Hne.
  { apply loop_inv_same; [done|done|lia]. }
  destruct (hasGeneratedMarker _ _ _) as [[]|e] eqn:Em.
  - destruct (DryRun cfg) eqn:Ed; [apply loop_inv_same; [done|congruence|lia]|].
    unfold remove. destruct (ps_fs st !! _) eqn:El; [|done].
    destruct (no_remove w _) eqn:Er; [|by apply loop_inv_delete].
    apply loop_inv_survive; [done|]. split; [congruence|]. by right.
  - apply loop_inv_survive; [done|]. split; [done|]. left. congruence.
  - apply loop_inv_survive; [done|]. split; [done|]. left. congruence.
Qed.

Lemma loop_inv_run fs0 out err sk stale :
  loop_inv fs0 stale (foldl step (MkPrune fs0 0 0 0 ∅ out err sk) stale).
Proof.
  induction stale as [|o l IH] using rev_ind; [|rewrite foldl_snoc; by apply loop_inv_step].
  split; simpl; [done|set_solver| |done]. intros _ o Ho. by apply elem_of_nil in Ho.
Qed.
End Loop.

(** ** Deleted source packages *)




(** What [classify] returns. *)
Lemma elem_of_stale cfg env r sk o :
  o ∈ (classify cfg env r sk).1 ↔
  run_pipelineID r ≠ "" ∧ ∃ m scope, LastManifest r = Some m ∧ run_scope r = Some scope ∧
    o ∈ m_Outputs m ∧ out_PipelineID o = run_pipelineID r ∧ out_Target o ∉ EmittedTargets r ∧
    (covers scope (t_ImportPath (out_Target o)) ∨
     ∃ s, GoneSources (prune_options cfg env r) = Some s ∧ covers s (t_ImportPath (out_Target o))).
Proof.
  unfold classify. simpl. split.
  - intros ([o' reason] & -> & H)%list_elem_of_fmap. apply elem_of_PruneAll in H as (Hp & m & scope & em & H).
    simpl in *. destruct reason; naive_solver.
  - intros (Hp & m & scope & Hm & Hs & Ho & Hpid & Ht & Hc).
    set (reason := if inScope (t_ImportPath (out_Target o)) scope then ReasonUnclaimed else ReasonSourceGone).
    apply (list_elem_of_fmap_2' _ _ (MkOrphan o reason)); [|done]. apply elem_of_PruneAll. simpl.
    split; [done|]. exists m, scope, (EmittedTargets r). split_and!; [done..|].
    unfold reason. destruct (inScope _ _) eqn:E; [by apply inScope_spec|].
    assert (¬ covers scope (t_ImportPath (out_Target o))) by (rewrite <- inScope_spec; congruence).
    naive_solver.
Qed.

Section Command.
Context (is_print : N → bool) (w : refusals) (error_text : MarkerError → string) (remove_text : string → string)
  (write_text : WriteFault → string).

Lemma Execute_fs cfg env fault r err s :
  (∀ text, err ≠ RunFailed text) →
  let stale := (classify cfg env r (cs_diag s)).1 in
  ∃ st, loop_inv w cfg env (cs_fs s) stale st ∧
    let s' := (Execute is_print w error_text remove_text write_text cfg env fault r err s).2 in
    cs_fs s' = ps_fs st ∧
    cs_file s' = if DryRun cfg then cs_file s else
      (rewriteManifestAfterPrune is_print write_text env fault r stale (ps_survivors st) (cs_file s) (ps_diag st)).1.
Proof.
  intros Herr stale. unfold Execute. destruct (classify cfg env r (cs_diag s)) as [l sk]. subst stale. simpl.
  set (st := foldl (prune_step w error_text remove_text cfg env)
               (MkPrune (cs_fs s) 0 0 0 ∅ (cs_stdout s) (cs_stderr s) sk) l).
  exists st. split; [apply loop_inv_run|].
  destruct err; [| |by destruct (Herr text)];
    unfold applyPrune; cbn [cs_fs cs_file cs_diag cs_stdout cs_stderr]; fold st;
    destruct (DryRun cfg); simpl; try done; by destruct (rewriteManifestAfterPrune _ _ _ _ _ _ _ _ _).
Qed.


Lemma stale_same_key cfg env r sk m o o' :
  LastManifest r = Some m → o ∈ m_Outputs m → o' ∈ (classify cfg env r sk).1 → okey o = okey o' →
  o ∈ (classify cfg env r sk).1.
Proof.
  intros Hm Ho Ho' [= Ht Hp]. apply elem_of_stale in Ho' as (? & m' & scope & Hrest).
  apply elem_of_stale. split; [done|]. exists m, scope. rewrite Ht, Hp. naive_solver.
Qed.

(** The entries the rewrite keeps: those whose file is still where [prune]
    looks, and those it did not consider. *)
Lemma kept_iff_present cfg env r sk m fs0 st o :
  let stale := (classify cfg env r sk).1 in
  LastManifest r = Some m → DryRun cfg = false → loop_inv w cfg env fs0 stale st → o ∈ m_Outputs m →
  okey o ∉ stale_keys stale (ps_survivors st) ↔
  o ∉ stale ∨ ps_fs st !! prune_path env (out_Target o) ≠ None.
Proof.
  intros stale Hm Hd Hinv Ho. unfold stale_keys. rewrite elem_of_list_to_set. split.
  - intros Hk. destruct (decide (o ∈ stale)) as [Hs|]; [|by left]. right. intros Hn. apply Hk.
    apply list_elem_of_fmap_2, list_elem_of_filter. split; [|done]. intros Hsv.
    by destruct (li_stuck _ _ _ _ _ _ Hinv _ Hsv).
  - intros Hor Hk. apply list_elem_of_fmap in Hk as (o' & Hk & [Hs Ho']%list_elem_of_filter).
    destruct Hor as [Hn|Hn].
    + apply Hn. by apply (stale_same_key cfg env r sk m o o').
    + injection Hk as Ht _. rewrite Ht in Hn. by apply Hn, (li_gone _ _ _ _ _ _ Hinv).
Qed.

Lemma filter_encodable (P : Output → Prop) `{∀ o, Decision (P o)} l :
  forallb (output_encodable is_print) l = true → forallb (output_encodable is_print) (filter P l) = true.
Proof. rewrite !forallb_forall. intros Hl o Ho. apply list_elem_of_In, list_elem_of_filter in Ho as [_ Ho%list_elem_of_In]. auto. Qed.

Lemma rewrite_outputs env r stale survivors f0 m sk :
  env_mpath env ≠ "" → LastManifest r = Some m → m_Outputs f0 = m_Outputs m → encodable is_print m = true →
  ∃ f, (rewriteManifestAfterPrune is_print write_text env None r stale survivors (Some f0) sk).1 = Some f ∧
    m_Outputs f = filter (λ o, okey o ∉ stale_keys stale survivors) (m_Outputs m).
Proof.
  intros Hp Hm Hf Hc. unfold rewriteManifestAfterPrune. apply String.eqb_neq in Hp as ->. rewrite Hm.
  case_bool_decide as He.
  - exists f0. split; [done|]. rewrite filter_all, Hf; [done|]. intros o _. rewrite He. set_solver.
  - rewrite (foldl_Add_unless (λ o, bool_decide (okey o ∈ _))), foldl_Add. cbn [Write]. rewrite MarshalIndent_id.
    + eexists. split; [done|]. simpl. apply filter_ext_in. intros o _. by rewrite bool_decide_eq_false.
    + unfold encodable in *. cbn [set_brand New m_Brand m_RunID m_Outputs app].
      apply andb_true_iff in Hc as [-> Hc]. by apply filter_encodable.
Qed.

(** C21: After [prune] the manifest and the disk agree, in a run that is no dry
    run and whose merged manifest is in the manifest file, when JSON carries that
    manifest and the file system accepts the rewrite: an entry is gone from the
    manifest file exactly when [prune] considered it and nothing is at the path
    where [prune] looks, the entry's directory taken below the working directory.
    So no output with a relative directory and file name that is still on disk,
    where the sink put it, is forgotten: a file that was edited by hand, could
    not be read or could not be removed keeps its entry.  For an output with an
    absolute directory [prune] looks elsewhere than the sink wrote
    ([prune_forgets_absolute_outputs]). *)
Theorem prune_manifest_tracks_disk cfg env r err s m f0 :
  DryRun cfg = false → env_mpath env ≠ "" → (∀ text, err ≠ RunFailed text) →
  LastManifest r = Some m → cs_file s = Some f0 → m_Outputs f0 = m_Outputs m → encodable is_print m = true →
  let s' := (Execute is_print w error_text remove_text write_text cfg env None r err s).2 in
  let stale := (classify cfg env r (cs_diag s)).1 in
  ∃ f, cs_file s' = Some f ∧
    m_Outputs f = filter (λ o, o ∉ stale ∨ cs_fs s' !! prune_path env (out_Target o) ≠ None) (m_Outputs m) ∧
    (∀ o, o ∈ m_Outputs m → Workdir env ≠ "" → IsAbs (t_Dir (out_Target o)) = false →
       IsAbs (t_Filename (out_Target o)) = false → t_Filename (out_Target o) ≠ "" →
       cs_fs s' !! target_path (Workdir env) (out_Target o) ≠ None → o ∈ m_Outputs f).
Proof.
  intros Hd Hp Herr Hm Hf0 Ho Hc s' stale.
  destruct (Execute_fs cfg env None r err s Herr) as (st & Hinv & Hfs & Hfile).
  fold s' stale in Hinv, Hfs, Hfile. rewrite Hd, Hf0 in Hfile.
  destruct (rewrite_outputs env r stale (ps_survivors st) f0 m (ps_diag st) Hp Hm Ho Hc) as (f & Hf & Hout).
  exists f. rewrite Hfile, Hfs.
  assert (m_Outputs f = filter (λ o, o ∉ stale ∨ ps_fs st !! prune_path env (out_Target o) ≠ None) (m_Outputs m))
    as Heq.
  { rewrite Hout. apply filter_ext_in. intros o Hin. by apply (kept_iff_present cfg env r (cs_diag s) m (cs_fs s)). }
  split_and!; [done|done|]. intros o Hin Hw H1 H2 H3 Hpres. rewrite Heq.
  apply list_elem_of_filter. split; [|done]. right. unfold prune_path.
  rewrite <- Join_nested by done. unfold target_path in Hpres. by rewrite H1 in Hpres.
Qed.
End Command.

(** ** A concrete prune *)

Module PruneExample.
Import ManifestLaws.Example.
Definition generated : string := "// Code generated by eidos. DO NOT EDIT.".
Definition disk : files :=
  {[ "/w/internal/repo/user_gen.go" := FilePath.File generated;
     "/w/internal/repo/old_gen.go" := FilePath.File generated;
     "/w/internal/repo/edited_gen.go" := FilePath.File "package repo" ]}.
Definition t_edited : Target := MkTarget "internal/repo" "edited_gen.go" "repo" "example.com/p/repo".
Definition last : Manifest :=
  MkManifest 2 "eidos" "run-1"
    [entry_for t_edited "P"; entry_for t_old "P"; entry_for t_user "P"; entry_for t_other "P"].
Definition penv : Env :=
  MkEnv "/w" "eidos" (Some ("/w", "example.com/p"))
    (λ d, bool_decide (d ∈ ["/w"; "/w/repo"; "/w/foo_test"])) ".eidos/manifest.json".
Definition result : RunResult :=
  MkRun (Some last) {[t_user]} (Some {["example.com/p/repo"]}) "P".
Definition start : CommandState := MkCmd disk (Some last) None [] [].
Abbreviation exec := (Execute (between 32 126) permissive (λ _, "") (λ _, "") (λ _, "")).
End PruneExample.


Lemma prune_manifest_tracks_disk_witness :
  let s' := (PruneExample.exec (MkPruneConfig false false) PruneExample.penv None PruneExample.result
               RunOk PruneExample.start).2 in
  ∃ f, cs_file s' = Some f ∧
    map (λ o, t_Filename (out_Target o)) (m_Outputs f) = ["edited_gen.go"; "user_gen.go"; "web_gen.go"].
Proof.
  intros s'.
  destruct (prune_manifest_tracks_disk (between 32 126) permissive (λ _, "") (λ _, "") (λ _, "") (MkPruneConfig false false)
    PruneExample.penv PruneExample.result RunOk PruneExample.start PruneExample.last PruneExample.last)
    as (f & Hf & Hout & _).
  - reflexivity.
  - discriminate.
  - intros text. discriminate.
  - reflexivity.
  - reflexivity.
  - reflexivity.
  - vm_compute. reflexivity.
  - exists f. split; [exact Hf|]. rewrite Hout. vm_compute. reflexivity.
Defined.

(** An output whose directory is absolute is written by the disk sink outside
    the working directory, but [prune] looks for it below the working
    directory: the file stays, and the manifest forgets it. *)
Theorem prune_forgets_absolute_outputs :
  let t := MkTarget "/gen" "old_gen.go" "repo" "example.com/p/repo" in
  let last := MkManifest 2 "eidos" "run-1" [Example.entry_for t "P"] in
  let s := MkCmd {["/gen/old_gen.go" := FilePath.File PruneExample.generated]} (Some last) None [] [] in
  let r := MkRun (Some last) ∅ (Some {["example.com/p/repo"]}) "P" in
  let s' := (PruneExample.exec (MkPruneConfig false false) PruneExample.penv None r RunOk s).2 in
  target_path "/w" t = "/gen/old_gen.go" ∧
  cs_fs s' !! "/gen/old_gen.go" = Some (FilePath.File PruneExample.generated) ∧
  (m_Outputs <$> cs_file s') = Some [].
Proof. vm_compute. done. Qed.

(** A package whose directory really is called [foo_test] counts as deleted
    when no directory [foo] exists, so a narrow run with deleted sources
    enabled removes its outputs although the package was not looked at and is
    still there. *)
Theorem test_named_package_counts_as_gone :
  let t := MkTarget "foo_test" "x_gen.go" "foo_test" "example.com/p/foo_test" in
  let last := MkManifest 2 "eidos" "run-1" [Example.entry_for t "P"] in
  let s := MkCmd {["/w/foo_test/x_gen.go" := FilePath.File PruneExample.generated]} (Some last) None [] [] in
  let r := MkRun (Some last) ∅ (Some {["example.com/p/repo"]}) "P" in
  let s' := (PruneExample.exec (MkPruneConfig false true) PruneExample.penv None r RunOk s).2 in
  env_dirs PruneExample.penv (Join ["/w"; "foo_test"]) = true ∧
  cs_fs s' !! "/w/foo_test/x_gen.go" = None.
Proof. vm_compute. done. Qed.
