(* ===== verification/Node.v ===== *)
(** * node: the language-neutral source model

    The node graph of [src/node]: one record per struct of the package, with
    the field names of the source behind a one-letter prefix.  Type
    references, inline fields, methods, parameters, embeds and projected
    interfaces refer to each other, so they are one mutual block.

    A Go node is reached through a pointer.  [ref] is that pointer: it stands
    for the node's identity, and the components the program mutates through
    it after the frontend built the graph (metadata bags, owner pointers) are
    kept in maps indexed by it, one per field ([metas] here, [owners] in
    [Rewire]).  A slice of pointers holds no nil, so its elements are the
    nodes themselves; a pointer field that may be nil is an [option]. *)

From S2P Require Import Prelude GoStrings Position Meta Directive.

Local Open Scope string_scope.
Local Open Scope nat_scope.
Local Open Scope list_scope.

Abbreviation pointer := positive.

(** ** [kind.go] *)

Abbreviation Kind := string (only parsing).

Definition KindPackage : Kind := "package".
Definition KindFile : Kind := "file".
Definition KindImport : Kind := "import".
Definition KindStruct : Kind := "struct".
Definition KindInterface : Kind := "interface".
Definition KindMethod : Kind := "method".
Definition KindField : Kind := "field".
Definition KindFunction : Kind := "function".
Definition KindVariable : Kind := "variable".
Definition KindConstant : Kind := "constant".
Definition KindEnum : Kind := "enum".
Definition KindEnumVariant : Kind := "enum_variant".
Definition KindAlias : Kind := "alias".
Definition KindEmbed : Kind := "embed".
Definition KindTypeRef : Kind := "type_ref".
Definition KindParam : Kind := "param".
Definition KindReturn : Kind := "return".
Definition KindTypeParam : Kind := "type_param".

(** ** [base.go] *)

Record BaseNode := MkBase {
  ref : pointer;
  SourcePos : Pos;
  DocLines : list string;
  DirectiveList : list Directive;
}.

(** The [MetaBag] field of every node, nil where there is no entry. *)
Abbreviation metas := (gmap pointer Bag).

Definition base_Pos (b : BaseNode) : Pos := SourcePos b.
Definition base_Docs (b : BaseNode) : list string := DocLines b.
Definition base_Directives (b : BaseNode) : list Directive := DirectiveList b.

Definition base_Directive (b : BaseNode) (name : string) : option Directive :=
  List.find (λ d, String.eqb (Name d) name) (DirectiveList b).

Definition base_HasDirective (b : BaseNode) (name : string) : bool :=
  match base_Directive b name with Some _ => true | None => false end.

Definition base_HasPositiveDirective (b : BaseNode) (name : string) : bool :=
  HasPositive (DirectiveList b) name.

Definition base_HasNegatedDirective (b : BaseNode) (name : string) : bool :=
  HasNegated (DirectiveList b) name.

Definition base_Meta (h : metas) (b : BaseNode) : option Bag := h !! ref b.

(** The bag of the node and the heap in which it exists. *)
Definition base_EnsureMeta (h : metas) (b : BaseNode) : Bag * metas :=
  match h !! ref b with
  | Some g => (g, h)
  | None => (NewBag, <[ref b := NewBag]> h)
  end.

(** ** [type_ref.go]: the discriminator

    A Go [int]; [TypeRefOther] stands for the ordinals that name no variant. *)
Inductive TypeRefKind :=
| TypeRefNamed | TypeRefPointer | TypeRefSlice | TypeRefArray | TypeRefMap | TypeRefFunc
| TypeRefTypeParam | TypeRefAnonStruct | TypeRefAnonInterface | TypeRefOther (n : Z).

#[export] Instance TypeRefKind_eq_dec : EqDecision TypeRefKind.
Proof. solve_decision. Defined.

Definition TypeRefKind_String (k : TypeRefKind) : string :=
  match k with
  | TypeRefNamed => "named"
  | TypeRefPointer => "pointer"
  | TypeRefSlice => "slice"
  | TypeRefArray => "array"
  | TypeRefMap => "map"
  | TypeRefFunc => "func"
  | TypeRefTypeParam => "type_param"
  | TypeRefAnonStruct => "anon_struct"
  | TypeRefAnonInterface => "anon_interface"
  | TypeRefOther _ => "type_ref_kind(?)"
  end.

(** ** The mutual block: references and what they contain *)

Inductive TypeRef : Set := MkTypeRef {
  t_base : BaseNode;
  t_TypeKind : TypeRefKind;
  t_Package : string;
  t_Name : string;
  t_TypeArgs : list TypeRef;
  t_Elem : option TypeRef;
  t_ArrayLen : Z;
  t_MapKey : option TypeRef;
  t_MapValue : option TypeRef;
  t_FuncParams : list TypeRef;
  t_FuncReturns : list TypeRef;
  t_Fields : list Field;
  t_Methods : list Method;
  t_Embeds : list Embed;
}
(** [field.go] *)
with Field : Set := MkField {
  f_base : BaseNode;
  f_Name : string;
  f_Type : option TypeRef;
  f_Tag : string;
}
(** [embed.go] *)
with Embed : Set := MkEmbed {
  em_base : BaseNode;
  em_Type : option TypeRef;
  em_Resolved : option Interface;
}
(** [param.go] *)
with Param : Set := MkParam {
  pa_base : BaseNode;
  pa_Name : string;
  pa_Type : option TypeRef;
  pa_Variadic : bool;
}
(** [return.go] *)
with Return : Set := MkReturn {
  re_base : BaseNode;
  re_Name : string;
  re_Type : option TypeRef;
}
(** [constraint.go] *)
with Constraint : Set := MkConstraint {
  c_Raw : string;
  c_Embedded : list TypeRef;
}
(** [type_param.go] *)
with TypeParam : Set := MkTypeParam {
  tp_base : BaseNode;
  tp_Name : string;
  tp_Constraint : option Constraint;
}
(** [method.go] *)
with Method : Set := MkMethod {
  m_base : BaseNode;
  m_Name : string;
  m_Receiver : option TypeRef;
  m_ReceiverName : string;
  m_Params : list Param;
  m_Returns : list Return;
  m_TypeParams : list TypeParam;
}
(** [interface.go] *)
with Interface : Set := MkInterface {
  i_base : BaseNode;
  i_Name : string;
  i_Package : string;
  i_Fields : list Field;
  i_Methods : list Method;
  i_Embeds : list Embed;
  i_TypeParams : list TypeParam;
}.

(** ** The declarations above the block *)

(** [struct.go] *)
Record Struct := MkStruct {
  s_base : BaseNode;
  s_Name : string;
  s_Package : string;
  s_Fields : list Field;
  s_Embeds : list Embed;
  s_Methods : list Method;
  s_TypeParams : list TypeParam;
}.

(** [function.go] *)
Record Function_ := MkFunction {
  fn_base : BaseNode;
  fn_Name : string;
  fn_Package : string;
  fn_Params : list Param;
  fn_Returns : list Return;
  fn_TypeParams : list TypeParam;
}.

(** [variable.go] *)
Record Variable_ := MkVariable {
  v_base : BaseNode;
  v_Name : string;
  v_Package : string;
  v_Type : option TypeRef;
  v_InitExpr : string;
}.

(** [constant.go] *)
Record Constant := MkConstant {
  k_base : BaseNode;
  k_Name : string;
  k_Package : string;
  k_Type : option TypeRef;
  k_Value : string;
}.

(** [enum_variant.go] *)
Record EnumVariant := MkEnumVariant {
  ev_base : BaseNode;
  ev_Name : string;
  ev_Value : string;
}.

(** [enum.go] *)
Record Enum := MkEnum {
  e_base : BaseNode;
  e_Name : string;
  e_Package : string;
  e_Underlying : option TypeRef;
  e_Variants : list EnumVariant;
  e_Methods : list Method;
}.

(** [alias.go] *)
Record Alias := MkAlias {
  a_base : BaseNode;
  a_Name : string;
  a_Package : string;
  a_Target : option TypeRef;
  a_IsAlias : bool;
  a_TypeParams : list TypeParam;
  a_Methods : list Method;
}.

(** [import.go] *)
Record Import := MkImport {
  im_base : BaseNode;
  im_Path : string;
  im_Alias : string;
}.

(** [file.go] *)
Record File := MkFile {
  fi_base : BaseNode;
  fi_Name : string;
  fi_Path : string;
  fi_Imports : list Import;
}.

(** [package.go] *)
Record Package := MkPackage {
  p_base : BaseNode;
  p_Name : string;
  p_Path : string;
  p_Files : list File;
  p_Imports : list Import;
  p_Structs : list Struct;
  p_Interfaces : list Interface;
  p_Functions : list Function_;
  p_Variables : list Variable_;
  p_Constants : list Constant;
  p_Enums : list Enum;
  p_Aliases : list Alias;
}.

(** ** [node.go]: the [Node] interface is the sum of the concrete kinds *)
Inductive Node :=
| NPackage (n : Package) | NFile (n : File) | NImport (n : Import) | NStruct (n : Struct)
| NInterface (n : Interface) | NMethod (n : Method) | NField (n : Field) | NFunction (n : Function_)
| NVariable (n : Variable_) | NConstant (n : Constant) | NEnum (n : Enum)
| NEnumVariant (n : EnumVariant) | NAlias (n : Alias) | NEmbed (n : Embed)
| NTypeRef (n : TypeRef) | NParam (n : Param) | NReturn (n : Return) | NTypeParam (n : TypeParam).

Definition node_base (n : Node) : BaseNode :=
  match n with
  | NPackage n => p_base n | NFile n => fi_base n | NImport n => im_base n
  | NStruct n => s_base n | NInterface n => i_base n | NMethod n => m_base n
  | NField n => f_base n | NFunction n => fn_base n | NVariable n => v_base n
  | NConstant n => k_base n | NEnum n => e_base n | NEnumVariant n => ev_base n
  | NAlias n => a_base n | NEmbed n => em_base n | NTypeRef n => t_base n
  | NParam n => pa_base n | NReturn n => re_base n | NTypeParam n => tp_base n
  end.

Definition node_Kind (n : Node) : Kind :=
  match n with
  | NPackage _ => KindPackage | NFile _ => KindFile | NImport _ => KindImport
  | NStruct _ => KindStruct | NInterface _ => KindInterface | NMethod _ => KindMethod
  | NField _ => KindField | NFunction _ => KindFunction | NVariable _ => KindVariable
  | NConstant _ => KindConstant | NEnum _ => KindEnum | NEnumVariant _ => KindEnumVariant
  | NAlias _ => KindAlias | NEmbed _ => KindEmbed | NTypeRef _ => KindTypeRef
  | NParam _ => KindParam | NReturn _ => KindReturn | NTypeParam _ => KindTypeParam
  end.

Abbreviation node_ref n := (ref (node_base n)).
Abbreviation node_Directives n := (base_Directives (node_base n)).
Abbreviation node_HasDirective n := (base_HasDirective (node_base n)).
Abbreviation node_Meta h n := (base_Meta h (node_base n)).

(** ** Qualified names and owners *)

(** The body shared by every [QName]. *)
Definition qualified (pkg name : string) : string :=
  if String.eqb pkg "" then name else pkg +:+ "." +:+ name.

Definition Struct_QName (s : Struct) : string := qualified (s_Package s) (s_Name s).
Definition Interface_QName (i : Interface) : string := qualified (i_Package i) (i_Name i).
Definition Function_QName (f : Function_) : string := qualified (fn_Package f) (fn_Name f).
Definition Variable_QName (v : Variable_) : string := qualified (v_Package v) (v_Name v).
Definition Constant_QName (c : Constant) : string := qualified (k_Package c) (k_Name c).
Definition Enum_QName (e : Enum) : string := qualified (e_Package e) (e_Name e).
Definition Alias_QName (a : Alias) : string := qualified (a_Package a) (a_Name a).

(** [contract.Owner]: the four node kinds that have methods. *)
Definition OwnerName (n : Node) : option string :=
  match n with
  | NStruct s => Some (s_Name s) | NInterface i => Some (i_Name i)
  | NEnum e => Some (e_Name e) | NAlias a => Some (a_Name a)
  | _ => None
  end.

Definition OwnerQName (n : Node) : option string :=
  match n with
  | NStruct s => Some (Struct_QName s) | NInterface i => Some (Interface_QName i)
  | NEnum e => Some (Enum_QName e) | NAlias a => Some (Alias_QName a)
  | _ => None
  end.

(** [contract.OwnerRef] *)
Record OwnerRef := MkOwnerRef { or_Kind : Kind; or_QName : string }.

Definition OwnerRef_IsZero (r : OwnerRef) : bool :=
  String.eqb (or_Kind r) "" && String.eqb (or_QName r) "".

(** ** Small nodes for the examples of the library *)

Module Fixture.
Definition at_ptr (r : pointer) (ds : list Directive) : BaseNode := MkBase r zero_pos [] ds.
Definition plain (name : string) : Directive := MkDirective name false [] ∅ "" zero_pos.
Definition named (r : pointer) (pkg name : string) : TypeRef :=
  MkTypeRef (at_ptr r []) TypeRefNamed pkg name [] None 0 None None [] [] [] [] [].
Definition method (r : pointer) (name : string) (ds : list Directive) : Method :=
  MkMethod (at_ptr r ds) name None "" [] [] [].
Definition struct (r : pointer) (pkg name : string) (ds : list Directive) (ms : list Method) : Struct :=
  MkStruct (at_ptr r ds) name pkg [] [] ms [].
Definition embed (r : pointer) (t : TypeRef) : Embed := MkEmbed (at_ptr r []) (Some t) None.
Definition interface (r : pointer) (pkg name : string) (ms : list Method) (es : list Embed) : Interface :=
  MkInterface (at_ptr r []) name pkg [] ms es [].
Definition alias (r : pointer) (pkg name : string) (ms : list Method) : Alias :=
  MkAlias (at_ptr r []) name pkg None false [] ms.
Definition package (r : pointer) (path : string) (ss : list Struct) (ifs : list Interface)
    (als : list Alias) : Package :=
  MkPackage (at_ptr r []) path path [] [] ss ifs [] [] [] [] als.
End Fixture.
