(* ===== verification/NodeQueries.v ===== *)
(** * node: lookups and predicates on the source model

    The accessors of [src/node]: lookups by name, filters, positional access,
    the classification of type references, and the free functions of
    [queries.go].  The theorems state what the lookups promise (the first
    declaration of the name, none exactly when there is none) once for the
    scan they share. *)

From S2P Require Import Prelude GoStrings Meta Directive Node.

Local Open Scope string_scope.
Local Open Scope nat_scope.
Local Open Scope list_scope.

(** The loop every [XByName] runs: the first element whose name matches. *)
Definition by_name {A} (name_of : A → string) (l : list A) (name : string) : option A :=
  List.find (λ x, String.eqb (name_of x) name) l.

(** The same loop behind the guard that an empty name finds nothing. *)
Definition by_name_nonempty {A} (name_of : A → string) (l : list A) (name : string) : option A :=
  if String.eqb name "" then None else by_name name_of l name.

(** [s[i]] behind the bounds check of the [XAt] accessors; [i] is a Go int. *)
Definition at_index {A} (l : list A) (i : Z) : option A :=
  if (i <? 0)%Z || (Z.of_nat (length l) <=? i)%Z then None else l !! Z.to_nat i.

(** The loop every [XsWith] runs. *)
Definition with_pred {A} (l : list A) (pred : A → bool) : list A :=
  List.filter pred l.

(** ** [package.go], [file.go] *)

Definition StructByName (p : Package) : string → option Struct := by_name s_Name (p_Structs p).
Definition InterfaceByName (p : Package) : string → option Interface :=
  by_name i_Name (p_Interfaces p).
Definition FunctionByName (p : Package) : string → option Function_ :=
  by_name fn_Name (p_Functions p).
Definition EnumByName (p : Package) : string → option Enum := by_name e_Name (p_Enums p).
Definition AliasByName (p : Package) : string → option Alias := by_name a_Name (p_Aliases p).
Definition VariableByName (p : Package) : string → option Variable_ :=
  by_name v_Name (p_Variables p).
Definition ConstantByName (p : Package) : string → option Constant :=
  by_name k_Name (p_Constants p).
Definition FileByName (p : Package) : string → option File :=
  by_name_nonempty fi_Name (p_Files p).
Definition Package_ImportByPath (p : Package) : string → option Import :=
  by_name_nonempty im_Path (p_Imports p).
Definition File_ImportByPath (f : File) : string → option Import :=
  by_name_nonempty im_Path (fi_Imports f).

(** ** [struct.go], [interface.go], [enum.go], [alias.go], [constant.go], [variable.go] *)

Definition Struct_FieldByName (s : Struct) : string → option Field := by_name f_Name (s_Fields s).
Definition Struct_FieldsWith (s : Struct) : (Field → bool) → list Field := with_pred (s_Fields s).
Definition Struct_MethodByName (s : Struct) : string → option Method :=
  by_name m_Name (s_Methods s).
Definition Struct_MethodsWith (s : Struct) : (Method → bool) → list Method :=
  with_pred (s_Methods s).
Definition Struct_IsGeneric (s : Struct) : bool := 0 <? length (s_TypeParams s).

Definition Interface_FieldByName (i : Interface) : string → option Field :=
  by_name f_Name (i_Fields i).
Definition Interface_FieldsWith (i : Interface) : (Field → bool) → list Field :=
  with_pred (i_Fields i).
Definition Interface_MethodByName (i : Interface) : string → option Method :=
  by_name m_Name (i_Methods i).
Definition Interface_MethodsWith (i : Interface) : (Method → bool) → list Method :=
  with_pred (i_Methods i).
Definition Interface_IsGeneric (i : Interface) : bool := 0 <? length (i_TypeParams i).

Definition VariantByName (e : Enum) : string → option EnumVariant := by_name ev_Name (e_Variants e).
Definition VariantsWith (e : Enum) : (EnumVariant → bool) → list EnumVariant :=
  with_pred (e_Variants e).
Definition Enum_MethodByName (e : Enum) : string → option Method := by_name m_Name (e_Methods e).
Definition Enum_MethodsWith (e : Enum) : (Method → bool) → list Method := with_pred (e_Methods e).
Definition HasUnderlying (e : Enum) : bool :=
  match e_Underlying e with Some _ => true | None => false end.

Definition Alias_MethodByName (a : Alias) : string → option Method := by_name m_Name (a_Methods a).
Definition Alias_MethodsWith (a : Alias) : (Method → bool) → list Method := with_pred (a_Methods a).
Definition Alias_IsGeneric (a : Alias) : bool := 0 <? length (a_TypeParams a).

Definition Constant_HasDeclaredType (c : Constant) : bool :=
  match k_Type c with Some _ => true | None => false end.
Definition HasInitExpr (v : Variable_) : bool := negb (String.eqb (v_InitExpr v) "").
Definition Variable_HasDeclaredType (v : Variable_) : bool :=
  match v_Type v with Some _ => true | None => false end.

(** ** [method.go], [function.go], [param.go], [return.go], [type_param.go], [field.go] *)

(** [n > 0 && params[n-1].Variadic] *)
Definition last_variadic (params : list Param) : bool :=
  match last params with Some p => pa_Variadic p | None => false end.

Definition Method_ParamByName (m : Method) : string → option Param :=
  by_name_nonempty pa_Name (m_Params m).
Definition Method_ParamAt (m : Method) : Z → option Param := at_index (m_Params m).
Definition Method_ReturnAt (m : Method) : Z → option Return := at_index (m_Returns m).
Definition Method_ParamsWith (m : Method) : (Param → bool) → list Param := with_pred (m_Params m).
Definition Method_ReturnsWith (m : Method) : (Return → bool) → list Return :=
  with_pred (m_Returns m).
Definition HasReceiver (m : Method) : bool :=
  match m_Receiver m with Some _ => true | None => false end.
Definition Method_IsVariadic (m : Method) : bool := last_variadic (m_Params m).
Definition Method_IsGeneric (m : Method) : bool := 0 <? length (m_TypeParams m).
Definition Method_ParamCount (m : Method) : nat := length (m_Params m).
Definition Method_ReturnCount (m : Method) : nat := length (m_Returns m).

Definition Function_ParamByName (f : Function_) : string → option Param :=
  by_name_nonempty pa_Name (fn_Params f).
Definition Function_ParamAt (f : Function_) : Z → option Param := at_index (fn_Params f).
Definition Function_ReturnAt (f : Function_) : Z → option Return := at_index (fn_Returns f).
Definition Function_ParamsWith (f : Function_) : (Param → bool) → list Param :=
  with_pred (fn_Params f).
Definition Function_ReturnsWith (f : Function_) : (Return → bool) → list Return :=
  with_pred (fn_Returns f).
Definition Function_IsVariadic (f : Function_) : bool := last_variadic (fn_Params f).
Definition Function_IsGeneric (f : Function_) : bool := 0 <? length (fn_TypeParams f).
Definition Function_ParamCount (f : Function_) : nat := length (fn_Params f).
Definition Function_ReturnCount (f : Function_) : nat := length (fn_Returns f).

Definition IsAnonymous (p : Param) : bool := String.eqb (pa_Name p) "".
Definition HasTag (f : Field) : bool := negb (String.eqb (f_Tag f) "").

(** The receiver of the constraint methods may be nil. *)
Definition Constraint_IsAny (c : option Constraint) : bool :=
  match c with None => true | Some c => length (c_Embedded c) =? 0 end.

Definition Constraint_IsComparable (c : option Constraint) : bool :=
  match c with
  | None => false
  | Some c =>
      List.existsb (λ e, bool_decide (t_TypeKind e = TypeRefNamed)
                         && String.eqb (t_Package e) "" && String.eqb (t_Name e) "comparable")
                   (c_Embedded c)
  end.

Definition IsConstrained (p : TypeParam) : bool :=
  match tp_Constraint p with None => false | c => negb (Constraint_IsAny c) end.

(** [ReturnTypes]: the slot of a return without a type is nil. *)
Definition ReturnTypes (returns : list Return) : list (option TypeRef) := re_Type <$> returns.

(** ** [import.go] *)

(** The scan from the end for the last slash. *)
Definition Import_LocalName (i : Import) : string :=
  if negb (String.eqb (im_Alias i) "") then im_Alias i
  else match last_index_byte (im_Path i) "/" with
       | Some j => str_drop (S j) (im_Path i)
       | None => im_Path i
       end.

(** ** [type_ref.go]: classification *)

Definition IsBuiltin (r : TypeRef) : bool :=
  bool_decide (t_TypeKind r = TypeRefNamed) && String.eqb (t_Package r) "".
Definition TypeRef_IsGeneric (r : TypeRef) : bool :=
  bool_decide (t_TypeKind r = TypeRefNamed) && (0 <? length (t_TypeArgs r)).
Definition IsPointer (r : TypeRef) : bool := bool_decide (t_TypeKind r = TypeRefPointer).
Definition IsSlice (r : TypeRef) : bool := bool_decide (t_TypeKind r = TypeRefSlice).
Definition IsArray (r : TypeRef) : bool := bool_decide (t_TypeKind r = TypeRefArray).
Definition IsMap (r : TypeRef) : bool := bool_decide (t_TypeKind r = TypeRefMap).
Definition IsFunc (r : TypeRef) : bool := bool_decide (t_TypeKind r = TypeRefFunc).
Definition IsTypeParam (r : TypeRef) : bool := bool_decide (t_TypeKind r = TypeRefTypeParam).
Definition IsAnonStruct (r : TypeRef) : bool := bool_decide (t_TypeKind r = TypeRefAnonStruct).
Definition IsAnonInterface (r : TypeRef) : bool :=
  bool_decide (t_TypeKind r = TypeRefAnonInterface).

Definition MayDenoteInterface (r : option TypeRef) : bool :=
  match r with
  | None => false
  | Some r => bool_decide (t_TypeKind r = TypeRefNamed)
              || bool_decide (t_TypeKind r = TypeRefAnonInterface)
  end.

(** ** [queries.go] *)

Definition MethodByName (methods : list Method) (name : string) : option Method :=
  by_name_nonempty m_Name methods name.

Definition Declares (methods : list Method) (name : string) : bool :=
  match MethodByName methods name with Some _ => true | None => false end.

Definition PointerReceiver (methods : list Method) (name : string) : bool :=
  match MethodByName methods name with
  | Some m => match m_Receiver m with Some r => IsPointer r | None => false end
  | None => false
  end.

Definition IsExportedName (name : string) : bool :=
  match name with
  | EmptyString => false
  | String c _ => (nat_of_ascii "A" <=? nat_of_ascii c) && (nat_of_ascii c <=? nat_of_ascii "Z")
  end.

Definition FieldOfType (s : option Struct) (builtin : string) : option Field :=
  match s with
  | None => None
  | Some s =>
      if String.eqb builtin "" then None
      else List.find (λ f, match f_Type f with
                           | None => false
                           | Some t => IsBuiltin t && String.eqb (t_Name t) builtin
                                       && IsExportedName (f_Name f)
                           end) (s_Fields s)
  end.

Definition EmbedName (e : option Embed) : string * bool :=
  match e with
  | None => ("", false)
  | Some e =>
      match em_Type e with
      | None => ("", false)
      | Some t =>
          if IsPointer t
          then match t_Elem t with None => ("", true) | Some el => (t_Name el, true) end
          else (t_Name t, false)
      end
  end.

Definition LocalName (qualified : string) : string :=
  match last_index_byte qualified "." with
  | Some i => str_drop (S i) qualified
  | None => qualified
  end.

(** [Companion]: the loop stops at the first function of the name in the
    package, whether or not its signature fits. *)
Definition Companion (funcs : list Function_) (pkg name returns : string) : option Function_ :=
  if String.eqb name "" || String.eqb returns "" then None
  else
    match List.find (λ fn, String.eqb (fn_Name fn) name && String.eqb (fn_Package fn) pkg) funcs with
    | None => None
    | Some fn =>
        match fn_Params fn, fn_Returns fn with
        | [], [r] => match re_Type r with
                     | Some t => if String.eqb (t_Name t) returns then Some fn else None
                     | None => None
                     end
        | _, _ => None
        end
    end.

(** ** [predicates.go] *)

Section Predicates.
  Context {A : Type}.

Fixpoint And (preds : list (A → bool)) (v : A) : bool :=
  match preds with
  | [] => true
  | p :: preds => if negb (p v) then false else And preds v
  end.

Fixpoint Or (preds : list (A → bool)) (v : A) : bool :=
  match preds with
  | [] => false
  | p :: preds => if p v then true else Or preds v
  end.

Definition Not (pred : A → bool) (v : A) : bool := negb (pred v).

End Predicates.

Definition WithDirective (name : string) (n : Node) : bool := node_HasDirective n name.
Definition WithMeta (h : metas) (name : string) (n : Node) : bool := Has (node_Meta h n) name.
Definition WithMetaKey (h : metas) (k : Key) (n : Node) : run bool := Key_Has k (node_Meta h n).

(** ** What the scans promise *)

Lemma find_split {A} (f : A → bool) (l : list A) x :
  List.find f l = Some x ↔
  ∃ l1 l2, l = l1 ++ x :: l2 ∧ f x = true ∧ Forall (λ y, f y = false) l1.
Proof.
  split.
  - induction l as [|y l IH]; simpl; [done|]. destruct (f y) eqn:E.
    + intros [= ->]. by exists [], l.
    + intros (l1 & l2 & -> & ? & ?)%IH. exists (y :: l1), l2. auto.
  - intros (l1 & l2 & -> & Hx & Hl). induction Hl as [|y l1 E _ IH]; simpl; [by rewrite Hx|].
    by rewrite E.
Qed.

Lemma find_none_iff {A} (f : A → bool) (l : list A) :
  List.find f l = None ↔ Forall (λ y, f y = false) l.
Proof.
  induction l as [|y l IH]; simpl; [done|]. rewrite Forall_cons, <- IH.
  destruct (f y); naive_solver.
Qed.

Lemma by_name_Some {A} (name_of : A → string) l name x :
  by_name name_of l name = Some x ↔
  ∃ l1 l2, l = l1 ++ x :: l2 ∧ name_of x = name ∧ name ∉ name_of <$> l1.
Proof.
  unfold by_name. rewrite find_split.
  assert (∀ l, Forall (λ y, String.eqb (name_of y) name = false) l ↔ name ∉ name_of <$> l) as E.
  { intros k. rewrite Forall_forall, list_elem_of_fmap. setoid_rewrite String.eqb_neq. naive_solver. }
  setoid_rewrite E. by setoid_rewrite String.eqb_eq.
Qed.

Lemma by_name_None {A} (name_of : A → string) l name :
  by_name name_of l name = None ↔ name ∉ name_of <$> l.
Proof.
  unfold by_name. rewrite find_none_iff, Forall_forall, list_elem_of_fmap.
  setoid_rewrite String.eqb_neq. naive_solver.
Qed.

Lemma at_index_spec {A} (l : list A) (i : Z) x :
  at_index l i = Some x ↔ (0 <= i < Z.of_nat (length l))%Z ∧ l !! Z.to_nat i = Some x.
Proof.
  unfold at_index. destruct (Z.ltb_spec i 0), (Z.leb_spec (Z.of_nat (length l)) i); simpl;
    try (split; [done | intros [? _]; lia]).
  intuition lia.
Qed.

Lemma at_index_None {A} (l : list A) (i : Z) :
  at_index l i = None ↔ (i < 0 ∨ Z.of_nat (length l) <= i)%Z.
Proof.
  unfold at_index. destruct (Z.ltb_spec i 0), (Z.leb_spec (Z.of_nat (length l)) i); simpl;
    try (split; [lia | done]).
  rewrite lookup_ge_None. lia.
Qed.

(** An exported name is what survives the prefix of its package. *)
Lemma local_name_qualified pkg name :
  last_index_byte name "." = None → LocalName (qualified pkg name) = name.
Proof.
  intros Hn. unfold LocalName, qualified. destruct (String.eqb_spec pkg "") as [->|_]; [by rewrite Hn|].
  assert (last_index_byte (pkg +:+ String "." name) "." = Some (String.length pkg)) as E.
  { induction pkg as [|c pkg IH]; simpl; [by rewrite Hn|]. change (pkg +:+ String "." name)
      with (String.append pkg (String "." name)) in IH. by rewrite IH. }
  change (pkg +:+ "." +:+ name) with (pkg +:+ String "." name). rewrite E.
  clear E. by induction pkg.
Qed.

Lemma And_all {A} (preds : list (A → bool)) v : And preds v = true ↔ Forall (λ p, p v = true) preds.
Proof.
  induction preds as [|p preds IH]; simpl; [done|]. rewrite Forall_cons, <- IH.
  destruct (p v); naive_solver.
Qed.

Lemma Or_any {A} (preds : list (A → bool)) v : Or preds v = true ↔ Exists (λ p, p v = true) preds.
Proof.
  induction preds as [|p preds IH]; simpl; [by rewrite Exists_nil|]. rewrite Exists_cons, <- IH.
  destruct (p v); naive_solver.
Qed.
