(* ===== verification/NodeInduction.v ===== *)
(** * node: induction over the mutual block

    The type references, fields, embeds, parameters, returns, constraints,
    type parameters, methods and projected interfaces of [Node] contain each
    other through lists and options.  [node_block_ind] is the induction
    principle for that block: each component of a node satisfies its
    predicate.  [components] lists every node another one holds, and
    [node_component_ind] is induction over any part of it. *)

From S2P Require Import Prelude Node.

(** The predicate on what a pointer field points to. *)
Definition when_some {A} (P : A → Prop) (o : option A) : Prop :=
  match o with Some x => P x | None => True end.

Definition list_forall {A} {P : A → Prop} (f : ∀ x, P x) : ∀ l, Forall P l :=
  fix go l := match l with
              | [] => Forall_nil_2 P
              | x :: l => Forall_cons_2 P x l (f x) (go l)
              end.

Definition option_forall {A} {P : A → Prop} (f : ∀ x, P x) (o : option A) : when_some P o :=
  match o with Some x => f x | None => I end.

Section Block.
Context (PT : TypeRef → Prop) (PF : Field → Prop) (PE : Embed → Prop) (PP : Param → Prop)
  (PR : Return → Prop) (PC : Constraint → Prop) (PTP : TypeParam → Prop) (PM : Method → Prop)
  (PI : Interface → Prop).

Record block_step : Prop := {
  step_typeref : ∀ t,
    Forall PT (t_TypeArgs t) → when_some PT (t_Elem t) → when_some PT (t_MapKey t) →
    when_some PT (t_MapValue t) → Forall PT (t_FuncParams t) → Forall PT (t_FuncReturns t) →
    Forall PF (t_Fields t) → Forall PM (t_Methods t) → Forall PE (t_Embeds t) → PT t;
  step_field : ∀ f, when_some PT (f_Type f) → PF f;
  step_embed : ∀ e, when_some PT (em_Type e) → when_some PI (em_Resolved e) → PE e;
  step_param : ∀ p, when_some PT (pa_Type p) → PP p;
  step_return : ∀ r, when_some PT (re_Type r) → PR r;
  step_constraint : ∀ c, Forall PT (c_Embedded c) → PC c;
  step_typeparam : ∀ p, when_some PC (tp_Constraint p) → PTP p;
  step_method : ∀ m,
    when_some PT (m_Receiver m) → Forall PP (m_Params m) → Forall PR (m_Returns m) →
    Forall PTP (m_TypeParams m) → PM m;
  step_interface : ∀ i,
    Forall PF (i_Fields i) → Forall PM (i_Methods i) → Forall PE (i_Embeds i) →
    Forall PTP (i_TypeParams i) → PI i;
}.

Context (H : block_step).

Fixpoint ind_typeref (t : TypeRef) : PT t :=
  match t with
  | MkTypeRef b k pk n args el len mk mv fp fr fs ms es =>
      step_typeref H (MkTypeRef b k pk n args el len mk mv fp fr fs ms es)
        (list_forall ind_typeref args) (option_forall ind_typeref el)
        (option_forall ind_typeref mk) (option_forall ind_typeref mv)
        (list_forall ind_typeref fp) (list_forall ind_typeref fr)
        (list_forall ind_field fs) (list_forall ind_method ms) (list_forall ind_embed es)
  end
with ind_field (f : Field) : PF f :=
  match f with
  | MkField b n t tag => step_field H (MkField b n t tag) (option_forall ind_typeref t)
  end
with ind_embed (e : Embed) : PE e :=
  match e with
  | MkEmbed b t r => step_embed H (MkEmbed b t r) (option_forall ind_typeref t)
                       (option_forall ind_interface r)
  end
with ind_param (p : Param) : PP p :=
  match p with
  | MkParam b n t v => step_param H (MkParam b n t v) (option_forall ind_typeref t)
  end
with ind_return (r : Return) : PR r :=
  match r with
  | MkReturn b n t => step_return H (MkReturn b n t) (option_forall ind_typeref t)
  end
with ind_constraint (c : Constraint) : PC c :=
  match c with
  | MkConstraint raw es => step_constraint H (MkConstraint raw es) (list_forall ind_typeref es)
  end
with ind_typeparam (p : TypeParam) : PTP p :=
  match p with
  | MkTypeParam b n c => step_typeparam H (MkTypeParam b n c) (option_forall ind_constraint c)
  end
with ind_method (m : Method) : PM m :=
  match m with
  | MkMethod b n r rn ps rs tps =>
      step_method H (MkMethod b n r rn ps rs tps) (option_forall ind_typeref r)
        (list_forall ind_param ps) (list_forall ind_return rs) (list_forall ind_typeparam tps)
  end
with ind_interface (i : Interface) : PI i :=
  match i with
  | MkInterface b n pk fs ms es tps =>
      step_interface H (MkInterface b n pk fs ms es tps) (list_forall ind_field fs)
        (list_forall ind_method ms) (list_forall ind_embed es) (list_forall ind_typeparam tps)
  end.
End Block.

Lemma node_block_ind PT PF PE PP PR PC PTP PM PI :
  block_step PT PF PE PP PR PC PTP PM PI →
  (∀ t, PT t) ∧ (∀ f, PF f) ∧ (∀ e, PE e) ∧ (∀ p, PP p) ∧ (∀ r, PR r) ∧ (∀ c, PC c) ∧
  (∀ p, PTP p) ∧ (∀ m, PM m) ∧ (∀ i, PI i).
Proof.
  intros H. repeat split.
  - apply (ind_typeref _ _ _ _ _ _ _ _ _ H).
  - apply (ind_field _ _ _ _ _ _ _ _ _ H).
  - apply (ind_embed _ _ _ _ _ _ _ _ _ H).
  - apply (ind_param _ _ _ _ _ _ _ _ _ H).
  - apply (ind_return _ _ _ _ _ _ _ _ _ H).
  - apply (ind_constraint _ _ _ _ _ _ _ _ _ H).
  - apply (ind_typeparam _ _ _ _ _ _ _ _ _ H).
  - apply (ind_method _ _ _ _ _ _ _ _ _ H).
  - apply (ind_interface _ _ _ _ _ _ _ _ _ H).
Qed.

(** ** Induction over whole nodes *)

Definition some_list {A} (o : option A) : list A := match o with Some x => [x] | None => [] end.

Definition typeref_components (r : TypeRef) : list Node :=
  (NTypeRef <$> (t_TypeArgs r ++ some_list (t_Elem r) ++ some_list (t_MapKey r)
                 ++ some_list (t_MapValue r) ++ t_FuncParams r ++ t_FuncReturns r))
  ++ (NField <$> t_Fields r) ++ (NMethod <$> t_Methods r) ++ (NEmbed <$> t_Embeds r).

Definition components (n : Node) : list Node :=
  match n with
  | NPackage p =>
      (NFile <$> p_Files p) ++ (NImport <$> p_Imports p) ++ (NStruct <$> p_Structs p)
      ++ (NInterface <$> p_Interfaces p) ++ (NFunction <$> p_Functions p)
      ++ (NVariable <$> p_Variables p) ++ (NConstant <$> p_Constants p)
      ++ (NEnum <$> p_Enums p) ++ (NAlias <$> p_Aliases p)
  | NFile f => NImport <$> fi_Imports f
  | NStruct s =>
      (NTypeParam <$> s_TypeParams s) ++ (NField <$> s_Fields s) ++ (NEmbed <$> s_Embeds s)
      ++ (NMethod <$> s_Methods s)
  | NInterface i =>
      (NTypeParam <$> i_TypeParams i) ++ (NField <$> i_Fields i) ++ (NMethod <$> i_Methods i)
      ++ (NEmbed <$> i_Embeds i)
  | NMethod m =>
      (NTypeParam <$> m_TypeParams m) ++ (NParam <$> m_Params m) ++ (NReturn <$> m_Returns m)
      ++ (NTypeRef <$> some_list (m_Receiver m))
  | NFunction f =>
      (NTypeParam <$> fn_TypeParams f) ++ (NParam <$> fn_Params f) ++ (NReturn <$> fn_Returns f)
  | NField f => NTypeRef <$> some_list (f_Type f)
  | NParam p => NTypeRef <$> some_list (pa_Type p)
  | NReturn r => NTypeRef <$> some_list (re_Type r)
  | NTypeParam tp => NTypeRef <$> (some_list (tp_Constraint tp) ≫= c_Embedded)
  | NEnum e =>
      (NTypeRef <$> some_list (e_Underlying e)) ++ (NEnumVariant <$> e_Variants e)
      ++ (NMethod <$> e_Methods e)
  | NAlias a =>
      (NTypeParam <$> a_TypeParams a) ++ (NTypeRef <$> some_list (a_Target a))
      ++ (NMethod <$> a_Methods a)
  | NVariable v => NTypeRef <$> some_list (v_Type v)
  | NConstant c => NTypeRef <$> some_list (k_Type c)
  | NEmbed e => (NTypeRef <$> some_list (em_Type e)) ++ (NInterface <$> some_list (em_Resolved e))
  | NTypeRef r => typeref_components r
  | NImport _ | NEnumVariant _ => []
  end.

Lemma Forall_fmap_node {A} (P : Node → Prop) (f : A → Node) l :
  Forall (λ x, P (f x)) l → Forall P (f <$> l).
Proof. intros H. by apply Forall_fmap. Qed.

Lemma Forall_some_list {A} (P : A → Prop) o : when_some P o → Forall P (some_list o).
Proof. by destruct o; simpl; auto. Qed.

Section ComponentInduction.
Context (P : Node → Prop) (H : ∀ n, Forall P (components n) → P n).

(** The kinds of the mutual block. *)
Lemma component_block :
  (∀ t, P (NTypeRef t)) ∧ (∀ f, P (NField f)) ∧ (∀ e, P (NEmbed e)) ∧ (∀ p, P (NParam p)) ∧
  (∀ r, P (NReturn r)) ∧ (∀ c, Forall (λ t, P (NTypeRef t)) (c_Embedded c)) ∧
  (∀ p, P (NTypeParam p)) ∧ (∀ m, P (NMethod m)) ∧ (∀ i, P (NInterface i)).
Proof using H.
  apply (node_block_ind (λ t, P (NTypeRef t)) (λ f, P (NField f)) (λ e, P (NEmbed e))
    (λ p, P (NParam p)) (λ r, P (NReturn r)) (λ c, Forall (λ t, P (NTypeRef t)) (c_Embedded c))
    (λ p, P (NTypeParam p)) (λ m, P (NMethod m)) (λ i, P (NInterface i))).
  constructor; intros; try done; apply H; simpl; unfold typeref_components; rewrite ?fmap_app;
    repeat (first [apply Forall_app_2 | apply Forall_fmap_node | apply Forall_some_list]); try done.
  destruct (tp_Constraint p); simpl; rewrite ?app_nil_r; done.
Qed.

Lemma all_components n : P n.
Proof using H.
  destruct component_block as (? & ? & ? & ? & ? & ? & ? & ? & ?).
  assert (Hall : ∀ {A} (f : A → Node) (l : list A), (∀ x, P (f x)) → Forall P (f <$> l)).
  { intros A f l Hf. apply Forall_fmap, Forall_forall. auto. }
  assert (∀ x, P (NImport x)) by (intros x; by apply H).
  assert (∀ x, P (NEnumVariant x)) by (intros x; by apply H).
  assert (∀ x, P (NFile x)) by (intros x; apply H; simpl; auto).
  assert (∀ x, P (NStruct x)) by (intros x; apply H; simpl; auto using Forall_app_2).
  assert (∀ x, P (NFunction x)) by (intros x; apply H; simpl; auto using Forall_app_2).
  assert (∀ x, P (NVariable x)) by (intros x; apply H; simpl; auto).
  assert (∀ x, P (NConstant x)) by (intros x; apply H; simpl; auto).
  assert (∀ x, P (NEnum x)) by (intros x; apply H; simpl; auto using Forall_app_2).
  assert (∀ x, P (NAlias x)) by (intros x; apply H; simpl; auto using Forall_app_2).
  destruct n; auto. apply H; simpl; auto 20 using Forall_app_2.
Qed.
End ComponentInduction.

(** Nodes held by a node, at any depth. *)
Definition within : Node → Node → Prop := tc (λ n c, c ∈ components n).

Lemma node_component_ind (part : Node → list Node) (Hpart : ∀ n c, c ∈ part n → within n c)
    (P : Node → Prop) :
  (∀ n, Forall P (part n) → P n) → ∀ n, P n.
Proof.
  intros H. assert (∀ n, P n ∧ ∀ c, within n c → P c) as Hall; [|intros n; apply Hall].
  apply all_components. intros n Hn. rewrite Forall_forall in Hn.
  assert (∀ c, within n c → P c) as Hc.
  { intros c Hc. inversion Hc as [? ? Hd|? d ? Hd He]; subst; [by apply Hn|]. by apply (Hn d). }
  split; [|done]. apply H, Forall_forall. eauto.
Qed.
