(* ===== verification/TypeRefEqual.v ===== *)
(** * node: structural equality of type references

    [TypeRef.Equal] of [src/node/type_ref.go] with its helpers, and the
    theorem that it decides equality of the type shapes: two references are
    equal exactly when they erase to the same shape, a tree that keeps what
    is part of a type's identity and nothing else. *)

From S2P Require Import Prelude Node NodeInduction NodeQueries.

Local Open Scope string_scope.
Local Open Scope nat_scope.
Local Open Scope list_scope.

(** The length comparison followed by the element-wise loop. *)
Section Pairwise.
  Context {A : Type} (f : A → A → bool).

Fixpoint pairwise (l k : list A) : bool :=
  match l, k with
  | [], [] => true
  | x :: l, y :: k => f x y && pairwise l k
  | _, _ => false
  end.

(** The nil handling at the head of [Equal]. *)
Definition nil_aware (a b : option A) : bool :=
  match a, b with
  | Some x, Some y => f x y
  | None, None => true
  | _, _ => false
  end.
End Pairwise.

Fixpoint typeref_equal (r other : TypeRef) {struct r} : bool :=
  if negb (bool_decide (t_TypeKind r = t_TypeKind other)) then false
  else
    match t_TypeKind r with
    | TypeRefNamed =>
        (* equalNamed *)
        if negb (String.eqb (t_Package r) (t_Package other)) || negb (String.eqb (t_Name r) (t_Name other))
        then false
        else pairwise typeref_equal (t_TypeArgs r) (t_TypeArgs other)
    | TypeRefPointer | TypeRefSlice => nil_aware typeref_equal (t_Elem r) (t_Elem other)
    | TypeRefArray =>
        (t_ArrayLen r =? t_ArrayLen other)%Z && nil_aware typeref_equal (t_Elem r) (t_Elem other)
    | TypeRefMap =>
        nil_aware typeref_equal (t_MapKey r) (t_MapKey other)
        && nil_aware typeref_equal (t_MapValue r) (t_MapValue other)
    | TypeRefFunc =>
        pairwise typeref_equal (t_FuncParams r) (t_FuncParams other)
        && pairwise typeref_equal (t_FuncReturns r) (t_FuncReturns other)
    | TypeRefTypeParam => String.eqb (t_Name r) (t_Name other)
    | TypeRefAnonStruct =>
        (* equalAnonStruct *)
        pairwise field_equal (t_Fields r) (t_Fields other)
        && pairwise embed_equal (t_Embeds r) (t_Embeds other)
    | TypeRefAnonInterface =>
        (* equalAnonInterface *)
        pairwise method_equal (t_Methods r) (t_Methods other)
        && pairwise embed_equal (t_Embeds r) (t_Embeds other)
    | TypeRefOther _ => false
    end
(** One iteration of the field loop of [equalAnonStruct]. *)
with field_equal (f o : Field) {struct f} : bool :=
  String.eqb (f_Name f) (f_Name o) && String.eqb (f_Tag f) (f_Tag o)
  && nil_aware typeref_equal (f_Type f) (f_Type o)
(** One iteration of the embed loops. *)
with embed_equal (e o : Embed) {struct e} : bool :=
  nil_aware typeref_equal (em_Type e) (em_Type o)
(** One iteration of the method loop of [equalAnonInterface]; the return
    types are compared slot by slot. *)
with method_equal (m o : Method) {struct m} : bool :=
  String.eqb (m_Name m) (m_Name o)
  && pairwise param_equal (m_Params m) (m_Params o)
  && pairwise return_equal (m_Returns m) (m_Returns o)
(** One iteration of [paramsEqual]. *)
with param_equal (p o : Param) {struct p} : bool :=
  Bool.eqb (pa_Variadic p) (pa_Variadic o) && nil_aware typeref_equal (pa_Type p) (pa_Type o)
with return_equal (r o : Return) {struct r} : bool :=
  nil_aware typeref_equal (re_Type r) (re_Type o).

Definition Equal (r other : option TypeRef) : bool := nil_aware typeref_equal r other.

Definition equalRefSlice (a b : list (option TypeRef)) : bool := pairwise Equal a b.

Definition paramsEqual (a b : list Param) : bool := pairwise param_equal a b.

(** ** Shapes *)

Inductive shape :=
| SNamed (pkg name : string) (args : list shape)
| SPointer (elem : option shape)
| SSlice (elem : option shape)
| SArray (len : Z) (elem : option shape)
| SMap (key value : option shape)
| SFunc (params returns : list shape)
| STypeParam (name : string)
| SAnonStruct (fields : list (string * string * option shape)) (embeds : list (option shape))
| SAnonInterface (methods : list (string * list (bool * option shape) * list (option shape)))
    (embeds : list (option shape))
| SUnknown.

Fixpoint erase (r : TypeRef) : shape :=
  match t_TypeKind r with
  | TypeRefNamed => SNamed (t_Package r) (t_Name r) (List.map erase (t_TypeArgs r))
  | TypeRefPointer => SPointer (option_map erase (t_Elem r))
  | TypeRefSlice => SSlice (option_map erase (t_Elem r))
  | TypeRefArray => SArray (t_ArrayLen r) (option_map erase (t_Elem r))
  | TypeRefMap => SMap (option_map erase (t_MapKey r)) (option_map erase (t_MapValue r))
  | TypeRefFunc => SFunc (List.map erase (t_FuncParams r)) (List.map erase (t_FuncReturns r))
  | TypeRefTypeParam => STypeParam (t_Name r)
  | TypeRefAnonStruct =>
      SAnonStruct (List.map erase_field (t_Fields r)) (List.map erase_embed (t_Embeds r))
  | TypeRefAnonInterface =>
      SAnonInterface (List.map erase_method (t_Methods r)) (List.map erase_embed (t_Embeds r))
  | TypeRefOther _ => SUnknown
  end
with erase_field (f : Field) : string * string * option shape :=
  (f_Name f, f_Tag f, option_map erase (f_Type f))
with erase_embed (e : Embed) : option shape := option_map erase (em_Type e)
with erase_method (m : Method) : string * list (bool * option shape) * list (option shape) :=
  (m_Name m, List.map erase_param (m_Params m), List.map erase_return (m_Returns m))
with erase_param (p : Param) : bool * option shape := (pa_Variadic p, option_map erase (pa_Type p))
with erase_return (r : Return) : option shape := option_map erase (re_Type r).

(** No reference in the shape has an unknown discriminator. *)
Definition when_known (f : shape → bool) (o : option shape) : bool :=
  match o with Some s => f s | None => true end.

Fixpoint known (s : shape) : bool :=
  match s with
  | SNamed _ _ args => forallb known args
  | SPointer e | SSlice e | SArray _ e => when_known known e
  | SMap k v => when_known known k && when_known known v
  | SFunc ps rs => forallb known ps && forallb known rs
  | STypeParam _ => true
  | SAnonStruct fs es => forallb (λ f, when_known known f.2) fs && forallb (when_known known) es
  | SAnonInterface ms es =>
      forallb (λ m, forallb (λ p, when_known known p.2) m.1.2 && forallb (when_known known) m.2) ms
      && forallb (when_known known) es
  | SUnknown => false
  end.

(** [f] decides equality of the images under [g], on known images. *)
Definition decides {A B} (f : A → A → bool) (g : A → B) (k : B → bool) (x : A) : Prop :=
  ∀ y, f x y = true ↔ g x = g y ∧ k (g x) = true.

Lemma pairwise_decides {A B} (f : A → A → bool) (g : A → B) (k : B → bool) l :
  Forall (decides f g k) l → decides (pairwise f) (List.map g) (forallb k) l.
Proof.
  induction 1 as [|x l Hx _ IH]; intros [|y l']; simpl; [intuition congruence..|].
  unfold decides in Hx, IH. rewrite andb_true_iff, Hx, IH, andb_true_iff. intuition congruence.
Qed.

Lemma nil_aware_decides (f : TypeRef → TypeRef → bool) (g : TypeRef → shape) (k : shape → bool) o :
  when_some (decides f g k) o → decides (nil_aware f) (option_map g) (when_known k) o.
Proof.
  destruct o as [x|]; unfold decides; simpl; intros Hx [y|]; simpl; rewrite ?Hx; intuition congruence.
Qed.

Lemma typeref_equal_decides :
  (∀ t, decides typeref_equal erase known t) ∧
  (∀ f, decides field_equal erase_field (λ f, when_known known f.2) f) ∧
  (∀ e, decides embed_equal erase_embed (when_known known) e) ∧
  (∀ p, decides param_equal erase_param (λ p, when_known known p.2) p) ∧
  (∀ r, decides return_equal erase_return (when_known known) r) ∧
  (∀ c : Constraint, True) ∧ (∀ p : TypeParam, True) ∧
  (∀ m, decides method_equal erase_method
          (λ m, forallb (λ p, when_known known p.2) m.1.2 && forallb (when_known known) m.2) m) ∧
  (∀ i : Interface, True).
Proof.
  apply node_block_ind. constructor; try done.
  - intros t args el mk mv fp fr fs ms es o. apply pairwise_decides in args, fp, fr, fs, ms, es.
    apply nil_aware_decides in el, mk, mv.
    destruct t as [b kd pk n a e len k v p r f m em], o as [b' kd' pk' n' a' e' len' k' v' p' r' f' m' em'].
    simpl in *. specialize (args a'); specialize (el e'); specialize (mk k'); specialize (mv v').
    specialize (fp p'); specialize (fr r'); specialize (fs f'); specialize (ms m'); specialize (es em').
    destruct kd, kd'; simpl; try (split; [done | by intros [? _]]);
      try (case_bool_decide; [|simplify_eq]); simpl; try (split; [done | by intros [_ ?]]).
    + destruct (String.eqb_spec pk pk'), (String.eqb_spec n n'); simpl; rewrite ?args; intuition congruence.
    + rewrite el; intuition congruence.
    + rewrite el; intuition congruence.
    + rewrite andb_true_iff, Z.eqb_eq, el; intuition congruence.
    + rewrite andb_true_iff, mk, mv, andb_true_iff; intuition congruence.
    + rewrite andb_true_iff, fp, fr, andb_true_iff; intuition congruence.
    + rewrite String.eqb_eq; intuition congruence.
    + rewrite andb_true_iff, fs, es, andb_true_iff; intuition congruence.
    + rewrite andb_true_iff, ms, es, andb_true_iff; intuition congruence.
  - intros f Hf o. apply nil_aware_decides in Hf. destruct f, o; unfold decides in *; simpl in *.
    rewrite !andb_true_iff, !String.eqb_eq, Hf. intuition congruence.
  - intros e He _ o. apply nil_aware_decides in He. destruct e, o; unfold decides in *; simpl in *. by rewrite He.
  - intros p Hp o. apply nil_aware_decides in Hp. destruct p, o; unfold decides in *; simpl in *.
    rewrite !andb_true_iff, Bool.eqb_true_iff, Hp. intuition congruence.
  - intros r Hr o. apply nil_aware_decides in Hr. destruct r, o; unfold decides in *; simpl in *. by rewrite Hr.
  - intros m _ Hps Hrs _ o. apply pairwise_decides in Hps, Hrs. destruct m, o; unfold decides in *; simpl in *.
    rewrite !andb_true_iff, String.eqb_eq, Hps, Hrs. intuition congruence.
Qed.

(** C15: structural equality of type references is equality of shapes: [Equal]
    answers true exactly when both references are nil, or both are not, have
    the same shape (kind, package, name, arguments, element types, inline
    members with their tags, parameters without their names) and no
    discriminator outside the declared variants occurs in it; position,
    documentation, directives and metadata never matter. *)
Theorem equal_is_shape_equality r other :
  Equal r other = true ↔
  option_map erase r = option_map erase other ∧ when_known known (option_map erase r) = true.
Proof. apply nil_aware_decides. destruct r; simpl; [|done]. apply typeref_equal_decides. Qed.

(** [equalAnonInterface] compares [ReturnTypes] of the two methods. *)
Lemma return_types_equal l k : pairwise return_equal l k = equalRefSlice (ReturnTypes l) (ReturnTypes k).
Proof. revert k. induction l as [|r l IH]; intros [|s k]; try done.
  unfold equalRefSlice in *. simpl. rewrite IH. by destruct r. Qed.
