(* ===== verification/NodeWalk.v ===== *)
(** * node: the tree walk

    [Walk] of [src/node/walk.go] with its per-kind child walkers, for an
    arbitrary visitor.

    A [Visitor] is a value of [V]; [Visit] is its method, run on the state [S]
    the visitor's closure mutates, returning nil as [None].  The specification
    is the relation [children]: one unfolding lemma ([walk_unfold]) ties the
    recursive walkers to it and [node_tree_ind] is induction along it. *)

From S2P Require Import Prelude Node NodeInduction.

Local Open Scope string_scope.
Local Open Scope nat_scope.
Local Open Scope list_scope.

Section Walk.
  Context {V S : Type} (Visit : V → Node → S → S * option V).

(** The body of [Walk] on a non-nil node: visit, then descend with the
    visitor the visit returned. *)
Definition visit_then (n : Node) (descend : V → S → S) (v : V) (s : S) : S :=
  let '(s, w) := Visit v n s in
  match w with None => s | Some w => descend w s end.

(** [for _, x := range l { Walk(x, v) }] *)
Definition walk_each {A} (walk : A → V → S → S) : list A → V → S → S :=
  fix go l v s := match l with [] => s | x :: l => go l v (walk x v s) end.

(** [Walk(x, v)] on a pointer that may be nil. *)
Definition walk_some {A} (walk : A → V → S → S) (o : option A) (v : V) (s : S) : S :=
  match o with None => s | Some x => walk x v s end.

Fixpoint walkTypeRef (r : TypeRef) : V → S → S :=
  visit_then (NTypeRef r) (λ v s,
    match t_TypeKind r with
    | TypeRefNamed => walk_each walkTypeRef (t_TypeArgs r) v s
    | TypeRefPointer | TypeRefSlice | TypeRefArray => walk_some walkTypeRef (t_Elem r) v s
    | TypeRefMap =>
        walk_some walkTypeRef (t_MapValue r) v (walk_some walkTypeRef (t_MapKey r) v s)
    | TypeRefFunc =>
        walk_each walkTypeRef (t_FuncReturns r) v (walk_each walkTypeRef (t_FuncParams r) v s)
    | TypeRefAnonStruct =>
        walk_each walkEmbed (t_Embeds r) v (walk_each walkField (t_Fields r) v s)
    | TypeRefAnonInterface =>
        walk_each walkEmbed (t_Embeds r) v (walk_each walkMethod (t_Methods r) v s)
    | TypeRefTypeParam | TypeRefOther _ => s
    end)
with walkField (f : Field) : V → S → S :=
  visit_then (NField f) (λ v s, walk_some walkTypeRef (f_Type f) v s)
with walkEmbed (e : Embed) : V → S → S :=
  visit_then (NEmbed e) (λ v s, walk_some walkTypeRef (em_Type e) v s)
with walkParam (p : Param) : V → S → S :=
  visit_then (NParam p) (λ v s, walk_some walkTypeRef (pa_Type p) v s)
with walkReturn (r : Return) : V → S → S :=
  visit_then (NReturn r) (λ v s, walk_some walkTypeRef (re_Type r) v s)
with walkConstraint (c : Constraint) : V → S → S :=
  λ v s, walk_each walkTypeRef (c_Embedded c) v s
with walkTypeParam (tp : TypeParam) : V → S → S :=
  visit_then (NTypeParam tp) (λ v s,
    match tp_Constraint tp with None => s | Some c => walkConstraint c v s end)
with walkMethod (m : Method) : V → S → S :=
  visit_then (NMethod m) (λ v s,
    walk_each walkReturn (m_Returns m) v
      (walk_each walkParam (m_Params m) v (walk_each walkTypeParam (m_TypeParams m) v s))).

Definition walkInterface (i : Interface) : V → S → S :=
  visit_then (NInterface i) (λ v s,
    walk_each walkEmbed (i_Embeds i) v
      (walk_each walkMethod (i_Methods i) v
        (walk_each walkField (i_Fields i) v (walk_each walkTypeParam (i_TypeParams i) v s)))).

Definition walkStruct (x : Struct) : V → S → S :=
  visit_then (NStruct x) (λ v s,
    walk_each walkMethod (s_Methods x) v
      (walk_each walkEmbed (s_Embeds x) v
        (walk_each walkField (s_Fields x) v (walk_each walkTypeParam (s_TypeParams x) v s)))).

Definition walkFunction (f : Function_) : V → S → S :=
  visit_then (NFunction f) (λ v s,
    walk_each walkReturn (fn_Returns f) v
      (walk_each walkParam (fn_Params f) v (walk_each walkTypeParam (fn_TypeParams f) v s))).

Definition walkVariable (x : Variable_) : V → S → S :=
  visit_then (NVariable x) (λ v s, walk_some walkTypeRef (v_Type x) v s).

Definition walkConstant (c : Constant) : V → S → S :=
  visit_then (NConstant c) (λ v s, walk_some walkTypeRef (k_Type c) v s).

Definition walkEnumVariant (x : EnumVariant) : V → S → S :=
  visit_then (NEnumVariant x) (λ v s, s).

Definition walkEnum (e : Enum) : V → S → S :=
  visit_then (NEnum e) (λ v s,
    walk_each walkEnumVariant (e_Variants e) v (walk_some walkTypeRef (e_Underlying e) v s)).

Definition walkAlias (a : Alias) : V → S → S :=
  visit_then (NAlias a) (λ v s,
    walk_some walkTypeRef (a_Target a) v (walk_each walkTypeParam (a_TypeParams a) v s)).

Definition walkImport (i : Import) : V → S → S := visit_then (NImport i) (λ v s, s).

Definition walkFile (f : File) : V → S → S :=
  visit_then (NFile f) (λ v s, walk_each walkImport (fi_Imports f) v s).

Definition walkPackage (p : Package) : V → S → S :=
  visit_then (NPackage p) (λ v s,
    let s := walk_each walkFile (p_Files p) v s in
    let s := walk_each walkImport (p_Imports p) v s in
    let s := walk_each walkStruct (p_Structs p) v s in
    let s := walk_each walkInterface (p_Interfaces p) v s in
    let s := walk_each walkFunction (p_Functions p) v s in
    let s := walk_each walkVariable (p_Variables p) v s in
    let s := walk_each walkConstant (p_Constants p) v s in
    let s := walk_each walkEnum (p_Enums p) v s in
    walk_each walkAlias (p_Aliases p) v s).

(** [walkChildren] dispatches on the concrete kind; with the visit itself it
    is [Walk] on a non-nil node. *)
Definition walk_node (n : Node) : V → S → S :=
  match n with
  | NPackage n => walkPackage n | NFile n => walkFile n | NImport n => walkImport n
  | NStruct n => walkStruct n | NInterface n => walkInterface n | NMethod n => walkMethod n
  | NField n => walkField n | NFunction n => walkFunction n | NVariable n => walkVariable n
  | NConstant n => walkConstant n | NEnum n => walkEnum n | NEnumVariant n => walkEnumVariant n
  | NAlias n => walkAlias n | NEmbed n => walkEmbed n | NTypeRef n => walkTypeRef n
  | NParam n => walkParam n | NReturn n => walkReturn n | NTypeParam n => walkTypeParam n
  end.

Definition Walk (n : option Node) (v : option V) (s : S) : S :=
  match v, n with
  | Some v, Some n => walk_node n v s
  | _, _ => s
  end.

End Walk.

(** ** Children *)

Definition typeref_children (r : TypeRef) : list Node :=
  match t_TypeKind r with
  | TypeRefNamed => NTypeRef <$> t_TypeArgs r
  | TypeRefPointer | TypeRefSlice | TypeRefArray => NTypeRef <$> some_list (t_Elem r)
  | TypeRefMap => NTypeRef <$> (some_list (t_MapKey r) ++ some_list (t_MapValue r))
  | TypeRefFunc => NTypeRef <$> (t_FuncParams r ++ t_FuncReturns r)
  | TypeRefAnonStruct => (NField <$> t_Fields r) ++ (NEmbed <$> t_Embeds r)
  | TypeRefAnonInterface => (NMethod <$> t_Methods r) ++ (NEmbed <$> t_Embeds r)
  | TypeRefTypeParam | TypeRefOther _ => []
  end.

Definition children (n : Node) : list Node :=
  match n with
  | NPackage p =>
      (NFile <$> p_Files p) ++ (NImport <$> p_Imports p) ++ (NStruct <$> p_Structs p)
      ++ (NInterface <$> p_Interfaces p) ++ (NFunction <$> p_Functions p)
      ++ (NVariable <$> p_Variables p) ++ (NConstant <$> p_Constants p)
      ++ (NEnum <$> p_Enums p) ++ (NAlias <$> p_Aliases p)
  | NFile f => NImport <$> fi_Imports f
  | NStruct s =>
      (NTypeParam <$> s_TypeParams s) ++ (NField <$> s_Fields s) ++ (NEmbed <$> s_Embeds s)
      ++ (NMethod <$> s_Methods s)
  | NInterface i =>
      (NTypeParam <$> i_TypeParams i) ++ (NField <$> i_Fields i) ++ (NMethod <$> i_Methods i)
      ++ (NEmbed <$> i_Embeds i)
  | NMethod m =>
      (NTypeParam <$> m_TypeParams m) ++ (NParam <$> m_Params m) ++ (NReturn <$> m_Returns m)
  | NFunction f =>
      (NTypeParam <$> fn_TypeParams f) ++ (NParam <$> fn_Params f) ++ (NReturn <$> fn_Returns f)
  | NField f => NTypeRef <$> some_list (f_Type f)
  | NParam p => NTypeRef <$> some_list (pa_Type p)
  | NReturn r => NTypeRef <$> some_list (re_Type r)
  | NTypeParam tp => NTypeRef <$> (some_list (tp_Constraint tp) ≫= c_Embedded)
  | NEnum e => (NTypeRef <$> some_list (e_Underlying e)) ++ (NEnumVariant <$> e_Variants e)
  | NAlias a => (NTypeParam <$> a_TypeParams a) ++ (NTypeRef <$> some_list (a_Target a))
  | NVariable v => NTypeRef <$> some_list (v_Type v)
  | NConstant c => NTypeRef <$> some_list (k_Type c)
  | NEmbed e => NTypeRef <$> some_list (em_Type e)
  | NTypeRef r => typeref_children r
  | NImport _ | NEnumVariant _ => []
  end.

(** ** The walkers follow [children] *)

Section WalkFacts.
Context {V S : Type} (Visit : V → Node → S → S * option V).

Lemma walk_each_app {A} (f : A → V → S → S) l k v s :
  walk_each f (l ++ k) v s = walk_each f k v (walk_each f l v s).
Proof. revert s. induction l as [|x l IH]; simpl; intros s; [done|]. apply IH. Qed.

Lemma walk_each_map {A B} (f : B → V → S → S) (g : A → B) l v s :
  walk_each f (g <$> l) v s = walk_each (λ x, f (g x)) l v s.
Proof. revert s. induction l as [|x l IH]; simpl; intros s; [done|]. apply IH. Qed.

Lemma walk_each_some {A} (f : A → V → S → S) o v s :
  walk_each f (some_list o) v s = walk_some f o v s.
Proof. by destruct o. Qed.

Lemma walk_unfold n v s :
  walk_node Visit n v s = visit_then Visit n (walk_each (walk_node Visit) (children n)) v s.
Proof.
  assert (Htp : ∀ c v s, match c with None => s | Some c => walkConstraint Visit c v s end
      = walk_each (walk_node Visit) (NTypeRef <$> (some_list c ≫= c_Embedded)) v s).
  { intros [[raw es]|] w s'; simpl; [|done]. rewrite app_nil_r. by rewrite walk_each_map. }
  destruct n as [[]|[]|[]|[]|[]|[]|[]|[]|[]|[]|[]|[]|[]|[]|[? []]|[]|[]|[]];
    cbn [walk_node children]; unfold walkPackage, walkFile, walkImport, walkStruct, walkInterface,
      walkFunction, walkVariable, walkConstant, walkEnum, walkEnumVariant, walkAlias;
    simpl; unfold visit_then, typeref_children; simpl; destruct (Visit _ _ _) as [s' [w|]];
    rewrite ?Htp, ?fmap_app, ?walk_each_app, ?walk_each_map, ?walk_each_some; done.
Qed.
End WalkFacts.

(** ** Induction along the children *)

Lemma children_components n : children n ⊆ components n.
Proof.
  destruct n as [|[]|[]|[]|[]|[]|[]|[]|[]|[]|[]|[]|[]|[]|[? []]|[]|[]|[]]; simpl;
    unfold typeref_children, typeref_components; simpl; try done;
    intros c; repeat setoid_rewrite fmap_app; repeat setoid_rewrite elem_of_app; 
    first [tauto | by intros ?%not_elem_of_nil].
Qed.

Lemma node_tree_ind (P : Node → Prop) :
  (∀ n, Forall P (children n) → P n) → ∀ n, P n.
Proof.
  apply (node_component_ind children). intros n c Hc. by apply tc_once, children_components.
Qed.

(** ** What a walk visits *)

(** [reaches prune n m]: [m] is [n] or lies below it, and no node on the way
    down to [m] is pruned. *)
Inductive reaches (prune : Node → bool) : Node → Node → Prop :=
| reaches_self n : reaches prune n n
| reaches_child n c m :
    prune n = false → c ∈ children n → reaches prune c m → reaches prune n m.

Abbreviation below := (reaches (λ _, false)).

(** The visitor that records what it sees and prunes by a predicate. *)
Definition record_visit (prune : Node → bool) (v : unit) (n : Node) (seen : list Node)
    : list Node * option unit :=
  (seen ++ [n], if prune n then None else Some tt).

Definition visited (prune : Node → bool) (n : Node) : list Node :=
  walk_node (record_visit prune) n tt [].

Lemma walk_each_record prune l seen :
  Forall (λ n, ∀ seen, walk_node (record_visit prune) n tt seen = seen ++ visited prune n) l →
  walk_each (walk_node (record_visit prune)) l tt seen = seen ++ concat (visited prune <$> l).
Proof.
  intros H. revert seen. induction H as [|n l Hn _ IH]; simpl; intros seen; [by rewrite app_nil_r|].
  by rewrite Hn, IH, app_assoc.
Qed.

Lemma walk_record prune n seen :
  walk_node (record_visit prune) n tt seen = seen ++ visited prune n.
Proof.
  revert seen. induction n as [n IH] using node_tree_ind; intros seen.
  unfold visited. rewrite !walk_unfold. unfold visit_then, record_visit at 1 3. simpl.
  destruct (prune n); [done|]. by rewrite !walk_each_record, app_assoc by done.
Qed.

Lemma visited_unfold prune n :
  visited prune n = n :: (if prune n then [] else concat (visited prune <$> children n)).
Proof.
  unfold visited at 1. rewrite walk_unfold. unfold visit_then, record_visit at 1. simpl.
  destruct (prune n); [done|]. rewrite walk_each_record; [done|].
  apply Forall_forall. intros; apply walk_record.
Qed.

Lemma elem_of_visited prune n m : m ∈ visited prune n ↔ reaches prune n m.
Proof.
  revert m. induction n as [n IH] using node_tree_ind; intros m.
  rewrite visited_unfold, elem_of_cons. rewrite Forall_forall in IH.
  assert (m ∈ concat (visited prune <$> children n) ↔
          ∃ c, c ∈ children n ∧ reaches prune c m) as E.
  { rewrite elem_of_concat_map. by split; intros (c & Hc & Hm); exists c; split; auto; apply IH. }
  split.
  - intros [->|Hm]; [constructor|]. destruct (prune n) eqn:Hp; [by apply not_elem_of_nil in Hm|].
    apply E in Hm as (c & ? & ?). by econstructor.
  - inversion 1 as [|? c ? Hp Hc Hm]; subst; [by left|]. right. rewrite Hp, E. eauto.
Qed.

(** a walk is the preorder traversal of the graph below its root: it
    visits the root first, then, unless the visitor pruned it, the subtrees of
    its children in declaration order, and so it visits exactly the nodes that
    can be reached without passing through a pruned one. *)
Theorem walk_is_preorder prune n m :
  Walk (record_visit prune) (Some n) (Some tt) [] =
    n :: (if prune n then [] else concat (visited prune <$> children n)) ∧
  (m ∈ Walk (record_visit prune) (Some n) (Some tt) [] ↔ reaches prune n m).
Proof. split; [apply visited_unfold | apply elem_of_visited]. Qed.

Lemma reaches_trans prune n m k : reaches prune n m → reaches prune m k → reaches prune n k.
Proof. induction 1; eauto using reaches. Qed.

(** The graph below a node is finite, so no node lies below its child. *)
Lemma below_acyclic n c : c ∈ children n → ¬ below c n.
Proof.
  revert c. induction n as [n IH] using node_tree_ind. rewrite Forall_forall in IH.
  intros c Hc Hr. inversion Hr as [|? c' ? _ Hc' Hr']; subst.
  - by apply (IH n Hc n Hc), reaches_self.
  - apply (IH c Hc c' Hc'). eapply reaches_trans; [exact Hr'|].
    by econstructor; [..|constructor].
Qed.
