(* ===== verification/ValidateRun.v ===== *)
(** * pipeline: validation of every directive in the loaded graph

    [validateDirectives] of [src/pipeline/validate.go]: one walk over the
    packages of the store that validates the directives of each node it meets
    and folds schema defaults into them.  [seen] is the visitor's map, keyed
    by node pointers; [folded] holds the directive lists [Validate] rewrote in
    place. *)

From S2P Require Import Prelude GoStrings Position Diag Meta Directive DirectiveLaws Node NodeInduction NodeWalk.

Local Open Scope string_scope.
Local Open Scope nat_scope.
Local Open Scope list_scope.

Record vstate := MkV {
  v_seen : gset pointer;
  v_folded : gmap pointer (list Directive);
  v_sink : Sink;
}.

(** ** What the graph holds and what the walk skips *)

(** The parts of a node that the walk enters: all but the methods of enums and
    aliases, the receiver of a method, the interface an embed was resolved to,
    and what a type reference holds outside the fields of its kind. *)
Definition entered (n c : Node) : Prop :=
  match n, c with
  | NEnum _, NMethod _ | NAlias _, NMethod _ | NMethod _, NTypeRef _ | NEmbed _, NInterface _ => False
  | NTypeRef r, _ => c ∈ typeref_children r
  | _, _ => True
  end.

(** [held n m]: [m] is [n] or is held by it, through the components of the
    nodes, along a way on which every part is entered. *)
Definition held : Node → Node → Prop := rtc (λ n c, c ∈ components n ∧ entered n c).

Lemma child_iff n c : c ∈ children n ↔ c ∈ components n ∧ entered n c.
Proof.
  split.
  - intros Hc. split; [by apply children_components|].
    destruct n; try (by destruct c); try exact Hc; destruct c; simpl in *; try done; set_solver.
  - intros [Hc He]. destruct n; simpl in *; try done; try (by destruct c);
      destruct c; simpl in He; try done; set_solver.
Qed.

Lemma held_below n m : held n m ↔ below n m.
Proof.
  split.
  - induction 1 as [|n c m Hc%child_iff _ IH]; [constructor|]. by econstructor.
  - induction 1 as [|n c m _ Hc%child_iff _ IH]; [constructor|]. by eapply rtc_l.
Qed.

Section Validation.
  Context `{MapOrder} (registry : Registry).

(** [if ds := n.Directives(); len(ds) > 0 { Validate(...) }] *)
Definition validate_node (n : Node) (st : vstate) : vstate :=
  let ds := node_Directives n in
  if 0 <? length ds then
    let '(ds', _, sk) := Validate (For "pipeline") (v_sink st) ds (node_Kind n) registry in
    MkV (v_seen st) (<[node_ref n := ds']> (v_folded st)) sk
  else st.

(** The closure [descend]: a visitor that always returns itself. *)
Definition descend (v : unit) (n : Node) (st : vstate) : vstate * option unit :=
  if decide (node_ref n ∈ v_seen st) then (st, None)
  else (validate_node n (MkV ({[node_ref n]} ∪ v_seen st) (v_folded st) (v_sink st)), Some tt).

Definition validateDirectives (packages : list Package) (sk : Sink) : vstate :=
  fold_left (λ st p, Walk descend (Some (NPackage p)) (Some tt) st) packages (MkV ∅ ∅ sk).

(** ** One walk from a state *)

(** What validating a list of nodes does to the sink. *)
Definition validate_all (l : list Node) (st : vstate) : vstate :=
  fold_left (λ st n, validate_node n st) l st.

Lemma validate_node_seen n st : v_seen (validate_node n st) = v_seen st.
Proof. unfold validate_node. split_matches; done. Qed.

(** The seen set plays no part in a validation. *)
Abbreviation effects st := (v_folded st, v_sink st).

Lemma validate_node_effects n st st' :
  effects st = effects st' → effects (validate_node n st) = effects (validate_node n st').
Proof. intros [= E1 E2]. unfold validate_node. rewrite E1, E2. split_matches; congruence. Qed.

Lemma validate_all_effects l st st' :
  effects st = effects st' → effects (validate_all l st) = effects (validate_all l st').
Proof.
  revert st st'. induction l as [|n l IH]; simpl; intros st st' E; [done|].
  by apply IH, validate_node_effects.
Qed.

(** The nodes a walk validates: below the root, each pointer once, none that
    was seen before, and their pointers are what the walk adds. *)
Record walked (roots : list Node) (st st' : vstate) (l : list Node) : Prop := {
  walked_effects : effects st' = effects (validate_all l st);
  walked_seen : v_seen st' = list_to_set ((λ n, node_ref n) <$> l) ∪ v_seen st;
  walked_nodup : NoDup ((λ n, node_ref n) <$> l);
  walked_fresh : Forall (λ n, node_ref n ∉ v_seen st) l;
  walked_below : Forall (λ n, ∃ r, r ∈ roots ∧ below r n) l;
}.

Lemma walked_nil st : walked [] st st [].
Proof. split; simpl; auto using NoDup_nil_2. set_solver. Qed.

Lemma walked_app r1 r2 st1 st2 st3 l1 l2 :
  walked r1 st1 st2 l1 → walked r2 st2 st3 l2 → walked (r1 ++ r2) st1 st3 (l1 ++ l2).
Proof.
  intros [A1 A2 A3 A4 A5] [B1 B2 B3 B4 B5]. split.
  - rewrite B1. unfold validate_all. rewrite fold_left_app. by apply validate_all_effects.
  - rewrite B2, A2, fmap_app, list_to_set_app_L. set_solver.
  - rewrite fmap_app. apply NoDup_app. split_and!; [done| |done].
    intros x Hx. rewrite list_elem_of_fmap. intros (n & -> & Hn).
    rewrite Forall_forall in B4. apply (B4 n Hn). rewrite A2. apply elem_of_union_l.
    by apply elem_of_list_to_set.
  - apply Forall_app. split; [done|]. eapply Forall_impl; [exact B4|]. intros n Hn.
    rewrite A2 in Hn. set_solver.
  - apply Forall_app. split.
    + eapply Forall_impl; [exact A5|]. intros n (r & ? & ?). exists r. set_solver.
    + eapply Forall_impl; [exact B5|]. intros n (r & ? & ?). exists r. set_solver.
Qed.

Lemma walk_walked n st : ∃ l, walked [n] st (walk_node descend n tt st) l.
Proof.
  revert st. induction n as [n IH] using node_tree_ind. intros st.
  rewrite walk_unfold. unfold visit_then, descend at 1. destruct (decide _) as [Hs|Hs].
  { exists []. destruct (walked_nil st). split; done. }
  set (st1 := validate_node n _).
  assert (∀ ch st, Forall (λ n, ∀ st, ∃ l, walked [n] st (walk_node descend n tt st) l) ch →
    ∃ l, walked ch st (walk_each (walk_node descend) ch tt st) l) as Hch.
  { induction ch as [|c ch IHc]; simpl; intros st' Hl; [exists []; apply walked_nil|].
    apply Forall_cons in Hl as [Hc Hl]. destruct (Hc st') as [l1 H1].
    destruct (IHc (walk_node descend c tt st') Hl) as [l2 H2]. exists (l1 ++ l2).
    apply (walked_app [c] ch _ _ _ _ _ H1 H2). }
  destruct (Hch (children n) st1 IH) as [l Hl]. exists (n :: l).
  assert (v_seen st1 = {[node_ref n]} ∪ v_seen st) as Es by apply validate_node_seen.
  destruct Hl as [B1 B2 B3 B4 B5]. rewrite Es in B2. setoid_rewrite Es in B4.
  split; simpl.
  - rewrite B1. apply validate_all_effects. by apply validate_node_effects.
  - rewrite B2. set_solver.
  - constructor; [|done]. rewrite list_elem_of_fmap. intros (m & E & Hm).
    rewrite Forall_forall in B4. apply (B4 m Hm). rewrite E. set_solver.
  - constructor; [done|]. eapply Forall_impl; [exact B4|]. intros m ?. set_solver.
  - constructor; [exists n; split; [set_solver|constructor]|].
    eapply Forall_impl; [exact B5|]. intros m (r & Hr & ?). exists n. split; [set_solver|].
    by econstructor.
Qed.

(** ** Nothing below the roots is missed *)

Section Coverage.
Context (U : Node → Prop) (HU : ∀ n m, U n → below n m → U m)
  (Hptr : ∀ n m, U n → U m → node_ref n = node_ref m → n = m).

(** Every seen node that is not one of the ancestors being walked has its
    whole subtree seen. *)
Definition settled (anc : gset pointer) (st : vstate) : Prop :=
  ∀ m, U m → node_ref m ∈ v_seen st → node_ref m ∉ anc →
       ∀ k, below m k → node_ref k ∈ v_seen st.

Lemma descend_settled n st anc :
  U n → (∀ k, below n k → node_ref k ∉ anc) → settled anc st →
  let st' := walk_node descend n tt st in
  v_seen st ⊆ v_seen st' ∧ settled anc st' ∧ (∀ k, below n k → node_ref k ∈ v_seen st').
Proof using HU Hptr.
  revert st anc. induction n as [n IH] using node_tree_ind. intros st anc Hn Hanc Hset.
  cbv zeta. rewrite walk_unfold. unfold visit_then, descend at 1 3 5.
  destruct (decide _) as [Hs|Hs].
  { split_and!; [done..|]. apply Hset; [done..|]. apply Hanc. constructor. }
  set (st1 := validate_node n _).
  assert (v_seen st1 = {[node_ref n]} ∪ v_seen st) as Es by apply validate_node_seen.
  assert (settled ({[node_ref n]} ∪ anc) st1) as Hset1.
  { intros m Hm Hms Hma k Hk. rewrite Es in *. apply elem_of_union_r.
    apply (Hset m); set_solver. }
  assert (∀ ch st2, (∀ c, c ∈ ch → c ∈ children n) → settled ({[node_ref n]} ∪ anc) st2 →
    let st' := walk_each (walk_node descend) ch tt st2 in
    v_seen st2 ⊆ v_seen st' ∧ settled ({[node_ref n]} ∪ anc) st' ∧
    (∀ c k, c ∈ ch → below c k → node_ref k ∈ v_seen st')) as Hch.
  { induction ch as [|c ch IHc]; simpl; intros st2 Hin Hs2; [split_and!; [done..|set_solver]|].
    rewrite Forall_forall in IH.
    assert (c ∈ children n) as Hc by (apply Hin; left).
    destruct (IH c Hc st2 ({[node_ref n]} ∪ anc)) as (S1 & S2 & S3); [| |done|].
    - eapply HU; [exact Hn|]. by econstructor; [..|constructor].
    - intros k Hk. assert (below n k) as Hnk by by econstructor.
      rewrite not_elem_of_union, not_elem_of_singleton. split; [|by apply Hanc].
      intros E. apply Hptr in E; [|by apply (HU n k)|done]. subst k. by eapply below_acyclic.
    - destruct (IHc (walk_node descend c tt st2)) as (T1 & T2 & T3); [set_solver|done|].
      split_and!; [set_solver|done|]. intros c' k [->|?]%elem_of_cons Hk; [|eauto].
      apply T1. eauto. }
  destruct (Hch (children n) st1) as (T1 & T2 & T3); [done..|].
  set (st' := walk_each _ _ _ _) in *.
  assert (∀ k, below n k → node_ref k ∈ v_seen st') as Hall.
  { intros k Hk. inversion Hk as [|? c ? _ Hc Hck]; subst; [|by eapply T3].
    apply T1. rewrite Es. set_solver. }
  split_and!; [set_solver| |done].
  intros m Hm Hms Hma k Hk. destruct (decide (node_ref m = node_ref n)) as [E|E].
  - apply Hptr in E; [|done..]. subst m. auto.
  - eapply T2; [exact Hm|done|set_solver|done].
Qed.
End Coverage.

(** The loop over the packages of the store. *)
Lemma validate_directives_walked packages sk :
  ∃ l, walked (NPackage <$> packages) (MkV ∅ ∅ sk) (validateDirectives packages sk) l.
Proof.
  unfold validateDirectives. generalize (MkV ∅ ∅ sk). induction packages as [|p ps IH]; intros st; simpl.
  - exists []. apply walked_nil.
  - destruct (walk_walked (NPackage p) st) as [l1 H1]. destruct (IH (walk_node descend (NPackage p) tt st))
      as [l2 H2]. exists (l1 ++ l2). apply (walked_app [_] _ _ _ _ _ _ H1 H2).
Qed.

(** A node pointer held by the packages stands for one node. *)
Definition pointers_unique (packages : list Package) : Prop :=
  ∀ p q n m, p ∈ packages → q ∈ packages → held (NPackage p) n → held (NPackage q) m →
             node_ref n = node_ref m → n = m.

Lemma validate_directives_covers packages sk p n :
  pointers_unique packages → p ∈ packages → below (NPackage p) n →
  node_ref n ∈ v_seen (validateDirectives packages sk).
Proof.
  intros Hu. set (U n := ∃ q, q ∈ packages ∧ below (NPackage q) n).
  assert (∀ n m, U n → below n m → U m) as HU.
  { intros a b (q & ? & ?) ?. exists q. split; [done|]. by eapply reaches_trans. }
  assert (∀ n m, U n → U m → node_ref n = node_ref m → n = m) as Hp.
  { intros a b (q & ? & ?%held_below) (q' & ? & ?%held_below) ?. by apply (Hu q q'). }
  unfold validateDirectives.
  assert (settled U ∅ (MkV ∅ ∅ sk)) as Hs by (intros m _ ?; set_solver).
  assert (∀ q, q ∈ packages → U (NPackage q)) as Hq.
  { intros q ?. exists q. split; [done|constructor]. }
  clearbody U. revert Hs Hq. generalize (MkV ∅ ∅ sk). clear Hu.
  assert (∀ ps st, settled U ∅ st → (∀ q, q ∈ ps → U (NPackage q)) →
    let st' := fold_left (λ st p, Walk descend (Some (NPackage p)) (Some tt) st) ps st in
    v_seen st ⊆ v_seen st' ∧
    ∀ p n, p ∈ ps → below (NPackage p) n → node_ref n ∈ v_seen st') as Hl.
  { induction ps as [|q ps IH]; intros st Hs Hq; simpl; [set_solver|].
    destruct (descend_settled U HU Hp (NPackage q) st ∅) as (S1 & S2 & S3);
      [apply Hq; left|set_solver|done|].
    destruct (IH _ S2) as [T1 T2]; [set_solver|]. split; [set_solver|].
    intros p' m [->|?]%elem_of_cons Hm; [|eauto]. apply T1. eauto. }
  intros st Hs Hq Hin Hb. by eapply (Hl packages st).
Qed.

(** ** The verdict *)

Definition conforming (n : Node) : Prop :=
  Forall (conforms registry (node_Kind n) (node_Directives n)) (node_Directives n).

(** What [Validate] leaves of a directive list. *)
Definition with_defaults (ds ds' : list Directive) : Prop :=
  Forall2 (λ d d', d' = set_args d (Args d ++ folded
    match schemas registry !! Name d with
    | Some s => drop (length (Args d)) (PositionalArgs s)
    | None => []
    end)) ds ds'.

Lemma diags_appended sk rs :
  discard sk = false →
  diags (fold_left Append rs sk) = diags sk ++ rs ∧ discard (fold_left Append rs sk) = false.
Proof.
  revert sk. induction rs as [|r rs IH]; simpl; intros sk Hd; [by rewrite app_nil_r|].
  destruct (IH (Append sk r)) as [H1 H2]; [by rewrite discard_Append|].
  by rewrite H1, H2, diags_Append, Hd, <- app_assoc.
Qed.

Lemma validate_node_spec n st :
  discard (v_sink st) = false →
  ∃ rs, diags (v_sink (validate_node n st)) = diags (v_sink st) ++ rs ∧
    (rs = [] ↔ conforming n) ∧ discard (v_sink (validate_node n st)) = false ∧
    Forall (λ x, d_severity x = Error ∧ d_plugin x = "pipeline") rs.
Proof.
  intros Hd. unfold validate_node, conforming, Validate.
  destruct (Nat.ltb_spec 0 (length (node_Directives n))) as [Hl|Hl].
  - destruct (validate_loop _ _ _ _ _ _ _) as [[ds' ok] sk'] eqn:E.
    apply validate_loop_spec in E as (_ & (rs & Ha & Hr & Hok) & Hc). simpl.
    red in Ha. subst sk'. destruct (diags_appended (v_sink st) rs Hd) as [-> ->].
    exists rs. split_and!; [done| |done|].
    + rewrite app_nil_l in Hc. naive_solver.
    + eapply Forall_impl; [exact Hr|]. intros x (d & _ & ? & ? & _). done.
  - exists []. rewrite app_nil_r. destruct (node_Directives n); [done|simpl in *; lia].
Qed.

Lemma validate_all_spec l st :
  discard (v_sink st) = false →
  ∃ rs, diags (v_sink (validate_all l st)) = diags (v_sink st) ++ rs ∧
    (rs = [] ↔ Forall conforming l) ∧
    Forall (λ x, d_severity x = Error ∧ d_plugin x = "pipeline") rs.
Proof.
  revert st. induction l as [|n l IH]; intros st Hd; simpl.
  { exists []. by rewrite app_nil_r. }
  destruct (validate_node_spec n st Hd) as (r1 & E1 & C1 & D1 & F1).
  destruct (IH (validate_node n st) D1) as (r2 & E2 & C2 & F2). exists (r1 ++ r2).
  split_and!; [by rewrite E2, E1, app_assoc| |by apply Forall_app].
  rewrite Forall_cons, <- C1, <- C2. split; [apply app_nil|]. by intros [-> ->].
Qed.

Lemma validate_all_folded l st n :
  NoDup ((λ n, node_ref n) <$> l) → n ∈ l → node_Directives n ≠ [] →
  ∃ ds', v_folded (validate_all l st) !! node_ref n = Some ds' ∧
         with_defaults (node_Directives n) ds'.
Proof.
  intros Hnd Hin Hne.
  assert (∀ l st, node_ref n ∉ (λ n, node_ref n) <$> l →
    v_folded (validate_all l st) !! node_ref n = v_folded st !! node_ref n) as Hkeep.
  { clear. induction l as [|m l IH]; simpl; intros st Hn; [done|].
    apply not_elem_of_cons in Hn as [Hne Hn]. rewrite IH by done. unfold validate_node.
    split_matches; [|done]. by rewrite lookup_insert_ne. }
  apply list_elem_of_split in Hin as (l1 & l2 & ->).
  rewrite fmap_app in Hnd. apply NoDup_app in Hnd as (_ & _ & [Hm _]%NoDup_cons).
  unfold validate_all. rewrite fold_left_app. simpl. fold (validate_all l1 st).
  fold (validate_all l2 (validate_node n (validate_all l1 st))). rewrite Hkeep by done.
  unfold validate_node, Validate.
  destruct (Nat.ltb_spec 0 (length (node_Directives n))) as [Hlt|Hlt];
    [|destruct (node_Directives n); simpl in *; [done|lia]].
  destruct (validate_loop _ _ _ _ _ _ _) as [[ds' ok] sk'] eqn:E.
  apply validate_loop_spec in E as ((ds & -> & Hf) & _). simpl. rewrite lookup_insert_eq. eauto.
Qed.

(** C20: validation of the loaded graph is complete over what the walk enters:
    with a recording sink and node pointers that each stand for one node, the
    walk from the packages of the store reports nothing exactly when every
    directive of every node held by them conforms to its schema; whatever it
    reports is an error of the pipeline; and each node that carries directives
    leaves with the schema defaults folded into them, once.  [held] follows
    every part of a node that [entered] admits, which leaves out the methods of
    enums and aliases (whose directives are indeed not validated, see
    [alias_method_directives_unvalidated]), receivers, resolved embeds, and the
    parts of a type reference that its kind does not use. *)
Theorem validation_covers_graph packages sk :
  discard sk = false → pointers_unique packages →
  let st := validateDirectives packages sk in
  (∃ rs, diags (v_sink st) = diags sk ++ rs ∧
     Forall (λ x, d_severity x = Error ∧ d_plugin x = "pipeline") rs ∧
     (rs = [] ↔ ∀ p n, p ∈ packages → held (NPackage p) n → conforming n)) ∧
  (∀ p n, p ∈ packages → held (NPackage p) n → node_Directives n ≠ [] →
     ∃ ds', v_folded st !! node_ref n = Some ds' ∧ with_defaults (node_Directives n) ds').
Proof.
  intros Hd Hu. cbv zeta. setoid_rewrite held_below.
  pose proof (validate_directives_covers packages sk) as Hcov.
  destruct (validate_directives_walked packages sk) as [l [[= W1 W1'] W2 W3 _ W5]].
  assert (∀ p n, p ∈ packages → below (NPackage p) n → n ∈ l) as Hin.
  { intros p n Hp Hn. pose proof (Hcov p n Hu Hp Hn) as Hs. rewrite W2 in Hs. simpl in Hs.
    apply elem_of_union in Hs as [Hs|?]; [|set_solver].
    apply elem_of_list_to_set, list_elem_of_fmap in Hs as (m & E & Hm).
    rewrite Forall_forall in W5. destruct (W5 m Hm) as (r & Hr & Hb).
    apply list_elem_of_fmap in Hr as (q & -> & Hq).
    by rewrite (Hu p q n m) by (by try apply held_below). }
  split.
  - destruct (validate_all_spec l (MkV ∅ ∅ sk) Hd) as (rs & E & Hc & Hf). simpl in E.
    exists rs. rewrite W1', E. split_and!; [done..|]. rewrite Hc, Forall_forall. split; [eauto|].
    intros Hall n Hn. rewrite Forall_forall in W5. destruct (W5 n Hn) as (r & Hr & Hb).
    apply list_elem_of_fmap in Hr as (q & -> & Hq). eauto.
  - intros p n Hp Hn Hne. rewrite W1. apply validate_all_folded; eauto.
Qed.

End Validation.

(** ** Examples *)

(** Distinct pointers along the walk make pointers unambiguous. *)
Lemma pointers_unique_check packages :
  NoDup ((λ n, node_ref n) <$> concat (visited (λ _, false) <$> (NPackage <$> packages))) →
  pointers_unique packages.
Proof.
  intros Hnd p q n m Hp Hq Hn%held_below Hm%held_below E. set (l := concat _) in Hnd.
  assert (∀ p n, p ∈ packages → below (NPackage p) n → n ∈ l) as Hin.
  { intros r k Hr Hk. apply elem_of_concat_map. exists (NPackage r).
    split; [by apply list_elem_of_fmap_2|]. by apply elem_of_visited. }
  apply (Hin p n Hp) in Hn. apply (Hin q m Hq) in Hm. clear -Hnd Hn Hm E.
  apply list_elem_of_lookup in Hn as [i Hi], Hm as [j Hj].
  assert (i = j) as ->; [|by simplify_eq].
  eapply (NoDup_lookup _ i j (node_ref n) Hnd); rewrite list_lookup_fmap; [by rewrite Hi|].
  by rewrite Hj, E.
Qed.

Definition demo_registry : Registry :=
  MkRegistry {["repo" := Builder.On (Builder.NewSchema "repo") [KindStruct]]} false.

(** A package with one annotated struct and, on a named type, a method with
    the same directive, which the schema allows on structs only. *)
Definition demo_package : Package :=
  Fixture.package 1 "m/p"
    [Fixture.struct 2 "m/p" "User" [Fixture.plain "repo"] [Fixture.method 3 "Get" []]] []
    [Fixture.alias 4 "m/p" "ID" [Fixture.method 5 "String" [Fixture.plain "repo"]]].

Lemma validation_covers_graph_witness :
  let st := validateDirectives demo_registry [demo_package] New in
  (∃ rs, diags (v_sink st) = [] ++ rs ∧
     Forall (λ x, d_severity x = Error ∧ d_plugin x = "pipeline") rs ∧
     (rs = [] ↔ ∀ p n, p ∈ [demo_package] → held (NPackage p) n → conforming demo_registry n)) ∧
  diags (v_sink st) = [].
Proof.
  split; [|reflexivity]. apply (validation_covers_graph demo_registry [demo_package] New).
  - reflexivity.
  - apply pointers_unique_check. apply (bool_decide_eq_true_1 _). vm_compute. reflexivity.
Defined.

(** The walk does not descend into the methods of aliases and enums, so a
    malformed directive there is not reported. *)
Theorem alias_method_directives_unvalidated :
  ∃ r p a m, a ∈ p_Aliases p ∧ m ∈ a_Methods a ∧ ¬ conforming r (NMethod m) ∧
    diags (v_sink (validateDirectives r [p] New)) = [].
Proof.
  exists demo_registry, demo_package, (Fixture.alias 4 "m/p" "ID"
    [Fixture.method 5 "String" [Fixture.plain "repo"]]), (Fixture.method 5 "String" [Fixture.plain "repo"]).
  split_and!; [by left..| |reflexivity].
  unfold conforming. intros [H _]%Forall_cons. unfold conforms in H. simpl in H.
  rewrite lookup_singleton_eq in H.
  destruct (c_kind _ _ _ _ H) as [E|E]; [done|]. by apply list_elem_of_singleton in E.
Qed.
