(* ===== verification/Rewire.v ===== *)
(** * node: owner back-pointers

    [RewireOwners] of [src/node/rewire.go]: the pass that restores the [Owner]
    pointers a decoded package has lost.  [owners] is the [Owner] field of
    every node, from the pointer of the child to the pointer of its owner.
    The theorem says that the pass is a function of the package's shape: after
    it every owned node points at the node that holds it, whatever the
    pointers were before, and nothing else changes. *)

From S2P Require Import Prelude Node NodeInduction.

Local Open Scope nat_scope.
Local Open Scope list_scope.

Abbreviation owners := (gmap pointer pointer).

(** [child.Owner = owner] *)
Definition set_owner (child owner : BaseNode) (o : owners) : owners :=
  <[ref child := ref owner]> o.

(** [for _, x := range l { ... }] *)
Definition for_each {A} (f : A → owners → owners) : list A → owners → owners :=
  fix go l o := match l with [] => o | x :: l => go l (f x o) end.

(** The nil guards of [rewireTypeRef] and [rewireConstraint]. *)
Definition if_some {A} (f : A → owners → owners) (x : option A) (o : owners) : owners :=
  match x with None => o | Some x => f x o end.

(** The second argument of the [x_under] functions is the node whose loop
    assigns the owner: one iteration of that loop. *)
Fixpoint rewireTypeRef (r : TypeRef) (o : owners) {struct r} : owners :=
  match t_TypeKind r with
  | TypeRefNamed => for_each rewireTypeRef (t_TypeArgs r) o
  | TypeRefPointer | TypeRefSlice | TypeRefArray => if_some rewireTypeRef (t_Elem r) o
  | TypeRefMap => if_some rewireTypeRef (t_MapValue r) (if_some rewireTypeRef (t_MapKey r) o)
  | TypeRefFunc =>
      for_each rewireTypeRef (t_FuncReturns r) (for_each rewireTypeRef (t_FuncParams r) o)
  | TypeRefAnonStruct =>
      for_each (λ e o, embed_types e (set_owner (em_base e) (t_base r) o)) (t_Embeds r)
        (for_each (λ f o, field_types f (set_owner (f_base f) (t_base r) o)) (t_Fields r) o)
  | TypeRefAnonInterface =>
      for_each (λ e o, embed_types e (set_owner (em_base e) (t_base r) o)) (t_Embeds r)
        (for_each (λ m o, rewireMethod m (set_owner (m_base m) (t_base r) o)) (t_Methods r) o)
  | TypeRefTypeParam | TypeRefOther _ => o
  end
with field_types (f : Field) (o : owners) {struct f} : owners := if_some rewireTypeRef (f_Type f) o
with embed_types (e : Embed) (o : owners) {struct e} : owners := if_some rewireTypeRef (em_Type e) o
with param_types (p : Param) (o : owners) {struct p} : owners := if_some rewireTypeRef (pa_Type p) o
with return_types (r : Return) (o : owners) {struct r} : owners := if_some rewireTypeRef (re_Type r) o
with rewireConstraint (c : Constraint) (o : owners) {struct c} : owners :=
  for_each rewireTypeRef (c_Embedded c) o
with typeparam_types (tp : TypeParam) (o : owners) {struct tp} : owners :=
  if_some rewireConstraint (tp_Constraint tp) o
with rewireMethod (m : Method) (o : owners) {struct m} : owners :=
  let o := for_each (λ tp o, typeparam_types tp (set_owner (tp_base tp) (m_base m) o)) (m_TypeParams m) o in
  let o := for_each (λ p o, param_types p (set_owner (pa_base p) (m_base m) o)) (m_Params m) o in
  let o := for_each (λ r o, return_types r (set_owner (re_base r) (m_base m) o)) (m_Returns m) o in
  if_some rewireTypeRef (m_Receiver m) o.

(** The loop over type parameters, the same in every declaration. *)
Definition rewire_typeparams (owner : BaseNode) : list TypeParam → owners → owners :=
  for_each (λ tp o, typeparam_types tp (set_owner (tp_base tp) owner o)).

Definition rewire_methods (owner : BaseNode) : list Method → owners → owners :=
  for_each (λ m o, rewireMethod m (set_owner (m_base m) owner o)).

Definition rewire_fields (owner : BaseNode) : list Field → owners → owners :=
  for_each (λ f o, field_types f (set_owner (f_base f) owner o)).

Fixpoint rewireInterface (i : Interface) (o : owners) {struct i} : owners :=
  let o := rewire_typeparams (i_base i) (i_TypeParams i) o in
  let o := rewire_fields (i_base i) (i_Fields i) o in
  let o := rewire_methods (i_base i) (i_Methods i) o in
  for_each (λ e o, rewire_projection e (embed_types e (set_owner (em_base e) (i_base i) o)))
    (i_Embeds i) o
with rewire_projection (e : Embed) (o : owners) {struct e} : owners :=
  if_some rewireInterface (em_Resolved e) o.

Definition rewireStruct (s : Struct) (o : owners) : owners :=
  let o := rewire_typeparams (s_base s) (s_TypeParams s) o in
  let o := rewire_fields (s_base s) (s_Fields s) o in
  let o := for_each (λ e o, embed_types e (set_owner (em_base e) (s_base s) o)) (s_Embeds s) o in
  rewire_methods (s_base s) (s_Methods s) o.

Definition rewireFunction (f : Function_) (o : owners) : owners :=
  let o := rewire_typeparams (fn_base f) (fn_TypeParams f) o in
  let o := for_each (λ p o, param_types p (set_owner (pa_base p) (fn_base f) o)) (fn_Params f) o in
  for_each (λ r o, return_types r (set_owner (re_base r) (fn_base f) o)) (fn_Returns f) o.

Definition rewireEnum (e : Enum) (o : owners) : owners :=
  let o := if_some rewireTypeRef (e_Underlying e) o in
  let o := for_each (λ v o, set_owner (ev_base v) (e_base e) o) (e_Variants e) o in
  rewire_methods (e_base e) (e_Methods e) o.

Definition rewireAlias (a : Alias) (o : owners) : owners :=
  let o := rewire_typeparams (a_base a) (a_TypeParams a) o in
  let o := if_some rewireTypeRef (a_Target a) o in
  rewire_methods (a_base a) (a_Methods a) o.

(** One iteration of the loop over the files. *)
Definition rewire_file (f : File) (o : owners) : owners :=
  for_each (λ i o, set_owner (im_base i) (fi_base f) o) (fi_Imports f) o.

Definition RewireOwners (p : option Package) (o : owners) : owners :=
  match p with
  | None => o
  | Some p =>
      let o := for_each (λ f o, rewire_file f (set_owner (fi_base f) (p_base p) o)) (p_Files p) o in
      let o := for_each (λ i o, set_owner (im_base i) (p_base p) o) (p_Imports p) o in
      let o := for_each rewireStruct (p_Structs p) o in
      let o := for_each rewireInterface (p_Interfaces p) o in
      let o := for_each rewireFunction (p_Functions p) o in
      let o := for_each rewireEnum (p_Enums p) o in
      let o := for_each rewireAlias (p_Aliases p) o in
      let o := for_each (λ v o, if_some rewireTypeRef (v_Type v) o) (p_Variables p) o in
      for_each (λ c o, if_some rewireTypeRef (k_Type c) o) (p_Constants p) o
  end.

(** ** The pass as one traversal *)

(** The nodes the pass goes to from a node, in its order. *)
Definition holds (n : Node) : list Node :=
  match n with
  | NPackage p =>
      (NFile <$> p_Files p) ++ (NImport <$> p_Imports p) ++ (NStruct <$> p_Structs p)
      ++ (NInterface <$> p_Interfaces p) ++ (NFunction <$> p_Functions p) ++ (NEnum <$> p_Enums p)
      ++ (NAlias <$> p_Aliases p) ++ (NVariable <$> p_Variables p) ++ (NConstant <$> p_Constants p)
  | NFile f => NImport <$> fi_Imports f
  | NStruct s =>
      (NTypeParam <$> s_TypeParams s) ++ (NField <$> s_Fields s) ++ (NEmbed <$> s_Embeds s)
      ++ (NMethod <$> s_Methods s)
  | NInterface i =>
      (NTypeParam <$> i_TypeParams i) ++ (NField <$> i_Fields i) ++ (NMethod <$> i_Methods i)
      ++ (i_Embeds i ≫= λ e, NEmbed e :: (NInterface <$> some_list (em_Resolved e)))
  | NMethod m =>
      (NTypeParam <$> m_TypeParams m) ++ (NParam <$> m_Params m) ++ (NReturn <$> m_Returns m)
      ++ (NTypeRef <$> some_list (m_Receiver m))
  | NFunction f =>
      (NTypeParam <$> fn_TypeParams f) ++ (NParam <$> fn_Params f) ++ (NReturn <$> fn_Returns f)
  | NEnum e =>
      (NTypeRef <$> some_list (e_Underlying e)) ++ (NEnumVariant <$> e_Variants e)
      ++ (NMethod <$> e_Methods e)
  | NAlias a =>
      (NTypeParam <$> a_TypeParams a) ++ (NTypeRef <$> some_list (a_Target a))
      ++ (NMethod <$> a_Methods a)
  | NField f => NTypeRef <$> some_list (f_Type f)
  | NEmbed e => NTypeRef <$> some_list (em_Type e)
  | NParam p => NTypeRef <$> some_list (pa_Type p)
  | NReturn r => NTypeRef <$> some_list (re_Type r)
  | NTypeParam tp => NTypeRef <$> (some_list (tp_Constraint tp) ≫= c_Embedded)
  | NVariable v => NTypeRef <$> some_list (v_Type v)
  | NConstant c => NTypeRef <$> some_list (k_Type c)
  | NTypeRef r =>
      match t_TypeKind r with
      | TypeRefNamed => NTypeRef <$> t_TypeArgs r
      | TypeRefPointer | TypeRefSlice | TypeRefArray => NTypeRef <$> some_list (t_Elem r)
      | TypeRefMap => NTypeRef <$> (some_list (t_MapKey r) ++ some_list (t_MapValue r))
      | TypeRefFunc => NTypeRef <$> (t_FuncParams r ++ t_FuncReturns r)
      | TypeRefAnonStruct => (NField <$> t_Fields r) ++ (NEmbed <$> t_Embeds r)
      | TypeRefAnonInterface => (NMethod <$> t_Methods r) ++ (NEmbed <$> t_Embeds r)
      | TypeRefTypeParam | TypeRefOther _ => []
      end
  | NImport _ | NEnumVariant _ => []
  end.

(** The kinds with an [Owner] field. *)
Definition owned (n : Node) : bool :=
  match n with
  | NFile _ | NImport _ | NTypeParam _ | NField _ | NEmbed _ | NMethod _ | NParam _ | NReturn _
  | NEnumVariant _ => true
  | _ => false
  end.

Definition rewire_node (n : Node) : owners → owners :=
  match n with
  | NPackage p => RewireOwners (Some p) | NFile f => rewire_file f | NStruct s => rewireStruct s
  | NInterface i => rewireInterface i | NMethod m => rewireMethod m
  | NFunction f => rewireFunction f | NEnum e => rewireEnum e | NAlias a => rewireAlias a
  | NField f => field_types f | NEmbed e => embed_types e | NParam p => param_types p
  | NReturn r => return_types r | NTypeParam tp => typeparam_types tp
  | NVariable v => if_some rewireTypeRef (v_Type v)
  | NConstant c => if_some rewireTypeRef (k_Type c)
  | NTypeRef r => rewireTypeRef r
  | NImport _ | NEnumVariant _ => λ o, o
  end.

(** Assign the owner where the kind has one, then go below. *)
Definition take_under (n c : Node) (o : owners) : owners :=
  rewire_node c (if owned c then set_owner (node_base c) (node_base n) o else o).

Lemma for_each_app {A} (f : A → owners → owners) l k o :
  for_each f (l ++ k) o = for_each f k (for_each f l o).
Proof. revert o. induction l as [|x l IH]; simpl; intros o; [done|]. apply IH. Qed.

Lemma for_each_map {A B} (f : B → owners → owners) (g : A → B) l o :
  for_each f (g <$> l) o = for_each (λ x, f (g x)) l o.
Proof. revert o. induction l as [|x l IH]; simpl; intros o; [done|]. apply IH. Qed.

Lemma for_each_some {A} (f : A → owners → owners) x o : for_each f (some_list x) o = if_some f x o.
Proof. by destruct x. Qed.

Lemma for_each_bind {A B} (f : B → owners → owners) (g : A → list B) l o :
  for_each f (l ≫= g) o = for_each (λ x, for_each f (g x)) l o.
Proof. revert o. induction l as [|x l IH]; simpl; intros o; [done|]. rewrite for_each_app. apply IH. Qed.

Lemma for_each_ext {A} (f g : A → owners → owners) l o :
  (∀ x o, f x o = g x o) → for_each f l o = for_each g l o.
Proof. intros E. revert o. induction l as [|x l IH]; simpl; intros o; [done|]. by rewrite E, IH. Qed.

Lemma rewire_unfold n o : rewire_node n o = for_each (take_under n) (holds n) o.
Proof.
  assert (∀ n c o, if_some rewireConstraint c o =
    for_each (take_under n) (NTypeRef <$> (some_list c ≫= c_Embedded)) o) as Hc.
  { intros m [[raw es]|] o'; simpl; [|done]. by rewrite app_nil_r, for_each_map. }
  destruct n as [[]|[]|[]|[]|i|[]|[]|[]|[]|[]|[]|[]|[]|[]|[? []]|[]|[]|[]]; cbn [holds rewire_node];
    try (unfold RewireOwners, rewire_file, rewireStruct, rewireFunction, rewireEnum, rewireAlias,
      rewire_typeparams, rewire_methods, rewire_fields; simpl;
      rewrite <- ?Hc, ?fmap_app, ?for_each_app, ?for_each_map, ?for_each_some; done).
  destruct i as [b n pk fs ms es tps]; simpl.
  rewrite ?for_each_app, ?for_each_map, for_each_bind. unfold rewire_typeparams, rewire_fields, rewire_methods.
  apply for_each_ext. intros [b' t r] o'. simpl. by rewrite for_each_map, for_each_some.
Qed.

(** ** What the pass writes *)

Lemma holds_within n c : c ∈ holds n → within n c.
Proof.
  intros Hc. assert (c ∈ components n ∨ ∃ e, e ∈ components n ∧ c ∈ components e) as [H|(e & He & H)].
  - revert Hc. destruct n as [|[]|[]|[]|i|[]|[]|[]|[]|[]|[]|[]|[]|[]|[? []]|[]|[]|[]]; simpl;
      unfold typeref_components; simpl; repeat setoid_rewrite fmap_app; repeat setoid_rewrite elem_of_app;
      first [tauto | by intros ?%not_elem_of_nil | idtac].
    rewrite list_elem_of_bind. intros [?|[?|[?|(e & Hc & He)]]]; [tauto..|].
    apply elem_of_cons in Hc as [->|Hc]; [left; right; right; right; by apply list_elem_of_fmap_2|].
    right. exists (NEmbed e). split; [right; right; right; by apply list_elem_of_fmap_2|].
    simpl. apply elem_of_app. by right.
  - by apply tc_once.
  - eapply tc_l; [exact He|]. by apply tc_once.
Qed.

(** The nodes the pass reaches from a root. *)
Definition rewired : Node → Node → Prop := rtc (λ n c, c ∈ holds n).

(** The assignments the pass makes below a node, in order. *)
Definition assign (es : list (pointer * pointer)) (o : owners) : owners :=
  fold_left (λ o e, <[e.1 := e.2]> o) es o.

Lemma rewire_assigns n :
  ∃ es, (∀ o, rewire_node n o = assign es o) ∧
    ∀ x y, (x, y) ∈ es ↔
      ∃ m c, rewired n m ∧ c ∈ holds m ∧ owned c = true ∧ x = node_ref c ∧ y = node_ref m.
Proof.
  induction n as [n IH] using (node_component_ind holds holds_within).
  set (Q := λ l es, (∀ o, for_each (take_under n) l o = assign es o) ∧
    ∀ x y, (x, y) ∈ es ↔ ∃ c, c ∈ l ∧ ((owned c = true ∧ x = node_ref c ∧ y = node_ref n) ∨
      ∃ m d, rewired c m ∧ d ∈ holds m ∧ owned d = true ∧ x = node_ref d ∧ y = node_ref m)).
  assert (∃ es, Q (holds n) es) as (es & He & Hin).
  { induction IH as [|c l (ec & Hec & Hcin) _ (el & Hel & Hlin)]; [exists []; split; [done|]|].
    { intros x y. split; [by intros ?%not_elem_of_nil|]. by intros (c & ?%not_elem_of_nil & _). }
    exists ((if owned c then [(node_ref c, node_ref n)] else []) ++ ec ++ el). split.
    - intros o. simpl. rewrite Hel. unfold take_under at 1. rewrite Hec. unfold assign.
      rewrite !fold_left_app. by destruct (owned c).
    - intros x y. rewrite !elem_of_app, Hcin, Hlin.
      assert ((x, y) ∈ (if owned c then [(node_ref c, node_ref n)] else []) ↔
        owned c = true ∧ x = node_ref c ∧ y = node_ref n) as ->.
      { destruct (owned c); rewrite ?list_elem_of_singleton, ?elem_of_nil; intuition congruence. }
      setoid_rewrite elem_of_cons. naive_solver. }
  exists es. split; [intros o; by rewrite rewire_unfold|]. intros x y. rewrite Hin. split.
  - intros (c & Hc & [(Ho & -> & ->)|(m & d & Hm & ?)]); [exists n, c; split; [constructor|done]|].
    exists m, d. split; [by eapply rtc_l|done].
  - intros (m & c & Hm & Hc & Ho & E1 & E2). apply rtc_inv in Hm as [<-|(d & Hd & Hm)]; [by exists c; auto|].
    exists d. split; [done|]. right. by exists m, c.
Qed.

Lemma assign_lookup_None es o x : (∀ y, (x, y) ∉ es) → assign es o !! x = o !! x.
Proof.
  revert o. induction es as [|[a b] es IH]; simpl; intros o Hx; [done|].
  rewrite IH by set_solver. apply lookup_insert_ne. intros ->. apply (Hx b). by left.
Qed.

Lemma assign_lookup_Some es x :
  (∃ y, (x, y) ∈ es) → ∃ y, (x, y) ∈ es ∧ ∀ o, assign es o !! x = Some y.
Proof.
  induction es as [|[a b] es IH]; simpl; intros (y & Hy); [by apply not_elem_of_nil in Hy|].
  destruct (filter (λ e, e.1 = x) es) as [|e l] eqn:Ef.
  - assert (∀ y, (x, y) ∉ es) as Hx.
    { intros z Hz. apply (not_elem_of_nil (x, z)). rewrite <- Ef. by apply list_elem_of_filter. }
    apply elem_of_cons in Hy as [[= -> ->]|Hy]; [|by apply Hx in Hy]. exists b. split; [by left|].
    intros o. rewrite assign_lookup_None by done. apply lookup_insert_eq.
  - assert (e ∈ filter (λ e, e.1 = x) es) as [E He]%list_elem_of_filter by (rewrite Ef; left).
    destruct e as [? z]; simpl in E; subst. destruct IH as (w & ? & Hw); [by exists z|].
    exists w. split; [by right|]. intros o. apply Hw.
Qed.

(** Every owned node the pass reaches is held by one node. *)
Definition single_holder (p : Package) : Prop :=
  ∀ n m c d, rewired (NPackage p) n → rewired (NPackage p) m → c ∈ holds n → d ∈ holds m →
    owned c = true → owned d = true → node_ref c = node_ref d → node_ref n = node_ref m.

(** rewiring restores the owner pointers of a decoded package: when no
    node is shared between two holders, after [RewireOwners] every node with
    an owner field that the pass reaches points at the node that holds it,
    whatever the pointers were before; the pointers of every other node are
    left alone; and a second pass changes nothing. *)
Theorem rewire_restores_owners p o :
  single_holder p →
  let o' := RewireOwners (Some p) o in
  (∀ n c, rewired (NPackage p) n → c ∈ holds n → owned c = true →
     o' !! node_ref c = Some (node_ref n)) ∧
  (∀ x, (∀ n c, rewired (NPackage p) n → c ∈ holds n → owned c = true → x ≠ node_ref c) →
     o' !! x = o !! x) ∧
  RewireOwners (Some p) o' = o'.
Proof.
  intros Hs. cbv zeta. change (RewireOwners (Some p)) with (rewire_node (NPackage p)).
  destruct (rewire_assigns (NPackage p)) as (es & He & Hin). rewrite !He. split_and!.
  - intros n c Hn Hc Ho. destruct (assign_lookup_Some es (node_ref c)) as (y & Hy & ->).
    { exists (node_ref n). apply Hin. by exists n, c. }
    apply Hin in Hy as (m & d & Hm & Hd & Hod & E & ->). f_equal. symmetry. by apply (Hs n m c d).
  - intros x Hx. apply assign_lookup_None. intros y (m & d & ? & ? & ? & -> & _)%Hin.
    by apply (Hx m d).
  - apply map_eq. intros x. destruct (filter (λ e, e.1 = x) es) as [|[a b] l] eqn:Ef.
    + apply assign_lookup_None. intros z Hz. apply (not_elem_of_nil (x, z)). rewrite <- Ef.
      by apply list_elem_of_filter.
    + assert ((a, b) ∈ filter (λ e, e.1 = x) es) as [E Hb]%list_elem_of_filter by (rewrite Ef; left).
      simpl in E. subst a. destruct (assign_lookup_Some es x) as (y & _ & Hy); [by exists b|].
      by rewrite !Hy.
Qed.

Definition demo_method : Method := Fixture.method 3 "Get" [].
Definition demo_struct : Struct := Fixture.struct 2 "m/p" "User" [] [demo_method].
Definition demo_pkg : Package := Fixture.package 1 "m/p" [demo_struct] [] [].

Lemma rewire_restores_owners_witness :
  single_holder demo_pkg ∧
  RewireOwners (Some demo_pkg) ∅ !! 3%positive = Some 2%positive.
Proof.
  assert (single_holder demo_pkg) as Hs.
  { assert (∀ n, rewired (NPackage demo_pkg) n →
      n = NPackage demo_pkg ∨ n = NStruct demo_struct ∨ n = NMethod demo_method) as Hr.
    { apply rtc_ind_r; [by left|]. intros n c _ Hc IH. destruct IH as [-> | [-> | ->]]; simpl in Hc; apply list_elem_of_In in Hc; simpl in Hc; intuition. }
    intros n m c d Hn Hm Hc Hd Hoc Hod E.
    apply Hr in Hn as [-> | [-> | ->]], Hm as [-> | [-> | ->]]; try done;
      apply list_elem_of_In in Hc, Hd; simpl in Hc, Hd; intuition (subst; done). }
  split; [exact Hs|].
  apply (rewire_restores_owners demo_pkg ∅ Hs) with (n := NStruct demo_struct) (c := NMethod demo_method).
  - apply rtc_once. by left.
  - by left.
  - reflexivity.
Defined.
