(* ===== verification/MethodSet.v ===== *)
(** * node: the method set of an interface

    [MethodSet] and [IsConstraint] of [src/node/method_set.go]: the walk over
    embedded interfaces that collects every method an interface has, skipping
    names it has seen, attributing each method to a top-level embed and
    reporting each embed it could not follow.

    An [InterfaceResolver] is a callback; it may have effects of its own (the
    store's records what it read), so it runs on a state [S].  The recursion
    follows pointers through the resolver and is not structural: [collect]
    takes fuel and is [None] when it runs out.  The recursion never enters an
    interface twice on one path, so the number of interfaces is enough fuel
    ([collect_terminates]). *)

From S2P Require Import Prelude GoStrings Node NodeInduction NodeQueries.

Local Open Scope string_scope.
Local Open Scope nat_scope.
Local Open Scope list_scope.

Inductive MethodSetReason :=
| ReasonUnresolved | ReasonNonInterface | ReasonCyclic | ReasonGeneric | ReasonOther (n : Z).

Definition MethodSetReason_String (r : MethodSetReason) : string :=
  match r with
  | ReasonUnresolved => "not loaded by this run"
  | ReasonNonInterface => "resolves to a declaration that is not an interface"
  | ReasonCyclic => "embed cycle"
  | ReasonGeneric => "parameterised embed"
  | ReasonOther _ => "method_set_reason(?)"
  end.

Record MethodSetIssue := MkIssue { is_Embed : Embed; is_Reason : MethodSetReason }.
Record MethodSetEntry := MkMEntry { me_Method : Method; me_From : option Embed }.
Record MethodSetResult := MkResult {
  ms_Methods : list Method;
  ms_Entries : list MethodSetEntry;
  ms_Issues : list MethodSetIssue;
}.

Definition empty_result : MethodSetResult := MkResult [] [] [].

Definition OK (r : MethodSetResult) : bool := length (ms_Issues r) =? 0.

Definition ByName (r : MethodSetResult) (name : string) : option Method :=
  by_name m_Name (ms_Methods r) name.

Definition From (r : MethodSetResult) (name : string) : option Embed :=
  match by_name (λ e, m_Name (me_Method e)) (ms_Entries r) name with
  | Some e => me_From e
  | None => None
  end.

Section Collect.
  Context {S : Type}.

(** The two results of a resolver, and its effect. *)
Abbreviation InterfaceResolver := (option (TypeRef → S → option Interface * bool * S)).

Context (resolve : InterfaceResolver).

(** [seen], [*out] and the state of the resolver. *)
Record cstate := MkC { c_seen : gset string; c_out : MethodSetResult; c_env : S }.

Definition add_issue (e : Embed) (r : MethodSetReason) (st : cstate) : cstate :=
  let o := c_out st in
  MkC (c_seen st) (MkResult (ms_Methods o) (ms_Entries o) (ms_Issues o ++ [MkIssue e r])) (c_env st).

(** One iteration of the method loop. *)
Definition take_method (from : option Embed) (st : cstate) (m : Method) : cstate :=
  if String.eqb (m_Name m) "" then st
  else if decide (m_Name m ∈ c_seen st) then st
  else
    let o := c_out st in
    MkC ({[m_Name m]} ∪ c_seen st)
      (MkResult (ms_Methods o ++ [m]) (ms_Entries o ++ [MkMEntry m from]) (ms_Issues o)) (c_env st).

(** What the resolver, and failing it the embed's projection, answers. *)
Definition lookup_embed (e : Embed) (t : TypeRef) (s : S) : option Interface * bool * S :=
  let '(embedded, found, s) :=
    match resolve with Some f => f t s | None => (None, false, s) end in
  match em_Resolved e with
  | Some r => if found then (embedded, found, s) else (Some r, true, s)
  | None => (embedded, found, s)
  end.

(** One iteration of the embed loop; [go] is the recursive call. *)
Definition take_embed (visiting : gset pointer) (from : option Embed)
    (go : Interface → option Embed → cstate → option cstate) (st : cstate) (e : Embed)
    : option cstate :=
  match em_Type e with
  | None => Some st
  | Some t =>
      if negb (MayDenoteInterface (Some t)) then Some st
      else if 0 <? length (t_TypeArgs t) then Some (add_issue e ReasonGeneric st)
      else
        let '(embedded, found, s) := lookup_embed e t (c_env st) in
        let st := MkC (c_seen st) (c_out st) s in
        match embedded with
        | None => Some (add_issue e (if found then ReasonNonInterface else ReasonUnresolved) st)
        | Some i =>
            if decide (ref (i_base i) ∈ visiting) then Some (add_issue e ReasonCyclic st)
            else go i (match from with Some f => Some f | None => Some e end) st
        end
  end.

(** The loop; [None] is running out of fuel. *)
Fixpoint take_embeds (step : cstate → Embed → option cstate) (es : list Embed) (st : cstate)
    : option cstate :=
  match es with
  | [] => Some st
  | e :: es => match step st e with None => None | Some st => take_embeds step es st end
  end.

Fixpoint collect (fuel : nat) (visiting : gset pointer) (i : Interface) (from : option Embed)
    (st : cstate) : option cstate :=
  match fuel with
  | O => None
  | Datatypes.S fuel =>
      let visiting := {[ref (i_base i)]} ∪ visiting in
      let st := fold_left (take_method from) (i_Methods i) st in
      take_embeds (take_embed visiting from (collect fuel visiting)) (i_Embeds i) st
  end.

Definition MethodSet (fuel : nat) (i : option Interface) (s : S) : option (MethodSetResult * S) :=
  match i with
  | None => Some (empty_result, s)
  | Some i =>
      match collect fuel ∅ i None (MkC ∅ empty_result s) with
      | None => None
      | Some st => Some (c_out st, c_env st)
      end
  end.

Definition IsConstraint (i : option Interface) : bool :=
  match i with
  | None => false
  | Some i =>
      if 0 <? length (i_Methods i) then false
      else List.existsb (λ e, match em_Type e with
                              | None => false
                              | Some t => negb (MayDenoteInterface (Some t))
                              end) (i_Embeds i)
  end.

(** ** Termination *)

(** A list of interfaces that contains whatever an embed of one of them can
    lead to. *)
Definition closed (known : list Interface) : Prop :=
  ∀ i e t s j, i ∈ known → e ∈ i_Embeds i → em_Type e = Some t →
    (lookup_embed e t s).1.1 = Some j → j ∈ known.

Abbreviation pointers known := (list_to_set ((λ i, ref (i_base i)) <$> known) : gset pointer).

Lemma collect_terminates known fuel visiting i from st :
  closed known → i ∈ known → ref (i_base i) ∉ visiting →
  size (pointers known ∖ visiting) ≤ fuel →
  is_Some (collect fuel visiting i from st).
Proof.
  intros Hcl. revert visiting i from st. induction fuel as [|fuel IH]; intros V i from st Hi Hv Hsz.
  - exfalso. assert (ref (i_base i) ∈ pointers known ∖ V) as Hin.
    { apply elem_of_difference. split; [|done]. apply elem_of_list_to_set. apply list_elem_of_fmap. by exists i. }
    assert (size (pointers known ∖ V) = 0) as E by lia. apply size_empty_inv in E. set_solver.
  - simpl. set (V' := {[ref (i_base i)]} ∪ V).
    assert (∀ es st, (∀ e, e ∈ es → e ∈ i_Embeds i) →
      is_Some (take_embeds (take_embed V' from (collect fuel V')) es st)) as Hes.
    { induction es as [|e es IHe]; simpl; intros st' Hin; [by eexists|].
      assert (is_Some (take_embed V' from (collect fuel V') st' e)) as [st'' ->]; [|apply IHe; set_solver].
      unfold take_embed. destruct (em_Type e) as [t|] eqn:Ht; [|by eexists].
      destruct (MayDenoteInterface (Some t)); simpl; [|by eexists].
      destruct (0 <? length (t_TypeArgs t)); [by eexists|].
      destruct (lookup_embed e t (c_env st')) as [[[j|] found] s] eqn:El; [|by eexists].
      destruct (decide (ref (i_base j) ∈ V')); [by eexists|]. apply IH; [|done|].
      - eapply (Hcl i e t (c_env st') j Hi); [apply Hin; left|done|by rewrite El].
      - assert (pointers known ∖ V' ⊂ pointers known ∖ V) as Hlt%subset_size; [|lia].
        split; [unfold V'; set_solver|]. intros Hsub.
        assert (ref (i_base i) ∈ pointers known ∖ V') as ?; [|unfold V' in *; set_solver].
        apply Hsub, elem_of_difference. split; [|done]. apply elem_of_list_to_set.
        apply list_elem_of_fmap. by exists i. }
    by apply Hes.
Qed.

End Collect.
