(* ===== verification/MethodSetLaws.v ===== *)
(** * node: what a method set contains

    The specification of [MethodSet] over the graph of embeds: an interface
    leads to another when one of its embeds resolves to it.  The theorems say
    that the method set has exactly the names declared by the interfaces that
    can be reached, each once, that declared methods win over embedded ones
    and come first, the embeds following in their order,
    and that the result is reported complete exactly when every embed below
    resolves and no embedding is circular. *)

From S2P Require Import Prelude GoStrings Node NodeInduction NodeQueries MethodSet.

Local Open Scope string_scope.
Local Open Scope nat_scope.
Local Open Scope list_scope.

Lemma size_list_to_set_le (l : list pointer) : size (list_to_set l : gset pointer) ≤ length l.
Proof.
  induction l as [|x l IH]; simpl; [done|].
  rewrite size_union_alt, size_singleton.
  pose proof (subseteq_size (list_to_set l ∖ {[x]} : gset pointer) (list_to_set l)) as H.
  specialize (H ltac:(set_solver)). lia.
Qed.

Section Laws.
Context {S : Type} (resolve : option (TypeRef → S → option Interface * bool * S)) (s0 : S).

(** What an embed contributes. *)
Inductive verdict := Skipped | Fault (r : MethodSetReason) | Target (i : Interface).

Definition judge (e : Embed) : verdict :=
  match em_Type e with
  | None => Skipped
  | Some t =>
      if negb (MayDenoteInterface (Some t)) then Skipped
      else if 0 <? length (t_TypeArgs t) then Fault ReasonGeneric
      else match (lookup_embed resolve e t s0).1 with
           | (Some i, _) => Target i
           | (None, true) => Fault ReasonNonInterface
           | (None, false) => Fault ReasonUnresolved
           end
  end.

Abbreviation iref i := (ref (i_base i)).

Definition leads (i j : Interface) : Prop := ∃ e, e ∈ i_Embeds i ∧ judge e = Target j.

(** Simple paths that avoid [V]; [V'] is what was passed before [j]. *)
Inductive simple : gset pointer → Interface → gset pointer → Interface → Prop :=
| simple_here V i : iref i ∉ V → simple V i V i
| simple_step V i k V' j :
    iref i ∉ V → leads i k → simple ({[iref i]} ∪ V) k V' j → simple V i V' j.

Definition names_of (ms : list Method) (x : string) : Prop :=
  x ≠ "" ∧ x ∈ m_Name <$> ms.

(** An embed followed from a path [V] without an issue. *)
Definition followed (V : gset pointer) (e : Embed) : Prop :=
  judge e = Skipped ∨ ∃ j, judge e = Target j ∧ iref j ∉ V.

(** ** How the state grows *)

Record wf (st : cstate (S := S)) : Prop := {
  wf_seen : ∀ x, x ∈ c_seen st ↔ x ∈ m_Name <$> ms_Methods (c_out st);
  wf_nodup : NoDup (m_Name <$> ms_Methods (c_out st));
  wf_entries : ms_Methods (c_out st) = me_Method <$> ms_Entries (c_out st);
  wf_named : "" ∉ c_seen st;
}.

(** From [st] to [st'] the names [D] were seen, the new entries satisfy
    [F], and no issue was added exactly when [G]. *)
Record grown (st st' : cstate) (D : string → Prop) (F : MethodSetEntry → Prop) (G : Prop) : Prop := {
  g_out : ∃ new iss,
    c_out st' = MkResult (ms_Methods (c_out st) ++ (me_Method <$> new))
                  (ms_Entries (c_out st) ++ new) (ms_Issues (c_out st) ++ iss) ∧
    Forall F new ∧ (iss = [] ↔ G);
  g_seen : ∀ x, x ∈ c_seen st' ↔ x ∈ c_seen st ∨ D x;
  g_wf : wf st → wf st';
}.

Lemma grown_same st s : grown st (MkC (c_seen st) (c_out st) s) (λ _, False) (λ _, False) True.
Proof.
  split; simpl; [exists [], []; simpl; rewrite !app_nil_r; by destruct (c_out st) | tauto|].
  by intros [].
Qed.

Lemma grown_weaken st st' (D D' : string → Prop) (F F' : MethodSetEntry → Prop) (G G' : Prop) :
  grown st st' D F G → (∀ x, D x ↔ D' x) → (∀ e, F e → F' e) → (G ↔ G') → grown st st' D' F' G'.
Proof.
  intros [(new & iss & E & HF & HG) Hs Hw] HD HF' HG'. split; [|by setoid_rewrite <- HD|done].
  exists new, iss. split_and!; [done| |by rewrite HG]. by eapply Forall_impl.
Qed.

Lemma grown_trans st1 st2 st3 D1 D2 F G1 G2 :
  grown st1 st2 D1 F G1 → grown st2 st3 D2 F G2 →
  grown st1 st3 (λ x, D1 x ∨ D2 x) F (G1 ∧ G2).
Proof.
  intros [(n1 & i1 & E1 & F1 & H1) S1 W1] [(n2 & i2 & E2 & F2 & H2) S2 W2]. split.
  - exists (n1 ++ n2), (i1 ++ i2). rewrite E2, E1; simpl. rewrite fmap_app, !app_assoc.
    split_and!; [done|by apply Forall_app|]. rewrite <- H1, <- H2. split; [apply app_nil|].
    by intros [-> ->].
  - intros x. rewrite S2, S1. tauto.
  - auto.
Qed.

Lemma grown_issue st e r : grown st (add_issue e r st) (λ _, False) (λ _, False) False.
Proof.
  split; simpl; [exists [], [MkIssue e r]; simpl; rewrite !app_nil_r; done | tauto|].
  by intros [].
Qed.

Lemma grown_method from st m :
  grown st (take_method from st m) (λ x, x ≠ "" ∧ x = m_Name m)
    (λ en, me_Method en = m ∧ me_From en = from) True.
Proof.
  unfold take_method. destruct (String.eqb_spec (m_Name m) "") as [E|E].
  { destruct st. eapply grown_weaken; [apply (grown_same (MkC _ _ _))|..]; simpl; intuition congruence. }
  destruct (decide _) as [Hs|Hs].
  { destruct st. split; simpl in *; [exists [], []; simpl; rewrite !app_nil_r; by destruct c_out| |done].
    intros x. split; [tauto|]. intros [?|[_ ->]]; done. }
  split; simpl.
  - exists [MkMEntry m from], []. rewrite app_nil_r. split_and!; [done|by repeat constructor|done].
  - intros x. rewrite elem_of_union, elem_of_singleton. split; [|naive_solver].
    intros [->|?]; [right|left]; done.
  - intros [W1 W2 W3 W4]. split; simpl.
    + intros x. rewrite fmap_app, elem_of_app, elem_of_union, W1, elem_of_singleton. simpl.
      rewrite list_elem_of_singleton. tauto.
    + rewrite fmap_app. apply NoDup_app. split_and!; [done| |apply NoDup_singleton].
      intros x Hx%W1 ->%list_elem_of_singleton. done.
    + by rewrite fmap_app, W3.
    + rewrite not_elem_of_union, not_elem_of_singleton. done.
Qed.

Lemma grown_methods from ms st :
  grown st (fold_left (take_method from) ms st) (names_of ms)
    (λ en, me_Method en ∈ ms ∧ me_From en = from) True.
Proof.
  revert st. induction ms as [|m ms IH]; intros st; simpl.
  - destruct st. eapply grown_weaken; [apply (grown_same (MkC _ _ _))|..]; try done.
    intros x. split; [done|]. by intros [_ ?%not_elem_of_nil].
  - eapply grown_weaken;
      [eapply (grown_trans _ _ _ _ _ (λ en, me_Method en ∈ m :: ms ∧ me_From en = from))|..].
    + eapply grown_weaken; [apply (grown_method from st m)|intros x; reflexivity|..|reflexivity].
      intros en [-> ->]. split; [by left|done].
    + eapply grown_weaken; [apply IH|intros x; reflexivity|..|reflexivity].
      intros en [? ?]. split; [by right|done].
    + intros x. unfold names_of. simpl. rewrite elem_of_cons. tauto.
    + done.
    + done.
Qed.

(** ** Paths of the embed graph *)

Lemma simple_inv V i V' j :
  simple V i V' j ↔
  iref i ∉ V ∧ ((V' = V ∧ j = i) ∨
    ∃ e k, e ∈ i_Embeds i ∧ judge e = Target k ∧ simple ({[iref i]} ∪ V) k V' j).
Proof.
  split.
  - inversion 1; subst; [tauto|]. unfold leads in *. naive_solver.
  - intros [Hi [[-> ->]|(e & k & ? & ? & ?)]]; [by constructor|]. econstructor; [done| |done]. by exists e.
Qed.

Definition all_followed (V : gset pointer) (i : Interface) : Prop :=
  ∀ V' j e, simple V i V' j → e ∈ i_Embeds j → followed ({[iref j]} ∪ V') e.

Lemma simple_end V i V' j : simple V i V' j → iref j ∉ V' ∧ rtc leads i j.
Proof. induction 1 as [|V i k V' j ? Hl _ [? ?]]; [split; [done|constructor]|]. split; [done|by eapply rtc_l]. Qed.

Lemma simple_extend V i V' j k :
  simple V i V' j → leads j k → iref k ∉ {[iref j]} ∪ V' → simple V i ({[iref j]} ∪ V') k.
Proof.
  induction 1 as [V i Hi|V i m V' j Hi Hl Hs IH]; intros Hk Hn.
  - econstructor; [done..|]. by constructor.
  - econstructor; [done..|]. by apply IH.
Qed.

Lemma simple_passed V i V' j x :
  simple V i V' j → x ∈ V' → x ∈ V ∨ ∃ m, iref m = x ∧ rtc leads i m ∧ tc leads m j.
Proof.
  induction 1 as [V i Hi|V i m V' j Hi Hl Hs IH]; intros Hx; [by left|].
  destruct (IH Hx) as [Hin|(n & ? & ? & ?)].
  - apply elem_of_union in Hin as [->%elem_of_singleton|?]; [|by left]. right. exists i.
    split_and!; [done|constructor|]. eapply tc_rtc_r; [by apply tc_once|]. by eapply simple_end.
  - right. exists n. split_and!; [done|by eapply rtc_l|done].
Qed.

(** A walk through the listed interfaces. *)
Fixpoint walk (i : Interface) (l : list Interface) (j : Interface) : Prop :=
  match l with
  | [] => i = j
  | k :: l => leads i k ∧ walk k l j
  end.

Lemma rtc_walk i j : rtc leads i j → ∃ l, walk i l j.
Proof. induction 1 as [|i k j Hl _ [l IH]]; [by exists []|]. by exists (k :: l). Qed.

Lemma walk_cut i l j m :
  walk i l j → m ∈ l → ∃ l', walk m l' j ∧ length l' < length l ∧ l' ⊆ l.
Proof.
  revert i. induction l as [|k l IH]; intros i Hw Hm; [by apply not_elem_of_nil in Hm|].
  destruct Hw as [Hl Hw]. apply elem_of_cons in Hm as [->|Hm].
  - exists l. split_and!; [done|simpl; lia|set_solver].
  - destruct (IH k Hw Hm) as (l' & ? & ? & ?). exists l'. split_and!; [done|simpl; lia|set_solver].
Qed.

(** Finitely many interfaces, told apart by their pointers. *)
Context (known : list Interface) (Hclosed : closed resolve known)
  (Hptr : ∀ i j, i ∈ known → j ∈ known → iref i = iref j → i = j).

Lemma leads_known i j : i ∈ known → leads i j → j ∈ known.
Proof using Hclosed.
  intros Hi (e & He & Hj). unfold judge in Hj. destruct (em_Type e) as [t|] eqn:Ht; [|done].
  destruct (MayDenoteInterface (Some t)); simpl in Hj; [|done].
  destruct (0 <? length (t_TypeArgs t)); [done|].
  destruct (lookup_embed resolve e t s0) as [[[k|] []] s] eqn:El; simplify_eq/=;
    by eapply (Hclosed i e t s0 j); [..|rewrite El].
Qed.

Lemma reach_known i j : i ∈ known → rtc leads i j → j ∈ known.
Proof using Hclosed. intros Hi. induction 1; eauto using leads_known. Qed.

Lemma walk_known i l j : i ∈ known → walk i l j → ∀ m, m ∈ l → m ∈ known.
Proof using Hclosed.
  revert i. induction l as [|k l IH]; intros i Hi Hw m Hm; [by apply not_elem_of_nil in Hm|].
  destruct Hw as [Hl Hw]. apply elem_of_cons in Hm as [->|Hm]; eauto using leads_known.
Qed.

Lemma walk_simple n l V i j :
  length l ≤ n → i ∈ known → walk i l j → (∀ m, m = i ∨ m ∈ l → iref m ∉ V) →
  ∃ V', simple V i V' j.
Proof using Hclosed Hptr.
  revert l V i. induction n as [|n IH]; intros l V i Hlen Hi Hw Hv.
  { destruct l; [|simpl in Hlen; lia]. simpl in Hw. subst. exists V. constructor. auto. }
  destruct (decide (iref i ∈ (λ m, iref m) <$> l)) as [Hin|Hin].
  - apply list_elem_of_fmap in Hin as (m & E & Hm).
    assert (m = i) as -> by (symmetry; apply Hptr; [done|by eapply walk_known|done]).
    destruct (walk_cut i l j i Hw Hm) as (l' & Hw' & Hlt & Hsub).
    apply (IH l'); [lia|done..|]. intros m [->|?]; auto.
  - destruct l as [|k l]; [simpl in Hw; subst; exists V; constructor; auto|].
    destruct Hw as [Hl Hw]. destruct (IH l ({[iref i]} ∪ V) k) as [V' Hs].
    + simpl in Hlen. lia.
    + by eapply leads_known.
    + done.
    + intros m Hm. rewrite not_elem_of_union, not_elem_of_singleton.
      assert (m ∈ k :: l) as Hm' by (rewrite elem_of_cons; done).
      split; [|auto]. intros E. apply Hin, list_elem_of_fmap. eauto.
    + exists V'. econstructor; [by apply Hv; left|done..].
Qed.

Lemma reach_simple i j : i ∈ known → rtc leads i j ↔ ∃ V', simple ∅ i V' j.
Proof using Hclosed Hptr.
  intros Hi. split; [|by intros (V' & ?%simple_end); tauto].
  intros (l & Hw)%rtc_walk. eapply walk_simple; [reflexivity|done..|]. set_solver.
Qed.

(** An embedding that leads back to where it started. *)
Definition circular (i : Interface) : Prop := ∃ a, rtc leads i a ∧ tc leads a a.

Lemma followed_iff i :
  i ∈ known →
  all_followed ∅ i ↔
  (∀ j e r, rtc leads i j → e ∈ i_Embeds j → judge e ≠ Fault r) ∧ ¬ circular i.
Proof using Hclosed Hptr.
  intros Hi. split.
  - intros Hall. split.
    + intros j e r [V' Hs]%reach_simple He Hf; [|done].
      destruct (Hall V' j e Hs He) as [?|(k & ? & _)]; congruence.
    + intros (a & [V Ha]%reach_simple & Hc); [|done].
      assert (∀ b, tc leads a b → ∃ V, simple ∅ i V b ∧ iref a ∈ V) as Hgo.
      { assert (∀ b c V, simple ∅ i V b → leads b c → simple ∅ i ({[iref b]} ∪ V) c) as Hext.
        { intros b c W Hs (e & He & Hj). apply simple_extend; [done|by exists e|].
          destruct (Hall W b e Hs He) as [?|(k & ? & ?)]; congruence. }
        apply tc_ind_r; [intros b Hb; exists ({[iref a]} ∪ V); split; [eauto|set_solver]|].
        intros b c _ Hbc (W & Hs & ?). exists ({[iref b]} ∪ W). split; [eauto|set_solver]. }
      destruct (Hgo a Hc) as (W & Hs & Hin). by apply simple_end in Hs as [? _].
  - intros [Hf Hc] V' j e Hs He. pose proof Hs as [_ Hr]%simple_end.
    destruct (judge e) as [|r|k] eqn:Ej; [by left|by destruct (Hf j e r)|]. right. exists k.
    split; [done|]. assert (leads j k) as Hl by by exists e.
    rewrite not_elem_of_union, not_elem_of_singleton.
    assert (j ∈ known) as Hj by by eapply reach_known.
    assert (k ∈ known) as Hk by by eapply leads_known.
    split.
    + intros E. apply Hc. exists j. split; [done|]. rewrite <- (Hptr k j) at 2 by done. by apply tc_once.
    + intros Hin. destruct (simple_passed _ _ _ _ _ Hs Hin) as [?|(m & E & Hm & Ht)]; [set_solver|].
      assert (m = k) as -> by (apply Hptr; [apply (reach_known i); done|done..]).
      apply Hc. exists k. split; [done|]. by eapply tc_r.
Qed.

(** ** The walk *)

(** The answers of the resolver do not depend on its state. *)
Context (Hans : ∀ e t s, (lookup_embed resolve e t s).1 = (lookup_embed resolve e t s0).1).

Lemma take_embed_judge V from go st e :
  ∃ s, take_embed resolve V from go st e =
    let st' := MkC (c_seen st) (c_out st) s in
    match judge e with
    | Skipped => Some st'
    | Fault r => Some (add_issue e r st')
    | Target i => if decide (iref i ∈ V) then Some (add_issue e ReasonCyclic st')
                  else go i (match from with Some f => Some f | None => Some e end) st'
    end.
Proof using Hans.
  unfold take_embed, judge. destruct st as [sn out env]; simpl.
  destruct (em_Type e) as [t|]; [|by exists env].
  destruct (MayDenoteInterface (Some t)) eqn:Em; simpl in Em |- *; rewrite Em; [|by exists env].
  destruct (0 <? length (t_TypeArgs t)); [by exists env|]. rewrite <- (Hans e t env).
  destruct (lookup_embed resolve e t env) as [[[j|] []] s]; by exists s.
Qed.

(** Where an entry collected below [i] comes from. *)
Definition credited (V : gset pointer) (i : Interface) (from : option Embed) (en : MethodSetEntry)
    : Prop :=
  match from with
  | Some f => me_From en = Some f ∧ ∃ V' j, simple V i V' j ∧ me_Method en ∈ i_Methods j
  | None =>
      (me_From en = None ∧ me_Method en ∈ i_Methods i) ∨
      ∃ e k V' j, e ∈ i_Embeds i ∧ judge e = Target k ∧ simple ({[iref i]} ∪ V) k V' j ∧
                  me_Method en ∈ i_Methods j ∧ me_From en = Some e
  end.

Definition walk_spec (walk : gset pointer → Interface → option Embed → cstate → option cstate) : Prop :=
  ∀ V i from st st', walk V i from st = Some st' → iref i ∉ V →
    grown st st' (λ x, ∃ V' j, simple V i V' j ∧ names_of (i_Methods j) x)
      (credited V i from) (all_followed V i).

Lemma take_embeds_grown walk V from es st st' :
  walk_spec walk →
  take_embeds (take_embed resolve V from (walk V)) es st = Some st' →
  grown st st'
    (λ x, ∃ e k V' j, e ∈ es ∧ judge e = Target k ∧ simple V k V' j ∧ names_of (i_Methods j) x)
    (λ en, ∃ e k V' j, e ∈ es ∧ judge e = Target k ∧ simple V k V' j ∧
                       me_Method en ∈ i_Methods j ∧ me_From en = Some (default e from))
    (∀ e, e ∈ es → followed V e ∧ ∀ k, judge e = Target k → all_followed V k).
Proof using Hans.
  intros Hw. revert st. induction es as [|e es IH]; simpl; intros st Hrun.
  { simplify_eq. destruct st'. eapply grown_weaken; [apply (grown_same (MkC _ _ _))|..].
    - intros x. split; [done|]. by intros (? & ? & ? & ? & ?%not_elem_of_nil & _).
    - done.
    - split; [|done]. by intros _ ? ?%not_elem_of_nil. }
  destruct (take_embed resolve V from (walk V) st e) as [st1|] eqn:E1; [|done].
  eapply grown_weaken; [eapply (grown_trans st st1 st'
    (λ x, ∃ k V' j, judge e = Target k ∧ simple V k V' j ∧ names_of (i_Methods j) x) _
    (λ en, ∃ e' k V' j, e' ∈ e :: es ∧ judge e' = Target k ∧ simple V k V' j ∧
           me_Method en ∈ i_Methods j ∧ me_From en = Some (default e' from))
    (followed V e ∧ ∀ k, judge e = Target k → all_followed V k))|..].
  - destruct (take_embed_judge V from (walk V) st e) as [s Es]. rewrite Es in E1. clear Es.
    destruct (judge e) as [|r|k] eqn:Ej; simpl in E1.
    + simplify_eq. eapply grown_weaken; [apply grown_same|naive_solver|done|].
      split; [|done]. intros _. split; [by left|done].
    + simplify_eq. eapply grown_weaken;
        [apply (grown_trans _ _ _ _ _ _ _ _ (grown_same st s) (grown_issue _ e r))|naive_solver|done|].
      unfold followed. rewrite Ej. naive_solver.
    + destruct (decide (iref k ∈ V)) as [Hv|Hv].
      * simplify_eq. eapply grown_weaken; [apply (grown_trans _ _ _ _ _ _ _ _ (grown_same st s)
          (grown_issue _ e ReasonCyclic))| |done|].
        { intros x. split; [tauto|]. intros (k' & V' & j & [= <-] & Hs & _). inversion Hs; subst; contradiction. }
        unfold followed. rewrite Ej. naive_solver.
      * eapply grown_weaken; [eapply (grown_trans _ _ _ _ _ (credited V k (Some (default e from))))|..].
        { eapply grown_weaken; [apply (grown_same st s)|intros x; reflexivity|done|reflexivity]. }
        { apply Hw; [|done]. by destruct from. }
        { intros x. naive_solver. }
        { intros en (Hf & V' & j & ? & ?). exists e, k, V', j. split_and!; try done. by left. }
        { unfold followed. rewrite Ej. naive_solver. }
  - eapply grown_weaken; [by apply IH|intros x; reflexivity| |reflexivity].
    intros en (e' & k & V' & j & ? & ?). exists e', k, V', j. split; [by right|done].
  - intros x. setoid_rewrite elem_of_cons. naive_solver.
  - done.
  - setoid_rewrite elem_of_cons. naive_solver.
Qed.

Lemma collect_grown fuel : walk_spec (collect resolve fuel).
Proof using Hans.
  induction fuel as [|fuel IH]; intros V i from st st' Hrun Hi; [done|]. simpl in Hrun.
  eapply take_embeds_grown in Hrun; [|exact IH].
  eapply grown_weaken; [eapply (grown_trans _ _ _ _ _ (credited V i from))|..].
  - eapply grown_weaken; [apply grown_methods|intros x; reflexivity| |reflexivity].
    intros en [Hm Hf]. destruct from as [f|]; simpl; [|by left].
    split; [done|]. exists V, i. split; [by constructor|done].
  - eapply grown_weaken; [exact Hrun|intros x; reflexivity| |reflexivity].
    intros en (e & k & V' & j & He & Hk & Hs & Hm & Hf). destruct from as [f|]; simpl in *.
    + split; [done|]. exists V', j. split; [|done]. apply simple_inv. eauto 10.
    + right. eauto 10.
  - intros x. setoid_rewrite (simple_inv V i). split; [|naive_solver].
    intros [?|(e & k & V' & j & ?)]; [exists V, i; naive_solver|]. exists V', j. naive_solver.
  - done.
  - split.
    + intros [_ Hall] V' j e Hs He. apply simple_inv in Hs as [_ [[-> ->]|(e' & k & He' & Hk & Hs)]].
      * by apply Hall.
      * destruct (Hall e' He') as [_ Hf]. by eapply Hf.
    + intros Hall. split; [done|]. intros e He. split; [apply (Hall V i e); [by constructor|done]|].
      intros k Hk V' j e' Hs He'. apply (Hall V' j e'); [|done]. apply simple_inv. eauto 10.
Qed.

(** ** The result *)

Lemma by_name_app (l k : list Method) x :
  by_name m_Name (l ++ k) x =
  match by_name m_Name l x with Some m => Some m | None => by_name m_Name k x end.
Proof. unfold by_name. induction l as [|y l IH]; simpl; [done|]. by destruct (String.eqb _ _). Qed.

Definition seen_named (st : cstate (S := S)) : Prop :=
  ∀ y, y ∈ c_seen st ↔ y ∈ m_Name <$> ms_Methods (c_out st).

Lemma take_method_by_name from (st : cstate (S := S)) m x :
  seen_named st →
  seen_named (take_method from st m) ∧
  by_name m_Name (ms_Methods (c_out (take_method from st m))) x =
  match by_name m_Name (ms_Methods (c_out st)) x with
  | Some m => Some m
  | None => by_name_nonempty m_Name [m] x
  end.
Proof.
  intros Hs. unfold take_method, by_name_nonempty. destruct (String.eqb_spec (m_Name m) "") as [E|E].
  { split; [done|]. unfold by_name. simpl. destruct (String.eqb_spec x "") as [->|Hx].
    - by destruct (List.find _ _).
    - destruct (String.eqb_spec (m_Name m) x); [congruence|]. by destruct (List.find _ _). }
  destruct (decide (m_Name m ∈ c_seen st)) as [Hin|Hin].
  - split; [done|]. destruct (by_name m_Name (ms_Methods (c_out st)) x) eqn:Eb; [done|].
    apply by_name_None in Eb. unfold by_name. simpl.
    destruct (String.eqb_spec (m_Name m) x) as [<-|]; [by apply Hs in Hin|]. by destruct (String.eqb x "").
  - split.
    + intros y. simpl. rewrite fmap_app, elem_of_app, elem_of_union, (Hs y), elem_of_singleton. simpl.
      rewrite list_elem_of_singleton. tauto.
    + simpl. rewrite by_name_app. destruct (by_name m_Name (ms_Methods (c_out st)) x); [done|].
      unfold by_name. simpl. destruct (String.eqb_spec (m_Name m) x) as [<-|].
      * by destruct (String.eqb_spec (m_Name m) "").
      * by destruct (String.eqb x "").
Qed.

(** The names taken from a list of methods are looked up as in the list. *)
Lemma take_methods_by_name from ms (st : cstate (S := S)) x :
  seen_named st →
  by_name m_Name (ms_Methods (c_out (fold_left (take_method from) ms st))) x =
  match by_name m_Name (ms_Methods (c_out st)) x with
  | Some m => Some m
  | None => by_name_nonempty m_Name ms x
  end.
Proof.
  revert st. induction ms as [|m ms IH]; intros st Hs; simpl.
  { unfold by_name_nonempty. destruct (String.eqb x ""), (by_name _ _ x); done. }
  destruct (take_method_by_name from st m x Hs) as [Hs' E]. rewrite IH, E by done.
  destruct (by_name m_Name (ms_Methods (c_out st)) x); [done|]. unfold by_name_nonempty, by_name.
  simpl. destruct (String.eqb x ""); [done|]. by destruct (String.eqb (m_Name m) x).
Qed.

(** ** The order of the entries *)

(** The entries [take_method] adds are methods of the list, in its order. *)
Lemma take_methods_ordered from ms (st : cstate (S := S)) :
  ∃ own, ms_Entries (c_out (fold_left (take_method from) ms st)) = ms_Entries (c_out st) ++ own ∧
    Forall (λ en, me_From en = from) own ∧ (me_Method <$> own) `sublist_of` ms.
Proof.
  revert st. induction ms as [|m ms IH]; intros st; simpl.
  { exists []. by rewrite app_nil_r. }
  destruct (IH (take_method from st m)) as (own & E & Hf & Hs). rewrite E. unfold take_method.
  destruct (String.eqb (m_Name m) ""); [|destruct (decide _)]; simpl.
  1,2: exists own; split_and!; [done..|by constructor].
  exists (MkMEntry m from :: own). rewrite <- app_assoc. split_and!; [done|by constructor|by constructor].
Qed.

(** One block of entries per embed, each credited to its embed. *)
Lemma take_embeds_ordered walk V es st st' :
  walk_spec walk →
  take_embeds (take_embed resolve V None (walk V)) es st = Some st' →
  ∃ blocks, ms_Entries (c_out st') = ms_Entries (c_out st) ++ concat blocks ∧
    Forall2 (λ e, Forall (λ en, me_From en = Some e)) es blocks.
Proof using Hans.
  intros Hw. revert st. induction es as [|e es IH]; simpl; intros st Hrun.
  { simplify_eq. exists []. simpl. by rewrite app_nil_r. }
  destruct (take_embed resolve V None (walk V) st e) as [st1|] eqn:E1; [|done].
  destruct (IH st1 Hrun) as (blocks & E & Hb).
  assert (∃ b, ms_Entries (c_out st1) = ms_Entries (c_out st) ++ b ∧
               Forall (λ en, me_From en = Some e) b) as (b & Eb & Hf).
  { destruct (take_embed_judge V None (walk V) st e) as [s Es]. rewrite Es in E1. clear Es.
    destruct (judge e) as [|r|k]; simpl in E1;
      [by simplify_eq; exists []; rewrite app_nil_r..|].
    destruct (decide (iref k ∈ V)) as [|Hk]; [by simplify_eq; exists []; rewrite app_nil_r|].
    apply Hw in E1 as [(new & iss & Eo & Hn & _) _ _]; [done|]. rewrite Eo. exists new.
    split; [done|]. eapply Forall_impl; [exact Hn|]. by intros en [? _]. }
  exists (b :: blocks). rewrite E, Eb. simpl. rewrite app_assoc. split; [done|by constructor].
Qed.

Lemma wf_start : wf (MkC ∅ empty_result s0).
Proof. split; [intros x; simpl; by rewrite elem_of_empty, elem_of_nil|apply NoDup_nil_2|done|apply not_elem_of_empty]. Qed.

(** The interface's own methods first, in their order, and then the embeds
    in theirs. *)
Definition ordered (i : Interface) (entries : list MethodSetEntry) : Prop :=
  ∃ own blocks, entries = own ++ concat blocks ∧
    Forall (λ en, me_From en = None) own ∧
    (me_Method <$> own) `sublist_of` i_Methods i ∧
    (∀ x, names_of (i_Methods i) x → x ∈ m_Name <$> (me_Method <$> own)) ∧
    Forall2 (λ e, Forall (λ en, me_From en = Some e)) (i_Embeds i) blocks.

Lemma collect_ordered fuel V i st :
  collect resolve fuel V i None (MkC ∅ empty_result s0) = Some st → ordered i (ms_Entries (c_out st)).
Proof using Hans.
  destruct fuel as [|fuel]; [done|]. simpl. intros Hrun.
  destruct (take_methods_ordered None (i_Methods i) (MkC ∅ empty_result s0)) as (own & Eo & Hf & Hs).
  destruct (grown_methods None (i_Methods i) (MkC ∅ empty_result s0)) as [_ Hseen [W1 _ W3 _]%(λ f, f wf_start)].
  destruct (take_embeds_ordered _ _ _ _ _ (collect_grown fuel) Hrun) as (blocks & E & Hb).
  exists own, blocks. rewrite E, Eo. split; [done|]. split_and!; [done|done| |done].
  intros x Hx. simpl in Eo. rewrite <- Eo, <- W3. apply W1, Hseen. by right.
Qed.

(** The whole run: it answers, and what it grew from nothing. *)
Lemma method_set_run fuel i :
  i ∈ known → length known ≤ fuel →
  ∃ r s, MethodSet resolve fuel (Some i) s0 = Some (r, s) ∧
    (∀ x, x ∈ m_Name <$> ms_Methods r ↔ ∃ j, rtc leads i j ∧ names_of (i_Methods j) x) ∧
    NoDup (m_Name <$> ms_Methods r) ∧ ms_Methods r = me_Method <$> ms_Entries r ∧
    Forall (credited ∅ i None) (ms_Entries r) ∧ (ms_Issues r = [] ↔ all_followed ∅ i) ∧
    (∀ x, names_of (i_Methods i) x → ByName r x = MethodByName (i_Methods i) x) ∧
    ordered i (ms_Entries r).
Proof using Hans Hclosed Hptr.
  intros Hi Hf. unfold MethodSet.
  destruct (collect_terminates resolve known fuel ∅ i None (MkC ∅ empty_result s0)) as [st E];
    [done|done|apply not_elem_of_empty| |].
  { rewrite difference_empty_L. etrans; [apply size_list_to_set_le|]. by rewrite length_fmap. }
  rewrite E. exists (c_out st), (c_env st). split; [done|]. pose proof E as Ec.
  apply collect_grown in Ec as [(new & iss & Eo & Hn & Hg) Hs Hw]; [apply not_elem_of_empty|].
  assert (seen_named (MkC ∅ empty_result s0)) as Hs0.
  { intros y. simpl. by rewrite elem_of_empty, elem_of_nil. }
  destruct (Hw wf_start) as [W1 W2 W3 _].
  split_and!; [|done|done|by rewrite Eo|by rewrite Eo| |by eapply collect_ordered].
  - intros x. rewrite <- W1, Hs. simpl. rewrite elem_of_empty. split.
    + intros [[]|(V' & j & Hj & ?)]. exists j. split; [|done]. apply reach_simple; eauto.
    + intros (j & [V' Hj]%reach_simple & ?); [|done]. right. by exists V', j.
  - intros x [Hx Hin]. destruct fuel as [|fuel]; [done|]. simpl in E.
    eapply take_embeds_grown in E as [(new' & iss' & Eo' & _) _ _]; [|apply collect_grown].
    unfold ByName. rewrite Eo'. simpl. rewrite by_name_app, take_methods_by_name by done.
    simpl. unfold MethodByName. destruct (by_name_nonempty m_Name (i_Methods i) x) eqn:Eb; [done|].
    unfold by_name_nonempty in Eb. destruct (String.eqb_spec x ""); [done|]. by apply by_name_None in Eb.
Qed.


(** a partial method set is never passed off as complete: [OK] answers
    true exactly when no interface that the embeds lead to has an embed that
    is parameterised, unknown to the run or not an interface, and none of
    them embeds itself through others. *)
Theorem method_set_ok_iff fuel i :
  i ∈ known → length known ≤ fuel →
  ∃ r s, MethodSet resolve fuel (Some i) s0 = Some (r, s) ∧
    (OK r = true ↔
     (∀ j e why, rtc leads i j → e ∈ i_Embeds j → judge e ≠ Fault why) ∧ ¬ circular i).
Proof using Hans Hclosed Hptr.
  intros Hi Hf. destruct (method_set_run fuel i Hi Hf) as (r & s & E & _ & _ & _ & _ & Hg & _ & _).
  exists r, s. split; [done|]. rewrite <- followed_iff, <- Hg by done. unfold OK.
  rewrite Nat.eqb_eq. apply length_zero_iff_nil.
Qed.
End Laws.

(** ** Examples *)

(** [Reader] embeds [Closer], which embeds [Reader] back. *)
Definition demo_closer : Interface :=
  Fixture.interface 2 "io" "Closer" [Fixture.method 12 "Close" []]
    [Fixture.embed 22 (Fixture.named 32 "io" "Reader")].
Definition demo_reader : Interface :=
  Fixture.interface 1 "io" "Reader" [Fixture.method 11 "Read" []]
    [Fixture.embed 21 (Fixture.named 31 "io" "Closer")].

Definition demo_resolve (t : TypeRef) (s : unit) : option Interface * bool * unit :=
  if String.eqb (t_Name t) "Closer" then (Some demo_closer, true, s)
  else if String.eqb (t_Name t) "Reader" then (Some demo_reader, true, s)
  else (None, false, s).

Abbreviation demo_known := [demo_reader; demo_closer].

Lemma demo_closed : closed (Some demo_resolve) demo_known.
Proof.
  intros i e t s j Hi He Ht. apply list_elem_of_In in Hi. destruct Hi as [<-|[<-|[]]];
    apply list_elem_of_singleton in He as ->; injection Ht as <-; intros [= <-]; apply list_elem_of_In;
    simpl; tauto.
Qed.

Lemma demo_pointers i j :
  i ∈ demo_known → j ∈ demo_known → ref (i_base i) = ref (i_base j) → i = j.
Proof.
  intros Hi Hj. apply list_elem_of_In in Hi, Hj.
  destruct Hi as [<-|[<-|[]]], Hj as [<-|[<-|[]]]; done.
Qed.


Lemma method_set_ok_iff_witness :
  ∃ r s, MethodSet (Some demo_resolve) 2 (Some demo_reader) tt = Some (r, s) ∧ OK r = false.
Proof.
  destruct (method_set_ok_iff (Some demo_resolve) tt demo_known demo_closed demo_pointers
    (λ e t s, match s with tt => eq_refl end) 2 demo_reader) as (r & s & E & Hok).
  - apply list_elem_of_In. simpl. tauto.
  - simpl. lia.
  - exists r, s. split; [exact E|]. vm_compute in E. by injection E as <- <-.
Defined.
