(* ===== verification/StoreIndex.v ===== *)
(** * store: buckets, indexes, read sets and queries

    The generic containers of [src/store]: [Bucket] and [MultiIndex]
    ([index.go]), [ReadSet] ([read_set.go]) and [Query] ([query.go]).  The
    locks are not modelled: every operation runs under one and is atomic.

    A container is specified by the log of its writes: a bucket that accepted
    a list of entries is that list and its first-match lookup ([bucket_ok]), a
    multi-index groups the list by key in order of first appearance
    ([index_ok]).  A query is a filter of its source, and the digest of a read
    set is a function of the set. *)

From S2P Require Import Prelude GoStrings NodeQueries.

Local Open Scope string_scope.
Local Open Scope nat_scope.
Local Open Scope list_scope.

(** ** [errors.go] *)

Inductive StoreError :=
| ErrDuplicateQName (qname : string)
| ErrNilEntry
| ErrFrozen (what : string)
| ErrUnknownSlotName (name : string).

(** [errors.Is(err, ErrFrozen)] *)
Definition is_frozen_error (e : StoreError) : bool :=
  match e with ErrFrozen _ => true | _ => false end.

(** ** [index.go]: [Bucket] *)

Record Bucket (T : Type) := MkBucket { items : list T; byQName : gmap string T }.
Arguments MkBucket {T} _ _.
Arguments items {T} _.
Arguments byQName {T} _.

Definition NewBucket {T} : Bucket T := MkBucket [] ∅.

Definition Bucket_Add {T} (b : Bucket T) (qname : string) (item : T) : res StoreError (Bucket T) :=
  match byQName b !! qname with
  | Some _ => Err (ErrDuplicateQName qname)
  | None => Ok (MkBucket (items b ++ [item]) (<[qname := item]> (byQName b)))
  end.

Definition ByQName {T} (b : Bucket T) (qname : string) : option T := byQName b !! qname.

Definition Items {T} (b : Bucket T) : list T := items b.
Definition itemsRef {T} (b : Bucket T) : list T := items b.
Definition Bucket_Len {T} (b : Bucket T) : nat := length (items b).

(** [All] and [Range] call a function on the items in order until it answers
    false; [fn] runs on the state of the caller. *)
Fixpoint range_loop {T S} (fn : T → S → S * bool) (l : list T) (s : S) : S :=
  match l with
  | [] => s
  | x :: l => let '(s, more) := fn x s in if more then range_loop fn l s else s
  end.

Definition Bucket_Range {T S} (b : Bucket T) (fn : T → S → S * bool) (s : S) : S :=
  range_loop fn (items b) s.
Definition Bucket_All {T S} (b : Bucket T) (yield : T → S → S * bool) (s : S) : S :=
  range_loop yield (items b) s.

(** ** [index.go]: [MultiIndex] *)

Record MultiIndex (K V : Type) `{Countable K} := MkIndex { entries : gmap K (list V); order : list K }.
Arguments MkIndex {K V _ _} _ _.
Arguments entries {K V _ _} _.
Arguments order {K V _ _} _.

Section MultiIndex.
  Context {K V : Type} `{Countable K}.

Definition NewMultiIndex : MultiIndex K V := MkIndex ∅ [].

(** The capacity does not matter to the contents. *)
Definition newMultiIndexSize (keys : nat) : MultiIndex K V := MkIndex ∅ [].

Definition Index_Add (m : MultiIndex K V) (key : K) (value : V) : MultiIndex K V :=
  match entries m !! key with
  | None => MkIndex (<[key := [value]]> (entries m)) (order m ++ [key])
  | Some cur => MkIndex (<[key := cur ++ [value]]> (entries m)) (order m)
  end.

Definition Index_Get (m : MultiIndex K V) (key : K) : list V :=
  match entries m !! key with Some src => src | None => [] end.

Definition Index_Has (m : MultiIndex K V) (key : K) : bool := bool_decide (is_Some (entries m !! key)).
Definition Index_Len (m : MultiIndex K V) : nat := size (entries m).
Definition Index_Keys (m : MultiIndex K V) : list K := order m.

End MultiIndex.

(** ** [read_set.go] *)

Abbreviation ReadSet := (gset string).

Definition NewReadSet : ReadSet := ∅.
Definition Record_ (r : ReadSet) (key : string) : ReadSet := {[key]} ∪ r.
Definition ReadSet_Len (r : ReadSet) : nat := size r.
Definition ReadSet_Has (r : ReadSet) (key : string) : bool := bool_decide (key ∈ r).
Definition ReadSet_Keys (r : ReadSet) : list string := sort_strings (elements r).

Definition nul : string := String "000" "".

(** The buffer [Hash] feeds to SHA-256. *)
Fixpoint hash_buffer (keys : list string) : string :=
  match keys with
  | [] => ""
  | k :: keys => k +:+ nul +:+ hash_buffer keys
  end.

(** [sha] is the hexadecimal SHA-256 digest of the Go library. *)
Definition Hash (sha : string → string) (r : ReadSet) : string := sha (hash_buffer (ReadSet_Keys r)).

(** ** [query.go] *)

Record Query (T : Type) := MkQuery { source : list T; pred : option (T → bool); tag : string }.
Arguments MkQuery {T} _ _ _.
Arguments source {T} _.
Arguments pred {T} _.
Arguments tag {T} _.

Section Query.
  Context {T : Type}.

Definition newQuery (src : list T) (t : string) : Query T := MkQuery src None t.

Definition Where (q : Query T) (p : option (T → bool)) : Query T :=
  match p with
  | None => q
  | Some p =>
      let combined := match pred q with
                      | None => p
                      | Some prev => λ v, prev v && p v
                      end in
      MkQuery (source q) (Some combined) (tag q)
  end.

Definition matches (q : Query T) (v : T) : bool :=
  match pred q with None => true | Some p => p v end.

(** Every terminal records the tag of the query in the reader's set first. *)
Definition recordRead (q : Query T) (reads : ReadSet) : ReadSet := Record_ reads (tag q).

Fixpoint each_loop {S} (q : Query T) (fn : T → S → S) (l : list T) (s : S) : S :=
  match l with
  | [] => s
  | x :: l => each_loop q fn l (if matches q x then fn x s else s)
  end.

Definition Each {S} (q : Query T) (fn : T → S → S) (reads : ReadSet) (s : S) : ReadSet * S :=
  (recordRead q reads, each_loop q fn (source q) s).

Fixpoint all_loop {S} (q : Query T) (yield : T → S → S * bool) (l : list T) (s : S) : S :=
  match l with
  | [] => s
  | x :: l =>
      if negb (matches q x) then all_loop q yield l s
      else let '(s, more) := yield x s in if more then all_loop q yield l s else s
  end.

Definition Query_All {S} (q : Query T) (yield : T → S → S * bool) (reads : ReadSet) (s : S) : ReadSet * S :=
  (recordRead q reads, all_loop q yield (source q) s).

Fixpoint slice_loop (q : Query T) (l out : list T) : list T :=
  match l with
  | [] => out
  | x :: l => slice_loop q l (if matches q x then out ++ [x] else out)
  end.

Definition Slice (q : Query T) (reads : ReadSet) : ReadSet * list T :=
  (recordRead q reads, slice_loop q (source q) []).

Definition First (q : Query T) (reads : ReadSet) : ReadSet * option T :=
  (recordRead q reads, List.find (matches q) (source q)).

Fixpoint count_loop (p : T → bool) (l : list T) (n : nat) : nat :=
  match l with
  | [] => n
  | x :: l => count_loop p l (if p x then S n else n)
  end.

Definition Query_Count (q : Query T) (reads : ReadSet) : ReadSet * nat :=
  (recordRead q reads,
   match pred q with None => length (source q) | Some p => count_loop p (source q) 0 end).

End Query.

(** ** Buckets as logs *)

Section BucketLaws.
Context {T : Type}.

(** The bucket that accepted the log [l] of keys and items. *)
Record bucket_ok (b : Bucket T) (l : list (string * T)) : Prop := {
  bucket_items : items b = l.*2;
  bucket_keys : NoDup l.*1;
  bucket_map : byQName b = list_to_map l;
}.

Lemma bucket_ok_new : bucket_ok NewBucket [].
Proof. split; [done|apply NoDup_nil_2|done]. Qed.

Lemma bucket_ok_lookup b l q :
  bucket_ok b l → ByQName b q = (list_to_map l : gmap string T) !! q.
Proof. intros [_ _ E]. unfold ByQName. by rewrite E. Qed.

Lemma bucket_ok_absent b l q : bucket_ok b l → byQName b !! q = None ↔ q ∉ l.*1.
Proof. intros [_ _ E]. rewrite E. symmetry. apply not_elem_of_list_to_map. Qed.

Lemma bucket_ok_add b l q x :
  bucket_ok b l →
  match Bucket_Add b q x with
  | Ok b' => bucket_ok b' (l ++ [(q, x)]) ∧ q ∉ l.*1
  | Err e => e = ErrDuplicateQName q ∧ q ∈ l.*1
  end.
Proof.
  intros Hb. pose proof (bucket_ok_absent b l q Hb) as Hq. destruct Hb as [Hi Hk Hm].
  unfold Bucket_Add. destruct (byQName b !! q) eqn:E.
  - split; [done|]. destruct (decide (q ∈ l.*1)) as [?|Hn]; [done|]. by apply Hq in Hn.
  - assert (q ∉ l.*1) as Hn by by apply Hq. split; [|done]. split; simpl.
    + by rewrite Hi, fmap_app.
    + rewrite fmap_app. apply NoDup_app. split_and!; [done| |apply NoDup_singleton].
      simpl. intros k Hk' ->%list_elem_of_singleton. done.
    + rewrite Hm, list_to_map_app. simpl. rewrite <- insert_union_r by by apply not_elem_of_list_to_map.
      by rewrite (right_id_L ∅ (∪)).
Qed.
End BucketLaws.

(** ** Multi-indexes as logs *)

Section IndexLaws.
Context {K V : Type} `{Countable K}.

(** The values logged under a key. *)
Definition under (l : list (K * V)) (k : K) : list V := (filter (λ e, e.1 = k) l).*2.

(** The keys in order of first appearance. *)
Fixpoint first_keys (seen : list K) (l : list (K * V)) : list K :=
  match l with
  | [] => seen
  | (k, _) :: l => first_keys (if decide (k ∈ seen) then seen else seen ++ [k]) l
  end.

Record index_ok (m : MultiIndex K V) (l : list (K * V)) : Prop := {
  index_entries : ∀ k, entries m !! k = match under l k with [] => None | vs => Some vs end;
  index_order : order m = first_keys [] l;
}.

Lemma index_ok_new : index_ok NewMultiIndex [].
Proof. split; [intros k; apply lookup_empty|done]. Qed.

Lemma under_app l l' k : under (l ++ l') k = under l k ++ under l' k.
Proof. unfold under. by rewrite filter_app, fmap_app. Qed.

Lemma first_keys_app seen l l' : first_keys seen (l ++ l') = first_keys (first_keys seen l) l'.
Proof. revert seen. induction l as [|[k v] l IH]; intros seen; simpl; auto. Qed.

Lemma elem_of_first_keys seen l k : k ∈ first_keys seen l ↔ k ∈ seen ∨ k ∈ l.*1.
Proof.
  revert seen. induction l as [|[k' v] l IH]; intros seen; simpl.
  { rewrite elem_of_nil. tauto. }
  rewrite IH, elem_of_cons. destruct (decide (k' ∈ seen)); [naive_solver|].
  rewrite elem_of_app, list_elem_of_singleton. tauto.
Qed.

Lemma NoDup_first_keys seen l : NoDup seen → NoDup (first_keys seen l).
Proof.
  revert seen. induction l as [|[k v] l IH]; intros seen Hs; simpl; [done|]. apply IH.
  destruct (decide (k ∈ seen)); [done|]. apply NoDup_app.
  split_and!; [done| |apply NoDup_singleton]. by intros x Hx ->%list_elem_of_singleton.
Qed.

Lemma under_nil l k : under l k = [] ↔ k ∉ l.*1.
Proof.
  unfold under. rewrite list_elem_of_fmap. split.
  - intros E%fmap_nil_inv ([k' v] & -> & Hin). apply (not_elem_of_nil (k', v)). rewrite <- E.
    by apply list_elem_of_filter.
  - intros Hn. rewrite filter_none; [done|]. intros [k' v] Hin E. simpl in E. subst k'.
    apply Hn. by exists (k, v).
Qed.

Lemma index_ok_add m l k v : index_ok m l → index_ok (Index_Add m k v) (l ++ [(k, v)]).
Proof.
  intros [He Ho]. unfold Index_Add. rewrite (He k).
  assert (first_keys [] (l ++ [(k, v)]) =
    if decide (k ∈ l.*1) then order m else order m ++ [k]) as Ek.
  { rewrite first_keys_app, <- Ho. simpl. rewrite Ho.
    destruct (decide (k ∈ first_keys [] l)) as [Hi|Hi], (decide (k ∈ l.*1)) as [Hj|Hj]; try done;
      rewrite elem_of_first_keys, elem_of_nil in Hi; tauto. }
  assert (∀ k', under (l ++ [(k, v)]) k' = under l k' ++ (if decide (k = k') then [v] else [])) as Eu.
  { intros k'. rewrite under_app. f_equal. unfold under. rewrite filter_cons. simpl.
    by destruct (decide (k = k')). }
  destruct (under l k) as [|w ws] eqn:E; (split; [|rewrite Ek]); simpl.
  - intros k'. rewrite Eu. destruct (decide (k = k')) as [<-|Hn].
    + by rewrite lookup_insert_eq, E.
    + by rewrite lookup_insert_ne, app_nil_r.
  - apply under_nil in E. by destruct (decide _).
  - intros k'. rewrite Eu. destruct (decide (k = k')) as [<-|Hn].
    + by rewrite lookup_insert_eq, E.
    + by rewrite lookup_insert_ne, app_nil_r.
  - destruct (decide _) as [|Hn]; [done|]. apply under_nil in Hn. congruence.
Qed.

Lemma index_ok_get m l k : index_ok m l → Index_Get m k = under l k.
Proof. intros [He _]. unfold Index_Get. rewrite He. by destruct (under l k). Qed.
End IndexLaws.

(** ** Queries are filters *)

Section QueryLaws.
Context {T : Type}.

Lemma matches_where (q : Query T) p v :
  matches (Where q p) v = matches q v && match p with None => true | Some p => p v end.
Proof. unfold matches, Where. destruct p as [p|], (pred q); simpl; by rewrite ?andb_true_r. Qed.

Lemma where_frame (q : Query T) p : source (Where q p) = source q ∧ tag (Where q p) = tag q.
Proof. by destruct p. Qed.

Lemma slice_loop_filter (q : Query T) l out : slice_loop q l out = out ++ List.filter (matches q) l.
Proof.
  revert out. induction l as [|x l IH]; intros out; simpl; [by rewrite app_nil_r|].
  rewrite IH. destruct (matches q x); [by rewrite <- app_assoc|done].
Qed.

Lemma count_loop_filter p (l : list T) n : count_loop p l n = n + length (List.filter p l).
Proof.
  revert n. induction l as [|x l IH]; intros n; simpl; [lia|]. rewrite IH.
  destruct (p x); simpl; lia.
Qed.

Lemma find_filter (p : T → bool) l : List.find p l = head (List.filter p l).
Proof. induction l as [|x l IH]; simpl; [done|]. by destruct (p x). Qed.

Lemma each_loop_filter {S} (q : Query T) (fn : T → S → S) l s :
  each_loop q fn l s = fold_left (λ s x, fn x s) (List.filter (matches q) l) s.
Proof.
  revert s. induction l as [|x l IH]; intros s; simpl; [done|]. rewrite IH.
  by destruct (matches q x).
Qed.

Lemma all_loop_filter {S} (q : Query T) (yield : T → S → S * bool) l s :
  all_loop q yield l s = range_loop yield (List.filter (matches q) l) s.
Proof.
  revert s. induction l as [|x l IH]; intros s; simpl; [done|].
  destruct (matches q x); simpl; [|done]. destruct (yield x s) as [s' []]; auto.
Qed.

(** The query after a chain of [Where] calls. *)
Definition chained (src : list T) (t : string) (ps : list (option (T → bool))) : Query T :=
  fold_left Where ps (newQuery src t).

Lemma chained_matches src t ps :
  source (chained src t ps) = src ∧ tag (chained src t ps) = t ∧
  ∀ v, matches (chained src t ps) v = NodeQueries.And (omap id ps) v.
Proof.
  unfold chained. assert (∀ q : Query T, source (fold_left Where ps q) = source q ∧
    tag (fold_left Where ps q) = tag q ∧ ∀ v, matches (fold_left Where ps q) v =
      matches q v && NodeQueries.And (omap id ps) v) as H; [|apply (H (newQuery src t))].
  induction ps as [|p ps IH]; intros q; simpl; [split_and!; auto using andb_true_r|].
  destruct (IH (Where q p)) as (-> & -> & Hm). destruct (where_frame q p) as [-> ->].
  split_and!; [done..|]. intros v. rewrite Hm, matches_where. destruct p as [p|]; simpl.
  - destruct (matches q v), (p v); done.
  - by rewrite andb_true_r.
Qed.

(** the terminals of a query agree: after any chain of [Where] calls,
    nil predicates included, [Slice] is the subsequence of the source that
    satisfies every predicate, [Count] its length, [First] its first element,
    [Each] and [All] run over exactly it (an [All] may stop early), and each
    of them adds the query's tag, and nothing else, to the read set. *)
Theorem query_terminals_agree {S} src t ps (reads : ReadSet) (fn : T → S → S)
    (yield : T → S → S * bool) (s : S) :
  let q := chained src t ps in
  let hits := List.filter (NodeQueries.And (omap id ps)) src in
  Slice q reads = ({[t]} ∪ reads, hits) ∧
  Query_Count q reads = ({[t]} ∪ reads, length hits) ∧
  First q reads = ({[t]} ∪ reads, head hits) ∧
  Each q fn reads s = ({[t]} ∪ reads, fold_left (λ s x, fn x s) hits s) ∧
  Query_All q yield reads s = ({[t]} ∪ reads, range_loop yield hits s).
Proof.
  cbv zeta. destruct (chained_matches src t ps) as (Es & Et & Hm).
  set (q := chained src t ps) in *.
  assert (List.filter (matches q) src = List.filter (NodeQueries.And (omap id ps)) src) as <-
    by (apply List.filter_ext; exact Hm).
  unfold Slice, Query_Count, First, Each, Query_All, recordRead, Record_. rewrite Es, Et.
  split_and!; f_equal.
  - by rewrite slice_loop_filter.
  - unfold matches. destruct (pred q); [by rewrite count_loop_filter|].
    clear. induction src; simpl; auto.
  - apply find_filter.
  - apply each_loop_filter.
  - apply all_loop_filter.
Qed.
End QueryLaws.

(** ** Read sets *)

Definition nul_free (k : string) : Prop := last_index_byte k "000" = None.

Lemma nul_free_cons a s : nul_free (String a s) ↔ a ≠ "000"%char ∧ nul_free s.
Proof.
  unfold nul_free. simpl. destruct (last_index_byte s "000"); [naive_solver|].
  destruct (Ascii.eqb_spec a "000"); naive_solver.
Qed.

Lemma nul_split k1 k2 r1 r2 :
  nul_free k1 → nul_free k2 → k1 +:+ nul +:+ r1 = k2 +:+ nul +:+ r2 → k1 = k2 ∧ r1 = r2.
Proof.
  revert k2. induction k1 as [|a k1 IH]; intros [|b k2] H1 H2 E; simpl in E; simplify_eq/=.
  - done.
  - by apply nul_free_cons in H2 as [? _].
  - by apply nul_free_cons in H1 as [? _].
  - apply nul_free_cons in H1 as [_ H1], H2 as [_ H2]. destruct (IH k2 H1 H2) as [-> ->]; done.
Qed.

Lemma hash_buffer_inj l l' :
  Forall nul_free l → Forall nul_free l' → hash_buffer l = hash_buffer l' → l = l'.
Proof.
  revert l'. induction l as [|k l IH]; intros [|k' l'] H1 H2 E; simpl in E.
  - done.
  - exfalso. by destruct k'.
  - exfalso. by destruct k.
  - apply Forall_cons in H1 as [? ?], H2 as [? ?].
    apply nul_split in E as [-> ?]; [|done..]. f_equal. auto.
Qed.

(** the digest of a read set identifies what was read: it does not depend
    on the order or the number of recordings, and, as far as SHA-256 does not
    collide on the two buffers, plugins whose recorded keys contain no NUL byte
    have equal digests exactly when they read the same keys. *)
Theorem read_set_digest (sha : string → string) ks ks' :
  let r := fold_left Record_ ks NewReadSet in
  let r' := fold_left Record_ ks' NewReadSet in
  (sha (hash_buffer (ReadSet_Keys r)) = sha (hash_buffer (ReadSet_Keys r')) →
   hash_buffer (ReadSet_Keys r) = hash_buffer (ReadSet_Keys r')) →
  Forall nul_free ks → Forall nul_free ks' →
  Hash sha r = Hash sha r' ↔ ∀ k, k ∈ ks ↔ k ∈ ks'.
Proof.
  assert (∀ ks, fold_left Record_ ks NewReadSet = (list_to_set ks : gset string)) as Hr.
  { intros l. apply set_eq. intros k. rewrite elem_of_list_to_set.
    assert (∀ s, k ∈ fold_left Record_ l s ↔ k ∈ l ∨ k ∈ s) as E; [|rewrite E; set_solver].
    induction l as [|x l IH]; intros s; simpl; [set_solver|]. rewrite IH. unfold Record_. set_solver. }
  cbv zeta. rewrite !Hr. intros Hsha H1 H2. unfold Hash.
  assert (∀ l k, k ∈ ReadSet_Keys (list_to_set l) ↔ k ∈ l) as Hk.
  { intros l k. unfold ReadSet_Keys. by rewrite elem_of_sort_strings, elem_of_elements, elem_of_list_to_set. }
  assert (∀ l, Forall nul_free l → Forall nul_free (ReadSet_Keys (list_to_set l))) as Hf.
  { intros l. rewrite !Forall_forall. intros Hl k Hin. by apply Hl, Hk. }
  split.
  - intros E k. apply Hsha, hash_buffer_inj in E; [|by apply Hf..].
    by rewrite <- (Hk ks), <- (Hk ks'), E.
  - intros E. do 3 f_equal. apply set_eq. intros k. by rewrite !elem_of_list_to_set.
Qed.

Lemma read_set_digest_witness :
  Hash id (fold_left Record_ ["node:structs"; "node:structs"; "node:files"] NewReadSet) =
  Hash id (fold_left Record_ ["node:files"; "node:structs"] NewReadSet).
Proof.
  apply (read_set_digest id ["node:structs"; "node:structs"; "node:files"] ["node:files"; "node:structs"]).
  - done.
  - repeat constructor.
  - repeat constructor.
  - intros k. set_solver.
Defined.
