(* ===== verification/StoreOps.v ===== *)
(** * store: operations that may fail and logs with lookups

    The shape every [Add*] method of [src/store] has, a step on some state
    that may stop with an error, and the reading of a view as the log of what
    it accepted.  Shared by the node view and the emit view. *)

From S2P Require Import Prelude StoreIndex.

Local Open Scope string_scope.
Local Open Scope nat_scope.
Local Open Scope list_scope.

(** A Go method that returns an error and mutates as it goes. *)
Abbreviation op_on S := (S → S * option StoreError).

Section Ops.
Context {S : Type}.
Implicit Types m k : op_on S.

Definition done_op : op_on S := λ st, (st, None).
Definition fail_op (e : StoreError) : op_on S := λ st, (st, Some e).

(** [if err := m; err != nil { return err }; k] *)
Definition and_then m k : op_on S := λ st,
  let '(st, err) := m st in
  match err with Some e => (st, Some e) | None => k st end.

(** [for _, x := range l { if err := f(x); err != nil { return err } }] *)
Definition for_op {A} (f : A → op_on S) : list A → op_on S :=
  fix go l := match l with [] => done_op | x :: l => and_then (f x) (go l) end.

(** A step that cannot fail. *)
Definition then_do (f : S → S) : op_on S := λ st, (f st, None).

Definition same m k : Prop := ∀ st, m st = k st.

#[global] Instance same_equiv : Equivalence same.
Proof. split; [done|by intros m k H st|]. intros m k l H1 H2 st. by rewrite (H1 st). Qed.

#[global] Instance and_then_proper : Proper (same ==> same ==> same) and_then.
Proof. intros m m' H k k' H' st. unfold and_then. rewrite (H st). destruct (m' st) as [? []]; auto. Qed.

Lemma and_then_assoc m k l : same (and_then (and_then m k) l) (and_then m (and_then k l)).
Proof. intros st. unfold and_then. destruct (m st) as [? []]; [done|]. by destruct (k _) as [? []]. Qed.

Lemma and_then_done m : same (and_then m done_op) m.
Proof. intros st. unfold and_then, done_op. by destruct (m st) as [? []]. Qed.

Lemma for_op_app {A} (f : A → op_on S) (l l' : list A) :
  same (for_op f (l ++ l')) (and_then (for_op f l) (for_op f l')).
Proof. induction l as [|x l IH]; simpl; [done|]. by rewrite IH, and_then_assoc. Qed.

Lemma for_op_map {A B} (f : B → op_on S) (g : A → B) l : same (for_op f (g <$> l)) (for_op (λ x, f (g x)) l).
Proof. induction l as [|x l IH]; simpl; [done|]. by rewrite IH. Qed.

Lemma for_op_bind {A B} (f : B → op_on S) (g : A → list B) l :
  same (for_op f (l ≫= g)) (for_op (λ x, for_op f (g x)) l).
Proof. induction l as [|x l IH]; simpl; [done|]. by rewrite for_op_app, IH. Qed.

Lemma for_op_ext {A} (f g : A → op_on S) l : (∀ x, same (f x) (g x)) → same (for_op f l) (for_op g l).
Proof. intros H. induction l as [|x l IH]; simpl; [done|]. by rewrite (H x), IH. Qed.

(** What every step keeps, the loop keeps, also when it stops early. *)
Lemma and_then_keeps (R : relation S) m k st :
  Transitive R → R st (m st).1 → (∀ st', R st' (k st').1) → R st (and_then m k st).1.
Proof.
  intros Ht Hm Hk. unfold and_then. destruct (m st) as [st1 [e|]]; simpl in *; [done|].
  etrans; [exact Hm|apply Hk].
Qed.

Lemma for_op_keeps {A} (R : relation S) (f : A → op_on S) l st :
  Reflexive R → Transitive R → (∀ x st, R st (f x st).1) → R st (for_op f l st).1.
Proof.
  intros Hr Ht Hf. revert st. induction l as [|x l IH]; intros st; simpl; [apply Hr|].
  by apply and_then_keeps.
Qed.
End Ops.

Lemma and_then_ok {S} (m k : op_on S) st st' :
  and_then m k st = (st', None) → ∃ st1, m st = (st1, None) ∧ k st1 = (st', None).
Proof. unfold and_then. destruct (m st) as [st1 [e|]]; [done|]. eauto. Qed.

(** A function without repetitions on a list is injective there. *)
Lemma fmap_NoDup_inj {A B} (f : A → B) l x y :
  NoDup (f <$> l) → x ∈ l → y ∈ l → f x = f y → x = y.
Proof.
  induction l as [|z l IH]; simpl; [by intros _ ?%not_elem_of_nil|].
  intros [Hz Hl]%NoDup_cons [->|Hx]%elem_of_cons [->|Hy]%elem_of_cons E; auto.
  - exfalso. apply Hz. rewrite E. by apply list_elem_of_fmap_2.
  - exfalso. apply Hz. rewrite <- E. by apply list_elem_of_fmap_2.
Qed.

(** ** The entries of one kind *)

Section Keyed.
Context {N : Type}.

(** Log entries: package path, key, node. *)
Definition keyed {T} (as_kind : N → option T) (l : list (string * (string * N))) : list (string * T) :=
  omap (λ e, (λ x, (e.2.1, x)) <$> as_kind e.2.2) l.

Lemma keyed_snoc {T} (as_kind : N → option T) l path key n :
  keyed as_kind (l ++ [(path, (key, n))]) =
  keyed as_kind l ++ match as_kind n with Some x => [(key, x)] | None => [] end.
Proof. unfold keyed. rewrite omap_app. simpl. by destruct (as_kind n). Qed.

(** The first entry of each key. *)
Fixpoint firsts {T} (kept l : list (string * T)) : list (string * T) :=
  match l with
  | [] => kept
  | (k, x) :: l => firsts (if decide (k ∈ kept.*1) then kept else kept ++ [(k, x)]) l
  end.

Lemma firsts_snoc {T} (kept l : list (string * T)) k x :
  firsts kept (l ++ [(k, x)]) =
  if decide (k ∈ (firsts kept l).*1) then firsts kept l else firsts kept l ++ [(k, x)].
Proof. revert kept. induction l as [|[k' y] l IH]; intros kept; simpl; [done|]. apply IH. Qed.
End Keyed.

Lemma index_ok_fold {A K V} `{Countable K} (key : A → K) (x : V) (ds : list A) m (l : list (K * V)) :
  index_ok m l → index_ok (fold_left (λ ix d, Index_Add ix (key d) x) ds m) (l ++ ((λ d, (key d, x)) <$> ds)).
Proof.
  revert m l. induction ds as [|d ds IH]; intros m l Hm; simpl; [by rewrite app_nil_r|].
  rewrite cons_middle, app_assoc. by apply IH, index_ok_add.
Qed.

(** A bucket lists the entries of its log in order and finds each by its key. *)
Definition serves {T} (b : Bucket T) (l : list (string * T)) : Prop :=
  Items b = l.*2 ∧ Bucket_Len b = length l ∧ ∀ q x, ByQName b q = Some x ↔ (q, x) ∈ l.

Lemma bucket_serves {T} (b : Bucket T) l : bucket_ok b l → serves b l.
Proof.
  intros [Hi Hk Hm]. split_and!; [done|unfold Bucket_Len; by rewrite Hi, length_fmap|].
  intros q x. unfold ByQName. rewrite Hm. symmetry. by apply elem_of_list_to_map.
Qed.
