(* ===== verification/StoreNodes.v ===== *)
(** * store: the view of source nodes

    [NodeView] of [src/store/node_view.go]: the per-kind buckets and the
    cross-cutting indexes a frontend fills through [AddPackage], the freeze
    flag, and the opt-in metadata-key index with its observers.

    An operation runs on the view and the metadata bags of the nodes and
    returns an error or nothing; a failing [AddPackage] keeps what it recorded
    before the failure, as the code does.  An observer closure is the index of
    its node in [registered]: [notify] is what the closures do when a bag they
    are attached to is written.

    [AddPackage] runs here from start to end.  The code locks each bucket and
    index for one [Add] at a time, so calls that run beside each other may mix
    their entries; what such a mix does to a view is a sequence of the single
    adds of [StoreEmitLaws.direct_add]. *)

From S2P Require Import Prelude GoStrings Position Diag Meta Directive Node NodeQueries StoreIndex StoreOps.

Local Open Scope string_scope.
Local Open Scope nat_scope.
Local Open Scope list_scope.

Record NodeView := MkNodeView {
  packages : Bucket Package;
  files : Bucket File;
  imports : Bucket Import;
  structs : Bucket Struct;
  interfaces : Bucket Interface;
  methods : Bucket Method;
  fields : Bucket Field;
  functions : Bucket Function_;
  variables : Bucket Variable_;
  constants : Bucket Constant;
  enums : Bucket Enum;
  enumVariants : Bucket EnumVariant;
  aliases : Bucket Alias;
  byPackage : MultiIndex string Node;
  byDirective : MultiIndex string Node;
  byMetaKey : MultiIndex string Node;
  metaIndex : bool;
  warnedMetaIndex : bool;
  frozen : bool;
  registered : list Node;
}.

Definition newNodeView : NodeView :=
  MkNodeView NewBucket NewBucket NewBucket NewBucket NewBucket NewBucket NewBucket NewBucket NewBucket
    NewBucket NewBucket NewBucket NewBucket NewMultiIndex NewMultiIndex NewMultiIndex false false false [].

(** ** Field updates *)

Definition set_packages (v : NodeView) (x : Bucket Package) : NodeView :=
  MkNodeView x (files v) (imports v) (structs v) (interfaces v) (methods v) (fields v)
    (functions v) (variables v) (constants v) (enums v) (enumVariants v) (aliases v) (byPackage v)
    (byDirective v) (byMetaKey v) (metaIndex v) (warnedMetaIndex v) (frozen v) (registered v).
Definition set_files (v : NodeView) (x : Bucket File) : NodeView :=
  MkNodeView (packages v) x (imports v) (structs v) (interfaces v) (methods v) (fields v)
    (functions v) (variables v) (constants v) (enums v) (enumVariants v) (aliases v) (byPackage v)
    (byDirective v) (byMetaKey v) (metaIndex v) (warnedMetaIndex v) (frozen v) (registered v).
Definition set_imports (v : NodeView) (x : Bucket Import) : NodeView :=
  MkNodeView (packages v) (files v) x (structs v) (interfaces v) (methods v) (fields v)
    (functions v) (variables v) (constants v) (enums v) (enumVariants v) (aliases v) (byPackage v)
    (byDirective v) (byMetaKey v) (metaIndex v) (warnedMetaIndex v) (frozen v) (registered v).
Definition set_structs (v : NodeView) (x : Bucket Struct) : NodeView :=
  MkNodeView (packages v) (files v) (imports v) x (interfaces v) (methods v) (fields v)
    (functions v) (variables v) (constants v) (enums v) (enumVariants v) (aliases v) (byPackage v)
    (byDirective v) (byMetaKey v) (metaIndex v) (warnedMetaIndex v) (frozen v) (registered v).
Definition set_interfaces (v : NodeView) (x : Bucket Interface) : NodeView :=
  MkNodeView (packages v) (files v) (imports v) (structs v) x (methods v) (fields v) (functions v)
    (variables v) (constants v) (enums v) (enumVariants v) (aliases v) (byPackage v)
    (byDirective v) (byMetaKey v) (metaIndex v) (warnedMetaIndex v) (frozen v) (registered v).
Definition set_methods (v : NodeView) (x : Bucket Method) : NodeView :=
  MkNodeView (packages v) (files v) (imports v) (structs v) (interfaces v) x (fields v)
    (functions v) (variables v) (constants v) (enums v) (enumVariants v) (aliases v) (byPackage v)
    (byDirective v) (byMetaKey v) (metaIndex v) (warnedMetaIndex v) (frozen v) (registered v).
Definition set_fields (v : NodeView) (x : Bucket Field) : NodeView :=
  MkNodeView (packages v) (files v) (imports v) (structs v) (interfaces v) (methods v) x
    (functions v) (variables v) (constants v) (enums v) (enumVariants v) (aliases v) (byPackage v)
    (byDirective v) (byMetaKey v) (metaIndex v) (warnedMetaIndex v) (frozen v) (registered v).
Definition set_functions (v : NodeView) (x : Bucket Function_) : NodeView :=
  MkNodeView (packages v) (files v) (imports v) (structs v) (interfaces v) (methods v) (fields v)
    x (variables v) (constants v) (enums v) (enumVariants v) (aliases v) (byPackage v)
    (byDirective v) (byMetaKey v) (metaIndex v) (warnedMetaIndex v) (frozen v) (registered v).
Definition set_variables (v : NodeView) (x : Bucket Variable_) : NodeView :=
  MkNodeView (packages v) (files v) (imports v) (structs v) (interfaces v) (methods v) (fields v)
    (functions v) x (constants v) (enums v) (enumVariants v) (aliases v) (byPackage v)
    (byDirective v) (byMetaKey v) (metaIndex v) (warnedMetaIndex v) (frozen v) (registered v).
Definition set_constants (v : NodeView) (x : Bucket Constant) : NodeView :=
  MkNodeView (packages v) (files v) (imports v) (structs v) (interfaces v) (methods v) (fields v)
    (functions v) (variables v) x (enums v) (enumVariants v) (aliases v) (byPackage v)
    (byDirective v) (byMetaKey v) (metaIndex v) (warnedMetaIndex v) (frozen v) (registered v).
Definition set_enums (v : NodeView) (x : Bucket Enum) : NodeView :=
  MkNodeView (packages v) (files v) (imports v) (structs v) (interfaces v) (methods v) (fields v)
    (functions v) (variables v) (constants v) x (enumVariants v) (aliases v) (byPackage v)
    (byDirective v) (byMetaKey v) (metaIndex v) (warnedMetaIndex v) (frozen v) (registered v).
Definition set_enumVariants (v : NodeView) (x : Bucket EnumVariant) : NodeView :=
  MkNodeView (packages v) (files v) (imports v) (structs v) (interfaces v) (methods v) (fields v)
    (functions v) (variables v) (constants v) (enums v) x (aliases v) (byPackage v)
    (byDirective v) (byMetaKey v) (metaIndex v) (warnedMetaIndex v) (frozen v) (registered v).
Definition set_aliases (v : NodeView) (x : Bucket Alias) : NodeView :=
  MkNodeView (packages v) (files v) (imports v) (structs v) (interfaces v) (methods v) (fields v)
    (functions v) (variables v) (constants v) (enums v) (enumVariants v) x (byPackage v)
    (byDirective v) (byMetaKey v) (metaIndex v) (warnedMetaIndex v) (frozen v) (registered v).
Definition set_byPackage (v : NodeView) (x : MultiIndex string Node) : NodeView :=
  MkNodeView (packages v) (files v) (imports v) (structs v) (interfaces v) (methods v) (fields v)
    (functions v) (variables v) (constants v) (enums v) (enumVariants v) (aliases v) x
    (byDirective v) (byMetaKey v) (metaIndex v) (warnedMetaIndex v) (frozen v) (registered v).
Definition set_byDirective (v : NodeView) (x : MultiIndex string Node) : NodeView :=
  MkNodeView (packages v) (files v) (imports v) (structs v) (interfaces v) (methods v) (fields v)
    (functions v) (variables v) (constants v) (enums v) (enumVariants v) (aliases v) (byPackage v)
    x (byMetaKey v) (metaIndex v) (warnedMetaIndex v) (frozen v) (registered v).
Definition set_byMetaKey (v : NodeView) (x : MultiIndex string Node) : NodeView :=
  MkNodeView (packages v) (files v) (imports v) (structs v) (interfaces v) (methods v) (fields v)
    (functions v) (variables v) (constants v) (enums v) (enumVariants v) (aliases v) (byPackage v)
    (byDirective v) x (metaIndex v) (warnedMetaIndex v) (frozen v) (registered v).
Definition set_metaIndex (v : NodeView) (x : bool) : NodeView :=
  MkNodeView (packages v) (files v) (imports v) (structs v) (interfaces v) (methods v) (fields v)
    (functions v) (variables v) (constants v) (enums v) (enumVariants v) (aliases v) (byPackage v)
    (byDirective v) (byMetaKey v) x (warnedMetaIndex v) (frozen v) (registered v).
Definition set_warnedMetaIndex (v : NodeView) (x : bool) : NodeView :=
  MkNodeView (packages v) (files v) (imports v) (structs v) (interfaces v) (methods v) (fields v)
    (functions v) (variables v) (constants v) (enums v) (enumVariants v) (aliases v) (byPackage v)
    (byDirective v) (byMetaKey v) (metaIndex v) x (frozen v) (registered v).
Definition set_frozen (v : NodeView) (x : bool) : NodeView :=
  MkNodeView (packages v) (files v) (imports v) (structs v) (interfaces v) (methods v) (fields v)
    (functions v) (variables v) (constants v) (enums v) (enumVariants v) (aliases v) (byPackage v)
    (byDirective v) (byMetaKey v) (metaIndex v) (warnedMetaIndex v) x (registered v).
Definition set_registered (v : NodeView) (x : list Node) : NodeView :=
  MkNodeView (packages v) (files v) (imports v) (structs v) (interfaces v) (methods v) (fields v)
    (functions v) (variables v) (constants v) (enums v) (enumVariants v) (aliases v) (byPackage v)
    (byDirective v) (byMetaKey v) (metaIndex v) (warnedMetaIndex v) (frozen v) x.

(** ** Operations *)

Record nstate := MkN { n_view : NodeView; n_metas : metas }.

Abbreviation op := (op_on nstate).

(** [if err := b.Add(qname, item); err != nil { return err }] *)
Definition add_to {T} (get : NodeView → Bucket T) (set : NodeView → Bucket T → NodeView)
    (qname : string) (item : T) : op := λ st,
  match Bucket_Add (get (n_view st)) qname item with
  | Ok b => (MkN (set (n_view st) b) (n_metas st), None)
  | Err e => (st, Some e)
  end.

(** [_ = b.Add(qname, item)] *)
Definition add_ignoring {T} (get : NodeView → Bucket T) (set : NodeView → Bucket T → NodeView)
    (qname : string) (item : T) (st : nstate) : nstate :=
  (add_to get set qname item st).1.

Definition indexCommon (n : Node) (pkgPath : string) (st : nstate) : nstate :=
  let v := n_view st in
  let v := set_byPackage v (Index_Add (byPackage v) pkgPath n) in
  let v := set_byDirective v
    (fold_left (λ ix d, Index_Add ix (Name d) n) (node_Directives n) (byDirective v)) in
  let v := set_byMetaKey v
    (fold_left (λ ix name, Index_Add ix name n) (Meta.Names (node_Meta (n_metas st) n)) (byMetaKey v)) in
  if negb (metaIndex v) then MkN v (n_metas st)
  else
    let '(bag, h) := base_EnsureMeta (n_metas st) (node_base n) in
    let o := length (registered v) in
    MkN (set_registered v (registered v ++ [n])) (<[node_ref n := AddObserver bag o]> h).

Definition addMethod (m : Method) (ownerQName pkgPath : string) : op :=
  and_then (add_to methods set_methods (ownerQName +:+ "." +:+ m_Name m) m)
    (then_do (indexCommon (NMethod m) pkgPath)).

Definition add_import (i : Import) (pkgPath : string) : op :=
  then_do (λ st, indexCommon (NImport i) pkgPath (add_ignoring imports set_imports (im_Path i) i st)).

Definition addFile (f : File) (pkgPath : string) : op :=
  and_then (add_to files set_files (fi_Path f) f)
    (and_then (then_do (indexCommon (NFile f) pkgPath))
      (for_op (λ i, add_import i pkgPath) (fi_Imports f))).

Definition addStruct (s : Struct) (pkgPath : string) : op :=
  let qname := Struct_QName s in
  and_then (add_to structs set_structs qname s)
    (and_then (then_do (indexCommon (NStruct s) pkgPath))
      (and_then
        (for_op (λ f, and_then (add_to fields set_fields (qname +:+ "." +:+ f_Name f) f)
                        (then_do (indexCommon (NField f) pkgPath))) (s_Fields s))
        (for_op (λ m, addMethod m qname pkgPath) (s_Methods s)))).

Definition addInterface (i : Interface) (pkgPath : string) : op :=
  let qname := Interface_QName i in
  and_then (add_to interfaces set_interfaces qname i)
    (and_then (then_do (indexCommon (NInterface i) pkgPath))
      (for_op (λ m, addMethod m qname pkgPath) (i_Methods i))).

Definition addFunction (f : Function_) (pkgPath : string) : op :=
  and_then (add_to functions set_functions (Function_QName f) f)
    (then_do (indexCommon (NFunction f) pkgPath)).

Definition addVariable (vd : Variable_) (pkgPath : string) : op :=
  and_then (add_to variables set_variables (Variable_QName vd) vd)
    (then_do (indexCommon (NVariable vd) pkgPath)).

Definition addConstant (c : Constant) (pkgPath : string) : op :=
  and_then (add_to constants set_constants (Constant_QName c) c)
    (then_do (indexCommon (NConstant c) pkgPath)).

Definition addEnum (e : Enum) (pkgPath : string) : op :=
  let qname := Enum_QName e in
  and_then (add_to enums set_enums qname e)
    (and_then (then_do (indexCommon (NEnum e) pkgPath))
      (and_then
        (for_op (λ vt, and_then (add_to enumVariants set_enumVariants (qname +:+ "." +:+ ev_Name vt) vt)
                         (then_do (indexCommon (NEnumVariant vt) pkgPath))) (e_Variants e))
        (for_op (λ m, addMethod m qname pkgPath) (e_Methods e)))).

Definition addAlias (a : Alias) (pkgPath : string) : op :=
  let qname := Alias_QName a in
  and_then (add_to aliases set_aliases qname a)
    (and_then (then_do (indexCommon (NAlias a) pkgPath))
      (for_op (λ m, addMethod m qname pkgPath) (a_Methods a))).

(** The body of [AddPackage] after its two guards. *)
Definition record_package (p : Package) : op :=
  let path := p_Path p in
  and_then (add_to packages set_packages path p)
    (and_then (then_do (indexCommon (NPackage p) path))
    (and_then (for_op (λ f, addFile f path) (p_Files p))
    (and_then (for_op (λ i, add_import i path) (p_Imports p))
    (and_then (for_op (λ s, addStruct s path) (p_Structs p))
    (and_then (for_op (λ i, addInterface i path) (p_Interfaces p))
    (and_then (for_op (λ f, addFunction f path) (p_Functions p))
    (and_then (for_op (λ v, addVariable v path) (p_Variables p))
    (and_then (for_op (λ c, addConstant c path) (p_Constants p))
    (and_then (for_op (λ e, addEnum e path) (p_Enums p))
              (for_op (λ a, addAlias a path) (p_Aliases p))))))))))).

Definition AddPackage (p : option Package) : op := λ st,
  match p with
  | None => (st, Some ErrNilEntry)
  | Some p =>
      if frozen (n_view st) then (st, Some (ErrFrozen "NodeView (post-frontend phase)"))
      else record_package p st
  end.

(** ** Accessors and switches *)

Definition Packages (v : NodeView) : Bucket Package := packages v.
Definition Files (v : NodeView) : Bucket File := files v.
Definition Imports (v : NodeView) : Bucket Import := imports v.
Definition Structs (v : NodeView) : Bucket Struct := structs v.
Definition Interfaces (v : NodeView) : Bucket Interface := interfaces v.
Definition Methods (v : NodeView) : Bucket Method := methods v.
Definition Fields (v : NodeView) : Bucket Field := fields v.
Definition Functions (v : NodeView) : Bucket Function_ := functions v.
Definition Variables (v : NodeView) : Bucket Variable_ := variables v.
Definition Constants (v : NodeView) : Bucket Constant := constants v.
Definition Enums (v : NodeView) : Bucket Enum := enums v.
Definition EnumVariants (v : NodeView) : Bucket EnumVariant := enumVariants v.
Definition Aliases (v : NodeView) : Bucket Alias := aliases v.
Definition ByPackage (v : NodeView) : MultiIndex string Node := byPackage v.
Definition ByDirective (v : NodeView) : MultiIndex string Node := byDirective v.

Definition EnableMetaKeyIndex (v : NodeView) : NodeView := set_metaIndex v true.
Definition Freeze (v : NodeView) : NodeView := set_frozen v true.
Definition IsFrozen (v : NodeView) : bool := frozen v.

(** [diag.go]: the notice, silent without a sink. *)
Definition emitDisabledMetaIndex (d : option Sink) (enable : string) : option Sink :=
  (λ sk, Infof (For "store") sk zero_pos
    ("ByMetaKey consulted while the metadata-key index is disabled; "
     +:+ "it holds only keys present at ingest — call %s to record later writes")
    [AStr enable]) <$> d.

(** [ByMetaKey]: [sync.Once] is the [warnedMetaIndex] flag. *)
Definition ByMetaKey (v : NodeView) (d : option Sink) : MultiIndex string Node * NodeView * option Sink :=
  if negb (metaIndex v) && negb (warnedMetaIndex v)
  then (byMetaKey v, set_warnedMetaIndex v true, emitDisabledMetaIndex d "NodeView.EnableMetaKeyIndex")
  else (byMetaKey v, v, d).

(** What the observers of a bag do when a write fires them. *)
Definition notify (v : NodeView) (fired : list (nat * string)) : NodeView :=
  fold_left (λ v '(o, name),
    match registered v !! o with
    | Some n => set_byMetaKey v (Index_Add (byMetaKey v) name n)
    | None => v
    end) fired v.
