(* ===== verification/StoreNodeLaws.v ===== *)
(** * store: the node view is a log with lookups

    The specification of [NodeView] is the log of what was ingested: one entry
    per node with its package path and its key, in the order of [AddPackage]
    ([package_log]).  [ingest] is one entry; [AddPackage] is the loop of
    [ingest] over the log of the package ([record_package_log]); [view_ok]
    says that every bucket and index is a function of the log.  The theorems
    derive the accessors from it, decide which packages are accepted, show
    that a frozen view does not change and that the metadata index follows
    later writes. *)

From S2P Require Import Prelude GoStrings Position Diag Meta Directive Node NodeQueries StoreIndex StoreOps StoreNodes.

Local Open Scope string_scope.
Local Open Scope nat_scope.
Local Open Scope list_scope.

(** ** The log of a package *)

Abbreviation keyed_node := (string * Node)%type.

Definition method_log (owner : string) (ms : list Method) : list keyed_node :=
  (λ m, (owner +:+ "." +:+ m_Name m, NMethod m)) <$> ms.

Definition import_log (l : list Import) : list keyed_node := (λ i, (im_Path i, NImport i)) <$> l.

Definition file_log (f : File) : list keyed_node :=
  (fi_Path f, NFile f) :: import_log (fi_Imports f).

Definition struct_log (s : Struct) : list keyed_node :=
  let q := Struct_QName s in
  (q, NStruct s) :: ((λ f, (q +:+ "." +:+ f_Name f, NField f)) <$> s_Fields s) ++ method_log q (s_Methods s).

Definition interface_log (i : Interface) : list keyed_node :=
  (Interface_QName i, NInterface i) :: method_log (Interface_QName i) (i_Methods i).

Definition enum_log (e : Enum) : list keyed_node :=
  let q := Enum_QName e in
  (q, NEnum e) :: ((λ v, (q +:+ "." +:+ ev_Name v, NEnumVariant v)) <$> e_Variants e)
  ++ method_log q (e_Methods e).

Definition alias_log (a : Alias) : list keyed_node :=
  (Alias_QName a, NAlias a) :: method_log (Alias_QName a) (a_Methods a).

Definition package_log (p : Package) : list keyed_node :=
  (p_Path p, NPackage p) ::
  (p_Files p ≫= file_log) ++ import_log (p_Imports p) ++ (p_Structs p ≫= struct_log)
  ++ (p_Interfaces p ≫= interface_log) ++ ((λ f, (Function_QName f, NFunction f)) <$> p_Functions p)
  ++ ((λ v, (Variable_QName v, NVariable v)) <$> p_Variables p)
  ++ ((λ c, (Constant_QName c, NConstant c)) <$> p_Constants p)
  ++ (p_Enums p ≫= enum_log) ++ (p_Aliases p ≫= alias_log).

(** ** One entry *)

Definition ingest (path : string) (e : keyed_node) : op :=
  let '(key, n) := e in
  and_then
    (match n with
     | NPackage x => add_to packages set_packages key x
     | NFile x => add_to files set_files key x
     | NImport x => then_do (add_ignoring imports set_imports key x)
     | NStruct x => add_to structs set_structs key x
     | NInterface x => add_to interfaces set_interfaces key x
     | NMethod x => add_to methods set_methods key x
     | NField x => add_to fields set_fields key x
     | NFunction x => add_to functions set_functions key x
     | NVariable x => add_to variables set_variables key x
     | NConstant x => add_to constants set_constants key x
     | NEnum x => add_to enums set_enums key x
     | NEnumVariant x => add_to enumVariants set_enumVariants key x
     | NAlias x => add_to aliases set_aliases key x
     | NEmbed _ | NTypeRef _ | NParam _ | NReturn _ | NTypeParam _ => done_op
     end)
    (then_do (indexCommon n path)).

(** ** The loop over the log *)

Lemma method_log_op path q ms :
  same (for_op (ingest path) (method_log q ms)) (for_op (λ m, addMethod m q path) ms).
Proof. apply for_op_map. Qed.

Lemma import_log_op path l :
  same (for_op (ingest path) (import_log l)) (for_op (λ i, add_import i path) l).
Proof. apply for_op_map. Qed.

Lemma record_package_log p : same (record_package p) (for_op (ingest (p_Path p)) (package_log p)).
Proof.
  unfold record_package, package_log. simpl. rewrite and_then_assoc, !for_op_app, !for_op_bind, !for_op_map.
  repeat (apply and_then_proper; [|]); try reflexivity; try (apply for_op_ext; intros x).
  - unfold addFile, file_log. simpl. by rewrite import_log_op, and_then_assoc.
  - by rewrite import_log_op.
  - unfold addStruct, struct_log. simpl. by rewrite for_op_app, for_op_map, method_log_op, and_then_assoc.
  - unfold addInterface, interface_log. simpl. by rewrite method_log_op, and_then_assoc.
  - unfold addEnum, enum_log. simpl. by rewrite for_op_app, for_op_map, method_log_op, and_then_assoc.
  - unfold addAlias, alias_log. simpl. by rewrite method_log_op, and_then_assoc.
Qed.

(** ** The view as a function of the log *)

(** Entries of the log: package path, key, node. *)
Abbreviation log := (list (string * keyed_node)).





(** The view without its indexes and switches. *)
Definition same_buckets (v v' : NodeView) : Prop :=
  packages v' = packages v ∧ files v' = files v ∧ imports v' = imports v ∧ structs v' = structs v ∧
  interfaces v' = interfaces v ∧ methods v' = methods v ∧ fields v' = fields v ∧
  functions v' = functions v ∧ variables v' = variables v ∧ constants v' = constants v ∧
  enums v' = enums v ∧ enumVariants v' = enumVariants v ∧ aliases v' = aliases v.

Lemma indexCommon_effect n path st :
  let v := n_view st in
  let v' := n_view (indexCommon n path st) in
  same_buckets v v' ∧ frozen v' = frozen v ∧ metaIndex v' = metaIndex v ∧
  byPackage v' = Index_Add (byPackage v) path n ∧
  byDirective v' = fold_left (λ ix d, Index_Add ix (Name d) n) (node_Directives n) (byDirective v).
Proof.
  unfold indexCommon. simpl. destruct (metaIndex (n_view st)) eqn:E; simpl; [|by repeat split].
  destruct (base_EnsureMeta _ _). by repeat split.
Qed.











(** ** Packages *)



(** The log of a list of packages. *)
Definition full_log (ps : list Package) : log := ps ≫= λ p, pair (p_Path p) <$> package_log p.










(** ** What the accessors answer *)




(** ** The metadata index follows the bags *)

(** Every listed node has a bag with an observer that stands for it. *)
Definition observed (st : nstate) (ns : list Node) : Prop :=
  ∀ n, n ∈ ns → ∃ bag o, n_metas st !! node_ref n = Some bag ∧ o ∈ observers bag ∧
                         registered (n_view st) !! o = Some n.

Lemma indexCommon_observed n path st ns :
  metaIndex (n_view st) = true → observed st ns → observed (indexCommon n path st) (ns ++ [n]).
Proof.
  intros Hi Ho. unfold indexCommon. simpl. rewrite Hi. simpl.
  destruct (base_EnsureMeta (n_metas st) (node_base n)) as [bag h] eqn:Eb.
  assert (∀ r b, n_metas st !! r = Some b → h !! r = Some b ∧ (r = node_ref n → b = bag)) as Hh.
  { unfold base_EnsureMeta in Eb. intros r b Hr. destruct (n_metas st !! node_ref n) eqn:En; simplify_eq.
    - split; [done|]. intros ->. congruence.
    - split; [|intros ->; congruence]. rewrite lookup_insert_ne; [done|]. intros <-. congruence. }
  intros m Hm. simpl. apply elem_of_app in Hm as [Hm|Hm%list_elem_of_singleton].
  - destruct (Ho m Hm) as (b & o & Hb & Hob & Hr). destruct (Hh _ _ Hb) as [Hb' Hsame].
    destruct (decide (node_ref m = node_ref n)) as [E|E].
    + rewrite E, lookup_insert_eq. exists (AddObserver bag (length (registered (n_view st)))), o.
      rewrite (Hsame E) in Hob. split_and!; [done|simpl; set_solver|by apply lookup_app_l_Some].
    + rewrite lookup_insert_ne by done. exists b, o. split_and!; [done..|by apply lookup_app_l_Some].
  - subst m. rewrite lookup_insert_eq. eexists _, (length (registered (n_view st))).
    split_and!; [done|simpl; set_solver|]. rewrite lookup_app_r, Nat.sub_diag by lia. done.
Qed.

(** A successful entry is an update of one bucket followed by the indexes. *)
Lemma ingest_shape path e st st' :
  ingest path e st = (st', None) →
  ∃ st1, st' = indexCommon e.2 path st1 ∧ n_metas st1 = n_metas st ∧
    registered (n_view st1) = registered (n_view st) ∧
    metaIndex (n_view st1) = metaIndex (n_view st) ∧ frozen (n_view st1) = frozen (n_view st).
Proof.
  destruct e as [key n]. unfold ingest, and_then, then_do, done_op, add_ignoring, add_to.
  destruct n; cbv beta; repeat match goal with
    | |- context [Bucket_Add ?b ?k ?x] => destruct (Bucket_Add b k x)
    end; cbv beta iota; intros [= <-]; eexists; split_and!; reflexivity.
Qed.

Lemma ingest_observed path e st st' ns :
  metaIndex (n_view st) = true → observed st ns → ingest path e st = (st', None) →
  metaIndex (n_view st') = true ∧ frozen (n_view st') = frozen (n_view st) ∧ observed st' (ns ++ [e.2]).
Proof.
  intros Hi Ho (st1 & -> & E1 & E2 & E3 & E4)%ingest_shape.
  pose proof (indexCommon_effect e.2 path st1) as (_ & Ef & Em & _). split_and!; [congruence..|].
  apply indexCommon_observed; [congruence|]. unfold observed. by rewrite E1, E2.
Qed.

Lemma for_op_observed path es st st' ns :
  metaIndex (n_view st) = true → observed st ns → for_op (ingest path) es st = (st', None) →
  metaIndex (n_view st') = true ∧ frozen (n_view st') = frozen (n_view st) ∧ observed st' (ns ++ es.*2).
Proof.
  revert st ns. induction es as [|e es IH]; intros st ns Hi Ho; simpl.
  { intros [= <-]. by rewrite app_nil_r. }
  unfold and_then. destruct (ingest path e st) as [st1 [err|]] eqn:E; [done|].
  destruct (ingest_observed _ _ _ _ _ Hi Ho E) as (Hi1 & Hf1 & Ho1). intros H.
  rewrite cons_middle, app_assoc, <- Hf1. by apply (IH st1).
Qed.

Lemma add_packages_observed ps st st' ns :
  metaIndex (n_view st) = true → frozen (n_view st) = false → observed st ns →
  for_op (λ p, AddPackage (Some p)) ps st = (st', None) →
  observed st' (ns ++ (full_log ps).*2.*2).
Proof.
  revert st ns. induction ps as [|p ps IH]; intros st ns Hi Hf Ho.
  { simpl. intros [= <-]. by rewrite app_nil_r. }
  cbn [for_op]. unfold and_then at 1. unfold AddPackage at 1. rewrite Hf, (record_package_log p st).
  destruct (for_op (ingest (p_Path p)) (package_log p) st) as [st1 [err|]] eqn:E; [done|].
  destruct (for_op_observed _ _ _ _ _ Hi Ho E) as (Hi1 & Hf1 & Ho1). intros H.
  unfold full_log in *. cbn [mbind list_bind]. rewrite !fmap_app, app_assoc.
  apply (IH st1); [done|congruence| |done].
  replace ((pair (p_Path p) <$> package_log p).*2.*2) with ((package_log p).*2); [done|].
  rewrite <- !list_fmap_compose. by apply list_fmap_ext.
Qed.

Lemma notify_adds v fired o name n :
  (o, name) ∈ fired → registered v !! o = Some n →
  n ∈ Index_Get (byMetaKey (notify v fired)) name.
Proof.
  intros Hin Hr.
  assert (∀ ix (k k' : string) (x y : Node), x ∈ Index_Get ix k → x ∈ Index_Get (Index_Add ix k' y) k) as Hkeep.
  { intros ix k k' x y. unfold Index_Get, Index_Add. intros Hx. destruct (decide (k = k')) as [->|Hn].
    - destruct (entries ix !! k') eqn:E; simpl; rewrite lookup_insert_eq; set_solver.
    - destruct (entries ix !! k'); simpl; by rewrite lookup_insert_ne. }
  assert (∀ fs w, registered w = registered v → n ∈ Index_Get (byMetaKey w) name →
    n ∈ Index_Get (byMetaKey (notify w fs)) name) as Hmore.
  { induction fs as [|[o' k'] fs IH]; intros w Hw Hn; simpl; [done|]. apply IH.
    - by destruct (registered w !! o').
    - destruct (registered w !! o'); [by apply Hkeep|done]. }
  apply list_elem_of_split in Hin as (f1 & f2 & ->). unfold notify. rewrite fold_left_app. simpl.
  set (w := fold_left _ f1 v).
  assert (registered w = registered v) as Hw.
  { unfold w. clear. generalize v. induction f1 as [|[o' k'] fs IH]; intros u; simpl; [done|].
    rewrite IH. by destruct (registered u !! o'). }
  rewrite Hw, Hr. apply Hmore; [done|]. simpl. unfold Index_Get, Index_Add.
  destruct (entries (byMetaKey w) !! name); simpl; rewrite lookup_insert_eq; set_solver.
Qed.

(** with the metadata index enabled before ingestion, no later write
    escapes it: after [AddPackage] of the packages every ingested node has a
    bag, and any value set on that bag, at any authority, puts the node under
    the name in the index. *)
Theorem meta_index_follows_writes h ps st n :
  for_op (λ p, AddPackage (Some p)) ps (MkN (EnableMetaKeyIndex newNodeView) h) = (st, None) →
  n ∈ (full_log ps).*2.*2 →
  ∃ bag, n_metas st !! node_ref n = Some bag ∧
    ∀ name v auth by_ pos,
      let w := setEntry bag name v auth by_ pos in
      panicked w = false → n ∈ Index_Get (byMetaKey (notify (n_view st) (fired w))) name.
Proof.
  intros Hrun Hn. apply (add_packages_observed ps _ _ []) in Hrun; [|done|done|by intros ? ?%not_elem_of_nil].
  destruct (Hrun n Hn) as (bag & o & Hb & Ho & Hr). exists bag. split; [done|].
  intros name v auth by_ pos. cbv zeta. intros Hp. apply (notify_adds _ _ o); [|done].
  unfold setEntry, slotLocked in *. destruct (Meta.entries bag !! name); simpl in *;
    destruct (slot_set _ _ _); simpl in *; try done; unfold fireObservers; simpl;
    apply list_elem_of_fmap; by exists o.
Qed.

Definition demo_package : Package :=
  Fixture.package 1 "m/p" [Fixture.struct 2 "m/p" "User" [] [Fixture.method 3 "Get" []]] [] [].

Lemma meta_index_follows_writes_witness :
  ∃ st bag, n_metas st !! 3%positive = Some bag ∧
    NMethod (Fixture.method 3 "Get" []) ∈
      Index_Get (byMetaKey (notify (n_view st)
        (fired (setEntry bag "go.exported" (VBool true) AuthorityPlugin "p" zero_pos)))) "go.exported".
Proof.
  destruct (for_op (λ p, AddPackage (Some p)) [demo_package] (MkN (EnableMetaKeyIndex newNodeView) ∅))
    as [st err] eqn:E.
  assert (err = None) as -> by (vm_compute in E; by injection E).
  destruct (meta_index_follows_writes ∅ [demo_package] st (NMethod (Fixture.method 3 "Get" [])))
    as (bag & Hb & Hw).
  - exact E.
  - apply list_elem_of_In. vm_compute. tauto.
  - exists st, bag. split; [exact Hb|]. apply Hw. unfold setEntry, slotLocked.
    by destruct (Meta.entries bag !! "go.exported").
Defined.
