(* ===== verification/Override.v ===== *)
(** * Metadata overrides from directives ([pipeline/override.go]) and the
      target scope ([pipeline/scope.go])

    A [meta] directive on a node writes that node's bag at directive
    authority.  The pass visits the nodes the store has recorded, the thirteen
    kinds of [rangeNodeView] one after the other; the key/value map of a
    directive is ranged over in an arbitrary order.  Key parsers are functions
    of the registry that return: one that panics ends the pass, which is left
    out. *)

From S2P Require Import Prelude GoStrings Position Diag Meta MetaLaws Directive Node StoreIndex StoreOps StoreNodes.

Local Open Scope string_scope.
Local Open Scope nat_scope.
Local Open Scope list_scope.

(** The bag, the observers fired so far, and the diagnostics. *)
Record ostate := MkO { o_bag : Bag; o_fired : list (nat * string); o_sink : Sink }.

Definition take_effect (st : ostate) (e : effect) : ostate :=
  MkO (after e) (o_fired st ++ fired e) (o_sink st).

Inductive MetaError :=
| UnknownMetaKey (name : string)
| MetaParse (name value : string) (e : ParseError).

Definition setMeta (reg : registry) (bag : Bag) (name value : string) (pos : Pos)
    : res MetaError effect :=
  match Lookup reg name with
  | Err _ => Err (UnknownMetaKey name)
  | Ok k =>
      match SetDirectiveFromString k bag value pos with
      | Err e => Err (MetaParse name value e)
      | Ok eff => Ok eff
      end
  end.

Definition tombstoneMeta (reg : registry) (bag : Bag) (name : string) (pos : Pos) : effect :=
  match Lookup reg name with
  | Ok k => TombstoneDirective k bag pos
  | Err _ => TombstonePrefix bag name AuthorityDirective "directive" pos
  end.

Section Override.
Context `{MapOrder} (reg : registry) (error_text : MetaError → string).

(** One assignment of the positive form: an error is a warning. *)
Definition set_step (ps : PluginSink) (pos : Pos) (st : ostate) (name value : string) : ostate :=
  match setMeta reg (o_bag st) name value pos with
  | Ok eff => take_effect st eff
  | Err e => MkO (o_bag st) (o_fired st)
               (Warnf ps (o_sink st) pos "directive override: %v" [AStr (error_text e)])
  end.

Definition tombstone_step (pos : Pos) (st : ostate) (name : string) : ostate :=
  take_effect st (tombstoneMeta reg (o_bag st) name pos).

Definition applyMetaDirective (ps : PluginSink) (d : Directive) (st : ostate) : ostate :=
  if Negated d then
    let st := foldl (tombstone_step (DPos d)) st (map_keys (KV d)) in
    foldl (tombstone_step (DPos d)) st (Args d)
  else
    let st := foldl (λ st k, set_step ps (DPos d) st k (default "" (KV d !! k))) st
                (map_keys (KV d)) in
    foldl (λ st k, set_step ps (DPos d) st k "true") st (Args d).

(** The heap of bags, the observers fired so far, and the diagnostics. *)
Record pstate := MkP { p_metas : metas; p_fired : list (nat * string); p_sink : Sink }.

(** One turn of the loop of the [visit] closure. *)
Definition visit_directive (ps : PluginSink) (n : Node) (st : pstate) (d : Directive) : pstate :=
  if negb (String.eqb (Name d) "meta") then st
  else
    let '(bag, h) := base_EnsureMeta (p_metas st) (node_base n) in
    let o := applyMetaDirective ps d (MkO bag (p_fired st) (p_sink st)) in
    MkP (<[node_ref n := o_bag o]> h) (o_fired o) (o_sink o).

Definition visit (ps : PluginSink) (n : Node) (st : pstate) : pstate :=
  foldl (visit_directive ps n) st (node_Directives n).

Definition rangeNodeView {S} (v : NodeView) (fn : Node → S → S) (s : S) : S :=
  let s := Bucket_Range (Packages v) (λ n s, (fn (NPackage n) s, true)) s in
  let s := Bucket_Range (Files v) (λ n s, (fn (NFile n) s, true)) s in
  let s := Bucket_Range (Imports v) (λ n s, (fn (NImport n) s, true)) s in
  let s := Bucket_Range (Structs v) (λ n s, (fn (NStruct n) s, true)) s in
  let s := Bucket_Range (Interfaces v) (λ n s, (fn (NInterface n) s, true)) s in
  let s := Bucket_Range (Methods v) (λ n s, (fn (NMethod n) s, true)) s in
  let s := Bucket_Range (Fields v) (λ n s, (fn (NField n) s, true)) s in
  let s := Bucket_Range (Functions v) (λ n s, (fn (NFunction n) s, true)) s in
  let s := Bucket_Range (Variables v) (λ n s, (fn (NVariable n) s, true)) s in
  let s := Bucket_Range (Constants v) (λ n s, (fn (NConstant n) s, true)) s in
  let s := Bucket_Range (Enums v) (λ n s, (fn (NEnum n) s, true)) s in
  let s := Bucket_Range (EnumVariants v) (λ n s, (fn (NEnumVariant n) s, true)) s in
  Bucket_Range (Aliases v) (λ n s, (fn (NAlias n) s, true)) s.

Definition runDirectiveOverride (v : NodeView) (h : metas) (sk : Sink) : pstate :=
  rangeNodeView v (visit (For "pipeline")) (MkP h [] sk).
End Override.

(** ** [scope.go] *)

(** A node as the predicate sees it: its kind decides whether it carries a
    qualified name. *)
Inductive scoped_kind := TopLevel | Nested | OtherKind.
Record scoped := MkScoped { sc_kind : scoped_kind; sc_name : string; sc_qname : string }.

Definition identityOfNode (n : scoped) : string * string :=
  match sc_kind n with
  | TopLevel => (sc_name n, sc_qname n)
  | Nested => (sc_name n, "")
  | OtherKind => ("", "")
  end.

Definition scopeBySymbol (symbol : string) (n : scoped) : bool :=
  let '(name, qname) := identityOfNode n in
  if String.eqb name symbol then true
  else if String.eqb qname "" then false
  else String.eqb qname symbol || has_suffix qname ("." +:+ symbol) ||
       has_suffix qname ("/" +:+ symbol).

(** * Properties of the directive override pass and of the target scope *)

(** Keys are registered under their own name. *)
Definition reg_wf (reg : registry) : Prop := map_Forall (λ n k, k_name k = n) reg.

(** What the registered key of a name reads from a text. *)
Definition parsed (reg : registry) (n text : string) : option value :=
  match reg !! n with
  | Some k => match k_parser k text with Ok v => Some v | Err _ => None end
  | None => None
  end.

(** ** The specification

    What one [meta] directive leaves at directive authority under a name. *)
Definition override_entry (reg : registry) (d : Directive) (n : string) (old : option entry)
    : option entry :=
  if Negated d then
    if decide (is_Some (KV d !! n) ∨ n ∈ Args d)
    then Some (MkEntry true None "directive" (DPos d)) else old
  else
    let by_pair := match KV d !! n with
                   | Some text => parsed reg n text
                   | None => None
                   end in
    let by_arg := if decide (n ∈ Args d) then parsed reg n "true" else None in
    match by_arg, by_pair with
    | Some v, _ | None, Some v => Some (MkEntry false (Some v) "directive" (DPos d))
    | None, None => old
    end.

(** The assignments of a positive directive that fail. *)
Definition failures (reg : registry) (d : Directive) : nat :=
  if Negated d then 0
  else length (filter (λ '(k, v), parsed reg k v = None) (map_to_list (KV d))) +
       length (filter (λ k, parsed reg k "true" = None) (Args d)).

Section Laws.
Context `{MapOrder} (reg : registry) (error_text : MetaError → string) (Hreg : reg_wf reg).
Abbreviation setS := (set_step reg error_text).
Abbreviation dir_entries b n := (entry_at b n AuthorityDirective).

(** What a step may touch. *)
Definition only_directive (b b' : Bag) : Prop :=
  ∀ n a, (0 <= a < 3)%Z → a ≠ AuthorityDirective → entry_at b' n a = entry_at b n a.

Lemma tombstone_step_bag pos st n :
  o_bag (tombstone_step reg pos st n) =
  after (do_write (o_bag st) (WTombstone n AuthorityDirective "directive" pos)) ∧
  o_sink (tombstone_step reg pos st n) = o_sink st.
Proof using Hreg.
  unfold tombstone_step, tombstoneMeta, Lookup. simpl. split; [|done].
  destruct (reg !! n) as [k|] eqn:Hk; [|done]. apply Hreg in Hk. unfold TombstoneDirective.
  by rewrite Hk.
Qed.

Lemma set_step_cases ps pos st n text :
  match parsed reg n text with
  | Some v => o_bag (setS ps pos st n text) =
                after (do_write (o_bag st) (WSet n v AuthorityDirective "directive" pos)) ∧
              o_sink (setS ps pos st n text) = o_sink st
  | None => o_bag (setS ps pos st n text) = o_bag st ∧
            ∃ m, o_sink (setS ps pos st n text) =
                 Append (o_sink st) (MkDiag Warn (plugin_name ps) pos m "")
  end.
Proof using Hreg.
  unfold set_step, setMeta, parsed, Lookup. destruct (reg !! n) as [k|] eqn:Hk.
  - unfold SetDirectiveFromString. apply Hreg in Hk.
    destruct (k_parser k text) as [v|e]; [|split; [done|]; by eexists].
    unfold SetDirective. by rewrite Hk.
  - split; [done|]. by eexists.
Qed.

Lemma directive_range : (0 <= AuthorityDirective < 3)%Z.
Proof. done. Qed.

Lemma write_directive_other b w :
  bag_wf b → w_auth w = AuthorityDirective → only_directive b (after (do_write b w)).
Proof.
  intros Hwf Hw n a Ha Hne. rewrite entry_at_do_write by done. rewrite decide_False; [done|].
  naive_solver.
Qed.

Lemma only_directive_trans b1 b2 b3 :
  only_directive b1 b2 → only_directive b2 b3 → only_directive b1 b3.
Proof. intros H1 H2 n a Ha Hne. rewrite H2, H1 by done. done. Qed.

(** The tombstones of the negated form. *)
Lemma tombstone_fold pos ns st :
  bag_wf (o_bag st) →
  let st' := foldl (tombstone_step reg pos) st ns in
  bag_wf (o_bag st') ∧ only_directive (o_bag st) (o_bag st') ∧ o_sink st' = o_sink st ∧
  ∀ n, dir_entries (o_bag st') n =
       if decide (n ∈ ns) then Some (MkEntry true None "directive" pos)
       else dir_entries (o_bag st) n.
Proof using Hreg.
  revert st. induction ns as [|m ns IH]; intros st Hwf; simpl.
  { split_and!; [done|by intros ? ? ? ?|done|done]. }
  destruct (tombstone_step_bag pos st m) as [Hb Hs].
  set (w := WTombstone m AuthorityDirective "directive" pos) in *.
  assert (bag_wf (o_bag (tombstone_step reg pos st m))) as Hwf' by (rewrite Hb; by apply do_write_wf).
  destruct (IH _ Hwf') as (H1 & H2 & H3 & H4). split; [done|]. split; [|split].
  - eapply only_directive_trans, H2. rewrite Hb. by apply write_directive_other.
  - etrans; [exact H3|done].
  - intros n. rewrite H4, Hb, entry_at_do_write by done. simpl.
    destruct (decide (n ∈ ns)); [by rewrite decide_True by (by right)|].
    destruct (decide (m = n)) as [->|Hne].
    + rewrite !decide_True by (done || left). done.
    + rewrite !decide_False by set_solver. done.
Qed.

(** The assignments of the positive form, each name once or with one text:
    [text] gives the text of a name. *)
Lemma set_fold ps pos (text : string → string) ns st :
  bag_wf (o_bag st) →
  let st' := foldl (λ st k, setS ps pos st k (text k)) st ns in
  bag_wf (o_bag st') ∧ only_directive (o_bag st) (o_bag st') ∧
  (∀ n, dir_entries (o_bag st') n =
        match (if decide (n ∈ ns) then parsed reg n (text n) else None) with
        | Some v => Some (MkEntry false (Some v) "directive" pos)
        | None => dir_entries (o_bag st) n
        end) ∧
  ∃ ws, o_sink st' = foldl Append (o_sink st) ws ∧
    length ws = length (filter (λ k, parsed reg k (text k) = None) ns) ∧
    Forall (λ x, d_severity x = Warn ∧ d_plugin x = plugin_name ps ∧ d_pos x = pos) ws.
Proof using Hreg.
  revert st. induction ns as [|m ns IH]; intros st Hwf; simpl.
  { split_and!; [done|by intros ? ? ? ?|done|]. by exists []. }
  pose proof (set_step_cases ps pos st m (text m)) as Hm. rewrite filter_cons.
  destruct (parsed reg m (text m)) as [v|] eqn:Hp.
  - destruct Hm as [Hb Hs]. set (w := WSet m v AuthorityDirective "directive" pos) in *.
    assert (bag_wf (o_bag (setS ps pos st m (text m)))) as Hwf' by (rewrite Hb; by apply do_write_wf).
    destruct (IH _ Hwf') as (H1 & H2 & H3 & ws & Hws & Hl & Hf). split_and!; auto.
    + eapply only_directive_trans, H2. rewrite Hb. by apply write_directive_other.
    + intros n. rewrite H3, Hb, entry_at_do_write by done. simpl.
      destruct (decide (m = n)) as [<-|Hne].
      * rewrite (decide_True (P := m ∈ m :: ns)) by left. rewrite Hp.
        rewrite (decide_True (P := m = m ∧ _)) by done. by destruct (decide (m ∈ ns)).
      * rewrite (decide_False (P := m = n ∧ _)) by naive_solver.
        destruct (decide (n ∈ ns)); [by rewrite decide_True by (by right)|].
        by rewrite decide_False by set_solver.
    + exists ws. rewrite Hws, Hs. by rewrite decide_False.
  - destruct Hm as [Hb [msg Hs]].
    assert (bag_wf (o_bag (setS ps pos st m (text m)))) as Hwf' by by rewrite Hb.
    destruct (IH _ Hwf') as (H1 & H2 & H3 & ws & Hws & Hl & Hf). rewrite Hb in H2, H3.
    split_and!; auto.
    + intros n. rewrite H3. destruct (decide (m = n)) as [<-|Hne].
      * rewrite Hp. by destruct (decide (m ∈ ns)), (decide (m ∈ m :: ns)).
      * destruct (decide (n ∈ ns)); [by rewrite decide_True by (by right)|].
        by rewrite decide_False by set_solver.
    + exists (MkDiag Warn (plugin_name ps) pos msg "" :: ws). rewrite Hws, Hs. split; [done|].
      rewrite decide_True by done. simpl. split; [by rewrite Hl|by constructor].
Qed.

Lemma foldl_Append_app sk ws1 ws2 : foldl Append (foldl Append sk ws1) ws2 = foldl Append sk (ws1 ++ ws2).
Proof. by rewrite foldl_app. Qed.

Lemma filter_keys_length (m : gmap string string) (P : string → string → Prop)
    (D1 : ∀ k, Decision (P k (default "" (m !! k))))
    (D2 : ∀ x : string * string, Decision (let '(k, v) := x in P k v)) :
  length (filter (λ k, P k (default "" (m !! k))) (map_keys m)) =
  length (filter (λ '(k, v), P k v) (map_to_list m)).
Proof.
  rewrite (filter_Permutation (λ k, P k (default "" (m !! k))) _ _ (map_keys_perm m)).
  assert (∀ l, (∀ k v, (k, v) ∈ l → m !! k = Some v) →
    length (filter (λ k, P k (default "" (m !! k))) l.*1) = length (filter (λ '(k, v), P k v) l)) as Hl.
  { induction l as [|[k v] l IH]; intros Hin; [done|]. cbn [fmap list_fmap]. rewrite !filter_cons. simpl.
    assert (∀ k v, (k, v) ∈ l → m !! k = Some v) as Hl by (intros; apply Hin; by right).
    assert (default "" (m !! k) = v) as Hv by (rewrite (Hin k v); [done|left]).
    destruct (decide (P k (default "" (m !! k)))) as [Hp|Hp], (decide (P k v)) as [Hq|Hq];
      cbn [length]; try (rewrite Hv in Hp; done); [f_equal|]; by apply IH. }
  apply Hl. intros k v. by rewrite elem_of_map_to_list.
Qed.

(** One directive. *)
Lemma apply_meta_spec ps d st :
  bag_wf (o_bag st) →
  let st' := applyMetaDirective reg error_text ps d st in
  bag_wf (o_bag st') ∧ only_directive (o_bag st) (o_bag st') ∧
  (∀ n, dir_entries (o_bag st') n = override_entry reg d n (dir_entries (o_bag st) n)) ∧
  ∃ ws, o_sink st' = foldl Append (o_sink st) ws ∧ length ws = failures reg d ∧
    Forall (λ x, d_severity x = Warn ∧ d_plugin x = plugin_name ps) ws.
Proof using Hreg.
  intros Hwf. unfold applyMetaDirective, override_entry, failures. destruct (Negated d).
  - destruct (tombstone_fold (DPos d) (map_keys (KV d)) st Hwf) as (H1 & H2 & H3 & H4).
    destruct (tombstone_fold (DPos d) (Args d) _ H1) as (H5 & H6 & H7 & H8).
    split; [done|]. split; [by eapply only_directive_trans|]. split.
    + intros n. rewrite H8, H4. destruct (decide (n ∈ Args d)).
      * by rewrite decide_True by auto.
      * destruct (decide (n ∈ map_keys (KV d))) as [Hk|Hk]; rewrite elem_of_map_keys in Hk.
        -- by rewrite decide_True by auto.
        -- by rewrite decide_False by naive_solver.
    + exists []. split; [|done]. simpl. etrans; [exact H7|exact H3].
  - destruct (set_fold ps (DPos d) (λ k, default "" (KV d !! k)) (map_keys (KV d)) st Hwf)
      as (H1 & H2 & H3 & ws1 & Hw1 & Hl1 & Hf1).
    destruct (set_fold ps (DPos d) (λ _, "true") (Args d) _ H1)
      as (H5 & H6 & H7 & ws2 & Hw2 & Hl2 & Hf2).
    split; [done|]. split; [by eapply only_directive_trans|]. split.
    + intros n. rewrite H7, H3.
      assert ((if decide (n ∈ map_keys (KV d)) then parsed reg n (default "" (KV d !! n)) else None) =
              match KV d !! n with Some text => parsed reg n text | None => None end) as ->.
      { destruct (decide (n ∈ map_keys (KV d))) as [Hk|Hk]; rewrite elem_of_map_keys in Hk.
        - by destruct Hk as [t ->].
        - destruct (KV d !! n) eqn:E; [|done]. by destruct Hk. }
      by destruct (if decide (n ∈ Args d) then _ else _), (KV d !! n).
    + exists (ws1 ++ ws2). split; [|split].
      * etrans; [exact Hw2|]. rewrite Hw1. apply foldl_Append_app.
      * rewrite length_app, Hl1, Hl2. f_equal.
        apply (filter_keys_length (KV d) (λ k v, parsed reg k v = None)).
      * apply Forall_app_2; (eapply Forall_impl; [eassumption|naive_solver]).
Qed.

(** ** The whole pass *)

(** What the heap holds under a name of a node's bag at an authority. *)
Definition meta_at (h : metas) (r : pointer) (n : string) (a : Authority) : option entry :=
  h !! r ≫= λ b, entry_at b n a.

(** The [meta] directives of a list of nodes, with the nodes' pointers, and
    those of one pointer among them. *)
Definition meta_directives (nodes : list Node) : list (pointer * Directive) :=
  nodes ≫= λ n, (λ d, (node_ref n, d)) <$> filter (λ d, Name d = "meta") (node_Directives n).
Definition directives_at (r : pointer) (ds : list (pointer * Directive)) : list Directive :=
  (filter (λ x, x.1 = r) ds).*2.

Definition meta_step (ps : PluginSink) (st : pstate) (x : pointer * Directive) : pstate :=
  let o := applyMetaDirective reg error_text ps x.2
             (MkO (default NewBag (p_metas st !! x.1)) (p_fired st) (p_sink st)) in
  MkP (<[x.1 := o_bag o]> (p_metas st)) (o_fired o) (o_sink o).

Lemma visit_steps ps n st :
  visit reg error_text ps n st = foldl (meta_step ps) st (meta_directives [n]).
Proof.
  unfold visit, meta_directives. simpl. rewrite app_nil_r. revert st.
  induction (node_Directives n) as [|d ds IH]; intros st; [done|]. rewrite filter_cons. simpl.
  rewrite IH. unfold visit_directive. destruct (String.eqb_spec (Name d) "meta") as [E|E]; simpl.
  - rewrite (decide_True (P := Name d = "meta")) by done. simpl. f_equal.
    unfold base_EnsureMeta, meta_step. change (ref (node_base n)) with (node_ref n).
    destruct (p_metas st !! node_ref n) eqn:Eh; simpl; rewrite Eh; simpl; [done|].
    by rewrite insert_insert_eq.
  - by rewrite (decide_False (P := Name d = "meta")) by done.
Qed.

(** What a sequence of [meta] directives does to the heap and to the sink. *)
Record overridden (ps : PluginSink) (st st' : pstate) (ds : list (pointer * Directive)) : Prop := {
  ov_wf : map_Forall (λ _, bag_wf) (p_metas st');
  ov_rest : ∀ r, r ∉ ds.*1 → p_metas st' !! r = p_metas st !! r;
  ov_other : ∀ r n a, (0 <= a < 3)%Z → a ≠ AuthorityDirective →
    meta_at (p_metas st') r n a = meta_at (p_metas st) r n a;
  ov_directive : ∀ r n, meta_at (p_metas st') r n AuthorityDirective =
    foldl (λ e d, override_entry reg d n e) (meta_at (p_metas st) r n AuthorityDirective)
      (directives_at r ds);
  ov_sink : ∃ ws, p_sink st' = foldl Append (p_sink st) ws ∧
    length ws = sum_list (failures reg <$> ds.*2) ∧
    Forall (λ x, d_severity x = Warn ∧ d_plugin x = plugin_name ps) ws;
}.

Lemma meta_step_overridden ps st x :
  map_Forall (λ _, bag_wf) (p_metas st) → overridden ps st (meta_step ps st x) [x].
Proof using Hreg.
  intros Hwf. destruct x as [r0 d]. unfold meta_step; simpl.
  set (b := default NewBag (p_metas st !! r0)).
  assert (bag_wf b) as Hb.
  { unfold b. destruct (p_metas st !! r0) eqn:E; [by eapply Hwf|apply map_Forall_empty]. }
  assert (∀ n a, entry_at b n a = meta_at (p_metas st) r0 n a) as Hm.
  { intros n a. unfold meta_at, b. destruct (p_metas st !! r0); [done|]. simpl.
    unfold entry_at. simpl. by rewrite lookup_empty. }
  destruct (apply_meta_spec ps d (MkO b (p_fired st) (p_sink st)) Hb)
    as (H1 & H2 & H3 & ws & Hw & Hl & Hf). simpl in *.
  split; simpl.
  - by apply map_Forall_insert_2.
  - intros r Hr. rewrite lookup_insert_ne; [done|]. set_solver.
  - intros r n a Ha Hne. unfold meta_at at 1. destruct (decide (r0 = r)) as [->|].
    + rewrite lookup_insert_eq. simpl. by rewrite H2, Hm.
    + by rewrite lookup_insert_ne.
  - intros r n. unfold directives_at, meta_at at 1. rewrite filter_cons. simpl.
    destruct (decide (r0 = r)) as [->|].
    + rewrite lookup_insert_eq. simpl. by rewrite H3, Hm.
    + by rewrite lookup_insert_ne.
  - exists ws. split_and!; [done|rewrite Hl; lia|done].
Qed.

Lemma overridden_trans ps st1 st2 st3 ds1 ds2 :
  overridden ps st1 st2 ds1 → overridden ps st2 st3 ds2 → overridden ps st1 st3 (ds1 ++ ds2).
Proof.
  intros [A1 A2 A3 A4 (w1 & A5 & A6 & A7)] [B1 B2 B3 B4 (w2 & B5 & B6 & B7)]. split.
  - done.
  - intros r. rewrite fmap_app, not_elem_of_app. intros [? ?]. rewrite B2, A2 by done. done.
  - intros r n a ? ?. rewrite B3, A3 by done. done.
  - intros r n. unfold directives_at. rewrite filter_app, fmap_app, foldl_app, B4, A4. done.
  - exists (w1 ++ w2). rewrite B5, A5, foldl_Append_app, length_app, A6, B6, !fmap_app, sum_list_with_app.
    split_and!; [done..|by apply Forall_app_2].
Qed.

Lemma meta_steps_overridden ps ds st :
  map_Forall (λ _, bag_wf) (p_metas st) → overridden ps st (foldl (meta_step ps) st ds) ds.
Proof using Hreg.
  revert st. induction ds as [|x ds IH]; intros st Hwf; simpl.
  { split; [done..|]. by exists []. }
  pose proof (meta_step_overridden ps st x Hwf) as H1.
  apply (overridden_trans _ _ _ _ [x] ds H1), IH, H1.
Qed.

(** The nodes of the view: its buckets, one kind after the other. *)
Definition recorded (v : NodeView) : list Node :=
  (NPackage <$> items (packages v)) ++ (NFile <$> items (files v)) ++ (NImport <$> items (imports v))
  ++ (NStruct <$> items (structs v)) ++ (NInterface <$> items (interfaces v))
  ++ (NMethod <$> items (methods v)) ++ (NField <$> items (fields v))
  ++ (NFunction <$> items (functions v)) ++ (NVariable <$> items (variables v))
  ++ (NConstant <$> items (constants v)) ++ (NEnum <$> items (enums v))
  ++ (NEnumVariant <$> items (enumVariants v)) ++ (NAlias <$> items (aliases v)).

Lemma bucket_range_foldl {T S} (b : Bucket T) (c : T → Node) (fn : Node → S → S) s :
  Bucket_Range b (λ n s, (fn (c n) s, true)) s = foldl (λ s n, fn n s) s (c <$> items b).
Proof. unfold Bucket_Range. revert s. induction (items b) as [|x l IH]; intros s; simpl; [done|]. apply IH. Qed.

Lemma range_node_view_foldl {S} v (fn : Node → S → S) s :
  rangeNodeView v fn s = foldl (λ s n, fn n s) s (recorded v).
Proof. unfold rangeNodeView, recorded. rewrite !foldl_app. rewrite !bucket_range_foldl. done. Qed.

Lemma override_steps v h sk :
  runDirectiveOverride reg error_text v h sk =
  foldl (meta_step (For "pipeline")) (MkP h [] sk) (meta_directives (recorded v)).
Proof.
  unfold runDirectiveOverride. rewrite range_node_view_foldl. generalize (MkP h [] sk).
  induction (recorded v) as [|n l IH]; intros st; simpl; [done|].
  rewrite IH, visit_steps. unfold meta_directives. simpl. by rewrite app_nil_r, foldl_app.
Qed.
End Laws.

(** C22: The override pass does to the bags of the nodes recorded in the store
    what the nodes' [meta] directives say, whatever order the runtime ranges
    over their key/value maps in.  The nodes are those of the thirteen buckets
    of the view, in [rangeNodeView]'s order; at directive authority each name
    of a node's bag holds what the node's directives leave in order (a negated
    one tombstones every name it lists; a positive one sets the pairs its keys
    can parse, and a bare name to what its key reads from "true", which wins
    over a pair); nothing changes at any other authority, and a bag whose node
    has no [meta] directive in the view is not touched.  Each assignment that
    fails, for an unregistered key or an unparsable text, is one warning of
    the pipeline, and there are no other diagnostics.  Registered keys carry
    the name they are registered under, bags have their slots, and key parsers
    return.  Parameters, results, embeds and type parameters have no bucket,
    so their directives are not applied
    ([parameter_overrides_are_ignored]). *)
Theorem override_pass_spec `{MapOrder} reg error_text v h sk :
  reg_wf reg → map_Forall (λ _, bag_wf) h →
  let st := runDirectiveOverride reg error_text v h sk in
  let ds := meta_directives (recorded v) in
  (∀ r n, meta_at (p_metas st) r n AuthorityDirective =
     foldl (λ e d, override_entry reg d n e) (meta_at h r n AuthorityDirective) (directives_at r ds)) ∧
  (∀ r n a, (0 <= a < 3)%Z → a ≠ AuthorityDirective → meta_at (p_metas st) r n a = meta_at h r n a) ∧
  (∀ r, r ∉ ds.*1 → p_metas st !! r = h !! r) ∧
  ∃ ws, p_sink st = foldl Append sk ws ∧ length ws = sum_list (failures reg <$> ds.*2) ∧
    Forall (λ x, d_severity x = Warn ∧ d_plugin x = "pipeline") ws.
Proof.
  intros Hreg Hwf. cbv zeta. rewrite override_steps.
  by destruct (meta_steps_overridden reg error_text Hreg (For "pipeline")
    (meta_directives (recorded v)) (MkP h [] sk) Hwf).
Qed.

Definition sample_reg : registry := {["shape.writer" := sample_key]}.
Definition sample_override : Directive :=
  MkDirective "meta" false ["shape.writer"; "typo"] ∅ "meta shape.writer typo" zero_pos.
(** A method with the directive and a parameter that has it too. *)
Definition sample_method : Method :=
  MkMethod (Fixture.at_ptr 2 [sample_override]) "Get" None ""
    [MkParam (Fixture.at_ptr 3 [sample_override]) "id" None false] [] [].
Definition sample_view : NodeView :=
  n_view (AddPackage (Some (Fixture.package 1 "m/p"
    [Fixture.struct 4 "m/p" "User" [] [sample_method]] [] [])) (MkN newNodeView ∅)).1.

Lemma override_pass_spec_witness :
  let st := runDirectiveOverride sample_reg (λ _, "error") sample_view ∅ New in
  meta_at (p_metas st) 2 "shape.writer" AuthorityDirective =
    Some (MkEntry false (Some (VBool true)) "directive" zero_pos).
Proof.
  assert (reg_wf sample_reg) as Hr by (apply map_Forall_singleton; reflexivity).
  destruct (override_pass_spec sample_reg (λ _, "error") sample_view ∅ New Hr (map_Forall_empty _))
    as [H _].
  cbv zeta. rewrite H. vm_compute. reflexivity.
Defined.

(** A [meta] directive on a parameter is not applied, although the constant's
    comment promises it for any node: the parameter's bag is still absent
    after the pass over the store that recorded its package. *)
Theorem parameter_overrides_are_ignored :
  ∃ p m x, m ∈ s_Methods p ∧ x ∈ m_Params m ∧ directives_at (node_ref (NParam x))
      (meta_directives [NParam x]) ≠ [] ∧
    NMethod m ∈ recorded sample_view ∧
    p_metas (runDirectiveOverride sample_reg (λ _, "error") sample_view ∅ New) !! node_ref (NParam x) = None.
Proof.
  exists (Fixture.struct 4 "m/p" "User" [] [sample_method]), sample_method,
    (MkParam (Fixture.at_ptr 3 [sample_override]) "id" None false).
  split_and!; [by left|by left|vm_compute; discriminate| |vm_compute; reflexivity].
  apply list_elem_of_In. vm_compute. tauto.
Qed.

(** A node is in the scope of a target symbol exactly when its own name is
    the symbol or it is a top-level declaration whose non-empty qualified name
    is the symbol or ends in it behind a dot or a slash; in particular a name
    that merely ends in the same letters never matches. *)
Theorem scope_matches_iff symbol n :
  scopeBySymbol symbol n = true ↔
  (sc_kind n ≠ OtherKind ∧ sc_name n = symbol) ∨ (sc_kind n = OtherKind ∧ symbol = "") ∨
  (sc_kind n = TopLevel ∧ sc_qname n ≠ "" ∧
   (sc_qname n = symbol ∨ ∃ pre, sc_qname n = pre +:+ String "." symbol ∨
                                 sc_qname n = pre +:+ String "/" symbol)).
Proof.
  unfold scopeBySymbol, identityOfNode. destruct n as [kind name qname]; simpl.
  assert ((String.eqb qname symbol || has_suffix qname (String "." symbol) ||
           has_suffix qname (String "/" symbol)) = true ↔
          qname = symbol ∨ ∃ pre, qname = pre +:+ String "." symbol ∨ qname = pre +:+ String "/" symbol)
    as Hq.
  { rewrite !orb_true_iff, String.eqb_eq, !has_suffix_spec. naive_solver. }
  destruct kind; simpl.
  - destruct (String.eqb_spec name symbol); [naive_solver|].
    destruct (String.eqb_spec qname ""); [naive_solver|]. rewrite Hq. naive_solver.
  - destruct (String.eqb_spec name symbol); naive_solver.
  - destruct symbol; simpl; naive_solver.
Qed.
