(* ===== verification/Emit.v ===== *)
(** * emit: the output-side model

    The records of [src/emit] that generators build and the pipeline routes,
    in a module of their own ([emit.Struct] against [Struct] of the source
    side).  As in [Node], [ref] is the pointer of a node, and what the program
    mutates through pointers after construction lives in maps indexed by it:
    routing targets, owner pointers, slots and metadata bags.  A link that
    does not own its target (the declaration behind an internal reference, a
    node embedded in a statement, the owner of a method) is the pointer
    itself. *)

From S2P Require Import Prelude GoStrings Position Meta Directive Node NodeQueries Manifest.

Local Open Scope string_scope.
Local Open Scope nat_scope.
Local Open Scope list_scope.

Module emit.

(** ** [kind.go] *)

Definition KindPackage : Kind := "emit.package".
Definition KindFile : Kind := "emit.file".
Definition KindImport : Kind := "emit.import".
Definition KindStruct : Kind := "emit.struct".
Definition KindInterface : Kind := "emit.interface".
Definition KindMethod : Kind := "emit.method".
Definition KindField : Kind := "emit.field".
Definition KindFunction : Kind := "emit.function".
Definition KindVariable : Kind := "emit.variable".
Definition KindConstant : Kind := "emit.constant".
Definition KindEnum : Kind := "emit.enum".
Definition KindEnumVariant : Kind := "emit.enum_variant".
Definition KindAlias : Kind := "emit.alias".
Definition KindEmbed : Kind := "emit.embed".
Definition KindParam : Kind := "emit.param".
Definition KindReturn : Kind := "emit.return".
Definition KindTypeParam : Kind := "emit.type_param".
Definition KindTag : Kind := "emit.tag".
Definition KindTypeRef : Kind := "emit.type_ref".
Definition KindExternalRef : Kind := "emit.external_ref".
Definition KindBuiltinRef : Kind := "emit.builtin_ref".
Definition KindCompositeRef : Kind := "emit.composite_ref".
Definition KindStmt : Kind := "emit.stmt".
Definition KindExpr : Kind := "emit.expr".
Definition KindSlot : Kind := "emit.slot".

(** ** [base.go] *)

Record BaseEmit := MkBase {
  ref : pointer;
  SourcePos : Pos;
  DocLines : list string;
  DirectiveList : list Directive;
  OriginNode : option Node;
  SetByName : string;
  OutputTagName : string;
}.

Definition base_Pos (b : BaseEmit) : Pos := SourcePos b.
Definition base_Docs (b : BaseEmit) : list string := DocLines b.
Definition base_Directives (b : BaseEmit) : list Directive := DirectiveList b.
Definition base_Directive (b : BaseEmit) (name : string) : option Directive :=
  List.find (λ d, String.eqb (Name d) name) (DirectiveList b).
Definition base_HasDirective (b : BaseEmit) (name : string) : bool :=
  match base_Directive b name with Some _ => true | None => false end.
Definition base_HasPositiveDirective (b : BaseEmit) (name : string) : bool :=
  HasPositive (DirectiveList b) name.
Definition base_HasNegatedDirective (b : BaseEmit) (name : string) : bool :=
  HasNegated (DirectiveList b) name.
Definition base_Meta (h : metas) (b : BaseEmit) : option Bag := h !! ref b.
Definition base_EnsureMeta (h : metas) (b : BaseEmit) : Bag * metas :=
  match h !! ref b with
  | Some g => (g, h)
  | None => (NewBag, <[ref b := NewBag]> h)
  end.
Definition base_Origin (b : BaseEmit) : option Node := OriginNode b.
Definition base_SetBy (b : BaseEmit) : string := SetByName b.
Definition base_OutputTag (b : BaseEmit) : string := OutputTagName b.

(** ** Discriminators ([composite_ref.go], [expr.go], [stmt.go]); the last
    constructor stands for the ordinals that name no variant. *)

Inductive CompositeShape :=
| ShapePointer | ShapeSlice | ShapeArray | ShapeMap | ShapeFunc | ShapeUnion | ShapeAnonStruct
| ShapeOther (n : Z).

Definition CompositeShape_String (s : CompositeShape) : string :=
  match s with
  | ShapePointer => "pointer" | ShapeSlice => "slice" | ShapeArray => "array" | ShapeMap => "map"
  | ShapeFunc => "func" | ShapeUnion => "union" | ShapeAnonStruct => "anon_struct"
  | ShapeOther _ => "composite_shape(?)"
  end.

Inductive ExprKind :=
| ExprLiteral | ExprIdent | ExprField | ExprIndex | ExprIndexList | ExprSlice | ExprBinary
| ExprUnary | ExprCall | ExprMethodCall | ExprTypeAssert | ExprNew | ExprMake | ExprComposite
| ExprCompositeKeyed | ExprFuncLit | ExprParen | ExprDeref | ExprAddr | ExprRaw | ExprExternal
| ExprOther (n : Z).

Definition labelRaw : string := "raw".

Definition ExprKind_String (k : ExprKind) : string :=
  match k with
  | ExprLiteral => "literal" | ExprIdent => "ident" | ExprField => "field" | ExprIndex => "index"
  | ExprIndexList => "index_list" | ExprSlice => "slice" | ExprBinary => "binary"
  | ExprUnary => "unary" | ExprCall => "call" | ExprMethodCall => "method_call"
  | ExprTypeAssert => "type_assert" | ExprNew => "new" | ExprMake => "make"
  | ExprComposite => "composite" | ExprCompositeKeyed => "composite_keyed"
  | ExprFuncLit => "func_lit" | ExprParen => "paren" | ExprDeref => "deref" | ExprAddr => "addr"
  | ExprRaw => labelRaw | ExprExternal => "external" | ExprOther _ => "expr_kind(?)"
  end.

Inductive LiteralKind :=
| LitString | LitInt | LitUint | LitFloat | LitBool | LitNil | LitRune | LitRaw | LitOther (n : Z).

Definition LiteralKind_String (k : LiteralKind) : string :=
  match k with
  | LitString => "string" | LitInt => "int" | LitUint => "uint" | LitFloat => "float"
  | LitBool => "bool" | LitNil => "nil" | LitRune => "rune" | LitRaw => labelRaw
  | LitOther _ => "literal_kind(?)"
  end.

Inductive StmtKind :=
| StmtBlock | StmtExpr | StmtAssign | StmtReturn | StmtIf | StmtFor | StmtForRange | StmtSwitch
| StmtCase | StmtDefault | StmtDefer | StmtGo | StmtBreak | StmtContinue | StmtLabel | StmtVar
| StmtConst | StmtRaw | StmtRender | StmtOther (n : Z).

Definition StmtKind_String (k : StmtKind) : string :=
  match k with
  | StmtBlock => "block" | StmtExpr => "expr" | StmtAssign => "assign" | StmtReturn => "return"
  | StmtIf => "if" | StmtFor => "for" | StmtForRange => "for_range" | StmtSwitch => "switch"
  | StmtCase => "case" | StmtDefault => "default" | StmtDefer => "defer" | StmtGo => "go"
  | StmtBreak => "break" | StmtContinue => "continue" | StmtLabel => "label" | StmtVar => "var"
  | StmtConst => "const" | StmtRaw => labelRaw | StmtRender => "render"
  | StmtOther _ => "stmt_kind(?)"
  end.

(** ** References, parameters, expressions and statements *)

(** [composite_ref.go], over the references it contains. *)
Record UnionTerm_ (R : Type) := MkUnionTerm { ut_Type : option R; ut_Approx : bool }.
Record AnonField_ (R : Type) := MkAnonField { af_Name : string; af_Type : option R; af_Tag : string }.
Record CompositeRef_ (R : Type) := MkCompositeRef {
  cr_Shape : CompositeShape;
  cr_Elem : option R;
  cr_ArrayLen : Z;
  cr_MapKey : option R;
  cr_MapValue : option R;
  cr_FuncParams : list R;
  cr_FuncReturns : list R;
  cr_UnionTerms : list (UnionTerm_ R);
  cr_StructFields : list (AnonField_ R);
  cr_StructEmbeds : list R;
}.
Arguments MkUnionTerm {R}.
Arguments MkAnonField {R}.
Arguments MkCompositeRef {R}.

(** [ref.go]: a sealed interface with four implementations ([type_ref.go],
    [external_ref.go], [builtin_ref.go], [composite_ref.go]). *)
Inductive Ref :=
| RTypeRef (b : BaseEmit) (target : option pointer) (typeArgs : list Ref)
| RExternalRef (b : BaseEmit) (pkg name : string) (typeArgs : list Ref)
| RBuiltinRef (b : BaseEmit) (name : string)
| RCompositeRef (b : BaseEmit) (c : CompositeRef_ Ref).

Abbreviation UnionTerm := (UnionTerm_ Ref).
Abbreviation AnonField := (AnonField_ Ref).
Abbreviation CompositeRef := (CompositeRef_ Ref).

(** [param.go] *)
Record Param := MkParam {
  pa_base : BaseEmit;
  pa_Name : string;
  pa_Type : option Ref;
  pa_Variadic : bool;
}.

(** [expr.go] *)
Inductive Expr : Set := MkExpr {
  ex_base : BaseEmit;
  ex_Kind : ExprKind;
  ex_LitKind : LiteralKind;
  ex_Name : string;
  ex_Op : string;
  ex_Receiver : option Expr;
  ex_Callee : option Expr;
  ex_Left : option Expr;
  ex_Right : option Expr;
  ex_IndexExpr : option Expr;
  ex_Low : option Expr;
  ex_High : option Expr;
  ex_Max : option Expr;
  ex_AsType : option Ref;
  ex_Args : list Expr;
  ex_Keys : list string;
  ex_TypeArgs : list Ref;
  ex_FuncParams : list Param;
  ex_FuncReturns : list Ref;
  ex_FuncBody : list Stmt;
  ex_RawText : string;
  ex_Pkg : string;
}
(** [stmt.go] *)
with Stmt : Set := MkStmt {
  st_base : BaseEmit;
  st_Kind : StmtKind;
  st_Block : list Stmt;
  st_Else : list Stmt;
  st_Cases : list Stmt;
  st_Cond : option Expr;
  st_Init : option Stmt;
  st_Post : option Stmt;
  st_RangeKey : string;
  st_RangeValue : string;
  st_RangeOver : option Expr;
  st_Op : string;
  st_Targets : list Expr;
  st_Values : list Expr;
  st_Returns : list Expr;
  st_Call : option Expr;
  st_Label : string;
  st_Inner : option Stmt;
  st_DeclName : string;
  st_DeclType : option Ref;
  st_RawText : string;
  st_Node : option pointer;
}.

(** ** Declarations *)

(** [constraint.go] *)
Record Constraint := MkConstraint { c_Raw : string; c_Embedded : list Ref }.

(** [type_param.go] *)
Record TypeParam := MkTypeParam {
  tp_base : BaseEmit;
  tp_Name : string;
  tp_Constraint : option Constraint;
}.

(** [return.go] *)
Record Return := MkReturn { re_base : BaseEmit; re_Name : string; re_Type : option Ref }.

(** [embed.go] *)
Record Embed := MkEmbed { em_base : BaseEmit; em_Type : option Ref }.

(** [tag.go] *)
Record Tag := MkTag { tg_base : BaseEmit; tg_Key : string; tg_Value : string }.

(** [field.go] *)
Record Field := MkField {
  f_base : BaseEmit;
  f_Name : string;
  f_Type : option Ref;
  f_Tag : string;
  f_LineComment : string;
}.

(** [method.go]; [Target] and [Owner] are in the heap. *)
Record Method := MkMethod {
  m_base : BaseEmit;
  m_Name : string;
  m_Package : string;
  m_Receiver : option Ref;
  m_ReceiverName : string;
  m_Params : list Param;
  m_Returns : list Return;
  m_TypeParams : list TypeParam;
  m_Body : list Stmt;
  m_OwnerRef : OwnerRef;
}.

(** [struct.go] *)
Record Struct := MkStruct {
  s_base : BaseEmit;
  s_Name : string;
  s_Package : string;
  s_Fields : list Field;
  s_Embeds : list Embed;
  s_Methods : list Method;
  s_TypeParams : list TypeParam;
}.

(** [interface.go] *)
Record Interface := MkInterface {
  i_base : BaseEmit;
  i_Name : string;
  i_Package : string;
  i_Fields : list Field;
  i_Methods : list Method;
  i_Embeds : list Embed;
  i_TypeParams : list TypeParam;
}.

(** [function.go] *)
Record Function_ := MkFunction {
  fn_base : BaseEmit;
  fn_Name : string;
  fn_Package : string;
  fn_Params : list Param;
  fn_Returns : list Return;
  fn_TypeParams : list TypeParam;
  fn_Body : list Stmt;
}.

(** [variable.go] *)
Record Variable_ := MkVariable {
  v_base : BaseEmit;
  v_Name : string;
  v_Package : string;
  v_Type : option Ref;
  v_Init : option Expr;
}.

(** [constant.go] *)
Record Constant := MkConstant {
  k_base : BaseEmit;
  k_Name : string;
  k_Package : string;
  k_Type : option Ref;
  k_Value : option Expr;
}.

(** [enum_variant.go] *)
Record EnumVariant := MkEnumVariant { ev_base : BaseEmit; ev_Name : string; ev_Value : option Expr }.

(** [enum.go] *)
Record Enum := MkEnum {
  e_base : BaseEmit;
  e_Name : string;
  e_Package : string;
  e_Underlying : option Ref;
  e_Variants : list EnumVariant;
}.

(** [alias.go]; its routing target is the field [File]. *)
Record Alias := MkAlias {
  a_base : BaseEmit;
  a_Name : string;
  a_Package : string;
  a_Target : option Ref;
  a_IsAlias : bool;
  a_TypeParams : list TypeParam;
  a_Methods : list Method;
}.

(** [import.go] *)
Record Import := MkImport { im_base : BaseEmit; im_Path : string; im_Alias : string }.

(** [file.go] *)
Record File := MkFile {
  fi_base : BaseEmit;
  fi_Name : string;
  fi_Package : string;
  fi_Dir : string;
  fi_ImportPath : string;
  fi_Imports : list Import;
}.

(** [package.go] *)
Record Package := MkPackage {
  p_base : BaseEmit;
  p_Name : string;
  p_Path : string;
  p_Dir : string;
  p_Files : list File;
  p_Imports : list Import;
  p_Structs : list Struct;
  p_Interfaces : list Interface;
  p_Functions : list Function_;
  p_Methods : list Method;
  p_Variables : list Variable_;
  p_Constants : list Constant;
  p_Enums : list Enum;
  p_Aliases : list Alias;
}.

(** ** [node.go]: the values the framework itself handles; [NPlugin] is a value
    of a kind a plugin defines. *)
Inductive Node_ :=
| NPackage (n : Package) | NFile (n : File) | NImport (n : Import) | NStruct (n : Struct)
| NInterface (n : Interface) | NMethod (n : Method) | NField (n : Field) | NFunction (n : Function_)
| NVariable (n : Variable_) | NConstant (n : Constant) | NEnum (n : Enum)
| NEnumVariant (n : EnumVariant) | NAlias (n : Alias) | NEmbed (n : Embed) | NParam (n : Param)
| NReturn (n : Return) | NTypeParam (n : TypeParam) | NTag (n : Tag) | NStmt (n : Stmt) | NExpr (n : Expr)
| NPlugin (kind : Kind) (b : BaseEmit).

Definition node_base (n : Node_) : BaseEmit :=
  match n with
  | NPackage n => p_base n | NFile n => fi_base n | NImport n => im_base n | NStruct n => s_base n
  | NInterface n => i_base n | NMethod n => m_base n | NField n => f_base n | NFunction n => fn_base n
  | NVariable n => v_base n | NConstant n => k_base n | NEnum n => e_base n
  | NEnumVariant n => ev_base n | NAlias n => a_base n | NEmbed n => em_base n | NParam n => pa_base n
  | NReturn n => re_base n | NTypeParam n => tp_base n | NTag n => tg_base n | NStmt n => st_base n
  | NExpr n => ex_base n | NPlugin _ b => b
  end.

Definition node_Kind (n : Node_) : Kind :=
  match n with
  | NPackage _ => KindPackage | NFile _ => KindFile | NImport _ => KindImport | NStruct _ => KindStruct
  | NInterface _ => KindInterface | NMethod _ => KindMethod | NField _ => KindField
  | NFunction _ => KindFunction | NVariable _ => KindVariable | NConstant _ => KindConstant
  | NEnum _ => KindEnum | NEnumVariant _ => KindEnumVariant | NAlias _ => KindAlias
  | NEmbed _ => KindEmbed | NParam _ => KindParam | NReturn _ => KindReturn
  | NTypeParam _ => KindTypeParam | NTag _ => KindTag | NStmt _ => KindStmt | NExpr _ => KindExpr
  | NPlugin k _ => k
  end.

(** ** Names *)

Definition Struct_QName (s : Struct) : string := qualified (s_Package s) (s_Name s).
Definition Interface_QName (i : Interface) : string := qualified (i_Package i) (i_Name i).
Definition Function_QName (f : Function_) : string := qualified (fn_Package f) (fn_Name f).
Definition Variable_QName (v : Variable_) : string := qualified (v_Package v) (v_Name v).
Definition Constant_QName (c : Constant) : string := qualified (k_Package c) (k_Name c).
Definition Enum_QName (e : Enum) : string := qualified (e_Package e) (e_Name e).
Definition Alias_QName (a : Alias) : string := qualified (a_Package a) (a_Name a).

(** [File.Target], [File.Path] *)
Definition File_Target (f : File) : Target :=
  MkTarget (fi_Dir f) (fi_Name f) (fi_Package f) (fi_ImportPath f).
Definition File_Path (f : File) : string :=
  if String.eqb (fi_Dir f) "" || String.eqb (fi_Name f) "" then ""
  else fi_Dir f +:+ "/" +:+ fi_Name f.

(** [contract.Owner] on both sides: a source declaration or an emitted one. *)
Inductive Owner :=
| OwnNode (n : Node) | OwnStruct (s : Struct) | OwnInterface (i : Interface) | OwnAlias (a : Alias).

Definition owner_Name (o : Owner) : string :=
  match o with
  | OwnNode n => default "" (OwnerName n)
  | OwnStruct s => s_Name s | OwnInterface i => i_Name i | OwnAlias a => a_Name a
  end.

Definition owner_QName (o : Owner) : string :=
  match o with
  | OwnNode n => default "" (OwnerQName n)
  | OwnStruct s => Struct_QName s | OwnInterface i => Interface_QName i | OwnAlias a => Alias_QName a
  end.

Definition owner_Kind (o : Owner) : Kind :=
  match o with
  | OwnNode n => Node.node_Kind n
  | OwnStruct _ => KindStruct | OwnInterface _ => KindInterface | OwnAlias _ => KindAlias
  end.

(** [contract.RefOf] *)
Definition RefOf (o : option Owner) : OwnerRef :=
  match o with
  | None => MkOwnerRef "" ""
  | Some o => MkOwnerRef (owner_Kind o) (owner_QName o)
  end.

(** [Method.Owner] is read through the heap of owner pointers. *)
Abbreviation mowners := (gmap pointer Owner).

Definition Method_OwnerName (h : mowners) (m : Method) : string :=
  match h !! ref (m_base m) with None => "" | Some o => owner_Name o end.
Definition Method_OwnerQName (h : mowners) (m : Method) : string :=
  match h !! ref (m_base m) with None => "" | Some o => owner_QName o end.
Definition Method_QName (h : mowners) (m : Method) : string :=
  match h !! ref (m_base m) with
  | Some o =>
      if negb (String.eqb (m_Package m) "")
      then m_Package m +:+ "." +:+ owner_Name o +:+ "." +:+ m_Name m
      else owner_QName o +:+ "." +:+ m_Name m
  | None => if negb (String.eqb (m_Package m) "") then m_Package m +:+ "." +:+ m_Name m else m_Name m
  end.

End emit.
