(* ===== verification/EmitSlots.v ===== *)
(** * emit: slots

    [src/emit/slot.go] and [provenance.go], with the table of reserved names
    that every host kind carries ([fileSlotKind], [structSlotKind], …).  A
    slot is reached by the pointer of its host and its name; the map of all
    slots is the heap the accessors and the contributions of the generators
    change.  An item may be nil: an unconstrained slot accepts it.  A nil
    pointer of a node type is another thing: it is an item with a kind, and
    passes the check of its kind. *)

From S2P Require Import Prelude GoStrings Position Meta Directive Node NodeQueries Manifest Emit.

Local Open Scope string_scope.
Local Open Scope nat_scope.
Local Open Scope list_scope.

Module slots.

(** ** [provenance.go] *)

Record Provenance := MkProvenance { pr_SetBy : string; pr_Pos : Pos; pr_ID : string }.

Definition zero_prov : Provenance := MkProvenance "" zero_pos "".

Definition Provenance_String (p : Provenance) : string :=
  (if negb (String.eqb (pr_SetBy p) "") then "set by " +:+ pr_SetBy p else "set") +:+
  (if negb (PosOps.IsZero (pr_Pos p)) then " at " +:+ PosOps.ToString (pr_Pos p) else "").

(** ** [slot.go]: one slot *)

Inductive SlotError :=
| ErrSlotElementType (slot : string) (want : Kind) (got : option Kind)
| ErrSlotIndex (slot : string) (index : Z) (len : nat)
| ErrProvenanceNotFound (id slot : string).

(** A Go value of the interface [Node]: nil, a nil pointer of a node type,
    whose [Kind] method still answers, or a node. *)
Inductive value := Object (n : emit.Node_) | TypedNil (k : Kind).

Definition value_Kind (v : value) : Kind :=
  match v with Object n => emit.node_Kind n | TypedNil k => k end.

Abbreviation item := (option value).

Definition of_node (n : emit.Node_) : item := Some (Object n).

Record Slot := MkSlot {
  SlotName : string;
  Owner : option pointer;
  ElemKind : Kind;
  Items : list item;
  ProvenanceList : list Provenance;
}.

Definition NewSlot (name : string) (elemKind : Kind) : Slot := MkSlot name None elemKind [] [].

Definition Len (s : Slot) : nat := length (Items s).

Definition checkKind (s : Slot) (i : item) : option SlotError :=
  if String.eqb (ElemKind s) "" then None
  else match i with
       | None => Some (ErrSlotElementType (SlotName s) (ElemKind s) None)
       | Some n =>
           if negb (String.eqb (value_Kind n) (ElemKind s))
           then Some (ErrSlotElementType (SlotName s) (ElemKind s) (Some (value_Kind n)))
           else None
       end.

Definition with_items (s : Slot) (its : list item) (ps : list Provenance) : Slot :=
  MkSlot (SlotName s) (Owner s) (ElemKind s) its ps.

Definition Append (s : Slot) (i : item) (p : Provenance) : res SlotError Slot :=
  match checkKind s i with
  | Some e => Err e
  | None => Ok (with_items s (Items s ++ [i]) (ProvenanceList s ++ [p]))
  end.

(** [slices.Insert] at an index within the length. *)
Definition slice_insert {A} (l : list A) (n : nat) (x : A) : list A := take n l ++ x :: drop n l.

Definition InsertAt (s : Slot) (index : Z) (i : item) (p : Provenance) : res SlotError Slot :=
  if (index <? 0)%Z || (Z.of_nat (length (Items s)) <? index)%Z
  then Err (ErrSlotIndex (SlotName s) index (length (Items s)))
  else match checkKind s i with
       | Some e => Err e
       | None => Ok (with_items s (slice_insert (Items s) (Z.to_nat index) i)
                                  (slice_insert (ProvenanceList s) (Z.to_nat index) p))
       end.

Definition Prepend (s : Slot) (i : item) (p : Provenance) : res SlotError Slot := InsertAt s 0 i p.

(** The loop of [InsertBefore] and [InsertAfter]: the first index whose
    provenance carries the id. *)
Fixpoint first_id (id : string) (k : Z) (ps : list Provenance) : option Z :=
  match ps with
  | [] => None
  | p :: ps => if String.eqb (pr_ID p) id then Some k else first_id id (k + 1)%Z ps
  end.

Definition InsertBefore (s : Slot) (id : string) (i : item) (p : Provenance) : res SlotError Slot :=
  if String.eqb id "" then Err (ErrProvenanceNotFound "" (SlotName s))
  else match first_id id 0 (ProvenanceList s) with
       | Some k => InsertAt s k i p
       | None => Err (ErrProvenanceNotFound id (SlotName s))
       end.

Definition InsertAfter (s : Slot) (id : string) (i : item) (p : Provenance) : res SlotError Slot :=
  if String.eqb id "" then Err (ErrProvenanceNotFound "" (SlotName s))
  else match first_id id 0 (ProvenanceList s) with
       | Some k => InsertAt s (k + 1) i p
       | None => Err (ErrProvenanceNotFound id (SlotName s))
       end.

(** [At]: nil out of range, and nil where a nil item was appended. *)
Definition At (s : Slot) (i : Z) : item :=
  if (i <? 0)%Z || (Z.of_nat (length (Items s)) <=? i)%Z then None
  else Items s !!! Z.to_nat i.

Definition ProvenanceAt (s : Slot) (i : Z) : Provenance :=
  if (i <? 0)%Z || (Z.of_nat (length (ProvenanceList s)) <=? i)%Z then zero_prov
  else default zero_prov (ProvenanceList s !! Z.to_nat i).

(** ** Reserved names *)

Definition slotImports : string := "imports".
Definition slotFields : string := "fields".
Definition slotMethods : string := "methods".
Definition slotEmbeds : string := "embeds".
Definition slotVariants : string := "variants".
Definition slotPrebody : string := "prebody".
Definition slotPostbody : string := "postbody".
Definition slotParams : string := "params".
Definition slotReturns : string := "returns".

Definition fileSlotKind (name : string) : Kind :=
  if String.eqb name slotImports then emit.KindImport else "".

Definition structSlotKind (name : string) : Kind :=
  if String.eqb name slotFields then emit.KindField
  else if String.eqb name slotMethods then emit.KindMethod
  else if String.eqb name slotEmbeds then emit.KindEmbed else "".

Definition interfaceSlotKind (name : string) : Kind :=
  if String.eqb name slotFields then emit.KindField
  else if String.eqb name slotMethods then emit.KindMethod
  else if String.eqb name slotEmbeds then emit.KindEmbed else "".

Definition aliasSlotKind (name : string) : Kind :=
  if String.eqb name slotMethods then emit.KindMethod else "".

Definition methodSlotKind (name : string) : Kind :=
  if String.eqb name slotPrebody || String.eqb name slotPostbody then emit.KindStmt
  else if String.eqb name slotParams then emit.KindParam
  else if String.eqb name slotReturns then emit.KindReturn else "".

Definition functionSlotKind (name : string) : Kind :=
  if String.eqb name slotPrebody || String.eqb name slotPostbody then emit.KindStmt
  else if String.eqb name slotParams then emit.KindParam
  else if String.eqb name slotReturns then emit.KindReturn else "".

Definition enumSlotKind (name : string) : Kind :=
  if String.eqb name slotVariants then emit.KindEnumVariant else "".

(** ** The heap of slots *)

Abbreviation sheap := (gmap (pointer * string) Slot).

(** [slotMap.slot]: lookup or create; the slot is the one under the key. *)
Definition slot (owner : emit.Node_) (name : string) (elemKind : Kind) (h : sheap) : Slot * sheap :=
  let key := (emit.ref (emit.node_base owner), name) in
  match h !! key with
  | Some existing => (existing, h)
  | None =>
      let sl := MkSlot name (Some (emit.ref (emit.node_base owner))) elemKind [] [] in
      (sl, <[key := sl]> h)
  end.

(** [SlotsByName] *)
Definition SlotsByName (owner : emit.Node_) (h : sheap) (name : string) : option Slot :=
  h !! (emit.ref (emit.node_base owner), name).

(** The [Slot] methods of the hosts (on a field it is [SlotByName]). *)
Definition File_Slot (f : emit.File) (name : string) : sheap → Slot * sheap :=
  slot (emit.NFile f) name (fileSlotKind name).
Definition Struct_Slot (s : emit.Struct) (name : string) : sheap → Slot * sheap :=
  slot (emit.NStruct s) name (structSlotKind name).
Definition Interface_Slot (i : emit.Interface) (name : string) : sheap → Slot * sheap :=
  slot (emit.NInterface i) name (interfaceSlotKind name).
Definition Alias_Slot (a : emit.Alias) (name : string) : sheap → Slot * sheap :=
  slot (emit.NAlias a) name (aliasSlotKind name).
Definition Method_Slot (m : emit.Method) (name : string) : sheap → Slot * sheap :=
  slot (emit.NMethod m) name (methodSlotKind name).
Definition Function_Slot (f : emit.Function_) (name : string) : sheap → Slot * sheap :=
  slot (emit.NFunction f) name (functionSlotKind name).
Definition Enum_Slot (e : emit.Enum) (name : string) : sheap → Slot * sheap :=
  slot (emit.NEnum e) name (enumSlotKind name).
Definition Package_Slot (p : emit.Package) (name : string) : sheap → Slot * sheap :=
  slot (emit.NPackage p) name "".
Definition Field_SlotByName (f : emit.Field) (name : string) : sheap → Slot * sheap :=
  slot (emit.NField f) name "".

(** Typed accessors. *)
Definition Top (f : emit.File) : sheap → Slot * sheap := File_Slot f "top".
Definition Bottom (f : emit.File) : sheap → Slot * sheap := File_Slot f "bottom".
Definition Init (f : emit.File) : sheap → Slot * sheap := File_Slot f "init".
Definition ImportsSlot (f : emit.File) : sheap → Slot * sheap := File_Slot f slotImports.
Definition Struct_FieldsSlot (s : emit.Struct) : sheap → Slot * sheap := Struct_Slot s slotFields.
Definition Struct_MethodsSlot (s : emit.Struct) : sheap → Slot * sheap := Struct_Slot s slotMethods.
Definition Struct_EmbedsSlot (s : emit.Struct) : sheap → Slot * sheap := Struct_Slot s slotEmbeds.
Definition Interface_FieldsSlot (i : emit.Interface) : sheap → Slot * sheap := Interface_Slot i slotFields.
Definition Interface_MethodsSlot (i : emit.Interface) : sheap → Slot * sheap := Interface_Slot i slotMethods.
Definition Interface_EmbedsSlot (i : emit.Interface) : sheap → Slot * sheap := Interface_Slot i slotEmbeds.
Definition Alias_MethodsSlot (a : emit.Alias) : sheap → Slot * sheap := Alias_Slot a slotMethods.
Definition Method_Prebody (m : emit.Method) : sheap → Slot * sheap := Method_Slot m slotPrebody.
Definition Method_Postbody (m : emit.Method) : sheap → Slot * sheap := Method_Slot m slotPostbody.
Definition Method_ParamsSlot (m : emit.Method) : sheap → Slot * sheap := Method_Slot m slotParams.
Definition Method_ReturnsSlot (m : emit.Method) : sheap → Slot * sheap := Method_Slot m slotReturns.
Definition Function_Prebody (f : emit.Function_) : sheap → Slot * sheap := Function_Slot f slotPrebody.
Definition Function_Postbody (f : emit.Function_) : sheap → Slot * sheap := Function_Slot f slotPostbody.
Definition Function_ParamsSlot (f : emit.Function_) : sheap → Slot * sheap := Function_Slot f slotParams.
Definition Function_ReturnsSlot (f : emit.Function_) : sheap → Slot * sheap := Function_Slot f slotReturns.
Definition VariantsSlot (e : emit.Enum) : sheap → Slot * sheap := Enum_Slot e slotVariants.
Definition Tags (f : emit.Field) : sheap → Slot * sheap := Field_SlotByName f "tags".

(** [SlotHost.Slot] by the dynamic type of the host; the kinds without slots
    have no such method. *)
Definition host_slot (n : emit.Node_) (name : string) : option (sheap → Slot * sheap) :=
  match n with
  | emit.NFile f => Some (File_Slot f name)
  | emit.NStruct s => Some (Struct_Slot s name)
  | emit.NInterface i => Some (Interface_Slot i name)
  | emit.NAlias a => Some (Alias_Slot a name)
  | emit.NMethod m => Some (Method_Slot m name)
  | emit.NFunction f => Some (Function_Slot f name)
  | emit.NEnum e => Some (Enum_Slot e name)
  | emit.NPackage p => Some (Package_Slot p name)
  | emit.NField f => Some (Field_SlotByName f name)
  | _ => None
  end.

(** ** Contributions *)

(** What a generator does with a slot it reached. *)
Inductive contribution :=
| CAppend (i : item) (p : Provenance)
| CPrepend (i : item) (p : Provenance)
| CInsertAt (index : Z) (i : item) (p : Provenance)
| CInsertBefore (id : string) (i : item) (p : Provenance)
| CInsertAfter (id : string) (i : item) (p : Provenance).

Definition contribute (c : contribution) (s : Slot) : res SlotError Slot :=
  match c with
  | CAppend i p => Append s i p
  | CPrepend i p => Prepend s i p
  | CInsertAt k i p => InsertAt s k i p
  | CInsertBefore id i p => InsertBefore s id i p
  | CInsertAfter id i p => InsertAfter s id i p
  end.

(** [host.Slot(name).Op(…)]: a failing operation leaves the slot as it was. *)
Definition contribute_to (n : emit.Node_) (name : string) (c : contribution) (h : sheap) : sheap :=
  match host_slot n name with
  | None => h
  | Some get =>
      let '(s, h) := get h in
      match contribute c s with
      | Err _ => h
      | Ok s => <[(emit.ref (emit.node_base n), name) := s]> h
      end
  end.

(** ** Insertion stays within bounds *)

Definition accepts (s : Slot) (i : item) : Prop :=
  ElemKind s = "" ∨ ∃ n, i = Some n ∧ value_Kind n = ElemKind s.

Lemma check_kind_accepts s i : checkKind s i = None ↔ accepts s i.
Proof.
  unfold checkKind, accepts. destruct (String.eqb_spec (ElemKind s) "") as [->|Hk]; [tauto|].
  destruct i as [n|].
  - destruct (String.eqb_spec (value_Kind n) (ElemKind s)) as [E|E]; simpl; [naive_solver|].
    split; [done|]. intros [?|(? & [= <-] & ?)]; done.
  - split; [done|]. intros [?|(? & ? & ?)]; done.
Qed.

Lemma insert_lookup {A} (l : list A) n x j :
  n ≤ length l →
  slice_insert l n x !! j = if decide (j < n) then l !! j else if decide (j = n) then Some x else l !! (j - 1).
Proof.
  intros Hn. unfold slice_insert. destruct (decide (j < n)) as [Hj|Hj].
  - rewrite lookup_app_l by (rewrite length_take; lia). by rewrite lookup_take, decide_True by lia.
  - rewrite lookup_app_r by (rewrite length_take; lia). rewrite length_take, Nat.min_l by lia.
    destruct (decide (j = n)) as [->|Hj']; [by rewrite Nat.sub_diag|].
    destruct (j - n) as [|k] eqn:E; [lia|]. simpl. rewrite lookup_drop. f_equal. lia.
Qed.

Lemma insert_length {A} (l : list A) n x : n ≤ length l → length (slice_insert l n x) = S (length l).
Proof. intros. unfold slice_insert. rewrite length_app, length_take. simpl. rewrite length_drop. lia. Qed.

Lemma at_lookup s k : At s (Z.of_nat k) = default None (Items s !! k).
Proof.
  unfold At. rewrite Nat2Z.id. replace (Z.of_nat k <? 0)%Z with false by (symmetry; apply Z.ltb_ge; lia).
  simpl. destruct (Z.leb_spec (Z.of_nat (length (Items s))) (Z.of_nat k)).
  - by rewrite lookup_ge_None_2 by lia.
  - destruct (lookup_lt_is_Some_2 (Items s) k) as [x Hx]; [lia|].
    by rewrite Hx, (list_lookup_total_correct _ _ _ Hx).
Qed.

Lemma provenance_at_lookup s k : ProvenanceAt s (Z.of_nat k) = default zero_prov (ProvenanceList s !! k).
Proof.
  unfold ProvenanceAt. rewrite Nat2Z.id.
  replace (Z.of_nat k <? 0)%Z with false by (symmetry; apply Z.ltb_ge; lia). simpl.
  destruct (Z.leb_spec (Z.of_nat (length (ProvenanceList s))) (Z.of_nat k)); [|done].
  by rewrite lookup_ge_None_2 by lia.
Qed.

Lemma at_negative s k : (k < 0)%Z → At s k = None ∧ ProvenanceAt s k = zero_prov.
Proof. intros. unfold At, ProvenanceAt. by replace (k <? 0)%Z with true by (symmetry; apply Z.ltb_lt; lia). Qed.

(** positional insertion respects the bounds of the slot: [InsertAt]
    succeeds exactly when the index lies between zero and the length, both
    included, and the item is of the kind the slot accepts; then the slot is
    one longer, reads the new item and its provenance at the index, the former
    contents unchanged before it and shifted by one after it; [At] and
    [ProvenanceAt] answer nil and the zero value at every index, negative
    ones included, outside the bounds. *)
Theorem insert_respects_bounds s index i p :
  length (Items s) = length (ProvenanceList s) →
  (is_ok (InsertAt s index i p) = true ↔ (0 <= index <= Z.of_nat (Len s))%Z ∧ accepts s i) ∧
  ∀ s', InsertAt s index i p = Ok s' →
    Len s' = S (Len s) ∧ length (ProvenanceList s') = S (Len s) ∧
    ∀ k : Z,
      (At s' k, ProvenanceAt s' k) =
        if decide (k < index)%Z then (At s k, ProvenanceAt s k)
        else if decide (k = index) then (i, p)
        else (At s (k - 1), ProvenanceAt s (k - 1)).
Proof.
  intros Hl. unfold InsertAt, Len.
  destruct (Z.ltb_spec index 0), (Z.ltb_spec (Z.of_nat (length (Items s))) index); simpl;
    try (split; [split; [done | intros [? _]; lia] | done]).
  destruct (checkKind s i) as [e|] eqn:Hc; simpl.
  { split; [|done]. split; [done|]. intros [_ Ha%check_kind_accepts]. congruence. }
  split; [split; [intros _; split; [lia|by apply check_kind_accepts]|done]|].
  intros s' [= <-]. simpl. rewrite !insert_length by lia. split_and!; [done|lia|]. intros k.
  destruct (Z.ltb_spec k 0) as [Hk|Hk].
  { rewrite decide_True by lia. f_equal; by etrans; [apply at_negative|symmetry; apply at_negative]. }
  replace k with (Z.of_nat (Z.to_nat k)) by lia. set (j := Z.to_nat k).
  rewrite at_lookup, provenance_at_lookup. simpl. rewrite !insert_lookup by lia.
  destruct (decide (Z.of_nat j < index)%Z), (decide (j < Z.to_nat index)); try lia.
  { by rewrite at_lookup, provenance_at_lookup. }
  destruct (decide (Z.of_nat j = index)), (decide (j = Z.to_nat index)); try lia; [done|].
  replace (Z.of_nat j - 1)%Z with (Z.of_nat (j - 1)) by lia. by rewrite at_lookup, provenance_at_lookup.
Qed.

(** ** The element kind is a property of the name *)

(** The reserved names of every host kind; all other slots are open. *)
Definition reserved_names : list (Kind * string * Kind) :=
  [(emit.KindFile, "imports", emit.KindImport);
   (emit.KindStruct, "fields", emit.KindField); (emit.KindStruct, "methods", emit.KindMethod);
   (emit.KindStruct, "embeds", emit.KindEmbed);
   (emit.KindInterface, "fields", emit.KindField); (emit.KindInterface, "methods", emit.KindMethod);
   (emit.KindInterface, "embeds", emit.KindEmbed);
   (emit.KindAlias, "methods", emit.KindMethod);
   (emit.KindMethod, "prebody", emit.KindStmt); (emit.KindMethod, "postbody", emit.KindStmt);
   (emit.KindMethod, "params", emit.KindParam); (emit.KindMethod, "returns", emit.KindReturn);
   (emit.KindFunction, "prebody", emit.KindStmt); (emit.KindFunction, "postbody", emit.KindStmt);
   (emit.KindFunction, "params", emit.KindParam); (emit.KindFunction, "returns", emit.KindReturn);
   (emit.KindEnum, "variants", emit.KindEnumVariant)].

Definition reserved (host : Kind) (name : string) : Kind :=
  default "" (snd <$> List.find (λ r, String.eqb r.1.1 host && String.eqb r.1.2 name) reserved_names).

(** A slot of [n] under [name]: constrained by the table, its two lists in
    step, its items of the kind it is constrained to. *)
Record well_typed (n : emit.Node_) (name : string) (s : Slot) : Prop := {
  wt_name : SlotName s = name;
  wt_owner : Owner s = Some (emit.ref (emit.node_base n));
  wt_kind : ElemKind s = reserved (emit.node_Kind n) name;
  wt_parallel : length (Items s) = length (ProvenanceList s);
  wt_items : Forall (accepts s) (Items s);
}.

(** Evaluates comparisons of literals, then splits on comparisons with a
    variable name. *)
Ltac compare_names :=
  repeat match goal with
  | |- context [String.eqb ?a ?b] =>
      let v := eval vm_compute in (String.eqb a b) in
      match v with
      | true => change (String.eqb a b) with true
      | false => change (String.eqb a b) with false
      end
  end;
  cbn [andb orb snd fst fmap option_fmap option_map default];
  repeat match goal with
  | |- context [String.eqb ?a ?b] =>
      destruct (String.eqb a b); cbn [andb orb snd fst fmap option_fmap option_map default]
  end.

Lemma reserved_kind host name :
  reserved host name =
    (if String.eqb emit.KindFile host then fileSlotKind name
     else if String.eqb emit.KindStruct host then structSlotKind name
     else if String.eqb emit.KindInterface host then interfaceSlotKind name
     else if String.eqb emit.KindAlias host then aliasSlotKind name
     else if String.eqb emit.KindMethod host then methodSlotKind name
     else if String.eqb emit.KindFunction host then functionSlotKind name
     else if String.eqb emit.KindEnum host then enumSlotKind name else "").
Proof.
  unfold reserved, reserved_names, List.find, fileSlotKind, structSlotKind, interfaceSlotKind,
    aliasSlotKind, methodSlotKind, functionSlotKind, enumSlotKind. cbn [fst snd].
  rewrite !(String.eqb_sym name). unfold slotImports, slotFields, slotMethods, slotEmbeds, slotVariants,
    slotPrebody, slotPostbody, slotParams, slotReturns.
  repeat match goal with
  | |- context [if String.eqb ?a host then _ else _] =>
      destruct (String.eqb_spec a host) as [<-|]
  end; by compare_names.
Qed.

Lemma host_slot_creates n name get h :
  host_slot n name = Some get →
  get h = slot n name (reserved (emit.node_Kind n) name) h.
Proof. rewrite reserved_kind. by destruct n; simpl; intros [= <-]. Qed.

Lemma accepts_with s its ps i : accepts (with_items s its ps) i ↔ accepts s i.
Proof. done. Qed.

Lemma well_typed_insert n name s k i p s' :
  well_typed n name s → InsertAt s k i p = Ok s' → well_typed n name s'.
Proof.
  intros [] E. unfold InsertAt in E.
  destruct (Z.ltb_spec k 0), (Z.ltb_spec (Z.of_nat (length (Items s))) k); try done. simpl in E.
  destruct (checkKind s i) eqn:Hc; [done|]. injection E as <-.
  apply check_kind_accepts in Hc. split; simpl; try done.
  - rewrite !insert_length by lia. lia.
  - eapply Forall_impl; [|intros x; apply accepts_with].
    unfold slice_insert. apply Forall_app. split; [by apply Forall_take|].
    constructor; [done|]. by apply Forall_drop.
Qed.

Lemma well_typed_contribute n name s c s' :
  well_typed n name s → contribute c s = Ok s' → well_typed n name s'.
Proof.
  intros Hw E. destruct c as [i p|i p|k i p|id i p|id i p]; simpl in E.
  - unfold Append in E. destruct (checkKind s i) eqn:Hc; [done|]. injection E as <-.
    apply check_kind_accepts in Hc. destruct Hw. split; simpl; try done.
    + rewrite !length_app. simpl. lia.
    + eapply Forall_impl; [|intros x; apply accepts_with]. apply Forall_app. auto.
  - eapply well_typed_insert; eauto.
  - eapply well_typed_insert; eauto.
  - unfold InsertBefore in E. repeat case_match; try done. eapply well_typed_insert; eauto.
  - unfold InsertAfter in E. repeat case_match; try done. eapply well_typed_insert; eauto.
Qed.

(** The slots of hosts with their own pointers. *)
Definition heap_typed (hosts : list emit.Node_) (h : sheap) : Prop :=
  ∀ n name s, n ∈ hosts → SlotsByName n h name = Some s → well_typed n name s.

Lemma contribute_to_typed hosts n name c h :
  (∀ a b, a ∈ hosts → b ∈ hosts → emit.ref (emit.node_base a) = emit.ref (emit.node_base b) → a = b) →
  n ∈ hosts → heap_typed hosts h → heap_typed hosts (contribute_to n name c h).
Proof.
  intros Hinj Hn Hh. unfold contribute_to. destruct (host_slot n name) as [get|] eqn:Hg; [|done].
  rewrite (host_slot_creates _ _ _ h Hg). unfold slot.
  assert (∀ h s, heap_typed hosts h → well_typed n name s →
    heap_typed hosts (<[(emit.ref (emit.node_base n), name) := s]> h)) as Hput.
  { intros h' s Hh' Hs m nm t Hm Ht. unfold SlotsByName in Ht.
    apply lookup_insert_Some in Ht as [[E <-]|[_ Ht]]; [|by apply Hh'].
    injection E as E <-. by rewrite <- (Hinj n m Hn Hm E). }
  destruct (h !! _) as [s|] eqn:Hs.
  - destruct (contribute c s) as [s'|e] eqn:Hc; [|done].
    apply Hput; [done|]. eapply well_typed_contribute; [by apply Hh|done].
  - set (s := MkSlot _ _ _ _ _).
    assert (well_typed n name s) by (by split; simpl).
    destruct (contribute c s) as [s'|e] eqn:Hc; [|by apply Hput].
    apply Hput; [by apply Hput|]. by eapply well_typed_contribute.
Qed.

(** ** One list of pairs *)

Definition takes (k : Kind) (i : item) : bool :=
  String.eqb k "" || match i with Some v => String.eqb (value_Kind v) k | None => false end.

(** What a contribution does to a list of items with their provenances, for a
    slot of element kind [k]. *)
Definition place (k : Kind) (l : list (item * Provenance)) (c : contribution) : list (item * Provenance) :=
  let put n i p := if takes k i then slice_insert l n (i, p) else l in
  match c with
  | CAppend i p => put (length l) i p
  | CPrepend i p => put 0 i p
  | CInsertAt j i p => if bool_decide (0 <= j <= Z.of_nat (length l))%Z then put (Z.to_nat j) i p else l
  | CInsertBefore id i p =>
      match list_find (λ x, id ≠ "" ∧ pr_ID x.2 = id) l with Some (j, _) => put j i p | None => l end
  | CInsertAfter id i p =>
      match list_find (λ x, id ≠ "" ∧ pr_ID x.2 = id) l with Some (j, _) => put (S j) i p | None => l end
  end.

(** The items of a slot with their provenances. *)
Definition pairs (s : Slot) : list (item * Provenance) := zip (Items s) (ProvenanceList s).

Lemma takes_check s i : takes (ElemKind s) i = bool_decide (checkKind s i = None).
Proof.
  unfold takes, checkKind. destruct (String.eqb (ElemKind s) ""), i as [v|]; simpl; try done.
  by destruct (String.eqb (value_Kind v) (ElemKind s)).
Qed.

Lemma zip_insert {A B} (l : list A) (k : list B) n x y :
  length l = length k →
  zip (slice_insert l n x) (slice_insert k n y) = slice_insert (zip l k) n (x, y).
Proof.
  intros E. unfold slice_insert. rewrite zip_with_app by (rewrite !length_take; lia). simpl.
  by rewrite zip_with_take, zip_with_drop.
Qed.

(** An operation that lands at [n] is an insertion into the list of pairs. *)
Lemma insert_pairs s (j : Z) i p :
  length (Items s) = length (ProvenanceList s) →
  let l := pairs s in
  let l' := if bool_decide (0 <= j <= Z.of_nat (length l))%Z
            then if takes (ElemKind s) i then slice_insert l (Z.to_nat j) (i, p) else l else l in
  match InsertAt s j i p with
  | Ok s' => pairs s' = l' ∧ length (Items s') = length (ProvenanceList s') ∧ ElemKind s' = ElemKind s
  | Err _ => l' = l
  end.
Proof.
  intros Hl. cbv zeta. rewrite takes_check. unfold InsertAt, pairs. rewrite length_zip_with, <- Hl, Nat.min_id.
  destruct (Z.ltb_spec j 0), (Z.ltb_spec (Z.of_nat (length (Items s))) j); simpl;
    first [rewrite bool_decide_eq_false_2 by lia; done | rewrite (bool_decide_eq_true_2 (0 <= j <= _)%Z) by lia].
  destruct (checkKind s i); simpl; [done|]. rewrite zip_insert by done.
  rewrite !insert_length by lia. split_and!; [done|lia|done].
Qed.

Lemma first_id_find id s :
  length (Items s) = length (ProvenanceList s) → id ≠ "" →
  first_id id 0 (ProvenanceList s) =
  (λ x, Z.of_nat x.1) <$> list_find (λ x, id ≠ "" ∧ pr_ID x.2 = id) (pairs s).
Proof.
  intros Hl Hid. unfold pairs. change 0%Z with (Z.of_nat 0).
  assert (∀ (l : list item) ps k, length l = length ps → first_id id (Z.of_nat k) ps =
    (λ x, Z.of_nat (k + x.1)) <$> list_find (λ x, id ≠ "" ∧ pr_ID x.2 = id) (zip l ps)) as H.
  { induction l as [|x l IH]; intros [|q ps] k E; try done. simpl.
    destruct (String.eqb_spec (pr_ID q) id) as [Eq|Eq].
    - rewrite decide_True by done. simpl. by rewrite Nat.add_0_r.
    - rewrite decide_False by naive_solver. replace (Z.of_nat k + 1)%Z with (Z.of_nat (S k)) by lia.
      rewrite IH by (simpl in E; lia). destruct (list_find _ _) as [[? ?]|]; simpl; [|done].
      do 2 f_equal. lia. }
  rewrite (H (Items s)) by done. done.
Qed.

(** Every operation on a slot is [place] on its pairs. *)
Lemma contribute_place c s :
  length (Items s) = length (ProvenanceList s) →
  match contribute c s with
  | Ok s' => pairs s' = place (ElemKind s) (pairs s) c ∧
             length (Items s') = length (ProvenanceList s') ∧ ElemKind s' = ElemKind s
  | Err _ => place (ElemKind s) (pairs s) c = pairs s
  end.
Proof.
  intros Hl.
  assert (length (pairs s) = length (Items s)) as Hlen by (unfold pairs; rewrite length_zip_with; lia).
  destruct c as [i p|i p|k i p|id i p|id i p]; simpl.
  - unfold Append. rewrite takes_check. destruct (checkKind s i); simpl; [done|].
    rewrite !length_app. simpl. split_and!; [|lia|done]. unfold slice_insert.
    rewrite take_ge, drop_ge by lia. unfold pairs. simpl. by rewrite zip_with_app.
  - pose proof (insert_pairs s 0 i p Hl) as H. cbv zeta in H. rewrite bool_decide_eq_true_2 in H by lia. exact H.
  - exact (insert_pairs s k i p Hl).
  - unfold InsertBefore. destruct (String.eqb_spec id "") as [->|Hid].
    { destruct (list_find _ _) as [[j x]|] eqn:E; [|done]. apply list_find_Some in E. naive_solver. }
    rewrite first_id_find by done. destruct (list_find _ _) as [[j x]|] eqn:E; simpl; [|done].
    apply list_find_Some in E as (Ej%lookup_lt_Some & _).
    pose proof (insert_pairs s (Z.of_nat j) i p Hl) as H. cbv zeta in H.
    rewrite bool_decide_eq_true_2, Nat2Z.id in H by lia. exact H.
  - unfold InsertAfter. destruct (String.eqb_spec id "") as [->|Hid].
    { destruct (list_find _ _) as [[j x]|] eqn:E; [|done]. apply list_find_Some in E. naive_solver. }
    rewrite first_id_find by done. destruct (list_find _ _) as [[j x]|] eqn:E; simpl; [|done].
    apply list_find_Some in E as (Ej%lookup_lt_Some & _).
    pose proof (insert_pairs s (Z.of_nat j + 1) i p Hl) as H. cbv zeta in H.
    rewrite bool_decide_eq_true_2 in H by lia.
    replace (Z.to_nat (Z.of_nat j + 1)) with (S j) in H by lia. exact H.
Qed.

(** The contributions made to one slot of a host. *)
Definition made_to (n : emit.Node_) (name : string) (cs : list (emit.Node_ * string * contribution))
    : list contribution :=
  (filter (λ c, emit.ref (emit.node_base c.1.1) = emit.ref (emit.node_base n) ∧ c.1.2 = name) cs).*2.

(** What the heap shows of a slot follows [place]. *)
Definition shown (n : emit.Node_) (name : string) (h : sheap) : list (item * Provenance) :=
  match SlotsByName n h name with Some s => pairs s | None => [] end.

Lemma contribute_to_shown hosts n name c h :
  (∀ a b, a ∈ hosts → b ∈ hosts → emit.ref (emit.node_base a) = emit.ref (emit.node_base b) → a = b) →
  heap_typed hosts h → n ∈ hosts → c.1.1 ∈ hosts → is_Some (host_slot n name) →
  shown n name (contribute_to c.1.1 c.1.2 c.2 h) =
  fold_left (place (reserved (emit.node_Kind n) name)) (made_to n name [c]) (shown n name h).
Proof.
  intros Hinj Hh Hn Hc [get Hget]. destruct c as [[m nm] c]. unfold made_to. rewrite filter_cons. simpl in *.
  destruct (decide _) as [[E ->]|Hne]; simpl.
  - apply Hinj in E as ->; [|done..]. unfold contribute_to, shown.
    rewrite Hget, (host_slot_creates _ _ _ h Hget). unfold slot, SlotsByName.
    destruct (h !! _) as [s|] eqn:Es.
    + destruct (Hh n name s Hn Es) as [_ _ Hk Hp _]. pose proof (contribute_place c s Hp) as H.
      rewrite <- Hk. destruct (contribute c s); [|by rewrite Es]. by rewrite lookup_insert_eq; destruct H as [-> _].
    + set (s := MkSlot _ _ _ _ _). pose proof (contribute_place c s eq_refl) as H.
      change (reserved (emit.node_Kind n) name) with (ElemKind s). change (pairs s) with (@nil (item * Provenance)) in H.
      destruct (contribute c s); rewrite lookup_insert_eq; [by destruct H as [-> _]|done].
  - unfold contribute_to, shown, SlotsByName. destruct (host_slot m nm) as [get'|] eqn:Hg'; [|done].
    rewrite (host_slot_creates _ _ _ h Hg'). unfold slot.
    assert ((emit.ref (emit.node_base m), nm) ≠ (emit.ref (emit.node_base n), name)) as Hk by naive_solver.
    destruct (h !! (emit.ref (emit.node_base m), nm)); destruct (contribute c _);
      by rewrite ?lookup_insert_ne by done.
Qed.

Lemma run_typed hosts cs h :
  (∀ a b, a ∈ hosts → b ∈ hosts → emit.ref (emit.node_base a) = emit.ref (emit.node_base b) → a = b) →
  Forall (λ c, c.1.1 ∈ hosts) cs → heap_typed hosts h →
  let h' := fold_left (λ h c, contribute_to c.1.1 c.1.2 c.2 h) cs h in
  heap_typed hosts h' ∧
  ∀ n name, n ∈ hosts → is_Some (host_slot n name) →
    shown n name h' = fold_left (place (reserved (emit.node_Kind n) name)) (made_to n name cs) (shown n name h).
Proof.
  intros Hinj Hcs. revert h. induction Hcs as [|c cs Hc _ IH]; intros h Hh; [done|]. simpl.
  destruct (IH (contribute_to c.1.1 c.1.2 c.2 h)) as [H1 H2]; [by apply contribute_to_typed|].
  split; [done|]. intros n name Hn Hg. rewrite H2 by done.
  rewrite (contribute_to_shown hosts) by done. rewrite <- fold_left_app. f_equal.
  unfold made_to. by rewrite <- fmap_app, <- filter_app.
Qed.

(** A node without slots has none, whatever calls are made. *)
Lemma run_hostless (hosts : list emit.Node_) cs n name :
  (∀ a b, a ∈ hosts → b ∈ hosts → emit.ref (emit.node_base a) = emit.ref (emit.node_base b) → a = b) →
  Forall (λ c, c.1.1 ∈ hosts) cs → n ∈ hosts → host_slot n name = None →
  SlotsByName n (fold_left (λ h c, contribute_to c.1.1 c.1.2 c.2 h) cs ∅) name = None.
Proof.
  intros Hinj Hcs Hn Hg. unfold SlotsByName. generalize (lookup_empty (M := gmap _) (A := Slot) (emit.ref (emit.node_base n), name)).
  generalize (∅ : sheap). induction Hcs as [|[[m nm] c] cs Hc _ IH]; intros h Hh; [done|]. apply IH.
  simpl in *. unfold contribute_to. destruct (host_slot m nm) as [get|] eqn:Eg; [|done].
  rewrite (host_slot_creates _ _ _ h Eg). unfold slot.
  assert ((emit.ref (emit.node_base m), nm) ≠ (emit.ref (emit.node_base n), name)) as Hk.
  { intros [= E ->]. apply Hinj in E as ->; [|done..]. congruence. }
  destruct (h !! (emit.ref (emit.node_base m), nm)); destruct (contribute c _);
    by rewrite ?lookup_insert_ne by done.
Qed.

(** C23: the contents and the element type of a slot follow the calls made to
    it.  Whatever sequence of appends, prepends and insertions plugins run on
    the slots of a set of hosts with distinct pointers, through typed accessors
    or by name and in any order: every slot carries the constraint the table
    of reserved names gives its host kind and name; its items and provenances
    are, index by index, the list of pairs obtained by running the calls made
    to that slot on one list of pairs ([place]: rejected calls change nothing,
    an insertion puts item and provenance at the same place), so each item has
    its own provenance at its index; and the items of a constrained slot are
    not nil and of the slot's kind.  A nil pointer of that kind's type counts
    as such an item, as the code's check does
    ([typed_nil_passes_the_check]). *)
Theorem slot_types_are_stable (hosts : list emit.Node_) (cs : list (emit.Node_ * string * contribution)) n name s :
  (∀ a b, a ∈ hosts → b ∈ hosts → emit.ref (emit.node_base a) = emit.ref (emit.node_base b) → a = b) →
  Forall (λ c, c.1.1 ∈ hosts) cs → n ∈ hosts →
  SlotsByName n (fold_left (λ h c, contribute_to c.1.1 c.1.2 c.2 h) cs ∅) name = Some s →
  let k := reserved (emit.node_Kind n) name in
  ElemKind s = k ∧
  length (Items s) = length (ProvenanceList s) ∧
  zip (Items s) (ProvenanceList s) = fold_left (place k) (made_to n name cs) [] ∧
  (k ≠ "" → ∀ i, i ∈ Items s → ∃ x, i = Some x ∧ value_Kind x = k).
Proof.
  intros Hinj Hcs Hn Hs k.
  destruct (run_typed hosts cs ∅) as [Hh Hshow];
    [done|done|intros ? ? ? _ H; unfold SlotsByName in H; by rewrite lookup_empty in H|].
  assert (is_Some (host_slot n name)) as Hhost.
  { destruct (host_slot n name) eqn:E; [done|]. by rewrite (run_hostless hosts) in Hs. }
  destruct (Hh n name s Hn Hs) as [_ _ Hk Hp Hi]. split_and!; [done..| |].
  - specialize (Hshow n name Hn Hhost). unfold shown in Hshow. rewrite Hs in Hshow.
    unfold SlotsByName in Hshow. by rewrite lookup_empty in Hshow.
  - unfold k. intros Hr i Hin. rewrite Forall_forall in Hi.
    destruct (Hi i Hin) as [E|(x & -> & E)]; [congruence|]. exists x. by rewrite E.
Qed.

(** ** Insertion next to another contribution *)

Lemma first_id_spec id k ps :
  match first_id id k ps with
  | None => Forall (λ p, pr_ID p ≠ id) ps
  | Some j => ∃ p1 q p2, ps = p1 ++ q :: p2 ∧ pr_ID q = id ∧ Forall (λ p, pr_ID p ≠ id) p1 ∧
                         j = (k + Z.of_nat (length p1))%Z
  end.
Proof.
  revert k. induction ps as [|p ps IH]; intros k; simpl; [by constructor|].
  destruct (String.eqb_spec (pr_ID p) id) as [E|E].
  - exists [], p, ps. simpl. split_and!; [done..|]. lia.
  - specialize (IH (k + 1)%Z). destruct (first_id id (k + 1) ps); [|by constructor].
    destruct IH as (p1 & q & p2 & -> & Hq & Hp & ->). exists (p :: p1), q, p2.
    split_and!; [done|done|by constructor|]. simpl. lia.
Qed.

(** The slot with [i] put between two parts of its contents. *)
Lemma insert_between s l1 l2 p1 p2 i p :
  Items s = l1 ++ l2 → ProvenanceList s = p1 ++ p2 → length l1 = length p1 → accepts s i →
  InsertAt s (Z.of_nat (length p1)) i p = Ok (with_items s (l1 ++ i :: l2) (p1 ++ p :: p2)).
Proof.
  intros Hl Hp Hlen Ha%check_kind_accepts. unfold InsertAt. rewrite Hl, Hp, Ha, length_app, Nat2Z.id.
  replace (Z.of_nat (length p1) <? 0)%Z with false by (symmetry; apply Z.ltb_ge; lia).
  replace (Z.of_nat (length l1 + length l2) <? Z.of_nat (length p1))%Z with false
    by (symmetry; apply Z.ltb_ge; lia).
  simpl. unfold slice_insert. by rewrite <- Hlen at 1 2; rewrite !take_app_length, !drop_app_length.
Qed.

(** a contribution placed next to another one stays next to it: for a
    non-empty id that some contribution carries and an item of the accepted
    kind, [InsertBefore] and [InsertAfter] put the item directly before or
    after the first contribution with that id and keep the rest in order;
    with an empty or unknown id both fail and name it. *)
Theorem insert_next_to_contribution s id i p :
  length (Items s) = length (ProvenanceList s) → accepts s i →
  if bool_decide (id ≠ "" ∧ id ∈ pr_ID <$> ProvenanceList s)
  then ∃ l1 x l2 p1 q p2,
      Items s = l1 ++ x :: l2 ∧ ProvenanceList s = p1 ++ q :: p2 ∧ length l1 = length p1 ∧
      pr_ID q = id ∧ id ∉ pr_ID <$> p1 ∧
      InsertBefore s id i p = Ok (with_items s (l1 ++ i :: x :: l2) (p1 ++ p :: q :: p2)) ∧
      InsertAfter s id i p = Ok (with_items s (l1 ++ x :: i :: l2) (p1 ++ q :: p :: p2))
  else InsertBefore s id i p = Err (ErrProvenanceNotFound id (SlotName s)) ∧
       InsertAfter s id i p = Err (ErrProvenanceNotFound id (SlotName s)).
Proof.
  intros Hl Ha. unfold InsertBefore, InsertAfter. pose proof (first_id_spec id 0 (ProvenanceList s)) as Hf.
  destruct (String.eqb_spec id "") as [->|Hid].
  { by rewrite bool_decide_eq_false_2 by naive_solver. }
  destruct (first_id id 0 (ProvenanceList s)) as [k|].
  - destruct Hf as (p1 & q & p2 & Hp & Hq & Hp1 & ->). rewrite bool_decide_eq_true_2; last first.
    { split; [done|]. rewrite Hp, fmap_app. set_solver. }
    rewrite Z.add_0_l.
    assert (∃ l1 x l2, Items s = l1 ++ x :: l2 ∧ length l1 = length p1) as (l1 & x & l2 & Hi & Hll).
    { destruct (lookup_lt_is_Some_2 (Items s) (length p1)) as [x Hx].
      { rewrite Hl, Hp, length_app. simpl. lia. }
      exists (take (length p1) (Items s)), x, (drop (S (length p1)) (Items s)).
      split; [by rewrite take_drop_middle|]. apply length_take_le. rewrite Hl, Hp, length_app. lia. }
    exists l1, x, l2, p1, q, p2. split_and!; try done.
    + rewrite Forall_forall in Hp1. intros (r & E & Hr)%list_elem_of_fmap. by apply (Hp1 r Hr).
    + by apply insert_between.
    + replace (Z.of_nat (length p1) + 1)%Z with (Z.of_nat (length (p1 ++ [q])))
        by (rewrite length_app; simpl; lia).
      rewrite (insert_between s (l1 ++ [x]) l2 (p1 ++ [q]) p2) by
        (rewrite ?length_app, <- ?(assoc_L app); simpl; auto with lia). by rewrite <- !(assoc_L app).
  - rewrite bool_decide_eq_false_2; [done|]. rewrite Forall_forall in Hf.
    intros [_ (r & E & Hr)%list_elem_of_fmap]. by apply (Hf r Hr).
Qed.

(** ** Examples *)

Definition demo_base (r : pointer) : emit.BaseEmit := emit.MkBase r zero_pos [] [] None "" "".
Definition demo_struct : emit.Node_ := emit.NStruct (emit.MkStruct (demo_base 1) "User" "app" [] [] [] []).
Definition demo_field (r : pointer) (name : string) : emit.Node_ :=
  emit.NField (emit.MkField (demo_base r) name None "" "").
Definition by_plugin (id : string) : Provenance := MkProvenance "audit" zero_pos id.

(** A field is accepted, a method is not, and the second field goes first. *)
Definition demo_run : list (emit.Node_ * string * contribution) :=
  [(demo_struct, "fields", CAppend (of_node (demo_field 2 "CreatedAt")) (by_plugin "created"));
   (demo_struct, "fields", CAppend (of_node demo_struct) (by_plugin ""));
   (demo_struct, "fields", CInsertBefore "created" (of_node (demo_field 3 "ID")) (by_plugin "id"))].

Definition demo_slot : Slot :=
  default (NewSlot "" "")
    (SlotsByName demo_struct (fold_left (λ h c, contribute_to c.1.1 c.1.2 c.2 h) demo_run ∅) "fields").

Example demo_slot_items :
  Items demo_slot = [of_node (demo_field 3 "ID"); of_node (demo_field 2 "CreatedAt")].
Proof. vm_compute. reflexivity. Qed.

Lemma insert_respects_bounds_witness :
  is_ok (InsertAt demo_slot 2 (of_node (demo_field 4 "Name")) (by_plugin "")) = true ∧
  is_ok (InsertAt demo_slot 3 (of_node (demo_field 4 "Name")) (by_plugin "")) = false ∧
  is_ok (InsertAt demo_slot (-1) (of_node (demo_field 4 "Name")) (by_plugin "")) = false.
Proof.
  assert (length (Items demo_slot) = length (ProvenanceList demo_slot)) as Hl by (vm_compute; reflexivity).
  split_and!.
  - apply (insert_respects_bounds demo_slot 2 (of_node (demo_field 4 "Name")) (by_plugin "") Hl).
    split; [vm_compute; split; discriminate|]. right. by eexists.
  - vm_compute. reflexivity.
  - vm_compute. reflexivity.
Defined.

Lemma slot_types_are_stable_witness :
  ElemKind demo_slot = emit.KindField ∧
  zip (Items demo_slot) (ProvenanceList demo_slot) =
    [(of_node (demo_field 3 "ID"), by_plugin "id"); (of_node (demo_field 2 "CreatedAt"), by_plugin "created")].
Proof.
  destruct (slot_types_are_stable [demo_struct] demo_run demo_struct "fields" demo_slot) as (H & _ & Hz & _).
  - by intros a b ->%list_elem_of_singleton ->%list_elem_of_singleton _.
  - repeat constructor.
  - by left.
  - vm_compute. reflexivity.
  - split; [exact H | rewrite Hz; vm_compute; reflexivity].
Defined.

(** A constrained slot refuses nil and takes a nil pointer of its kind's type,
    which it then hands out. *)
Theorem typed_nil_passes_the_check :
  let s := NewSlot slotFields emit.KindField in
  is_ok (Append s None (by_plugin "")) = false ∧
  ∃ s', Append s (Some (TypedNil emit.KindField)) (by_plugin "") = Ok s' ∧
        At s' 0 = Some (TypedNil emit.KindField).
Proof. split; [reflexivity|]. eexists. split; reflexivity. Qed.

Lemma insert_next_to_contribution_witness :
  ∃ s, InsertAfter demo_slot "id" (of_node (demo_field 4 "Name")) (by_plugin "") = Ok s ∧
       Items s = [of_node (demo_field 3 "ID"); of_node (demo_field 4 "Name"); of_node (demo_field 2 "CreatedAt")].
Proof.
  pose proof (insert_next_to_contribution demo_slot "id" (of_node (demo_field 4 "Name")) (by_plugin "")) as H.
  rewrite bool_decide_eq_true_2 in H by (split; [discriminate|vm_compute; left]).
  destruct H as (l1 & x & l2 & p1 & q & p2 & _ & _ & _ & _ & _ & _ & E).
  - vm_compute. reflexivity.
  - right. by eexists.
  - exists (with_items demo_slot (l1 ++ x :: of_node (demo_field 4 "Name") :: l2) (p1 ++ q :: by_plugin "" :: p2)).
    split; [exact E|]. vm_compute in E. injection E as E _. simpl. symmetry. exact E.
Defined.

End slots.
