(* ===== verification/StoreEmit.v ===== *)
(** * store: the view of emitted nodes

    [EmitView] of [src/store/emit_view.go] with [append.go], and the store that
    pairs it with the node view ([store.go]).  It mirrors [NodeView]: buckets
    per kind, indexes over all kinds, a freeze flag; it adds the index by
    output target, the queue of contributions that wait for routing, and
    [AddPackage] merges a package whose path is already there into the first
    one.

    What the program changes through pointers is in the state beside the view:
    the routing targets of declarations, the owners of methods, the metadata
    bags, and the contents of the packages, which a merge extends. *)

From S2P Require Import Prelude GoStrings Position Diag Meta Directive Node NodeQueries Manifest StoreIndex StoreOps StoreNodes Emit EmitSlots.

Local Open Scope string_scope.
Local Open Scope nat_scope.
Local Open Scope list_scope.

Module eview.
Import emit(ref, node_base, node_Kind).

Record PendingOriginSlot := MkPending {
  po_Origin : Node;
  po_SlotName : string;
  po_Item : emit.Node_;
  po_Prov : slots.Provenance;
}.

Record EmitView := MkEmitView {
  packages : Bucket emit.Package;
  files : Bucket emit.File;
  imports : Bucket emit.Import;
  structs : Bucket emit.Struct;
  interfaces : Bucket emit.Interface;
  methods : Bucket emit.Method;
  fields : Bucket emit.Field;
  functions : Bucket emit.Function_;
  variables : Bucket emit.Variable_;
  constants : Bucket emit.Constant;
  enums : Bucket emit.Enum;
  enumVariants : Bucket emit.EnumVariant;
  aliases : Bucket emit.Alias;
  byPackage : MultiIndex string emit.Node_;
  byDirective : MultiIndex string emit.Node_;
  byTarget : MultiIndex Target emit.Node_;
  byMetaKey : MultiIndex string emit.Node_;
  metaIndex : bool;
  warnedMetaIndex : bool;
  pendingOriginSlots : list PendingOriginSlot;
  frozen : bool;
  registered : list emit.Node_;
}.

Definition newEmitView : EmitView :=
  MkEmitView NewBucket NewBucket NewBucket NewBucket NewBucket NewBucket NewBucket NewBucket NewBucket
    NewBucket NewBucket NewBucket NewBucket NewMultiIndex NewMultiIndex NewMultiIndex NewMultiIndex
    false false [] false [].

(** ** Field updates *)

Definition set_packages (v : EmitView) (x : Bucket emit.Package) : EmitView :=
  MkEmitView x (files v) (imports v) (structs v) (interfaces v) (methods v) (fields v) (functions v)
    (variables v) (constants v) (enums v) (enumVariants v) (aliases v) (byPackage v) (byDirective v)
    (byTarget v) (byMetaKey v) (metaIndex v) (warnedMetaIndex v) (pendingOriginSlots v) (frozen v)
    (registered v).
Definition set_files (v : EmitView) (x : Bucket emit.File) : EmitView :=
  MkEmitView (packages v) x (imports v) (structs v) (interfaces v) (methods v) (fields v) (functions
    v) (variables v) (constants v) (enums v) (enumVariants v) (aliases v) (byPackage v) (byDirective
    v) (byTarget v) (byMetaKey v) (metaIndex v) (warnedMetaIndex v) (pendingOriginSlots v) (frozen
    v) (registered v).
Definition set_imports (v : EmitView) (x : Bucket emit.Import) : EmitView :=
  MkEmitView (packages v) (files v) x (structs v) (interfaces v) (methods v) (fields v) (functions
    v) (variables v) (constants v) (enums v) (enumVariants v) (aliases v) (byPackage v) (byDirective
    v) (byTarget v) (byMetaKey v) (metaIndex v) (warnedMetaIndex v) (pendingOriginSlots v) (frozen
    v) (registered v).
Definition set_structs (v : EmitView) (x : Bucket emit.Struct) : EmitView :=
  MkEmitView (packages v) (files v) (imports v) x (interfaces v) (methods v) (fields v) (functions
    v) (variables v) (constants v) (enums v) (enumVariants v) (aliases v) (byPackage v) (byDirective
    v) (byTarget v) (byMetaKey v) (metaIndex v) (warnedMetaIndex v) (pendingOriginSlots v) (frozen
    v) (registered v).
Definition set_interfaces (v : EmitView) (x : Bucket emit.Interface) : EmitView :=
  MkEmitView (packages v) (files v) (imports v) (structs v) x (methods v) (fields v) (functions v)
    (variables v) (constants v) (enums v) (enumVariants v) (aliases v) (byPackage v) (byDirective v)
    (byTarget v) (byMetaKey v) (metaIndex v) (warnedMetaIndex v) (pendingOriginSlots v) (frozen v)
    (registered v).
Definition set_methods (v : EmitView) (x : Bucket emit.Method) : EmitView :=
  MkEmitView (packages v) (files v) (imports v) (structs v) (interfaces v) x (fields v) (functions
    v) (variables v) (constants v) (enums v) (enumVariants v) (aliases v) (byPackage v) (byDirective
    v) (byTarget v) (byMetaKey v) (metaIndex v) (warnedMetaIndex v) (pendingOriginSlots v) (frozen
    v) (registered v).
Definition set_fields (v : EmitView) (x : Bucket emit.Field) : EmitView :=
  MkEmitView (packages v) (files v) (imports v) (structs v) (interfaces v) (methods v) x (functions
    v) (variables v) (constants v) (enums v) (enumVariants v) (aliases v) (byPackage v) (byDirective
    v) (byTarget v) (byMetaKey v) (metaIndex v) (warnedMetaIndex v) (pendingOriginSlots v) (frozen
    v) (registered v).
Definition set_functions (v : EmitView) (x : Bucket emit.Function_) : EmitView :=
  MkEmitView (packages v) (files v) (imports v) (structs v) (interfaces v) (methods v) (fields v) x
    (variables v) (constants v) (enums v) (enumVariants v) (aliases v) (byPackage v) (byDirective v)
    (byTarget v) (byMetaKey v) (metaIndex v) (warnedMetaIndex v) (pendingOriginSlots v) (frozen v)
    (registered v).
Definition set_variables (v : EmitView) (x : Bucket emit.Variable_) : EmitView :=
  MkEmitView (packages v) (files v) (imports v) (structs v) (interfaces v) (methods v) (fields v)
    (functions v) x (constants v) (enums v) (enumVariants v) (aliases v) (byPackage v) (byDirective
    v) (byTarget v) (byMetaKey v) (metaIndex v) (warnedMetaIndex v) (pendingOriginSlots v) (frozen
    v) (registered v).
Definition set_constants (v : EmitView) (x : Bucket emit.Constant) : EmitView :=
  MkEmitView (packages v) (files v) (imports v) (structs v) (interfaces v) (methods v) (fields v)
    (functions v) (variables v) x (enums v) (enumVariants v) (aliases v) (byPackage v) (byDirective
    v) (byTarget v) (byMetaKey v) (metaIndex v) (warnedMetaIndex v) (pendingOriginSlots v) (frozen
    v) (registered v).
Definition set_enums (v : EmitView) (x : Bucket emit.Enum) : EmitView :=
  MkEmitView (packages v) (files v) (imports v) (structs v) (interfaces v) (methods v) (fields v)
    (functions v) (variables v) (constants v) x (enumVariants v) (aliases v) (byPackage v)
    (byDirective v) (byTarget v) (byMetaKey v) (metaIndex v) (warnedMetaIndex v) (pendingOriginSlots
    v) (frozen v) (registered v).
Definition set_enumVariants (v : EmitView) (x : Bucket emit.EnumVariant) : EmitView :=
  MkEmitView (packages v) (files v) (imports v) (structs v) (interfaces v) (methods v) (fields v)
    (functions v) (variables v) (constants v) (enums v) x (aliases v) (byPackage v) (byDirective v)
    (byTarget v) (byMetaKey v) (metaIndex v) (warnedMetaIndex v) (pendingOriginSlots v) (frozen v)
    (registered v).
Definition set_aliases (v : EmitView) (x : Bucket emit.Alias) : EmitView :=
  MkEmitView (packages v) (files v) (imports v) (structs v) (interfaces v) (methods v) (fields v)
    (functions v) (variables v) (constants v) (enums v) (enumVariants v) x (byPackage v)
    (byDirective v) (byTarget v) (byMetaKey v) (metaIndex v) (warnedMetaIndex v) (pendingOriginSlots
    v) (frozen v) (registered v).
Definition set_byPackage (v : EmitView) (x : MultiIndex string emit.Node_) : EmitView :=
  MkEmitView (packages v) (files v) (imports v) (structs v) (interfaces v) (methods v) (fields v)
    (functions v) (variables v) (constants v) (enums v) (enumVariants v) (aliases v) x (byDirective
    v) (byTarget v) (byMetaKey v) (metaIndex v) (warnedMetaIndex v) (pendingOriginSlots v) (frozen
    v) (registered v).
Definition set_byDirective (v : EmitView) (x : MultiIndex string emit.Node_) : EmitView :=
  MkEmitView (packages v) (files v) (imports v) (structs v) (interfaces v) (methods v) (fields v)
    (functions v) (variables v) (constants v) (enums v) (enumVariants v) (aliases v) (byPackage v) x
    (byTarget v) (byMetaKey v) (metaIndex v) (warnedMetaIndex v) (pendingOriginSlots v) (frozen v)
    (registered v).
Definition set_byTarget (v : EmitView) (x : MultiIndex Target emit.Node_) : EmitView :=
  MkEmitView (packages v) (files v) (imports v) (structs v) (interfaces v) (methods v) (fields v)
    (functions v) (variables v) (constants v) (enums v) (enumVariants v) (aliases v) (byPackage v)
    (byDirective v) x (byMetaKey v) (metaIndex v) (warnedMetaIndex v) (pendingOriginSlots v) (frozen
    v) (registered v).
Definition set_byMetaKey (v : EmitView) (x : MultiIndex string emit.Node_) : EmitView :=
  MkEmitView (packages v) (files v) (imports v) (structs v) (interfaces v) (methods v) (fields v)
    (functions v) (variables v) (constants v) (enums v) (enumVariants v) (aliases v) (byPackage v)
    (byDirective v) (byTarget v) x (metaIndex v) (warnedMetaIndex v) (pendingOriginSlots v) (frozen
    v) (registered v).
Definition set_metaIndex (v : EmitView) (x : bool) : EmitView :=
  MkEmitView (packages v) (files v) (imports v) (structs v) (interfaces v) (methods v) (fields v)
    (functions v) (variables v) (constants v) (enums v) (enumVariants v) (aliases v) (byPackage v)
    (byDirective v) (byTarget v) (byMetaKey v) x (warnedMetaIndex v) (pendingOriginSlots v) (frozen
    v) (registered v).
Definition set_warnedMetaIndex (v : EmitView) (x : bool) : EmitView :=
  MkEmitView (packages v) (files v) (imports v) (structs v) (interfaces v) (methods v) (fields v)
    (functions v) (variables v) (constants v) (enums v) (enumVariants v) (aliases v) (byPackage v)
    (byDirective v) (byTarget v) (byMetaKey v) (metaIndex v) x (pendingOriginSlots v) (frozen v)
    (registered v).
Definition set_pendingOriginSlots (v : EmitView) (x : list PendingOriginSlot) : EmitView :=
  MkEmitView (packages v) (files v) (imports v) (structs v) (interfaces v) (methods v) (fields v)
    (functions v) (variables v) (constants v) (enums v) (enumVariants v) (aliases v) (byPackage v)
    (byDirective v) (byTarget v) (byMetaKey v) (metaIndex v) (warnedMetaIndex v) x (frozen v)
    (registered v).
Definition set_frozen (v : EmitView) (x : bool) : EmitView :=
  MkEmitView (packages v) (files v) (imports v) (structs v) (interfaces v) (methods v) (fields v)
    (functions v) (variables v) (constants v) (enums v) (enumVariants v) (aliases v) (byPackage v)
    (byDirective v) (byTarget v) (byMetaKey v) (metaIndex v) (warnedMetaIndex v) (pendingOriginSlots
    v) x (registered v).
Definition set_registered (v : EmitView) (x : list emit.Node_) : EmitView :=
  MkEmitView (packages v) (files v) (imports v) (structs v) (interfaces v) (methods v) (fields v)
    (functions v) (variables v) (constants v) (enums v) (enumVariants v) (aliases v) (byPackage v)
    (byDirective v) (byTarget v) (byMetaKey v) (metaIndex v) (warnedMetaIndex v) (pendingOriginSlots
    v) (frozen v) x.

(** ** The state *)

Record estate := MkE {
  e_view : EmitView;
  e_metas : metas;
  e_targets : gmap pointer Target;
  e_owners : emit.mowners;
  e_pkgs : gmap pointer emit.Package;
}.

Abbreviation eop := (op_on estate).

Definition with_view (st : estate) (v : EmitView) : estate :=
  MkE v (e_metas st) (e_targets st) (e_owners st) (e_pkgs st).
Definition with_metas (st : estate) (h : metas) : estate :=
  MkE (e_view st) h (e_targets st) (e_owners st) (e_pkgs st).
Definition with_owners (st : estate) (h : emit.mowners) : estate :=
  MkE (e_view st) (e_metas st) (e_targets st) h (e_pkgs st).
Definition with_pkgs (st : estate) (h : gmap pointer emit.Package) : estate :=
  MkE (e_view st) (e_metas st) (e_targets st) (e_owners st) h.

Definition zero_target : Target := MkTarget "" "" "" "".

(** The [Target] field of a declaration ([File] on an alias). *)
Definition target_of (st : estate) (b : emit.BaseEmit) : Target :=
  default zero_target (e_targets st !! ref b).

(** The current contents of a package. *)
Definition contents (st : estate) (p : emit.Package) : emit.Package :=
  default p (e_pkgs st !! ref (emit.p_base p)).

(** ** Ingestion *)

(** [if err := b.Add(qname, item); err != nil { return err }] *)
Definition add_to {T} (get : EmitView → Bucket T) (set : EmitView → Bucket T → EmitView)
    (qname : string) (item : T) : eop := λ st,
  match Bucket_Add (get (e_view st)) qname item with
  | Ok b => (with_view st (set (e_view st) b), None)
  | Err e => (st, Some e)
  end.

(** [_ = b.Add(qname, item)] *)
Definition add_ignoring {T} (get : EmitView → Bucket T) (set : EmitView → Bucket T → EmitView)
    (qname : string) (item : T) (st : estate) : estate :=
  (add_to get set qname item st).1.

Definition indexCommon (n : emit.Node_) (pkgPath : string) (target : Target) (st : estate) : estate :=
  let v := e_view st in
  let v := set_byPackage v (Index_Add (byPackage v) pkgPath n) in
  let v := set_byDirective v
    (fold_left (λ ix d, Index_Add ix (Name d) n) (emit.DirectiveList (node_base n)) (byDirective v)) in
  let v := if negb (Manifest.IsZero target) then set_byTarget v (Index_Add (byTarget v) target n) else v in
  let v := set_byMetaKey v
    (fold_left (λ ix name, Index_Add ix name n)
       (Meta.Names (emit.base_Meta (e_metas st) (node_base n)))
       (byMetaKey v)) in
  if negb (metaIndex v) then with_view st v
  else
    let '(bag, h) := emit.base_EnsureMeta (e_metas st) (node_base n) in
    let o := length (registered v) in
    with_metas (with_view st (set_registered v (registered v ++ [n])))
      (<[ref (node_base n) := AddObserver bag o]> h).

Definition addMethod (m : emit.Method) (ownerQName pkgPath : string) (target : Target) : eop :=
  and_then (add_to methods set_methods (ownerQName +:+ "." +:+ emit.m_Name m) m)
    (then_do (indexCommon (emit.NMethod m) pkgPath target)).

Definition add_import (i : emit.Import) (pkgPath : string) : eop :=
  then_do (λ st, indexCommon (emit.NImport i) pkgPath zero_target
                   (add_ignoring imports set_imports (emit.im_Path i) i st)).

Definition addFile (f : emit.File) (pkgPath : string) : eop :=
  and_then (add_to files set_files (emit.File_Path f) f)
    (and_then (then_do (indexCommon (emit.NFile f) pkgPath (emit.File_Target f)))
      (for_op (λ i, add_import i pkgPath) (emit.fi_Imports f))).

(** A routable declaration: its bucket, then the indexes under its target. *)
Definition add_decl {T} (get : EmitView → Bucket T) (set : EmitView → Bucket T → EmitView)
    (qname : string) (x : T) (n : emit.Node_) (pkgPath : string) : eop :=
  and_then (add_to get set qname x)
    (then_do (λ st, indexCommon n pkgPath (target_of st (node_base n)) st)).

Definition addStruct (s : emit.Struct) (pkgPath : string) : eop :=
  let qname := emit.Struct_QName s in
  and_then (add_decl structs set_structs qname s (emit.NStruct s) pkgPath)
    (and_then
      (for_op (λ f, and_then (add_to fields set_fields (qname +:+ "." +:+ emit.f_Name f) f)
                      (then_do (indexCommon (emit.NField f) pkgPath zero_target))) (emit.s_Fields s))
      (for_op (λ m, addMethod m qname pkgPath zero_target) (emit.s_Methods s))).

Definition addInterface (i : emit.Interface) (pkgPath : string) : eop :=
  let qname := emit.Interface_QName i in
  and_then (add_decl interfaces set_interfaces qname i (emit.NInterface i) pkgPath)
    (for_op (λ m, addMethod m qname pkgPath zero_target) (emit.i_Methods i)).

Definition addFunction (f : emit.Function_) (pkgPath : string) : eop :=
  add_decl functions set_functions (emit.Function_QName f) f (emit.NFunction f) pkgPath.

Definition addVariable (v : emit.Variable_) (pkgPath : string) : eop :=
  add_decl variables set_variables (emit.Variable_QName v) v (emit.NVariable v) pkgPath.

Definition addConstant (c : emit.Constant) (pkgPath : string) : eop :=
  add_decl constants set_constants (emit.Constant_QName c) c (emit.NConstant c) pkgPath.

Definition addEnum (e : emit.Enum) (pkgPath : string) : eop :=
  let qname := emit.Enum_QName e in
  and_then (add_decl enums set_enums qname e (emit.NEnum e) pkgPath)
    (for_op (λ vt, and_then (add_to enumVariants set_enumVariants (qname +:+ "." +:+ emit.ev_Name vt) vt)
                     (then_do (indexCommon (emit.NEnumVariant vt) pkgPath zero_target))) (emit.e_Variants e)).

Definition addAlias (a : emit.Alias) (pkgPath : string) : eop :=
  add_decl aliases set_aliases (emit.Alias_QName a) a (emit.NAlias a) pkgPath.

(** A top-level method is keyed by its owner, or by the package. *)
Definition add_top_method (m : emit.Method) (pkgPath : string) : eop := λ st,
  let o := emit.Method_OwnerQName (e_owners st) m in
  addMethod m (if String.eqb o "" then pkgPath else o) pkgPath zero_target st.

(** ** Merging: [host.X = append(host.X, x)] *)

Definition more_Files (p : emit.Package) (x : emit.File) : emit.Package :=
  emit.MkPackage (emit.p_base p) (emit.p_Name p) (emit.p_Path p) (emit.p_Dir p) (emit.p_Files p ++
    [x]) (emit.p_Imports p) (emit.p_Structs p) (emit.p_Interfaces p) (emit.p_Functions p)
    (emit.p_Methods p) (emit.p_Variables p) (emit.p_Constants p) (emit.p_Enums p) (emit.p_Aliases
    p).
Definition more_Imports (p : emit.Package) (x : emit.Import) : emit.Package :=
  emit.MkPackage (emit.p_base p) (emit.p_Name p) (emit.p_Path p) (emit.p_Dir p) (emit.p_Files p)
    (emit.p_Imports p ++ [x]) (emit.p_Structs p) (emit.p_Interfaces p) (emit.p_Functions p)
    (emit.p_Methods p) (emit.p_Variables p) (emit.p_Constants p) (emit.p_Enums p) (emit.p_Aliases
    p).
Definition more_Structs (p : emit.Package) (x : emit.Struct) : emit.Package :=
  emit.MkPackage (emit.p_base p) (emit.p_Name p) (emit.p_Path p) (emit.p_Dir p) (emit.p_Files p)
    (emit.p_Imports p) (emit.p_Structs p ++ [x]) (emit.p_Interfaces p) (emit.p_Functions p)
    (emit.p_Methods p) (emit.p_Variables p) (emit.p_Constants p) (emit.p_Enums p) (emit.p_Aliases
    p).
Definition more_Interfaces (p : emit.Package) (x : emit.Interface) : emit.Package :=
  emit.MkPackage (emit.p_base p) (emit.p_Name p) (emit.p_Path p) (emit.p_Dir p) (emit.p_Files p)
    (emit.p_Imports p) (emit.p_Structs p) (emit.p_Interfaces p ++ [x]) (emit.p_Functions p)
    (emit.p_Methods p) (emit.p_Variables p) (emit.p_Constants p) (emit.p_Enums p) (emit.p_Aliases
    p).
Definition more_Functions (p : emit.Package) (x : emit.Function_) : emit.Package :=
  emit.MkPackage (emit.p_base p) (emit.p_Name p) (emit.p_Path p) (emit.p_Dir p) (emit.p_Files p)
    (emit.p_Imports p) (emit.p_Structs p) (emit.p_Interfaces p) (emit.p_Functions p ++ [x])
    (emit.p_Methods p) (emit.p_Variables p) (emit.p_Constants p) (emit.p_Enums p) (emit.p_Aliases
    p).
Definition more_Methods (p : emit.Package) (x : emit.Method) : emit.Package :=
  emit.MkPackage (emit.p_base p) (emit.p_Name p) (emit.p_Path p) (emit.p_Dir p) (emit.p_Files p)
    (emit.p_Imports p) (emit.p_Structs p) (emit.p_Interfaces p) (emit.p_Functions p) (emit.p_Methods
    p ++ [x]) (emit.p_Variables p) (emit.p_Constants p) (emit.p_Enums p) (emit.p_Aliases p).
Definition more_Variables (p : emit.Package) (x : emit.Variable_) : emit.Package :=
  emit.MkPackage (emit.p_base p) (emit.p_Name p) (emit.p_Path p) (emit.p_Dir p) (emit.p_Files p)
    (emit.p_Imports p) (emit.p_Structs p) (emit.p_Interfaces p) (emit.p_Functions p) (emit.p_Methods
    p) (emit.p_Variables p ++ [x]) (emit.p_Constants p) (emit.p_Enums p) (emit.p_Aliases p).
Definition more_Constants (p : emit.Package) (x : emit.Constant) : emit.Package :=
  emit.MkPackage (emit.p_base p) (emit.p_Name p) (emit.p_Path p) (emit.p_Dir p) (emit.p_Files p)
    (emit.p_Imports p) (emit.p_Structs p) (emit.p_Interfaces p) (emit.p_Functions p) (emit.p_Methods
    p) (emit.p_Variables p) (emit.p_Constants p ++ [x]) (emit.p_Enums p) (emit.p_Aliases p).
Definition more_Enums (p : emit.Package) (x : emit.Enum) : emit.Package :=
  emit.MkPackage (emit.p_base p) (emit.p_Name p) (emit.p_Path p) (emit.p_Dir p) (emit.p_Files p)
    (emit.p_Imports p) (emit.p_Structs p) (emit.p_Interfaces p) (emit.p_Functions p) (emit.p_Methods
    p) (emit.p_Variables p) (emit.p_Constants p) (emit.p_Enums p ++ [x]) (emit.p_Aliases p).
Definition more_Aliases (p : emit.Package) (x : emit.Alias) : emit.Package :=
  emit.MkPackage (emit.p_base p) (emit.p_Name p) (emit.p_Path p) (emit.p_Dir p) (emit.p_Files p)
    (emit.p_Imports p) (emit.p_Structs p) (emit.p_Interfaces p) (emit.p_Functions p) (emit.p_Methods
    p) (emit.p_Variables p) (emit.p_Constants p) (emit.p_Enums p) (emit.p_Aliases p ++ [x]).

(** The append after a recorded entry, when merging into [host]. *)
Definition merged {A} (host : option emit.Package) (more : emit.Package → A → emit.Package) (x : A) : eop :=
  match host with
  | None => done_op
  | Some p => then_do (λ st, with_pkgs st
      (<[ref (emit.p_base p) := more (contents st p) x]> (e_pkgs st)))
  end.

(** One loop of [AddPackage]. *)
Definition add_each {A} (host : option emit.Package) (add : A → string → eop)
    (more : emit.Package → A → emit.Package) (path : string) (l : list A) : eop :=
  for_op (λ x, and_then (add x path) (merged host more x)) l.

(** The loops of [AddPackage]. *)
Definition record_decls (host : option emit.Package) (p : emit.Package) : eop :=
  let path := emit.p_Path p in
  and_then (add_each host addFile more_Files path (emit.p_Files p))
  (and_then (add_each host add_import more_Imports path (emit.p_Imports p))
  (and_then (add_each host addStruct more_Structs path (emit.p_Structs p))
  (and_then (add_each host addInterface more_Interfaces path (emit.p_Interfaces p))
  (and_then (add_each host addFunction more_Functions path (emit.p_Functions p))
  (and_then (add_each host add_top_method more_Methods path (emit.p_Methods p))
  (and_then (add_each host addVariable more_Variables path (emit.p_Variables p))
  (and_then (add_each host addConstant more_Constants path (emit.p_Constants p))
  (and_then (add_each host addEnum more_Enums path (emit.p_Enums p))
            (add_each host addAlias more_Aliases path (emit.p_Aliases p)))))))))).

(** The body of [AddPackage] after its two guards. *)
Definition record_package (p : emit.Package) : eop := λ st,
  let path := emit.p_Path p in
  match ByQName (packages (e_view st)) path with
  | Some host => record_decls (Some host) p st
  | None =>
      record_decls None p
        (indexCommon (emit.NPackage p) path zero_target
           (with_pkgs (add_ignoring packages set_packages path p st)
              (<[ref (emit.p_base p) := p]> (e_pkgs st))))
  end.

Definition AddPackage (p : option emit.Package) : eop := λ st,
  match p with
  | None => (st, Some ErrNilEntry)
  | Some p =>
      if frozen (e_view st) then (st, Some (ErrFrozen "EmitView (post-generator phase)"))
      else record_package p st
  end.

(** ** Files by target *)

(** [fresh] is the pointer of the allocated file. *)
Definition FileFor (fresh : pointer) (target : Target) (st : estate) : estate * res StoreError emit.File :=
  let key := t_Dir target +:+ "/" +:+ t_Filename target in
  match ByQName (files (e_view st)) key with
  | Some f => (st, Ok f)
  | None =>
      if frozen (e_view st)
      then (st, Err (ErrFrozen ("cannot create emit.File for {Dir:" +:+ t_Dir target +:+ " Filename:" +:+ t_Filename target
                                +:+ " Package:" +:+ t_Package target +:+ " ImportPath:" +:+ t_ImportPath target +:+ "}")))
      else
        let f := emit.MkFile (emit.MkBase fresh zero_pos [] [] None "" "") (t_Filename target)
                   (t_Package target) (t_Dir target) (t_ImportPath target) [] in
        (indexCommon (emit.NFile f) (t_Dir target) (emit.File_Target f)
           (add_ignoring files set_files key f st), Ok f)
  end.

(** One [Range] of [RebuildByTarget]. *)
Definition index_targets {T} (get : T → Target) (wrap : T → emit.Node_) (b : Bucket T)
    (ix : MultiIndex Target emit.Node_) : MultiIndex Target emit.Node_ :=
  Bucket_Range b (λ e ix, ((if negb (Manifest.IsZero (get e)) then Index_Add ix (get e) (wrap e) else ix), true)) ix.

Definition RebuildByTarget (st : estate) : estate :=
  let v := e_view st in
  let ix := newMultiIndexSize (Bucket_Len (files v)) in
  let ix := index_targets emit.File_Target emit.NFile (files v) ix in
  let ix := index_targets (λ e, target_of st (emit.s_base e)) emit.NStruct (structs v) ix in
  let ix := index_targets (λ e, target_of st (emit.i_base e)) emit.NInterface (interfaces v) ix in
  let ix := index_targets (λ e, target_of st (emit.fn_base e)) emit.NFunction (functions v) ix in
  let ix := index_targets (λ e, target_of st (emit.m_base e)) emit.NMethod (methods v) ix in
  let ix := index_targets (λ e, target_of st (emit.v_base e)) emit.NVariable (variables v) ix in
  let ix := index_targets (λ e, target_of st (emit.k_base e)) emit.NConstant (constants v) ix in
  let ix := index_targets (λ e, target_of st (emit.e_base e)) emit.NEnum (enums v) ix in
  let ix := index_targets (λ e, target_of st (emit.a_base e)) emit.NAlias (aliases v) ix in
  with_view st (set_byTarget v ix).

(** ** Contributions that wait for routing *)

Definition AppendOriginSlot (origin : option Node) (slotName : string) (item : option emit.Node_)
    (prov : slots.Provenance) : eop := λ st,
  match origin, item with
  | Some o, Some i =>
      if String.eqb slotName "" then (st, Some (ErrUnknownSlotName slotName))
      else if frozen (e_view st) then (st, Some (ErrFrozen "EmitView (post-layout phase)"))
      else (with_view st (set_pendingOriginSlots (e_view st)
              (pendingOriginSlots (e_view st) ++ [MkPending o slotName i prov])), None)
  | _, _ => (st, Some ErrNilEntry)
  end.

Definition PendingOriginSlots (v : EmitView) : list PendingOriginSlot := pendingOriginSlots v.

(** [as_type] is the type assertion to [T]; [yield] stops the walk by
    answering false. *)
Definition PendingOfType {T S} (as_type : emit.Node_ → option T) (v : option EmitView)
    (yield : Node → T → S → S * bool) (s : S) : S :=
  match v with
  | None => s
  | Some v =>
      (fix go (l : list PendingOriginSlot) (s : S) : S :=
         match l with
         | [] => s
         | slot :: l =>
             match as_type (po_Item slot) with
             | None => go l s
             | Some item => let '(s, more) := yield (po_Origin slot) item s in
                            if more then go l s else s
             end
         end) (pendingOriginSlots v) s
  end.

(** Keyed by the identity of the origin. *)
Definition PendingByOrigin {T} (as_type : emit.Node_ → option T) (v : option EmitView) : gmap pointer T :=
  PendingOfType as_type v (λ origin item m, (<[node_ref origin := item]> m, true)) ∅.

(** ** [append.go] *)

(** The kinds with an [OwnerName] method are the declarations that own
    methods. *)
Definition originName (origin : option Node) : string :=
  match origin with
  | None => ""
  | Some n =>
      match OwnerName n with
      | Some name => if negb (String.eqb name "") then name else Node.node_Kind n
      | None => Node.node_Kind n
      end
  end.

(** The error is the one of [AppendOriginSlot], wrapped with the kind and the
    slot name. *)
Definition appendOrigin (setBy slotName id : string) (origin : option Node) (values : list (option emit.Node_)) : eop :=
  for_op (λ value, match value with
                   | None => done_op
                   | Some x => AppendOriginSlot origin slotName (Some x)
                                 (slots.MkProvenance setBy zero_pos (node_Kind x +:+ "." +:+ id))
                   end) values.

Definition AppendOrigin (setBy slotName : string) (origin : option Node) (values : list (option emit.Node_)) : eop :=
  appendOrigin setBy slotName (originName origin) origin values.

Definition AppendOriginAs (setBy slotName id : string) (origin : option Node) (values : list (option emit.Node_)) : eop :=
  appendOrigin setBy slotName id origin values.

(** ** Accessors and switches *)

Definition Packages (v : EmitView) : Bucket emit.Package := packages v.
Definition Files (v : EmitView) : Bucket emit.File := files v.
Definition Imports (v : EmitView) : Bucket emit.Import := imports v.
Definition Structs (v : EmitView) : Bucket emit.Struct := structs v.
Definition Interfaces (v : EmitView) : Bucket emit.Interface := interfaces v.
Definition Methods (v : EmitView) : Bucket emit.Method := methods v.
Definition Fields (v : EmitView) : Bucket emit.Field := fields v.
Definition Functions (v : EmitView) : Bucket emit.Function_ := functions v.
Definition Variables (v : EmitView) : Bucket emit.Variable_ := variables v.
Definition Constants (v : EmitView) : Bucket emit.Constant := constants v.
Definition Enums (v : EmitView) : Bucket emit.Enum := enums v.
Definition EnumVariants (v : EmitView) : Bucket emit.EnumVariant := enumVariants v.
Definition Aliases (v : EmitView) : Bucket emit.Alias := aliases v.
Definition ByPackage (v : EmitView) : MultiIndex string emit.Node_ := byPackage v.
Definition ByDirective (v : EmitView) : MultiIndex string emit.Node_ := byDirective v.
Definition ByTarget (v : EmitView) : MultiIndex Target emit.Node_ := byTarget v.

Definition EnableMetaKeyIndex (v : EmitView) : EmitView := set_metaIndex v true.
Definition Freeze (v : EmitView) : EmitView := set_frozen v true.
Definition IsFrozen (v : EmitView) : bool := frozen v.

Definition ByMetaKey (v : EmitView) (d : option Sink) : MultiIndex string emit.Node_ * EmitView * option Sink :=
  if negb (metaIndex v) && negb (warnedMetaIndex v)
  then (byMetaKey v, set_warnedMetaIndex v true, emitDisabledMetaIndex d "EmitView.EnableMetaKeyIndex")
  else (byMetaKey v, v, d).

(** What the observers of a bag do when a write fires them. *)
Definition notify (v : EmitView) (fired : list (nat * string)) : EmitView :=
  fold_left (λ v '(o, name),
    match registered v !! o with
    | Some n => set_byMetaKey v (Index_Add (byMetaKey v) name n)
    | None => v
    end) fired v.

(** ** [store.go] *)

Record Store := MkStore { s_nodes : nstate; s_emit : estate }.

Definition New : Store := MkStore (MkN newNodeView ∅) (MkE newEmitView ∅ ∅ ∅ ∅).
Definition Nodes (s : Store) : NodeView := n_view (s_nodes s).
Definition Emit (s : Store) : EmitView := e_view (s_emit s).

Definition resolveNodeOwner (s : Store) (r : OwnerRef) : option emit.Owner :=
  let v := Nodes s in
  if String.eqb (or_Kind r) KindStruct then (λ x, emit.OwnNode (NStruct x)) <$> ByQName (StoreNodes.Structs v) (or_QName r)
  else if String.eqb (or_Kind r) KindInterface then (λ x, emit.OwnNode (NInterface x)) <$> ByQName (StoreNodes.Interfaces v) (or_QName r)
  else if String.eqb (or_Kind r) KindEnum then (λ x, emit.OwnNode (NEnum x)) <$> ByQName (StoreNodes.Enums v) (or_QName r)
  else if String.eqb (or_Kind r) KindAlias then (λ x, emit.OwnNode (NAlias x)) <$> ByQName (StoreNodes.Aliases v) (or_QName r)
  else None.

Definition resolveEmitOwner (s : Store) (r : OwnerRef) : option emit.Owner :=
  let v := Emit s in
  if String.eqb (or_Kind r) emit.KindStruct then emit.OwnStruct <$> ByQName (Structs v) (or_QName r)
  else if String.eqb (or_Kind r) emit.KindInterface then emit.OwnInterface <$> ByQName (Interfaces v) (or_QName r)
  else if String.eqb (or_Kind r) emit.KindAlias then emit.OwnAlias <$> ByQName (Aliases v) (or_QName r)
  else None.

Definition resolveOwner (s : Store) (r : OwnerRef) : option emit.Owner :=
  if has_prefix (or_Kind r) "emit." then resolveEmitOwner s r else resolveNodeOwner s r.

(** The body of the loop over the methods of a package. *)
Definition rewire_method (s : Store) (h : emit.mowners) (m : emit.Method) : emit.mowners :=
  match h !! ref (emit.m_base m) with
  | Some _ => h
  | None =>
      if OwnerRef_IsZero (emit.m_OwnerRef m) then h
      else match resolveOwner s (emit.m_OwnerRef m) with
           | Some owner => <[ref (emit.m_base m) := owner]> h
           | None => h
           end
  end.

Definition RewireMethodOwners (s : Store) : Store :=
  let st := s_emit s in
  let h := Bucket_Range (packages (e_view st))
             (λ p h, (fold_left (rewire_method s) (emit.p_Methods (contents st p)) h, true)) (e_owners st) in
  MkStore (s_nodes s) (with_owners st h).

End eview.
