(* ===== verification/StoreEmitLaws.v ===== *)
(** * store: the emit view and the store

    What generators, the layout pass and the backend rely on: the index by
    target is the scan of the routed declarations, a file path has one file
    for the whole run, packages of one path are merged in order of arrival,
    frozen views do not change, and owner references of methods find their
    owners again. *)

From S2P Require Import Prelude GoStrings Position Diag Meta Directive Node NodeQueries Manifest StoreIndex StoreOps StoreNodes Emit EmitSlots StoreEmit.

Local Open Scope string_scope.
Local Open Scope nat_scope.
Local Open Scope list_scope.

Import eview.
Import emit(ref, node_base).

(** ** Output targets *)

(** The routable nodes with their current targets, in the order the backend
    sees them. *)
Definition routed (st : estate) : list (Target * emit.Node_) :=
  let v := e_view st in
  ((λ e, (emit.File_Target e, emit.NFile e)) <$> items (files v)) ++
  ((λ e, (target_of st (emit.s_base e), emit.NStruct e)) <$> items (structs v)) ++
  ((λ e, (target_of st (emit.i_base e), emit.NInterface e)) <$> items (interfaces v)) ++
  ((λ e, (target_of st (emit.fn_base e), emit.NFunction e)) <$> items (functions v)) ++
  ((λ e, (target_of st (emit.m_base e), emit.NMethod e)) <$> items (methods v)) ++
  ((λ e, (target_of st (emit.v_base e), emit.NVariable e)) <$> items (variables v)) ++
  ((λ e, (target_of st (emit.k_base e), emit.NConstant e)) <$> items (constants v)) ++
  ((λ e, (target_of st (emit.e_base e), emit.NEnum e)) <$> items (enums v)) ++
  ((λ e, (target_of st (emit.a_base e), emit.NAlias e)) <$> items (aliases v)).

Abbreviation is_routed := (λ e : Target * emit.Node_, Manifest.IsZero e.1 = false).

Lemma index_targets_ok {T} (get : T → Target) wrap (b : Bucket T) ix l :
  index_ok ix l →
  index_ok (index_targets get wrap b ix) (l ++ filter is_routed ((λ e, (get e, wrap e)) <$> items b)).
Proof.
  unfold index_targets, Bucket_Range. revert ix l. induction (items b) as [|e es IH]; intros ix l Hix; simpl.
  - by rewrite app_nil_r.
  - rewrite filter_cons. simpl. destruct (Manifest.IsZero (get e)) eqn:Ez; simpl; [by apply IH|].
    rewrite cons_middle, app_assoc. by apply IH, index_ok_add.
Qed.

(** the target index follows the routing: after [RebuildByTarget] the
    nodes listed under an output target are exactly the files and
    declarations whose current target it is, each as often as it is
    registered, files first and then kind by kind in registration order,
    whatever the index held before; nothing is listed under the zero target;
    the targets appear in order of first use; and nothing but the index
    changes. *)
Theorem target_index_is_scan st t :
  let ix := ByTarget (e_view (RebuildByTarget st)) in
  Index_Get ix t = (filter (λ e, e.1 = t ∧ is_routed e) (routed st)).*2 ∧
  Index_Keys ix = first_keys [] (filter is_routed (routed st)) ∧
  RebuildByTarget st = with_view st (set_byTarget (e_view st) ix).
Proof.
  cbv zeta. assert (index_ok (ByTarget (e_view (RebuildByTarget st))) (filter is_routed (routed st))) as Hix.
  { unfold routed, RebuildByTarget. simpl. rewrite !filter_app, !app_assoc.
    do 8 apply index_targets_ok. apply (index_targets_ok _ _ _ _ []). apply index_ok_new. }
  split_and!; [|apply Hix|done]. rewrite (index_ok_get _ _ _ Hix). unfold under. f_equal.
  rewrite list_filter_filter. done.
Qed.

(** ** Commands *)

(** What plugins and the pipeline do to the emit side of the store; [CTargets]
    stands for the layout pass, which rewrites the targets, and [CMetaWrite] is
    what a metadata write does through the observers. *)
Inductive command :=
| CAddPackage (p : option emit.Package)
| CFileFor (fresh : pointer) (t : Target)
| CAppendOriginSlot (o : option Node) (slot : string) (i : option emit.Node_) (p : slots.Provenance)
| CTargets (ts : gmap pointer Target)
| CRebuild
| CEnableMetaKeyIndex
| CByMetaKey (d : option Sink)
| CFreeze
| CMetaWrite (fired : list (nat * string)) (h : metas).

Definition execute (c : command) (st : estate) : estate :=
  match c with
  | CAddPackage p => (AddPackage p st).1
  | CFileFor fresh t => (FileFor fresh t st).1
  | CAppendOriginSlot o s i p => (AppendOriginSlot o s i p st).1
  | CTargets ts => MkE (e_view st) (e_metas st) ts (e_owners st) (e_pkgs st)
  | CRebuild => RebuildByTarget st
  | CEnableMetaKeyIndex => with_view st (EnableMetaKeyIndex (e_view st))
  | CByMetaKey d => with_view st (ByMetaKey (e_view st) d).1.2
  | CFreeze => with_view st (Freeze (e_view st))
  | CMetaWrite fired h => with_metas (with_view st (notify (e_view st) fired)) h
  end.

Definition run (cs : list command) (st : estate) : estate := fold_left (λ st c, execute c st) cs st.

Lemma run_keeps (R : relation estate) cs st :
  Reflexive R → Transitive R → (∀ c st, R st (execute c st)) → R st (run cs st).
Proof.
  intros Hr Ht Hc. unfold run. revert st. induction cs as [|c cs IH]; intros st; simpl; [apply Hr|].
  etrans; [apply Hc|apply IH].
Qed.

(** ** What ingestion keeps *)

(** A relation that every recording step respects. *)
Record frame (R : relation estate) : Prop := {
  fr_refl : Reflexive R;
  fr_trans : Transitive R;
  fr_index : ∀ n path t st, R st (indexCommon n path t st);
  fr_files : ∀ key x st, R st (add_to files set_files key x st).1;
  fr_imports : ∀ key x st, R st (add_to imports set_imports key x st).1;
  fr_structs : ∀ key x st, R st (add_to structs set_structs key x st).1;
  fr_interfaces : ∀ key x st, R st (add_to interfaces set_interfaces key x st).1;
  fr_methods : ∀ key x st, R st (add_to methods set_methods key x st).1;
  fr_fields : ∀ key x st, R st (add_to fields set_fields key x st).1;
  fr_functions : ∀ key x st, R st (add_to functions set_functions key x st).1;
  fr_variables : ∀ key x st, R st (add_to variables set_variables key x st).1;
  fr_constants : ∀ key x st, R st (add_to constants set_constants key x st).1;
  fr_enums : ∀ key x st, R st (add_to enums set_enums key x st).1;
  fr_enumVariants : ∀ key x st, R st (add_to enumVariants set_enumVariants key x st).1;
  fr_aliases : ∀ key x st, R st (add_to aliases set_aliases key x st).1;
}.

(** Solves [R st (op st).1] for the composed operations. *)
Ltac framed Hf :=
  destruct Hf;
  repeat first
    [ assumption
    | solve [auto]
    | apply and_then_keeps; [assumption| |intros ?]
    | apply for_op_keeps; [assumption..|intros ? ?]
    | progress unfold then_do
    | progress cbn [fst] ].

Section Framed.
Context (R : relation estate) (Hf : frame R).

Lemma frame_addMethod m owner path t st : R st (addMethod m owner path t st).1.
Proof using Hf. unfold addMethod. framed Hf. Qed.

Lemma frame_add_import i path st : R st (add_import i path st).1.
Proof using Hf. unfold add_import, add_ignoring. destruct Hf. simpl. etrans; eauto. Qed.

Lemma frame_addFile f path st : R st (addFile f path st).1.
Proof using Hf.
  unfold addFile. pose proof frame_add_import. framed Hf.
Qed.

Lemma frame_add_decl {T} get (set : EmitView → Bucket T → EmitView) q x n path st :
  (∀ key x st, R st (add_to get set key x st).1) → R st (add_decl get set q x n path st).1.
Proof using Hf. intros. unfold add_decl. framed Hf. Qed.

Lemma frame_addStruct s path st : R st (addStruct s path st).1.
Proof using Hf.
  unfold addStruct. pose proof frame_addMethod. pose proof (λ T, @frame_add_decl T). framed Hf.
Qed.

Lemma frame_addInterface i path st : R st (addInterface i path st).1.
Proof using Hf.
  unfold addInterface. pose proof frame_addMethod. pose proof (λ T, @frame_add_decl T). framed Hf.
Qed.

Lemma frame_addEnum e path st : R st (addEnum e path st).1.
Proof using Hf. unfold addEnum. pose proof (λ T, @frame_add_decl T). framed Hf. Qed.

Lemma frame_add_top_method m path st : R st (add_top_method m path st).1.
Proof using Hf. apply frame_addMethod. Qed.

Lemma frame_flat path st :
  (∀ f, R st (addFunction f path st).1) ∧ (∀ v, R st (addVariable v path st).1) ∧
  (∀ c, R st (addConstant c path st).1) ∧ (∀ a, R st (addAlias a path st).1).
Proof using Hf.
  split_and!; intros x; [unfold addFunction|unfold addVariable|unfold addConstant|unfold addAlias];
    apply frame_add_decl; destruct Hf; assumption.
Qed.

Lemma frame_add_each {A} host add (more : emit.Package → A → emit.Package) path l st :
  (∀ x st, R st (add x path st).1) → (∀ h st, R st (with_pkgs st h)) →
  R st (add_each host add more path l st).1.
Proof using Hf.
  intros Ha Hp. destruct Hf. unfold add_each. apply for_op_keeps; [done..|]. intros x st'.
  apply and_then_keeps; [done..|].
  intros st2. destruct host; simpl; auto.
Qed.

Lemma frame_record_decls host p st :
  (∀ h st, R st (with_pkgs st h)) → R st (record_decls host p st).1.
Proof using Hf.
  intros Hp. assert (Transitive R) by apply Hf. unfold record_decls.
  repeat (apply and_then_keeps; [done| |intros ?]); apply frame_add_each; auto using frame_addFile,
    frame_add_import, frame_addStruct, frame_addInterface, frame_addEnum, frame_add_top_method;
    intros; apply frame_flat.
Qed.

Lemma frame_AddPackage p st :
  (∀ h st, R st (with_pkgs st h)) → (∀ key x st, R st (add_to packages set_packages key x st).1) →
  R st (AddPackage p st).1.
Proof using Hf.
  intros Hp Hk. assert (Reflexive R) by apply Hf. assert (Transitive R) by apply Hf.
  unfold AddPackage. destruct p as [p|]; [|done]. destruct (frozen (e_view st)); [done|].
  unfold record_package. destruct (ByQName _ _) as [host|]; [by apply frame_record_decls|].
  etrans; [|by apply frame_record_decls]. etrans; [|apply (fr_index _ Hf)]. etrans; [apply Hk|]. apply Hp.
Qed.
End Framed.

(** The steps a frame for an observation of the buckets has to check. *)
Ltac frame_steps :=
  unfold add_to; intros; match goal with |- context [Bucket_Add ?b ?k ?x] => destruct (Bucket_Add b k x) eqn:? end.

Lemma indexCommon_view n path t st :
  let v := e_view st in
  let v' := e_view (indexCommon n path t st) in
  packages v' = packages v ∧ files v' = files v ∧ frozen v' = frozen v ∧
  pendingOriginSlots v' = pendingOriginSlots v ∧
  e_pkgs (indexCommon n path t st) = e_pkgs st ∧ e_owners (indexCommon n path t st) = e_owners st.
Proof.
  unfold indexCommon. cbv zeta. destruct (negb (Manifest.IsZero t)); simpl;
    (destruct (metaIndex (e_view st)); simpl; [destruct (emit.base_EnsureMeta _ _)|]; done).
Qed.

(** ** One file per path *)

(** Registered files stay registered. *)
Definition files_grow (st st' : estate) : Prop :=
  ∀ key f, ByQName (files (e_view st)) key = Some f → ByQName (files (e_view st')) key = Some f.

Lemma files_grow_same st st' : files (e_view st') = files (e_view st) → files_grow st st'.
Proof. intros E key f. by rewrite E. Qed.

Lemma bucket_add_keeps {T} (b b' : Bucket T) key x q f :
  Bucket_Add b key x = Ok b' → ByQName b q = Some f → ByQName b' q = Some f.
Proof.
  unfold Bucket_Add, ByQName. destruct (byQName b !! key) eqn:E; intros [= <-] Hq. simpl.
  rewrite lookup_insert_ne; [done|]. congruence.
Qed.

Lemma bucket_add_finds {T} (b b' : Bucket T) key x :
  Bucket_Add b key x = Ok b' → ByQName b' key = Some x.
Proof. unfold Bucket_Add, ByQName. destruct (byQName b !! key); intros [= <-]. apply lookup_insert_eq. Qed.

Lemma files_grow_frame : frame files_grow.
Proof.
  split; try (frame_steps; by apply files_grow_same).
  - by intros st key f.
  - intros a b c H1 H2 key f H. by apply H2, H1.
  - intros. apply files_grow_same, indexCommon_view.
  - frame_steps; [|by apply files_grow_same]. intros q f. simpl. by eapply bucket_add_keeps.
Qed.

Lemma notify_files v fired : files (notify v fired) = files v.
Proof.
  unfold notify. revert v. induction fired as [|[o name] fired IH]; intros v; simpl; [done|]. rewrite IH. by case_match.
Qed.

Lemma execute_files_grow c st : files_grow st (execute c st).
Proof.
  destruct c; simpl; try by apply files_grow_same.
  - apply frame_AddPackage; [apply files_grow_frame|by intros; apply files_grow_same|].
    frame_steps; by apply files_grow_same.
  - unfold FileFor. repeat case_match; simpl; try by apply files_grow_same.
    eapply (fr_trans _ files_grow_frame); [apply (fr_files _ files_grow_frame)|apply (fr_index _ files_grow_frame)].
  - unfold AppendOriginSlot. repeat case_match; by apply files_grow_same.
  - unfold ByMetaKey. case_match; by apply files_grow_same.
  - apply files_grow_same, notify_files.
Qed.

(** generators that write to one file get the same file: once [FileFor]
    has answered for a path, every later [FileFor] for the same directory and
    file name, whatever else happened to the view in between, a freeze
    included, answers that very file, so contributions of all plugins meet in
    one place. *)
Theorem file_for_is_stable fresh t st st' f cs fresh' t' :
  FileFor fresh t st = (st', Ok f) →
  t_Dir t' = t_Dir t → t_Filename t' = t_Filename t →
  FileFor fresh' t' (run cs st') = (run cs st', Ok f).
Proof.
  intros H Hd Hn. unfold FileFor at 1. rewrite Hd, Hn.
  assert (ByQName (files (e_view st')) (t_Dir t +:+ "/" +:+ t_Filename t) = Some f) as Hf.
  { unfold FileFor in H. cbv zeta in H. set (key := t_Dir t +:+ "/" +:+ t_Filename t) in *. clearbody key.
    destruct (ByQName _ _) as [g|] eqn:E; [congruence|].
    destruct (frozen _); [done|]. injection H as <- <-. rewrite (proj1 (proj2 (indexCommon_view _ _ _ _))).
    unfold add_ignoring, add_to. destruct (Bucket_Add _ _ _) eqn:Eb; cbn [fst].
    - by eapply bucket_add_finds.
    - unfold Bucket_Add in Eb. unfold ByQName in E. by rewrite E in Eb. }
  assert (files_grow st' (run cs st')) as Hg.
  { apply run_keeps; [apply files_grow_frame..|apply execute_files_grow]. }
  by rewrite (Hg _ _ Hf).
Qed.

(** ** Packages of one path are merged *)

(** The declarations of [q] after those of [p]. *)
Definition merge (p q : emit.Package) : emit.Package :=
  emit.MkPackage (emit.p_base p) (emit.p_Name p) (emit.p_Path p) (emit.p_Dir p)
    (emit.p_Files p ++ emit.p_Files q) (emit.p_Imports p ++ emit.p_Imports q)
    (emit.p_Structs p ++ emit.p_Structs q) (emit.p_Interfaces p ++ emit.p_Interfaces q)
    (emit.p_Functions p ++ emit.p_Functions q) (emit.p_Methods p ++ emit.p_Methods q)
    (emit.p_Variables p ++ emit.p_Variables q) (emit.p_Constants p ++ emit.p_Constants q)
    (emit.p_Enums p ++ emit.p_Enums q) (emit.p_Aliases p ++ emit.p_Aliases q).

(** The registered packages and their contents. *)
Definition same_packages (st st' : estate) : Prop :=
  packages (e_view st') = packages (e_view st) ∧ e_pkgs st' = e_pkgs st ∧
  frozen (e_view st') = frozen (e_view st).

Lemma same_packages_frame : frame same_packages.
Proof.
  split; try (by frame_steps).
  - by intros st.
  - intros a b c (E1 & E2 & E3) (F1 & F2 & F3). repeat split; congruence.
  - intros. pose proof (indexCommon_view n path t st) as (? & ? & ? & ? & ? & ?). done.
Qed.

(** What a successful loop over one kind does to the packages. *)
Lemma add_each_packages {A} host (add : A → string → eop) more path l st st' :
  (∀ x st, same_packages st (add x path st).1) →
  add_each host add more path l st = (st', None) →
  packages (e_view st') = packages (e_view st) ∧ frozen (e_view st') = frozen (e_view st) ∧
  match host with
  | None => e_pkgs st' = e_pkgs st
  | Some h => contents st' h = fold_left more l (contents st h) ∧
              ∀ r, r ≠ ref (emit.p_base h) → e_pkgs st' !! r = e_pkgs st !! r
  end.
Proof.
  intros Ha. unfold add_each. revert st. induction l as [|x l IH]; intros st; simpl.
  { intros [= <-]. by destruct host. }
  intros (st2 & (st1 & E1 & E2)%and_then_ok & E3)%and_then_ok.
  specialize (Ha x st). rewrite E1 in Ha. destruct Ha as (P1 & P2 & P3). simpl in *.
  apply IH in E3 as (Q1 & Q2 & Q3). destruct host as [h|]; simpl in E2; injection E2 as <-.
  - simpl in *. rewrite Q1, Q2. split_and!; [done..| |].
    + rewrite (proj1 Q3). unfold contents. simpl. by rewrite lookup_insert_eq, P2.
    + intros r Hr. rewrite (proj2 Q3) by done. rewrite lookup_insert_ne by done. by rewrite P2.
  - by rewrite Q1, Q2, Q3.
Qed.

(** Appending one by one is merging a package with that kind only. *)
Section MergeOne.
Context (b : emit.BaseEmit) (n path dir : string).

Abbreviation only := (emit.MkPackage b n path dir).

Ltac one_kind := let l := fresh in intros l; induction l as [|x l' IH]; intros p; simpl;
  [destruct p; unfold merge; simpl; by rewrite !app_nil_r
  |rewrite IH; unfold merge; simpl; by rewrite !app_nil_r, <- ?(assoc_L app)].

Lemma fold_Files : ∀ l p, fold_left more_Files l p = merge p (only l [] [] [] [] [] [] [] [] []).
Proof. one_kind. Qed.
Lemma fold_Imports : ∀ l p, fold_left more_Imports l p = merge p (only [] l [] [] [] [] [] [] [] []).
Proof. one_kind. Qed.
Lemma fold_Structs : ∀ l p, fold_left more_Structs l p = merge p (only [] [] l [] [] [] [] [] [] []).
Proof. one_kind. Qed.
Lemma fold_Interfaces : ∀ l p, fold_left more_Interfaces l p = merge p (only [] [] [] l [] [] [] [] [] []).
Proof. one_kind. Qed.
Lemma fold_Functions : ∀ l p, fold_left more_Functions l p = merge p (only [] [] [] [] l [] [] [] [] []).
Proof. one_kind. Qed.
Lemma fold_Methods : ∀ l p, fold_left more_Methods l p = merge p (only [] [] [] [] [] l [] [] [] []).
Proof. one_kind. Qed.
Lemma fold_Variables : ∀ l p, fold_left more_Variables l p = merge p (only [] [] [] [] [] [] l [] [] []).
Proof. one_kind. Qed.
Lemma fold_Constants : ∀ l p, fold_left more_Constants l p = merge p (only [] [] [] [] [] [] [] l [] []).
Proof. one_kind. Qed.
Lemma fold_Enums : ∀ l p, fold_left more_Enums l p = merge p (only [] [] [] [] [] [] [] [] l []).
Proof. one_kind. Qed.
Lemma fold_Aliases : ∀ l p, fold_left more_Aliases l p = merge p (only [] [] [] [] [] [] [] [] [] l).
Proof. one_kind. Qed.
End MergeOne.

Lemma package_ext p q :
  emit.p_base p = emit.p_base q →
  emit.p_Name p = emit.p_Name q →
  emit.p_Path p = emit.p_Path q →
  emit.p_Dir p = emit.p_Dir q →
  emit.p_Files p = emit.p_Files q →
  emit.p_Imports p = emit.p_Imports q →
  emit.p_Structs p = emit.p_Structs q →
  emit.p_Interfaces p = emit.p_Interfaces q →
  emit.p_Functions p = emit.p_Functions q →
  emit.p_Methods p = emit.p_Methods q →
  emit.p_Variables p = emit.p_Variables q →
  emit.p_Constants p = emit.p_Constants q →
  emit.p_Enums p = emit.p_Enums q →
  emit.p_Aliases p = emit.p_Aliases q → p = q.
Proof. destruct p, q. simpl. intros. by subst. Qed.

#[local] Opaque more_Files more_Imports more_Structs more_Interfaces more_Functions more_Methods
  more_Variables more_Constants more_Enums more_Aliases.

(** The effect of each loop of [record_decls] on the packages. *)
Ltac split_loops H :=
  repeat match type of H with
  | and_then _ _ _ = (_, None) =>
      let st1 := fresh "st" in let E := fresh "E" in
      apply and_then_ok in H as (st1 & E & H); apply add_each_packages in E;
        [|intros; first [by apply frame_addFile | by apply frame_add_import | by apply frame_addStruct
                        | by apply frame_addInterface | by apply frame_add_top_method | by apply frame_addEnum
                        | by apply frame_flat]]
  end;
  apply add_each_packages in H; [|intros; by apply frame_flat].

(** A successful call for a package of a known path. *)
Lemma record_decls_merge host p st st' :
  record_decls (Some host) p st = (st', None) →
  packages (e_view st') = packages (e_view st) ∧ frozen (e_view st') = frozen (e_view st) ∧
  contents st' host = merge (contents st host) p ∧
  ∀ r, r ≠ ref (emit.p_base host) → e_pkgs st' !! r = e_pkgs st !! r.
Proof.
  unfold record_decls. pose proof same_packages_frame as Hf. intros H.
  split_loops H.
  destruct_and!.
  split_and!; [congruence..| |].
  - repeat match goal with H : contents _ host = _ |- _ => rewrite H; clear H end.
    set (b := emit.p_base p).
    rewrite (fold_Files b "" "" ""), (fold_Imports b "" "" ""), (fold_Structs b "" "" ""),
      (fold_Interfaces b "" "" ""), (fold_Functions b "" "" ""), (fold_Methods b "" "" ""),
      (fold_Variables b "" "" ""), (fold_Constants b "" "" ""), (fold_Enums b "" "" ""),
      (fold_Aliases b "" "" "").
    apply package_ext; cbn; by rewrite ?app_nil_r.
  - intros r Hr. repeat match goal with H : ∀ r, _ → e_pkgs _ !! r = _ |- _ => rewrite H by done; clear H end. done.
Qed.

Lemma record_decls_new p st st' :
  record_decls None p st = (st', None) → same_packages st st'.
Proof.
  unfold record_decls. pose proof same_packages_frame as Hf. intros H.
  split_loops H.
  destruct_and!. repeat split; congruence.
Qed.

(** The packages of one path among those added. *)
Abbreviation of_path path ps := (filter (λ p, emit.p_Path p = path) ps).

Abbreviation pref p := (ref (emit.p_base p)).

(** What the view holds for every path after adding [ps]. *)
Definition merged_ok (ps : list emit.Package) (st : estate) : Prop :=
  ∀ path, match of_path path ps with
          | [] => ByQName (packages (e_view st)) path = None
          | p :: rest => ByQName (packages (e_view st)) path = Some p ∧
                         contents st p = fold_left merge rest p
          end.

Lemma of_path_snoc path ps p :
  of_path path (ps ++ [p]) = of_path path ps ++ (if decide (emit.p_Path p = path) then [p] else []).
Proof. rewrite filter_app, filter_cons. by destruct (decide _). Qed.

Lemma of_path_head path ps p rest : of_path path ps = p :: rest → p ∈ ps ∧ emit.p_Path p = path.
Proof.
  intros E. assert (p ∈ of_path path ps) as Hin by (rewrite E; left).
  by apply list_elem_of_filter in Hin as [? ?].
Qed.

(** A call for a package of a new path. *)
Lemma record_new p st st' :
  ByQName (packages (e_view st)) (emit.p_Path p) = None →
  record_package p st = (st', None) →
  byQName (packages (e_view st')) = <[emit.p_Path p := p]> (byQName (packages (e_view st))) ∧
  frozen (e_view st') = frozen (e_view st) ∧ e_pkgs st' = <[pref p := p]> (e_pkgs st).
Proof.
  intros Hn. unfold record_package. rewrite Hn. intros (E1 & E2 & E3)%record_decls_new.
  destruct (indexCommon_view (emit.NPackage p) (emit.p_Path p) zero_target
    (with_pkgs (add_ignoring packages set_packages (emit.p_Path p) p st) (<[pref p:=p]> (e_pkgs st))))
    as (V1 & _ & V3 & _ & V5 & _).
  rewrite E1, E2, E3, V1, V3, V5. simpl. unfold add_ignoring, add_to, Bucket_Add.
  unfold ByQName in Hn. by rewrite Hn.
Qed.

Lemma merged_ok_step ps p st st' :
  merged_ok ps st → NoDup (pref p :: ((λ q, pref q) <$> ps)) → frozen (e_view st) = false →
  AddPackage (Some p) st = (st', None) → merged_ok (ps ++ [p]) st' ∧ frozen (e_view st') = false.
Proof.
  intros Hm [Hp Hps]%NoDup_cons Hfr. unfold AddPackage. rewrite Hfr.
  assert (∀ q, q ∈ ps → pref q ≠ pref p) as Hne.
  { intros q Hq E. apply Hp. rewrite <- E. by apply (list_elem_of_fmap_2 (λ q, pref q)). }
  pose proof (Hm (emit.p_Path p)) as Hpath. destruct (of_path (emit.p_Path p) ps) as [|h rest] eqn:Ef.
  - intros H. destruct (record_new p st st' Hpath H) as (E1 & E2 & E3).
    split; [|congruence]. intros path. rewrite of_path_snoc. unfold ByQName, contents. rewrite E1, E3.
    specialize (Hm path). destruct (decide (emit.p_Path p = path)) as [<-|Hn].
    + rewrite Ef. simpl. by rewrite !lookup_insert_eq.
    + rewrite app_nil_r, lookup_insert_ne by done. destruct (of_path path ps) as [|q r] eqn:Eq; [done|].
      rewrite lookup_insert_ne; [done|]. apply of_path_head in Eq as [? _]. apply not_eq_sym. auto.
  - destruct Hpath as [Hh Hc]. unfold record_package. rewrite Hh. intros (E1 & E2 & E3 & E4)%record_decls_merge.
    split; [|congruence]. intros path. rewrite of_path_snoc, E1. specialize (Hm path).
    destruct (decide (emit.p_Path p = path)) as [<-|Hn].
    + rewrite Ef. simpl. split; [done|]. by rewrite E3, Hc, fold_left_app.
    + rewrite app_nil_r. destruct (of_path path ps) as [|q r] eqn:Eq; [done|]. destruct Hm as [Hq Hqc].
      split; [done|]. rewrite <- Hqc. unfold contents. rewrite E4; [done|]. intros E.
      apply of_path_head in Ef as [Hin1 Hpa1], Eq as [Hin2 Hpa2]. apply Hn. rewrite <- Hpa1, <- Hpa2.
      f_equal. symmetry. by apply (fmap_NoDup_inj (λ q, pref q) ps).
Qed.

(** packages of one path become one package: when generators add packages
    (distinct values) to an empty view and every call succeeds, the package
    registered for a path is the first one added for it, keeping its identity,
    and its contents are the declarations of all packages of that path, kind
    by kind, in order of arrival; no other package is registered. *)
Theorem packages_merge_in_order h ts o ps st path :
  NoDup ((λ p, pref p) <$> ps) →
  for_op (λ p, AddPackage (Some p)) ps (MkE newEmitView h ts o ∅) = (st, None) →
  match of_path path ps with
  | [] => ByQName (Packages (e_view st)) path = None
  | p :: rest => ByQName (Packages (e_view st)) path = Some p ∧ contents st p = fold_left merge rest p
  end.
Proof.
  intros Hd H.
  assert (∀ ps1 st1, merged_ok ps1 st1 → frozen (e_view st1) = false → NoDup ((λ p, pref p) <$> (ps1 ++ ps)) →
    for_op (λ p, AddPackage (Some p)) ps st1 = (st, None) → merged_ok (ps1 ++ ps) st) as Hrun.
  { clear Hd H. induction ps as [|p ps IH]; intros ps1 st1 Hm Hf Hd; simpl.
    { intros [= <-]. by rewrite app_nil_r. }
    intros (st2 & E & H)%and_then_ok. rewrite cons_middle, app_assoc in Hd |- *.
    assert (NoDup (pref p :: ((λ q, pref q) <$> ps1))) as Hd1.
    { rewrite !fmap_app in Hd. apply NoDup_app in Hd as [Hd _]. by rewrite Permutation_app_comm in Hd. }
    destruct (merged_ok_step ps1 p st1 st2 Hm Hd1 Hf E) as [Hm2 Hf2]. by apply (IH (ps1 ++ [p]) st2). }
  apply (Hrun [] (MkE newEmitView h ts o ∅)); [|done..]. intros q. done.
Qed.

(** ** Frozen views *)

(** What the operations of a frozen view may no longer change: everything but
    the target index, which the layout pass rebuilds, and the metadata index. *)
Definition emit_structure (st : estate) :=
  let v := e_view st in
  (packages v, files v, imports v, structs v, interfaces v, methods v, fields v, functions v, variables v,
   constants v, enums v, enumVariants v, aliases v, byPackage v, byDirective v, pendingOriginSlots v,
   e_pkgs st).

Definition node_structure (st : nstate) :=
  let v := n_view st in
  (StoreNodes.packages v, StoreNodes.files v, StoreNodes.imports v, StoreNodes.structs v,
   StoreNodes.interfaces v, StoreNodes.methods v, StoreNodes.fields v, StoreNodes.functions v,
   StoreNodes.variables v, StoreNodes.constants v, StoreNodes.enums v, StoreNodes.enumVariants v,
   StoreNodes.aliases v, StoreNodes.byPackage v, StoreNodes.byDirective v).

(** Commands on the node side; [NWrite] is what a metadata write does through
    the observers. *)
Inductive node_command :=
| NAddPackage (p : option Package)
| NEnableMetaKeyIndex
| NByMetaKey (d : option Sink)
| NWrite (fired : list (nat * string)) (h : metas)
| NFreeze.

Definition node_execute (c : node_command) (st : nstate) : nstate :=
  match c with
  | NAddPackage p => (StoreNodes.AddPackage p st).1
  | NEnableMetaKeyIndex => MkN (StoreNodes.EnableMetaKeyIndex (n_view st)) (n_metas st)
  | NByMetaKey d => MkN (StoreNodes.ByMetaKey (n_view st) d).1.2 (n_metas st)
  | NWrite fired h => MkN (StoreNodes.notify (n_view st) fired) h
  | NFreeze => MkN (StoreNodes.Freeze (n_view st)) (n_metas st)
  end.

(** The accessors hand out the buckets and indexes themselves, whose exported
    [Add] does not look at the flag of the view: a bucket of the kind of the
    node, or an index. *)
Inductive index_name := ByPackageIndex | ByDirectiveIndex | ByMetaKeyIndex.
Inductive direct_add :=
| NodeBucketAdd (qname : string) (n : Node)
| NodeIndexAdd (ix : index_name) (key : string) (n : Node)
| EmitBucketAdd (qname : string) (n : emit.Node_)
| EmitIndexAdd (ix : index_name) (key : string) (n : emit.Node_)
| EmitTargetAdd (t : Target) (n : emit.Node_).

Definition node_bucket_add (q : string) (n : Node) (st : nstate) : nstate :=
  match n with
  | NPackage x => StoreNodes.add_ignoring StoreNodes.packages StoreNodes.set_packages q x st
  | NFile x => StoreNodes.add_ignoring StoreNodes.files StoreNodes.set_files q x st
  | NImport x => StoreNodes.add_ignoring StoreNodes.imports StoreNodes.set_imports q x st
  | NStruct x => StoreNodes.add_ignoring StoreNodes.structs StoreNodes.set_structs q x st
  | NInterface x => StoreNodes.add_ignoring StoreNodes.interfaces StoreNodes.set_interfaces q x st
  | NMethod x => StoreNodes.add_ignoring StoreNodes.methods StoreNodes.set_methods q x st
  | NField x => StoreNodes.add_ignoring StoreNodes.fields StoreNodes.set_fields q x st
  | NFunction x => StoreNodes.add_ignoring StoreNodes.functions StoreNodes.set_functions q x st
  | NVariable x => StoreNodes.add_ignoring StoreNodes.variables StoreNodes.set_variables q x st
  | NConstant x => StoreNodes.add_ignoring StoreNodes.constants StoreNodes.set_constants q x st
  | NEnum x => StoreNodes.add_ignoring StoreNodes.enums StoreNodes.set_enums q x st
  | NEnumVariant x => StoreNodes.add_ignoring StoreNodes.enumVariants StoreNodes.set_enumVariants q x st
  | NAlias x => StoreNodes.add_ignoring StoreNodes.aliases StoreNodes.set_aliases q x st
  | NEmbed _ | NTypeRef _ | NParam _ | NReturn _ | NTypeParam _ => st
  end.

Definition emit_bucket_add (q : string) (n : emit.Node_) (st : estate) : estate :=
  match n with
  | emit.NPackage x => add_ignoring packages set_packages q x st
  | emit.NFile x => add_ignoring files set_files q x st
  | emit.NImport x => add_ignoring imports set_imports q x st
  | emit.NStruct x => add_ignoring structs set_structs q x st
  | emit.NInterface x => add_ignoring interfaces set_interfaces q x st
  | emit.NMethod x => add_ignoring methods set_methods q x st
  | emit.NField x => add_ignoring fields set_fields q x st
  | emit.NFunction x => add_ignoring functions set_functions q x st
  | emit.NVariable x => add_ignoring variables set_variables q x st
  | emit.NConstant x => add_ignoring constants set_constants q x st
  | emit.NEnum x => add_ignoring enums set_enums q x st
  | emit.NEnumVariant x => add_ignoring enumVariants set_enumVariants q x st
  | emit.NAlias x => add_ignoring aliases set_aliases q x st
  | _ => st
  end.

Definition node_index_add (ix : index_name) (key : string) (n : Node) (v : NodeView) : NodeView :=
  match ix with
  | ByPackageIndex => StoreNodes.set_byPackage v (Index_Add (StoreNodes.byPackage v) key n)
  | ByDirectiveIndex => StoreNodes.set_byDirective v (Index_Add (StoreNodes.byDirective v) key n)
  | ByMetaKeyIndex => StoreNodes.set_byMetaKey v (Index_Add (StoreNodes.byMetaKey v) key n)
  end.
Definition emit_index_add (ix : index_name) (key : string) (n : emit.Node_) (v : EmitView) : EmitView :=
  match ix with
  | ByPackageIndex => set_byPackage v (Index_Add (byPackage v) key n)
  | ByDirectiveIndex => set_byDirective v (Index_Add (byDirective v) key n)
  | ByMetaKeyIndex => set_byMetaKey v (Index_Add (byMetaKey v) key n)
  end.

Definition direct_execute (d : direct_add) (s : Store) : Store :=
  match d with
  | NodeBucketAdd q n => MkStore (node_bucket_add q n (s_nodes s)) (s_emit s)
  | NodeIndexAdd ix k n =>
      MkStore (MkN (node_index_add ix k n (n_view (s_nodes s))) (n_metas (s_nodes s))) (s_emit s)
  | EmitBucketAdd q n => MkStore (s_nodes s) (emit_bucket_add q n (s_emit s))
  | EmitIndexAdd ix k n => MkStore (s_nodes s) (with_view (s_emit s) (emit_index_add ix k n (e_view (s_emit s))))
  | EmitTargetAdd t n =>
      MkStore (s_nodes s) (with_view (s_emit s) (set_byTarget (e_view (s_emit s)) (Index_Add (byTarget (e_view (s_emit s))) t n)))
  end.

Inductive store_command := OnNodes (c : node_command) | OnEmit (c : command) | Rewire | Direct (d : direct_add).

Definition store_execute (s : Store) (c : store_command) : Store :=
  match c with
  | OnNodes c => MkStore (node_execute c (s_nodes s)) (s_emit s)
  | OnEmit c => MkStore (s_nodes s) (execute c (s_emit s))
  | Rewire => RewireMethodOwners s
  | Direct d => direct_execute d s
  end.

(** The operations of the views themselves. *)
Definition gated (c : store_command) : Prop := match c with Direct _ => False | _ => True end.

(** ** Growth *)

Definition bucket_grows {T} (b b' : Bucket T) : Prop := items b `prefix_of` items b' ∧ byQName b ⊆ byQName b'.
Definition index_grows {K V} `{Countable K} (m m' : MultiIndex K V) : Prop :=
  order m `prefix_of` order m' ∧ ∀ k, Index_Get m k `prefix_of` Index_Get m' k.

#[export] Instance bucket_grows_refl {T} : Reflexive (@bucket_grows T).
Proof. by intros b. Qed.
#[export] Instance index_grows_refl {K V} `{Countable K} : Reflexive (@index_grows K V _ _).
Proof. by intros m. Qed.
#[export] Instance bucket_grows_trans {T} : Transitive (@bucket_grows T).
Proof. intros a b c [] []. split; by etrans. Qed.
#[export] Instance index_grows_trans {K V} `{Countable K} : Transitive (@index_grows K V _ _).
Proof. intros a b c [? H1] [? H2]. split; [by etrans|]. intros k. etrans; [apply H1|apply H2]. Qed.

Lemma index_add_grows {K V} `{Countable K} (m : MultiIndex K V) k v : index_grows m (Index_Add m k v).
Proof.
  unfold Index_Add. destruct (entries m !! k) as [cur|] eqn:E; split; cbn; try done; try by apply prefix_app_r.
  all: intros k'; unfold Index_Get; cbn; destruct (decide (k = k')) as [<-|Hn];
    [rewrite lookup_insert_eq, E|by rewrite lookup_insert_ne].
  - by apply prefix_app_r.
  - apply prefix_nil.
Qed.

Lemma bucket_add_grows {T} (b : Bucket T) q x :
  match Bucket_Add b q x with Ok b' => bucket_grows b b' | Err _ => True end.
Proof.
  unfold Bucket_Add. destruct (byQName b !! q) eqn:E; [done|]. split; cbn; [by apply prefix_app_r|by apply insert_subseteq].
Qed.

(** Everything a view recorded is still there, in its order. *)
Definition nodes_grow (st st' : nstate) : Prop :=
  let v := n_view st in let v' := n_view st' in
  bucket_grows (StoreNodes.packages v) (StoreNodes.packages v') ∧ bucket_grows (StoreNodes.files v) (StoreNodes.files v') ∧
  bucket_grows (StoreNodes.imports v) (StoreNodes.imports v') ∧ bucket_grows (StoreNodes.structs v) (StoreNodes.structs v') ∧
  bucket_grows (StoreNodes.interfaces v) (StoreNodes.interfaces v') ∧ bucket_grows (StoreNodes.methods v) (StoreNodes.methods v') ∧
  bucket_grows (StoreNodes.fields v) (StoreNodes.fields v') ∧ bucket_grows (StoreNodes.functions v) (StoreNodes.functions v') ∧
  bucket_grows (StoreNodes.variables v) (StoreNodes.variables v') ∧ bucket_grows (StoreNodes.constants v) (StoreNodes.constants v') ∧
  bucket_grows (StoreNodes.enums v) (StoreNodes.enums v') ∧ bucket_grows (StoreNodes.enumVariants v) (StoreNodes.enumVariants v') ∧
  bucket_grows (StoreNodes.aliases v) (StoreNodes.aliases v') ∧ index_grows (StoreNodes.byPackage v) (StoreNodes.byPackage v') ∧
  index_grows (StoreNodes.byDirective v) (StoreNodes.byDirective v') ∧ index_grows (StoreNodes.byMetaKey v) (StoreNodes.byMetaKey v').

Definition emit_grows (st st' : estate) : Prop :=
  let v := e_view st in let v' := e_view st' in
  bucket_grows (packages v) (packages v') ∧ bucket_grows (files v) (files v') ∧ bucket_grows (imports v) (imports v') ∧
  bucket_grows (structs v) (structs v') ∧ bucket_grows (interfaces v) (interfaces v') ∧ bucket_grows (methods v) (methods v') ∧
  bucket_grows (fields v) (fields v') ∧ bucket_grows (functions v) (functions v') ∧ bucket_grows (variables v) (variables v') ∧
  bucket_grows (constants v) (constants v') ∧ bucket_grows (enums v) (enums v') ∧ bucket_grows (enumVariants v) (enumVariants v') ∧
  bucket_grows (aliases v) (aliases v') ∧ index_grows (byPackage v) (byPackage v') ∧ index_grows (byDirective v) (byDirective v') ∧
  index_grows (byMetaKey v) (byMetaKey v') ∧ pendingOriginSlots v' = pendingOriginSlots v ∧ e_pkgs st' = e_pkgs st.

#[export] Instance nodes_grow_refl : Reflexive nodes_grow.
Proof. intros st. unfold nodes_grow. split_and!; reflexivity. Qed.
#[export] Instance emit_grows_refl : Reflexive emit_grows.
Proof. intros st. unfold emit_grows. split_and!; reflexivity. Qed.
#[export] Instance nodes_grow_trans : Transitive nodes_grow.
Proof. intros a b c H1 H2. unfold nodes_grow in *. destruct_and!. split_and!; by etrans. Qed.
#[export] Instance emit_grows_trans : Transitive emit_grows.
Proof. intros a b c H1 H2. unfold emit_grows in *. destruct_and!. split_and!; by etrans. Qed.

(** ** Steps of a frozen view *)

Lemma same_nodes_grow st st' :
  node_structure st' = node_structure st → index_grows (StoreNodes.byMetaKey (n_view st)) (StoreNodes.byMetaKey (n_view st')) →
  nodes_grow st st'.
Proof.
  unfold node_structure, nodes_grow. cbv zeta. intros E Hm.
  injection E as E1 E2 E3 E4 E5 E6 E7 E8 E9 E10 E11 E12 E13 E14 E15.
  rewrite E1, E2, E3, E4, E5, E6, E7, E8, E9, E10, E11, E12, E13, E14, E15. split_and!; reflexivity || done.
Qed.

Lemma same_emit_grows st st' :
  emit_structure st' = emit_structure st → index_grows (byMetaKey (e_view st)) (byMetaKey (e_view st')) → emit_grows st st'.
Proof.
  unfold emit_structure, emit_grows. cbv zeta. intros E Hm.
  injection E as E1 E2 E3 E4 E5 E6 E7 E8 E9 E10 E11 E12 E13 E14 E15 E16 E17.
  rewrite E1, E2, E3, E4, E5, E6, E7, E8, E9, E10, E11, E12, E13, E14, E15, E16, E17. split_and!; reflexivity || done.
Qed.

Lemma notify_structure v fired :
  StoreNodes.frozen (StoreNodes.notify v fired) = StoreNodes.frozen v ∧
  (∀ h, node_structure (MkN (StoreNodes.notify v fired) h) = node_structure (MkN v h)) ∧
  index_grows (StoreNodes.byMetaKey v) (StoreNodes.byMetaKey (StoreNodes.notify v fired)).
Proof.
  unfold StoreNodes.notify. revert v. induction fired as [|[o name] fired IH]; intros v; simpl; [done|].
  destruct (IH (match StoreNodes.registered v !! o with
    | Some n => StoreNodes.set_byMetaKey v (Index_Add (StoreNodes.byMetaKey v) name n)
    | None => v end)) as (-> & E & G). split_and!; [by case_match|intros h; rewrite E; by case_match|].
  etrans; [|exact G]. case_match; [apply index_add_grows|done].
Qed.

Lemma emit_notify_structure v fired :
  frozen (notify v fired) = frozen v ∧ byTarget (notify v fired) = byTarget v ∧
  (∀ st, emit_structure (with_view st (notify v fired)) = emit_structure (with_view st v)) ∧
  index_grows (byMetaKey v) (byMetaKey (notify v fired)).
Proof.
  unfold notify. revert v. induction fired as [|[o name] fired IH]; intros v; simpl; [done|].
  destruct (IH (match registered v !! o with
    | Some n => set_byMetaKey v (Index_Add (byMetaKey v) name n)
    | None => v end)) as (-> & -> & E & G). split_and!; [by case_match|by case_match|intros h; rewrite E; by case_match|].
  etrans; [|exact G]. case_match; [apply index_add_grows|done].
Qed.

Lemma frozen_node_step c st :
  StoreNodes.frozen (n_view st) = true →
  StoreNodes.frozen (n_view (node_execute c st)) = true ∧
  node_structure (node_execute c st) = node_structure st ∧
  index_grows (StoreNodes.byMetaKey (n_view st)) (StoreNodes.byMetaKey (n_view (node_execute c st))).
Proof.
  intros Hf. destruct c as [[p|]| |d|fired h|]; simpl; try done.
  - by rewrite Hf.
  - unfold StoreNodes.ByMetaKey. by case_match.
  - destruct (notify_structure (n_view st) fired) as (-> & E & G). split_and!; [done|by rewrite E|done].
Qed.

Lemma frozen_emit_step c st :
  frozen (e_view st) = true →
  frozen (e_view (execute c st)) = true ∧ emit_structure (execute c st) = emit_structure st ∧
  index_grows (byMetaKey (e_view st)) (byMetaKey (e_view (execute c st))) ∧
  (c ≠ CRebuild → byTarget (e_view (execute c st)) = byTarget (e_view st)).
Proof.
  intros Hf. destruct c as [[p|]|fresh t|o s i p|ts| | |d| |fired h]; simpl; try done.
  - by rewrite Hf.
  - unfold FileFor. destruct (ByQName _ _); [done|]. by rewrite Hf.
  - unfold AppendOriginSlot. repeat case_match; simplify_eq; done.
  - unfold ByMetaKey. by case_match.
  - destruct (emit_notify_structure (e_view st) fired) as (-> & -> & E & G). split_and!; [done|apply E|done|done].
Qed.

Lemma node_bucket_add_grows q n st :
  StoreNodes.frozen (n_view (node_bucket_add q n st)) = StoreNodes.frozen (n_view st) ∧ nodes_grow st (node_bucket_add q n st).
Proof.
  destruct n; simpl; try done; unfold StoreNodes.add_ignoring, StoreNodes.add_to;
    match goal with |- context [Bucket_Add ?b ?k ?x] => pose proof (bucket_add_grows b k x); destruct (Bucket_Add b k x) end;
    (split; [done|]); try done; unfold nodes_grow; cbn; split_and!; reflexivity || done.
Qed.

Lemma emit_bucket_add_grows q n st :
  frozen (e_view (emit_bucket_add q n st)) = frozen (e_view st) ∧ emit_grows st (emit_bucket_add q n st).
Proof.
  destruct n; simpl; try done; unfold add_ignoring, add_to;
    match goal with |- context [Bucket_Add ?b ?k ?x] => pose proof (bucket_add_grows b k x); destruct (Bucket_Add b k x) end;
    (split; [done|]); try done; unfold emit_grows; cbn; split_and!; reflexivity || done.
Qed.

(** One command on a store: what it leaves of a frozen view. *)
Lemma nodes_step s c :
  StoreNodes.frozen (n_view (s_nodes s)) = true →
  StoreNodes.frozen (n_view (s_nodes (store_execute s c))) = true ∧ nodes_grow (s_nodes s) (s_nodes (store_execute s c)) ∧
  (gated c → node_structure (s_nodes (store_execute s c)) = node_structure (s_nodes s)).
Proof.
  intros Hf. destruct c as [c|c| |d]; [|by split_and!..|].
  - destruct (frozen_node_step c _ Hf) as (F & E & G). cbn. split_and!; [done| |done]. by apply same_nodes_grow.
  - destruct d as [q n|ix k n|q n|ix k n|t n]; cbn.
    + destruct (node_bucket_add_grows q n (s_nodes s)) as [-> G]. by split_and!.
    + split_and!; [by destruct ix| |done]. destruct ix; unfold nodes_grow; cbn; split_and!; reflexivity || apply index_add_grows.
    + by split_and!.
    + by split_and!.
    + by split_and!.
Qed.

Lemma emit_view_step s c :
  frozen (e_view (s_emit s)) = true →
  frozen (e_view (s_emit (store_execute s c))) = true ∧ emit_grows (s_emit s) (s_emit (store_execute s c)) ∧
  (gated c → emit_structure (s_emit (store_execute s c)) = emit_structure (s_emit s)) ∧
  (gated c → c ≠ OnEmit CRebuild → byTarget (e_view (s_emit (store_execute s c))) = byTarget (e_view (s_emit s))).
Proof.
  intros Hf. destruct c as [c|c| |d].
  - by split_and!.
  - destruct (frozen_emit_step c _ Hf) as (F & E & G & T). cbn. split_and!; [done| |done|].
    + by apply same_emit_grows.
    + intros _ Hc. apply T. by intros ->.
  - by split_and!.
  - destruct d as [q n|ix k n|q n|ix k n|t n]; cbn; (split_and!; [|  |done|done]); try done.
    + by destruct (emit_bucket_add_grows q n (s_emit s)) as [-> _].
    + by destruct (emit_bucket_add_grows q n (s_emit s)) as [_ ?].
    + by destruct ix.
    + destruct ix; unfold emit_grows; cbn; split_and!; reflexivity || apply index_add_grows.
Qed.

(** C11: a frozen view is immutable to the operations of the views: whatever
    interleaving of them follows, reads, registrations, metadata writes, routing
    and owner rewiring included, a view that was frozen before it stays frozen,
    [AddPackage] on it fails with the frozen error, and it keeps every bucket,
    its package and directive index, its queue and the contents of its packages;
    the target index changes only by [RebuildByTarget], and the metadata index
    only grows.  The buckets and indexes the accessors hand out have an [Add] of
    their own, which does not look at the flag; with such calls among the
    operations a frozen view still loses nothing: every bucket and every index
    but the one by target grows at its end, and what a name finds stays. *)
Theorem frozen_views_are_immutable cs s :
  let s' := fold_left store_execute cs s in
  (StoreNodes.IsFrozen (Nodes s) = true →
     StoreNodes.IsFrozen (Nodes s') = true ∧ nodes_grow (s_nodes s) (s_nodes s') ∧
     (Forall gated cs → node_structure (s_nodes s') = node_structure (s_nodes s)) ∧
     ∀ p, ∃ e, (StoreNodes.AddPackage (Some p) (s_nodes s')).2 = Some e ∧ is_frozen_error e = true) ∧
  (IsFrozen (Emit s) = true →
     IsFrozen (Emit s') = true ∧ emit_grows (s_emit s) (s_emit s') ∧
     (Forall gated cs → emit_structure (s_emit s') = emit_structure (s_emit s)) ∧
     (Forall gated cs → OnEmit CRebuild ∉ cs → ByTarget (Emit s') = ByTarget (Emit s)) ∧
     ∀ p, ∃ e, (AddPackage (Some p) (s_emit s')).2 = Some e ∧ is_frozen_error e = true).
Proof.
  cbv zeta. unfold Nodes, Emit, StoreNodes.IsFrozen, IsFrozen, ByTarget. split; intros Hf.
  - assert (StoreNodes.frozen (n_view (s_nodes (fold_left store_execute cs s))) = true ∧
      nodes_grow (s_nodes s) (s_nodes (fold_left store_execute cs s)) ∧
      (Forall gated cs → node_structure (s_nodes (fold_left store_execute cs s)) = node_structure (s_nodes s))) as (H1 & H2 & H3).
    { revert s Hf. induction cs as [|c cs IH]; intros s Hf; simpl; [done|].
      destruct (nodes_step s c Hf) as (F & G & E). destruct (IH _ F) as (F' & G' & E'). split_and!; [done|by etrans|].
      intros [Hc Hcs]%Forall_cons. by rewrite E', E. }
    split_and!; [done..|]. intros p. simpl. rewrite H1. eauto.
  - assert (frozen (e_view (s_emit (fold_left store_execute cs s))) = true ∧
      emit_grows (s_emit s) (s_emit (fold_left store_execute cs s)) ∧
      (Forall gated cs → emit_structure (s_emit (fold_left store_execute cs s)) = emit_structure (s_emit s)) ∧
      (Forall gated cs → OnEmit CRebuild ∉ cs →
         byTarget (e_view (s_emit (fold_left store_execute cs s))) = byTarget (e_view (s_emit s)))) as (H1 & H2 & H3 & H4).
    { revert s Hf. induction cs as [|c cs IH]; intros s Hf; simpl; [done|].
      destruct (emit_view_step s c Hf) as (F & G & E & T). destruct (IH _ F) as (F' & G' & E' & T'). split_and!; [done|by etrans| |].
      - intros [Hc Hcs]%Forall_cons. by rewrite E', E.
      - intros [Hc Hcs]%Forall_cons [Hn Hns]%not_elem_of_cons. rewrite T', T; done. }
    split_and!; [done..|]. intros p. simpl. rewrite H1. eauto.
Qed.

(** The [Add] of a bucket goes past the freeze: a struct registered on the
    frozen node view is found there, and no index knows it. *)
Theorem bucket_add_passes_the_freeze s x :
  StoreNodes.IsFrozen (Nodes s) = true → ByQName (StoreNodes.Structs (Nodes s)) "p.X" = None →
  let s' := store_execute s (Direct (NodeBucketAdd "p.X" (NStruct x))) in
  ByQName (StoreNodes.Structs (Nodes s')) "p.X" = Some x ∧ StoreNodes.ByPackage (Nodes s') = StoreNodes.ByPackage (Nodes s).
Proof.
  intros _ Hn. unfold StoreNodes.Structs, ByQName, Nodes in *. cbn. unfold StoreNodes.add_ignoring, StoreNodes.add_to, Bucket_Add.
  rewrite Hn. cbn. split; [apply lookup_insert_eq|done].
Qed.

(** ** Owner references *)

(** The store finds an owner under its own reference. *)
Definition findable (s : Store) (o : emit.Owner) : Prop :=
  match o with
  | emit.OwnNode (NStruct x) => ByQName (StoreNodes.Structs (Nodes s)) (Struct_QName x) = Some x
  | emit.OwnNode (NInterface x) => ByQName (StoreNodes.Interfaces (Nodes s)) (Interface_QName x) = Some x
  | emit.OwnNode (NEnum x) => ByQName (StoreNodes.Enums (Nodes s)) (Enum_QName x) = Some x
  | emit.OwnNode (NAlias x) => ByQName (StoreNodes.Aliases (Nodes s)) (Alias_QName x) = Some x
  | emit.OwnStruct x => ByQName (Structs (Emit s)) (emit.Struct_QName x) = Some x
  | emit.OwnInterface x => ByQName (Interfaces (Emit s)) (emit.Interface_QName x) = Some x
  | emit.OwnAlias x => ByQName (Aliases (Emit s)) (emit.Alias_QName x) = Some x
  | _ => False
  end.

Lemma resolve_own_reference s o : findable s o → resolveOwner s (emit.RefOf (Some o)) = Some o.
Proof.
  destruct o as [[]| | |]; simpl; try done; intros E; unfold resolveOwner; simpl;
    unfold resolveNodeOwner, resolveEmitOwner; simpl; by rewrite E.
Qed.

(** The loop over one list of methods. *)
Lemma rewire_methods_lookup s ms h r :
  fold_left (rewire_method s) ms h !! r =
  match h !! r with
  | Some o => Some o
  | None => head (omap (λ m, if bool_decide (ref (emit.m_base m) = r) && negb (OwnerRef_IsZero (emit.m_OwnerRef m))
                             then resolveOwner s (emit.m_OwnerRef m) else None) ms)
  end.
Proof.
  revert h. induction ms as [|m ms IH]; intros h; simpl; [by destruct (h !! r)|].
  rewrite IH. unfold rewire_method. destruct (h !! ref (emit.m_base m)) as [o|] eqn:Eo.
  - destruct (h !! r) eqn:Er; [done|]. rewrite bool_decide_eq_false_2 by congruence. done.
  - destruct (OwnerRef_IsZero (emit.m_OwnerRef m)); simpl.
    { rewrite andb_false_r. by destruct (h !! r). }
    rewrite andb_true_r. destruct (resolveOwner s (emit.m_OwnerRef m)) as [o|].
    + destruct (bool_decide_reflect (ref (emit.m_base m) = r)) as [<-|Hn]; simpl.
      * by rewrite lookup_insert_eq, Eo.
      * by rewrite lookup_insert_ne.
    + by case_bool_decide; destruct (h !! r).
Qed.

(** The methods the pass visits, in order. *)
Definition top_methods (st : estate) : list emit.Method :=
  items (packages (e_view st)) ≫= λ p, emit.p_Methods (contents st p).

Lemma rewire_owners_fold s :
  e_owners (s_emit (RewireMethodOwners s)) =
  fold_left (rewire_method s) (top_methods (s_emit s)) (e_owners (s_emit s)).
Proof.
  unfold RewireMethodOwners, top_methods, Bucket_Range. simpl.
  generalize (e_owners (s_emit s)). induction (items _) as [|p ps IH]; intros h; simpl; [done|].
  by rewrite IH, fold_left_app.
Qed.

(** A pass over methods that all have owners changes nothing. *)
Lemma rewire_noop s :
  (∀ m, m ∈ top_methods (s_emit s) → is_Some (e_owners (s_emit s) !! ref (emit.m_base m))) →
  RewireMethodOwners s = s.
Proof.
  intros Hs. assert (e_owners (s_emit (RewireMethodOwners s)) = e_owners (s_emit s)) as E.
  { rewrite rewire_owners_fold. revert Hs. generalize (top_methods (s_emit s)) (e_owners (s_emit s)).
    induction l as [|m l IH]; intros h Hh; simpl; [done|]. unfold rewire_method at 2.
    destruct (Hh m ltac:(left)) as [o ->]. apply IH. intros k Hk. apply Hh. by right. }
  unfold RewireMethodOwners in *. simpl in *. rewrite E. by destruct s as [? []].
Qed.

(** The method with its own pointer decides what the pass finds. *)
Lemma first_reference d m o l :
  m ∈ l → (∀ k, k ∈ l → ref (emit.m_base k) = ref (emit.m_base m) → k = m) →
  emit.m_OwnerRef m = emit.RefOf (Some o) → findable d o →
  head (omap (λ k, if bool_decide (ref (emit.m_base k) = ref (emit.m_base m)) &&
    negb (OwnerRef_IsZero (emit.m_OwnerRef k)) then resolveOwner d (emit.m_OwnerRef k) else None) l) = Some o.
Proof.
  intros Hin Hl Hr Ho. induction l as [|k l IH]; [by apply not_elem_of_nil in Hin|]. simpl.
  destruct (bool_decide_reflect (ref (emit.m_base k) = ref (emit.m_base m))) as [E|E]; simpl.
  - assert (k = m) as -> by (apply Hl; [left|done]). rewrite Hr.
    replace (OwnerRef_IsZero (emit.RefOf (Some o))) with false by (by destruct o as [[]| | |]; simpl in Ho).
    cbn [negb]. by rewrite (resolve_own_reference d o Ho).
  - apply IH; [|intros; apply Hl; [by right|done]]. apply elem_of_cons in Hin as [->|?]; done.
Qed.

(** owner references survive serialisation: take a store whose top-level
    methods carry the reference of their owner and whose owners are
    registered; drop all owner pointers, as decoding does, and rewire: every
    top-level method has its owner again, and a second pass changes nothing.
    On any store the pass never replaces a live pointer. *)
Theorem owner_references_roundtrip s :
  (∀ m k, m ∈ top_methods (s_emit s) → k ∈ top_methods (s_emit s) →
     ref (emit.m_base m) = ref (emit.m_base k) → m = k) →
  (∀ m, m ∈ top_methods (s_emit s) → ∃ o, e_owners (s_emit s) !! ref (emit.m_base m) = Some o ∧
     emit.m_OwnerRef m = emit.RefOf (Some o) ∧ findable s o) →
  let decoded := MkStore (s_nodes s) (with_owners (s_emit s) ∅) in
  let s' := RewireMethodOwners decoded in
  (∀ m, m ∈ top_methods (s_emit s) →
     e_owners (s_emit s') !! ref (emit.m_base m) = e_owners (s_emit s) !! ref (emit.m_base m)) ∧
  RewireMethodOwners s' = s' ∧
  (∀ t r o, e_owners (s_emit t) !! r = Some o → e_owners (s_emit (RewireMethodOwners t)) !! r = Some o).
Proof.
  intros Hu Ho. cbv zeta. set (d := MkStore (s_nodes s) (with_owners (s_emit s) ∅)).
  assert (∀ m, m ∈ top_methods (s_emit s) →
     e_owners (s_emit (RewireMethodOwners d)) !! ref (emit.m_base m) =
     e_owners (s_emit s) !! ref (emit.m_base m)) as Hback.
  { intros m Hm. destruct (Ho m Hm) as (o & Ho1 & Ho2 & Ho3). rewrite rewire_owners_fold, rewire_methods_lookup.
    simpl. rewrite lookup_empty, Ho1.
    change (top_methods (with_owners (s_emit s) ∅)) with (top_methods (s_emit s)).
    apply first_reference; [done| |done|done]. intros k Hk E. by apply Hu. }
  split_and!; [done| |].
  - apply rewire_noop. intros m Hm. change (m ∈ top_methods (s_emit s)) in Hm. rewrite Hback by done.
    destruct (Ho m Hm) as (o & -> & _). by eexists.
  - intros t r o E. by rewrite rewire_owners_fold, rewire_methods_lookup, E.
Qed.

(** ** The queue of contributions *)

Lemma append_origin_loop setBy slot pid o values st :
  slot ≠ "" → frozen (e_view st) = false →
  appendOrigin setBy slot pid (Some o) values st =
    (with_view st (set_pendingOriginSlots (e_view st) (pendingOriginSlots (e_view st) ++
       ((λ x, MkPending o slot x (slots.MkProvenance setBy zero_pos (emit.node_Kind x +:+ "." +:+ pid)))
          <$> omap id values))), None).
Proof.
  intros Hs. revert st. unfold appendOrigin. induction values as [|[x|] values IH]; intros st Hf.
  - simpl. rewrite app_nil_r. by destruct st as [[] ? ? ? ?].
  - cbn [for_op]. unfold and_then at 1. unfold AppendOriginSlot at 1.
    rewrite (proj2 (String.eqb_neq slot "") Hs), Hf. rewrite IH by done. simpl. by rewrite <- (assoc_L app).
  - cbn [for_op]. unfold and_then at 1. unfold done_op at 1. by apply IH.
Qed.

Lemma pending_loop {T S} (as_type : emit.Node_ → option T) v (f : Node → T → S → S) s :
  PendingOfType as_type (Some v) (λ o x s, (f o x s, true)) s =
  fold_left (λ s e, f e.1 e.2 s)
    (omap (λ p, pair (po_Origin p) <$> as_type (po_Item p)) (pendingOriginSlots v)) s.
Proof.
  unfold PendingOfType. revert s. induction (pendingOriginSlots v) as [|p l IH]; intros s; simpl; [done|].
  destruct (as_type (po_Item p)); simpl; apply IH.
Qed.

(** The queued contributions of one type, with their origins. *)
Definition queued {T} (as_type : emit.Node_ → option T) (v : EmitView) : list (Node * T) :=
  omap (λ p, pair (po_Origin p) <$> as_type (po_Item p)) (pendingOriginSlots v).

Lemma pending_walk {T} (as_type : emit.Node_ → option T) v :
  PendingOfType as_type (Some v) (λ o x l, (l ++ [(o, x)], true)) [] = queued as_type v.
Proof.
  rewrite (pending_loop as_type _ (λ o x l, l ++ [(o, x)])). fold (queued as_type v).
  assert (∀ l acc : list (Node * T), fold_left (λ s e, s ++ [(e.1, e.2)]) l acc = acc ++ l) as E; [|apply E].
  induction l as [|[a b] l IH]; intros acc; simpl; [by rewrite app_nil_r|]. rewrite IH. by rewrite <- (assoc_L app).
Qed.

Lemma pending_index {T} (as_type : emit.Node_ → option T) v p :
  PendingByOrigin as_type (Some v) !! p = snd <$> last (filter (λ e, node_ref e.1 = p) (queued as_type v)).
Proof.
  unfold PendingByOrigin. rewrite (pending_loop as_type _ (λ o x m, <[node_ref o := x]> m)).
  fold (queued as_type v). induction (queued as_type v) as [|[a b] l IH] using rev_ind; simpl; [apply lookup_empty|].
  rewrite fold_left_app, filter_app, filter_cons, filter_nil. simpl.
  destruct (decide (node_ref a = p)) as [<-|Hn]; simpl.
  - by rewrite lookup_insert_eq, last_snoc.
  - by rewrite lookup_insert_ne, app_nil_r.
Qed.

(** queued contributions reach later plugins in registration order: on an
    open view, [AppendOrigin] for a node and a non-empty slot name queues its
    non-nil values behind what was queued before, each with the provenance id
    of its kind and the name of the origin; walking the queue for a type
    visits exactly the contributions of that type, in that order, and the
    index by origin holds the last one of each origin. *)
Theorem origin_queue_in_order {T} (as_type : emit.Node_ → option T) setBy slot o values st p :
  slot ≠ "" → frozen (e_view st) = false →
  let '(st', err) := AppendOrigin setBy slot (Some o) values st in
  err = None ∧
  PendingOriginSlots (e_view st') = PendingOriginSlots (e_view st) ++
    ((λ x, MkPending o slot x
        (slots.MkProvenance setBy zero_pos (emit.node_Kind x +:+ "." +:+ originName (Some o)))) <$> omap id values) ∧
  (let typed := queued as_type (e_view st') in
   PendingOfType as_type (Some (e_view st')) (λ o x l, (l ++ [(o, x)], true)) [] = typed ∧
   PendingByOrigin as_type (Some (e_view st')) !! p = snd <$> last (filter (λ e, node_ref e.1 = p) typed)).
Proof.
  intros Hs Hf. unfold AppendOrigin. rewrite append_origin_loop by done.
  split_and!; [done..|apply pending_walk|apply pending_index].
Qed.

(** ** Examples *)

Definition demo_base (r : pointer) : emit.BaseEmit := emit.MkBase r zero_pos [] [] None "" "".
Definition demo_empty : estate := MkE newEmitView ∅ ∅ ∅ ∅.
Definition demo_target : Target := MkTarget "internal/repo" "user_gen.go" "repo" "m/internal/repo".
Definition demo_package (r : pointer) (ms : list emit.Method) (ss : list emit.Struct) : emit.Package :=
  emit.MkPackage (demo_base r) "repo" "m/repo" "" [] [] ss [] [] ms [] [] [] [].
Definition demo_struct (r : pointer) (name : string) : emit.Struct :=
  emit.MkStruct (demo_base r) name "m/repo" [] [] [] [].
Definition demo_method (r : pointer) : emit.Method :=
  emit.MkMethod (demo_base r) "Get" "m/repo" None "" [] [] [] [] (MkOwnerRef emit.KindStruct "m/repo.UserRepo").

Lemma file_for_is_stable_witness :
  ∃ st f, FileFor 7 demo_target demo_empty = (st, Ok f) ∧
    FileFor 8 demo_target (run [CFileFor 9 (MkTarget "x" "y.go" "x" ""); CFreeze; CRebuild] st) =
      (run [CFileFor 9 (MkTarget "x" "y.go" "x" ""); CFreeze; CRebuild] st, Ok f).
Proof.
  destruct (FileFor 7 demo_target demo_empty) as [st r] eqn:E.
  destruct r as [f|e]; [|vm_compute in E; discriminate].
  exists st, f. split; [reflexivity|].
  exact (file_for_is_stable 7 demo_target demo_empty st f _ 8 demo_target E eq_refl eq_refl).
Defined.

Lemma packages_merge_in_order_witness :
  ∃ st, for_op (λ p, AddPackage (Some p))
      [demo_package 1 [] [demo_struct 2 "A"]; demo_package 3 [] [demo_struct 4 "B"]] demo_empty = (st, None) ∧
    emit.p_Structs (contents st (demo_package 1 [] [demo_struct 2 "A"])) = [demo_struct 2 "A"; demo_struct 4 "B"].
Proof.
  destruct (for_op (λ p, AddPackage (Some p))
    [demo_package 1 [] [demo_struct 2 "A"]; demo_package 3 [] [demo_struct 4 "B"]] demo_empty) as [st err] eqn:E.
  assert (err = None) as -> by (vm_compute in E; by injection E).
  exists st. split; [reflexivity|].
  assert (NoDup ((λ p, pref p) <$> [demo_package 1 [] [demo_struct 2 "A"]; demo_package 3 [] [demo_struct 4 "B"]])) as Hd
    by (apply (bool_decide_unpack _); vm_compute; exact I).
  pose proof (packages_merge_in_order ∅ ∅ ∅ _ st "m/repo" Hd E) as H.
  simpl in H. destruct H as [_ H]. rewrite H. reflexivity.
Defined.

(** A store with a struct of the emit side that owns a top-level method. *)
Definition demo_store : Store :=
  let st := (AddPackage (Some (demo_package 1 [demo_method 3] [demo_struct 2 "UserRepo"])) demo_empty).1 in
  MkStore (MkN newNodeView ∅) (with_owners st {[3%positive := emit.OwnStruct (demo_struct 2 "UserRepo")]}).

Lemma owner_references_roundtrip_witness :
  e_owners (s_emit (RewireMethodOwners (MkStore (s_nodes demo_store) (with_owners (s_emit demo_store) ∅)))) !! 3%positive =
  Some (emit.OwnStruct (demo_struct 2 "UserRepo")).
Proof.
  assert (top_methods (s_emit demo_store) = [demo_method 3]) as E by (vm_compute; reflexivity).
  destruct (owner_references_roundtrip demo_store) as (H & _ & _).
  - rewrite E. by intros m k ->%list_elem_of_singleton ->%list_elem_of_singleton _.
  - rewrite E. intros m ->%list_elem_of_singleton.
    exists (emit.OwnStruct (demo_struct 2 "UserRepo")). split_and!; vm_compute; reflexivity.
  - specialize (H (demo_method 3)). rewrite E in H.
    change 3%positive with (ref (emit.m_base (demo_method 3))). rewrite H by left. vm_compute. reflexivity.
Defined.

Lemma origin_queue_in_order_witness :
  let '(st, err) := AppendOrigin "repo" "top" (Some (NStruct (Fixture.struct 5 "m/p" "User" [] [])))
      [None; Some (emit.NStruct (demo_struct 6 "UserRepo"))] demo_empty in
  err = None ∧ length (PendingOriginSlots (e_view st)) = 1.
Proof.
  pose proof (origin_queue_in_order Some "repo" "top" (NStruct (Fixture.struct 5 "m/p" "User" [] []))
    [None; Some (emit.NStruct (demo_struct 6 "UserRepo"))] demo_empty 5%positive ltac:(discriminate) eq_refl) as H.
  destruct (AppendOrigin _ _ _ _ _) as [st err]. destruct H as (E & H & _). split; [exact E|].
  rewrite H. vm_compute. reflexivity.
Defined.

(** A file of the module root is keyed by the empty path when a package brings
    it and by its name when [FileFor] looks it up: the second call creates
    another file for the target of the first. *)
Theorem root_file_is_duplicated :
  let f := emit.MkFile (demo_base 2) "main_gen.go" "main" "" "m" [] in
  let st := (AddPackage (Some (emit.MkPackage (demo_base 1) "main" "m" "" [f] [] [] [] [] [] [] [] [] [])) demo_empty).1 in
  ∃ st' g, FileFor 9 (emit.File_Target f) st = (st', Ok g) ∧ g ≠ f ∧ emit.File_Target g = emit.File_Target f ∧
           Items (Files (e_view st')) = [f; g].
Proof. eexists _, _. split; [vm_compute; reflexivity|]. split_and!; [discriminate|reflexivity..]. Qed.

(** Two files of the module root cannot be brought by packages at all. *)
Theorem root_files_collide :
  let f name r := emit.MkFile (demo_base r) name "main" "" "m" [] in
  (AddPackage (Some (emit.MkPackage (demo_base 1) "main" "m" "" [f "a.go" 2%positive; f "b.go" 3%positive]
     [] [] [] [] [] [] [] [] [])) demo_empty).2 = Some (ErrDuplicateQName "").
Proof. vm_compute. reflexivity. Qed.

(** The methods of an emitted alias are not indexed. *)
Theorem alias_methods_not_indexed :
  let a := emit.MkAlias (demo_base 2) "ID" "m" None false [] [demo_method 3] in
  let st := (AddPackage (Some (emit.MkPackage (demo_base 1) "main" "m" "" [] [] [] [] [] [] [] [] [] [a])) demo_empty).1 in
  Items (Aliases (e_view st)) = [a] ∧ Items (Methods (e_view st)) = [].
Proof. vm_compute. done. Qed.
