(* ===== verification/Cache.v ===== *)
(** * The build cache ([cache])

    Key composition ([key.go]), the interface every cache satisfies
    ([cache.go]) as a class, and its two implementations, the disk
    ([disk.go]) and the one that stores nothing ([none.go]).  SHA-256 is the
    argument [sha]: bytes to lower-case hexadecimal digest.  The file system
    and its refusals are those of [FilePath]. *)

From S2P Require Import Prelude GoStrings FilePath.

Local Open Scope string_scope.
Local Open Scope nat_scope.
Local Open Scope list_scope.

(** ** [key.go] *)

(** The non-empty parts, joined. *)
Fixpoint drop_empty (parts nonEmpty : list string) : list string :=
  match parts with
  | [] => nonEmpty
  | p :: parts => drop_empty parts (if String.eqb p "" then nonEmpty else nonEmpty ++ [p])
  end.

Definition joinNonEmpty (parts : list string) : string := str_join ":" (drop_empty parts []).

Definition NewKey (parts : list string) : string :=
  if bool_decide ("" ∈ parts) then joinNonEmpty parts else str_join ":" parts.

Definition HashBytes (sha : string → string) (b : string) : string := sha b.

Definition HashStrings (sha : string → string) (its : list string) : string :=
  HashBytes sha (str_join (String "000" "") (sort_strings its)).

(** ** [cache.go], [errors.go] *)

Inductive CacheError := ErrInvalidKey | ErrMedium (f : WriteFault).

(** What the pipeline asks of a cache: [C] is its state, an implementation
    of the interface carries its configuration. *)
Class Cache (C : Type) := {
  cache_Get : C → string → option string;
  cache_Put : refusals → C → string → string → C * option CacheError;
}.

(** ** [none.go] *)

#[global] Instance None_cache : Cache unit := {
  cache_Get _ _ := None;
  cache_Put _ c _ _ := (c, None);
}.

(** ** [disk.go] *)

Record Disk := MkDisk { d_root : string; d_sha : string → string; d_fs : files }.

Definition NewDisk (sha : string → string) (fs : files) (root : string) : Disk := MkDisk root sha fs.
Definition Root (d : Disk) : string := d_root d.

Definition keyPath (d : Disk) (key : string) : string :=
  let h := HashBytes (d_sha d) key in Join [d_root d; str_take 2 h; h].

Definition Disk_Get (d : Disk) (key : string) : option string :=
  if String.eqb key "" then None else read_file (d_fs d) (keyPath d key).

Definition Disk_Put (w : refusals) (d : Disk) (key value : string) : Disk * option CacheError :=
  if String.eqb key "" then (d, Some ErrInvalidKey)
  else
    let full := keyPath d key in
    match atomic_write w (d_fs d) (path_dir full) full value with
    | (Ok _, fs) => (MkDisk (d_root d) (d_sha d) fs, None)
    | (Err e, fs) => (MkDisk (d_root d) (d_sha d) fs, Some (ErrMedium e))
    end.

Definition Disk_Has (d : Disk) (key : string) : bool :=
  if String.eqb key "" then false else negb (not_exist (d_fs d) (keyPath d key)).

#[global] Instance Disk_cache : Cache Disk := { cache_Get := Disk_Get; cache_Put := Disk_Put }.

(** ** Key composition *)

Lemma drop_empty_filter parts acc : drop_empty parts acc = acc ++ filter (λ p, p ≠ "") parts.
Proof.
  revert acc. induction parts as [|p parts IH]; intros acc; simpl; [by rewrite app_nil_r|].
  rewrite IH, filter_cons. destruct (String.eqb_spec p ""), (decide (p ≠ "")); try done. by rewrite <- app_assoc.
Qed.

Lemma new_key_filter parts : NewKey parts = str_join ":" (filter (λ p, p ≠ "") parts).
Proof.
  unfold NewKey, joinNonEmpty. case_bool_decide as Hin.
  - by rewrite drop_empty_filter.
  - rewrite filter_all; [done|]. intros p Hp ->. done.
Qed.

(** Two part lists without empty parts and colons have the same key only when
    they are equal. *)
Lemma new_key_injective ps qs :
  Forall (λ p, p ≠ "" ∧ no_byte ":" p) ps → Forall (λ p, p ≠ "" ∧ no_byte ":" p) qs →
  NewKey ps = NewKey qs → ps = qs.
Proof.
  intros Hp Hq. rewrite !new_key_filter.
  assert (∀ l, Forall (λ p, p ≠ "" ∧ no_byte ":" p) l → filter (λ p, p ≠ "") l = l) as Hall.
  { intros l Hl. apply filter_all. intros p Hin. rewrite Forall_forall in Hl. by apply Hl. }
  rewrite !Hall by done.
  assert (∀ l, Forall (λ p, p ≠ "" ∧ no_byte ":" p) l → l ≠ [] → split_byte (str_join ":" l) ":" = l) as Hs.
  { intros l Hl Hn. apply split_join; [done|]. eapply Forall_impl; [exact Hl|]. by intros ? []. }
  assert (∀ l, Forall (λ p, p ≠ "" ∧ no_byte ":" p) l → str_join ":" l = "" → l = []) as Hz.
  { intros l Hl E. destruct Hl as [|x l [Hx _] Hl]; [done|]. simpl in E. destruct x; [done|]. by destruct l. }
  intros E. destruct (decide (ps = [])) as [->|Hpn].
  { simpl in E. symmetry. by apply Hz. }
  destruct (decide (qs = [])) as [->|Hqn]; [by apply Hz|].
  rewrite <- (Hs ps), <- (Hs qs) by done. by rewrite E.
Qed.

(** Keys of different part lists may be equal: a colon inside a part or a
    dropped empty part. *)
Theorem new_key_is_ambiguous :
  NewKey ["plugin"; "a:version"; "b"] = NewKey ["plugin"; "a"; "version"; "b"] ∧
  NewKey ["version"; ""; "reads"; "r"] = NewKey ["version"; "reads"; "r"].
Proof. split; vm_compute; reflexivity. Qed.

(** [HashStrings] forgets which component a value came from. *)
Theorem hash_strings_is_symmetric sha a b c :
  HashStrings sha [a; b; c] = HashStrings sha [a; c; b] ∧ HashStrings sha [a; b] = HashStrings sha [b; a].
Proof.
  unfold HashStrings. split; do 2 f_equal; apply sort_strings_unique; [|apply Permutation_swap].
  by apply Permutation_skip, Permutation_swap.
Qed.

(** ** The disk cache is a map *)

(** Lower-case hexadecimal. *)
Definition is_hex (c : ascii) : bool := byte_in "0" "9" c || byte_in "a" "f" c.

Section DiskCache.
Context (sha : string → string).

(** What the documentation of SHA-256 and of the hexadecimal encoding says. *)
Context (sha_hex : ∀ k, String.length (sha k) = 64 ∧ str_all is_hex (sha k) = true).

Lemma hex_no_slash s : str_all is_hex s = true → no_byte "/" s.
Proof.
  unfold no_byte. induction s as [|c s IH]; simpl; [done|]. intros [Hc Hs]%andb_true_iff.
  destruct (Ascii.eqb_spec c "/") as [->|]; [done|]. by rewrite IH.
Qed.

Lemma hex_no_dot s : str_all is_hex s = true → s ≠ "." ∧ s ≠ "..".
Proof. intros H. split; intros ->; by vm_compute in H. Qed.

Lemma str_all_take f n s : str_all f s = true → str_all f (str_take n s) = true.
Proof.
  revert n. induction s as [|c s IH]; intros [|n]; simpl; try done.
  intros [Hc Hs]%andb_true_iff. rewrite Hc. simpl. auto.
Qed.

Lemma hash_names k : plain_name (sha k) ∧ plain_name (str_take 2 (sha k)).
Proof using sha_hex.
  destruct (sha_hex k) as [Hl Hh]. pose proof (str_all_take _ 2 _ Hh) as Ht.
  split; (split; [by apply hex_no_slash|split; [|by apply hex_no_dot]]).
  - intros E. by rewrite E in Hl.
  - intros E. apply (f_equal String.length) in E. rewrite str_take_length in E; simpl in *; lia.
Qed.

(** The path of a key: what precedes depends on the root and the bucket. *)
Lemma key_path_segments root fs k :
  let p := keyPath (MkDisk root sha fs) k in
  (∃ rest, clean_segments p = sha k :: str_take 2 (sha k) :: rest) ∧ ∃ y, p = y +:+ sha k.
Proof using sha_hex.
  destruct (hash_names k) as [H1 H2]. unfold keyPath, HashBytes. cbv zeta. cbn [d_sha d_root].
  set (h := sha k) in *. set (b := str_take 2 h) in *. clearbody b h. cbn [Join].
  assert (∀ q, (∃ rest, clean_segments q = h :: b :: rest) →
    ∃ y, Clean q = y +:+ h) as Hend.
  { intros q (rest & E). unfold Clean. rewrite E, reverse_cons, reverse_cons.
    rewrite str_join_snoc by (destruct (reverse rest); done).
    set (z := str_join "/" (reverse rest ++ [b])). destruct (IsAbs q).
    - exists ("/" +:+ z +:+ "/"). by rewrite <- !append_assoc.
    - replace (String.eqb (z +:+ String "/" h) "") with false; [|symmetry; apply String.eqb_neq; by destruct z].
      exists (z +:+ "/"). by rewrite <- append_assoc. }
  assert (∀ q, (∃ rest, clean_segments q = h :: b :: rest) →
    (∃ rest, clean_segments (Clean q) = h :: b :: rest) ∧ ∃ y, Clean q = y +:+ h) as Hq.
  { intros q Hs. rewrite clean_segments_Clean. auto. }
  destruct (String.eqb_spec root "") as [->|Hr].
  - destruct (String.eqb_spec b "") as [E|_]; [by destruct H2 as (_ & ? & _)|].
    apply (Hq (str_join "/" [b; h])). exists []. apply (clean_segments_join [b; h]).
    apply Forall_cons; split; [exact H2|]. apply Forall_cons; split; [exact H1|constructor].
  - apply (Hq (str_join "/" [root; b; h])). unfold clean_segments. simpl. rewrite IsAbs_app by done.
    change (String "/" (b +:+ "/" +:+ h)) with (String "/" (b +:+ String "/" h)).
    rewrite !split_byte_app, !foldl_app. destruct H1 as (N1 & ? & ? & ?), H2 as (N2 & ? & ? & ?).
    rewrite N1, N2. simpl. rewrite !clean_step_name by done. by eexists.
Qed.

Lemma key_path_inj root fs fs' k k' :
  (sha k = sha k' → k = k') →
  keyPath (MkDisk root sha fs) k = keyPath (MkDisk root sha fs') k' → k = k'.
Proof using sha_hex.
  intros Hi E. destruct (key_path_segments root fs k) as [[r1 E1] _], (key_path_segments root fs' k') as [[r2 E2] _].
  rewrite E in E1. rewrite E1 in E2. injection E2 as ? _. auto.
Qed.

(** No entry is a temporary file: hexadecimal digits do not end in [p]. *)
Lemma key_path_not_temp root fs fs' k k' :
  keyPath (MkDisk root sha fs) k ≠ keyPath (MkDisk root sha fs') k' +:+ tempSuffix.
Proof using sha_hex.
  destruct (key_path_segments root fs k) as [_ [y Ey]]. rewrite Ey. destruct (sha_hex k) as [Hl Hh].
  generalize (keyPath (MkDisk root sha fs') k'). intros z E.
  assert (∀ s, s ≠ "" → str_all is_hex s = true → ∃ t c, s = t +:+ String c "" ∧ is_hex c = true) as Hlast.
  { clear. induction s as [|c s IH]; [done|]. intros _ [Hc Hs]%andb_true_iff. destruct s as [|d s].
    - exists "", c. done.
    - destruct IH as (t & e & -> & He); [done..|]. by exists (String c t), e. }
  destruct (Hlast (sha k)) as (t & c & Et & Hc); [by intros E0; rewrite E0 in Hl|done|].
  rewrite Et, append_assoc in E.
  change tempSuffix with (".eidos.tm" +:+ String "p" "") in E. rewrite append_assoc in E.
  assert (∀ a b (c d : ascii), a +:+ String c "" = b +:+ String d "" → c = d) as Hsnoc.
  { clear. induction a as [|x a IH]; intros [|w b] c d; simpl; intros [=]; try done; simplify_eq.
    - by destruct b.
    - by destruct a.
    - eauto. }
  apply Hsnoc in E. subst c. by vm_compute in Hc.
Qed.

(** A sequence of writes, each under its own refusals. *)
Definition puts (d : Disk) (ops : list (refusals * string * string)) : Disk :=
  fold_left (λ d op, (cache_Put op.1.1 d op.1.2 op.2).1) ops d.

(** The abstract cache: a map that a successful write updates. *)
Fixpoint stored (d : Disk) (ops : list (refusals * string * string)) (m : gmap string string) : gmap string string :=
  match ops with
  | [] => m
  | (w, k, v) :: ops =>
      let '(d', err) := cache_Put w d k v in
      stored d' ops (match err with None => <[k := v]> m | Some _ => m end)
  end.

(** One write seen from one key. *)
Lemma put_get w root fs key v k :
  (sha key = sha k → key = k) → key ≠ "" → k ≠ "" →
  let '(d', err) := cache_Put w (MkDisk root sha fs) key v in
  d_root d' = root ∧ d_sha d' = sha ∧
  cache_Get d' k = match err with
                   | None => if decide (key = k) then Some v else cache_Get (MkDisk root sha fs) k
                   | Some _ => cache_Get (MkDisk root sha fs) k
                   end.
Proof using sha_hex.
  intros Hi Hk1 Hk2. cbn -[keyPath]. unfold Disk_Put, Disk_Get. apply String.eqb_neq in Hk1 as ->. apply String.eqb_neq in Hk2 as ->.
  set (full := keyPath (MkDisk root sha fs) key). set (p := keyPath (MkDisk root sha fs) k).
  assert (p ≠ full +:+ tempSuffix) as Ht by apply key_path_not_temp.
  cbn [d_fs d_root d_sha]. destruct (atomic_write w fs (path_dir full) full v) as [r fs'] eqn:E. apply atomic_write_old_or_new in E as [Ho Hr].
  assert (p = full → key = k) as Hp.
  { intros E. symmetry in E. by eapply key_path_inj. }
  destruct r as [[]|e]; cbn -[keyPath]; change (keyPath (MkDisk root sha fs') k) with p; split_and!; try exact eq_refl; unfold read_file.
  - destruct Hr as [Hr _]. destruct (decide (key = k)) as [E|Hn].
    + assert (p = full) as -> by (unfold p, full; by rewrite E). by rewrite Hr.
    + rewrite Ho; [done|tauto|done].
  - destruct (decide (p = full)) as [->|Hn]; [by rewrite Hr|by rewrite Ho].
Qed.

(** C25: the disk cache refines a map: on an empty directory, whatever the
    operating system refuses during a sequence of writes, a lookup answers
    the value of the last successful write under that key and nothing else;
    a failed write and writes under other keys leave an entry alone, and no
    temporary file is ever read as an entry.  SHA-256 is taken as free of
    collisions among the keys used. *)
Theorem disk_cache_refines_map root ops k :
  (∀ a b, a ∈ k :: (snd ∘ fst <$> ops) → b ∈ k :: (snd ∘ fst <$> ops) → sha a = sha b → a = b) →
  k ≠ "" → Forall (λ op, op.1.2 ≠ "") ops →
  cache_Get (puts (NewDisk sha ∅ root) ops) k = stored (NewDisk sha ∅ root) ops ∅ !! k.
Proof using sha_hex.
  intros Hinj Hk Hops.
  assert (∀ fs m, cache_Get (MkDisk root sha fs) k = m !! k →
    cache_Get (puts (MkDisk root sha fs) ops) k = stored (MkDisk root sha fs) ops m !! k) as Hrun.
  { induction Hops as [|[[w key] v] ops Hkey _ IH]; intros fs m Hm; [done|].
    assert (sha key = sha k → key = k) as Hi by (apply Hinj; set_solver).
    pose proof (put_get w root fs key v k Hi Hkey Hk) as Hp.
    unfold puts in *. cbn [fold_left stored]. cbn [fst snd].
    destruct (cache_Put w (MkDisk root sha fs) key v) as [[root' sha' fs'] err]. simpl in Hp |- *.
    destruct Hp as (-> & -> & Hget). apply IH; [intros a b Ha Hb; apply Hinj; set_solver|].
    simpl. rewrite Hget. destruct err; [done|]. destruct (decide (key = k)) as [->|Hn].
    - by rewrite lookup_insert_eq.
    - by rewrite lookup_insert_ne. }
  apply Hrun. rewrite lookup_empty. simpl. unfold Disk_Get. apply String.eqb_neq in Hk as ->. done.
Qed.
End DiskCache.

(** ** Example *)

Fixpoint repeated (n : nat) (c : ascii) : string :=
  match n with 0 => "" | S n => String c (repeated n c) end.
Definition demo_sha (k : string) : string :=
  if String.eqb k "plugin:repo" then repeated 64 "a" else repeated 64 "b".
Definition demo_ops : list (refusals * string * string) :=
  [(permissive, "plugin:repo", "1"); (permissive, "plugin:mock", "2");
   (MkRefusals (λ _, false) (λ _, false) (λ _, None) (λ _, true) (λ _, false), "plugin:repo", "3")].

Lemma disk_cache_refines_map_witness :
  cache_Get (puts (NewDisk demo_sha ∅ "/w/.cache") demo_ops) "plugin:repo" = Some "1".
Proof.
  rewrite (disk_cache_refines_map demo_sha).
  - vm_compute. reflexivity.
  - intros k. unfold demo_sha. by destruct (String.eqb k "plugin:repo"); split; vm_compute.
  - intros a b Ha Hb. simpl in Ha, Hb. rewrite !elem_of_cons, elem_of_nil in Ha, Hb.
    destruct Ha as [-> | [-> | [-> | [-> | []]]]], Hb as [-> | [-> | [-> | [-> | []]]]]; try done;
      intros E; vm_compute in E; discriminate.
  - discriminate.
  - repeat constructor; discriminate.
Defined.
