(* ===== verification/Run.v ===== *)
(** * pipeline: one run

    [Run] of [src/pipeline/run.go] with the phase runners it composes and the
    containment of every plugin call, [phase.go], and the cache markers a run
    leaves ([recordCacheKey], [precomputeRunInvariants]).

    A plugin is code the framework calls, so it is a program over the
    operations the framework offers it ([code]): commands on the store, reads
    that its reader records, diagnostics, writes to the sink, questions about
    the state, and at the end a return value or a panic.  A guarded call is
    that code followed by what the invocation does with its outcome
    ([guarded]).  A phase is a list of stages; the calls of a stage run one
    after the other, or interleaved in any way when the phase is parallel.

    The directive validation, the directive override, layout and the manifest
    are modelled in [ValidateRun], [Override], [Layout] and [ManifestRun] over
    the state each of them works on; here they are the programs [passes] of
    the same operations ([pass]); they are taken not to panic. *)

From S2P Require Import Prelude GoStrings Position Diag Meta Directive Plugin Resolve Build Manifest Layout Node StoreIndex StoreOps StoreNodes Emit EmitSlots StoreEmit StoreEmitLaws Cache.

Local Open Scope string_scope.
Local Open Scope nat_scope.
Local Open Scope list_scope.

Module run.

(** ** [phase.go] *)

Inductive Phase := PhaseFrontend | PhaseAnnotator | PhaseGenerator | PhaseOther (n : Z).

Definition Phase_String (p : Phase) : string :=
  match p with
  | PhaseFrontend => "frontend" | PhaseAnnotator => "annotator" | PhaseGenerator => "generator"
  | PhaseOther _ => "phase(?)"
  end.

(** ** Plugin code *)

(** An error of a plugin: whether it wraps [store.ErrFrozen], and its text. *)
Record PluginError := MkPluginError { pe_frozen : bool; pe_text : string }.

Inductive role := Frontend (pattern : string) | Annotator | Generator | Backend.
Record invocation := MkInvocation { iv_role : role; iv_plugin : Plugin }.

(** How a call ended. *)
Inductive ending := Finished | Failed (e : PluginError) | Crashed (value : string).

Record world := MkWorld {
  w_store : eview.Store;
  w_diag : Sink;
  w_cache : list (string * string);
  w_written : list (Target * string);
  w_layoutErrs : list LayoutError;
  w_ended : list (invocation * ending);
}.

Inductive action :=
| ActStore (c : store_command)
| ActDiag (d : Diag)
| ActPut (key body : string)
| ActWrite (t : Target) (body : string)
| ActLayoutErr (e : LayoutError)
| ActEnd (iv : invocation) (how : ending).

Definition perform (a : action) (w : world) : world :=
  match a with
  | ActStore c => MkWorld (store_execute (w_store w) c) (w_diag w) (w_cache w) (w_written w) (w_layoutErrs w) (w_ended w)
  | ActDiag d => MkWorld (w_store w) (Append (w_diag w) d) (w_cache w) (w_written w) (w_layoutErrs w) (w_ended w)
  | ActPut k b => MkWorld (w_store w) (w_diag w) (w_cache w ++ [(k, b)]) (w_written w) (w_layoutErrs w) (w_ended w)
  | ActWrite t b => MkWorld (w_store w) (w_diag w) (w_cache w) (w_written w ++ [(t, b)]) (w_layoutErrs w) (w_ended w)
  | ActLayoutErr e => MkWorld (w_store w) (w_diag w) (w_cache w) (w_written w) (w_layoutErrs w ++ [e]) (w_ended w)
  | ActEnd iv how => MkWorld (w_store w) (w_diag w) (w_cache w) (w_written w) (w_layoutErrs w) (w_ended w ++ [(iv, how)])
  end.

(** What plugin code may do. *)
Inductive code :=
| CReturn (err : option PluginError)
| CPanic (value stack : string)
| CStore (c : store_command) (k : code)
| CDiag (d : Diag) (k : code)
| CRead (key : string) (k : code)
| CWrite (t : Target) (body : string) (k : code)
| CAsk (k : world → code).

(** What a pass of the framework may do. *)
Inductive pass :=
| QDone
| QStore (c : store_command) (k : pass)
| QDiag (d : Diag) (k : pass)
| QLayoutErr (e : LayoutError) (k : pass)
| QAsk (k : world → pass).

(** What the framework runs. *)
Inductive prog :=
| PDone
| PDo (a : action) (k : prog)
| PAsk (k : world → prog).

Fixpoint of_pass (q : pass) : prog :=
  match q with
  | QDone => PDone
  | QStore c k => PDo (ActStore c) (of_pass k)
  | QDiag d k => PDo (ActDiag d) (of_pass k)
  | QLayoutErr e k => PDo (ActLayoutErr e) (of_pass k)
  | QAsk k => PAsk (λ w, of_pass (k w))
  end.

(** ** Configuration *)

(** What [Build] fixed; [Version] and [NodesOnly] are the optional interfaces
    of a plugin that only the run consults. *)
Record config := MkConfig {
  c_frontends : list Plugin;
  c_annotators : list Plugin;
  c_generators : list Plugin;
  c_plan : Plan;
  c_hasSink : bool;
  c_parallel : Phase → bool;
  c_verbose : bool;
  c_targetSym : string;
  c_outFilename : string;
  c_policy : string → LayoutPolicy;
  c_Version : Plugin → option string;
  c_NodesOnly : Plugin → option bool;
}.

Section Run.
(** [sha] is the hexadecimal SHA-256 digest, [quote] is [strconv.Quote]. *)
Context (sha quote : string → string) (c : config).

(** The plugin methods. *)
Context (Load : Plugin → string → code) (Annotate Generate Render : Plugin → code).

(** The passes of the framework itself. *)
Context (validateDirectives runDirectiveOverride runLayout : pass) (writeManifest : code).

(** ** Cache markers *)

Definition registeredPlugins : list Plugin :=
  dedupePlugins (c_frontends c ++ c_annotators c ++ c_generators c ++ [pl_Backend (c_plan c)]).

Definition orderedPlugins : list Plugin :=
  dedupePlugins (pl_Frontends (c_plan c) ++ pl_Annotators (c_plan c) ++ pl_Generators (c_plan c)
                 ++ [pl_Backend (c_plan c)]).

Definition cacheRoutingComponents (name : string) : list string :=
  let pol := c_policy c name in [Build.Layout pol; Build.Package pol; Build.Dir pol].

Record invariants := MkInvariants {
  pluginVersions : gmap string string;
  routingHashes : gmap string string;
  fingerprint : string;
  scopeHash : string;
}.

Definition version_of (p : Plugin) : string := default "" (c_Version c p).

Definition precomputeRunInvariants : invariants :=
  MkInvariants
    (fold_left (λ m p, <[p_name p := version_of p]> m) registeredPlugins ∅)
    (fold_left (λ m p, <[p_name p := HashStrings sha (cacheRoutingComponents (p_name p))]> m) registeredPlugins ∅)
    (HashStrings sha ((λ p, p_name p +:+ "@" +:+ version_of p) <$> registeredPlugins))
    (HashStrings sha [c_targetSym c; c_outFilename c]).

Definition routingHash (name : string) : string :=
  match routingHashes precomputeRunInvariants !! name with
  | Some h => h
  | None => HashStrings sha (cacheRoutingComponents name)
  end.

Definition cacheKeyFor (name reads : string) : string :=
  NewKey ["plugin"; name; "version"; default "" (pluginVersions precomputeRunInvariants !! name);
          "reads"; reads; "routing"; routingHash name; "scope"; scopeHash precomputeRunInvariants].

(** [recordCacheKey]: the marker, whatever the cache does with it. *)
Definition recordCacheKey (name : string) (reads : ReadSet) : action :=
  let h := Hash sha reads in ActPut (cacheKeyFor name h) h.

(** ** Guarded calls *)

Definition role_text (r : role) : string :=
  match r with
  | Frontend pattern => "frontend Load(" +:+ quote pattern +:+ ")"
  | Annotator => "annotator" | Generator => "generator" | Backend => "backend"
  end.

(** [reportPluginError] *)
Definition reportPluginError (iv : invocation) (e : PluginError) : Diag :=
  if pe_frozen e
  then MkDiag Internal "" zero_pos
         (Sprintf "%s %q violated frozen-store contract: %v"
            [AStr (role_text (iv_role iv)); AStr (p_name (iv_plugin iv)); AStr (pe_text e)]) ""
  else MkDiag Error (p_name (iv_plugin iv)) zero_pos
         (Sprintf "%s failed: %v" [AStr (role_text (iv_role iv)); AStr (pe_text e)]) "".

(** The diagnostic of [diag.RecoverAs]. *)
Definition recovered (name value stack : string) : Diag :=
  MkDiag Error name zero_pos (Sprintf "plugin %q panicked: %v" [AStr name; AStr value]) stack.

(** Frontends leave no marker of their own. *)
Definition marker (iv : invocation) (reads : ReadSet) (k : prog) : prog :=
  match iv_role iv with
  | Frontend _ => k
  | _ => PDo (recordCacheKey (p_name (iv_plugin iv)) reads) k
  end.

(** The body of [invokeFrontend], [invokeAnnotator], [invokeGenerator] and
    [runBackend] around the method call: a panic skips the marker. *)
Fixpoint guarded (iv : invocation) (reads : ReadSet) (m : code) : prog :=
  match m with
  | CReturn None => marker iv reads (PDo (ActEnd iv Finished) PDone)
  | CReturn (Some e) =>
      PDo (ActDiag (reportPluginError iv e)) (marker iv reads (PDo (ActEnd iv (Failed e)) PDone))
  | CPanic v stack =>
      PDo (ActDiag (recovered (p_name (iv_plugin iv)) v stack)) (PDo (ActEnd iv (Crashed v)) PDone)
  | CStore sc k => PDo (ActStore sc) (guarded iv reads k)
  | CDiag d k => PDo (ActDiag d) (guarded iv reads k)
  | CRead key k => guarded iv (Record_ reads key) k
  | CWrite t b k => PDo (ActWrite t b) (guarded iv reads k)
  | CAsk k => PAsk (λ w, guarded iv reads (k w))
  end.

Definition invokeFrontend (fe : Plugin) (pattern : string) : prog :=
  guarded (MkInvocation (Frontend pattern) fe) NewReadSet (Load fe pattern).
Definition invokeAnnotator (ann : Plugin) : prog :=
  guarded (MkInvocation Annotator ann) NewReadSet (Annotate ann).
Definition invokeGenerator (gen : Plugin) : prog :=
  guarded (MkInvocation Generator gen) NewReadSet (Generate gen).

(** The guard of [writeManifest]: an error return does not exist there. *)
Fixpoint contained (m : code) : prog :=
  match m with
  | CReturn _ => PDone
  | CPanic v stack => PDo (ActDiag (recovered "pipeline" v stack)) PDone
  | CStore sc k => PDo (ActStore sc) (contained k)
  | CDiag d k => PDo (ActDiag d) (contained k)
  | CRead _ k => contained k
  | CWrite t b k => PDo (ActWrite t b) (contained k)
  | CAsk k => PAsk (λ w, contained (k w))
  end.

(** ** Phases *)

Inductive stage := Seq (ps : list prog) | Par (ps : list prog).

(** [logPhaseStart]: [f] and [a] after the phase name. *)
Definition logPhaseStart (phase f : string) (a : list arg) : stage :=
  Seq (if c_verbose c
       then [PDo (ActDiag (MkDiag Info "pipeline" zero_pos (Sprintf ("phase=%s " +:+ f) (AStr phase :: a)) "")) PDone]
       else []).

Definition runFrontends (patterns : list string) : list stage :=
  let fes := pl_Frontends (c_plan c) in
  let calls := fes ≫= λ fe, invokeFrontend fe <$> patterns in
  [logPhaseStart "frontend" "%d frontend(s), %d pattern(s)"
     [AInt (Z.of_nat (length fes)); AInt (Z.of_nat (length patterns))];
   if c_parallel c PhaseFrontend then Par calls else Seq calls].

Definition runAnnotators : list stage :=
  logPhaseStart "annotator" "%d annotator(s)" [AInt (Z.of_nat (length (pl_Annotators (c_plan c))))] ::
  ((λ b, if c_parallel c PhaseAnnotator then Par (invokeAnnotator <$> b_Plugins b)
         else Seq (invokeAnnotator <$> b_Plugins b)) <$> pl_AnnotatorBuckets (c_plan c)).

Definition allNodesOnly (ps : list Plugin) : bool :=
  forallb (λ g, match c_NodesOnly c g with Some b => b | None => false end) ps.

Definition runGenerators : list stage :=
  logPhaseStart "generator" "%d generator(s)" [AInt (Z.of_nat (length (pl_Generators (c_plan c))))] ::
  ((λ b, if c_parallel c PhaseGenerator && allNodesOnly (b_Plugins b)
         then Par (invokeGenerator <$> b_Plugins b)
         else Seq (invokeGenerator <$> b_Plugins b)) <$> pl_GeneratorBuckets (c_plan c)).

Definition runBackend : list stage :=
  let be := pl_Backend (c_plan c) in
  [logPhaseStart "backend" "lang=%s" [AStr (p_Language be)];
   Seq [guarded (MkInvocation Backend be) NewReadSet (Render be)]].

(** [s.Nodes().Freeze()], [s.Emit().Freeze()] *)
Definition freeze_nodes : stage := Seq [PDo (ActStore (OnNodes NFreeze)) PDone].
Definition freeze_emit : stage := Seq [PDo (ActStore (OnEmit CFreeze)) PDone].

Definition phases (patterns : list string) : list (string * list stage) :=
  [("frontend", runFrontends patterns ++ [Seq [of_pass validateDirectives]; freeze_nodes]);
   ("annotator", runAnnotators ++ [Seq [of_pass runDirectiveOverride]]);
   ("generator", runGenerators);
   ("layout", [Seq [of_pass runLayout]; freeze_emit]);
   ("backend", runBackend);
   ("manifest", [Seq [contained writeManifest]])].

(** ** Execution *)

(** One program alone. *)
Fixpoint exec (p : prog) (w : world) : world :=
  match p with
  | PDone => w
  | PDo a k => exec k (perform a w)
  | PAsk k => exec (k w) w
  end.

(** One step of one of several programs. *)
Inductive pool_step : list prog * world → list prog * world → Prop :=
| step_do i a k ps w :
    ps !! i = Some (PDo a k) → pool_step (ps, w) (<[i := k]> ps, perform a w)
| step_ask i k ps w :
    ps !! i = Some (PAsk k) → pool_step (ps, w) (<[i := k w]> ps, w).

Definition finished (ps : list prog) : Prop := Forall (λ p, p = PDone) ps.

(** [wg.Wait()] returns when every program is done. *)
Inductive stage_runs : stage → world → world → Prop :=
| runs_seq ps w : stage_runs (Seq ps) w (fold_left (λ w p, exec p w) ps w)
| runs_par ps w ps' w' : rtc pool_step (ps, w) (ps', w') → finished ps' → stage_runs (Par ps) w w'.

Inductive stages_run : list stage → world → world → Prop :=
| stages_nil w : stages_run [] w w
| stages_cons s ss w w1 w2 : stage_runs s w w1 → stages_run ss w1 w2 → stages_run (s :: ss) w w2.

(** [ctx.Err()] as the loop finds it before each phase. *)
Context (cancelled : string → option string).

(** The loop over the phases; the last argument is the cancellation. *)
Inductive phases_run : list (string * list stage) → world → world → option (string * string) → Prop :=
| phases_nil w : phases_run [] w w None
| phases_cancel name ss rest w e :
    cancelled name = Some e → phases_run ((name, ss) :: rest) w w (Some (e, name))
| phases_cons name ss rest w w1 w2 r :
    cancelled name = None → stages_run ss w w1 → phases_run rest w1 w2 r →
    phases_run ((name, ss) :: rest) w w2 r.

Inductive RunResult :=
| RunOk
| RunErrNoSink
| RunCancelled (err phase : string)
| RunHadErrors (layoutErrs : list LayoutError).

(** [resetRunState] and the fresh store; the diagnostic sink is the one of the
    pipeline and keeps what earlier runs reported. *)
Definition start (sk : Sink) : world := MkWorld eview.New sk [] [] [] [].

Definition logRunSummary (w : world) : world :=
  if c_verbose c
  then perform (ActDiag (MkDiag Info "pipeline" zero_pos
         (Sprintf "run complete: %d error(s), %d warning(s), %d info"
            [AInt (Z.of_nat (Count (w_diag w) Error)); AInt (Z.of_nat (Count (w_diag w) Warn));
             AInt (Z.of_nat (Count (w_diag w) Info))]) "")) w
  else w.

Definition result (w : world) (stopped : option (string * string)) : world * RunResult :=
  match stopped with
  | Some (e, phase) => (w, RunCancelled e phase)
  | None =>
      let w := logRunSummary w in
      (w, if HasErrors (w_diag w) then RunHadErrors (w_layoutErrs w) else RunOk)
  end.

(** [Run] from a sink to its outcomes. *)
Inductive Run (patterns : list string) (sk : Sink) : world * RunResult → Prop :=
| run_no_sink : c_hasSink c = false → Run patterns sk (start sk, RunErrNoSink)
| run_phases w stopped :
    c_hasSink c = true → phases_run (phases patterns) (start sk) w stopped →
    Run patterns sk (result w stopped).

(** ** The sequential run as a function *)

Definition stage_exec (s : stage) (w : world) : world :=
  match s with Seq ps | Par ps => fold_left (λ w p, exec p w) ps w end.

Fixpoint phases_exec (l : list (string * list stage)) (w : world) : world * option (string * string) :=
  match l with
  | [] => (w, None)
  | (name, ss) :: rest =>
      match cancelled name with
      | Some e => (w, Some (e, name))
      | None => phases_exec rest (fold_left (λ w s, stage_exec s w) ss w)
      end
  end.

Definition Run_exec (patterns : list string) (sk : Sink) : world * RunResult :=
  if c_hasSink c
  then let '(w, stopped) := phases_exec (phases patterns) (start sk) in result w stopped
  else (start sk, RunErrNoSink).

End Run.
End run.
