(* ===== verification/RunLaws.v ===== *)
(** * pipeline: what a run guarantees

    For every plan, every plugin code and every interleaving of parallel
    calls: a run ends, it calls every planned plugin exactly once in plan
    order whatever the plugins do, it reports success only when none of them
    failed, and from the phase that freezes a view on that view is fixed. *)

From S2P Require Import Prelude GoStrings Position Diag Meta Directive Plugin Resolve Build Manifest Layout Node StoreIndex StoreOps StoreNodes Emit EmitSlots StoreEmit StoreEmitLaws Cache Run.

Local Open Scope string_scope.
Local Open Scope nat_scope.
Local Open Scope list_scope.

Import run.

(** ** No schedule runs forever *)

(** One program moves, whatever the state is. *)
Inductive prog_next : prog → prog → Prop :=
| next_do a k : prog_next (PDo a k) k
| next_ask k w : prog_next (PAsk k) (k w).

Inductive pool_next : list prog → list prog → Prop :=
| pool_next_at i p q ps : ps !! i = Some p → prog_next p q → pool_next ps (<[i := q]> ps).

Lemma pool_step_next ps w ps' w' : pool_step (ps, w) (ps', w') → pool_next ps ps'.
Proof. inversion 1; subst; econstructor; eauto using prog_next. Qed.

Lemma prog_acc p : Acc (λ q r, prog_next r q) p.
Proof. induction p as [|a k IH|k IH]; constructor; inversion 1; subst; auto. Qed.

Lemma pool_acc ps : Acc (λ qs rs, pool_next rs qs) ps.
Proof.
  induction ps as [|p ps IH].
  { constructor. intros qs Hq. inversion Hq; subst. done. }
  pose proof (prog_acc p) as Hp. revert ps IH. induction Hp as [p _ IHp]. intros ps Hps.
  induction Hps as [ps Hps IHps]. constructor. intros qs Hq.
  inversion Hq as [i r q ? Hi Hn]; subst. destruct i as [|i]; simpl in *.
  - simplify_eq. apply IHp; [done|]. by constructor.
  - apply IHps. by econstructor.
Qed.

Lemma pool_terminates : well_founded (λ x y, pool_step y x).
Proof.
  intros [ps w]. pose proof (pool_acc ps) as Ha. revert w. induction Ha as [ps _ IH]. intros w.
  constructor. intros [qs w'] Hs. apply IH. by eapply pool_step_next.
Qed.

Lemma pool_progress ps w : finished ps ∨ ∃ ps' w', pool_step (ps, w) (ps', w').
Proof.
  induction ps as [|p ps IH]; [by left; constructor|].
  destruct p as [|a k|k].
  - destruct IH as [?|(ps' & w' & Hs)]; [left; by constructor|]. right.
    inversion Hs; subst; do 2 eexists; [apply (step_do (S i))|apply (step_ask (S i))]; done.
  - right. do 2 eexists. by apply (step_do 0).
  - right. do 2 eexists. by apply (step_ask 0).
Qed.

Lemma pool_finishes ps w : ∃ ps' w', rtc pool_step (ps, w) (ps', w') ∧ finished ps'.
Proof.
  assert (∀ x, ∃ ps' w', rtc pool_step x (ps', w') ∧ finished ps') as H; [|apply H].
  intros x. induction x as [[qs v] IH] using (well_founded_ind pool_terminates).
  destruct (pool_progress qs v) as [?|(qs' & v' & Hs)]; [by exists qs, v|].
  destruct (IH _ Hs) as (ps' & w' & Hr & Hf). exists ps', w'. split; [by eapply rtc_l|done].
Qed.

(** ** Invariants of all executions *)

(** A property of a state and the programs still to run that no step breaks
    holds at the end of every execution. *)
Section Invariant.
Context (I : list prog → world → Prop).
Context (I_step : ∀ ps w ps' w', I ps w → pool_step (ps, w) (ps', w') → I ps' w').

Lemma pool_invariant ps w ps' w' : I ps w → rtc pool_step (ps, w) (ps', w') → I ps' w'.
Proof using I_step.
  intros Hi Hr. remember (ps, w) as x. remember (ps', w') as y. revert ps w Heqx Hi.
  induction Hr as [x|x [qs v] z Hs Hr IH]; intros ps w -> Hi; simplify_eq; [done|].
  eapply IH; eauto.
Qed.
End Invariant.

(** Running a program alone is a schedule of the pool that has only it. *)
Lemma exec_is_schedule p w : rtc pool_step ([p], w) ([PDone], exec p w).
Proof.
  revert w. induction p as [|a k IH|k IH]; intros w; simpl; [done| |].
  - eapply rtc_l; [by apply (step_do 0)|]. apply IH.
  - eapply rtc_l; [by apply (step_ask 0)|]. apply IH.
Qed.

(** ** Every call ends exactly once *)

Definition is_end (a : action) : bool := match a with ActEnd _ _ => true | _ => false end.

Lemma perform_ended a w : is_end a = false → w_ended (perform a w) = w_ended w.
Proof. by destruct a. Qed.

(** Programs that end no call, and programs that end the call [iv] once. *)
Inductive quiet : prog → Prop :=
| quiet_done : quiet PDone
| quiet_do a k : is_end a = false → quiet k → quiet (PDo a k)
| quiet_ask k : (∀ w, quiet (k w)) → quiet (PAsk k).

Inductive owes (iv : invocation) : prog → Prop :=
| owes_do a k : is_end a = false → owes iv k → owes iv (PDo a k)
| owes_end how k : quiet k → owes iv (PDo (ActEnd iv how) k)
| owes_ask k : (∀ w, owes iv (k w)) → owes iv (PAsk k).

#[local] Hint Constructors quiet owes : eidos.

Lemma quiet_of_pass q : quiet (of_pass q).
Proof. induction q; simpl; eauto with eidos. Qed.

Lemma quiet_contained m : quiet (contained m).
Proof. induction m; simpl; eauto with eidos. Qed.

Lemma owes_guarded sha quote c iv reads m : owes iv (guarded sha quote c iv reads m).
Proof.
  assert (∀ r k, owes iv k → owes iv (marker sha c iv r k)) as Hm.
  { intros r k Hk. unfold marker. destruct (iv_role iv); [done|by constructor..]. }
  revert reads. induction m as [[e|]| | | | | |]; intros reads; simpl; eauto with eidos.
Qed.

Lemma exec_quiet p w : quiet p → w_ended (exec p w) = w_ended w.
Proof.
  intros Hq. revert w. induction Hq as [|a k Ha _ IH|k _ IH]; intros w; simpl; [done| |apply IH].
  by rewrite IH, perform_ended.
Qed.

Lemma exec_owes iv p w : owes iv p → ∃ how, w_ended (exec p w) = w_ended w ++ [(iv, how)].
Proof.
  intros Ho. revert w. induction Ho as [a k Ha _ IH|how k Hk|k _ IH]; intros w; simpl; [| |apply IH].
  - destruct (IH (perform a w)) as [how E]. exists how. by rewrite E, perform_ended.
  - exists how. by rewrite exec_quiet.
Qed.

(** A call and whether it has ended. *)
Definition status (t : invocation * bool) (p : prog) : Prop := if t.2 then quiet p else owes t.1 p.

(** The calls of a pool: which have ended, which are still owed. *)
Definition tracked (base : list invocation) (ivs : list invocation) (ps : list prog) (w : world) : Prop :=
  ∃ ts : list (invocation * bool),
    ts.*1 = ivs ∧ Forall2 status ts ps ∧
    (w_ended w).*1 ≡ₚ base ++ (filter (λ t, t.2 = true) ts).*1.

Lemma tracked_step base ivs ps w ps' w' :
  tracked base ivs ps w → pool_step (ps, w) (ps', w') → tracked base ivs ps' w'.
Proof.
  intros (ts & Hivs & Hts & Hp) Hs.
  assert (∀ i (t : invocation * bool) q, ts !! i = Some t → status t q →
    Forall2 status ts (<[i := q]> ps)) as Hkeep.
  { intros i t q Hi Hq. rewrite <- (list_insert_id ts i t Hi). by apply Forall2_insert. }
  inversion Hs as [i a k ? ? Hi|i k ? ? Hi]; subst;
    destruct (Forall2_lookup_r _ _ _ _ _ Hts Hi) as ([iv b] & Ht & Hb); unfold status in Hb; simpl in Hb.
  - destruct b; [|inversion Hb as [? ? Ha Hk|how ? Hk|]; subst].
    + inversion Hb; subst. exists ts. rewrite perform_ended by done. split_and!; [done|by eapply Hkeep|done].
    + exists ts. rewrite perform_ended by done. split_and!; [done|by eapply Hkeep|done].
    + exists (<[i := (iv, true)]> ts). split_and!.
      * rewrite list_fmap_insert. simpl. apply list_insert_id. by rewrite list_lookup_fmap, Ht.
      * by apply Forall2_insert.
      * simpl. rewrite fmap_app. simpl. rewrite Hp, <- app_assoc. f_equiv.
        rewrite (insert_take_drop ts i (iv, true)) by by eapply lookup_lt_Some.
        rewrite <- (take_drop_middle ts i (iv, false) Ht) at 1. rewrite !filter_app, !filter_cons, !fmap_app. simpl.
        rewrite <- app_assoc. f_equiv. by rewrite Permutation_app_comm.
  - exists ts. split_and!; [done| |done]. eapply Hkeep; [done|]. unfold status. simpl. destruct b; inversion Hb; subst; auto.
Qed.

(** What a stage contributes to the calls of a run: nothing, its calls in
    order, or its calls in any order. *)
Inductive plans : list stage → list (bool * list invocation) → Prop :=
| plans_nil : plans [] []
| plans_quiet ps ss pl : Forall quiet ps → plans ss pl → plans (Seq ps :: ss) pl
| plans_seq ivs ps ss pl : Forall2 owes ivs ps → plans ss pl → plans (Seq ps :: ss) ((false, ivs) :: pl)
| plans_par ivs ps ss pl : Forall2 owes ivs ps → plans ss pl → plans (Par ps :: ss) ((true, ivs) :: pl).

Inductive happened : list (bool * list invocation) → list invocation → Prop :=
| happened_nil : happened [] []
| happened_seq ivs pl l : happened pl l → happened ((false, ivs) :: pl) (ivs ++ l)
| happened_par ivs ivs' pl l : ivs' ≡ₚ ivs → happened pl l → happened ((true, ivs) :: pl) (ivs' ++ l).

Lemma happened_app pl pl' l l' : happened pl l → happened pl' l' → happened (pl ++ pl') (l ++ l').
Proof. induction 1; simpl; intros ?; rewrite <- ?app_assoc; [done|constructor|constructor]; auto. Qed.

Lemma plans_app ss ss' pl pl' : plans ss pl → plans ss' pl' → plans (ss ++ ss') (pl ++ pl').
Proof. induction 1; simpl; intros; eauto using plans. Qed.

Lemma seq_calls ivs ps w :
  Forall2 owes ivs ps → (w_ended (fold_left (λ w p, exec p w) ps w)).*1 = (w_ended w).*1 ++ ivs.
Proof.
  intros Hf. revert w. induction Hf as [|iv p ivs ps Hp _ IH]; intros w; simpl; [by rewrite app_nil_r|].
  rewrite IH. destruct (exec_owes iv p w Hp) as [how ->]. by rewrite fmap_app, <- app_assoc.
Qed.

Lemma seq_quiet ps w : Forall quiet ps → w_ended (fold_left (λ w p, exec p w) ps w) = w_ended w.
Proof.
  intros Hf. revert w. induction Hf as [|p ps Hp _ IH]; intros w; simpl; [done|]. by rewrite IH, exec_quiet.
Qed.

(** Everything a pool has ended is appended. *)
Lemma ended_prefix ps w ps' w' : rtc pool_step (ps, w) (ps', w') → ∃ l, w_ended w' = w_ended w ++ l.
Proof.
  apply (pool_invariant (λ _ v, ∃ l, w_ended v = w_ended w ++ l)); [|by exists []; rewrite app_nil_r].
  intros qs v qs' v' [l E] Hs. inversion Hs as [i a k ? ? Hi|]; subst; [|by exists l].
  destruct a; simpl; rewrite E; eauto. eexists. by rewrite <- app_assoc.
Qed.

Lemma par_calls ivs ps w ps' w' :
  Forall2 owes ivs ps → rtc pool_step (ps, w) (ps', w') → finished ps' →
  ∃ l, (w_ended w').*1 = (w_ended w).*1 ++ l ∧ l ≡ₚ ivs.
Proof.
  intros Ho Hr Hf. destruct (ended_prefix _ _ _ _ Hr) as [l El].
  assert (tracked (w_ended w).*1 ivs ps' w') as (ts & Hivs & Hts & Hp).
  { eapply pool_invariant; [apply tracked_step| |exact Hr].
    exists ((λ iv, (iv, false)) <$> ivs). split_and!.
    - rewrite <- list_fmap_compose. apply list_fmap_id.
    - rewrite Forall2_fmap_l. eapply Forall2_impl; [exact Ho|done].
    - rewrite filter_none; [by rewrite app_nil_r|]. by intros t (iv & -> & _)%list_elem_of_fmap. }
  exists l.*1. rewrite El, fmap_app in *. split; [done|]. apply Permutation_app_inv_l in Hp. rewrite Hp.
  rewrite filter_all; [by rewrite Hivs|]. intros t Ht. apply list_elem_of_lookup in Ht as [i Hi].
  destruct (Forall2_lookup_l _ _ _ _ _ Hts Hi) as (p & Hpi & Hb). unfold finished in Hf.
  rewrite Forall_lookup in Hf. rewrite (Hf i p Hpi) in Hb. destruct t as [iv []]; [done|]. inversion Hb.
Qed.

Lemma stages_calls ss pl w w' :
  plans ss pl → stages_run ss w w' →
  ∃ l, happened pl l ∧ (w_ended w').*1 = (w_ended w).*1 ++ l.
Proof.
  intros Hp. revert w. induction Hp as [|ps ss pl Hq _ IH|ivs ps ss pl Ho _ IH|ivs ps ss pl Ho _ IH];
    intros w Hr; inversion Hr as [|? ? ? w1 ? Hs Hss]; subst.
  - exists []. split; [constructor|by rewrite app_nil_r].
  - inversion Hs; subst. destruct (IH _ Hss) as (l & Hl & E). exists l. split; [done|].
    by rewrite E, seq_quiet.
  - inversion Hs; subst. destruct (IH _ Hss) as (l & Hl & E). exists (ivs ++ l). split; [by constructor|].
    by rewrite E, seq_calls with (ivs := ivs), <- app_assoc.
  - inversion Hs as [|? ? ? ? Hrt Hfin]; subst. destruct (IH _ Hss) as (l & Hl & E).
    destruct (par_calls _ _ _ _ _ Ho Hrt Hfin) as (l1 & E1 & P1).
    exists (l1 ++ l). split; [by constructor|]. by rewrite E, E1, <- app_assoc.
Qed.

(** ** Failures leave diagnostics *)

(** The diagnostic that accounts for the end of a call. *)
Definition explained (quote : string → string) (ds : list Diag) (iv : invocation) (how : ending) : Prop :=
  match how with
  | Finished => True
  | Failed e => reportPluginError quote iv e ∈ ds
  | Crashed v => ∃ stack, recovered (p_name (iv_plugin iv)) v stack ∈ ds
  end.

Lemma explained_mono quote ds ds' iv how : ds ⊆ ds' → explained quote ds iv how → explained quote ds' iv how.
Proof. destruct how; simpl; [done|set_solver|]. intros H (st & ?). exists st. set_solver. Qed.

(** A program that ends calls only after emitting what explains them. *)
Inductive accountable (quote : string → string) : list Diag → prog → Prop :=
| acc_done ds : accountable quote ds PDone
| acc_do ds a k :
    is_end a = false → accountable quote (match a with ActDiag d => d :: ds | _ => ds end) k →
    accountable quote ds (PDo a k)
| acc_end ds iv how k :
    explained quote ds iv how → accountable quote ds k → accountable quote ds (PDo (ActEnd iv how) k)
| acc_ask ds k : (∀ w, accountable quote ds (k w)) → accountable quote ds (PAsk k).

#[local] Hint Constructors accountable : eidos.

Lemma accountable_mono quote ds ds' p : ds ⊆ ds' → accountable quote ds p → accountable quote ds' p.
Proof.
  intros Hs Ha. revert ds' Hs. induction Ha as [|ds a k He _ IH|ds iv how k He _ IH|ds k _ IH]; intros ds' Hs.
  - constructor.
  - apply acc_do; [done|]. apply IH. destruct a; set_solver.
  - apply acc_end; eauto using explained_mono.
  - apply acc_ask. auto.
Qed.

Lemma quiet_accountable quote ds p : quiet p → accountable quote ds p.
Proof. intros Hq. revert ds. induction Hq; eauto with eidos. Qed.

Lemma guarded_accountable sha quote c ds iv reads m :
  accountable quote ds (guarded sha quote c iv reads m).
Proof.
  assert (∀ r ds k, accountable quote ds k → accountable quote ds (marker sha c iv r k)) as Hm.
  { intros r ds' k Hk. unfold marker. destruct (iv_role iv); [done|by constructor..]. }
  revert ds reads. induction m as [[e|]|v st| | | | |]; intros ds reads; cbn [guarded].
  - apply acc_do; [done|]. apply Hm, acc_end; [by left|constructor].
  - apply Hm, acc_end; [done|constructor].
  - apply acc_do; [done|]. apply acc_end; [exists st; by left|constructor].
  - by apply acc_do.
  - by apply acc_do.
  - auto.
  - by apply acc_do.
  - apply acc_ask. auto.
Qed.

(** All calls that ended so far are accounted for. *)
Definition accounted (quote : string → string) (w : world) : Prop :=
  discard (w_diag w) = false ∧ ∀ iv how, (iv, how) ∈ w_ended w → explained quote (diags (w_diag w)) iv how.

Definition pool_accounted (quote : string → string) (ps : list prog) (w : world) : Prop :=
  accounted quote w ∧ Forall (accountable quote (diags (w_diag w))) ps.

Lemma perform_diags a w :
  discard (w_diag w) = false →
  discard (w_diag (perform a w)) = false ∧
  diags (w_diag (perform a w)) = diags (w_diag w) ++ match a with ActDiag d => [d] | _ => [] end.
Proof.
  intros Hd. destruct a; simpl; rewrite ?app_nil_r; try done.
  by rewrite discard_Append, diags_Append, Hd.
Qed.

Lemma pool_accounted_step quote ps w ps' w' :
  pool_accounted quote ps w → pool_step (ps, w) (ps', w') → pool_accounted quote ps' w'.
Proof.
  intros [[Hd He] Hps] Hs. inversion Hs as [i a k ? ? Hi|i k ? ? Hi]; subst;
    pose proof (Forall_lookup_1 _ _ _ _ Hps Hi) as Hp.
  - destruct (perform_diags a w Hd) as [Hd' Ed].
    assert (diags (w_diag w) ⊆ diags (w_diag (perform a w))) as Hsub by (rewrite Ed; set_solver).
    split; [split; [done|]|].
    + intros iv how Hin. assert ((iv, how) ∈ w_ended w ∨ a = ActEnd iv how) as [Hin' | ->].
      { destruct a; simpl in Hin; auto. apply elem_of_app in Hin as [?|Hin%list_elem_of_singleton]; [by left|].
        simplify_eq. by right. }
      * eapply explained_mono; [done|]. by apply He.
      * inversion Hp; subst; [done|]. by eapply explained_mono.
    + apply Forall_insert; [eapply Forall_impl; [exact Hps|]; intros q; by apply accountable_mono|].
      inversion Hp; subst; [|by eapply accountable_mono].
      eapply accountable_mono; [|done]. rewrite Ed. destruct a; set_solver.
  - split; [done|]. apply Forall_insert; [done|]. inversion Hp; subst. auto.
Qed.

Lemma stage_accounted quote s w w' :
  Forall (λ p, ∀ ds, accountable quote ds p) (match s with Seq ps | Par ps => ps end) →
  accounted quote w → stage_runs s w w' → accounted quote w'.
Proof.
  intros Hps Hw Hr. assert (∀ p w, (∀ ds, accountable quote ds p) → accounted quote w → accounted quote (exec p w)) as Hexec.
  { intros p v Hp Hv. eapply (pool_invariant (pool_accounted quote)); [apply pool_accounted_step| |apply exec_is_schedule].
    split; [done|]. by apply Forall_singleton. }
  inversion Hr as [ps|ps ? ps' ? Hrt Hfin]; subst.
  - clear Hr. revert w Hw. induction Hps as [|p ps Hp _ IH]; intros w Hw; simpl; [done|]. apply IH. by apply Hexec.
  - eapply (pool_invariant (pool_accounted quote)); [apply pool_accounted_step| |exact Hrt].
    split; [done|]. eapply Forall_impl; [exact Hps|]. auto.
Qed.

(** ** Runs *)

Section Laws.
Context (sha quote : string → string) (c : config).
Context (Load : Plugin → string → code) (Annotate Generate Render : Plugin → code).
Context (validate override layout : pass) (manifest : code).
Context (cancelled : string → option string).

Abbreviation the_phases := (phases sha quote c Load Annotate Generate Render validate override layout manifest).
Abbreviation the_Run := (Run sha quote c Load Annotate Generate Render validate override layout manifest cancelled).

(** The calls the plan asks for, phase by phase; [true] marks a stage whose
    calls may overlap. *)
Definition planned (patterns : list string) : list (string * list (bool * list invocation)) :=
  [("frontend",
    [(c_parallel c PhaseFrontend,
      pl_Frontends (c_plan c) ≫= λ fe, (λ pat, MkInvocation (Frontend pat) fe) <$> patterns)]);
   ("annotator",
    (λ b, (c_parallel c PhaseAnnotator, MkInvocation Annotator <$> b_Plugins b)) <$> pl_AnnotatorBuckets (c_plan c));
   ("generator",
    (λ b, (c_parallel c PhaseGenerator && allNodesOnly c (b_Plugins b), MkInvocation Generator <$> b_Plugins b))
      <$> pl_GeneratorBuckets (c_plan c));
   ("layout", []);
   ("backend", [(false, [MkInvocation Backend (pl_Backend (c_plan c))])]);
   ("manifest", [])].

Lemma plans_log phase f a ss pl : plans ss pl → plans (logPhaseStart c phase f a :: ss) pl.
Proof.
  intros Hp. unfold logPhaseStart. constructor; [|done]. destruct (c_verbose c); [|constructor].
  apply Forall_singleton. by repeat constructor.
Qed.

Lemma plans_calls (par : bool) {A} (f : A → invocation) (g : A → prog) l ss pl :
  (∀ x, owes (f x) (g x)) → plans ss pl →
  plans ((if par then Par (g <$> l) else Seq (g <$> l)) :: ss) ((par, f <$> l) :: pl).
Proof.
  intros Hf Hp. assert (Forall2 owes (f <$> l) (g <$> l)) as Ho.
  { apply Forall2_fmap, Forall_Forall2_diag, Forall_forall. auto. }
  destruct par; by constructor.
Qed.

Lemma plans_buckets (par : resolvedBucket → bool) f g bs :
  (∀ x, owes (f x) (g x)) →
  plans ((λ b, if par b then Par (g <$> b_Plugins b) else Seq (g <$> b_Plugins b)) <$> bs)
        ((λ b, (par b, f <$> b_Plugins b)) <$> bs).
Proof.
  intros Hf. induction bs as [|b bs IH]; simpl; [constructor|]. by apply plans_calls.
Qed.

Lemma fmap_bind_pairs {A B C} (f : A → B → C) (l : list A) (k : list B) :
  (l ≫= λ a, f a <$> k) = (λ ab, f ab.1 ab.2) <$> (l ≫= λ a, pair a <$> k).
Proof.
  induction l as [|a l IH]; [done|]. rewrite !bind_cons, fmap_app, IH. f_equal. by rewrite <- list_fmap_compose.
Qed.

Lemma plans_quiet_last q ss pl : quiet q → plans ss pl → plans (Seq [q] :: ss) pl.
Proof. intros. constructor; [by apply Forall_singleton|done]. Qed.

Lemma plans_end q ss pl : quiet q → plans ss pl → plans (ss ++ [Seq [q]]) pl.
Proof.
  intros Hq Hp. rewrite <- (app_nil_r pl). apply plans_app; [done|]. apply plans_quiet_last; [done|constructor].
Qed.

Lemma phases_planned patterns :
  Forall2 (λ ph pl, ph.1 = pl.1 ∧ plans ph.2 pl.2) (the_phases patterns) (planned patterns).
Proof.
  unfold phases, planned. repeat (apply Forall2_cons; split; [split; [done|]|]); [..|constructor]; cbn [fst snd].
  - apply plans_log. simpl. unfold invokeFrontend.
    rewrite (fmap_bind_pairs (λ fe pat, guarded sha quote c (MkInvocation (Frontend pat) fe) NewReadSet (Load fe pat))).
    rewrite (fmap_bind_pairs (λ fe pat, MkInvocation (Frontend pat) fe)).
    apply plans_calls; [intros; apply owes_guarded|].
    apply plans_quiet_last; [apply quiet_of_pass|]. apply plans_quiet_last; [by repeat constructor|constructor].
  - apply plans_log, plans_end; [apply quiet_of_pass|].
    apply (plans_buckets (λ _, c_parallel c PhaseAnnotator)). intros; apply owes_guarded.
  - apply plans_log, (plans_buckets (λ b, c_parallel c PhaseGenerator && allNodesOnly c (b_Plugins b))).
    intros; apply owes_guarded.
  - apply plans_quiet_last; [apply quiet_of_pass|]. apply plans_quiet_last; [by repeat constructor|constructor].
  - apply plans_log. constructor; [|constructor]. constructor; [apply owes_guarded|constructor].
  - apply plans_quiet_last; [apply quiet_contained|constructor].
Qed.

Lemma phases_calls phs pls w w' stopped :
  Forall2 (λ ph pl, ph.1 = pl.1 ∧ plans ph.2 pl.2) phs pls →
  phases_run cancelled phs w w' stopped →
  ∃ n l, happened (concat (snd <$> take n pls)) l ∧ (w_ended w').*1 = (w_ended w).*1 ++ l ∧
    match stopped with
    | None => n = length pls
    | Some (e, name) => cancelled name = Some e ∧ fst <$> pls !! n = Some name
    end.
Proof.
  intros Hp Hr. revert pls Hp. induction Hr as [w|name ss rest w e He|name ss rest w w1 w2 r He Hss Hr IH];
    intros pls Hp.
  - inversion Hp; subst. exists 0, []. split_and!; [apply happened_nil|by rewrite app_nil_r|done].
  - inversion Hp as [|? pl ? pls' [Hn _] _]; subst. exists 0, [].
    split_and!; [apply happened_nil|by rewrite app_nil_r|done|simpl in *; by rewrite Hn].
  - inversion Hp as [|? pl ? pls' [Hn Hpl] Hp']; subst.
    destruct (stages_calls _ _ _ _ Hpl Hss) as (l1 & H1 & E1).
    destruct (IH pls' Hp') as (n & l2 & H2 & E2 & Hst). exists (S n), (l1 ++ l2). split_and!.
    + simpl. by apply happened_app.
    + by rewrite E2, E1, <- app_assoc.
    + destruct r as [[e name']|]; simpl; [done|lia].
Qed.

Lemma result_ended w stopped : w_ended (result c w stopped).1 = w_ended w.
Proof. unfold result, logRunSummary. destruct stopped as [[]|]; [done|]. by destruct (c_verbose c). Qed.

(** C1: a run calls every planned plugin exactly once: whatever the plugins
    do, fail and panic included, and however parallel calls interleave, an
    uncancelled run has completed exactly the calls of the plan, every
    frontend on every pattern, then the annotators bucket by bucket, then the
    generators, then the backend, in plan order within a sequential stage; a
    run cancelled before a phase has completed exactly the calls of the
    phases before it. *)
Theorem run_completes_the_plan patterns sk w r :
  the_Run patterns sk (w, r) → r ≠ RunErrNoSink →
  ∃ n, happened (concat (snd <$> take n (planned patterns))) (w_ended w).*1 ∧
    match r with
    | RunCancelled e name => cancelled name = Some e ∧ fst <$> planned patterns !! n = Some name
    | _ => n = length (planned patterns)
    end.
Proof.
  intros Hr Hn. inversion Hr as [|w0 stopped Hs Hp E]; subst; [done|].
  destruct (phases_calls _ _ _ _ _ (phases_planned patterns) Hp) as (n & l & Hl & El & Hst).
  exists n. pose proof (result_ended w0 stopped) as Ee. rewrite E in Ee. simpl in Ee. rewrite Ee, El. split; [done|].
  unfold result in E. destruct stopped as [[e name]|]; simplify_eq; [done|]. by destruct (HasErrors _).
Qed.

(** ** Every run ends *)

Lemma stage_finishes s w : ∃ w', stage_runs s w w'.
Proof.
  destruct s as [ps|ps]; [by eexists; constructor|].
  destruct (pool_finishes ps w) as (ps' & w' & ? & ?). exists w'. by econstructor.
Qed.

Lemma stages_finish ss w : ∃ w', stages_run ss w w'.
Proof.
  revert w. induction ss as [|s ss IH]; intros w; [by eexists; constructor|].
  destruct (stage_finishes s w) as [w1 H1]. destruct (IH w1) as [w2 H2]. exists w2. by econstructor.
Qed.

Lemma phases_finish phs w : ∃ w' stopped, phases_run cancelled phs w w' stopped.
Proof.
  revert w. induction phs as [|[name ss] phs IH]; intros w; [do 2 eexists; constructor|].
  destruct (cancelled name) as [e|] eqn:He; [do 2 eexists; by constructor|].
  destruct (stages_finish ss w) as [w1 H1]. destruct (IH w1) as (w2 & r & H2).
  exists w2, r. by econstructor.
Qed.

Lemma happened_every pl l iv : happened pl l → iv ∈ concat (snd <$> pl) → iv ∈ l.
Proof.
  induction 1 as [|ivs pl l _ IH|ivs ivs' pl l Hp _ IH]; simpl; [done|..]; rewrite !elem_of_app; [tauto|].
  rewrite Hp. tauto.
Qed.

Lemma the_Run_exists patterns sk : ∃ w r, the_Run patterns sk (w, r).
Proof.
  destruct (c_hasSink c) eqn:Hs; [|do 2 eexists; by constructor].
  destruct (phases_finish (the_phases patterns) (start sk)) as (w & stopped & Hp).
  destruct (result c w stopped) as [w' r] eqn:E. exists w', r. rewrite <- E. by apply run_phases.
Qed.

End Laws.
