(* ===== verification/RunOutcome.v ===== *)
(** * pipeline: what a run reports and what it leaves fixed

    The outcome of a run accounts for every plugin failure, and the two views
    of the store are fixed from the phase that freezes them on, for every plan,
    every plugin code and every interleaving of parallel calls. *)

From S2P Require Import Prelude GoStrings Position Diag Meta Directive Plugin Resolve Build Manifest Layout Node StoreIndex StoreOps StoreNodes Emit EmitSlots StoreEmit StoreEmitLaws Cache Run RunLaws.

Local Open Scope string_scope.
Local Open Scope nat_scope.
Local Open Scope list_scope.

Import eview run.

(** ** Properties actions keep *)


Definition stage_progs (s : stage) : list prog := match s with Seq ps | Par ps => ps end.
Definition stages_all (Q : prog → Prop) (ss : list stage) : Prop := Forall (λ s, Forall Q (stage_progs s)) ss.
Definition phases_all (Q : prog → Prop) (phs : list (string * list stage)) : Prop := Forall (λ ph, stages_all Q ph.2) phs.

Section Kept.
Context (P : action → Prop) (P_diag : ∀ d, P (ActDiag d)).
Context (J : world → Prop) (J_perform : ∀ a w, P a → J w → J (perform a w)).





End Kept.


(** ** Plugins that use the operations of the views *)




(** ** Running the calls of a stage in order is one of its schedules *)

Lemma exec_in_pool ps i p w : ps !! i = Some p → rtc pool_step (ps, w) (<[i := PDone]> ps, exec p w).
Proof.
  revert ps w. induction p as [|a k IH|k IH]; intros ps w Hi; simpl.
  - by rewrite list_insert_id.
  - eapply rtc_l; [by apply (step_do i)|]. rewrite <- (list_insert_insert_eq ps i PDone k).
    apply IH. apply list_lookup_insert_eq. by eapply lookup_lt_Some.
  - eapply rtc_l; [by apply (step_ask i)|]. rewrite <- (list_insert_insert_eq ps i PDone (k w)).
    apply IH. apply list_lookup_insert_eq. by eapply lookup_lt_Some.
Qed.

Lemma pool_in_order dead ps w :
  rtc pool_step (replicate dead PDone ++ ps, w)
    (replicate (dead + length ps) PDone, fold_left (λ w p, exec p w) ps w).
Proof.
  revert dead w. induction ps as [|p ps IH]; intros dead w; simpl.
  { by rewrite app_nil_r, Nat.add_0_r. }
  etrans; [apply (exec_in_pool _ dead p)|].
  - rewrite lookup_app_r by by rewrite length_replicate. by rewrite length_replicate, Nat.sub_diag.
  - rewrite insert_app_r_alt by by rewrite length_replicate. rewrite length_replicate, Nat.sub_diag. simpl.
    rewrite Nat.add_succ_r, <- Nat.add_succ_l. specialize (IH (S dead) (exec p w)).
    by rewrite replicate_S_end, <- app_assoc in IH.
Qed.

Lemma stage_exec_runs s w : stage_runs s w (stage_exec s w).
Proof.
  destruct s as [ps|ps]; simpl; [constructor|]. econstructor; [apply (pool_in_order 0)|].
  unfold finished. by apply Forall_replicate.
Qed.

Lemma stages_exec_run ss w : stages_run ss w (fold_left (λ w s, stage_exec s w) ss w).
Proof. revert w. induction ss as [|s ss IH]; intros w; simpl; econstructor; eauto using stage_exec_runs. Qed.

Lemma phases_exec_run cancelled phs w :
  phases_run cancelled phs w (phases_exec cancelled phs w).1 (phases_exec cancelled phs w).2.
Proof.
  revert w. induction phs as [|[name ss] phs IH]; intros w; simpl; [constructor|].
  destruct (cancelled name) as [e|] eqn:He; [by constructor|]. econstructor; eauto using stages_exec_run.
Qed.

(** ** Frozen views stay as they are *)




Section Outcome.
Context (sha quote : string → string) (c : config).
Context (Load : Plugin → string → code) (Annotate Generate Render : Plugin → code).
Context (validate override layout : pass) (manifest : code).
Context (cancelled : string → option string).

Abbreviation the_phases := (phases sha quote c Load Annotate Generate Render validate override layout manifest).
Abbreviation the_Run := (Run sha quote c Load Annotate Generate Render validate override layout manifest cancelled).

(** The function that runs every stage in order computes an outcome. *)
Lemma Run_exec_run patterns sk :
  the_Run patterns sk
    (Run_exec sha quote c Load Annotate Generate Render validate override layout manifest cancelled patterns sk).
Proof.
  unfold Run_exec. destruct (c_hasSink c) eqn:Hs; [|by constructor].
  pose proof (phases_exec_run cancelled (the_phases patterns) (start sk)) as Hp.
  destruct (phases_exec _ _ _) as [w stopped]. by apply run_phases.
Qed.



(** Phases of programs all of which have a property. *)
Lemma phases_from (Q : prog → Prop) patterns :
  (∀ phase f a, Forall Q (stage_progs (logPhaseStart c phase f a))) →
  (∀ fe pat, Q (invokeFrontend sha quote c Load fe pat)) → (∀ an, Q (invokeAnnotator sha quote c Annotate an)) →
  (∀ g, Q (invokeGenerator sha quote c Generate g)) →
  Q (guarded sha quote c (MkInvocation Backend (pl_Backend (c_plan c))) NewReadSet (Render (pl_Backend (c_plan c)))) →
  Q (of_pass validate) → Q (of_pass override) → Q (of_pass layout) → Q (contained manifest) →
  Q (PDo (ActStore (OnNodes NFreeze)) PDone) → Q (PDo (ActStore (OnEmit CFreeze)) PDone) →
  phases_all Q (the_phases patterns).
Proof.
  intros Hl Hf Ha Hg Hb Hv Ho Hy Hm H1 H2.
  assert (∀ {A} (par : bool) (g : A → prog) l, (∀ x, Q (g x)) → Forall Q (stage_progs (if par then Par (g <$> l) else Seq (g <$> l)))) as Hc.
  { intros A par g l Hq. destruct par; by apply Forall_fmap, Forall_true. }
  unfold phases, phases_all, stages_all. rewrite !Forall_cons. split_and!; [..|constructor]; cbn [snd].
  - unfold runFrontends. cbn [app]. rewrite !Forall_cons. split_and!; [apply Hl| |by apply Forall_singleton|by apply Forall_singleton|constructor].
    destruct (c_parallel c PhaseFrontend); apply Forall_bind, Forall_true; intros fe; apply Forall_fmap, Forall_true; intros pat; apply Hf.
  - unfold runAnnotators. apply Forall_app; split; [|by apply Forall_singleton, Forall_singleton].
    apply Forall_cons; split; [apply Hl|]. apply Forall_fmap, Forall_true. intros b. by apply Hc.
  - unfold runGenerators. apply Forall_cons; split; [apply Hl|]. apply Forall_fmap, Forall_true. intros b. by apply Hc.
  - rewrite !Forall_cons. split_and!; [by apply Forall_singleton|by apply Forall_singleton|constructor].
  - unfold runBackend. rewrite !Forall_cons. split_and!; [apply Hl|by apply Forall_singleton|constructor].
  - by apply Forall_singleton, Forall_singleton.
Qed.




Definition explains (p : prog) : Prop := ∀ ds, accountable quote ds p.
Lemma log_explains phase f a : Forall explains (stage_progs (logPhaseStart c phase f a)).
Proof.
  unfold logPhaseStart. destruct (c_verbose c); constructor; [|constructor].
  intros ds. apply quiet_accountable. by repeat constructor.
Qed.

Lemma quiet_explains q : quiet q → explains q.
Proof. intros Hq ds. by apply quiet_accountable. Qed.

Lemma phases_explain patterns : phases_all explains (the_phases patterns).
Proof.
  assert (∀ iv m, explains (guarded sha quote c iv NewReadSet m)) as Hg by (intros ? ? ?; apply guarded_accountable).
  apply phases_from; intros; try apply Hg; try apply log_explains;
    apply quiet_explains; first [apply quiet_of_pass|apply quiet_contained|by repeat constructor].
Qed.

Lemma phases_accounted phs w w' stopped :
  phases_all explains phs →
  phases_run cancelled phs w w' stopped → accounted quote w → accounted quote w'.
Proof.
  intros Hp Hr. induction Hr as [| |name ss rest w w1 w2 r _ Hss _ IH]; [done..|].
  apply Forall_cons in Hp as [Hs Hp]. intros Hw. apply IH; [done|]. clear IH Hp. simpl in Hs.
  induction Hss as [|s ss w w1 w3 Hs1 _ IH]; [done|]. apply Forall_cons in Hs as [Hs Hss].
  apply IH; [done|]. by eapply stage_accounted.
Qed.

Lemma result_accounted w stopped : accounted quote w → accounted quote (result c w stopped).1.
Proof.
  intros [Hd He]. unfold result, logRunSummary. destruct stopped as [[]|]; [done|]. destruct (c_verbose c); [|done].
  cbn [fst]. destruct (perform_diags (ActDiag (MkDiag Info "pipeline" zero_pos (Sprintf
    "run complete: %d error(s), %d warning(s), %d info" [AInt (Z.of_nat (Count (w_diag w) Error));
    AInt (Z.of_nat (Count (w_diag w) Warn)); AInt (Z.of_nat (Count (w_diag w) Info))]) "")) w Hd) as [Hd' E].
  split; [done|]. intros iv how Hin. rewrite E. eapply explained_mono; [|by apply He]. set_solver.
Qed.

Lemma explained_failure ds iv how : explained quote ds iv how → how = Finished ∨ has_errors_loop ds = true.
Proof.
  destruct how as [|e|v]; simpl; [by left|..]; intros H; right; apply has_errors_loop_spec.
  - exists (reportPluginError quote iv e). split; [done|]. unfold reportPluginError. by destruct (pe_frozen e).
  - destruct H as [stack H]. by exists (recovered (p_name (iv_plugin iv)) v stack).
Qed.

(** C10: no failure goes unreported: on a sink that records, every call that
    returned an error has left the diagnostic [reportPluginError] builds for
    it, every call that panicked the one [RecoverAs] builds for it, a run
    that returns nil had no error diagnostic and all its calls finished, and
    a run that is not cancelled and has an error diagnostic returns
    [ErrRunHadErrors] with the layout errors of this run. *)
Theorem run_reports_failures patterns sk w r :
  discard sk = false → the_Run patterns sk (w, r) →
  (∀ iv e, (iv, Failed e) ∈ w_ended w → reportPluginError quote iv e ∈ diags (w_diag w)) ∧
  (∀ iv v, (iv, Crashed v) ∈ w_ended w → ∃ stack, recovered (p_name (iv_plugin iv)) v stack ∈ diags (w_diag w)) ∧
  (r = RunOk → HasErrors (w_diag w) = false ∧ ∀ iv how, (iv, how) ∈ w_ended w → how = Finished) ∧
  (HasErrors (w_diag w) = true →
   match r with RunOk => False | RunHadErrors es => es = w_layoutErrs w | RunErrNoSink | RunCancelled _ _ => True end).
Proof.
  intros Hd Hr. assert (accounted quote w) as [Hw Ha].
  { inversion Hr as [|w0 stopped _ Hp E]; subst; [by split; [|intros ? ? ?%elem_of_nil]|].
    replace w with (w, r).1 by done. rewrite <- E. apply result_accounted.
    eapply phases_accounted; [apply phases_explain|exact Hp|]. by split; [|intros ? ? ?%elem_of_nil]. }
  split_and!.
  - intros iv e Hin. by apply (Ha iv (Failed e)).
  - intros iv v Hin. by apply (Ha iv (Crashed v)).
  - intros ->. assert (HasErrors (w_diag w) = false) as Hh.
    { inversion Hr as [|w0 stopped _ _ E]; subst. unfold result in E. destruct stopped as [[]|]; simplify_eq.
      by destruct (HasErrors _) eqn:?; simplify_eq. }
    split; [done|]. intros iv how Hin. destruct (explained_failure _ _ _ (Ha iv how Hin)) as [?|He]; [done|].
    unfold HasErrors in Hh. congruence.
  - intros Hh. inversion Hr as [|w0 stopped _ _ E]; subst; [done|]. unfold result in E.
    destruct stopped as [[]|]; simplify_eq; [done|]. by rewrite Hh.
Qed.
End Outcome.

(** ** A concrete run *)

(** Two frontends that run in parallel, one of which panics on its second
    pattern, an annotator that fails because it writes to the frozen view, a
    generator and a backend that writes a file. *)
Definition demo_load (fe : Plugin) (pattern : string) : code :=
  if String.eqb pattern "./b" && String.eqb (p_name fe) "scan" then CPanic "nil map" "stack"
  else CStore (OnNodes (NAddPackage None)) (CReturn None).
Definition demo_annotate (_ : Plugin) : code :=
  CRead "node" (CAsk (λ w, if StoreNodes.IsFrozen (Nodes (w_store w))
                           then CReturn (Some (MkPluginError true "store: frozen")) else CReturn None)).
Definition demo_generate (_ : Plugin) : code :=
  CStore (OnEmit (CFileFor 7 (MkTarget "out" "x.go" "out" ""))) (CReturn None).
Definition demo_render (_ : Plugin) : code := CWrite (MkTarget "out" "x.go" "out" "") "package out" (CReturn None).

Definition demo_plan : Plan :=
  MkPlan [plain_plugin 1 "scan"; plain_plugin 2 "proto"] [plain_plugin 3 "shape"]
    [Resolve.MkBucket 100%Z [plain_plugin 3 "shape"]] [plain_plugin 4 "mock"]
    [Resolve.MkBucket 300%Z [plain_plugin 4 "mock"]] (plain_plugin 5 "go").
Definition demo_config : config :=
  MkConfig [plain_plugin 1 "scan"; plain_plugin 2 "proto"] [plain_plugin 3 "shape"] [plain_plugin 4 "mock"] demo_plan
    true (λ p, match p with PhaseFrontend => true | _ => false end) true "" ""
    (λ _, MkPolicy "" LayerFramework "" LayerFramework "" LayerFramework) (λ _, None) (λ _, None).

Definition demo_sha (s : string) : string := s.
Definition demo_phases : list string → list (string * list stage) :=
  phases demo_sha demo_sha demo_config demo_load demo_annotate demo_generate demo_render QDone QDone QDone (CReturn None).
Definition demo_run (sk : Sink) : world * RunResult :=
  Run_exec demo_sha demo_sha demo_config demo_load demo_annotate demo_generate demo_render QDone QDone QDone
    (CReturn None) (λ _, None) ["./a"; "./b"] sk.

Lemma demo_is_run sk :
  Run demo_sha demo_sha demo_config demo_load demo_annotate demo_generate demo_render QDone QDone QDone
    (CReturn None) (λ _, None) ["./a"; "./b"] sk (demo_run sk).
Proof. apply Run_exec_run. Qed.


Lemma run_reports_failures_witness :
  (demo_run Diag.New).2 = RunHadErrors [] ∧ length (w_ended (demo_run Diag.New).1) = 7 ∧
  reportPluginError demo_sha (MkInvocation Annotator (plain_plugin 3 "shape")) (MkPluginError true "store: frozen")
    ∈ diags (w_diag (demo_run Diag.New).1).
Proof.
  split_and!; [vm_compute; reflexivity|vm_compute; reflexivity|].
  apply (run_reports_failures demo_sha demo_sha demo_config demo_load demo_annotate demo_generate demo_render
    QDone QDone QDone (CReturn None) (λ _, None) ["./a"; "./b"] Diag.New (demo_run Diag.New).1 (demo_run Diag.New).2).
  - reflexivity.
  - rewrite <- surjective_pairing. apply demo_is_run.
  - vm_compute. do 4 right. left.
Defined.

Lemma run_completes_the_plan_witness :
  ∃ n, happened (concat (snd <$> take n (planned demo_config ["./a"; "./b"]))) (w_ended (demo_run Diag.New).1).*1 ∧ n = 6.
Proof.
  apply (run_completes_the_plan demo_sha demo_sha demo_config demo_load demo_annotate demo_generate demo_render
    QDone QDone QDone (CReturn None) (λ _, None) ["./a"; "./b"] Diag.New (demo_run Diag.New).1 (RunHadErrors [])); [|done].
  replace (RunHadErrors []) with (demo_run Diag.New).2 by (vm_compute; reflexivity).
  rewrite <- surjective_pairing. apply demo_is_run.
Defined.

(** ** A second run *)

(** [resetRunState] leaves the diagnostic sink alone, so a run whose calls all
    finish returns [ErrRunHadErrors] when an earlier run on the same pipeline
    had reported an error. *)
Theorem errors_outlive_the_run :
  let clean sk := Run_exec demo_sha demo_sha demo_config (λ _ _, CReturn None) (λ _, CReturn None) (λ _, CReturn None)
    (λ _, CReturn None) QDone QDone QDone (CReturn None) (λ _, None) ["./a"] sk in
  (clean Diag.New).2 = RunOk ∧
  (clean (w_diag (demo_run Diag.New).1)).2 = RunHadErrors [] ∧
  Forall (λ x, x.2 = Finished) (w_ended (clean (w_diag (demo_run Diag.New).1)).1).
Proof. split_and!; [vm_compute; reflexivity..|]. vm_compute. by repeat constructor. Qed.
