(* ===== verification/Reader.v ===== *)
(** * store: the reader of a plugin

    [reader.go], [resolve.go], [method_set.go] and [predicates.go] of
    [src/store]: the handle through which a plugin queries the store, which
    records in a read set what it was asked for.

    A reader is the store, the scope predicate and the read set.  The store
    and the scope do not change during a call, so they are the argument
    [Reader]; the read set is threaded. *)

From S2P Require Import Prelude GoStrings Position Meta Directive Node NodeQueries MethodSet MethodSetLaws StoreIndex StoreOps StoreNodes Emit StoreEmit.

Local Open Scope string_scope.
Local Open Scope nat_scope.
Local Open Scope list_scope.

Module reader.
Import eview(Store, Nodes, s_nodes, s_emit, e_metas).

(** ** [reader.go] *)

Record Reader := MkReader { r_store : Store; r_scope : option (Node → bool) }.

Definition NewReader (s : Store) : Reader * ReadSet := (MkReader s None, NewReadSet).
Definition NewScopedReader (s : Store) (scope : option (Node → bool)) : Reader * ReadSet :=
  let '(r, reads) := NewReader s in (MkReader (r_store r) scope, reads).

(** [as_node] is the conversion to the [node.Node] interface. *)
Fixpoint scope_loop {T} (p : T → bool) (items out : list T) : list T :=
  match items with
  | [] => out
  | x :: items => scope_loop p items (if p x then out ++ [x] else out)
  end.
Definition applyScope {T} (as_node : T → Node) (r : Reader) (items : list T) : list T :=
  match r_scope r with
  | None => items
  | Some p => scope_loop (λ x, p (as_node x)) items []
  end.

Definition Packages (r : Reader) : Query Package :=
  newQuery (applyScope NPackage r (itemsRef (StoreNodes.Packages (Nodes (r_store r))))) "node:packages".
Definition Files (r : Reader) : Query File :=
  newQuery (applyScope NFile r (itemsRef (StoreNodes.Files (Nodes (r_store r))))) "node:files".
Definition Imports (r : Reader) : Query Import :=
  newQuery (applyScope NImport r (itemsRef (StoreNodes.Imports (Nodes (r_store r))))) "node:imports".
Definition Structs (r : Reader) : Query Struct :=
  newQuery (applyScope NStruct r (itemsRef (StoreNodes.Structs (Nodes (r_store r))))) "node:structs".
Definition Interfaces (r : Reader) : Query Interface :=
  newQuery (applyScope NInterface r (itemsRef (StoreNodes.Interfaces (Nodes (r_store r))))) "node:interfaces".
Definition Methods (r : Reader) : Query Method :=
  newQuery (applyScope NMethod r (itemsRef (StoreNodes.Methods (Nodes (r_store r))))) "node:methods".
Definition Fields (r : Reader) : Query Field :=
  newQuery (applyScope NField r (itemsRef (StoreNodes.Fields (Nodes (r_store r))))) "node:fields".
Definition Functions (r : Reader) : Query Function_ :=
  newQuery (applyScope NFunction r (itemsRef (StoreNodes.Functions (Nodes (r_store r))))) "node:functions".
Definition Variables (r : Reader) : Query Variable_ :=
  newQuery (applyScope NVariable r (itemsRef (StoreNodes.Variables (Nodes (r_store r))))) "node:variables".
Definition Constants (r : Reader) : Query Constant :=
  newQuery (applyScope NConstant r (itemsRef (StoreNodes.Constants (Nodes (r_store r))))) "node:constants".
Definition Enums (r : Reader) : Query Enum :=
  newQuery (applyScope NEnum r (itemsRef (StoreNodes.Enums (Nodes (r_store r))))) "node:enums".
Definition EnumVariants (r : Reader) : Query EnumVariant :=
  newQuery (applyScope NEnumVariant r (itemsRef (StoreNodes.EnumVariants (Nodes (r_store r))))) "node:enum_variants".
Definition Aliases (r : Reader) : Query Alias :=
  newQuery (applyScope NAlias r (itemsRef (StoreNodes.Aliases (Nodes (r_store r))))) "node:aliases".

Definition EmitPackages (r : Reader) : Query emit.Package :=
  newQuery (Items (eview.Packages (eview.Emit (r_store r)))) "emit:packages".
Definition EmitFiles (r : Reader) : Query emit.File :=
  newQuery (Items (eview.Files (eview.Emit (r_store r)))) "emit:files".
Definition EmitImports (r : Reader) : Query emit.Import :=
  newQuery (Items (eview.Imports (eview.Emit (r_store r)))) "emit:imports".
Definition EmitStructs (r : Reader) : Query emit.Struct :=
  newQuery (Items (eview.Structs (eview.Emit (r_store r)))) "emit:structs".
Definition EmitInterfaces (r : Reader) : Query emit.Interface :=
  newQuery (Items (eview.Interfaces (eview.Emit (r_store r)))) "emit:interfaces".
Definition EmitMethods (r : Reader) : Query emit.Method :=
  newQuery (Items (eview.Methods (eview.Emit (r_store r)))) "emit:methods".
Definition EmitFields (r : Reader) : Query emit.Field :=
  newQuery (Items (eview.Fields (eview.Emit (r_store r)))) "emit:fields".
Definition EmitFunctions (r : Reader) : Query emit.Function_ :=
  newQuery (Items (eview.Functions (eview.Emit (r_store r)))) "emit:functions".
Definition EmitVariables (r : Reader) : Query emit.Variable_ :=
  newQuery (Items (eview.Variables (eview.Emit (r_store r)))) "emit:variables".
Definition EmitConstants (r : Reader) : Query emit.Constant :=
  newQuery (Items (eview.Constants (eview.Emit (r_store r)))) "emit:constants".
Definition EmitEnums (r : Reader) : Query emit.Enum :=
  newQuery (Items (eview.Enums (eview.Emit (r_store r)))) "emit:enums".
Definition EmitEnumVariants (r : Reader) : Query emit.EnumVariant :=
  newQuery (Items (eview.EnumVariants (eview.Emit (r_store r)))) "emit:enum_variants".
Definition EmitAliases (r : Reader) : Query emit.Alias :=
  newQuery (Items (eview.Aliases (eview.Emit (r_store r)))) "emit:aliases".

(** ** [resolve.go] *)

(** [lookup] *)
Definition lookup {T} (as_node : T → Node) (prefix qname : string) (b : Bucket T) (reads : ReadSet)
    : ReadSet * option Node :=
  (Record_ reads (prefix +:+ qname), as_node <$> ByQName b qname).

Definition ref_qname (t : TypeRef) : string :=
  if String.eqb (t_Package t) "" then t_Name t else t_Package t +:+ "." +:+ t_Name t.

(** The next bucket is consulted when this one does not answer. *)
Definition or_lookup (m : ReadSet * option Node) (k : ReadSet → ReadSet * option Node) : ReadSet * option Node :=
  match m.2 with Some n => m | None => k m.1 end.

Definition Resolve (r : Reader) (t : option TypeRef) (reads : ReadSet) : ReadSet * option Node :=
  match t with
  | None => (reads, None)
  | Some t =>
      if String.eqb (t_Name t) "" then (reads, None)
      else
        let nodes := Nodes (r_store r) in
        or_lookup (lookup NAlias "node:alias:" (ref_qname t) (StoreNodes.Aliases nodes) reads) (λ reads,
        or_lookup (lookup NStruct "node:struct:" (ref_qname t) (StoreNodes.Structs nodes) reads) (λ reads,
        or_lookup (lookup NInterface "node:interface:" (ref_qname t) (StoreNodes.Interfaces nodes) reads) (λ reads,
        or_lookup (lookup NEnum "node:enum:" (ref_qname t) (StoreNodes.Enums nodes) reads) (λ reads,
        (reads, None)))))
  end.

Definition PackageAt (r : Reader) (path : string) (reads : ReadSet) : ReadSet * option Package :=
  (Record_ reads ("node:package:" +:+ path), ByQName (StoreNodes.Packages (Nodes (r_store r))) path).
Definition FileAt (r : Reader) (path : string) (reads : ReadSet) : ReadSet * option File :=
  (Record_ reads ("node:file:" +:+ path), ByQName (StoreNodes.Files (Nodes (r_store r))) path).

(** ** [method_set.go] *)

Definition resolveInterface (r : Reader) (t : TypeRef) (reads : ReadSet) : option Interface * bool * ReadSet :=
  let qname := ref_qname t in
  let nodes := Nodes (r_store r) in
  let reads := Record_ reads ("node:interface:" +:+ qname) in
  match ByQName (StoreNodes.Interfaces nodes) qname with
  | Some iface => (Some iface, true, reads)
  | None =>
      (None, List.existsb (λ present : string → bool, present qname)
               [(λ q, match ByQName (StoreNodes.Structs nodes) q with Some _ => true | None => false end);
                (λ q, match ByQName (StoreNodes.Enums nodes) q with Some _ => true | None => false end);
                (λ q, match ByQName (StoreNodes.Aliases nodes) q with Some _ => true | None => false end)], reads)
  end.

Definition MethodSet (fuel : nat) (r : Reader) (i : option Interface) (reads : ReadSet)
    : option (MethodSetResult * ReadSet) :=
  MethodSet.MethodSet (Some (resolveInterface r)) fuel i reads.

Fixpoint satisfies (s : Struct) (required : list Method) : bool :=
  match required with
  | [] => true
  | m :: required => if negb (Declares (s_Methods s) (m_Name m)) then false else satisfies s required
  end.

Fixpoint implementers_loop (required : list Method) (l out : list Struct) : list Struct :=
  match l with
  | [] => out
  | s :: l => implementers_loop required l (if satisfies s required then out ++ [s] else out)
  end.

Definition Implementers (fuel : nat) (r : Reader) (i : option Interface) (reads : ReadSet)
    : option (ReadSet * list Struct) :=
  match MethodSet fuel r i reads with
  | None => None
  | Some (set, reads) =>
      if negb (OK set) || (length (ms_Methods set) =? 0) then Some (reads, [])
      else
        let '(reads, structs) := Slice (Structs r) reads in
        Some (reads, implementers_loop (ms_Methods set) structs [])
  end.

(** ** [predicates.go] *)

(** The two carrier interfaces, which nodes of both sides implement; a bag is
    found in the heap of its side. *)
Class directiveCarrier (T : Type) := carried_directive : T → string → bool.
Class metaCarrier (T : Type) := carried_bag : metas → T → option Bag.

#[global] Instance node_directives : directiveCarrier Node := λ n name, base_HasDirective (node_base n) name.
#[global] Instance emit_directives : directiveCarrier emit.Node_ := λ n name, emit.base_HasDirective (emit.node_base n) name.
#[global] Instance node_bags : metaCarrier Node := λ h n, base_Meta h (node_base n).
#[global] Instance emit_bags : metaCarrier emit.Node_ := λ h n, emit.base_Meta h (emit.node_base n).

Definition WithDirective `{directiveCarrier T} (name : string) (v : T) : bool := carried_directive v name.
Definition WithMeta `{metaCarrier T} (h : metas) (name : string) (v : T) : bool := Has (carried_bag h v) name.
Definition WithMetaKey `{metaCarrier T} (h : metas) (k : Key) (v : T) : run bool := Key_Has k (carried_bag h v).

(** [==] on the comparable value types; slices and raw values are excluded by
    the type constraint. *)
Definition comparable_eq (v w : value) : bool :=
  match v, w with
  | VBool a, VBool b => Bool.eqb a b
  | VString a, VString b => String.eqb a b
  | VInt a, VInt b => Z.eqb a b
  | _, _ => false
  end.
Definition MetaEq `{metaCarrier T} (h : metas) (k : Key) (want : value) (v : T) : run bool :=
  match Get k (carried_bag h v) with
  | Returns (Some got) => Returns (comparable_eq got want)
  | Returns None => Returns false
  | Panics w => Panics w
  end.

Section Predicates.
Context {A : Type}.

Fixpoint And (preds : list (A → bool)) (v : A) : bool :=
  match preds with
  | [] => true
  | p :: preds => if negb (p v) then false else And preds v
  end.

Fixpoint Or (preds : list (A → bool)) (v : A) : bool :=
  match preds with
  | [] => false
  | p :: preds => if p v then true else Or preds v
  end.

Definition Not (pred : A → bool) (v : A) : bool := negb (pred v).

End Predicates.
End reader.

(** * store: what a read set is good for

    The read set of a plugin is its fingerprint: what a plugin computes
    through its reader depends on nothing but the entries its read set names
    ([tracked]), a scope narrows range queries and nothing else, and
    [Implementers] answers the structs that declare every method the
    interface has. *)

Import eview(Store, Nodes, s_nodes, s_emit).
Import reader.

(** ** Two stores that agree on what a read set names *)

Record agree_on (rs : ReadSet) (s s' : Store) : Prop := {
  same_packages : "node:packages" ∈ rs → itemsRef (StoreNodes.Packages (Nodes s)) = itemsRef (StoreNodes.Packages (Nodes s'));
  same_files : "node:files" ∈ rs → itemsRef (StoreNodes.Files (Nodes s)) = itemsRef (StoreNodes.Files (Nodes s'));
  same_imports : "node:imports" ∈ rs → itemsRef (StoreNodes.Imports (Nodes s)) = itemsRef (StoreNodes.Imports (Nodes s'));
  same_structs : "node:structs" ∈ rs → itemsRef (StoreNodes.Structs (Nodes s)) = itemsRef (StoreNodes.Structs (Nodes s'));
  same_interfaces : "node:interfaces" ∈ rs → itemsRef (StoreNodes.Interfaces (Nodes s)) = itemsRef (StoreNodes.Interfaces (Nodes s'));
  same_methods : "node:methods" ∈ rs → itemsRef (StoreNodes.Methods (Nodes s)) = itemsRef (StoreNodes.Methods (Nodes s'));
  same_fields : "node:fields" ∈ rs → itemsRef (StoreNodes.Fields (Nodes s)) = itemsRef (StoreNodes.Fields (Nodes s'));
  same_functions : "node:functions" ∈ rs → itemsRef (StoreNodes.Functions (Nodes s)) = itemsRef (StoreNodes.Functions (Nodes s'));
  same_variables : "node:variables" ∈ rs → itemsRef (StoreNodes.Variables (Nodes s)) = itemsRef (StoreNodes.Variables (Nodes s'));
  same_constants : "node:constants" ∈ rs → itemsRef (StoreNodes.Constants (Nodes s)) = itemsRef (StoreNodes.Constants (Nodes s'));
  same_enums : "node:enums" ∈ rs → itemsRef (StoreNodes.Enums (Nodes s)) = itemsRef (StoreNodes.Enums (Nodes s'));
  same_enum_variants : "node:enum_variants" ∈ rs → itemsRef (StoreNodes.EnumVariants (Nodes s)) = itemsRef (StoreNodes.EnumVariants (Nodes s'));
  same_aliases : "node:aliases" ∈ rs → itemsRef (StoreNodes.Aliases (Nodes s)) = itemsRef (StoreNodes.Aliases (Nodes s'));
  same_emit_packages : "emit:packages" ∈ rs → Items (eview.Packages (eview.Emit s)) = Items (eview.Packages (eview.Emit s'));
  same_emit_files : "emit:files" ∈ rs → Items (eview.Files (eview.Emit s)) = Items (eview.Files (eview.Emit s'));
  same_emit_imports : "emit:imports" ∈ rs → Items (eview.Imports (eview.Emit s)) = Items (eview.Imports (eview.Emit s'));
  same_emit_structs : "emit:structs" ∈ rs → Items (eview.Structs (eview.Emit s)) = Items (eview.Structs (eview.Emit s'));
  same_emit_interfaces : "emit:interfaces" ∈ rs → Items (eview.Interfaces (eview.Emit s)) = Items (eview.Interfaces (eview.Emit s'));
  same_emit_methods : "emit:methods" ∈ rs → Items (eview.Methods (eview.Emit s)) = Items (eview.Methods (eview.Emit s'));
  same_emit_fields : "emit:fields" ∈ rs → Items (eview.Fields (eview.Emit s)) = Items (eview.Fields (eview.Emit s'));
  same_emit_functions : "emit:functions" ∈ rs → Items (eview.Functions (eview.Emit s)) = Items (eview.Functions (eview.Emit s'));
  same_emit_variables : "emit:variables" ∈ rs → Items (eview.Variables (eview.Emit s)) = Items (eview.Variables (eview.Emit s'));
  same_emit_constants : "emit:constants" ∈ rs → Items (eview.Constants (eview.Emit s)) = Items (eview.Constants (eview.Emit s'));
  same_emit_enums : "emit:enums" ∈ rs → Items (eview.Enums (eview.Emit s)) = Items (eview.Enums (eview.Emit s'));
  same_emit_enum_variants : "emit:enum_variants" ∈ rs → Items (eview.EnumVariants (eview.Emit s)) = Items (eview.EnumVariants (eview.Emit s'));
  same_emit_aliases : "emit:aliases" ∈ rs → Items (eview.Aliases (eview.Emit s)) = Items (eview.Aliases (eview.Emit s'));
  same_alias q : "node:alias:" +:+ q ∈ rs → ByQName (StoreNodes.Aliases (Nodes s)) q = ByQName (StoreNodes.Aliases (Nodes s')) q;
  same_struct q : "node:struct:" +:+ q ∈ rs → ByQName (StoreNodes.Structs (Nodes s)) q = ByQName (StoreNodes.Structs (Nodes s')) q;
  same_interface q : "node:interface:" +:+ q ∈ rs → ByQName (StoreNodes.Interfaces (Nodes s)) q = ByQName (StoreNodes.Interfaces (Nodes s')) q;
  same_enum q : "node:enum:" +:+ q ∈ rs → ByQName (StoreNodes.Enums (Nodes s)) q = ByQName (StoreNodes.Enums (Nodes s')) q;
  same_package q : "node:package:" +:+ q ∈ rs → ByQName (StoreNodes.Packages (Nodes s)) q = ByQName (StoreNodes.Packages (Nodes s')) q;
  same_file q : "node:file:" +:+ q ∈ rs → ByQName (StoreNodes.Files (Nodes s)) q = ByQName (StoreNodes.Files (Nodes s')) q;
}.

Lemma agree_on_mono rs rs' s s' : rs ⊆ rs' → agree_on rs' s s' → agree_on rs s s'.
Proof. intros Hs []. split; auto. Qed.

(** A computation over a reader: it only adds to the read set, and a store
    that agrees on the read set it ends with gives the same run. *)
Definition tracked {A} (f : Store → ReadSet → ReadSet * A) : Prop :=
  ∀ s rs, rs ⊆ (f s rs).1 ∧ ∀ s', agree_on (f s rs).1 s s' → f s' rs = f s rs.

Definition ret {A} (a : A) : Store → ReadSet → ReadSet * A := λ _ rs, (rs, a).
Definition bind {A B} (m : Store → ReadSet → ReadSet * A) (k : A → Store → ReadSet → ReadSet * B)
    : Store → ReadSet → ReadSet * B :=
  λ s rs, let '(rs, a) := m s rs in k a s rs.

Lemma tracked_ret {A} (a : A) : tracked (ret a).
Proof. by intros s rs. Qed.

Lemma tracked_bind {A B} m (k : A → Store → ReadSet → ReadSet * B) :
  tracked m → (∀ a, tracked (k a)) → tracked (bind m k).
Proof.
  intros Hm Hk s rs. unfold bind. destruct (Hm s rs) as [Hm1 Hm2]. destruct (m s rs) as [rs1 a] eqn:Em. simpl in *.
  destruct (Hk a s rs1) as [Hk1 Hk2]. split; [by etrans|]. intros s' Ha.
  rewrite (Hm2 s') by by eapply agree_on_mono. by apply Hk2.
Qed.

Lemma record_sub rs key : rs ⊆ Record_ rs key.
Proof. unfold Record_. set_solver. Qed.
Lemma record_in rs key : key ∈ Record_ rs key.
Proof. unfold Record_. set_solver. Qed.

(** The queries a reader offers, with any predicates. *)
Inductive reader_query (scope : option (Node → bool)) : ∀ {T}, (Store → Query T) → Prop :=
| rq_Packages : reader_query scope (λ s, Packages (MkReader s scope))
| rq_Files : reader_query scope (λ s, Files (MkReader s scope))
| rq_Imports : reader_query scope (λ s, Imports (MkReader s scope))
| rq_Structs : reader_query scope (λ s, Structs (MkReader s scope))
| rq_Interfaces : reader_query scope (λ s, Interfaces (MkReader s scope))
| rq_Methods : reader_query scope (λ s, Methods (MkReader s scope))
| rq_Fields : reader_query scope (λ s, Fields (MkReader s scope))
| rq_Functions : reader_query scope (λ s, Functions (MkReader s scope))
| rq_Variables : reader_query scope (λ s, Variables (MkReader s scope))
| rq_Constants : reader_query scope (λ s, Constants (MkReader s scope))
| rq_Enums : reader_query scope (λ s, Enums (MkReader s scope))
| rq_EnumVariants : reader_query scope (λ s, EnumVariants (MkReader s scope))
| rq_Aliases : reader_query scope (λ s, Aliases (MkReader s scope))
| rq_EmitPackages : reader_query scope (λ s, EmitPackages (MkReader s scope))
| rq_EmitFiles : reader_query scope (λ s, EmitFiles (MkReader s scope))
| rq_EmitImports : reader_query scope (λ s, EmitImports (MkReader s scope))
| rq_EmitStructs : reader_query scope (λ s, EmitStructs (MkReader s scope))
| rq_EmitInterfaces : reader_query scope (λ s, EmitInterfaces (MkReader s scope))
| rq_EmitMethods : reader_query scope (λ s, EmitMethods (MkReader s scope))
| rq_EmitFields : reader_query scope (λ s, EmitFields (MkReader s scope))
| rq_EmitFunctions : reader_query scope (λ s, EmitFunctions (MkReader s scope))
| rq_EmitVariables : reader_query scope (λ s, EmitVariables (MkReader s scope))
| rq_EmitConstants : reader_query scope (λ s, EmitConstants (MkReader s scope))
| rq_EmitEnums : reader_query scope (λ s, EmitEnums (MkReader s scope))
| rq_EmitEnumVariants : reader_query scope (λ s, EmitEnumVariants (MkReader s scope))
| rq_EmitAliases : reader_query scope (λ s, EmitAliases (MkReader s scope))
| rq_Where T (q : Store → Query T) p : reader_query scope q → reader_query scope (λ s, Where (q s) p).

(** A query is fixed by its source: its tag does not depend on the store, and
    a store that agrees on the tag gives the same query. *)
Lemma reader_query_fixed scope T (q : Store → Query T) rs s s' :
  reader_query scope q → tag (q s') = tag (q s) ∧ (tag (q s) ∈ rs → agree_on rs s s' → q s' = q s).
Proof.
  induction 1 as [ | | | | | | | | | | | | | | | | | | | | | | | | | |T q p _ IH];
    try (split; [done|]; intros Hin [];
         unfold reader.Packages, reader.Files, reader.Imports, reader.Structs, reader.Interfaces, reader.Methods, reader.Fields, reader.Functions, reader.Variables, reader.Constants, reader.Enums, reader.EnumVariants, reader.Aliases,
           EmitPackages, EmitFiles, EmitImports, EmitStructs, EmitInterfaces, EmitMethods, EmitFields, EmitFunctions, EmitVariables, EmitConstants, EmitEnums, EmitEnumVariants, EmitAliases in *;
         cbn [tag newQuery] in Hin; unfold applyScope; cbn [r_store r_scope];
         repeat match goal with H : ?k ∈ rs → _ |- _ => first [rewrite (H Hin); done | clear H] end).
  destruct IH as [Ht Hq], (where_frame (q s) p) as [_ E1], (where_frame (q s') p) as [_ E2].
  rewrite E1, E2. split; [done|]. intros Hin Ha. by rewrite Hq.
Qed.

Lemma tracked_query scope T (q : Store → Query T) {A} (go : Query T → ReadSet → ReadSet * A) :
  (∀ q rs, (go q rs).1 = recordRead q rs) → reader_query scope q → tracked (λ s, go (q s)).
Proof.
  intros Hg Hq s rs. rewrite Hg. split; [apply record_sub|]. intros s' Ha.
  destruct (reader_query_fixed scope T q (recordRead (q s) rs) s s' Hq) as [_ E].
  rewrite E; [done|apply record_in|done].
Qed.

Lemma tracked_lookup {T} (as_node : T → Node) prefix qname (b : Store → Bucket T) :
  (∀ s s' rs, prefix +:+ qname ∈ rs → agree_on rs s s' → ByQName (b s) qname = ByQName (b s') qname) →
  tracked (λ s, lookup as_node prefix qname (b s)).
Proof.
  intros Hb s rs. simpl. split; [apply record_sub|]. intros s' Ha. unfold lookup.
  by rewrite (Hb s s' (Record_ rs (prefix +:+ qname)) (record_in _ _) Ha).
Qed.

Lemma tracked_or m (k : Store → ReadSet → ReadSet * option Node) :
  tracked m → tracked k → tracked (λ s rs, or_lookup (m s rs) (k s)).
Proof.
  intros Hm Hk. assert (tracked (bind m (λ o, match o with Some n => ret (Some n) | None => k end))) as Hb.
  { apply tracked_bind; [done|]. intros [n|]; [apply tracked_ret|done]. }
  assert (∀ s rs, or_lookup (m s rs) (k s) =
    bind m (λ o, match o with Some n => ret (Some n) | None => k end) s rs) as E.
  { intros s rs. unfold or_lookup, bind. by destruct (m s rs) as [rs' [n|]]. }
  intros s rs. rewrite E. destruct (Hb s rs) as [H1 H2]. split; [done|]. intros s' Ha. rewrite E. auto.
Qed.

Lemma tracked_Resolve scope t : tracked (λ s, Resolve (MkReader s scope) t).
Proof.
  unfold Resolve. destruct t as [t|]; [|apply tracked_ret]. destruct (String.eqb (t_Name t) ""); [apply tracked_ret|].
  cbn [r_store].
  repeat (refine (tracked_or (λ s, lookup _ _ _ _) _ _ _); [apply tracked_lookup; intros s s' rs Hin []; auto|]).
  apply tracked_ret.
Qed.

(** C37: a read set is a sound fingerprint: whatever a plugin computes by
    resolving references, looking up packages and files and running the
    terminals of the reader's queries, under any predicates and with later
    calls depending on earlier answers, it gets the same answers and the same
    read set from every store that agrees with this one on the entries its
    read set names.  So an edit that changes what the plugin sees is an edit
    of something it has recorded. *)
Theorem fingerprints_are_sound scope :
  (∀ A (a : A), tracked (ret a)) ∧
  (∀ A B m (k : A → Store → ReadSet → ReadSet * B), tracked m → (∀ a, tracked (k a)) → tracked (bind m k)) ∧
  (∀ t, tracked (λ s, Resolve (MkReader s scope) t)) ∧
  (∀ p, tracked (λ s, PackageAt (MkReader s scope) p)) ∧
  (∀ p, tracked (λ s, FileAt (MkReader s scope) p)) ∧
  (∀ T (q : Store → Query T), reader_query scope q →
     (∀ X (fn : T → X → X) x, tracked (λ s rs, Each (q s) fn rs x)) ∧
     (∀ X (yield : T → X → X * bool) x, tracked (λ s rs, Query_All (q s) yield rs x)) ∧
     tracked (λ s, Slice (q s)) ∧ tracked (λ s, First (q s)) ∧ tracked (λ s, Query_Count (q s))).
Proof.
  split_and!; [intros; apply tracked_ret|intros; by apply tracked_bind|apply tracked_Resolve|..].
  - intros p s rs. split; [apply record_sub|]. intros s' []. unfold PackageAt. cbn [r_store].
    by rewrite same_package0 by apply record_in.
  - intros p s rs. split; [apply record_sub|]. intros s' []. unfold FileAt. cbn [r_store].
    by rewrite same_file0 by apply record_in.
  - intros T q Hq. split_and!.
    + intros X fn x. by apply (tracked_query scope T q (λ q rs, Each q fn rs x)).
    + intros X fn x. by apply (tracked_query scope T q (λ q rs, Query_All q fn rs x)).
    + by apply (tracked_query scope T q Slice).
    + by apply (tracked_query scope T q First).
    + by apply (tracked_query scope T q Query_Count).
Qed.

(** ** Implementers *)

Lemma scope_loop_filter {T} (p : T → bool) l out : scope_loop p l out = out ++ List.filter p l.
Proof.
  revert out. induction l as [|x l IH]; intros out; simpl; [by rewrite app_nil_r|].
  rewrite IH. destruct (p x); [by rewrite <- app_assoc|done].
Qed.

Lemma implementers_loop_filter required l out :
  implementers_loop required l out = out ++ List.filter (λ s, satisfies s required) l.
Proof.
  revert out. induction l as [|x l IH]; intros out; simpl; [by rewrite app_nil_r|].
  rewrite IH. destruct (satisfies x required); [by rewrite <- app_assoc|done].
Qed.

Lemma satisfies_forallb s required : satisfies s required = forallb (λ m, Declares (s_Methods s) (m_Name m)) required.
Proof. induction required as [|m required IH]; simpl; [done|]. by destruct (Declares _ _). Qed.

Lemma resolver_answers r e t (s s0 : ReadSet) :
  (lookup_embed (Some (resolveInterface r)) e t s).1 = (lookup_embed (Some (resolveInterface r)) e t s0).1.
Proof.
  unfold lookup_embed, resolveInterface. destruct (ByQName _ _), (em_Resolved e); try done.
  by destruct (existsb _ _).
Qed.

(** The structs a reader's range query answers: those of the store in scope. *)
Definition scoped_structs (r : Reader) : list Struct :=
  List.filter (λ s, match r_scope r with None => true | Some p => p (NStruct s) end)
    (Items (StoreNodes.Structs (Nodes (r_store r)))).

Lemma structs_slice r reads : (Slice (Structs r) reads).2 = scoped_structs r.
Proof.
  unfold Slice, Structs, scoped_structs, applyScope, newQuery. simpl. rewrite slice_loop_filter. simpl.
  rewrite (filter_ext _ (λ _, true)) by done.
  assert (∀ l : list Struct, List.filter (λ _, true) l = l) as E by (induction l as [|? ? IHl]; simpl; congruence).
  rewrite E. destruct (r_scope r) as [p|]; [by rewrite scope_loop_filter|by rewrite E].
Qed.

(** [Implementers] answers exactly the structs in scope that declare every
    method the interface has, those it gets through embedded interfaces of any
    package included, in the order of the store; it answers none when the
    method set is empty or incomplete, that is when some embed the interface
    leads to is parameterised, unknown to the run or not an interface, or the
    embeds are circular.  The embeds are resolved in the whole store, whatever
    the scope is. *)
Theorem implementers_declare_every_method r known fuel i reads :
  let judge := judge (Some (resolveInterface r)) reads in
  let leads := leads (Some (resolveInterface r)) reads in
  let complete := (∀ j e why, rtc leads i j → e ∈ i_Embeds j → judge e ≠ Fault why) ∧
                  ¬ circular (Some (resolveInterface r)) reads i in
  let has x := ∃ j, rtc leads i j ∧ names_of (i_Methods j) x in
  closed (Some (resolveInterface r)) known →
  (∀ a b, a ∈ known → b ∈ known → ref (i_base a) = ref (i_base b) → a = b) →
  i ∈ known → length known ≤ fuel →
  ∃ reads' out, Implementers fuel r (Some i) reads = Some (reads', out) ∧
    out `sublist_of` scoped_structs r ∧
    ∀ s, s ∈ out ↔ complete ∧ (∃ x, has x) ∧ s ∈ scoped_structs r ∧ ∀ x, has x → Declares (s_Methods s) x = true.
Proof.
  cbv zeta. intros Hcl Hptr Hi Hf.
  destruct (method_set_run (Some (resolveInterface r)) reads known Hcl Hptr
    (λ e t s, resolver_answers r e t s reads) fuel i Hi Hf) as (ms & rs & E & Hn & _ & _ & _ & Hg & _).
  rewrite (followed_iff (Some (resolveInterface r)) reads known Hcl Hptr i Hi) in Hg.
  unfold Implementers, reader.MethodSet. rewrite E. unfold OK.
  destruct (ms_Issues ms) as [|iss isss] eqn:Eis; cbn [length Nat.eqb negb orb].
  2: { exists rs, []. split_and!; [done|apply sublist_nil_l|]. intros s. split; [by intros ?%elem_of_nil|].
       intros [Hc _]. by apply Hg in Hc. }
  destruct (ms_Methods ms) as [|m mm] eqn:Em; cbn [length Nat.eqb].
  { exists rs, []. split_and!; [done|apply sublist_nil_l|]. intros s. split; [by intros ?%elem_of_nil|].
    intros (_ & [x Hx] & _). apply Hn in Hx. by apply elem_of_nil in Hx. }
  rewrite <- Em in Hn |- *. pose proof (structs_slice r rs) as Es. destruct (Slice (Structs r) rs) as [rs' ss].
  simpl in Es. subst ss. exists rs', (implementers_loop (ms_Methods ms) (scoped_structs r) []).
  rewrite implementers_loop_filter. simpl. split_and!; [done| |].
  { generalize (scoped_structs r). intros l. induction l as [|s l IH]; simpl; [constructor|].
    destruct (satisfies s (ms_Methods ms)); by constructor. }
  intros s. rewrite list_elem_of_In, filter_In, satisfies_forallb, forallb_forall. split.
  - intros [Hs Hall]. split; [by apply Hg|]. split_and!; [| by apply list_elem_of_In |].
    + exists (m_Name m). apply Hn. rewrite Em. by left.
    + intros x Hx. apply Hn in Hx. apply list_elem_of_fmap in Hx as (k & -> & Hk). by apply Hall, list_elem_of_In.
  - intros (_ & _ & Hs & Hall). split; [by apply list_elem_of_In|]. intros k Hk. apply Hall, Hn, list_elem_of_fmap.
    exists k. split; [done|by apply list_elem_of_In].
Qed.

(** ** Examples *)

(** [Reader] embeds [Closer]; [File] declares both methods, [Conn] only one. *)
Definition rd_closer : Interface := Fixture.interface 2 "io" "Closer" [Fixture.method 12 "Close" []] [].
Definition rd_reader : Interface :=
  Fixture.interface 1 "io" "Reader" [Fixture.method 11 "Read" []]
    [Fixture.embed 21 (Fixture.named 31 "io" "Closer")].
Definition rd_file : Struct := Fixture.struct 3 "io" "File" [] [Fixture.method 13 "Read" []; Fixture.method 14 "Close" []].
Definition rd_conn : Struct := Fixture.struct 4 "io" "Conn" [] [Fixture.method 15 "Read" []].
Definition rd_store : Store :=
  eview.MkStore (StoreNodes.AddPackage
    (Some (Fixture.package 9 "io" [rd_conn; rd_file] [rd_reader; rd_closer] [])) (s_nodes eview.New)).1 (s_emit eview.New).
Definition rd_handle : Reader := MkReader rd_store None.

Lemma rd_closed : closed (Some (resolveInterface rd_handle)) [rd_reader; rd_closer].
Proof.
  intros i e t s j Hi He Ht. apply list_elem_of_In in Hi. destruct Hi as [<-|[<-|[]]].
  - apply list_elem_of_singleton in He as ->. injection Ht as <-. vm_compute. intros [= <-]. by do 2 constructor.
  - change (e ∈ ([] : list Embed)) in He. exfalso. exact (not_elem_of_nil e He).
Qed.

Lemma implementers_declare_every_method_witness :
  ∃ reads out, Implementers 2 rd_handle (Some rd_reader) ∅ = Some (reads, out) ∧ out = [rd_file] ∧
    out `sublist_of` scoped_structs rd_handle.
Proof.
  destruct (implementers_declare_every_method rd_handle [rd_reader; rd_closer] 2 rd_reader ∅)
    as (reads & out & E & Hs & _).
  - exact rd_closed.
  - intros a b Ha Hb. apply list_elem_of_In in Ha, Hb. destruct Ha as [<-|[<-|[]]], Hb as [<-|[<-|[]]]; done.
  - by left.
  - simpl. lia.
  - exists reads, out. split_and!; [exact E| |exact Hs]. 
    assert (snd <$> Implementers 2 rd_handle (Some rd_reader) ∅ = Some [rd_file]) as Hc by (vm_compute; reflexivity).
    rewrite E in Hc. injection Hc as Hc. exact Hc.
Defined.

(** [resolveInterface] consults the structs, enums and aliases of the store
    without recording it: the empty store and the store that has a struct under
    the embedded name agree on the read set, and the method sets differ. *)
Theorem embed_kinds_are_unrecorded :
  let s' := eview.MkStore (StoreNodes.AddPackage
    (Some (Fixture.package 9 "io" [Fixture.struct 3 "io" "Closer" [] []] [] [])) (s_nodes eview.New)).1 (s_emit eview.New) in
  ∃ a b rs,
    MethodSet 2 (MkReader eview.New None) (Some rd_reader) ∅ = Some (a, rs) ∧
    MethodSet 2 (MkReader s' None) (Some rd_reader) ∅ = Some (b, rs) ∧
    agree_on rs eview.New s' ∧ is_Reason <$> ms_Issues a = [ReasonUnresolved] ∧
    is_Reason <$> ms_Issues b = [ReasonNonInterface].
Proof.
  do 2 eexists. exists {["node:interface:io.Closer"]}. split_and!; [vm_compute; reflexivity|vm_compute; reflexivity| |reflexivity|reflexivity].
  assert (∀ k, k ∈ ({["node:interface:io.Closer"]} : gset string) → k = "node:interface:io.Closer") as H by set_solver.
  split; try (intros Hin; by apply H in Hin); try (intros q Hin; by apply H in Hin).
Qed.
