(* ===== verification/Naming.v ===== *)
(** * core/naming: words and case styles

    [words.go], [case.go], [caser.go] and [identifier.go] of
    [src/core/naming], at byte level.  The Unicode case tables are a parameter
    like the letter tables of [Unicode]: the code relies on them only through
    their ASCII part.

    The scan of [Words] works on byte offsets of the input; it takes the length
    of the input as fuel, since every round consumes a rune.  The capacity
    hints ([countWordStarts], [Grow]) have no effect on results and are left
    out. *)

From S2P Require Import Prelude GoStrings Unicode.

Local Open Scope string_scope.
Local Open Scope nat_scope.
Local Open Scope list_scope.

(** ** Runes to bytes *)

Definition byte (n : N) : string := String (ascii_of_N n) "".

(** [strings.Builder.WriteRune]: surrogates and values out of range become the
    replacement character. *)
Definition encode_rune (r : N) : string :=
  if (r <? 128)%N then byte r
  else if (r <? 2048)%N then byte (192 + r / 64) +:+ byte (128 + r mod 64)
  else if (1114111 <? r)%N || between 55296 57343 r
  then byte 239 +:+ byte 191 +:+ byte 189
  else if (r <? 65536)%N
  then byte (224 + r / 4096) +:+ byte (128 + (r / 64) mod 64) +:+ byte (128 + r mod 64)
  else byte (240 + r / 262144) +:+ byte (128 + (r / 4096) mod 64) +:+ byte (128 + (r / 64) mod 64)
       +:+ byte (128 + r mod 64).

Definition ascii_upper (r : N) : bool := between 65 90 r.
Definition ascii_lower_case (r : N) : bool := between 97 122 r.

(** [unicode.IsLower], [IsUpper], [ToLower] and [ToUpper]. *)
Class CaseTables := {
  is_lower : N → bool;
  is_upper : N → bool;
  to_lower : N → N;
  to_upper : N → N;
  lower_ascii : ∀ r, (r < 128)%N → is_lower r = ascii_lower_case r;
  upper_ascii : ∀ r, (r < 128)%N → is_upper r = ascii_upper r;
  to_lower_ascii : ∀ r, (r < 128)%N → to_lower r = if ascii_upper r then (r + 32)%N else r;
  to_upper_ascii : ∀ r, (r < 128)%N → to_upper r = if ascii_lower_case r then (r - 32)%N else r;
}.

(** A table to evaluate with: ASCII and Latin-1. *)
#[global] Program Instance latin_case : CaseTables := {|
  is_lower := λ r, ascii_lower_case r || (between 223 255 r && negb (r =? 247)%N);
  is_upper := λ r, ascii_upper r || (between 192 222 r && negb (r =? 215)%N);
  to_lower := λ r, if ascii_upper r || (between 192 222 r && negb (r =? 215)%N) then (r + 32)%N else r;
  to_upper := λ r, if ascii_lower_case r || (between 224 254 r && negb (r =? 247)%N) then (r - 32)%N else r;
|}.
Next Obligation. intros r Hr. unfold between. by rewrite (proj2 (N.leb_gt 223 r)), orb_false_r by lia. Qed.
Next Obligation. intros r Hr. unfold between. by rewrite (proj2 (N.leb_gt 192 r)), orb_false_r by lia. Qed.
Next Obligation. intros r Hr. unfold between at 1. by rewrite (proj2 (N.leb_gt 192 r)), orb_false_r by lia. Qed.
Next Obligation. intros r Hr. unfold between at 1. by rewrite (proj2 (N.leb_gt 224 r)), orb_false_r by lia. Qed.

Definition code (a : ascii) : N := N_of_ascii a.

Section Case.
Context `{CaseTables}.

(** ** [words.go] *)

Definition isSeparator (r : N) : bool :=
  existsb (N.eqb r) [code "_"; code "-"; code "."; code " "; code "009"; code "/"].

Definition upperRune (r : N) : N := to_upper r.
Definition lowerRune (r : N) : N := to_lower r.

Definition decodeRuneAt (s : string) (i : nat) : N * nat :=
  match byte_at s i with
  | Some b => if (b <? 128)%N then (b, 1) else decode_rune (str_drop i s)
  | None => decode_rune (str_drop i s)
  end.

(** [s[start:end]] *)
Definition sub (s : string) (start stop : nat) : string := str_take (stop - start) (str_drop start s).

Definition wordAt (s : string) (start stop : nat) (dirty : bool) : string :=
  if negb dirty then sub s start stop
  else foldr String.append "" ((λ x, encode_rune x.1) <$> runes (sub s start stop)).

Definition breaksBefore (prev cur : N) (s : string) (next : nat) : bool :=
  if is_lower prev && is_upper cur then true
  else if is_upper prev && is_upper cur && (next <? String.length s)
  then is_lower (decodeRuneAt s next).1
  else false.

(** [start] is [None] between words; [prev] is [None] on the first round. *)
Fixpoint words_loop (fuel : nat) (s : string) (i : nat) (start : option nat) (dirty : bool) (prev : option N)
    (out : list string) : list string :=
  match fuel with
  | O => out
  | S fuel =>
      if negb (i <? String.length s) then
        match start with
        | Some st => out ++ [wordAt s st (String.length s) dirty]
        | None => out
        end
      else
        let '(r, sz) := decodeRuneAt s i in
        let '(out, start, dirty) :=
          if isSeparator r then
            match start with
            | Some st => (out ++ [wordAt s st i dirty], None, false)
            | None => (out, start, dirty)
            end
          else if match prev with Some p => breaksBefore p r s (i + sz) | None => false end then
            match start with
            | Some st => (out ++ [wordAt s st i dirty], Some i, false)
            | None => (out, Some i, dirty)
            end
          else match start with
               | None => (out, Some i, dirty)
               | Some _ => (out, start, dirty)
               end in
        let dirty := match start with
                     | Some _ => if (r =? RuneError)%N && (sz =? 1) then true else dirty
                     | None => dirty
                     end in
        words_loop fuel s (i + sz) start dirty (Some r) out
  end.

Definition Words (s : string) : list string :=
  if String.eqb s "" then [] else words_loop (S (String.length s)) s 0 None false None [].

(** ** [caser.go] *)

Record Caser := MkCaser { initialisms : gmap string string }.

Definition New : Caser := MkCaser ∅.

Definition CommonInitialisms : list string :=
  ["ACL"; "API"; "ASCII"; "CPU"; "CSS"; "DNS"; "EOF"; "GUID";
   "HTML"; "HTTP"; "HTTPS"; "ID"; "IP"; "JSON"; "LHS"; "QPS";
   "RAM"; "RHS"; "RPC"; "SLA"; "SMTP"; "SQL"; "SSH"; "TCP";
   "TLS"; "TTL"; "UDP"; "UI"; "UID"; "UUID"; "URI"; "URL"; "UTF8";
   "VM"; "XML"; "XMPP"; "XSRF"; "XSS"].

Definition withInitialismsUnchecked (words : list string) : Caser :=
  MkCaser (fold_left (λ m w, <[w := w]> m) words ∅).
Definition Default : Caser := withInitialismsUnchecked CommonInitialisms.

Definition isValidInitialism (s : string) : bool :=
  match s with
  | EmptyString => false
  | String a s =>
      if negb (ascii_upper (code a)) then false
      else str_all (λ c, ascii_upper (code c) || ascii_digit (code c)) s
  end.

Inductive NamingError := ErrInvalidInitialism (w : string).

Fixpoint with_loop (m : gmap string string) (words : list string) : res NamingError (gmap string string) :=
  match words with
  | [] => Ok m
  | w :: words => if negb (isValidInitialism w) then Err (ErrInvalidInitialism w)
                  else with_loop (<[w := w]> m) words
  end.
Definition WithInitialisms (c : Caser) (words : list string) : res NamingError Caser :=
  match with_loop (initialisms c) words with Ok m => Ok (MkCaser m) | Err e => Err e end.

Definition Initialisms (c : Caser) : list string := sort_strings (map_to_list (initialisms c)).*1.

Definition maxProbeLen : nat := 16.

(** The stack buffer; [None] when a byte is not ASCII. *)
Fixpoint probe_buffer (w : string) : option string :=
  match w with
  | EmptyString => Some ""
  | String ch w =>
      if (128 <=? code ch)%N then None
      else
        let ch := if ascii_lower_case (code ch) then ascii_of_N (code ch - 32) else ch in
        String ch <$> probe_buffer w
  end.

(** [strings.ToUpper] *)
Definition strings_ToUpper (s : string) : string :=
  foldr String.append "" ((λ x, encode_rune (to_upper x.1)) <$> runes s).

Definition lookupInitialism (c : Caser) (w : string) : option string :=
  match (if String.length w <=? maxProbeLen then probe_buffer w else None) with
  | Some buf => initialisms c !! buf
  | None => initialisms c !! strings_ToUpper w
  end.

Definition isAllUpperASCII (s : string) : bool := str_all (λ a, ascii_upper (code a)) s.

(** The writers append to a [strings.Builder]; each is the text it appends. *)
Definition writeTitleCased (w : string) : string :=
  match runes w with
  | [] => ""
  | x :: l => encode_rune (upperRune x.1) +:+ foldr String.append "" ((λ x, encode_rune (lowerRune x.1)) <$> l)
  end.

Definition writeTitleWord (c : Caser) (w : string) : string :=
  match lookupInitialism c w with
  | Some canon => canon
  | None => if isAllUpperASCII w then w else writeTitleCased w
  end.

(** ** [case.go] *)

Definition writeCased (w : string) (up : bool) : string :=
  foldr String.append "" ((λ x, encode_rune (if up then upperRune x.1 else lowerRune x.1)) <$> runes w).

Definition Pascal (c : Caser) (s : string) : string :=
  foldr String.append "" (writeTitleWord c <$> Words s).

Definition Camel (c : Caser) (s : string) : string :=
  match Words s with
  | [] => ""
  | w :: words => writeCased w false +:+ foldr String.append "" (writeTitleWord c <$> words)
  end.

(** The separator goes in front of every word but the first. *)
Fixpoint join_loop (f : string → string) (sep : string) (first : bool) (words : list string) : string :=
  match words with
  | [] => ""
  | w :: words => (if first then "" else sep) +:+ f w +:+ join_loop f sep false words
  end.

Definition joined (s sep : string) (up : bool) : string := join_loop (λ w, writeCased w up) sep true (Words s).

Definition Snake (s : string) : string := joined s "_" false.
Definition ScreamingSnake (s : string) : string := joined s "_" true.
Definition Kebab (s : string) : string := joined s "-" false.
Definition ScreamingKebab (s : string) : string := joined s "-" true.
Definition Dot (s : string) : string := joined s "." false.
Definition Title (c : Caser) (s : string) : string := join_loop (writeTitleWord c) " " true (Words s).

End Case.

(** ** [identifier.go] *)

Definition ident_byte (a : ascii) : bool :=
  ascii_lower_case (code a) || ascii_upper (code a) || ascii_digit (code a) || (code a =? code "_")%N.

Definition isValidIdentifier (s : string) : bool :=
  match s with
  | EmptyString => false
  | String a _ => if ascii_digit (code a) then false else str_all ident_byte s
  end.

Section Identifier.
Context `{UnicodeTables}.

Fixpoint identifier_loop (first : bool) (l : list (N * string)) : string :=
  match l with
  | [] => ""
  | (r, _) :: l =>
      (if (r =? code "_")%N || is_letter r then encode_rune r
       else if is_digit r then (if first then "_" else "") +:+ encode_rune r
       else "_") +:+ identifier_loop false l
  end.

Definition Identifier (s : string) : string :=
  if String.eqb s "" then "_"
  else if isValidIdentifier s then s
  else identifier_loop true (runes s).

End Identifier.

(** ** The documented examples *)

Example words_examples :
  Words "HTTPServer_url-path2X" = ["HTTP"; "Server"; "url"; "path2X"] ∧ Words "__" = [] ∧
  Words (String "190" "") = [encode_rune RuneError].
Proof. vm_compute. done. Qed.

Example pascal_examples :
  Pascal Default "url_path" = "URLPath" ∧ Pascal New "url_path" = "UrlPath" ∧ Camel Default "URLPath" = "urlPath" ∧
  Pascal Default "aA1" = "AA1" ∧ Pascal Default "AA1" = "Aa1" ∧ ScreamingSnake "helloWorld" = "HELLO_WORLD" ∧
  Title Default "http-server" = "HTTP Server" ∧ Identifier "8 a.b" = "_8_a_b".
Proof. vm_compute. done. Qed.
