(* ===== verification/NamingLaws.v ===== *)
(** * core/naming: what the case styles promise

    [Words] is a split of the runes of its input ([words_split]): it loses
    nothing but separators.  Every style is idempotent on names made of ASCII
    letters and separators, as the documentation of [Caser] says, and
    [Identifier] always answers an identifier. *)

From S2P Require Import Prelude GoStrings Unicode Imports ImportLaws Naming.

Local Open Scope string_scope.
Local Open Scope nat_scope.
Local Open Scope list_scope.

Abbreviation cat := (foldr String.append "").

Lemma cat_app (l k : list string) : cat (l ++ k) = cat l +:+ cat k.
Proof. induction l as [|x l IH]; simpl; [done|]. by rewrite IH, append_assoc. Qed.

(** ** Encoding after decoding *)

Lemma byte_code a : byte (N_of_ascii a) = String a "".
Proof. unfold byte. by rewrite ascii_N_embedding. Qed.

Lemma split64 (x y : N) : (y < 64)%N → ((x * 64 + y) / 64 = x)%N ∧ ((x * 64 + y) mod 64 = y)%N.
Proof.
  intros Hy. rewrite N.add_comm, N.Div0.mod_add, N.div_add by lia.
  rewrite N.mod_small, N.div_small by lia. lia.
Qed.

Lemma surrogates_out r : (r < 55296 ∨ 57343 < r)%N → between 55296 57343 r = false.
Proof. intros. unfold between. rewrite andb_false_iff, !N.leb_gt. lia. Qed.

Lemma encode_two b0 b1 :
  between 194 223 b0 = true → between 128 191 b1 = true →
  encode_rune ((b0 - 192) * 64 + (b1 - 128)) = byte b0 +:+ byte b1.
Proof.
  unfold between. rewrite !andb_true_iff, !N.leb_le. intros [] []. unfold encode_rune.
  set (r := ((b0 - 192) * 64 + (b1 - 128))%N). assert (128 <= r < 2048)%N by lia.
  rewrite (proj2 (N.ltb_ge _ _)), (proj2 (N.ltb_lt _ _)) by lia.
  destruct (split64 (b0 - 192) (b1 - 128)) as [E1 E2]; [lia|]. fold r in E1, E2. rewrite E1, E2.
  do 2 f_equal; lia.
Qed.

Lemma encode_three b0 b1 b2 :
  between 224 239 b0 = true → between 128 191 b1 = true → between 128 191 b2 = true →
  (b0 = 224 → 160 <= b1)%N → (b0 = 237 → b1 <= 159)%N →
  encode_rune (((b0 - 224) * 64 + (b1 - 128)) * 64 + (b2 - 128)) = byte b0 +:+ byte b1 +:+ byte b2.
Proof.
  unfold between. rewrite !andb_true_iff, !N.leb_le. intros [] [] [] Hlo Hhi. unfold encode_rune.
  set (r := (((b0 - 224) * 64 + (b1 - 128)) * 64 + (b2 - 128))%N).
  assert (2048 <= r < 65536)%N by lia. assert (r < 55296 ∨ 57343 < r)%N by lia.
  rewrite (proj2 (N.ltb_ge _ _)), (proj2 (N.ltb_ge _ _)), (proj2 (N.ltb_ge _ _)) by lia.
  rewrite surrogates_out by lia.
  simpl. rewrite (proj2 (N.ltb_lt _ _)) by lia.
  change 4096%N with (64 * 64)%N. rewrite <- !N.Div0.div_div.
  destruct (split64 ((b0 - 224) * 64 + (b1 - 128)) (b2 - 128)) as [E1 E2]; [lia|]. fold r in E1, E2. rewrite E1, E2.
  destruct (split64 (b0 - 224) (b1 - 128)) as [E3 E4]; [lia|]. rewrite E3, E4.
  repeat f_equal; lia.
Qed.

Lemma encode_four b0 b1 b2 b3 :
  between 240 244 b0 = true → between 128 191 b1 = true → between 128 191 b2 = true → between 128 191 b3 = true →
  (b0 = 240 → 144 <= b1)%N → (b0 = 244 → b1 <= 143)%N →
  encode_rune ((((b0 - 240) * 64 + (b1 - 128)) * 64 + (b2 - 128)) * 64 + (b3 - 128)) =
  byte b0 +:+ byte b1 +:+ byte b2 +:+ byte b3.
Proof.
  unfold between. rewrite !andb_true_iff, !N.leb_le. intros [] [] [] [] Hlo Hhi. unfold encode_rune.
  set (r := ((((b0 - 240) * 64 + (b1 - 128)) * 64 + (b2 - 128)) * 64 + (b3 - 128))%N).
  assert (65536 <= r <= 1114111)%N by lia.
  rewrite (proj2 (N.ltb_ge _ _)), (proj2 (N.ltb_ge _ _)), (proj2 (N.ltb_ge _ _)) by lia.
  rewrite surrogates_out by lia.
  simpl. rewrite (proj2 (N.ltb_ge _ _)) by lia.
  change 262144%N with (64 * 64 * 64)%N. change 4096%N with (64 * 64)%N. rewrite <- !N.Div0.div_div.
  destruct (split64 (((b0 - 240) * 64 + (b1 - 128)) * 64 + (b2 - 128))%N (b3 - 128)%N) as [E1 E2]; [lia|].
  fold r in E1, E2. rewrite E1, E2.
  destruct (split64 ((b0 - 240) * 64 + (b1 - 128))%N (b2 - 128)%N) as [E3 E4]; [lia|]. rewrite E3, E4.
  destruct (split64 (b0 - 240)%N (b1 - 128)%N) as [E5 E6]; [lia|]. rewrite E5, E6.
  repeat f_equal; lia.
Qed.

Lemma lead_spec b n lo hi :
  lead b = Some (n, lo, hi) →
  (128 <= lo ∧ hi <= 191)%N ∧
  ((n = 2 ∧ (194 <= b <= 223)%N) ∨
   (n = 3 ∧ (224 <= b <= 239 ∧ (b = 224 → lo = 160) ∧ (b = 237 → hi = 159))%N) ∨
   (n = 4 ∧ (240 <= b <= 244 ∧ (b = 240 → lo = 144) ∧ (b = 244 → hi = 143))%N)).
Proof.
  unfold lead, between.
  repeat match goal with
  | |- context [N.leb ?x ?y] => destruct (N.leb_spec x y); cbn [andb orb]
  | |- context [N.eqb ?x ?y] => destruct (N.eqb_spec x y)
  end; intros [= <- <- <-]; split; lia.
Qed.

Lemma between_iff lo hi n : between lo hi n = true ↔ (lo <= n <= hi)%N.
Proof. unfold between. by rewrite andb_true_iff, !N.leb_le. Qed.

Lemma encode_decode s :
  s ≠ "" → ¬ ((decode_rune s).1 = RuneError ∧ (decode_rune s).2 = 1) →
  encode_rune (decode_rune s).1 = str_take (decode_rune s).2 s.
Proof.
  destruct s as [|a0 s]; [done|]. intros _. unfold decode_rune. change (byte_at (String a0 s) 0) with (Some (N_of_ascii a0)).
  cbv match. destruct (N.ltb_spec (N_of_ascii a0) 128) as [Hlt|Hge].
  { intros _. cbn [fst snd str_take]. unfold encode_rune. rewrite (proj2 (N.ltb_lt _ _)) by done. apply byte_code. }
  destruct (lead (N_of_ascii a0)) as [[[n lo] hi]|] eqn:Hl; [|naive_solver].
  apply lead_spec in Hl as [[Hlo Hhi] Hn].
  destruct s as [|a1 s]; [naive_solver|]. change (byte_at (String a0 (String a1 s)) 1) with (Some (N_of_ascii a1)).
  cbv match. destruct (between lo hi (N_of_ascii a1)) eqn:E1; cbn [negb]; [|naive_solver].
  apply between_iff in E1. destruct (Nat.eqb_spec n 2) as [->|Hn2].
  { intros _. cbn [fst snd]. change (str_take 2 (String a0 (String a1 s))) with (String a0 "" +:+ String a1 "").
    rewrite encode_two, !byte_code; [done|..]; apply between_iff; lia. }
  destruct s as [|a2 s]; [naive_solver|]. change (byte_at (String a0 (String a1 (String a2 s))) 2) with (Some (N_of_ascii a2)).
  cbv match. destruct (cont (N_of_ascii a2)) eqn:E2; cbn [negb]; [|naive_solver]. unfold cont in E2.
  destruct (Nat.eqb_spec n 3) as [->|Hn3].
  { intros _. cbn [fst snd].
    change (str_take 3 (String a0 (String a1 (String a2 s)))) with (String a0 "" +:+ String a1 "" +:+ String a2 "").
    rewrite encode_three, !byte_code; [done|..|done| |]; rewrite ?between_iff; lia. }
  destruct s as [|a3 s]; [naive_solver|].
  change (byte_at (String a0 (String a1 (String a2 (String a3 s)))) 3) with (Some (N_of_ascii a3)).
  cbv match. destruct (cont (N_of_ascii a3)) eqn:E3; cbn [negb]; [|naive_solver]. unfold cont in E3.
  intros _. cbn [fst snd].
  change (str_take 4 (String a0 (String a1 (String a2 (String a3 s)))))
    with (String a0 "" +:+ String a1 "" +:+ String a2 "" +:+ String a3 "").
  rewrite encode_four, !byte_code; [done|..|done|done| |]; rewrite ?between_iff; lia.
Qed.

(** ** Decoded text *)

Abbreviation chunk := (N * string)%type.

(** A list of chunks that is the decoding of its bytes. *)
Definition well (l : list chunk) : Prop := runes (cat l.*2) = l.

Lemma well_runes s : well (runes s).
Proof. unfold well. by rewrite runes_concat. Qed.

Lemma byte_at_drop s n i : byte_at (str_drop n s) i = byte_at s (n + i).
Proof.
  unfold byte_at. revert s. induction n as [|n IH]; intros [|a s]; simpl; done.
Qed.

Lemma byte_at_cut s n i :
  byte_at (str_take n s) i = byte_at s i ∨ byte_at (str_take n s) i = None.
Proof.
  unfold byte_at. revert s i. induction n as [|n IH]; intros [|a s] i; simpl; auto.
  destruct i as [|i]; auto.
Qed.

Lemma byte_at_keep s n i : i < n → byte_at (str_take n s) i = byte_at s i.
Proof.
  unfold byte_at. revert s i. induction n as [|n IH]; intros [|a s] i Hi; simpl; try done; [lia|].
  destruct i as [|i]; [done|]. apply IH. lia.
Qed.

(** Cutting a string behind a rune does not change the rune. *)
Lemma decode_cut s n : s ≠ "" → (decode_rune s).2 ≤ n → decode_rune (str_take n s) = decode_rune s.
Proof.
  intros Hs Hn. pose proof (decode_width s Hs) as [Hw _].
  pose proof (byte_at_keep s n) as K. assert (byte_at (str_take n s) 0 = byte_at s 0) as E0 by (apply K; lia).
  revert Hn. clear Hw. pose proof (byte_at_cut s n 1) as C1. pose proof (byte_at_cut s n 2) as C2.
  pose proof (byte_at_cut s n 3) as C3. pose proof (K 1) as K1. pose proof (K 2) as K2. pose proof (K 3) as K3.
  unfold decode_rune. rewrite E0. clear E0 K.
  generalize dependent (byte_at (str_take n s) 1). generalize dependent (byte_at (str_take n s) 2).
  generalize dependent (byte_at (str_take n s) 3). intros o3 C3 K3 o2 C2 K2 o1 C1 K1.
  destruct (byte_at s 0) as [b0|]; [|done]. destruct (b0 <? 128)%N; [done|].
  destruct (lead b0) as [[[w lo] hi]|]; [|done].
  destruct (byte_at s 1) as [b1|]; [|by destruct C1 as [-> | ->]].
  destruct (negb (between lo hi b1)) eqn:E1; [intros _; destruct C1 as [-> | ->]; by rewrite ?E1|].
  destruct (w =? 2) eqn:E2; [intros Hn; rewrite K1 by (simpl in Hn; lia); by rewrite E1|].
  destruct (byte_at s 2) as [b2|]; [|intros _; destruct C1 as [-> | ->], C2 as [-> | ->]; by rewrite ?E1].
  destruct (negb (cont b2)) eqn:E3;
    [intros _; destruct C1 as [-> | ->], C2 as [-> | ->]; by rewrite ?E1, ?E3|].
  destruct (w =? 3) eqn:E4; [intros Hn; rewrite K1, K2 by (simpl in Hn; lia); by rewrite E1, E3|].
  destruct (byte_at s 3) as [b3|];
    [|intros _; destruct C1 as [-> | ->], C2 as [-> | ->], C3 as [-> | ->]; by rewrite ?E1, ?E3].
  destruct (negb (cont b3)) eqn:E5;
    [intros _; destruct C1 as [-> | ->], C2 as [-> | ->], C3 as [-> | ->]; by rewrite ?E1, ?E3, ?E5|].
  intros Hn. rewrite K1, K2, K3 by (simpl in Hn; lia). by rewrite E1, E3, E5.
Qed.

Lemma runes_cons s :
  s ≠ "" → runes s = ((decode_rune s).1, str_take (decode_rune s).2 s) :: runes (str_drop (decode_rune s).2 s).
Proof.
  intros Hs. pose proof (decode_width s Hs) as Hw. unfold runes.
  destruct (String.length s) as [|f] eqn:E; [by apply length_zero_nil in E|].
  destruct s as [|a s]; [done|]. cbn [runes_fuel]. destruct (decode_rune (String a s)) as [r w]. cbn [fst snd] in *.
  f_equal. assert (∀ f g t, String.length t ≤ f → String.length t ≤ g → runes_fuel f t = runes_fuel g t) as Hf.
  { clear. induction f as [|f IH]; intros [|g] [|a t] H1 H2; simpl in H1, H2; try lia; try done.
    cbn [runes_fuel]. pose proof (decode_width (String a t) ltac:(done)) as Hw.
    destruct (decode_rune (String a t)) as [r w]. simpl in Hw. f_equal. apply IH; rewrite str_drop_length; simpl; lia. }
  apply Hf; rewrite str_drop_length; simpl in *; lia.
Qed.

Lemma well_cons x l : well (x :: l) → x.2 ≠ "" ∧ decode_rune (cat (x :: l).*2) = (x.1, String.length x.2) ∧ well l.
Proof.
  unfold well. destruct x as [r c]. set (t := cat ((r, c) :: l).*2). intros E.
  assert (t ≠ "") as Ht by (intros Ht; by rewrite Ht in E).
  rewrite runes_cons in E by done. pose proof (decode_width t Ht) as Hw.
  injection E as Er Ec El. assert (String.length c = (decode_rune t).2) as Hc.
  { rewrite <- Ec. apply str_take_length. lia. }
  split_and!.
  - simpl. intros ->. simpl in Hc. lia.
  - simpl. rewrite Hc, <- Er. by destruct (decode_rune t).
  - rewrite <- Hc in El. unfold t in El. simpl in El. by rewrite str_drop_app in El.
Qed.

Lemma well_app_r l k : well (l ++ k) → well k.
Proof. induction l as [|x l IH]; [done|]. intros (_ & _ & Hw)%well_cons. auto. Qed.

Lemma well_app_l l k : well (l ++ k) → well l.
Proof.
  induction l as [|x l IH]; [done|]. intros Hw. pose proof (well_cons x (l ++ k) Hw) as (Hx & Hd & Hl).
  specialize (IH Hl). unfold well in *. set (t := cat (x :: l).*2).
  assert (t = str_take (String.length t) (cat (x :: l ++ k).*2)) as Et.
  { unfold t. simpl. rewrite fmap_app, cat_app, append_assoc. by rewrite str_take_app. }
  assert (t ≠ "") as Ht by (unfold t; simpl; by destruct x.2).
  assert (decode_rune t = (x.1, String.length x.2)) as Ed.
  { rewrite Et, decode_cut.
    - exact Hd.
    - simpl. by destruct x.2.
    - rewrite Hd. unfold t. simpl. rewrite append_length. lia. }
  rewrite runes_cons by done. rewrite Ed. cbn [fst snd]. change t with (x.2 +:+ cat l.*2).
  rewrite str_take_app, str_drop_app, IH. by destruct x.
Qed.

(** ** The split *)

Section Split.
Context `{CaseTables} {A : Type} (rune : A → N).

Definition flush (cur : list A) : list (list A) := match cur with [] => [] | _ => [cur] end.

Definition ahead (l : list A) : bool := match l with [] => false | x :: _ => is_lower (rune x) end.

(** A boundary before [r], after [prev] and before [rest]. *)
Definition breaks (prev : option N) (r : N) (rest : list A) : bool :=
  match prev with
  | None => false
  | Some p => (is_lower p && is_upper r) || (is_upper p && is_upper r && ahead rest)
  end.

(** The words of [l], where [cur] is the word that is open. *)
Fixpoint split (prev : option N) (cur l : list A) : list (list A) :=
  match l with
  | [] => flush cur
  | x :: l =>
      if isSeparator (rune x) then flush cur ++ split (Some (rune x)) [] l
      else if breaks prev (rune x) l then flush cur ++ split (Some (rune x)) [x] l
      else split (Some (rune x)) (cur ++ [x]) l
  end.

Lemma concat_flush cur : concat (flush cur) = cur.
Proof. destruct cur; simpl; [done|by rewrite app_nil_r]. Qed.

Lemma flush_nonempty cur : Forall (λ w, w ≠ []) (flush cur).
Proof. destruct cur; simpl; [constructor|by apply Forall_singleton]. Qed.

(** Only separators are lost, and no word is empty. *)
Lemma split_concat prev cur l :
  concat (split prev cur l) = cur ++ filter (λ x, isSeparator (rune x) = false) l.
Proof.
  revert prev cur. induction l as [|x l IH]; intros prev cur; simpl; [by rewrite concat_flush, app_nil_r|].
  rewrite filter_cons. destruct (isSeparator (rune x)); simpl.
  - by rewrite concat_app, concat_flush, IH.
  - destruct (breaks prev (rune x) l); [by rewrite concat_app, concat_flush, IH|by rewrite IH, <- app_assoc].
Qed.

Lemma split_nonempty prev cur l : Forall (λ w, w ≠ []) (split prev cur l).
Proof.
  revert prev cur. induction l as [|x l IH]; intros prev cur; simpl; [apply flush_nonempty|].
  destruct (isSeparator (rune x)); [apply Forall_app; split; [apply flush_nonempty|apply IH]|].
  destruct (breaks prev (rune x) l); [apply Forall_app; split; [apply flush_nonempty|apply IH]|apply IH].
Qed.
End Split.

(** Renaming the elements renames the words. *)
Lemma split_fmap `{CaseTables} {A B} (ra : A → N) (rb : B → N) (g : A → B) prev (cur l : list A) :
  (∀ x, rb (g x) = ra x) → split rb prev (g <$> cur) (g <$> l) = (fmap g : list A → list B) <$> split ra prev cur l.
Proof.
  intros Hg. assert (∀ c : list A, flush (g <$> c) = (fmap g : list A → list B) <$> flush c) as Hf by (by intros []).
  assert (∀ p r (k : list A), breaks rb p r (g <$> k) = breaks ra p r k) as Hb.
  { intros [p|] r k; [|done]. unfold breaks. destruct k as [|y k]; simpl; [done|]. by rewrite Hg. }
  revert prev cur. induction l as [|x l IH]; intros prev cur; [apply Hf|].
  rewrite fmap_cons. cbn [split]. rewrite Hg, Hb.
  destruct (isSeparator (ra x)); [by rewrite fmap_app, <- Hf, <- (IH _ [])|].
  destruct (breaks ra prev (ra x) l); [by rewrite fmap_app, <- Hf, <- (IH _ [x])|].
  rewrite <- IH. by rewrite fmap_app.
Qed.

(** ** [Words] is the split *)

Section Words.
Context `{CaseTables}.

Definition word_text (w : list chunk) : string := cat ((λ x, encode_rune x.1) <$> w).
Definition bad (x : chunk) : bool := (x.1 =? RuneError)%N && (String.length x.2 =? 1).

Lemma encode_chunks l : well l → existsb bad l = false → word_text l = cat l.*2.
Proof.
  induction l as [|x l IH]; [done|]. intros (Hx & Hd & Hw)%well_cons [Hb Hbs]%orb_false_iff.
  change (word_text (x :: l)) with (encode_rune x.1 +:+ word_text l). rewrite IH by done.
  change (cat (x :: l).*2) with (x.2 +:+ cat l.*2) in *. f_equal.
  pose proof (encode_decode (x.2 +:+ cat l.*2)) as He. rewrite Hd in He. cbn [fst snd] in He.
  rewrite str_take_app in He. apply He; [by destruct x.2|].
  intros [Hr Hl]. unfold bad in Hb. by rewrite Hr, Hl in Hb.
Qed.

Lemma decodeRuneAt_spec s i : decodeRuneAt s i = decode_rune (str_drop i s).
Proof.
  unfold decodeRuneAt. destruct (byte_at s i) as [b|] eqn:E; [|done].
  pose proof (byte_at_drop s i 0) as Hb. rewrite Nat.add_0_r, E in Hb. unfold decode_rune. rewrite Hb.
  by destruct (b <? 128)%N.
Qed.

Lemma sub_middle (a b c : string) : sub (a +:+ b +:+ c) (String.length a) (String.length (a +:+ b)) = b.
Proof.
  unfold sub. rewrite str_drop_app, append_length, Nat.add_comm, Nat.add_sub. apply str_take_app.
Qed.

(** The word that is open is cut out of the text. *)
Lemma wordAt_open pre cur rest :
  well (pre ++ cur ++ rest) →
  wordAt (cat (pre ++ cur ++ rest).*2) (String.length (cat pre.*2)) (String.length (cat (pre ++ cur).*2))
    (existsb bad cur) = word_text cur.
Proof.
  intros Hw. assert (well cur) as Hc by (eapply well_app_l, well_app_r; exact Hw).
  rewrite !fmap_app, !cat_app. unfold wordAt. rewrite sub_middle.
  destruct (existsb bad cur) eqn:E; simpl; [|by rewrite encode_chunks]. unfold word_text. by rewrite Hc.
Qed.

Lemma breaksBefore_spec p r pre x rest :
  well (pre ++ x :: rest) →
  breaksBefore p r (cat (pre ++ x :: rest).*2) (String.length (cat (pre ++ [x]).*2)) = breaks fst (Some p) r rest.
Proof.
  intros Hw. rewrite cons_middle, app_assoc in *. unfold breaksBefore, breaks.
  assert ((String.length (cat (pre ++ [x]).*2) <? String.length (cat ((pre ++ [x]) ++ rest).*2)) && is_lower
    (decodeRuneAt (cat ((pre ++ [x]) ++ rest).*2) (String.length (cat (pre ++ [x]).*2))).1 = ahead fst rest) as E.
  { rewrite decodeRuneAt_spec, (fmap_app snd (pre ++ [x]) rest), cat_app, str_drop_app, append_length.
    destruct rest as [|y rest]; simpl ahead.
    - simpl. by rewrite Nat.add_0_r, Nat.ltb_irrefl.
    - apply well_app_r, well_cons in Hw as (Hy & Hd & _). rewrite Hd. simpl.
      rewrite (proj2 (Nat.ltb_lt _ _)); [done|]. rewrite append_length. destruct y.2; [done|simpl; lia]. }
  rewrite <- E. destruct (is_lower p && is_upper r); simpl; [done|].
  by destruct (is_upper p && is_upper r), (_ <? _).
Qed.

Lemma words_loop_spec rest fuel pre cur prev out :
  well (pre ++ cur ++ rest) → length rest < fuel →
  words_loop fuel (cat (pre ++ cur ++ rest).*2) (String.length (cat (pre ++ cur).*2))
    (match cur with [] => None | _ => Some (String.length (cat pre.*2)) end) (existsb bad cur) prev out
  = out ++ (word_text <$> split fst prev cur rest).
Proof.
  revert fuel pre cur prev out. induction rest as [|x rest IH]; intros fuel pre cur prev out Hw Hf;
    (destruct fuel as [|fuel]; [lia|]); cbn [words_loop].
  - rewrite !app_nil_r in *. rewrite Nat.ltb_irrefl. simpl. destruct cur as [|y cur]; simpl.
    { by rewrite app_nil_r. }
    pose proof (wordAt_open pre (y :: cur) []) as Ho. rewrite !app_nil_r in Ho. by rewrite <- Ho.
  - pose proof (well_app_r pre _ Hw) as Hw1. pose proof (well_app_r cur _ Hw1) as Hw2.
    apply well_cons in Hw2 as (Hx & Hd & Hw2).
    assert (String.length (cat (pre ++ cur).*2) <? String.length (cat (pre ++ cur ++ x :: rest).*2) = true) as ->.
    { rewrite app_assoc, (fmap_app snd (pre ++ cur)), cat_app, append_length. apply Nat.ltb_lt. simpl.
      rewrite append_length. destruct x.2; [done|simpl; lia]. }
    cbn [negb]. rewrite decodeRuneAt_spec.
    assert (str_drop (String.length (cat (pre ++ cur).*2)) (cat (pre ++ cur ++ x :: rest).*2) = cat (x :: rest).*2) as ->.
    { by rewrite app_assoc, (fmap_app snd (pre ++ cur)), cat_app, str_drop_app. }
    rewrite Hd. cbn [split]. fold (bad x).
    assert (String.length (cat (pre ++ cur).*2) + String.length x.2 = String.length (cat ((pre ++ cur) ++ [x]).*2)) as ->.
    { rewrite (fmap_app snd (pre ++ cur)), cat_app, append_length. simpl. by rewrite append_nil_r. }
    assert (match prev with Some p => breaksBefore p x.1 (cat (pre ++ cur ++ x :: rest).*2)
      (String.length (cat ((pre ++ cur) ++ [x]).*2)) | None => false end = breaks fst prev x.1 rest) as ->.
    { destruct prev as [p|]; [|done]. rewrite app_assoc. apply breaksBefore_spec. by rewrite <- app_assoc. }
    assert (∀ pre' cur' out', pre ++ cur ++ x :: rest = pre' ++ cur' ++ rest →
      words_loop fuel (cat (pre ++ cur ++ x :: rest).*2) (String.length (cat ((pre ++ cur) ++ [x]).*2))
        (match cur' with [] => None | _ => Some (String.length (cat pre'.*2)) end) (existsb bad cur') (Some x.1) out'
      = out' ++ (word_text <$> split fst (Some x.1) cur' rest)) as Hgo.
    { intros pre' cur' out' E. assert ((pre ++ cur) ++ [x] = pre' ++ cur') as ->.
      { apply (app_inv_tail rest). rewrite <- !app_assoc. simpl. by rewrite E, <- ?app_assoc. }
      rewrite E. apply IH; [by rewrite <- E|simpl in Hf; lia]. }
    pose proof (wordAt_open pre cur (x :: rest) Hw) as Ho.
    assert (existsb bad [x] = bad x) as Eb by (simpl; apply orb_false_r). cbv zeta.
    destruct (isSeparator x.1); [|destruct (breaks fst prev x.1 rest)]; destruct cur as [|y cur]; rewrite ?Ho.
    + apply (Hgo (pre ++ [x]) []). by rewrite <- app_assoc.
    + rewrite (fmap_app word_text). change (word_text <$> flush (y :: cur)) with [word_text (y :: cur)]. rewrite (app_assoc out).
      apply (Hgo (pre ++ (y :: cur) ++ [x]) []). by rewrite <- !app_assoc.
    + specialize (Hgo pre [x] out eq_refl). rewrite Eb in Hgo. simpl in Hgo |- *. rewrite app_nil_r in *.
      by destruct (bad x).
    + specialize (Hgo (pre ++ y :: cur) [x] (out ++ [word_text (y :: cur)])). rewrite Eb in Hgo.
      rewrite (fmap_app word_text). change (word_text <$> flush (y :: cur)) with [word_text (y :: cur)]. rewrite (app_assoc out).
      rewrite <- Hgo by by rewrite <- app_assoc. by destruct (bad x).
    + specialize (Hgo pre [x] out eq_refl). rewrite Eb in Hgo. simpl in Hgo |- *. rewrite app_nil_r in *.
      by destruct (bad x).
    + specialize (Hgo pre ((y :: cur) ++ [x]) out). rewrite existsb_app, Eb in Hgo.
      rewrite <- Hgo by by rewrite <- !app_assoc. simpl. rewrite (orb_comm (bad y || existsb bad cur)).
      by destruct (bad x).
Qed.

(** The words of a text are the split of its runes. *)
Lemma words_split s : Words s = word_text <$> split fst None [] (runes s).
Proof.
  unfold Words. destruct (String.eqb_spec s "") as [->|Hs]; [done|].
  pose proof (words_loop_spec (runes s) (S (String.length s)) [] [] None []) as Hl.
  change ([] ++ [] ++ runes s) with (runes s) in Hl. rewrite runes_concat in Hl. apply Hl; [apply well_runes|].
  assert (∀ l, well l → length l ≤ String.length (cat l.*2)) as Hlen.
  { induction l as [|x l IH]; [done|]. intros (Hx & _ & Hw)%well_cons. 
    change (cat (x :: l).*2) with (x.2 +:+ cat l.*2). rewrite append_length. specialize (IH Hw).
    cbn [length]. assert (0 < String.length x.2) by (destruct x.2; [done|simpl; lia]). lia. }
  specialize (Hlen (runes s) (well_runes s)). rewrite runes_concat in Hlen. lia.
Qed.
End Words.

(** ** ASCII names *)

Section Ascii.
Context `{CaseTables}.

Abbreviation txt := String.string_of_list_ascii.

Definition is_ascii (a : ascii) : Prop := (code a < 128)%N.
Definition upper (a : ascii) : Prop := (65 <= code a <= 90)%N.
Definition lower (a : ascii) : Prop := (97 <= code a <= 122)%N.
Definition letter (a : ascii) : Prop := upper a ∨ lower a.
Definition separator (a : ascii) : Prop := isSeparator (code a) = true.
Definition low (a : ascii) : ascii := ascii_of_N (to_lower (code a)).
Definition up (a : ascii) : ascii := ascii_of_N (to_upper (code a)).

Lemma letter_is_ascii a : letter a → is_ascii a.
Proof. unfold letter, upper, lower, is_ascii. lia. Qed.

Lemma code_inj a b : code a = code b → a = b.
Proof. unfold code. intros E. by rewrite <- (ascii_N_embedding a), E, ascii_N_embedding. Qed.

Lemma code_of n : (n < 256)%N → code (ascii_of_N n) = n.
Proof. apply N_ascii_embedding. Qed.

Lemma isSeparator_codes r : isSeparator r = existsb (N.eqb r) [95; 45; 46; 32; 9; 47]%N.
Proof. done. Qed.

Lemma not_separator r : (48 <= r)%N → r ≠ 95%N → isSeparator r = false.
Proof.
  intros Hr Hu. rewrite isSeparator_codes. cbn [existsb].
  repeat (apply orb_false_iff; split; [apply N.eqb_neq; lia|]). done.
Qed.

Lemma lower_case a : lower a → is_lower (code a) = true ∧ is_upper (code a) = false ∧ isSeparator (code a) = false.
Proof.
  intros Ha. pose proof (letter_is_ascii a (or_intror Ha)). rewrite lower_ascii, upper_ascii by done. unfold lower in Ha.
  unfold ascii_lower_case, ascii_upper, between. split_and!.
  - apply andb_true_iff. rewrite !N.leb_le. lia.
  - apply andb_false_iff. rewrite !N.leb_gt. lia.
  - apply not_separator; lia.
Qed.

Lemma upper_case a : upper a → is_upper (code a) = true ∧ is_lower (code a) = false ∧ isSeparator (code a) = false.
Proof.
  intros Ha. pose proof (letter_is_ascii a (or_introl Ha)). rewrite lower_ascii, upper_ascii by done. unfold upper in Ha.
  unfold ascii_lower_case, ascii_upper, between. split_and!.
  - apply andb_true_iff. rewrite !N.leb_le. lia.
  - apply andb_false_iff. rewrite !N.leb_gt. lia.
  - apply not_separator; lia.
Qed.

Lemma separator_case a : separator a → is_upper (code a) = false ∧ is_lower (code a) = false ∧ is_ascii a.
Proof.
  unfold separator, isSeparator. cbn [existsb]. rewrite !orb_true_iff, !N.eqb_eq. intros Ha.
  assert (a = "_"%char ∨ a = "-"%char ∨ a = "."%char ∨ a = " "%char ∨ a = "009"%char ∨ a = "/"%char) as Hs.
  { naive_solver eauto using code_inj. }
  clear Ha. assert (is_ascii a) as Hascii by (destruct Hs as [->|[->|[->|[->|[->| ->]]]]]; done).
  rewrite upper_ascii, lower_ascii by done. by destruct Hs as [->|[->|[->|[->|[->| ->]]]]].
Qed.

Lemma code_low a : is_ascii a → code (low a) = (if ascii_upper (code a) then code a + 32 else code a)%N.
Proof.
  intros Ha. unfold low. unfold is_ascii in Ha. rewrite to_lower_ascii by done. apply code_of. destruct (ascii_upper _); lia.
Qed.

Lemma code_up a : is_ascii a → code (up a) = (if ascii_lower_case (code a) then code a - 32 else code a)%N.
Proof.
  intros Ha. unfold up. unfold is_ascii in Ha. rewrite to_upper_ascii by done. apply code_of. destruct (ascii_lower_case _); lia.
Qed.

Lemma ascii_upper_iff a : ascii_upper (code a) = true ↔ upper a.
Proof. apply between_iff. Qed.
Lemma ascii_lower_iff a : ascii_lower_case (code a) = true ↔ lower a.
Proof. apply between_iff. Qed.

Lemma low_letter a : letter a → lower (low a).
Proof.
  intros Ha. unfold lower. rewrite code_low by by apply letter_is_ascii.
  destruct (ascii_upper (code a)) eqn:E; [apply ascii_upper_iff in E; unfold upper in E; lia|].
  destruct Ha as [Ha%ascii_upper_iff|Ha]; [congruence|done].
Qed.

Lemma up_letter a : letter a → upper (up a).
Proof.
  intros Ha. unfold upper. rewrite code_up by by apply letter_is_ascii.
  destruct (ascii_lower_case (code a)) eqn:E; [apply ascii_lower_iff in E; unfold lower in E; lia|].
  destruct Ha as [Ha|Ha%ascii_lower_iff]; [done|congruence].
Qed.

Lemma low_lower a : lower a → low a = a.
Proof.
  intros Ha. apply code_inj. rewrite code_low by by apply letter_is_ascii; right.
  destruct (ascii_upper (code a)) eqn:E; [|done]. apply ascii_upper_iff in E. unfold upper, lower in *. lia.
Qed.

Lemma up_upper a : upper a → up a = a.
Proof.
  intros Ha. apply code_inj. rewrite code_up by by apply letter_is_ascii; left.
  destruct (ascii_lower_case (code a)) eqn:E; [|done]. apply ascii_lower_iff in E. unfold upper, lower in *. lia.
Qed.

Lemma up_low a : letter a → up (low a) = up a.
Proof.
  intros Ha. pose proof (low_letter a Ha) as Hl. apply code_inj.
  rewrite code_up by by apply letter_is_ascii; right. rewrite (proj2 (ascii_lower_iff _) Hl).
  rewrite code_up, code_low by by apply letter_is_ascii. destruct Ha as [Ha|Ha].
  - rewrite (proj2 (ascii_upper_iff _) Ha). destruct (ascii_lower_case (code a)) eqn:E; [|lia].
    apply ascii_lower_iff in E. unfold upper, lower in *. lia.
  - rewrite (proj2 (ascii_lower_iff _) Ha). destruct (ascii_upper (code a)) eqn:E; [|lia].
    apply ascii_upper_iff in E. unfold upper, lower in *. lia.
Qed.

(** On ASCII text the model is about lists of characters. *)
Lemma runes_txt l : Forall is_ascii l → runes (txt l) = (λ a, (code a, String a "")) <$> l.
Proof. induction 1 as [|a l Ha _ IH]; [done|]. cbn [txt]. rewrite runes_ascii_cons by done. by rewrite IH. Qed.

Lemma encode_ascii n : (n < 128)%N → encode_rune n = String (ascii_of_N n) "".
Proof. intros Hn. unfold encode_rune. by rewrite (proj2 (N.ltb_lt _ _) Hn). Qed.

Lemma txt_cat (f : ascii → ascii) l : cat ((λ a, String (f a) "") <$> l) = txt (f <$> l).
Proof. induction l as [|a l IH]; [done|]. rewrite !fmap_cons. cbn [foldr]. rewrite IH. done. Qed.

Lemma words_txt l : Forall is_ascii l → Words (txt l) = txt <$> split code None [] l.
Proof.
  intros Hl. rewrite words_split, runes_txt by done.
  rewrite (split_fmap code fst (λ a, (code a, String a "")) None [] l) by done.
  rewrite <- list_fmap_compose. apply list_fmap_ext. intros i w Hi. simpl.
  assert (Forall is_ascii w) as Hw.
  { apply Forall_forall. intros a Ha. rewrite Forall_forall in Hl. apply Hl.
    assert (a ∈ concat (split code None [] l)) as Hin.
    { apply list_elem_of_In, in_concat. exists w. split; apply list_elem_of_In; [by eapply list_elem_of_lookup_2|done]. }
    rewrite split_concat in Hin. simpl in Hin. by apply list_elem_of_filter in Hin as [_ ?]. }
  clear Hi. induction Hw as [|a w Ha _ IH]; [done|]. unfold word_text in *. rewrite !fmap_cons. cbn [foldr].
  rewrite IH. cbn [fst]. rewrite encode_ascii by done. unfold code. by rewrite ascii_N_embedding.
Qed.
End Ascii.

(** ** Words that stay together *)

Section Styles.
Context `{CaseTables}.

Abbreviation txt := String.string_of_list_ascii.
Abbreviation split := (split code).

Definition last_code (p : option N) (l : list ascii) : option N := fold_left (λ _ a, Some (code a)) l p.

Lemma last_code_app p l k : last_code p (l ++ k) = last_code (last_code p l) k.
Proof. apply fold_left_app. Qed.

Lemma split_lowers ls p cur rest :
  Forall lower ls → split p cur (ls ++ rest) = split (last_code p ls) (cur ++ ls) rest.
Proof.
  intros Hl. revert p cur. induction Hl as [|a ls Ha _ IH]; intros p cur; simpl; [by rewrite app_nil_r|].
  destruct (lower_case a Ha) as (_ & Hu & ->). assert (breaks code p (code a) (ls ++ rest) = false) as ->.
  { destruct p; [|done]. simpl. by rewrite Hu, !andb_false_r. }
  by rewrite IH, <- app_assoc.
Qed.

(** No boundary before an upper-case letter: the previous rune is not a
    lower-case one and no lower-case one follows. *)
Definition calm (p : option N) : Prop := match p with Some r => is_lower r = false | None => True end.

Lemma split_uppers us p cur rest :
  Forall upper us → calm p → ahead code rest = false →
  split p cur (us ++ rest) = split (last_code p us) (cur ++ us) rest.
Proof.
  intros Hu. revert p cur. induction Hu as [|a us Ha Hus IH]; intros p cur Hp Hr; simpl; [by rewrite app_nil_r|].
  destruct (upper_case a Ha) as (_ & Hl & ->). assert (breaks code p (code a) (us ++ rest) = false) as ->.
  { destruct p as [r|]; [|done]. simpl in Hp |- *. rewrite Hp. simpl.
    assert (ahead code (us ++ rest) = false) as ->; [|by rewrite andb_false_r].
    destruct Hus as [|b us Hb _]; [done|]. simpl. by destruct (upper_case b Hb) as (_ & -> & _). }
  by rewrite IH, <- app_assoc.
Qed.

(** A word that the split keeps in one piece. *)
Inductive shape : list ascii → Prop :=
| shape_lower ls : ls ≠ [] → Forall lower ls → shape ls
| shape_upper us : us ≠ [] → Forall upper us → shape us
| shape_title u ls : upper u → ls ≠ [] → Forall lower ls → shape (u :: ls).

(** Between words: nothing or a separator came before. *)
Definition between_words (p : option N) : Prop :=
  match p with Some r => is_lower r = false ∧ is_upper r = false | None => True end.

Lemma split_shape w p rest :
  shape w → between_words p → ahead code rest = false → split p [] (w ++ rest) = split (last_code p w) w rest.
Proof.
  intros Hw Hp Hr. assert (calm p) as Hc by (destruct p; [by destruct Hp|done]).
  destruct Hw as [ls _ Hl|us _ Hu|u ls Hu Hne Hl]; [by apply split_lowers|by apply split_uppers|].
  simpl. destruct (upper_case u Hu) as (_ & _ & ->). assert (breaks code p (code u) (ls ++ rest) = false) as ->.
  { destruct p as [r|]; [|done]. simpl. by destruct Hp as [-> ->]. }
  by rewrite split_lowers.
Qed.

Lemma shape_nonempty w : shape w → w ≠ [].
Proof. by destruct 1. Qed.

(** Words joined by a separator are found again. *)
Fixpoint join (sep : ascii) (ws : list (list ascii)) : list ascii :=
  match ws with [] => [] | [w] => w | w :: ws => w ++ sep :: join sep ws end.

Lemma split_joined_words sep ws p :
  separator sep → Forall shape ws → between_words p → split p [] (join sep ws) = ws.
Proof.
  intros Hs Hws. destruct (separator_case sep Hs) as (Hu & Hl & _). revert p.
  induction Hws as [|w ws Hw Hws IH]; intros p Hp; [done|].
  assert (flush w = [w]) as Ef by (pose proof (shape_nonempty w Hw); by destruct w).
  destruct ws as [|w' ws].
  - simpl. rewrite <- (app_nil_r w) at 1. rewrite split_shape by done. simpl. done.
  - change (join sep (w :: w' :: ws)) with (w ++ sep :: join sep (w' :: ws)).
    rewrite split_shape by (done || simpl; by rewrite Hl). cbn [NamingLaws.split]. rewrite Hs, Ef.
    simpl. f_equal. apply IH. simpl. done.
Qed.

(** ** Title words *)

Context (c : Caser).

Definition title_of (w : list ascii) : list ascii := match w with [] => [] | a :: w => up a :: (low <$> w) end.

(** What the title-casing writers produce. *)
Inductive titled : list ascii → Prop :=
| titled_upper us : us ≠ [] → Forall upper us → titled us
| titled_title u ls : upper u → ls ≠ [] → Forall lower ls → initialisms c !! txt (up <$> (u :: ls)) = None →
    titled (u :: ls).

Lemma titled_shape t : titled t → shape t.
Proof. destruct 1; [by apply shape_upper|by apply shape_title]. Qed.

Lemma titled_head t : titled t → ∃ u t', t = u :: t' ∧ upper u.
Proof. destruct 1 as [us Hne Hu|u ls Hu _ _ _]; [|eauto]. destruct Hu; [done|eauto]. Qed.

Lemma ahead_titles ts : Forall titled ts → ahead code (concat ts) = false.
Proof.
  destruct 1 as [|t ts Ht _]; [done|]. destruct (titled_head t Ht) as (u & t' & -> & Hu). simpl.
  by destruct (upper_case u Hu) as (_ & -> & _).
Qed.

Lemma last_lower p ls : ls ≠ [] → Forall lower ls → ∃ r, last_code p ls = Some r ∧ is_lower r = true ∧ is_upper r = false.
Proof.
  intros Hne Hl. destruct (exists_last Hne) as (l & a & ->). rewrite last_code_app. simpl.
  apply Forall_app in Hl as [_ Ha%Forall_inv]. destruct (lower_case a Ha) as (? & ? & _). eauto.
Qed.

Lemma last_upper p us : us ≠ [] → Forall upper us → ∃ r, last_code p us = Some r ∧ is_upper r = true ∧ is_lower r = false.
Proof.
  intros Hne Hl. destruct (exists_last Hne) as (l & a & ->). rewrite last_code_app. simpl.
  apply Forall_app in Hl as [_ Ha%Forall_inv]. destruct (upper_case a Ha) as (? & ? & _). eauto.
Qed.

(** What is open while concatenated title words are scanned. *)
Inductive opened : option N → list ascii → Prop :=
| opened_lower r ls : is_lower r = true → ls ≠ [] → opened (Some r) ls
| opened_upper r us : is_upper r = true → is_lower r = false → us ≠ [] → Forall upper us → opened (Some r) us.

Lemma split_title_break u ls p cur rest :
  opened p cur → upper u → ls ≠ [] → Forall lower ls →
  split p cur ((u :: ls) ++ rest) = cur :: split (last_code (Some (code u)) ls) (u :: ls) rest.
Proof.
  intros Ho Hu Hne Hl. simpl. destruct (upper_case u Hu) as (Eu & _ & ->).
  assert (breaks code p (code u) (ls ++ rest) = true) as ->.
  { destruct Ho as [r ls' Hr _|r us Hr Hr' _ _]; simpl; rewrite Eu, Hr; simpl; [done|].
    destruct Hl as [|a ls Ha _]; [done|]. simpl. destruct (lower_case a Ha) as (-> & _). by rewrite orb_true_r. }
  assert (flush cur = [cur]) as -> by (destruct Ho as [? [] |? [] ]; done). simpl. f_equal. by rewrite split_lowers.
Qed.

(** Concatenated title words split into title words again: neighbours in
    capitals join, all others stay apart. *)
Lemma split_titles ts p cur :
  Forall titled ts → opened p cur → titled cur →
  Forall titled (split p cur (concat ts)) ∧ concat (split p cur (concat ts)) = cur ++ concat ts.
Proof.
  intros Hts. revert p cur. induction Hts as [|t ts Ht Hts IH]; intros p cur Ho Hc.
  { simpl. rewrite concat_flush, app_nil_r. split; [|done]. destruct cur; [constructor|by apply Forall_singleton]. }
  pose proof (ahead_titles ts Hts) as Ha. cbn [concat]. destruct Ht as [us Hne Hu|u ls Hu Hne Hl Hi].
  - destruct Ho as [r ls Hr Hl|r us' Hr Hr' Hne' Hu'].
    + destruct Hu as [|u us Hu Hus]; [done|]. simpl. destruct (upper_case u Hu) as (Eu & El & ->).
      rewrite Hr, Eu. simpl. assert (flush ls = [ls]) as -> by (destruct ls; [by destruct Hl|done]). simpl.
      rewrite split_uppers by done. destruct (last_upper None (u :: us)) as (q & Eq & Hq & Hq'); [done|by constructor|].
      simpl in Eq. destruct (IH (Some q) (u :: us)) as [I1 I2];
        [apply opened_upper; [done..|by constructor]|apply titled_upper; [done|by constructor]|].
      rewrite Eq. simpl. split; [by constructor|]. f_equal. exact I2.
    + rewrite split_uppers by done. destruct (last_upper (Some r) us Hne Hu) as (q & -> & Hq & Hq').
      assert (us' ++ us ≠ [] ∧ Forall upper (us' ++ us)) as [? ?] by (split; [by destruct us'|by apply Forall_app]).
      destruct (IH (Some q) (us' ++ us)) as [I1 I2]; [by apply opened_upper|by apply titled_upper|].
      split; [done|]. by rewrite I2, app_assoc.
  - rewrite split_title_break by done. destruct (last_lower (Some (code u)) ls Hne Hl) as (q & -> & Hq & _).
    destruct (IH (Some q) (u :: ls)) as [I1 I2]; [by apply opened_lower|by apply titled_title|].
    split; [by constructor|]. cbn [concat]. by rewrite I2.
Qed.
End Styles.

(** ** The writers on ASCII words *)

Section Idempotence.
Context `{CaseTables}.

Abbreviation txt := String.string_of_list_ascii.
Abbreviation split := (split code).

Lemma txt_app l k : txt (l ++ k) = txt l +:+ txt k.
Proof. induction l as [|a l IH]; simpl; [done|]. by rewrite IH. Qed.

Lemma txt_concat (ws : list (list ascii)) : cat (txt <$> ws) = txt (concat ws).
Proof. induction ws as [|w ws IH]; [done|]. rewrite fmap_cons. cbn [foldr concat]. by rewrite IH, txt_app. Qed.

Lemma encode_low a : letter a → encode_rune (to_lower (code a)) = String (low a) "".
Proof.
  intros Ha. pose proof (low_letter a Ha) as Hl. assert (code (low a) = to_lower (code a)) as <-.
  { unfold low. apply code_of. rewrite to_lower_ascii by by apply letter_is_ascii. destruct Ha; unfold upper, lower in *; case_match; lia. }
  rewrite encode_ascii by (unfold lower in Hl; lia). unfold code. by rewrite ascii_N_embedding.
Qed.

Lemma encode_up a : is_ascii a → encode_rune (to_upper (code a)) = String (up a) "".
Proof.
  intros Ha. assert (to_upper (code a) = code (up a)) as ->.
  { unfold up. rewrite code_of; [done|]. rewrite to_upper_ascii by done. unfold is_ascii in Ha. case_match; lia. }
  pose proof (code_up a Ha) as Hc. unfold is_ascii in Ha. rewrite encode_ascii by (rewrite Hc; case_match; lia).
  unfold code. by rewrite ascii_N_embedding.
Qed.

Lemma letters_ascii w : Forall letter w → Forall is_ascii w.
Proof. intros Hw. eapply Forall_impl; [exact Hw|]. apply letter_is_ascii. Qed.

Lemma cased_txt b w : Forall letter w → writeCased (txt w) b = txt ((if b then up else low) <$> w).
Proof.
  intros Hw. unfold writeCased. rewrite runes_txt by by apply letters_ascii. rewrite <- list_fmap_compose, <- txt_cat.
  induction Hw as [|a w Ha _ IH]; [done|]. rewrite !fmap_cons. cbn [foldr]. rewrite IH. f_equal. simpl.
  destruct b; [by apply encode_up, letter_is_ascii|by apply encode_low].
Qed.

(** The stack buffer and [strings.ToUpper] agree. *)
Lemma lookup_txt c w : Forall is_ascii w → lookupInitialism c (txt w) = initialisms c !! txt (up <$> w).
Proof.
  intros Hw. assert (probe_buffer (txt w) = Some (txt (up <$> w))) as Ep.
  { induction Hw as [|a w Ha _ IH]; [done|]. rewrite fmap_cons. cbn [String.string_of_list_ascii probe_buffer].
    unfold is_ascii in Ha. rewrite (proj2 (N.leb_gt _ _)) by done. rewrite IH. simpl. do 2 f_equal.
    apply code_inj. rewrite code_up by done. destruct (ascii_lower_case (code a)) eqn:E; [|done].
    apply code_of. lia. }
  assert (strings_ToUpper (txt w) = txt (up <$> w)) as Eu.
  { clear Ep. unfold strings_ToUpper. rewrite runes_txt by done. rewrite <- list_fmap_compose, <- txt_cat.
    induction Hw as [|a w Ha _ IH]; [done|]. rewrite !fmap_cons. cbn [foldr]. rewrite IH. f_equal. simpl. by apply encode_up. }
  unfold lookupInitialism. rewrite Ep, Eu. by destruct (_ <=? _).
Qed.

Lemma allupper_txt w : isAllUpperASCII (txt w) = true ↔ Forall upper w.
Proof.
  unfold isAllUpperASCII. induction w as [|a w IH]; simpl; [split; [constructor|done]|].
  rewrite andb_true_iff, IH, Forall_cons. by rewrite ascii_upper_iff.
Qed.

Lemma titlecased_txt w : Forall letter w → writeTitleCased (txt w) = txt (title_of w).
Proof.
  intros Hw. unfold writeTitleCased. rewrite runes_txt by by apply letters_ascii.
  destruct Hw as [|a w Ha Hw]; [done|]. rewrite fmap_cons. cbn [fst]. unfold upperRune, lowerRune.
  rewrite encode_up by by apply letter_is_ascii. simpl. f_equal. rewrite <- list_fmap_compose, <- txt_cat.
  induction Hw as [|b w Hb _ IH]; [done|]. rewrite !fmap_cons. cbn [foldr]. rewrite IH. f_equal. simpl. by apply encode_low.
Qed.

(** Casers as the package builds them. *)
Inductive built : Caser → Prop :=
| built_new : built New
| built_default : built Default
| built_with c ws c' : built c → WithInitialisms c ws = Ok c' → built c'.

Lemma built_canonical c k v : built c → initialisms c !! k = Some v → v = k.
Proof.
  assert (∀ ws (m : gmap string string), (∀ k v, m !! k = Some v → v = k) → ∀ k v,
    fold_left (λ m w, <[w := w]> m) ws m !! k = Some v → v = k) as Hfold.
  { induction ws as [|w ws IH]; intros m Hm; [done|]. apply IH. intros k' v'.
    rewrite lookup_insert_Some. naive_solver. }
  intros Hb. revert k v. induction Hb as [| |c ws c' _ IH E]; intros k v.
  - simpl. by rewrite lookup_empty.
  - apply Hfold. intros ? ?. by rewrite lookup_empty.
  - unfold WithInitialisms in E. destruct (with_loop (initialisms c) ws) as [m|] eqn:Em; simplify_eq. simpl.
    revert m Em. generalize dependent (initialisms c). induction ws as [|w ws IHw]; intros m0 H0 m Em; simpl in Em.
    + simplify_eq. auto.
    + destruct (negb (isValidInitialism w)); [done|]. eapply IHw; [|exact Em].
      intros k' v'. rewrite lookup_insert_Some. naive_solver.
Qed.

Context (c : Caser) (Hc : built c).

Lemma title_txt w : w ≠ [] → Forall letter w → ∃ t, writeTitleWord c (txt w) = txt t ∧ titled c t.
Proof using Hc.
  intros Hne Hw. assert (Forall upper (up <$> w)) as Hup.
  { apply Forall_fmap. eapply Forall_impl; [exact Hw|]. apply up_letter. }
  unfold writeTitleWord. rewrite lookup_txt by by apply letters_ascii.
  destruct (initialisms c !! txt (up <$> w)) as [v|] eqn:Ei.
  { rewrite (built_canonical c _ v Hc Ei). exists (up <$> w). split; [done|]. apply titled_upper; [by destruct w|done]. }
  destruct (isAllUpperASCII (txt w)) eqn:Ea.
  { exists w. split; [done|]. apply titled_upper; [done|by apply allupper_txt]. }
  rewrite titlecased_txt by done. exists (title_of w). split; [done|].
  destruct Hw as [|a w Ha Hw]; [done|]. simpl. destruct w as [|b w].
  { apply titled_upper; [done|]. apply Forall_singleton. by apply up_letter. }
  apply titled_title; [by apply up_letter|done| |].
  - apply Forall_fmap. eapply Forall_impl; [exact Hw|]. apply low_letter.
  - assert (up <$> (up a :: (low <$> b :: w)) = up <$> (a :: b :: w)) as E; [|by rewrite E].
    rewrite (fmap_cons up (up a)), (fmap_cons up a). f_equal; [by apply up_upper, up_letter|].
    rewrite <- list_fmap_compose. apply list_fmap_ext. intros i x Hx. simpl. apply up_low.
    by eapply Forall_lookup_1 in Hx.
Qed.

Lemma titled_fixed t : titled c t → writeTitleWord c (txt t) = txt t.
Proof using Hc.
  destruct 1 as [us Hne Hu|u ls Hu Hne Hl Hi]; unfold writeTitleWord.
  - assert (Forall letter us) as Hle by (eapply Forall_impl; [exact Hu|by left]).
    assert (up <$> us = us) as E.
    { rewrite <- (list_fmap_id us) at 2. apply list_fmap_ext. intros i x Hx. simpl. apply up_upper. by eapply Forall_lookup_1 in Hx. }
    rewrite lookup_txt, E by by apply letters_ascii. destruct (initialisms c !! txt us) as [v|] eqn:Ei.
    { by rewrite (built_canonical c _ v Hc Ei). }
    by rewrite (proj2 (allupper_txt us) Hu).
  - assert (Forall letter (u :: ls)) as Hle.
    { constructor; [by left|]. eapply Forall_impl; [exact Hl|by right]. }
    rewrite lookup_txt, Hi by by apply letters_ascii. destruct (isAllUpperASCII (txt (u :: ls))) eqn:Ea; [done|].
    rewrite titlecased_txt by done. simpl. rewrite up_upper by done. do 2 f_equal.
    rewrite <- (list_fmap_id ls) at 2. apply list_fmap_ext. intros i x Hx. simpl. apply low_lower. by eapply Forall_lookup_1 in Hx.
Qed.
End Idempotence.

(** ** The styles *)

Section Theorems.
Context `{CaseTables}.

Abbreviation txt := String.string_of_list_ascii.
Abbreviation split := (split code).

(** Text made of ASCII letters and separators. *)
Definition name_byte (a : ascii) : bool := ascii_upper (code a) || ascii_lower_case (code a) || isSeparator (code a).

Lemma name_bytes s : str_all name_byte s = true → ∃ l, s = txt l ∧ Forall (λ a, letter a ∨ separator a) l.
Proof.
  intros Hs. exists (String.list_ascii_of_string s). split; [by rewrite String.string_of_list_ascii_of_string|].
  induction s as [|a s IH]; simpl in *; [constructor|]. apply andb_true_iff in Hs as [Ha Hs]. constructor; [|auto].
  unfold name_byte in Ha. rewrite !orb_true_iff, ascii_upper_iff, ascii_lower_iff in Ha. unfold letter, separator. tauto.
Qed.

(** The words of such text are non-empty and made of letters. *)
Lemma name_words l :
  Forall (λ a, letter a ∨ separator a) l →
  Words (txt l) = txt <$> split None [] l ∧ Forall (λ w, w ≠ [] ∧ Forall letter w) (split None [] l).
Proof.
  intros Hl. split.
  - apply words_txt. eapply Forall_impl; [exact Hl|]. intros a [Ha|Ha]; [by apply letter_is_ascii|].
    by apply separator_case in Ha as (_ & _ & ?).
  - pose proof (split_nonempty code None [] l) as Hne. rewrite Forall_forall in Hne |- *. intros w Hw. split; [auto|].
    apply Forall_forall. intros a Ha. assert (a ∈ concat (split None [] l)) as Hin.
    { apply list_elem_of_In, in_concat. exists w. split; by apply list_elem_of_In. }
    rewrite split_concat in Hin. simpl in Hin. apply list_elem_of_filter in Hin as [Hs Hin].
    rewrite Forall_forall in Hl. destruct (Hl a Hin) as [?|Hsep]; [done|]. unfold separator in Hsep. congruence.
Qed.

Lemma titles_exist c ws :
  built c → Forall (λ w, w ≠ [] ∧ Forall letter w) ws →
  ∃ ts, writeTitleWord c <$> (txt <$> ws) = txt <$> ts ∧ Forall (titled c) ts.
Proof.
  intros Hc. induction 1 as [|w ws [Hne Hw] _ (ts & E & Ht)]; [by exists []|].
  destruct (title_txt c Hc w Hne Hw) as (t & Et & Htt). exists (t :: ts).
  rewrite !fmap_cons, Et, E. split; [done|by constructor].
Qed.

Lemma titles_fixed c ts : built c → Forall (titled c) ts → writeTitleWord c <$> (txt <$> ts) = txt <$> ts.
Proof.
  intros Hc. induction 1 as [|t ts Ht _ IH]; [done|]. by rewrite !fmap_cons, IH, titled_fixed.
Qed.

Lemma titled_letters c t : titled c t → Forall letter t.
Proof.
  destruct 1 as [us _ Hu|u ls Hu _ Hl _]; [eapply Forall_impl; [exact Hu|by left]|].
  constructor; [by left|]. eapply Forall_impl; [exact Hl|by right].
Qed.

Lemma concat_letters (ts : list (list ascii)) : Forall (Forall letter) ts → Forall (λ a, letter a ∨ separator a) (concat ts).
Proof.
  induction 1 as [|t ts Ht _ IH]; simpl; [constructor|]. apply Forall_app. split; [|done].
  eapply Forall_impl; [exact Ht|]. by left.
Qed.

Lemma join_letters sep ts :
  separator sep → Forall (Forall letter) ts → Forall (λ a, letter a ∨ separator a) (join sep ts).
Proof.
  intros Hs. induction 1 as [|t ts Ht Hts IH]; [constructor|].
  assert (Forall (λ a, letter a ∨ separator a) t) by (eapply Forall_impl; [exact Ht|by left]).
  destruct ts as [|t' ts]; [done|]. change (join sep (t :: t' :: ts)) with (t ++ sep :: join sep (t' :: ts)).
  apply Forall_app. split; [done|]. constructor; [by right|done].
Qed.

Lemma join_loop_txt f sep ws ts first :
  f <$> ws = txt <$> ts →
  join_loop f (String sep "") first ws = (if first then "" else match ts with [] => "" | _ => String sep "" end) +:+ txt (join sep ts).
Proof.
  revert ts first. induction ws as [|w ws IH]; intros [|t ts] first E; simpl in E; simplify_eq.
  { by destruct first. }
  cbn [join_loop]. rewrite (IH ts false) by done. destruct ts as [|t' ts].
  - rewrite H0. simpl. destruct first; simpl; by rewrite ?append_nil_r.
  - change (join sep (t :: t' :: ts)) with (t ++ sep :: join sep (t' :: ts)). rewrite txt_app, H0.
    cbn [String.string_of_list_ascii]. by destruct first.
Qed.

(** Joined styles: the words of the output are the words that were joined. *)
Lemma joined_again f sep s ts :
  separator sep → f <$> Words s = txt <$> ts → Forall shape ts → Forall (Forall letter) ts → f <$> (txt <$> ts) = txt <$> ts →
  let out := join_loop f (String sep "") true (Words s) in
  join_loop f (String sep "") true (Words out) = out.
Proof.
  intros Hs E Hsh Hl Hf. cbv zeta. rewrite (join_loop_txt f sep (Words s) ts true E). cbn [String.append].
  destruct (name_words (join sep ts) (join_letters sep ts Hs Hl)) as [-> _].
  rewrite split_joined_words by done. by rewrite (join_loop_txt f sep _ ts true Hf).
Qed.

Lemma cased_again (up' : bool) sep s :
  separator sep → str_all name_byte s = true →
  joined (joined s (String sep "") up') (String sep "") up' = joined s (String sep "") up'.
Proof.
  intros Hs (l & -> & Hl)%name_bytes. destruct (name_words l Hl) as [Ew Hws].
  set (f := if up' then up else low). unfold joined.
  assert (∀ ws : list (list ascii), Forall (λ w, w ≠ [] ∧ Forall letter w) ws →
    (λ w, writeCased w up') <$> (txt <$> ws) = txt <$> (fmap f <$> ws)) as Hf.
  { induction 1 as [|w ws [_ Hw] _ IH]; [done|]. rewrite !fmap_cons, IH. f_equal. by apply cased_txt. }
  assert (∀ a, letter a → letter (f a)) as Hfl.
  { intros a Ha. destruct up'; [left; by apply up_letter|right; by apply low_letter]. }
  apply (joined_again (λ w, writeCased w up') sep _ ((fmap f : list ascii → list ascii) <$> split None [] l)); [done| | | |].
  - rewrite Ew. by apply Hf.
  - apply Forall_fmap. eapply Forall_impl; [exact Hws|]. intros w [Hne Hw]. simpl. unfold f. destruct up'.
    + apply shape_upper; [by destruct w|]. apply Forall_fmap. eapply Forall_impl; [exact Hw|]. apply up_letter.
    + apply shape_lower; [by destruct w|]. apply Forall_fmap. eapply Forall_impl; [exact Hw|]. apply low_letter.
  - apply Forall_fmap. eapply Forall_impl; [exact Hws|]. intros w [_ Hw]. simpl. apply Forall_fmap.
    eapply Forall_impl; [exact Hw|]. apply Hfl.
  - rewrite Hf.
    + f_equal. rewrite <- list_fmap_compose. apply list_fmap_ext. intros i w Hi. simpl.
      destruct (Forall_lookup_1 _ _ _ _ Hws Hi) as [_ Hw]. rewrite <- list_fmap_compose. apply list_fmap_ext.
      intros j a Ha. simpl. pose proof (Forall_lookup_1 _ _ _ _ Hw Ha) as Hla. simpl in Hla. unfold f.
      destruct up'; [by apply up_upper, up_letter|by apply low_lower, low_letter].
    + apply Forall_fmap. eapply Forall_impl; [exact Hws|]. intros w [Hne Hw]. simpl. split; [by destruct w|].
      apply Forall_fmap. eapply Forall_impl; [exact Hw|]. apply Hfl.
Qed.
End Theorems.

Section Styles_again.
Context `{CaseTables} (c : Caser) (Hc : built c).

Abbreviation txt := String.string_of_list_ascii.
Abbreviation split := (split code).

Lemma title_again s : str_all name_byte s = true → Title c (Title c s) = Title c s.
Proof using Hc.
  intros (l & -> & Hl)%name_bytes. destruct (name_words l Hl) as [Ew Hws].
  destruct (titles_exist c _ Hc Hws) as (ts & E & Hts). rewrite <- Ew in E.
  apply (joined_again (writeTitleWord c) " "%char (txt l) ts); [done|done| | |by apply titles_fixed];
    (eapply Forall_impl; [exact Hts|]); [apply titled_shape|apply titled_letters].
Qed.

Lemma opened_titled p t : titled c t → opened (last_code p t) t.
Proof.
  destruct 1 as [us Hne Hu|u ls Hu Hne Hl _].
  - destruct (last_upper p us Hne Hu) as (r & -> & ? & ?). by apply opened_upper.
  - destruct (last_lower (Some (code u)) ls Hne Hl) as (r & E & ? & ?). simpl. rewrite E. by apply opened_lower.
Qed.

Lemma split_pascal ts :
  Forall (titled c) ts →
  Forall (titled c) (split None [] (concat ts)) ∧ concat (split None [] (concat ts)) = concat ts.
Proof.
  destruct 1 as [|t ts Ht Hts]; [by split; [constructor|]|]. cbn [concat].
  rewrite split_shape; [|by eapply titled_shape|done|by eapply ahead_titles].
  apply split_titles; [done|by apply opened_titled|done].
Qed.

Lemma pascal_again s : str_all name_byte s = true → Pascal c (Pascal c s) = Pascal c s.
Proof using Hc.
  intros (l & -> & Hl)%name_bytes. destruct (name_words l Hl) as [Ew Hws].
  destruct (titles_exist c _ Hc Hws) as (ts & E & Hts). unfold Pascal at 2 3. rewrite Ew, E, txt_concat.
  destruct (split_pascal ts Hts) as [S1 S2]. unfold Pascal.
  assert (Forall (Forall letter) ts) as Hlt by (eapply Forall_impl; [exact Hts|apply titled_letters]).
  destruct (name_words (concat ts) (concat_letters ts Hlt)) as [-> _]. rewrite titles_fixed, txt_concat by done. by rewrite S2.
Qed.

(** After a lower-case first word. *)
Lemma split_camel ls ts :
  ls ≠ [] → Forall lower ls → Forall (titled c) ts →
  ∃ ws, split None [] (ls ++ concat ts) = ls :: ws ∧ Forall (titled c) ws ∧ concat ws = concat ts.
Proof.
  intros Hne Hl Hts. rewrite split_lowers by done. destruct (last_lower None ls Hne Hl) as (r & -> & Hr & _). simpl ([] ++ ls).
  destruct Hts as [|t ts Ht Hts]; [exists []; split_and!; [by destruct ls|constructor|done]|].
  assert (opened (Some r) ls) as Ho by by apply opened_lower. cbn [concat].
  destruct (titled_head c t Ht) as (u & t' & -> & Hu). assert (split (Some r) ls ((u :: t') ++ concat ts) =
    ls :: split (last_code None (u :: t')) (u :: t') (concat ts)) as ->.
  { inversion Ht as [us _ Hus E|u' ls' _ Hne' Hl' _ E]; subst; [|by rewrite split_title_break].
    apply Forall_cons in Hus as [_ Hus]. simpl. destruct (upper_case u Hu) as (Eu & El & ->). rewrite Hr, Eu. simpl.
    assert (flush ls = [ls]) as -> by by destruct ls. simpl. f_equal.
    apply split_uppers; [done|done|by eapply ahead_titles]. }
  eexists. split; [done|]. apply split_titles; [done|by apply opened_titled|done].
Qed.

Lemma camel_again s : str_all name_byte s = true → Camel c (Camel c s) = Camel c s.
Proof using Hc.
  intros (l & -> & Hl)%name_bytes. destruct (name_words l Hl) as [Ew Hws]. unfold Camel at 2 3. rewrite Ew.
  destruct Hws as [|w ws [Hne Hw] Hws]; [done|]. rewrite fmap_cons.
  destruct (titles_exist c ws Hc Hws) as (ts & E & Hts). rewrite E, txt_concat, (cased_txt false), <- txt_app by done.
  set (ls := low <$> w). assert (Forall lower ls) as Hls.
  { apply Forall_fmap. eapply Forall_impl; [exact Hw|]. apply low_letter. }
  assert (Forall letter ls) as Hll by (eapply Forall_impl; [exact Hls|by right]).
  destruct (split_camel ls ts) as (ws' & Es & Hts' & Ec); [by destruct w|done|done|].
  assert (Forall (λ a, letter a ∨ separator a) (ls ++ concat ts)) as Hout.
  { apply Forall_app. split; [eapply Forall_impl; [exact Hll|by left]|].
    apply concat_letters. eapply Forall_impl; [exact Hts|apply titled_letters]. }
  unfold Camel. destruct (name_words _ Hout) as [-> _]. rewrite Es, fmap_cons.
  rewrite titles_fixed, txt_concat, Ec by done. rewrite (cased_txt false), txt_app by done. do 2 f_equal.
  rewrite <- (list_fmap_id ls) at 2. apply list_fmap_ext. intros i a Ha. simpl. apply low_lower.
  by eapply Forall_lookup_1 in Ha.
Qed.
End Styles_again.

(** every case style is idempotent on names: for a text of ASCII letters
    and separators and any caser the package builds, converting a converted
    name again returns it unchanged, in all eight styles, whatever the
    initialisms are. *)
Theorem styles_are_idempotent `{CaseTables} c s :
  built c → str_all name_byte s = true →
  Pascal c (Pascal c s) = Pascal c s ∧ Camel c (Camel c s) = Camel c s ∧ Title c (Title c s) = Title c s ∧
  Snake (Snake s) = Snake s ∧ ScreamingSnake (ScreamingSnake s) = ScreamingSnake s ∧
  Kebab (Kebab s) = Kebab s ∧ ScreamingKebab (ScreamingKebab s) = ScreamingKebab s ∧ Dot (Dot s) = Dot s.
Proof.
  intros Hc Hs. split_and!; [by apply pascal_again|by apply camel_again|by apply title_again|..];
    by apply cased_again.
Qed.

Lemma styles_are_idempotent_witness :
  Pascal Default "http_server-URLPath" = "HTTPServerURLPath" ∧ Pascal Default "HTTPServerURLPath" = "HTTPServerURLPath".
Proof.
  split; [vm_compute; reflexivity|].
  change "HTTPServerURLPath" with (Pascal Default "http_server-URLPath").
  apply (styles_are_idempotent Default "http_server-URLPath"); [apply built_default|vm_compute; reflexivity].
Defined.

(** splitting loses nothing but separators: the words of any text, invalid
    UTF-8 included, are non-empty, and joined without anything in between they
    are the text without its separator runes, where an invalid byte reads as
    the replacement character. *)
Theorem words_conserve_text `{CaseTables} s :
  Forall (λ w, w ≠ "") (Words s) ∧
  cat (Words s) = cat ((λ x, encode_rune x.1) <$> filter (λ x, isSeparator x.1 = false) (runes s)).
Proof.
  assert (∀ r, encode_rune r ≠ "") as Hne.
  { intros r. unfold encode_rune. by repeat case_match. }
  rewrite words_split. split.
  - apply Forall_fmap. eapply Forall_impl; [apply split_nonempty|]. intros [|x w] Hw; [done|].
    unfold word_text. simpl. specialize (Hne x.1). by destruct (encode_rune x.1).
  - rewrite <- (app_nil_l (filter _ _)), <- (split_concat fst None []). generalize (split fst None [] (runes s)).
    intros ws. induction ws as [|w ws IH]; [done|]. rewrite fmap_cons. cbn [concat foldr].
    by rewrite fmap_app, cat_app, <- IH.
Qed.

(** Outside that domain the second application need not be a fixed point,
    although the documentation of [Caser] says it always is: re-splitting
    brings "utf" and "8" together to an initialism, whose spelling is then read
    as one word with its neighbour. *)
Theorem fixed_point_takes_longer :
  Pascal Default "uUtf_8" = "UUtf8" ∧ Pascal Default "UUtf8" = "UUTF8" ∧ Pascal Default "UUTF8" = "Uutf8".
Proof. vm_compute. done. Qed.

(** * core/naming: identifiers

    [Identifier] of [src/core/naming/identifier.go] answers an identifier for
    every input and leaves identifiers alone. *)

Section Identifiers.
Context `{UnicodeTables}.

Definition starts (r : N) : bool := (r =? underscore)%N || is_letter r.

(** A letter or underscore, then letters, digits and underscores. *)
Definition identifier (s : string) : Prop :=
  ∃ x l, runes s = x :: l ∧ starts x.1 = true ∧ Forall (λ x, alias_rune x.1 = true) l.

Lemma alias_not_error r : alias_rune r = true → r ≠ RuneError.
Proof. unfold alias_rune. intros Hr ->. rewrite error_no_letter, error_no_digit in Hr. vm_compute in Hr. done. Qed.

Lemma starts_alias r : starts r = true → alias_rune r = true.
Proof. unfold starts, alias_rune. intros ->. done. Qed.

(** A rune of a text that is not the replacement of a bad byte is encoded as
    it was written, and reads back. *)
Lemma kept_chunk s x : x ∈ runes s → alias_rune x.1 = true → encode_rune x.1 = x.2 ∧ chunk_ok x.
Proof.
  intros Hin Ha. pose proof (alias_not_error _ Ha) as Hr. split.
  - apply list_elem_of_split in Hin as (l & k & E). pose proof (well_runes s) as Hw. rewrite E in Hw.
    apply well_app_r in Hw. change (x :: k) with ([x] ++ k) in Hw. apply well_app_l in Hw.
    pose proof (encode_chunks [x] Hw) as Hc. unfold word_text in Hc. simpl in Hc. rewrite !append_nil_r in Hc.
    apply Hc. apply orb_false_iff. split; [|done]. unfold bad. apply andb_false_iff. left. by apply N.eqb_neq.
  - pose proof (runes_chunks s) as Hc. rewrite Forall_forall in Hc. by apply Hc.
Qed.

Lemma loop_keeps l first :
  Forall (λ x, encode_rune x.1 = x.2 ∧ alias_rune x.1 = true) l →
  (first = true → match l with x :: _ => starts x.1 = true | [] => True end) →
  identifier_loop first l = cat l.*2.
Proof.
  intros Hl. revert first. induction Hl as [|[r c] l [Hc Ha] _ IH]; intros first Hf; [done|].
  cbn [identifier_loop]. rewrite IH by done. simpl in Hc, Ha. rewrite Hc.
  change (code "_") with underscore. change (cat ((r, c) :: l).*2) with (c +:+ cat l.*2). f_equal.
  destruct ((r =? underscore)%N || is_letter r) eqn:Es; [done|]. unfold alias_rune in Ha. rewrite Es in Ha. simpl in Ha.
  rewrite Ha. destruct first; [|done]. specialize (Hf eq_refl). unfold starts in Hf. simpl in Hf. congruence.
Qed.

Lemma identifier_fixed s : identifier s → Identifier s = s.
Proof.
  intros (x & l & E & Hx & Hl). unfold Identifier. destruct (String.eqb_spec s "") as [->|Hs]; [done|].
  destruct (isValidIdentifier s); [done|]. rewrite loop_keeps; [apply runes_concat| |by rewrite E].
  apply Forall_forall. intros y Hy. assert (alias_rune y.1 = true) as Ha.
  { rewrite E in Hy. apply elem_of_cons in Hy as [->|Hy]; [by apply starts_alias|]. rewrite Forall_forall in Hl. auto. }
  split; [|done]. by apply (kept_chunk s y).
Qed.

(** The chunks [Identifier] writes. *)
Definition mended (x : N * string) : N * string := if alias_rune x.1 then x else (underscore, "_").

Lemma underscore_ok : chunk_ok (underscore, "_") ∧ encode_rune underscore = "_".
Proof. split; [|reflexivity]. split; [done|]. intros t. reflexivity. Qed.

Lemma loop_mends s l first :
  (∀ x, x ∈ l → x ∈ runes s) →
  identifier_loop first l =
    (if first then match l with x :: _ => if starts x.1 then "" else if is_digit x.1 then "_" else "" | [] => "" end else "")
    +:+ cat (mended <$> l).*2.
Proof.
  revert first. induction l as [|[r c] l IH]; intros first Hin; [by destruct first|].
  cbn [identifier_loop]. rewrite IH by (intros; apply Hin; by right). rewrite fmap_cons.
  change (cat (mended (r, c) :: (mended <$> l)).*2) with ((mended (r, c)).2 +:+ cat (mended <$> l).*2).
  generalize (cat (mended <$> l).*2). intros rest.
  pose proof (kept_chunk s (r, c) (Hin (r, c) ltac:(by left))) as Hk. unfold mended, alias_rune, starts in *.
  cbn [fst snd] in *. change (code "_") with underscore. destruct ((r =? underscore)%N || is_letter r) eqn:Es; cbn [orb snd] in *.
  - destruct Hk as [-> _]; [done|]. by destruct first.
  - destruct (is_digit r) eqn:Ed; cbn [snd] in *.
    + destruct Hk as [-> _]; [done|]. by destruct first.
    + by destruct first.
Qed.

Lemma mended_ok s l :
  (∀ x, x ∈ l → x ∈ runes s) → Forall chunk_ok (mended <$> l) ∧ Forall (λ x, alias_rune x.1 = true) (mended <$> l).
Proof.
  intros Hin. rewrite !Forall_fmap. split; apply Forall_forall; intros x Hx; simpl; unfold mended;
    destruct (alias_rune x.1) eqn:Ha; [by apply (kept_chunk s x (Hin x Hx))|apply underscore_ok|done|done].
Qed.

Lemma Identifier_identifier s : identifier (Identifier s).
Proof.
  unfold Identifier. destruct (String.eqb_spec s "") as [->|Hs].
  { exists (underscore, "_"), []. split_and!; [done|done|constructor]. }
  destruct (isValidIdentifier s) eqn:Ev.
  - destruct s as [|a s]; [done|]. unfold isValidIdentifier in Ev. destruct (ascii_digit (code a)) eqn:Ed; [done|].
    apply andb_true_iff in Ev as [Ha Hrest].
    assert (∀ b, ident_byte b = true → (N_of_ascii b < 128)%N ∧ alias_rune (code b) = true) as Hb.
    { intros b Hb. assert (N_of_ascii b < 128)%N as Hlt.
      { unfold ident_byte in Hb. rewrite !orb_true_iff in Hb. unfold ascii_lower_case, ascii_upper, ascii_digit in Hb.
        rewrite !between_iff, N.eqb_eq in Hb. unfold code in Hb. change (N_of_ascii "_") with 95%N in Hb. lia. }
      split; [done|]. unfold alias_rune. rewrite letter_ascii, digit_ascii by done.
      unfold ident_byte in Hb. unfold ascii_letter, ascii_lower_case, ascii_upper, ascii_digit, underscore, code in *.
      destruct (between 97 122 (N_of_ascii b)), (between 65 90 (N_of_ascii b)), (between 48 57 (N_of_ascii b)),
        (N_of_ascii b =? N_of_ascii "_")%N; done. }
    destruct (Hb a Ha) as [Hlt Hal]. exists (N_of_ascii a, String a ""), (runes s).
    split; [by apply runes_ascii_cons|]. split.
    + unfold alias_rune in Hal. simpl. unfold starts. unfold code in Hal. rewrite digit_ascii in Hal by done.
      unfold code in Ed. rewrite Ed, orb_false_r in Hal. done.
    + clear -Hrest Hb. induction s as [|b s IH]; [constructor|]. simpl in Hrest. apply andb_true_iff in Hrest as [Hb1 Hr].
      destruct (Hb b Hb1) as [Hlt Hal]. rewrite runes_ascii_cons by done. constructor; [done|auto].
  - assert (∀ x, x ∈ runes s → x ∈ runes s) as Hin by done. rewrite (loop_mends s _ true Hin).
    destruct (mended_ok s (runes s) Hin) as [Hok Hal]. destruct underscore_ok as [Hu _].
    pose proof (runes_concat s) as Hcat. destruct (runes s) as [|x l] eqn:Er; [by destruct Hs|].
    destruct (starts x.1) eqn:Es; [|destruct (is_digit x.1) eqn:Ed].
    + exists (mended x), (mended <$> l). change ("" +:+ cat (mended <$> x :: l).*2) with (cat (mended <$> x :: l).*2).
      rewrite runes_of_chunks by done. split_and!; [done| |by apply Forall_cons in Hal as [_ ?]].
      unfold mended. by rewrite (starts_alias _ Es).
    + exists (underscore, "_"), (mended <$> x :: l).
      change ("_" +:+ cat (mended <$> x :: l).*2) with (cat ((underscore, "_") :: (mended <$> x :: l)).*2).
      rewrite runes_of_chunks by by constructor. split_and!; done.
    + exists (mended x), (mended <$> l). change ("" +:+ cat (mended <$> x :: l).*2) with (cat (mended <$> x :: l).*2).
      rewrite runes_of_chunks by done. split_and!; [done| |by apply Forall_cons in Hal as [_ ?]].
      unfold mended, alias_rune. unfold starts in Es. rewrite Es, Ed. done.
Qed.
End Identifiers.

(** [Identifier] always answers an identifier, a letter or an underscore
    followed by letters, digits and underscores, for every byte string,
    invalid UTF-8 included; it returns an identifier as it is, so it is
    idempotent. *)
Theorem identifier_is_valid `{UnicodeTables} s :
  identifier (Identifier s) ∧ (identifier s → Identifier s = s) ∧ Identifier (Identifier s) = Identifier s.
Proof.
  split_and!; [apply Identifier_identifier|apply identifier_fixed|]. apply identifier_fixed, Identifier_identifier.
Qed.
