(* ===== verification/Writer.v ===== *)
(** * writer: the buffer of an output file, and core/srcfile

    [Writer] of [src/writer/writer.go]: contributions carry keys and the body
    concatenates them in key order, so that keyed contributions may arrive in
    any order.  The mutex makes every operation atomic; concurrent use is a
    sequence of operations.  [WithSuffix] of [src/core/srcfile/srcfile.go]
    derives the name of the file a plugin writes next to a source. *)

From S2P Require Import Prelude GoStrings Position Unicode FilePath Imports Manifest Naming NamingLaws.

Local Open Scope string_scope.
Local Open Scope nat_scope.
Local Open Scope list_scope.

Module writer.

Record entry := MkEntry { key : string; body : string }.

(** [seq] counts sequential appends; it is a 64-bit int. *)
Record Writer := MkWriter { target : Target; imports : ImportSet; seq : Z; entries : list entry }.

Definition keyAuto : string := "0:auto:".
Definition keyUser : string := "1:user:".

Definition New `{UnicodeTables} (t : Target) (derive : option (string → string)) : Writer :=
  MkWriter t (NewImportSet derive) 0 [].

(** [%020d] of a non-negative number below [10 ^ 20]. *)
Definition digit_byte (n : Z) : string := String (ascii_of_N (48 + Z.to_N n)) "".
Fixpoint padded (width : nat) (n : Z) : string :=
  match width with
  | O => ""
  | S width => padded width (n / 10) +:+ digit_byte (n mod 10)
  end.

Definition copyEntry (k b : string) : entry := MkEntry k b.

Definition Append (w : Writer) (b : string) : Writer :=
  MkWriter (target w) (imports w) (seq w + 1)
    (entries w ++ [copyEntry (keyAuto +:+ padded 20 (seq w)) b]).

Definition AppendString (w : Writer) (s : string) : Writer := Append w s.

Definition AppendKeyed (w : Writer) (k b : string) : Writer :=
  MkWriter (target w) (imports w) (seq w) (entries w ++ [copyEntry (keyUser +:+ k) b]).

(** [slices.SortStableFunc] by key. *)
Fixpoint insert_entry (e : entry) (l : list entry) : list entry :=
  match l with
  | [] => [e]
  | x :: l => if decide (str_le (key e) (key x)) then e :: x :: l else x :: insert_entry e l
  end.
Fixpoint sort_entries (l : list entry) : list entry :=
  match l with [] => [] | e :: l => insert_entry e (sort_entries l) end.

Definition Body (w : Writer) : string := foldr String.append "" (body <$> sort_entries (entries w)).

Definition Len (w : Writer) : nat := fold_left (λ n e, n + String.length (body e)) (entries w) 0.

(** ** Stable sorting *)

Abbreviation by_key := (λ a b, str_le (key a) (key b)).
Abbreviation under k l := (filter (λ e, key e = k) l).

Lemma insert_entry_perm e l : insert_entry e l ≡ₚ e :: l.
Proof.
  induction l as [|x l IH]; simpl; [done|]. case_decide; [done|]. rewrite IH. apply Permutation_swap.
Qed.

Lemma sort_entries_perm l : sort_entries l ≡ₚ l.
Proof. induction l as [|e l IH]; simpl; [done|]. by rewrite insert_entry_perm, IH. Qed.

Lemma insert_entry_sorted e l : StronglySorted by_key l → StronglySorted by_key (insert_entry e l).
Proof.
  induction 1 as [|x l Hs IH Hx]; simpl; [by repeat constructor|]. case_decide as Hd.
  - constructor; [by constructor|]. constructor; [done|]. eapply Forall_impl; [exact Hx|].
    intros y Hy. simpl in *. by transitivity (key x).
  - constructor; [done|]. rewrite insert_entry_perm. constructor; [|done].
    destruct (total str_le (key e) (key x)); [done|done].
Qed.

Lemma sort_entries_sorted l : StronglySorted by_key (sort_entries l).
Proof. induction l as [|e l IH]; simpl; [constructor|]. by apply insert_entry_sorted. Qed.

Lemma insert_entry_under e l k : under k (insert_entry e l) = under k (e :: l).
Proof.
  induction l as [|x l IH]; simpl; [done|]. case_decide as Hd; [done|].
  rewrite (filter_cons _ x (insert_entry e l)), IH, !filter_cons.
  destruct (decide (key e = k)) as [He|], (decide (key x = k)) as [Hx|]; try done.
  destruct Hd. by rewrite He, Hx.
Qed.

(** Equal keys keep their order. *)
Lemma sort_entries_stable l k : under k (sort_entries l) = under k l.
Proof.
  induction l as [|e l IH]; simpl; [done|]. rewrite insert_entry_under, !filter_cons. by rewrite IH.
Qed.

(** A sorted list is fixed by what it has under each key. *)
Lemma sorted_unique l l' :
  StronglySorted by_key l → StronglySorted by_key l' → (∀ k, under k l = under k l') → l = l'.
Proof.
  intros Hl. revert l'. induction Hl as [|x l Hs IH Hx]; intros l' Hl' Hu.
  { destruct l' as [|y l']; [done|]. specialize (Hu (key y)). rewrite filter_cons in Hu.
    by rewrite decide_True in Hu. }
  destruct Hl' as [|y l' Hs' Hy].
  { specialize (Hu (key x)). rewrite filter_cons in Hu. by rewrite decide_True in Hu. }
  assert (∀ (a : entry) k, Forall (λ b, by_key a b) k → ∀ (b : entry), b ∈ a :: k → str_le (key a) (key b)) as Hmin.
  { intros a k Hk b [->|Hb]%elem_of_cons; [done|]. rewrite Forall_forall in Hk. by apply Hk. }
  assert (key x = key y) as Hxy.
  { apply (anti_symm str_le).
    - apply (Hmin x l Hx y). assert (y ∈ under (key y) (x :: l)) as Hin.
      { rewrite Hu, filter_cons, decide_True by done. by left. }
      by apply list_elem_of_filter in Hin as [_ ?].
    - apply (Hmin y l' Hy x). assert (x ∈ under (key x) (y :: l')) as Hin.
      { rewrite <- Hu, filter_cons, decide_True by done. by left. }
      by apply list_elem_of_filter in Hin as [_ ?]. }
  assert (x = y) as <-.
  { specialize (Hu (key x)). rewrite !filter_cons, !decide_True in Hu by done. by injection Hu. }
  f_equal. apply IH; [done|]. intros k. specialize (Hu k). rewrite !filter_cons in Hu.
  destruct (decide (key x = k)); [by injection Hu|done].
Qed.

(** ** Keys in order *)

Lemma compare_app_eq s t u : String.compare (s +:+ t) (s +:+ u) = String.compare t u.
Proof.
  induction s as [|a s IH]; simpl; [done|]. unfold Ascii.compare. by rewrite N.compare_refl.
Qed.

Lemma compare_app_lt s s' t t' :
  String.length s = String.length s' → String.compare s s' = Lt → String.compare (s +:+ t) (s' +:+ t') = Lt.
Proof.
  revert s'. induction s as [|a s IH]; intros [|b s'] Hl Hc; simpl in *; try done.
  destruct (Ascii.compare a b); [|done|done]. apply IH; [lia|done].
Qed.

Lemma padded_length w n : String.length (padded w n) = w.
Proof. revert n. induction w as [|w IH]; intros n; simpl; [done|]. rewrite append_length, IH. simpl. lia. Qed.

Lemma digit_lt a b : (0 <= a < b)%Z → (b <= 9)%Z → String.compare (digit_byte a) (digit_byte b) = Lt.
Proof.
  intros Ha Hb. simpl. unfold Ascii.compare. rewrite !N_ascii_embedding by lia.
  rewrite (proj2 (N.compare_lt_iff _ _)); [done|]. lia.
Qed.

Lemma padded_lt w m n : (0 <= m < n)%Z → (n < 10 ^ Z.of_nat w)%Z → String.compare (padded w m) (padded w n) = Lt.
Proof.
  revert m n. induction w as [|w IH]; intros m n Hm Hn; [simpl in Hn; lia|]. simpl.
  rewrite Nat2Z.inj_succ, Z.pow_succ_r in Hn by lia.
  pose proof (Z.div_mod m 10). pose proof (Z.div_mod n 10). pose proof (Z.mod_pos_bound m 10). pose proof (Z.mod_pos_bound n 10).
  destruct (decide (m / 10 = n / 10)%Z) as [E|E].
  - rewrite E, compare_app_eq. apply digit_lt; lia.
  - apply compare_app_lt; [by rewrite !padded_length|]. apply IH; [|lia].
    split; [apply Z.div_pos; lia|]. assert (m / 10 <= n / 10)%Z by (apply Z.div_le_mono; lia). lia.
Qed.

Lemma auto_before_user n k : str_le (keyAuto +:+ padded 20 n) (keyUser +:+ k).
Proof. unfold str_le. simpl. done. Qed.

Lemma auto_lt m n : (0 <= m < n)%Z → (n < 2 ^ 63)%Z → str_lt (keyAuto +:+ padded 20 m) (keyAuto +:+ padded 20 n).
Proof. intros Hm Hn. unfold str_lt. rewrite compare_app_eq. apply padded_lt; [done|]. simpl. lia. Qed.

(** ** Sequences of operations *)

Inductive op := OAppend (b : string) | OKeyed (k b : string).

Definition execute (w : Writer) (o : op) : Writer :=
  match o with OAppend b => Append w b | OKeyed k b => AppendKeyed w k b end.

Definition sequential (ops : list op) : list string := omap (λ o, match o with OAppend b => Some b | _ => None end) ops.
Definition keyed (ops : list op) : list (string * string) := omap (λ o, match o with OKeyed k b => Some (k, b) | _ => None end) ops.

Definition autos (start : Z) (bs : list string) : list entry :=
  imap (λ i b, MkEntry (keyAuto +:+ padded 20 (start + Z.of_nat i)) b) bs.
Definition users (kbs : list (string * string)) : list entry := (λ kb, MkEntry (keyUser +:+ kb.1) kb.2) <$> kbs.
End writer.

(** ** [srcfile.go] *)

(** [strings.ToLower] *)
Definition strings_ToLower `{CaseTables} (s : string) : string :=
  foldr String.append "" ((λ x, encode_rune (to_lower x.1)) <$> runes s).

Definition WithSuffix `{CaseTables} (pos : Pos) (fallback suffix : string) : string :=
  let base := Base (Position.File pos) in
  let base := str_take (String.length base - String.length (Ext base)) base in
  if negb (String.eqb (Position.File pos) "") && negb (String.eqb base "") then base +:+ suffix
  else strings_ToLower fallback +:+ suffix.

Example with_suffix_examples :
  WithSuffix (MkPos "/abs/users/article.go" 1 1 0) "Article" "_repo.go" = "article_repo.go" ∧
  WithSuffix (MkPos "" 0 0 0) "Article" "_repo.go" = "article_repo.go" ∧
  WithSuffix (MkPos "/abs/.go" 0 0 0) "Article" "_repo.go" = "article_repo.go".
Proof. vm_compute. done. Qed.

(** * writer: the order of a body *)

Import writer.

Abbreviation keyed_under k l := (filter (λ kb : string * string, kb.1 = k) l).

Lemma autos_cons start b bs : autos start (b :: bs) = MkEntry (keyAuto +:+ padded 20 start) b :: autos (start + 1) bs.
Proof.
  unfold autos. rewrite imap_cons. f_equal; [by rewrite Z.add_0_r|]. apply imap_ext. intros i x _. unfold compose.
  by replace (start + Z.of_nat (S i))%Z with (start + 1 + Z.of_nat i)%Z by lia.
Qed.

Lemma autos_under start bs k : under (keyUser +:+ k) (autos start bs) = [].
Proof.
  apply filter_none. intros e He. unfold autos in He. apply elem_of_lookup_imap in He as (i & b & -> & _). cbn [key].
  intros E. discriminate E.
Qed.

(** Under each key the entries are the ones of that key in order of arrival. *)
Lemma run_entries ops w k :
  under k (entries (fold_left execute ops w)) =
  under k (entries w ++ autos (seq w) (sequential ops) ++ users (keyed ops)).
Proof.
  revert w. induction ops as [|[b|k' b] ops IH]; intros w; cbn [fold_left].
  - by rewrite !app_nil_r.
  - rewrite IH. change (entries (execute w (OAppend b))) with (entries w ++ [MkEntry (keyAuto +:+ padded 20 (seq w)) b]).
    change (seq (execute w (OAppend b))) with (seq w + 1)%Z. change (sequential (OAppend b :: ops)) with (b :: sequential ops).
    change (keyed (OAppend b :: ops)) with (keyed ops). rewrite autos_cons, <- app_assoc. unfold copyEntry. reflexivity.
  - rewrite IH. change (entries (execute w (OKeyed k' b))) with (entries w ++ [MkEntry (keyUser +:+ k') b]).
    change (seq (execute w (OKeyed k' b))) with (seq w). change (sequential (OKeyed k' b :: ops)) with (sequential ops).
    change (users (keyed (OKeyed k' b :: ops))) with (MkEntry (keyUser +:+ k') b :: users (keyed ops)).
    rewrite <- app_assoc. cbn [app]. rewrite !filter_app, !filter_cons. cbn [key].
    rewrite !filter_app. destruct (decide (keyUser +:+ k' = k)) as [<-|]; [|done]. by rewrite autos_under.
Qed.

Lemma autos_sorted start bs :
  (0 <= start)%Z → (start + Z.of_nat (length bs) <= 2 ^ 63)%Z → StronglySorted by_key (autos start bs).
Proof.
  revert start. induction bs as [|b bs IH]; intros start H0 Hl; [constructor|]. rewrite autos_cons.
  simpl in Hl. constructor; [apply IH; lia|]. apply Forall_forall. intros e He.
  unfold autos in He. apply elem_of_lookup_imap in He as (i & x & -> & Hi). apply lookup_lt_Some in Hi. cbn [key].
  apply str_le_lt_eq. left. apply auto_lt; lia.
Qed.

Lemma StronglySorted_app_all {A} (R : A → A → Prop) l k :
  StronglySorted R l → StronglySorted R k → (∀ a b, a ∈ l → b ∈ k → R a b) → StronglySorted R (l ++ k).
Proof.
  intros Hl Hk Hr. induction Hl as [|x l Hl IH Hx]; simpl; [done|]. constructor.
  - apply IH. intros a b Ha. apply Hr. by right.
  - apply Forall_app. split; [done|]. apply Forall_forall. intros b Hb. apply Hr; [by left|done].
Qed.

Lemma sorted_users l : ∃ kbs, sort_entries (users l) = users kbs ∧ kbs ≡ₚ l.
Proof.
  pose proof (sort_entries_perm (users l)) as Hp. unfold users in Hp at 2.
  apply Permutation_map_inv in Hp as (kbs & E & Hp). exists kbs. by split.
Qed.

Lemma users_under k l : under (keyUser +:+ k) (users l) = users (keyed_under k l).
Proof.
  induction l as [|[k' b] l IH]; [done|]. unfold users in *. rewrite !filter_cons. cbn [key fst].
  rewrite (fmap_cons _ (k', b) l), filter_cons. cbn [key fst snd]. rewrite IH.
  destruct (decide (keyUser +:+ k' = keyUser +:+ k)) as [E|E], (decide (k' = k)) as [Hk|Hk]; try done.
  - by apply append_inj_r in E.
  - by rewrite Hk in E.
Qed.

Lemma users_inj l l' : users l = users l' → l = l'.
Proof.
  revert l'. induction l as [|[k b] l IH]; intros [|[k' b'] l'] E; try done. unfold users in E.
  rewrite !fmap_cons in E. injection E as Ek Eb El. f_equal; [|by apply IH].
  cbn [fst snd] in *. by rewrite Ek, Eb.
Qed.

Section Body.
Context `{UnicodeTables} (t : Target) (d : option (string → string)).

Abbreviation run ops := (fold_left execute ops (New t d)).

Lemma run_sorted ops :
  (Z.of_nat (length (sequential ops)) <= 2 ^ 63)%Z →
  sort_entries (entries (run ops)) = autos 0 (sequential ops) ++ sort_entries (users (keyed ops)).
Proof.
  intros Hl. apply sorted_unique; [apply sort_entries_sorted| |].
  - apply StronglySorted_app_all; [apply autos_sorted; lia|apply sort_entries_sorted|].
    intros a b Ha Hb. rewrite sort_entries_perm in Hb. unfold autos in Ha.
    apply elem_of_lookup_imap in Ha as (i & x & -> & _). apply list_elem_of_fmap in Hb as (kb & -> & _).
    apply auto_before_user.
  - intros k. by rewrite sort_entries_stable, run_entries, !filter_app, sort_entries_stable.
Qed.

Lemma body_split ops :
  (Z.of_nat (length (sequential ops)) <= 2 ^ 63)%Z →
  Body (run ops) = cat (sequential ops) +:+ cat (body <$> sort_entries (users (keyed ops))).
Proof.
  intros Hl. unfold Body. rewrite run_sorted, fmap_app, cat_app by done. f_equal. f_equal.
  clear Hl. generalize 0%Z. induction (sequential ops) as [|b bs IH]; intros z; [done|].
  rewrite autos_cons, fmap_cons. cbn [body]. f_equal. apply IH.
Qed.

Lemma len_body w : Len w = String.length (Body w).
Proof.
  assert (∀ l n, fold_left (λ n e, n + String.length (body e)) l n = n + String.length (cat (body <$> l))) as Hf.
  { induction l as [|e l IH]; intros n; [simpl; lia|]. rewrite fmap_cons. cbn [fold_left foldr].
    rewrite IH, append_length. lia. }
  unfold Len, Body. rewrite Hf. rewrite Nat.add_0_l. generalize (entries w). intros es.
  assert (∀ l k : list entry, l ≡ₚ k → String.length (cat (body <$> l)) = String.length (cat (body <$> k))) as Hp.
  { induction 1 as [|x l k _ IH|x y l|l k m _ IH1 _ IH2]; rewrite ?fmap_cons; cbn [foldr]; [done| | |by rewrite IH1].
    - by rewrite !append_length, IH.
    - rewrite !append_length. lia. }
  apply Hp. by rewrite sort_entries_perm.
Qed.
End Body.

(** the body of a file does not depend on the schedule: after any sequence
    of operations (with fewer than [2^63] sequential ones) it is the sequential
    contributions in order of arrival followed by the keyed ones in key order,
    equal keys in order of arrival; so two runs whose sequential contributions
    come in the same order, and whose keyed contributions come in the same
    order under each key, give the same bytes however they interleave.  [Len]
    is the length of the body. *)
Theorem body_is_deterministic `{UnicodeTables} t d ops :
  (Z.of_nat (length (sequential ops)) <= 2 ^ 63)%Z →
  let w := fold_left execute ops (New t d) in
  (∃ kbs, kbs ≡ₚ keyed ops ∧ StronglySorted (λ a b, str_le a.1 b.1) kbs ∧
     (∀ k, keyed_under k kbs = keyed_under k (keyed ops)) ∧ Body w = cat (sequential ops) +:+ cat kbs.*2) ∧
  (∀ ops', sequential ops' = sequential ops → (∀ k, keyed_under k (keyed ops') = keyed_under k (keyed ops)) →
     Body (fold_left execute ops' (New t d)) = Body w) ∧
  Len w = String.length (Body w).
Proof.
  intros Hl. cbv zeta. split_and!; [| |apply len_body].
  - destruct (sorted_users (keyed ops)) as (kbs & E & Hp). exists kbs. split_and!; [done| | |].
    + pose proof (sort_entries_sorted (users (keyed ops))) as Hs. rewrite E in Hs. clear E Hp.
      induction kbs as [|[k b] kbs IH]; [constructor|]. inversion Hs as [|? ? Hs' Hf]; subst. constructor; [by apply IH|].
      unfold users in Hf. rewrite Forall_fmap in Hf. eapply Forall_impl; [exact Hf|]. intros [k' b'] Hle. change (str_le (keyUser +:+ k) (keyUser +:+ k')) in Hle.
      cbn [fst]. unfold str_le in *. by rewrite compare_app_eq in Hle.
    + intros k. apply users_inj. rewrite <- !users_under, <- E. apply sort_entries_stable.
    + rewrite body_split, E by done. do 2 f_equal. unfold users. rewrite <- list_fmap_compose. done.
  - intros ops' Es Ek. rewrite !body_split by by rewrite ?Es. rewrite Es. do 3 f_equal.
    apply sorted_unique; [apply sort_entries_sorted..|]. intros k. rewrite !sort_entries_stable.
    destruct (decide (has_prefix k keyUser = true)) as [[k' ->]%has_prefix_spec|Hn].
    { by rewrite !users_under, Ek. }
    rewrite !filter_none; [done|..]; intros e (kb & -> & _)%list_elem_of_fmap; cbn [key]; intros <-;
      apply Hn, has_prefix_app.
Qed.

Lemma body_is_deterministic_witness :
  let ops := [OKeyed "b" "2"; OAppend "x"; OKeyed "a" "1"; OAppend "y"] in
  Body (fold_left execute ops (New (MkTarget "" "" "" "") None)) = "xy12" ∧
  Len (fold_left execute ops (New (MkTarget "" "" "" "") None)) = 4.
Proof.
  cbv zeta. split; [vm_compute; reflexivity|].
  destruct (body_is_deterministic (MkTarget "" "" "" "") None [OKeyed "b" "2"; OAppend "x"; OKeyed "a" "1"; OAppend "y"])
    as (_ & _ & E); [vm_compute; discriminate|]. rewrite E. vm_compute. reflexivity.
Defined.
