(* ===== verification/Opt.v ===== *)
(** * core/opt: plugin options

    [src/core/opt]: schemas reflected from tagged struct types, and decoding
    of raw option values into a struct.

    Go reflection is modelled by what the package asks of it: a struct type is
    its list of fields with their types and tags, a struct value is a map from
    field names to values, [SetInt] truncates to the width of the field, and
    [Set] panics when the value is not assignable.  [ParseDuration] of package
    [time] is an argument.  The order in which Go ranges over the value map is
    an argument of the operations that do. *)

From S2P Require Import Prelude GoStrings Unicode Naming.

Local Open Scope string_scope.
Local Open Scope nat_scope.
Local Open Scope list_scope.

Module opt.

(** ** [kind.go], [field.go], [schema.go] *)

Inductive FieldKind := KindString | KindInt | KindBool | KindStringList | KindDuration | KindOther (n : Z).
#[global] Instance FieldKind_eq_dec : EqDecision FieldKind.
Proof. solve_decision. Defined.

Definition FieldKind_String (k : FieldKind) : string :=
  match k with
  | KindString => "string" | KindInt => "int" | KindBool => "bool" | KindStringList => "string_list"
  | KindDuration => "duration"
  | KindOther n => "kind(" +:+ itoa n +:+ ")"
  end.

Record Field := MkField {
  Name : string;
  GoFieldName : string;
  Kind : FieldKind;
  Required : bool;
  HasDefault : bool;
  DefaultStr : string;
  OneOf : list string;
  Description : string;
}.

Record Schema := MkSchema { Fields : list Field }.

Definition Lookup (s : Schema) (name : string) : option Field :=
  List.find (λ f, String.eqb (Name f) name) (Fields s).
Definition HasField (s : Schema) (name : string) : bool :=
  match Lookup s name with Some _ => true | None => false end.
Fixpoint names_loop (l : list Field) (out : list string) : list string :=
  match l with [] => out | f :: l => names_loop l (out ++ [Name f]) end.
Definition Names (s : Schema) : list string := names_loop (Fields s) [].

(** ** [errors.go] *)

Inductive OptError :=
| ErrInvalidTag (why : string)
| ErrUnsupportedFieldType (field : string)
| ErrInvalidDecodeTarget (why : string)
| ErrMissingRequired (name : string)
| ErrInvalidValue (raw : string)
| ErrUnknownField (name : string).

(** ** Types and values *)

(** [TSlice true] is [[]string]; [TSlice false] a slice type with another
    element type of kind string. *)
Inductive gotype := TString | TInt (bits : Z) | TBool | TSlice (plain : bool) | TDuration | TOther.
#[global] Instance gotype_eq_dec : EqDecision gotype.
Proof. solve_decision. Defined.

Inductive govalue := GString (s : string) | GInt (z : Z) | GBool (b : bool) | GStrings (l : list string) | GOther.
#[global] Instance govalue_eq_dec : EqDecision govalue.
Proof. solve_decision. Defined.

(** A struct field of a type; [sf_tag] is the value of its [eidos] tag. *)
Record StructField := MkSF { sf_Name : string; sf_exported : bool; sf_Type : gotype; sf_tag : option string }.

(** What an [any] may be. *)
Inductive goany := ANil | AStruct (fs : list StructField) | APointer (to : goany) | AScalar (kind : string).

(** A struct that can be set: the types and values of its fields. *)
Abbreviation gostruct := (gmap string (gotype * govalue)).

(** [SetInt] keeps the low bits, read as a signed number. *)
Definition wrap (bits z : Z) : Z := ((z + 2 ^ (bits - 1)) mod 2 ^ bits - 2 ^ (bits - 1))%Z.

Section Opt.
Context `{CaseTables} (ParseDuration : string → option Z).

(** ** [options.go]: values *)

(** [strconv.ParseBool] *)
Definition parse_bool (s : string) : option bool :=
  if decide (s ∈ ["1"; "t"; "T"; "true"; "TRUE"; "True"]) then Some true
  else if decide (s ∈ ["0"; "f"; "F"; "false"; "FALSE"; "False"]) then Some false
  else None.

Definition parseValue (raw : string) (kind : FieldKind) (oneOf : list string) : res OptError govalue :=
  if (0 <? length oneOf) && negb (bool_decide (raw ∈ oneOf)) then Err (ErrInvalidValue raw)
  else match kind with
       | KindString => Ok (GString raw)
       | KindInt => match atoi raw with Some n => Ok (GInt n) | None => Err (ErrInvalidValue raw) end
       | KindBool => match parse_bool raw with Some b => Ok (GBool b) | None => Err (ErrInvalidValue raw) end
       | KindStringList => if String.eqb raw "" then Ok (GStrings []) else Ok (GStrings (split_byte raw ","))
       | KindDuration => match ParseDuration raw with Some d => Ok (GInt d) | None => Err (ErrInvalidValue raw) end
       | KindOther _ => Err (ErrInvalidValue raw)
       end.

(** The setters of [reflect.Value]; a missing field is the zero [Value], on
    which every setter panics. *)
Definition set_field (target : gostruct) (name : string) (kind : FieldKind) (v : govalue) : run gostruct :=
  match target !! name, kind, v with
  | Some (TString, _), KindString, GString s => Returns (<[name := (TString, GString s)]> target)
  | Some (TInt w, _), (KindInt | KindDuration), GInt z => Returns (<[name := (TInt w, GInt (wrap w z))]> target)
  | Some (TDuration, _), (KindInt | KindDuration), GInt z => Returns (<[name := (TDuration, GInt (wrap 64 z))]> target)
  | Some (TBool, _), KindBool, GBool b => Returns (<[name := (TBool, GBool b)]> target)
  | Some (TSlice true, _), KindStringList, GStrings l => Returns (<[name := (TSlice true, GStrings l)]> target)
  | _, _, _ => Panics "reflect"
  end.

Definition assignField (target : gostruct) (f : Field) (raw : string) : run (gostruct * option OptError) :=
  match parseValue raw (Kind f) (OneOf f) with
  | Err e => Returns (target, Some e)
  | Ok v => match set_field target (GoFieldName f) (Kind f) v with
            | Returns t => Returns (t, None)
            | Panics w => Panics w
            end
  end.

(** ** [reflect.go] *)

Definition kindOf (t : gotype) : option FieldKind :=
  match t with
  | TDuration => Some KindDuration
  | TString => Some KindString
  | TInt _ => Some KindInt
  | TBool => Some KindBool
  | TSlice _ => Some KindStringList
  | TOther => None
  end.

Definition applyTagOption (f : Field) (o fieldName : string) : res OptError Field :=
  if String.eqb o "required"
  then Ok (MkField (Name f) (GoFieldName f) (Kind f) true (HasDefault f) (DefaultStr f) (OneOf f) (Description f))
  else if has_prefix o "default="
  then Ok (MkField (Name f) (GoFieldName f) (Kind f) (Required f) true (trim_prefix o "default=") (OneOf f) (Description f))
  else if has_prefix o "one_of="
  then Ok (MkField (Name f) (GoFieldName f) (Kind f) (Required f) (HasDefault f) (DefaultStr f)
             (OneOf f ++ filter (λ v, v ≠ "") (split_byte (trim_prefix o "one_of=") "|")) (Description f))
  else if has_prefix o "desc="
  then Ok (MkField (Name f) (GoFieldName f) (Kind f) (Required f) (HasDefault f) (DefaultStr f) (OneOf f)
             (trim_prefix o "desc="))
  else Err (ErrInvalidTag ("unknown tag option on field " +:+ fieldName)).

Fixpoint apply_options (f : Field) (os : list string) (fieldName : string) : res OptError Field :=
  match os with
  | [] => Ok f
  | o :: os => match applyTagOption f o fieldName with Ok f => apply_options f os fieldName | Err e => Err e end
  end.

Definition validateField (f : Field) (goFieldName : string) : option OptError :=
  if (0 <? length (OneOf f)) && negb (bool_decide (Kind f = KindString))
  then Some (ErrInvalidTag ("one_of is only valid for string fields: " +:+ goFieldName))
  else if negb (HasDefault f) then None
  else if (0 <? length (OneOf f)) && negb (bool_decide (DefaultStr f ∈ OneOf f))
  then Some (ErrInvalidTag ("default is not in one_of: " +:+ goFieldName))
  else match parseValue (DefaultStr f) (Kind f) [] with
       | Err _ => Some (ErrInvalidTag ("default for " +:+ goFieldName))
       | Ok _ => None
       end.

Definition parseTag (sf : StructField) (tag : string) : res OptError Field :=
  match kindOf (sf_Type sf) with
  | None => Err (ErrUnsupportedFieldType (sf_Name sf))
  | Some kind =>
      let named n := MkField n (sf_Name sf) kind false false "" [] "" in
      if String.eqb tag "" then Ok (named (Snake (sf_Name sf)))
      else match split_byte tag "," with
           | [] => Ok (named (Snake (sf_Name sf)))
           | p :: parts =>
               match apply_options (named (if String.eqb p "" then Snake (sf_Name sf) else p)) parts (sf_Name sf) with
               | Err e => Err e
               | Ok f => match validateField f (sf_Name sf) with Some e => Err e | None => Ok f end
               end
           end
  end.

Fixpoint reflect_loop (sfs : list StructField) (fields : list Field) : res OptError Schema :=
  match sfs with
  | [] => Ok (MkSchema fields)
  | sf :: sfs =>
      if negb (sf_exported sf) then reflect_loop sfs fields
      else if bool_decide (sf_tag sf = Some "-") then reflect_loop sfs fields
      else match parseTag sf (default "" (sf_tag sf)) with
           | Err e => Err e
           | Ok f => reflect_loop sfs (fields ++ [f])
           end
  end.

Definition ReflectChecked (example : goany) : res OptError Schema :=
  match example with
  | ANil => Err (ErrInvalidTag "nil example")
  | AStruct fs | APointer (AStruct fs) => reflect_loop fs []
  | _ => Err (ErrInvalidTag "expected struct")
  end.

Definition Reflect (example : goany) : run Schema :=
  match ReflectChecked example with Ok s => Returns s | Err _ => Panics "opt: invalid eidos tag" end.

(** ** [options.go]: decoding *)

Record Options := MkOptions { schema : Schema; values : gmap string string }.

Definition New (s : Schema) (vs : gmap string string) : Options := MkOptions s vs.
Definition Has (o : Options) (name : string) : bool := bool_decide (is_Some (values o !! name)).

(** [keys] is the order in which the values are visited. *)
Fixpoint unknown_loop (s : Schema) (keys : list string) : option OptError :=
  match keys with
  | [] => None
  | k :: keys => if negb (HasField s k) then Some (ErrUnknownField k) else unknown_loop s keys
  end.
Definition rejectUnknownFields (o : Options) (keys : list string) : option OptError := unknown_loop (schema o) keys.

(** What [dst] is when it is not a pointer to a struct: the other errors. *)
Inductive decode_target := DStruct (s : gostruct) | DNil | DNonStruct.
Definition derefStructTarget (dst : decode_target) : res OptError gostruct :=
  match dst with
  | DStruct s => Ok s
  | DNil => Err (ErrInvalidDecodeTarget "nil or non-pointer")
  | DNonStruct => Err (ErrInvalidDecodeTarget "pointer must address a struct")
  end.

(** The loop over the schema; the struct is written as it goes. *)
Fixpoint decode_loop (vs : gmap string string) (fs : list Field) (target : gostruct) : run (gostruct * option OptError) :=
  match fs with
  | [] => Returns (target, None)
  | f :: fs =>
      match vs !! Name f with
      | None =>
          if Required f then Returns (target, Some (ErrMissingRequired (Name f)))
          else if negb (HasDefault f) then decode_loop vs fs target
          else match assignField target f (DefaultStr f) with
               | Returns (target, None) => decode_loop vs fs target
               | r => r
               end
      | Some raw =>
          match assignField target f raw with
          | Returns (target, None) => decode_loop vs fs target
          | r => r
          end
      end
  end.

Definition Decode (o : Options) (keys : list string) (dst : decode_target) : run (decode_target * option OptError) :=
  match derefStructTarget dst with
  | Err e => Returns (dst, Some e)
  | Ok target =>
      match rejectUnknownFields o keys with
      | Some e => Returns (dst, Some e)
      | None => match decode_loop (values o) (Fields (schema o)) target with
                | Returns (t, e) => Returns (DStruct t, e)
                | Panics w => Panics w
                end
      end
  end.

Fixpoint defaults_loop (fs : list Field) (target : gostruct) : run gostruct :=
  match fs with
  | [] => Returns target
  | f :: fs =>
      if negb (HasDefault f) then defaults_loop fs target
      else match assignField target f (DefaultStr f) with
           | Returns (target, _) => defaults_loop fs target
           | Panics w => Panics w
           end
  end.
Definition applyDefaults (dst : decode_target) (s : Schema) : run decode_target :=
  match derefStructTarget dst with
  | Err _ => Returns dst
  | Ok target => match defaults_loop (Fields s) target with Returns t => Returns (DStruct t) | Panics w => Panics w end
  end.

(** ** [holder.go] *)

(** The target is the plugin's own struct, passed in and out. *)
Record Holder := MkHolder { h_schema : Schema }.

Definition Bind (type : list StructField) (target : gostruct) : run (Holder * decode_target) :=
  match Reflect (AStruct type) with
  | Panics w => Panics w
  | Returns s => match applyDefaults (DStruct target) s with
                 | Returns t => Returns (MkHolder s, t)
                 | Panics w => Panics w
                 end
  end.
Definition OptionsSchema (h : Holder) : Schema := h_schema h.
Definition SetOptions (h : Holder) (o : Options) (keys : list string) (target : decode_target)
    : run (decode_target * option OptError) := Decode o keys target.

End Opt.
End opt.

(** * core/opt: what decoding promises *)

Import opt.

Section Laws.
Context `{CaseTables} (ParseDuration : string → option Z).

Abbreviation parseValue := (parseValue ParseDuration).
Abbreviation validateField := (validateField ParseDuration).
Abbreviation assignField := (assignField ParseDuration).

(** ** Reflected schemas *)

(** A field of the schema and the struct field it was read from. *)
Definition reflects (sf : StructField) (f : Field) : Prop :=
  sf_exported sf = true ∧ GoFieldName f = sf_Name sf ∧ kindOf (sf_Type sf) = Some (Kind f) ∧
  validateField f (sf_Name sf) = None.

Lemma apply_options_fixed f os n f' :
  apply_options f os n = Ok f' → GoFieldName f' = GoFieldName f ∧ Kind f' = Kind f.
Proof.
  revert f. induction os as [|o os IH]; intros f E; simpl in E; [by simplify_eq|].
  destruct (applyTagOption f o n) as [f1|] eqn:E1; [|done]. destruct (IH f1 E) as [-> ->].
  unfold applyTagOption in E1. by repeat case_match; simplify_eq.
Qed.

Lemma parseTag_reflects sf tag f : sf_exported sf = true → parseTag ParseDuration sf tag = Ok f → reflects sf f.
Proof.
  intros Hx. unfold parseTag, reflects. destruct (kindOf (sf_Type sf)) as [k|] eqn:Hk; [|done].
  destruct (String.eqb tag ""); [by intros [= <-]|]. destruct (split_byte tag ",") as [|p parts]; [by intros [= <-]|].
  destruct (apply_options _ _ _) as [f1|] eqn:Ea; [|done]. destruct (validateField f1 (sf_Name sf)) eqn:Ev; [done|].
  intros [= <-]. destruct (apply_options_fixed _ _ _ _ Ea) as [-> ->]. done.
Qed.

(** The struct fields a schema keeps. *)
Definition kept (sf : StructField) : bool := sf_exported sf && negb (bool_decide (sf_tag sf = Some "-")).

Lemma reflect_loop_spec sfs fields s :
  reflect_loop ParseDuration sfs fields = Ok s →
  ∃ fs, Fields s = fields ++ fs ∧ Forall2 reflects (filter (λ sf, kept sf = true) sfs) fs.
Proof.
  revert fields. induction sfs as [|sf sfs IH]; intros fields E; simpl in E.
  { simplify_eq. exists []. split; [by rewrite app_nil_r|constructor]. }
  rewrite filter_cons. destruct (decide (kept sf = true)) as [[Hx Ht]%andb_true_iff|Hn].
  2: { unfold kept in Hn. destruct (sf_exported sf); simpl in E, Hn; [|by apply IH].
       destruct (bool_decide (sf_tag sf = Some "-")); [by apply IH|done]. }
  rewrite Hx in E. cbn [negb] in E. destruct (bool_decide (sf_tag sf = Some "-")); [done|].
  destruct (parseTag _ sf _) as [f|] eqn:Ep; [|done]. destruct (IH _ E) as (fs & -> & Hf).
  exists (f :: fs). rewrite <- app_assoc. split; [done|]. constructor; [by eapply parseTag_reflects|done].
Qed.

(** A struct value of the type [sfs]. *)
Definition has_type (sfs : list StructField) (t : gostruct) : Prop :=
  ∀ sf, sf ∈ sfs → ∃ v, t !! sf_Name sf = Some (sf_Type sf, v).

(** No slice of a defined string type. *)
Definition plain_slices (sfs : list StructField) : Prop := ∀ sf, sf ∈ sfs → sf_Type sf ≠ TSlice false.

(** What a field of the type holds after it is set to a parsed value. *)
Definition stored (ty : gotype) (v : govalue) : govalue :=
  match ty, v with
  | TInt w, GInt z => GInt (wrap w z)
  | TDuration, GInt z => GInt (wrap 64 z)
  | _, v => v
  end.

Lemma set_field_parsed raw k oneOf v ty t n old :
  parseValue raw k oneOf = Ok v → kindOf ty = Some k → ty ≠ TSlice false → t !! n = Some (ty, old) →
  set_field t n k v = Returns (<[n := (ty, stored ty v)]> t).
Proof.
  intros Hp Hk Hs Ht. unfold set_field. rewrite Ht. unfold opt.parseValue in Hp.
  destruct (_ && _); [done|]. destruct ty as [|w| |[]| |]; simplify_eq/=; try done;
    repeat case_match; simplify_eq; done.
Qed.

(** The value a field receives: the given one, or its default. *)
Definition raw_of (vs : gmap string string) (f : Field) : option string :=
  match vs !! Name f with
  | Some raw => Some raw
  | None => if HasDefault f then Some (DefaultStr f) else None
  end.

Definition acceptable (vs : gmap string string) (f : Field) : Prop :=
  match vs !! Name f with
  | Some raw => is_ok (parseValue raw (Kind f) (OneOf f)) = true
  | None => Required f = false
  end.

(** A reflected default parses, in its list of values if it has one. *)
Lemma default_parses sf f : reflects sf f → HasDefault f = true → is_ok (parseValue (DefaultStr f) (Kind f) (OneOf f)) = true.
Proof.
  intros (_ & _ & _ & Hv) Hd. unfold opt.validateField in Hv. rewrite Hd in Hv. cbn [negb] in Hv.
  destruct (_ && negb (bool_decide (Kind f = KindString))); [done|].
  destruct ((0 <? length (OneOf f)) && negb (bool_decide (DefaultStr f ∈ OneOf f))) eqn:E; [done|].
  unfold opt.parseValue in *. rewrite E. simpl in Hv. by destruct (match Kind f with KindString => _ | _ => _ end).
Qed.

(** The struct after the loop. *)
Definition final (vs : gmap string string) (sf : StructField) (f : Field) (old : govalue) : govalue :=
  match raw_of vs f with
  | Some raw => match parseValue raw (Kind f) (OneOf f) with Ok v => stored (sf_Type sf) v | Err _ => old end
  | None => old
  end.

Lemma decode_loop_spec vs sfs fs t :
  Forall2 reflects sfs fs → NoDup (sf_Name <$> sfs) → has_type sfs t → plain_slices sfs →
  ∃ t' e, decode_loop ParseDuration vs fs t = Returns (t', e) ∧
    (e = None ↔ Forall (acceptable vs) fs) ∧
    (∀ n, n ∉ (sf_Name <$> sfs) → t' !! n = t !! n) ∧
    (e = None → Forall2 (λ sf f, ∃ old, t !! sf_Name sf = Some (sf_Type sf, old) ∧
       t' !! sf_Name sf = Some (sf_Type sf, final vs sf f old)) sfs fs).
Proof.
  intros Hf. revert t. induction Hf as [|sf f sfs fs Hr Hf IH]; intros t Hd Ht Hp.
  { exists t, None. split_and!; [done|split; [constructor|done]|done|constructor]. }
  rewrite fmap_cons in Hd. apply NoDup_cons in Hd as [Hn Hd]. destruct (Ht sf ltac:(by left)) as [old Hold].
  pose proof Hr as (_ & Hgo & Hk & _). pose proof (Hp sf ltac:(by left)) as Hns.
  assert (∀ t1 v, (∀ n, n ≠ sf_Name sf → t1 !! n = t !! n) → t1 !! sf_Name sf = Some (sf_Type sf, v) →
    acceptable vs f → v = final vs sf f old →
    ∃ t' e, decode_loop ParseDuration vs fs t1 = Returns (t', e) ∧ (e = None ↔ Forall (acceptable vs) (f :: fs)) ∧
    (∀ n, n ∉ sf_Name sf :: (sf_Name <$> sfs) → t' !! n = t !! n) ∧
    (e = None → Forall2 (λ sf f, ∃ old, t !! sf_Name sf = Some (sf_Type sf, old) ∧
       t' !! sf_Name sf = Some (sf_Type sf, final vs sf f old)) (sf :: sfs) (f :: fs))) as Hgoon.
  { intros t1 v Ht1 Hv Hacc ->. assert (has_type sfs t1) as Hty.
    { intros g Hg. destruct (Ht g ltac:(by right)) as [o Ho]. exists o. rewrite Ht1; [done|].
      intros E. apply Hn. rewrite <- E. by apply list_elem_of_fmap_2. }
    destruct (IH t1 Hd Hty) as (t' & e & E & He & Hother & Hres); [intros g Hg; apply Hp; by right|].
    exists t', e. split_and!; [done| | |].
    - rewrite He, Forall_cons. tauto.
    - intros n Hnn. rewrite Hother by set_solver. apply Ht1. set_solver.
    - intros HN. constructor; [exists old; split; [done|]; by rewrite Hother, Hv|].
      specialize (Hres HN). eapply Forall2_impl; [apply (Forall2_same_length_lookup_2 _ _ _ (Forall2_length _ _ _ Hres))|].
      2: { intros ? ? HQ. exact HQ. }
      intros i a b Ha Hb. destruct (Forall2_lookup_lr _ _ _ _ _ _ Hres Ha Hb) as (o & Ho & Ho').
      exists o. split; [|done]. rewrite <- Ho. symmetry. apply Ht1. intros E'. apply Hn. rewrite <- E'.
      apply list_elem_of_fmap_2. by eapply list_elem_of_lookup_2. }
  assert (∀ raw, raw_of vs f = Some raw →
    (is_ok (parseValue raw (Kind f) (OneOf f)) = true → acceptable vs f) →
    (is_ok (parseValue raw (Kind f) (OneOf f)) = false → ¬ acceptable vs f) →
    ∃ t' e, match assignField t f raw with
            | Returns (target, None) => decode_loop ParseDuration vs fs target | r => r end = Returns (t', e) ∧
    (e = None ↔ Forall (acceptable vs) (f :: fs)) ∧
    (∀ n, n ∉ sf_Name sf :: (sf_Name <$> sfs) → t' !! n = t !! n) ∧
    (e = None → Forall2 (λ sf f, ∃ old, t !! sf_Name sf = Some (sf_Type sf, old) ∧
       t' !! sf_Name sf = Some (sf_Type sf, final vs sf f old)) (sf :: sfs) (f :: fs))) as Hassign.
  { intros raw Hraw Hok Hbad. unfold opt.assignField. destruct (parseValue raw (Kind f) (OneOf f)) as [v|er] eqn:Ep.
    - rewrite Hgo, (set_field_parsed raw (Kind f) (OneOf f) v (sf_Type sf) t (sf_Name sf) old) by done.
      apply (Hgoon _ (stored (sf_Type sf) v)); [intros; by apply lookup_insert_ne|apply lookup_insert_eq|by apply Hok|].
      unfold final. by rewrite Hraw, Ep.
    - exists t, (Some er). split_and!; [done| |done|done]. rewrite Forall_cons. split; [done|]. intros [Ha _].
      by destruct (Hbad eq_refl). }
  cbn [decode_loop]. unfold raw_of, acceptable in Hassign. destruct (vs !! Name f) as [raw|] eqn:Hv.
  - apply Hassign; [done|done|]. intros ->. done.
  - destruct (Required f) eqn:Hreq.
    { exists t, (Some (ErrMissingRequired (Name f))). split_and!; [done| |done|done]. rewrite Forall_cons. split; [done|].
      intros [Ha _]. unfold acceptable in Ha. rewrite Hv in Ha. congruence. }
    destruct (HasDefault f) eqn:Hdef; cbn [negb].
    + apply Hassign; [done|done|]. by rewrite (default_parses sf f Hr Hdef).
    + apply (Hgoon t old); [done|done| |]; unfold acceptable, final, raw_of; by rewrite Hv, ?Hdef.
Qed.
End Laws.

(** ** Decoding *)

Lemma unknown_loop_spec s keys : unknown_loop s keys = None ↔ Forall (λ k, HasField s k = true) keys.
Proof.
  induction keys as [|k keys IH]; simpl; [split; [constructor|done]|]. rewrite Forall_cons.
  destruct (HasField s k); simpl; [rewrite IH; tauto|split; [done|intros [? _]; done]].
Qed.

Lemma wrap_fits w z : (1 <= w)%Z → wrap w z = z ↔ (- 2 ^ (w - 1) <= z < 2 ^ (w - 1))%Z.
Proof.
  intros Hw. unfold wrap. assert (2 ^ w = 2 * 2 ^ (w - 1))%Z as ->.
  { rewrite <- Z.pow_succ_r by lia. f_equal. lia. }
  assert (0 < 2 ^ (w - 1))%Z as Hp by (apply Z.pow_pos_nonneg; lia). split.
  - intros E. pose proof (Z.mod_pos_bound (z + 2 ^ (w - 1)) (2 * 2 ^ (w - 1))). lia.
  - intros Hz. rewrite Z.mod_small by lia. lia.
Qed.

Section Decode.
Context `{CaseTables} (ParseDuration : string → option Z).

Lemma kept_struct sfs t :
  NoDup (sf_Name <$> sfs) → has_type sfs t → plain_slices sfs →
  let ks := filter (λ sf, kept sf = true) sfs in
  NoDup (sf_Name <$> ks) ∧ has_type ks t ∧ plain_slices ks.
Proof.
  intros Hd Ht Hp. cbv zeta. split_and!.
  - eapply sublist_NoDup; [exact Hd|]. apply fmap_sublist, sublist_filter.
  - intros sf [_ Hin]%list_elem_of_filter. by apply Ht.
  - intros sf [_ Hin]%list_elem_of_filter. by apply Hp.
Qed.

(** Stored at its width: in range, and the given number up to a multiple of
    the modulus. *)
Lemma wrap_range w z : (1 <= w)%Z → (- 2 ^ (w - 1) <= wrap w z < 2 ^ (w - 1))%Z ∧ (2 ^ w | wrap w z - z)%Z.
Proof.
  intros Hw. unfold wrap. assert (2 ^ w = 2 * 2 ^ (w - 1))%Z as ->.
  { rewrite <- Z.pow_succ_r by lia. f_equal. lia. }
  assert (0 < 2 ^ (w - 1))%Z as Hp by (apply Z.pow_pos_nonneg; lia).
  pose proof (Z.mod_pos_bound (z + 2 ^ (w - 1)) (2 * 2 ^ (w - 1))). split; [lia|].
  exists (- ((z + 2 ^ (w - 1)) / (2 * 2 ^ (w - 1))))%Z. rewrite Z.mod_eq by lia. lia.
Qed.

(** C39: options decode completely or not at all accepted: for the schema
    reflected from a struct type with distinct field names and without slices
    of defined string types (into which [Decode] panics,
    [defined_string_slices_panic]), a target of that type and any values, in
    whatever order Go visits them, [Decode] does not panic; it returns nil
    exactly when every key is declared, every required option is given and
    every given value parses and is permitted; then every declared field holds
    its given value, or its default, or what it held before; and fields outside
    the schema are never touched.  An integer field holds the given number
    modulo its width: it is accepted in any case, and held as given exactly
    when it fits (300 is 44 in an int8, [narrow_integers_are_truncated]). *)
Theorem decode_follows_schema sfs s vs keys t :
  ReflectChecked ParseDuration (AStruct sfs) = Ok s →
  NoDup (sf_Name <$> sfs) → has_type sfs t → plain_slices sfs → keys ≡ₚ (map_to_list vs).*1 →
  let ks := filter (λ sf, kept sf = true) sfs in
  ∃ t' e, Decode ParseDuration (New s vs) keys (DStruct t) = Returns (DStruct t', e) ∧
    (e = None ↔ (∀ k, is_Some (vs !! k) → HasField s k = true) ∧ Forall (acceptable ParseDuration vs) (Fields s)) ∧
    (∀ n, n ∉ (sf_Name <$> ks) → t' !! n = t !! n) ∧
    (e = None → Forall2 (λ sf f, ∃ old, t !! sf_Name sf = Some (sf_Type sf, old) ∧
       t' !! sf_Name sf = Some (sf_Type sf, final ParseDuration vs sf f old)) ks (Fields s)) ∧
    (e = None → ∀ i sf f raw w z, ks !! i = Some sf → Fields s !! i = Some f → sf_Type sf = TInt w → (1 <= w)%Z →
       raw_of vs f = Some raw → parseValue ParseDuration raw (Kind f) (OneOf f) = Ok (GInt z) →
       ∃ x, t' !! sf_Name sf = Some (TInt w, GInt x) ∧ (- 2 ^ (w - 1) <= x < 2 ^ (w - 1))%Z ∧ (2 ^ w | x - z)%Z ∧
            (x = z ↔ (- 2 ^ (w - 1) <= z < 2 ^ (w - 1))%Z)).
Proof.
  intros Hr Hd Ht Hp Hk. cbv zeta. destruct (reflect_loop_spec _ _ _ _ Hr) as (fs & Efs & Hf). simpl in Efs.
  destruct (kept_struct sfs t Hd Ht Hp) as (Hd' & Ht' & Hp').
  destruct (decode_loop_spec ParseDuration vs _ fs t Hf Hd' Ht' Hp') as (t' & e & E & He & Ho & Hres).
  assert ((∀ k, is_Some (vs !! k) → HasField s k = true) ↔ unknown_loop s keys = None) as Hun.
  { rewrite unknown_loop_spec, Hk, Forall_forall. split.
    - intros Hall k ([k' v] & -> & Hin)%list_elem_of_fmap. apply Hall. exists v. by apply elem_of_map_to_list.
    - intros Hall k [v Hv]. apply Hall. apply list_elem_of_fmap. exists (k, v). split; [done|].
      by apply elem_of_map_to_list. }
  unfold Decode, rejectUnknownFields. simpl. destruct (unknown_loop s keys) as [u|].
  - exists t, (Some u). split_and!; [done| |done|done|done]. split; [done|]. intros [Hall _]. by apply Hun in Hall.
  - rewrite Efs, E. exists t', e. split_and!; [done| |done|done|].
    { rewrite He. split; [intros ?; split; [by apply Hun|done]|by intros [_ ?]]. }
    intros Hn i sf f raw w z Hi Hfi Hty Hw Hraw Hparse.
    destruct (Forall2_lookup_lr _ _ _ _ _ _ (Hres Hn) Hi Hfi) as (old & _ & Hnew). exists (wrap w z).
    destruct (wrap_range w z Hw) as [Hrange Hmod].
    split; [|split; [exact Hrange|split; [exact Hmod|by apply wrap_fits]]].
    rewrite Hnew. unfold final. by rewrite Hraw, Hparse, Hty.
Qed.

(** binding applies every default: a schema that reflection accepted, on a
    struct type without slices of defined string types, has no default that
    fails to parse or to be assigned, so [Bind] returns with every field that
    declares a default holding it and all others as they were. *)
Theorem bind_applies_defaults sfs s t :
  ReflectChecked ParseDuration (AStruct sfs) = Ok s →
  NoDup (sf_Name <$> sfs) → has_type sfs t → plain_slices sfs →
  let ks := filter (λ sf, kept sf = true) sfs in
  ∃ t', Bind ParseDuration sfs t = Returns (MkHolder s, DStruct t') ∧
    (∀ n, n ∉ (sf_Name <$> ks) → t' !! n = t !! n) ∧
    Forall2 (λ sf f, ∃ old, t !! sf_Name sf = Some (sf_Type sf, old) ∧
      t' !! sf_Name sf = Some (sf_Type sf, final ParseDuration ∅ sf f old)) ks (Fields s).
Proof.
  intros Hr Hd Ht Hp. cbv zeta. destruct (reflect_loop_spec _ _ _ _ Hr) as (fs & Efs & Hf). simpl in Efs.
  destruct (kept_struct sfs t Hd Ht Hp) as (Hd' & Ht' & Hp').
  unfold Bind, Reflect. rewrite Hr. unfold applyDefaults. simpl. rewrite Efs. clear Hr Efs Hd Ht Hp.
  set (relax := λ f, MkField (Name f) (GoFieldName f) (Kind f) false (HasDefault f) (DefaultStr f) (OneOf f) (Description f)).
  assert (Forall2 (reflects ParseDuration) (filter (λ sf, kept sf = true) sfs) (relax <$> fs)) as Hf'.
  { apply Forall2_fmap_r. eapply Forall2_impl; [exact Hf|]. by intros sf f. }
  destruct (decode_loop_spec ParseDuration ∅ _ (relax <$> fs) t Hf' Hd' Ht' Hp') as (t' & e & E & He & Ho & Hres).
  assert (e = None) as ->.
  { apply He, Forall_fmap, Forall_true. intros f. unfold acceptable. simpl. by rewrite lookup_empty. }
  assert (∀ fs t, decode_loop ParseDuration ∅ (relax <$> fs) t = Returns (t', None) →
    defaults_loop ParseDuration fs t = Returns t') as Hsame.
  { clear. induction fs as [|f fs IH]; intros t E; [by injection E as ->|]. rewrite fmap_cons in E.
    cbn [decode_loop defaults_loop] in *. rewrite lookup_empty in E. cbn [Required HasDefault] in E.
    change (opt.assignField ParseDuration t (relax f) (DefaultStr (relax f)))
      with (opt.assignField ParseDuration t f (DefaultStr f)) in E.
    destruct (negb (HasDefault (relax f))) eqn:Ed; simpl in Ed; rewrite Ed; [by apply IH|].
    destruct (opt.assignField ParseDuration t f (DefaultStr f)) as [[t1 [er|]]|]; [by simplify_eq|by apply IH|done]. }
  rewrite (Hsame fs t E). exists t'. split_and!; [done|done|].
  specialize (Hres eq_refl). apply Forall2_fmap_r in Hres. exact Hres.
Qed.
End Decode.

(** ** Examples *)

Definition demo_type : list StructField :=
  [MkSF "OutDir" true TString (Some ",default=gen"); MkSF "Depth" true (TInt 8) (Some "depth,required");
   MkSF "secret" false TBool None; MkSF "Tags" true (TSlice true) None].
Definition demo_struct : gostruct :=
  <["OutDir" := (TString, GString "")]> (<["Depth" := (TInt 8, GInt 0)]>
    (<["secret" := (TBool, GBool true)]> (<["Tags" := (TSlice true, GStrings [])]> ∅))).
Definition demo_schema : Schema :=
  MkSchema [MkField "out_dir" "OutDir" KindString false true "gen" [] "";
            MkField "depth" "Depth" KindInt true false "" [] ""; MkField "tags" "Tags" KindStringList false false "" [] ""].

Lemma demo_reflects : ReflectChecked (λ _, None) (AStruct demo_type) = Ok demo_schema.
Proof. vm_compute. reflexivity. Qed.

Lemma demo_names : NoDup (sf_Name <$> demo_type).
Proof. refine (bool_decide_unpack _ _). vm_compute. exact I. Qed.

Lemma demo_has_type : has_type demo_type demo_struct.
Proof.
  intros sf Hin. apply list_elem_of_In in Hin. destruct Hin as [<-|[<-|[<-|[<-|[]]]]];
    eexists; vm_compute; reflexivity.
Qed.

Lemma demo_plain : plain_slices demo_type.
Proof. intros sf Hin. apply list_elem_of_In in Hin. by destruct Hin as [<-|[<-|[<-|[<-|[]]]]]. Qed.

Lemma decode_follows_schema_witness :
  ∃ t', Decode (λ _, None) (New demo_schema (<["depth" := "7"]> ∅)) ["depth"] (DStruct demo_struct) = Returns (DStruct t', None) ∧
    t' !! "Depth" = Some (TInt 8, GInt 7) ∧ t' !! "OutDir" = Some (TString, GString "gen") ∧
    t' !! "secret" = demo_struct !! "secret".
Proof.
  destruct (decode_follows_schema (λ _, None) demo_type demo_schema (<["depth" := "7"]> ∅) ["depth"] demo_struct)
    as (t' & e & E & _ & Ho & _); [exact demo_reflects|exact demo_names|exact demo_has_type|exact demo_plain| |].
  - reflexivity.
  - exists t'. assert (t' !! "secret" = demo_struct !! "secret") as Hs.
    { apply Ho. refine (bool_decide_unpack _ _). vm_compute. exact I. }
    vm_compute in E. injection E as <- <-. split_and!; [vm_compute; reflexivity|reflexivity|reflexivity|exact Hs].
Defined.

Lemma bind_applies_defaults_witness :
  ∃ t', Bind (λ _, None) demo_type demo_struct = Returns (MkHolder demo_schema, DStruct t') ∧
    t' !! "OutDir" = Some (TString, GString "gen") ∧ t' !! "secret" = demo_struct !! "secret".
Proof.
  destruct (bind_applies_defaults (λ _, None) demo_type demo_schema demo_struct)
    as (t' & E & Ho & _); [exact demo_reflects|exact demo_names|exact demo_has_type|exact demo_plain|].
  exists t'. assert (t' !! "secret" = demo_struct !! "secret") as Hs.
  { apply Ho. refine (bool_decide_unpack _ _). vm_compute. exact I. }
  vm_compute in E. injection E as <-. split_and!; [vm_compute; reflexivity|reflexivity|exact Hs].
Defined.

(** A value that does not fit a narrow integer field is accepted and stored
    modulo the width of the field. *)
Theorem narrow_integers_are_truncated :
  ∃ t', Decode (λ _, None) (New demo_schema (<["depth" := "300"]> ∅)) ["depth"] (DStruct demo_struct) = Returns (DStruct t', None) ∧
    t' !! "Depth" = Some (TInt 8, GInt 44).
Proof.
  exists (<["Depth" := (TInt 8, GInt 44)]> (<["OutDir" := (TString, GString "gen")]> demo_struct)).
  split; [vm_compute; reflexivity|]. vm_compute. reflexivity.
Qed.

(** Reflection accepts a slice of a defined string type; decoding into it
    panics. *)
Theorem defined_string_slices_panic :
  let sfs := [MkSF "Tags" true (TSlice false) None] in
  ∃ s, ReflectChecked (λ _, None) (AStruct sfs) = Ok s ∧
    Decode (λ _, None) (New s (<["tags" := "a,b"]> ∅)) ["tags"]
      (DStruct (<["Tags" := (TSlice false, GOther)]> ∅)) = Panics "reflect".
Proof.
  exists (MkSchema [MkField "tags" "Tags" KindStringList false false "" [] ""]).
  split; [vm_compute; reflexivity|]. vm_compute. reflexivity.
Qed.
