(* ===== verification/EmitCtors.v ===== *)
(** * emit: constructors, signatures and predicates

    The constructors of [src/emit/expr.go], [stmt.go] and the reference files,
    the projected signature of [sig.go], type projections of [project.go] and
    the predicate combinators of [predicates.go].

    A Go constructor allocates; its model takes the pointer of the new node.
    Fields a literal leaves out are zero, so a constructor is the zero node
    with the fields of the literal set. *)

From S2P Require Import Prelude GoStrings Position Meta Directive Node NodeQueries Manifest Emit EmitSlots.

Local Open Scope string_scope.
Local Open Scope nat_scope.
Local Open Scope list_scope.

Module ctor.

Definition zero_base (p : pointer) : emit.BaseEmit := emit.MkBase p zero_pos [] [] None "" "".

(** ** References *)

Definition Internal (p : pointer) (target : option pointer) (typeArgs : list emit.Ref) : emit.Ref :=
  emit.RTypeRef (zero_base p) target typeArgs.
Definition External (p : pointer) (pkg name : string) (typeArgs : list emit.Ref) : emit.Ref :=
  emit.RExternalRef (zero_base p) pkg name typeArgs.
Definition Builtin (p : pointer) (name : string) : emit.Ref := emit.RBuiltinRef (zero_base p) name.

Abbreviation composite p sh el n k v ps rs ts fs es :=
  (emit.RCompositeRef (zero_base p) (emit.MkCompositeRef sh el n k v ps rs ts fs es)).

Definition Ptr (p : pointer) (elem : option emit.Ref) : emit.Ref :=
  composite p emit.ShapePointer elem 0%Z None None [] [] [] [] [].
Definition SliceOf (p : pointer) (elem : option emit.Ref) : emit.Ref :=
  composite p emit.ShapeSlice elem 0%Z None None [] [] [] [] [].
Definition ArrayOf (p : pointer) (elem : option emit.Ref) (length : Z) : emit.Ref :=
  composite p emit.ShapeArray elem length None None [] [] [] [] [].
Definition MapOf (p : pointer) (key value : option emit.Ref) : emit.Ref :=
  composite p emit.ShapeMap None 0%Z key value [] [] [] [] [].
Definition FuncOf (p : pointer) (params returns : list emit.Ref) : emit.Ref :=
  composite p emit.ShapeFunc None 0%Z None None params returns [] [] [].
Definition Union (p : pointer) (terms : list emit.UnionTerm) : emit.Ref :=
  composite p emit.ShapeUnion None 0%Z None None [] [] terms [] [].
Definition AnonStructOf (p : pointer) (fields : list emit.AnonField) (embeds : list emit.Ref) : emit.Ref :=
  composite p emit.ShapeAnonStruct None 0%Z None None [] [] [] fields embeds.

(** ** Expressions *)

Definition new_expr (p : pointer) (k : emit.ExprKind) : emit.Expr :=
  emit.MkExpr (zero_base p) k emit.LitString "" "" None None None None None None None None None
    [] [] [] [] [] [] "" "".

Definition ex_set_LitKind (x : emit.LiteralKind) (e : emit.Expr) : emit.Expr :=
  emit.MkExpr (emit.ex_base e) (emit.ex_Kind e) x (emit.ex_Name e) (emit.ex_Op e)
    (emit.ex_Receiver e) (emit.ex_Callee e) (emit.ex_Left e) (emit.ex_Right e)
    (emit.ex_IndexExpr e) (emit.ex_Low e) (emit.ex_High e) (emit.ex_Max e) (emit.ex_AsType e)
    (emit.ex_Args e) (emit.ex_Keys e) (emit.ex_TypeArgs e) (emit.ex_FuncParams e)
    (emit.ex_FuncReturns e) (emit.ex_FuncBody e) (emit.ex_RawText e) (emit.ex_Pkg e).
Definition ex_set_Name (x : string) (e : emit.Expr) : emit.Expr :=
  emit.MkExpr (emit.ex_base e) (emit.ex_Kind e) (emit.ex_LitKind e) x (emit.ex_Op e)
    (emit.ex_Receiver e) (emit.ex_Callee e) (emit.ex_Left e) (emit.ex_Right e)
    (emit.ex_IndexExpr e) (emit.ex_Low e) (emit.ex_High e) (emit.ex_Max e) (emit.ex_AsType e)
    (emit.ex_Args e) (emit.ex_Keys e) (emit.ex_TypeArgs e) (emit.ex_FuncParams e)
    (emit.ex_FuncReturns e) (emit.ex_FuncBody e) (emit.ex_RawText e) (emit.ex_Pkg e).
Definition ex_set_Op (x : string) (e : emit.Expr) : emit.Expr :=
  emit.MkExpr (emit.ex_base e) (emit.ex_Kind e) (emit.ex_LitKind e) (emit.ex_Name e) x
    (emit.ex_Receiver e) (emit.ex_Callee e) (emit.ex_Left e) (emit.ex_Right e)
    (emit.ex_IndexExpr e) (emit.ex_Low e) (emit.ex_High e) (emit.ex_Max e) (emit.ex_AsType e)
    (emit.ex_Args e) (emit.ex_Keys e) (emit.ex_TypeArgs e) (emit.ex_FuncParams e)
    (emit.ex_FuncReturns e) (emit.ex_FuncBody e) (emit.ex_RawText e) (emit.ex_Pkg e).
Definition ex_set_Receiver (x : option emit.Expr) (e : emit.Expr) : emit.Expr :=
  emit.MkExpr (emit.ex_base e) (emit.ex_Kind e) (emit.ex_LitKind e) (emit.ex_Name e) (emit.ex_Op
    e) x (emit.ex_Callee e) (emit.ex_Left e) (emit.ex_Right e) (emit.ex_IndexExpr e)
    (emit.ex_Low e) (emit.ex_High e) (emit.ex_Max e) (emit.ex_AsType e) (emit.ex_Args e)
    (emit.ex_Keys e) (emit.ex_TypeArgs e) (emit.ex_FuncParams e) (emit.ex_FuncReturns e)
    (emit.ex_FuncBody e) (emit.ex_RawText e) (emit.ex_Pkg e).
Definition ex_set_Callee (x : option emit.Expr) (e : emit.Expr) : emit.Expr :=
  emit.MkExpr (emit.ex_base e) (emit.ex_Kind e) (emit.ex_LitKind e) (emit.ex_Name e) (emit.ex_Op
    e) (emit.ex_Receiver e) x (emit.ex_Left e) (emit.ex_Right e) (emit.ex_IndexExpr e)
    (emit.ex_Low e) (emit.ex_High e) (emit.ex_Max e) (emit.ex_AsType e) (emit.ex_Args e)
    (emit.ex_Keys e) (emit.ex_TypeArgs e) (emit.ex_FuncParams e) (emit.ex_FuncReturns e)
    (emit.ex_FuncBody e) (emit.ex_RawText e) (emit.ex_Pkg e).
Definition ex_set_Left (x : option emit.Expr) (e : emit.Expr) : emit.Expr :=
  emit.MkExpr (emit.ex_base e) (emit.ex_Kind e) (emit.ex_LitKind e) (emit.ex_Name e) (emit.ex_Op
    e) (emit.ex_Receiver e) (emit.ex_Callee e) x (emit.ex_Right e) (emit.ex_IndexExpr e)
    (emit.ex_Low e) (emit.ex_High e) (emit.ex_Max e) (emit.ex_AsType e) (emit.ex_Args e)
    (emit.ex_Keys e) (emit.ex_TypeArgs e) (emit.ex_FuncParams e) (emit.ex_FuncReturns e)
    (emit.ex_FuncBody e) (emit.ex_RawText e) (emit.ex_Pkg e).
Definition ex_set_Right (x : option emit.Expr) (e : emit.Expr) : emit.Expr :=
  emit.MkExpr (emit.ex_base e) (emit.ex_Kind e) (emit.ex_LitKind e) (emit.ex_Name e) (emit.ex_Op
    e) (emit.ex_Receiver e) (emit.ex_Callee e) (emit.ex_Left e) x (emit.ex_IndexExpr e)
    (emit.ex_Low e) (emit.ex_High e) (emit.ex_Max e) (emit.ex_AsType e) (emit.ex_Args e)
    (emit.ex_Keys e) (emit.ex_TypeArgs e) (emit.ex_FuncParams e) (emit.ex_FuncReturns e)
    (emit.ex_FuncBody e) (emit.ex_RawText e) (emit.ex_Pkg e).
Definition ex_set_IndexExpr (x : option emit.Expr) (e : emit.Expr) : emit.Expr :=
  emit.MkExpr (emit.ex_base e) (emit.ex_Kind e) (emit.ex_LitKind e) (emit.ex_Name e) (emit.ex_Op
    e) (emit.ex_Receiver e) (emit.ex_Callee e) (emit.ex_Left e) (emit.ex_Right e) x (emit.ex_Low
    e) (emit.ex_High e) (emit.ex_Max e) (emit.ex_AsType e) (emit.ex_Args e) (emit.ex_Keys e)
    (emit.ex_TypeArgs e) (emit.ex_FuncParams e) (emit.ex_FuncReturns e) (emit.ex_FuncBody e)
    (emit.ex_RawText e) (emit.ex_Pkg e).
Definition ex_set_Low (x : option emit.Expr) (e : emit.Expr) : emit.Expr :=
  emit.MkExpr (emit.ex_base e) (emit.ex_Kind e) (emit.ex_LitKind e) (emit.ex_Name e) (emit.ex_Op
    e) (emit.ex_Receiver e) (emit.ex_Callee e) (emit.ex_Left e) (emit.ex_Right e)
    (emit.ex_IndexExpr e) x (emit.ex_High e) (emit.ex_Max e) (emit.ex_AsType e) (emit.ex_Args e)
    (emit.ex_Keys e) (emit.ex_TypeArgs e) (emit.ex_FuncParams e) (emit.ex_FuncReturns e)
    (emit.ex_FuncBody e) (emit.ex_RawText e) (emit.ex_Pkg e).
Definition ex_set_High (x : option emit.Expr) (e : emit.Expr) : emit.Expr :=
  emit.MkExpr (emit.ex_base e) (emit.ex_Kind e) (emit.ex_LitKind e) (emit.ex_Name e) (emit.ex_Op
    e) (emit.ex_Receiver e) (emit.ex_Callee e) (emit.ex_Left e) (emit.ex_Right e)
    (emit.ex_IndexExpr e) (emit.ex_Low e) x (emit.ex_Max e) (emit.ex_AsType e) (emit.ex_Args e)
    (emit.ex_Keys e) (emit.ex_TypeArgs e) (emit.ex_FuncParams e) (emit.ex_FuncReturns e)
    (emit.ex_FuncBody e) (emit.ex_RawText e) (emit.ex_Pkg e).
Definition ex_set_Max (x : option emit.Expr) (e : emit.Expr) : emit.Expr :=
  emit.MkExpr (emit.ex_base e) (emit.ex_Kind e) (emit.ex_LitKind e) (emit.ex_Name e) (emit.ex_Op
    e) (emit.ex_Receiver e) (emit.ex_Callee e) (emit.ex_Left e) (emit.ex_Right e)
    (emit.ex_IndexExpr e) (emit.ex_Low e) (emit.ex_High e) x (emit.ex_AsType e) (emit.ex_Args e)
    (emit.ex_Keys e) (emit.ex_TypeArgs e) (emit.ex_FuncParams e) (emit.ex_FuncReturns e)
    (emit.ex_FuncBody e) (emit.ex_RawText e) (emit.ex_Pkg e).
Definition ex_set_AsType (x : option emit.Ref) (e : emit.Expr) : emit.Expr :=
  emit.MkExpr (emit.ex_base e) (emit.ex_Kind e) (emit.ex_LitKind e) (emit.ex_Name e) (emit.ex_Op
    e) (emit.ex_Receiver e) (emit.ex_Callee e) (emit.ex_Left e) (emit.ex_Right e)
    (emit.ex_IndexExpr e) (emit.ex_Low e) (emit.ex_High e) (emit.ex_Max e) x (emit.ex_Args e)
    (emit.ex_Keys e) (emit.ex_TypeArgs e) (emit.ex_FuncParams e) (emit.ex_FuncReturns e)
    (emit.ex_FuncBody e) (emit.ex_RawText e) (emit.ex_Pkg e).
Definition ex_set_Args (x : list emit.Expr) (e : emit.Expr) : emit.Expr :=
  emit.MkExpr (emit.ex_base e) (emit.ex_Kind e) (emit.ex_LitKind e) (emit.ex_Name e) (emit.ex_Op
    e) (emit.ex_Receiver e) (emit.ex_Callee e) (emit.ex_Left e) (emit.ex_Right e)
    (emit.ex_IndexExpr e) (emit.ex_Low e) (emit.ex_High e) (emit.ex_Max e) (emit.ex_AsType e) x
    (emit.ex_Keys e) (emit.ex_TypeArgs e) (emit.ex_FuncParams e) (emit.ex_FuncReturns e)
    (emit.ex_FuncBody e) (emit.ex_RawText e) (emit.ex_Pkg e).
Definition ex_set_Keys (x : list string) (e : emit.Expr) : emit.Expr :=
  emit.MkExpr (emit.ex_base e) (emit.ex_Kind e) (emit.ex_LitKind e) (emit.ex_Name e) (emit.ex_Op
    e) (emit.ex_Receiver e) (emit.ex_Callee e) (emit.ex_Left e) (emit.ex_Right e)
    (emit.ex_IndexExpr e) (emit.ex_Low e) (emit.ex_High e) (emit.ex_Max e) (emit.ex_AsType e)
    (emit.ex_Args e) x (emit.ex_TypeArgs e) (emit.ex_FuncParams e) (emit.ex_FuncReturns e)
    (emit.ex_FuncBody e) (emit.ex_RawText e) (emit.ex_Pkg e).
Definition ex_set_TypeArgs (x : list emit.Ref) (e : emit.Expr) : emit.Expr :=
  emit.MkExpr (emit.ex_base e) (emit.ex_Kind e) (emit.ex_LitKind e) (emit.ex_Name e) (emit.ex_Op
    e) (emit.ex_Receiver e) (emit.ex_Callee e) (emit.ex_Left e) (emit.ex_Right e)
    (emit.ex_IndexExpr e) (emit.ex_Low e) (emit.ex_High e) (emit.ex_Max e) (emit.ex_AsType e)
    (emit.ex_Args e) (emit.ex_Keys e) x (emit.ex_FuncParams e) (emit.ex_FuncReturns e)
    (emit.ex_FuncBody e) (emit.ex_RawText e) (emit.ex_Pkg e).
Definition ex_set_FuncParams (x : list emit.Param) (e : emit.Expr) : emit.Expr :=
  emit.MkExpr (emit.ex_base e) (emit.ex_Kind e) (emit.ex_LitKind e) (emit.ex_Name e) (emit.ex_Op
    e) (emit.ex_Receiver e) (emit.ex_Callee e) (emit.ex_Left e) (emit.ex_Right e)
    (emit.ex_IndexExpr e) (emit.ex_Low e) (emit.ex_High e) (emit.ex_Max e) (emit.ex_AsType e)
    (emit.ex_Args e) (emit.ex_Keys e) (emit.ex_TypeArgs e) x (emit.ex_FuncReturns e)
    (emit.ex_FuncBody e) (emit.ex_RawText e) (emit.ex_Pkg e).
Definition ex_set_FuncReturns (x : list emit.Ref) (e : emit.Expr) : emit.Expr :=
  emit.MkExpr (emit.ex_base e) (emit.ex_Kind e) (emit.ex_LitKind e) (emit.ex_Name e) (emit.ex_Op
    e) (emit.ex_Receiver e) (emit.ex_Callee e) (emit.ex_Left e) (emit.ex_Right e)
    (emit.ex_IndexExpr e) (emit.ex_Low e) (emit.ex_High e) (emit.ex_Max e) (emit.ex_AsType e)
    (emit.ex_Args e) (emit.ex_Keys e) (emit.ex_TypeArgs e) (emit.ex_FuncParams e) x
    (emit.ex_FuncBody e) (emit.ex_RawText e) (emit.ex_Pkg e).
Definition ex_set_FuncBody (x : list emit.Stmt) (e : emit.Expr) : emit.Expr :=
  emit.MkExpr (emit.ex_base e) (emit.ex_Kind e) (emit.ex_LitKind e) (emit.ex_Name e) (emit.ex_Op
    e) (emit.ex_Receiver e) (emit.ex_Callee e) (emit.ex_Left e) (emit.ex_Right e)
    (emit.ex_IndexExpr e) (emit.ex_Low e) (emit.ex_High e) (emit.ex_Max e) (emit.ex_AsType e)
    (emit.ex_Args e) (emit.ex_Keys e) (emit.ex_TypeArgs e) (emit.ex_FuncParams e)
    (emit.ex_FuncReturns e) x (emit.ex_RawText e) (emit.ex_Pkg e).
Definition ex_set_RawText (x : string) (e : emit.Expr) : emit.Expr :=
  emit.MkExpr (emit.ex_base e) (emit.ex_Kind e) (emit.ex_LitKind e) (emit.ex_Name e) (emit.ex_Op
    e) (emit.ex_Receiver e) (emit.ex_Callee e) (emit.ex_Left e) (emit.ex_Right e)
    (emit.ex_IndexExpr e) (emit.ex_Low e) (emit.ex_High e) (emit.ex_Max e) (emit.ex_AsType e)
    (emit.ex_Args e) (emit.ex_Keys e) (emit.ex_TypeArgs e) (emit.ex_FuncParams e)
    (emit.ex_FuncReturns e) (emit.ex_FuncBody e) x (emit.ex_Pkg e).
Definition ex_set_Pkg (x : string) (e : emit.Expr) : emit.Expr :=
  emit.MkExpr (emit.ex_base e) (emit.ex_Kind e) (emit.ex_LitKind e) (emit.ex_Name e) (emit.ex_Op
    e) (emit.ex_Receiver e) (emit.ex_Callee e) (emit.ex_Left e) (emit.ex_Right e)
    (emit.ex_IndexExpr e) (emit.ex_Low e) (emit.ex_High e) (emit.ex_Max e) (emit.ex_AsType e)
    (emit.ex_Args e) (emit.ex_Keys e) (emit.ex_TypeArgs e) (emit.ex_FuncParams e)
    (emit.ex_FuncReturns e) (emit.ex_FuncBody e) (emit.ex_RawText e) x.

Abbreviation literal p lk text := (ex_set_LitKind lk (ex_set_RawText text (new_expr p emit.ExprLiteral))).

Definition NewLiteralString (p : pointer) (s : string) : emit.Expr := literal p emit.LitString s.
Definition NewLiteralInt (p : pointer) (i : Z) : emit.Expr := literal p emit.LitInt (itoa i).
Definition NewLiteralUint (p : pointer) (u : Z) : emit.Expr := literal p emit.LitUint (itoa u).
(** [FormatFloat] with format g, shortest precision, 64 bits. *)
Definition NewLiteralFloat {float : Type} (FormatFloat : float → string) (p : pointer) (f : float) : emit.Expr :=
  literal p emit.LitFloat (FormatFloat f).
Definition NewLiteralBool (p : pointer) (b : bool) : emit.Expr :=
  literal p emit.LitBool (if b then "true" else "false").
Definition NewLiteralNil (p : pointer) : emit.Expr := literal p emit.LitNil "nil".
Definition NewLiteralRune (p : pointer) (r : string) : emit.Expr := literal p emit.LitRune r.
Definition NewLiteralRaw (p : pointer) (text : string) : emit.Expr := literal p emit.LitRaw text.
Definition NewIdent (p : pointer) (name : string) : emit.Expr :=
  ex_set_Name name (new_expr p emit.ExprIdent).
Definition NewExternal (p : pointer) (pkg name : string) : emit.Expr :=
  ex_set_Pkg pkg (ex_set_Name name (new_expr p emit.ExprExternal)).
Definition NewField (p : pointer) (receiver : option emit.Expr) (name : string) : emit.Expr :=
  ex_set_Receiver receiver (ex_set_Name name (new_expr p emit.ExprField)).
Definition NewIndex (p : pointer) (receiver index : option emit.Expr) : emit.Expr :=
  ex_set_Receiver receiver (ex_set_IndexExpr index (new_expr p emit.ExprIndex)).
Definition NewIndexList (p : pointer) (receiver : option emit.Expr) (indexes : list emit.Expr) : emit.Expr :=
  ex_set_Receiver receiver (ex_set_Args indexes (new_expr p emit.ExprIndexList)).
Definition NewSlice (p : pointer) (receiver low high capacity : option emit.Expr) : emit.Expr :=
  ex_set_Receiver receiver (ex_set_Low low (ex_set_High high (ex_set_Max capacity
    (new_expr p emit.ExprSlice)))).
Definition NewBinary (p : pointer) (left : option emit.Expr) (op : string) (right : option emit.Expr) : emit.Expr :=
  ex_set_Left left (ex_set_Op op (ex_set_Right right (new_expr p emit.ExprBinary))).
Definition NewUnary (p : pointer) (op : string) (operand : option emit.Expr) : emit.Expr :=
  ex_set_Op op (ex_set_Receiver operand (new_expr p emit.ExprUnary)).
Definition NewCall (p : pointer) (callee : option emit.Expr) (args : list emit.Expr) : emit.Expr :=
  ex_set_Callee callee (ex_set_Args args (new_expr p emit.ExprCall)).
Definition NewCallGeneric (p : pointer) (callee : option emit.Expr) (typeArgs : list emit.Ref)
    (args : list emit.Expr) : emit.Expr :=
  ex_set_Callee callee (ex_set_TypeArgs typeArgs (ex_set_Args args (new_expr p emit.ExprCall))).
Definition NewMethodCall (p : pointer) (receiver : option emit.Expr) (method : string)
    (args : list emit.Expr) : emit.Expr :=
  ex_set_Receiver receiver (ex_set_Name method (ex_set_Args args (new_expr p emit.ExprMethodCall))).
Definition NewTypeAssert (p : pointer) (receiver : option emit.Expr) (asType : option emit.Ref) : emit.Expr :=
  ex_set_Receiver receiver (ex_set_AsType asType (new_expr p emit.ExprTypeAssert)).
Definition NewNew (p : pointer) (typ : option emit.Ref) : emit.Expr :=
  ex_set_AsType typ (new_expr p emit.ExprNew).
Definition NewMake (p : pointer) (typ : option emit.Ref) (args : list emit.Expr) : emit.Expr :=
  ex_set_AsType typ (ex_set_Args args (new_expr p emit.ExprMake)).
Definition NewComposite (p : pointer) (typ : option emit.Ref) (elements : list emit.Expr) : emit.Expr :=
  ex_set_AsType typ (ex_set_Args elements (new_expr p emit.ExprComposite)).
Definition NewCompositeKeyed (p : pointer) (typ : option emit.Ref) (keys : list string)
    (elements : list emit.Expr) : emit.Expr :=
  ex_set_AsType typ (ex_set_Keys keys (ex_set_Args elements (new_expr p emit.ExprCompositeKeyed))).
Definition NewFuncLit (p : pointer) (params : list emit.Param) (returns : list emit.Ref)
    (body : list emit.Stmt) : emit.Expr :=
  ex_set_FuncParams params (ex_set_FuncReturns returns (ex_set_FuncBody body (new_expr p emit.ExprFuncLit))).
Definition NewParen (p : pointer) (inner : option emit.Expr) : emit.Expr :=
  ex_set_Receiver inner (new_expr p emit.ExprParen).
Definition NewDeref (p : pointer) (target : option emit.Expr) : emit.Expr :=
  ex_set_Receiver target (new_expr p emit.ExprDeref).
Definition NewAddr (p : pointer) (target : option emit.Expr) : emit.Expr :=
  ex_set_Receiver target (new_expr p emit.ExprAddr).
Definition NewRawExpr (p : pointer) (text : string) : emit.Expr :=
  ex_set_RawText text (new_expr p emit.ExprRaw).

(** ** Statements *)

Definition new_stmt (p : pointer) (k : emit.StmtKind) : emit.Stmt :=
  emit.MkStmt (zero_base p) k [] [] [] None None None "" "" None "" [] [] [] None "" None "" None "" None.

Definition st_set_Block (x : list emit.Stmt) (s : emit.Stmt) : emit.Stmt :=
  emit.MkStmt (emit.st_base s) (emit.st_Kind s) x (emit.st_Else s) (emit.st_Cases s)
    (emit.st_Cond s) (emit.st_Init s) (emit.st_Post s) (emit.st_RangeKey s) (emit.st_RangeValue
    s) (emit.st_RangeOver s) (emit.st_Op s) (emit.st_Targets s) (emit.st_Values s)
    (emit.st_Returns s) (emit.st_Call s) (emit.st_Label s) (emit.st_Inner s) (emit.st_DeclName
    s) (emit.st_DeclType s) (emit.st_RawText s) (emit.st_Node s).
Definition st_set_Else (x : list emit.Stmt) (s : emit.Stmt) : emit.Stmt :=
  emit.MkStmt (emit.st_base s) (emit.st_Kind s) (emit.st_Block s) x (emit.st_Cases s)
    (emit.st_Cond s) (emit.st_Init s) (emit.st_Post s) (emit.st_RangeKey s) (emit.st_RangeValue
    s) (emit.st_RangeOver s) (emit.st_Op s) (emit.st_Targets s) (emit.st_Values s)
    (emit.st_Returns s) (emit.st_Call s) (emit.st_Label s) (emit.st_Inner s) (emit.st_DeclName
    s) (emit.st_DeclType s) (emit.st_RawText s) (emit.st_Node s).
Definition st_set_Cases (x : list emit.Stmt) (s : emit.Stmt) : emit.Stmt :=
  emit.MkStmt (emit.st_base s) (emit.st_Kind s) (emit.st_Block s) (emit.st_Else s) x
    (emit.st_Cond s) (emit.st_Init s) (emit.st_Post s) (emit.st_RangeKey s) (emit.st_RangeValue
    s) (emit.st_RangeOver s) (emit.st_Op s) (emit.st_Targets s) (emit.st_Values s)
    (emit.st_Returns s) (emit.st_Call s) (emit.st_Label s) (emit.st_Inner s) (emit.st_DeclName
    s) (emit.st_DeclType s) (emit.st_RawText s) (emit.st_Node s).
Definition st_set_Cond (x : option emit.Expr) (s : emit.Stmt) : emit.Stmt :=
  emit.MkStmt (emit.st_base s) (emit.st_Kind s) (emit.st_Block s) (emit.st_Else s)
    (emit.st_Cases s) x (emit.st_Init s) (emit.st_Post s) (emit.st_RangeKey s)
    (emit.st_RangeValue s) (emit.st_RangeOver s) (emit.st_Op s) (emit.st_Targets s)
    (emit.st_Values s) (emit.st_Returns s) (emit.st_Call s) (emit.st_Label s) (emit.st_Inner s)
    (emit.st_DeclName s) (emit.st_DeclType s) (emit.st_RawText s) (emit.st_Node s).
Definition st_set_Init (x : option emit.Stmt) (s : emit.Stmt) : emit.Stmt :=
  emit.MkStmt (emit.st_base s) (emit.st_Kind s) (emit.st_Block s) (emit.st_Else s)
    (emit.st_Cases s) (emit.st_Cond s) x (emit.st_Post s) (emit.st_RangeKey s)
    (emit.st_RangeValue s) (emit.st_RangeOver s) (emit.st_Op s) (emit.st_Targets s)
    (emit.st_Values s) (emit.st_Returns s) (emit.st_Call s) (emit.st_Label s) (emit.st_Inner s)
    (emit.st_DeclName s) (emit.st_DeclType s) (emit.st_RawText s) (emit.st_Node s).
Definition st_set_Post (x : option emit.Stmt) (s : emit.Stmt) : emit.Stmt :=
  emit.MkStmt (emit.st_base s) (emit.st_Kind s) (emit.st_Block s) (emit.st_Else s)
    (emit.st_Cases s) (emit.st_Cond s) (emit.st_Init s) x (emit.st_RangeKey s)
    (emit.st_RangeValue s) (emit.st_RangeOver s) (emit.st_Op s) (emit.st_Targets s)
    (emit.st_Values s) (emit.st_Returns s) (emit.st_Call s) (emit.st_Label s) (emit.st_Inner s)
    (emit.st_DeclName s) (emit.st_DeclType s) (emit.st_RawText s) (emit.st_Node s).
Definition st_set_RangeKey (x : string) (s : emit.Stmt) : emit.Stmt :=
  emit.MkStmt (emit.st_base s) (emit.st_Kind s) (emit.st_Block s) (emit.st_Else s)
    (emit.st_Cases s) (emit.st_Cond s) (emit.st_Init s) (emit.st_Post s) x (emit.st_RangeValue
    s) (emit.st_RangeOver s) (emit.st_Op s) (emit.st_Targets s) (emit.st_Values s)
    (emit.st_Returns s) (emit.st_Call s) (emit.st_Label s) (emit.st_Inner s) (emit.st_DeclName
    s) (emit.st_DeclType s) (emit.st_RawText s) (emit.st_Node s).
Definition st_set_RangeValue (x : string) (s : emit.Stmt) : emit.Stmt :=
  emit.MkStmt (emit.st_base s) (emit.st_Kind s) (emit.st_Block s) (emit.st_Else s)
    (emit.st_Cases s) (emit.st_Cond s) (emit.st_Init s) (emit.st_Post s) (emit.st_RangeKey s) x
    (emit.st_RangeOver s) (emit.st_Op s) (emit.st_Targets s) (emit.st_Values s) (emit.st_Returns
    s) (emit.st_Call s) (emit.st_Label s) (emit.st_Inner s) (emit.st_DeclName s)
    (emit.st_DeclType s) (emit.st_RawText s) (emit.st_Node s).
Definition st_set_RangeOver (x : option emit.Expr) (s : emit.Stmt) : emit.Stmt :=
  emit.MkStmt (emit.st_base s) (emit.st_Kind s) (emit.st_Block s) (emit.st_Else s)
    (emit.st_Cases s) (emit.st_Cond s) (emit.st_Init s) (emit.st_Post s) (emit.st_RangeKey s)
    (emit.st_RangeValue s) x (emit.st_Op s) (emit.st_Targets s) (emit.st_Values s)
    (emit.st_Returns s) (emit.st_Call s) (emit.st_Label s) (emit.st_Inner s) (emit.st_DeclName
    s) (emit.st_DeclType s) (emit.st_RawText s) (emit.st_Node s).
Definition st_set_Op (x : string) (s : emit.Stmt) : emit.Stmt :=
  emit.MkStmt (emit.st_base s) (emit.st_Kind s) (emit.st_Block s) (emit.st_Else s)
    (emit.st_Cases s) (emit.st_Cond s) (emit.st_Init s) (emit.st_Post s) (emit.st_RangeKey s)
    (emit.st_RangeValue s) (emit.st_RangeOver s) x (emit.st_Targets s) (emit.st_Values s)
    (emit.st_Returns s) (emit.st_Call s) (emit.st_Label s) (emit.st_Inner s) (emit.st_DeclName
    s) (emit.st_DeclType s) (emit.st_RawText s) (emit.st_Node s).
Definition st_set_Targets (x : list emit.Expr) (s : emit.Stmt) : emit.Stmt :=
  emit.MkStmt (emit.st_base s) (emit.st_Kind s) (emit.st_Block s) (emit.st_Else s)
    (emit.st_Cases s) (emit.st_Cond s) (emit.st_Init s) (emit.st_Post s) (emit.st_RangeKey s)
    (emit.st_RangeValue s) (emit.st_RangeOver s) (emit.st_Op s) x (emit.st_Values s)
    (emit.st_Returns s) (emit.st_Call s) (emit.st_Label s) (emit.st_Inner s) (emit.st_DeclName
    s) (emit.st_DeclType s) (emit.st_RawText s) (emit.st_Node s).
Definition st_set_Values (x : list emit.Expr) (s : emit.Stmt) : emit.Stmt :=
  emit.MkStmt (emit.st_base s) (emit.st_Kind s) (emit.st_Block s) (emit.st_Else s)
    (emit.st_Cases s) (emit.st_Cond s) (emit.st_Init s) (emit.st_Post s) (emit.st_RangeKey s)
    (emit.st_RangeValue s) (emit.st_RangeOver s) (emit.st_Op s) (emit.st_Targets s) x
    (emit.st_Returns s) (emit.st_Call s) (emit.st_Label s) (emit.st_Inner s) (emit.st_DeclName
    s) (emit.st_DeclType s) (emit.st_RawText s) (emit.st_Node s).
Definition st_set_Returns (x : list emit.Expr) (s : emit.Stmt) : emit.Stmt :=
  emit.MkStmt (emit.st_base s) (emit.st_Kind s) (emit.st_Block s) (emit.st_Else s)
    (emit.st_Cases s) (emit.st_Cond s) (emit.st_Init s) (emit.st_Post s) (emit.st_RangeKey s)
    (emit.st_RangeValue s) (emit.st_RangeOver s) (emit.st_Op s) (emit.st_Targets s)
    (emit.st_Values s) x (emit.st_Call s) (emit.st_Label s) (emit.st_Inner s) (emit.st_DeclName
    s) (emit.st_DeclType s) (emit.st_RawText s) (emit.st_Node s).
Definition st_set_Call (x : option emit.Expr) (s : emit.Stmt) : emit.Stmt :=
  emit.MkStmt (emit.st_base s) (emit.st_Kind s) (emit.st_Block s) (emit.st_Else s)
    (emit.st_Cases s) (emit.st_Cond s) (emit.st_Init s) (emit.st_Post s) (emit.st_RangeKey s)
    (emit.st_RangeValue s) (emit.st_RangeOver s) (emit.st_Op s) (emit.st_Targets s)
    (emit.st_Values s) (emit.st_Returns s) x (emit.st_Label s) (emit.st_Inner s)
    (emit.st_DeclName s) (emit.st_DeclType s) (emit.st_RawText s) (emit.st_Node s).
Definition st_set_Label (x : string) (s : emit.Stmt) : emit.Stmt :=
  emit.MkStmt (emit.st_base s) (emit.st_Kind s) (emit.st_Block s) (emit.st_Else s)
    (emit.st_Cases s) (emit.st_Cond s) (emit.st_Init s) (emit.st_Post s) (emit.st_RangeKey s)
    (emit.st_RangeValue s) (emit.st_RangeOver s) (emit.st_Op s) (emit.st_Targets s)
    (emit.st_Values s) (emit.st_Returns s) (emit.st_Call s) x (emit.st_Inner s)
    (emit.st_DeclName s) (emit.st_DeclType s) (emit.st_RawText s) (emit.st_Node s).
Definition st_set_Inner (x : option emit.Stmt) (s : emit.Stmt) : emit.Stmt :=
  emit.MkStmt (emit.st_base s) (emit.st_Kind s) (emit.st_Block s) (emit.st_Else s)
    (emit.st_Cases s) (emit.st_Cond s) (emit.st_Init s) (emit.st_Post s) (emit.st_RangeKey s)
    (emit.st_RangeValue s) (emit.st_RangeOver s) (emit.st_Op s) (emit.st_Targets s)
    (emit.st_Values s) (emit.st_Returns s) (emit.st_Call s) (emit.st_Label s) x
    (emit.st_DeclName s) (emit.st_DeclType s) (emit.st_RawText s) (emit.st_Node s).
Definition st_set_DeclName (x : string) (s : emit.Stmt) : emit.Stmt :=
  emit.MkStmt (emit.st_base s) (emit.st_Kind s) (emit.st_Block s) (emit.st_Else s)
    (emit.st_Cases s) (emit.st_Cond s) (emit.st_Init s) (emit.st_Post s) (emit.st_RangeKey s)
    (emit.st_RangeValue s) (emit.st_RangeOver s) (emit.st_Op s) (emit.st_Targets s)
    (emit.st_Values s) (emit.st_Returns s) (emit.st_Call s) (emit.st_Label s) (emit.st_Inner s)
    x (emit.st_DeclType s) (emit.st_RawText s) (emit.st_Node s).
Definition st_set_DeclType (x : option emit.Ref) (s : emit.Stmt) : emit.Stmt :=
  emit.MkStmt (emit.st_base s) (emit.st_Kind s) (emit.st_Block s) (emit.st_Else s)
    (emit.st_Cases s) (emit.st_Cond s) (emit.st_Init s) (emit.st_Post s) (emit.st_RangeKey s)
    (emit.st_RangeValue s) (emit.st_RangeOver s) (emit.st_Op s) (emit.st_Targets s)
    (emit.st_Values s) (emit.st_Returns s) (emit.st_Call s) (emit.st_Label s) (emit.st_Inner s)
    (emit.st_DeclName s) x (emit.st_RawText s) (emit.st_Node s).
Definition st_set_RawText (x : string) (s : emit.Stmt) : emit.Stmt :=
  emit.MkStmt (emit.st_base s) (emit.st_Kind s) (emit.st_Block s) (emit.st_Else s)
    (emit.st_Cases s) (emit.st_Cond s) (emit.st_Init s) (emit.st_Post s) (emit.st_RangeKey s)
    (emit.st_RangeValue s) (emit.st_RangeOver s) (emit.st_Op s) (emit.st_Targets s)
    (emit.st_Values s) (emit.st_Returns s) (emit.st_Call s) (emit.st_Label s) (emit.st_Inner s)
    (emit.st_DeclName s) (emit.st_DeclType s) x (emit.st_Node s).
Definition st_set_Node (x : option pointer) (s : emit.Stmt) : emit.Stmt :=
  emit.MkStmt (emit.st_base s) (emit.st_Kind s) (emit.st_Block s) (emit.st_Else s)
    (emit.st_Cases s) (emit.st_Cond s) (emit.st_Init s) (emit.st_Post s) (emit.st_RangeKey s)
    (emit.st_RangeValue s) (emit.st_RangeOver s) (emit.st_Op s) (emit.st_Targets s)
    (emit.st_Values s) (emit.st_Returns s) (emit.st_Call s) (emit.st_Label s) (emit.st_Inner s)
    (emit.st_DeclName s) (emit.st_DeclType s) (emit.st_RawText s) x.

Definition NewBlock (p : pointer) (stmts : list emit.Stmt) : emit.Stmt :=
  st_set_Block stmts (new_stmt p emit.StmtBlock).
Definition NewExprStmt (p : pointer) (e : option emit.Expr) : emit.Stmt :=
  st_set_Call e (new_stmt p emit.StmtExpr).
Definition NewAssign (p : pointer) (targets : list emit.Expr) (op : string) (values : list emit.Expr) : emit.Stmt :=
  st_set_Op op (st_set_Targets targets (st_set_Values values (new_stmt p emit.StmtAssign))).
Definition NewReturn (p : pointer) (values : list emit.Expr) : emit.Stmt :=
  st_set_Returns values (new_stmt p emit.StmtReturn).
Definition NewIf (p : pointer) (cond : option emit.Expr) (then_ : list emit.Stmt) : emit.Stmt :=
  st_set_Cond cond (st_set_Block then_ (new_stmt p emit.StmtIf)).
Definition NewIfElse (p : pointer) (cond : option emit.Expr) (then_ els : list emit.Stmt) : emit.Stmt :=
  st_set_Cond cond (st_set_Block then_ (st_set_Else els (new_stmt p emit.StmtIf))).
Definition NewIfInit (p : pointer) (init : option emit.Stmt) (cond : option emit.Expr)
    (then_ els : list emit.Stmt) : emit.Stmt :=
  st_set_Init init (st_set_Cond cond (st_set_Block then_ (st_set_Else els (new_stmt p emit.StmtIf)))).
Definition NewFor (p : pointer) (cond : option emit.Expr) (body : list emit.Stmt) : emit.Stmt :=
  st_set_Cond cond (st_set_Block body (new_stmt p emit.StmtFor)).
Definition NewForFull (p : pointer) (init : option emit.Stmt) (cond : option emit.Expr)
    (post : option emit.Stmt) (body : list emit.Stmt) : emit.Stmt :=
  st_set_Init init (st_set_Cond cond (st_set_Post post (st_set_Block body (new_stmt p emit.StmtFor)))).
Definition NewForRange (p : pointer) (key value : string) (over : option emit.Expr)
    (body : list emit.Stmt) : emit.Stmt :=
  st_set_RangeKey key (st_set_RangeValue value (st_set_RangeOver over (st_set_Block body
    (new_stmt p emit.StmtForRange)))).
Definition NewSwitch (p : pointer) (cond : option emit.Expr) (cases : list emit.Stmt) : emit.Stmt :=
  st_set_Cond cond (st_set_Cases cases (new_stmt p emit.StmtSwitch)).
Definition NewSwitchInit (p : pointer) (init : option emit.Stmt) (cond : option emit.Expr)
    (cases : list emit.Stmt) : emit.Stmt :=
  st_set_Init init (st_set_Cond cond (st_set_Cases cases (new_stmt p emit.StmtSwitch))).
Definition NewCase (p : pointer) (values : list emit.Expr) (body : list emit.Stmt) : emit.Stmt :=
  st_set_Values values (st_set_Block body (new_stmt p emit.StmtCase)).
Definition NewDefault (p : pointer) (body : list emit.Stmt) : emit.Stmt :=
  st_set_Block body (new_stmt p emit.StmtDefault).
Definition NewDefer (p : pointer) (call : option emit.Expr) : emit.Stmt :=
  st_set_Call call (new_stmt p emit.StmtDefer).
Definition NewGo (p : pointer) (call : option emit.Expr) : emit.Stmt :=
  st_set_Call call (new_stmt p emit.StmtGo).
Definition NewBreak (p : pointer) (label : string) : emit.Stmt :=
  st_set_Label label (new_stmt p emit.StmtBreak).
Definition NewContinue (p : pointer) (label : string) : emit.Stmt :=
  st_set_Label label (new_stmt p emit.StmtContinue).
Definition NewLabel (p : pointer) (name : string) (inner : option emit.Stmt) : emit.Stmt :=
  st_set_Label name (st_set_Inner inner (new_stmt p emit.StmtLabel)).
Definition NewVarStmt (p : pointer) (name : string) (typ : option emit.Ref) (init : option emit.Expr) : emit.Stmt :=
  st_set_DeclName name (st_set_DeclType typ (st_set_Call init (new_stmt p emit.StmtVar))).
Definition NewConstStmt (p : pointer) (name : string) (typ : option emit.Ref) (value : option emit.Expr) : emit.Stmt :=
  st_set_DeclName name (st_set_DeclType typ (st_set_Call value (new_stmt p emit.StmtConst))).
Definition NewRawStmt (p : pointer) (text : string) : emit.Stmt :=
  st_set_RawText text (new_stmt p emit.StmtRaw).
Definition NewRenderStmt (p : pointer) (n : option pointer) : emit.Stmt :=
  st_set_Node n (new_stmt p emit.StmtRender).

(** ** Type parameters ([constraint.go], [type_param.go]) *)

Definition IsAny (c : option emit.Constraint) : bool :=
  match c with None => true | Some c => match emit.c_Embedded c with [] => true | _ => false end end.

Definition IsComparable (c : option emit.Constraint) : bool :=
  match c with
  | None => false
  | Some c => existsb (λ e, match e with emit.RBuiltinRef _ n => String.eqb n "comparable" | _ => false end)
                      (emit.c_Embedded c)
  end.

Definition IsConstrained (p : emit.TypeParam) : bool :=
  match emit.tp_Constraint p with None => false | Some c => negb (IsAny (Some c)) end.

(** ** [predicates.go] *)

Definition WithDirective (name : string) (n : emit.Node_) : bool :=
  emit.base_HasDirective (emit.node_base n) name.
Definition WithKind (k : Kind) (n : emit.Node_) : bool := String.eqb (emit.node_Kind n) k.
Definition WithOrigin (n : emit.Node_) : bool :=
  match emit.base_Origin (emit.node_base n) with Some _ => true | None => false end.
Definition And {T} (preds : list (T → bool)) (v : T) : bool := forallb (λ p, p v) preds.
Definition Or {T} (preds : list (T → bool)) (v : T) : bool := existsb (λ p, p v) preds.
Definition Not {T} (pred : T → bool) (v : T) : bool := negb (pred v).

(** ** [sig.go] *)

Record SigParam := MkSigParam {
  sp_Name : string;
  sp_Declared : string;
  sp_Type : option emit.Ref;
  sp_Source : option TypeRef;
  sp_Field : string;
  sp_Variadic : bool;
}.

Record SigReturn := MkSigReturn {
  sr_Name : string;
  sr_Type : option emit.Ref;
  sr_Source : option TypeRef;
  sr_Field : string;
  sr_Local : string;
  sr_Error : bool;
}.

Record SigInfo := MkSigInfo {
  si_Name : string;
  si_Params : list SigParam;
  si_Returns : list SigReturn;
  si_TypeParams : list TypeParam;
  si_Receiver : option TypeRef;
  si_NamedReturns : bool;
  si_Source : option Method;
  si_ReceiverIdent : string;
}.

(** A nil signature answers every query with the zero value. *)
Definition ErrReturn (s : option SigInfo) : option SigReturn :=
  s ← s; List.find sr_Error (si_Returns s).
Definition HasResults (s : option SigInfo) : bool :=
  match s with Some s => 0 <? length (si_Returns s) | None => false end.
Definition ReturnsError (s : option SigInfo) : bool :=
  match ErrReturn s with Some _ => true | None => false end.
Definition ParamByField (s : option SigInfo) (field : string) : option SigParam :=
  s ← s; List.find (λ p, String.eqb (sp_Field p) field) (si_Params s).
Definition IsGeneric (s : option SigInfo) : bool :=
  match s with Some s => 0 <? length (si_TypeParams s) | None => false end.
Definition Variadic (s : option SigInfo) : bool :=
  match s with
  | Some s => List.last (sp_Variadic <$> si_Params s) false
  | None => false
  end.
Definition Idents (s : option SigInfo) : list string :=
  match s with Some s => sp_Name <$> si_Params s | None => [] end.
Definition Locals (s : option SigInfo) : list string :=
  match s with Some s => sr_Local <$> si_Returns s | None => [] end.
Definition Taken (s : option SigInfo) : list string :=
  match s with
  | Some s => (if negb (String.eqb (si_ReceiverIdent s) "") then [si_ReceiverIdent s] else []) ++ Idents (Some s)
  | None => []
  end.

(** ** [project.go] *)

Inductive TypeShape := ShapeScalar | ShapeSequence | ShapeBytes | ShapeMapping | ShapeSet | ShapeOptional.

Record TypeInfo := MkTypeInfo { ti_Shape : TypeShape; ti_Elem : option emit.Ref; ti_Key : option emit.Ref }.

(** [Member.Meta] is the bag of the field, reached by its pointer. *)
Record Member := MkMember {
  mb_Name : string;
  mb_Type : option emit.Ref;
  mb_Meta : option pointer;
  mb_Pos : Pos;
  mb_Source : option Field;
  mb_Promoted : bool;
}.

End ctor.
