(* ===== verification/EmitWalk.v ===== *)
(** * emit: the walk, and the hand-out of output packages

    [Walk] of [src/emit/walk.go] and its user in [src/pipeline/layout.go], the
    pass that tells plugin-defined values where the outputs of their plugin
    went.

    The graph is not a tree of the model: slots are reached through the heap
    of slots, and a statement renders a node through its pointer ([objs] says
    what lies behind one).  A slot may hold its own host, so [Walk] carries
    fuel; [emit_walk_visits_reachable] gives the fuel for every node whose
    descent is well founded.  Visiting is parametrised by the visitor, as in
    [NodeWalk]. *)

From S2P Require Import Prelude GoStrings Position Meta Directive Manifest Layout Node NodeQueries StoreIndex Emit EmitSlots StoreEmit EmitCtors.

Local Open Scope string_scope.
Local Open Scope nat_scope.
Local Open Scope list_scope.

Module ewalk.

(** What [Walk] visits: [emit.Node] with the references and slots, which are
    nodes as well. *)
Inductive item :=
| INode (n : emit.Node_)
| IRef (r : emit.Ref)
| ISlot (s : slots.Slot).

Definition item_Kind (i : item) : Kind :=
  match i with
  | INode n => emit.node_Kind n
  | IRef (emit.RTypeRef _ _ _) => emit.KindTypeRef
  | IRef (emit.RExternalRef _ _ _ _) => emit.KindExternalRef
  | IRef (emit.RBuiltinRef _ _) => emit.KindBuiltinRef
  | IRef (emit.RCompositeRef _ _) => emit.KindCompositeRef
  | ISlot _ => emit.KindSlot
  end.

Abbreviation some_ref r := (IRef <$> option_list r).
Abbreviation some_expr e := ((λ x, INode (emit.NExpr x)) <$> option_list e).
Abbreviation some_stmt s := ((λ x, INode (emit.NStmt x)) <$> option_list s).
Abbreviation refs l := (IRef <$> l).
Abbreviation exprs l := ((λ x, INode (emit.NExpr x)) <$> l).
Abbreviation stmts l := ((λ x, INode (emit.NStmt x)) <$> l).
Abbreviation params l := ((λ x, INode (emit.NParam x)) <$> l).
Abbreviation tparams l := ((λ x, INode (emit.NTypeParam x)) <$> l).

Section Walk.
  Context (h : slots.sheap) (objs : gmap pointer item).

(** ** The children, in the order in which each walker visits them *)

(** What a slot item is to the walk: [isNilNode] has it pass over nil and over
    nil pointers of a node type. *)
Definition slot_node (i : slots.item) : option emit.Node_ :=
  match i with Some (slots.Object n) => Some n | _ => None end.

(** [walkSlots]: the slots of one host by name. *)
Definition slot_names (p : pointer) : list string :=
  omap (λ '(k, _), if decide (k.1 = p) then Some k.2 else None) (map_to_list h).
Definition walkSlots (b : emit.BaseEmit) : list item :=
  omap (λ k, ISlot <$> h !! (emit.ref b, k)) (sort_strings (slot_names (emit.ref b))).

Definition walkPackage (p : emit.Package) : list item :=
  ((λ x, INode (emit.NFile x)) <$> emit.p_Files p) ++
  ((λ x, INode (emit.NImport x)) <$> emit.p_Imports p) ++
  ((λ x, INode (emit.NStruct x)) <$> emit.p_Structs p) ++
  ((λ x, INode (emit.NInterface x)) <$> emit.p_Interfaces p) ++
  ((λ x, INode (emit.NFunction x)) <$> emit.p_Functions p) ++
  ((λ x, INode (emit.NVariable x)) <$> emit.p_Variables p) ++
  ((λ x, INode (emit.NConstant x)) <$> emit.p_Constants p) ++
  ((λ x, INode (emit.NEnum x)) <$> emit.p_Enums p) ++
  ((λ x, INode (emit.NAlias x)) <$> emit.p_Aliases p) ++
  walkSlots (emit.p_base p).

Definition walkFile (f : emit.File) : list item :=
  ((λ x, INode (emit.NImport x)) <$> emit.fi_Imports f) ++ walkSlots (emit.fi_base f).

Definition walkStruct (s : emit.Struct) : list item :=
  tparams (emit.s_TypeParams s) ++
  ((λ x, INode (emit.NField x)) <$> emit.s_Fields s) ++
  ((λ x, INode (emit.NEmbed x)) <$> emit.s_Embeds s) ++
  ((λ x, INode (emit.NMethod x)) <$> emit.s_Methods s) ++
  walkSlots (emit.s_base s).

Definition walkInterface (i : emit.Interface) : list item :=
  tparams (emit.i_TypeParams i) ++
  ((λ x, INode (emit.NField x)) <$> emit.i_Fields i) ++
  ((λ x, INode (emit.NMethod x)) <$> emit.i_Methods i) ++
  ((λ x, INode (emit.NEmbed x)) <$> emit.i_Embeds i) ++
  walkSlots (emit.i_base i).

(** The type of a return is visited, the return is not. *)
Definition return_types (l : list emit.Return) : list item := l ≫= (λ r, some_ref (emit.re_Type r)).

Definition walkMethod (m : emit.Method) : list item :=
  tparams (emit.m_TypeParams m) ++
  some_ref (emit.m_Receiver m) ++
  params (emit.m_Params m) ++
  return_types (emit.m_Returns m) ++
  stmts (emit.m_Body m) ++
  walkSlots (emit.m_base m).

Definition walkFunction (f : emit.Function_) : list item :=
  tparams (emit.fn_TypeParams f) ++
  params (emit.fn_Params f) ++
  return_types (emit.fn_Returns f) ++
  stmts (emit.fn_Body f) ++
  walkSlots (emit.fn_base f).

Definition walkField (f : emit.Field) : list item :=
  some_ref (emit.f_Type f) ++ walkSlots (emit.f_base f).

Definition walkEnum (e : emit.Enum) : list item :=
  some_ref (emit.e_Underlying e) ++
  ((λ x, INode (emit.NEnumVariant x)) <$> emit.e_Variants e) ++
  walkSlots (emit.e_base e).

Definition walkAlias (a : emit.Alias) : list item :=
  tparams (emit.a_TypeParams a) ++ some_ref (emit.a_Target a).

Definition walkTypeParam (tp : emit.TypeParam) : list item :=
  match emit.tp_Constraint tp with None => [] | Some c => refs (emit.c_Embedded c) end.

Definition walkCompositeRef (r : emit.CompositeRef) : list item :=
  match emit.cr_Shape _ r with
  | emit.ShapePointer | emit.ShapeSlice | emit.ShapeArray => some_ref (emit.cr_Elem _ r)
  | emit.ShapeMap => some_ref (emit.cr_MapKey _ r) ++ some_ref (emit.cr_MapValue _ r)
  | emit.ShapeFunc => refs (emit.cr_FuncParams _ r) ++ refs (emit.cr_FuncReturns _ r)
  | emit.ShapeUnion => emit.cr_UnionTerms _ r ≫= (λ t, some_ref (emit.ut_Type _ t))
  | emit.ShapeAnonStruct =>
      (emit.cr_StructFields _ r ≫= (λ f, some_ref (emit.af_Type _ f))) ++ refs (emit.cr_StructEmbeds _ r)
  | emit.ShapeOther _ => []
  end.

Definition walkStmt (s : emit.Stmt) : list item :=
  some_stmt (emit.st_Init s) ++
  some_expr (emit.st_Cond s) ++
  some_stmt (emit.st_Post s) ++
  some_expr (emit.st_RangeOver s) ++
  exprs (emit.st_Targets s) ++
  exprs (emit.st_Values s) ++
  exprs (emit.st_Returns s) ++
  some_expr (emit.st_Call s) ++
  some_ref (emit.st_DeclType s) ++
  some_stmt (emit.st_Inner s) ++
  option_list (emit.st_Node s ≫= λ p, objs !! p) ++
  stmts (emit.st_Block s) ++
  stmts (emit.st_Else s) ++
  stmts (emit.st_Cases s).

Definition walkExpr (e : emit.Expr) : list item :=
  some_expr (emit.ex_Receiver e) ++
  some_expr (emit.ex_Callee e) ++
  some_expr (emit.ex_Left e) ++
  some_expr (emit.ex_Right e) ++
  some_expr (emit.ex_IndexExpr e) ++
  some_expr (emit.ex_Low e) ++
  some_expr (emit.ex_High e) ++
  some_expr (emit.ex_Max e) ++
  some_ref (emit.ex_AsType e) ++
  exprs (emit.ex_Args e) ++
  refs (emit.ex_TypeArgs e) ++
  params (emit.ex_FuncParams e) ++
  refs (emit.ex_FuncReturns e) ++
  stmts (emit.ex_FuncBody e).

Definition walkChildren (i : item) : list item :=
  match i with
  | INode (emit.NPackage p) => walkPackage p
  | INode (emit.NFile f) => walkFile f
  | INode (emit.NStruct s) => walkStruct s
  | INode (emit.NInterface x) => walkInterface x
  | INode (emit.NMethod m) => walkMethod m
  | INode (emit.NFunction f) => walkFunction f
  | INode (emit.NField f) => walkField f
  | INode (emit.NParam p) => some_ref (emit.pa_Type p)
  | INode (emit.NTypeParam tp) => walkTypeParam tp
  | INode (emit.NEnum e) => walkEnum e
  | INode (emit.NEnumVariant v) => some_expr (emit.ev_Value v)
  | INode (emit.NAlias a) => walkAlias a
  | INode (emit.NVariable v) => some_ref (emit.v_Type v) ++ some_expr (emit.v_Init v)
  | INode (emit.NConstant c) => some_ref (emit.k_Type c) ++ some_expr (emit.k_Value c)
  | INode (emit.NEmbed e) => some_ref (emit.em_Type e)
  | IRef (emit.RTypeRef _ _ args) => refs args
  | IRef (emit.RExternalRef _ _ _ args) => refs args
  | IRef (emit.RCompositeRef _ c) => walkCompositeRef c
  | ISlot s => INode <$> omap slot_node (slots.Items s)
  | INode (emit.NStmt s) => walkStmt s
  | INode (emit.NExpr e) => walkExpr e
  | _ => []
  end.

(** [Walk]; [None] is running out of fuel. *)
Fixpoint Walk {V S} (Visit : V → item → S → S * option V) (fuel : nat) (n : item) (v : V) (s : S) : option S :=
  match fuel with
  | O => None
  | Datatypes.S fuel =>
      let '(s, w) := Visit v n s in
      match w with
      | None => Some s
      | Some w => foldl (λ o c, s ← o; Walk Visit fuel c w s) (Some s) (walkChildren n)
      end
  end.
End Walk.

(** ** [dispatchOutputPackages] ([pipeline/layout.go])

    [aware k] says whether the values of the plugin-defined kind [k] implement
    [OutputPackageSetter]; no type of the framework does.  The calls of
    [SetOutputPackages] are recorded in order with the map each receives: the
    values may change only what they own, so a call does not change the graph.
    [Layout] names an origin by the number of its pointer. *)

Section Dispatch.
  Context (h : slots.sheap) (objs : gmap pointer item) (aware : Kind → bool).

Record dstate := MkD { d_seen : gset pointer; d_calls : list (pointer * gmap string string) }.

(** The routed paths of the origin and plugin of a value: nil when none. *)
Definition routed_for (loc : gmap (nat * string) outputPaths) (b : emit.BaseEmit) : option (gmap string string) :=
  origin ← emit.base_Origin b;
  paths ← loc !! (Pos.to_nat (node_ref origin), emit.base_SetBy b);
  byTag paths.

Definition walker (loc : gmap (nat * string) outputPaths) (v : unit) (n : item) (s : dstate) : dstate * option unit :=
  match n with
  | INode (emit.NPlugin k b) =>
      if negb (aware k) then (s, Some tt)
      else if decide (emit.ref b ∈ d_seen s) then (s, Some tt)
      else let seen := {[emit.ref b]} ∪ d_seen s in
           match routed_for loc b with
           | Some m => (MkD seen (d_calls s ++ [(emit.ref b, m)]), Some tt)
           | None => (MkD seen (d_calls s), Some tt)
           end
  | _ => (s, Some tt)
  end.

Definition walk_roots (loc : gmap (nat * string) outputPaths) (fuel : nat) (roots : list item) (s : dstate) : option dstate :=
  foldl (λ o n, s ← o; Walk h objs (walker loc) fuel n tt s) (Some s) roots.

Definition dispatchOutputPackages (fuel : nat) (st : eview.estate) (loc : gmap (nat * string) outputPaths) : option dstate :=
  s ← walk_roots loc fuel
        ((λ p, INode (emit.NPackage (eview.contents st p))) <$> items (eview.packages (eview.e_view st))) (MkD ∅ []);
  walk_roots loc fuel ((λ f, INode (emit.NFile f)) <$> items (eview.files (eview.e_view st))) s.

End Dispatch.
End ewalk.

(** * emit: what the walk reaches

    The walk of a visitor that never prunes is a fold over the preorder of the
    graph, and the preorder holds exactly what is reachable.  The pass that
    hands out output packages follows from it. *)

Import ewalk.

Section Preorder.
  Context (h : slots.sheap) (objs : gmap pointer item).

Abbreviation children := (walkChildren h objs).

Definition child (n m : item) : Prop := m ∈ children n.

(** The descent from a node ends. *)
Definition grounded : item → Prop := Acc (λ m n, child n m).

Abbreviation reaches := (rtc child).

Fixpoint preorder (fuel : nat) (n : item) : option (list item) :=
  match fuel with
  | O => None
  | S fuel => l ← mapM (preorder fuel) (children n); Some (n :: concat l)
  end.

Lemma foldl_none {A B} (f : A → B → option B) l : foldl (λ o c, s ← o; f c s) None l = None.
Proof. by induction l. Qed.

Lemma foldl_pre {S} (visit : item → S → S) (go : item → S → option S) (pre : item → option (list item)) l s :
  (∀ c s, go c s = (λ ns, fold_left (λ s n, visit n s) ns s) <$> pre c) →
  foldl (λ o c, s ← o; go c s) (Some s) l =
    (λ ls, fold_left (λ s n, visit n s) (concat ls) s) <$> mapM pre l.
Proof.
  intros Hgo. revert s. induction l as [|c l IH]; intros s; [done|].
  change (foldl (λ o c, s ← o; go c s) (go c s) l =
    (λ ls, fold_left (λ s n, visit n s) (concat ls) s) <$> mapM pre (c :: l)).
  rewrite Hgo. simpl. destruct (pre c) as [ns|]; simpl.
  - rewrite IH. destruct (mapM pre l) as [ls|]; simpl; [|done]. by rewrite fold_left_app.
  - apply foldl_none.
Qed.

(** A visitor that returns itself folds over the preorder. *)
Lemma walk_fold {S} (Visit : unit → item → S → S * option unit) fuel n s :
  (∀ v n s, (Visit v n s).2 = Some tt) →
  Walk h objs Visit fuel n tt s =
    (λ ns, fold_left (λ s n, (Visit tt n s).1) ns s) <$> preorder fuel n.
Proof.
  intros Hv. revert n s. induction fuel as [|fuel IH]; intros n s; [done|]. cbn [Walk preorder].
  pose proof (Hv tt n s) as Hn. destruct (Visit tt n s) as [s' w] eqn:E. simpl in Hn. subst w.
  rewrite (foldl_pre (λ n s, (Visit tt n s).1) _ (preorder fuel)) by (intros; apply IH).
  destruct (mapM _ _) as [ls|]; simpl; [|done]. by rewrite E.
Qed.

Lemma preorder_mono fuel n l : preorder fuel n = Some l → ∀ k, fuel ≤ k → preorder k n = Some l.
Proof.
  revert n l. induction fuel as [|fuel IH]; intros n l Hp k Hk; [done|].
  destruct k as [|k]; [lia|]. cbn [preorder] in *.
  destruct (mapM (preorder fuel) (children n)) as [ls|] eqn:E; [|done]. simpl in Hp. simplify_eq.
  apply mapM_Some in E.
  assert (mapM (preorder k) (children n) = Some ls) as ->; [|done].
  apply mapM_Some. eapply Forall2_impl; [exact E|]. intros c lc Hc. apply (IH _ _ Hc). lia.
Qed.

Lemma preorder_all l :
  Forall (λ c, ∃ k ns, preorder k c = Some ns) l → ∃ k lss, mapM (preorder k) l = Some lss.
Proof.
  induction 1 as [|c l (k & ns & Hc) _ (k' & lss & Hl)]; [by exists 0, []|].
  exists (k `max` k'), (ns :: lss). apply mapM_Some in Hl. apply mapM_Some. constructor.
  - apply (preorder_mono _ _ _ Hc). lia.
  - eapply Forall2_impl; [exact Hl|]. intros ? ? Hp. apply (preorder_mono _ _ _ Hp). lia.
Qed.

Lemma preorder_total n : grounded n → ∃ k l, preorder k n = Some l.
Proof.
  induction 1 as [n _ IH]. destruct (preorder_all (children n)) as (k & lss & E).
  { apply Forall_forall. intros c Hc. by apply IH. }
  exists (S k), (n :: concat lss). cbn [preorder]. by rewrite E.
Qed.

Lemma preorder_reaches k n l m : preorder k n = Some l → m ∈ l ↔ reaches n m.
Proof.
  revert n l m. induction k as [|k IH]; intros n l m Hp; [done|]. cbn [preorder] in Hp.
  destruct (mapM (preorder k) (children n)) as [ls|] eqn:E; [|done]. simpl in Hp. simplify_eq.
  apply mapM_Some in E. rewrite elem_of_cons, (list_elem_of_In (concat ls)), in_concat. split.
  - intros [-> | (lc & Hlc & Hm)]; [constructor|]. apply list_elem_of_In in Hlc, Hm.
    apply list_elem_of_lookup in Hlc as [i Hi]. destruct (Forall2_lookup_r _ _ _ _ _ E Hi) as (c & Hc & Hpc).
    eapply rtc_l; [by eapply list_elem_of_lookup_2|]. by eapply IH.
  - intros Hr. inversion Hr as [|? c ? Hc Hr']; subst; [by left|right].
    apply list_elem_of_lookup in Hc as [i Hi]. destruct (Forall2_lookup_l _ _ _ _ _ E Hi) as (lc & Hlc & Hpc).
    exists lc. split; apply list_elem_of_In; [by eapply list_elem_of_lookup_2|]. by eapply IH.
Qed.

End Preorder.

Lemma preorder_concat h objs k l ls n :
  mapM (preorder h objs k) l = Some ls → n ∈ concat ls ↔ ∃ r, r ∈ l ∧ rtc (child h objs) r n.
Proof.
  intros E%mapM_Some. rewrite list_elem_of_In, in_concat. split.
  - intros (lc & Hlc & Hm). apply list_elem_of_In in Hlc, Hm.
    apply list_elem_of_lookup in Hlc as [i Hi]. destruct (Forall2_lookup_r _ _ _ _ _ E Hi) as (c & Hc & Hpc).
    exists c. split; [by eapply list_elem_of_lookup_2|]. by eapply preorder_reaches.
  - intros (r & Hr & Hn). apply list_elem_of_lookup in Hr as [i Hi].
    destruct (Forall2_lookup_l _ _ _ _ _ E Hi) as (lc & Hlc & Hpc).
    exists lc. split; apply list_elem_of_In; [by eapply list_elem_of_lookup_2|]. by eapply preorder_reaches.
Qed.

Lemma mapM_mono h objs k fuel l ls :
  k ≤ fuel → mapM (preorder h objs k) l = Some ls → mapM (preorder h objs fuel) l = Some ls.
Proof.
  intros Hk E%mapM_Some. apply mapM_Some. eapply Forall2_impl; [exact E|].
  intros ? ? Hp. by apply (preorder_mono _ _ _ _ _ Hp).
Qed.

Lemma mapM_app {A B} (f : A → option B) l k : mapM f (l ++ k) = (a ← mapM f l; b ← mapM f k; Some (a ++ b)).
Proof.
  induction l as [|x l IH]; simpl; [by destruct (mapM f k)|]. destruct (f x); simpl; [|done]. rewrite IH.
  destruct (mapM f l); simpl; [|done]. by destruct (mapM f k).
Qed.

(** From a node whose descent ends, [Walk] with a visitor that does not
    prune returns once given enough fuel, and calls the visitor on the nodes
    reachable through children, all of them and nothing else, the root first. *)
Theorem emit_walk_visits_reachable h objs n :
  grounded h objs n →
  ∃ k l, head l = Some n ∧ (∀ m, m ∈ l ↔ rtc (child h objs) n m) ∧
    ∀ fuel, k ≤ fuel → ∀ S (Visit : unit → item → S → S * option unit) s,
      (∀ v n s, (Visit v n s).2 = Some tt) →
      Walk h objs Visit fuel n tt s = Some (fold_left (λ s n, (Visit tt n s).1) l s).
Proof.
  intros Hg. destruct (preorder_total h objs n Hg) as (k & l & Hp). exists k, l. split_and!.
  - destruct k; [done|]. cbn [preorder] in Hp. destruct (mapM _ _); [|done]. simpl in Hp. by simplify_eq.
  - intros m. by apply preorder_reaches with k.
  - intros fuel Hk S Visit s Hv. rewrite walk_fold by done. by rewrite (preorder_mono _ _ _ _ _ Hp fuel Hk).
Qed.

(** ** The hand-out of output packages *)

Section Dispatch.
  Context (h : slots.sheap) (objs : gmap pointer item) (aware : Kind → bool)
          (loc : gmap (nat * string) outputPaths).

Abbreviation visit := (λ s n, (walker aware loc tt n s).1).

Lemma walker_continues v n s : (walker aware loc v n s).2 = Some tt.
Proof. unfold walker. split_matches; done. Qed.

Lemma walk_roots_fold fuel roots s :
  walk_roots h objs aware loc fuel roots s =
    (λ ls, fold_left visit (concat ls) s) <$> mapM (preorder h objs fuel) roots.
Proof.
  unfold walk_roots. apply (foldl_pre (λ n s, (walker aware loc tt n s).1)). intros c s'.
  apply walk_fold. apply walker_continues.
Qed.

(** The values that want to be told. *)
Definition aware_base (n : item) : option emit.BaseEmit :=
  match n with INode (emit.NPlugin k b) => if aware k then Some b else None | _ => None end.

Lemma walker_spec v n s :
  walker aware loc v n s =
    (match aware_base n with
     | Some b =>
         if decide (emit.ref b ∈ d_seen s) then s
         else MkD ({[emit.ref b]} ∪ d_seen s)
                (d_calls s ++ match routed_for loc b with Some m => [(emit.ref b, m)] | None => [] end)
     | None => s
     end, Some tt).
Proof.
  unfold walker, aware_base. destruct n as [[]| |]; try done. destruct (aware kind); [|done]. cbn [negb].
  destruct (decide _); [done|]. destruct (routed_for loc b); [done|]. by rewrite app_nil_r.
Qed.

(** A call of [p] with [m] is due for [n]. *)
Definition due (n : item) (p : pointer) (m : gmap string string) : Prop :=
  ∃ b, aware_base n = Some b ∧ emit.ref b = p ∧ routed_for loc b = Some m.

(** Pointers identify the values that want to be told. *)
Definition identified (l : list item) : Prop :=
  ∀ n n' b b', n ∈ l → n' ∈ l → aware_base n = Some b → aware_base n' = Some b' →
    emit.ref b = emit.ref b' → b = b'.

Lemma visit_fold l :
  identified l →
  let d := fold_left visit l (MkD ∅ []) in
  (∀ p, p ∈ d_seen d ↔ ∃ n b, n ∈ l ∧ aware_base n = Some b ∧ emit.ref b = p) ∧
  NoDup (d_calls d).*1 ∧
  (∀ p m, (p, m) ∈ d_calls d ↔ ∃ n, n ∈ l ∧ due n p m).
Proof.
  induction l as [|n l IH] using rev_ind; intros Hid.
  { cbn [fold_left d_seen d_calls]. split_and!; [|constructor|].
    - intros p. split; [by intros []%elem_of_empty|]. by intros (? & ? & []%elem_of_nil & _).
    - intros p m. split; [by intros []%elem_of_nil|]. by intros (? & []%elem_of_nil & _). }
  destruct IH as (Hs & Hn & Hc).
  { intros n1 n2 b1 b2 H1 H2. apply Hid; rewrite elem_of_app; auto. }
  rewrite fold_left_app. cbv zeta. cbn [fold_left]. rewrite walker_spec. cbn beta iota delta [fst].
  remember (fold_left visit l (MkD ∅ [])) as d eqn:Ed. clear Ed.
  setoid_rewrite elem_of_app. setoid_rewrite list_elem_of_singleton.
  destruct (aware_base n) as [b|] eqn:En; cycle 1.
  { split_and!; [|done|].
    - intros p. rewrite Hs. naive_solver.
    - intros p m. rewrite Hc. split; [by intros (x & Hx & Hd); eauto|].
      intros (x & [Hx | ->] & Hd); [by eauto|]. destruct Hd as (b & Eb & _). congruence. }
  destruct (decide (emit.ref b ∈ d_seen d)) as [Hin|Hin]; cycle 1.
  - cbn [d_seen d_calls]. split_and!.
    + intros p. rewrite elem_of_union, elem_of_singleton, Hs. naive_solver.
    + rewrite fmap_app. apply NoDup_app. split_and!; [done| |destruct (routed_for loc b); [apply NoDup_singleton|constructor]].
      intros p (q & -> & Hq)%list_elem_of_fmap Hp. apply Hin.
      destruct (routed_for loc b); [|by apply elem_of_nil in Hp]. apply list_elem_of_singleton in Hp.
      destruct q as [p' m']. cbn in Hp |- *. subst p'. apply Hc in Hq as (n' & Hn' & b' & Eb & Er & _).
      rewrite Hs. eauto.
    + intros p m. rewrite elem_of_app, Hc. split.
      * intros [(x & Hx & Hd)|Hp]; [by eauto|]. exists n. split; [by right|]. exists b.
        destruct (routed_for loc b) eqn:Er; [|by apply elem_of_nil in Hp].
        apply list_elem_of_singleton in Hp. by simplify_eq.
      * intros (x & [Hx | ->] & Hd); [by eauto|]. right. destruct Hd as (b0 & Eb & <- & Er).
        rewrite En in Eb. simplify_eq. rewrite Er. by left.
  - split_and!; [|done|].
    + intros p. rewrite Hs. apply Hs in Hin. naive_solver.
    + intros p m. rewrite Hc. split; [by intros (x & Hx & Hd); eauto|]. intros (n' & [Hn' | ->] & Hd); [eauto|].
      apply Hs in Hin as (n' & b' & Hn' & Eb & Er). exists n'. split; [done|].
      assert (b' = b) as -> by (eapply (Hid n' n); rewrite ?elem_of_app, ?list_elem_of_singleton; eauto).
      destruct Hd as (b0 & E0 & ?). rewrite En in E0. simplify_eq. by exists b0.
Qed.

End Dispatch.

Definition roots (st : eview.estate) : list item :=
  ((λ p, INode (emit.NPackage (eview.contents st p))) <$> items (eview.packages (eview.e_view st))) ++
  ((λ f, INode (emit.NFile f)) <$> items (eview.files (eview.e_view st))).

(** When the descent from every package and file of the store ends, the
    pass that hands out output packages returns, and it calls every value
    that wants to be told, is reachable from a root and had an output routed
    for its origin and plugin exactly once, with the paths recorded for that
    pair, and calls nothing else. *)
Theorem output_packages_are_handed_out_once h objs aware st loc :
  Forall (grounded h objs) (roots st) →
  (∀ l, (∀ n, n ∈ l → ∃ r, r ∈ roots st ∧ rtc (child h objs) r n) → identified aware l) →
  ∃ k d, (∀ fuel, k ≤ fuel → dispatchOutputPackages h objs aware fuel st loc = Some d) ∧
    NoDup (d_calls d).*1 ∧
    ∀ p m, (p, m) ∈ d_calls d ↔
      ∃ r n, r ∈ roots st ∧ rtc (child h objs) r n ∧ due aware loc n p m.
Proof.
  intros Hg Hid. destruct (preorder_all h objs (roots st)) as (k & ls & E).
  { eapply Forall_impl; [exact Hg|]. intros n. apply preorder_total. }
  assert (∀ n, n ∈ concat ls ↔ ∃ r, r ∈ roots st ∧ rtc (child h objs) r n) as Hl.
  { intros n. apply (preorder_concat h objs k); done. }
  destruct (visit_fold aware loc (concat ls)) as (_ & Hn & Hc).
  { apply Hid. intros n. apply Hl. }
  eexists k, _. split_and!; [|exact Hn|].
  - intros fuel Hf. apply (mapM_mono h objs k fuel) in E; [|done]. unfold dispatchOutputPackages.
    unfold roots in E. rewrite mapM_app in E.
    apply bind_Some in E as (l1 & E1 & E). apply bind_Some in E as (l2 & E2 & E). simplify_eq.
    rewrite walk_roots_fold, E1. simpl. rewrite walk_roots_fold, E2. simpl. by rewrite concat_app, fold_left_app.
  - intros p m. rewrite Hc. setoid_rewrite Hl. naive_solver.
Qed.

(** ** Examples *)

Lemma grounded_preorder h objs k n l : preorder h objs k n = Some l → grounded h objs n.
Proof.
  revert n l. induction k as [|k IH]; intros n l Hp; [done|]. cbn [preorder] in Hp.
  apply bind_Some in Hp as (ls & E & _). apply mapM_Some in E. constructor. intros c Hc.
  apply list_elem_of_lookup in Hc as [i Hi]. destruct (Forall2_lookup_l _ _ _ _ _ E Hi) as (lc & _ & Hpc). by eapply IH.
Qed.

(** A value of a plugin-defined kind with an origin, in a slot of a host. *)
Definition ex_origin : Node :=
  NPackage (MkPackage (MkBase 9 zero_pos [] []) "" "" [] [] [] [] [] [] [] [] []).
Definition ex_base : emit.BaseEmit := emit.MkBase 5 zero_pos [] [] (Some ex_origin) "gen" "".
Definition ex_value : emit.Node_ := emit.NPlugin "gen.companion" ex_base.
Definition ex_heap (host : pointer) : slots.sheap :=
  {[ (host, "extra") := slots.MkSlot "extra" (Some host) "" [slots.of_node ex_value] [slots.zero_prov] ]}.
Definition ex_aware (k : Kind) : bool := String.eqb k "gen.companion".
Definition ex_loc : gmap (nat * string) outputPaths := recordOutputPath ∅ 9 "gen" "" "example.com/out".

Definition ex_file : emit.File := emit.MkFile (ctor.zero_base 2) "a.go" "out" "out" "" [].
Definition ex_alias : emit.Alias := emit.MkAlias (ctor.zero_base 3) "A" "out" None true [] [].
Definition ex_pkg : emit.Package :=
  emit.MkPackage (ctor.zero_base 1) "out" "out" "out" [ex_file] [] [] [] [] [] [] [] [] [ex_alias].
Definition ex_store : eview.estate :=
  eview.MkE (eview.set_packages eview.newEmitView (MkBucket [ex_pkg] {[ "out" := ex_pkg ]})) ∅ ∅ ∅ ∅.

(** A value in a slot of the file is told where its output went. *)
Lemma output_packages_are_handed_out_once_witness :
  ∃ k d, (∀ fuel, k ≤ fuel → dispatchOutputPackages (ex_heap 2) ∅ ex_aware fuel ex_store ex_loc = Some d) ∧
    (5%positive, {[ "" := "example.com/out" ]}) ∈ d_calls d.
Proof.
  assert (preorder (ex_heap 2) ∅ 9 (INode (emit.NPackage ex_pkg)) =
    Some [INode (emit.NPackage ex_pkg); INode (emit.NFile ex_file);
          ISlot (slots.MkSlot "extra" (Some 2%positive) "" [slots.of_node ex_value] [slots.zero_prov]);
          INode ex_value; INode (emit.NAlias ex_alias)]) as Hp by (vm_compute; reflexivity).
  destruct (output_packages_are_handed_out_once (ex_heap 2) ∅ ex_aware ex_store ex_loc) as (k & d & Hk & _ & Hd).
  - apply Forall_singleton. eapply grounded_preorder, Hp.
  - intros l Hl. assert (∀ n b, n ∈ l → aware_base ex_aware n = Some b → b = ex_base) as Hb.
    { intros n b (r & Hr & Hn)%Hl Eb. apply list_elem_of_singleton in Hr as ->.
      apply (preorder_reaches _ _ _ _ _ _ Hp) in Hn. clear - Hn Eb.
      do 3 (apply elem_of_cons in Hn as [-> | Hn]; [discriminate Eb|]).
      apply elem_of_cons in Hn as [-> | Hn]; [by injection Eb|].
      apply elem_of_cons in Hn as [-> | Hn]; [discriminate Eb|]. by apply elem_of_nil in Hn. }
    intros n n' b b' Hn Hn' Eb Eb' _. rewrite (Hb n b), (Hb n' b'); done.
  - exists k, d. split; [done|]. apply Hd. exists (INode (emit.NPackage ex_pkg)), (INode ex_value).
    split; [apply list_elem_of_here|]. split.
    + apply (preorder_reaches _ _ _ _ _ _ Hp). do 3 apply list_elem_of_further. apply list_elem_of_here.
    + exists ex_base. split; [reflexivity|]. split; [reflexivity|]. vm_compute. reflexivity.
Defined.

Lemma emit_walk_visits_reachable_witness :
  ∃ k l, INode ex_value ∈ l ∧ ∀ fuel, k ≤ fuel →
    Walk (ex_heap 2) ∅ (λ _ n s, (s ++ [n], Some tt)) fuel (INode (emit.NFile ex_file)) tt [] = Some l.
Proof.
  assert (preorder (ex_heap 2) ∅ 9 (INode (emit.NFile ex_file)) =
    Some [INode (emit.NFile ex_file);
          ISlot (slots.MkSlot "extra" (Some 2%positive) "" [slots.of_node ex_value] [slots.zero_prov]);
          INode ex_value]) as Hp by (vm_compute; reflexivity).
  destruct (emit_walk_visits_reachable (ex_heap 2) ∅ (INode (emit.NFile ex_file))) as (k & l & _ & Hl & Hw).
  { eapply grounded_preorder, Hp. }
  exists k, (fold_left (λ s n, s ++ [n]) l []). split; [|intros fuel Hk; exact (Hw fuel Hk (list item) (λ _ n s, (s ++ [n], Some tt)) [] (λ _ _ _, eq_refl))].
  assert (∀ l acc, fold_left (λ s (n : item), s ++ [n]) l acc = acc ++ l) as ->.
  { clear. intros l. induction l as [|x l IH]; intros acc; simpl; [by rewrite app_nil_r|]. by rewrite IH, <- app_assoc. }
  rewrite app_nil_l.
  apply Hl, (preorder_reaches _ _ _ _ _ _ Hp). do 2 apply list_elem_of_further. apply list_elem_of_here.
Defined.

(** The walk does not enter the slots and methods of an alias or the methods
    of a package, so a value contributed there is not told. *)
Theorem alias_slots_are_not_told :
  dispatchOutputPackages (ex_heap 3) ∅ ex_aware 9 ex_store ex_loc = Some (MkD ∅ []).
Proof. vm_compute. reflexivity. Qed.
