(* ===== verification/GoIdents.v ===== *)
(** * lang/golang: identifiers, imports and numbers

    [src/lang/golang/typenames.go], [idents.go], [imports.go] and
    [numeric.go]: the names Go reserves, how generators derive identifiers,
    aliases and package clauses that compile, and the ranges of the integer
    types. *)

From S2P Require Import Prelude GoStrings Unicode Imports ImportLaws Naming NamingLaws.

Local Open Scope string_scope.
Local Open Scope nat_scope.
Local Open Scope list_scope.

(** ** [typenames.go] *)

Definition typeBool : string := "bool".
Definition typeString : string := "string".
Definition typeError : string := "error".
Definition typeAny : string := "any".
Definition typeComparable : string := "comparable".
Definition typeByte : string := "byte".
Definition typeUint8 : string := "uint8".
Definition typeRune : string := "rune".
Definition typeInt : string := "int".
Definition typeInt8 : string := "int8".
Definition typeInt16 : string := "int16".
Definition typeInt32 : string := "int32".
Definition typeInt64 : string := "int64".
Definition typeUint : string := "uint".
Definition typeUint16 : string := "uint16".
Definition typeUint32 : string := "uint32".
Definition typeUint64 : string := "uint64".
Definition typeUintptr : string := "uintptr".
Definition typeFloat32 : string := "float32".
Definition typeFloat64 : string := "float64".
Definition typeComplex64 : string := "complex64".
Definition typeComplex128 : string := "complex128".

(** ** [idents.go] *)

Definition keywords : list string :=
  ["break"; "case"; "chan"; "const"; "continue"; "default"; "defer"; "else"; "fallthrough"; "for";
   "func"; "go"; "goto"; "if"; "import"; "interface"; "map"; "package"; "range"; "return";
   "select"; "struct"; "switch"; "type"; "var"].

Definition predeclared : list string :=
  [typeAny; typeBool; typeByte; typeComparable; typeComplex64; typeComplex128; typeError; typeFloat32;
   typeFloat64; typeInt; typeInt8; typeInt16; typeInt32; typeInt64; typeRune; typeString; typeUint;
   typeUint8; typeUint16; typeUint32; typeUint64; typeUintptr;
   "true"; "false"; "iota"; "nil";
   "append"; "cap"; "clear"; "close"; "complex"; "copy"; "delete"; "imag"; "len"; "make"; "max"; "min";
   "new"; "panic"; "print"; "println"; "real"; "recover"].

Definition IsKeyword (s : string) : bool := bool_decide (s ∈ keywords).
Definition IsPredeclared (s : string) : bool := bool_decide (s ∈ predeclared).

Section Idents.
  Context `{UnicodeTables}.

Definition SafeIdent (name : string) : string :=
  let sanitised := Identifier name in
  if IsKeyword sanitised || IsPredeclared sanitised then sanitised +:+ "_" else sanitised.

(** The search of [UniqueIdent] from the suffix [i] on. *)
Fixpoint unique_loop (fuel : nat) (used : list string) (base candidate : string) (i : Z) : option string :=
  match fuel with
  | O => None
  | S fuel =>
      if negb (bool_decide (candidate ∈ used)) && negb (IsKeyword candidate) && negb (IsPredeclared candidate)
      then Some candidate
      else unique_loop fuel used base (base +:+ itoa i) (i + 1)
  end.

(** Names in the way are taken or reserved; one candidate more is enough. *)
Definition UniqueIdent (name : string) (taken : list string) : option string :=
  let base := SafeIdent name in
  unique_loop (S (length taken + length keywords + length predeclared)) taken base base 2.

(** The first ASCII letter, in lower case. *)
Fixpoint initial_of (l : list (N * string)) : string :=
  match l with
  | [] => ""
  | (r, _) :: l =>
      if between 65 90 r then byte (r + 32)
      else if between 97 122 r then byte r
      else initial_of l
  end.

Definition ReceiverIdent (typeName : string) (taken : list string) : option string :=
  let initial := initial_of (runes typeName) in
  UniqueIdent (if String.eqb initial "" then "r" else initial) taken.

Definition isMajorVersion (segment : string) : bool :=
  if (String.length segment <? 2) || negb (has_prefix segment "v") then false
  else match atoi (str_drop 1 segment) with Some n => (2 <=? n)%Z | None => false end.

Definition PackageName (importPath : string) : string :=
  let path := trim_suffix importPath "/" in
  if String.eqb path "" then ""
  else
    let segments := split_byte path "/" in
    let last := List.last segments "" in
    Identifier (if (1 <? length segments) && isMajorVersion last
                then List.last (removelast segments) "" else last).

Definition IsInternal (importPath : string) : bool :=
  bool_decide ("internal" ∈ split_byte importPath "/").

(** ** [imports.go] *)

Definition TestPackageSuffix : string := "_test".

Definition str_has (c : ascii) (s : string) : bool := negb (str_all (λ a, negb (Ascii.eqb a c)) s).

Definition cut_byte (s : string) (c : ascii) : string * string * bool :=
  match index_byte s c with
  | Some i => (str_take i s, str_drop (S i) s, true)
  | None => (s, "", false)
  end.

Definition IsStdlib (importPath : string) : bool :=
  if String.eqb importPath "" then false
  else negb (str_has "." (cut_byte importPath "/").1.1).

(** [unicode.IsSpace] by the encoding of the rune; [is_print] is
    [unicode.IsPrint]. *)
Definition IsValidImportPath (is_print : N → bool) (p : string) : bool :=
  if String.eqb p "" || has_prefix p "/" || has_suffix p "/" then false
  else if bool_decide ("" ∈ split_byte p "/") then false
  else forallb (λ '(r, c), negb (bool_decide (c ∈ space_runes) || (r =? 34)%N || (r =? 96)%N || (r =? 92)%N
                                 || negb (is_print r))) (runes p).

Definition IsExternalTestPackage (pkg : string) : bool := has_suffix pkg TestPackageSuffix.
Definition ExternalTestPackage (pkg : string) : string :=
  if String.eqb pkg "" || IsExternalTestPackage pkg then pkg else pkg +:+ TestPackageSuffix.

Definition ImportAlias (importPath : string) (taken : list string) : option string :=
  UniqueIdent (SafeIdent (PackageName importPath)) taken.

Definition TrimVersionSuffix (importPath : string) : string :=
  match last_index_byte importPath "/" with
  | None => importPath
  | Some i => if negb (isMajorVersion (str_drop (S i) importPath)) then importPath else str_take i importPath
  end.

Definition PackageClauseFor (importPath : string) : string :=
  let name := PackageName importPath in
  if String.eqb name "" then "" else SafeIdent name.

End Idents.

(** ** [numeric.go] *)

Definition bounds : gmap string (Z * Z) :=
  list_to_map [ (typeInt, (-2^63, 2^63 - 1)%Z); (typeInt8, (-128, 127)%Z); (typeInt16, (-32768, 32767)%Z);
     (typeInt32, (-2^31, 2^31 - 1)%Z); (typeInt64, (-2^63, 2^63 - 1)%Z); (typeRune, (-2^31, 2^31 - 1)%Z);
     (typeUint, (0, 2^63 - 1)%Z); (typeUint8, (0, 255)%Z); (typeUint16, (0, 65535)%Z);
     (typeUint32, (0, 2^32 - 1)%Z); (typeUint64, (0, 2^63 - 1)%Z); (typeUintptr, (0, 2^63 - 1)%Z);
     (typeByte, (0, 255)%Z) ].

Definition bitSizes : gmap string Z :=
  list_to_map [ (typeInt8, 8%Z); (typeInt16, 16%Z); (typeInt32, 32%Z); (typeInt64, 64%Z); (typeRune, 32%Z);
     (typeUint8, 8%Z); (typeUint16, 16%Z); (typeUint32, 32%Z); (typeUint64, 64%Z); (typeByte, 8%Z);
     (typeFloat32, 32%Z); (typeFloat64, 64%Z); (typeComplex64, 64%Z); (typeComplex128, 128%Z) ].

Definition NumericBounds (typeName : string) : option (Z * Z) := bounds !! typeName.

Definition FitsIn (v : Z) (typeName : string) : bool :=
  match NumericBounds typeName with Some (lo, hi) => (lo <=? v)%Z && (v <=? hi)%Z | None => false end.

Definition IsUnsigned (typeName : string) : bool :=
  match NumericBounds typeName with Some (lo, _) => (lo =? 0)%Z | None => false end.

Definition BitSize (typeName : string) : option Z := bitSizes !! typeName.

(** The used values in range with the largest of them: [seen] is [None] while
    there is none. *)
Fixpoint taken_loop (lo hi : Z) (used : list Z) (taken : gset Z) (highest : option Z) : gset Z * option Z :=
  match used with
  | [] => (taken, highest)
  | v :: used =>
      if (v <? lo)%Z || (hi <? v)%Z then taken_loop lo hi used taken highest
      else taken_loop lo hi used ({[v]} ∪ taken)
             (match highest with
              | None => Some v
              | Some h => if (h <? v)%Z then Some v else highest
              end)
  end.

(** The walk down from the top; the outer option is running out of fuel. *)
Fixpoint gap_loop (fuel : nat) (lo v : Z) (taken : gset Z) : option (option Z) :=
  match fuel with
  | O => None
  | S fuel =>
      if (v <? lo)%Z then Some None
      else if negb (bool_decide (v ∈ taken)) then Some (Some v)
      else if (v =? lo)%Z then Some None
      else gap_loop fuel lo (v - 1) taken
  end.

(** Each step down passes a used value, so one step more than there are used
    values is enough. *)
Definition NextOutOfRange (typeName : string) (used : list Z) : option (option Z) :=
  match NumericBounds typeName with
  | None => Some None
  | Some (lo, hi) =>
      let '(taken, highest) := taken_loop lo hi used ∅ None in
      match highest with
      | None => Some (Some lo)
      | Some h =>
          if (h <? hi)%Z then Some (Some (h + 1)%Z)
          else gap_loop (S (length used)) lo hi taken
      end
  end.

(** [strconv.ParseInt(raw, 10, 64)] *)
Definition ParseIntValue (raw : string) : option Z := atoi raw.

(** * lang/golang: derived identifiers compile

    What [GoIdents] promises: the identifiers it derives are identifiers, no
    reserved word and free; the value it picks outside a set of constants fits
    the type; both searches end. *)

(** ** Digits and underscores keep an identifier one *)

Definition is_word_byte (a : ascii) : bool := byte_in "0" "9" a || Ascii.eqb a "_".

Lemma pretty_N_go_digits x s : str_all (byte_in "0" "9") s = true → str_all (byte_in "0" "9") (pretty_N_go x s) = true.
Proof.
  revert s. induction (N.lt_wf_0 x) as [x _ IH]; intros s Hs.
  assert (x = 0 ∨ 0 < x)%N as [->|Hx] by lia; [by rewrite pretty_N_go_0|].
  rewrite pretty_N_go_step by done. apply IH; [by apply N.div_lt|]. simpl. apply andb_true_iff. split; [|done].
  unfold pretty_N_char. repeat case_match; reflexivity.
Qed.

Lemma itoa_digits z : (0 <= z)%Z → str_all (byte_in "0" "9") (itoa z) = true.
Proof.
  intros Hz. destruct z as [|p|p]; [reflexivity| |lia].
  change (str_all (byte_in "0" "9") (pretty (Npos p)) = true). unfold pretty, pretty_N. rewrite decide_False by done.
  by apply pretty_N_go_digits.
Qed.

Section Idents.
  Context `{UnicodeTables}.

Lemma word_byte_ascii a : is_word_byte a = true → (N_of_ascii a < 128)%N ∧ alias_rune (N_of_ascii a) = true.
Proof.
  intros Ha. assert (N_of_ascii a < 128)%N as Hlt.
  { revert Ha. destruct a as [[] [] [] [] [] [] [] []]; vm_compute; done. }
  split; [done|]. unfold alias_rune. rewrite letter_ascii, digit_ascii by done. revert Ha. clear Hlt.
  destruct a as [[] [] [] [] [] [] [] []]; vm_compute; done.
Qed.

Lemma word_runes t :
  str_all is_word_byte t = true → Forall chunk_ok (runes t) ∧ Forall (λ x, alias_rune x.1 = true) (runes t).
Proof.
  induction t as [|a t IH]; simpl; [by repeat constructor|]. intros [Ha Ht]%andb_true_iff.
  destruct (word_byte_ascii a Ha) as [Hlt Hal]. destruct (IH Ht) as [Hc Hr].
  assert (Forall (λ x, alias_rune x.1 = true) (runes (String a t))) as Hall.
  { rewrite runes_ascii_cons by done. by constructor. }
  split; [|done]. pose proof (runes_chunks (String a t)) as Hk. rewrite !Forall_forall in *.
  intros x Hx. apply Hk; [done|]. by apply alias_not_error, Hall.
Qed.

Lemma identifier_app s t : identifier s → str_all is_word_byte t = true → identifier (s +:+ t).
Proof.
  intros (x & l & E & Hx & Hl) Ht. destruct (word_runes t Ht) as [Hc Hr].
  assert (Forall chunk_ok (x :: l)) as Hk.
  { rewrite <- E. apply Forall_forall. intros y Hy. apply (kept_chunk s y Hy). rewrite E in Hy.
    apply elem_of_cons in Hy as [->|Hy]; [by apply starts_alias|]. rewrite Forall_forall in Hl. auto. }
  exists x, (l ++ runes t). split_and!; [|done|by apply Forall_app].
  change (x :: l ++ runes t) with ((x :: l) ++ runes t). rewrite <- (runes_of_chunks ((x :: l) ++ runes t)).
  - f_equal. rewrite fmap_app. change (foldr String.append "") with cat. rewrite cat_app, <- E. unfold cat.
    by rewrite !runes_concat.
  - by apply Forall_app.
Qed.

Definition reserved : list string := keywords ++ predeclared.

Definition usable (c : string) : Prop := identifier c ∧ IsKeyword c = false ∧ IsPredeclared c = false.

Lemma reserved_iff c : c ∈ reserved ↔ IsKeyword c = true ∨ IsPredeclared c = true.
Proof. unfold reserved, IsKeyword, IsPredeclared. by rewrite elem_of_app, !bool_decide_eq_true. Qed.

Lemma no_reserved_underscore c : c ∈ reserved → ¬ c +:+ "_" ∈ reserved.
Proof.
  intros _ Hc. assert (Forall (λ w, has_suffix w "_" = false) reserved) as Hf.
  { refine (bool_decide_unpack _ _). vm_compute. exact I. }
  rewrite Forall_forall in Hf. specialize (Hf _ Hc). apply not_true_iff_false in Hf. apply Hf.
  apply has_suffix_spec. eauto.
Qed.

Lemma SafeIdent_usable name : usable (SafeIdent name).
Proof.
  unfold SafeIdent. destruct (IsKeyword (Identifier name) || IsPredeclared (Identifier name)) eqn:E.
  - split; [apply identifier_app; [apply Identifier_identifier|done]|].
    apply orb_true_iff, reserved_iff, no_reserved_underscore in E. rewrite reserved_iff in E.
    split; apply not_true_iff_false; naive_solver.
  - apply orb_false_iff in E. split; [apply Identifier_identifier|done].
Qed.

(** ** The search for a free name *)

Definition nth_candidate (base : string) (n : nat) : string :=
  match n with O => base | S n => base +:+ itoa (Z.of_nat n + 2) end.

Definition blocked (used : list string) (c : string) : Prop := c ∈ used ++ reserved.

#[global] Instance blocked_dec used c : Decision (blocked used c).
Proof. unfold blocked. apply _. Defined.

Lemma nth_candidate_inj base n m : nth_candidate base n = nth_candidate base m → n = m.
Proof.
  assert (∀ z, base +:+ itoa z ≠ base) as Hne by (intros z; apply (suffixed_ne base z)).
  destruct n as [|n], m as [|m]; simpl; intros E; [done|by destruct (Hne _ (eq_sym E))|by destruct (Hne _ E)|].
  apply (suffixed_inj base) in E. lia.
Qed.

Lemma unique_loop_spec fuel used base k :
  match unique_loop fuel used base (nth_candidate base k) (Z.of_nat k + 2) with
  | Some c => ∃ n, k ≤ n ∧ c = nth_candidate base n ∧ ¬ blocked used c ∧
                ∀ m, k ≤ m < n → blocked used (nth_candidate base m)
  | None => ∀ m, k ≤ m < k + fuel → blocked used (nth_candidate base m)
  end.
Proof.
  revert k. induction fuel as [|fuel IH]; intros k; [intros m; lia|]. cbn [unique_loop].
  assert (negb (bool_decide (nth_candidate base k ∈ used)) && negb (IsKeyword (nth_candidate base k)) &&
    negb (IsPredeclared (nth_candidate base k)) = negb (bool_decide (blocked used (nth_candidate base k)))) as ->.
  { unfold blocked, reserved, IsKeyword, IsPredeclared. apply eq_true_iff_eq.
    rewrite !andb_true_iff, !negb_true_iff, !bool_decide_eq_false, !elem_of_app. naive_solver. }
  case_bool_decide as Hb; cbn [negb].
  - specialize (IH (S k)). cbn [nth_candidate] in IH.
    replace (Z.of_nat (S k) + 2)%Z with (Z.of_nat k + 2 + 1)%Z in IH by lia.
    destruct (unique_loop _ _ _ _ _) as [c|].
    + destruct IH as (n & Hn & -> & Hc & Hm). exists n. split_and!; [lia|done|done|].
      intros m Hm'. destruct (decide (m = k)) as [->|]; [done|]. apply Hm. lia.
    + intros m Hm. destruct (decide (m = k)) as [->|]; [done|]. apply IH. lia.
  - exists k. split_and!; [done|done|done|]. lia.
Qed.

Lemma unique_total used base :
  ∃ n, unique_loop (S (length used + length keywords + length predeclared)) used base base 2
         = Some (nth_candidate base n) ∧ ¬ blocked used (nth_candidate base n) ∧
       ∀ m, m < n → blocked used (nth_candidate base m).
Proof.
  set (fuel := S _). pose proof (unique_loop_spec fuel used base 0) as Hs. cbn [nth_candidate] in Hs.
  change (Z.of_nat 0 + 2)%Z with 2%Z in Hs.
  destruct (unique_loop fuel used base base 2) as [c|].
  - destruct Hs as (n & _ & -> & Hc & Hm). exists n. split_and!; [done|done|]. intros m Hm'. apply Hm. lia.
  - exfalso. assert (length (nth_candidate base <$> seq 0 fuel) ≤ length (used ++ reserved)) as Hl.
    { apply submseteq_length, NoDup_submseteq.
      - apply NoDup_fmap_2_strong; [|apply NoDup_seq]. intros x y _ _. apply nth_candidate_inj.
      - intros x (m & -> & Hm)%list_elem_of_fmap. apply elem_of_seq in Hm. apply Hs. lia. }
    rewrite length_fmap, length_seq in Hl. unfold reserved in Hl. rewrite !length_app in Hl. unfold fuel in Hl. lia.
Qed.

Lemma candidate_identifier base n : identifier base → identifier (nth_candidate base n).
Proof.
  intros Hb. destruct n as [|n]; [done|]. apply identifier_app; [done|].
  assert (∀ t, str_all (byte_in "0" "9") t = true → str_all is_word_byte t = true) as Hw.
  { induction t as [|a t IH]; [done|]. simpl. intros [Ha Ht]%andb_true_iff. unfold is_word_byte at 1. rewrite Ha. auto. }
  apply Hw, itoa_digits. lia.
Qed.

End Idents.

Lemma UniqueIdent_spec `{UnicodeTables} name taken :
  ∃ c, UniqueIdent name taken = Some c ∧ usable c ∧ c ∉ taken ∧
    (SafeIdent name ∉ taken → c = SafeIdent name) ∧
    (c = SafeIdent name ∨ ∃ i, (2 <= i)%Z ∧ c = SafeIdent name +:+ itoa i ∧
       ∀ j, (2 <= j < i)%Z → blocked taken (SafeIdent name +:+ itoa j)).
Proof.
  destruct (unique_total taken (SafeIdent name)) as (n & E & Hn & Hm). exists (nth_candidate (SafeIdent name) n).
  assert (∀ c, ¬ blocked taken c ↔ c ∉ taken ∧ IsKeyword c = false ∧ IsPredeclared c = false) as Hb.
  { intros c. unfold blocked. rewrite elem_of_app, reserved_iff, <- !not_true_iff_false. naive_solver. }
  destruct (SafeIdent_usable name) as (Hi & Hk & Hp). apply Hb in Hn as (Ht & Hnk & Hnp). split_and!.
  - exact E.
  - split; [by apply candidate_identifier|done].
  - done.
  - intros Hf. destruct n as [|n]; [done|]. destruct (proj2 (Hb (SafeIdent name))); [done|]. apply (Hm 0). lia.
  - destruct n as [|n]; [by left|right]. exists (Z.of_nat n + 2)%Z. split_and!; [lia|done|].
    intros j Hj. specialize (Hm (S (Z.to_nat (j - 2)))). cbn [nth_candidate] in Hm.
    replace (Z.of_nat (Z.to_nat (j - 2)) + 2)%Z with j in Hm by lia. apply Hm. lia.
Qed.

(** For every name and every list of names taken, [UniqueIdent] finds an
    identifier that is neither a keyword, nor predeclared, nor taken; it is
    [SafeIdent] of the name when that is free, and the first numbered variant
    that is free otherwise. *)
Theorem unique_ident_is_usable `{UnicodeTables} name taken :
  ∃ c, UniqueIdent name taken = Some c ∧ usable c ∧ c ∉ taken ∧
    (SafeIdent name ∉ taken → c = SafeIdent name) ∧
    (c = SafeIdent name ∨ ∃ i, (2 <= i)%Z ∧ c = SafeIdent name +:+ itoa i ∧
       ∀ j, (2 <= j < i)%Z → blocked taken (SafeIdent name +:+ itoa j)).
Proof. apply UniqueIdent_spec. Qed.

(** ** The value outside a set *)

Definition in_range (lo hi v : Z) : Prop := (lo <= v <= hi)%Z.

Lemma bounds_ordered t lo hi : NumericBounds t = Some (lo, hi) → (lo <= hi)%Z.
Proof.
  intros Ht. assert (map_Forall (λ _ b, (b.1 <= b.2)%Z) bounds) as Hb.
  { refine (bool_decide_unpack _ _). vm_compute. exact I. }
  apply (Hb t (lo, hi) Ht).
Qed.

(** The set and the maximum of the used values in range. *)
Definition scanned (lo hi : Z) (used : list Z) (taken : gset Z) (highest : option Z) : Prop :=
  (∀ v, v ∈ taken ↔ v ∈ used ∧ in_range lo hi v) ∧
  match highest with
  | None => taken = ∅
  | Some h => h ∈ taken ∧ ∀ v, v ∈ taken → (v <= h)%Z
  end.

Lemma taken_loop_spec lo hi pre used taken highest :
  scanned lo hi pre taken highest →
  let r := taken_loop lo hi used taken highest in scanned lo hi (pre ++ used) r.1 r.2.
Proof.
  revert pre taken highest. induction used as [|v used IH]; intros pre taken highest Hs; cbn [taken_loop].
  { cbn [fst snd]. by rewrite app_nil_r. }
  change (v :: used) with ([v] ++ used). rewrite app_assoc.
  destruct ((v <? lo)%Z || (hi <? v)%Z) eqn:E; apply IH; destruct Hs as [Ht Hh]; unfold scanned, in_range in *.
  - split; [|done]. intros w. rewrite Ht, elem_of_app, list_elem_of_singleton.
    rewrite orb_true_iff, !Z.ltb_lt in E. split; [naive_solver|]. intros [[Hw | ->] Hr]; [done|lia].
  - rewrite orb_false_iff, !Z.ltb_ge in E. split.
    + intros w. rewrite elem_of_union, elem_of_singleton, Ht, elem_of_app, list_elem_of_singleton. naive_solver lia.
    + destruct highest as [h|].
      * destruct Hh as [Hin Hmax]. destruct (Z.ltb_spec h v).
        -- split; [set_solver|]. intros w [->%elem_of_singleton|Hw]%elem_of_union; [lia|]. specialize (Hmax w Hw). lia.
        -- split; [set_solver|]. intros w [->%elem_of_singleton|Hw]%elem_of_union; [lia|]. auto.
      * subst taken. split; [set_solver|]. intros w Hw. assert (w = v) as -> by set_solver. lia.
Qed.

Lemma gap_loop_spec fuel lo v taken :
  match gap_loop fuel lo v taken with
  | Some (Some w) => w ∉ taken ∧ (lo <= w <= v)%Z
  | Some None => ∀ w, (lo <= w <= v)%Z → w ∈ taken
  | None => ∀ w, (v - Z.of_nat fuel < w <= v)%Z → w ∈ taken
  end.
Proof.
  revert v. induction fuel as [|fuel IH]; intros v; cbn [gap_loop]; [intros w; lia|].
  destruct (Z.ltb_spec v lo); [intros w; lia|]. case_bool_decide as Hv; cbn [negb]; [|split; [done|lia]].
  destruct (Z.eqb_spec v lo) as [->|].
  { intros w Hw. by replace w with lo by lia. }
  specialize (IH (v - 1)%Z). destruct (gap_loop fuel lo (v - 1) taken) as [[w|]|].
  - split; [apply IH|]. lia.
  - intros w Hw. destruct (decide (w = v)) as [->|]; [done|]. apply IH. lia.
  - intros w Hw. destruct (decide (w = v)) as [->|]; [done|]. apply IH. lia.
Qed.

(** The walk down cannot pass more values than were used. *)
Lemma gap_loop_total lo hi used taken :
  (∀ v, v ∈ taken → v ∈ used) → gap_loop (S (length used)) lo hi taken ≠ None.
Proof.
  intros Ht E. pose proof (gap_loop_spec (S (length used)) lo hi taken) as Hs. rewrite E in Hs.
  assert (length ((λ n, hi - Z.of_nat n)%Z <$> seq 0 (S (length used))) ≤ length used) as Hl.
  { apply submseteq_length, NoDup_submseteq.
    - apply NoDup_fmap_2_strong; [|apply NoDup_seq]. intros x y _ _. lia.
    - intros x (n & -> & Hn%elem_of_seq)%list_elem_of_fmap. apply Ht, Hs. lia. }
  rewrite length_fmap, length_seq in Hl. lia.
Qed.

(** What the search gives in terms of the values of the set that fit. *)
Lemma NextOutOfRange_cases t used lo hi :
  NumericBounds t = Some (lo, hi) →
  ∃ taken : gset Z, (∀ v, v ∈ taken ↔ v ∈ used ∧ in_range lo hi v) ∧
    match NextOutOfRange t used with
    | None => False
    | Some (Some v) => in_range lo hi v ∧ v ∉ taken ∧ ∀ h, h ∈ taken → (∀ w, w ∈ taken → (w <= h)%Z) → (h < hi)%Z → v = (h + 1)%Z
    | Some None => ∀ v, in_range lo hi v → v ∈ taken
    end.
Proof.
  intros Eb. unfold NextOutOfRange. rewrite Eb. pose proof (bounds_ordered t lo hi Eb) as Hord.
  pose proof (taken_loop_spec lo hi [] used ∅ None) as Hs. cbv zeta in Hs.
  destruct Hs as [Ht Hh]; [by split; [set_solver|]|]. rewrite app_nil_l in Ht.
  destruct (taken_loop lo hi used ∅ None) as [taken [h|]]; cbn [fst snd] in *; exists taken; (split; [exact Ht|]); unfold in_range in *.
  - destruct Hh as [Hin Hmax]. assert (lo <= h <= hi)%Z as Hr by (apply Ht in Hin; lia).
    destruct (Z.ltb_spec h hi) as [Hlt|Hge].
    + split_and!; [lia|lia|intros Hc; specialize (Hmax _ Hc); lia|].
      intros h' Hh' Hm' _. specialize (Hm' h Hin). specialize (Hmax _ Hh'). lia.
    + pose proof (gap_loop_spec (S (length used)) lo hi taken) as Hg.
      pose proof (gap_loop_total lo hi used taken) as Htot.
      destruct (gap_loop (S (length used)) lo hi taken) as [[v|]|]; [| |by apply Htot; [intros v [??]%Ht|]].
      * destruct Hg as [Hn Hv]. split_and!; [lia|lia|done|]. intros h' _ Hm' Hlt'. specialize (Hm' h Hin). lia.
      * intros v Hv. apply Hg. lia.
  - subst taken. split_and!; [lia|lia|set_solver|set_solver].
Qed.

Lemma NextOutOfRange_outside t used v :
  NextOutOfRange t used = Some (Some v) → FitsIn v t = true ∧ v ∉ used.
Proof.
  intros E. unfold FitsIn. destruct (NumericBounds t) as [[lo hi]|] eqn:Eb; [|unfold NextOutOfRange in E; by rewrite Eb in E].
  destruct (NextOutOfRange_cases t used lo hi Eb) as (taken & Ht & H). rewrite E in H. destruct H as (Hr & Hn & _).
  split; [unfold in_range in Hr; rewrite andb_true_iff, !Z.leb_le; lia|]. intros Hu. by apply Hn, Ht.
Qed.

Lemma NextOutOfRange_total t used : NextOutOfRange t used ≠ None.
Proof.
  intros E. destruct (NumericBounds t) as [[lo hi]|] eqn:Eb; [|unfold NextOutOfRange in E; by rewrite Eb in E].
  destruct (NextOutOfRange_cases t used lo hi Eb) as (taken & _ & H). by rewrite E in H.
Qed.

(** C24: The search for a value outside a set of constants returns for every
    type and set.  The value it gives fits the type and is not in the set; it
    is one above the largest used value in range whenever that fits.  It gives
    none only for a name that is no integer type, or when the set holds every
    value of the type. *)
Theorem next_out_of_range_is_exact t used :
  match NextOutOfRange t used with
  | None => False
  | Some (Some v) =>
      FitsIn v t = true ∧ v ∉ used ∧
      ∀ lo hi h, NumericBounds t = Some (lo, hi) → h ∈ used → in_range lo hi h →
        (∀ w, w ∈ used → in_range lo hi w → (w <= h)%Z) → (h < hi)%Z → v = (h + 1)%Z
  | Some None =>
      ∀ v, FitsIn v t = true → v ∈ used
  end.
Proof.
  destruct (NextOutOfRange t used) as [[v|]|] eqn:E; [| |by eapply NextOutOfRange_total].
  - destruct (NextOutOfRange_outside t used v E) as [Hf Hu]. split_and!; [done..|].
    intros lo hi h Eb Hh Hr Hm. destruct (NextOutOfRange_cases t used lo hi Eb) as (taken & Ht & H).
    rewrite E in H. apply H; [by apply Ht|]. intros w [??]%Ht. by apply Hm.
  - unfold FitsIn. intros v. destruct (NumericBounds t) as [[lo hi]|] eqn:Eb; [|done].
    destruct (NextOutOfRange_cases t used lo hi Eb) as (taken & Ht & H). rewrite E in H.
    rewrite andb_true_iff, !Z.leb_le. intros Hv. apply Ht, H. exact Hv.
Qed.

(** [isMajorVersion] reads a sign, so a segment that is no version loses its
    place as the package name. *)
Theorem signed_segment_is_a_version :
  isMajorVersion "v+2" = true ∧ PackageName "example.com/lib/v+2" = "lib".
Proof. vm_compute. done. Qed.

(** [TestSuffix] applied twice changes nothing more. *)
Lemma external_test_idempotent pkg : ExternalTestPackage (ExternalTestPackage pkg) = ExternalTestPackage pkg.
Proof.
  unfold ExternalTestPackage at 2 3. destruct (String.eqb pkg "" || IsExternalTestPackage pkg) eqn:E.
  - unfold ExternalTestPackage. by rewrite E.
  - unfold ExternalTestPackage. replace (IsExternalTestPackage (pkg +:+ TestPackageSuffix)) with true; [by rewrite orb_true_r|].
    symmetry. apply has_suffix_spec. eauto.
Qed.
