(* ===== verification/GoQuote.v ===== *)
(** * lang/golang: quoting, literals and struct tags

    What [src/lang/golang] uses of [strconv.Quote], [strconv.Unquote] and
    [reflect.StructTag], and the code built on it: [values.go] (tags, quoting),
    [literals.go] (the well-formedness of a literal), the value parsers of
    [numeric.go] and the tag conventions of [conventions.go].

    Strings are byte strings.  [is_print] is [strconv.IsPrint]; of it the round
    trip uses what the documentation says of ASCII ([PrintTable]), and nothing
    beyond. *)

From S2P Require Import Prelude GoStrings Unicode Imports ImportLaws Node Naming NamingLaws GoIdents.

Local Open Scope string_scope.
Local Open Scope nat_scope.
Local Open Scope list_scope.

Abbreviation backslash := "092"%char.
Abbreviation dquote := "034"%char.
Abbreviation squote := "039"%char.
Abbreviation backquote := "096"%char.
Abbreviation newline := "010"%char.

(** ** [strconv.Unquote] *)

Definition unhex (a : ascii) : option N :=
  let c := N_of_ascii a in
  if between 48 57 c then Some (c - 48)%N
  else if between 97 102 c then Some (c - 97 + 10)%N
  else if between 65 70 c then Some (c - 65 + 10)%N
  else None.

(** [n] hexadecimal digits; the value and what follows them. *)
Fixpoint hex_digits (n : nat) (v : N) (s : string) : option (N * string) :=
  match n, s with
  | O, _ => Some (v, s)
  | S n, String a s => x ← unhex a; hex_digits n (v * 16 + x)%N s
  | S _, EmptyString => None
  end.

Definition octal (a : ascii) : option N :=
  let c := N_of_ascii a in if between 48 55 c then Some (c - 48)%N else None.

(** [utf8.ValidRune] *)
Definition valid_rune (r : N) : bool := (r <? 55296)%N || between 57344 1114111 r.

(** [UnquoteChar]: the value, whether it takes several bytes, and the rest. *)
Definition unquote_char (s : string) (quote : ascii) : option (N * bool * string) :=
  match s with
  | EmptyString => None
  | String c rest =>
      if Ascii.eqb c quote && (Ascii.eqb quote squote || Ascii.eqb quote dquote) then None
      else if (128 <=? N_of_ascii c)%N then
        let '(r, w) := decode_rune s in Some (r, true, str_drop w s)
      else if negb (Ascii.eqb c backslash) then Some (N_of_ascii c, false, rest)
      else match rest with
      | EmptyString => None
      | String c s =>
          if Ascii.eqb c "a" then Some (7%N, false, s)
          else if Ascii.eqb c "b" then Some (8%N, false, s)
          else if Ascii.eqb c "f" then Some (12%N, false, s)
          else if Ascii.eqb c "n" then Some (10%N, false, s)
          else if Ascii.eqb c "r" then Some (13%N, false, s)
          else if Ascii.eqb c "t" then Some (9%N, false, s)
          else if Ascii.eqb c "v" then Some (11%N, false, s)
          else if Ascii.eqb c "x" then '(v, s) ← hex_digits 2 0 s; Some (v, false, s)
          else if Ascii.eqb c "u" then
            '(v, s) ← hex_digits 4 0 s; if valid_rune v then Some (v, true, s) else None
          else if Ascii.eqb c "U" then
            '(v, s) ← hex_digits 8 0 s; if valid_rune v then Some (v, true, s) else None
          else match octal c with
          | Some v =>
              match s with
              | String c1 (String c2 s) =>
                  x ← octal c1; y ← octal c2;
                  let v := ((v * 8 + x) * 8 + y)%N in
                  if (255 <? v)%N then None else Some (v, false, s)
              | _ => None
              end
          | None =>
              if Ascii.eqb c backslash then Some (N_of_ascii c, false, s)
              else if Ascii.eqb c squote || Ascii.eqb c dquote then
                if negb (Ascii.eqb c quote) then None else Some (N_of_ascii c, false, s)
              else None
          end
      end
  end.

(** The decoded text up to the closing quote, and the rest after it. *)
Fixpoint unquote_loop (fuel : nat) (quote : ascii) (s : string) (buf : string) : option (string * string) :=
  match fuel, s with
  | S fuel, String c rest =>
      if Ascii.eqb c quote then Some (buf, rest)
      else
        '(r, multibyte, rem) ← unquote_char s quote;
        if Ascii.eqb c newline then None
        else
          let buf := buf +:+ (if (r <? 128)%N || negb multibyte then byte r else encode_rune r) in
          if Ascii.eqb quote squote then
            (* a rune literal holds one character *)
            match rem with String c rest => if Ascii.eqb c quote then Some (buf, rest) else None | _ => None end
          else unquote_loop fuel quote rem buf
  | _, _ => None
  end.

(** [utf8.ValidString] *)
Definition valid_string (s : string) : bool :=
  forallb (λ '(r, c), negb ((r =? RuneError)%N && (String.length c =? 1))) (runes s).

Fixpoint str_filter (f : ascii → bool) (s : string) : string :=
  match s with EmptyString => "" | String a s => if f a then String a (str_filter f s) else str_filter f s end.

Definition unquote (s : string) : option (string * string) :=
  match s with
  | EmptyString => None
  | String q rest =>
      match index_byte rest q with
      | None => None
      | Some i =>
          let body := str_take i rest in
          let after := str_drop (S i) rest in
          if Ascii.eqb q backquote then
            Some (str_filter (λ a, negb (Ascii.eqb a "013")) body, after)
          else if Ascii.eqb q dquote || Ascii.eqb q squote then
            let plain := negb (str_has backslash body) && negb (str_has newline body) &&
              (if Ascii.eqb q dquote then valid_string body
               else let '(r, n) := decode_rune body in
                    (n =? i) && (negb (r =? RuneError)%N || negb (n =? 1))) in
            if plain then Some (body, after)
            else unquote_loop (String.length s) q rest ""
          else None
      end
  end.

Definition Unquote (s : string) : option string :=
  '(out, rem) ← unquote s; if String.eqb rem "" then Some out else None.

(** ** [strconv.Quote] *)

Definition hex_digit (n : N) : string :=
  if (n <? 10)%N then byte (48 + n) else byte (97 + (n - 10)).
Fixpoint hex_pad (n : nat) (r : N) : string :=
  match n with O => "" | S n => hex_pad n (r / 16) +:+ hex_digit (r mod 16) end.

Section Quote.
  Context (is_print : N → bool).

Definition quote_rune (x : N * string) : string :=
  let '(r, c) := x in
  if (r =? RuneError)%N && (String.length c =? 1) then
    match byte_at c 0 with Some b => String backslash "x" +:+ hex_pad 2 b | None => "" end
  else if (r =? N_of_ascii dquote)%N || (r =? N_of_ascii backslash)%N then String backslash (byte r)
  else if is_print r then encode_rune r
  else if (r =? 7)%N then String backslash "a"
  else if (r =? 8)%N then String backslash "b"
  else if (r =? 12)%N then String backslash "f"
  else if (r =? 10)%N then String backslash "n"
  else if (r =? 13)%N then String backslash "r"
  else if (r =? 9)%N then String backslash "t"
  else if (r =? 11)%N then String backslash "v"
  else if (r <? 32)%N || (r =? 127)%N then String backslash "x" +:+ hex_pad 2 r
  else if (r <? 65536)%N then String backslash "u" +:+ hex_pad 4 r
  else String backslash "U" +:+ hex_pad 8 r.

(** [Quote] *)
Definition Quote (s : string) : string :=
  String dquote (foldr String.append "" (quote_rune <$> runes s) +:+ String dquote "").

End Quote.

Definition RawQuote (s : string) : option string :=
  if str_has backquote s || str_has "013" s then None
  else Some (String backquote (s +:+ String backquote "")).

(** [ParseStringValue] *)
Definition ParseStringValue (raw : string) : option string := Unquote raw.

(** ** [reflect.StructTag] and [values.go] *)

(** The quoted text after an opening quote, and what follows the closing one;
    a backslash hides the next byte. *)
Fixpoint close_quote (q : ascii) (s : string) : option (string * string) :=
  match s with
  | EmptyString => None
  | String c s =>
      if Ascii.eqb c backslash then
        match s with
        | EmptyString => None
        | String d s => '(v, rest) ← close_quote q s; Some (String c (String d v), rest)
        end
      else if Ascii.eqb c q then Some ("", s)
      else '(v, rest) ← close_quote q s; Some (String c v, rest)
  end.

Definition cutQuoted (s : string) : option (string * string) :=
  match s with
  | String c s => if Ascii.eqb c dquote then close_quote dquote s else None
  | EmptyString => None
  end.

Definition is_space_byte (a : ascii) : bool := Ascii.eqb a " ".

(** The bytes of a key in [Lookup]. *)
Definition key_byte (a : ascii) : bool :=
  (32 <? N_of_ascii a)%N && negb (Ascii.eqb a ":") && negb (Ascii.eqb a dquote) && negb (N_of_ascii a =? 127)%N.

Fixpoint span (f : ascii → bool) (s : string) : string * string :=
  match s with
  | EmptyString => ("", "")
  | String a t => if f a then let '(x, y) := span f t in (String a x, y) else ("", s)
  end.

Fixpoint lookup_loop (fuel : nat) (key tag : string) : option string :=
  match fuel with
  | O => None
  | S fuel =>
      if String.eqb tag "" then None
      else
        let '(name, rest) := span key_byte (trim_left is_space_byte tag) in
        if String.eqb name "" then None
        else match rest with
        | String c1 (String c2 rest) =>
            if Ascii.eqb c1 ":" && Ascii.eqb c2 dquote then
              match close_quote dquote rest with
              | None => None
              | Some (v, rest) =>
                  if String.eqb key name
                  then Unquote (String dquote (v +:+ String dquote ""))
                  else lookup_loop fuel key rest
              end
            else None
        | _ => None
        end
  end.

(** [StructTag.Lookup]; each round takes at least the key. *)
Definition Lookup (tag key : string) : option string := lookup_loop (S (String.length tag)) key tag.

Fixpoint tagKeys_loop (fuel : nat) (tag : string) : list string :=
  match fuel with
  | O => []
  | S fuel =>
      if String.eqb tag "" then []
      else
        let '(key, rest, found) := cut_byte (trim_left is_space_byte tag) ":" in
        if negb found || String.eqb key "" then []
        else match cutQuoted rest with
             | None => []
             | Some (_, remainder) => key :: tagKeys_loop fuel remainder
             end
  end.
Definition tagKeys (tag : string) : list string := tagKeys_loop (S (String.length tag)) tag.

(** [strings.Trim(raw, "`")] *)
Definition trim_backquotes (raw : string) : string :=
  let f := (λ a, Ascii.eqb a backquote) in trim_right f (trim_left f raw).

Definition ParseTag (raw : string) : gmap string string :=
  let tag := trim_backquotes raw in
  fold_left (λ out key, match Lookup tag key with Some v => <[key := v]> out | None => out end) (tagKeys tag) ∅.

Definition TagValue (raw key : string) : option string := Lookup (trim_backquotes raw) key.

(** ** The tag conventions of [conventions.go] *)

(** The name, or [None] for a field that is not serialised. *)
Definition JSONName (f : option Field) : option string :=
  match f with
  | None => None
  | Some f =>
      if String.eqb (f_Name f) "" then None
      else match TagValue (f_Tag f) "json" with
      | None => Some (f_Name f)
      | Some raw =>
          if String.eqb raw "-" then None
          else let declared := (cut_byte raw ",").1.1 in
               Some (if String.eqb declared "" then f_Name f else declared)
      end
  end.

Definition HasTagOption (f : option Field) (key option_ : string) : bool :=
  match f with
  | None => false
  | Some f =>
      match TagValue (f_Tag f) key with
      | None => false
      | Some raw =>
          let '(_, opts, found) := cut_byte raw "," in
          found && bool_decide (option_ ∈ split_byte opts ",")
      end
  end.

(** ** [literals.go]: author-written values *)

Inductive LiteralError := ErrEmptyLiteral | ErrBlankLiteral (src : string) | ErrUnterminated (src : string).

(** What follows the literal opened by [q], at its closing quote. *)
Definition scanRaw (s : string) : option string :=
  match index_byte s backquote with Some i => Some (str_drop (S i) s) | None => None end.
Definition scanEscaped (q : ascii) (s : string) : option string := snd <$> close_quote q s.

Fixpoint checkQuoting_loop (fuel : nat) (s : string) : bool :=
  match fuel, s with
  | S fuel, String c s =>
      if Ascii.eqb c backquote then
        match scanRaw s with Some rest => checkQuoting_loop fuel rest | None => false end
      else if Ascii.eqb c dquote || Ascii.eqb c squote then
        match scanEscaped c s with Some rest => checkQuoting_loop fuel rest | None => false end
      else checkQuoting_loop fuel s
  | _, _ => true
  end.
Definition checkQuoting (src : string) : option LiteralError :=
  if checkQuoting_loop (String.length src) src then None else Some (ErrUnterminated src).

Definition IsWellFormedLiteral (src : string) : option LiteralError :=
  if String.eqb src "" then Some ErrEmptyLiteral
  else if String.eqb (trim_space src) "" then Some (ErrBlankLiteral src)
  else checkQuoting src.

(** * lang/golang: quoting is inverted by unquoting

    Every byte string, quoted as a Go literal, reads back; the literal is
    well formed for the scanner that guards author-written values. *)

(** [strconv.IsPrint] on ASCII: the space and the graphic characters. *)
Class PrintTable (is_print : N → bool) :=
  print_ascii : ∀ r, (r < 128)%N → is_print r = between 32 126 r.

(** ** Hexadecimal *)

Lemma hex_digit_back n : (n < 16)%N → ∃ a, hex_digit n = String a "" ∧ unhex a = Some n.
Proof.
  intros Hn. unfold hex_digit. destruct (N.ltb_spec n 10); eexists; (split; [unfold byte; reflexivity|]); unfold unhex.
  - rewrite N_ascii_embedding by lia. rewrite (proj2 (between_iff _ _ _)) by lia. f_equal. lia.
  - rewrite N_ascii_embedding by lia. unfold between at 1. rewrite (proj2 (N.leb_gt _ 57)) by lia.
    rewrite andb_false_r, (proj2 (between_iff _ _ _)) by lia. f_equal. lia.
Qed.

Lemma hex_digits_pad n k v r t :
  (r < 16 ^ N.of_nat n)%N →
  hex_digits (n + k) v (hex_pad n r +:+ t) = hex_digits k (v * 16 ^ N.of_nat n + r)%N t.
Proof.
  revert k r t. induction n as [|n IH]; intros k r t Hr.
  { simpl in *. assert (r = 0)%N as -> by lia. by rewrite N.mul_1_r, N.add_0_r. }
  rewrite Nat2N.inj_succ, N.pow_succ_r' in *. cbn [hex_pad]. rewrite <- append_assoc.
  replace (S n + k) with (n + S k) by lia.
  assert (r mod 16 < 16)%N as Hm by (apply N.mod_lt; lia).
  rewrite IH by (apply N.Div0.div_lt_upper_bound; lia).
  destruct (hex_digit_back (r mod 16) Hm) as (a & -> & Ea). cbn [String.append hex_digits]. rewrite Ea. simpl.
  f_equal. rewrite (N.div_mod r 16) at 3 by lia. lia.
Qed.

Lemma hex_back n r t : (r < 16 ^ N.of_nat n)%N → hex_digits n 0 (hex_pad n r +:+ t) = Some (r, t).
Proof. intros Hr. rewrite <- (Nat.add_0_r n) at 1. by rewrite hex_digits_pad. Qed.

(** ** The chunks of a text *)

Lemma runes_elem s x :
  x ∈ runes s → ∃ u, u ≠ "" ∧ x = ((decode_rune u).1, str_take (decode_rune u).2 u).
Proof.
  unfold runes. generalize (String.length s) as f. intros f. revert s.
  induction f as [|f IH]; intros [|a s]; try by intros []%elem_of_nil. cbn [runes_fuel].
  destruct (decode_rune (String a s)) as [r w] eqn:E. intros [->|Hx]%elem_of_cons; [|eauto].
  exists (String a s). rewrite E. done.
Qed.

(** A chunk is one bad byte or the encoding of a valid rune. *)
Lemma chunk_cases s x :
  x ∈ runes s →
  (∃ a, x = (RuneError, String a "") ∧ (128 <= N_of_ascii a)%N) ∨
  (broken x = false ∧ encode_rune x.1 = x.2 ∧ chunk_ok x).
Proof.
  intros (u & Hu & ->)%runes_elem. pose proof (decode_width u Hu) as Hw.
  destruct (decide ((decode_rune u).1 = RuneError ∧ (decode_rune u).2 = 1)) as [[Hr H1]|Hn].
  - left. rewrite Hr, H1. destruct u as [|a u]; [done|]. exists a. split; [by destruct u|].
    unfold decode_rune in Hr. change (byte_at (String a u) 0) with (Some (N_of_ascii a)) in Hr. cbv match in Hr.
    destruct (N.ltb_spec (N_of_ascii a) 128); [|done]. simpl in Hr. exfalso. revert Hr. unfold RuneError. lia.
  - right. pose proof (encode_decode u Hu Hn) as He. split_and!; [|done|].
    + unfold broken. cbn [fst snd]. rewrite str_take_length by lia. apply andb_false_iff. rewrite N.eqb_neq, Nat.eqb_neq. destruct (decide ((decode_rune u).1 = RuneError)); [right|left]; tauto.
    + destruct (decide ((decode_rune u).1 = RuneError)) as [Hr|Hr]; [|by apply decode_chunk].
      rewrite <- He, Hr. split; [done|]. intros t. reflexivity.
Qed.

Lemma chunk_ok_ascii r c : encode_rune r = c → (r < 128)%N → c = String (ascii_of_N r) "" ∧ N_of_ascii (ascii_of_N r) = r.
Proof.
  intros <- Hr. rewrite encode_ascii by done. split; [done|]. apply N_ascii_embedding. lia.
Qed.

Lemma chunk_ok_high r c :
  chunk_ok (r, c) → (128 <= r)%N → ∃ a c', c = String a c' ∧ (128 <= N_of_ascii a)%N.
Proof.
  intros [Hc Hd] Hr. simpl in *. destruct c as [|a c]; [done|]. exists a, c. split; [done|].
  specialize (Hd ""). unfold decode_rune in Hd. change (byte_at (String a c +:+ "") 0) with (Some (N_of_ascii a)) in Hd.
  cbv match in Hd. destruct (N.ltb_spec (N_of_ascii a) 128); [|lia]. simplify_eq. lia.
Qed.

Lemma chunk_ok_valid r c : chunk_ok (r, c) → encode_rune r = c → valid_rune r = true.
Proof.
  intros [_ Hd] He. simpl in Hd. unfold valid_rune. rewrite orb_true_iff, N.ltb_lt, between_iff.
  destruct (decide (r < 55296 ∨ 57344 <= r <= 1114111)%N); [tauto|]. exfalso.
  assert (c = encode_rune RuneError) as ->.
  { rewrite <- He. unfold encode_rune at 1. rewrite !(proj2 (N.ltb_ge _ _)) by lia.
    replace ((1114111 <? r)%N || between 55296 57343 r) with true; [reflexivity|].
    symmetry. rewrite orb_true_iff, N.ltb_lt, between_iff. lia. }
  specialize (Hd ""). vm_compute in Hd. injection Hd as <-. lia.
Qed.

(** ** One character *)

Definition appended (v : N) (multibyte : bool) : string :=
  if (v <? 128)%N || negb multibyte then byte v else encode_rune v.

(** What quoting wrote for a chunk reads back as the chunk. *)
Definition reads_back (q : string) (x : N * string) : Prop :=
  ∃ a q', q = String a q' ∧ a ≠ dquote ∧ a ≠ newline ∧
    ∀ t, ∃ v multibyte, unquote_char (q +:+ t) dquote = Some (v, multibyte, t) ∧ appended v multibyte = x.2.

Lemma escape_reads_back (c : ascii) (v : N) (x : N * string) :
  (∀ t, unquote_char (String backslash (String c t)) dquote = Some (v, false, t)) → byte v = x.2 →
  reads_back (String backslash (String c "")) x.
Proof.
  intros Hu Hb. exists backslash, (String c ""). split_and!; [done..|]. intros t. exists v, false.
  split; [apply Hu|]. unfold appended. by rewrite orb_true_r.
Qed.

Lemma hex_reads_back r x : (r < 256)%N → byte r = x.2 → reads_back (String backslash "x" +:+ hex_pad 2 r) x.
Proof.
  intros Hr Hb. exists backslash, ("x" +:+ hex_pad 2 r). split_and!; [done..|]. intros t. exists r, false.
  split; [|unfold appended; by rewrite orb_true_r].
  change ((String backslash "x" +:+ hex_pad 2 r) +:+ t) with (String backslash (String "x" (hex_pad 2 r +:+ t))).
  cbn [unquote_char]. change (Ascii.eqb backslash dquote) with false. simpl (_ && _).
  rewrite (hex_back 2) by (simpl; lia). reflexivity.
Qed.

Lemma wide_reads_back (k : ascii) n r x :
  (k = "u"%char ∧ n = 4 ∨ k = "U"%char ∧ n = 8) → (r < 16 ^ N.of_nat n)%N → (128 <= r)%N →
  valid_rune r = true → encode_rune r = x.2 → reads_back (String backslash (String k "") +:+ hex_pad n r) x.
Proof.
  intros Hk Hr Hlo Hv He. exists backslash, (String k "" +:+ hex_pad n r). split_and!; [done..|]. intros t.
  exists r, true. split; [|unfold appended; by rewrite (proj2 (N.ltb_ge _ _)) by lia].
  change ((String backslash (String k "") +:+ hex_pad n r) +:+ t) with (String backslash (String k (hex_pad n r +:+ t))).
  destruct Hk as [[-> ->]|[-> ->]]; cbn [unquote_char]; change (Ascii.eqb backslash dquote) with false; simpl (_ && _).
  - change (N_of_ascii backslash) with 92%N. cbn -[hex_digits hex_pad]. rewrite hex_back by done. cbn. by rewrite Hv.
  - change (N_of_ascii backslash) with 92%N. cbn -[hex_digits hex_pad]. rewrite hex_back by done. cbn. by rewrite Hv.
Qed.

Lemma printed_reads_back r c :
  encode_rune r = c → chunk_ok (r, c) → (128 <= r ∨ (32 <= r)%N ∧ r ≠ 34 ∧ r ≠ 92)%N → reads_back c (r, c).
Proof.
  intros He Hok Hr. destruct (N.lt_ge_cases r 128) as [Hlo|Hhi].
  - destruct (chunk_ok_ascii r c He Hlo) as [-> Ha]. exists (ascii_of_N r), "". split_and!; [done|..].
    + intros Hq. rewrite Hq in Ha. change (N_of_ascii dquote) with 34%N in Ha. lia.
    + intros Hq. rewrite Hq in Ha. change (N_of_ascii newline) with 10%N in Ha. lia.
    + intros t. exists r, false. split; [|unfold appended; by rewrite orb_true_r].
      change (String (ascii_of_N r) "" +:+ t) with (String (ascii_of_N r) t). cbn [unquote_char].
      destruct (Ascii.eqb_spec (ascii_of_N r) dquote) as [Hq|_].
      { rewrite Hq in Ha. change (N_of_ascii dquote) with 34%N in Ha. lia. }
      rewrite Ha, (proj2 (N.leb_gt _ _)) by lia. destruct (Ascii.eqb_spec (ascii_of_N r) backslash) as [Hq|_]; [|done].
      rewrite Hq in Ha. change (N_of_ascii backslash) with 92%N in Ha. lia.
  - destruct (chunk_ok_high r c Hok Hhi) as (a & c' & -> & Ha). destruct Hok as [_ Hd]. simpl in Hd.
    exists a, c'. split_and!; [done|intros ->; exfalso; apply Ha; reflexivity|intros ->; exfalso; apply Ha; reflexivity|].
    intros t. exists r, true. split.
    + specialize (Hd t). change (String a c' +:+ t) with (String a (c' +:+ t)). cbn [unquote_char].
      destruct (Ascii.eqb_spec a dquote) as [->|_]; [exfalso; apply Ha; reflexivity|]. cbn [andb].
      rewrite (proj2 (N.leb_le _ _)) by done. rewrite Hd. do 2 f_equal.
      change (String a (c' +:+ t)) with (String a c' +:+ t). change (S (String.length c')) with (String.length (String a c')).
      apply str_drop_app.
    + unfold appended. by rewrite (proj2 (N.ltb_ge _ _)) by lia.
Qed.

Section Roundtrip.
  Context (is_print : N → bool) `{!PrintTable is_print}.

Abbreviation quoted := (quote_rune is_print).

Lemma quote_reads_back s x : x ∈ runes s → reads_back (quoted x) x.
Proof using PrintTable0.
  intros Hx. destruct (chunk_cases s x Hx) as [(a & -> & Ha)|(Hb & He & Hok)].
  { change (quoted (RuneError, String a "")) with (String backslash "x" +:+ hex_pad 2 (N_of_ascii a)).
    apply hex_reads_back; [|apply byte_code]. apply N_ascii_bounded. }
  destruct x as [r c]. unfold broken in Hb. cbn [fst snd] in *. unfold quote_rune. rewrite Hb.
  change (N_of_ascii dquote) with 34%N. change (N_of_ascii backslash) with 92%N.
  assert (∀ n, r = n → (n < 128)%N → byte n = c) as Hbyte.
  { intros n <- Hn. rewrite <- He. unfold encode_rune. by rewrite (proj2 (N.ltb_lt _ _)). }
  destruct (N.eqb_spec r 34) as [->|H34].
  { apply (escape_reads_back dquote 34); [done|]. by apply Hbyte. }
  destruct (N.eqb_spec r 92) as [->|H92].
  { apply (escape_reads_back backslash 92); [done|]. by apply Hbyte. }
  cbn [orb]. destruct (is_print r) eqn:Hp.
  { rewrite He. apply printed_reads_back; [done|done|]. destruct (N.lt_ge_cases r 128) as [Hlt|]; [right|by left].
    rewrite (print_ascii r Hlt), between_iff in Hp. lia. }
  destruct (N.eqb_spec r 7) as [->|]; [apply (escape_reads_back "a" 7); [done|by apply Hbyte]|].
  destruct (N.eqb_spec r 8) as [->|]; [apply (escape_reads_back "b" 8); [done|by apply Hbyte]|].
  destruct (N.eqb_spec r 12) as [->|]; [apply (escape_reads_back "f" 12); [done|by apply Hbyte]|].
  destruct (N.eqb_spec r 10) as [->|]; [apply (escape_reads_back "n" 10); [done|by apply Hbyte]|].
  destruct (N.eqb_spec r 13) as [->|]; [apply (escape_reads_back "r" 13); [done|by apply Hbyte]|].
  destruct (N.eqb_spec r 9) as [->|]; [apply (escape_reads_back "t" 9); [done|by apply Hbyte]|].
  destruct (N.eqb_spec r 11) as [->|]; [apply (escape_reads_back "v" 11); [done|by apply Hbyte]|].
  destruct ((r <? 32)%N || (r =? 127)%N) eqn:Hc.
  { rewrite orb_true_iff, N.ltb_lt, N.eqb_eq in Hc. apply hex_reads_back; [lia|]. apply Hbyte; [done|lia]. }
  rewrite orb_false_iff, N.ltb_ge, N.eqb_neq in Hc.
  assert (128 <= r)%N as Hhi.
  { destruct (N.lt_ge_cases r 128) as [Hlt|]; [|done]. rewrite (print_ascii r Hlt) in Hp.
    apply not_true_iff_false in Hp. rewrite between_iff in Hp. lia. }
  pose proof (chunk_ok_valid r c Hok He) as Hv. destruct (N.ltb_spec r 65536).
  - apply (wide_reads_back "u" 4); auto.
  - apply (wide_reads_back "U" 8); auto. unfold valid_rune in Hv. rewrite orb_true_iff, N.ltb_lt, between_iff in Hv. simpl. lia.
Qed.

Lemma unquote_chunks l fuel buf :
  Forall (λ x, reads_back (quoted x) x) l → length l < fuel →
  unquote_loop fuel dquote (cat (quoted <$> l) +:+ String dquote "") buf = Some (buf +:+ cat l.*2, "").
Proof.
  intros Hl. revert fuel buf. induction Hl as [|x l Hx Hl IH]; intros [|fuel] buf Hf; simpl in Hf; try lia.
  { cbn. by rewrite append_nil_r. }
  destruct Hx as (a & q & Eq & Hnq & Hnn & Hu). rewrite fmap_cons.
  change (cat (quoted x :: (quoted <$> l))) with (quoted x +:+ cat (quoted <$> l)). rewrite <- append_assoc.
  destruct (Hu (cat (quoted <$> l) +:+ String dquote "")) as (v & mb & Ev & Ea). revert Ev. rewrite Eq. intros Ev.
  change (String a q +:+ cat (quoted <$> l) +:+ String dquote "")
    with (String a (q +:+ cat (quoted <$> l) +:+ String dquote "")) in *.
  cbn [unquote_loop]. destruct (Ascii.eqb_spec a dquote); [done|]. rewrite Ev. cbn -[unquote_loop].
  destruct (Ascii.eqb_spec a newline); [done|]. fold (appended v mb). rewrite Ea, IH by lia.
  change (cat (x :: l).*2) with (x.2 +:+ cat l.*2). by rewrite append_assoc.
Qed.

End Roundtrip.

(** ** Text without escapes *)

Lemma str_all_append f s t : str_all f (s +:+ t) = str_all f s && str_all f t.
Proof. induction s as [|a s IH]; [done|]. simpl. by rewrite IH, andb_assoc. Qed.

Lemma str_has_append c s t : str_has c (s +:+ t) = str_has c s || str_has c t.
Proof. unfold str_has. by rewrite str_all_append, negb_andb. Qed.

Lemma str_take_app_add s t i : str_take (String.length s + i) (s +:+ t) = s +:+ str_take i t.
Proof. induction s; simpl; f_equal; auto. Qed.

Lemma str_drop_app_add s t i : str_drop (String.length s + i) (s +:+ t) = str_drop i t.
Proof. induction s; simpl; auto. Qed.

Lemma index_byte_append c s t :
  str_has c s = false → index_byte (s +:+ t) c = (λ i, String.length s + i) <$> index_byte t c.
Proof.
  unfold str_has. rewrite negb_false_iff. induction s as [|a s IH]; simpl.
  { intros _. by destruct (index_byte t c). }
  intros [Ha Hs]%andb_true_iff. destruct (Ascii.eqb a c); [done|]. rewrite IH by done. by destruct (index_byte t c).
Qed.

Lemma index_byte_zero a s c : index_byte (String a s) c = Some 0 → a = c.
Proof. simpl. destruct (Ascii.eqb_spec a c); [done|]. by destruct (index_byte s c). Qed.

Lemma high_byte c n : (N_of_ascii c < 128)%N → (128 <= n < 256)%N → str_has c (byte n) = false.
Proof.
  intros Hc Hn. unfold str_has, byte. cbn [str_all]. rewrite andb_true_r, negb_involutive.
  destruct (Ascii.eqb_spec (ascii_of_N n) c) as [E|]; [|done]. apply (f_equal N_of_ascii) in E.
  rewrite N_ascii_embedding in E by lia. lia.
Qed.

Lemma encode_no_ascii c r : (N_of_ascii c < 128)%N → (128 <= r <= 1114111)%N → str_has c (encode_rune r) = false.
Proof.
  intros Hc Hr. unfold encode_rune. rewrite (proj2 (N.ltb_ge _ _)) by lia.
  assert (∀ x, 128 <= 128 + x mod 64 < 256)%N as Hm.
  { clear. intros x. pose proof (N.mod_lt x 64 ltac:(lia)) as Hx. revert Hx. generalize (x mod 64)%N. lia. }
  assert (∀ m k, 0 < m → r < m * k → r / m < k)%N as Hd by (intros; by apply N.Div0.div_lt_upper_bound).
  destruct (N.ltb_spec r 2048).
  { rewrite str_has_append, !high_byte; [done|done|apply Hm|done|]. pose proof (Hd 64 32 ltac:(lia) ltac:(lia))%N as Hq. revert Hq. generalize (r / 64)%N. lia. }
  destruct (_ || _).
  { rewrite !str_has_append, !high_byte; done. } destruct (N.ltb_spec r 65536).
  - rewrite !str_has_append, !high_byte; [done|done|apply Hm|done|apply Hm|done|]. pose proof (Hd 4096 16 ltac:(lia) ltac:(lia))%N as Hq. revert Hq. generalize (r / 4096)%N. lia.
  - rewrite !str_has_append, !high_byte; [done|done|apply Hm|done|apply Hm|done|apply Hm|done|]. pose proof (Hd 262144 16 ltac:(lia) ltac:(lia))%N as Hq. revert Hq. generalize (r / 262144)%N. lia.
Qed.

Lemma ascii_no_other c r : (r < 128)%N → N_of_ascii c ≠ r → str_has c (String (ascii_of_N r) "") = false.
Proof.
  intros Hr Hc. unfold str_has. cbn [str_all]. rewrite andb_true_r, negb_involutive. apply Ascii.eqb_neq.
  intros E. apply (f_equal N_of_ascii) in E. rewrite N_ascii_embedding in E by lia. congruence.
Qed.

Lemma encode_no_byte c r s x :
  x ∈ runes s → x.1 = r → broken x = false → (N_of_ascii c < 128)%N → N_of_ascii c ≠ r → str_has c x.2 = false.
Proof.
  intros Hx <- Hn Hc Hr. destruct (chunk_cases s x Hx) as [(a & -> & _)|(_ & He & Hok)]; [done|].
  destruct x as [r c']. cbn [fst snd] in *. destruct (N.lt_ge_cases r 128) as [Hlt|Hge].
  - destruct (chunk_ok_ascii r c' He Hlt) as [-> _]. by apply ascii_no_other.
  - rewrite <- He. apply encode_no_ascii; [done|]. pose proof (chunk_ok_valid r c' Hok He) as Hv. unfold valid_rune in Hv.
    rewrite orb_true_iff, N.ltb_lt, between_iff in Hv. lia.
Qed.

Lemma hex_pad_plain n r : str_has dquote (hex_pad n r) = false ∧ str_has backslash (hex_pad n r) = false.
Proof.
  revert r. induction n as [|n IH]; intros r; [done|]. cbn [hex_pad]. rewrite !str_has_append.
  destruct (IH (r / 16)%N) as [-> ->]. assert (r mod 16 < 16)%N as Hm by (apply N.mod_lt; lia).
  destruct (hex_digit_back _ Hm) as (a & -> & Ha).
  split; unfold str_has; simpl; rewrite andb_true_r, negb_involutive; apply Ascii.eqb_neq; intros ->; discriminate Ha.
Qed.

Section Roundtrip2.
  Context (is_print : N → bool).

Abbreviation quoted := (quote_rune is_print).

Lemma quote_shape s x :
  x ∈ runes s →
  (∃ c q, quoted x = String backslash (String c q) ∧ str_has dquote q = false ∧ str_has backslash q = false) ∨
  (quoted x = x.2 ∧ str_has dquote x.2 = false ∧ str_has backslash x.2 = false).
Proof.
  intros Hx. assert (∀ c n r, ∃ k q, String backslash (String c "") +:+ hex_pad n r = String backslash (String k q) ∧
    str_has dquote q = false ∧ str_has backslash q = false) as Hhex.
  { intros c n r. exists c, (hex_pad n r). split; [done|]. apply hex_pad_plain. }
  assert (∀ c, ∃ k q, String backslash (String c "") = String backslash (String k q) ∧
    str_has dquote q = false ∧ str_has backslash q = false) as Hesc by (intros c; by exists c, "").
  destruct (chunk_cases s x Hx) as [(a & -> & Ha)|(Hb & He & _)]; [left; apply (Hhex "x"%char 2)|].
  pose proof (λ c, encode_no_byte c x.1 s x Hx eq_refl Hb) as Hno. destruct x as [r c]. unfold broken in Hb.
  cbn [fst snd] in *. unfold quote_rune. rewrite Hb. unfold byte.
  destruct (N.eqb_spec r (N_of_ascii dquote)) as [|Hd]; [left; apply Hesc|].
  destruct (N.eqb_spec r (N_of_ascii backslash)) as [|Hk]; [left; apply Hesc|]. cbn [orb].
  destruct (is_print r); [right|left; repeat case_match; first [apply Hesc|apply Hhex]].
  rewrite He. split; [done|]. split; apply Hno; done.
Qed.

Lemma quote_shapes s :
  Forall (λ x,
    (∃ c q, quoted x = String backslash (String c q) ∧ str_has dquote q = false ∧ str_has backslash q = false) ∨
    (quoted x = x.2 ∧ str_has dquote x.2 = false ∧ str_has backslash x.2 = false)) (runes s).
Proof. apply Forall_forall. intros x. apply quote_shape. Qed.

(** A prefix up to the first quote that holds no escape is the whole text. *)
Lemma quote_plain l i :
  Forall (λ x, (∃ c q, quoted x = String backslash (String c q) ∧ str_has dquote q = false ∧ str_has backslash q = false) ∨
    (quoted x = x.2 ∧ str_has dquote x.2 = false ∧ str_has backslash x.2 = false)) l →
  let rest := cat (quoted <$> l) +:+ String dquote "" in
  index_byte rest dquote = Some i → str_has backslash (str_take i rest) = false →
  str_take i rest = cat l.*2 ∧ str_drop (S i) rest = "".
Proof.
  cbv zeta. intros Hl. revert i. induction Hl as [|x l Hx Hl IH]; intros i Hi Hb.
  { injection Hi as <-. done. }
  rewrite fmap_cons in *. change (cat (quoted x :: (quoted <$> l))) with (quoted x +:+ cat (quoted <$> l)) in *.
  rewrite <- append_assoc in *. destruct Hx as [(c & q & Eq & _)|(Eq & Hn & _)]; rewrite Eq in *.
  { destruct i as [|i]; [|discriminate Hb]. by apply index_byte_zero in Hi. }
  rewrite index_byte_append in Hi by done.
  destruct (index_byte (cat (quoted <$> l) +:+ String dquote "") dquote) as [j|] eqn:Ej; [|done].
  injection Hi as <-. rewrite str_take_app_add in *. rewrite str_has_append, orb_false_iff in Hb.
  destruct (IH j eq_refl (proj2 Hb)) as [-> Hd]. split; [done|].
  replace (S (String.length x.2 + j)) with (String.length x.2 + S j) by lia. by rewrite str_drop_app_add.
Qed.

End Roundtrip2.

Lemma index_byte_end c s : ∃ i, index_byte (s +:+ String c "") c = Some i.
Proof.
  induction s as [|a s [i IH]]; simpl; [by rewrite Ascii.eqb_refl; eauto|]. destruct (Ascii.eqb a c); [eauto|].
  rewrite IH. eauto.
Qed.

Lemma quoted_length is_print l :
  Forall (λ x, reads_back (quote_rune is_print x) x) l → length l ≤ String.length (cat (quote_rune is_print <$> l)).
Proof.
  induction 1 as [|x l (a & q & E & _) _ IH]; [done|]. rewrite fmap_cons.
  change (cat (quote_rune is_print x :: (quote_rune is_print <$> l)))
    with (quote_rune is_print x +:+ cat (quote_rune is_print <$> l)).
  rewrite append_length, E. simpl. lia.
Qed.

(** What [Quote] writes is consumed whole and gives the text back. *)
Lemma unquote_quote is_print s : PrintTable is_print → unquote (Quote is_print s) = Some (s, "").
Proof.
  intros Hp. set (l := runes s).
  assert (Forall (λ x, reads_back (quote_rune is_print x) x) l) as Hr.
  { apply Forall_forall. intros x. by apply quote_reads_back. }
  pose proof (quote_shapes is_print s) as Hs. fold l in Hs.
  assert (cat l.*2 = s) as Hcat by apply runes_concat.
  unfold Quote. change (foldr String.append "") with cat. fold l. set (rest := cat _ +:+ _).
  cbn [unquote]. destruct (index_byte_end dquote (cat (quote_rune is_print <$> l))) as [i Ei]. fold rest in Ei.
  rewrite Ei. change (Ascii.eqb dquote backquote) with false. change (Ascii.eqb dquote dquote || _) with true. cbv iota zeta.
  destruct (_ && _) eqn:Epl.
  - apply andb_true_iff in Epl as [[Hb _]%andb_true_iff _]. apply negb_true_iff in Hb.
    destruct (quote_plain is_print l i Hs Ei Hb) as [E1 E2]. fold rest in E1, E2. by rewrite E1, E2, Hcat.
  - unfold rest. rewrite unquote_chunks; [by rewrite <- Hcat|done|].
    pose proof (quoted_length is_print l Hr). cbn [String.length]. rewrite append_length. simpl. lia.
Qed.

(** C40: Unquoting inverts quoting: for every byte string, invalid UTF-8
    included, the literal [Quote] writes is read back by [Unquote], and so by
    [ParseStringValue], as the same bytes. *)
Theorem quote_unquote_roundtrip is_print s :
  PrintTable is_print → ParseStringValue (Quote is_print s) = Some s.
Proof. intros Hp. unfold ParseStringValue, Unquote. by rewrite unquote_quote. Qed.

Definition ascii_print (r : N) : bool := between 32 126 r.
#[global] Instance ascii_print_table : PrintTable ascii_print.
Proof. done. Qed.

Lemma quote_unquote_roundtrip_witness :
  PrintTable ascii_print ∧
  ParseStringValue (Quote ascii_print (String newline (String "200" "é"))) = Some (String newline (String "200" "é")).
Proof. split; [exact ascii_print_table|]. exact (quote_unquote_roundtrip _ _ ascii_print_table). Defined.

Lemma raw_quote_roundtrip s q : RawQuote s = Some q → ParseStringValue q = Some s.
Proof.
  unfold RawQuote. destruct (str_has backquote s || str_has "013" s) eqn:E; [done|]. apply orb_false_iff in E as [Hq Hr].
  intros [= <-]. unfold ParseStringValue, Unquote. cbn [unquote]. rewrite index_byte_append by done.
  cbn [index_byte]. rewrite Ascii.eqb_refl. cbn [fmap option_fmap option_map]. rewrite Nat.add_0_r, str_take_app.
  replace (S (String.length s)) with (String.length s + 1) by lia. rewrite str_drop_app_add. cbn.
  assert (str_filter (λ a, negb (Ascii.eqb a "013")) s = s) as ->; [|done].
  clear Hq. unfold str_has in Hr. apply negb_false_iff in Hr. induction s as [|a s IH]; [done|]. simpl in *.
  apply andb_true_iff in Hr as [-> Hs]. by rewrite IH.
Qed.

(** ** Struct tags *)

Lemma quote_span_app f s : (span f s).1 +:+ (span f s).2 = s.
Proof. induction s as [|a s IH]; [done|]. simpl. destruct (f a); [|done]. destruct (span f s). simpl in *. by f_equal. Qed.

Lemma quote_span_all f s : str_all f (span f s).1 = true.
Proof. induction s as [|a s IH]; [done|]. simpl. destruct (f a) eqn:E; [|done]. destruct (span f s). simpl in *. by rewrite E. Qed.

Lemma span_cut u name rest :
  span key_byte u = (name, String ":" rest) → cut_byte u ":" = (name, rest, true).
Proof.
  intros E. pose proof (quote_span_app key_byte u) as Ha. pose proof (quote_span_all key_byte u) as Hk. rewrite E in Ha, Hk. simpl in *.
  assert (str_has ":" name = false) as Hn.
  { unfold str_has. apply negb_false_iff. clear -Hk. induction name as [|a s IH]; [done|]. simpl in *.
    apply andb_true_iff in Hk as [Ha Hs]. rewrite IH by done. rewrite andb_true_r. unfold key_byte in Ha.
    rewrite !andb_true_iff in Ha. tauto. }
  unfold cut_byte. rewrite <- Ha, index_byte_append by done. cbn [index_byte]. rewrite Ascii.eqb_refl.
  cbn [fmap option_fmap option_map]. rewrite Nat.add_0_r, str_take_app.
  replace (S (String.length name)) with (String.length name + 1) by lia. rewrite str_drop_app_add. by destruct rest.
Qed.

Lemma lookup_in_keys fuel key tag v : lookup_loop fuel key tag = Some v → key ∈ tagKeys_loop fuel tag.
Proof.
  revert tag. induction fuel as [|fuel IH]; intros tag; [done|]. cbn [lookup_loop tagKeys_loop].
  destruct (String.eqb tag ""); [done|].
  destruct (span key_byte (trim_left is_space_byte tag)) as [name rest] eqn:Es.
  destruct (String.eqb_spec name "") as [|Hn]; [done|]. destruct rest as [|c1 [|c2 rest]]; try done.
  destruct (Ascii.eqb_spec c1 ":") as [->|]; [|done]. destruct (Ascii.eqb_spec c2 dquote) as [->|]; [|done]. cbn [andb].
  rewrite (span_cut _ _ _ Es). cbn [negb orb]. destruct (String.eqb_spec name ""); [done|].
  change (cutQuoted (String dquote rest)) with (close_quote dquote rest).
  destruct (close_quote dquote rest) as [[w rest']|]; [|done].
  destruct (String.eqb_spec key name) as [->|]; [by left|]. intros Hl. right. by apply IH.
Qed.

Lemma parse_fold tag keys (m : gmap string string) k :
  fold_left (λ out key, match Lookup tag key with Some v => <[key := v]> out | None => out end) keys m !! k =
    match (if decide (k ∈ keys) then Lookup tag k else None) with Some v => Some v | None => m !! k end.
Proof.
  revert m. induction keys as [|x keys IH]; intros m; [done|]. cbn [fold_left]. rewrite IH.
  destruct (decide (k ∈ keys)) as [Hk|Hk].
  - rewrite decide_True by by right. destruct (Lookup tag k) eqn:E; [done|]. destruct (Lookup tag x) eqn:Ex; [|done].
    rewrite lookup_insert_ne; [done|]. congruence.
  - destruct (decide (k = x)) as [->|Hx].
    + rewrite decide_True by by left. destruct (Lookup tag x); [|done]. by rewrite lookup_insert_eq.
    + rewrite decide_False by (rewrite elem_of_cons; tauto). destruct (Lookup tag x); [|done]. by rewrite lookup_insert_ne.
Qed.

(** The map [ParseTag] reads from a struct tag answers every key as a
    lookup in the tag does, for every text, malformed tags included: no
    declared key is missed and none is made up. *)
Theorem parse_tag_agrees_with_lookup raw key : ParseTag raw !! key = TagValue raw key.
Proof.
  unfold ParseTag, TagValue. rewrite parse_fold, lookup_empty. destruct (decide _) as [Hk|Hk].
  - by destruct (Lookup _ _).
  - destruct (Lookup (trim_backquotes raw) key) as [v|] eqn:E; [|done]. by destruct Hk; eapply lookup_in_keys.
Qed.

(** ** Quoted values are well formed *)

Definition transparent (q : string) : Prop :=
  ∀ t, close_quote dquote (q +:+ t) = ('(v, rest) ← close_quote dquote t; Some (q +:+ v, rest)).

Lemma transparent_app p q : transparent p → transparent q → transparent (p +:+ q).
Proof.
  intros Hp Hq t. rewrite <- append_assoc, Hp, Hq. destruct (close_quote dquote t) as [[v r]|]; [|done]. simpl.
  by rewrite append_assoc.
Qed.

Lemma transparent_plain q : str_has dquote q = false → str_has backslash q = false → transparent q.
Proof.
  unfold str_has. rewrite !negb_false_iff. intros Hd Hb t. induction q as [|a q IH]; simpl in *.
  { by destruct (close_quote dquote t) as [[]|]. }
  apply andb_true_iff in Hd as [Ha Hd], Hb as [Ha' Hb]. apply negb_true_iff in Ha, Ha'. rewrite Ha, Ha', IH by done.
  by destruct (close_quote dquote t) as [[]|].
Qed.

Lemma transparent_escape c q : transparent q → transparent (String backslash (String c q)).
Proof. intros Hq t. simpl. rewrite Hq. by destruct (close_quote dquote t) as [[]|]. Qed.

Lemma quoted_transparent is_print s : transparent (cat (quote_rune is_print <$> runes s)).
Proof.
  pose proof (quote_shapes is_print s) as Hs. induction Hs as [|x l Hx _ IH]; [by apply transparent_plain|].
  rewrite fmap_cons. apply (transparent_app (quote_rune is_print x)); [|done].
  destruct Hx as [(c & q & -> & Hd & Hb)|(-> & Hd & Hb)]; [|by apply transparent_plain].
  by apply transparent_escape, transparent_plain.
Qed.

Lemma close_quote_rest q s v rest : close_quote q s = Some (v, rest) → String.length rest < String.length s.
Proof.
  revert s v rest. fix IH 1. intros [|c s] v rest; [done|]. simpl. destruct (Ascii.eqb c backslash).
  - destruct s as [|d s]; [done|]. destruct (close_quote q s) as [[v' r']|] eqn:E; [|done]. simpl.
    intros [= _ <-]. apply IH in E. lia.
  - destruct (Ascii.eqb c q); [intros [= _ <-]; lia|].
    destruct (close_quote q s) as [[v' r']|] eqn:E; [|done]. simpl. intros [= _ <-]. apply IH in E. lia.
Qed.

(** More fuel than bytes changes nothing. *)
Lemma checkQuoting_fuel f g s :
  String.length s ≤ f → String.length s ≤ g → checkQuoting_loop f s = checkQuoting_loop g s.
Proof.
  revert g s. induction f as [|f IH]; intros [|g] [|c s] Hf Hg; simpl in Hf, Hg; try lia; try done.
  cbn [checkQuoting_loop]. destruct (Ascii.eqb c backquote).
  - unfold scanRaw. destruct (index_byte s backquote) as [i|]; [|done]. apply IH; rewrite str_drop_length; lia.
  - destruct (_ || _); [|apply IH; lia]. unfold scanEscaped.
    destruct (close_quote c s) as [[v rest]|] eqn:E; [|done]. apply close_quote_rest in E. apply IH; simpl; lia.
Qed.

Lemma checkQuoting_quoted is_print s t :
  checkQuoting_loop (String.length (Quote is_print s +:+ t)) (Quote is_print s +:+ t) =
  checkQuoting_loop (String.length t) t.
Proof.
  unfold Quote. change (foldr String.append "") with cat. set (B := cat _).
  change (String dquote (B +:+ String dquote "") +:+ t) with (String dquote ((B +:+ String dquote "") +:+ t)).
  cbn [String.length checkQuoting_loop]. change (Ascii.eqb dquote backquote) with false.
  change (Ascii.eqb dquote dquote || _) with true. cbv iota. unfold scanEscaped. rewrite <- append_assoc.
  rewrite (quoted_transparent is_print s). cbn. apply checkQuoting_fuel; rewrite ?append_length; simpl; lia.
Qed.

Lemma suffix_last t a p : has_suffix (t +:+ String a "") p = true → p = "" ∨ has_suffix p (String a "") = true.
Proof.
  intros [u E]%has_suffix_spec. destruct (decide (p = "")) as [|Hp]; [by left|right].
  assert (0 < String.length p) as Hl by (destruct p; [done|simpl; lia]).
  apply has_suffix_spec. exists (str_take (String.length p - 1) p).
  rewrite <- (take_drop_app (String.length p - 1) p) in E. rewrite append_assoc in E.
  assert (String.length (str_drop (String.length p - 1) p) = 1) as H1 by (rewrite str_drop_length; lia).
  assert (str_drop (String.length p - 1) p = String a "") as Ha.
  { apply append_inj_len in E as [_ E]; [done|]. apply (f_equal String.length) in E.
    rewrite !append_length in E. rewrite H1 in E. rewrite append_length. simpl in E. lia. }
  rewrite <- Ha. by rewrite take_drop_app.
Qed.

Lemma trim_space_keeps u : trim_space (String dquote (u +:+ String dquote "")) ≠ "".
Proof.
  unfold trim_space. assert (∀ n, trim_space_left n (String dquote (u +:+ String dquote "")) = String dquote (u +:+ String dquote "")) as ->.
  { intros [|n]; reflexivity. }
  assert (∀ n, trim_space_right n (String dquote (u +:+ String dquote "")) = String dquote (u +:+ String dquote "")) as ->; [|done].
  intros [|n]; [done|]. cbn [trim_space_right]. rewrite filter_none; [done|]. intros p Hp Hs.
  assert (Forall (λ p, p ≠ "" ∧ has_suffix p (String dquote "") = false) space_runes) as Hf.
  { refine (bool_decide_unpack _ _). vm_compute. exact I. }
  rewrite Forall_forall in Hf. destruct (Hf p Hp) as [Hne Hn].
  change (String dquote (u +:+ String dquote "")) with (String dquote u +:+ String dquote "") in Hs.
  apply suffix_last in Hs as [|Hs]; congruence.
Qed.

(** A quoted value passes the check on author-written literals, whatever
    bytes it holds, and so does every value that continues with one: quoting
    always closes what it opens. *)
Theorem quoted_values_are_well_formed is_print s :
  IsWellFormedLiteral (Quote is_print s) = None ∧
  ∀ t, checkQuoting_loop (String.length (Quote is_print s +:+ t)) (Quote is_print s +:+ t) =
       checkQuoting_loop (String.length t) t.
Proof.
  split; [|apply checkQuoting_quoted]. unfold IsWellFormedLiteral, checkQuoting. change (String.eqb (Quote is_print s) "") with false.
  cbv iota. destruct (String.eqb_spec (trim_space (Quote is_print s)) "") as [E|].
  - exfalso. revert E. unfold Quote. apply trim_space_keeps.
  - pose proof (checkQuoting_quoted is_print s "") as Hc. rewrite append_nil_r in Hc. rewrite Hc. done.
Qed.
