(* ===== verification/GoTypes.v ===== *)
(** * lang/golang: reading types and signatures

    The queries of [src/lang/golang] over source types: [accessors.go] (facts
    the frontend stamped as metadata), [query.go], [golang.go], [generics.go],
    [signature.go] and [sigshape.go] (well-known method shapes).

    A nil reference is [None].  Metadata is read from the heap of bags by the
    pointer of the node.  A typed read panics only on a bag that was not
    written through typed keys, which [MetaLaws] excludes; here such a read is
    the zero value. *)

From S2P Require Import Prelude GoStrings Unicode Imports Naming Meta Node NodeQueries TypeRefEqual Emit EmitCtors GoIdents GoQuote.

Local Open Scope string_scope.
Local Open Scope nat_scope.
Local Open Scope list_scope.

(** ** [meta.go], [accessors.go] *)

Definition bool_key (name : string) : Key := MkKey name TBool BoolParser.
Definition string_key (name : string) : Key := MkKey name TString StringParser.
Definition int_key (name : string) : Key := MkKey name TInt IntParser.

Definition MetaIsChannel : Key := bool_key "go.isChannel".
Definition MetaChanDir : Key := string_key "go.chanDir".
Definition MetaChanElem : Key := string_key "go.chanElem".
Definition MetaIsContext : Key := bool_key "go.isContext".
Definition MetaIsError : Key := bool_key "go.isError".
Definition MetaIsStringer : Key := bool_key "go.isStringer".
Definition MetaIsComparable : Key := bool_key "go.isComparable".
Definition MetaIsInterface : Key := bool_key "go.isInterface".
Definition MetaEmbedsInterface : Key := bool_key "go.embedsInterface".
Definition MetaIsEmptyInterface : Key := bool_key "go.isEmptyInterface".
Definition MetaIsConstraintInterface : Key := bool_key "go.isConstraintInterface".
Definition MetaUnderlyingKind : Key := string_key "go.underlyingKind".
Definition MetaIsIterSeq : Key := bool_key "go.isIterSeq".
Definition MetaIsIterSeq2 : Key := bool_key "go.isIterSeq2".
Definition MetaIterKeyType : Key := string_key "go.iterKeyType".
Definition MetaIterValueType : Key := string_key "go.iterValueType".
Definition MetaIotaValue : Key := int_key "go.iotaValue".
Definition MetaReceiverIsPointer : Key := bool_key "go.receiverIsPointer".
Definition MetaGoType : Key := string_key "go.type".
Definition MetaGoName : Key := string_key "go.name".
Definition MetaGoImport : Key := string_key "go.import".
Definition MetaTagPrefix : string := "go.tag.".

Inductive ChanDirection := ChanBoth | ChanSend | ChanRecv | ChanOther (s : string).
Definition chan_direction (s : string) : ChanDirection :=
  if String.eqb s "both" then ChanBoth else if String.eqb s "send" then ChanSend
  else if String.eqb s "recv" then ChanRecv else ChanOther s.

Inductive Iterator := NotIterator | SeqIterator | Seq2Iterator.
#[export] Instance Iterator_eq_dec : EqDecision Iterator.
Proof. solve_decision. Defined.

Section Types.
  Context (h : metas).

(** [bagOf] of a node that may be nil. *)
Definition bagOf (b : option BaseNode) : option Bag := b ≫= λ b, h !! ref b.

Definition readBool (b : option BaseNode) (k : Key) : bool :=
  match Get k (bagOf b) with Returns (Some (VBool v)) => v | _ => false end.
Definition read_string (b : option BaseNode) (k : Key) : option string :=
  match Get k (bagOf b) with Returns (Some (VString v)) => Some v | _ => None end.
Definition readString (b : option BaseNode) (k : Key) : string := default "" (read_string b k).

Abbreviation tbase t := (t_base <$> t).

Definition IsBuiltinNamed (t : option TypeRef) (want : string) : bool :=
  match t with Some t => IsBuiltin t && String.eqb (t_Name t) want | None => false end.

Definition IsError (t : option TypeRef) : bool :=
  readBool (tbase t) MetaIsError || IsBuiltinNamed t "error".
Definition IsContext (t : option TypeRef) : bool :=
  readBool (tbase t) MetaIsContext ||
  match t with Some t => String.eqb (t_Name t) "Context" && String.eqb (t_Package t) "context" | None => false end.
Definition IsStringer (t : option TypeRef) : bool := readBool (tbase t) MetaIsStringer.
Definition IsComparable (t : option TypeRef) : bool := readBool (tbase t) MetaIsComparable.
Definition IsInterface (t : option TypeRef) : bool := readBool (tbase t) MetaIsInterface.
Definition EmbedsInterface (s : option Struct) : bool := readBool (s_base <$> s) MetaEmbedsInterface.
Definition IsEmptyInterface (i : option Interface) : bool := readBool (i_base <$> i) MetaIsEmptyInterface.
Definition RefIsEmptyInterface (t : option TypeRef) : bool :=
  match t with
  | None => false
  | Some t =>
      match t_TypeKind t with
      | TypeRefAnonInterface => (length (t_Methods t) =? 0) && (length (t_Embeds t) =? 0)
      | TypeRefNamed => String.eqb (t_Package t) "" && String.eqb (t_Name t) typeAny
      | _ => false
      end
  end.
Definition IsConstraintInterface (i : option Interface) : bool :=
  readBool (i_base <$> i) MetaIsConstraintInterface.
Definition ReceiverIsPointer (m : option Method) : bool := readBool (m_base <$> m) MetaReceiverIsPointer.
Definition UnderlyingKind (a : option Alias) : string := readString (a_base <$> a) MetaUnderlyingKind.
Definition IotaValue (b : option BaseNode) : option Z :=
  match Get MetaIotaValue (bagOf b) with Returns (Some (VInt z)) => Some z | _ => None end.

Definition IsChannel (t : option TypeRef) : bool := readBool (tbase t) MetaIsChannel.
Definition ChanDir (t : option TypeRef) : ChanDirection := chan_direction (readString (tbase t) MetaChanDir).
Definition IsBidirectionalChan (t : option TypeRef) : bool :=
  IsChannel t && match ChanDir t with ChanBoth => true | _ => false end.
Definition ChanElem (t : option TypeRef) : option TypeRef :=
  if negb (IsChannel t) then None else t ≫= λ t, head (t_TypeArgs t).
Definition IteratorOf (f : option Function_) : Iterator :=
  if readBool (fn_base <$> f) MetaIsIterSeq2 then Seq2Iterator
  else if readBool (fn_base <$> f) MetaIsIterSeq then SeqIterator else NotIterator.
Definition IterKeyType (f : option Function_) : string := readString (fn_base <$> f) MetaIterKeyType.
Definition IterValueType (f : option Function_) : string := readString (fn_base <$> f) MetaIterValueType.
Definition GoType (t : option TypeRef) : option string := read_string (tbase t) MetaGoType.
Definition GoName (b : option BaseNode) : option string := read_string b MetaGoName.
Definition GoImport (p : option Package) : option string := read_string (p_base <$> p) MetaGoImport.

(** A tag an annotator stamped wins over the one the source wrote. *)
Definition Tag (f : option Field) (name : string) : option string :=
  if String.eqb name "" then None
  else match read_string (f_base <$> f) (string_key (MetaTagPrefix +:+ name)) with
       | Some v => Some v
       | None => f ≫= λ f, TagValue (f_Tag f) name
       end.

Definition Tags (f : option Field) : gmap string string :=
  let bag := bagOf (f_base <$> f) in
  fold_left (λ out name,
    if has_prefix name MetaTagPrefix then
      match RawValue bag name with
      | Some (Some (VString v)) => <[trim_prefix name MetaTagPrefix := v]> out
      | _ => out
      end
    else out) (Names bag) ∅.

(** ** [query.go] *)

Definition Callable (n : Node) : list Param * list Return :=
  match n with
  | NFunction f => (fn_Params f, fn_Returns f)
  | NMethod m => (m_Params m, m_Returns m)
  | _ => ([], [])
  end.
Definition ReceiverOf (n : Node) : option TypeRef :=
  match n with NMethod m => m_Receiver m | _ => None end.
Definition IsInterfaceMethod (m : option Method) : bool :=
  match m with Some m => match m_Receiver m with None => true | _ => false end | None => false end.

Definition HasContext (params : list Param) : bool :=
  match params with p :: _ => IsContext (pa_Type p) | [] => false end.
Definition ContextParam (params : list Param) : option Param :=
  if negb (HasContext params) then None else head params.
Definition StripContext (params : list Param) : list Param :=
  if negb (HasContext params) then params else tail params.

Definition TrailingVariadic (params : list Param) : option Param :=
  match last params with Some p => if pa_Variadic p then Some p else None | None => None end.
Definition StripVariadic (params : list Param) : list Param :=
  match TrailingVariadic params with None => params | Some _ => removelast params end.

(** [ErrorSlot] ([signature.go]): the first error, as an index. *)
Fixpoint error_slot_from (i : nat) (returns : list Return) : option nat :=
  match returns with
  | [] => None
  | r :: returns => if IsError (re_Type r) then Some i else error_slot_from (S i) returns
  end.
Definition ErrorSlot (returns : list Return) : option nat := error_slot_from 0 returns.
Definition ReturnsError (returns : list Return) : bool :=
  match ErrorSlot returns with Some _ => true | None => false end.
Definition ErrorReturn (returns : list Return) : option Return :=
  i ← ErrorSlot returns; returns !! i.
Definition HasError (returns : list Return) : bool :=
  match ErrorSlot returns with Some _ => true | None => false end.
Definition StripError (returns : list Return) : list Return :=
  match ErrorSlot returns with
  | None => returns
  | Some i => take i returns ++ drop (S i) returns
  end.
Definition StripErrorTypes (returns : list Return) : list (option TypeRef) := ReturnTypes (StripError returns).

Definition PointerElem (t : option TypeRef) : option TypeRef :=
  t ≫= λ t, if IsPointer t then t_Elem t else None.
Definition SliceElem (t : option TypeRef) : option TypeRef :=
  t ≫= λ t, if IsSlice t then t_Elem t else None.
Definition ArrayElem (t : option TypeRef) : option TypeRef * Z :=
  match t with Some t => if IsArray t then (t_Elem t, t_ArrayLen t) else (None, 0%Z) | None => (None, 0%Z) end.
Definition MapKey (t : option TypeRef) : option TypeRef :=
  t ≫= λ t, if IsMap t then t_MapKey t else None.
Definition MapValue (t : option TypeRef) : option TypeRef :=
  t ≫= λ t, if IsMap t then t_MapValue t else None.
Definition FuncSignature (t : option TypeRef) : list TypeRef * list TypeRef :=
  match t with Some t => if IsFunc t then (t_FuncParams t, t_FuncReturns t) else ([], []) | None => ([], []) end.

(** The pointee at the end of a chain of pointers. *)
Fixpoint deref_ref (t : TypeRef) : option TypeRef :=
  if IsPointer t then match t_Elem t with Some e => deref_ref e | None => None end else Some t.
Definition Deref (t : option TypeRef) : option TypeRef := t ≫= deref_ref.

Definition IteratorOfType (t : option TypeRef) : Iterator :=
  match t with
  | None => NotIterator
  | Some t =>
      if negb (String.eqb (t_Package t) "iter") then NotIterator
      else if String.eqb (t_Name t) "Seq" && (length (t_TypeArgs t) =? 1) then SeqIterator
      else if String.eqb (t_Name t) "Seq2" && (length (t_TypeArgs t) =? 2) then Seq2Iterator
      else NotIterator
  end.
Definition IteratorElem (t : option TypeRef) : option TypeRef :=
  match IteratorOfType t with NotIterator => None | _ => t ≫= λ t, t_TypeArgs t !! 0 end.
Definition IteratorSecond (t : option TypeRef) : option TypeRef :=
  match IteratorOfType t with Seq2Iterator => t ≫= λ t, t_TypeArgs t !! 1 | _ => None end.
Definition IteratorYieldsError (t : option TypeRef) : bool :=
  match IteratorOfType t with Seq2Iterator => IsError (t ≫= λ t, t_TypeArgs t !! 1) | _ => false end.

Definition IsBool (t : option TypeRef) : bool := IsBuiltinNamed t typeBool.
Definition IsString (t : option TypeRef) : bool := IsBuiltinNamed t typeString.

Definition integerBuiltins : list string :=
  [typeInt; typeInt8; typeInt16; typeInt32; typeInt64; typeUint; typeUint8; typeUint16; typeUint32; typeUint64;
   typeUintptr; typeByte; typeRune].
Definition IsInteger (t : option TypeRef) : bool :=
  match t with Some t => IsBuiltin t && bool_decide (t_Name t ∈ integerBuiltins) | None => false end.
Definition IsFloat (t : option TypeRef) : bool := IsBuiltinNamed t typeFloat32 || IsBuiltinNamed t typeFloat64.
Definition IsComplex (t : option TypeRef) : bool := IsBuiltinNamed t typeComplex64 || IsBuiltinNamed t typeComplex128.
Definition IsNumeric (t : option TypeRef) : bool := IsInteger t || IsFloat t || IsComplex t.

Definition IsAny (t : option TypeRef) : bool :=
  IsBuiltinNamed t typeAny ||
  match t with
  | Some t => IsAnonInterface t && (length (t_Methods t) =? 0) && (length (t_Embeds t) =? 0)
  | None => false
  end.
Definition IsBlank (name : string) : bool := String.eqb name "_".

Definition Nilable (t : option TypeRef) : bool :=
  match t with
  | None => false
  | Some r =>
      IsPointer r || NodeQueries.IsSlice r || IsMap r || IsFunc r || IsAnonInterface r ||
      IsChannel t || IsBuiltinNamed t typeError || IsAny t || IsInterface t
  end.

Definition Keyable (t : option TypeRef) : bool :=
  match t with
  | None => false
  | Some r => negb (NodeQueries.IsSlice r || IsMap r || IsFunc r || IsAnonInterface r)
  end.

(** [numeric.go] *)
Definition FormatVerb (t : option TypeRef) : string :=
  if IsString t then "%q" else if IsBool t then "%t" else if IsFloat t then "%g"
  else if IsInteger t then "%d" else "%v".

End Types.
