(* ===== verification/GoSignatures.v ===== *)
(** * lang/golang: signatures and well-known shapes

    [src/lang/golang/sigshape.go] and the parts of [golang.go],
    [signature.go] and [generics.go] about parameters, results and type
    parameters. *)

From S2P Require Import Prelude GoStrings Meta Unicode Imports Node NodeQueries TypeRefEqual Naming NamingLaws GoIdents GoTypes.

Local Open Scope string_scope.
Local Open Scope nat_scope.
Local Open Scope list_scope.

Section Signatures.
  Context (h : metas).

Abbreviation IsError := (GoTypes.IsError h).

(** ** [golang.go] *)

Definition IsExported (name : string) : bool :=
  match name with EmptyString => false | String c _ => byte_in "A" "Z" c end.
Definition ExportedFields (s : Struct) : list Field :=
  filter (λ f, IsExported (f_Name f) = true) (s_Fields s).
Definition IsByte (t : option TypeRef) : bool :=
  match t with
  | Some t => IsBuiltin t && (String.eqb (t_Name t) typeByte || String.eqb (t_Name t) typeUint8)
  | None => false
  end.
Definition IsByteSlice (t : option TypeRef) : bool :=
  match t with Some t => NodeQueries.IsSlice t && IsByte (t_Elem t) | None => false end.
Definition IsSlice (t : option TypeRef) : bool :=
  match t with Some r => NodeQueries.IsSlice r && negb (IsByteSlice t) | None => false end.
Definition IsMap (t : option TypeRef) : bool :=
  match t with Some t => NodeQueries.IsMap t | None => false end.
Definition IsEmptyStruct (t : option TypeRef) : bool :=
  match t with
  | Some t => IsAnonStruct t && (length (t_Fields t) =? 0) && (length (t_Embeds t) =? 0)
  | None => false
  end.
Definition IsVariadic (p : option Param) : bool := match p with Some p => pa_Variadic p | None => false end.
Definition Instantiation (args : list string) : string :=
  match args with [] => "" | _ => "[" +:+ str_join ", " args +:+ "]" end.

(** ** [generics.go] *)

Definition TypeParamsOf (n : Node) : list TypeParam :=
  match n with
  | NStruct s => s_TypeParams s
  | NInterface i => i_TypeParams i
  | NFunction f => fn_TypeParams f
  | NMethod m => m_TypeParams m
  | NAlias a => a_TypeParams a
  | _ => []
  end.
Definition IsGeneric (n : Node) : bool := 0 <? length (TypeParamsOf n).
Definition TypeParamNames (params : list TypeParam) : string := Instantiation (tp_Name <$> params).

(** ** [sigshape.go] *)

Definition anyVariadic (params : list Param) : bool := existsb pa_Variadic params.
Definition named (m : option Method) (name : string) : bool :=
  match m with Some m => String.eqb (m_Name m) name | None => false end.
Definition arity (m : option Method) (params returns : nat) : bool :=
  match m with
  | Some m => (length (m_Params m) =? params) && (length (m_Returns m) =? returns) && negb (anyVariadic (m_Params m))
  | None => false
  end.
Definition paramType (m : option Method) (i : nat) : option TypeRef :=
  m ≫= λ m, (m_Params m !! i) ≫= pa_Type.
Definition returnType (m : option Method) (i : nat) : option TypeRef :=
  m ≫= λ m, (m_Returns m !! i) ≫= re_Type.
Definition anyMethod (methods : list Method) (pred : option Method → bool) : bool :=
  existsb (λ m, pred (Some m)) methods.
Definition isQualified (t : option TypeRef) (pkg name : string) : bool :=
  match t with Some t => String.eqb (t_Package t) pkg && String.eqb (t_Name t) name | None => false end.

Definition ReturnsOnly (m : option Method) (typeName : string) : bool :=
  arity m 0 1 && IsBuiltinNamed (returnType m 0) typeName.

Definition all_named (get : nat → option TypeRef) (want : list string) : bool :=
  forallb (λ '(i, w), IsBuiltinNamed (get i) w) (imap pair want).
Definition SignatureMatches (m : option Method) (params returns : list string) : bool :=
  match m with
  | None => false
  | Some m' =>
      (length (m_Params m') =? length params) && (length (m_Returns m') =? length returns) &&
      negb (anyVariadic (m_Params m')) && all_named (paramType m) params && all_named (returnType m) returns
  end.

Definition IsByteSliceAny (t : option TypeRef) : bool := IsByteSlice t.
Definition byteCountErr (m : option Method) : bool :=
  arity m 1 2 && IsByteSliceAny (paramType m 0) && IsBuiltinNamed (returnType m 0) typeInt && IsError (returnType m 1).
Definition bytesErr (m : option Method) : bool :=
  arity m 0 2 && IsByteSliceAny (returnType m 0) && IsError (returnType m 1).
Definition bytesInErr (m : option Method) : bool :=
  arity m 1 1 && IsByteSliceAny (paramType m 0) && IsError (returnType m 0).

Definition MethodError : string := "Error".
Definition MethodUnwrap : string := "Unwrap".
Definition MethodIs : string := "Is".
Definition MethodAs : string := "As".
Definition MethodString : string := "String".
Definition MethodWrite : string := "Write".
Definition MethodRead : string := "Read".
Definition MethodClose : string := "Close".
Definition MethodMarshalText : string := "MarshalText".
Definition MethodUnmarshalText : string := "UnmarshalText".
Definition MethodMarshalJSON : string := "MarshalJSON".
Definition MethodUnmarshalJSON : string := "UnmarshalJSON".
Definition MethodMarshalBinary : string := "MarshalBinary".
Definition MethodUnmarshalBinary : string := "UnmarshalBinary".
Definition MethodGobEncode : string := "GobEncode".
Definition MethodGobDecode : string := "GobDecode".
Definition MethodScan : string := "Scan".
Definition MethodValue : string := "Value".
Definition MethodLen : string := "Len".
Definition MethodLess : string := "Less".
Definition MethodSwap : string := "Swap".
Definition MethodEqual : string := "Equal".
Definition MethodCompare : string := "Compare".
Definition MethodClone : string := "Clone".
Definition MethodReset : string := "Reset".
Definition MethodValidate : string := "Validate".

Definition IsErrorMethod (m : option Method) : bool :=
  named m MethodError && arity m 0 1 && IsString (returnType m 0).
Definition IsUnwrapMethod (m : option Method) : bool :=
  named m MethodUnwrap && arity m 0 1 &&
  (IsError (returnType m 0) || IsError (SliceElem (returnType m 0))).
Definition IsIsMethod (m : option Method) : bool :=
  named m MethodIs && arity m 1 1 && IsError (paramType m 0) && IsBool (returnType m 0).
Definition IsAsMethod (m : option Method) : bool :=
  named m MethodAs && arity m 1 1 && IsAny (paramType m 0) && IsBool (returnType m 0).
Definition IsStringMethod (m : option Method) : bool :=
  named m MethodString && arity m 0 1 && IsString (returnType m 0).
Definition IsWriteMethod (m : option Method) : bool := named m MethodWrite && byteCountErr m.
Definition IsReadMethod (m : option Method) : bool := named m MethodRead && byteCountErr m.
Definition IsCloseMethod (m : option Method) : bool :=
  named m MethodClose && arity m 0 1 && IsError (returnType m 0).
Definition IsMarshalText (m : option Method) : bool := named m MethodMarshalText && bytesErr m.
Definition IsUnmarshalText (m : option Method) : bool := named m MethodUnmarshalText && bytesInErr m.
Definition IsMarshalJSON (m : option Method) : bool := named m MethodMarshalJSON && bytesErr m.
Definition IsUnmarshalJSON (m : option Method) : bool := named m MethodUnmarshalJSON && bytesInErr m.
Definition IsMarshalBinary (m : option Method) : bool := named m MethodMarshalBinary && bytesErr m.
Definition IsUnmarshalBinary (m : option Method) : bool := named m MethodUnmarshalBinary && bytesInErr m.
Definition IsGobEncode (m : option Method) : bool := named m MethodGobEncode && bytesErr m.
Definition IsGobDecode (m : option Method) : bool := named m MethodGobDecode && bytesInErr m.
Definition IsScanMethod (m : option Method) : bool :=
  named m MethodScan && arity m 1 1 && IsAny (paramType m 0) && IsError (returnType m 0).
Definition IsValuerMethod (m : option Method) : bool :=
  named m MethodValue && arity m 0 2 &&
  isQualified (returnType m 0) "database/sql/driver" "Value" && IsError (returnType m 1).
Definition IsLenMethod (m : option Method) : bool :=
  named m MethodLen && arity m 0 1 && IsBuiltinNamed (returnType m 0) typeInt.
Definition IsLessMethod (m : option Method) : bool :=
  named m MethodLess && SignatureMatches m [typeInt; typeInt] [typeBool].
Definition IsSwapMethod (m : option Method) : bool :=
  named m MethodSwap && SignatureMatches m [typeInt; typeInt] [].
Definition ImplementsSorter (methods : list Method) : bool :=
  anyMethod methods IsLenMethod && anyMethod methods IsLessMethod && anyMethod methods IsSwapMethod.
Definition IsEqualMethod (m : option Method) : bool :=
  named m MethodEqual && arity m 1 1 && IsBool (returnType m 0).
Definition IsCompareMethod (m : option Method) : bool :=
  named m MethodCompare && arity m 1 1 && IsBuiltinNamed (returnType m 0) typeInt.
Definition IsCloneMethod (m : option Method) : bool := named m MethodClone && arity m 0 1.
Definition IsResetMethod (m : option Method) : bool := named m MethodReset && arity m 0 0.
Definition IsValidateMethod (m : option Method) : bool := named m MethodValidate && ReturnsOnly m typeError.

Definition codec_pairs : list (string * (option Method → bool) * (option Method → bool)) :=
  [("text", IsMarshalText, IsUnmarshalText); ("json", IsMarshalJSON, IsUnmarshalJSON);
   ("binary", IsMarshalBinary, IsUnmarshalBinary); ("gob", IsGobEncode, IsGobDecode);
   ("sql", IsValuerMethod, IsScanMethod)].
Definition Codecs (methods : list Method) : list string :=
  omap (λ '(name, marshal, unmarsh),
    if anyMethod methods marshal && anyMethod methods unmarsh then Some name else None) codec_pairs.

Definition ImplementsError (methods : list Method) : bool := anyMethod methods IsErrorMethod.
Definition ImplementsStringer (methods : list Method) : bool := anyMethod methods IsStringMethod.
Definition ImplementsWriter (methods : list Method) : bool := anyMethod methods IsWriteMethod.
Definition ImplementsReader (methods : list Method) : bool := anyMethod methods IsReadMethod.

End Signatures.

(** ** [signature.go] *)

Section Params.
  Context `{UnicodeTables}.

Definition ParamIdent (name : string) (index : nat) : string :=
  if String.eqb name "" || String.eqb name "_" then "arg" +:+ itoa (Z.of_nat index) else SafeIdent name.

(** The names are made unique against the ones already chosen. *)
Fixpoint param_idents_loop (i : nat) (names out : list string) : option (list string) :=
  match names with
  | [] => Some out
  | name :: names => u ← UniqueIdent (ParamIdent name i) out; param_idents_loop (S i) names (out ++ [u])
  end.
Definition ParamIdentsFor (names : list string) : option (list string) := param_idents_loop 0 names [].
Definition ParamIdents (params : list Param) : option (list string) := ParamIdentsFor (pa_Name <$> params).

Fixpoint named_usable_loop (used : list string) (returns : list Return) : bool :=
  match returns with
  | [] => true
  | r :: returns =>
      if String.eqb (re_Name r) "" then false
      else if bool_decide (re_Name r ∈ used) then false
      else named_usable_loop (re_Name r :: used) returns
  end.
Definition NamedReturnsUsable (returns : list Return) (taken : list string) : bool :=
  match returns with [] => false | _ => named_usable_loop taken returns end.

End Params.

(** * lang/golang: parameter names are usable

    The names [ParamIdentsFor] derives for a parameter list can be written as
    one: they are identifiers, free of reserved words and distinct. *)

Section Params.
  Context `{UnicodeTables}.

Lemma param_idents_loop_spec i names out :
  NoDup out → Forall usable out → length out = i →
  ∃ res, param_idents_loop i names out = Some (out ++ res) ∧ length res = length names ∧
    NoDup (out ++ res) ∧ Forall usable (out ++ res) ∧
    ∀ j name, names !! j = Some name → SafeIdent (ParamIdent name (i + j)) ∉ out ++ take j res →
      res !! j = Some (SafeIdent (ParamIdent name (i + j))).
Proof.
  revert i out. induction names as [|name names IH]; intros i out Hn Hu Hl; cbn [param_idents_loop].
  { exists []. rewrite app_nil_r. by split_and!. }
  destruct (UniqueIdent_spec (ParamIdent name i) out) as (c & -> & Hc & Hout & Hkeep & _). simpl.
  destruct (IH (S i) (out ++ [c])) as (res & Er & Hlen & Hnd & Hus & Hk).
  { apply NoDup_app. split_and!; [done| |apply NoDup_singleton]. intros x Hx ->%list_elem_of_singleton. done. }
  { apply Forall_app. split; [done|]. by constructor. }
  { rewrite length_app. simpl. lia. }
  rewrite <- app_assoc in Er, Hnd, Hus. exists (c :: res). split_and!; [done|simpl; lia|done|done|].
  intros [|j] nm Hj; simpl in Hj |- *.
  - simplify_eq. rewrite app_nil_r, Nat.add_0_r. intros Hf. f_equal. by apply Hkeep.
  - replace (i + S j) with (S i + j) by lia. intros Hf. apply Hk; [done|]. by rewrite <- app_assoc.
Qed.

End Params.

(** [ParamIdentsFor] answers for every list of declared names, blank and
    repeated ones and reserved words included: one identifier per parameter,
    all different, none a keyword or a predeclared name; a parameter gets the
    safe form of its declared name unless an earlier one has taken it. *)
Theorem param_idents_are_usable `{UnicodeTables} names :
  ∃ out, ParamIdentsFor names = Some out ∧ length out = length names ∧ NoDup out ∧ Forall usable out ∧
    ∀ j name, names !! j = Some name → SafeIdent (ParamIdent name j) ∉ take j out →
      out !! j = Some (SafeIdent (ParamIdent name j)).
Proof.
  destruct (param_idents_loop_spec 0 names []) as (res & E & Hl & Hn & Hu & Hk);
    [constructor|constructor|done|]. exists res. split_and!; [exact E|done|exact Hn|exact Hu|exact Hk].
Qed.
