(* ===== verification/GoEmbed.v ===== *)
(** * lang/golang: embedding and promotion

    [src/lang/golang/embed.go] with the parts of [refs.go] it uses: the fields
    and methods a struct has through the types it embeds.

    A [Resolver] answers the declaration behind a reference, [None] when the
    run did not load it; the declaration may be a typed nil.  The walks stop
    at [maxEmbedDepth], so they recurse on the number of levels left; a walk
    over an interface is the one of [MethodSet] and carries its fuel.  A walk
    is [None] when it runs out of that fuel, and when it follows an embed that
    names a pointer to nothing, which the code dereferences. *)

From S2P Require Import Prelude GoStrings Position Directive FilePath Node NodeQueries MethodSet GoTypes GoSignatures.

Local Open Scope string_scope.
Local Open Scope nat_scope.
Local Open Scope list_scope.

(** ** [refs.go]: names *)

Definition QName (t : option TypeRef) : string :=
  match t with
  | None => ""
  | Some t => if String.eqb (t_Package t) "" then t_Name t else t_Package t +:+ "." +:+ t_Name t
  end.
Definition Display (t : option TypeRef) : string :=
  match t with
  | None => ""
  | Some t => if String.eqb (t_Package t) "" then t_Name t else Base (t_Package t) +:+ "." +:+ t_Name t
  end.
Definition MethodQName (ownerQName method : string) : string :=
  if String.eqb ownerQName "" then method else ownerQName +:+ "." +:+ method.
Definition LocalName (qualified : string) : string :=
  match last_index_byte qualified "." with Some i => str_drop (S i) qualified | None => qualified end.

(** ** [embed.go] *)

Definition maxEmbedDepth : nat := 8.

Inductive ResolveProblem := NoResolver | NotLoaded | GenericEmbed | TooDeep.

Record UnresolvedEmbed := MkUnresolved {
  ue_Host : string;
  ue_Embed : Embed;
  ue_Written : string;
  ue_Reason : ResolveProblem;
}.

Definition EmbedIdent (e : Embed) : string * bool :=
  match em_Type e with
  | None => ("", false)
  | Some t =>
      if IsPointer t then match t_Elem t with None => ("", false) | Some el => (t_Name el, true) end
      else (t_Name t, false)
  end.
Definition EmbedTarget (e : Embed) : option TypeRef := Deref (em_Type e).

Definition unresolved (host : string) (e : Embed) (reason : ResolveProblem) : UnresolvedEmbed :=
  MkUnresolved host e (Display (EmbedTarget e)) reason.

Abbreviation Resolver := (TypeRef → option (option Node)).

Definition with_package (t : TypeRef) (pkg : string) : TypeRef :=
  MkTypeRef (t_base t) (t_TypeKind t) pkg (t_Name t) (t_TypeArgs t) (t_Elem t) (t_ArrayLen t) (t_MapKey t)
    (t_MapValue t) (t_FuncParams t) (t_FuncReturns t) (t_Fields t) (t_Methods t) (t_Embeds t).

Definition resolveEmbed (e : Embed) (hostPkg : string) (r : option Resolver) : option (option Node) :=
  match EmbedTarget e, r with
  | Some target, Some r =>
      match r target with
      | Some decl => Some decl
      | None =>
          if negb (String.eqb (t_Package target) "") || String.eqb hostPkg "" then None
          else r (with_package target hostPkg)
      end
  | _, _ => None
  end.

(** [descend]: the declaration, or the problem to record; [None] is the nil
    dereference of an embed without target. *)
Definition descend (host hostPkg : string) (e : Embed) (depth : nat) (r : option Resolver)
    : option (UnresolvedEmbed + Node) :=
  if maxEmbedDepth <? depth + 1 then Some (inl (unresolved host e TooDeep))
  else match r with
  | None => Some (inl (unresolved host e NoResolver))
  | Some _ =>
      match EmbedTarget e with
      | None => None
      | Some target =>
          if 0 <? length (t_TypeArgs target) then Some (inl (unresolved host e GenericEmbed))
          else match resolveEmbed e hostPkg r with
               | Some (Some decl) => Some (inr decl)
               | _ => Some (inl (unresolved host e NotLoaded))
               end
      end
  end.

(** The [Field] of a promoted field: the declaration, or the field the walk
    makes up for an embed, which has a name and a type. *)
Inductive member := Declared (f : Field) | Embedded (name : string) (type : option TypeRef).
Definition member_Name (m : member) : string :=
  match m with Declared f => f_Name f | Embedded n _ => n end.
Definition member_Type (m : member) : option TypeRef :=
  match m with Declared f => f_Type f | Embedded _ t => t end.

Record PromotedField := MkPF {
  pf_Field : member;
  pf_Depth : nat;
  pf_Path : list string;
  pf_ThroughPointer : bool;
}.
Record PromotedMethod := MkPM {
  pm_Method : Method;
  pm_Depth : nat;
  pm_Path : list string;
  pm_ThroughPointer : bool;
}.
Abbreviation pf_Name f := (member_Name (pf_Field f)).
Abbreviation pm_Name m := (m_Name (pm_Method m)).

Definition selector (path : list string) (name : string) : string :=
  foldr (λ seg rest, seg +:+ "." +:+ rest) name path.
Definition PromotedField_Selector (p : PromotedField) : string := selector (pf_Path p) (pf_Name p).
Definition PromotedMethod_Selector (p : PromotedMethod) : string := selector (pm_Path p) (pm_Name p).
Definition Through (p : PromotedMethod) : string := default "" (head (pm_Path p)).

Definition extend (path : list string) (segment : string) : list string := path ++ [segment].

(** [byName] with [order], the names in the order they were first recorded. *)
Record candidates_of (T : Type) := MkCands { byName : gmap string (list T); order : list string }.
Arguments MkCands {T}.
Arguments byName {T}.
Arguments order {T}.

Definition record_candidate {T} (name : string) (x : T) (c : candidates_of T) : candidates_of T :=
  match byName c !! name with
  | None => MkCands (<[name := [x]]> (byName c)) (order c ++ [name])
  | Some l => MkCands (<[name := l ++ [x]]> (byName c)) (order c)
  end.

(** What the walks mutate: the candidates, [visited] and [problems]. *)
Record wstate (T : Type) := MkW {
  w_cands : candidates_of T;
  w_visited : gset string;
  w_problems : list UnresolvedEmbed;
}.
Arguments MkW {T}.
Arguments w_cands {T}.
Arguments w_visited {T}.
Arguments w_problems {T}.

Definition record_in {T} (name : string) (x : T) (st : wstate T) : wstate T :=
  MkW (record_candidate name x (w_cands st)) (w_visited st) (w_problems st).
Definition add_problem {T} (p : UnresolvedEmbed) (st : wstate T) : wstate T :=
  MkW (w_cands st) (w_visited st) (w_problems st ++ [p]).
(** The cycle guard: [None] when the type was visited before. *)
Definition enter {T} (qname : string) (st : wstate T) : option (wstate T) :=
  if String.eqb qname "" then Some st
  else if decide (qname ∈ w_visited st) then None
  else Some (MkW (w_cands st) ({[qname]} ∪ w_visited st) (w_problems st)).

(** A loop whose body may fail. *)
Fixpoint each {A S} (f : A → S → option S) (l : list A) (s : S) : option S :=
  match l with [] => Some s | x :: l => s ← f x s; each f l s end.

Section Walks.
  Context (r : option Resolver).

Definition take_fields (fs : list Field) (depth : nat) (path : list string) (thr : bool)
    (st : wstate PromotedField) : wstate PromotedField :=
  fold_left (λ st f, if String.eqb (f_Name f) "" then st
                     else record_in (f_Name f) (MkPF (Declared f) depth path thr) st) fs st.

(** One iteration over the embeds; [go] is the recursive call. *)
Definition field_step (go : Struct → nat → list string → bool → wstate PromotedField → option (wstate PromotedField))
    (s : Struct) (depth : nat) (path : list string) (thr : bool) (e : Embed) (st : wstate PromotedField)
    : option (wstate PromotedField) :=
  let '(name, byPointer) := EmbedIdent e in
  if String.eqb name "" then Some st
  else
    let st := record_in name (MkPF (Embedded name (em_Type e)) depth path thr) st in
    match descend (Struct_QName s) (s_Package s) e depth r with
    | None => None
    | Some (inl p) => Some (add_problem p st)
    | Some (inr (NStruct inner)) => go inner (depth + 1) (extend path name) (thr || byPointer) st
    | Some (inr _) => Some st
    end.

(** [levels] is [maxEmbedDepth - depth]: at zero [descend] has refused. *)
Fixpoint collectFields (levels : nat) (s : Struct) (depth : nat) (path : list string) (thr : bool)
    (st : wstate PromotedField) : option (wstate PromotedField) :=
  match enter (Struct_QName s) st with
  | None => Some st
  | Some st =>
      each (field_step (match levels with O => λ _ _ _ _ st, Some st | S levels => collectFields levels end)
              s depth path thr) (s_Embeds s) (take_fields (s_Fields s) depth path thr st)
  end.

(** [shallowestUnique] on the candidates of one name. *)
Definition shallowestUnique {T} (depthOf : T → nat) (l : list T) : option T :=
  match l with
  | [] => None
  | x :: l =>
      let '(best, ties) :=
        fold_left (λ '(best, ties) c,
          if depthOf c <? depthOf best then (c, 1)
          else if depthOf c =? depthOf best then (best, ties + 1) else (best, ties)) l (x, 1) in
      if 1 <? ties then None else Some best
  end.

Definition winners {T} (depthOf : T → nat) (c : candidates_of T) : list T :=
  omap (λ name, shallowestUnique depthOf (default [] (byName c !! name))) (order c).

Definition no_candidates {T} : wstate T := MkW (MkCands ∅ []) ∅ [].

Definition FieldSet (s : option Struct) : option (list PromotedField * list UnresolvedEmbed) :=
  match s with
  | None => Some ([], [])
  | Some s =>
      st ← collectFields maxEmbedDepth s 0 [] false no_candidates;
      Some (winners pf_Depth (w_cands st), w_problems st)
  end.

(** [interfaceResolver] *)
Definition interfaceResolver : TypeRef → unit → option Interface * bool * unit := λ t u,
  match r with
  | None => (None, false, u)
  | Some r =>
      match r t with
      | None => (None, false, u)
      | Some (Some (NInterface i)) => (Some i, true, u)
      | Some _ => (None, true, u)
      end
  end.

Definition fromIssue (host : Interface) (iss : MethodSetIssue) : UnresolvedEmbed :=
  MkUnresolved (Interface_QName host) (is_Embed iss) (Display (EmbedTarget (is_Embed iss)))
    (match is_Reason iss with
     | ReasonGeneric => GenericEmbed
     | ReasonCyclic => TooDeep
     | ReasonUnresolved | ReasonNonInterface | ReasonOther _ => NotLoaded
     end).

Definition methodsOfDecl (n : Node) : list Method :=
  match n with
  | NStruct s => s_Methods s
  | NEnum e => e_Methods e
  | NAlias a => a_Methods a
  | _ => []
  end.

(** The closure [record] over a list of methods. *)
Definition take_methods (declared : gset string) (ms : list Method) (depth : nat) (path : list string) (thr : bool)
    (st : wstate PromotedMethod) : wstate PromotedMethod :=
  fold_left (λ st m,
    if String.eqb (m_Name m) "" || bool_decide (m_Name m ∈ declared) then st
    else record_in (m_Name m) (MkPM m depth path thr) st) ms st.

(** One iteration over the embeds; [go] is the recursive call. *)
Definition method_step (mfuel : nat)
    (go : Struct → nat → list string → bool → wstate PromotedMethod → option (wstate PromotedMethod))
    (declared : gset string) (s : Struct) (depth : nat) (path : list string) (thr : bool) (e : Embed)
    (st : wstate PromotedMethod) : option (wstate PromotedMethod) :=
  let '(name, byPointer) := EmbedIdent e in
  if String.eqb name "" then Some st
  else match descend (Struct_QName s) (s_Package s) e depth r with
  | None => None
  | Some (inl p) => Some (add_problem p st)
  | Some (inr target) =>
      let next := extend path name in
      let through := thr || byPointer in
      match target with
      | NInterface iface =>
          '(set, _) ← MethodSet (Some interfaceResolver) mfuel (Some iface) tt;
          let st := fold_left (λ st iss, add_problem (fromIssue iface iss) st) (ms_Issues set) st in
          Some (take_methods declared (ms_Methods set) (depth + 1) next through st)
      | NStruct inner =>
          go inner (depth + 1) next through (take_methods declared (s_Methods inner) (depth + 1) next through st)
      | target => Some (take_methods declared (methodsOfDecl target) (depth + 1) next through st)
      end
  end.

Fixpoint collectMethods (mfuel levels : nat) (s : Struct) (depth : nat) (path : list string) (thr : bool)
    (declared : gset string) (st : wstate PromotedMethod) : option (wstate PromotedMethod) :=
  match enter (Struct_QName s) st with
  | None => Some st
  | Some st =>
      each (method_step mfuel
              (match levels with
               | O => λ _ _ _ _ st, Some st
               | S levels => λ s depth path thr st, collectMethods mfuel levels s depth path thr declared st
               end) declared s depth path thr) (s_Embeds s) st
  end.

Definition PromotedMethods (mfuel : nat) (s : option Struct) : option (list PromotedMethod * list UnresolvedEmbed) :=
  match s with
  | None => Some ([], [])
  | Some s =>
      st ← collectMethods mfuel maxEmbedDepth s 0 [] false (list_to_set (m_Name <$> s_Methods s)) no_candidates;
      Some (winners pm_Depth (w_cands st), w_problems st)
  end.

Definition PromotedFields (s : option Struct) : option (list PromotedField * list UnresolvedEmbed) :=
  '(all, problems) ← FieldSet s; Some (filter (λ f, 0 < pf_Depth f) all, problems).

Definition ExportedFieldSet (s : option Struct) : option (list PromotedField * list UnresolvedEmbed) :=
  '(all, problems) ← FieldSet s; Some (filter (λ f, IsExported (pf_Name f) = true) all, problems).

(** A typed nil answers as no struct. *)
Definition StructOf (t : option TypeRef) : option Struct :=
  match t, r with
  | Some t, Some r => match r t with Some (Some (NStruct s)) => Some s | _ => None end
  | _, _ => None
  end.

Definition MemberField (s : option Struct) (name : string) : option (option (option TypeRef)) :=
  '(fields, _) ← ExportedFieldSet s;
  Some ((λ f, member_Type (pf_Field f)) <$> List.find (λ f, String.eqb (pf_Name f) name) fields).

Definition InterfaceOf (t : option TypeRef) : option Interface :=
  match t, r with
  | Some t, Some r => match r t with Some (Some (NInterface i)) => Some i | _ => None end
  | _, _ => None
  end.

Definition MemberMethod (mfuel : nat) (i : option Interface) (name : string) : option (option Method) :=
  match i with
  | None => Some None
  | Some i =>
      if negb (IsExported name) then Some None
      else
        '(set, _) ← MethodSet (Some interfaceResolver) mfuel (Some i) tt;
        Some (List.find (λ m, String.eqb (m_Name m) name) (ms_Methods set))
  end.

End Walks.

(** * lang/golang: promotion

    [FieldSet] against Go's rule for promoted fields: a field is promoted when
    it is alone at the shallowest depth of its name, among the fields and the
    methods in reach.  The fields in reach are [reachable]: every field on every
    path of embeds that resolve to a loaded struct, without the guard against
    visiting a type twice.  Whatever the graph, [FieldSet] answers only fields
    that are there; when no type is embedded along two paths it answers every
    field Go promotes, and others only where a method takes part.  With two
    paths to one type it does not, and methods do not take part in the code:
    the examples at the end. *)

(** ** The shallowest candidate *)

Section Shallowest.
  Context {T : Type} (depthOf : T → nat).

(** [f] is the only candidate of its depth and all others are deeper. *)
Definition wins (f : T) (l : list T) : Prop :=
  ∃ l1 l2, l = l1 ++ f :: l2 ∧ Forall (λ g, depthOf f < depthOf g) (l1 ++ l2).

Abbreviation at_depth d l := (length (filter (λ g, depthOf g = d) l)).

Abbreviation shallow_step := (λ '(best, ties) c,
  if depthOf c <? depthOf best then (c, 1)
  else if depthOf c =? depthOf best then (best, ties + 1) else (best, ties)).

Lemma shallow_fold l x pre ties :
  x ∈ pre → Forall (λ g, depthOf x <= depthOf g) pre → ties = at_depth (depthOf x) pre →
  let r := fold_left shallow_step l (x, ties) in
  r.1 ∈ pre ++ l ∧ Forall (λ g, depthOf r.1 <= depthOf g) (pre ++ l) ∧ r.2 = at_depth (depthOf r.1) (pre ++ l).
Proof.
  revert x pre ties. induction l as [|c l IH]; intros x pre ties Hx Hall Ht; cbn [fold_left].
  { cbn [fst snd]. by rewrite app_nil_r. }
  change (c :: l) with ([c] ++ l). rewrite app_assoc.
  destruct (Nat.ltb_spec (depthOf c) (depthOf x)) as [Hlt|Hge].
  - apply IH.
    + apply elem_of_app. right. by left.
    + apply Forall_app. split; [|by constructor]. eapply Forall_impl; [exact Hall|]. simpl. intros. lia.
    + rewrite filter_app, length_app, filter_none.
      * rewrite filter_cons, decide_True by done. done.
      * intros g Hg. rewrite Forall_forall in Hall. specialize (Hall g Hg). simpl in *. lia.
  - destruct (Nat.eqb_spec (depthOf c) (depthOf x)) as [He|Hn].
    + apply IH; [apply elem_of_app; by left|apply Forall_app; split; [done|constructor; [lia|constructor]]|].
      rewrite filter_app, length_app, (filter_cons _ c), decide_True by done. simpl. lia.
    + apply IH; [apply elem_of_app; by left|apply Forall_app; split; [done|constructor; [lia|constructor]]|].
      rewrite filter_app, length_app, (filter_cons _ c), decide_False by done. simpl. lia.
Qed.

Lemma wins_iff f l :
  wins f l ↔ f ∈ l ∧ Forall (λ g, depthOf f <= depthOf g) l ∧ at_depth (depthOf f) l = 1.
Proof.
  split.
  - intros (l1 & l2 & -> & Hd). apply Forall_app in Hd as [H1 H2].
    assert (∀ k, Forall (λ g, depthOf f < depthOf g) k → filter (λ g, depthOf g = depthOf f) k = []) as Hno.
    { intros k Hk. apply filter_none. intros g Hg. rewrite Forall_forall in Hk. specialize (Hk g Hg). simpl in Hk. lia. }
    split_and!.
    + apply elem_of_app. right. by left.
    + apply Forall_app. split; [|constructor; [lia|]]; eapply Forall_impl; try done; simpl; intros; lia.
    + by rewrite filter_app, filter_cons, decide_True, !Hno by done.
  - intros (Hin & Hall & Hc). apply list_elem_of_split in Hin as (l1 & l2 & ->). exists l1, l2. split; [done|].
    rewrite filter_app, length_app, filter_cons, decide_True in Hc by done. simpl in Hc.
    assert (∀ k, length (filter (λ g, depthOf g = depthOf f) k) = 0 → Forall (λ g, depthOf f <= depthOf g) k →
      Forall (λ g, depthOf f < depthOf g) k) as Hlt.
    { intros k Hk Ha. apply Forall_forall. intros g Hg. rewrite Forall_forall in Ha. specialize (Ha g Hg). simpl in Ha.
      destruct (decide (depthOf g = depthOf f)) as [E|]; [|lia].
      apply nil_length_inv in Hk. assert (g ∈ filter (λ g, depthOf g = depthOf f) k) as Hf by by apply list_elem_of_filter.
      rewrite Hk in Hf. by apply elem_of_nil in Hf. }
    apply Forall_app in Hall as [Ha Hb]. apply Forall_cons in Hb as [_ Hb].
    apply Forall_app. split; apply Hlt; try done; lia.
Qed.

Lemma shallowestUnique_spec l f : shallowestUnique depthOf l = Some f ↔ wins f l.
Proof.
  rewrite wins_iff. destruct l as [|x l]; [split; [done|]; by intros ([]%elem_of_nil & _)|]. unfold shallowestUnique.
  pose proof (shallow_fold l x [x] 1) as Hf. cbv zeta in Hf.
  destruct Hf as (Hin & Hall & Ht); [by left|by repeat constructor|by rewrite filter_cons, decide_True by done|].
  destruct (fold_left shallow_step l (x, 1)) as [best ties]. cbn [fst snd] in *. change ([x] ++ l) with (x :: l) in *.
  assert (1 ≤ ties) as Hpos.
  { subst ties. assert (best ∈ filter (λ g, depthOf g = depthOf best) (x :: l)) as Hb by by apply list_elem_of_filter.
    destruct (filter _ _); [by apply elem_of_nil in Hb|simpl; lia]. }
  destruct (Nat.ltb_spec 1 ties); split.
  - done.
  - intros (Hf & Hfa & H1). rewrite Forall_forall in Hall, Hfa. specialize (Hall f Hf). specialize (Hfa best Hin). simpl in *.
    assert (depthOf f = depthOf best) as E by lia. rewrite E in H1. lia.
  - intros [= <-]. split_and!; [done|done|lia].
  - intros (Hf & Hfa & H1). f_equal. rewrite Forall_forall in Hall, Hfa. specialize (Hall f Hf). specialize (Hfa best Hin). simpl in *.
    assert (depthOf f = depthOf best) as E by lia.
    assert (best ∈ filter (λ g, depthOf g = depthOf f) (x :: l)) as H2 by by apply list_elem_of_filter.
    assert (f ∈ filter (λ g, depthOf g = depthOf f) (x :: l)) as H3 by by apply list_elem_of_filter.
    revert H1 H2 H3. generalize (filter (λ g, depthOf g = depthOf f) (x :: l)).
    intros [|y [|z k]] H1 H2 H3; [by apply elem_of_nil in H2| |simpl in H1; lia].
    apply list_elem_of_singleton in H2, H3. congruence.
Qed.

End Shallowest.

(** ** Recording candidates *)

Section Recording.
  Context {T : Type} (nameOf : T → string) (depthOf : T → nat).


Abbreviation under n l := (filter (λ x, nameOf x = n) l).




End Recording.

(** ** The reference *)

Section Walk.
  Context (r : option Resolver).

(** The struct an embed leads to. *)
Definition follow (s : Struct) (e : Embed) (depth : nat) : option Struct :=
  match descend (Struct_QName s) (s_Package s) e depth r with
  | Some (inr (NStruct inner)) => Some inner
  | _ => None
  end.

Definition own_fields (s : Struct) (depth : nat) (path : list string) (thr : bool) : list PromotedField :=
  (λ f, MkPF (Declared f) depth path thr) <$> filter (λ f, f_Name f ≠ "") (s_Fields s).

Definition embed_fields (go : Struct → nat → list string → bool → list PromotedField)
    (s : Struct) (depth : nat) (path : list string) (thr : bool) (e : Embed) : list PromotedField :=
  let '(name, byPointer) := EmbedIdent e in
  if String.eqb name "" then []
  else MkPF (Embedded name (em_Type e)) depth path thr ::
       match follow s e depth with
       | Some inner => go inner (depth + 1) (extend path name) (thr || byPointer)
       | None => []
       end.

(** Every field on every path of at most [levels] embeds. *)
Fixpoint reachable (levels : nat) (s : Struct) (depth : nat) (path : list string) (thr : bool) : list PromotedField :=
  own_fields s depth path thr ++
  mbind (embed_fields (match levels with O => λ _ _ _ _, [] | S levels => reachable levels end) s depth path thr)
    (s_Embeds s).















End Walk.

(** ** What the paths mean *)




(** ** Termination *)




(** Go's rule, over the fields in reach and the names and depths of the methods
    in reach. *)
Definition promoted (fields : list PromotedField) (methods : list (string * nat)) (f : PromotedField) : Prop :=
  wins pf_Depth f (filter (λ g, pf_Name g = pf_Name f) fields) ∧
  ∀ d, (pf_Name f, d) ∈ methods → pf_Depth f < d.


(** ** Examples *)

Definition em_field (name : string) : Field := MkField (Fixture.at_ptr 1%positive []) name None "".
Definition em_struct (name : string) (fields embeds : list string) : Struct :=
  MkStruct (Fixture.at_ptr 1%positive []) name "p" (em_field <$> fields)
    ((λ e, Fixture.embed 1%positive (Fixture.named 1%positive "p" e)) <$> embeds) [] [].

(** [Base] holds [ID]; [A] and [B] embed it. *)
Definition em_root : Struct := em_struct "Base" ["ID"] [].
Definition em_resolve : Resolver := λ t,
  if String.eqb (t_Name t) "Base" then Some (Some (NStruct em_root))
  else if String.eqb (t_Name t) "A" then Some (Some (NStruct (em_struct "A" [] ["Base"])))
  else if String.eqb (t_Name t) "B" then Some (Some (NStruct (em_struct "B" [] ["Base"])))
  else None.





(** Go rejects [x.ID] on a struct that embeds [A] and [B]: [Base.ID] is there
    twice at the same depth.  The walk enters [Base] once, so [FieldSet]
    answers it. *)
Theorem diamonds_are_not_cancelled :
  let s := em_struct "Both" [] ["A"; "B"] in
  option_map (λ p, map PromotedField_Selector p.1) (FieldSet (Some em_resolve) (Some s))
    = Some ["A"; "A.Base.ID"; "B"] ∧
  ∀ f, pf_Name f = "ID" →
    ¬ wins pf_Depth f (filter (λ g, pf_Name g = "ID") (reachable (Some em_resolve) maxEmbedDepth s 0 [] false)).
Proof.
  split; [vm_compute; reflexivity|]. intros f _ Hw. apply shallowestUnique_spec in Hw. vm_compute in Hw. discriminate.
Qed.

(** A struct that embeds [A] and then [Base] has [ID] at depth one, through
    [Base]; the walk met [Base] below [A] first, and answers the longer path
    for it. *)
Theorem deeper_path_shadows_shallower :
  let s := em_struct "Late" [] ["A"; "Base"] in
  option_map (λ p, map PromotedField_Selector p.1) (FieldSet (Some em_resolve) (Some s))
    = Some ["A"; "Base"; "A.Base.ID"] ∧
  option_map PromotedField_Selector (shallowestUnique (λ f, pf_Depth f)
    (filter (λ g, pf_Name g = "ID") (reachable (Some em_resolve) maxEmbedDepth s 0 [] false))) = Some "Base.ID".
Proof. vm_compute. split; reflexivity. Qed.

(** Go rejects [x.ID] on a struct that embeds [Base], which has a field [ID],
    and [Meth], which has a method of that name: two selectors at one depth.
    [FieldSet] answers the field. *)
Theorem methods_do_not_compete :
  let meth := MkStruct (Fixture.at_ptr 1%positive []) "Meth" "p" [] [] [Fixture.method 1%positive "ID" []] [] in
  let r : Resolver := λ t, if String.eqb (t_Name t) "Meth" then Some (Some (NStruct meth)) else em_resolve t in
  let s := em_struct "Both" [] ["Base"; "Meth"] in
  option_map (λ p, map PromotedField_Selector p.1) (FieldSet (Some r) (Some s)) = Some ["Base"; "Base.ID"; "Meth"] ∧
  ∀ f, pf_Name f = "ID" → pf_Depth f = 1 →
    ¬ promoted (reachable (Some r) maxEmbedDepth s 0 [] false) [("ID", 1)] f.
Proof.
  split; [vm_compute; reflexivity|]. intros f Hn Hd [_ Hm]. specialize (Hm 1). rewrite Hn, Hd in Hm.
  specialize (Hm ltac:(left)). lia.
Qed.
