(* ===== verification/Shape.v ===== *)
(** * plugins/annotator/shape: the umbrella plugin

    [shape.go], [meta.go], [param.go], [contract.go] and [mixin.go] of
    [src/plugins/annotator/shape]: the vocabulary a plugin is given
    (detectors, contracts, mixins) and the pass that stamps every callable
    with a structural shape, its contract memberships and its mixins.

    The pass writes metadata through typed keys and reports to the sink:
    [astate] is the heap of bags, the sink and the observers the writes fired,
    in order.  A loop over the keys of a directive takes its order from
    [MapOrder].  The names of metadata keys are fixed, so a key is its name
    and type; a key asked for twice is the same one.  A typed read of an ill
    typed entry is the zero value, as in [GoTypes]. *)

From S2P Require Import Prelude GoStrings Position Diag Meta Directive Plugin Node NodeQueries GoTypes.

Local Open Scope string_scope.
Local Open Scope nat_scope.
Local Open Scope list_scope.

Module shape.

Definition PluginName : string := "shape".
Definition DirectiveName : string := "shape".
Definition ContractDirectiveName : string := "contract".
Definition MixinDirectiveName : string := "mixin".

Definition list_key (name : string) : Key := MkKey name TStrings StringListParser.

(** ** [meta.go] *)

Definition MetaShape : Key := string_key "shape".
Definition MetaKeyType : Key := string_key "shape.key_type".
Definition MetaValueType : Key := string_key "shape.value_type".

(** [key.Get(bag)] of a string and of a list. *)
Definition get_string (ob : option Bag) (k : Key) : option string :=
  match Get k ob with Returns (Some (VString v)) => Some v | _ => None end.
Definition get_list (ob : option Bag) (k : Key) : list string :=
  match Get k ob with Returns (Some (VStrings (Some l))) => l | _ => [] end.

Definition GetShape (ob : option Bag) : string := default "" (get_string ob MetaShape).
Definition IsStamped (ob : option Bag) : bool := negb (String.eqb (GetShape ob) "").

(** ** [param.go] *)

Inductive ParamKind :=
| KindOpaque | KindCallable | KindVar | KindMember | KindValueField | KindParam | KindOther (n : Z).

#[export] Instance ParamKind_eq_dec : EqDecision ParamKind.
Proof. solve_decision. Defined.

Definition ParamKind_String (k : ParamKind) : string :=
  match k with
  | KindOpaque => "opaque"
  | KindCallable => "callable"
  | KindVar => "var"
  | KindMember => "member"
  | KindValueField => "value-field"
  | KindParam => "param"
  | KindOther _ => "unknown"
  end.

Definition scopeNoun (k : ParamKind) : string :=
  match k with
  | KindCallable => "callable in scope"
  | KindVar => "package-level var in scope"
  | KindMember => "member of the type it answers"
  | KindValueField => "field of its value type"
  | KindParam => "parameter of the annotated callable"
  | KindOpaque | KindOther _ => "resolvable declaration"
  end.

Record Param := MkParam {
  pr_Key : string;
  pr_Kind : ParamKind;
  pr_Role : string;
  pr_Required : bool;
  pr_Counterexample : bool;
}.

Definition ParamsForRole (params : list Param) (role : string) : list Param :=
  List.filter (λ p, String.eqb (pr_Role p) "" || String.eqb (pr_Role p) role) params.
Definition ParamKeys (params : list Param) : list string := pr_Key <$> params.
Definition ParamKeysOfKind (params : list Param) (kind : ParamKind) : list string :=
  pr_Key <$> List.filter (λ p, bool_decide (pr_Kind p = kind)) params.

(** ** [shape.go]: matches and detectors *)

Record StringStamp := MkStringStamp { ss_Key : Key; ss_Value : string }.
Record ListStamp := MkListStamp { ls_Key : Key; ls_Value : list string }.

Record Match := MkMatch {
  mt_Shape : string;
  mt_KeyType : string;
  mt_ValueType : string;
  mt_StringStamps : list StringStamp;
  mt_ListStamps : list ListStamp;
}.

(** A detector reads the facts the frontend stamped on types. *)
Abbreviation DetectFunc := (metas → Node → option Match).

Record Detector := MkDetector {
  dt_Name : string;
  dt_Priority : Z;
  dt_Detect : gmap string DetectFunc;
  dt_Documentary : bool;
}.

(** ** [contract.go]: data *)

Record ContractMember := MkMember {
  cm_Host : Node;
  cm_Partners : gmap string string;
  cm_Params : gmap string string;
}.
Record ContractViolation := MkViolation { cv_Host : option Node; cv_Message : string }.
Abbreviation ContractValidator := (gmap string (list ContractMember) → list ContractViolation).

Record Contract := MkContract {
  c_Name : string;
  c_Roles : list string;
  c_Documentary : bool;
  c_Params : list Param;
  c_Required : gmap string (list string);
  c_Validate : option ContractValidator;
}.

(** ** [mixin.go]: data *)

Record MixinAttachment := MkAttachment { ma_Host : Node; ma_Params : gmap string string }.
Record MixinViolation := MkMixinViolation { mv_Host : option Node; mv_Message : string }.

(** A check may follow the owner of a method, which is state of the graph. *)
Abbreviation MixinValidator := ((Method → option Node) → list MixinAttachment → list MixinViolation).

Record Mixin := MkMixin {
  x_Name : string;
  x_Params : list Param;
  x_Documentary : bool;
  x_Validate : option MixinValidator;
}.

(** ** Registration *)

Record Plugin := MkPlugin {
  detectors : list Detector;
  contracts : gmap string Contract;
  mixins : gmap string Mixin;
}.

Definition New : Plugin := MkPlugin [] ∅ ∅.

(** [sort.SliceStable] by descending priority. *)
Fixpoint insert_by_priority (d : Detector) (l : list Detector) : list Detector :=
  match l with
  | [] => [d]
  | e :: l' => if (dt_Priority d <? dt_Priority e)%Z then e :: insert_by_priority d l' else d :: l
  end.
Definition sort_by_priority (l : list Detector) : list Detector := foldr insert_by_priority [] l.

Definition Detectors (p : Plugin) (ds : list Detector) : Plugin :=
  MkPlugin (sort_by_priority (detectors p ++ ds)) (contracts p) (mixins p).
Definition Contracts_ (p : Plugin) (cs : list Contract) : Plugin :=
  MkPlugin (detectors p) (fold_left (λ m c, <[c_Name c := c]> m) cs (contracts p)) (mixins p).
Definition Mixins_ (p : Plugin) (ms : list Mixin) : Plugin :=
  MkPlugin (detectors p) (contracts p) (fold_left (λ m x, <[x_Name x := x]> m) ms (mixins p)).

(** ** The state of a pass *)

Record astate := MkA { a_metas : metas; a_sink : Sink; a_fired : list (nat * string) }.

Definition bag_of (b : BaseNode) (st : astate) : option Bag := base_Meta (a_metas st) b.

Definition EnsureMeta (b : BaseNode) (st : astate) : astate :=
  MkA (base_EnsureMeta (a_metas st) b).2 (a_sink st) (a_fired st).

(** [key.Set(bag, v, setBy)] on the bag of a node. *)
Definition set_key (b : BaseNode) (k : Key) (v : value) (by_ : string) (st : astate) : astate :=
  let '(bag, h) := base_EnsureMeta (a_metas st) b in
  let e := Set_ k bag v by_ in
  MkA (<[ref b := after e]> h) (a_sink st) (a_fired st ++ fired e).

Definition report (plugin : string) (pos : Pos) (f : string) (args : list arg) (st : astate) : astate :=
  MkA (a_metas st) (Errorf (For plugin) (a_sink st) pos f args) (a_fired st).

Abbreviation pos_of n := (base_Pos (node_base n)).

(** ** [contract.go]: stamping *)

Definition MetaContracts : Key := list_key "shape.contracts".
Definition ContractRoleKey (name : string) : Key := string_key ("shape.contract." +:+ name +:+ ".role").
Definition ContractPartnerKey (contract role : string) : Key :=
  string_key ("shape.contract." +:+ contract +:+ ".partner." +:+ role).
Definition ContractParamKey (contract key : string) : Key :=
  string_key ("shape.contract." +:+ contract +:+ ".param." +:+ key).
Definition contractStampedBy : string := PluginName +:+ ".contract".

Definition paramSet (params : list string) : gset string := list_to_set params.

(** [d.KV[key]], the empty string when it is absent. *)
Definition kv (d : Directive) (key : string) : string := default "" (KV d !! key).

Definition contractNameFromDirective (d : Directive) : string := default "" (head (Args d)).

Definition Contracts (ob : option Bag) : list string := get_list ob MetaContracts.

Definition appendContract (b : BaseNode) (name : string) (st : astate) : astate :=
  let current := Contracts (bag_of b st) in
  if bool_decide (name ∈ current) then st
  else set_key b MetaContracts (VStrings (Some (current ++ [name]))) contractStampedBy st.

Definition reportUnregisteredContract (host : Node) (name : string) (st : astate) : astate :=
  report PluginName (pos_of host)
    "shape.contract: %q is not registered with this pipeline. Check the spelling or register the contract; an unregistered name classifies nothing, so every law selected by it is silently dropped"
    [AStr name] st.

Section Stamping.
  Context `{MapOrder} (p : Plugin).

(** One key of the directive. *)
Definition contract_kv (host : Node) (name : string) (params : gset string) (d : Directive)
    (st : astate) (k : string) : astate :=
  let v := kv d k in
  if String.eqb k "role" || String.eqb v "" then st
  else if bool_decide (k ∈ params) then
    set_key (node_base host) (ContractParamKey name k) (VString v) contractStampedBy st
  else set_key (node_base host) (ContractPartnerKey name k) (VString v) contractStampedBy st.

Definition apply_contract (host : Node) (st : astate) (d : Directive) : astate :=
  if negb (String.eqb (Name d) ContractDirectiveName) || Negated d then st
  else
    let name := contractNameFromDirective d in
    if String.eqb name "" then st
    else match contracts p !! name with
    | None => reportUnregisteredContract host name st
    | Some spec =>
        let role := kv d "role" in
        if String.eqb role "" then st
        else
          let st := set_key (node_base host) (ContractRoleKey name) (VString role) contractStampedBy st in
          let params := paramSet (ParamKeys (ParamsForRole (c_Params spec) role)) in
          appendContract (node_base host) name
            (fold_left (contract_kv host name params d) (map_keys (KV d)) st)
    end.

Definition applyContracts (host : Node) (dirs : list Directive) (st : astate) : astate :=
  fold_left (apply_contract host) dirs st.

(** ** [mixin.go]: stamping *)

Definition MetaMixins : Key := list_key "shape.mixins".
Definition MixinParamKey (name param : string) : Key :=
  string_key ("shape.mixin." +:+ name +:+ "." +:+ param).
Definition mixinStampedBy : string := PluginName +:+ ".mixin".

Definition Mixins (ob : option Bag) : list string := get_list ob MetaMixins.

Definition appendMixin (b : BaseNode) (name : string) (st : astate) : astate :=
  let current := Mixins (bag_of b st) in
  if bool_decide (name ∈ current) then st
  else set_key b MetaMixins (VStrings (Some (current ++ [name]))) mixinStampedBy st.

Definition reportUnregisteredMixin (host : Node) (name : string) (st : astate) : astate :=
  report PluginName (pos_of host)
    "shape.mixin: %q is not registered with this pipeline. Check the spelling, register the mixin, or — if it was meant as a parameter — note that mixin parameters are `key=value` only; a bare token is read as another mixin name"
    [AStr name] st.

Definition reportAmbiguousMixinParams (host : Node) (d : Directive) (st : astate) : astate :=
  let keys := sort_strings (map_to_list (KV d)).*1 in
  report PluginName (pos_of host)
    "shape.mixin: %d parameter(s) %v supplied with %d mixin names %v; parameters belong to exactly one mixin — put %q on its own line. The names were attached; the parameters were dropped"
    [AInt (Z.of_nat (length keys)); AList keys; AInt (Z.of_nat (length (Args d))); AList (Args d);
     AStr (default "" (head (Args d)))] st.

Definition reportUnknownMixinParam (host : Node) (spec : Mixin) (key : string) (st : astate) : astate :=
  let accepted := ParamKeys (x_Params spec) in
  if (length accepted =? 0)%nat then
    report PluginName (pos_of host) "shape.mixin %q: %q is not a parameter it accepts; this mixin takes none"
      [AStr (x_Name spec); AStr key] st
  else
    report PluginName (pos_of host) "shape.mixin %q: %q is not a parameter it accepts. Declared: %s"
      [AStr (x_Name spec); AStr key; AStr (str_join ", " accepted)] st.

Definition mixin_kv (host : Node) (name : string) (spec : Mixin) (params : gmap string string)
    (st : astate) (k : string) : astate :=
  let v := default "" (params !! k) in
  if String.eqb v "" then st
  else if bool_decide (k ∈ paramSet (ParamKeys (x_Params spec))) then
    set_key (node_base host) (MixinParamKey name k) (VString v) mixinStampedBy st
  else reportUnknownMixinParam host spec k st.

Definition apply_mixin_name (host : Node) (params : gmap string string) (st : astate) (name : string) : astate :=
  match mixins p !! name with
  | None => reportUnregisteredMixin host name st
  | Some spec =>
      appendMixin (node_base host) name (fold_left (mixin_kv host name spec params) (map_keys params) st)
  end.

Definition apply_mixin (host : Node) (st : astate) (d : Directive) : astate :=
  if negb (String.eqb (Name d) MixinDirectiveName) || Negated d then st
  else if (length (Args d) =? 0)%nat then st
  else if (0 <? size (KV d))%nat && (1 <? length (Args d))%nat then
    fold_left (apply_mixin_name host ∅) (Args d) (reportAmbiguousMixinParams host d st)
  else fold_left (apply_mixin_name host (KV d)) (Args d) st.

Definition applyMixins (host : Node) (dirs : list Directive) (st : astate) : astate :=
  fold_left (apply_mixin host) dirs st.

(** ** [shape.go]: detection *)

Definition shapeNameFromDirective (d : Directive) : string :=
  let first := default "" (head (Args d)) in
  if negb (String.eqb first "") then first else kv d "kind".

Fixpoint matchFromDirective (dirs : list Directive) : option Match :=
  match dirs with
  | [] => None
  | d :: dirs =>
      if negb (String.eqb (Name d) DirectiveName) || Negated d then matchFromDirective dirs
      else
        let name := shapeNameFromDirective d in
        if String.eqb name "" then matchFromDirective dirs
        else Some (MkMatch name (kv d "key") (kv d "value") [] [])
  end.

Definition stamp (b : BaseNode) (m : Match) (by_ : string) (st : astate) : astate :=
  let st := set_key b MetaShape (VString (mt_Shape m)) by_ st in
  let st := if String.eqb (mt_KeyType m) "" then st else set_key b MetaKeyType (VString (mt_KeyType m)) by_ st in
  let st := if String.eqb (mt_ValueType m) "" then st else set_key b MetaValueType (VString (mt_ValueType m)) by_ st in
  let st := fold_left (λ st s, set_key b (ss_Key s) (VString (ss_Value s)) by_ st) (mt_StringStamps m) st in
  fold_left (λ st s, set_key b (ls_Key s) (VStrings (Some (ls_Value s))) by_ st) (mt_ListStamps m) st.

Definition with_shape (m : Match) (name : string) : Match :=
  if String.eqb (mt_Shape m) ""
  then MkMatch name (mt_KeyType m) (mt_ValueType m) (mt_StringStamps m) (mt_ListStamps m) else m.

(** The dispatch loop: the first detector of the language that accepts. *)
Fixpoint detect (h : metas) (front : string) (n : Node) (ds : list Detector) : option (Match * string) :=
  match ds with
  | [] => None
  | d :: ds =>
      match dt_Detect d !! front with
      | None => detect h front n ds
      | Some fn =>
          match fn h n with
          | None => detect h front n ds
          | Some m => Some (with_shape m (dt_Name d), PluginName +:+ "." +:+ dt_Name d)
          end
      end
  end.

Definition handle (n : Node) (front : string) (st : astate) : astate :=
  let b := node_base n in
  let dirs := base_Directives b in
  let st := applyMixins n dirs (applyContracts n dirs (EnsureMeta b st)) in
  if IsStamped (bag_of b st) then st
  else match matchFromDirective dirs with
  | Some m => stamp b m (PluginName +:+ ".directive") st
  | None =>
      match detect (a_metas st) front n (detectors p) with
      | Some (m, by_) => stamp b m by_ st
      | None => st
      end
  end.

Definition handleMethods (ms : list Method) (lang : string) (st : astate) : astate :=
  fold_left (λ st m, handle (NMethod m) lang st) ms st.

Definition soleDetectorLanguage : string :=
  let seen : gset string := ⋃ ((λ d, dom (dt_Detect d)) <$> detectors p) in
  match elements seen with [lang] => lang | _ => "" end.

(** [sdk.LanguageOf] *)
Definition LanguageOf (h : metas) (pkg : Package) : string :=
  default "" (get_string (base_Meta h (p_base pkg)) (string_key "frontend")).

Definition annotate_package (st : astate) (pkg : Package) : astate :=
  let lang := LanguageOf (a_metas st) pkg in
  let lang := if String.eqb lang "" then soleDetectorLanguage else lang in
  let st := fold_left (λ st s, handleMethods (s_Methods s) lang st) (p_Structs pkg) st in
  let st := fold_left (λ st i, handleMethods (i_Methods i) lang st) (p_Interfaces pkg) st in
  let st := fold_left (λ st e, handleMethods (e_Methods e) lang st) (p_Enums pkg) st in
  let st := fold_left (λ st a, handleMethods (a_Methods a) lang st) (p_Aliases pkg) st in
  fold_left (λ st f, handle (NFunction f) lang st) (p_Functions pkg) st.

Definition Annotate (pkgs : list Package) (st : astate) : astate := fold_left annotate_package pkgs st.

End Stamping.

End shape.
