(* ===== verification/ShapeDetectors.v ===== *)
(** * plugins/annotator/shape: the shipped detectors

    One module per package of [src/plugins/annotator/shape/detectors], and
    [All], the catalog.  Every detector reads Go declarations through the
    queries of [GoTypes]; the metadata it needs is the heap it is given. *)

From S2P Require Import Prelude GoStrings Meta Node NodeQueries GoTypes GoEmbed Shape.

Local Open Scope string_scope.
Local Open Scope nat_scope.
Local Open Scope list_scope.

(** [golang.Language] *)
Definition Language : string := "golang".

Import shape.

Definition go_only (f : DetectFunc) : gmap string DetectFunc := {[ Language := f ]}.
Definition matched (key val : string) : option Match := Some (MkMatch "" key val [] []).

(** [callableName] of [closer] and [deleter]. *)
Definition callableName (n : Node) : string :=
  match n with NFunction f => fn_Name f | NMethod m => m_Name m | _ => "" end.

Module aggregator.
Definition Name : string := "aggregator".
Definition detectGolang : DetectFunc := λ h n,
  let '(params, returns) := Callable n in
  if negb (length (StripContext h params) =? 0) then None
  else match StripErrorTypes h returns with
       | [v] => matched "" (QName v)
       | _ => None
       end.
Definition Detector_ : Detector := MkDetector Name 350 (go_only detectGolang) false.
End aggregator.

Module answeringwriter.
Definition Name : string := "answeringwriter".
Definition detectGolang : DetectFunc := λ h n,
  let '(params, returns) := Callable n in
  if negb (HasError h returns) then None
  else match StripContext h params, StripErrorTypes h returns with
       | [p], [r] =>
           match pa_Type p with
           | None => None
           | Some t =>
               if String.eqb (t_Package t) "" then None
               else
                 let written := QName (Some t) in
                 if negb (String.eqb written (QName r)) then None else matched "" written
           end
       | _, _ => None
       end.
Definition Detector_ : Detector := MkDetector Name 440 (go_only detectGolang) false.
End answeringwriter.

Module batchreader.
Definition Name : string := "batchreader".
Definition detectGolang : DetectFunc := λ h n,
  let '(params, returns) := Callable n in
  if negb (HasError h returns) then None
  else match StripErrorTypes h returns with
  | [v] =>
      match SliceElem v with
      | None => None
      | Some elem =>
          let args := StripContext h params in
          if negb (length args =? 1) then None
          else match TrailingVariadic args with
               | None => None
               | Some variadic => matched (QName (pa_Type variadic)) (QName (Some elem))
               end
      end
  | _ => None
  end.
Definition Detector_ : Detector := MkDetector Name 950 (go_only detectGolang) false.
End batchreader.

Module closer.
Definition Name : string := "closer".
Definition Names : list string := ["Close"; "Shutdown"; "Stop"; "Disconnect"; "Terminate"].
Definition detectGolang : DetectFunc := λ h n,
  if negb (bool_decide (callableName n ∈ Names)) then None
  else
    let '(params, returns) := Callable n in
    if negb (length params =? 0) || negb (length returns =? 1) then None
    else if negb (HasError h returns) then None
    else matched "" "".
Definition Detector_ : Detector := MkDetector Name 835 (go_only detectGolang) false.
End closer.

Module compositewriter.
Definition Name : string := "compositewriter".
Definition detectGolang : DetectFunc := λ h n,
  let '(params, returns) := Callable n in
  if negb (HasError h returns) || negb (length (StripErrorTypes h returns) =? 0) then None
  else match StripContext h params with
       | [k; v] => matched (QName (pa_Type k)) (QName (pa_Type v))
       | _ => None
       end.
Definition Detector_ : Detector := MkDetector Name 700 (go_only detectGolang) false.
End compositewriter.

Module deleter.
Definition Name : string := "deleter".
Definition Names : list string := ["Delete"; "Remove"; "Del"; "Evict"; "Purge"].
Definition detectGolang : DetectFunc := λ h n,
  if negb (bool_decide (callableName n ∈ Names)) then None
  else
    let '(params, returns) := Callable n in
    if negb (HasError h returns) then None
    else match StripContext h params, StripErrorTypes h returns with
         | [k], [] => matched (QName (pa_Type k)) ""
         | _, _ => None
         end.
Definition Detector_ : Detector := MkDetector Name 550 (go_only detectGolang) false.
End deleter.

Module lifecycle.
Definition Name : string := "lifecycle".
Definition detectGolang : DetectFunc := λ h n,
  let '(params, returns) := Callable n in
  if negb (HasContext h params) || negb (HasError h returns) then None
  else match StripContext h params, StripErrorTypes h returns with
       | [], [] => matched "" ""
       | _, _ => None
       end.
Definition Detector_ : Detector := MkDetector Name 200 (go_only detectGolang) false.
End lifecycle.

Module lookup_.
Definition Name : string := "lookup".
Definition MetaType : Key := string_key "shape.lookup.meta_type".
Definition detectGolang : DetectFunc := λ h n,
  let '(params, returns) := Callable n in
  match StripContext h params, returns with
  | [k], [a; b; c] =>
      if negb (IsBool (re_Type c)) then None
      else Some (MkMatch "" (QName (pa_Type k)) (QName (re_Type a))
                   [MkStringStamp MetaType (QName (re_Type b))] [])
  | _, _ => None
  end.
Definition Detector_ : Detector := MkDetector Name 850 (go_only detectGolang) false.
End lookup_.

Module multiaggregator.
Definition Name : string := "multiaggregator".
Definition ValueTypes : Key := list_key "shape.multiaggregator.value_types".
Definition detectGolang : DetectFunc := λ h n,
  let '(params, returns) := Callable n in
  if negb (length (StripContext h params) =? 0) || negb (HasError h returns) then None
  else
    let qnames := QName <$> StripErrorTypes h returns in
    if length qnames <? 2 then None
    else Some (MkMatch "" "" (default "" (head qnames)) [] [MkListStamp ValueTypes qnames]).
Definition Detector_ : Detector := MkDetector Name 600 (go_only detectGolang) false.
End multiaggregator.

Module multiargwriter.
Definition Name : string := "multiargwriter".
Definition ArgTypes : Key := list_key "shape.multiargwriter.arg_types".
Definition detectGolang : DetectFunc := λ h n,
  let '(params, returns) := Callable n in
  if negb (HasError h returns) || negb (length (StripErrorTypes h returns) =? 0) then None
  else
    let args := StripContext h params in
    if length args <? 3 then None
    else Some (MkMatch "" "" "" [] [MkListStamp ArgTypes ((λ a, QName (pa_Type a)) <$> args)]).
Definition Detector_ : Detector := MkDetector Name 750 (go_only detectGolang) false.
End multiargwriter.

Module multireader.
Definition Name : string := "multireader".
Definition ValueTypes : Key := list_key "shape.multireader.value_types".
Definition detectGolang : DetectFunc := λ h n,
  let '(params, returns) := Callable n in
  match StripContext h params with
  | [k] =>
      if negb (HasError h returns) then None
      else
        let qnames := QName <$> StripErrorTypes h returns in
        if length qnames <? 2 then None
        else Some (MkMatch "" (QName (pa_Type k)) (default "" (head qnames)) [] [MkListStamp ValueTypes qnames])
  | _ => None
  end.
Definition Detector_ : Detector := MkDetector Name 650 (go_only detectGolang) false.
End multireader.

Module mutator.
Definition Name : string := "mutator".
Definition detectGolang : DetectFunc := λ h n,
  let '(params, returns) := Callable n in
  if negb (length returns =? 0) then None
  else match StripContext h params with
       | [v] =>
           matched "" (QName (match PointerElem (pa_Type v) with Some elem => Some elem | None => pa_Type v end))
       | _ => None
       end.
Definition Detector_ : Detector := MkDetector Name 300 (go_only detectGolang) false.
End mutator.

Module pointerreader.
Definition Name : string := "pointerreader".
Definition detectGolang : DetectFunc := λ h n,
  let '(params, returns) := Callable n in
  match StripContext h params, returns with
  | [k], [r] =>
      match PointerElem (re_Type r) with
      | None => None
      | Some elem => matched (QName (pa_Type k)) (QName (Some elem))
      end
  | _, _ => None
  end.
Definition Detector_ : Detector := MkDetector Name 450 (go_only detectGolang) false.
End pointerreader.

Module poisonaccessor.
Definition Name : string := "poisonaccessor".
Definition detectGolang : DetectFunc := λ h n,
  let '(params, returns) := Callable n in
  if negb (length params =? 0) || negb (length returns =? 1) then None
  else if negb (HasError h returns) then None
  else matched "" "".
Definition Detector_ : Detector := MkDetector Name 830 (go_only detectGolang) false.
End poisonaccessor.

Module predicate.
Definition Name : string := "predicate".
Definition detectGolang : DetectFunc := λ h n,
  match Callable n with
  | ([], [r]) => if negb (IsBool (re_Type r)) then None else matched "" ""
  | _ => None
  end.
Definition Detector_ : Detector := MkDetector Name 820 (go_only detectGolang) false.
End predicate.

Module pure_.
Definition Name : string := "pure".
Definition detectGolang : DetectFunc := λ h n,
  let '(params, returns) := Callable n in
  if HasContext h params || HasError h returns then None
  else match returns with
       | [r] => matched "" (QName (re_Type r))
       | _ => None
       end.
Definition Detector_ : Detector := MkDetector Name 800 (go_only detectGolang) false.
End pure_.

Module reader.
Definition Name : string := "reader".
Definition keyable (t : option TypeRef) : bool :=
  match t with
  | None => false
  | Some u => if IsAnonInterface u then false else Keyable (Some u)
  end.
Definition detectGolang : DetectFunc := λ h n,
  let '(params, returns) := Callable n in
  if negb (HasError h returns) then None
  else match StripContext h params, StripErrorTypes h returns with
       | [k], [v] => if negb (keyable (pa_Type k)) then None else matched (QName (pa_Type k)) (QName v)
       | _, _ => None
       end.
Definition Detector_ : Detector := MkDetector Name 420 (go_only detectGolang) false.
End reader.

Module readernoerror.
Definition Name : string := "readernoerror".
Definition detectGolang : DetectFunc := λ h n,
  let '(params, returns) := Callable n in
  match StripContext h params, StripErrorTypes h returns with
  | [k], [v] => if negb (length returns =? 1) then None else matched (QName (pa_Type k)) (QName v)
  | _, _ => None
  end.
Definition Detector_ : Detector := MkDetector Name 400 (go_only detectGolang) false.
End readernoerror.

Module readerwithbool.
Definition Name : string := "readerwithbool".
Definition detectGolang : DetectFunc := λ h n,
  let '(params, returns) := Callable n in
  match StripContext h params, returns with
  | [k], [a; b] =>
      if negb (IsBool (re_Type b)) then None else matched (QName (pa_Type k)) (QName (re_Type a))
  | _, _ => None
  end.
Definition Detector_ : Detector := MkDetector Name 840 (go_only detectGolang) false.
End readerwithbool.

Module streamconsumer.
Definition Name : string := "streamconsumer".
Definition MetaStreamType : Key := string_key "shape.stream_type".
Definition isStream (h : metas) (t : option TypeRef) : bool :=
  match t with
  | None => false
  | Some u => if IsTypeParam u then false else IsAnonInterface u || IsInterface h t
  end.
Definition detectGolang : DetectFunc := λ h n,
  let '(params, returns) := Callable n in
  if negb (HasContext h params) || negb (HasError h returns) then None
  else match StripContext h params, StripErrorTypes h returns with
       | [src], [v] =>
           if negb (isStream h (pa_Type src)) then None
           else Some (MkMatch "" "" (QName v) [MkStringStamp MetaStreamType (QName (pa_Type src))] [])
       | _, _ => None
       end.
Definition Detector_ : Detector := MkDetector Name 470 (go_only detectGolang) false.
End streamconsumer.

Module streamreader.
Definition Name : string := "streamreader".
Definition VariantSeq : string := "seq".
Definition VariantSeq2 : string := "seq2".
Definition Variant : Key := string_key "shape.streamreader.variant".
Definition variantOf (t : option TypeRef) : string :=
  match IteratorOfType t with
  | SeqIterator => VariantSeq
  | Seq2Iterator => VariantSeq2
  | NotIterator => ""
  end.
Definition detectGolang : DetectFunc := λ h n,
  match Callable n with
  | (params, [r]) =>
      let variant := variantOf (re_Type r) in
      if String.eqb variant "" then None
      else
        let keys := StripContext h params in
        if 1 <? length keys then None
        else Some (MkMatch "" (match keys with [k] => QName (pa_Type k) | _ => "" end)
                     (QName (IteratorElem (re_Type r))) [MkStringStamp Variant variant] [])
  | _ => None
  end.
Definition Detector_ : Detector := MkDetector Name 1000 (go_only detectGolang) false.
End streamreader.

Module voidlifecycle.
Definition Name : string := "voidlifecycle".
Definition detectGolang : DetectFunc := λ h n,
  let '(params, returns) := Callable n in
  if negb (length params =? 0) || negb (length returns =? 0) then None else matched "" "".
Definition Detector_ : Detector := MkDetector Name 810 (go_only detectGolang) false.
End voidlifecycle.

Module writer.
Definition Name : string := "writer".
Definition detectGolang : DetectFunc := λ h n,
  let '(params, returns) := Callable n in
  if negb (HasError h returns) then None
  else match StripContext h params, StripErrorTypes h returns with
       | [v], [] => matched "" (QName (pa_Type v))
       | _, _ => None
       end.
Definition Detector_ : Detector := MkDetector Name 500 (go_only detectGolang) false.
End writer.

Module detectors.

(** The order of [slices.SortFunc] by name, on names that differ. *)
Definition by_name : list Detector → list Detector := λ l,
  omap (λ n, List.find (λ d, String.eqb (dt_Name d) n) l) (sort_strings (dt_Name <$> l)).

Definition All : list Detector := by_name
  [aggregator.Detector_; answeringwriter.Detector_; batchreader.Detector_; closer.Detector_;
   compositewriter.Detector_; deleter.Detector_; lifecycle.Detector_; lookup_.Detector_;
   multiaggregator.Detector_; multiargwriter.Detector_; multireader.Detector_; mutator.Detector_;
   pointerreader.Detector_; poisonaccessor.Detector_; predicate.Detector_; pure_.Detector_;
   reader.Detector_; readernoerror.Detector_; readerwithbool.Detector_; streamconsumer.Detector_;
   streamreader.Detector_; voidlifecycle.Detector_; writer.Detector_].

End detectors.
