(* ===== verification/ShapeCatalog.v ===== *)
(** * plugins/annotator/shape: the shipped contracts and mixins

    One module per package of [src/plugins/annotator/shape/contracts] and
    [.../mixins] with its name, roles, parameters and check; [contracts.All]
    and [mixins.All] are the catalogs and [full_New] the plugin that
    carries everything.  [is_print] is [unicode.IsPrint], which [%q] consults. *)

From S2P Require Import Prelude GoStrings Unicode Meta Node NodeQueries GoQuote GoTypes GoEmbed Shape ShapeDetectors.

Local Open Scope string_scope.
Local Open Scope nat_scope.
Local Open Scope list_scope.

Import shape.

(** [slices.SortFunc] by name, on names that differ. *)
Definition sorted_by {A} (name : A → string) (l : list A) : list A :=
  omap (λ n, List.find (λ x, String.eqb (name x) n) l) (sort_strings (name <$> l)).

Module contracts.

Module appender.
Definition Name : string := "appender".
Definition RoleFn : string := "fn".
Definition Roles : list string := [RoleFn].
Definition Contract_ : Contract :=
  MkContract Name Roles false [] ∅ None.
End appender.

Module batchwriter.
Definition Name : string := "batch-writer".
Definition RoleWriter : string := "writer".
Definition RoleReader : string := "reader".
Definition ParamMode : string := "mode".
Definition ParamRefused : string := "refused".
Definition Roles : list string := [RoleWriter; RoleReader].
Definition Params : list Param :=
  [MkParam ParamMode KindOpaque "" false false;
   MkParam ParamRefused KindVar RoleWriter false true].
Definition Contract_ : Contract :=
  MkContract Name Roles false Params ∅ None.
End batchwriter.

Module cas.
Definition Name : string := "cas".
Definition ParamMismatch : string := "mismatch".
Definition ParamVersion : string := "version".
Definition RoleWriter : string := "writer".
Definition Roles : list string := [RoleWriter].
Definition Params : list Param :=
  [MkParam ParamVersion KindValueField "" false false;
   MkParam ParamMismatch KindVar "" false false].
Definition Contract_ : Contract :=
  MkContract Name Roles false Params ∅ None.
End cas.

Module chain.
Definition Name : string := "chain".
Definition RoleAppend : string := "append".
Definition RoleReplay : string := "replay".
Definition RoleVerify : string := "verify".
Definition Roles : list string := [RoleAppend; RoleReplay; RoleVerify].
Definition Required : gmap string (list string) := {[ RoleAppend := [RoleReplay] ]}.
Definition Contract_ : Contract :=
  MkContract Name Roles false [] Required None.
End chain.

Module circuitbreaker.
Definition Name : string := "circuit-breaker".
Definition RoleFn : string := "fn".
Definition Roles : list string := [RoleFn].
Definition Contract_ : Contract :=
  MkContract Name Roles false [] ∅ None.
End circuitbreaker.

Module codec.
Definition Name : string := "codec".
Definition RoleForward : string := "forward".
Definition RoleInverse : string := "inverse".
Definition ParamFidelity : string := "fidelity".
Definition FidelityExact : string := "exact".
Definition FidelityLossy : string := "lossy".
Definition Roles : list string := [RoleForward; RoleInverse].
Definition Params : list Param :=
  [MkParam ParamFidelity KindOpaque "" false false].
Definition Required : gmap string (list string) := {[ RoleForward := [RoleInverse] ]}.
Definition Contract_ : Contract :=
  MkContract Name Roles false Params Required None.
End codec.

Module cursor.
Definition Name : string := "cursor".
Definition ParamSentinel : string := "sentinel".
Definition ParamNext : string := "next".
Definition ParamClose : string := "close".
Definition RoleOpen : string := "open".
Definition RoleNext : string := "next".
Definition RoleClose : string := "close".
Definition Roles : list string := [RoleNext; RoleClose; RoleOpen].
Definition Params : list Param :=
  [MkParam ParamSentinel KindVar "" false false;
   MkParam ParamNext KindMember RoleOpen true false;
   MkParam ParamClose KindMember RoleOpen false false].
Definition Contract_ : Contract :=
  MkContract Name Roles false Params ∅ None.
End cursor.

Module ifabsent.
Definition Name : string := "if-absent".
Definition ParamConflict : string := "conflict".
Definition RoleWriter : string := "writer".
Definition Roles : list string := [RoleWriter].
Definition Params : list Param :=
  [MkParam ParamConflict KindVar "" false false].
Definition Contract_ : Contract :=
  MkContract Name Roles false Params ∅ None.
End ifabsent.

Module ifmatch.
Definition Name : string := "if-match".
Definition RoleWriter : string := "writer".
Definition RoleMatch : string := "match".
Definition ParamPred : string := "pred".
Definition ParamField : string := "field".
Definition Roles : list string := [RoleWriter; RoleMatch].
Definition Params : list Param :=
  [MkParam ParamField KindValueField "" false false;
   MkParam ParamPred KindOpaque "" false false].
Definition Contract_ : Contract :=
  MkContract Name Roles false Params ∅ None.
End ifmatch.

Module leaderelection.
Definition Name : string := "leader-election".
Definition RoleCampaign : string := "campaign".
Definition RoleResign : string := "resign".
Definition RoleIsLeader : string := "isleader".
Definition Roles : list string := [RoleCampaign; RoleResign; RoleIsLeader].
Definition Contract_ : Contract :=
  MkContract Name Roles false [] ({[ RoleCampaign := [RoleResign; RoleIsLeader] ]}) None.
End leaderelection.

Module lease.
Definition Name : string := "lease".
Definition ParamHeld : string := "held".
Definition ParamTimeout : string := "timeout".
Definition RoleAcquire : string := "acquire".
Definition RoleRelease : string := "release".
Definition Roles : list string := [RoleAcquire; RoleRelease].
Definition Params : list Param :=
  [MkParam ParamHeld KindVar "" false false;
   MkParam ParamTimeout KindOpaque "" false false].
Definition Contract_ : Contract :=
  MkContract Name Roles false Params ({[ RoleAcquire := [RoleRelease] ]}) None.
End lease.

Module outbox.
Definition Name : string := "outbox".
Definition RoleAppend : string := "append".
Definition RoleSubscribe : string := "subscribe".
Definition Roles : list string := [RoleAppend; RoleSubscribe].
Definition Contract_ : Contract :=
  MkContract Name Roles false [] ∅ None.
End outbox.

Module pagination.
Definition Name : string := "pagination".
Definition RoleReader : string := "reader".
Definition ParamCursor : string := "cursor".
Definition Roles : list string := [RoleReader].
Definition Params : list Param :=
  [MkParam ParamCursor KindValueField "" false false].
Definition Contract_ : Contract :=
  MkContract Name Roles false Params ∅ None.
End pagination.

Module persister.
Definition Name : string := "persister".
Definition RoleWriter : string := "writer".
Definition RoleReader : string := "reader".
Definition Roles : list string := [RoleWriter; RoleReader].
Definition Contract_ : Contract :=
  MkContract Name Roles false [] ∅ None.
End persister.

Module pool.
Definition Name : string := "pool".
Definition RoleGet : string := "get".
Definition RolePut : string := "put".
Definition RoleStats : string := "stats".
Definition Roles : list string := [RoleGet; RolePut; RoleStats].
(** One violation per member of a role after the first. *)
Definition validate (members : gmap string (list ContractMember)) : list ContractViolation :=
  mbind (λ role,
    let ms := default [] (members !! role) in
    let got := length ms in
    if got <=? 1 then []
    else (λ m, MkViolation (Some (cm_Host m))
                 ("pool requires exactly one " +:+ role +:+ "; got " +:+ itoa (Z.of_nat got) +:+ " callables"))
         <$> drop 1 ms) Roles.
Definition Contract_ : Contract :=
  MkContract Name Roles false [] ({[ RoleGet := [RolePut] ]}) (Some validate).
End pool.

Module publisher.
Definition Name : string := "publisher".
Definition RolePublish : string := "publish".
Definition RoleSubscribe : string := "subscribe".
Definition ParamMode : string := "mode".
Definition RoleRedeliver : string := "redeliver".
Definition ModeAtLeastOnce : string := "at-least-once".
Definition ModeAtMostOnce : string := "at-most-once".
Definition ModeExactlyOnce : string := "exactly-once".
Definition Roles : list string := [RolePublish; RoleSubscribe; RoleRedeliver].
Definition Params : list Param :=
  [MkParam ParamMode KindOpaque "" false false].
Definition Contract_ : Contract :=
  MkContract Name Roles false Params ∅ None.
End publisher.

Module ratelimit.
Definition Name : string := "rate-limit".
Definition RoleFn : string := "fn".
Definition ParamRate : string := "rate".
Definition ParamBurst : string := "burst".
Definition ParamLimited : string := "limited".
Definition Roles : list string := [RoleFn].
Definition Params : list Param :=
  [MkParam ParamBurst KindOpaque "" false false;
   MkParam ParamLimited KindVar "" false false;
   MkParam ParamRate KindOpaque "" false false].
Definition Contract_ : Contract :=
  MkContract Name Roles false Params ∅ None.
End ratelimit.

Module saga.
Definition Name : string := "saga".
Definition RoleStep : string := "step".
Definition RoleCompensate : string := "compensate".
Definition Roles : list string := [RoleStep; RoleCompensate].
Definition stepLabel (n : Node) : string :=
  match n with NFunction f => fn_Name f | NMethod m => m_Name m | _ => "" end.
(** [seen] maps a compensation to the step it is paired with. *)
Fixpoint validate_steps (steps : list ContractMember) (seen : gmap string string) : list ContractViolation :=
  match steps with
  | [] => []
  | step :: steps =>
      let comp := default "" (cm_Partners step !! RoleCompensate) in
      if String.eqb comp "" then validate_steps steps seen
      else match seen !! comp with
           | Some prev =>
               MkViolation (Some (cm_Host step))
                 ("saga: compensation " +:+ comp +:+ " is already paired with step " +:+ prev)
               :: validate_steps steps seen
           | None => validate_steps steps (<[comp := stepLabel (cm_Host step)]> seen)
           end
  end.
Definition validate (members : gmap string (list ContractMember)) : list ContractViolation :=
  validate_steps (default [] (members !! RoleStep)) ∅.
Definition Contract_ : Contract :=
  MkContract Name Roles false [] ({[ RoleStep := [RoleCompensate] ]}) (Some validate).
End saga.

Module singleflight.
Definition Name : string := "singleflight".
Definition RoleFn : string := "fn".
Definition Roles : list string := [RoleFn].
Definition Contract_ : Contract :=
  MkContract Name Roles false [] ∅ None.
End singleflight.

Module transaction.
Definition Name : string := "transaction".
Definition ParamNotFound : string := "notfound".
Definition ParamWrite : string := "write".
Definition ParamRead : string := "read".
Definition RoleFn : string := "fn".
Definition Roles : list string := [RoleFn].
Definition Params : list Param :=
  [MkParam ParamNotFound KindVar "" false false;
   MkParam ParamRead KindCallable RoleFn false false;
   MkParam ParamWrite KindCallable RoleFn false false].
Definition Contract_ : Contract :=
  MkContract Name Roles false Params ∅ None.
End transaction.

Module tx.
Definition Name : string := "tx".
Definition ParamClosed : string := "closed".
Definition RoleBegin : string := "begin".
Definition RoleCommit : string := "commit".
Definition RoleRollback : string := "rollback".
Definition Roles : list string := [RoleBegin; RoleCommit; RoleRollback].
Definition Params : list Param :=
  [MkParam ParamClosed KindVar "" false false].
Definition Contract_ : Contract :=
  MkContract Name Roles false Params ({[ RoleBegin := [RoleCommit; RoleRollback] ]}) None.
End tx.

Module updater.
Definition Name : string := "updater".
Definition RoleWriter : string := "writer".
Definition RoleReader : string := "reader".
Definition Roles : list string := [RoleWriter; RoleReader].
Definition Contract_ : Contract :=
  MkContract Name Roles false [] ∅ None.
End updater.

Module upserter.
Definition Name : string := "upserter".
Definition RoleWriter : string := "writer".
Definition RoleReader : string := "reader".
Definition Roles : list string := [RoleWriter; RoleReader].
Definition Contract_ : Contract :=
  MkContract Name Roles false [] ({[ RoleWriter := [RoleReader] ]}) None.
End upserter.

Module watcher.
Definition Name : string := "watcher".
Definition ParamNext : string := "next".
Definition ParamStop : string := "stop".
Definition RoleWatch : string := "watch".
Definition RoleTrigger : string := "trigger".
Definition Roles : list string := [RoleWatch; RoleTrigger].
Definition Params : list Param :=
  [MkParam ParamNext KindMember "" false false;
   MkParam ParamStop KindMember "" false false].
Definition Contract_ : Contract :=
  MkContract Name Roles false Params ∅ None.
End watcher.

Module workflow.
Definition Name : string := "workflow".
Definition RoleFn : string := "fn".
Definition ParamTransitions : string := "transitions".
Definition ParamObserve : string := "observe".
Definition Roles : list string := [RoleFn].
Definition Params : list Param :=
  [MkParam ParamObserve KindCallable "" false false;
   MkParam ParamTransitions KindVar "" false false].
Definition Contract_ : Contract :=
  MkContract Name Roles false Params ∅ None.
End workflow.

Module writethroughcache.
Definition Name : string := "cache".
Definition RoleCache : string := "cache".
Definition RoleBacking : string := "backing".
Definition Roles : list string := [RoleCache; RoleBacking].
Definition Contract_ : Contract :=
  MkContract Name Roles false [] ({[ RoleCache := [RoleBacking] ]}) None.
End writethroughcache.

Definition All : list Contract := sorted_by c_Name
  [appender.Contract_; batchwriter.Contract_; cas.Contract_; chain.Contract_; circuitbreaker.Contract_;
   codec.Contract_; cursor.Contract_; ifabsent.Contract_; ifmatch.Contract_; leaderelection.Contract_;
   lease.Contract_; outbox.Contract_; pagination.Contract_; persister.Contract_; pool.Contract_;
   publisher.Contract_; ratelimit.Contract_; saga.Contract_; singleflight.Contract_; transaction.Contract_;
   tx.Contract_; updater.Contract_; upserter.Contract_; watcher.Contract_; workflow.Contract_;
   writethroughcache.Contract_].

End contracts.

Module mixins.

Module accumulates.
Definition Name : string := "accumulates".
Definition ParamObserve : string := "observe".
Definition Params : list Param :=
  [MkParam ParamObserve KindCallable "" false false].
Definition Mixin_ : Mixin := MkMixin Name Params false None.
End accumulates.

Module associative.
Definition Name : string := "associative".
Definition Mixin_ : Mixin := MkMixin Name [] false None.
End associative.

Module atomic.
Definition Name : string := "atomic".
Definition ParamRead : string := "read".
Definition Params : list Param :=
  [MkParam ParamRead KindCallable "" false false].
Definition Mixin_ : Mixin := MkMixin Name Params false None.
End atomic.

Module bounded.
Definition Name : string := "bounded".
Definition ParamLimit : string := "limit".
Definition ParamMin : string := "min".
Definition Params : list Param :=
  [MkParam ParamMin KindOpaque "" false false;
   MkParam ParamLimit KindOpaque "" false false].
Definition Mixin_ : Mixin := MkMixin Name Params false None.
End bounded.

Module cacheable.
Definition Name : string := "cacheable".
Definition Mixin_ : Mixin := MkMixin Name [] false None.
End cacheable.

Module causal.
Definition Name : string := "causal".
Definition ParamVersion : string := "version".
Definition Params : list Param :=
  [MkParam ParamVersion KindValueField "" false false].
Definition Mixin_ : Mixin := MkMixin Name Params false None.
End causal.

Module commutative.
Definition Name : string := "commutative".
Definition Mixin_ : Mixin := MkMixin Name [] false None.
End commutative.

Module concurrent.
Definition Name : string := "concurrent".
Definition Mixin_ : Mixin := MkMixin Name [] false None.
End concurrent.

Module concurrentreaders.
Definition Name : string := "concurrentreaders".
Definition Mixin_ : Mixin := MkMixin Name [] false None.
End concurrentreaders.

Module conservative.
Definition Name : string := "conservative".
Definition ParamField : string := "field".
Definition Params : list Param :=
  [MkParam ParamField KindOpaque "" false false].
Definition Mixin_ : Mixin := MkMixin Name Params false None.
End conservative.

Module crdtmerge.
Definition Name : string := "crdtmerge".
Definition ParamWrite : string := "write".
Definition ParamRead : string := "read".
Definition Params : list Param :=
  [MkParam ParamWrite KindCallable "" false false;
   MkParam ParamRead KindCallable "" false false].
Definition Mixin_ : Mixin := MkMixin Name Params false None.
End crdtmerge.

Module defaultonerror.
Definition Name : string := "defaultonerror".
Definition Mixin_ : Mixin := MkMixin Name [] false None.
End defaultonerror.

Module deleteremoves.
Definition Name : string := "deleteremoves".
Definition ParamRead : string := "read".
Definition ParamSentinel : string := "sentinel".
Definition Params : list Param :=
  [MkParam ParamRead KindCallable "" false false;
   MkParam ParamSentinel KindVar "" false false].
Definition Mixin_ : Mixin := MkMixin Name Params false None.
End deleteremoves.

Module deprecated.
Definition Name : string := "deprecated".
Definition Mixin_ : Mixin := MkMixin Name [] true None.
End deprecated.

Module errors.
Definition Name : string := "errors".
Definition Mixin_ : Mixin := MkMixin Name [] true None.
End errors.

Module eventually.
Definition Name : string := "eventually".
Definition ParamSettle : string := "settle".
Definition ParamSync : string := "sync".
Definition ParamObserve : string := "observe".
Definition Params : list Param :=
  [MkParam ParamObserve KindCallable "" false false;
   MkParam ParamSettle KindCallable "" false false;
   MkParam ParamSync KindCallable "" false false].
Definition Mixin_ : Mixin := MkMixin Name Params false None.
End eventually.

Module hooks.
Definition Name : string := "hooks".
Definition ParamRegister : string := "register".
Definition Params : list Param :=
  [MkParam ParamRegister KindCallable "" false false].
Definition Mixin_ : Mixin := MkMixin Name Params false None.
End hooks.

Module idempotent.
Definition Name : string := "idempotent".
Definition Mixin_ : Mixin := MkMixin Name [] false None.
End idempotent.

Module indexed.
Definition Name : string := "indexed".
Definition ParamBy : string := "by".
Definition Params : list Param :=
  [MkParam ParamBy KindCallable "" false false].
Definition Mixin_ : Mixin := MkMixin Name Params false None.
End indexed.

Module injectionsafe.
Definition Name : string := "injectionsafe".
Definition ParamRead : string := "read".
Definition ParamUnsafe : string := "unsafe".
Definition Params : list Param :=
  [MkParam ParamRead KindCallable "" false false;
   MkParam ParamUnsafe KindVar "" false true].
Definition Mixin_ : Mixin := MkMixin Name Params false None.
End injectionsafe.

Module integrationonly.
Definition Name : string := "integrationonly".
Definition Mixin_ : Mixin := MkMixin Name [] false None.
End integrationonly.

Module leakfree.
Definition Name : string := "leakfree".
Definition ParamOpen : string := "open".
Definition ParamClose : string := "close".
Definition Params : list Param :=
  [MkParam ParamOpen KindCallable "" false false;
   MkParam ParamClose KindCallable "" false false].
Definition Mixin_ : Mixin := MkMixin Name Params false None.
End leakfree.

Module lifecycleafterclose.
Definition Name : string := "lifecycleafterclose".
Definition ParamClose : string := "close".
Definition ParamSentinel : string := "sentinel".
Definition Params : list Param :=
  [MkParam ParamClose KindCallable "" false false;
   MkParam ParamSentinel KindVar "" false false].
Definition Mixin_ : Mixin := MkMixin Name Params false None.
End lifecycleafterclose.

Module monotonic.
Definition Name : string := "monotonic".
Definition Mixin_ : Mixin := MkMixin Name [] false None.
End monotonic.

Module monotonicreads.
Definition Name : string := "monotonicreads".
Definition ParamVersion : string := "version".
Definition Params : list Param :=
  [MkParam ParamVersion KindValueField "" false false].
Definition Mixin_ : Mixin := MkMixin Name Params false None.
End monotonicreads.

Module monotonicwrites.
Definition Name : string := "monotonicwrites".
Definition ParamVersion : string := "version".
Definition Params : list Param :=
  [MkParam ParamVersion KindValueField "" false false].
Definition Mixin_ : Mixin := MkMixin Name Params false None.
End monotonicwrites.

Module nilsafe.
Definition Name : string := "nilsafe".
Definition Mixin_ : Mixin := MkMixin Name [] false None.
End nilsafe.

Module noduplicates.
Definition Name : string := "noduplicates".
Definition Mixin_ : Mixin := MkMixin Name [] false None.
End noduplicates.

Module notfound.
Definition Name : string := "notfound".
Definition ParamSentinel : string := "sentinel".
Definition Params : list Param :=
  [MkParam ParamSentinel KindVar "" false false].
Definition validate : MixinValidator := λ _ attachments,
  omap (λ a,
    if negb (String.eqb (default "" (ma_Params a !! ParamSentinel)) "") then None
    else Some (MkMixinViolation (Some (ma_Host a))
      ("notfound requires " +:+ ParamSentinel +:+ "=, naming the error a draw of an absent key reports"))) attachments.
Definition Mixin_ : Mixin := MkMixin Name Params false (Some validate).
End notfound.

Module orderafter.
Definition Name : string := "orderafter".
Definition ParamFn : string := "fn".
Definition ParamUnready : string := "unready".
Definition Params : list Param :=
  [MkParam ParamFn KindCallable "" true false;
   MkParam ParamUnready KindVar "" true false].
Definition Mixin_ : Mixin := MkMixin Name Params false None.
End orderafter.

Module overmatch.
Definition Name : string := "overmatch".
Definition Mixin_ : Mixin := MkMixin Name [] false None.
End overmatch.

Module partition.
Definition Name : string := "partition".
Definition ParamRead : string := "read".
Definition ParamAxis : string := "axis".
Definition Params : list Param :=
  [MkParam ParamRead KindCallable "" false false;
   MkParam ParamAxis KindParam "" false false].
Definition hasParam (params : list Node.Param) (name : string) : bool :=
  existsb (λ p, String.eqb (pa_Name p) name) params.
Definition partnerParams (owner_of : Method → option Node) (host : Node) (qname : string) : option (list Node.Param) :=
  if String.eqb qname "" then None
  else match host with
  | NMethod method =>
      let found :=
        match owner_of method with
        | Some (NStruct s) => Some (s_Methods s, Struct_QName s)
        | Some (NInterface i) => Some (i_Methods i, Interface_QName i)
        | _ => None
        end in
      match found with
      | None => None
      | Some (siblings, owner) =>
          if String.eqb owner "" then None
          else (λ m, (Callable (NMethod m)).1)
               <$> List.find (λ m, String.eqb (owner +:+ "." +:+ m_Name m) qname) siblings
      end
  | _ => None
  end.
Definition validateAxis (is_print : N → bool) : MixinValidator := λ owner_of attachments,
  omap (λ a,
    let axis := default "" (ma_Params a !! ParamAxis) in
    if String.eqb axis "" then None
    else
      let '(hostParams, _) := Callable (ma_Host a) in
      if negb (hasParam hostParams axis) then None
      else
        let read := default "" (ma_Params a !! ParamRead) in
        match partnerParams owner_of (ma_Host a) read with
        | None => None
        | Some ps =>
            if hasParam ps axis then None
            else Some (MkMixinViolation (Some (ma_Host a))
              (ParamAxis +:+ "=" +:+ Quote is_print axis +:+ " names no parameter of " +:+ ParamRead +:+ "=" +:+ Quote is_print read +:+
               ", so a check cannot carry one partition across the pair"))
        end) attachments.
Definition Mixin_ (is_print : N → bool) : Mixin := MkMixin Name Params false (Some (validateAxis is_print)).
End partition.

Module permutation.
Definition Name : string := "permutation".
Definition Mixin_ : Mixin := MkMixin Name [] false None.
End permutation.

Module pointintime.
Definition Name : string := "pointintime".
Definition ParamWrite : string := "write".
Definition Params : list Param :=
  [MkParam ParamWrite KindCallable "" false false].
Definition Mixin_ : Mixin := MkMixin Name Params false None.
End pointintime.

Module poisonable.
Definition Name : string := "poisonable".
Definition ParamInduce : string := "induce".
Definition Params : list Param :=
  [MkParam ParamInduce KindCallable "" false false].
Definition Mixin_ : Mixin := MkMixin Name Params false None.
End poisonable.

Module pure.
Definition Name : string := "pure".
Definition Mixin_ : Mixin := MkMixin Name [] false None.
End pure.

Module readafterwrite.
Definition Name : string := "readafterwrite".
Definition ParamWrite : string := "write".
Definition Params : list Param :=
  [MkParam ParamWrite KindCallable "" false false].
Definition Mixin_ : Mixin := MkMixin Name Params false None.
End readafterwrite.

Module readyourwrites.
Definition Name : string := "readyourwrites".
Definition ParamVersion : string := "version".
Definition Params : list Param :=
  [MkParam ParamVersion KindValueField "" false false].
Definition Mixin_ : Mixin := MkMixin Name Params false None.
End readyourwrites.

Module retrysucceeds.
Definition Name : string := "retrysucceeds".
Definition ParamAttempts : string := "attempts".
Definition Params : list Param :=
  [MkParam ParamAttempts KindOpaque "" false false].
Definition validate (is_print : N → bool) : MixinValidator := λ _ attachments,
  omap (λ a,
    let raw := default "" (ma_Params a !! ParamAttempts) in
    if String.eqb raw "" then None
    else if match atoi raw with Some n => (2 <=? n)%Z | None => false end then None
    else Some (MkMixinViolation (Some (ma_Host a))
      (ParamAttempts +:+ "=" +:+ Quote is_print raw +:+ " must be an integer of at least 2: one attempt is no retry")))
    attachments.
Definition Mixin_ (is_print : N → bool) : Mixin := MkMixin Name Params false (Some (validate is_print)).
End retrysucceeds.

Module sample.
Definition Name : string := "sample".
Definition ParamBuilder : string := "builder".
Definition Params : list Param :=
  [MkParam ParamBuilder KindCallable "" false false].
Definition Mixin_ : Mixin := MkMixin Name Params false None.
End sample.

Module scheduled.
Definition Name : string := "scheduled".
Definition ParamSchedule : string := "schedule".
Definition ParamFired : string := "fired".
Definition Params : list Param :=
  [MkParam ParamSchedule KindCallable "" false false;
   MkParam ParamFired KindCallable "" false false].
Definition Mixin_ : Mixin := MkMixin Name Params false None.
End scheduled.

Module scope.
Definition Name : string := "scope".
Definition ParamName : string := "name".
Definition ParamAxis : string := "axis".
Definition Params : list Param :=
  [MkParam ParamName KindOpaque "" false false;
   MkParam ParamAxis KindParam "" false false].
Definition Mixin_ : Mixin := MkMixin Name Params true None.
End scope.

Module serializable.
Definition Name : string := "serializable".
Definition ParamRead : string := "read".
Definition Params : list Param :=
  [MkParam ParamRead KindCallable "" false false].
Definition Mixin_ : Mixin := MkMixin Name Params false None.
End serializable.

Module sideeffect.
Definition Name : string := "sideeffect".
Definition ParamObserve : string := "observe".
Definition Params : list Param :=
  [MkParam ParamObserve KindCallable "" false false].
Definition Mixin_ : Mixin := MkMixin Name Params false None.
End sideeffect.

Module snapshotisolation.
Definition Name : string := "snapshotisolation".
Definition ParamRead : string := "read".
Definition Params : list Param :=
  [MkParam ParamRead KindCallable "" false false].
Definition Mixin_ : Mixin := MkMixin Name Params false None.
End snapshotisolation.

Module stableorder.
Definition Name : string := "stableorder".
Definition Mixin_ : Mixin := MkMixin Name [] false None.
End stableorder.

Module sticky.
Definition Name : string := "sticky".
Definition ParamKey : string := "key".
Definition Params : list Param :=
  [MkParam ParamKey KindParam "" false false].
Definition Mixin_ : Mixin := MkMixin Name Params false None.
End sticky.

Module streamreflectsmutations.
Definition Name : string := "streamreflectsmutations".
Definition ParamMutate : string := "mutate".
Definition ParamDelete : string := "delete".
Definition Params : list Param :=
  [MkParam ParamMutate KindCallable "" false false;
   MkParam ParamDelete KindCallable "" false false].
Definition Mixin_ : Mixin := MkMixin Name Params false None.
End streamreflectsmutations.

Module tamperevident.
Definition Name : string := "tamperevident".
Definition ParamTamper : string := "tamper".
Definition ParamVerify : string := "verify".
Definition Params : list Param :=
  [MkParam ParamTamper KindCallable "" false false;
   MkParam ParamVerify KindCallable "" false false].
Definition Mixin_ : Mixin := MkMixin Name Params false None.
End tamperevident.

Module timeaware.
Definition Name : string := "timeaware".
Definition Mixin_ : Mixin := MkMixin Name [] false None.
End timeaware.

Module timeout.
Definition Name : string := "timeout".
Definition ParamDuration : string := "duration".
Definition Params : list Param :=
  [MkParam ParamDuration KindOpaque "" false false].
Definition Mixin_ : Mixin := MkMixin Name Params false None.
End timeout.

Module total.
Definition Name : string := "total".
Definition ParamDomain : string := "domain".
Definition ParamEdge : string := "edge".
Definition Params : list Param :=
  [MkParam ParamDomain KindOpaque "" false false;
   MkParam ParamEdge KindVar "" false true].
Definition Mixin_ : Mixin := MkMixin Name Params false None.
End total.

Module ttl.
Definition Name : string := "ttl".
Definition ParamDuration : string := "duration".
Definition ParamLifetime : string := "lifetime".
Definition ParamPut : string := "put".
Definition ParamRead : string := "read".
Definition ParamNotFound : string := "notfound".
Definition Params : list Param :=
  [MkParam ParamDuration KindOpaque "" false false;
   MkParam ParamLifetime KindValueField "" false false;
   MkParam ParamPut KindCallable "" false false;
   MkParam ParamRead KindCallable "" false false;
   MkParam ParamNotFound KindVar "" false false].
Definition validate : MixinValidator := λ _ attachments,
  omap (λ a,
    if String.eqb (default "" (ma_Params a !! ParamDuration)) ""
       || String.eqb (default "" (ma_Params a !! ParamLifetime)) "" then None
    else Some (MkMixinViolation (Some (ma_Host a))
      ("ttl accepts " +:+ ParamDuration +:+ "= or " +:+ ParamLifetime +:+
       "=, not both: a lifetime is either fixed by the directive or carried by the value, and naming both leaves which one governs unsaid")))
    attachments.
Definition Mixin_ : Mixin := MkMixin Name Params false (Some validate).
End ttl.

Module validates.
Definition Name : string := "validates".
Definition ParamFn : string := "fn".
Definition ParamInvalid : string := "invalid".
Definition Params : list Param :=
  [MkParam ParamFn KindCallable "" false false;
   MkParam ParamInvalid KindVar "" false true].
Definition Mixin_ : Mixin := MkMixin Name Params false None.
End validates.

Module windowed.
Definition Name : string := "windowed".
Definition ParamIncr : string := "incr".
Definition ParamCount : string := "count".
Definition ParamWindow : string := "window".
Definition Params : list Param :=
  [MkParam ParamIncr KindCallable "" false false;
   MkParam ParamCount KindCallable "" false false;
   MkParam ParamWindow KindOpaque "" false false].
Definition Mixin_ : Mixin := MkMixin Name Params false None.
End windowed.

Module wrappedvia.
Definition Name : string := "wrappedvia".
Definition ParamFn : string := "fn".
Definition Params : list Param :=
  [MkParam ParamFn KindCallable "" false false].
Definition Mixin_ : Mixin := MkMixin Name Params false None.
End wrappedvia.

Module writesfollowreads.
Definition Name : string := "writesfollowreads".
Definition ParamVersion : string := "version".
Definition Params : list Param :=
  [MkParam ParamVersion KindValueField "" false false].
Definition Mixin_ : Mixin := MkMixin Name Params false None.
End writesfollowreads.

Module xsssafe.
Definition Name : string := "xsssafe".
Definition ParamUnsafe : string := "unsafe".
Definition Params : list Param :=
  [MkParam ParamUnsafe KindVar "" false true].
Definition Mixin_ : Mixin := MkMixin Name Params false None.
End xsssafe.

Definition All (is_print : N → bool) : list Mixin := sorted_by x_Name
  [accumulates.Mixin_; atomic.Mixin_; associative.Mixin_; causal.Mixin_; commutative.Mixin_;
   conservative.Mixin_; defaultonerror.Mixin_; injectionsafe.Mixin_; leakfree.Mixin_; monotonicreads.Mixin_;
   monotonicwrites.Mixin_; overmatch.Mixin_; permutation.Mixin_; poisonable.Mixin_; serializable.Mixin_;
   snapshotisolation.Mixin_; stableorder.Mixin_; sticky.Mixin_; tamperevident.Mixin_; timeaware.Mixin_;
   total.Mixin_; windowed.Mixin_; writesfollowreads.Mixin_; xsssafe.Mixin_; bounded.Mixin_;
   cacheable.Mixin_; concurrent.Mixin_; concurrentreaders.Mixin_; crdtmerge.Mixin_; deleteremoves.Mixin_;
   deprecated.Mixin_; errors.Mixin_; eventually.Mixin_; hooks.Mixin_; idempotent.Mixin_; indexed.Mixin_;
   integrationonly.Mixin_; lifecycleafterclose.Mixin_; monotonic.Mixin_; noduplicates.Mixin_;
   notfound.Mixin_; pointintime.Mixin_; readyourwrites.Mixin_; scheduled.Mixin_; ttl.Mixin_; nilsafe.Mixin_;
   orderafter.Mixin_; partition.Mixin_ is_print; pure.Mixin_; readafterwrite.Mixin_; retrysucceeds.Mixin_
   is_print; sample.Mixin_; scope.Mixin_; sideeffect.Mixin_; streamreflectsmutations.Mixin_; timeout.Mixin_;
   validates.Mixin_; wrappedvia.Mixin_].

End mixins.

(** [full.New]: every axis. *)
Definition full_New (is_print : N → bool) : Plugin :=
  Mixins_ (Contracts_ (Detectors New detectors.All) contracts.All) (mixins.All is_print).
