(* ===== verification/ShapeResolver.v ===== *)
(** * plugins/annotator/shape: the resolver and the validator

    [resolver.go] and [validator.go] of [src/plugins/annotator/shape], with
    the walk of [src/plugin/walk.go] that drives them.  The resolver rewrites
    the names the umbrella plugin stamped into qualified names and stamps the
    partners back; the validator reports what is missing.

    The indexes of the resolver are a record built by [BeforeNodes]; maps
    keyed by a node are keyed by its pointer.  [reader] answers declarations,
    as in [GoEmbed]; a walk that [GoEmbed] leaves undefined, and a result
    without a type, which the code dereferences, find nothing here. *)

From S2P Require Import Prelude GoStrings Position Diag Meta Directive Node NodeQueries StoreIndex StoreOps StoreNodes GoTypes GoEmbed Shape.

Local Open Scope string_scope.
Local Open Scope nat_scope.
Local Open Scope list_scope.

(** ** [plugin/walk.go] *)

Module walk.

(** The hooks a target implements, [None] for the ones it does not; they act
    on the state of the target and of the run. *)
Record hooks (S : Type) := MkHooks {
  BeforeNodes : option (S → S);
  OnStruct : option (Struct → S → S);
  OnInterface : option (Interface → S → S);
  OnMethod : option (Method → S → S);
  OnFunction : option (Function_ → S → S);
  AfterNodes : option (S → S);
}.
Arguments MkHooks {S}.
Arguments BeforeNodes {S}.
Arguments OnStruct {S}.
Arguments OnInterface {S}.
Arguments OnMethod {S}.
Arguments OnFunction {S}.
Arguments AfterNodes {S}.

Definition each_of {S T} (h : option (T → S → S)) (l : list T) (s : S) : S :=
  match h with None => s | Some f => fold_left (λ s x, f x s) l s end.
Definition once {S} (h : option (S → S)) (s : S) : S := match h with None => s | Some f => f s end.

Definition Walk {S} (v : NodeView) (h : hooks S) (s : S) : S :=
  let s := once (BeforeNodes h) s in
  let s := each_of (OnStruct h) (items (structs v)) s in
  let s := each_of (OnInterface h) (items (interfaces v)) s in
  let s := each_of (OnMethod h) (items (methods v)) s in
  let s := each_of (OnFunction h) (items (functions v)) s in
  once (AfterNodes h) s.

End walk.

Import shape.

(** ** [resolver.go] *)

Module resolver.

Definition ResolverName : string := "shape.contract.resolver".

Record methodOwner := MkOwner { mo_qname : string; mo_methods : list Method }.

Record Resolver := MkResolver {
  r_contracts : gmap string Contract;
  r_mixins : gmap string Mixin;
  r_methodOwner : gmap pointer (Method * methodOwner);
  r_funcPkg : gmap pointer (Function_ * Package);
  r_hostPkg : gmap pointer Package;
  r_typeMethods : gmap string (list Method);
  r_typeStructs : gmap string Struct;
  r_reader : option GoEmbed.Resolver;
}.

Definition Resolver_of (p : Plugin) : Resolver := MkResolver (contracts p) (mixins p) ∅ ∅ ∅ ∅ ∅ None.

(** One iteration over the methods of an owner. *)
Definition index_methods (owner : methodOwner) (pkg : Package) (ms : list Method) (r : Resolver) : Resolver :=
  fold_left (λ r m,
    MkResolver (r_contracts r) (r_mixins r) (<[ref (m_base m) := (m, owner)]> (r_methodOwner r)) (r_funcPkg r)
      (<[ref (m_base m) := pkg]> (r_hostPkg r)) (r_typeMethods r) (r_typeStructs r) (r_reader r)) ms r.

Definition index_struct (pkg : Package) (r : Resolver) (s : Struct) : Resolver :=
  let owner := MkOwner (Struct_QName s) (s_Methods s) in
  index_methods owner pkg (s_Methods s)
    (MkResolver (r_contracts r) (r_mixins r) (r_methodOwner r) (r_funcPkg r) (r_hostPkg r)
       (<[mo_qname owner := s_Methods s]> (r_typeMethods r)) (<[mo_qname owner := s]> (r_typeStructs r)) (r_reader r)).

Definition index_interface (pkg : Package) (r : Resolver) (i : Interface) : Resolver :=
  let owner := MkOwner (Interface_QName i) (i_Methods i) in
  index_methods owner pkg (i_Methods i)
    (MkResolver (r_contracts r) (r_mixins r) (r_methodOwner r) (r_funcPkg r) (r_hostPkg r)
       (<[mo_qname owner := i_Methods i]> (r_typeMethods r)) (r_typeStructs r) (r_reader r)).

Definition index_function (pkg : Package) (r : Resolver) (f : Function_) : Resolver :=
  MkResolver (r_contracts r) (r_mixins r) (r_methodOwner r) (<[ref (fn_base f) := (f, pkg)]> (r_funcPkg r))
    (<[ref (fn_base f) := pkg]> (r_hostPkg r)) (r_typeMethods r) (r_typeStructs r) (r_reader r).

Definition index_package (r : Resolver) (pkg : Package) : Resolver :=
  let r := fold_left (index_struct pkg) (p_Structs pkg) r in
  let r := fold_left (index_interface pkg) (p_Interfaces pkg) r in
  fold_left (index_function pkg) (p_Functions pkg) r.

Definition BeforeNodes (reader : option GoEmbed.Resolver) (pkgs : list Package) (r : Resolver) : Resolver :=
  fold_left index_package pkgs (MkResolver (r_contracts r) (r_mixins r) ∅ ∅ ∅ ∅ ∅ reader).

(** *** Scopes *)

Abbreviation resolveScope := (string → string).

Definition emptyScope : resolveScope := λ _, "".

Definition methodQName (owner method : string) : string :=
  if String.eqb owner "" then method else owner +:+ "." +:+ method.

(** The owner of an unknown method is the zero value. *)
Definition owner_of (r : Resolver) (m : Method) : methodOwner :=
  match r_methodOwner r !! ref (m_base m) with Some (_, o) => o | None => MkOwner "" [] end.

(** [for _, m := range methods { if m.Name == name { return ... } }] *)
Definition find_named {A} (name_of : A → string) (answer : A → string) (l : list A) : resolveScope := λ name,
  match List.find (λ x, String.eqb (name_of x) name) l with Some x => answer x | None => "" end.

Definition methodScope (owner : methodOwner) : resolveScope :=
  if String.eqb (mo_qname owner) "" then emptyScope
  else find_named m_Name (λ m, methodQName (mo_qname owner) (m_Name m)) (mo_methods owner).

Definition packageScope (pkg : option Package) : resolveScope :=
  match pkg with None => emptyScope | Some pkg => find_named fn_Name Function_QName (p_Functions pkg) end.

Definition varScope (pkg : option Package) : resolveScope :=
  match pkg with None => emptyScope | Some pkg => find_named v_Name Variable_QName (p_Variables pkg) end.

Definition paramScope (host : Node) : resolveScope :=
  find_named pa_Name pa_Name (Callable host).1.

Definition strip_pointer (t : option TypeRef) : option TypeRef :=
  match PointerElem t with Some elem => Some elem | None => t end.

(** The order in which the runtime ranges over a map keyed by nodes, and the
    first value in it that satisfies a test. *)
Class PtrOrder := {
  ptr_keys : ∀ {V : Type}, gmap pointer V → list pointer;
  ptr_keys_perm : ∀ {V : Type} (m : gmap pointer V), ptr_keys m ≡ₚ (map_to_list m).*1;
}.

#[global] Program Instance by_pointer : PtrOrder := {| ptr_keys V m := (map_to_list m).*1 |}.
Next Obligation. done. Qed.

Definition first_value `{PtrOrder} {V} (p : V → bool) (m : gmap pointer V) : option V :=
  List.find p (omap (λ k, m !! k) (ptr_keys m)).

Section Resolve.
  Context (r : Resolver).

Definition callableScope (host : Node) : resolveScope :=
  match host with
  | NMethod m => methodScope (owner_of r m)
  | NFunction f => packageScope (snd <$> r_funcPkg r !! ref (fn_base f))
  | _ => emptyScope
  end.

(** [None] is the nil scope: there is nothing to check against. *)
Definition memberScope (h : metas) (host : Node) : option resolveScope :=
  match StripErrorTypes h (Callable host).2 with
  | [] => None
  | answered :: _ =>
      let owner := QName (strip_pointer answered) in
      let methods := default [] (r_typeMethods r !! owner) in
      if String.eqb owner "" || (length methods =? 0) then None
      else Some (find_named m_Name (λ m, methodQName owner (m_Name m)) methods)
  end.

(** The loop that fills [loaded]: [None] when a type was not loaded. *)
Fixpoint load_types (candidates : list (option TypeRef)) : option (list (string * option Struct)) :=
  match candidates with
  | [] => Some []
  | t :: candidates =>
      let t := strip_pointer t in
      let qname := QName t in
      let decl := r_typeStructs r !! qname in
      if negb (bool_decide (is_Some decl)) && negb (match t with Some t => IsBuiltin t | None => false end)
      then None
      else rest ← load_types candidates; Some ((qname, decl) :: rest)
  end.

Fixpoint first_field (loaded : list (string * option Struct)) (name : string) : string :=
  match loaded with
  | [] => ""
  | (qname, decl) :: loaded =>
      match decl with
      | None => first_field loaded name
      | Some s =>
          match MemberField (r_reader r) (Some s) name with
          | Some (Some _) => qname +:+ "." +:+ name
          | _ => first_field loaded name
          end
      end
  end.

Definition valueFieldScope (h : metas) (host : Node) : option resolveScope :=
  let '(params, returns) := Callable host in
  let candidates :=
    match StripErrorTypes h returns with
    | t :: _ => [t]
    | [] => omap (λ p, match pa_Type p with None => None | t => Some t end) (StripContext h params)
    end in
  match load_types candidates with
  | None | Some [] => None
  | Some loaded => Some (first_field loaded)
  end.

Definition scopeFor (h : metas) (kind : ParamKind) (host : Node) (callable : option resolveScope)
    : option resolveScope :=
  match kind with
  | KindCallable => Some (match callable with Some s => s | None => callableScope host end)
  | KindVar => Some (varScope (r_hostPkg r !! node_ref host))
  | KindMember => memberScope h host
  | KindValueField => valueFieldScope h host
  | KindParam => Some (paramScope host)
  | KindOpaque | KindOther _ => None
  end.

(** *** Resolution *)

Definition isQualified (name : string) : bool := bool_decide (is_Some (index_byte name ".")).

(** [bagByQName], up to the bag: a method of that name, or else a function, the
    first one the runtime comes to in each map. *)
Definition node_by_qname `{PtrOrder} (qname : string) : option BaseNode :=
  match first_value (λ x : Method * methodOwner,
          String.eqb (methodQName (mo_qname x.2) (m_Name x.1)) qname) (r_methodOwner r) with
  | Some (m, _) => Some (m_base m)
  | None =>
      match first_value (λ x : Function_ * Package, String.eqb (Function_QName x.1) qname) (r_funcPkg r) with
      | Some (f, _) => Some (fn_base f)
      | None => None
      end
  end.

Context `{PtrOrder}.

Definition backstamp (spec : Contract) (partnerRole hostQName hostRole partnerQName : string) (st : astate) : astate :=
  match node_by_qname partnerQName with
  | None => st
  | Some b =>
      let st := EnsureMeta b st in
      let st := if bool_decide (c_Name spec ∈ Contracts (bag_of b st)) then st else appendContract b (c_Name spec) st in
      let roleKey := ContractRoleKey (c_Name spec) in
      let st :=
        if String.eqb (default "" (get_string (bag_of b st) roleKey)) ""
        then set_key b roleKey (VString partnerRole) ResolverName st else st in
      if String.eqb hostRole "" then st
      else
        let reverse := ContractPartnerKey (c_Name spec) hostRole in
        if String.eqb (default "" (get_string (bag_of b st) reverse)) ""
        then set_key b reverse (VString hostQName) ResolverName st else st
  end.

Definition resolvePartner (host : Node) (hostQName hostRole partnerRole : string) (scope : resolveScope)
    (spec : Contract) (st : astate) : astate :=
  let b := node_base host in
  let partnerKey := ContractPartnerKey (c_Name spec) partnerRole in
  let raw := default "" (get_string (bag_of b st) partnerKey) in
  if String.eqb raw "" then st
  else if isQualified raw then backstamp spec partnerRole hostQName hostRole raw st
  else
    let qname := scope raw in
    if String.eqb qname "" then
      report ResolverName (pos_of host) "shape.contract %q: partner %q=%q not found in scope"
        [AStr (c_Name spec); AStr partnerRole; AStr raw] st
    else backstamp spec partnerRole hostQName hostRole qname (set_key b partnerKey (VString qname) ResolverName st).

(** The rewriting shared by contract and mixin parameters. *)
Definition resolve_param (host : Node) (key : Key) (scope : resolveScope) (fmt : string) (who : string) (p : shape.Param)
    (st : astate) : astate :=
  let b := node_base host in
  let raw := default "" (get_string (bag_of b st) key) in
  if String.eqb raw "" || isQualified raw then st
  else
    let qname := scope raw in
    if String.eqb qname "" then
      report ResolverName (pos_of host) fmt
        [AStr who; AStr (pr_Key p); AStr raw; AStr (scopeNoun (pr_Kind p))] st
    else set_key b key (VString qname) ResolverName st.

Definition resolveContractVars (host : Node) (role : string) (spec : Contract) (st : astate) : astate :=
  fold_left (λ st p,
    match scopeFor (a_metas st) (pr_Kind p) host None with
    | None => st
    | Some resolveIn =>
        resolve_param host (ContractParamKey (c_Name spec) (pr_Key p)) resolveIn
          "shape.contract %q: %s=%q names no %s" (c_Name spec) p st
    end) (ParamsForRole (c_Params spec) role) st.

Definition flagUnknownPartnerRoles (host : Node) (spec : Contract) (st : astate) : astate :=
  let prefix := "shape.contract." +:+ c_Name spec +:+ ".partner." in
  fold_left (λ st name,
    if negb (has_prefix name prefix) then st
    else
      let role := trim_prefix name prefix in
      if bool_decide (role ∈ c_Roles spec) then st
      else report ResolverName (pos_of host)
             "shape.contract %q: partner role %q is not in the declared role vocabulary %v"
             [AStr (c_Name spec); AStr role; AList (c_Roles spec)] st)
    (Meta.Names (bag_of (node_base host) st)) st.

Definition resolveOne (host : Node) (hostQName : string) (scope : resolveScope) (spec : Contract) (st : astate) : astate :=
  let role := default "" (get_string (bag_of (node_base host) st) (ContractRoleKey (c_Name spec))) in
  let st :=
    if negb (String.eqb role "") && negb (bool_decide (role ∈ c_Roles spec)) then
      report ResolverName (pos_of host) "shape.contract %q: role %q is not in the declared role vocabulary %v"
        [AStr (c_Name spec); AStr role; AList (c_Roles spec)] st
    else st in
  let st := fold_left (λ st partnerRole,
    if String.eqb partnerRole role then st
    else resolvePartner host hostQName role partnerRole scope spec st) (c_Roles spec) st in
  flagUnknownPartnerRoles host spec (resolveContractVars host role spec st).

Definition resolve (host : Node) (hostQName : string) (scope : resolveScope) (st : astate) : astate :=
  fold_left (λ st name,
    match r_contracts r !! name with
    | None =>
        report ResolverName (pos_of host)
          "shape: contract %q is stamped on this callable but not registered with the resolver" [AStr name] st
    | Some spec => resolveOne host hostQName scope spec st
    end) (Contracts (bag_of (node_base host) st)) st.

Definition resolveMixins (host : Node) (scope : resolveScope) (st : astate) : astate :=
  fold_left (λ st name,
    match r_mixins r !! name with
    | None => st
    | Some spec =>
        fold_left (λ st p,
          match scopeFor (a_metas st) (pr_Kind p) host (Some scope) with
          | None => st
          | Some resolveIn =>
              resolve_param host (MixinParamKey (x_Name spec) (pr_Key p)) resolveIn
                "shape.mixin %q: %s=%q names no %s" (x_Name spec) p st
          end) (x_Params spec) st
    end) (Mixins (bag_of (node_base host) st)) st.

Definition OnMethod (m : Method) (st : astate) : astate :=
  let owner := owner_of r m in
  let scope := methodScope owner in
  let st := EnsureMeta (m_base m) st in
  resolveMixins (NMethod m) scope (resolve (NMethod m) (methodQName (mo_qname owner) (m_Name m)) scope st).

Definition OnFunction (f : Function_) (st : astate) : astate :=
  let scope := packageScope (snd <$> r_funcPkg r !! ref (fn_base f)) in
  let st := EnsureMeta (fn_base f) st in
  resolveMixins (NFunction f) scope (resolve (NFunction f) (Function_QName f) scope st).

End Resolve.

(** [Resolver.Annotate]: the walk over a store, on the resolver and the run. *)
Definition Annotate `{PtrOrder} (reader : option GoEmbed.Resolver) (v : NodeView) (s : Resolver * astate)
    : Resolver * astate :=
  walk.Walk v (walk.MkHooks
    (Some (λ s, (BeforeNodes reader (items (packages v)) s.1, s.2))) None None
    (Some (λ m s, (s.1, OnMethod s.1 m s.2))) (Some (λ f s, (s.1, OnFunction s.1 f s.2))) None) s.

End resolver.

(** ** [validator.go] *)

Module validator.

Definition ValidatorName : string := "shape.contract.validator".

Record Validator := MkValidator {
  v_contracts : gmap string Contract;
  v_mixins : gmap string Mixin;
  v_members : gmap string (gmap string (list ContractMember));
  v_attachments : gmap string (list MixinAttachment);
}.

Definition Validator_of (p : Plugin) : Validator := MkValidator (contracts p) (mixins p) ∅ ∅.

Abbreviation vstate := (Validator * astate)%type.

Definition BeforeNodes (v : Validator) : Validator := MkValidator (v_contracts v) (v_mixins v) ∅ ∅.

(** [key.Get(bag)], empty when absent. *)
Definition stamped (ob : option Bag) (k : Key) : string := default "" (get_string ob k).

Definition checkRequired (host : Node) (role : string) (spec : Contract) (st : astate) : astate :=
  match c_Required spec !! role with
  | None => st
  | Some required =>
      fold_left (λ st partnerRole,
        if negb (String.eqb (stamped (bag_of (node_base host) st) (ContractPartnerKey (c_Name spec) partnerRole)) "")
        then st
        else report ValidatorName (pos_of host)
               "shape.contract %q: role %q requires partner %q, none stamped"
               [AStr (c_Name spec); AStr role; AStr partnerRole] st) required st
  end.

Definition checkRequiredContractParams (host : Node) (role : string) (spec : Contract) (st : astate) : astate :=
  fold_left (λ st p,
    if negb (pr_Required p) then st
    else if negb (String.eqb (stamped (bag_of (node_base host) st) (ContractParamKey (c_Name spec) (pr_Key p))) "")
    then st
    else report ValidatorName (pos_of host) "shape.contract %q: role %q requires %s=, none stamped"
           [AStr (c_Name spec); AStr role; AStr (pr_Key p)] st) (ParamsForRole (c_Params spec) role) st.

Definition checkRequiredMixinParams (host : Node) (spec : Mixin) (st : astate) : astate :=
  fold_left (λ st p,
    if negb (pr_Required p) then st
    else if negb (String.eqb (stamped (bag_of (node_base host) st) (MixinParamKey (x_Name spec) (pr_Key p))) "")
    then st
    else report ValidatorName (pos_of host) "shape.mixin %q: requires %s=, none stamped"
           [AStr (x_Name spec); AStr (pr_Key p)] st) (x_Params spec) st.

(** The stamps of a host under the keys of a vocabulary. *)
Definition snapshot (ob : option Bag) (key : string → Key) (names : list string) : gmap string string :=
  fold_left (λ m n, let v := stamped ob (key n) in if String.eqb v "" then m else <[n := v]> m) names ∅.

Definition accumulate (spec : Contract) (role : string) (host : Node) (ob : option Bag) (v : Validator) : Validator :=
  let byRole := default ∅ (v_members v !! c_Name spec) in
  let existing := default [] (byRole !! role) in
  if existsb (λ m, bool_decide (node_ref (cm_Host m) = node_ref host)) existing
  then MkValidator (v_contracts v) (v_mixins v) (<[c_Name spec := byRole]> (v_members v)) (v_attachments v)
  else
    let partners := snapshot ob (ContractPartnerKey (c_Name spec))
                      (List.filter (λ p, negb (String.eqb p role)) (c_Roles spec)) in
    let params := snapshot ob (ContractParamKey (c_Name spec)) (ParamKeys (ParamsForRole (c_Params spec) role)) in
    MkValidator (v_contracts v) (v_mixins v)
      (<[c_Name spec := <[role := existing ++ [MkMember host partners params]]> byRole]> (v_members v))
      (v_attachments v).

Definition accumulateMixin (spec : Mixin) (host : Node) (ob : option Bag) (v : Validator) : Validator :=
  let existing := default [] (v_attachments v !! x_Name spec) in
  if existsb (λ a, bool_decide (node_ref (ma_Host a) = node_ref host)) existing then v
  else MkValidator (v_contracts v) (v_mixins v) (v_members v)
         (<[x_Name spec := existing ++
              [MkAttachment host (snapshot ob (MixinParamKey (x_Name spec)) (ParamKeys (x_Params spec)))]]>
            (v_attachments v)).

(** Nothing in the visit writes metadata: the bag is read once. *)
Definition visit (host : Node) (s : vstate) : vstate :=
  let ob := bag_of (node_base host) s.2 in
  let s := fold_left (λ s name,
    match v_contracts s.1 !! name with
    | None => s
    | Some spec =>
        let role := stamped ob (ContractRoleKey (c_Name spec)) in
        (accumulate spec role host ob s.1,
         checkRequiredContractParams host role spec (checkRequired host role spec s.2))
    end) (Contracts ob) s in
  fold_left (λ s name,
    match v_mixins s.1 !! name with
    | None => s
    | Some spec => (accumulateMixin spec host ob s.1, checkRequiredMixinParams host spec s.2)
    end) (Mixins ob) s.

(** [posOf] *)
Definition posOf (n : option Node) : Pos := match n with None => zero_pos | Some n => pos_of n end.

Section After.
  Context `{MapOrder} (owner_of : Method → option Node).

Definition AfterNodes (s : vstate) : vstate :=
  let '(v, st) := s in
  let st := fold_left (λ st name,
    match v_contracts v !! name with
    | Some spec =>
        match c_Validate spec with
        | None => st
        | Some validate =>
            fold_left (λ st w, report ValidatorName (posOf (cv_Host w)) "shape.contract %q: %s"
                                 [AStr name; AStr (cv_Message w)] st)
              (validate (default ∅ (v_members v !! name))) st
        end
    | None => st
    end) (map_keys (v_members v)) st in
  let st := fold_left (λ st name,
    match v_mixins v !! name with
    | Some spec =>
        match x_Validate spec with
        | None => st
        | Some validate =>
            fold_left (λ st w, report ValidatorName (posOf (mv_Host w)) "shape.mixin %q: %s"
                                 [AStr name; AStr (mv_Message w)] st)
              (validate owner_of (default [] (v_attachments v !! name))) st
        end
    | None => st
    end) (map_keys (v_attachments v)) st in
  (v, st).

(** [Validator.Annotate] *)
Definition Annotate (view : NodeView) (s : vstate) : vstate :=
  walk.Walk view (walk.MkHooks (Some (λ s, (BeforeNodes s.1, s.2))) None None
    (Some (λ m s, visit (NMethod m) s)) (Some (λ f s, visit (NFunction f) s)) (Some AfterNodes)) s.

End After.

End validator.

(** [Plugin.Annotators], run in order: the umbrella, the resolver and the
    validator, over one store. *)
Definition annotate_all `{MapOrder} `{!resolver.PtrOrder} (p : Plugin) (reader : option GoEmbed.Resolver) (owner_of : Method → option Node)
    (view : NodeView) (st : astate) : astate :=
  let st := Annotate p (items (packages view)) st in
  let st := (resolver.Annotate reader view (resolver.Resolver_of p, st)).2 in
  (validator.Annotate owner_of view (validator.Validator_of p, st)).2.
