(* ===== verification/ShapeLaws.v ===== *)
(** * plugins/annotator/shape: what the umbrella plugin stamps

    Dispatch over detectors, the catalog, and the stamping of contracts and
    mixins.  The bags the pass writes are [plain]: no user directive or manual
    write shadows the plugin's own stamps, so a read answers the last write
    to its key ([set_key_fact]). *)

From S2P Require Import Prelude GoStrings Position Diag Meta MetaLaws Directive Plugin Node NodeQueries GoTypes GoEmbed Shape ShapeDetectors ShapeCatalog.

Local Open Scope string_scope.
Local Open Scope nat_scope.
Local Open Scope list_scope.

Import shape.

(** ** Bags only plugins wrote to *)

Definition plain (b : Bag) : Prop :=
  bag_wf b ∧ ∀ name a e, (0 <= a < 3)%Z → entry_at b name a = Some e → a = 0%Z ∧ tombstone e = false.

Lemma plain_new : plain NewBag.
Proof. split; [apply map_Forall_empty|done]. Qed.

Lemma plain_raw b name : plain b → RawValue (Some b) name = e_value <$> entry_at b name 0%Z.
Proof.
  intros [_ Hp]. unfold RawValue. pose proof (Winning_resolves b name) as Hw. simpl in Hw.
  destruct (entry_at b name 0%Z) as [e|] eqn:He.
  - destruct (Hp name 0%Z e) as [_ Ht]; [lia|done|].
    assert (winningLocked b name = Some (entryToProv e 0%Z "")) as ->.
    { apply Hw. exists 0%Z. split_and!; [lia|lia| |].
      - apply resolves_value; [done|done|]. intros a _ (e' & He' & Ht'). apply Hp in He' as [_ ?]; [congruence|lia].
      - intros a q Ha Hq. inversion Hq as [e' He'|e' a' _ _ He'|e' He']; subst; apply Hp in He' as [? _]; lia. }
    simpl. by rewrite Ht.
  - destruct (winningLocked b name) as [p|] eqn:E; [|done]. exfalso.
    destruct (proj1 (Hw p) eq_refl) as (a & Ha & Hr & _).
    inversion Hr as [e' He' Ht'|e' a' _ _ He' Ht'|e' He' Ht']; subst; apply Hp in He' as Hq; try lia; destruct Hq as [-> Hq];
      congruence.
Qed.

Lemma Set_do_write k b v by_ : Set_ k b v by_ = do_write b (WSet (k_name k) v AuthorityPlugin by_ zero_pos).
Proof. done. Qed.

Lemma plain_set k b v by_ : plain b → plain (after (Set_ k b v by_)).
Proof.
  intros [Hwf Hp]. rewrite Set_do_write. split; [by apply do_write_wf|]. intros name a e Ha.
  rewrite entry_at_do_write by done. case_decide as Hd; [|by apply Hp].
  intros [= <-]. split; [|done]. by destruct Hd as [_ <-].
Qed.

Lemma raw_set k b v by_ name :
  plain b → RawValue (Some (after (Set_ k b v by_))) name =
    if decide (k_name k = name) then Some (Some v) else RawValue (Some b) name.
Proof.
  intros Hb. rewrite (plain_raw (after _)) by by apply plain_set. rewrite Set_do_write, entry_at_do_write by (apply Hb || lia).
  cbn [w_name w_auth w_entry]. destruct (decide (k_name k = name)) as [->|Hn].
  - by rewrite decide_True.
  - rewrite decide_False by naive_solver. by rewrite plain_raw.
Qed.

(** ** Facts of a node *)

Definition plain_at (b : BaseNode) (st : astate) : Prop := ∀ g, bag_of b st = Some g → plain g.

(** What a read of a key of the node answers. *)
Definition fact (st : astate) (b : BaseNode) (name : string) : option (option value) := RawValue (bag_of b st) name.

Lemma get_string_fact st b name :
  get_string (bag_of b st) (string_key name) =
    match fact st b name with
    | Some (Some (VString s)) => Some s
    | Some (Some (VRaw j)) => unmarshal_string j
    | _ => None
    end.
Proof.
  unfold get_string, Get, fact. cbn [k_name k_ty string_key]. destruct (RawValue _ _) as [[[]|]|]; simpl; try done.
  by destruct (unmarshal_string j).
Qed.

Lemma get_list_fact st b name :
  get_list (bag_of b st) (list_key name) =
    match fact st b name with
    | Some (Some (VStrings (Some l))) => l
    | Some (Some (VRaw (JArr l))) => default [] (mapM unmarshal_string l)
    | _ => []
    end.
Proof.
  unfold get_list, Get, fact. cbn [k_name k_ty list_key]. destruct (RawValue _ _) as [[[]|]|]; simpl; try done.
  destruct j; try done. by destruct (mapM unmarshal_string l).
Qed.

Lemma ensure_fact st b b' name : plain_at b st → fact (EnsureMeta b st) b' name = fact st b' name.
Proof.
  intros _. unfold fact, bag_of, EnsureMeta, base_EnsureMeta, base_Meta. simpl.
  destruct (a_metas st !! ref b) as [g|] eqn:E; [done|]. simpl.
  destruct (decide (ref b = ref b')) as [<-|Hn]; [|by rewrite lookup_insert_ne].
  rewrite lookup_insert_eq, E. rewrite plain_raw by apply plain_new. done.
Qed.

Lemma ensure_plain st b b' : plain_at b' st → plain_at b' (EnsureMeta b st).
Proof.
  intros Hp g. unfold bag_of, EnsureMeta, base_EnsureMeta, base_Meta. simpl.
  destruct (a_metas st !! ref b) eqn:E; [apply Hp|]. simpl.
  destruct (decide (ref b = ref b')) as [<-|Hn]; [rewrite lookup_insert_eq|rewrite lookup_insert_ne by done; apply Hp].
  intros [= <-]. apply plain_new.
Qed.

Lemma set_key_fact b k v by_ st b' name :
  plain_at b st → fact (set_key b k v by_ st) b' name =
    if decide (ref b = ref b' ∧ k_name k = name) then Some (Some v) else fact st b' name.
Proof.
  intros Hp. unfold fact, bag_of, set_key, base_EnsureMeta, base_Meta.
  destruct (a_metas st !! ref b) as [g|] eqn:E; cbn [a_metas].
  - destruct (decide (ref b = ref b')) as [Er|Hn].
    + rewrite <- Er, lookup_insert_eq, E, raw_set by by apply Hp. by destruct (decide (k_name k = name));
        [rewrite decide_True|rewrite decide_False by naive_solver].
    + by rewrite lookup_insert_ne, decide_False by naive_solver.
  - destruct (decide (ref b = ref b')) as [Er|Hn].
    + rewrite <- Er, lookup_insert_eq, E, raw_set by apply plain_new. destruct (decide (k_name k = name)).
      * by rewrite decide_True.
      * rewrite decide_False by naive_solver. by rewrite plain_raw by apply plain_new.
    + by rewrite !lookup_insert_ne, decide_False by naive_solver.
Qed.

Lemma set_key_plain b k v by_ st b' : plain_at b' st → plain_at b' (set_key b k v by_ st).
Proof.
  intros Hp g. unfold plain_at, bag_of, set_key, base_EnsureMeta, base_Meta in *.
  destruct (a_metas st !! ref b) as [g0|] eqn:E; cbn [a_metas].
  - destruct (decide (ref b = ref b')) as [Er|Hn]; [|rewrite lookup_insert_ne by done; apply Hp].
    rewrite <- Er, lookup_insert_eq. intros [= <-]. apply plain_set. apply Hp. by rewrite <- Er.
  - destruct (decide (ref b = ref b')) as [Er|Hn]; [|rewrite !lookup_insert_ne by done; apply Hp].
    rewrite <- Er, lookup_insert_eq. intros [= <-]. apply plain_set, plain_new.
Qed.

Lemma set_key_sink b k v by_ st : a_sink (set_key b k v by_ st) = a_sink st.
Proof. unfold set_key. by destruct (base_EnsureMeta _ _). Qed.

Lemma report_fact who pos f a st b name : fact (report who pos f a st) b name = fact st b name.
Proof. done. Qed.

Create HintDb shape discriminated.
#[export] Hint Resolve ensure_plain set_key_plain : shape.

(** ** Dispatch *)

Abbreviation prio d := (dt_Priority d).

Lemma insert_comm a d l :
  (prio d < prio a)%Z → insert_by_priority a (insert_by_priority d l) = insert_by_priority d (insert_by_priority a l).
Proof.
  intros Hda. induction l as [|e l IH]; cbn [insert_by_priority].
  { by rewrite (proj2 (Z.ltb_ge _ _)), (proj2 (Z.ltb_lt _ _)) by lia. }
  destruct (Z.ltb_spec (prio d) (prio e)), (Z.ltb_spec (prio a) (prio e)); cbn [insert_by_priority];
    repeat match goal with |- context [(?x <? ?y)%Z] => destruct (Z.ltb_spec x y); try lia end; congruence.
Qed.

Lemma insert_through d l s :
  foldr insert_by_priority s (insert_by_priority d l) = insert_by_priority d (foldr insert_by_priority s l).
Proof.
  induction l as [|e l IH]; [done|]. cbn [insert_by_priority foldr].
  destruct (Z.ltb_spec (prio d) (prio e)); [|done]. cbn [foldr]. rewrite IH. by apply insert_comm.
Qed.

Lemma sort_app l1 l2 : sort_by_priority (sort_by_priority l1 ++ l2) = sort_by_priority (l1 ++ l2).
Proof.
  unfold sort_by_priority. rewrite !foldr_app. induction l1 as [|d l1 IH]; [done|]. cbn [foldr].
  by rewrite insert_through, IH.
Qed.

(** Several calls register what one call does. *)
Lemma registered_in_calls ls p :
  detectors (fold_left Detectors ls (Detectors p [])) = sort_by_priority (detectors p ++ concat ls).
Proof.
  revert p. induction ls as [|l ls IH]; intros p; cbn [fold_left concat]; [done|].
  assert (Detectors (Detectors p []) l = Detectors (Detectors p l) []) as ->.
  { unfold Detectors. cbn [detectors contracts mixins]. f_equal. by rewrite (app_nil_r (detectors p)), !sort_app, app_nil_r. }
  rewrite IH. cbn [Detectors detectors]. by rewrite sort_app, app_assoc.
Qed.

Definition claims (h : metas) (front : string) (n : Node) (d : Detector) : option Match :=
  fn ← dt_Detect d !! front; fn h n.

Section Dispatch.
  Context (h : metas) (front : string) (n : Node).
  Abbreviation claims_ := (claims h front n).

(** The detector of the list the dispatch settles on. *)
Definition first (l : list Detector) : option Detector := List.find (λ d, bool_decide (is_Some (claims_ d))) l.

Lemma detect_first l :
  detect h front n l =
    match first l with
    | None => None
    | Some d => (λ m, (with_shape m (dt_Name d), PluginName +:+ "." +:+ dt_Name d)) <$> claims_ d
    end.
Proof.
  unfold first. induction l as [|d l IH]; [done|]. cbn [List.find].
  assert (detect h front n (d :: l) = match claims_ d with
    | None => detect h front n l
    | Some m => Some (with_shape m (dt_Name d), PluginName +:+ "." +:+ dt_Name d) end) as ->.
  { unfold claims. cbn [detect]. destruct (dt_Detect d !! front) as [fn|]; [|done]. simpl. by destruct (fn h n). }
  destruct (claims_ d) as [m|] eqn:Ec.
  - rewrite bool_decide_eq_true_2 by by eexists. by rewrite Ec.
  - rewrite bool_decide_eq_false_2 by by intros []. done.
Qed.

Lemma first_insert d l :
  StronglySorted (λ a b, prio b <= prio a)%Z l →
  first (insert_by_priority d l) =
    match claims_ d, first l with
    | None, r => r
    | Some _, Some e => if (prio d <? prio e)%Z then Some e else Some d
    | Some _, None => Some d
    end.
Proof.
  unfold first. intros Hs. induction Hs as [|e l Hs IH Hall]; cbn [insert_by_priority List.find].
  - destruct (claims_ d); [by rewrite bool_decide_eq_true_2 by by eexists|by rewrite bool_decide_eq_false_2 by by intros []].
  - destruct (Z.ltb_spec (prio d) (prio e)) as [Hlt|Hge]; cbn [List.find].
    + destruct (bool_decide (is_Some (claims_ e))) eqn:Ee; [|by rewrite IH].
      rewrite (proj2 (Z.ltb_lt _ _)) by done. by destruct (claims_ d).
    + destruct (claims_ d) as [m|]; [rewrite bool_decide_eq_true_2 by by eexists|by rewrite bool_decide_eq_false_2 by by intros []].
      destruct (bool_decide (is_Some (claims_ e))) eqn:Ee.
      { by rewrite (proj2 (Z.ltb_ge _ _)) by lia. }
      destruct (List.find _ l) as [e'|] eqn:Ef; [|done]. apply find_some in Ef as [Hin _].
      rewrite (proj2 (Z.ltb_ge _ _)); [done|]. rewrite Forall_forall in Hall.
      apply list_elem_of_In, Hall in Hin. simpl in Hin. lia.
Qed.

Lemma insert_sorted d l :
  StronglySorted (λ a b, prio b <= prio a)%Z l → StronglySorted (λ a b, prio b <= prio a)%Z (insert_by_priority d l).
Proof.
  induction 1 as [|e l Hs IH Hall]; cbn [insert_by_priority]; [repeat constructor|].
  destruct (Z.ltb_spec (prio d) (prio e)) as [Hlt|Hge].
  - constructor; [done|]. clear IH. induction l as [|x l IHl]; cbn [insert_by_priority]; [repeat constructor; lia|].
    apply Forall_cons in Hall as [Hx Hall]. apply StronglySorted_inv in Hs as [Hs _].
    destruct (prio d <? prio x)%Z; repeat constructor; auto; lia.
  - constructor; [by constructor|]. constructor; [lia|]. eapply Forall_impl; [exact Hall|]. simpl. lia.
Qed.

Lemma sort_sorted l : StronglySorted (λ a b, prio b <= prio a)%Z (sort_by_priority l).
Proof. induction l; [constructor|]. by apply insert_sorted. Qed.

(** The highest priority wins, the first registered among equals. *)
Lemma first_sorted l :
  match first (sort_by_priority l) with
  | None => ∀ d, d ∈ l → claims_ d = None
  | Some d => ∃ l1 l2, l = l1 ++ d :: l2 ∧ is_Some (claims_ d) ∧
      (∀ e, e ∈ l1 → is_Some (claims_ e) → (prio e < prio d)%Z) ∧
      (∀ e, e ∈ l2 → is_Some (claims_ e) → (prio e <= prio d)%Z)
  end.
Proof.
  induction l as [|d l IH]; [by intros d ?%elem_of_nil|]. change (sort_by_priority (d :: l)) with (insert_by_priority d (sort_by_priority l)).
  rewrite first_insert by apply sort_sorted.
  destruct (claims_ d) as [m|] eqn:Ed, (first (sort_by_priority l)) as [e|] eqn:Ef.
  - destruct IH as (l1 & l2 & -> & He & H1 & H2). destruct (Z.ltb_spec (prio d) (prio e)).
    + exists (d :: l1), l2. split_and!; [done|done| |done]. intros x [->|Hx]%elem_of_cons; [done|by apply H1].
    + exists [], (l1 ++ e :: l2). split_and!; [done|by eexists|by intros ? ?%elem_of_nil|].
      intros x [Hx|[->|Hx]%elem_of_cons]%elem_of_app Hc; [apply H1 in Hx; [lia|done]|done|apply H2 in Hx; [lia|done]].
  - exists [], l. split_and!; [done|by eexists|by intros ? ?%elem_of_nil|].
    intros x Hx [y Hy]. by rewrite IH in Hy.
  - destruct IH as (l1 & l2 & -> & He & H1 & H2). exists (d :: l1), l2. split_and!; [done|done| |done].
    intros x [->|Hx]%elem_of_cons; [rewrite Ed; by intros []|by apply H1].
  - intros x [->|Hx]%elem_of_cons; [done|by apply IH].
Qed.

End Dispatch.

(** detection picks the detector the documentation promises, however the
    registrations were split into calls: of the registered detectors that
    accept the callable in its language, the one of highest priority, and of
    several of that priority the one registered first.  It stamps that
    detector's match under its name, and nothing when none accepts. *)
Theorem detection_honours_priority ls h front n :
  match detect h front n (detectors (fold_left Detectors ls New)) with
  | None => ∀ d, d ∈ concat ls → claims h front n d = None
  | Some (m, by_) => ∃ l1 d l2 m0, concat ls = l1 ++ d :: l2 ∧ claims h front n d = Some m0 ∧
      m = with_shape m0 (dt_Name d) ∧ by_ = "shape." +:+ dt_Name d ∧
      (∀ e, e ∈ l1 → is_Some (claims h front n e) → (prio e < prio d)%Z) ∧
      (∀ e, e ∈ l2 → is_Some (claims h front n e) → (prio e <= prio d)%Z)
  end.
Proof.
  change New with (Detectors New []). rewrite registered_in_calls. cbn [detectors New app].
  rewrite detect_first. pose proof (first_sorted h front n (concat ls)) as Hf.
  destruct (first h front n (sort_by_priority (concat ls))) as [d|]; [|exact Hf].
  destruct Hf as (l1 & l2 & -> & [m0 Em] & H1 & H2). rewrite Em. simpl. by exists l1, d, l2, m0.
Qed.

(** ** The catalog of detectors *)

Lemma insert_perm d l : insert_by_priority d l ≡ₚ d :: l.
Proof.
  induction l as [|e l IH]; [done|]. cbn [insert_by_priority]. destruct (_ <? _)%Z; [|done]. rewrite IH. constructor.
Qed.

Lemma sort_perm l : sort_by_priority l ≡ₚ l.
Proof. induction l as [|d l IH]; [done|]. change (sort_by_priority (d :: l)) with (insert_by_priority d (sort_by_priority l)). by rewrite insert_perm, IH. Qed.

Lemma sort_unique l l' :
  NoDup ((λ d, dt_Priority d) <$> l) → l ≡ₚ l' → sort_by_priority l = sort_by_priority l'.
Proof.
  intros Hn Hp. eapply (StronglySorted_unique_strong (λ a b, prio b <= prio a)%Z); [|apply sort_sorted..|].
  - intros x y Hx Hy H1 H2. simpl in *. rewrite sort_perm in Hx. rewrite sort_perm, <- Hp in Hy.
    apply list_elem_of_lookup in Hx as [i Hi]. apply list_elem_of_lookup in Hy as [j Hj].
    assert (i = j) as ->; [|congruence]. eapply (NoDup_lookup _ i j (prio x) Hn).
    + by rewrite list_lookup_fmap, Hi.
    + rewrite list_lookup_fmap, Hj. simpl. f_equal. lia.
  - by rewrite !sort_perm.
Qed.

(** One declaration per detector. *)
Definition ty (pkg name : string) : TypeRef := Fixture.named 1%positive pkg name.
Definition kinded (k : TypeRefKind) (elem : option TypeRef) : TypeRef :=
  MkTypeRef (Fixture.at_ptr 1%positive []) k "" "" [] elem 0%Z None None [] [] [] [] [].
Definition seq_of (t : TypeRef) : TypeRef :=
  MkTypeRef (Fixture.at_ptr 1%positive []) TypeRefNamed "iter" "Seq" [t] None 0%Z None None [] [] [] [] [].
Definition func (name : string) (params : list TypeRef) (returns : list TypeRef) : Node :=
  NFunction (MkFunction (Fixture.at_ptr 2%positive []) name "p"
    ((λ t, Node.MkParam (Fixture.at_ptr 1%positive []) "x" (Some t) false) <$> params)
    ((λ t, MkReturn (Fixture.at_ptr 1%positive []) "" (Some t)) <$> returns) []).
Definition variadic (t : TypeRef) (returns : list TypeRef) : Node :=
  NFunction (MkFunction (Fixture.at_ptr 2%positive []) "f" "p"
    [Node.MkParam (Fixture.at_ptr 1%positive []) "xs" (Some t) true]
    ((λ t, MkReturn (Fixture.at_ptr 1%positive []) "" (Some t)) <$> returns) []).

Definition exemplars : list (string * Node) :=
  let ctx := ty "context" "Context" in
  let err := ty "" "error" in
  let str := ty "" "string" in
  let boolean := ty "" "bool" in
  let doc := ty "p" "Doc" in
  let ptr := kinded TypeRefPointer (Some doc) in
  [("aggregator", func "Count" [ctx] [str; err]);
   ("answeringwriter", func "Save" [ctx; doc] [doc; err]);
   ("batchreader", variadic str [kinded TypeRefSlice (Some doc); err]);
   ("closer", func "Close" [] [err]);
   ("compositewriter", func "Put" [str; doc] [err]);
   ("deleter", func "Delete" [ctx; str] [err]);
   ("lifecycle", func "Run" [ctx] [err]);
   ("lookup", func "Find" [str] [doc; str; boolean]);
   ("multiaggregator", func "Stats" [] [str; str; err]);
   ("multiargwriter", func "Put3" [str; str; doc] [err]);
   ("multireader", func "Pair" [str] [doc; doc; err]);
   ("mutator", func "Apply" [ptr] []);
   ("pointerreader", func "Find" [ctx; str] [ptr]);
   ("poisonaccessor", func "Err" [] [err]);
   ("predicate", func "Ready" [] [boolean]);
   ("pure", func "Hash" [str] [str]);
   ("reader", func "Get" [ctx; str] [doc; err]);
   ("readernoerror", func "Peek" [ctx; str] [doc]);
   ("readerwithbool", func "Load" [str] [doc; boolean]);
   ("streamconsumer", func "Consume" [ctx; kinded TypeRefAnonInterface None] [str; err]);
   ("streamreader", func "Items" [str] [seq_of doc]);
   ("voidlifecycle", func "Start" [] []);
   ("writer", func "Save" [ctx; doc] [err])].

(** the shipped catalog is unambiguous and has no dead rule.  Priorities
    are all different, so whatever the order and the calls in which its 23
    detectors are registered, the plugin dispatches over the same list; and
    each of them wins some declaration against all the others. *)
Theorem catalog_dispatch_is_fixed ls :
  concat ls ≡ₚ detectors.All →
  detectors (fold_left Detectors ls New) = detectors (Detectors New detectors.All) ∧
  ∀ d, d ∈ detectors.All → ∃ n m,
    detect ∅ Language n (detectors (fold_left Detectors ls New)) = Some (m, "shape." +:+ dt_Name d) ∧
    mt_Shape m = dt_Name d.
Proof.
  intros Hp.
  assert (detectors (fold_left Detectors ls New) = detectors (Detectors New detectors.All)) as E.
  { change New with (Detectors New []) at 1. rewrite registered_in_calls. cbn [detectors New app Detectors].
    symmetry. apply sort_unique; [|done]. refine (bool_decide_unpack _ _). vm_compute. exact I. }
  split; [done|]. rewrite E. clear ls Hp E. intros d Hd.
  assert (Forall (λ x : string * Node,
    option_map (λ r, (mt_Shape r.1, r.2)) (detect ∅ Language x.2 (detectors (Detectors New detectors.All)))
      = Some (x.1, "shape." +:+ x.1)) exemplars) as Hx.
  { refine (bool_decide_unpack _ _). vm_compute. exact I. }
  assert (dt_Name d ∈ exemplars.*1) as Hn.
  { assert (exemplars.*1 = dt_Name <$> detectors.All) as -> by (vm_compute; reflexivity). by apply list_elem_of_fmap_2. }
  apply list_elem_of_fmap in Hn as ([name n] & Ed & Hin). rewrite Forall_forall in Hx. specialize (Hx _ Hin).
  cbn [fst snd] in *. subst name. exists n. destruct (detect _ _ n _) as [[m by_]|]; [|done]. cbn in Hx.
  exists m. injection Hx as H1 H2. by subst.
Qed.

Lemma catalog_dispatch_is_fixed_witness :
  concat [reverse detectors.All] ≡ₚ detectors.All ∧
  detectors (fold_left Detectors [reverse detectors.All] New) = detectors (Detectors New detectors.All).
Proof.
  assert (concat [reverse detectors.All] ≡ₚ detectors.All) as H.
  { cbn [concat]. rewrite app_nil_r. apply reverse_Permutation. }
  split; [exact H|]. exact (proj1 (catalog_dispatch_is_fixed [reverse detectors.All] H)).
Defined.

(** ** What a pass may change *)

(** The pass only wrote keys under the prefix, on the host. *)
Definition frame (pfx : string) (host : BaseNode) (st st' : astate) : Prop :=
  (∀ b, plain_at b st → plain_at b st') ∧
  (plain_at host st → ∀ b name, ref b ≠ ref host ∨ has_prefix name pfx = false → fact st' b name = fact st b name) ∧
  (∀ b, ref b ≠ ref host → bag_of b st' = bag_of b st).

Lemma frame_refl pfx host st : frame pfx host st st.
Proof. by split_and!. Qed.

Lemma frame_trans pfx host st1 st2 st3 : frame pfx host st1 st2 → frame pfx host st2 st3 → frame pfx host st1 st3.
Proof.
  intros (H1 & H2 & H3) (H4 & H5 & H6). split_and!; [auto| |].
  - intros Hp b name Hb. rewrite H5 by auto. by apply H2.
  - intros b Hb. by rewrite H6, H3.
Qed.

Lemma frame_fold {A} pfx host (f : astate → A → astate) l st :
  (∀ st x, frame pfx host st (f st x)) → frame pfx host st (fold_left f l st).
Proof.
  intros Hf. revert st. induction l as [|x l IH]; intros st; [apply frame_refl|]. eapply frame_trans; [apply Hf|apply IH].
Qed.

Lemma frame_report pfx host who pos f a st : frame pfx host st (report who pos f a st).
Proof. by split_and!. Qed.

Lemma bag_of_set_other b k v by_ st b' : ref b' ≠ ref b → bag_of b' (set_key b k v by_ st) = bag_of b' st.
Proof.
  intros Hn. unfold bag_of, set_key, base_EnsureMeta, base_Meta.
  destruct (a_metas st !! ref b); cbn [a_metas]; by rewrite !lookup_insert_ne by done.
Qed.

Lemma frame_set pfx host k v by_ st : has_prefix (k_name k) pfx = true → frame pfx host st (set_key host k v by_ st).
Proof.
  intros Hk. split_and!; [eauto with shape| |].
  - intros Hp b name Hb. rewrite set_key_fact by done. rewrite decide_False; [done|].
    intros [Er En]. subst name. destruct Hb as [Hb|Hb]; [congruence|by rewrite Hk in Hb].
  - intros b Hb. by apply bag_of_set_other.
Qed.

Lemma frame_ensure pfx host st : frame pfx host st (EnsureMeta host st).
Proof.
  split_and!; [eauto with shape| |].
  - intros Hp b name _. by apply ensure_fact.
  - intros b Hn. unfold bag_of, EnsureMeta, base_EnsureMeta, base_Meta. cbn [a_metas].
    destruct (a_metas st !! ref host); [done|]. cbn [snd]. by rewrite lookup_insert_ne.
Qed.

Lemma frame_weaken pfx pfx' host st st' :
  (∀ name, has_prefix name pfx = true → has_prefix name pfx' = true) → frame pfx host st st' → frame pfx' host st st'.
Proof.
  intros Hw (H1 & H2 & H3). split_and!; [done| |done]. intros Hp b name [Hb|Hb]; apply H2; auto. right.
  destruct (has_prefix name pfx) eqn:E; [|done]. by rewrite Hw in Hb.
Qed.

#[export] Hint Resolve frame_refl frame_fold frame_report frame_set frame_ensure : shape.

Lemma frame_appendContract host name st : frame "shape.contract" host st (appendContract host name st).
Proof. unfold appendContract. case_bool_decide; auto with shape. Qed.

Lemma frame_appendMixin host name st : frame "shape.mixin" host st (appendMixin host name st).
Proof. unfold appendMixin. case_bool_decide; auto with shape. Qed.

Lemma prefixed pfx s : has_prefix (pfx +:+ s) pfx = true.
Proof. apply has_prefix_app. Qed.

Lemma frame_contract_kv `{MapOrder} host name params d st k :
  frame "shape.contract" (node_base host) st (contract_kv host name params d st k).
Proof.
  unfold contract_kv. repeat case_match; try apply frame_refl; apply frame_set.
  all: apply has_prefix_spec; by eexists.
Qed.

Lemma frame_applyContracts `{MapOrder} p host dirs st :
  frame "shape.contract" (node_base host) st (applyContracts p host dirs st).
Proof.
  apply frame_fold. intros st1 d. unfold apply_contract. repeat case_match; try apply frame_refl; [|apply frame_report].
  eapply frame_trans; [|apply frame_appendContract]. eapply frame_trans; [|apply frame_fold; intros; apply frame_contract_kv].
  apply frame_set. apply has_prefix_spec. by eexists.
Qed.

Lemma frame_applyMixins `{MapOrder} p host dirs st :
  frame "shape.mixin" (node_base host) st (applyMixins p host dirs st).
Proof.
  assert (∀ params st name, frame "shape.mixin" (node_base host) st (apply_mixin_name p host params st name)) as Hn.
  { intros params st1 name. unfold apply_mixin_name. case_match; [|apply frame_report].
    eapply frame_trans; [|apply frame_appendMixin]. apply frame_fold. intros st2 k. unfold mixin_kv, reportUnknownMixinParam.
    repeat case_match; auto with shape. }
  apply frame_fold. intros st1 d. unfold apply_mixin. repeat case_match; try apply frame_refl; try by apply frame_fold.
  eapply frame_trans; [apply frame_report|]. by apply frame_fold.
Qed.

(** ** Classifying one callable *)

Definition core_names : list string := ["shape"; "shape.key_type"; "shape.value_type"].
Definition extras (m : Match) : list Key := (ss_Key <$> mt_StringStamps m) ++ (ls_Key <$> mt_ListStamps m).
Definition well_stamped (m : Match) : Prop := Forall (λ k, k_name k ∉ core_names) (extras m).

Lemma set_keys_fact {A} (b : BaseNode) (key : A → Key) (val : A → value) by_ (l : list A) st name :
  plain_at b st → Forall (λ k, k_name k ≠ name) (key <$> l) →
  plain_at b (fold_left (λ st s, set_key b (key s) (val s) by_ st) l st) ∧
  fact (fold_left (λ st s, set_key b (key s) (val s) by_ st) l st) b name = fact st b name.
Proof.
  revert st. induction l as [|x l IH]; intros st Hp Hl; [done|]. cbn [fold_left fmap list_fmap] in *.
  apply Forall_cons in Hl as [Hx Hl]. destruct (IH (set_key b (key x) (val x) by_ st)) as [H1 H2]; [auto with shape|done|].
  split; [done|]. rewrite H2, set_key_fact by done. by rewrite decide_False by naive_solver.
Qed.

(** The three keys after a match was stamped. *)
Definition stamped_value (v : string) (old : option (option value)) : option (option value) :=
  if String.eqb v "" then old else Some (Some (VString v)).

Lemma if_set_fact (b : BaseNode) k v by_ st name :
  plain_at b st → let st' := if String.eqb v "" then st else set_key b k (VString v) by_ st in
  plain_at b st' ∧ fact st' b name = if decide (k_name k = name) then stamped_value v (fact st b name) else fact st b name.
Proof.
  intros Hp. cbv zeta. unfold stamped_value. destruct (String.eqb v ""); [by destruct (decide _)|]. split; [auto with shape|].
  rewrite set_key_fact by done. by destruct (decide (k_name k = name));
    [rewrite decide_True by done|rewrite decide_False by naive_solver].
Qed.

Lemma stamp_fact b m by_ st :
  plain_at b st → well_stamped m → let st' := stamp b m by_ st in
  plain_at b st' ∧ fact st' b "shape" = Some (Some (VString (mt_Shape m))) ∧
  fact st' b "shape.key_type" = stamped_value (mt_KeyType m) (fact st b "shape.key_type") ∧
  fact st' b "shape.value_type" = stamped_value (mt_ValueType m) (fact st b "shape.value_type").
Proof.
  intros Hp Hw. unfold stamp.
  set (st1 := set_key b MetaShape _ _ st). set (st2 := if String.eqb (mt_KeyType m) "" then _ else _).
  set (st3 := if String.eqb (mt_ValueType m) "" then _ else _).
  apply Forall_app in Hw as [Hs Hl].
  assert (∀ name, name ∈ core_names → ∀ l : list Key, Forall (λ k, k_name k ∉ core_names) l → Forall (λ k, k_name k ≠ name) l) as Hne.
  { intros name Hn l Hk. eapply Forall_impl; [exact Hk|]. intros k Hk' <-. done. }
  assert (plain_at b st1) as H1 by (unfold st1; auto with shape).
  pose proof (λ name, if_set_fact b MetaKeyType (mt_KeyType m) by_ st1 name H1) as H2. cbv zeta in H2. fold st2 in H2.
  pose proof (λ name, if_set_fact b MetaValueType (mt_ValueType m) by_ st2 name (proj1 (H2 ""))) as H3.
  cbv zeta in H3. fold st3 in H3.
  assert (∀ name, name ∈ core_names → let st' := stamp b m by_ st in plain_at b st' ∧ fact st' b name = fact st3 b name) as Hx.
  { intros name Hn. destruct (set_keys_fact b ss_Key (λ s, VString (ss_Value s)) by_ (mt_StringStamps m) st3 name)
      as [Hp4 E4]; [apply (H3 name)|by apply Hne|].
    destruct (set_keys_fact b ls_Key (λ s, VStrings (Some (ls_Value s))) by_ (mt_ListStamps m) _ name Hp4) as [Hp5 E5];
      [by apply Hne|]. split; [exact Hp5|]. etrans; [exact E5|exact E4]. }
  assert (∀ name, fact st1 b name = if decide ("shape" = name) then Some (Some (VString (mt_Shape m))) else fact st b name) as E1.
  { intros name. unfold st1. rewrite set_key_fact by done. cbn [k_name MetaShape string_key].
    by destruct (decide ("shape" = name)); [rewrite decide_True by done|rewrite decide_False by naive_solver]. }
  split; [apply (Hx "shape"); by left|]. split_and!; (etrans; [apply Hx; unfold core_names; set_solver|]).
  all: rewrite (proj2 (H3 _)), (proj2 (H2 _)), E1; cbn [k_name MetaValueType MetaKeyType string_key];
    repeat first [rewrite decide_True by done | rewrite decide_False by done]; try done.
Qed.

Definition before_shape `{MapOrder} (p : Plugin) (n : Node) (st : astate) : astate :=
  applyMixins p n (base_Directives (node_base n)) (applyContracts p n (base_Directives (node_base n)) (EnsureMeta (node_base n) st)).

(** The match a callable is classified with. *)
Definition classification `{MapOrder} (p : Plugin) (n : Node) (front : string) (st : astate) : option Match :=
  if IsStamped (bag_of (node_base n) st) then None
  else match matchFromDirective (base_Directives (node_base n)) with
       | Some m => Some m
       | None => fst <$> detect (a_metas (before_shape p n st)) front n (detectors p)
       end.

Lemma not_prefixed name pfx : has_prefix name pfx = false → ∀ s, name ≠ pfx +:+ s.
Proof. intros Hn s ->. by rewrite has_prefix_app in Hn. Qed.

Lemma before_shape_frame `{MapOrder} p n st :
  plain_at (node_base n) st →
  plain_at (node_base n) (before_shape p n st) ∧
  (∀ b, ref b ≠ node_ref n → bag_of b (before_shape p n st) = bag_of b st) ∧
  (∀ name, name ∈ core_names → fact (before_shape p n st) (node_base n) name = fact st (node_base n) name).
Proof.
  intros Hp. unfold before_shape.
  destruct (frame_ensure "shape.contract" (node_base n) st) as (A1 & A2 & A3).
  destruct (frame_applyContracts p n (base_Directives (node_base n)) (EnsureMeta (node_base n) st)) as (B1 & B2 & B3).
  destruct (frame_applyMixins p n (base_Directives (node_base n))
    (applyContracts p n (base_Directives (node_base n)) (EnsureMeta (node_base n) st))) as (C1 & C2 & C3).
  split_and!; [auto|intros b Hb; by rewrite C3, B3, A3|].
  intros name Hn. assert (has_prefix name "shape.contract" = false ∧ has_prefix name "shape.mixin" = false) as [H1 H2].
  { unfold core_names in Hn. repeat (apply elem_of_cons in Hn as [->|Hn]; [done|]). by apply elem_of_nil in Hn. }
  rewrite C2 by auto. rewrite B2 by auto. by apply A2; auto.
Qed.

Lemma shape_of_fact st b : GetShape (bag_of b st) = default "" (get_string (bag_of b st) (string_key "shape")).
Proof. done. Qed.

Lemma frame_stamp b m by_ st : ∀ b', ref b' ≠ ref b → bag_of b' (stamp b m by_ st) = bag_of b' st.
Proof.
  intros b' Hb. assert (∀ A (key : A → Key) val l st, bag_of b' (fold_left (λ st s, set_key b (key s) (val s) by_ st) l st)
    = bag_of b' st) as Hf.
  { intros A key val l. induction l as [|x l IH]; intros s; [done|]. cbn [fold_left]. rewrite IH. by apply bag_of_set_other. }
  unfold stamp. rewrite (Hf _ ls_Key (λ s, VStrings (Some (ls_Value s)))), (Hf _ ss_Key (λ s, VString (ss_Value s))).
  repeat case_match; rewrite ?bag_of_set_other by done; done.
Qed.

Lemma directive_well_stamped dirs m : matchFromDirective dirs = Some m → well_stamped m.
Proof.
  induction dirs as [|d dirs IH]; [done|]. cbn [matchFromDirective]. repeat case_match; auto. intros [= <-]. constructor.
Qed.

Lemma same_shape st st' b :
  fact st' b "shape" = fact st b "shape" → GetShape (bag_of b st') = GetShape (bag_of b st).
Proof. intros E. by rewrite !shape_of_fact, !get_string_fact, E. Qed.

Lemma handle_unfold `{MapOrder} p n front st :
  plain_at (node_base n) st →
  ∃ by_, handle p n front st =
    match classification p n front st with
    | None => before_shape p n st
    | Some m => stamp (node_base n) m by_ (before_shape p n st)
    end.
Proof.
  intros Hp. destruct (before_shape_frame p n st Hp) as (_ & _ & Hf). unfold handle, classification.
  fold (before_shape p n st). unfold IsStamped. rewrite (same_shape st (before_shape p n st)) by (apply Hf; by left).
  destruct (negb _); [by exists ""|]. destruct (matchFromDirective _) as [m|]; [by eexists|].
  destruct (detect _ _ _ _) as [[m by_]|]; [by exists by_|by exists ""].
Qed.

(** one call of [handle] classifies one callable.  A callable that has a
    shape keeps it; otherwise the first usable [+gen:shape] directive decides,
    and otherwise detection.  The shape's name is stamped, its key and value
    types exactly when the match has them, and no other node's metadata
    changes.  A shape once stamped survives every later pass, of whatever
    plugin and language. *)
Theorem handle_classifies `{MapOrder} p n front st :
  let b := node_base n in
  plain_at b st →
  (∀ m by_, detect (a_metas (before_shape p n st)) front n (detectors p) = Some (m, by_) → well_stamped m) →
  let st' := handle p n front st in
  match classification p n front st with
  | None => ∀ name, name ∈ core_names → fact st' b name = fact st b name
  | Some m =>
      GetShape (bag_of b st') = mt_Shape m ∧
      fact st' b "shape.key_type" = stamped_value (mt_KeyType m) (fact st b "shape.key_type") ∧
      fact st' b "shape.value_type" = stamped_value (mt_ValueType m) (fact st b "shape.value_type")
  end ∧
  (∀ b', ref b' ≠ ref b → bag_of b' st' = bag_of b' st) ∧
  (IsStamped (bag_of b st') = true →
     ∀ p' front', GetShape (bag_of b (handle p' n front' st')) = GetShape (bag_of b st')).
Proof.
  cbv zeta. intros Hp Hd. destruct (handle_unfold p n front st Hp) as [by_ E].
  destruct (before_shape_frame p n st Hp) as (Hp1 & Ho & Hf).
  assert (∀ m, classification p n front st = Some m → well_stamped m) as Hw.
  { intros m. unfold classification. destruct (IsStamped _); [done|].
    destruct (matchFromDirective _) eqn:Em; [intros [= <-]; by eapply directive_well_stamped|].
    destruct (detect _ _ _ _) as [[m' by']|] eqn:Ed; [|done]. intros [= <-]. by eapply Hd. }
  assert (plain_at (node_base n) (handle p n front st)) as Hp'.
  { rewrite E. destruct (classification p n front st) as [m|] eqn:Ec; [|done]. apply stamp_fact; [done|by apply Hw]. }
  split_and!.
  - rewrite E. destruct (classification p n front st) as [m|] eqn:Ec; [|done].
    destruct (stamp_fact (node_base n) m by_ _ Hp1 (Hw m eq_refl)) as (_ & H1 & H2 & H3).
    rewrite shape_of_fact, get_string_fact, H1, H2, H3, !Hf by (unfold core_names; set_solver). done.
  - intros b' Hb. rewrite E. destruct (classification _ _ _ _); [rewrite frame_stamp by done|]; by apply Ho.
  - intros Hs p' front'. destruct (handle_unfold p' n front' _ Hp') as [by' ->].
    unfold classification. rewrite Hs. apply same_shape. by apply before_shape_frame; [|left].
Qed.

Lemma handle_classifies_witness :
  let n := func "Get" [ty "context" "Context"; ty "" "string"] [ty "p" "Doc"; ty "" "error"] in
  let st := MkA ∅ Diag.New [] in
  let p := Detectors New detectors.All in
  GetShape (bag_of (node_base n) (handle p n Language st)) = "reader" ∧
  fact (handle p n Language st) (node_base n) "shape.value_type" = Some (Some (VString "p.Doc")).
Proof.
  intros n st p. assert (plain_at (node_base n) st) as Hp by (intros g Hg; discriminate Hg).
  pose proof (handle_classifies p n Language st Hp) as Hh. cbv zeta in Hh. destruct Hh as [Hc _].
  { intros m by_ E. vm_compute in E. injection E as <- <-. constructor. }
  assert (classification p n Language st = Some (MkMatch "reader" "string" "p.Doc" [] [])) as E by (vm_compute; reflexivity).
  rewrite E in Hc. destruct Hc as (H1 & _ & H3). split; [exact H1|]. rewrite H3. vm_compute. reflexivity.
Defined.

(** ** Contract memberships *)

(** The key a pair of the directive is stamped under, and the pairs that are
    stamped. *)
Definition kv_key (name : string) (params : gset string) (k : string) : Key :=
  if bool_decide (k ∈ params) then ContractParamKey name k else ContractPartnerKey name k.
Definition live (d : Directive) (k : string) : bool := negb (String.eqb k "role" || String.eqb (kv d k) "").

Lemma contract_kv_unfold host name params d st k :
  contract_kv host name params d st k =
    if live d k then set_key (node_base host) (kv_key name params k) (VString (kv d k)) contractStampedBy st else st.
Proof.
  unfold contract_kv, live, kv_key. destruct (String.eqb k "role" || String.eqb (kv d k) ""); [done|]. simpl. by case_bool_decide.
Qed.

Lemma kv_fold host name params d l st t w :
  plain_at (node_base host) st → (∀ k, k ∈ l → live d k = true → k_name (kv_key name params k) = t → kv d k = w) →
  let st' := fold_left (contract_kv host name params d) l st in
  fact st' (node_base host) t =
    if decide (Exists (λ k, live d k = true ∧ k_name (kv_key name params k) = t) l) then Some (Some (VString w))
    else fact st (node_base host) t.
Proof.
  cbv zeta. revert st. induction l as [|k l IH]; intros st Hp Hw; cbn [fold_left].
  { rewrite decide_False; [done|]. by intros ?%Exists_nil. }
  rewrite contract_kv_unfold. rewrite IH; [| |intros k' Hk'; apply Hw; by right].
  2:{ destruct (live d k); auto with shape. }
  destruct (decide (Exists _ l)) as [Ht|Ht]; [by rewrite decide_True by by right|].
  destruct (live d k) eqn:El.
  - rewrite set_key_fact by done. destruct (decide (k_name (kv_key name params k) = t)) as [Et|Et].
    + rewrite (decide_True (P := _ ∧ _)) by done. rewrite decide_True by by left. rewrite (Hw k); [done|by left|done|done].
    + rewrite (decide_False (P := _ ∧ _)) by naive_solver. rewrite decide_False; [done|].
      intros [[_ ?]|?]%Exists_cons; done.
  - rewrite decide_False; [done|]. intros [[? _]|?]%Exists_cons; congruence.
Qed.

Lemma param_key_inj name k k' : k_name (ContractParamKey name k) = k_name (ContractParamKey name k') → k = k'.
Proof. cbn. intros E. injection E as E. apply append_inj_r in E. by injection E. Qed.

Lemma partner_key_inj name k k' : k_name (ContractPartnerKey name k) = k_name (ContractPartnerKey name k') → k = k'.
Proof. cbn. intros E. injection E as E. apply append_inj_r in E. by injection E. Qed.

Lemma param_not_partner name k k' : k_name (ContractParamKey name k) ≠ k_name (ContractPartnerKey name k').
Proof. cbn. intros E. injection E as E. apply append_inj_r in E. discriminate. Qed.

Lemma kv_key_inj name params k k' : k_name (kv_key name params k) = k_name (kv_key name params k') → k = k'.
Proof.
  unfold kv_key. do 2 case_bool_decide; intros E.
  - by apply param_key_inj in E.
  - by apply param_not_partner in E.
  - by symmetry in E; apply param_not_partner in E.
  - by apply partner_key_inj in E.
Qed.

Lemma kv_key_not_role name params k : k_name (kv_key name params k) ≠ k_name (ContractRoleKey name).
Proof. unfold kv_key. case_bool_decide; cbn; intros E; injection E as E; apply append_inj_r in E; discriminate. Qed.

Lemma kv_key_not_list name params k : k_name (kv_key name params k) ≠ "shape.contracts".
Proof. unfold kv_key. case_bool_decide; cbn; intros E; discriminate E. Qed.

Lemma appendContract_fact b name st t :
  plain_at b st → t ≠ "shape.contracts" → fact (appendContract b name st) b t = fact st b t.
Proof.
  intros Hp Ht. unfold appendContract. case_bool_decide; [done|]. rewrite set_key_fact by done.
  rewrite decide_False; [done|]. cbn [k_name MetaContracts list_key]. naive_solver.
Qed.

Lemma appendContract_list b name st :
  plain_at b st → Contracts (bag_of b (appendContract b name st)) =
    if bool_decide (name ∈ Contracts (bag_of b st)) then Contracts (bag_of b st) else Contracts (bag_of b st) ++ [name].
Proof.
  intros Hp. unfold appendContract. case_bool_decide; [done|]. unfold Contracts at 1. unfold MetaContracts at 2.
  rewrite get_list_fact, set_key_fact by done. by rewrite decide_True by done.
Qed.

(** The parameters of a contract a directive of the role may set. *)
Definition declares (spec : Contract) (role k : string) : Prop :=
  ∃ q, q ∈ c_Params spec ∧ pr_Key q = k ∧ (pr_Role q = "" ∨ pr_Role q = role).

Lemma declares_params spec role k :
  k ∈ paramSet (ParamKeys (ParamsForRole (c_Params spec) role)) ↔ declares spec role k.
Proof.
  unfold paramSet, ParamKeys, ParamsForRole, declares. rewrite elem_of_list_to_set, list_elem_of_fmap. split.
  - intros (q & -> & Hq). apply list_elem_of_In, filter_In in Hq as [Hq Hr]. exists q. split_and!; [by apply list_elem_of_In|done|].
    apply orb_true_iff in Hr as [?%String.eqb_eq|?%String.eqb_eq]; auto.
  - intros (q & Hq & <- & Hr). exists q. split; [done|]. apply list_elem_of_In, filter_In. split; [by apply list_elem_of_In|].
    apply orb_true_iff. by destruct Hr as [->%String.eqb_eq| ->%String.eqb_eq]; auto.
Qed.

Lemma kv_live `{MapOrder} d k : live d k = true → k ∈ map_keys (KV d).
Proof.
  unfold live, kv. intros Hl. apply elem_of_map_keys. destruct (KV d !! k); [by eexists|].
  by rewrite orb_true_r in Hl.
Qed.

(** The stamp of a pair: as a parameter when the contract declares the key
    for the role, as a partner otherwise. *)
Lemma kv_stamp `{MapOrder} host name params d st k :
  plain_at (node_base host) st →
  let st' := fold_left (contract_kv host name params d) (map_keys (KV d)) st in
  get_string (bag_of (node_base host) st') (kv_key name params k) =
    if live d k then Some (kv d k) else get_string (bag_of (node_base host) st) (kv_key name params k).
Proof.
  intros Hp. cbv zeta. assert (kv_key name params k = string_key (k_name (kv_key name params k))) as ->.
  { unfold kv_key. by case_bool_decide. }
  rewrite !get_string_fact, (kv_fold _ _ _ _ _ _ _ (kv d k)); [|done|].
  2:{ intros k' _ _ E. cbn [k_name string_key] in E. by apply kv_key_inj in E as ->. }
  destruct (live d k) eqn:El.
  - rewrite decide_True; [done|]. apply Exists_exists. exists k. split; [by apply kv_live|done].
  - rewrite decide_False; [done|]. intros (k' & _ & Hl & E)%Exists_exists. cbn [k_name string_key] in E.
    apply kv_key_inj in E as ->. congruence.
Qed.


Section Membership.
  Context `{MapOrder} (host : Node) (name role : string) (params : gset string) (d : Directive) (st : astate).
  Context (Hp : plain_at (node_base host) st).

(** The state [apply_contract] leaves for a registered contract. *)
Definition joined : astate :=
  appendContract (node_base host) name
    (fold_left (contract_kv host name params d) (map_keys (KV d))
       (set_key (node_base host) (ContractRoleKey name) (VString role) contractStampedBy st)).

Let st1 := set_key (node_base host) (ContractRoleKey name) (VString role) contractStampedBy st.
Let st2 := fold_left (contract_kv host name params d) (map_keys (KV d)) st1.

Lemma joined_plain : plain_at (node_base host) st1 ∧ plain_at (node_base host) st2.
Proof using Hp.
  assert (plain_at (node_base host) st1) as H1 by (unfold st1; auto with shape). split; [done|].
  apply (frame_fold "shape.contract" (node_base host)); [intros; apply frame_contract_kv|done].
Qed.

Lemma joined_sink : a_sink joined = a_sink st.
Proof.
  unfold joined, appendContract. assert (∀ l s, a_sink (fold_left (contract_kv host name params d) l s) = a_sink s) as Hs.
  { induction l as [|k l IH]; intros s; [done|]. cbn [fold_left]. rewrite IH, contract_kv_unfold.
    destruct (live d k); [apply set_key_sink|done]. }
  case_bool_decide; rewrite ?set_key_sink, Hs; apply set_key_sink.
Qed.

(** A key that is neither the role's nor a pair's keeps its value. *)
Lemma joined_other t :
  t ≠ "shape.contracts" → (∀ k, live d k = true → k_name (kv_key name params k) ≠ t) →
  fact joined (node_base host) t =
    if decide (k_name (ContractRoleKey name) = t) then Some (Some (VString role)) else fact st (node_base host) t.
Proof using Hp.
  intros Hl Hk. destruct joined_plain as [H1 H2]. unfold joined. fold st1. fold st2. rewrite appendContract_fact by done.
  unfold st2. rewrite (kv_fold _ _ _ _ _ _ _ ""); [|done|intros k _ Hlv E; by apply Hk in Hlv].
  rewrite decide_False. 2:{ intros (k & _ & Hlv & E)%Exists_exists. by apply Hk in Hlv. }
  unfold st1. rewrite set_key_fact by done. by destruct (decide (k_name (ContractRoleKey name) = t));
    [rewrite decide_True by done|rewrite decide_False by naive_solver].
Qed.

Lemma joined_pair k :
  live d k = true → get_string (bag_of (node_base host) joined) (kv_key name params k) = Some (kv d k).
Proof using Hp.
  intros Hl. destruct joined_plain as [H1 H2].
  pose proof (kv_stamp host name params d st1 k H1) as E. cbv zeta in E. rewrite Hl in E. fold st2 in E.
  assert (kv_key name params k = string_key (k_name (kv_key name params k))) as Ek by (unfold kv_key; by case_bool_decide).
  rewrite Ek, get_string_fact in E. rewrite Ek, get_string_fact. cbn [k_name string_key] in *.
  unfold joined. fold st1. fold st2. by rewrite appendContract_fact by (done || apply kv_key_not_list).
Qed.

Lemma joined_list :
  Contracts (bag_of (node_base host) joined) =
    if bool_decide (name ∈ Contracts (bag_of (node_base host) st)) then Contracts (bag_of (node_base host) st)
    else Contracts (bag_of (node_base host) st) ++ [name].
Proof using Hp.
  destruct joined_plain as [H1 H2]. unfold joined. fold st1. fold st2. rewrite appendContract_list by done.
  assert (Contracts (bag_of (node_base host) st2) = Contracts (bag_of (node_base host) st)) as ->; [|done].
  unfold Contracts, MetaContracts. rewrite !get_list_fact. unfold st2. rewrite (kv_fold _ _ _ _ _ _ _ "").
  - rewrite decide_False. 2:{ intros (k & _ & _ & E)%Exists_exists. by apply kv_key_not_list in E. }
    unfold st1. rewrite set_key_fact by done. by rewrite decide_False by (intros [_ E]; discriminate E).
  - done.
  - intros k _ _ E. by apply kv_key_not_list in E.
Qed.

End Membership.

(** a membership directive is stamped as the vocabulary says.  For a
    registered contract and a role, the callable is listed once under the
    contract, carries the role, and every other non-empty pair is stamped as
    a parameter when the contract declares that key for this role and as a
    partner when it does not -- whatever order the pairs are visited in --
    and under one of the two only.  A directive that names an unregistered
    contract changes no metadata and is reported. *)
Theorem contract_directive_is_stamped `{MapOrder} p host st d :
  let b := node_base host in
  let name := contractNameFromDirective d in
  let role := kv d "role" in
  let st' := apply_contract p host st d in
  plain_at b st → Name d = ContractDirectiveName → Negated d = false → name ≠ "" →
  match contracts p !! name with
  | None => a_metas st' = a_metas st ∧ a_sink st' = Errorf (For PluginName) (a_sink st) (pos_of host)
        "shape.contract: %q is not registered with this pipeline. Check the spelling or register the contract; an unregistered name classifies nothing, so every law selected by it is silently dropped"
        [AStr name]
  | Some spec =>
      role ≠ "" →
      a_sink st' = a_sink st ∧
      Contracts (bag_of b st') = (if bool_decide (name ∈ Contracts (bag_of b st)) then Contracts (bag_of b st)
                                  else Contracts (bag_of b st) ++ [name]) ∧
      get_string (bag_of b st') (ContractRoleKey name) = Some role ∧
      ∀ k, k ≠ "role" → kv d k ≠ "" →
        (declares spec role k →
           get_string (bag_of b st') (ContractParamKey name k) = Some (kv d k) ∧
           get_string (bag_of b st') (ContractPartnerKey name k) = get_string (bag_of b st) (ContractPartnerKey name k)) ∧
        (¬ declares spec role k →
           get_string (bag_of b st') (ContractPartnerKey name k) = Some (kv d k) ∧
           get_string (bag_of b st') (ContractParamKey name k) = get_string (bag_of b st) (ContractParamKey name k))
  end.
Proof.
  cbv zeta. intros Hp Hn Hneg Hne. unfold apply_contract. rewrite Hn, Hneg, (proj2 (String.eqb_neq _ _) Hne).
  change (negb (String.eqb ContractDirectiveName ContractDirectiveName) || false) with false. cbv iota.
  destruct (contracts p !! contractNameFromDirective d) as [spec|] eqn:Es; [|by split]. intros Hr.
  rewrite (proj2 (String.eqb_neq _ _) Hr). set (params := paramSet _). fold (joined host (contractNameFromDirective d) (kv d "role") params d st).
  set (name := contractNameFromDirective d) in *.
  split_and!; [apply joined_sink|by apply joined_list| |].
  - unfold ContractRoleKey. rewrite get_string_fact, joined_other; [by rewrite decide_True|done|done|].
    intros k _. apply kv_key_not_role.
  - intros k Hk Hv. assert (live d k = true) as Hl.
    { unfold live. by rewrite (proj2 (String.eqb_neq _ _) Hk), (proj2 (String.eqb_neq _ _) Hv). }
    pose proof (joined_pair host name (kv d "role") params d st Hp k Hl) as Ej. unfold kv_key in Ej.
    split; intros Hd; rewrite <- declares_params in Hd; fold params in Hd.
    + rewrite bool_decide_eq_true_2 in Ej by done. split; [done|]. unfold ContractPartnerKey.
      rewrite !get_string_fact, joined_other; [|done|done|].
      * rewrite decide_False; [done|]. cbn. intros E. injection E as E. apply append_inj_r in E. discriminate.
      * intros k' _ E. unfold kv_key in E. case_bool_decide; [by apply (param_not_partner name k' k)|].
        by apply (partner_key_inj name k' k) in E as ->.
    + rewrite bool_decide_eq_false_2 in Ej by done. split; [done|]. unfold ContractParamKey.
      rewrite !get_string_fact, joined_other; [|done|done|].
      * rewrite decide_False; [done|]. cbn. intros E. injection E as E. apply append_inj_r in E. discriminate.
      * intros k' _ E. unfold kv_key in E. case_bool_decide; [by apply (param_key_inj name k' k) in E as ->|].
        symmetry in E. by apply (param_not_partner name k k').
Qed.

(** A producer of a cursor: [next] is a member of what it returns. *)
Definition cursor_directive : Directive :=
  MkDirective "contract" false ["cursor"] {["role" := "open"; "next" := "Next"; "reset" := "Reset"]} "" zero_pos.

Lemma contract_directive_is_stamped_witness :
  let host := func "Scan" [] [] in
  let p := Contracts_ New contracts.All in
  let st' := apply_contract p host (MkA ∅ Diag.New []) cursor_directive in
  Contracts (bag_of (node_base host) st') = ["cursor"] ∧
  get_string (bag_of (node_base host) st') (ContractParamKey "cursor" "next") = Some "Next" ∧
  get_string (bag_of (node_base host) st') (ContractPartnerKey "cursor" "next") = None.
Proof.
  intros host p st'. pose proof (contract_directive_is_stamped p host (MkA ∅ Diag.New []) cursor_directive) as Hc.
  cbv zeta in Hc. fold st' in Hc. destruct (contracts p !! contractNameFromDirective cursor_directive) as [spec|] eqn:E;
    [|vm_compute in E; discriminate E].
  destruct Hc as (_ & H1 & _ & H2); [intros g Hg; discriminate Hg|reflexivity|reflexivity|discriminate|discriminate|].
  destruct (H2 "next") as [H3 _]; [discriminate|discriminate|]. destruct H3 as [H3 H4].
  { vm_compute in E. injection E as <-. eexists. split; [apply list_elem_of_further, list_elem_of_here|].
    split; [reflexivity|]. right. reflexivity. }
  split; [exact H1|]. split; [exact H3|exact H4].
Defined.

(** ** Order of diagnostics *)

(** Two unknown parameters of one mixin are reported in the order the map
    yields them: the same source gives two different lists of diagnostics. *)
Theorem mixin_reports_follow_map_order :
  let d := MkDirective "mixin" false ["atomic"] {["x" := "1"; "y" := "2"]} "" zero_pos in
  let p := Mixins_ New [mixins.atomic.Mixin_] in
  let run o := a_sink (apply_mixin (H := o) p (func "Save" [] []) (MkA ∅ Diag.New []) d) in
  run sorted_order ≠ run reverse_order ∧
  diags (run sorted_order) ≡ₚ diags (run reverse_order).
Proof.
  split; [vm_compute; discriminate|]. vm_compute. apply perm_swap.
Qed.

(** The refusal of inline interfaces that [reader] adds to [golang.Keyable]
    is already in [golang.Keyable]. *)
Theorem reader_keyable_adds_nothing t : reader.keyable t = Keyable t.
Proof.
  destruct t as [t|]; [|done]. unfold reader.keyable, Keyable. by destruct (IsAnonInterface t) eqn:E; rewrite ?andb_false_r, ?orb_true_r.
Qed.
