(* ===== verification/ShapeResolverLaws.v ===== *)
(** * plugins/annotator/shape: resolving partners and validating

    The links the resolver writes, the callables its index does not reach, and
    what the silence of the validator means. *)

From S2P Require Import Prelude GoStrings Position Diag Meta MetaLaws Directive Node NodeQueries StoreIndex StoreOps StoreNodes GoTypes GoEmbed Shape ShapeDetectors ShapeCatalog ShapeLaws ShapeResolver.

Local Open Scope string_scope.
Local Open Scope nat_scope.
Local Open Scope list_scope.

Import shape.

(** ** The validator *)

(** A step that writes no metadata and is silent exactly when [P] holds. *)
Definition says (P : Prop) (st st' : astate) : Prop :=
  a_metas st' = a_metas st ∧ discard (a_sink st') = discard (a_sink st) ∧
  (discard (a_sink st) = false →
     ∃ l, diags (a_sink st') = diags (a_sink st) ++ l ∧ (l = [] ↔ P)).

Lemma says_refl (P : Prop) st : P → says P st st.
Proof. intros HP. split_and!; [done|done|]. intros _. exists []. by rewrite app_nil_r. Qed.

Lemma says_report (P : Prop) who pos f a st : ¬ P → says P st (report who pos f a st).
Proof.
  intros HP. unfold says, report, Errorf, Append. cbn [a_metas a_sink]. split_and!; [done|by destruct (discard (a_sink st)) eqn:E; cbn; rewrite ?E|].
  intros ->. cbn [diags]. eexists. by split.
Qed.

Lemma says_trans P Q st1 st2 st3 : says P st1 st2 → says Q st2 st3 → says (P ∧ Q) st1 st3.
Proof.
  intros (E1 & D1 & H1) (E2 & D2 & H2). split_and!; [congruence|congruence|]. intros Hd.
  destruct H1 as (l1 & E3 & HP); [done|]. destruct H2 as (l2 & E4 & HQ); [congruence|].
  exists (l1 ++ l2). rewrite E4, E3, app_assoc. split; [done|]. rewrite app_nil. by rewrite HP, HQ.
Qed.

Lemma says_iff P Q st st' : (P ↔ Q) → says P st st' → says Q st st'.
Proof.
  intros HPQ (E & D & H). split_and!; [done|done|]. intros Hd. destruct (H Hd) as (l & Hl & Hi). exists l.
  split; [done|]. by rewrite Hi.
Qed.

(** A loop is silent when every iteration is. *)
Lemma says_fold {A} (f : astate → A → astate) (P : A → Prop) l st :
  (∀ st' x, x ∈ l → a_metas st' = a_metas st → says (P x) st' (f st' x)) →
  says (∀ x, x ∈ l → P x) st (fold_left f l st).
Proof.
  revert st. induction l as [|x l IH]; intros st Hf; cbn [fold_left].
  { apply says_refl. by intros x ?%elem_of_nil. }
  pose proof (Hf st x (list_elem_of_here _ _) eq_refl) as H1.
  assert (says (∀ y, y ∈ l → P y) (f st x) (fold_left f l (f st x))) as H2.
  { apply IH. intros st' y Hy E. apply Hf; [by right|]. rewrite E. apply H1. }
  eapply says_iff; [|exact (says_trans _ _ _ _ _ H1 H2)]. split.
  - intros [Hx Hl] y [->|Hy]%elem_of_cons; [done|by apply Hl].
  - intros H. split; [apply H; by left|]. intros y Hy. apply H. by right.
Qed.

Import validator.

Section Requirements.
  Context (host : Node) (ob : option Bag).

Definition partners_given (spec : Contract) (role : string) : Prop :=
  ∀ pr, pr ∈ default [] (c_Required spec !! role) → stamped ob (ContractPartnerKey (c_Name spec) pr) ≠ "".

Definition params_given (spec : Contract) (role : string) : Prop :=
  ∀ q, q ∈ ParamsForRole (c_Params spec) role → pr_Required q = true →
    stamped ob (ContractParamKey (c_Name spec) (pr_Key q)) ≠ "".

Definition mixin_params_given (spec : Mixin) : Prop :=
  ∀ q, q ∈ x_Params spec → pr_Required q = true → stamped ob (MixinParamKey (x_Name spec) (pr_Key q)) ≠ "".

Lemma checkRequired_says role spec st :
  bag_of (node_base host) st = ob → says (partners_given spec role) st (checkRequired host role spec st).
Proof.
  intros Hb. unfold checkRequired, partners_given. destruct (c_Required spec !! role) as [required|].
  2:{ apply says_refl. intros pr Hpr. by apply elem_of_nil in Hpr. }
  apply says_fold. intros st' pr _ Hm. unfold bag_of in *. rewrite Hm. rewrite Hb.
  destruct (String.eqb_spec (stamped ob (ContractPartnerKey (c_Name spec) pr)) ""); cbn [negb];
    [apply says_report; naive_solver|by apply says_refl].
Qed.

Lemma checkParams_says role spec st :
  bag_of (node_base host) st = ob → says (params_given spec role) st (checkRequiredContractParams host role spec st).
Proof.
  intros Hb. unfold checkRequiredContractParams, params_given.
  apply says_fold. intros st' q _ Hm. unfold bag_of in *. rewrite Hm. rewrite Hb.
  destruct (pr_Required q); cbn [negb]; [|by apply says_refl].
  destruct (String.eqb_spec (stamped ob (ContractParamKey (c_Name spec) (pr_Key q))) ""); cbn [negb];
    [apply says_report; naive_solver|by apply says_refl].
Qed.

Lemma checkMixin_says spec st :
  bag_of (node_base host) st = ob → says (mixin_params_given spec) st (checkRequiredMixinParams host spec st).
Proof.
  intros Hb. unfold checkRequiredMixinParams, mixin_params_given.
  apply says_fold. intros st' q _ Hm. unfold bag_of in *. rewrite Hm. rewrite Hb.
  destruct (pr_Required q); cbn [negb]; [|by apply says_refl].
  destruct (String.eqb_spec (stamped ob (MixinParamKey (x_Name spec) (pr_Key q))) ""); cbn [negb];
    [apply says_report; naive_solver|by apply says_refl].
Qed.

End Requirements.

(** Every membership and mixin of a callable has what its vocabulary
    requires. *)
Definition complete (cs : gmap string Contract) (ms : gmap string Mixin) (ob : option Bag) : Prop :=
  (∀ name spec, name ∈ Contracts ob → cs !! name = Some spec →
     let role := stamped ob (ContractRoleKey (c_Name spec)) in partners_given ob spec role ∧ params_given ob spec role) ∧
  (∀ name spec, name ∈ Mixins ob → ms !! name = Some spec → mixin_params_given ob spec).

(** A loop over the validator and the run. *)
Lemma says_loop {A} (I : Validator → Prop) (f : vstate → A → vstate) (P : A → Prop) l s :
  I s.1 →
  (∀ s' x, x ∈ l → I s'.1 → a_metas s'.2 = a_metas s.2 → I (f s' x).1 ∧ says (P x) s'.2 (f s' x).2) →
  I (fold_left f l s).1 ∧ says (∀ x, x ∈ l → P x) s.2 (fold_left f l s).2.
Proof.
  revert s. induction l as [|x l IH]; intros s HI Hf; cbn [fold_left].
  { split; [done|]. apply says_refl. by intros x ?%elem_of_nil. }
  destruct (Hf s x (list_elem_of_here _ _) HI eq_refl) as [HI' H1].
  destruct (IH (f s x) HI') as [HI2 H2].
  { intros s' y Hy HIy E. apply Hf; [by right|done|]. rewrite E. apply H1. }
  split; [done|]. eapply says_iff; [|exact (says_trans _ _ _ _ _ H1 H2)]. split.
  - intros [Hx Hl] y [->|Hy]%elem_of_cons; [done|by apply Hl].
  - intros H. split; [apply H; by left|]. intros y Hy. apply H. by right.
Qed.

Definition vocabulary (v0 v : Validator) : Prop := v_contracts v = v_contracts v0 ∧ v_mixins v = v_mixins v0.

Lemma accumulate_vocabulary v0 spec role host ob v : vocabulary v0 v → vocabulary v0 (accumulate spec role host ob v).
Proof. unfold accumulate. by case_match. Qed.

Lemma accumulateMixin_vocabulary v0 spec host ob v : vocabulary v0 v → vocabulary v0 (accumulateMixin spec host ob v).
Proof. unfold accumulateMixin. by case_match. Qed.

Lemma visit_says v0 host s :
  vocabulary v0 s.1 →
  vocabulary v0 (visit host s).1 ∧
  says (complete (v_contracts v0) (v_mixins v0) (bag_of (node_base host) s.2)) s.2 (visit host s).2.
Proof.
  intros Hv. unfold visit. set (ob := bag_of (node_base host) s.2). 
  match goal with |- context [fold_left ?f' (Contracts ob) s] => set (f := f') end.
  match goal with |- context [fold_left ?g' (Mixins ob) _] => set (g := g') end.
  assert (∀ st', a_metas st' = a_metas s.2 → bag_of (node_base host) st' = ob) as Hob by (intros st' E; unfold ob, bag_of; by rewrite E).
  destruct (says_loop (vocabulary v0) f (λ name, ∀ spec, v_contracts v0 !! name = Some spec →
    let role := stamped ob (ContractRoleKey (c_Name spec)) in partners_given ob spec role ∧ params_given ob spec role)
    (Contracts ob) s Hv) as [Hv1 Hs1].
  { intros s' name _ Hv' E. unfold f. destruct Hv' as [Hvc Hvm]. rewrite Hvc.
    destruct (v_contracts v0 !! name) as [spec|] eqn:Es; [|by split; [|apply says_refl]]. split; [by apply accumulate_vocabulary|].
    cbn [snd]. pose proof (checkRequired_says host ob (stamped ob (ContractRoleKey (c_Name spec))) spec s'.2 (Hob _ E)) as C1.
    assert (says (params_given ob spec (stamped ob (ContractRoleKey (c_Name spec))))
      (checkRequired host (stamped ob (ContractRoleKey (c_Name spec))) spec s'.2)
      (checkRequiredContractParams host (stamped ob (ContractRoleKey (c_Name spec))) spec
        (checkRequired host (stamped ob (ContractRoleKey (c_Name spec))) spec s'.2))) as C2.
    { apply checkParams_says, Hob. by rewrite (proj1 C1). }
    eapply says_iff; [|exact (says_trans _ _ _ _ _ C1 C2)].
    split; [by intros HC ? [= <-]|intros HC; by apply HC]. }
  destruct (says_loop (vocabulary v0) g (λ name, ∀ spec, v_mixins v0 !! name = Some spec → mixin_params_given ob spec)
    (Mixins ob) (fold_left f (Contracts ob) s) Hv1) as [Hv2 Hs2].
  { intros s' name _ Hv' E. unfold g. destruct Hv' as [Hvc Hvm]. rewrite Hvm.
    destruct (v_mixins v0 !! name) as [spec|] eqn:Es; [|by split; [|apply says_refl]]. split; [by apply accumulateMixin_vocabulary|].
    eapply says_iff; [|apply (checkMixin_says host ob spec), Hob; rewrite E; apply Hs1].
    split; [by intros HC ? [= <-]|intros HC; by apply HC]. }
  split; [done|]. eapply says_iff; [|exact (says_trans _ _ _ _ _ Hs1 Hs2)].
  split; intros [H1 H2]; (split; [intros name spec Hn; by apply H1|intros name spec Hn; by apply H2]) || (split; [intros name Hn spec; by apply H1|intros name Hn spec; by apply H2]).
Qed.

(** The checks the vocabulary brings accept what the walk collected. *)
Definition checks_pass (owner_of : Method → option Node) (v : Validator) : Prop :=
  (∀ name spec check ms, v_contracts v !! name = Some spec → c_Validate spec = Some check →
     v_members v !! name = Some ms → check ms = []) ∧
  (∀ name spec check l, v_mixins v !! name = Some spec → x_Validate spec = Some check →
     v_attachments v !! name = Some l → check owner_of l = []).

Lemma reports_say {A} (pos : A → Pos) fmt args (l : list A) st :
  says (l = []) st (fold_left (λ st w, report ValidatorName (pos w) fmt (args w) st) l st).
Proof.
  eapply says_iff; [|apply (says_fold _ (λ _, False)); intros; apply says_report; intros []].
  destruct l as [|x l]; split; try done; intros H.
  - by intros x ?%elem_of_nil.
  - destruct (H x). by left.
Qed.

Lemma AfterNodes_says `{MapOrder} owner_of v st :
  (AfterNodes owner_of (v, st)).1 = v ∧ says (checks_pass owner_of v) st (AfterNodes owner_of (v, st)).2.
Proof.
  split; [done|]. unfold AfterNodes. match goal with |- context [fold_left ?f (map_keys (v_members v)) st] => set (f1 := f) end.
  match goal with |- context [fold_left ?g (map_keys (v_attachments v)) _] => set (g1 := g) end. cbn [snd].
  assert (says (∀ name, name ∈ map_keys (v_members v) → ∀ spec check ms, v_contracts v !! name = Some spec →
    c_Validate spec = Some check → v_members v !! name = Some ms → check ms = []) st (fold_left f1 (map_keys (v_members v)) st)) as H1.
  { apply says_fold. intros st' name Hn _. unfold f1. destruct (v_contracts v !! name) as [spec|]; [|by apply says_refl].
    destruct (c_Validate spec) as [check|] eqn:Ec; [|apply says_refl; by intros ? ? ? [= <-]; rewrite Ec].
    apply elem_of_map_keys in Hn as [ms Em]. rewrite Em. cbn [default from_option id].
    eapply says_iff; [|apply reports_say]. split; [|intros Hx; by eapply Hx].
    intros Hx ? ? ? [= <-]. rewrite Ec. by intros [= <-] [= <-]. }
  assert (∀ st, says (∀ name, name ∈ map_keys (v_attachments v) → ∀ spec check l, v_mixins v !! name = Some spec →
    x_Validate spec = Some check → v_attachments v !! name = Some l → check owner_of l = []) st
    (fold_left g1 (map_keys (v_attachments v)) st)) as H2.
  { intros st2. apply says_fold. intros st' name Hn _. unfold g1. destruct (v_mixins v !! name) as [spec|]; [|by apply says_refl].
    destruct (x_Validate spec) as [check|] eqn:Ec; [|apply says_refl; by intros ? ? ? [= <-]; rewrite Ec].
    apply elem_of_map_keys in Hn as [ms Em]. rewrite Em. cbn [default from_option id].
    eapply says_iff; [|apply reports_say]. split; [|intros Hx; by eapply Hx].
    intros Hx ? ? ? [= <-]. rewrite Ec. by intros [= <-] [= <-]. }
  eapply says_iff; [|exact (says_trans _ _ _ _ _ H1 (H2 _))]. split; intros [A B]; split.
  - intros name spec check ms E1 E2 E3. eapply A; [apply elem_of_map_keys; by eexists|done..].
  - intros name spec check l E1 E2 E3. eapply B; [apply elem_of_map_keys; by eexists|done..].
  - intros name _ spec check ms E1 E2 E3. by eapply A.
  - intros name _ spec check l E1 E2 E3. by eapply B.
Qed.

(** C35: the validator is silent exactly when nothing is missing.  A run over
    a store changes no metadata and adds no diagnostic if and only if every
    method and function of the store carries each partner and each parameter
    its contracts require of its role and each parameter its mixins require,
    and every check of a contract or mixin accepts the members and
    attachments the walk collected. *)
Theorem validator_is_silent_iff_complete `{MapOrder} p owner_of view st :
  discard (a_sink st) = false →
  let r := Annotate owner_of view (Validator_of p, st) in
  a_metas r.2 = a_metas st ∧
  (diags (a_sink r.2) = diags (a_sink st) ↔
     (∀ m, m ∈ items (methods view) → complete (contracts p) (mixins p) (bag_of (m_base m) st)) ∧
     (∀ f, f ∈ items (functions view) → complete (contracts p) (mixins p) (bag_of (fn_base f) st)) ∧
     checks_pass owner_of r.1).
Proof.
  intros Hd. cbv zeta. unfold Annotate, walk.Walk. cbn [walk.BeforeNodes walk.OnStruct walk.OnInterface walk.OnMethod
    walk.OnFunction walk.AfterNodes walk.once walk.each_of fst snd].
  set (v0 := BeforeNodes (Validator_of p)).
  destruct (says_loop (vocabulary v0) (λ s m, visit (NMethod m) s)
    (λ m, complete (contracts p) (mixins p) (bag_of (m_base m) st)) (items (methods view)) (v0, st)) as [V1 S1].
  { done. }
  { intros s' m _ Hv E. destruct (visit_says v0 (NMethod m) s' Hv) as [Hv' Hs]. split; [done|].
    cbn [node_base] in Hs. unfold bag_of in *. by rewrite E in Hs. }
  set (s1 := fold_left _ (items (methods view)) (v0, st)) in *.
  destruct (says_loop (vocabulary v0) (λ s f, visit (NFunction f) s)
    (λ f, complete (contracts p) (mixins p) (bag_of (fn_base f) st)) (items (functions view)) s1 V1) as [V2 S2].
  { intros s' f _ Hv E. destruct (visit_says v0 (NFunction f) s' Hv) as [Hv' Hs]. split; [done|].
    cbn [node_base] in Hs. unfold bag_of in *. rewrite E, (proj1 S1) in Hs. done. }
  set (s2 := fold_left _ (items (functions view)) s1) in *.
  destruct (AfterNodes_says owner_of s2.1 s2.2) as [E3 S3]. rewrite <- surjective_pairing in E3, S3. rewrite E3.
  pose proof (says_trans _ _ _ _ _ S1 (says_trans _ _ _ _ _ S2 S3)) as (Em & _ & Hl). cbn [snd] in *.
  split; [exact Em|]. destruct (Hl Hd) as (l & El & Hi). rewrite <- Hi, El. split.
  - intros E. rewrite <- (app_nil_r (diags (a_sink st))) in E at 2. by apply app_inv_head in E.
  - intros ->. apply app_nil_r.
Qed.

(** ** Linking partners *)

Import resolver.

Lemma role_not_list name : k_name (ContractRoleKey name) ≠ "shape.contracts".
Proof. cbn. intros E. discriminate E. Qed.

Lemma partner_not_list name k : k_name (ContractPartnerKey name k) ≠ "shape.contracts".
Proof. cbn. intros E. discriminate E. Qed.

Lemma partner_not_role name k : k_name (ContractPartnerKey name k) ≠ k_name (ContractRoleKey name).
Proof. cbn. intros E. injection E as E. apply append_inj_r in E. discriminate. Qed.

(** A stamp that is written only where there is none. *)
Definition keep_or (old : option string) (new : string) : option string :=
  if String.eqb (default "" old) "" then Some new else old.

Definition set_if_empty (b : BaseNode) (name v : string) (st : astate) : astate :=
  if String.eqb (default "" (get_string (bag_of b st) (string_key name))) ""
  then set_key b (string_key name) (VString v) ResolverName st else st.

Lemma set_if_empty_spec b name v st :
  plain_at b st →
  plain_at b (set_if_empty b name v st) ∧
  get_string (bag_of b (set_if_empty b name v st)) (string_key name) = keep_or (get_string (bag_of b st) (string_key name)) v ∧
  (∀ t, t ≠ name → fact (set_if_empty b name v st) b t = fact st b t) ∧
  (∀ b', ref b' ≠ ref b → bag_of b' (set_if_empty b name v st) = bag_of b' st) ∧
  a_sink (set_if_empty b name v st) = a_sink st.
Proof.
  intros Hp. unfold set_if_empty, keep_or. destruct (String.eqb _ ""); [|by split_and!]. split_and!.
  - auto with shape.
  - by rewrite get_string_fact, set_key_fact, decide_True by done.
  - intros t Ht. rewrite set_key_fact by done. rewrite decide_False; [done|]. cbn. naive_solver.
  - intros b' Hb. by apply bag_of_set_other.
  - apply set_key_sink.
Qed.

Lemma appendContract_other b name st b' : ref b' ≠ ref b → bag_of b' (appendContract b name st) = bag_of b' st.
Proof. intros Hn. apply (frame_appendContract b name st). done. Qed.

Lemma appendContract_sink b name st : a_sink (appendContract b name st) = a_sink st.
Proof. unfold appendContract. case_bool_decide; [done|apply set_key_sink]. Qed.

Lemma appendContract_plain b name st : plain_at b st → plain_at b (appendContract b name st).
Proof. apply (frame_appendContract b name st). Qed.

Lemma fact_of_bag st st' b t : bag_of b st' = bag_of b st → fact st' b t = fact st b t.
Proof. unfold fact. by intros ->. Qed.

(** The contracts of a callable that joins one. *)
Definition enlisted (c : string) (old : list string) : list string :=
  if bool_decide (c ∈ old) then old else old ++ [c].

Lemma contracts_by_fact b st st' :
  fact st' b "shape.contracts" = fact st b "shape.contracts" → Contracts (bag_of b st') = Contracts (bag_of b st).
Proof. intros E. unfold Contracts, MetaContracts. by rewrite !get_list_fact, E. Qed.

(** The partner joins the contract. *)
Lemma enlist_spec b c st :
  plain_at b st →
  let st0 := EnsureMeta b st in
  let st1 := if bool_decide (c ∈ Contracts (bag_of b st0)) then st0 else appendContract b c st0 in
  plain_at b st1 ∧ Contracts (bag_of b st1) = enlisted c (Contracts (bag_of b st)) ∧ (∀ t, t ≠ "shape.contracts" → fact st1 b t = fact st b t) ∧
  (∀ b', ref b' ≠ ref b → bag_of b' st1 = bag_of b' st) ∧ a_sink st1 = a_sink st.
Proof.
  intros Hp. cbv zeta. set (st0 := EnsureMeta b st). assert (plain_at b st0) as P0 by (unfold st0; auto with shape).
  assert ((if bool_decide (c ∈ Contracts (bag_of b st0)) then st0 else appendContract b c st0) = appendContract b c st0) as ->
    by (unfold appendContract; by case_bool_decide).
  split_and!.
  - by apply appendContract_plain.
  - rewrite appendContract_list by done. unfold st0. by rewrite (contracts_by_fact b st) by (by apply ensure_fact).
  - intros t Ht. rewrite appendContract_fact by done. by apply ensure_fact.
  - intros b' Hb. rewrite appendContract_other by done. by apply (frame_ensure "" b st).
  - by rewrite appendContract_sink.
Qed.

Lemma backstamp_spec `{PtrOrder} r spec partnerRole hostQName hostRole q st b :
  node_by_qname r q = Some b → plain_at b st →
  let c := c_Name spec in
  let st' := backstamp r spec partnerRole hostQName hostRole q st in
  a_sink st' = a_sink st ∧ (∀ b', ref b' ≠ ref b → bag_of b' st' = bag_of b' st) ∧
  Contracts (bag_of b st') = enlisted c (Contracts (bag_of b st)) ∧
  get_string (bag_of b st') (ContractRoleKey c) = keep_or (get_string (bag_of b st) (ContractRoleKey c)) partnerRole ∧
  (hostRole ≠ "" → get_string (bag_of b st') (ContractPartnerKey c hostRole) =
     keep_or (get_string (bag_of b st) (ContractPartnerKey c hostRole)) hostQName).
Proof.
  intros Eq Hp. cbv zeta. unfold backstamp. rewrite Eq. set (c := c_Name spec).
  destruct (enlist_spec b c st Hp) as (P1 & C1 & F1 & O1 & S1). set (st1 := if bool_decide _ then _ else _) in *.
  change (if String.eqb (default "" (get_string (bag_of b st1) (ContractRoleKey c))) ""
          then set_key b (ContractRoleKey c) (VString partnerRole) ResolverName st1 else st1)
    with (set_if_empty b (k_name (ContractRoleKey c)) partnerRole st1).
  destruct (set_if_empty_spec b (k_name (ContractRoleKey c)) partnerRole st1 P1) as (P2 & R2 & F2 & O2 & S2).
  set (st2 := set_if_empty b _ partnerRole st1) in *.
  change (if String.eqb (default "" (get_string (bag_of b st2) (ContractPartnerKey c hostRole))) ""
          then set_key b (ContractPartnerKey c hostRole) (VString hostQName) ResolverName st2 else st2)
    with (set_if_empty b (k_name (ContractPartnerKey c hostRole)) hostQName st2).
  destruct (set_if_empty_spec b (k_name (ContractPartnerKey c hostRole)) hostQName st2 P2) as (P3 & R3 & F3 & O3 & S3).
  set (st3 := set_if_empty b _ hostQName st2) in *.
  assert (get_string (bag_of b st1) (ContractRoleKey c) = get_string (bag_of b st) (ContractRoleKey c)) as G1.
  { unfold ContractRoleKey. rewrite !get_string_fact, F1; [done|]. apply role_not_list. }
  assert (get_string (bag_of b st2) (ContractPartnerKey c hostRole) = get_string (bag_of b st) (ContractPartnerKey c hostRole)) as G2.
  { unfold ContractPartnerKey. rewrite !get_string_fact, F2, F1; [done|apply partner_not_list|apply partner_not_role]. }
  change (string_key (k_name (ContractRoleKey c))) with (ContractRoleKey c) in *.
  change (string_key (k_name (ContractPartnerKey c hostRole))) with (ContractPartnerKey c hostRole) in *. rewrite G1 in R2. rewrite G2 in R3.
  assert (Contracts (bag_of b st2) = enlisted c (Contracts (bag_of b st))) as C2.
  { rewrite <- C1. apply contracts_by_fact, F2. symmetry. apply role_not_list. }
  clearbody st1 st2 st3. destruct (String.eqb_spec hostRole "") as [Hr|Hr].
  - split; [by rewrite S2|]. split; [intros b' Hb; by rewrite O2, O1|]. split; [exact C2|]. split; [exact R2|]. intros Hx. destruct (Hx Hr).
  - split; [by rewrite S3, S2|]. split; [intros b' Hb; by rewrite O3, O2, O1|]. split.
    { rewrite <- C2. apply contracts_by_fact, F3. symmetry. apply partner_not_list. }
    split; [|intros _; exact R3]. rewrite <- R2. unfold ContractRoleKey. rewrite !get_string_fact, F3; [done|].
    symmetry. apply partner_not_role.
Qed.

(** C28: resolving a partner links the two callables both ways, whatever order
    the runtime ranges over its indexes in, for a host with a non-empty stamp
    for the partner's role and bags that only plugins wrote to, without
    tombstones ([plain_at]).  The name is taken as it stands when it contains a
    dot and looked up in the host's scope otherwise.  When it is not found, the
    one effect is a diagnostic.  When it is, the host's stamp becomes the
    qualified name and nothing is reported; if the resolver's index has a
    callable of that name other than the host, with such a bag, it is
    listed under the contract (its list keeps what it had, and the contract is
    appended if it was not there), has a role and, when the host has one, the
    pointer back to the host, stamps it already had being kept; and no other
    callable changes.  A name the index does not have is accepted silently: the
    host's stamp is the one effect. *)
Theorem partners_are_linked_both_ways `{PtrOrder} r host hostQName hostRole partnerRole scope spec st raw :
  let h := node_base host in
  let c := c_Name spec in
  plain_at h st → get_string (bag_of h st) (ContractPartnerKey c partnerRole) = Some raw → raw ≠ "" →
  let target := if isQualified raw then raw else scope raw in
  let st' := resolvePartner r host hostQName hostRole partnerRole scope spec st in
  (target = "" → a_metas st' = a_metas st ∧ a_fired st' = a_fired st ∧
     a_sink st' = Errorf (For ResolverName) (a_sink st) (pos_of host) "shape.contract %q: partner %q=%q not found in scope"
       [AStr c; AStr partnerRole; AStr raw]) ∧
  (target ≠ "" → node_by_qname r target = None →
     a_sink st' = a_sink st ∧
     get_string (bag_of h st') (ContractPartnerKey c partnerRole) = Some target ∧
     ∀ b', ref b' ≠ ref h → bag_of b' st' = bag_of b' st) ∧
  (∀ b, target ≠ "" → node_by_qname r target = Some b → ref b ≠ ref h → plain_at b st →
     a_sink st' = a_sink st ∧
     get_string (bag_of h st') (ContractPartnerKey c partnerRole) = Some target ∧
     Contracts (bag_of b st') = enlisted c (Contracts (bag_of b st)) ∧
     get_string (bag_of b st') (ContractRoleKey c) = keep_or (get_string (bag_of b st) (ContractRoleKey c)) partnerRole ∧
     (hostRole ≠ "" → get_string (bag_of b st') (ContractPartnerKey c hostRole) =
        keep_or (get_string (bag_of b st) (ContractPartnerKey c hostRole)) hostQName) ∧
     ∀ b', ref b' ≠ ref h → ref b' ≠ ref b → bag_of b' st' = bag_of b' st).
Proof.
  cbv zeta. intros Hp Hraw Hne. unfold resolvePartner. rewrite Hraw. cbn [default from_option id].
  rewrite (proj2 (String.eqb_neq raw "") Hne). destruct (isQualified raw) eqn:Eq.
  - split; [done|]. split; [intros _ Hn; unfold backstamp; by rewrite Hn|]. intros b Ht Hb Hr Hpb.
    destruct (backstamp_spec r spec partnerRole hostQName hostRole raw st b Hb Hpb) as (S & O & C & R & P).
    split_and!; [exact S|by rewrite O by congruence|exact C|exact R|exact P|]. intros b' _ Hb'. by apply O.
  - split; [by intros ->|].
    set (st1 := set_key _ _ (VString (scope raw)) ResolverName st).
    assert (get_string (bag_of (node_base host) st1) (ContractPartnerKey (c_Name spec) partnerRole) = Some (scope raw)) as Hset.
    { unfold st1, ContractPartnerKey. by rewrite get_string_fact, set_key_fact, decide_True by done. }
    assert (∀ b', ref b' ≠ ref (node_base host) → bag_of b' st1 = bag_of b' st) as Eb.
    { intros b' Hb'. by apply bag_of_set_other. }
    assert (a_sink st1 = a_sink st) as Hs by apply set_key_sink.
    split.
    { intros Ht Hn. rewrite (proj2 (String.eqb_neq _ _) Ht). unfold backstamp. by rewrite Hn. }
    intros b Ht Hb Hr Hpb. rewrite (proj2 (String.eqb_neq _ _) Ht).
    assert (plain_at b st1) as Hpb1 by (unfold st1; auto with shape).
    destruct (backstamp_spec r spec partnerRole hostQName hostRole _ st1 b Hb Hpb1) as (S & O & C & R & P).
    rewrite (Eb b Hr) in C, R, P.
    split_and!; [by rewrite S|by rewrite O by congruence|exact C|exact R|exact P|].
    intros b' H1 H2. by rewrite O, Eb.
Qed.

(** ** The callables the resolver does not index *)

Definition indexed (pkgs : list Package) (ptr : pointer) : Prop :=
  ∃ pkg, pkg ∈ pkgs ∧
    ((∃ s m, s ∈ p_Structs pkg ∧ m ∈ s_Methods s ∧ ref (m_base m) = ptr) ∨
     (∃ i m, i ∈ p_Interfaces pkg ∧ m ∈ i_Methods i ∧ ref (m_base m) = ptr)).

Lemma fold_inv {A S} (I : S → Prop) (f : S → A → S) l s :
  I s → (∀ s x, x ∈ l → I s → I (f s x)) → I (fold_left f l s).
Proof.
  revert s. induction l as [|x l IH]; intros s Hs Hf; [done|]. apply IH; [apply Hf; [by left|done]|].
  intros s' y Hy. apply Hf. by right.
Qed.

Abbreviation known r ptr := (is_Some (r_methodOwner r !! ptr)).

Lemma index_methods_known owner pkg ms r ptr :
  known (index_methods owner pkg ms r) ptr → known r ptr ∨ ∃ m, m ∈ ms ∧ ref (m_base m) = ptr.
Proof.
  intros Hk. cut ((λ r', known r' ptr → known r ptr ∨ ∃ m, m ∈ ms ∧ ref (m_base m) = ptr) (index_methods owner pkg ms r)); [auto|].
  unfold index_methods. apply fold_inv; [auto|]. intros r' m Hm IH. cbn [r_methodOwner].
  destruct (decide (ref (m_base m) = ptr)) as [<-|Hn]; [eauto|]. by rewrite lookup_insert_ne.
Qed.

Lemma BeforeNodes_known reader pkgs r ptr : known (BeforeNodes reader pkgs r) ptr → indexed pkgs ptr.
Proof.
  cut ((λ r', known r' ptr → indexed pkgs ptr) (BeforeNodes reader pkgs r)); [done|]. unfold BeforeNodes. apply fold_inv.
  { cbn [r_methodOwner]. intros [x Hx]. by rewrite lookup_empty in Hx. }
  intros r1 pkg Hpkg IH. unfold index_package.
  apply (fold_inv (λ r', known r' ptr → indexed pkgs ptr)); [|intros r2 f _ H2; exact H2].
  apply (fold_inv (λ r', known r' ptr → indexed pkgs ptr)).
  - apply (fold_inv (λ r', known r' ptr → indexed pkgs ptr)); [done|]. intros r2 s Hs H2 Hk.
    apply index_methods_known in Hk as [Hk|(m & Hm & E)]; [by apply H2|]. exists pkg. split; [done|]. left. eauto.
  - intros r2 i Hi H2 Hk. apply index_methods_known in Hk as [Hk|(m & Hm & E)]; [by apply H2|].
    exists pkg. split; [done|]. right. eauto.
Qed.

(** Methods of enums and aliases are walked but not indexed: their scope is
    empty, so every partner they name is reported as missing, sibling or not. *)
Theorem value_methods_have_no_scope `{PtrOrder} reader pkgs r m hostRole partnerRole spec st raw :
  ¬ indexed pkgs (ref (m_base m)) → plain_at (m_base m) st →
  get_string (bag_of (m_base m) st) (ContractPartnerKey (c_Name spec) partnerRole) = Some raw → raw ≠ "" →
  isQualified raw = false →
  let r' := BeforeNodes reader pkgs r in
  let st' := resolvePartner r' (NMethod m) (m_Name m) hostRole partnerRole (methodScope (owner_of r' m)) spec st in
  methodScope (owner_of r' m) = emptyScope ∧
  a_metas st' = a_metas st ∧
  a_sink st' = Errorf (For ResolverName) (a_sink st) (pos_of (NMethod m))
    "shape.contract %q: partner %q=%q not found in scope" [AStr (c_Name spec); AStr partnerRole; AStr raw].
Proof.
  cbv zeta. intros Hi Hp Hraw Hne Hq.
  assert (owner_of (BeforeNodes reader pkgs r) m = MkOwner "" []) as Eo.
  { unfold owner_of. destruct (r_methodOwner _ !! _) as [x|] eqn:E; [|done]. destruct Hi.
    eapply BeforeNodes_known. by rewrite E. }
  rewrite Eo. split; [done|]. unfold resolvePartner. cbn [node_base]. rewrite Hraw. cbn [default from_option id].
  by rewrite (proj2 (String.eqb_neq raw "") Hne), Hq.
Qed.

(** ** Examples *)

(** [Begin], which names its partners, with [Commit] and [Rollback]. *)
Definition tx_directive : Directive :=
  MkDirective "contract" false ["tx"]
    {["role" := "begin"; "commit" := "Commit"; "rollback" := "Rollback"]} "" zero_pos.
Definition tx_methods : list Method :=
  [Fixture.method 11%positive "Begin" [tx_directive]; Fixture.method 12%positive "Commit" [];
   Fixture.method 13%positive "Rollback" []].

Definition view_of (pkg : Package) : NodeView := n_view (AddPackage (Some pkg) (MkN newNodeView ∅)).1.
Definition tx_plugin : Plugin := Contracts_ New contracts.All.
Definition start : astate := MkA ∅ Diag.New [].

(** The pass over a store with the given package. *)
Definition tx_run (pkg : Package) : astate := annotate_all tx_plugin None (λ _, None) (view_of pkg) start.

Definition on_struct : Package :=
  Fixture.package 1%positive "db" [Fixture.struct 2%positive "db" "Store" [] tx_methods] [] [].
Definition on_alias : Package :=
  Fixture.package 1%positive "db" [] [] [Fixture.alias 2%positive "db" "Store" tx_methods].

(** The same three methods and directive: on a struct the pass is silent and
    links them, on a defined type it reports both partners as missing. *)
Theorem alias_partners_are_rejected :
  diags (a_sink (tx_run on_struct)) = [] ∧
  get_string (bag_of (Fixture.at_ptr 12%positive []) (tx_run on_struct)) (ContractPartnerKey "tx" "begin")
    = Some "db.Store.Begin" ∧
  (λ d, (d_plugin d, args (d_message d))) <$> diags (a_sink (tx_run on_alias)) =
    [("shape.contract.resolver", [AStr "tx"; AStr "commit"; AStr "Commit"]);
     ("shape.contract.resolver", [AStr "tx"; AStr "rollback"; AStr "Rollback"])].
Proof. vm_compute. split; [reflexivity|]. split; reflexivity. Qed.

Definition stamped_begin : astate :=
  set_key (Fixture.at_ptr 11%positive [tx_directive]) (ContractPartnerKey "tx" "commit") (VString "Commit") "shape.contract" start.

Lemma stamped_begin_plain b : plain_at b stamped_begin.
Proof. apply set_key_plain. intros g Hg. discriminate Hg. Qed.

Lemma partners_are_linked_both_ways_witness :
  let r := BeforeNodes None [on_struct] (Resolver_of tx_plugin) in
  let host := NMethod (Fixture.method 11%positive "Begin" [tx_directive]) in
  let scope := callableScope r host in
  let st' := resolvePartner r host "db.Store.Begin" "begin" "commit" scope contracts.tx.Contract_ stamped_begin in
  get_string (bag_of (node_base host) st') (ContractPartnerKey "tx" "commit") = Some "db.Store.Commit" ∧
  Contracts (bag_of (Fixture.at_ptr 12%positive []) st') = ["tx"].
Proof.
  intros r host scope st'.
  destruct (partners_are_linked_both_ways r host "db.Store.Begin" "begin" "commit" scope contracts.tx.Contract_
    stamped_begin "Commit" (stamped_begin_plain _)) as (_ & _ & H); [vm_compute; reflexivity|discriminate|].
  destruct (H (Fixture.at_ptr 12%positive [])) as (_ & H1 & H2 & _);
    [vm_compute; discriminate|vm_compute; reflexivity|vm_compute; discriminate|apply stamped_begin_plain|].
  split; [etrans; [exact H1|]; vm_compute; reflexivity|]. etrans; [exact H2|]. vm_compute. reflexivity.
Defined.

(** The validator over what the umbrella and the resolver stamped. *)
Lemma validator_is_silent_iff_complete_witness :
  let st := (resolver.Annotate None (view_of on_struct)
               (Resolver_of tx_plugin, shape.Annotate tx_plugin [on_struct] start)).2 in
  Forall (λ m, complete (contracts tx_plugin) (mixins tx_plugin) (bag_of (m_base m) st)) (items (methods (view_of on_struct))).
Proof.
  intros st. destruct (validator_is_silent_iff_complete tx_plugin (λ _, None) (view_of on_struct) st) as [_ H].
  { vm_compute. reflexivity. }
  apply Forall_forall. apply H. vm_compute. reflexivity.
Defined.

Lemma value_methods_have_no_scope_witness :
  let m := Fixture.method 11%positive "Begin" [tx_directive] in
  ¬ indexed [on_alias] (ref (m_base m)) ∧
  a_metas (resolvePartner (BeforeNodes None [on_alias] (Resolver_of tx_plugin)) (NMethod m) "Begin" "begin" "commit"
    (methodScope (owner_of (BeforeNodes None [on_alias] (Resolver_of tx_plugin)) m)) contracts.tx.Contract_ stamped_begin)
  = a_metas stamped_begin.
Proof.
  assert (¬ indexed [on_alias] 11%positive) as Hi.
  { intros (pkg & Hpkg & H). apply list_elem_of_singleton in Hpkg as ->.
    destruct H as [(s & m & Hs & _)|(s & m & Hs & _)]; by apply elem_of_nil in Hs. }
  split; [exact Hi|].
  refine (proj1 (proj2 (value_methods_have_no_scope None [on_alias] (Resolver_of tx_plugin)
    (Fixture.method 11%positive "Begin" [tx_directive]) "begin" "commit" contracts.tx.Contract_ stamped_begin "Commit"
    Hi (stamped_begin_plain _) _ _ _))); [vm_compute; reflexivity|discriminate|vm_compute; reflexivity].
Defined.
