(* ===== verification/ShapeIds.v ===== *)
(** * plugins/annotator/shape: the catalog's identifiers

    [ids.go]: a constant per detector, contract, role, mixin and parameter,
    and the queries over the catalog.  A name is a string. *)

From S2P Require Import Prelude GoStrings Meta Node Shape ShapeDetectors ShapeCatalog.

Local Open Scope string_scope.
Local Open Scope nat_scope.
Local Open Scope list_scope.

Import shape.

Module ids.

Definition DetectorAggregator : string := aggregator.Name.
Definition DetectorAnsweringWriter : string := answeringwriter.Name.
Definition DetectorBatchReader : string := batchreader.Name.
Definition DetectorCloser : string := closer.Name.
Definition DetectorCompositeWriter : string := compositewriter.Name.
Definition DetectorDeleter : string := deleter.Name.
Definition DetectorLifecycle : string := lifecycle.Name.
Definition DetectorLookup : string := lookup_.Name.
Definition DetectorMultiAggregator : string := multiaggregator.Name.
Definition DetectorMultiArgWriter : string := multiargwriter.Name.
Definition DetectorMultiReader : string := multireader.Name.
Definition DetectorMutator : string := mutator.Name.
Definition DetectorPointerReader : string := pointerreader.Name.
Definition DetectorPoisonAccessor : string := poisonaccessor.Name.
Definition DetectorPredicate : string := predicate.Name.
Definition DetectorPure : string := pure_.Name.
Definition DetectorReader : string := reader.Name.
Definition DetectorReaderNoError : string := readernoerror.Name.
Definition DetectorReaderWithBool : string := readerwithbool.Name.
Definition DetectorStreamConsumer : string := streamconsumer.Name.
Definition DetectorStreamReader : string := streamreader.Name.
Definition DetectorVoidLifecycle : string := voidlifecycle.Name.
Definition DetectorWriter : string := writer.Name.
Definition ContractAppender : string := contracts.appender.Name.
Definition ContractBatchWriter : string := contracts.batchwriter.Name.
Definition ContractCache : string := contracts.writethroughcache.Name.
Definition ContractCAS : string := contracts.cas.Name.
Definition ContractChain : string := contracts.chain.Name.
Definition ContractCircuitBreaker : string := contracts.circuitbreaker.Name.
Definition ContractCodec : string := contracts.codec.Name.
Definition ContractCursor : string := contracts.cursor.Name.
Definition ContractIfAbsent : string := contracts.ifabsent.Name.
Definition ContractIfMatch : string := contracts.ifmatch.Name.
Definition ContractLeaderElection : string := contracts.leaderelection.Name.
Definition ContractLease : string := contracts.lease.Name.
Definition ContractOutbox : string := contracts.outbox.Name.
Definition ContractPagination : string := contracts.pagination.Name.
Definition ContractPersister : string := contracts.persister.Name.
Definition ContractPool : string := contracts.pool.Name.
Definition ContractPublisher : string := contracts.publisher.Name.
Definition ContractRateLimit : string := contracts.ratelimit.Name.
Definition ContractSaga : string := contracts.saga.Name.
Definition ContractSingleFlight : string := contracts.singleflight.Name.
Definition ContractTransaction : string := contracts.transaction.Name.
Definition ContractTx : string := contracts.tx.Name.
Definition ContractUpdater : string := contracts.updater.Name.
Definition ContractUpserter : string := contracts.upserter.Name.
Definition ContractWatcher : string := contracts.watcher.Name.
Definition ContractWorkflow : string := contracts.workflow.Name.
Definition ContractAppenderRoleFn : string := contracts.appender.RoleFn.
Definition ContractBatchWriterRoleWriter : string := contracts.batchwriter.RoleWriter.
Definition ContractBatchWriterRoleReader : string := contracts.batchwriter.RoleReader.
Definition ContractCASRoleWriter : string := contracts.cas.RoleWriter.
Definition ContractCacheRoleCache : string := contracts.writethroughcache.RoleCache.
Definition ContractCacheRoleBacking : string := contracts.writethroughcache.RoleBacking.
Definition ContractChainRoleAppend : string := contracts.chain.RoleAppend.
Definition ContractChainRoleReplay : string := contracts.chain.RoleReplay.
Definition ContractChainRoleVerify : string := contracts.chain.RoleVerify.
Definition ContractCircuitBreakerRoleFn : string := contracts.circuitbreaker.RoleFn.
Definition ContractCodecRoleForward : string := contracts.codec.RoleForward.
Definition ContractCodecRoleInverse : string := contracts.codec.RoleInverse.
Definition ContractCursorRoleNext : string := contracts.cursor.RoleNext.
Definition ContractCursorRoleClose : string := contracts.cursor.RoleClose.
Definition ContractCursorRoleOpen : string := contracts.cursor.RoleOpen.
Definition ContractIfAbsentRoleWriter : string := contracts.ifabsent.RoleWriter.
Definition ContractIfMatchRoleWriter : string := contracts.ifmatch.RoleWriter.
Definition ContractIfMatchRoleMatch : string := contracts.ifmatch.RoleMatch.
Definition ContractLeaderElectionRoleCampaign : string := contracts.leaderelection.RoleCampaign.
Definition ContractLeaderElectionRoleResign : string := contracts.leaderelection.RoleResign.
Definition ContractLeaderElectionRoleIsLeader : string := contracts.leaderelection.RoleIsLeader.
Definition ContractLeaseRoleAcquire : string := contracts.lease.RoleAcquire.
Definition ContractLeaseRoleRelease : string := contracts.lease.RoleRelease.
Definition ContractOutboxRoleAppend : string := contracts.outbox.RoleAppend.
Definition ContractOutboxRoleSubscribe : string := contracts.outbox.RoleSubscribe.
Definition ContractPaginationRoleReader : string := contracts.pagination.RoleReader.
Definition ContractPersisterRoleWriter : string := contracts.persister.RoleWriter.
Definition ContractPersisterRoleReader : string := contracts.persister.RoleReader.
Definition ContractPoolRoleGet : string := contracts.pool.RoleGet.
Definition ContractPoolRolePut : string := contracts.pool.RolePut.
Definition ContractPoolRoleStats : string := contracts.pool.RoleStats.
Definition ContractPublisherRolePublish : string := contracts.publisher.RolePublish.
Definition ContractPublisherRoleSubscribe : string := contracts.publisher.RoleSubscribe.
Definition ContractPublisherRoleRedeliver : string := contracts.publisher.RoleRedeliver.
Definition ContractRateLimitRoleFn : string := contracts.ratelimit.RoleFn.
Definition ContractSagaRoleStep : string := contracts.saga.RoleStep.
Definition ContractSagaRoleCompensate : string := contracts.saga.RoleCompensate.
Definition ContractSingleFlightRoleFn : string := contracts.singleflight.RoleFn.
Definition ContractTransactionRoleFn : string := contracts.transaction.RoleFn.
Definition ContractTxRoleBegin : string := contracts.tx.RoleBegin.
Definition ContractTxRoleCommit : string := contracts.tx.RoleCommit.
Definition ContractTxRoleRollback : string := contracts.tx.RoleRollback.
Definition ContractUpdaterRoleWriter : string := contracts.updater.RoleWriter.
Definition ContractUpdaterRoleReader : string := contracts.updater.RoleReader.
Definition ContractUpserterRoleWriter : string := contracts.upserter.RoleWriter.
Definition ContractUpserterRoleReader : string := contracts.upserter.RoleReader.
Definition ContractWatcherRoleWatch : string := contracts.watcher.RoleWatch.
Definition ContractWatcherRoleTrigger : string := contracts.watcher.RoleTrigger.
Definition ContractWorkflowRoleFn : string := contracts.workflow.RoleFn.
Definition MixinAccumulates : string := mixins.accumulates.Name.
Definition MixinAssociative : string := mixins.associative.Name.
Definition MixinAtomic : string := mixins.atomic.Name.
Definition MixinBounded : string := mixins.bounded.Name.
Definition MixinCacheable : string := mixins.cacheable.Name.
Definition MixinCausal : string := mixins.causal.Name.
Definition MixinCommutative : string := mixins.commutative.Name.
Definition MixinConcurrent : string := mixins.concurrent.Name.
Definition MixinConcurrentReaders : string := mixins.concurrentreaders.Name.
Definition MixinConservative : string := mixins.conservative.Name.
Definition MixinCRDTMerge : string := mixins.crdtmerge.Name.
Definition MixinDefaultOnError : string := mixins.defaultonerror.Name.
Definition MixinDeleteRemoves : string := mixins.deleteremoves.Name.
Definition MixinDeprecated : string := mixins.deprecated.Name.
Definition MixinErrors : string := mixins.errors.Name.
Definition MixinEventually : string := mixins.eventually.Name.
Definition MixinHooks : string := mixins.hooks.Name.
Definition MixinIdempotent : string := mixins.idempotent.Name.
Definition MixinIndexed : string := mixins.indexed.Name.
Definition MixinInjectionSafe : string := mixins.injectionsafe.Name.
Definition MixinIntegrationOnly : string := mixins.integrationonly.Name.
Definition MixinLeakFree : string := mixins.leakfree.Name.
Definition MixinLifecycleAfterClose : string := mixins.lifecycleafterclose.Name.
Definition MixinMonotonic : string := mixins.monotonic.Name.
Definition MixinMonotonicReads : string := mixins.monotonicreads.Name.
Definition MixinMonotonicWrites : string := mixins.monotonicwrites.Name.
Definition MixinNilSafe : string := mixins.nilsafe.Name.
Definition MixinNoDuplicates : string := mixins.noduplicates.Name.
Definition MixinNotFound : string := mixins.notfound.Name.
Definition MixinOrderAfter : string := mixins.orderafter.Name.
Definition MixinOvermatch : string := mixins.overmatch.Name.
Definition MixinPartition : string := mixins.partition.Name.
Definition MixinPermutation : string := mixins.permutation.Name.
Definition MixinPointInTime : string := mixins.pointintime.Name.
Definition MixinPoisonable : string := mixins.poisonable.Name.
Definition MixinPure : string := mixins.pure.Name.
Definition MixinReadAfterWrite : string := mixins.readafterwrite.Name.
Definition MixinReadYourWrites : string := mixins.readyourwrites.Name.
Definition MixinRetrySucceeds : string := mixins.retrysucceeds.Name.
Definition MixinSample : string := mixins.sample.Name.
Definition MixinScheduled : string := mixins.scheduled.Name.
Definition MixinScope : string := mixins.scope.Name.
Definition MixinSerializable : string := mixins.serializable.Name.
Definition MixinSideEffect : string := mixins.sideeffect.Name.
Definition MixinSnapshotIsolation : string := mixins.snapshotisolation.Name.
Definition MixinStableOrder : string := mixins.stableorder.Name.
Definition MixinSticky : string := mixins.sticky.Name.
Definition MixinStreamReflectsMutations : string := mixins.streamreflectsmutations.Name.
Definition MixinTamperEvident : string := mixins.tamperevident.Name.
Definition MixinTimeAware : string := mixins.timeaware.Name.
Definition MixinTimeout : string := mixins.timeout.Name.
Definition MixinTotal : string := mixins.total.Name.
Definition MixinTTL : string := mixins.ttl.Name.
Definition MixinValidates : string := mixins.validates.Name.
Definition MixinWindowed : string := mixins.windowed.Name.
Definition MixinWrappedVia : string := mixins.wrappedvia.Name.
Definition MixinWritesFollowReads : string := mixins.writesfollowreads.Name.
Definition MixinXSSSafe : string := mixins.xsssafe.Name.
Definition ContractBatchWriterParamMode : string := contracts.batchwriter.ParamMode.
Definition ContractBatchWriterParamRefused : string := contracts.batchwriter.ParamRefused.
Definition ContractCASParamMismatch : string := contracts.cas.ParamMismatch.
Definition ContractCASParamVersion : string := contracts.cas.ParamVersion.
Definition ContractCodecParamFidelity : string := contracts.codec.ParamFidelity.
Definition ContractCursorParamClose : string := contracts.cursor.ParamClose.
Definition ContractCursorParamNext : string := contracts.cursor.ParamNext.
Definition ContractCursorParamSentinel : string := contracts.cursor.ParamSentinel.
Definition ContractIfAbsentParamConflict : string := contracts.ifabsent.ParamConflict.
Definition ContractIfMatchParamField : string := contracts.ifmatch.ParamField.
Definition ContractIfMatchParamPred : string := contracts.ifmatch.ParamPred.
Definition ContractLeaseParamHeld : string := contracts.lease.ParamHeld.
Definition ContractLeaseParamTimeout : string := contracts.lease.ParamTimeout.
Definition ContractPaginationParamCursor : string := contracts.pagination.ParamCursor.
Definition ContractPublisherParamMode : string := contracts.publisher.ParamMode.
Definition ContractRateLimitParamBurst : string := contracts.ratelimit.ParamBurst.
Definition ContractRateLimitParamLimited : string := contracts.ratelimit.ParamLimited.
Definition ContractRateLimitParamRate : string := contracts.ratelimit.ParamRate.
Definition ContractTransactionParamNotFound : string := contracts.transaction.ParamNotFound.
Definition ContractTransactionParamRead : string := contracts.transaction.ParamRead.
Definition ContractTransactionParamWrite : string := contracts.transaction.ParamWrite.
Definition ContractTxParamClosed : string := contracts.tx.ParamClosed.
Definition ContractWatcherParamNext : string := contracts.watcher.ParamNext.
Definition ContractWatcherParamStop : string := contracts.watcher.ParamStop.
Definition ContractWorkflowParamObserve : string := contracts.workflow.ParamObserve.
Definition ContractWorkflowParamTransitions : string := contracts.workflow.ParamTransitions.
Definition MixinAccumulatesParamObserve : string := mixins.accumulates.ParamObserve.
Definition MixinAtomicParamRead : string := mixins.atomic.ParamRead.
Definition MixinBoundedParamLimit : string := mixins.bounded.ParamLimit.
Definition MixinBoundedParamMin : string := mixins.bounded.ParamMin.
Definition MixinCausalParamVersion : string := mixins.causal.ParamVersion.
Definition MixinConservativeParamField : string := mixins.conservative.ParamField.
Definition MixinCRDTMergeParamRead : string := mixins.crdtmerge.ParamRead.
Definition MixinCRDTMergeParamWrite : string := mixins.crdtmerge.ParamWrite.
Definition MixinDeleteRemovesParamRead : string := mixins.deleteremoves.ParamRead.
Definition MixinDeleteRemovesParamSentinel : string := mixins.deleteremoves.ParamSentinel.
Definition MixinEventuallyParamObserve : string := mixins.eventually.ParamObserve.
Definition MixinEventuallyParamSettle : string := mixins.eventually.ParamSettle.
Definition MixinPointInTimeParamWrite : string := mixins.pointintime.ParamWrite.
Definition MixinEventuallyParamSync : string := mixins.eventually.ParamSync.
Definition MixinHooksParamRegister : string := mixins.hooks.ParamRegister.
Definition MixinIndexedParamBy : string := mixins.indexed.ParamBy.
Definition MixinInjectionSafeParamRead : string := mixins.injectionsafe.ParamRead.
Definition MixinLeakFreeParamClose : string := mixins.leakfree.ParamClose.
Definition MixinLeakFreeParamOpen : string := mixins.leakfree.ParamOpen.
Definition MixinLifecycleAfterCloseParamClose : string := mixins.lifecycleafterclose.ParamClose.
Definition MixinLifecycleAfterCloseParamSentinel : string := mixins.lifecycleafterclose.ParamSentinel.
Definition MixinMonotonicReadsParamVersion : string := mixins.monotonicreads.ParamVersion.
Definition MixinMonotonicWritesParamVersion : string := mixins.monotonicwrites.ParamVersion.
Definition MixinNotFoundParamSentinel : string := mixins.notfound.ParamSentinel.
Definition MixinOrderAfterParamFn : string := mixins.orderafter.ParamFn.
Definition MixinOrderAfterParamUnready : string := mixins.orderafter.ParamUnready.
Definition MixinPartitionParamAxis : string := mixins.partition.ParamAxis.
Definition MixinPartitionParamRead : string := mixins.partition.ParamRead.
Definition MixinPoisonableParamInduce : string := mixins.poisonable.ParamInduce.
Definition MixinReadAfterWriteParamWrite : string := mixins.readafterwrite.ParamWrite.
Definition MixinReadYourWritesParamVersion : string := mixins.readyourwrites.ParamVersion.
Definition MixinRetrySucceedsParamAttempts : string := mixins.retrysucceeds.ParamAttempts.
Definition MixinSampleParamBuilder : string := mixins.sample.ParamBuilder.
Definition MixinScheduledParamFired : string := mixins.scheduled.ParamFired.
Definition MixinScheduledParamSchedule : string := mixins.scheduled.ParamSchedule.
Definition MixinScopeParamAxis : string := mixins.scope.ParamAxis.
Definition MixinScopeParamName : string := mixins.scope.ParamName.
Definition MixinSerializableParamRead : string := mixins.serializable.ParamRead.
Definition MixinSideEffectParamObserve : string := mixins.sideeffect.ParamObserve.
Definition MixinSnapshotIsolationParamRead : string := mixins.snapshotisolation.ParamRead.
Definition MixinStickyParamKey : string := mixins.sticky.ParamKey.
Definition MixinStreamReflectsMutationsParamDelete : string := mixins.streamreflectsmutations.ParamDelete.
Definition MixinStreamReflectsMutationsParamMutate : string := mixins.streamreflectsmutations.ParamMutate.
Definition MixinTamperEvidentParamTamper : string := mixins.tamperevident.ParamTamper.
Definition MixinTamperEvidentParamVerify : string := mixins.tamperevident.ParamVerify.
Definition MixinTimeoutParamDuration : string := mixins.timeout.ParamDuration.
Definition MixinTotalParamDomain : string := mixins.total.ParamDomain.
Definition MixinTTLParamDuration : string := mixins.ttl.ParamDuration.
Definition MixinTTLParamLifetime : string := mixins.ttl.ParamLifetime.
Definition MixinTTLParamNotFound : string := mixins.ttl.ParamNotFound.
Definition MixinTTLParamPut : string := mixins.ttl.ParamPut.
Definition MixinTTLParamRead : string := mixins.ttl.ParamRead.
Definition MixinValidatesParamFn : string := mixins.validates.ParamFn.
Definition MixinValidatesParamInvalid : string := mixins.validates.ParamInvalid.
Definition MixinXSSSafeParamUnsafe : string := mixins.xsssafe.ParamUnsafe.
Definition MixinInjectionSafeParamUnsafe : string := mixins.injectionsafe.ParamUnsafe.
Definition MixinTotalParamEdge : string := mixins.total.ParamEdge.
Definition MixinWindowedParamCount : string := mixins.windowed.ParamCount.
Definition MixinWindowedParamIncr : string := mixins.windowed.ParamIncr.
Definition MixinWindowedParamWindow : string := mixins.windowed.ParamWindow.
Definition MixinWrappedViaParamFn : string := mixins.wrappedvia.ParamFn.
Definition MixinWritesFollowReadsParamVersion : string := mixins.writesfollowreads.ParamVersion.

Definition Detectors : list string :=
  [DetectorAggregator; DetectorAnsweringWriter; DetectorBatchReader; DetectorCloser;
   DetectorCompositeWriter; DetectorDeleter; DetectorLifecycle; DetectorLookup; DetectorMultiAggregator;
   DetectorMultiArgWriter; DetectorMultiReader; DetectorMutator; DetectorPointerReader;
   DetectorPoisonAccessor; DetectorPredicate; DetectorPure; DetectorReader; DetectorReaderNoError;
   DetectorReaderWithBool; DetectorStreamConsumer; DetectorStreamReader; DetectorVoidLifecycle;
   DetectorWriter].

Definition Contracts : list string :=
  [ContractAppender; ContractBatchWriter; ContractCache; ContractCAS; ContractChain; ContractCircuitBreaker;
   ContractCodec; ContractCursor; ContractIfAbsent; ContractIfMatch; ContractLeaderElection; ContractLease;
   ContractOutbox; ContractPagination; ContractPersister; ContractPool; ContractPublisher;
   ContractRateLimit; ContractSaga; ContractSingleFlight; ContractTransaction; ContractTx; ContractUpdater;
   ContractUpserter; ContractWatcher; ContractWorkflow].

Definition Mixins : list string :=
  [MixinAccumulates; MixinAssociative; MixinAtomic; MixinBounded; MixinCacheable; MixinCausal;
   MixinCommutative; MixinConcurrent; MixinConcurrentReaders; MixinConservative; MixinCRDTMerge;
   MixinDefaultOnError; MixinDeleteRemoves; MixinDeprecated; MixinErrors; MixinEventually; MixinHooks;
   MixinIdempotent; MixinIndexed; MixinInjectionSafe; MixinIntegrationOnly; MixinLeakFree;
   MixinLifecycleAfterClose; MixinMonotonic; MixinMonotonicReads; MixinMonotonicWrites; MixinNilSafe;
   MixinNoDuplicates; MixinNotFound; MixinOrderAfter; MixinOvermatch; MixinPartition; MixinPermutation;
   MixinPointInTime; MixinPoisonable; MixinPure; MixinReadAfterWrite; MixinReadYourWrites;
   MixinRetrySucceeds; MixinSample; MixinScheduled; MixinScope; MixinSerializable; MixinSideEffect;
   MixinSnapshotIsolation; MixinStableOrder; MixinSticky; MixinStreamReflectsMutations; MixinTamperEvident;
   MixinTimeAware; MixinTimeout; MixinTotal; MixinTTL; MixinValidates; MixinWindowed; MixinWrappedVia;
   MixinWritesFollowReads; MixinXSSSafe].

Record Param := MkOwned { Owner : string; owned : shape.Param }.
Record Role := MkRole { r_Owner : string; r_Role : string }.

(** By owner, then by the second component. *)
Definition pair_le (a b : string * string) : Prop := if String.eqb a.1 b.1 then str_le a.2 b.2 else str_le a.1 b.1.
#[export] Instance pair_le_dec : RelDecision pair_le.
Proof. intros a b. unfold pair_le. destruct (String.eqb _ _); apply _. Defined.

Definition by_pair {A} (key : A → string * string) (a b : A) : Prop := pair_le (key a) (key b).
#[export] Instance by_pair_dec {A} (key : A → string * string) : RelDecision (by_pair key).
Proof. intros a b. apply pair_le_dec. Defined.

Definition ContractRoles : list Role :=
  merge_sort (by_pair (λ r, (r_Owner r, r_Role r)))
    (mbind (λ c, (λ r, MkRole (c_Name c) r) <$> c_Roles c) contracts.All).

Definition sortParams (l : list Param) : list Param := merge_sort (by_pair (λ p, (Owner p, pr_Key (owned p)))) l.

Definition ContractParams : list Param :=
  sortParams (mbind (λ c, (λ p, MkOwned (c_Name c) p) <$> c_Params c) contracts.All).

Section Mixins.
  Context (is_print : N → bool).

Definition MixinParams : list Param :=
  sortParams (mbind (λ m, (λ p, MkOwned (x_Name m) p) <$> x_Params m) (mixins.All is_print)).

Definition ContractOf (name : string) : option Contract := List.find (λ c, String.eqb (c_Name c) name) contracts.All.
Definition MixinOf (name : string) : option Mixin := List.find (λ m, String.eqb (x_Name m) name) (mixins.All is_print).
Definition DetectorOf (name : string) : option Detector := List.find (λ d, String.eqb (dt_Name d) name) detectors.All.

Definition Documentary (name : string) : bool :=
  if match MixinOf name with Some m => x_Documentary m | None => false end then true
  else if match ContractOf name with Some c => c_Documentary c | None => false end then true
  else match DetectorOf name with Some d => dt_Documentary d | None => false end.

Definition Counterexamples : list Param :=
  sortParams (List.filter (λ p, pr_Counterexample (owned p)) (ContractParams ++ MixinParams)).

Definition paramByKey (ps : list shape.Param) (key : string) : option shape.Param :=
  List.find (λ p, String.eqb (pr_Key p) key) ps.
Definition ContractParam (owner key : string) : option shape.Param :=
  c ← ContractOf owner; paramByKey (c_Params c) key.
Definition MixinParam (owner key : string) : option shape.Param :=
  m ← MixinOf owner; paramByKey (x_Params m) key.

End Mixins.

End ids.

(** ** The constants and the catalog agree *)

(** The constants of [ids.go] with the owner each belongs to. *)
Definition role_constants : list (string * string) :=
  [(contracts.appender.Name, ids.ContractAppenderRoleFn); (contracts.batchwriter.Name,
   ids.ContractBatchWriterRoleWriter); (contracts.batchwriter.Name, ids.ContractBatchWriterRoleReader);
   (contracts.cas.Name, ids.ContractCASRoleWriter); (contracts.writethroughcache.Name,
   ids.ContractCacheRoleCache); (contracts.writethroughcache.Name, ids.ContractCacheRoleBacking);
   (contracts.chain.Name, ids.ContractChainRoleAppend); (contracts.chain.Name, ids.ContractChainRoleReplay);
   (contracts.chain.Name, ids.ContractChainRoleVerify); (contracts.circuitbreaker.Name,
   ids.ContractCircuitBreakerRoleFn); (contracts.codec.Name, ids.ContractCodecRoleForward);
   (contracts.codec.Name, ids.ContractCodecRoleInverse); (contracts.cursor.Name,
   ids.ContractCursorRoleNext); (contracts.cursor.Name, ids.ContractCursorRoleClose);
   (contracts.cursor.Name, ids.ContractCursorRoleOpen); (contracts.ifabsent.Name,
   ids.ContractIfAbsentRoleWriter); (contracts.ifmatch.Name, ids.ContractIfMatchRoleWriter);
   (contracts.ifmatch.Name, ids.ContractIfMatchRoleMatch); (contracts.leaderelection.Name,
   ids.ContractLeaderElectionRoleCampaign); (contracts.leaderelection.Name,
   ids.ContractLeaderElectionRoleResign); (contracts.leaderelection.Name,
   ids.ContractLeaderElectionRoleIsLeader); (contracts.lease.Name, ids.ContractLeaseRoleAcquire);
   (contracts.lease.Name, ids.ContractLeaseRoleRelease); (contracts.outbox.Name,
   ids.ContractOutboxRoleAppend); (contracts.outbox.Name, ids.ContractOutboxRoleSubscribe);
   (contracts.pagination.Name, ids.ContractPaginationRoleReader); (contracts.persister.Name,
   ids.ContractPersisterRoleWriter); (contracts.persister.Name, ids.ContractPersisterRoleReader);
   (contracts.pool.Name, ids.ContractPoolRoleGet); (contracts.pool.Name, ids.ContractPoolRolePut);
   (contracts.pool.Name, ids.ContractPoolRoleStats); (contracts.publisher.Name,
   ids.ContractPublisherRolePublish); (contracts.publisher.Name, ids.ContractPublisherRoleSubscribe);
   (contracts.publisher.Name, ids.ContractPublisherRoleRedeliver); (contracts.ratelimit.Name,
   ids.ContractRateLimitRoleFn); (contracts.saga.Name, ids.ContractSagaRoleStep); (contracts.saga.Name,
   ids.ContractSagaRoleCompensate); (contracts.singleflight.Name, ids.ContractSingleFlightRoleFn);
   (contracts.transaction.Name, ids.ContractTransactionRoleFn); (contracts.tx.Name,
   ids.ContractTxRoleBegin); (contracts.tx.Name, ids.ContractTxRoleCommit); (contracts.tx.Name,
   ids.ContractTxRoleRollback); (contracts.updater.Name, ids.ContractUpdaterRoleWriter);
   (contracts.updater.Name, ids.ContractUpdaterRoleReader); (contracts.upserter.Name,
   ids.ContractUpserterRoleWriter); (contracts.upserter.Name, ids.ContractUpserterRoleReader);
   (contracts.watcher.Name, ids.ContractWatcherRoleWatch); (contracts.watcher.Name,
   ids.ContractWatcherRoleTrigger); (contracts.workflow.Name, ids.ContractWorkflowRoleFn)].
Definition contract_param_constants : list (string * string) :=
  [(contracts.batchwriter.Name, ids.ContractBatchWriterParamMode); (contracts.batchwriter.Name,
   ids.ContractBatchWriterParamRefused); (contracts.cas.Name, ids.ContractCASParamMismatch);
   (contracts.cas.Name, ids.ContractCASParamVersion); (contracts.codec.Name,
   ids.ContractCodecParamFidelity); (contracts.cursor.Name, ids.ContractCursorParamClose);
   (contracts.cursor.Name, ids.ContractCursorParamNext); (contracts.cursor.Name,
   ids.ContractCursorParamSentinel); (contracts.ifabsent.Name, ids.ContractIfAbsentParamConflict);
   (contracts.ifmatch.Name, ids.ContractIfMatchParamField); (contracts.ifmatch.Name,
   ids.ContractIfMatchParamPred); (contracts.lease.Name, ids.ContractLeaseParamHeld); (contracts.lease.Name,
   ids.ContractLeaseParamTimeout); (contracts.pagination.Name, ids.ContractPaginationParamCursor);
   (contracts.publisher.Name, ids.ContractPublisherParamMode); (contracts.ratelimit.Name,
   ids.ContractRateLimitParamBurst); (contracts.ratelimit.Name, ids.ContractRateLimitParamLimited);
   (contracts.ratelimit.Name, ids.ContractRateLimitParamRate); (contracts.transaction.Name,
   ids.ContractTransactionParamNotFound); (contracts.transaction.Name, ids.ContractTransactionParamRead);
   (contracts.transaction.Name, ids.ContractTransactionParamWrite); (contracts.tx.Name,
   ids.ContractTxParamClosed); (contracts.watcher.Name, ids.ContractWatcherParamNext);
   (contracts.watcher.Name, ids.ContractWatcherParamStop); (contracts.workflow.Name,
   ids.ContractWorkflowParamObserve); (contracts.workflow.Name, ids.ContractWorkflowParamTransitions)].
Definition mixin_param_constants : list (string * string) :=
  [(mixins.accumulates.Name, ids.MixinAccumulatesParamObserve); (mixins.atomic.Name,
   ids.MixinAtomicParamRead); (mixins.bounded.Name, ids.MixinBoundedParamLimit); (mixins.bounded.Name,
   ids.MixinBoundedParamMin); (mixins.causal.Name, ids.MixinCausalParamVersion); (mixins.conservative.Name,
   ids.MixinConservativeParamField); (mixins.crdtmerge.Name, ids.MixinCRDTMergeParamRead);
   (mixins.crdtmerge.Name, ids.MixinCRDTMergeParamWrite); (mixins.deleteremoves.Name,
   ids.MixinDeleteRemovesParamRead); (mixins.deleteremoves.Name, ids.MixinDeleteRemovesParamSentinel);
   (mixins.eventually.Name, ids.MixinEventuallyParamObserve); (mixins.eventually.Name,
   ids.MixinEventuallyParamSettle); (mixins.pointintime.Name, ids.MixinPointInTimeParamWrite);
   (mixins.eventually.Name, ids.MixinEventuallyParamSync); (mixins.hooks.Name, ids.MixinHooksParamRegister);
   (mixins.indexed.Name, ids.MixinIndexedParamBy); (mixins.injectionsafe.Name,
   ids.MixinInjectionSafeParamRead); (mixins.leakfree.Name, ids.MixinLeakFreeParamClose);
   (mixins.leakfree.Name, ids.MixinLeakFreeParamOpen); (mixins.lifecycleafterclose.Name,
   ids.MixinLifecycleAfterCloseParamClose); (mixins.lifecycleafterclose.Name,
   ids.MixinLifecycleAfterCloseParamSentinel); (mixins.monotonicreads.Name,
   ids.MixinMonotonicReadsParamVersion); (mixins.monotonicwrites.Name,
   ids.MixinMonotonicWritesParamVersion); (mixins.notfound.Name, ids.MixinNotFoundParamSentinel);
   (mixins.orderafter.Name, ids.MixinOrderAfterParamFn); (mixins.orderafter.Name,
   ids.MixinOrderAfterParamUnready); (mixins.partition.Name, ids.MixinPartitionParamAxis);
   (mixins.partition.Name, ids.MixinPartitionParamRead); (mixins.poisonable.Name,
   ids.MixinPoisonableParamInduce); (mixins.readafterwrite.Name, ids.MixinReadAfterWriteParamWrite);
   (mixins.readyourwrites.Name, ids.MixinReadYourWritesParamVersion); (mixins.retrysucceeds.Name,
   ids.MixinRetrySucceedsParamAttempts); (mixins.sample.Name, ids.MixinSampleParamBuilder);
   (mixins.scheduled.Name, ids.MixinScheduledParamFired); (mixins.scheduled.Name,
   ids.MixinScheduledParamSchedule); (mixins.scope.Name, ids.MixinScopeParamAxis); (mixins.scope.Name,
   ids.MixinScopeParamName); (mixins.serializable.Name, ids.MixinSerializableParamRead);
   (mixins.sideeffect.Name, ids.MixinSideEffectParamObserve); (mixins.snapshotisolation.Name,
   ids.MixinSnapshotIsolationParamRead); (mixins.sticky.Name, ids.MixinStickyParamKey);
   (mixins.streamreflectsmutations.Name, ids.MixinStreamReflectsMutationsParamDelete);
   (mixins.streamreflectsmutations.Name, ids.MixinStreamReflectsMutationsParamMutate);
   (mixins.tamperevident.Name, ids.MixinTamperEvidentParamTamper); (mixins.tamperevident.Name,
   ids.MixinTamperEvidentParamVerify); (mixins.timeout.Name, ids.MixinTimeoutParamDuration);
   (mixins.total.Name, ids.MixinTotalParamDomain); (mixins.ttl.Name, ids.MixinTTLParamDuration);
   (mixins.ttl.Name, ids.MixinTTLParamLifetime); (mixins.ttl.Name, ids.MixinTTLParamNotFound);
   (mixins.ttl.Name, ids.MixinTTLParamPut); (mixins.ttl.Name, ids.MixinTTLParamRead);
   (mixins.validates.Name, ids.MixinValidatesParamFn); (mixins.validates.Name,
   ids.MixinValidatesParamInvalid); (mixins.xsssafe.Name, ids.MixinXSSSafeParamUnsafe);
   (mixins.injectionsafe.Name, ids.MixinInjectionSafeParamUnsafe); (mixins.total.Name,
   ids.MixinTotalParamEdge); (mixins.windowed.Name, ids.MixinWindowedParamCount); (mixins.windowed.Name,
   ids.MixinWindowedParamIncr); (mixins.windowed.Name, ids.MixinWindowedParamWindow);
   (mixins.wrappedvia.Name, ids.MixinWrappedViaParamFn); (mixins.writesfollowreads.Name,
   ids.MixinWritesFollowReadsParamVersion)].


(** A contract's own tables fit together. *)
Definition contract_fits (c : Contract) : Prop :=
  NoDup (c_Roles c) ∧ "role" ∉ c_Roles c ∧
  Forall (λ rq, rq.1 ∈ c_Roles c ∧ Forall (λ r, r ∈ c_Roles c ∧ r ≠ rq.1) rq.2) (map_to_list (c_Required c)) ∧
  Forall (λ p, pr_Key p ≠ "role" ∧ (pr_Role p = "" ∨ pr_Role p ∈ c_Roles c)) (c_Params c) ∧
  Forall (λ r, NoDup (ParamKeys (ParamsForRole (c_Params c) r))) (c_Roles c).

#[export] Instance contract_fits_dec c : Decision (contract_fits c).
Proof. unfold contract_fits. apply _. Defined.

Definition mixin_fits (m : Mixin) : Prop :=
  NoDup (ParamKeys (x_Params m)) ∧ Forall (λ p, pr_Role p = "") (x_Params m).

#[export] Instance mixin_fits_dec m : Decision (mixin_fits m).
Proof. unfold mixin_fits. apply _. Defined.

(** the shipped vocabulary is coherent.  The identifiers list exactly the
    registered detectors, contracts and mixins, in order and without
    repetition, and have a constant for exactly the roles and parameters the
    catalog declares.  Every contract requires only roles it declares, never
    of a role itself; parameters are scoped to declared roles, have distinct
    keys under each role and are never called [role]; a mixin's parameters
    have distinct keys and no role. *)
Theorem catalog_is_coherent is_print :
  (ids.Detectors = dt_Name <$> detectors.All ∧ ids.Contracts = c_Name <$> contracts.All ∧
   ids.Mixins = x_Name <$> mixins.All is_print) ∧
  (NoDup ids.Detectors ∧ NoDup ids.Contracts ∧ NoDup ids.Mixins) ∧
  ((λ r, (ids.r_Owner r, ids.r_Role r)) <$> ids.ContractRoles ≡ₚ role_constants ∧
   (λ p, (ids.Owner p, pr_Key (ids.owned p))) <$> ids.ContractParams ≡ₚ contract_param_constants ∧
   (λ p, (ids.Owner p, pr_Key (ids.owned p))) <$> ids.MixinParams is_print ≡ₚ mixin_param_constants) ∧
  Forall contract_fits contracts.All ∧ Forall mixin_fits (mixins.All is_print).
Proof.
  split; [vm_compute; split; [reflexivity|split; reflexivity]|].
  split; [split; [|split]; refine (bool_decide_unpack _ _); vm_compute; exact I|].
  split; [split; [|split]; refine (bool_decide_unpack _ _); vm_compute; exact I|].
  split; refine (bool_decide_unpack _ _); vm_compute; exact I.
Qed.
