(* ===== verification/EmitBuilder.v ===== *)
(** * emit/builder: the emission builders

    [src/emit/builder]: the fluent builders a generator assembles declarations
    with, the slot contributions stamped with its name, and the queue that
    hands values to the layout.

    A builder call allocates and mutates; [world] is the memory it works on:
    an allocator, the fields the program reaches through pointers (targets,
    owners, slots), the packages under construction and the package builders,
    which several contexts share.  A declaration under construction is the
    value its builder carries, and a callback is the function of that builder
    and the memory; a nil callback is [None]. *)

From S2P Require Import Prelude GoStrings Position Meta Directive Node NodeQueries Manifest Emit EmitSlots EmitCtors StoreIndex StoreOps StoreNodes StoreEmit.

Local Open Scope string_scope.
Local Open Scope nat_scope.
Local Open Scope list_scope.

(** ** Field assignment on the emission records *)

Module bset.

Definition set_s_base (x : emit.BaseEmit) (n : emit.Struct) : emit.Struct :=
  emit.MkStruct x (emit.s_Name n) (emit.s_Package n) (emit.s_Fields n) (emit.s_Embeds n)
    (emit.s_Methods n) (emit.s_TypeParams n).

Definition set_s_Fields (x : list emit.Field) (n : emit.Struct) : emit.Struct :=
  emit.MkStruct (emit.s_base n) (emit.s_Name n) (emit.s_Package n) x (emit.s_Embeds n)
    (emit.s_Methods n) (emit.s_TypeParams n).

Definition set_s_Embeds (x : list emit.Embed) (n : emit.Struct) : emit.Struct :=
  emit.MkStruct (emit.s_base n) (emit.s_Name n) (emit.s_Package n) (emit.s_Fields n) x
    (emit.s_Methods n) (emit.s_TypeParams n).

Definition set_s_Methods (x : list emit.Method) (n : emit.Struct) : emit.Struct :=
  emit.MkStruct (emit.s_base n) (emit.s_Name n) (emit.s_Package n) (emit.s_Fields n)
    (emit.s_Embeds n) x (emit.s_TypeParams n).

Definition set_s_TypeParams (x : list emit.TypeParam) (n : emit.Struct) : emit.Struct :=
  emit.MkStruct (emit.s_base n) (emit.s_Name n) (emit.s_Package n) (emit.s_Fields n)
    (emit.s_Embeds n) (emit.s_Methods n) x.

Definition set_i_base (x : emit.BaseEmit) (n : emit.Interface) : emit.Interface :=
  emit.MkInterface x (emit.i_Name n) (emit.i_Package n) (emit.i_Fields n) (emit.i_Methods n)
    (emit.i_Embeds n) (emit.i_TypeParams n).

Definition set_i_Fields (x : list emit.Field) (n : emit.Interface) : emit.Interface :=
  emit.MkInterface (emit.i_base n) (emit.i_Name n) (emit.i_Package n) x (emit.i_Methods n)
    (emit.i_Embeds n) (emit.i_TypeParams n).

Definition set_i_Methods (x : list emit.Method) (n : emit.Interface) : emit.Interface :=
  emit.MkInterface (emit.i_base n) (emit.i_Name n) (emit.i_Package n) (emit.i_Fields n) x
    (emit.i_Embeds n) (emit.i_TypeParams n).

Definition set_i_Embeds (x : list emit.Embed) (n : emit.Interface) : emit.Interface :=
  emit.MkInterface (emit.i_base n) (emit.i_Name n) (emit.i_Package n) (emit.i_Fields n)
    (emit.i_Methods n) x (emit.i_TypeParams n).

Definition set_i_TypeParams (x : list emit.TypeParam) (n : emit.Interface) : emit.Interface :=
  emit.MkInterface (emit.i_base n) (emit.i_Name n) (emit.i_Package n) (emit.i_Fields n)
    (emit.i_Methods n) (emit.i_Embeds n) x.

Definition set_m_base (x : emit.BaseEmit) (n : emit.Method) : emit.Method :=
  emit.MkMethod x (emit.m_Name n) (emit.m_Package n) (emit.m_Receiver n) (emit.m_ReceiverName n)
    (emit.m_Params n) (emit.m_Returns n) (emit.m_TypeParams n) (emit.m_Body n) (emit.m_OwnerRef n).

Definition set_m_Receiver (x : option emit.Ref) (n : emit.Method) : emit.Method :=
  emit.MkMethod (emit.m_base n) (emit.m_Name n) (emit.m_Package n) x (emit.m_ReceiverName n)
    (emit.m_Params n) (emit.m_Returns n) (emit.m_TypeParams n) (emit.m_Body n) (emit.m_OwnerRef n).

Definition set_m_ReceiverName (x : string) (n : emit.Method) : emit.Method :=
  emit.MkMethod (emit.m_base n) (emit.m_Name n) (emit.m_Package n) (emit.m_Receiver n) x
    (emit.m_Params n) (emit.m_Returns n) (emit.m_TypeParams n) (emit.m_Body n) (emit.m_OwnerRef n).

Definition set_m_Params (x : list emit.Param) (n : emit.Method) : emit.Method :=
  emit.MkMethod (emit.m_base n) (emit.m_Name n) (emit.m_Package n) (emit.m_Receiver n)
    (emit.m_ReceiverName n) x (emit.m_Returns n) (emit.m_TypeParams n) (emit.m_Body n)
    (emit.m_OwnerRef n).

Definition set_m_Returns (x : list emit.Return) (n : emit.Method) : emit.Method :=
  emit.MkMethod (emit.m_base n) (emit.m_Name n) (emit.m_Package n) (emit.m_Receiver n)
    (emit.m_ReceiverName n) (emit.m_Params n) x (emit.m_TypeParams n) (emit.m_Body n)
    (emit.m_OwnerRef n).

Definition set_m_TypeParams (x : list emit.TypeParam) (n : emit.Method) : emit.Method :=
  emit.MkMethod (emit.m_base n) (emit.m_Name n) (emit.m_Package n) (emit.m_Receiver n)
    (emit.m_ReceiverName n) (emit.m_Params n) (emit.m_Returns n) x (emit.m_Body n)
    (emit.m_OwnerRef n).

Definition set_m_Body (x : list emit.Stmt) (n : emit.Method) : emit.Method :=
  emit.MkMethod (emit.m_base n) (emit.m_Name n) (emit.m_Package n) (emit.m_Receiver n)
    (emit.m_ReceiverName n) (emit.m_Params n) (emit.m_Returns n) (emit.m_TypeParams n) x
    (emit.m_OwnerRef n).

Definition set_f_base (x : emit.BaseEmit) (n : emit.Field) : emit.Field :=
  emit.MkField x (emit.f_Name n) (emit.f_Type n) (emit.f_Tag n) (emit.f_LineComment n).

Definition set_f_Tag (x : string) (n : emit.Field) : emit.Field :=
  emit.MkField (emit.f_base n) (emit.f_Name n) (emit.f_Type n) x (emit.f_LineComment n).

Definition set_f_LineComment (x : string) (n : emit.Field) : emit.Field :=
  emit.MkField (emit.f_base n) (emit.f_Name n) (emit.f_Type n) (emit.f_Tag n) x.

Definition set_fn_base (x : emit.BaseEmit) (n : emit.Function_) : emit.Function_ :=
  emit.MkFunction x (emit.fn_Name n) (emit.fn_Package n) (emit.fn_Params n) (emit.fn_Returns n)
    (emit.fn_TypeParams n) (emit.fn_Body n).

Definition set_fn_Params (x : list emit.Param) (n : emit.Function_) : emit.Function_ :=
  emit.MkFunction (emit.fn_base n) (emit.fn_Name n) (emit.fn_Package n) x (emit.fn_Returns n)
    (emit.fn_TypeParams n) (emit.fn_Body n).

Definition set_fn_Returns (x : list emit.Return) (n : emit.Function_) : emit.Function_ :=
  emit.MkFunction (emit.fn_base n) (emit.fn_Name n) (emit.fn_Package n) (emit.fn_Params n) x
    (emit.fn_TypeParams n) (emit.fn_Body n).

Definition set_fn_TypeParams (x : list emit.TypeParam) (n : emit.Function_) : emit.Function_ :=
  emit.MkFunction (emit.fn_base n) (emit.fn_Name n) (emit.fn_Package n) (emit.fn_Params n)
    (emit.fn_Returns n) x (emit.fn_Body n).

Definition set_fn_Body (x : list emit.Stmt) (n : emit.Function_) : emit.Function_ :=
  emit.MkFunction (emit.fn_base n) (emit.fn_Name n) (emit.fn_Package n) (emit.fn_Params n)
    (emit.fn_Returns n) (emit.fn_TypeParams n) x.

Definition set_v_base (x : emit.BaseEmit) (n : emit.Variable_) : emit.Variable_ :=
  emit.MkVariable x (emit.v_Name n) (emit.v_Package n) (emit.v_Type n) (emit.v_Init n).

Definition set_k_base (x : emit.BaseEmit) (n : emit.Constant) : emit.Constant :=
  emit.MkConstant x (emit.k_Name n) (emit.k_Package n) (emit.k_Type n) (emit.k_Value n).

Definition set_e_base (x : emit.BaseEmit) (n : emit.Enum) : emit.Enum :=
  emit.MkEnum x (emit.e_Name n) (emit.e_Package n) (emit.e_Underlying n) (emit.e_Variants n).

Definition set_e_Variants (x : list emit.EnumVariant) (n : emit.Enum) : emit.Enum :=
  emit.MkEnum (emit.e_base n) (emit.e_Name n) (emit.e_Package n) (emit.e_Underlying n) x.

Definition set_ev_base (x : emit.BaseEmit) (n : emit.EnumVariant) : emit.EnumVariant :=
  emit.MkEnumVariant x (emit.ev_Name n) (emit.ev_Value n).

Definition set_a_base (x : emit.BaseEmit) (n : emit.Alias) : emit.Alias :=
  emit.MkAlias x (emit.a_Name n) (emit.a_Package n) (emit.a_Target n) (emit.a_IsAlias n)
    (emit.a_TypeParams n) (emit.a_Methods n).

Definition set_a_TypeParams (x : list emit.TypeParam) (n : emit.Alias) : emit.Alias :=
  emit.MkAlias (emit.a_base n) (emit.a_Name n) (emit.a_Package n) (emit.a_Target n)
    (emit.a_IsAlias n) x (emit.a_Methods n).

Definition set_a_Methods (x : list emit.Method) (n : emit.Alias) : emit.Alias :=
  emit.MkAlias (emit.a_base n) (emit.a_Name n) (emit.a_Package n) (emit.a_Target n)
    (emit.a_IsAlias n) (emit.a_TypeParams n) x.

Definition set_em_base (x : emit.BaseEmit) (n : emit.Embed) : emit.Embed :=
  emit.MkEmbed x (emit.em_Type n).

Definition set_pa_base (x : emit.BaseEmit) (n : emit.Param) : emit.Param :=
  emit.MkParam x (emit.pa_Name n) (emit.pa_Type n) (emit.pa_Variadic n).

Definition set_pa_Variadic (x : bool) (n : emit.Param) : emit.Param :=
  emit.MkParam (emit.pa_base n) (emit.pa_Name n) (emit.pa_Type n) x.

Definition set_tp_base (x : emit.BaseEmit) (n : emit.TypeParam) : emit.TypeParam :=
  emit.MkTypeParam x (emit.tp_Name n) (emit.tp_Constraint n).

Definition set_tp_Constraint (x : option emit.Constraint) (n : emit.TypeParam) : emit.TypeParam :=
  emit.MkTypeParam (emit.tp_base n) (emit.tp_Name n) x.

Definition set_im_base (x : emit.BaseEmit) (n : emit.Import) : emit.Import :=
  emit.MkImport x (emit.im_Path n) (emit.im_Alias n).

Definition set_im_Alias (x : string) (n : emit.Import) : emit.Import :=
  emit.MkImport (emit.im_base n) (emit.im_Path n) x.

Definition set_fi_base (x : emit.BaseEmit) (n : emit.File) : emit.File :=
  emit.MkFile x (emit.fi_Name n) (emit.fi_Package n) (emit.fi_Dir n) (emit.fi_ImportPath n)
    (emit.fi_Imports n).

Definition set_fi_Imports (x : list emit.Import) (n : emit.File) : emit.File :=
  emit.MkFile (emit.fi_base n) (emit.fi_Name n) (emit.fi_Package n) (emit.fi_Dir n)
    (emit.fi_ImportPath n) x.

Definition set_p_base (x : emit.BaseEmit) (n : emit.Package) : emit.Package :=
  emit.MkPackage x (emit.p_Name n) (emit.p_Path n) (emit.p_Dir n) (emit.p_Files n)
    (emit.p_Imports n) (emit.p_Structs n) (emit.p_Interfaces n) (emit.p_Functions n)
    (emit.p_Methods n) (emit.p_Variables n) (emit.p_Constants n) (emit.p_Enums n)
    (emit.p_Aliases n).

Definition set_p_Files (x : list emit.File) (n : emit.Package) : emit.Package :=
  emit.MkPackage (emit.p_base n) (emit.p_Name n) (emit.p_Path n) (emit.p_Dir n) x
    (emit.p_Imports n) (emit.p_Structs n) (emit.p_Interfaces n) (emit.p_Functions n)
    (emit.p_Methods n) (emit.p_Variables n) (emit.p_Constants n) (emit.p_Enums n)
    (emit.p_Aliases n).

Definition set_p_Structs (x : list emit.Struct) (n : emit.Package) : emit.Package :=
  emit.MkPackage (emit.p_base n) (emit.p_Name n) (emit.p_Path n) (emit.p_Dir n) (emit.p_Files n)
    (emit.p_Imports n) x (emit.p_Interfaces n) (emit.p_Functions n) (emit.p_Methods n)
    (emit.p_Variables n) (emit.p_Constants n) (emit.p_Enums n) (emit.p_Aliases n).

Definition set_p_Interfaces (x : list emit.Interface) (n : emit.Package) : emit.Package :=
  emit.MkPackage (emit.p_base n) (emit.p_Name n) (emit.p_Path n) (emit.p_Dir n) (emit.p_Files n)
    (emit.p_Imports n) (emit.p_Structs n) x (emit.p_Functions n) (emit.p_Methods n)
    (emit.p_Variables n) (emit.p_Constants n) (emit.p_Enums n) (emit.p_Aliases n).

Definition set_p_Functions (x : list emit.Function_) (n : emit.Package) : emit.Package :=
  emit.MkPackage (emit.p_base n) (emit.p_Name n) (emit.p_Path n) (emit.p_Dir n) (emit.p_Files n)
    (emit.p_Imports n) (emit.p_Structs n) (emit.p_Interfaces n) x (emit.p_Methods n)
    (emit.p_Variables n) (emit.p_Constants n) (emit.p_Enums n) (emit.p_Aliases n).

Definition set_p_Methods (x : list emit.Method) (n : emit.Package) : emit.Package :=
  emit.MkPackage (emit.p_base n) (emit.p_Name n) (emit.p_Path n) (emit.p_Dir n) (emit.p_Files n)
    (emit.p_Imports n) (emit.p_Structs n) (emit.p_Interfaces n) (emit.p_Functions n) x
    (emit.p_Variables n) (emit.p_Constants n) (emit.p_Enums n) (emit.p_Aliases n).

Definition set_p_Variables (x : list emit.Variable_) (n : emit.Package) : emit.Package :=
  emit.MkPackage (emit.p_base n) (emit.p_Name n) (emit.p_Path n) (emit.p_Dir n) (emit.p_Files n)
    (emit.p_Imports n) (emit.p_Structs n) (emit.p_Interfaces n) (emit.p_Functions n)
    (emit.p_Methods n) x (emit.p_Constants n) (emit.p_Enums n) (emit.p_Aliases n).

Definition set_p_Constants (x : list emit.Constant) (n : emit.Package) : emit.Package :=
  emit.MkPackage (emit.p_base n) (emit.p_Name n) (emit.p_Path n) (emit.p_Dir n) (emit.p_Files n)
    (emit.p_Imports n) (emit.p_Structs n) (emit.p_Interfaces n) (emit.p_Functions n)
    (emit.p_Methods n) (emit.p_Variables n) x (emit.p_Enums n) (emit.p_Aliases n).

Definition set_p_Enums (x : list emit.Enum) (n : emit.Package) : emit.Package :=
  emit.MkPackage (emit.p_base n) (emit.p_Name n) (emit.p_Path n) (emit.p_Dir n) (emit.p_Files n)
    (emit.p_Imports n) (emit.p_Structs n) (emit.p_Interfaces n) (emit.p_Functions n)
    (emit.p_Methods n) (emit.p_Variables n) (emit.p_Constants n) x (emit.p_Aliases n).

Definition set_p_Aliases (x : list emit.Alias) (n : emit.Package) : emit.Package :=
  emit.MkPackage (emit.p_base n) (emit.p_Name n) (emit.p_Path n) (emit.p_Dir n) (emit.p_Files n)
    (emit.p_Imports n) (emit.p_Structs n) (emit.p_Interfaces n) (emit.p_Functions n)
    (emit.p_Methods n) (emit.p_Variables n) (emit.p_Constants n) (emit.p_Enums n) x.


End bset.


Module builder.

Import bset.

(** ** Errors *)

Inductive berr :=
| ErrNilHost (role : string)
| ErrUnsupportedHost (op : string) (host : Kind)
| ErrAliasMethodForbidden (alias method : string)
| ErrUnknownInsertPos (kind : Z)
| ErrSlot (e : slots.SlotError).

(** ** [context.go] *)

Record Context := MkContext { setBy : string; target : Target }.

Definition For (by_ : string) : Context := MkContext by_ (MkTarget "" "" "" "").
Definition SetBy (c : Context) : string := setBy c.
Definition Context_Target (c : Context) : Target := target c.
Definition WithTarget (c : Context) (t : Target) : Context := MkContext (setBy c) t.

Definition Provenance (c : Context) (id : list string) : slots.Provenance :=
  slots.MkProvenance (setBy c) zero_pos (match id with i :: _ => i | [] => "" end).

(** ** The memory *)

(** What an [Owner] field holds: an emitted node or a source declaration. *)
Inductive owner := OEmit (p : pointer) | OSource (n : Node).

(** [package.go] *)
Record PackageBuilder := MkPackageBuilder {
  pb_ctx : Context;
  pb_pkg : pointer;
  pb_defaultOrigin : option Node;
  pb_errs : list berr;
  pb_outputTag : string;
  pb_files : option (gmap string pointer);
  pb_root : option pointer;
}.

Record world := MkWorld {
  w_next : pointer;
  w_targets : gmap pointer Target;
  w_owners : gmap pointer owner;
  w_slots : slots.sheap;
  w_pkgs : gmap pointer emit.Package;
  w_builders : gmap pointer PackageBuilder;
}.

Definition with_targets (w : world) (x : gmap pointer Target) : world :=
  MkWorld (w_next w) x (w_owners w) (w_slots w) (w_pkgs w) (w_builders w).
Definition with_owners (w : world) (x : gmap pointer owner) : world :=
  MkWorld (w_next w) (w_targets w) x (w_slots w) (w_pkgs w) (w_builders w).
Definition with_slots (w : world) (x : slots.sheap) : world :=
  MkWorld (w_next w) (w_targets w) (w_owners w) x (w_pkgs w) (w_builders w).
Definition with_pkgs (w : world) (x : gmap pointer emit.Package) : world :=
  MkWorld (w_next w) (w_targets w) (w_owners w) (w_slots w) x (w_builders w).
Definition with_builders (w : world) (x : gmap pointer PackageBuilder) : world :=
  MkWorld (w_next w) (w_targets w) (w_owners w) (w_slots w) (w_pkgs w) x.

Definition M (A : Type) : Type := world → A * world.

#[global] Instance M_ret : MRet M := λ A a w, (a, w).
#[global] Instance M_bind : MBind M := λ A B f m w, let '(a, w) := m w in f a w.

(** [&T{…}] *)
Definition new : M pointer := λ w,
  (w_next w, MkWorld (Pos.succ (w_next w)) (w_targets w) (w_owners w) (w_slots w) (w_pkgs w) (w_builders w)).

Definition set_target (p : pointer) (t : Target) : M () := λ w,
  ((), with_targets w (<[p := t]> (w_targets w))).
Definition set_owner (p : pointer) (o : owner) : M () := λ w,
  ((), with_owners w (<[p := o]> (w_owners w))).

Definition zero_builder : PackageBuilder := MkPackageBuilder (For "") 1%positive None [] "" None None.
Definition zero_package (p : pointer) : emit.Package :=
  emit.MkPackage (ctor.zero_base p) "" "" "" [] [] [] [] [] [] [] [] [] [].

Definition get_builder (b : pointer) : M PackageBuilder := λ w,
  (default zero_builder (w_builders w !! b), w).
Definition put_builder (b : pointer) (pb : PackageBuilder) : M () := λ w,
  ((), with_builders w (<[b := pb]> (w_builders w))).
Definition get_package (p : pointer) : M emit.Package := λ w,
  (default (zero_package p) (w_pkgs w !! p), w).
Definition put_package (p : pointer) (pkg : emit.Package) : M () := λ w,
  ((), with_pkgs w (<[p := pkg]> (w_pkgs w))).

(** [if fn != nil { fn(b) }] *)
Definition call {B} (fn : option (B → M B)) (b : B) : M B :=
  match fn with None => mret b | Some f => f b end.

(** The optional callback of a variadic parameter. *)
Definition first_call {B} (fn : list (option (B → M B))) (b : B) : M B :=
  match fn with f :: _ => call f b | [] => mret b end.

(** ** The base of a declaration *)

Definition set_pos (p : Pos) (b : emit.BaseEmit) : emit.BaseEmit :=
  emit.MkBase (emit.ref b) p (emit.DocLines b) (emit.DirectiveList b) (emit.OriginNode b)
    (emit.SetByName b) (emit.OutputTagName b).
Definition set_origin (n : option Node) (b : emit.BaseEmit) : emit.BaseEmit :=
  emit.MkBase (emit.ref b) (emit.SourcePos b) (emit.DocLines b) (emit.DirectiveList b) n
    (emit.SetByName b) (emit.OutputTagName b).
Definition add_docs (lines : list string) (b : emit.BaseEmit) : emit.BaseEmit :=
  emit.MkBase (emit.ref b) (emit.SourcePos b) (emit.DocLines b ++ lines) (emit.DirectiveList b)
    (emit.OriginNode b) (emit.SetByName b) (emit.OutputTagName b).
Definition add_directive (d : Directive) (b : emit.BaseEmit) : emit.BaseEmit :=
  emit.MkBase (emit.ref b) (emit.SourcePos b) (emit.DocLines b) (emit.DirectiveList b ++ [d])
    (emit.OriginNode b) (emit.SetByName b) (emit.OutputTagName b).
Definition set_tag (t : string) (b : emit.BaseEmit) : emit.BaseEmit :=
  emit.MkBase (emit.ref b) (emit.SourcePos b) (emit.DocLines b) (emit.DirectiveList b)
    (emit.OriginNode b) (emit.SetByName b) t.

(** ** [anchor.go] *)

Definition applyBuilderDefaults (b : PackageBuilder) (dst : emit.BaseEmit) : emit.BaseEmit :=
  let dst := match emit.OriginNode dst, pb_defaultOrigin b with
             | None, Some n => set_origin (Some n) dst
             | _, _ => dst
             end in
  if String.eqb (emit.OutputTagName dst) "" then set_tag (pb_outputTag b) dst else dst.

(** The base of a declaration a package builder spawns. *)
Definition decl_base (b : PackageBuilder) (p : pointer) : emit.BaseEmit :=
  applyBuilderDefaults b (emit.MkBase p zero_pos [] [] None (SetBy (pb_ctx b)) "").

(** The loop of [packagePath] over the [Owner] fields of methods and fields;
    it does not end on a cycle of owners, which is the [None] of the model. *)
Fixpoint packagePath_loop (owner_of : gmap pointer Node) (fuel : nat) (cur : option Node) : option string :=
  match fuel with
  | 0 => None
  | S fuel =>
      match cur with
      | None => Some ""
      | Some (NPackage v) => Some (p_Path v)
      | Some (NStruct v) => Some (s_Package v)
      | Some (NInterface v) => Some (i_Package v)
      | Some (NFunction v) => Some (fn_Package v)
      | Some (NVariable v) => Some (v_Package v)
      | Some (NConstant v) => Some (k_Package v)
      | Some (NEnum v) => Some (e_Package v)
      | Some (NAlias v) => Some (a_Package v)
      | Some (NFile v) =>
          match owner_of !! Node.ref (fi_base v) with
          | Some (NPackage p) => Some (p_Path p)
          | _ => Some ""
          end
      | Some (NMethod v) => packagePath_loop owner_of fuel (owner_of !! Node.ref (m_base v))
      | Some (NField v) => packagePath_loop owner_of fuel (owner_of !! Node.ref (f_base v))
      | Some (NEnumVariant v) =>
          match owner_of !! Node.ref (ev_base v) with
          | Some (NEnum e) => Some (e_Package e)
          | _ => Some ""
          end
      | Some _ => Some ""
      end
  end.

(** Every step that goes on reads one entry of the owner table. *)
Definition packagePath (owner_of : gmap pointer Node) (n : option Node) : option string :=
  packagePath_loop owner_of (S (S (size owner_of))) n.

(** ** [package.go] *)

Definition Context_Package (c : Context) (name path : string) : M pointer :=
  p ← new;
  put_package p (emit.MkPackage (emit.MkBase p zero_pos [] [] None (SetBy c) "") name path ""
                   [] [] [] [] [] [] [] [] [] []);;
  b ← new;
  put_builder b (MkPackageBuilder c p None [] "" None None);;
  mret b.

Definition Anchor (owner_of : gmap pointer Node) (c : Context) (anchor : option Node) : option (M pointer) :=
  match packagePath owner_of anchor with
  | None => None
  | Some path => Some (
      b ← Context_Package c "" path;
      pb ← get_builder b;
      put_builder b (MkPackageBuilder (pb_ctx pb) (pb_pkg pb) anchor (pb_errs pb) (pb_outputTag pb)
                       (pb_files pb) (pb_root pb));;
      mret b)
  end.

Definition PackageBuilder_Node (b : pointer) : M emit.Package :=
  pb ← get_builder b; get_package (pb_pkg pb).

(** A sub-context's root is a root, so one hop ends the recursion. *)
Definition root_hops : nat := 2.

Fixpoint Err_fuel (n : nat) (b : pointer) : M (list berr) :=
  match n with
  | 0 => mret []
  | S n =>
      pb ← get_builder b;
      match pb_root pb with
      | Some r => Err_fuel n r
      | None => mret (pb_errs pb)
      end
  end.

(** [errors.Join] of the recorded errors: nil exactly when there is none. *)
Definition PackageBuilder_Err (b : pointer) : M (list berr) := Err_fuel root_hops b.

Fixpoint recordErr_fuel (n : nat) (b : pointer) (err : berr) : M () :=
  match n with
  | 0 => mret ()
  | S n =>
      pb ← get_builder b;
      match pb_root pb with
      | Some r => recordErr_fuel n r err
      | None =>
          put_builder b (MkPackageBuilder (pb_ctx pb) (pb_pkg pb) (pb_defaultOrigin pb)
                           (pb_errs pb ++ [err]) (pb_outputTag pb) (pb_files pb) (pb_root pb))
      end
  end.

Definition recordErr (b : pointer) (err : berr) : M () := recordErr_fuel root_hops b err.

Fixpoint Build_fuel (n : nat) (b : pointer) : M (emit.Package * list berr) :=
  match n with
  | 0 => mret (zero_package b, [])
  | S n =>
      pb ← get_builder b;
      match pb_root pb with
      | Some r => Build_fuel n r
      | None => pkg ← get_package (pb_pkg pb); errs ← PackageBuilder_Err b; mret (pkg, errs)
      end
  end.

Definition Build (b : pointer) : M (emit.Package * list berr) := Build_fuel root_hops b.

Definition PackageBuilder_File (b : pointer) (tag : string) : M pointer :=
  if String.eqb tag "" then mret b
  else
    pb ← get_builder b;
    let root := default b (pb_root pb) in
    rb ← get_builder root;
    let files := default ∅ (pb_files rb) in
    match files !! tag with
    | Some sub => mret sub
    | None =>
        sub ← new;
        put_builder sub (MkPackageBuilder (pb_ctx rb) (pb_pkg rb) (pb_defaultOrigin rb) [] tag None (Some root));;
        put_builder root (MkPackageBuilder (pb_ctx rb) (pb_pkg rb) (pb_defaultOrigin rb) (pb_errs rb)
                            (pb_outputTag rb) (Some (<[tag := sub]> files)) (pb_root rb));;
        mret sub
    end.

(** [b.pkg.X = append(b.pkg.X, …)] *)
Definition edit_package (b : pointer) (f : emit.Package → emit.Package) : M pointer :=
  pb ← get_builder b;
  pkg ← get_package (pb_pkg pb);
  put_package (pb_pkg pb) (f pkg);;
  mret b.

Definition PackageBuilder_Docs (b : pointer) (lines : list string) : M pointer :=
  edit_package b (λ p, set_p_base (add_docs lines (emit.p_base p)) p).


(** ** [field.go] *)

Record FieldBuilder := MkFieldBuilder { fb_ctx : Context; fb_node : emit.Field }.

Definition with_f (b : FieldBuilder) (n : emit.Field) : FieldBuilder := MkFieldBuilder (fb_ctx b) n.
Definition over_f (f : emit.BaseEmit → emit.BaseEmit) (b : FieldBuilder) : FieldBuilder :=
  with_f b (set_f_base (f (emit.f_base (fb_node b))) (fb_node b)).

Definition FieldBuilder_Node (b : FieldBuilder) : emit.Field := fb_node b.
Definition FieldBuilder_Pos (b : FieldBuilder) (p : Pos) : M FieldBuilder :=
  mret (over_f (set_pos p) b).
Definition FieldBuilder_Origin (b : FieldBuilder) (n : option Node) : M FieldBuilder :=
  mret (over_f (set_origin n) b).
Definition FieldBuilder_Docs (b : FieldBuilder) (lines : list string) : M FieldBuilder :=
  mret (over_f (add_docs lines) b).
Definition FieldBuilder_Directive (b : FieldBuilder) (d : Directive) : M FieldBuilder :=
  mret (over_f (add_directive d) b).
Definition FieldBuilder_Tag (b : FieldBuilder) (tag : string) : M FieldBuilder :=
  mret (with_f b (set_f_Tag tag (fb_node b))).
Definition FieldBuilder_LineComment (b : FieldBuilder) (comment : string) : M FieldBuilder :=
  mret (with_f b (set_f_LineComment comment (fb_node b))).


(** ** [embed.go] *)

Record EmbedBuilder := MkEmbedBuilder { emb_ctx : Context; emb_node : emit.Embed }.

Definition with_em (b : EmbedBuilder) (n : emit.Embed) : EmbedBuilder := MkEmbedBuilder (emb_ctx b) n.
Definition over_em (f : emit.BaseEmit → emit.BaseEmit) (b : EmbedBuilder) : EmbedBuilder :=
  with_em b (set_em_base (f (emit.em_base (emb_node b))) (emb_node b)).

Definition EmbedBuilder_Node (b : EmbedBuilder) : emit.Embed := emb_node b.
Definition EmbedBuilder_Pos (b : EmbedBuilder) (p : Pos) : M EmbedBuilder :=
  mret (over_em (set_pos p) b).
Definition EmbedBuilder_Docs (b : EmbedBuilder) (lines : list string) : M EmbedBuilder :=
  mret (over_em (add_docs lines) b).
Definition EmbedBuilder_Directive (b : EmbedBuilder) (d : Directive) : M EmbedBuilder :=
  mret (over_em (add_directive d) b).


(** ** [param.go] *)

Record ParamBuilder := MkParamBuilder { pab_ctx : Context; pab_node : emit.Param }.

Definition with_pa (b : ParamBuilder) (n : emit.Param) : ParamBuilder := MkParamBuilder (pab_ctx b) n.
Definition over_pa (f : emit.BaseEmit → emit.BaseEmit) (b : ParamBuilder) : ParamBuilder :=
  with_pa b (set_pa_base (f (emit.pa_base (pab_node b))) (pab_node b)).

Definition ParamBuilder_Node (b : ParamBuilder) : emit.Param := pab_node b.
Definition ParamBuilder_Pos (b : ParamBuilder) (p : Pos) : M ParamBuilder :=
  mret (over_pa (set_pos p) b).
Definition ParamBuilder_Docs (b : ParamBuilder) (lines : list string) : M ParamBuilder :=
  mret (over_pa (add_docs lines) b).
Definition ParamBuilder_Directive (b : ParamBuilder) (d : Directive) : M ParamBuilder :=
  mret (over_pa (add_directive d) b).
Definition ParamBuilder_Variadic (b : ParamBuilder) : M ParamBuilder :=
  mret (with_pa b (set_pa_Variadic true (pab_node b))).


(** ** [type_param.go] *)

Record TypeParamBuilder := MkTypeParamBuilder { tpb_ctx : Context; tpb_node : emit.TypeParam }.

Definition with_tp (b : TypeParamBuilder) (n : emit.TypeParam) : TypeParamBuilder := MkTypeParamBuilder (tpb_ctx b) n.
Definition over_tp (f : emit.BaseEmit → emit.BaseEmit) (b : TypeParamBuilder) : TypeParamBuilder :=
  with_tp b (set_tp_base (f (emit.tp_base (tpb_node b))) (tpb_node b)).

Definition TypeParamBuilder_Node (b : TypeParamBuilder) : emit.TypeParam := tpb_node b.
Definition TypeParamBuilder_Pos (b : TypeParamBuilder) (p : Pos) : M TypeParamBuilder :=
  mret (over_tp (set_pos p) b).
Definition TypeParamBuilder_Docs (b : TypeParamBuilder) (lines : list string) : M TypeParamBuilder :=
  mret (over_tp (add_docs lines) b).
Definition TypeParamBuilder_Directive (b : TypeParamBuilder) (d : Directive) : M TypeParamBuilder :=
  mret (over_tp (add_directive d) b).
Definition TypeParamBuilder_Constraint (b : TypeParamBuilder) (c : option emit.Constraint) : M TypeParamBuilder :=
  mret (with_tp b (set_tp_Constraint c (tpb_node b))).


(** ** [enum_variant.go] *)

Record EnumVariantBuilder := MkEnumVariantBuilder { evb_ctx : Context; evb_node : emit.EnumVariant }.

Definition with_ev (b : EnumVariantBuilder) (n : emit.EnumVariant) : EnumVariantBuilder := MkEnumVariantBuilder (evb_ctx b) n.
Definition over_ev (f : emit.BaseEmit → emit.BaseEmit) (b : EnumVariantBuilder) : EnumVariantBuilder :=
  with_ev b (set_ev_base (f (emit.ev_base (evb_node b))) (evb_node b)).

Definition EnumVariantBuilder_Node (b : EnumVariantBuilder) : emit.EnumVariant := evb_node b.
Definition EnumVariantBuilder_Pos (b : EnumVariantBuilder) (p : Pos) : M EnumVariantBuilder :=
  mret (over_ev (set_pos p) b).
Definition EnumVariantBuilder_Docs (b : EnumVariantBuilder) (lines : list string) : M EnumVariantBuilder :=
  mret (over_ev (add_docs lines) b).
Definition EnumVariantBuilder_Directive (b : EnumVariantBuilder) (d : Directive) : M EnumVariantBuilder :=
  mret (over_ev (add_directive d) b).


(** ** [import.go] *)

Record ImportBuilder := MkImportBuilder { imb_ctx : Context; imb_node : emit.Import }.

Definition with_im (b : ImportBuilder) (n : emit.Import) : ImportBuilder := MkImportBuilder (imb_ctx b) n.
Definition over_im (f : emit.BaseEmit → emit.BaseEmit) (b : ImportBuilder) : ImportBuilder :=
  with_im b (set_im_base (f (emit.im_base (imb_node b))) (imb_node b)).

Definition ImportBuilder_Node (b : ImportBuilder) : emit.Import := imb_node b.
Definition ImportBuilder_Pos (b : ImportBuilder) (p : Pos) : M ImportBuilder :=
  mret (over_im (set_pos p) b).
Definition ImportBuilder_Docs (b : ImportBuilder) (lines : list string) : M ImportBuilder :=
  mret (over_im (add_docs lines) b).
Definition ImportBuilder_Directive (b : ImportBuilder) (d : Directive) : M ImportBuilder :=
  mret (over_im (add_directive d) b).
Definition ImportBuilder_Alias (b : ImportBuilder) (alias : string) : M ImportBuilder :=
  mret (with_im b (set_im_Alias alias (imb_node b))).


(** ** [method.go] *)

Record MethodBuilder := MkMethodBuilder { mb_ctx : Context; mb_node : emit.Method }.

Definition with_m (b : MethodBuilder) (n : emit.Method) : MethodBuilder := MkMethodBuilder (mb_ctx b) n.
Definition over_m (f : emit.BaseEmit → emit.BaseEmit) (b : MethodBuilder) : MethodBuilder :=
  with_m b (set_m_base (f (emit.m_base (mb_node b))) (mb_node b)).

Definition MethodBuilder_Node (b : MethodBuilder) : emit.Method := mb_node b.
Definition MethodBuilder_Pos (b : MethodBuilder) (p : Pos) : M MethodBuilder :=
  mret (over_m (set_pos p) b).
Definition MethodBuilder_Origin (b : MethodBuilder) (n : option Node) : M MethodBuilder :=
  mret (over_m (set_origin n) b).
Definition MethodBuilder_Docs (b : MethodBuilder) (lines : list string) : M MethodBuilder :=
  mret (over_m (add_docs lines) b).
Definition MethodBuilder_Directive (b : MethodBuilder) (d : Directive) : M MethodBuilder :=
  mret (over_m (add_directive d) b).
Definition MethodBuilder_Receiver (b : MethodBuilder) (receiverName : string) (receiverType : option emit.Ref) : M MethodBuilder :=
  mret (with_m b (set_m_Receiver receiverType (set_m_ReceiverName receiverName (mb_node b)))).
Definition MethodBuilder_Param (b : MethodBuilder) (name : string) (t : option emit.Ref)
    (fn : list (option (ParamBuilder → M ParamBuilder))) : M MethodBuilder :=
  c ← new;
  set_owner c (OEmit (emit.ref (emit.m_base (mb_node b))));;
  cb ← first_call fn (MkParamBuilder (mb_ctx b) (emit.MkParam (ctor.zero_base c) name t false));
  mret (with_m b (set_m_Params (emit.m_Params (mb_node b) ++ [pab_node cb]) (mb_node b))).
Definition MethodBuilder_Return (b : MethodBuilder) (t : option emit.Ref) (name : list string) : M MethodBuilder :=
  c ← new;
  let r := emit.MkReturn (ctor.zero_base c) (match name with n :: _ => n | [] => "" end) t in
  mret (with_m b (set_m_Returns (emit.m_Returns (mb_node b) ++ [r]) (mb_node b))).
Definition MethodBuilder_TypeParam (b : MethodBuilder) (name : string) (constraint : option emit.Constraint)
    (fn : list (option (TypeParamBuilder → M TypeParamBuilder))) : M MethodBuilder :=
  c ← new;
  set_owner c (OEmit (emit.ref (emit.m_base (mb_node b))));;
  cb ← first_call fn (MkTypeParamBuilder (mb_ctx b) (emit.MkTypeParam (ctor.zero_base c) name constraint));
  mret (with_m b (set_m_TypeParams (emit.m_TypeParams (mb_node b) ++ [tpb_node cb]) (mb_node b))).
Definition MethodBuilder_Body (b : MethodBuilder) (stmts : list emit.Stmt) : M MethodBuilder :=
  mret (with_m b (set_m_Body stmts (mb_node b))).


Definition PackageBuilder_Method (b : pointer) (name : string) (fn : option (MethodBuilder → M MethodBuilder)) : M pointer :=
  pb ← get_builder b;
  pkg ← get_package (pb_pkg pb);
  c ← new;
  set_target c (target (pb_ctx pb));;
  ref_ ← match pb_defaultOrigin pb with
         | Some n => match OwnerName n with
                     | Some _ => set_owner c (OSource n);; mret (emit.RefOf (Some (emit.OwnNode n)))
                     | None => mret (MkOwnerRef "" "")
                     end
         | None => mret (MkOwnerRef "" "")
         end;
  nb ← call fn (MkMethodBuilder (pb_ctx pb)
                  (emit.MkMethod (decl_base pb c) name (emit.p_Path pkg) None "" [] [] [] [] ref_));
  edit_package b (λ p, set_p_Methods (emit.p_Methods p ++ [mb_node nb]) p).


(** ** [struct.go] *)

Record StructBuilder := MkStructBuilder { sb_ctx : Context; sb_node : emit.Struct }.

Definition with_s (b : StructBuilder) (n : emit.Struct) : StructBuilder := MkStructBuilder (sb_ctx b) n.
Definition over_s (f : emit.BaseEmit → emit.BaseEmit) (b : StructBuilder) : StructBuilder :=
  with_s b (set_s_base (f (emit.s_base (sb_node b))) (sb_node b)).

Definition StructBuilder_Node (b : StructBuilder) : emit.Struct := sb_node b.
Definition StructBuilder_Pos (b : StructBuilder) (p : Pos) : M StructBuilder :=
  mret (over_s (set_pos p) b).
Definition StructBuilder_Origin (b : StructBuilder) (n : option Node) : M StructBuilder :=
  mret (over_s (set_origin n) b).
Definition StructBuilder_Docs (b : StructBuilder) (lines : list string) : M StructBuilder :=
  mret (over_s (add_docs lines) b).
Definition StructBuilder_Directive (b : StructBuilder) (d : Directive) : M StructBuilder :=
  mret (over_s (add_directive d) b).
Definition StructBuilder_Target (b : StructBuilder) (t : Target) : M StructBuilder :=
  set_target (emit.ref (emit.s_base (sb_node b))) t;; mret b.
Definition StructBuilder_Field (b : StructBuilder) (name : string) (t : option emit.Ref)
    (fn : option (FieldBuilder → M FieldBuilder)) : M StructBuilder :=
  c ← new;
  set_owner c (OEmit (emit.ref (emit.s_base (sb_node b))));;
  cb ← call fn (MkFieldBuilder (sb_ctx b) (emit.MkField (ctor.zero_base c) name t "" ""));
  mret (with_s b (set_s_Fields (emit.s_Fields (sb_node b) ++ [fb_node cb]) (sb_node b))).
Definition StructBuilder_Embed (b : StructBuilder) (t : option emit.Ref)
    (fn : option (EmbedBuilder → M EmbedBuilder)) : M StructBuilder :=
  c ← new;
  set_owner c (OEmit (emit.ref (emit.s_base (sb_node b))));;
  cb ← call fn (MkEmbedBuilder (sb_ctx b) (emit.MkEmbed (ctor.zero_base c) t));
  mret (with_s b (set_s_Embeds (emit.s_Embeds (sb_node b) ++ [emb_node cb]) (sb_node b))).
Definition StructBuilder_Method (b : StructBuilder) (name : string)
    (fn : option (MethodBuilder → M MethodBuilder)) : M StructBuilder :=
  c ← new;
  set_owner c (OEmit (emit.ref (emit.s_base (sb_node b))));;
  cb ← call fn (MkMethodBuilder (sb_ctx b) (emit.MkMethod (ctor.zero_base c) name "" None "" [] [] [] [] (MkOwnerRef "" "")));
  mret (with_s b (set_s_Methods (emit.s_Methods (sb_node b) ++ [mb_node cb]) (sb_node b))).
Definition StructBuilder_TypeParam (b : StructBuilder) (name : string) (constraint : option emit.Constraint)
    (fn : list (option (TypeParamBuilder → M TypeParamBuilder))) : M StructBuilder :=
  c ← new;
  set_owner c (OEmit (emit.ref (emit.s_base (sb_node b))));;
  cb ← first_call fn (MkTypeParamBuilder (sb_ctx b) (emit.MkTypeParam (ctor.zero_base c) name constraint));
  mret (with_s b (set_s_TypeParams (emit.s_TypeParams (sb_node b) ++ [tpb_node cb]) (sb_node b))).

Definition PackageBuilder_Struct (b : pointer) (name : string) (fn : option (StructBuilder → M StructBuilder)) : M pointer :=
  pb ← get_builder b;
  pkg ← get_package (pb_pkg pb);
  c ← new;
  set_target c (target (pb_ctx pb));;
  nb ← call fn (MkStructBuilder (pb_ctx pb) (emit.MkStruct (decl_base pb c) name (emit.p_Path pkg) [] [] [] []));
  edit_package b (λ p, set_p_Structs (emit.p_Structs p ++ [sb_node nb]) p).


(** ** [interface.go] *)

Record InterfaceBuilder := MkInterfaceBuilder { ib_ctx : Context; ib_node : emit.Interface }.

Definition with_i (b : InterfaceBuilder) (n : emit.Interface) : InterfaceBuilder := MkInterfaceBuilder (ib_ctx b) n.
Definition over_i (f : emit.BaseEmit → emit.BaseEmit) (b : InterfaceBuilder) : InterfaceBuilder :=
  with_i b (set_i_base (f (emit.i_base (ib_node b))) (ib_node b)).

Definition InterfaceBuilder_Node (b : InterfaceBuilder) : emit.Interface := ib_node b.
Definition InterfaceBuilder_Pos (b : InterfaceBuilder) (p : Pos) : M InterfaceBuilder :=
  mret (over_i (set_pos p) b).
Definition InterfaceBuilder_Origin (b : InterfaceBuilder) (n : option Node) : M InterfaceBuilder :=
  mret (over_i (set_origin n) b).
Definition InterfaceBuilder_Docs (b : InterfaceBuilder) (lines : list string) : M InterfaceBuilder :=
  mret (over_i (add_docs lines) b).
Definition InterfaceBuilder_Directive (b : InterfaceBuilder) (d : Directive) : M InterfaceBuilder :=
  mret (over_i (add_directive d) b).
Definition InterfaceBuilder_Target (b : InterfaceBuilder) (t : Target) : M InterfaceBuilder :=
  set_target (emit.ref (emit.i_base (ib_node b))) t;; mret b.
Definition InterfaceBuilder_Field (b : InterfaceBuilder) (name : string) (t : option emit.Ref)
    (fn : option (FieldBuilder → M FieldBuilder)) : M InterfaceBuilder :=
  c ← new;
  set_owner c (OEmit (emit.ref (emit.i_base (ib_node b))));;
  cb ← call fn (MkFieldBuilder (ib_ctx b) (emit.MkField (ctor.zero_base c) name t "" ""));
  mret (with_i b (set_i_Fields (emit.i_Fields (ib_node b) ++ [fb_node cb]) (ib_node b))).
Definition InterfaceBuilder_Method (b : InterfaceBuilder) (name : string)
    (fn : option (MethodBuilder → M MethodBuilder)) : M InterfaceBuilder :=
  c ← new;
  set_owner c (OEmit (emit.ref (emit.i_base (ib_node b))));;
  cb ← call fn (MkMethodBuilder (ib_ctx b) (emit.MkMethod (ctor.zero_base c) name "" None "" [] [] [] [] (MkOwnerRef "" "")));
  mret (with_i b (set_i_Methods (emit.i_Methods (ib_node b) ++ [mb_node cb]) (ib_node b))).
Definition InterfaceBuilder_Embed (b : InterfaceBuilder) (t : option emit.Ref)
    (fn : option (EmbedBuilder → M EmbedBuilder)) : M InterfaceBuilder :=
  c ← new;
  set_owner c (OEmit (emit.ref (emit.i_base (ib_node b))));;
  cb ← call fn (MkEmbedBuilder (ib_ctx b) (emit.MkEmbed (ctor.zero_base c) t));
  mret (with_i b (set_i_Embeds (emit.i_Embeds (ib_node b) ++ [emb_node cb]) (ib_node b))).
Definition InterfaceBuilder_TypeParam (b : InterfaceBuilder) (name : string) (constraint : option emit.Constraint)
    (fn : list (option (TypeParamBuilder → M TypeParamBuilder))) : M InterfaceBuilder :=
  c ← new;
  set_owner c (OEmit (emit.ref (emit.i_base (ib_node b))));;
  cb ← first_call fn (MkTypeParamBuilder (ib_ctx b) (emit.MkTypeParam (ctor.zero_base c) name constraint));
  mret (with_i b (set_i_TypeParams (emit.i_TypeParams (ib_node b) ++ [tpb_node cb]) (ib_node b))).

Definition PackageBuilder_Interface (b : pointer) (name : string) (fn : option (InterfaceBuilder → M InterfaceBuilder)) : M pointer :=
  pb ← get_builder b;
  pkg ← get_package (pb_pkg pb);
  c ← new;
  set_target c (target (pb_ctx pb));;
  nb ← call fn (MkInterfaceBuilder (pb_ctx pb) (emit.MkInterface (decl_base pb c) name (emit.p_Path pkg) [] [] [] []));
  edit_package b (λ p, set_p_Interfaces (emit.p_Interfaces p ++ [ib_node nb]) p).


(** ** [function.go] *)

Record FunctionBuilder := MkFunctionBuilder { fnb_ctx : Context; fnb_node : emit.Function_ }.

Definition with_fn (b : FunctionBuilder) (n : emit.Function_) : FunctionBuilder := MkFunctionBuilder (fnb_ctx b) n.
Definition over_fn (f : emit.BaseEmit → emit.BaseEmit) (b : FunctionBuilder) : FunctionBuilder :=
  with_fn b (set_fn_base (f (emit.fn_base (fnb_node b))) (fnb_node b)).

Definition FunctionBuilder_Node (b : FunctionBuilder) : emit.Function_ := fnb_node b.
Definition FunctionBuilder_Pos (b : FunctionBuilder) (p : Pos) : M FunctionBuilder :=
  mret (over_fn (set_pos p) b).
Definition FunctionBuilder_Origin (b : FunctionBuilder) (n : option Node) : M FunctionBuilder :=
  mret (over_fn (set_origin n) b).
Definition FunctionBuilder_Docs (b : FunctionBuilder) (lines : list string) : M FunctionBuilder :=
  mret (over_fn (add_docs lines) b).
Definition FunctionBuilder_Directive (b : FunctionBuilder) (d : Directive) : M FunctionBuilder :=
  mret (over_fn (add_directive d) b).
Definition FunctionBuilder_Target (b : FunctionBuilder) (t : Target) : M FunctionBuilder :=
  set_target (emit.ref (emit.fn_base (fnb_node b))) t;; mret b.
Definition FunctionBuilder_Param (b : FunctionBuilder) (name : string) (t : option emit.Ref)
    (fn : option (ParamBuilder → M ParamBuilder)) : M FunctionBuilder :=
  c ← new;
  set_owner c (OEmit (emit.ref (emit.fn_base (fnb_node b))));;
  cb ← call fn (MkParamBuilder (fnb_ctx b) (emit.MkParam (ctor.zero_base c) name t false));
  mret (with_fn b (set_fn_Params (emit.fn_Params (fnb_node b) ++ [pab_node cb]) (fnb_node b))).
Definition FunctionBuilder_Return (b : FunctionBuilder) (t : option emit.Ref) (name : list string) : M FunctionBuilder :=
  c ← new;
  let r := emit.MkReturn (ctor.zero_base c) (match name with n :: _ => n | [] => "" end) t in
  mret (with_fn b (set_fn_Returns (emit.fn_Returns (fnb_node b) ++ [r]) (fnb_node b))).
Definition FunctionBuilder_TypeParam (b : FunctionBuilder) (name : string) (constraint : option emit.Constraint)
    (fn : list (option (TypeParamBuilder → M TypeParamBuilder))) : M FunctionBuilder :=
  c ← new;
  set_owner c (OEmit (emit.ref (emit.fn_base (fnb_node b))));;
  cb ← first_call fn (MkTypeParamBuilder (fnb_ctx b) (emit.MkTypeParam (ctor.zero_base c) name constraint));
  mret (with_fn b (set_fn_TypeParams (emit.fn_TypeParams (fnb_node b) ++ [tpb_node cb]) (fnb_node b))).
Definition FunctionBuilder_Body (b : FunctionBuilder) (stmts : list emit.Stmt) : M FunctionBuilder :=
  mret (with_fn b (set_fn_Body stmts (fnb_node b))).

Definition PackageBuilder_Function (b : pointer) (name : string) (fn : option (FunctionBuilder → M FunctionBuilder)) : M pointer :=
  pb ← get_builder b;
  pkg ← get_package (pb_pkg pb);
  c ← new;
  set_target c (target (pb_ctx pb));;
  nb ← call fn (MkFunctionBuilder (pb_ctx pb) (emit.MkFunction (decl_base pb c) name (emit.p_Path pkg) [] [] [] []));
  edit_package b (λ p, set_p_Functions (emit.p_Functions p ++ [fnb_node nb]) p).


(** ** [variable.go] *)

Record VariableBuilder := MkVariableBuilder { vb_ctx : Context; vb_node : emit.Variable_ }.

Definition with_v (b : VariableBuilder) (n : emit.Variable_) : VariableBuilder := MkVariableBuilder (vb_ctx b) n.
Definition over_v (f : emit.BaseEmit → emit.BaseEmit) (b : VariableBuilder) : VariableBuilder :=
  with_v b (set_v_base (f (emit.v_base (vb_node b))) (vb_node b)).

Definition VariableBuilder_Node (b : VariableBuilder) : emit.Variable_ := vb_node b.
Definition VariableBuilder_Pos (b : VariableBuilder) (p : Pos) : M VariableBuilder :=
  mret (over_v (set_pos p) b).
Definition VariableBuilder_Origin (b : VariableBuilder) (n : option Node) : M VariableBuilder :=
  mret (over_v (set_origin n) b).
Definition VariableBuilder_Docs (b : VariableBuilder) (lines : list string) : M VariableBuilder :=
  mret (over_v (add_docs lines) b).
Definition VariableBuilder_Directive (b : VariableBuilder) (d : Directive) : M VariableBuilder :=
  mret (over_v (add_directive d) b).
Definition VariableBuilder_Target (b : VariableBuilder) (t : Target) : M VariableBuilder :=
  set_target (emit.ref (emit.v_base (vb_node b))) t;; mret b.

Definition PackageBuilder_Variable (b : pointer) (name : string) (typ : option emit.Ref) (init : option emit.Expr) (fn : option (VariableBuilder → M VariableBuilder)) : M pointer :=
  pb ← get_builder b;
  pkg ← get_package (pb_pkg pb);
  c ← new;
  set_target c (target (pb_ctx pb));;
  nb ← call fn (MkVariableBuilder (pb_ctx pb) (emit.MkVariable (decl_base pb c) name (emit.p_Path pkg) typ init));
  edit_package b (λ p, set_p_Variables (emit.p_Variables p ++ [vb_node nb]) p).


(** ** [constant.go] *)

Record ConstantBuilder := MkConstantBuilder { kb_ctx : Context; kb_node : emit.Constant }.

Definition with_k (b : ConstantBuilder) (n : emit.Constant) : ConstantBuilder := MkConstantBuilder (kb_ctx b) n.
Definition over_k (f : emit.BaseEmit → emit.BaseEmit) (b : ConstantBuilder) : ConstantBuilder :=
  with_k b (set_k_base (f (emit.k_base (kb_node b))) (kb_node b)).

Definition ConstantBuilder_Node (b : ConstantBuilder) : emit.Constant := kb_node b.
Definition ConstantBuilder_Pos (b : ConstantBuilder) (p : Pos) : M ConstantBuilder :=
  mret (over_k (set_pos p) b).
Definition ConstantBuilder_Origin (b : ConstantBuilder) (n : option Node) : M ConstantBuilder :=
  mret (over_k (set_origin n) b).
Definition ConstantBuilder_Docs (b : ConstantBuilder) (lines : list string) : M ConstantBuilder :=
  mret (over_k (add_docs lines) b).
Definition ConstantBuilder_Directive (b : ConstantBuilder) (d : Directive) : M ConstantBuilder :=
  mret (over_k (add_directive d) b).
Definition ConstantBuilder_Target (b : ConstantBuilder) (t : Target) : M ConstantBuilder :=
  set_target (emit.ref (emit.k_base (kb_node b))) t;; mret b.

Definition PackageBuilder_Constant (b : pointer) (name : string) (typ : option emit.Ref) (value : option emit.Expr) (fn : option (ConstantBuilder → M ConstantBuilder)) : M pointer :=
  pb ← get_builder b;
  pkg ← get_package (pb_pkg pb);
  c ← new;
  set_target c (target (pb_ctx pb));;
  nb ← call fn (MkConstantBuilder (pb_ctx pb) (emit.MkConstant (decl_base pb c) name (emit.p_Path pkg) typ value));
  edit_package b (λ p, set_p_Constants (emit.p_Constants p ++ [kb_node nb]) p).


(** ** [enum.go] *)

Record EnumBuilder := MkEnumBuilder { eb_ctx : Context; eb_node : emit.Enum }.

Definition with_e (b : EnumBuilder) (n : emit.Enum) : EnumBuilder := MkEnumBuilder (eb_ctx b) n.
Definition over_e (f : emit.BaseEmit → emit.BaseEmit) (b : EnumBuilder) : EnumBuilder :=
  with_e b (set_e_base (f (emit.e_base (eb_node b))) (eb_node b)).

Definition EnumBuilder_Node (b : EnumBuilder) : emit.Enum := eb_node b.
Definition EnumBuilder_Pos (b : EnumBuilder) (p : Pos) : M EnumBuilder :=
  mret (over_e (set_pos p) b).
Definition EnumBuilder_Origin (b : EnumBuilder) (n : option Node) : M EnumBuilder :=
  mret (over_e (set_origin n) b).
Definition EnumBuilder_Docs (b : EnumBuilder) (lines : list string) : M EnumBuilder :=
  mret (over_e (add_docs lines) b).
Definition EnumBuilder_Directive (b : EnumBuilder) (d : Directive) : M EnumBuilder :=
  mret (over_e (add_directive d) b).
Definition EnumBuilder_Target (b : EnumBuilder) (t : Target) : M EnumBuilder :=
  set_target (emit.ref (emit.e_base (eb_node b))) t;; mret b.
Definition EnumBuilder_Variant (b : EnumBuilder) (name : string) (value : option emit.Expr)
    (fn : option (EnumVariantBuilder → M EnumVariantBuilder)) : M EnumBuilder :=
  c ← new;
  set_owner c (OEmit (emit.ref (emit.e_base (eb_node b))));;
  cb ← call fn (MkEnumVariantBuilder (eb_ctx b) (emit.MkEnumVariant (ctor.zero_base c) name value));
  mret (with_e b (set_e_Variants (emit.e_Variants (eb_node b) ++ [evb_node cb]) (eb_node b))).

Definition PackageBuilder_Enum (b : pointer) (name : string) (underlying : option emit.Ref) (fn : option (EnumBuilder → M EnumBuilder)) : M pointer :=
  pb ← get_builder b;
  pkg ← get_package (pb_pkg pb);
  c ← new;
  set_target c (target (pb_ctx pb));;
  nb ← call fn (MkEnumBuilder (pb_ctx pb) (emit.MkEnum (decl_base pb c) name (emit.p_Path pkg) underlying []));
  edit_package b (λ p, set_p_Enums (emit.p_Enums p ++ [eb_node nb]) p).


(** ** [alias.go] *)

Record AliasBuilder := MkAliasBuilder { ab_ctx : Context; ab_parent : pointer; ab_node : emit.Alias }.

Definition with_a (b : AliasBuilder) (n : emit.Alias) : AliasBuilder := MkAliasBuilder (ab_ctx b) (ab_parent b) n.
Definition over_a (f : emit.BaseEmit → emit.BaseEmit) (b : AliasBuilder) : AliasBuilder :=
  with_a b (set_a_base (f (emit.a_base (ab_node b))) (ab_node b)).

Definition AliasBuilder_Node (b : AliasBuilder) : emit.Alias := ab_node b.
Definition AliasBuilder_Pos (b : AliasBuilder) (p : Pos) : M AliasBuilder :=
  mret (over_a (set_pos p) b).
Definition AliasBuilder_Origin (b : AliasBuilder) (n : option Node) : M AliasBuilder :=
  mret (over_a (set_origin n) b).
Definition AliasBuilder_Docs (b : AliasBuilder) (lines : list string) : M AliasBuilder :=
  mret (over_a (add_docs lines) b).
Definition AliasBuilder_Directive (b : AliasBuilder) (d : Directive) : M AliasBuilder :=
  mret (over_a (add_directive d) b).
Definition AliasBuilder_File (b : AliasBuilder) (t : Target) : M AliasBuilder :=
  set_target (emit.ref (emit.a_base (ab_node b))) t;; mret b.
Definition AliasBuilder_TypeParam (b : AliasBuilder) (name : string) (constraint : option emit.Constraint)
    (fn : list (option (TypeParamBuilder → M TypeParamBuilder))) : M AliasBuilder :=
  c ← new;
  set_owner c (OEmit (emit.ref (emit.a_base (ab_node b))));;
  cb ← first_call fn (MkTypeParamBuilder (ab_ctx b) (emit.MkTypeParam (ctor.zero_base c) name constraint));
  mret (with_a b (set_a_TypeParams (emit.a_TypeParams (ab_node b) ++ [tpb_node cb]) (ab_node b))).
Definition AliasBuilder_Method (b : AliasBuilder) (name : string) (fn : option (MethodBuilder → M MethodBuilder)) : M AliasBuilder :=
  if emit.a_IsAlias (ab_node b) then
    recordErr (ab_parent b) (ErrAliasMethodForbidden (emit.a_Name (ab_node b)) name);; mret b
  else
    c ← new;
    set_owner c (OEmit (emit.ref (emit.a_base (ab_node b))));;
    cb ← call fn (MkMethodBuilder (ab_ctx b) (emit.MkMethod (ctor.zero_base c) name "" None "" [] [] [] [] (MkOwnerRef "" "")));
    mret (with_a b (set_a_Methods (emit.a_Methods (ab_node b) ++ [mb_node cb]) (ab_node b))).

Definition appendAlias (b : pointer) (name : string) (tgt : option emit.Ref) (isAlias : bool)
    (fn : option (AliasBuilder → M AliasBuilder)) : M pointer :=
  pb ← get_builder b;
  pkg ← get_package (pb_pkg pb);
  c ← new;
  set_target c (target (pb_ctx pb));;
  nb ← call fn (MkAliasBuilder (pb_ctx pb) b (emit.MkAlias (decl_base pb c) name (emit.p_Path pkg) tgt isAlias [] []));
  edit_package b (λ p, set_p_Aliases (emit.p_Aliases p ++ [ab_node nb]) p).

Definition PackageBuilder_Alias (b : pointer) (name : string) (tgt : option emit.Ref)
    (fn : option (AliasBuilder → M AliasBuilder)) : M pointer := appendAlias b name tgt true fn.
Definition NamedType (b : pointer) (name : string) (underlying : option emit.Ref)
    (fn : option (AliasBuilder → M AliasBuilder)) : M pointer := appendAlias b name underlying false fn.


(** ** [file.go] *)

Record FileBuilder := MkFileBuilder { fib_ctx : Context; fib_node : emit.File }.

Definition with_fi (b : FileBuilder) (n : emit.File) : FileBuilder := MkFileBuilder (fib_ctx b) n.
Definition over_fi (f : emit.BaseEmit → emit.BaseEmit) (b : FileBuilder) : FileBuilder :=
  with_fi b (set_fi_base (f (emit.fi_base (fib_node b))) (fib_node b)).

Definition FileBuilder_Node (b : FileBuilder) : emit.File := fib_node b.
Definition FileBuilder_Pos (b : FileBuilder) (p : Pos) : M FileBuilder :=
  mret (over_fi (set_pos p) b).
Definition FileBuilder_Docs (b : FileBuilder) (lines : list string) : M FileBuilder :=
  mret (over_fi (add_docs lines) b).
Definition FileBuilder_Import (b : FileBuilder) (path : string)
    (fn : option (ImportBuilder → M ImportBuilder)) : M FileBuilder :=
  c ← new;
  set_owner c (OEmit (emit.ref (emit.fi_base (fib_node b))));;
  cb ← call fn (MkImportBuilder (fib_ctx b) (emit.MkImport (ctor.zero_base c) path ""));
  mret (with_fi b (set_fi_Imports (emit.fi_Imports (fib_node b) ++ [imb_node cb]) (fib_node b))).
Definition BlankImport (b : FileBuilder) (path : string) : M FileBuilder :=
  FileBuilder_Import b path (Some (λ i, ImportBuilder_Alias i "_")).

Definition AddFile (b : pointer) (t : Target) (fn : option (FileBuilder → M FileBuilder)) : M pointer :=
  pb ← get_builder b;
  let t := if Manifest.IsZero t then target (pb_ctx pb) else t in
  c ← new;
  set_owner c (OEmit (pb_pkg pb));;
  nb ← call fn (MkFileBuilder (pb_ctx pb)
                  (emit.MkFile (ctor.zero_base c) (t_Filename t) (t_Package t) (t_Dir t) "" []));
  edit_package b (λ p, set_p_Files (emit.p_Files p ++ [fib_node nb]) p).

End builder.
