(* ===== verification/EmitContrib.v ===== *)
(** * emit/builder: contributions, queues and small constructors

    The rest of [src/emit/builder]: contributions to the slots of hosts
    ([slot.go], [insert.go]), the queue of values routed by their origin
    ([queue.go]), and the short forms for expressions, statements, tags,
    constraints and type arguments. *)

From S2P Require Import Prelude GoStrings Position Meta Directive Manifest Node NodeQueries StoreIndex StoreOps StoreNodes Emit EmitSlots StoreEmit EmitCtors EmitBuilder.

Local Open Scope string_scope.
Local Open Scope nat_scope.
Local Open Scope list_scope.

Module contrib.

Import builder.

(** ** [insert.go] *)

(** [posKind] is an int; [KindOther] stands for the ordinals that name no
    position, which no constructor of [InsertPos] produces. *)
Inductive posKind := KindAppend | KindPrepend | KindAt | KindBefore | KindAfter | KindOther (k : Z).

Record InsertPos := MkInsertPos { ip_kind : posKind; ip_index : Z; ip_anchor : string }.

Definition AtEnd : InsertPos := MkInsertPos KindAppend 0 "".
Definition Prepend : InsertPos := MkInsertPos KindPrepend 0 "".
Definition At (index : Z) : InsertPos := MkInsertPos KindAt index "".
Definition Before (anchor : string) : InsertPos := MkInsertPos KindBefore 0 anchor.
Definition After (anchor : string) : InsertPos := MkInsertPos KindAfter 0 anchor.

(** A slot operation through its host: the accessor may create the slot; a
    failing operation leaves the items as they were. *)
Definition on_slot (host : emit.Node_) (name : string) (get : slots.sheap → slots.Slot * slots.sheap)
    (op : slots.Slot → res slots.SlotError slots.Slot) : M (option berr) := λ w,
  let '(s, h) := get (w_slots w) in
  match op s with
  | Err e => (Some (ErrSlot e), with_slots w h)
  | Ok s => (None, with_slots w (<[(emit.ref (emit.node_base host), name) := s]> h))
  end.

Definition append_to (host : emit.Node_) (name : string) (get : slots.sheap → slots.Slot * slots.sheap)
    (i : slots.item) (prov : slots.Provenance) : M (option berr) :=
  on_slot host name get (λ s, slots.Append s i prov).

Definition applyInsert (host : emit.Node_) (name : string) (get : slots.sheap → slots.Slot * slots.sheap)
    (i : slots.item) (prov : slots.Provenance) (p : InsertPos) : M (option berr) :=
  match ip_kind p with
  | KindAppend => on_slot host name get (λ s, slots.Append s i prov)
  | KindPrepend => on_slot host name get (λ s, slots.Prepend s i prov)
  | KindAt => on_slot host name get (λ s, slots.InsertAt s (ip_index p) i prov)
  | KindBefore => on_slot host name get (λ s, slots.InsertBefore s (ip_anchor p) i prov)
  | KindAfter => on_slot host name get (λ s, slots.InsertAfter s (ip_anchor p) i prov)
  | KindOther k => λ w, (Some (ErrUnknownInsertPos k), with_slots w (get (w_slots w)).2)
  end.

(** ** [slot.go] *)

Definition nilCheck (host : option emit.Node_) (role : string) : option berr :=
  match host with None => Some (ErrNilHost role) | Some _ => None end.

Definition fail (e : berr) : M (option berr) := mret (Some e).

(** The owner and the slot accessor; looking the slot up may create it, which
    the callers do next in any case. *)
Definition fieldHost (host : emit.Node_) (op : string)
  : res berr (emit.Node_ * (slots.sheap → slots.Slot * slots.sheap)) :=
  match host with
  | emit.NStruct s => Ok (emit.NStruct s, slots.Struct_FieldsSlot s)
  | emit.NInterface i => Ok (emit.NInterface i, slots.Interface_FieldsSlot i)
  | _ => Err (ErrUnsupportedHost op (emit.node_Kind host))
  end.

Definition own (child : emit.BaseEmit) (host : emit.Node_) : M () :=
  set_owner (emit.ref child) (OEmit (emit.ref (emit.node_base host))).

Definition AppendField (c : Context) (host : option emit.Node_) (f : emit.Field) (id : list string) : M (option berr) :=
  match host with
  | None => fail (ErrNilHost "field")
  | Some host =>
      match fieldHost host "AppendField" with
      | Err e => fail e
      | Ok (owner, slot) => own (emit.f_base f) owner;; append_to owner slots.slotFields slot (slots.of_node (emit.NField f)) (Provenance c id)
      end
  end.

Definition AppendMethod (c : Context) (host : option emit.Node_) (m : emit.Method) (id : list string) : M (option berr) :=
  match host with
  | None => fail (ErrNilHost "method")
  | Some host =>
      match host with
      | emit.NStruct o => own (emit.m_base m) host;; append_to host slots.slotMethods (slots.Struct_MethodsSlot o) (slots.of_node (emit.NMethod m)) (Provenance c id)
      | emit.NInterface o => own (emit.m_base m) host;; append_to host slots.slotMethods (slots.Interface_MethodsSlot o) (slots.of_node (emit.NMethod m)) (Provenance c id)
      | emit.NAlias o => own (emit.m_base m) host;; append_to host slots.slotMethods (slots.Alias_MethodsSlot o) (slots.of_node (emit.NMethod m)) (Provenance c id)
      | _ => fail (ErrUnsupportedHost "AppendMethod" (emit.node_Kind host))
      end
  end.

Definition AppendEmbed (c : Context) (host : option emit.Node_) (e : emit.Embed) (id : list string) : M (option berr) :=
  match host with
  | None => fail (ErrNilHost "embed")
  | Some host =>
      match host with
      | emit.NStruct o => own (emit.em_base e) host;; append_to host slots.slotEmbeds (slots.Struct_EmbedsSlot o) (slots.of_node (emit.NEmbed e)) (Provenance c id)
      | emit.NInterface o => own (emit.em_base e) host;; append_to host slots.slotEmbeds (slots.Interface_EmbedsSlot o) (slots.of_node (emit.NEmbed e)) (Provenance c id)
      | _ => fail (ErrUnsupportedHost "AppendEmbed" (emit.node_Kind host))
      end
  end.

Definition AppendParam (c : Context) (host : option emit.Node_) (p : emit.Param) (id : list string) : M (option berr) :=
  match host with
  | None => fail (ErrNilHost "param")
  | Some host =>
      match host with
      | emit.NFunction o => own (emit.pa_base p) host;; append_to host slots.slotParams (slots.Function_ParamsSlot o) (slots.of_node (emit.NParam p)) (Provenance c id)
      | emit.NMethod o => own (emit.pa_base p) host;; append_to host slots.slotParams (slots.Method_ParamsSlot o) (slots.of_node (emit.NParam p)) (Provenance c id)
      | _ => fail (ErrUnsupportedHost "AppendParam" (emit.node_Kind host))
      end
  end.

Definition AppendPrebody (c : Context) (host : option emit.Node_) (stmt : emit.Stmt) (id : list string) : M (option berr) :=
  match host with
  | None => fail (ErrNilHost "prebody")
  | Some host =>
      match host with
      | emit.NFunction o => append_to host slots.slotPrebody (slots.Function_Prebody o) (slots.of_node (emit.NStmt stmt)) (Provenance c id)
      | emit.NMethod o => append_to host slots.slotPrebody (slots.Method_Prebody o) (slots.of_node (emit.NStmt stmt)) (Provenance c id)
      | _ => fail (ErrUnsupportedHost "AppendPrebody" (emit.node_Kind host))
      end
  end.

Definition AppendPostbody (c : Context) (host : option emit.Node_) (stmt : emit.Stmt) (id : list string) : M (option berr) :=
  match host with
  | None => fail (ErrNilHost "postbody")
  | Some host =>
      match host with
      | emit.NFunction o => append_to host slots.slotPostbody (slots.Function_Postbody o) (slots.of_node (emit.NStmt stmt)) (Provenance c id)
      | emit.NMethod o => append_to host slots.slotPostbody (slots.Method_Postbody o) (slots.of_node (emit.NStmt stmt)) (Provenance c id)
      | _ => fail (ErrUnsupportedHost "AppendPostbody" (emit.node_Kind host))
      end
  end.

Definition AppendReturn (c : Context) (host : option emit.Node_) (r : emit.Return) (id : list string) : M (option berr) :=
  match host with
  | None => fail (ErrNilHost "return")
  | Some host =>
      match host with
      | emit.NFunction o => append_to host slots.slotReturns (slots.Function_ReturnsSlot o) (slots.of_node (emit.NReturn r)) (Provenance c id)
      | emit.NMethod o => append_to host slots.slotReturns (slots.Method_ReturnsSlot o) (slots.of_node (emit.NReturn r)) (Provenance c id)
      | _ => fail (ErrUnsupportedHost "AppendReturn" (emit.node_Kind host))
      end
  end.

Definition AppendVariant (c : Context) (host : option emit.Enum) (v : emit.EnumVariant) (id : list string) : M (option berr) :=
  match host with
  | None => fail (ErrNilHost "variant")
  | Some host => own (emit.ev_base v) (emit.NEnum host);; append_to (emit.NEnum host) slots.slotVariants (slots.VariantsSlot host) (slots.of_node (emit.NEnumVariant v)) (Provenance c id)
  end.

Definition AppendTag (c : Context) (host : option emit.Field) (tag : emit.Tag) (id : list string) : M (option berr) :=
  match host with
  | None => fail (ErrNilHost "tag")
  | Some host => append_to (emit.NField host) "tags" (slots.Tags host) (slots.of_node (emit.NTag tag)) (Provenance c id)
  end.

Definition AppendTop (c : Context) (host : option emit.File) (decl : slots.item) (id : list string) : M (option berr) :=
  match host with
  | None => fail (ErrNilHost "file")
  | Some host => append_to (emit.NFile host) "top" (slots.Top host) decl (Provenance c id)
  end.

Definition AppendBottom (c : Context) (host : option emit.File) (decl : slots.item) (id : list string) : M (option berr) :=
  match host with
  | None => fail (ErrNilHost "file")
  | Some host => append_to (emit.NFile host) "bottom" (slots.Bottom host) decl (Provenance c id)
  end.

Definition AppendInit (c : Context) (host : option emit.File) (stmt : emit.Stmt) (id : list string) : M (option berr) :=
  match host with
  | None => fail (ErrNilHost "file")
  | Some host => append_to (emit.NFile host) "init" (slots.Init host) (slots.of_node (emit.NStmt stmt)) (Provenance c id)
  end.

Definition AppendImport (c : Context) (host : option emit.File) (imp : emit.Import) (id : list string) : M (option berr) :=
  match host with
  | None => fail (ErrNilHost "file")
  | Some host => own (emit.im_base imp) (emit.NFile host);; append_to (emit.NFile host) slots.slotImports (slots.ImportsSlot host) (slots.of_node (emit.NImport imp)) (Provenance c id)
  end.

Definition InsertField (c : Context) (host : option emit.Node_) (f : emit.Field) (pos : InsertPos) (id : list string) : M (option berr) :=
  match host with
  | None => fail (ErrNilHost "field")
  | Some host =>
      match fieldHost host "InsertField" with
      | Err e => fail e
      | Ok (owner, slot) => own (emit.f_base f) owner;; applyInsert owner slots.slotFields slot (slots.of_node (emit.NField f)) (Provenance c id) pos
      end
  end.

Definition InsertMethod (c : Context) (host : option emit.Node_) (m : emit.Method) (pos : InsertPos) (id : list string) : M (option berr) :=
  match host with
  | None => fail (ErrNilHost "method")
  | Some host =>
      match host with
      | emit.NStruct o => own (emit.m_base m) host;; applyInsert host slots.slotMethods (slots.Struct_MethodsSlot o) (slots.of_node (emit.NMethod m)) (Provenance c id) pos
      | emit.NInterface o => own (emit.m_base m) host;; applyInsert host slots.slotMethods (slots.Interface_MethodsSlot o) (slots.of_node (emit.NMethod m)) (Provenance c id) pos
      | emit.NAlias o => own (emit.m_base m) host;; applyInsert host slots.slotMethods (slots.Alias_MethodsSlot o) (slots.of_node (emit.NMethod m)) (Provenance c id) pos
      | _ => fail (ErrUnsupportedHost "InsertMethod" (emit.node_Kind host))
      end
  end.

Definition InsertEmbed (c : Context) (host : option emit.Node_) (e : emit.Embed) (pos : InsertPos) (id : list string) : M (option berr) :=
  match host with
  | None => fail (ErrNilHost "embed")
  | Some host =>
      match host with
      | emit.NStruct o => own (emit.em_base e) host;; applyInsert host slots.slotEmbeds (slots.Struct_EmbedsSlot o) (slots.of_node (emit.NEmbed e)) (Provenance c id) pos
      | emit.NInterface o => own (emit.em_base e) host;; applyInsert host slots.slotEmbeds (slots.Interface_EmbedsSlot o) (slots.of_node (emit.NEmbed e)) (Provenance c id) pos
      | _ => fail (ErrUnsupportedHost "InsertEmbed" (emit.node_Kind host))
      end
  end.

Definition InsertParam (c : Context) (host : option emit.Node_) (p : emit.Param) (pos : InsertPos) (id : list string) : M (option berr) :=
  match host with
  | None => fail (ErrNilHost "param")
  | Some host =>
      match host with
      | emit.NFunction o => own (emit.pa_base p) host;; applyInsert host slots.slotParams (slots.Function_ParamsSlot o) (slots.of_node (emit.NParam p)) (Provenance c id) pos
      | emit.NMethod o => own (emit.pa_base p) host;; applyInsert host slots.slotParams (slots.Method_ParamsSlot o) (slots.of_node (emit.NParam p)) (Provenance c id) pos
      | _ => fail (ErrUnsupportedHost "InsertParam" (emit.node_Kind host))
      end
  end.

Definition InsertPrebody (c : Context) (host : option emit.Node_) (stmt : emit.Stmt) (pos : InsertPos) (id : list string) : M (option berr) :=
  match host with
  | None => fail (ErrNilHost "prebody")
  | Some host =>
      match host with
      | emit.NFunction o => applyInsert host slots.slotPrebody (slots.Function_Prebody o) (slots.of_node (emit.NStmt stmt)) (Provenance c id) pos
      | emit.NMethod o => applyInsert host slots.slotPrebody (slots.Method_Prebody o) (slots.of_node (emit.NStmt stmt)) (Provenance c id) pos
      | _ => fail (ErrUnsupportedHost "InsertPrebody" (emit.node_Kind host))
      end
  end.

Definition InsertPostbody (c : Context) (host : option emit.Node_) (stmt : emit.Stmt) (pos : InsertPos) (id : list string) : M (option berr) :=
  match host with
  | None => fail (ErrNilHost "postbody")
  | Some host =>
      match host with
      | emit.NFunction o => applyInsert host slots.slotPostbody (slots.Function_Postbody o) (slots.of_node (emit.NStmt stmt)) (Provenance c id) pos
      | emit.NMethod o => applyInsert host slots.slotPostbody (slots.Method_Postbody o) (slots.of_node (emit.NStmt stmt)) (Provenance c id) pos
      | _ => fail (ErrUnsupportedHost "InsertPostbody" (emit.node_Kind host))
      end
  end.

Definition InsertReturn (c : Context) (host : option emit.Node_) (r : emit.Return) (pos : InsertPos) (id : list string) : M (option berr) :=
  match host with
  | None => fail (ErrNilHost "return")
  | Some host =>
      match host with
      | emit.NFunction o => applyInsert host slots.slotReturns (slots.Function_ReturnsSlot o) (slots.of_node (emit.NReturn r)) (Provenance c id) pos
      | emit.NMethod o => applyInsert host slots.slotReturns (slots.Method_ReturnsSlot o) (slots.of_node (emit.NReturn r)) (Provenance c id) pos
      | _ => fail (ErrUnsupportedHost "InsertReturn" (emit.node_Kind host))
      end
  end.

Definition InsertVariant (c : Context) (host : option emit.Enum) (v : emit.EnumVariant) (pos : InsertPos) (id : list string) : M (option berr) :=
  match host with
  | None => fail (ErrNilHost "variant")
  | Some host => own (emit.ev_base v) (emit.NEnum host);; applyInsert (emit.NEnum host) slots.slotVariants (slots.VariantsSlot host) (slots.of_node (emit.NEnumVariant v)) (Provenance c id) pos
  end.

Definition InsertTag (c : Context) (host : option emit.Field) (tag : emit.Tag) (pos : InsertPos) (id : list string) : M (option berr) :=
  match host with
  | None => fail (ErrNilHost "tag")
  | Some host => applyInsert (emit.NField host) "tags" (slots.Tags host) (slots.of_node (emit.NTag tag)) (Provenance c id) pos
  end.

Definition InsertTop (c : Context) (host : option emit.File) (decl : slots.item) (pos : InsertPos) (id : list string) : M (option berr) :=
  match host with
  | None => fail (ErrNilHost "file")
  | Some host => applyInsert (emit.NFile host) "top" (slots.Top host) decl (Provenance c id) pos
  end.

Definition InsertBottom (c : Context) (host : option emit.File) (decl : slots.item) (pos : InsertPos) (id : list string) : M (option berr) :=
  match host with
  | None => fail (ErrNilHost "file")
  | Some host => applyInsert (emit.NFile host) "bottom" (slots.Bottom host) decl (Provenance c id) pos
  end.

Definition InsertInit (c : Context) (host : option emit.File) (stmt : emit.Stmt) (pos : InsertPos) (id : list string) : M (option berr) :=
  match host with
  | None => fail (ErrNilHost "file")
  | Some host => applyInsert (emit.NFile host) "init" (slots.Init host) (slots.of_node (emit.NStmt stmt)) (Provenance c id) pos
  end.

Definition InsertImport (c : Context) (host : option emit.File) (imp : emit.Import) (pos : InsertPos) (id : list string) : M (option berr) :=
  match host with
  | None => fail (ErrNilHost "file")
  | Some host => own (emit.im_base imp) (emit.NFile host);; applyInsert (emit.NFile host) slots.slotImports (slots.ImportsSlot host) (slots.of_node (emit.NImport imp)) (Provenance c id) pos
  end.

(** ** [queue.go] *)

Definition Base (c : Context) (p : pointer) (origin : option Node) : emit.BaseEmit :=
  match origin with
  | None => emit.MkBase p zero_pos [] [] None (SetBy c) ""
  | Some n => emit.MkBase p (Node.SourcePos (Node.node_base n)) [] [] (Some n) (SetBy c) ""
  end.

Definition Tagged (base : emit.BaseEmit) (tag : string) : emit.BaseEmit := set_tag tag base.

(** The port a queue writes through. *)
Class Appender (S E : Type) := AppendOriginSlot :
  option Node → string → option emit.Node_ → slots.Provenance → S → S * option E.

Inductive qerr (E : Type) :=
| ErrNilOrigin (setBy slot : string) (id : option string)
| ErrAppend (setBy : string) (kind : Kind) (id : string) (e : E).
Arguments ErrNilOrigin {E}.
Arguments ErrAppend {E}.

Section Queue.
Context {S E : Type} `{!Appender S E}.

Fixpoint queue_loop (c : Context) (slot : string) (origin : Node) (id : string)
    (values : list (option emit.Node_)) (a : S) : S * option (qerr E) :=
  match values with
  | [] => (a, None)
  | None :: values => queue_loop c slot origin id values a
  | Some value :: values =>
      let prov := Provenance c [emit.node_Kind value +:+ "." +:+ id] in
      match AppendOriginSlot (Some origin) slot (Some value) prov a with
      | (a, Some e) => (a, Some (ErrAppend (SetBy c) (emit.node_Kind value) id e))
      | (a, None) => queue_loop c slot origin id values a
      end
  end.

Definition QueueAs (c : Context) (slot : string) (origin : option Node) (id : string)
    (values : list (option emit.Node_)) (a : S) : S * option (qerr E) :=
  match origin with
  | None => (a, Some (ErrNilOrigin (SetBy c) slot (Some id)))
  | Some origin => queue_loop c slot origin id values a
  end.

(** The origin is a declaration that owns methods ([contract.Owner]). *)
Definition Queue (c : Context) (slot : string) (origin : option Node)
    (values : list (option emit.Node_)) (a : S) : S * option (qerr E) :=
  match origin with
  | None => (a, Some (ErrNilOrigin (SetBy c) slot None))
  | Some o => QueueAs c slot origin (default "" (OwnerName o)) values a
  end.
End Queue.

(** The store's emit view is such a port. *)
#[export] Instance emit_view_appender : Appender eview.estate StoreError := eview.AppendOriginSlot.

(** ** [value.go], [typeargs.go] *)

(** An allocation around a constructor. *)
Definition alloc {A} (f : pointer → A) : M A := p ← new; mret (f p).

Definition Tag (key value : string) : M emit.Tag := alloc (λ p, emit.MkTag (ctor.zero_base p) key value).
Definition Approx (ref : option emit.Ref) : emit.UnionTerm := emit.MkUnionTerm ref true.
Definition Exact (ref : option emit.Ref) : emit.UnionTerm := emit.MkUnionTerm ref false.
Definition AnyConstraint : option emit.Constraint := None.
Definition ComparableConstraint : M (option emit.Constraint) :=
  alloc (λ p, Some (emit.MkConstraint "" [ctor.Builtin p "comparable"])).
Definition Constraint (refs : list emit.Ref) : option emit.Constraint :=
  match refs with [] => None | _ => Some (emit.MkConstraint "" refs) end.

Fixpoint builtins (names : list string) : M (list emit.Ref) :=
  match names with
  | [] => mret []
  | n :: names => r ← alloc (λ p, ctor.Builtin p n); rest ← builtins names; mret (r :: rest)
  end.

Definition TypeArgsFromNodeParams (params : list Node.TypeParam) : M (list emit.Ref) :=
  builtins (Node.tp_Name <$> params).
Definition TypeArgsFromEmitParams (params : list emit.TypeParam) : M (list emit.Ref) :=
  builtins (emit.tp_Name <$> params).

Definition ApplyTypeArgs (ref : emit.Ref) (typeArgs : list emit.Ref) : M emit.Ref :=
  match typeArgs with
  | [] => mret ref
  | _ => match ref with
         | emit.RExternalRef _ pkg name _ => alloc (λ p, ctor.External p pkg name typeArgs)
         | _ => mret ref
         end
  end.

(** ** [expr.go], [stmt.go] *)

Module expr.
Definition Ident (name : string) : M emit.Expr := alloc (λ p, ctor.NewIdent p name).
Definition Sel (receiver : option emit.Expr) (name : string) : M emit.Expr := alloc (λ p, ctor.NewField p receiver name).
Definition Index (receiver index : option emit.Expr) : M emit.Expr := alloc (λ p, ctor.NewIndex p receiver index).
Definition Slice (receiver low high capacity : option emit.Expr) : M emit.Expr := alloc (λ p, ctor.NewSlice p receiver low high capacity).
Definition Binary (left_ : option emit.Expr) (op : string) (right_ : option emit.Expr) : M emit.Expr := alloc (λ p, ctor.NewBinary p left_ op right_).
Definition Unary (op : string) (operand : option emit.Expr) : M emit.Expr := alloc (λ p, ctor.NewUnary p op operand).
Definition Call (callee : option emit.Expr) (args : list emit.Expr) : M emit.Expr := alloc (λ p, ctor.NewCall p callee args).
Definition CallGeneric (callee : option emit.Expr) (typeArgs : list emit.Ref) (args : list emit.Expr) : M emit.Expr := alloc (λ p, ctor.NewCallGeneric p callee typeArgs args).
Definition MethodCall (receiver : option emit.Expr) (method : string) (args : list emit.Expr) : M emit.Expr := alloc (λ p, ctor.NewMethodCall p receiver method args).
Definition TypeAssert (receiver : option emit.Expr) (asType : option emit.Ref) : M emit.Expr := alloc (λ p, ctor.NewTypeAssert p receiver asType).
Definition New (typ : option emit.Ref) : M emit.Expr := alloc (λ p, ctor.NewNew p typ).
Definition Make (typ : option emit.Ref) (args : list emit.Expr) : M emit.Expr := alloc (λ p, ctor.NewMake p typ args).
Definition Composite (typ : option emit.Ref) (elements : list emit.Expr) : M emit.Expr := alloc (λ p, ctor.NewComposite p typ elements).
Definition CompositeKeyed (typ : option emit.Ref) (keys : list string) (elements : list emit.Expr) : M emit.Expr := alloc (λ p, ctor.NewCompositeKeyed p typ keys elements).
Definition FuncLit (params : list emit.Param) (returns : list emit.Ref) (body : list emit.Stmt) : M emit.Expr := alloc (λ p, ctor.NewFuncLit p params returns body).
Definition Paren (inner : option emit.Expr) : M emit.Expr := alloc (λ p, ctor.NewParen p inner).
Definition Deref (target : option emit.Expr) : M emit.Expr := alloc (λ p, ctor.NewDeref p target).
Definition Addr (target : option emit.Expr) : M emit.Expr := alloc (λ p, ctor.NewAddr p target).
Definition RawExpr (text : string) : M emit.Expr := alloc (λ p, ctor.NewRawExpr p text).
Definition Str (value : string) : M emit.Expr := alloc (λ p, ctor.NewLiteralString p value).
Definition Int (i : Z) : M emit.Expr := alloc (λ p, ctor.NewLiteralInt p i).
Definition Uint (u : Z) : M emit.Expr := alloc (λ p, ctor.NewLiteralUint p u).
Definition Float {float : Type} (FormatFloat : float → string) (f : float) : M emit.Expr := alloc (λ p, ctor.NewLiteralFloat FormatFloat p f).
Definition Bool (b : bool) : M emit.Expr := alloc (λ p, ctor.NewLiteralBool p b).
Definition Nil  : M emit.Expr := alloc (λ p, ctor.NewLiteralNil p).
Definition Rune (r : string) : M emit.Expr := alloc (λ p, ctor.NewLiteralRune p r).
Definition LitRaw (text : string) : M emit.Expr := alloc (λ p, ctor.NewLiteralRaw p text).
End expr.

Module stmt.
Definition Block (stmts : list emit.Stmt) : M emit.Stmt := alloc (λ p, ctor.NewBlock p stmts).
Definition ExprStmt (e : option emit.Expr) : M emit.Stmt := alloc (λ p, ctor.NewExprStmt p e).
Definition Assign (targets : list emit.Expr) (op : string) (values : list emit.Expr) : M emit.Stmt := alloc (λ p, ctor.NewAssign p targets op values).
Definition Return (values : list emit.Expr) : M emit.Stmt := alloc (λ p, ctor.NewReturn p values).
Definition If (cond : option emit.Expr) (then_ : list emit.Stmt) : M emit.Stmt := alloc (λ p, ctor.NewIf p cond then_).
Definition IfElse (cond : option emit.Expr) (then_ els : list emit.Stmt) : M emit.Stmt := alloc (λ p, ctor.NewIfElse p cond then_ els).
Definition IfInit (init : option emit.Stmt) (cond : option emit.Expr) (then_ els : list emit.Stmt) : M emit.Stmt := alloc (λ p, ctor.NewIfInit p init cond then_ els).
Definition ForStmt (cond : option emit.Expr) (body : list emit.Stmt) : M emit.Stmt := alloc (λ p, ctor.NewFor p cond body).
Definition ForFullStmt (init : option emit.Stmt) (cond : option emit.Expr) (post : option emit.Stmt) (body : list emit.Stmt) : M emit.Stmt := alloc (λ p, ctor.NewForFull p init cond post body).
Definition ForRange (key value : string) (over : option emit.Expr) (body : list emit.Stmt) : M emit.Stmt := alloc (λ p, ctor.NewForRange p key value over body).
Definition Switch (cond : option emit.Expr) (cases : list emit.Stmt) : M emit.Stmt := alloc (λ p, ctor.NewSwitch p cond cases).
Definition SwitchInit (init : option emit.Stmt) (cond : option emit.Expr) (cases : list emit.Stmt) : M emit.Stmt := alloc (λ p, ctor.NewSwitchInit p init cond cases).
Definition Case (values : list emit.Expr) (body : list emit.Stmt) : M emit.Stmt := alloc (λ p, ctor.NewCase p values body).
Definition Default (body : list emit.Stmt) : M emit.Stmt := alloc (λ p, ctor.NewDefault p body).
Definition Defer (call : option emit.Expr) : M emit.Stmt := alloc (λ p, ctor.NewDefer p call).
Definition Go (call : option emit.Expr) : M emit.Stmt := alloc (λ p, ctor.NewGo p call).
Definition Break (label : string) : M emit.Stmt := alloc (λ p, ctor.NewBreak p label).
Definition Continue (label : string) : M emit.Stmt := alloc (λ p, ctor.NewContinue p label).
Definition Label (name : string) (inner : option emit.Stmt) : M emit.Stmt := alloc (λ p, ctor.NewLabel p name inner).
Definition VarStmt (name : string) (typ : option emit.Ref) (init : option emit.Expr) : M emit.Stmt := alloc (λ p, ctor.NewVarStmt p name typ init).
Definition ConstStmt (name : string) (typ : option emit.Ref) (value : option emit.Expr) : M emit.Stmt := alloc (λ p, ctor.NewConstStmt p name typ value).
Definition RawStmt (text : string) : M emit.Stmt := alloc (λ p, ctor.NewRawStmt p text).
End stmt.

(** ** [chain.go]: the builder holds the expression under construction. *)

Definition ChainBuilder : Type := option emit.Expr.

Definition Chain (seed : option emit.Expr) : ChainBuilder := seed.
Definition ChainBuilder_Sel (b : ChainBuilder) (name : string) : M ChainBuilder :=
  alloc (λ p, Some (ctor.NewField p b name)).
Definition ChainBuilder_Call (b : ChainBuilder) (method : string) (args : list emit.Expr) : M ChainBuilder :=
  alloc (λ p, Some (ctor.NewMethodCall p b method args)).
Definition ChainBuilder_Index (b : ChainBuilder) (index : option emit.Expr) : M ChainBuilder :=
  alloc (λ p, Some (ctor.NewIndex p b index)).
Definition ChainBuilder_TypeAssert (b : ChainBuilder) (asType : option emit.Ref) : M ChainBuilder :=
  alloc (λ p, Some (ctor.NewTypeAssert p b asType)).
Definition ChainBuilder_Deref (b : ChainBuilder) : M ChainBuilder := alloc (λ p, Some (ctor.NewDeref p b)).
Definition ChainBuilder_Addr (b : ChainBuilder) : M ChainBuilder := alloc (λ p, Some (ctor.NewAddr p b)).
Definition ChainBuilder_Build (b : ChainBuilder) : option emit.Expr := b.

End contrib.

(** * emit/builder: laws

    The sub-contexts of a package builder, the owners of what a builder
    spawns, positional contributions and the queue. *)

Import bset builder contrib.

(** ** Builders share their root *)

Definition files_of (pb : PackageBuilder) : gmap string pointer := default ∅ (pb_files pb).

(** A root knows its sub-contexts, a sub-context keeps nothing of its own. *)
Definition builder_ok (bs : gmap pointer PackageBuilder) (b : pointer) (pb : PackageBuilder) : Prop :=
  match pb_root pb with
  | None =>
      ∀ tag sub, files_of pb !! tag = Some sub → tag ≠ "" ∧
        ∃ spb, bs !! sub = Some spb ∧ pb_root spb = Some b ∧ pb_outputTag spb = tag
  | Some r =>
      pb_errs pb = [] ∧ pb_files pb = None ∧
      ∃ rb, bs !! r = Some rb ∧ pb_root rb = None ∧ pb_pkg rb = pb_pkg pb ∧ pb_ctx rb = pb_ctx pb ∧
        files_of rb !! pb_outputTag pb = Some b
  end.

Definition wf (w : world) : Prop :=
  (∀ b pb, w_builders w !! b = Some pb →
     builder_ok (w_builders w) b pb ∧ (b < w_next w)%positive ∧ is_Some (w_pkgs w !! pb_pkg pb)) ∧
  (∀ p pkg, w_pkgs w !! p = Some pkg → (p < w_next w)%positive).

(** What a call on a builder may do to the builders. *)
Definition keeps {A} (m : M A) : Prop := ∀ w, wf w → wf (m w).2.

Lemma keeps_ret {A} (a : A) : keeps (mret a).
Proof. by intros w H. Qed.

Lemma keeps_bind {A B} (m : M A) (k : A → M B) : keeps m → (∀ a, keeps (k a)) → keeps (m ≫= k).
Proof.
  intros Hm Hk w H. specialize (Hm w H). unfold mbind, M_bind.
  destruct (m w) as [a w'] eqn:E. by apply Hk.
Qed.

Lemma keeps_new : keeps new.
Proof.
  intros w [Hb Hp]. split; cbn.
  - intros b pb E. destruct (Hb b pb E) as (? & ? & ?). split_and!; [done|lia|done].
  - intros p pkg E. specialize (Hp p pkg E). lia.
Qed.

Lemma keeps_set_target p t : keeps (set_target p t).
Proof. by intros w H. Qed.
Lemma keeps_set_owner p o : keeps (set_owner p o).
Proof. by intros w H. Qed.
Lemma keeps_get_builder b : keeps (get_builder b).
Proof. by intros w H. Qed.
Lemma keeps_get_package p : keeps (get_package p).
Proof. by intros w H. Qed.

Lemma keeps_call {B} (fn : option (B → M B)) b :
  (∀ f b, fn = Some f → keeps (f b)) → keeps (call fn b).
Proof. destruct fn as [f|]; intros H; [by apply H|apply keeps_ret]. Qed.

Lemma edit_package_eq b f w pb pkg :
  w_builders w !! b = Some pb → w_pkgs w !! pb_pkg pb = Some pkg →
  edit_package b f w = (b, with_pkgs w (<[pb_pkg pb := f pkg]> (w_pkgs w))).
Proof.
  intros E Ep. unfold edit_package, mbind, M_bind, mret, M_ret, get_builder, get_package, put_package.
  rewrite E. cbn. by rewrite Ep.
Qed.

Lemma with_pkgs_wf w p pkg pkg' : w_pkgs w !! p = Some pkg → wf w → wf (with_pkgs w (<[p := pkg']> (w_pkgs w))).
Proof.
  intros Ep [Hb Hp]. split; cbn.
  - intros b' pb' E'. destruct (Hb b' pb' E') as (? & ? & ?). split_and!; [done|done|].
    destruct (decide (p = pb_pkg pb')) as [->|Hne]; [rewrite lookup_insert_eq; by eexists|].
    by rewrite lookup_insert_ne.
  - intros q pkg''. destruct (decide (p = q)) as [<-|Hne].
    + intros _. by eapply Hp.
    + rewrite lookup_insert_ne by done. apply Hp.
Qed.

Lemma keeps_edit_package b f w : wf w → is_Some (w_builders w !! b) → wf (edit_package b f w).2.
Proof.
  intros H [pb E]. destruct (proj1 H b pb E) as (_ & _ & [pkg Ep]).
  rewrite (edit_package_eq _ _ _ _ _ E Ep). by eapply with_pkgs_wf.
Qed.

Definition root_of (b : pointer) (pb : PackageBuilder) : pointer := default b (pb_root pb).

Lemma root_is_root w b pb :
  wf w → w_builders w !! b = Some pb →
  ∃ rb, w_builders w !! root_of b pb = Some rb ∧ pb_root rb = None ∧ pb_pkg rb = pb_pkg pb ∧ pb_ctx rb = pb_ctx pb.
Proof.
  intros [Hb _] E. destruct (Hb b pb E) as (Hok & _ & _). unfold builder_ok, root_of in *.
  destruct (pb_root pb) as [r|] eqn:Er; cbn; [|by exists pb].
  destruct Hok as (_ & _ & rb & ? & ? & ? & ? & _). by exists rb.
Qed.

Ltac unfold_m := unfold mbind, M_bind, mret, M_ret, get_builder, put_builder, get_package, put_package, new,
  set_target, set_owner in *.

(** Reading and recording through a sub-context are reading and recording
    at its root. *)
Lemma Build_eq w b pb rb pkg :
  w_builders w !! b = Some pb → w_builders w !! root_of b pb = Some rb → pb_root rb = None →
  pb_pkg rb = pb_pkg pb → w_pkgs w !! pb_pkg pb = Some pkg →
  Build b w = ((pkg, pb_errs rb), w).
Proof.
  intros E Er Hr Hp Ep. unfold Build, root_hops, root_of in *. cbn [Build_fuel].
  unfold PackageBuilder_Err, root_hops. cbn [Err_fuel]. unfold_m. rewrite E. cbn.
  destruct (pb_root pb) as [r|] eqn:Erb; cbn in *; simplify_eq.
  - rewrite Er. cbn. rewrite Hr. cbn. rewrite Hp, Ep, Er. cbn. by rewrite Hr.
  - rewrite Ep. cbn. rewrite E. cbn. by rewrite Erb.
Qed.

Definition with_err (rb : PackageBuilder) (e : berr) : PackageBuilder :=
  MkPackageBuilder (pb_ctx rb) (pb_pkg rb) (pb_defaultOrigin rb) (pb_errs rb ++ [e]) (pb_outputTag rb)
    (pb_files rb) (pb_root rb).

Lemma recordErr_eq w b pb rb e :
  w_builders w !! b = Some pb → w_builders w !! root_of b pb = Some rb → pb_root rb = None →
  recordErr b e w = ((), with_builders w (<[root_of b pb := with_err rb e]> (w_builders w))).
Proof.
  intros E Er Hr. unfold recordErr, root_hops, root_of in *. cbn [recordErr_fuel]. unfold_m. rewrite E. cbn.
  destruct (pb_root pb) as [r|] eqn:Erb; cbn in *; simplify_eq.
  - rewrite Er. cbn. unfold with_err. by rewrite Hr.
  - unfold with_err. by rewrite Erb.
Qed.

(** Updating a root that keeps its place. *)
Lemma wf_update_root w r rb rb' :
  wf w → w_builders w !! r = Some rb → pb_root rb = None →
  pb_root rb' = None → pb_pkg rb' = pb_pkg rb → pb_ctx rb' = pb_ctx rb → pb_files rb' = pb_files rb →
  wf (with_builders w (<[r := rb']> (w_builders w))).
Proof.
  intros [Hb Hp] E Hr Hr' Hpk Hctx Hf. split; [|exact Hp]. intros b pb Eb. cbn in *.
  assert (Hup : ∀ q qb, w_builders w !! q = Some qb → ∃ qb', <[r := rb']> (w_builders w) !! q = Some qb' ∧
     pb_root qb' = pb_root qb ∧ pb_pkg qb' = pb_pkg qb ∧ pb_ctx qb' = pb_ctx qb ∧
     files_of qb' = files_of qb ∧ (pb_root qb ≠ None → qb' = qb)).
  { intros q qb Eq. destruct (decide (r = q)) as [<-|Hne].
    - rewrite lookup_insert_eq. exists rb'. unfold files_of. simplify_eq. rewrite Hf, Hr, Hr'. by split_and!.
    - rewrite lookup_insert_ne by done. exists qb. by split_and!. }
  assert (Hold : ∃ pb0, w_builders w !! b = Some pb0 ∧ pb_root pb0 = pb_root pb ∧ pb_pkg pb0 = pb_pkg pb ∧
     pb_ctx pb0 = pb_ctx pb ∧ files_of pb0 = files_of pb ∧ (pb_root pb ≠ None → pb0 = pb)).
  { destruct (decide (r = b)) as [<-|Hne].
    - rewrite lookup_insert_eq in Eb. simplify_eq. exists rb. unfold files_of. rewrite Hf. split_and!; congruence.
    - rewrite lookup_insert_ne in Eb by done. exists pb. by split_and!. }
  destruct Hold as (pb0 & E0 & H1 & H2 & H3 & H4 & H5). destruct (Hb b pb0 E0) as (Hok & Hlt & Hpkg).
  rewrite <- H2. split_and!; [|done|done]. unfold builder_ok in *. rewrite H1 in Hok.
  destruct (pb_root pb) as [r0|] eqn:Erp.
  - rewrite <- H5 by done. destruct Hok as (? & ? & rb0 & Hrb0 & ? & ? & ? & Hfl).
    destruct (Hup r0 rb0 Hrb0) as (rb1 & ? & ? & ? & ? & Hfl' & _).
    split_and!; [done|done|]. exists rb1. rewrite Hfl'. split_and!; congruence.
  - rewrite H4 in Hok. intros tag sub Hs. destruct (Hok tag sub Hs) as (? & spb & Hspb & Hsr & ?). split; [done|].
    destruct (Hup sub spb Hspb) as (spb' & ? & ? & ? & ? & ? & Heq). exists spb'.
    rewrite Heq in * by (rewrite Hsr; done). done.
Qed.

Lemma keeps_recordErr w b pb e : wf w → w_builders w !! b = Some pb → wf (recordErr b e w).2.
Proof.
  intros H E. destruct (root_is_root w b pb H E) as (rb & Er & Hr & _).
  rewrite (recordErr_eq w b pb rb e E Er Hr). by eapply wf_update_root.
Qed.

Definition sub_context (rb : PackageBuilder) (tag : string) (root : pointer) : PackageBuilder :=
  MkPackageBuilder (pb_ctx rb) (pb_pkg rb) (pb_defaultOrigin rb) [] tag None (Some root).

Definition with_file (rb : PackageBuilder) (tag : string) (sub : pointer) : PackageBuilder :=
  MkPackageBuilder (pb_ctx rb) (pb_pkg rb) (pb_defaultOrigin rb) (pb_errs rb) (pb_outputTag rb)
    (Some (<[tag := sub]> (files_of rb))) (pb_root rb).

Definition advance (w : world) : world :=
  MkWorld (Pos.succ (w_next w)) (w_targets w) (w_owners w) (w_slots w) (w_pkgs w) (w_builders w).

Lemma File_eq w b pb rb tag :
  tag ≠ "" → w_builders w !! b = Some pb → w_builders w !! root_of b pb = Some rb →
  PackageBuilder_File b tag w =
    match files_of rb !! tag with
    | Some sub => (sub, w)
    | None => (w_next w, with_builders (advance w)
                (<[root_of b pb := with_file rb tag (w_next w)]>
                   (<[w_next w := sub_context rb tag (root_of b pb)]> (w_builders w))))
    end.
Proof.
  intros Ht E Er. unfold PackageBuilder_File. rewrite (proj2 (String.eqb_neq tag "") Ht). unfold_m.
  rewrite E. cbn. fold (root_of b pb). rewrite Er. cbn. fold (files_of rb).
  by destruct (files_of rb !! tag).
Qed.

Lemma File_wf w b pb rb tag :
  wf w → tag ≠ "" → w_builders w !! b = Some pb → w_builders w !! root_of b pb = Some rb → pb_root rb = None →
  wf (PackageBuilder_File b tag w).2.
Proof.
  intros Hwf Ht E Er Hr. rewrite (File_eq w b pb rb tag Ht E Er).
  destruct (files_of rb !! tag) as [sub|] eqn:Ef; [done|]. set (r := root_of b pb) in *. clearbody r. clear E pb b.
  destruct Hwf as [Hb Hp]. destruct (Hb r rb Er) as (Hrok & Hrlt & Hrpkg).
  unfold builder_ok in Hrok. rewrite Hr in Hrok.
  split; cbn; [|intros p pkg Ep; specialize (Hp p pkg Ep); lia].
  intros b pb. destruct (decide (r = b)) as [<-|Hne].
  - rewrite lookup_insert_eq. intros [= <-]. split_and!; [|lia|done].
    unfold builder_ok, with_file. cbn. rewrite Hr. intros tag' sub. unfold files_of at 1. cbn.
    destruct (decide (tag = tag')) as [<-|Htag].
    + rewrite lookup_insert_eq. intros [= <-]. split; [done|]. exists (sub_context rb tag r).
      rewrite lookup_insert_ne by lia. by rewrite lookup_insert_eq.
    + rewrite lookup_insert_ne by done. intros Hs. destruct (Hrok tag' sub Hs) as (? & spb & Hspb & ? & ?).
      split; [done|]. exists spb. destruct (Hb sub spb Hspb) as (_ & Hlt & _).
      assert (r ≠ sub) by congruence. rewrite !lookup_insert_ne by (done || lia). done.
  - rewrite lookup_insert_ne by done. destruct (decide (w_next w = b)) as [<-|Hneq].
    + rewrite lookup_insert_eq. intros [= <-]. split_and!; [|lia|done].
      unfold builder_ok, sub_context. cbn. split_and!; [done|done|]. exists (with_file rb tag (w_next w)).
      rewrite lookup_insert_eq. unfold files_of, with_file. cbn. by rewrite lookup_insert_eq.
    + rewrite lookup_insert_ne by done. intros Eb. destruct (Hb b pb Eb) as (Hok & Hlt & Hpk).
      split_and!; [|lia|done]. unfold builder_ok in *. destruct (pb_root pb) as [r0|] eqn:Erb.
      * destruct Hok as (? & ? & rb0 & Erb0 & ? & ? & ? & Hfl). split_and!; [done|done|].
        destruct (decide (r = r0)) as [<-|Hr0].
        -- assert (rb0 = rb) as -> by congruence. exists (with_file rb tag (w_next w)). rewrite lookup_insert_eq. split_and!; try done.
           unfold files_of at 1, with_file. cbn. rewrite lookup_insert_ne; [done|]. intros ->. congruence.
        -- exists rb0. destruct (Hb r0 rb0 Erb0) as (_ & ? & _). rewrite !lookup_insert_ne by (done || lia). done.
      * intros tag' sub Hs. destruct (Hok tag' sub Hs) as (? & spb & Hspb & ? & ?). split; [done|].
        exists spb. destruct (Hb sub spb Hspb) as (_ & ? & _). assert (r ≠ sub) by congruence.
        rewrite !lookup_insert_ne by (done || lia). done.
Qed.

(** The builders after [File]: the root with the new entry, the sub-context,
    and the receiver, whose root is the same. *)
Lemma File_result w b pb rb tag sub w' :
  wf w → tag ≠ "" → w_builders w !! b = Some pb → w_builders w !! root_of b pb = Some rb → pb_root rb = None →
  pb_pkg rb = pb_pkg pb → pb_ctx rb = pb_ctx pb →
  PackageBuilder_File b tag w = (sub, w') →
  w_pkgs w' = w_pkgs w ∧
  ∃ rb' spb pb', w_builders w' !! root_of b pb = Some rb' ∧ pb_root rb' = None ∧ pb_errs rb' = pb_errs rb ∧
    pb_pkg rb' = pb_pkg pb ∧ files_of rb' !! tag = Some sub ∧
    w_builders w' !! sub = Some spb ∧ root_of sub spb = root_of b pb ∧ pb_outputTag spb = tag ∧
    pb_pkg spb = pb_pkg pb ∧ pb_ctx spb = pb_ctx pb ∧
    w_builders w' !! b = Some pb' ∧ root_of b pb' = root_of b pb ∧ pb_pkg pb' = pb_pkg pb.
Proof.
  intros Hwf Ht E Er Hr Hpk Hctx. rewrite (File_eq w b pb rb tag Ht E Er).
  destruct Hwf as [Hb Hp]. destruct (Hb _ _ Er) as (Hrok & Hrlt & _). unfold builder_ok in Hrok. rewrite Hr in Hrok.
  destruct (files_of rb !! tag) as [s|] eqn:Ef; intros [= <- <-].
  - split; [done|]. destruct (Hrok tag s Ef) as (_ & spb & Hs & Hsr & Hst). exists rb, spb, pb.
    destruct (Hb s spb Hs) as (Hsok & _). unfold builder_ok in Hsok. rewrite Hsr in Hsok.
    destruct Hsok as (_ & _ & rb1 & Hrb1 & _ & ? & ? & _). assert (rb1 = rb) as -> by congruence.
    unfold root_of at 2. rewrite Hsr. split_and!; try done; congruence.
  - split; [done|]. cbn. set (r := root_of b pb) in *.
    exists (with_file rb tag (w_next w)), (sub_context rb tag r).
    destruct (Hb b pb E) as (_ & Hlt & _).
    assert (Hr' : w_next w ≠ r) by lia.
    destruct (decide (r = b)) as [Hrb|Hrb].
    + exists (with_file rb tag (w_next w)). assert (pb = rb) as -> by congruence. clearbody r. subst r.
      rewrite lookup_insert_eq, lookup_insert_ne, lookup_insert_eq by done.
      unfold root_of, files_of, with_file. cbn. rewrite lookup_insert_eq, Hr. by split_and!.
    + exists pb. rewrite lookup_insert_eq. rewrite (lookup_insert_ne _ r (w_next w)), lookup_insert_eq by done.
      rewrite !lookup_insert_ne by (done || lia).
      unfold files_of, with_file, sub_context. cbn. rewrite lookup_insert_eq. by split_and!.
Qed.

(** The sub-context [PackageBuilder.File] returns for a tag carries that
    tag and shares everything else with its root: building through it is
    building the root's package with the root's errors, an error recorded
    through it surfaces at the builder it came from, asking again gives the
    same sub-context without touching the memory, and a nested [File] is the
    [File] of the outer builder.  The builders stay well formed. *)
Theorem sub_contexts_share_one_package w b pb tag :
  wf w → w_builders w !! b = Some pb → tag ≠ "" →
  let '(sub, w') := PackageBuilder_File b tag w in
  wf w' ∧
  (∃ spb, w_builders w' !! sub = Some spb ∧ pb_outputTag spb = tag ∧ pb_pkg spb = pb_pkg pb ∧ pb_ctx spb = pb_ctx pb) ∧
  Build sub w' = ((Build b w).1, w') ∧ Build b w' = ((Build b w).1, w') ∧
  (∀ e, (Build b (recordErr sub e w').2).1 = ((Build b w).1.1, (Build b w).1.2 ++ [e])) ∧
  PackageBuilder_File b tag w' = (sub, w') ∧
  (∀ tag', tag' ≠ "" → PackageBuilder_File sub tag' w' = PackageBuilder_File b tag' w').
Proof.
  intros Hwf E Ht. destruct (root_is_root w b pb Hwf E) as (rb & Er & Hr & Hpk & Hctx).
  destruct (PackageBuilder_File b tag w) as [sub w'] eqn:EF.
  destruct (File_result w b pb rb tag sub w' Hwf Ht E Er Hr Hpk Hctx EF)
    as (Hpkgs & rb' & spb & pb' & Er' & Hr' & Herr & Hpk' & Hfl & Es & Hsr & Hst & Hsp & Hsc & Eb' & Hbr & Hbp).
  destruct (proj1 Hwf b pb E) as (_ & _ & [pkg Ep]).
  rewrite (Build_eq w b pb rb pkg E Er Hr Hpk Ep).
  assert (Hwf' : wf w') by (pose proof (File_wf w b pb rb tag Hwf Ht E Er Hr) as H; by rewrite EF in H).
  rewrite <- Hpkgs in Ep.
  split_and!; [done|by exists spb| | | | |].
  - rewrite (Build_eq w' sub spb rb' pkg Es); [by rewrite Herr| | |congruence|congruence]; congruence.
  - rewrite (Build_eq w' b pb' rb' pkg Eb'); [by rewrite Herr| | |congruence|congruence]; congruence.
  - intros e. rewrite (recordErr_eq w' sub spb rb' e Es) by congruence. cbn [snd]. rewrite Hsr.
    destruct (decide (root_of b pb = b)) as [Hb|Hb].
    + rewrite Hb. assert (pb' = rb') as -> by congruence. assert (Hrr : root_of b rb' = b) by (unfold root_of; by rewrite Hr').
      rewrite (Build_eq _ b (with_err rb' e) (with_err rb' e) pkg); cbn; try done; try congruence.
      * by rewrite lookup_insert_eq.
      * unfold root_of, with_err. cbn. rewrite Hr'. cbn. by rewrite lookup_insert_eq.
    + rewrite (Build_eq _ b pb' (with_err rb' e) pkg); cbn; try done; try congruence.
      * by rewrite lookup_insert_ne.
      * rewrite Hbr. by rewrite lookup_insert_eq.
  - rewrite (File_eq w' b pb' rb' tag) by congruence. by rewrite Hfl.
  - intros tag' Ht'. rewrite (File_eq w' b pb' rb' tag'), (File_eq w' sub spb rb' tag') by congruence.
    by rewrite Hsr, Hbr.
Qed.

(** A new package builder is a root without sub-contexts. *)
Lemma Package_wf c name path w :
  wf w → let '(b, w') := Context_Package c name path w in
         wf w' ∧ ∃ pb, w_builders w' !! b = Some pb ∧ pb_root pb = None ∧ pb_files pb = None.
Proof.
  intros [Hb Hp]. unfold Context_Package. unfold_m. cbn. split; [|rewrite lookup_insert_eq; by eexists].
  split; cbn.
  - intros b pb. destruct (decide (Pos.succ (w_next w) = b)) as [<-|Hne].
    + rewrite lookup_insert_eq. intros [= <-]. split_and!; [by intros t s|lia|].
      cbn. rewrite lookup_insert_eq. by eexists.
    + rewrite lookup_insert_ne by done. intros E. destruct (Hb b pb E) as (Hok & Hlt & Hpk).
      split_and!; [|lia|].
      * unfold builder_ok in *. destruct (pb_root pb) as [r|].
        -- destruct Hok as (? & ? & rb & Erb & Hrest). split_and!; [done|done|]. exists rb.
           destruct (Hb r rb Erb) as (_ & ? & _). rewrite lookup_insert_ne by lia. done.
        -- intros tag sub Hs. destruct (Hok tag sub Hs) as (? & spb & Hspb & ?). split; [done|]. exists spb.
           destruct (Hb sub spb Hspb) as (_ & ? & _). rewrite lookup_insert_ne by lia. done.
      * destruct Hpk as [pkg Ep]. destruct (decide (w_next w = pb_pkg pb)) as [->|?];
          [rewrite lookup_insert_eq; by eexists|]. rewrite lookup_insert_ne by done. by eexists.
  - intros p pkg. destruct (decide (w_next w = p)) as [<-|?]; [intros _; lia|].
    rewrite lookup_insert_ne by done. intros E. specialize (Hp p pkg E). lia.
Qed.

Definition empty_world : world := MkWorld 1%positive ∅ ∅ ∅ ∅ ∅.

Lemma empty_world_wf : wf empty_world.
Proof. split; cbn; intros ? ?; rewrite lookup_empty; discriminate. Qed.

(** One package builder and nothing else. *)
Definition one_package : pointer * world := Context_Package (For "gen") "demo" "x/demo" empty_world.

Lemma one_package_wf : wf one_package.2.
Proof.
  pose proof (Package_wf (For "gen") "demo" "x/demo" empty_world empty_world_wf) as H.
  change (Context_Package (For "gen") "demo" "x/demo" empty_world) with one_package in H.
  destruct one_package as [b w]. apply H.
Qed.

Lemma sub_contexts_share_one_package_witness :
  let '(sub, w') := PackageBuilder_File one_package.1 "test" one_package.2 in
  Build sub w' = ((Build one_package.1 one_package.2).1, w') ∧ (w_builders w' !! sub) ≫= (λ p, Some (pb_outputTag p)) = Some "test".
Proof.
  pose proof (sub_contexts_share_one_package one_package.2 one_package.1
    (MkPackageBuilder (For "gen") 1%positive None [] "" None None) "test" one_package_wf eq_refl) as H.
  destruct (PackageBuilder_File one_package.1 "test" one_package.2) as [sub w'].
  destruct H as (_ & (spb & Es & Ht & _) & HB & _); [discriminate|].
  split; [exact HB|]. rewrite Es. cbn. by rewrite Ht.
Defined.

(** ** Owners

    What a generator writes in a callback is any sequence of calls of the
    builder it is handed ([struct_calls] and the like, below).  Each is quiet:
    it may allocate, leaves the owners of what existed alone and configures the
    node it was given. *)

Definition frame (w w' : world) : Prop :=
  (w_next w ≤ w_next w')%positive ∧
  ∀ p, (p < w_next w)%positive → w_owners w' !! p = w_owners w !! p.

Definition quiet {B} (id : B → pointer) (fn : B → M B) : Prop :=
  ∀ b w, (id b < w_next w)%positive → frame w (fn b w).2 ∧ id (fn b w).1 = id b.

Definition quiet_opt {B} (id : B → pointer) (fn : option (B → M B)) : Prop :=
  match fn with None => True | Some f => quiet id f end.

Lemma world_frame_refl w : frame w w.
Proof. split; [lia|done]. Qed.

Lemma world_frame_trans w1 w2 w3 : frame w1 w2 → frame w2 w3 → frame w1 w3.
Proof. intros [H1 H2] [H3 H4]. split; [lia|]. intros p Hp. rewrite H4 by lia. by apply H2. Qed.

Lemma frame_new w : frame w (new w).2.
Proof. split; cbn; [lia|done]. Qed.

(** The step every child constructor shares: allocate, set the owner, run the
    callback. *)
Lemma spawn_child {B} (id : B → pointer) (mk : pointer → B) (fn : option (B → M B)) o w :
  quiet_opt id fn → (∀ c, id (mk c) = c) →
  let '(cb, w') := (c ← new; set_owner c o;; call fn (mk c)) w in
  frame w w' ∧ (w_next w < w_next w')%positive ∧ id cb = w_next w ∧ w_owners w' !! w_next w = Some o.
Proof.
  intros Hq Hid. unfold_m. cbn. set (w1 := with_owners _ _).
  assert (H1 : w_owners w1 !! w_next w = Some o) by (cbn; by rewrite lookup_insert_eq).
  assert (H0 : frame w w1) by (split; cbn; [lia|intros p Hp; rewrite lookup_insert_ne by lia; done]).
  assert (Hn : w_next w1 = Pos.succ (w_next w)) by done. clearbody w1.
  destruct fn as [f|]; cbn.
  - specialize (Hq (mk (w_next w)) w1). rewrite Hid, Hn in Hq.
    destruct (f (mk (w_next w)) w1) as [cb w2]. destruct Hq as [Hf He]; [lia|]. cbn in *.
    split_and!; [by eapply world_frame_trans|destruct Hf; lia|done|]. destruct Hf as [_ Hf]. rewrite Hf; [done|lia].
  - unfold mret, M_ret. split_and!; [done|lia|apply Hid|done].
Qed.

Definition field_id (b : FieldBuilder) : pointer := emit.ref (emit.f_base (fb_node b)).
Definition embed_id (b : EmbedBuilder) : pointer := emit.ref (emit.em_base (emb_node b)).
Definition method_id (b : MethodBuilder) : pointer := emit.ref (emit.m_base (mb_node b)).
Definition param_id (b : ParamBuilder) : pointer := emit.ref (emit.pa_base (pab_node b)).
Definition typeparam_id (b : TypeParamBuilder) : pointer := emit.ref (emit.tp_base (tpb_node b)).
Definition struct_id (b : StructBuilder) : pointer := emit.ref (emit.s_base (sb_node b)).

(** The children of a struct, by pointer. *)
Definition struct_children (s : emit.Struct) : list pointer :=
  ((λ f, emit.ref (emit.f_base f)) <$> emit.s_Fields s) ++ ((λ e, emit.ref (emit.em_base e)) <$> emit.s_Embeds s) ++
  ((λ m, emit.ref (emit.m_base m)) <$> emit.s_Methods s) ++ ((λ t, emit.ref (emit.tp_base t)) <$> emit.s_TypeParams s).

Definition method_children (m : emit.Method) : list pointer :=
  ((λ p, emit.ref (emit.pa_base p)) <$> emit.m_Params m) ++ ((λ t, emit.ref (emit.tp_base t)) <$> emit.m_TypeParams m).

Definition owns (host : pointer) (children : list pointer) (w : world) : Prop :=
  NoDup children ∧ Forall (λ c, (c < w_next w)%positive ∧ w_owners w !! c = Some (OEmit host)) children.

Lemma owns_frame host cs w w' : owns host cs w → frame w w' → owns host cs w'.
Proof.
  intros [Hn Hf] [Hle Ho]. split; [done|]. eapply Forall_impl; [exact Hf|]. intros c [Hc He]. cbn.
  split; [lia|]. by rewrite Ho.
Qed.

(** A fresh child joins the owned ones, wherever it is inserted. *)
Lemma owns_add host cs cs' c w w' :
  owns host cs w → frame w w' → (c = w_next w)%positive → (c < w_next w')%positive →
  w_owners w' !! c = Some (OEmit host) → cs' ≡ₚ c :: cs → owns host cs' w'.
Proof.
  intros H Hfr -> Hc Ho Hp. destruct (owns_frame host cs w w' H Hfr) as [Hn Hf]. split.
  - rewrite Hp. constructor; [|done]. intros Hin. destruct H as [_ H]. rewrite Forall_forall in H.
    destruct (H _ Hin) as [Hlt _]. lia.
  - rewrite Hp. constructor; [|done]. by split.
Qed.

(** What a generator writes in the callbacks of the leaves: any sequence of
    the builder's calls. *)
Inductive field_calls : (FieldBuilder → M FieldBuilder) → Prop :=
| fc_done : field_calls mret
| fc_seq f g : field_calls f → field_calls g → field_calls (λ b, f b ≫= g)
| fc_pos p : field_calls (λ b, FieldBuilder_Pos b p)
| fc_origin n : field_calls (λ b, FieldBuilder_Origin b n)
| fc_docs ls : field_calls (λ b, FieldBuilder_Docs b ls)
| fc_directive d : field_calls (λ b, FieldBuilder_Directive b d)
| fc_tag s : field_calls (λ b, FieldBuilder_Tag b s)
| fc_comment s : field_calls (λ b, FieldBuilder_LineComment b s).

Inductive embed_calls : (EmbedBuilder → M EmbedBuilder) → Prop :=
| ec_done : embed_calls mret
| ec_seq f g : embed_calls f → embed_calls g → embed_calls (λ b, f b ≫= g)
| ec_pos p : embed_calls (λ b, EmbedBuilder_Pos b p)
| ec_docs ls : embed_calls (λ b, EmbedBuilder_Docs b ls)
| ec_directive d : embed_calls (λ b, EmbedBuilder_Directive b d).

Inductive param_calls : (ParamBuilder → M ParamBuilder) → Prop :=
| pc_done : param_calls mret
| pc_seq f g : param_calls f → param_calls g → param_calls (λ b, f b ≫= g)
| pc_pos p : param_calls (λ b, ParamBuilder_Pos b p)
| pc_docs ls : param_calls (λ b, ParamBuilder_Docs b ls)
| pc_directive d : param_calls (λ b, ParamBuilder_Directive b d)
| pc_variadic : param_calls (λ b, ParamBuilder_Variadic b).

Inductive typeparam_calls : (TypeParamBuilder → M TypeParamBuilder) → Prop :=
| tc_done : typeparam_calls mret
| tc_seq f g : typeparam_calls f → typeparam_calls g → typeparam_calls (λ b, f b ≫= g)
| tc_pos p : typeparam_calls (λ b, TypeParamBuilder_Pos b p)
| tc_docs ls : typeparam_calls (λ b, TypeParamBuilder_Docs b ls)
| tc_directive d : typeparam_calls (λ b, TypeParamBuilder_Directive b d)
| tc_constraint c : typeparam_calls (λ b, TypeParamBuilder_Constraint b c).

(** The callback that is given, if one is; of a variadic one, the first. *)
Definition given {B} (calls : (B → M B) → Prop) (fn : option (B → M B)) : Prop :=
  match fn with None => True | Some f => calls f end.
Definition first_fn {B} (fns : list (option (B → M B))) : option (B → M B) :=
  match fns with f :: _ => f | [] => None end.

(** The same for the callback of a method. *)
Inductive method_calls : (MethodBuilder → M MethodBuilder) → Prop :=
| mc_done : method_calls mret
| mc_seq f g : method_calls f → method_calls g → method_calls (λ b, f b ≫= g)
| mc_pos p : method_calls (λ b, MethodBuilder_Pos b p)
| mc_origin n : method_calls (λ b, MethodBuilder_Origin b n)
| mc_docs ls : method_calls (λ b, MethodBuilder_Docs b ls)
| mc_directive d : method_calls (λ b, MethodBuilder_Directive b d)
| mc_receiver n t : method_calls (λ b, MethodBuilder_Receiver b n t)
| mc_param n t fns : given param_calls (first_fn fns) → method_calls (λ b, MethodBuilder_Param b n t fns)
| mc_return t n : method_calls (λ b, MethodBuilder_Return b t n)
| mc_typeparam n c fns : given typeparam_calls (first_fn fns) → method_calls (λ b, MethodBuilder_TypeParam b n c fns)
| mc_body ss : method_calls (λ b, MethodBuilder_Body b ss).

(** And for the callback of a struct. *)
Inductive struct_calls : (StructBuilder → M StructBuilder) → Prop :=
| sc_done : struct_calls mret
| sc_seq f g : struct_calls f → struct_calls g → struct_calls (λ b, f b ≫= g)
| sc_target t : struct_calls (λ b, StructBuilder_Target b t)
| sc_pos p : struct_calls (λ b, StructBuilder_Pos b p)
| sc_origin n : struct_calls (λ b, StructBuilder_Origin b n)
| sc_docs ls : struct_calls (λ b, StructBuilder_Docs b ls)
| sc_directive d : struct_calls (λ b, StructBuilder_Directive b d)
| sc_field n t fn : given field_calls fn → struct_calls (λ b, StructBuilder_Field b n t fn)
| sc_embed t fn : given embed_calls fn → struct_calls (λ b, StructBuilder_Embed b t fn)
| sc_method n fn : given method_calls fn → struct_calls (λ b, StructBuilder_Method b n fn)
| sc_typeparam n c fns : given typeparam_calls (first_fn fns) → struct_calls (λ b, StructBuilder_TypeParam b n c fns).

Lemma quiet_seq {B} (id : B → pointer) f g : quiet id f → quiet id g → quiet id (λ b, f b ≫= g).
Proof.
  intros Hf Hg b w Hlt. unfold mbind, M_bind. specialize (Hf b w Hlt). destruct (f b w) as [b1 w1]. cbn in Hf.
  destruct Hf as [Hfr Hid]. specialize (Hg b1 w1). rewrite Hid in Hg. destruct Hg as [Hfr' Hid']; [destruct Hfr; lia|].
  split; [by eapply world_frame_trans|done].
Qed.

Ltac leaf_quiet := let b := fresh in let w := fresh in intros b w ?; split; [apply world_frame_refl|reflexivity].

Lemma field_calls_quiet f : field_calls f → quiet field_id f.
Proof. induction 1; [leaf_quiet|by apply quiet_seq|leaf_quiet..]. Qed.
Lemma embed_calls_quiet f : embed_calls f → quiet embed_id f.
Proof. induction 1; [leaf_quiet|by apply quiet_seq|leaf_quiet..]. Qed.
Lemma param_calls_quiet f : param_calls f → quiet param_id f.
Proof. induction 1; [leaf_quiet|by apply quiet_seq|leaf_quiet..]. Qed.
Lemma typeparam_calls_quiet f : typeparam_calls f → quiet typeparam_id f.
Proof. induction 1; [leaf_quiet|by apply quiet_seq|leaf_quiet..]. Qed.

Lemma given_quiet {B} (calls : (B → M B) → Prop) id fn :
  (∀ f, calls f → quiet id f) → given calls fn → quiet_opt id fn.
Proof. intros H. destruct fn; cbn; [apply H|done]. Qed.

(** A callback that is quiet and keeps its host the owner of its children. *)
Definition raises {B} (id : B → pointer) (children : B → list pointer) (f : B → M B) : Prop :=
  ∀ b w, (id b < w_next w)%positive →
    frame w (f b w).2 ∧ id (f b w).1 = id b ∧
    (owns (id b) (children b) w → owns (id b) (children (f b w).1) (f b w).2).

Lemma raises_quiet {B} (id : B → pointer) children f : raises id children f → quiet id f.
Proof. intros H b w Hlt. by destruct (H b w Hlt) as (? & ? & _). Qed.

Lemma raises_seq {B} (id : B → pointer) children f g :
  raises id children f → raises id children g → raises id children (λ b, f b ≫= g).
Proof.
  intros Hf Hg b w Hlt. unfold mbind, M_bind. specialize (Hf b w Hlt).
  destruct (f b w) as [b1 w1]. cbn in Hf. destruct Hf as (Hfr & Hid & Ho1).
  specialize (Hg b1 w1). rewrite Hid in Hg. destruct Hg as (Hfr' & Hid' & Ho2); [destruct Hfr; lia|].
  split_and!; [by eapply world_frame_trans|done|auto].
Qed.

(** A call that edits the host without touching its children. *)
Lemma raises_edit {B} (id : B → pointer) children (f : B → M B) :
  (∀ b w, frame w (f b w).2 ∧ id (f b w).1 = id b ∧ children (f b w).1 = children b) → raises id children f.
Proof.
  intros H b w Hlt. destruct (H b w) as (Hfr & Hid & Hc). rewrite Hc. split_and!; [done|done|].
  intros Ho. by eapply owns_frame.
Qed.

(** A call that adds one child, spawned as [spawn_child] describes. *)
Lemma raises_child {B C} (id : B → pointer) children (cid : C → pointer) (mk : B → pointer → C)
    (fn : option (C → M C)) (add : B → C → B) (f : B → M B) :
  quiet_opt cid fn → (∀ b c, cid (mk b c) = c) → (∀ b c, id (add b c) = id b) →
  (∀ b c, children (add b c) ≡ₚ cid c :: children b) →
  (∀ b w, f b w = let '(cb, w') := (c ← new; set_owner c (OEmit (id b));; call fn (mk b c)) w in (add b cb, w')) →
  raises id children f.
Proof.
  intros Hq Hmk Hadd Hch Hf b w Hlt. rewrite Hf.
  pose proof (spawn_child cid (mk b) fn (OEmit (id b)) w Hq (Hmk b)) as H.
  destruct ((c ← new; set_owner c (OEmit (id b));; call fn (mk b c)) w) as [cb w'].
  destruct H as (Hfr & Hn & Hc & Ho'). cbn. split_and!; [done|apply Hadd|].
  intros Ho. eapply owns_add; [done|done|done|by rewrite Hc|by rewrite Hc|apply Hch].
Qed.

Abbreviation raises_method := (raises method_id (λ b, method_children (mb_node b))).
Abbreviation raises_struct := (raises struct_id (λ b, struct_children (sb_node b))).

Ltac raise_edit := apply raises_edit; intros b w; split_and!; [|reflexivity|reflexivity];
  first [apply world_frame_refl | apply frame_new].

Lemma method_calls_raise f : method_calls f → raises_method f.
Proof.
  induction 1; try raise_edit.
  - by apply raises_seq.
  - eapply (raises_child method_id _ param_id (λ b c, MkParamBuilder (mb_ctx b) (emit.MkParam (ctor.zero_base c) n t false)) (first_fn fns)
      (λ b cb, with_m b (set_m_Params (emit.m_Params (mb_node b) ++ [pab_node cb]) (mb_node b))));
      [by eapply given_quiet, H; apply param_calls_quiet|done|done| |].
    + intros b c. unfold method_children. cbn. rewrite fmap_app, <- app_assoc. symmetry. apply Permutation_middle.
    + intros b w. unfold MethodBuilder_Param, first_call, first_fn. unfold_m. cbn. destruct fns; [done|]. by destruct (call _ _ _).
  - eapply (raises_child method_id _ typeparam_id (λ b k, MkTypeParamBuilder (mb_ctx b) (emit.MkTypeParam (ctor.zero_base k) n c)) (first_fn fns)
      (λ b cb, with_m b (set_m_TypeParams (emit.m_TypeParams (mb_node b) ++ [tpb_node cb]) (mb_node b))));
      [by eapply given_quiet, H; apply typeparam_calls_quiet|done|done| |].
    + intros b k. unfold method_children. cbn. rewrite fmap_app, app_assoc. symmetry. apply Permutation_cons_append.
    + intros b w. unfold MethodBuilder_TypeParam, first_call, first_fn. unfold_m. cbn. destruct fns; [done|]. by destruct (call _ _ _).
Qed.

Lemma snoc_perm {A} (l k : list A) x : (l ++ [x]) ++ k ≡ₚ x :: l ++ k.
Proof. rewrite <- app_assoc. symmetry. apply Permutation_middle. Qed.

Lemma under_perm {A} (a : list A) x l k : l ≡ₚ x :: k → a ++ l ≡ₚ x :: a ++ k.
Proof. intros ->. symmetry. apply Permutation_middle. Qed.

Ltac raise_child mk fn add :=
  eapply (raises_child _ _ _ mk fn add); [eassumption|done|done| |];
  [intros b0 c0; unfold struct_children; cbn; rewrite fmap_app; cbn;
   repeat first [apply snoc_perm | (symmetry; apply Permutation_cons_append) | apply under_perm]
  |intros b0 w0; unfold StructBuilder_Field, StructBuilder_Embed, StructBuilder_Method, StructBuilder_TypeParam, first_call, first_fn;
   unfold_m; cbn; unfold struct_id;
   first [by destruct (call _ _ _) | match goal with |- context [match ?fns with [] => _ | _ :: _ => _ end] => by destruct fns; [|destruct (call _ _ _)] end]].

Lemma struct_calls_raise f : struct_calls f → raises_struct f.
Proof.
  induction 1 as [|f g _ IHf _ IHg|t|p|n|ls|d|n t fn Hq|t fn Hq|n fn Hq|n c fns Hq]; try raise_edit.
  - by apply raises_seq.
  - apply raises_edit. intros b w. split_and!; [split; [apply Pos.le_refl|done]|reflexivity|reflexivity].
  - apply (given_quiet _ _ _ field_calls_quiet) in Hq.
    raise_child (λ b c, MkFieldBuilder (sb_ctx b) (emit.MkField (ctor.zero_base c) n t "" "")) fn
      (λ b cb, with_s b (set_s_Fields (emit.s_Fields (sb_node b) ++ [fb_node cb]) (sb_node b))).
  - apply (given_quiet _ _ _ embed_calls_quiet) in Hq.
    raise_child (λ b c, MkEmbedBuilder (sb_ctx b) (emit.MkEmbed (ctor.zero_base c) t)) fn
      (λ b cb, with_s b (set_s_Embeds (emit.s_Embeds (sb_node b) ++ [emb_node cb]) (sb_node b))).
  - apply (given_quiet _ _ _ (λ f Hf, raises_quiet _ _ f (method_calls_raise f Hf))) in Hq.
    raise_child (λ b c, MkMethodBuilder (sb_ctx b) (emit.MkMethod (ctor.zero_base c) n "" None "" [] [] [] [] (MkOwnerRef "" ""))) fn
      (λ b cb, with_s b (set_s_Methods (emit.s_Methods (sb_node b) ++ [mb_node cb]) (sb_node b))).
  - apply (given_quiet _ _ _ typeparam_calls_quiet) in Hq.
    raise_child (λ b k, MkTypeParamBuilder (sb_ctx b) (emit.MkTypeParam (ctor.zero_base k) n c)) (first_fn fns)
      (λ b cb, with_s b (set_s_TypeParams (emit.s_TypeParams (sb_node b) ++ [tpb_node cb]) (sb_node b))).
Qed.

(** C36: Whatever sequence of calls of the struct builder a generator makes in
    the callback of a struct, with any sequence of calls of the field, embed,
    method, parameter and type-parameter builders in the callbacks inside it,
    the struct that ends up last in the package is the one the call allocated,
    it is the owner of every field, embed, method and type parameter it holds,
    those are distinct objects, and the owners of nothing that existed before
    have changed.  Callbacks that do something else than call the builder they
    are handed are not covered. *)
Theorem built_structs_own_their_children b name f w :
  struct_calls f →
  let w' := (PackageBuilder_Struct b name (Some f) w).2 in
  (∃ s, last (emit.p_Structs (PackageBuilder_Node b w').1) = Some s ∧ emit.ref (emit.s_base s) = w_next w ∧
        owns (w_next w) (struct_children s) w') ∧
  frame w w'.
Proof.
  intros Hf. apply struct_calls_raise in Hf. unfold PackageBuilder_Struct, PackageBuilder_Node, edit_package, call. unfold_m. cbn.
  set (w1 := with_targets _ _). set (b0 := MkStructBuilder _ _).
  specialize (Hf b0 w1). destruct Hf as (Hfr & Hid & Ho).
  { unfold struct_id, b0, decl_base, applyBuilderDefaults. cbn.
    by destruct (pb_defaultOrigin _); cbn; lia. }
  assert (Hb0 : struct_id b0 = w_next w).
  { unfold struct_id, b0, decl_base, applyBuilderDefaults. cbn. by destruct (pb_defaultOrigin _). }
  assert (H01 : frame w w1) by (split; cbn; [lia|done]).
  assert (Hc : owns (struct_id b0) (struct_children (sb_node b0)) w1) by (split; constructor).
  rewrite Hb0 in *. specialize (Ho Hc). clearbody w1 b0. destruct (f b0 w1) as [b1 w2]. cbn in *.
  rewrite lookup_insert_eq. cbn. split; [|by eapply world_frame_trans].
  exists (sb_node b1). rewrite last_snoc. split_and!; [done|done|exact Ho].
Qed.

Definition user_struct : StructBuilder → M StructBuilder :=
  λ b, StructBuilder_Field b "ID" None (Some (λ f, FieldBuilder_Tag f "json")) ≫=
       (λ b, StructBuilder_Method b "Validate" (Some (λ m, MethodBuilder_Param m "strict" None [Some (λ p, ParamBuilder_Docs p ["x"])]))).

Lemma built_structs_own_their_children_witness :
  let w' := (PackageBuilder_Struct one_package.1 "User" (Some user_struct) one_package.2).2 in
  struct_children <$> last (emit.p_Structs (PackageBuilder_Node one_package.1 w').1) = Some [4; 5]%positive ∧
  w_owners w' !! 5%positive = Some (OEmit 3%positive).
Proof.
  intros w'. destruct (built_structs_own_their_children one_package.1 "User" user_struct one_package.2) as [(s & Hs & _ & Ho) _].
  { apply (sc_seq (λ b, StructBuilder_Field b _ _ _) (λ b, StructBuilder_Method b _ _)).
    - apply sc_field, fc_tag.
    - apply sc_method, mc_param, pc_docs. }
  fold w' in Hs, Ho. vm_compute in Hs. injection Hs as <-. split; [reflexivity|].
  destruct Ho as [_ Ho]. rewrite Forall_forall in Ho. apply (Ho 5%positive).
  refine (bool_decide_unpack _ _). vm_compute. exact I.
Defined.

(** A method of a struct keeps a zero target, also when the struct was moved
    to a file of its own. *)
Theorem struct_methods_have_no_target :
  let t := MkTarget "x/demo" "user.go" "demo" "" in
  let w' := (PackageBuilder_Struct one_package.1 "User"
               (Some (λ b, StructBuilder_Target b t ≫= user_struct)) one_package.2).2 in
  w_targets w' !! 3%positive = Some t ∧ w_targets w' !! 5%positive = None.
Proof. vm_compute. split; reflexivity. Qed.

(** ** Positional contributions *)

Lemma builder_first_id_spec id k ps j :
  slots.first_id id k ps = Some j →
  ∃ pre p post, ps = pre ++ p :: post ∧ j = (k + Z.of_nat (length pre))%Z ∧ slots.pr_ID p = id ∧
    Forall (λ q, slots.pr_ID q ≠ id) pre.
Proof.
  revert k. induction ps as [|p ps IH]; intros k; cbn; [done|].
  destruct (String.eqb_spec (slots.pr_ID p) id) as [E|E].
  - intros [= <-]. exists [], p, ps. cbn. split_and!; [done|lia|done|constructor].
  - intros H. destruct (IH _ H) as (pre & q & post & -> & -> & ? & ?). exists (p :: pre), q, post. cbn.
    split_and!; [done|lia|done|by constructor].
Qed.

(** Where a position puts an item among the items of a slot. *)
Definition placed (pos : InsertPos) (s : slots.Slot) (k : nat) : Prop :=
  match ip_kind pos with
  | KindAppend => k = length (slots.Items s)
  | KindPrepend => k = 0
  | KindAt => ip_index pos = Z.of_nat k
  | KindBefore => ∃ pre p post, slots.ProvenanceList s = pre ++ p :: post ∧ slots.pr_ID p = ip_anchor pos ∧
                    Forall (λ q, slots.pr_ID q ≠ ip_anchor pos) pre ∧ k = length pre
  | KindAfter => ∃ pre p post, slots.ProvenanceList s = pre ++ p :: post ∧ slots.pr_ID p = ip_anchor pos ∧
                    Forall (λ q, slots.pr_ID q ≠ ip_anchor pos) pre ∧ k = S (length pre)
  | KindOther _ => False
  end.

Definition pos_op (pos : InsertPos) (s : slots.Slot) (i : slots.item) (prov : slots.Provenance)
  : res slots.SlotError slots.Slot :=
  match ip_kind pos with
  | KindAppend => slots.Append s i prov
  | KindPrepend => slots.Prepend s i prov
  | KindAt => slots.InsertAt s (ip_index pos) i prov
  | KindBefore => slots.InsertBefore s (ip_anchor pos) i prov
  | KindAfter => slots.InsertAfter s (ip_anchor pos) i prov
  | KindOther _ => Err (slots.ErrSlotIndex "" 0 0)
  end.

Lemma InsertAt_ok s k i prov s' :
  slots.InsertAt s k i prov = Ok s' →
  (0 ≤ k)%Z ∧ Z.to_nat k ≤ length (slots.Items s) ∧
  slots.Items s' = take (Z.to_nat k) (slots.Items s) ++ i :: drop (Z.to_nat k) (slots.Items s) ∧
  slots.ProvenanceList s' = take (Z.to_nat k) (slots.ProvenanceList s) ++ prov :: drop (Z.to_nat k) (slots.ProvenanceList s).
Proof.
  unfold slots.InsertAt. destruct (_ || _)%bool eqn:Eb; [done|]. destruct (slots.checkKind s i); [done|].
  intros [= <-]. bool_props. split_and!; [lia|lia|done|done].
Qed.

Lemma pos_op_ok pos s i prov s' :
  length (slots.ProvenanceList s) = length (slots.Items s) → pos_op pos s i prov = Ok s' →
  ∃ k, placed pos s k ∧ k ≤ length (slots.Items s) ∧
    slots.Items s' = take k (slots.Items s) ++ i :: drop k (slots.Items s) ∧
    slots.ProvenanceList s' = take k (slots.ProvenanceList s) ++ prov :: drop k (slots.ProvenanceList s).
Proof.
  intros Hl. unfold pos_op, placed. destruct (ip_kind pos).
  - unfold slots.Append. destruct (slots.checkKind s i); [done|]. intros [= <-].
    exists (length (slots.Items s)). cbn. split_and!; [done|done| |]; by rewrite take_ge, drop_ge by lia.
  - intros H. apply InsertAt_ok in H as (_ & _ & H1 & H2). exists 0. split_and!; [done|lia|exact H1|exact H2].
  - intros H. apply InsertAt_ok in H as (H0 & H1 & H2). exists (Z.to_nat (ip_index pos)). split; [lia|done].
  - unfold slots.InsertBefore. destruct (String.eqb _ _); [done|]. destruct (slots.first_id _ _ _) as [j|] eqn:E; [|done].
    apply builder_first_id_spec in E as (pre & p & post & Ep & -> & Hid & Hpre). intros H. apply InsertAt_ok in H as (_ & H1 & H2).
    rewrite Z.add_0_l, Nat2Z.id in *. exists (length pre). split; [by exists pre, p, post|done].
  - unfold slots.InsertAfter. destruct (String.eqb _ _); [done|]. destruct (slots.first_id _ _ _) as [j|] eqn:E; [|done].
    apply builder_first_id_spec in E as (pre & p & post & Ep & -> & Hid & Hpre). intros H. apply InsertAt_ok in H as (_ & H1 & H2).
    replace (Z.to_nat (0 + Z.of_nat (length pre) + 1)) with (S (length pre)) in * by lia.
    exists (S (length pre)). split; [by exists pre, p, post|done].
  - done.
Qed.

Lemma applyInsert_eq host name get i prov pos w :
  applyInsert host name get i prov pos w =
    match ip_kind pos with
    | KindOther k => (Some (ErrUnknownInsertPos k), with_slots w (get (w_slots w)).2)
    | _ => on_slot host name get (λ s, pos_op pos s i prov) w
    end.
Proof. unfold applyInsert, pos_op. by destruct (ip_kind pos). Qed.

Lemma slot_lookup host name kind h :
  let key := (emit.ref (emit.node_base host), name) in
  (slots.slot host name kind h).2 !! key = Some (slots.slot host name kind h).1 ∧
  ∀ key', key' ≠ key → (slots.slot host name kind h).2 !! key' = h !! key'.
Proof.
  cbv zeta. unfold slots.slot. destruct (h !! _) eqn:E; cbn; [done|]. rewrite lookup_insert_eq.
  split; [done|]. intros key' Hk. by rewrite lookup_insert_ne.
Qed.

(** A positional contribution either fails, and then the items of its slot
    are as before, or lands exactly where it was asked for: at the end, at the
    start, at the given index, or right before or after the first item whose
    provenance carries the anchor's identifier, with its own provenance at the
    same index.  No other slot changes, the zero position is the plain append,
    and the positions the package constructs are all known. *)
Theorem contributions_land_where_asked host name kind i prov pos w :
  let key := (emit.ref (emit.node_base host), name) in
  let get := slots.slot host name kind in
  let s := (get (w_slots w)).1 in
  length (slots.ProvenanceList s) = length (slots.Items s) →
  let '(err, w') := applyInsert host name get i prov pos w in
  (∀ key', key' ≠ key → w_slots w' !! key' = w_slots w !! key') ∧
  match err with
  | Some e => w_slots w' !! key = Some s ∧
              (∀ z n a, e = ErrUnknownInsertPos z → pos ∉ [AtEnd; Prepend; At n; Before a; After a])
  | None =>
      ∃ s' k, w_slots w' !! key = Some s' ∧ placed pos s k ∧ k ≤ length (slots.Items s) ∧
        slots.Items s' = take k (slots.Items s) ++ i :: drop k (slots.Items s) ∧
        slots.ProvenanceList s' = take k (slots.ProvenanceList s) ++ prov :: drop k (slots.ProvenanceList s)
  end ∧
  applyInsert host name get i prov AtEnd w = append_to host name get i prov w.
Proof.
  cbv zeta. intros Hl. destruct (slot_lookup host name kind (w_slots w)) as [Hk Ho]. rewrite applyInsert_eq.
  set (key := (emit.ref (emit.node_base host), name)) in *.
  assert (Hgo : ∀ err w', on_slot host name (slots.slot host name kind) (λ s, pos_op pos s i prov) w = (err, w') →
    (∀ key', key' ≠ key → w_slots w' !! key' = w_slots w !! key') ∧
    match err with
    | Some e => w_slots w' !! key = Some (slots.slot host name kind (w_slots w)).1 ∧
                (∀ z n a, e = ErrUnknownInsertPos z → pos ∉ [AtEnd; Prepend; At n; Before a; After a])
    | None => ∃ s' k, w_slots w' !! key = Some s' ∧ placed pos (slots.slot host name kind (w_slots w)).1 k ∧
        k ≤ length (slots.Items (slots.slot host name kind (w_slots w)).1) ∧
        slots.Items s' = take k (slots.Items (slots.slot host name kind (w_slots w)).1) ++
          i :: drop k (slots.Items (slots.slot host name kind (w_slots w)).1) ∧
        slots.ProvenanceList s' = take k (slots.ProvenanceList (slots.slot host name kind (w_slots w)).1) ++
          prov :: drop k (slots.ProvenanceList (slots.slot host name kind (w_slots w)).1)
    end).
  { intros err w'. unfold on_slot. destruct (slots.slot host name kind (w_slots w)) as [s h]. cbn in *.
    destruct (pos_op pos s i prov) as [s'|e] eqn:Ep; intros [= <- <-]; cbn; [|by split].
    split; [intros key' Hne; rewrite lookup_insert_ne by done; by apply Ho|].
    destruct (pos_op_ok pos s i prov s' Hl Ep) as (k & ? & ? & ? & ?). exists s', k.
    rewrite lookup_insert_eq. by split_and!. }
  destruct (ip_kind pos) eqn:Ek;
    try (destruct (on_slot _ _ _ _ w) as [err w'] eqn:E; destruct (Hgo err w' eq_refl); split_and!; done).
  cbn. split_and!; [exact Ho|exact Hk| |done].
  intros z n a _ Hin. set_unfold in Hin. destruct_or?; subst; discriminate.
Qed.

Lemma contributions_land_where_asked_witness :
  let m n := emit.MkMethod (ctor.zero_base n) "M" "" None "" [] [] [] [] (MkOwnerRef "" "") in
  let host := emit.NStruct (emit.MkStruct (ctor.zero_base 9%positive) "User" "" [] [] [] []) in
  let w := (AppendMethod (For "audit") (Some host) (m 10%positive) ["log"] one_package.2).2 in
  let '(err, w') := applyInsert host slots.slotMethods (slots.slot host slots.slotMethods emit.KindMethod)
                      (slots.of_node (emit.NMethod (m 11%positive))) (Provenance (For "check") ["guard"]) (Before "log") w in
  err = None ∧ slots.pr_ID <$> (slots.ProvenanceList <$> w_slots w' !! (9%positive, slots.slotMethods)) ≫= head = Some "guard".
Proof.
  intros m host w.
  pose proof (contributions_land_where_asked host slots.slotMethods emit.KindMethod
    (slots.of_node (emit.NMethod (m 11%positive))) (Provenance (For "check") ["guard"]) (Before "log") w eq_refl) as H.
  cbv zeta in H. destruct (applyInsert _ _ _ _ _ _ w) as [err w'] eqn:E.
  assert (Herr : err = None) by (vm_compute in E; by injection E as <- _).
  subst err. destruct H as (_ & (s' & k & Hs & Hp & _ & _ & Hpr) & _). split; [done|].
  change (9%positive, slots.slotMethods) with (emit.ref (emit.node_base host), slots.slotMethods). rewrite Hs. cbn [fmap option_fmap option_map].
  cbn. rewrite Hpr. destruct Hp as (pre & p & post & Epl & _ & _ & ->).
  assert (pre = []) as ->; [|by rewrite Epl].
  change (slots.ProvenanceList _) with [Provenance (For "audit") ["log"]] in Epl.
  destruct pre as [|q pre]; [done|]. destruct pre; discriminate.
Defined.

(** ** The queue *)

(** What a queue of values leaves pending. *)
Definition queued (c : Context) (slot : string) (origin : Node) (id : string)
    (values : list (option emit.Node_)) : list eview.PendingOriginSlot :=
  omap (λ v, (λ x, eview.MkPending origin slot x (Provenance c [emit.node_Kind x +:+ "." +:+ id])) <$> v) values.

Definition view_pending (st : eview.estate) : list eview.PendingOriginSlot :=
  eview.pendingOriginSlots (eview.e_view st).

Lemma append_open st o slot x prov :
  slot ≠ "" → eview.frozen (eview.e_view st) = false →
  eview.AppendOriginSlot (Some o) slot (Some x) prov st =
    (eview.with_view st (eview.set_pendingOriginSlots (eview.e_view st)
       (view_pending st ++ [eview.MkPending o slot x prov])), None).
Proof. intros Hs Hf. unfold eview.AppendOriginSlot. rewrite (proj2 (String.eqb_neq _ _) Hs). by rewrite Hf. Qed.

Lemma queue_loop_cons c slot o id x values (st : eview.estate) :
  queue_loop c slot o id (Some x :: values) st =
    match eview.AppendOriginSlot (Some o) slot (Some x) (Provenance c [emit.node_Kind x +:+ "." +:+ id]) st with
    | (st, Some e) => (st, Some (ErrAppend (SetBy c) (emit.node_Kind x) id e))
    | (st, None) => queue_loop c slot o id values st
    end.
Proof. reflexivity. Qed.

Lemma queue_loop_open c slot o id values st :
  slot ≠ "" → eview.frozen (eview.e_view st) = false →
  queue_loop c slot o id values st =
    (eview.with_view st (eview.set_pendingOriginSlots (eview.e_view st) (view_pending st ++ queued c slot o id values)), None).
Proof.
  intros Hs. revert st. induction values as [|[x|] values IH]; intros st Hf.
  - cbn. rewrite app_nil_r. unfold view_pending. by destruct st as [[] ? ? ? ?].
  - rewrite queue_loop_cons, append_open, IH by done.
    unfold view_pending. cbn. by rewrite <- app_assoc.
  - exact (IH st Hf).
Qed.

(** Without a value to append a queue does nothing; with one, the refusal of
    the view ends it. *)
Lemma queue_loop_refused c slot o id values st e :
  (∀ x prov, eview.AppendOriginSlot (Some o) slot (Some x) prov st = (st, Some e)) →
  queue_loop c slot o id values st =
    (st, (λ x, ErrAppend (SetBy c) (emit.node_Kind x) id e) <$> head (omap (λ v, v) values)).
Proof.
  intros H. induction values as [|[x|] values IH]; [done| |exact IH].
  by rewrite queue_loop_cons, H.
Qed.

(** The store's own routine and the builder's queue agree. *)
Lemma queue_is_append_origin c slot o id values st :
  (queue_loop c slot o id values st).1 = (eview.AppendOriginAs (SetBy c) slot id (Some o) values st).1 ∧
  ((queue_loop c slot o id values st).2 = None ↔
   (eview.AppendOriginAs (SetBy c) slot id (Some o) values st).2 = None).
Proof.
  revert st. induction values as [|[x|] values IH]; intros st; [done| |exact (IH st)].
  rewrite queue_loop_cons. unfold eview.AppendOriginAs, eview.appendOrigin in *. cbn [for_op]. unfold and_then.
  change (slots.MkProvenance (SetBy c) zero_pos (emit.node_Kind x +:+ "." +:+ id)) with (Provenance c [emit.node_Kind x +:+ "." +:+ id]).
  destruct (eview.AppendOriginSlot _ _ _ _ st) as [st' [e|]]; [done|]. apply IH.
Qed.

(** Queueing values against an origin through the store's emit view.  On an
    open view every value that is not nil is left pending, in order, under the
    origin and slot, with a provenance that names the plugin and its kind and
    identifier; on a frozen view, or with an empty slot name, nothing changes
    and the first value is the one reported; without an origin nothing is
    queued at all.  In every case the view is left as the store's own
    [AppendOriginAs] would leave it, and both fail together. *)
Theorem queue_routes_by_origin c slot origin id values st :
  let r := QueueAs c slot origin id values st in
  match origin with
  | None => r = (st, Some (ErrNilOrigin (SetBy c) slot (Some id)))
  | Some o =>
      (slot ≠ "" ∧ eview.frozen (eview.e_view st) = false →
         view_pending r.1 = view_pending st ++ queued c slot o id values ∧ r.2 = None) ∧
      (slot = "" ∨ eview.frozen (eview.e_view st) = true →
         r.1 = st ∧ (r.2 = None ↔ Forall (λ v, v = None) values)) ∧
      r.1 = (eview.AppendOriginAs (SetBy c) slot id origin values st).1 ∧
      (r.2 = None ↔ (eview.AppendOriginAs (SetBy c) slot id origin values st).2 = None)
  end.
Proof.
  cbv zeta. destruct origin as [o|]; [|done]. unfold QueueAs. split_and!.
  - intros [Hs Hf]. rewrite queue_loop_open by done. done.
  - intros H. assert (∃ e, ∀ x prov, eview.AppendOriginSlot (Some o) slot (Some x) prov st = (st, Some e)) as [e He].
    { unfold eview.AppendOriginSlot. destruct (String.eqb_spec slot ""); [by eexists|].
      destruct H as [?|H]; [done|]. rewrite H. by eexists. }
    rewrite (queue_loop_refused _ _ _ _ _ _ e He). split; [done|]. cbn.
    induction values as [|[x|] values IH]; cbn; [done| |].
    + split; [done|]. intros HF. inversion HF. done.
    + rewrite IH. split; [by constructor|by inversion 1].
  - apply queue_is_append_origin.
  - apply queue_is_append_origin.
Qed.
