(* ===== verification/GoRefs.v ===== *)
(** * lang/golang: references and type expressions

    [src/lang/golang/refs.go], [refconv.go] and [typestring.go]: spelling a
    type as text for a reader, as a reference for the backend, and reading
    both notations authors use back into references.

    Constructors allocate, so what builds a reference runs in the memory of
    [EmitBuilder].  A reference that may be nil is an option; an embed of an
    anonymous struct without a type, which no frontend produces, is left out
    of the lifted list. *)

From S2P Require Import Prelude GoStrings Position Meta Directive Unicode FilePath Imports Manifest Node NodeQueries Emit EmitSlots EmitCtors GoIdents GoQuote GoTypes GoSignatures GoEmbed EmitBuilder.

Local Open Scope string_scope.
Local Open Scope nat_scope.
Local Open Scope list_scope.

(** ** [refconv.go] *)

Definition alloc {A} (f : pointer → A) : builder.M A := p ← builder.new; mret (f p).

Definition base_with_origin (r : TypeRef) (b : emit.BaseEmit) : emit.BaseEmit :=
  emit.MkBase (emit.ref b) (emit.SourcePos b) (emit.DocLines b) (emit.DirectiveList b) (Some (NTypeRef r))
    (emit.SetByName b) (emit.OutputTagName b).

Definition setOrigin (ref : emit.Ref) (r : TypeRef) : emit.Ref :=
  match ref with
  | emit.RBuiltinRef b n => emit.RBuiltinRef (base_with_origin r b) n
  | emit.RExternalRef b p n a => emit.RExternalRef (base_with_origin r b) p n a
  | emit.RCompositeRef b c => emit.RCompositeRef (base_with_origin r b) c
  | emit.RTypeRef b t a => emit.RTypeRef (base_with_origin r b) t a
  end.

(** [FromNode] and [liftFromNode] in one recursion: the origin is set on what
    the variant built. *)
Fixpoint FromNode_some (r : TypeRef) : builder.M emit.Ref :=
  let opt t := match t with
               | None => mret None
               | Some t => x ← FromNode_some t; mret (Some x)
               end in
  let refs := fix go l : builder.M (list emit.Ref) :=
                match l with
                | [] => mret []
                | t :: l => x ← FromNode_some t; xs ← go l; mret (x :: xs)
                end in
  let fields := fix go (l : list Field) : builder.M (list emit.AnonField) :=
                  match l with
                  | [] => mret []
                  | f :: l => t ← field_type f; fs ← go l; mret (emit.MkAnonField (f_Name f) t (f_Tag f) :: fs)
                  end in
  let embeds := fix go (l : list Embed) : builder.M (list emit.Ref) :=
                  match l with
                  | [] => mret []
                  | e :: l => t ← embed_type e; es ← go l; mret (option_list t ++ es)
                  end in
  x ← (match r with
       | MkTypeRef _ kind pkg name typeArgs elem len key value params returns flds _ embs =>
           if NodeQueries.IsPointer r then e ← opt elem; alloc (λ p, ctor.Ptr p e)
           else if NodeQueries.IsSlice r then e ← opt elem; alloc (λ p, ctor.SliceOf p e)
           else if NodeQueries.IsArray r then e ← opt elem; alloc (λ p, ctor.ArrayOf p e len)
           else if NodeQueries.IsMap r then k ← opt key; v ← opt value; alloc (λ p, ctor.MapOf p k v)
           else if NodeQueries.IsFunc r then ps ← refs params; rs ← refs returns; alloc (λ p, ctor.FuncOf p ps rs)
           else if NodeQueries.IsBuiltin r then alloc (λ p, ctor.Builtin p name)
           else if NodeQueries.IsTypeParam r then alloc (λ p, ctor.Builtin p name)
           else if NodeQueries.IsAnonStruct r then
             fs ← fields flds; es ← embeds embs; alloc (λ p, ctor.AnonStructOf p fs es)
           else if NodeQueries.IsAnonInterface r then alloc (λ p, ctor.Builtin p "any")
           else ts ← refs typeArgs; alloc (λ p, ctor.External p pkg name ts)
       end : builder.M emit.Ref);
  mret (setOrigin x r)
with field_type (f : Field) : builder.M (option emit.Ref) :=
  match f with
  | MkField _ _ None _ => mret None
  | MkField _ _ (Some t) _ => x ← FromNode_some t; mret (Some x)
  end
with embed_type (e : Embed) : builder.M (option emit.Ref) :=
  match e with
  | MkEmbed _ None _ => mret None
  | MkEmbed _ (Some t) _ => x ← FromNode_some t; mret (Some x)
  end.

Definition FromNode (r : option TypeRef) : builder.M (option emit.Ref) :=
  match r with None => mret None | Some r => x ← FromNode_some r; mret (Some x) end.

(** [c.IsAny] of the constraint is the absence of embedded types. *)
Definition ConstraintFromNode (c : option Node.Constraint) : builder.M (option emit.Constraint) :=
  match c with
  | None => mret None
  | Some c =>
      match c_Embedded c with
      | [] => mret None
      | l => refs ← (fix go l := match l with
                                 | [] => mret []
                                 | e :: l => x ← FromNode_some e; xs ← go l; mret (x :: xs)
                                 end) l;
             mret (Some (emit.MkConstraint (c_Raw c) refs))
      end
  end.

(** ** [refs.go] *)

Inductive SymbolError :=
| ErrBadSymbol (raw : string)
| ErrManyQualifiers (raw : string)
| ErrUnresolvedQualifier (qualifier file : string)
| ErrValue (value : string) (e : SymbolError)
| ErrLiteral (value : string) (e : LiteralError)
| ErrBadTypeExpr (expr : string) (why : string).

Definition QualifierOf (raw : string) : string * string :=
  match index_byte raw "." with
  | None => ("", raw)
  | Some i => (str_take i raw, str_drop (S i) raw)
  end.

Definition bindsAName (alias : string) : bool :=
  negb (String.eqb alias BlankAlias) && negb (String.eqb alias DotAlias).

Definition ImportForQualifier (f : option Node.File) (qualifier : string) : option Node.Import :=
  match f with
  | None => None
  | Some f =>
      if String.eqb qualifier "" then None
      else match List.find (λ i, String.eqb (im_Alias i) qualifier && bindsAName (im_Alias i)) (fi_Imports f) with
           | Some i => Some i
           | None => List.find (λ i, String.eqb (im_Alias i) "" && String.eqb (Import_LocalName i) qualifier) (fi_Imports f)
           end
  end.

Definition fileLabel (f : option Node.File) : string :=
  match f with
  | None => "no file"
  | Some f => if String.eqb (fi_Name f) "" then "an unnamed file" else fi_Name f
  end.

Definition RefFor (name srcPkg : string) : builder.M emit.Ref :=
  if IsPredeclared name || String.eqb srcPkg "" then alloc (λ p, ctor.Builtin p name)
  else alloc (λ p, ctor.External p srcPkg name []).

Definition ok {A} (m : builder.M A) : builder.M (res SymbolError A) := x ← m; mret (Ok x).

Definition RefForQualified (raw srcPkg : string) : builder.M (res SymbolError emit.Ref) :=
  if String.eqb raw "" then mret (Err (ErrBadSymbol ""))
  else match last_index_byte raw "." with
       | None => ok (RefFor raw srcPkg)
       | Some i =>
           if (i =? 0) || (i =? String.length raw - 1) then mret (Err (ErrBadSymbol raw))
           else ok (alloc (λ p, ctor.External p (str_take i raw) (str_drop (S i) raw) []))
       end.

Definition ResolveQualified (f : option Node.File) (raw srcPkg : string) : builder.M (res SymbolError emit.Ref) :=
  if String.eqb raw "" then mret (Err (ErrBadSymbol ""))
  else if has_prefix raw "." || has_suffix raw "." then mret (Err (ErrBadSymbol raw))
  else
    let '(qualifier, symbol) := QualifierOf raw in
    match index_byte symbol "." with
    | Some _ => mret (Err (ErrManyQualifiers raw))
    | None =>
        if String.eqb qualifier "" then ok (RefFor symbol srcPkg)
        else match ImportForQualifier f qualifier with
             | None => mret (Err (ErrUnresolvedQualifier qualifier (fileLabel f)))
             | Some imp => ok (alloc (λ p, ctor.External p (im_Path imp) symbol []))
             end
    end.

Definition FileOf (pkg : option Node.Package) (n : option Node) : option Node.File :=
  match pkg, n with
  | Some pkg, Some n =>
      let name := Position.File (SourcePos (node_base n)) in
      if String.eqb name "" then None else FileByName pkg (Base name)
  | _, _ => None
  end.

Fixpoint lift_all (l : list (option TypeRef)) : builder.M (list (option emit.Ref)) :=
  match l with
  | [] => mret []
  | t :: l => x ← FromNode t; xs ← lift_all l; mret (x :: xs)
  end.

Definition RefsOf (types : list TypeRef) : builder.M (list (option emit.Ref)) := lift_all (Some <$> types).
Definition ParamRefs (params : list Node.Param) : builder.M (list (option emit.Ref)) := lift_all (Node.pa_Type <$> params).
Definition ReturnRefs (returns : list Node.Return) : builder.M (list (option emit.Ref)) := lift_all (Node.re_Type <$> returns).

(** Up the [Owner] fields of methods and fields; [None] is a cycle of owners,
    on which the recursion does not end. *)
Fixpoint PkgPathOf_fuel (owner_of : gmap pointer Node) (fuel : nat) (n : option Node) : option string :=
  match fuel with
  | 0 => None
  | S fuel =>
      match n with
      | Some (NPackage v) => Some (p_Path v)
      | Some (NStruct v) => Some (s_Package v)
      | Some (NInterface v) => Some (i_Package v)
      | Some (NFunction v) => Some (fn_Package v)
      | Some (NAlias v) => Some (a_Package v)
      | Some (NEnum v) => Some (e_Package v)
      | Some (NVariable v) => Some (v_Package v)
      | Some (NConstant v) => Some (k_Package v)
      | Some (NTypeRef v) => Some (Node.t_Package v)
      | Some (NMethod v) => PkgPathOf_fuel owner_of fuel (owner_of !! ref (m_base v))
      | Some (NField v) => PkgPathOf_fuel owner_of fuel (owner_of !! ref (f_base v))
      | _ => Some ""
      end
  end.

Definition PkgPathOf (owner_of : gmap pointer Node) (n : option Node) : option string :=
  PkgPathOf_fuel owner_of (S (S (size owner_of))) n.

Definition SubjectRef (owner_of : gmap pointer Node) (origin : option Node) (name : string)
  : option (builder.M emit.Ref) := RefFor name <$> PkgPathOf owner_of origin.

Definition namesSymbol (value : string) : bool :=
  match value with
  | "" => false
  | String c _ =>
      negb (Ascii.eqb c "034" || Ascii.eqb c "`") &&
      negb (byte_in "0" "9" c) && negb (Ascii.eqb c "-") && negb (Ascii.eqb c "+") && negb (Ascii.eqb c ".")
  end.

Definition index_in (s : string) (c : ascii) : bool :=
  match index_byte s c with Some _ => true | None => false end.

Definition wrap_value {A} (value : string) (r : res SymbolError A) : res SymbolError A :=
  match r with Ok x => Ok x | Err e => Err (ErrValue value e) end.

Definition resolveValueRef (f : option Node.File) (value : string) : builder.M (res SymbolError emit.Ref) :=
  let path_form := match last_index_byte value "." with
                   | Some dot => (0 <? dot) && index_in (str_take dot value) "/"
                   | None => false
                   end in
  if path_form then r ← RefForQualified value ""; mret (wrap_value value r)
  else r ← ResolveQualified f value "";
       match r with
       | Err (ErrUnresolvedQualifier _ _) => RefForQualified value ""
       | r => mret (wrap_value value r)
       end.

Definition ResolveValue (f : option Node.File) (value : string) : builder.M (res SymbolError (string * string)) :=
  match IsWellFormedLiteral value with
  | Some malformed => mret (Err (ErrLiteral value malformed))
  | None =>
      if negb (namesSymbol value) then mret (Ok ("", value))
      else r ← resolveValueRef f value;
           mret (match r with
                 | Err e => Err e
                 | Ok (emit.RExternalRef _ pkg name _) => Ok (pkg, name)
                 | Ok _ => Ok ("", value)
                 end)
  end.

(** ** [typestring.go] *)

Definition maxTypeDepth : nat := 16.

Section TypeText.
  Context (h : metas).

(** The helpers take the renderer at the depth below theirs. *)
Definition namedString (rec : option TypeRef → string) (full : bool) (t : TypeRef) : string :=
  let name := if String.eqb (Node.t_Package t) "" then t_Name t
              else if full then Node.t_Package t +:+ "." +:+ t_Name t
              else PackageName (Node.t_Package t) +:+ "." +:+ t_Name t in
  match t_TypeArgs t with
  | [] => name
  | args => name +:+ "[" +:+ str_join ", " ((λ a, rec (Some a)) <$> args) +:+ "]"
  end.

Definition funcString (rec : option TypeRef → string) (t : TypeRef) : string :=
  let out := "func(" +:+ str_join ", " ((λ p, rec (Some p)) <$> t_FuncParams t) +:+ ")" in
  match t_FuncReturns t with
  | [] => out
  | [r] => out +:+ " " +:+ rec (Some r)
  | rs => out +:+ " (" +:+ str_join ", " ((λ r, rec (Some r)) <$> rs) +:+ ")"
  end.

Definition chanString (rec : option TypeRef → string) (t : TypeRef) : string :=
  let elem := match ChanElem h (Some t) with Some e => rec (Some e) | None => "" end in
  match ChanDir h (Some t) with
  | ChanSend => "chan<- " +:+ elem
  | ChanRecv => "<-chan " +:+ elem
  | _ => "chan " +:+ elem
  end.

Fixpoint typeText (depth : nat) (full : bool) (t : option TypeRef) : string :=
  match depth, t with
  | 0, _ | _, None => ""
  | S depth, Some t =>
      let rec := typeText depth full in
      if IsChannel h (Some t) then chanString rec t
      else if NodeQueries.IsPointer t then "*" +:+ rec (t_Elem t)
      else if NodeQueries.IsSlice t then "[]" +:+ rec (t_Elem t)
      else if NodeQueries.IsArray t then "[" +:+ itoa (t_ArrayLen t) +:+ "]" +:+ rec (t_Elem t)
      else if NodeQueries.IsMap t then "map[" +:+ rec (t_MapKey t) +:+ "]" +:+ rec (t_MapValue t)
      else if NodeQueries.IsFunc t then funcString rec t
      else if NodeQueries.IsAnonStruct t then "struct{…}"
      else if NodeQueries.IsAnonInterface t then
        match t_Methods t, t_Embeds t with [], [] => typeAny | _, _ => "interface{…}" end
      else if NodeQueries.IsTypeParam t then t_Name t
      else namedString rec full t
  end.

Definition TypeString (t : option TypeRef) : string := typeText maxTypeDepth false t.
Definition TypeStringQualified (t : option TypeRef) : string := typeText maxTypeDepth true t.
End TypeText.

Definition plain_byte (c : ascii) : bool :=
  byte_in "a" "z" c || byte_in "A" "Z" c || byte_in "0" "9" c ||
  Ascii.eqb c "." || Ascii.eqb c "/" || Ascii.eqb c "_" || Ascii.eqb c "-" || Ascii.eqb c "~".

(** A byte of a rune outside ASCII is outside the permitted set as the rune
    is. *)
Definition isPlainTypeName (expr : string) : bool :=
  match expr with
  | "" => false
  | String c _ => str_all plain_byte expr && negb (byte_in "0" "9" c)
  end.

(** The loop of [parseMap]: the offset of the bracket that closes the key. *)
Fixpoint closing (level : nat) (s : string) : option nat :=
  match s with
  | "" => None
  | String c s =>
      if Ascii.eqb c "[" then S <$> closing (S level) s
      else if Ascii.eqb c "]" then
        match level with
        | 0 | 1 => Some 0
        | S level => S <$> closing level s
        end
      else S <$> closing level s
  end.

Definition bad (expr why : string) : builder.M (res SymbolError emit.Ref) := mret (Err (ErrBadTypeExpr expr why)).

Fixpoint parseTypeRef (depth : nat) (srcPkg expr : string) : builder.M (res SymbolError emit.Ref) :=
  match depth with
  | 0 => bad expr "nests too deeply"
  | S depth =>
      let rec e := parseTypeRef depth srcPkg (trim_space e) in
      let under (mk : pointer → option emit.Ref → emit.Ref) e :=
        r ← rec e;
        match r with
        | Err x => mret (Err x)
        | Ok elem => ok (alloc (λ p, mk p (Some elem)))
        end in
      if String.eqb expr "" then bad "" "empty"
      else if has_prefix expr "*" then under ctor.Ptr (str_drop 1 expr)
      else if has_prefix expr "[]" then under ctor.SliceOf (str_drop 2 expr)
      else if has_prefix expr "map[" then
        let rest := str_drop 4 expr in
        match closing 1 rest with
        | None => bad expr "has no closing bracket"
        | Some end_ =>
            k ← rec (str_take end_ rest);
            match k with
            | Err x => mret (Err x)
            | Ok key =>
                v ← rec (str_drop (S end_) rest);
                match v with
                | Err x => mret (Err x)
                | Ok value => ok (alloc (λ p, ctor.MapOf p (Some key) (Some value)))
                end
            end
        end
      else if has_prefix expr "[" then bad expr "array types are not parsed"
      else if negb (isPlainTypeName expr) then bad expr "declare a named type"
      else RefForQualified expr srcPkg
  end.

Definition ParseTypeRef (expr srcPkg : string) : builder.M (res SymbolError emit.Ref) :=
  parseTypeRef maxTypeDepth srcPkg (trim_space expr).

(** * lang/golang: laws of references and type expressions *)

(** ** The text of a type expression *)

(** The bytes of the expressions [ParseTypeRef] reads. *)
Definition type_byte (c : ascii) : bool :=
  plain_byte c || Ascii.eqb c "*" || Ascii.eqb c "[" || Ascii.eqb c "]".

Lemma no_space_rune : Forall (λ p, str_all type_byte p = false) space_runes.
Proof. repeat constructor. Qed.

Lemma filter_nil_of {A} (P : A → Prop) `{∀ x, Decision (P x)} (l : list A) :
  (∀ x, x ∈ l → ¬ P x) → filter P l = [].
Proof.
  intros Hl. destruct (filter P l) as [|x k] eqn:E; [done|]. exfalso.
  assert (x ∈ filter P l) as Hx by (rewrite E; left). apply list_elem_of_filter in Hx as [HP Hx]. by apply (Hl x).
Qed.

Lemma trim_space_id s : str_all type_byte s = true → trim_space s = s.
Proof.
  intros Hs. pose proof no_space_rune as Hsp. rewrite Forall_forall in Hsp.
  assert (Hl : ∀ n, trim_space_left n s = s).
  { intros [|n]; [done|]. cbn [trim_space_left]. rewrite filter_nil_of; [done|]. intros p Hp Hpre.
    apply has_prefix_spec in Hpre as [t ->]. rewrite str_all_append, (Hsp p Hp) in Hs. done. }
  assert (Hr : ∀ n, trim_space_right n s = s).
  { intros [|n]; [done|]. cbn [trim_space_right]. rewrite filter_nil_of; [done|]. intros p Hp Hsuf.
    apply has_suffix_spec in Hsuf as [t ->]. rewrite str_all_append, (Hsp p Hp), andb_false_r in Hs. done. }
  unfold trim_space. by rewrite Hl, Hr.
Qed.

(** ** Types an expression can spell

    [spelled h n t]: pointers, slices and maps over named types without
    arguments, nested less than [n] deep, none of them stamped as a channel. *)
Inductive spelled (h : metas) : nat → TypeRef → Prop :=
| sp_ptr n t e : IsChannel h (Some t) = false → t_TypeKind t = TypeRefPointer → t_Elem t = Some e →
    spelled h n e → spelled h (S n) t
| sp_slice n t e : IsChannel h (Some t) = false → t_TypeKind t = TypeRefSlice → t_Elem t = Some e →
    spelled h n e → spelled h (S n) t
| sp_map n t k v : IsChannel h (Some t) = false → t_TypeKind t = TypeRefMap →
    t_MapKey t = Some k → t_MapValue t = Some v → spelled h n k → spelled h n v → spelled h (S n) t
| sp_builtin n t : IsChannel h (Some t) = false → t_TypeKind t = TypeRefNamed → t_TypeArgs t = [] →
    Node.t_Package t = "" → IsPredeclared (t_Name t) = true → spelled h (S n) t
| sp_named n t : IsChannel h (Some t) = false → t_TypeKind t = TypeRefNamed → t_TypeArgs t = [] →
    Node.t_Package t ≠ "" → t_Name t ≠ "" → isPlainTypeName (Node.t_Package t) = true →
    str_all plain_byte (t_Name t) = true → last_index_byte (t_Name t) "." = None → spelled h (S n) t.

(** References alike up to identity and provenance. *)
Definition ptr_shape (e : emit.Ref) : emit.CompositeRef :=
  emit.MkCompositeRef emit.ShapePointer (Some e) 0%Z None None [] [] [] [] [].
Definition slice_shape (e : emit.Ref) : emit.CompositeRef :=
  emit.MkCompositeRef emit.ShapeSlice (Some e) 0%Z None None [] [] [] [] [].
Definition map_shape (k v : emit.Ref) : emit.CompositeRef :=
  emit.MkCompositeRef emit.ShapeMap None 0%Z (Some k) (Some v) [] [] [] [] [].

Inductive same_ref : emit.Ref → emit.Ref → Prop :=
| sr_builtin b b' n : same_ref (emit.RBuiltinRef b n) (emit.RBuiltinRef b' n)
| sr_external b b' p n : same_ref (emit.RExternalRef b p n []) (emit.RExternalRef b' p n [])
| sr_ptr b b' e e' : same_ref e e' → same_ref (emit.RCompositeRef b (ptr_shape e)) (emit.RCompositeRef b' (ptr_shape e'))
| sr_slice b b' e e' : same_ref e e' → same_ref (emit.RCompositeRef b (slice_shape e)) (emit.RCompositeRef b' (slice_shape e'))
| sr_map b b' k k' v v' : same_ref k k' → same_ref v v' →
    same_ref (emit.RCompositeRef b (map_shape k v)) (emit.RCompositeRef b' (map_shape k' v')).

(** The text by cases. *)
Lemma text_ptr h d t e : IsChannel h (Some t) = false → t_TypeKind t = TypeRefPointer → t_Elem t = Some e →
  typeText h (S d) true (Some t) = String "*" (typeText h d true (Some e)).
Proof. intros Hc Hk He. cbn [typeText]. rewrite Hc. unfold NodeQueries.IsPointer. rewrite Hk, He. done. Qed.

Lemma text_slice h d t e : IsChannel h (Some t) = false → t_TypeKind t = TypeRefSlice → t_Elem t = Some e →
  typeText h (S d) true (Some t) = "[]" +:+ typeText h d true (Some e).
Proof. intros Hc Hk He. cbn [typeText]. rewrite Hc. unfold NodeQueries.IsPointer, NodeQueries.IsSlice. rewrite Hk, He. done. Qed.

Lemma text_map h d t k v : IsChannel h (Some t) = false → t_TypeKind t = TypeRefMap → t_MapKey t = Some k → t_MapValue t = Some v →
  typeText h (S d) true (Some t) = "map[" +:+ typeText h d true (Some k) +:+ "]" +:+ typeText h d true (Some v).
Proof.
  intros Hc Hk Hek Hev. cbn [typeText]. rewrite Hc.
  unfold NodeQueries.IsPointer, NodeQueries.IsSlice, NodeQueries.IsArray, NodeQueries.IsMap. rewrite Hk, Hek, Hev. done.
Qed.

Lemma text_named h d t : IsChannel h (Some t) = false → t_TypeKind t = TypeRefNamed → t_TypeArgs t = [] →
  typeText h (S d) true (Some t) = if String.eqb (Node.t_Package t) "" then t_Name t else Node.t_Package t +:+ "." +:+ t_Name t.
Proof.
  intros Hc Hk Ha. cbn [typeText]. rewrite Hc.
  unfold NodeQueries.IsPointer, NodeQueries.IsSlice, NodeQueries.IsArray, NodeQueries.IsMap, NodeQueries.IsFunc,
    NodeQueries.IsAnonStruct, NodeQueries.IsAnonInterface, NodeQueries.IsTypeParam. rewrite Hk.
  cbn. unfold namedString. by rewrite Ha.
Qed.

Lemma plain_type_byte s : str_all plain_byte s = true → str_all type_byte s = true.
Proof.
  induction s as [|c s IH]; [done|]. cbn [str_all]. intros [Hc Hs]%andb_true_iff. rewrite (IH Hs). unfold type_byte. by rewrite Hc.
Qed.

Lemma predeclared_plain : Forall (λ s, isPlainTypeName s = true ∧ last_index_byte s "." = None) predeclared.
Proof. repeat (constructor; [by vm_compute|]). constructor. Qed.

Lemma plain_name_bytes s : isPlainTypeName s = true → str_all plain_byte s = true ∧ s ≠ "".
Proof. destruct s as [|c s]; [done|]. unfold isPlainTypeName. by intros [? _]%andb_true_iff. Qed.

Lemma text_bytes h n t d : spelled h n t → n ≤ d → str_all type_byte (typeText h d true (Some t)) = true.
Proof.
  intros Hs. revert d. induction Hs; intros [|d] Hd; try lia.
  - rewrite (text_ptr h d t e) by done. cbn [str_all]. apply IHHs. lia.
  - rewrite (text_slice h d t e) by done. cbn [str_all String.append]. apply IHHs. lia.
  - rewrite (text_map h d t k v), !str_all_append by done. rewrite IHHs1, IHHs2 by lia. done.
  - rewrite text_named by done. rewrite H2. cbn [String.eqb].
    pose proof predeclared_plain as Hp. rewrite Forall_forall in Hp.
    apply bool_decide_eq_true in H3. destruct (Hp _ H3) as [Hpl _]. by apply plain_type_byte, plain_name_bytes.
  - rewrite text_named by done. rewrite (proj2 (String.eqb_neq _ _) H2). rewrite !str_all_append.
    rewrite (plain_type_byte (Node.t_Package t)) by by apply plain_name_bytes.
    rewrite (plain_type_byte (t_Name t)) by done. done.
Qed.

(** The brackets of a spelled type are balanced. *)
Lemma plain_no_bracket c : plain_byte c = true → Ascii.eqb c "[" = false ∧ Ascii.eqb c "]" = false.
Proof. intros H. split; destruct (Ascii.eqb_spec c "["), (Ascii.eqb_spec c "]"); try done; subst; vm_compute in H; discriminate. Qed.

Lemma closing_plain l s u : str_all plain_byte s = true →
  closing l (s +:+ u) = (λ k, String.length s + k) <$> closing l u.
Proof.
  intros Hs. induction s as [|c s IH]; cbn [String.append String.length].
  - by destruct (closing l u).
  - cbn [str_all] in Hs. apply andb_true_iff in Hs as [Hc Hs]. destruct (plain_no_bracket c Hc) as [H1 H2].
    cbn [closing]. rewrite H1, H2, (IH Hs). by destruct (closing l u).
Qed.

Lemma closing_open l u : closing l (String "[" u) = S <$> closing (S l) u.
Proof. done. Qed.
Lemma closing_star l u : closing l (String "*" u) = S <$> closing l u.
Proof. done. Qed.
Lemma closing_close l u : closing (S (S l)) (String "]" u) = S <$> closing (S l) u.
Proof. done. Qed.

Lemma closing_text h n t d l u : spelled h n t → n ≤ d →
  closing (S l) (typeText h d true (Some t) +:+ u) =
    (λ k, String.length (typeText h d true (Some t)) + k) <$> closing (S l) u.
Proof.
  intros Hs. revert d l u. induction Hs; intros [|d] l u Hd; try lia.
  - rewrite (text_ptr h d t e) by done. cbn [String.append String.length].
    rewrite closing_star, IHHs by lia. by destruct (closing (S l) u).
  - rewrite (text_slice h d t e) by done. cbn [String.append String.length].
    rewrite closing_open, closing_close, IHHs by lia. by destruct (closing (S l) u).
  - rewrite (text_map h d t k v) by done. rewrite <- !append_assoc.
    change ("map[" +:+ ?s) with ("map" +:+ String "[" s). rewrite closing_plain by done.
    rewrite closing_open, IHHs1 by lia. change ("]" +:+ ?s) with (String "]" s). rewrite closing_close, IHHs2 by lia.
    destruct (closing (S l) u) as [k0|]; [|done]. cbn. f_equal. rewrite !append_length. cbn. lia.
  - rewrite text_named by done. rewrite H2. cbn [String.eqb].
    pose proof predeclared_plain as Hp. rewrite Forall_forall in Hp.
    apply bool_decide_eq_true in H3. destruct (Hp _ H3) as [Hpl _]. apply closing_plain. by apply plain_name_bytes.
  - rewrite text_named by done. rewrite (proj2 (String.eqb_neq _ _) H2). apply closing_plain.
    rewrite !str_all_append. destruct (plain_name_bytes _ H4) as [-> _]. rewrite H5. done.
Qed.

(** ** Lifting by cases *)

Ltac decide_kinds :=
  unfold NodeQueries.IsPointer, NodeQueries.IsSlice, NodeQueries.IsArray, NodeQueries.IsMap, NodeQueries.IsFunc,
    NodeQueries.IsBuiltin, NodeQueries.IsAnonStruct, NodeQueries.IsAnonInterface, NodeQueries.IsTypeParam; cbn [t_TypeKind];
  repeat match goal with
  | |- context [bool_decide ?P] => first [change (bool_decide P) with true | change (bool_decide P) with false]
  end.

Ltac unfold_lift :=
  cbn [FromNode_some]; decide_kinds; unfold alloc, builder.new, mbind, builder.M_bind, mret, builder.M_ret; cbn.

Lemma lift_ptr t e w : t_TypeKind t = TypeRefPointer → t_Elem t = Some e →
  ∃ b w', FromNode_some t w = (emit.RCompositeRef b (ptr_shape (FromNode_some e w).1), w').
Proof. destruct t. cbn. intros -> ->. unfold_lift. destruct (FromNode_some e w). cbn. by do 2 eexists. Qed.

Lemma lift_slice t e w : t_TypeKind t = TypeRefSlice → t_Elem t = Some e →
  ∃ b w', FromNode_some t w = (emit.RCompositeRef b (slice_shape (FromNode_some e w).1), w').
Proof. destruct t. cbn. intros -> ->. unfold_lift. destruct (FromNode_some e w). cbn. by do 2 eexists. Qed.

Lemma lift_map t k v w : t_TypeKind t = TypeRefMap → t_MapKey t = Some k → t_MapValue t = Some v →
  ∃ b w' w1, FromNode_some t w = (emit.RCompositeRef b (map_shape (FromNode_some k w).1 (FromNode_some v w1).1), w').
Proof.
  destruct t. cbn. intros -> -> ->. unfold_lift. destruct (FromNode_some k w) as [x w1]. cbn.
  destruct (FromNode_some v w1) as [y w2] eqn:E. cbn. do 2 eexists. exists w1. by rewrite E.
Qed.

Lemma lift_builtin t w : t_TypeKind t = TypeRefNamed → Node.t_Package t = "" →
  ∃ b w', FromNode_some t w = (emit.RBuiltinRef b (t_Name t), w').
Proof. destruct t. cbn. intros -> ->. unfold_lift. by do 2 eexists. Qed.

Lemma lift_named t w : t_TypeKind t = TypeRefNamed → Node.t_Package t ≠ "" → t_TypeArgs t = [] →
  ∃ b w', FromNode_some t w = (emit.RExternalRef b (Node.t_Package t) (t_Name t) [], w').
Proof.
  destruct t as [? ? pkg]. cbn. intros -> Hp ->. cbn [FromNode_some]. decide_kinds. cbn [Node.t_Package].
  rewrite (proj2 (String.eqb_neq pkg "") Hp). unfold alloc, builder.new, mbind, builder.M_bind, mret, builder.M_ret. cbn.
  by do 2 eexists.
Qed.

(** ** Parsing by cases *)

Lemma parse_unfold d srcPkg expr :
  parseTypeRef (S d) srcPkg expr =
    let rec e := parseTypeRef d srcPkg (trim_space e) in
    let under (mk : pointer → option emit.Ref → emit.Ref) e :=
      r ← rec e;
      match r with
      | Err x => mret (Err x)
      | Ok elem => ok (alloc (λ p, mk p (Some elem)))
      end in
    if String.eqb expr "" then bad "" "empty"
    else if has_prefix expr "*" then under ctor.Ptr (str_drop 1 expr)
    else if has_prefix expr "[]" then under ctor.SliceOf (str_drop 2 expr)
    else if has_prefix expr "map[" then
      match closing 1 (str_drop 4 expr) with
      | None => bad expr "has no closing bracket"
      | Some end_ =>
          k ← rec (str_take end_ (str_drop 4 expr));
          match k with
          | Err x => mret (Err x)
          | Ok key =>
              v ← rec (str_drop (S end_) (str_drop 4 expr));
              match v with
              | Err x => mret (Err x)
              | Ok value => ok (alloc (λ p, ctor.MapOf p (Some key) (Some value)))
              end
          end
      end
    else if has_prefix expr "[" then bad expr "array types are not parsed"
    else if negb (isPlainTypeName expr) then bad expr "declare a named type"
    else RefForQualified expr srcPkg.
Proof. reflexivity. Qed.

(** Parsing one expression after another, as the code's error returns do. *)
Definition then_ref (m : res SymbolError emit.Ref * builder.world) (mk : pointer → emit.Ref → emit.Ref)
  : res SymbolError emit.Ref * builder.world :=
  match m with
  | (Ok r, w) => (Ok (mk (builder.w_next w) r), (builder.new w).2)
  | (Err e, w) => (Err e, w)
  end.

Lemma parse_star d srcPkg s w : str_all type_byte s = true →
  parseTypeRef (S d) srcPkg (String "*" s) w = then_ref (parseTypeRef d srcPkg s w) (λ p r, ctor.Ptr p (Some r)).
Proof.
  intros Hs. rewrite parse_unfold. cbv zeta. rewrite (has_prefix_app "*" s : has_prefix (String "*" s) "*" = true).
  change (String.eqb (String "*" s) "") with false. change (str_drop 1 (String "*" s)) with s. rewrite trim_space_id by done.
  unfold mbind, builder.M_bind, mret, builder.M_ret, alloc, ok. by destruct (parseTypeRef d srcPkg s w) as [[r|e] w'].
Qed.

Lemma parse_brackets d srcPkg s w : str_all type_byte s = true →
  parseTypeRef (S d) srcPkg ("[]" +:+ s) w = then_ref (parseTypeRef d srcPkg s w) (λ p r, ctor.SliceOf p (Some r)).
Proof.
  intros Hs. rewrite parse_unfold. cbv zeta. change (has_prefix ("[]" +:+ s) "*") with false.
  rewrite (has_prefix_app "[]" s).
  change (String.eqb ("[]" +:+ s) "") with false. change (str_drop 2 ("[]" +:+ s)) with s. rewrite trim_space_id by done.
  unfold mbind, builder.M_bind, mret, builder.M_ret, alloc, ok. by destruct (parseTypeRef d srcPkg s w) as [[r|e] w'].
Qed.

Lemma parse_map d srcPkg k v w :
  str_all type_byte k = true → str_all type_byte v = true → closing 1 (k +:+ String "]" v) = Some (String.length k) →
  parseTypeRef (S d) srcPkg ("map[" +:+ k +:+ "]" +:+ v) w =
    match parseTypeRef d srcPkg k w with
    | (Ok rk, w) => then_ref (parseTypeRef d srcPkg v w) (λ p rv, ctor.MapOf p (Some rk) (Some rv))
    | (Err e, w) => (Err e, w)
    end.
Proof.
  intros Hk Hv Hc. set (x := "map[" +:+ k +:+ "]" +:+ v). rewrite parse_unfold. cbv zeta.
  change (has_prefix x "*") with false. change (has_prefix x "[]") with false. rewrite (has_prefix_app "map[" (k +:+ "]" +:+ v) : has_prefix x "map[" = true).
  change (String.eqb x "") with false. change (str_drop 4 x) with (k +:+ String "]" v). clearbody x. cbv iota. rewrite Hc.
  rewrite str_take_app. replace (S (String.length k)) with (String.length k + 1) by lia. rewrite str_drop_app_add.
  change (str_drop 1 (String "]" v)) with v. rewrite !trim_space_id by done.
  unfold mbind, builder.M_bind, mret, builder.M_ret, alloc, ok.
  destruct (parseTypeRef d srcPkg k w) as [[rk|e] w1]; [|done].
  by destruct (parseTypeRef d srcPkg v w1) as [[rv|e] w2].
Qed.

Lemma parse_plain d srcPkg s : isPlainTypeName s = true → parseTypeRef (S d) srcPkg s = RefForQualified s srcPkg.
Proof.
  intros Hs. rewrite parse_unfold. cbv zeta. destruct s as [|c s]; [done|].
  assert (Hc : plain_byte c = true) by (unfold isPlainTypeName in Hs; apply andb_true_iff in Hs as [Hs _]; by apply andb_true_iff in Hs as [? _]).
  assert (Hno : ∀ p, plain_byte (default " "%char (String.get 0 p)) = false → p ≠ "" → has_prefix (String c s) p = false).
  { intros [|a p] Hp Hne; [done|]. cbn in Hp. destruct (has_prefix (String c s) (String a p)) eqn:E; [|done].
    apply has_prefix_spec in E as [u E]. injection E as -> _. by rewrite Hc in Hp. }
  assert (Hm : has_prefix (String c s) "map[" = false).
  { destruct (has_prefix (String c s) "map[") eqn:E; [|done]. apply has_prefix_spec in E as [u E]. rewrite E in Hs.
    unfold isPlainTypeName in Hs. cbn in Hs. discriminate. }
  rewrite (Hno "*"), (Hno "[]"), (Hno "["), Hm, Hs by done. done.
Qed.

Lemma qualified_plain pkg name :
  isPlainTypeName pkg = true → str_all plain_byte name = true → isPlainTypeName (pkg +:+ "." +:+ name) = true.
Proof.
  destruct pkg as [|c pkg]; [done|]. unfold isPlainTypeName. intros [Hp Hd]%andb_true_iff Hn. cbn [String.append].
  rewrite Hd, andb_true_r. change (String c (pkg +:+ String "." name)) with (String c pkg +:+ "." +:+ name).
  rewrite !str_all_append, Hp, Hn. done.
Qed.

Lemma qualified_ref pkg name srcPkg w :
  pkg ≠ "" → name ≠ "" → last_index_byte name "." = None →
  RefForQualified (pkg +:+ "." +:+ name) srcPkg w =
    (Ok (ctor.External (builder.w_next w) pkg name []), (builder.new w).2).
Proof.
  intros Hp Hn Hi. change (pkg +:+ "." +:+ name) with (pkg +:+ String "." name).
  unfold RefForQualified. destruct (String.eqb_spec (pkg +:+ String "." name) "") as [E|_]; [by destruct pkg|].
  rewrite last_index_byte_app by done. rewrite append_length. cbn [String.length].
  assert (0 < String.length pkg) by (destruct pkg; [done|cbn; lia]).
  assert (0 < String.length name) by (destruct name; [done|cbn; lia]).
  destruct (Nat.eqb_spec (String.length pkg) 0); [lia|]. destruct (Nat.eqb_spec (String.length pkg) (String.length pkg + S (String.length name) - 1)); [lia|].
  cbn [orb]. rewrite str_take_app. replace (S (String.length pkg)) with (String.length pkg + 1) by lia. by rewrite str_drop_app_add.
Qed.

Lemma parse_text h n t d srcPkg : spelled h n t → n ≤ d →
  ∀ w w0, ∃ r w', parseTypeRef d srcPkg (typeText h d true (Some t)) w = (Ok r, w') ∧ same_ref r (FromNode_some t w0).1.
Proof.
  intros Hs. revert d. induction Hs; intros [|d] Hd w w0; try lia.
  - rewrite (text_ptr h d t e) by done. rewrite parse_star by (eapply text_bytes; [done|lia]).
    destruct (lift_ptr t e w0) as (b & w1 & ->); [done..|]. destruct (IHHs d ltac:(lia) w w0) as (r & w' & -> & Hr).
    do 2 eexists. split; [done|]. by constructor.
  - rewrite (text_slice h d t e) by done. rewrite parse_brackets by (eapply text_bytes; [done|lia]).
    destruct (lift_slice t e w0) as (b & w1 & ->); [done..|]. destruct (IHHs d ltac:(lia) w w0) as (r & w' & -> & Hr).
    do 2 eexists. split; [done|]. by constructor.
  - rewrite (text_map h d t k v) by done. rewrite parse_map; [|eapply text_bytes; [done|lia]..|].
    + destruct (lift_map t k v w0) as (b & w1 & w2 & ->); [done..|].
      destruct (IHHs1 d ltac:(lia) w w0) as (rk & w' & -> & Hrk). destruct (IHHs2 d ltac:(lia) w' w2) as (rv & w'' & -> & Hrv).
      do 2 eexists. split; [done|]. by constructor.
    + rewrite (closing_text h n k d 0) by (done || lia). cbn. f_equal. lia.
  - rewrite text_named by done. rewrite H2. change (String.eqb "" "") with true. cbv iota.
    pose proof predeclared_plain as Hp. rewrite Forall_forall in Hp. pose proof H3 as Hpre. apply bool_decide_eq_true in Hpre.
    destruct (Hp _ Hpre) as [Hpl Hi]. rewrite parse_plain by done. unfold RefForQualified.
    rewrite (proj2 (String.eqb_neq (t_Name t) "")) by by apply plain_name_bytes. rewrite Hi. unfold RefFor. rewrite H3.
    destruct (lift_builtin t w0) as (b & w1 & ->); [done..|]. do 2 eexists. split; [done|]. constructor.
  - rewrite text_named by done. rewrite (proj2 (String.eqb_neq _ _) H2). rewrite parse_plain by by apply qualified_plain.
    rewrite qualified_ref by done. destruct (lift_named t w0) as (b & w1 & ->); [done..|].
    do 2 eexists. split; [done|]. constructor.
Qed.

(** C38: Reading a type's qualified spelling back gives the reference the type
    lifts to, for the types [spelled] describes: pointers, slices and maps
    nested up to the code's bound of sixteen over predeclared names and over
    types of another package, without type arguments, none stamped as a
    channel, whose import path consists of plain bytes and does not start with
    a digit and whose name consists of plain bytes other than a dot (a path that
    starts with a digit is refused, [digit_path_is_refused]).  Then
    [ParseTypeRef] of [TypeStringQualified] succeeds whatever package it is
    read for, and what it builds is [FromNode] of the type up to identity and
    origin. *)
Theorem type_expressions_read_back h t srcPkg w w0 :
  spelled h maxTypeDepth t →
  ∃ r w', ParseTypeRef (TypeStringQualified h (Some t)) srcPkg w = (Ok r, w') ∧
    ∃ r', (FromNode (Some t) w0).1 = Some r' ∧ same_ref r r'.
Proof.
  intros Hs. destruct (parse_text h maxTypeDepth t maxTypeDepth srcPkg Hs (le_n _) w w0) as (r & w' & Hp & Hr).
  exists r, w'. unfold ParseTypeRef, TypeStringQualified. rewrite trim_space_id by by eapply text_bytes.
  split; [exact Hp|]. exists (FromNode_some t w0).1. split; [|exact Hr].
  unfold FromNode, mbind, builder.M_bind, mret, builder.M_ret. by destruct (FromNode_some t w0).
Qed.

Definition named_type (pkg name : string) : TypeRef :=
  MkTypeRef (MkBase 1%positive zero_pos [] []) TypeRefNamed pkg name [] None 0 None None [] [] [] [] [].
Definition ptr_type (e : TypeRef) : TypeRef :=
  MkTypeRef (MkBase 1%positive zero_pos [] []) TypeRefPointer "" "" [] (Some e) 0 None None [] [] [] [] [].
Definition map_type (k v : TypeRef) : TypeRef :=
  MkTypeRef (MkBase 1%positive zero_pos [] []) TypeRefMap "" "" [] None 0 (Some k) (Some v) [] [] [] [] [].

Definition user_map : TypeRef := map_type (named_type "" "string") (ptr_type (named_type "example.com/store" "User")).
Definition no_memory : builder.world := builder.MkWorld 1%positive ∅ ∅ ∅ ∅ ∅.

Lemma user_map_spelled : spelled ∅ maxTypeDepth user_map.
Proof.
  eapply sp_map; [reflexivity..| |].
  - apply sp_builtin; reflexivity.
  - eapply sp_ptr; [reflexivity..|]. apply sp_named; first [reflexivity|discriminate].
Qed.

Lemma type_expressions_read_back_witness :
  TypeStringQualified ∅ (Some user_map) = "map[string]*example.com/store.User" ∧
  ∃ r w', ParseTypeRef "map[string]*example.com/store.User" "x/other" no_memory = (Ok r, w') ∧
    ∃ r', (FromNode (Some user_map) no_memory).1 = Some r' ∧ same_ref r r'.
Proof.
  split; [reflexivity|].
  exact (type_expressions_read_back ∅ user_map "x/other" no_memory no_memory user_map_spelled).
Defined.

(** A qualifier no file binds is read as an import path, also when there is
    no file at all. *)
Theorem unbound_qualifier_is_taken_for_a_path :
  (ResolveValue None "pb.Event" no_memory).1 = Ok ("pb", "Event").
Proof. vm_compute. reflexivity. Qed.

(** A rune literal that holds a dot is read as a symbol. *)
Theorem rune_literal_is_taken_for_a_symbol :
  IsWellFormedLiteral "'.'" = None ∧ (ResolveValue None "'.'" no_memory).1 = Ok ("'", "'").
Proof. vm_compute. split; reflexivity. Qed.

(** An import path that starts with a digit is refused as a type name. *)
Theorem digit_path_is_refused :
  (ParseTypeRef "9fans.net/go/acme.Win" "x" no_memory).1 =
    Err (ErrBadTypeExpr "9fans.net/go/acme.Win" "declare a named type").
Proof. vm_compute. reflexivity. Qed.
