(* ===== verification/GoSatisfies.v ===== *)
(** * lang/golang: satisfaction and comparability

    [src/lang/golang/satisfies.go]: does a method set satisfy an interface, the
    type behind a chain of definitions, and whether values of a type may be
    compared.  The map of types seen, which a walk shares and fills, is passed
    on as a set. *)

From S2P Require Import Prelude GoStrings Position Meta Directive FilePath Node NodeQueries TypeRefEqual GoTypes GoSignatures GoEmbed.

Local Open Scope string_scope.
Local Open Scope nat_scope.
Local Open Scope list_scope.

Module sat.

Record MissingMethod := MkMissing { mm_Name : string; mm_Declared : option Method; mm_Want : Method }.

Definition sameParam (a b : Param) : bool :=
  Bool.eqb (pa_Variadic a) (pa_Variadic b) && Equal (pa_Type a) (pa_Type b).
Definition sameReturn (a b : Return) : bool := Equal (re_Type a) (re_Type b).

Fixpoint all2 {A} (f : A → A → bool) (l k : list A) : bool :=
  match l, k with
  | x :: l, y :: k => f x y && all2 f l k
  | _, _ => true
  end.

Definition SameSignature (a b : option Method) : bool :=
  match a, b with
  | Some a, Some b =>
      (length (m_Params a) =? length (m_Params b)) && (length (m_Returns a) =? length (m_Returns b)) &&
      all2 sameParam (m_Params a) (m_Params b) && all2 sameReturn (m_Returns a) (m_Returns b)
  | None, None => true
  | _, _ => false
  end.

(** [byName]: a later method of the same name replaces an earlier one. *)
Definition by_name (have : list Method) : gmap string Method :=
  foldl (λ m x, <[m_Name x := x]> m) ∅ have.

Definition missing_of (byName : gmap string Method) (w : Method) : option MissingMethod :=
  match byName !! m_Name w with
  | Some got => if SameSignature (Some got) (Some w) then None else Some (MkMissing (m_Name w) (Some got) w)
  | None => Some (MkMissing (m_Name w) None w)
  end.

Definition Satisfies (have want : list Method) : bool * list MissingMethod :=
  let missing := omap (missing_of (by_name have)) want in
  (length missing =? 0, missing).

(** ** The type behind a definition *)

Definition maxResolveDepth : nat := 10.

Fixpoint underlyingOf (r : option Resolver) (depth : nat) (t : option TypeRef) : option TypeRef :=
  match depth, t with
  | 0, _ | _, None => None
  | S depth, Some t =>
      match r with
      | None => Some t
      | Some res =>
          if negb (bool_decide (t_TypeKind t = TypeRefNamed)) || NodeQueries.IsBuiltin t then Some t
          else match res t with
               | None => None
               | Some (Some (NAlias a)) =>
                   match a_Target a with
                   | None => Some t
                   | Some target => underlyingOf r depth (Some target)
                   end
               | Some _ => Some t
               end
      end
  end.

Definition UnderlyingOf (t : option TypeRef) (r : option Resolver) : option TypeRef :=
  underlyingOf r maxResolveDepth t.

(** ** Comparability *)

Record UnresolvedType := MkUnresolvedType {
  ut_Type : option TypeRef;
  ut_Written : string;
  ut_Reason : ResolveProblem;
}.

Definition unresolvedType (t : option TypeRef) (reason : ResolveProblem) : UnresolvedType :=
  MkUnresolvedType t (Display t) reason.

Definition stdlibComparables : list (string * string * bool) :=
  [("time", "Duration", true); ("time", "Time", true); ("strings", "Builder", false); ("bytes", "Buffer", false)].

Definition stdlibComparable (t : TypeRef) : option bool :=
  snd <$> List.find (λ e, String.eqb e.1.1 (t_Package t) && String.eqb e.1.2 (t_Name t)) stdlibComparables.

(** [equalable], [known], [problems], and the map as the walk leaves it. *)
Definition answer : Type := bool * bool * list UnresolvedType * gset string.

Definition unknown (t : option TypeRef) (reason : ResolveProblem) (seen : gset string) : answer :=
  (false, false, [unresolvedType t reason], seen).

Fixpoint fields_loop (cd : option TypeRef → gset string → answer) (fields : list Field) (known : bool)
    (problems : list UnresolvedType) (seen : gset string) : answer :=
  match fields with
  | [] => (known, known, problems, seen)
  | f :: fields =>
      let '(ok, sure, probs, seen) := cd (f_Type f) seen in
      if sure && negb ok then (false, true, [], seen)
      else if negb sure then fields_loop cd fields false (problems ++ probs) seen
      else fields_loop cd fields known problems seen
  end.

(** [cd] is [comparableDeep] at the depth below the one given. *)
Definition fieldsComparable (cd : option TypeRef → gset string → answer) (fields : list Field)
    (seen : gset string) : answer := fields_loop cd fields true [] seen.

Section Comparable.
  Context (h : metas) (r : option Resolver).

Fixpoint comparableDeep (depth : nat) (t : option TypeRef) (seen : gset string) : answer :=
  match t with
  | None => unknown None NotLoaded seen
  | Some t =>
      match depth with
      | 0 => unknown (Some t) TooDeep seen
      | S depth =>
          if NodeQueries.IsSlice t || NodeQueries.IsMap t || NodeQueries.IsFunc t then (false, true, [], seen)
          else if NodeQueries.IsPointer t || IsChannel h (Some t) then (true, true, [], seen)
          else if NodeQueries.IsArray t then comparableDeep depth (t_Elem t) seen
          else if NodeQueries.IsAnonStruct t then fieldsComparable (comparableDeep depth) (t_Fields t) seen
          else if NodeQueries.IsAnonInterface t || IsInterface h (Some t) then (true, true, [], seen)
          else if NodeQueries.IsBuiltin t || NodeQueries.IsTypeParam t then (true, true, [], seen)
          else
            let key := QName (Some t) in
            if bool_decide (key ∈ seen) then (true, true, [], seen)
            else
              let seen := {[ key ]} ∪ seen in
              match stdlibComparable t with
              | Some eq => (eq, true, [], seen)
              | None =>
                  match r with
                  | None => unknown (Some t) NoResolver seen
                  | Some res =>
                      match res t with
                      | None => unknown (Some t) NotLoaded seen
                      | Some (Some (NStruct v)) => fieldsComparable (comparableDeep (Nat.pred depth)) (s_Fields v) seen
                      | Some (Some (NAlias v)) => comparableDeep depth (a_Target v) seen
                      | Some (Some (NInterface _)) => (true, true, [], seen)
                      | Some (Some (NEnum _)) => (true, true, [], seen)
                      | Some _ => unknown (Some t) NotLoaded seen
                      end
                  end
              end
      end
  end.

Definition ComparableDeep (t : option TypeRef) : bool * list UnresolvedType :=
  let '(eq, _, probs, _) := comparableDeep maxResolveDepth t ∅ in (eq, probs).
End Comparable.

(** ** Receivers *)

Definition ReceiverIsPointerDecl (m : option Method) : bool :=
  match m with
  | None => false
  | Some m => match m_Receiver m with None => false | Some t => NodeQueries.IsPointer t end
  end.

Definition RecommendedReceiver (methods : list Method) : bool := existsb (λ m, ReceiverIsPointerDecl (Some m)) methods.

End sat.

(** * lang/golang: laws of satisfaction and comparability *)

Import sat.

(** ** Comparability *)

(** Go's rule over what the resolver answers: a derivation is a path through
    array elements, fields, embedded types, definitions and type arguments to a
    slice, a map, a function or a library type that holds one. *)
Section Rule.
  Context (h : metas) (res : Resolver).

(** The references whose comparability is decided by their declaration. *)
Definition by_declaration (t : TypeRef) : bool :=
  negb (NodeQueries.IsSlice t || NodeQueries.IsMap t || NodeQueries.IsFunc t) &&
  negb (NodeQueries.IsPointer t || IsChannel h (Some t)) && negb (NodeQueries.IsArray t) &&
  negb (NodeQueries.IsAnonStruct t) && negb (NodeQueries.IsAnonInterface t || IsInterface h (Some t)) &&
  negb (NodeQueries.IsBuiltin t || NodeQueries.IsTypeParam t).

Definition by_identity (t : TypeRef) : bool := NodeQueries.IsPointer t || IsChannel h (Some t).

Inductive uncomparable : TypeRef → Prop :=
| unc_leaf t : NodeQueries.IsSlice t || NodeQueries.IsMap t || NodeQueries.IsFunc t = true → uncomparable t
| unc_array t e : by_identity t = false → NodeQueries.IsArray t = true → t_Elem t = Some e → uncomparable e → uncomparable t
| unc_inline t f ft : by_identity t = false → NodeQueries.IsArray t = false → NodeQueries.IsAnonStruct t = true → f ∈ t_Fields t → f_Type f = Some ft →
    uncomparable ft → uncomparable t
| unc_library t : by_declaration t = true → stdlibComparable t = Some false → uncomparable t
| unc_struct t s f ft : by_declaration t = true → stdlibComparable t = None → res t = Some (Some (NStruct s)) →
    f ∈ s_Fields s → f_Type f = Some ft → uncomparable ft → uncomparable t
| unc_alias t a u : by_declaration t = true → stdlibComparable t = None → res t = Some (Some (NAlias a)) →
    a_Target a = Some u → uncomparable u → uncomparable t
| unc_inline_embed t e et : by_identity t = false → NodeQueries.IsArray t = false → NodeQueries.IsAnonStruct t = true →
    e ∈ t_Embeds t → em_Type e = Some et → uncomparable et → uncomparable t
| unc_embed t s e et : by_declaration t = true → stdlibComparable t = None → res t = Some (Some (NStruct s)) →
    e ∈ s_Embeds s → em_Type e = Some et → uncomparable et → uncomparable t
| unc_argument t s f ft i p a : by_declaration t = true → stdlibComparable t = None → res t = Some (Some (NStruct s)) →
    f ∈ s_Fields s → f_Type f = Some ft → NodeQueries.IsTypeParam ft = true →
    s_TypeParams s !! i = Some p → tp_Name p = t_Name ft → t_TypeArgs t !! i = Some a → uncomparable a → uncomparable t.

(** Comparable as far as [S], the types looked at, goes. *)
Inductive fine (S : gset string) : TypeRef → Prop :=
| fine_identity t : by_identity t = true → NodeQueries.IsSlice t || NodeQueries.IsMap t || NodeQueries.IsFunc t = false → fine S t
| fine_array t e : NodeQueries.IsSlice t || NodeQueries.IsMap t || NodeQueries.IsFunc t = false →
    NodeQueries.IsArray t = true → t_Elem t = Some e → fine S e → fine S t
| fine_inline t : NodeQueries.IsSlice t || NodeQueries.IsMap t || NodeQueries.IsFunc t = false →
    NodeQueries.IsArray t = false → NodeQueries.IsAnonStruct t = true →
    (∀ f, f ∈ t_Fields t → is_Some (f_Type f)) →
    (∀ f ft, f ∈ t_Fields t → f_Type f = Some ft → fine S ft) → fine S t
| fine_plain t : NodeQueries.IsSlice t || NodeQueries.IsMap t || NodeQueries.IsFunc t = false →
    NodeQueries.IsArray t = false → NodeQueries.IsAnonStruct t = false → by_declaration t = false → fine S t
| fine_seen t : by_declaration t = true → QName (Some t) ∈ S → fine S t.

(** What looking at a declaration has established. *)
Definition looked (S : gset string) (t : TypeRef) : Prop :=
  stdlibComparable t = Some true ∨
  (stdlibComparable t = None ∧
   match res t with
   | Some (Some (NStruct s)) => ∀ f ft, f ∈ s_Fields s → f_Type f = Some ft → fine S ft
   | Some (Some (NAlias a)) => ∀ u, a_Target a = Some u → fine S u
   | Some (Some (NInterface _)) | Some (Some (NEnum _)) => True
   | _ => False
   end).
End Rule.

(** A program's references: closed under the parts the rule looks at, with
    qualified names that identify declarations. *)
Record program (h : metas) (res : Resolver) (R : TypeRef → Prop) : Prop := MkProgram {
  pr_elem t e : R t → t_Elem t = Some e → R e;
  pr_inline t f ft : R t → f ∈ t_Fields t → f_Type f = Some ft → R ft;
  pr_struct t s f ft : R t → res t = Some (Some (NStruct s)) → f ∈ s_Fields s → f_Type f = Some ft → R ft;
  pr_alias t a u : R t → res t = Some (Some (NAlias a)) → a_Target a = Some u → R u;
  pr_names t u : R t → R u → by_declaration h t = true → by_declaration h u = true →
    QName (Some t) = QName (Some u) → res t = res u ∧ stdlibComparable t = stdlibComparable u;
}.

(** A program without embedding in structs and without instantiated types. *)
Record unembedded (h : metas) (res : Resolver) (R : TypeRef → Prop) : Prop := MkUnembedded {
  ue_inline t : R t → NodeQueries.IsAnonStruct t = true → t_Embeds t = [];
  ue_struct t s : R t → res t = Some (Some (NStruct s)) → s_Embeds s = [];
  ue_args t : R t → by_declaration h t = true → t_TypeArgs t = [];
}.

Section Deep.
  Context (h : metas) (res : Resolver) (R : TypeRef → Prop) (HR : program h res R).

Abbreviation deep := (comparableDeep h (Some res)).
Abbreviation fine := (fine h).
Abbreviation looked := (looked h res).
Abbreviation uncomparable := (uncomparable h res).
Abbreviation by_declaration := (by_declaration h).

Lemma fine_mono S S' t : S ⊆ S' → fine S t → fine S' t.
Proof. intros Hs. induction 1; [by constructor|by eapply fine_array|by eapply fine_inline|by eapply fine_plain|apply fine_seen; [done|by apply Hs]]. Qed.

Lemma looked_mono S S' t : S ⊆ S' → looked S t → looked S' t.
Proof.
  intros Hs [H|[H0 H]]; [by left|right]. split; [done|].
  destruct (res t) as [[[]|]|]; try done; intros; eapply fine_mono; eauto.
Qed.

(** What a walk that ends without doubt leaves behind. *)
Definition walked (S S' : gset string) : Prop :=
  S ⊆ S' ∧ ∀ u, R u → by_declaration u = true → QName (Some u) ∈ S' → QName (Some u) ∉ S → looked S' u.

Lemma walked_refl S : walked S S.
Proof. split; [done|]. intros u _ _ H1 H2. done. Qed.

Lemma walked_trans S1 S2 S3 : walked S1 S2 → walked S2 S3 → walked S1 S3.
Proof.
  intros [H12 H1] [H23 H2]. split; [by etrans|]. intros u Hu Hd H3 Hn.
  destruct (decide (QName (Some u) ∈ S2)) as [Hin|Hin]; [|by apply H2].
  eapply looked_mono; [exact H23|]. by apply H1.
Qed.

(** A known answer comes with no problems, an unknown one is negative. *)
Definition coherent (a : answer) : Prop :=
  let '(eq, known, probs, _) := a in if known then probs = [] else eq = false ∧ probs ≠ [].

Lemma fields_coherent (cd : option TypeRef → gset string → answer) fields (known : bool) problems seen :
  (∀ t S, coherent (cd t S)) → (if known then problems = [] else problems ≠ []) →
  coherent (fields_loop cd fields known problems seen).
Proof.
  intros Hcd. revert known problems seen. induction fields as [|f fields IH]; intros known problems seen Hk; cbn.
  - by destruct known.
  - specialize (Hcd (f_Type f) seen). destruct (cd (f_Type f) seen) as [[[ok sure] probs] seen'].
    destruct sure; cbn in *; [destruct ok; cbn; [by apply IH|done]|]. apply IH. destruct Hcd as [_ Hp].
    by destruct problems, probs.
Qed.

Lemma deep_coherent depth t seen : coherent (deep depth t seen).
Proof.
  revert t seen. induction depth as [depth IH] using lt_wf_ind. intros [t|] seen; [|by destruct depth].
  destruct depth as [|d]; [done|]. cbn [comparableDeep].
  repeat match goal with |- coherent (if ?b then _ else _) => destruct b; try done end.
  - apply IH. lia.
  - apply fields_coherent; [|done]. intros. apply IH. lia.
  - destruct (stdlibComparable t); [done|]. destruct (res t) as [[[]|]|]; try done.
    + apply fields_coherent; [|done]. intros. apply IH. lia.
    + apply IH. lia.
Qed.

(** A definite no is backed by a derivation of the rule. *)
Definition denies (cd : option TypeRef → gset string → answer) : Prop :=
  ∀ t S p S', cd t S = (false, true, p, S') → ∃ u, t = Some u ∧ uncomparable u.

Lemma fields_denied cd fields known problems seen p seen' :
  denies cd → fields_loop cd fields known problems seen = (false, true, p, seen') →
  ∃ f ft, f ∈ fields ∧ f_Type f = Some ft ∧ uncomparable ft.
Proof.
  intros Hcd. revert known problems seen. induction fields as [|f fields IH]; intros known problems seen; cbn.
  - by destruct known.
  - destruct (cd (f_Type f) seen) as [[[ok sure] probs] seen1] eqn:E. destruct sure, ok; cbn; intros H.
    + destruct (IH _ _ _ H) as (g & gt & Hg & ?). exists g, gt. split; [by right|done].
    + destruct (Hcd _ _ _ _ E) as (ft & Hf & Hu). exists f, ft. split; [left|done].
    + destruct (IH _ _ _ H) as (g & gt & Hg & ?). exists g, gt. split; [by right|done].
    + destruct (IH _ _ _ H) as (g & gt & Hg & ?). exists g, gt. split; [by right|done].
Qed.

(** The tests of the switch, in order, as facts about a reference. *)
Lemma by_declaration_intro t :
  NodeQueries.IsSlice t || NodeQueries.IsMap t || NodeQueries.IsFunc t = false →
  NodeQueries.IsPointer t || IsChannel h (Some t) = false → NodeQueries.IsArray t = false →
  NodeQueries.IsAnonStruct t = false → NodeQueries.IsAnonInterface t || IsInterface h (Some t) = false →
  NodeQueries.IsBuiltin t || NodeQueries.IsTypeParam t = false → by_declaration t = true.
Proof. intros H1 H2 H3 H4 H5 H6. unfold GoSatisfies.by_declaration. by rewrite H1, H2, H3, H4, H5, H6. Qed.

Lemma by_declaration_elim t b1 b2 b3 b4 b5 b6 :
  NodeQueries.IsSlice t || NodeQueries.IsMap t || NodeQueries.IsFunc t = b1 →
  NodeQueries.IsPointer t || IsChannel h (Some t) = b2 → NodeQueries.IsArray t = b3 →
  NodeQueries.IsAnonStruct t = b4 → NodeQueries.IsAnonInterface t || IsInterface h (Some t) = b5 →
  NodeQueries.IsBuiltin t || NodeQueries.IsTypeParam t = b6 → b1 || b2 || b3 || b4 || b5 || b6 = true → by_declaration t = false.
Proof.
  intros H1 H2 H3 H4 H5 H6 H. unfold GoSatisfies.by_declaration. rewrite H1, H2, H3, H4, H5, H6.
  by destruct b1, b2, b3, b4, b5, b6.
Qed.

Lemma deep_denies depth : denies (deep depth).
Proof.
  induction depth as [depth IH] using lt_wf_ind. intros [t|] seen p seen'; [|by destruct depth].
  destruct depth as [|d]; [done|]. cbn [comparableDeep].
  destruct (NodeQueries.IsSlice t || NodeQueries.IsMap t || NodeQueries.IsFunc t) eqn:E1.
  { intros _. exists t. split; [done|by constructor]. }
  destruct (NodeQueries.IsPointer t || IsChannel h (Some t)) eqn:E2; [done|].
  destruct (NodeQueries.IsArray t) eqn:E3.
  { intros H. destruct (IH d (Nat.lt_succ_diag_r d) _ _ _ _ H) as (e & He & Hu). exists t. split; [done|]. by eapply unc_array. }
  destruct (NodeQueries.IsAnonStruct t) eqn:E4.
  { intros H. destruct (fields_denied _ _ _ _ _ _ _ (IH d (Nat.lt_succ_diag_r d)) H) as (f & ft & ? & ? & ?).
    exists t. split; [done|]. by eapply unc_inline. }
  destruct (NodeQueries.IsAnonInterface t || IsInterface h (Some t)) eqn:E5; [done|].
  destruct (NodeQueries.IsBuiltin t || NodeQueries.IsTypeParam t) eqn:E6; [done|].
  pose proof (by_declaration_intro t E1 E2 E3 E4 E5 E6) as Hd. cbv zeta.
  destruct (bool_decide _); [done|]. destruct (stdlibComparable t) as [b|] eqn:Es.
  { intros [= -> _ _]. exists t. split; [done|by apply unc_library]. }
  destruct (res t) as [[[]|]|] eqn:Er; try done.
  - intros H. destruct (fields_denied _ _ _ _ _ _ _ (IH (Nat.pred d) ltac:(lia)) H) as (f & ft & ? & ? & ?).
    exists t. split; [done|]. by eapply unc_struct.
  - intros H. destruct (IH d (Nat.lt_succ_diag_r d) _ _ _ _ H) as (u & Hu & ?). exists t. split; [done|]. by eapply unc_alias.
Qed.

(** A definite yes leaves a walked set in which the reference is fine. *)
Definition affirms (cd : option TypeRef → gset string → answer) : Prop :=
  ∀ t S p S', (∀ u, t = Some u → R u) → cd t S = (true, true, p, S') → walked S S' ∧ ∃ u, t = Some u ∧ fine S' u.

Lemma fields_affirmed cd fields problems seen p seen' :
  affirms cd → (∀ f ft, f ∈ fields → f_Type f = Some ft → R ft) →
  fields_loop cd fields true problems seen = (true, true, p, seen') →
  walked seen seen' ∧ ∀ f, f ∈ fields → ∃ ft, f_Type f = Some ft ∧ fine seen' ft.
Proof.
  intros Hcd. assert (Hno : ∀ fs pr S p S', fields_loop cd fs false pr S ≠ (true, true, p, S')).
  { induction fs as [|f fs IH]; intros pr S q S'; cbn; [done|]. destruct (cd (f_Type f) S) as [[[ok sure] probs] S1].
    destruct (sure && negb ok); [done|]. by destruct (negb sure). }
  revert problems seen. induction fields as [|f fields IH]; intros problems seen HRf; cbn.
  - intros [= -> <-]. split; [apply walked_refl|]. intros f Hf. by apply not_elem_of_nil in Hf.
  - destruct (cd (f_Type f) seen) as [[[ok sure] probs] seen1] eqn:E. destruct sure, ok; cbn; intros H; try done; [|by apply Hno in H..].
    destruct (Hcd (f_Type f) seen probs seen1) as [Hw (ft & Hft & Hfine)]; [|done|].
    { intros u Hu. eapply HRf; [left|done]. }
    destruct (IH problems seen1) as [Hw' Hall]; [|done|].
    { intros g gt Hg Hgt. eapply HRf; [right; exact Hg|done]. }
    split; [by eapply walked_trans|]. intros g [->|Hg]%elem_of_cons; [|by apply Hall].
    exists ft. split; [done|]. eapply fine_mono; [exact (proj1 Hw')|done].
Qed.

(** Looking at one declaration on top of a walked set. *)
Lemma walked_step t S S' :
  R t → by_declaration t = true → looked S' t → walked ({[ QName (Some t) ]} ∪ S) S' → walked S S'.
Proof using HR.
  intros Ht Hd Hl [Hsub Hw]. split; [set_solver|]. intros u Hu Hdu Hin Hnin.
  destruct (decide (QName (Some u) = QName (Some t))) as [E|E]; [|apply Hw; set_solver].
  destruct (pr_names _ _ _ HR u t Hu Ht Hdu Hd E) as [Er Es].
  unfold GoSatisfies.looked in *. by rewrite Er, Es.
Qed.

Lemma deep_affirms depth : affirms (deep depth).
Proof using HR.
  induction depth as [depth IH] using lt_wf_ind. intros [t|] seen p seen' HRt; [|by destruct depth].
  specialize (HRt t eq_refl). destruct depth as [|d]; [done|]. cbn [comparableDeep].
  destruct (NodeQueries.IsSlice t || NodeQueries.IsMap t || NodeQueries.IsFunc t) eqn:E1; [done|].
  destruct (NodeQueries.IsPointer t || IsChannel h (Some t)) eqn:E2.
  { intros [= _ <-]. split; [apply walked_refl|]. exists t. split; [done|]. by apply fine_identity. }
  destruct (NodeQueries.IsArray t) eqn:E3.
  { intros H. destruct (IH d (Nat.lt_succ_diag_r d) _ _ _ _ (λ e He, pr_elem _ _ _ HR t e HRt He) H) as [Hw (e & He & Hf)].
    split; [done|]. exists t. split; [done|]. by eapply fine_array. }
  destruct (NodeQueries.IsAnonStruct t) eqn:E4.
  { intros H. destruct (fields_affirmed _ _ _ _ _ _ (IH d (Nat.lt_succ_diag_r d)) (λ f ft Hf Hft, pr_inline _ _ _ HR t f ft HRt Hf Hft) H) as [Hw Hf].
    split; [done|]. exists t. split; [done|]. apply fine_inline; [done..| |].
    - intros f Hin. destruct (Hf f Hin) as (ft & -> & _). by eexists.
    - intros f ft Hin Hft. destruct (Hf f Hin) as (ft' & ? & ?). congruence. }
  destruct (NodeQueries.IsAnonInterface t || IsInterface h (Some t)) eqn:E5.
  { intros [= _ <-]. split; [apply walked_refl|]. exists t. split; [done|]. apply fine_plain; [done..|].
    by eapply (by_declaration_elim t _ _ _ _ _ _ E1 E2 E3 E4 E5 eq_refl). }
  destruct (NodeQueries.IsBuiltin t || NodeQueries.IsTypeParam t) eqn:E6.
  { intros [= _ <-]. split; [apply walked_refl|]. exists t. split; [done|]. apply fine_plain; [done..|].
    by eapply (by_declaration_elim t _ _ _ _ _ _ E1 E2 E3 E4 E5 E6). }
  pose proof (by_declaration_intro t E1 E2 E3 E4 E5 E6) as Hd. cbv zeta.
  case_bool_decide as Hin.
  { intros [= _ <-]. split; [apply walked_refl|]. exists t. split; [done|]. by apply fine_seen. }
  set (seen1 := {[QName (Some t)]} ∪ seen) in *.
  cut (∀ S', walked seen1 S' → looked S' t → walked seen S' ∧ ∃ u, Some t = Some u ∧ fine S' u).
  2: { intros S' Hw Hl. split; [by eapply walked_step|]. exists t. split; [done|]. apply fine_seen; [done|]. apply (proj1 Hw). set_solver. }
  intros Hfin. destruct (stdlibComparable t) as [b|] eqn:Es.
  { intros [= -> _ <-]. apply Hfin; [apply walked_refl|by left]. }
  destruct (res t) as [[[]|]|] eqn:Er; try done.
  - intros H. destruct (fields_affirmed _ _ _ _ _ _ (IH (Nat.pred d) ltac:(lia)) (λ f ft Hf Hft, pr_struct _ _ _ HR t _ f ft HRt Er Hf Hft) H) as [Hw Hf].
    apply Hfin; [done|]. right. rewrite Er. split; [done|]. intros f ft Hi Hft. destruct (Hf f Hi) as (ft' & ? & ?). congruence.
  - intros [= _ <-]. apply Hfin; [apply walked_refl|]. right. by rewrite Er.
  - intros [= _ <-]. apply Hfin; [apply walked_refl|]. right. by rewrite Er.
  - intros H. destruct (IH d (Nat.lt_succ_diag_r d) _ _ _ _ (λ u Hu, pr_alias _ _ _ HR t _ u HRt Er Hu) H) as [Hw (u & Hu & Hf)].
    apply Hfin; [done|]. right. rewrite Er. split; [done|]. intros u' Hu'. congruence.
Qed.

(** In a walked set nothing fine is uncomparable. *)
Lemma fine_not_uncomparable S t :
  unembedded h res R → walked ∅ S → R t → uncomparable t → fine S t → False.
Proof using HR.
  intros HU [_ Hw] Ht Hu. revert Ht.
  assert (Hlook : ∀ t, R t → by_declaration t = true → fine S t → looked S t).
  { intros u Hu' Hd Hf. apply Hw; [done..| |set_solver].
    pose proof Hd as Hd'. unfold GoSatisfies.by_declaration in Hd'. bool_props.
    inversion Hf; simplify_eq; try done; try congruence. unfold by_identity in *. repeat (bool_props; destruct_or?); congruence. }
  induction Hu as [t E|t e Ei Ea He Hu IH|t f ft Ei Ea Es Hf Hft Hu IH|t Hd Hs|t s f ft Hd Hs Hr Hf Hft Hu IH|t a u Hd Hs Hr Ha Hu IH
    |t e et Ei Ea Es He _ _ _|t s e et Hd Hs Hr He _ _ _|t s f ft i p a Hd _ _ _ _ _ _ _ Ha _ _];
    intros Ht Hfine.
  - inversion Hfine; simplify_eq; try congruence. unfold GoSatisfies.by_declaration, by_identity in *. repeat (bool_props; destruct_or?); congruence.
  - apply IH; [by eapply pr_elem|]. inversion Hfine; simplify_eq; try congruence.
    unfold GoSatisfies.by_declaration, by_identity in *. repeat (bool_props; destruct_or?); congruence.
  - apply IH; [by eapply pr_inline|]. inversion Hfine; simplify_eq; try congruence; [eauto|].
    unfold GoSatisfies.by_declaration, by_identity in *. repeat (bool_props; destruct_or?); congruence.
  - destruct (Hlook t Ht Hd Hfine) as [E|[E _]]; congruence.
  - destruct (Hlook t Ht Hd Hfine) as [E|[_ E]]; [congruence|]. rewrite Hr in E. apply IH; [by eapply pr_struct|]. by eapply E.
  - destruct (Hlook t Ht Hd Hfine) as [E|[_ E]]; [congruence|]. rewrite Hr in E. apply IH; [by eapply pr_alias|]. by eapply E.
  - rewrite (ue_inline _ _ _ HU t Ht Es) in He. by apply not_elem_of_nil in He.
  - rewrite (ue_struct _ _ _ HU t s Ht Hr) in He. by apply not_elem_of_nil in He.
  - by rewrite (ue_args _ _ _ HU t Ht Hd) in Ha.
Qed.

End Deep.

(** C34: What [ComparableDeep] answers is right by Go's rule over what the
    resolver answers, recursive types included, for the references of a program
    in which a qualified name stands for one declaration.  When it reports a
    type it could not reach, it does not claim comparability.  When it reports
    none and answers no, a path of array elements, fields and definitions leads
    to a slice, a map, a function or a library type that holds one.  When it
    reports none and answers yes, no path does, embedded types and type
    arguments included, provided no struct of the program embeds anything and
    no type is instantiated: the code looks at neither, and answers yes for a
    struct that embeds an uncomparable one
    ([embedded_fields_are_overlooked]) and for an instance whose argument is
    not comparable ([type_arguments_are_overlooked]).  Interfaces and type
    parameters count as comparable, as in the code. *)
Theorem comparable_deep_decides h res R t :
  program h res R → R t →
  let '(eq, problems) := ComparableDeep h (Some res) (Some t) in
  (problems ≠ [] → eq = false) ∧
  (problems = [] → eq = false → uncomparable h res t) ∧
  (problems = [] → eq = true → unembedded h res R → ¬ uncomparable h res t).
Proof.
  intros HR Ht. unfold ComparableDeep.
  pose proof (deep_coherent h res maxResolveDepth (Some t) ∅) as Hc.
  destruct (comparableDeep h (Some res) maxResolveDepth (Some t) ∅) as [[[eq known] probs] S] eqn:E.
  cbn in Hc. destruct known; [subst probs|by destruct Hc as [-> Hp]].
  split; [done|]. split; intros _ ->.
  - by destruct (deep_denies h res _ _ _ _ _ E) as (u & [= <-] & Hu).
  - assert (HRt : ∀ u, Some t = Some u → R u) by (intros u [= <-]; exact Ht).
    destruct (deep_affirms h res R HR _ _ _ _ _ HRt E) as [Hw (u & [= <-] & Hf)].
    intros HU Hu. by eapply fine_not_uncomparable.
Qed.

(** ** Concrete programs *)

Definition tref (p : pointer) (k : TypeRefKind) (pkg name : string) (elem : option TypeRef) : TypeRef :=
  MkTypeRef (MkBase p zero_pos [] []) k pkg name [] elem 0 None None [] [] [] [] [].
Definition field_of (p : pointer) (name : string) (t : TypeRef) : Field := MkField (MkBase p zero_pos [] []) name (Some t) "".
Definition struct_of (p : pointer) (name : string) (fields : list Field) (embeds : list Embed) : Struct :=
  MkStruct (MkBase p zero_pos [] []) name "x/shop" fields embeds [] [].

Definition t_int : TypeRef := tref 1 TypeRefNamed "" "int" None.
Definition t_ints : TypeRef := tref 2 TypeRefSlice "" "" (Some t_int).
Definition t_cart : TypeRef := tref 3 TypeRefNamed "x/shop" "Cart" None.
Definition t_order : TypeRef := tref 4 TypeRefNamed "x/shop" "Order" None.

(** [type Cart struct { items []int }], and [type Order struct { Cart }]. *)
Definition shop : Resolver := λ t,
  if String.eqb (t_Name t) "Cart" then Some (Some (NStruct (struct_of 5 "Cart" [field_of 6 "items" t_ints] [])))
  else if String.eqb (t_Name t) "Order"
       then Some (Some (NStruct (struct_of 7 "Order" [] [MkEmbed (MkBase 8%positive zero_pos [] []) (Some t_cart) None])))
  else None.

Lemma shop_program : program ∅ shop (λ t, t ∈ [t_int; t_ints; t_cart]).
Proof.
  split.
  - intros t e Ht He. set_unfold in Ht. destruct_or?; subst; try discriminate. injection He as <-. set_solver.
  - intros t f ft Ht Hf. exfalso. set_unfold in Ht. destruct_or?; subst; by apply not_elem_of_nil in Hf.
  - intros t s f ft Ht Hr Hf Hft. set_unfold in Ht. destruct_or?; subst; try discriminate. injection Hr as <-.
    cbn in Hf. apply list_elem_of_singleton in Hf as ->. injection Hft as <-. set_solver.
  - intros t a u Ht Hr. exfalso. set_unfold in Ht. destruct_or?; subst; discriminate.
  - intros t u Ht Hu Hd Hd' _. set_unfold in Ht. set_unfold in Hu. destruct_or?; subst; first [by split|discriminate].
Qed.

Lemma shop_unembedded : unembedded ∅ shop (λ t, t ∈ [t_int; t_ints; t_cart]).
Proof.
  split.
  - intros t Ht Ha. set_unfold in Ht. destruct_or?; subst; done.
  - intros t s Ht Hr. set_unfold in Ht. destruct_or?; subst; try discriminate. by injection Hr as <-.
  - intros t Ht Ha. set_unfold in Ht. destruct_or?; subst; done.
Qed.

Lemma comparable_deep_decides_witness :
  ComparableDeep ∅ (Some shop) (Some t_cart) = (false, []) ∧ uncomparable ∅ shop t_cart ∧
  ¬ uncomparable ∅ shop t_int.
Proof.
  pose proof (comparable_deep_decides ∅ shop _ t_cart shop_program ltac:(set_solver)) as H.
  pose proof (comparable_deep_decides ∅ shop _ t_int shop_program ltac:(set_solver)) as Hi.
  assert (E : ComparableDeep ∅ (Some shop) (Some t_cart) = (false, [])) by (vm_compute; reflexivity).
  assert (Ei : ComparableDeep ∅ (Some shop) (Some t_int) = (true, [])) by (vm_compute; reflexivity).
  rewrite E in H. rewrite Ei in Hi. split; [exact E|]. split; [by apply H|]. apply Hi; [done|done|exact shop_unembedded].
Defined.

Lemma cart_uncomparable : uncomparable ∅ shop t_cart.
Proof. eapply unc_struct; [reflexivity|reflexivity|reflexivity|left|reflexivity|]. by apply unc_leaf. Qed.

(** A struct that embeds an uncomparable one is called comparable. *)
Theorem embedded_fields_are_overlooked :
  ComparableDeep ∅ (Some shop) (Some t_order) = (true, []) ∧ uncomparable ∅ shop t_order.
Proof.
  split; [vm_compute; reflexivity|].
  eapply unc_embed; [reflexivity|reflexivity|reflexivity|left|reflexivity|apply cart_uncomparable].
Qed.

(** [type Box[T any] struct { v T }], and [Box[[]int]]. *)
Definition t_param : TypeRef := tref 9 TypeRefTypeParam "" "T" None.
Definition t_box : TypeRef :=
  MkTypeRef (MkBase 10%positive zero_pos [] []) TypeRefNamed "x/shop" "Box" [t_ints] None 0 None None [] [] [] [] [].
Definition boxes : Resolver := λ t,
  Some (Some (NStruct (MkStruct (MkBase 11%positive zero_pos [] []) "Box" "x/shop" [field_of 12 "v" t_param] [] []
    [MkTypeParam (MkBase 13%positive zero_pos [] []) "T" None]))).

(** An instance of a generic struct is called comparable whatever its
    arguments are. *)
Theorem type_arguments_are_overlooked :
  ComparableDeep ∅ (Some boxes) (Some t_box) = (true, []) ∧ uncomparable ∅ boxes t_box.
Proof.
  split; [vm_compute; reflexivity|].
  eapply (unc_argument _ _ _ _ _ _ 0); [reflexivity|reflexivity|reflexivity|left|reflexivity|reflexivity|reflexivity|reflexivity|reflexivity|].
  by apply unc_leaf.
Qed.

(** ** Satisfaction *)

(** The method of a name a candidate declares: the last one listed. *)
Definition declared (have : list Method) (n : string) : option Method :=
  last (filter (λ m, m_Name m = n) have).

Lemma by_name_lookup have n : by_name have !! n = declared have n.
Proof.
  unfold by_name, declared. induction have as [|m l IH] using rev_ind; [done|].
  rewrite foldl_app, filter_app. cbn [foldl]. destruct (decide (m_Name m = n)) as [<-|Hn].
  - rewrite lookup_insert_eq. rewrite filter_cons_True by done. by rewrite filter_nil, last_snoc.
  - rewrite lookup_insert_ne by done. rewrite filter_cons_False by done. by rewrite filter_nil, app_nil_r.
Qed.

(** A wanted method the candidate does not have with its signature. *)
Definition unmet (have : list Method) (w : Method) : bool :=
  match declared have (m_Name w) with
  | Some m => negb (SameSignature (Some m) (Some w))
  | None => true
  end.

(** [Satisfies] names every gap.  It lists, in the order of the interface,
    exactly the wanted methods the candidate lacks or declares with another
    signature, each with the declaration it found under the name, and it says
    yes exactly when there is none. *)
Theorem satisfies_names_every_gap have want :
  let '(ok, missing) := Satisfies have want in
  missing = (λ w, MkMissing (m_Name w) (declared have (m_Name w)) w) <$> filter (λ w, unmet have w = true) want ∧
  (ok = true ↔ ∀ w, w ∈ want → ∃ m, declared have (m_Name w) = Some m ∧ SameSignature (Some m) (Some w) = true).
Proof.
  unfold Satisfies. assert (E : omap (missing_of (by_name have)) want =
    (λ w, MkMissing (m_Name w) (declared have (m_Name w)) w) <$> filter (λ w, unmet have w = true) want).
  { induction want as [|w want IH]; [done|]. cbn [omap list_omap]. rewrite IH. unfold missing_of. rewrite by_name_lookup.
    destruct (declared have (m_Name w)) as [m|] eqn:Ed.
    - destruct (SameSignature (Some m) (Some w)) eqn:Es.
      + rewrite filter_cons_False; [done|]. unfold unmet. by rewrite Ed, Es.
      + rewrite filter_cons_True; [rewrite fmap_cons; by rewrite Ed|]. unfold unmet. by rewrite Ed, Es.
    - rewrite filter_cons_True; [rewrite fmap_cons; by rewrite Ed|]. unfold unmet. by rewrite Ed. }
  rewrite E. split; [done|]. rewrite length_fmap, Nat.eqb_eq. split.
  - intros Hl w Hw. apply nil_length_inv in Hl.
    destruct (declared have (m_Name w)) as [m|] eqn:Ed;
      [destruct (SameSignature (Some m) (Some w)) eqn:Es; [by exists m|]|].
    all: exfalso; assert (Hin : w ∈ filter (λ w, unmet have w = true) want)
      by (apply list_elem_of_filter; split; [unfold unmet; by rewrite Ed, ?Es|done]);
      rewrite Hl in Hin; by apply not_elem_of_nil in Hin.
  - intros H. destruct (filter (λ w, unmet have w = true) want) as [|w l] eqn:Ef; [done|]. exfalso.
    assert (Hin : w ∈ filter (λ w, unmet have w = true) want) by (rewrite Ef; left).
    apply list_elem_of_filter in Hin as [Hu Hw]. destruct (H w Hw) as (m & Hd & Hs).
    unfold unmet in Hu. by rewrite Hd, Hs in Hu.
Qed.
