(* ===== verification/GoConventions.v ===== *)
(** * lang/golang: naming and comment conventions

    [src/lang/golang/conventions.go]: generated-file markers, the names the
    toolchain and readers rely on, and doc comments. *)

From S2P Require Import Prelude GoStrings Unicode Node NodeQueries Naming GoQuote GoTypes GoSignatures.

Local Open Scope string_scope.
Local Open Scope nat_scope.
Local Open Scope list_scope.

Module conv.

Definition newline : ascii := "010".
Definition carriage : ascii := "013".

(** ** Markers *)

Definition GeneratedHeader (tool : string) : string :=
  let tool := if String.eqb tool "" then "eidos" else tool in
  "// Code generated by " +:+ tool +:+ ". DO NOT EDIT.".

Definition gen_open : string := "// Code generated ".
Definition gen_close : string := " DO NOT EDIT.".

(** [generatedPattern]: the dot of the expression does not match a newline, and
    both ends are anchored to the text. *)
Definition generatedPattern (line : string) : bool :=
  has_prefix line gen_open &&
  (let rest := str_drop (String.length gen_open) line in
   has_suffix rest gen_close &&
   str_all (λ c, negb (Ascii.eqb c newline)) (str_take (String.length rest - String.length gen_close) rest)).

Definition IsGeneratedSource (line : string) : bool :=
  generatedPattern (trim_right (λ c, Ascii.eqb c carriage || Ascii.eqb c newline) line).

Definition BuildTag (expr : string) : string := if String.eqb expr "" then "" else "//go:build " +:+ expr.

(** ** Names *)

Definition TestPrefix : string := "Test".
Definition BenchmarkPrefix : string := "Benchmark".
Definition FuzzPrefix : string := "Fuzz".
Definition ExamplePrefix : string := "Example".
Definition sentinelPrefix : string := "Err".

Section Names.
  Context `{CaseTables}.

Definition ExportedName (ident : string) : string := Pascal Default ident.

Definition TestFuncName (subject behaviour : string) : string :=
  TestPrefix +:+ ExportedName subject +:+ ExportedName behaviour.
Definition BenchmarkFuncName (subject behaviour : string) : string :=
  BenchmarkPrefix +:+ ExportedName subject +:+ ExportedName behaviour.
Definition FuzzFuncName (subject : string) : string := FuzzPrefix +:+ ExportedName subject.
Definition ExampleFuncName (subject method : string) : string :=
  if String.eqb method "" then ExamplePrefix +:+ subject else ExamplePrefix +:+ subject +:+ "_" +:+ method.
Definition ConstructorName (typeName : string) : string := "New" +:+ ExportedName typeName.

Definition UnexportedName (ident : string) : string :=
  if String.eqb ident "" then ""
  else let '(first, width) := decode_rune ident in
       let lowered := to_lower first in
       if (lowered =? first)%N then ident else encode_rune lowered +:+ str_drop width ident.

Definition GetterName (field : string) : string := ExportedName field.
Definition SetterName (field : string) : string := "Set" +:+ ExportedName field.
Definition WithName (field : string) : string := "With" +:+ ExportedName field.
Definition SentinelName (subject : string) : string := sentinelPrefix +:+ ExportedName subject.
Definition ParseFuncName (typeName : string) : string := "Parse" +:+ ExportedName typeName.
End Names.

Definition IsSentinelName (ident : string) : bool :=
  has_prefix ident sentinelPrefix &&
  (let rest := str_drop (String.length sentinelPrefix) ident in negb (String.eqb rest "") && IsExported rest).

Definition SentinelSubject (ident : string) : string * bool :=
  if negb (IsSentinelName ident) then (ident, false) else (trim_prefix ident sentinelPrefix, true).

(** ** Doc comments *)

Definition DocWidth : nat := 72.

(** The space rune a string starts with. *)
Definition lead_space (s : string) : option string := List.find (has_prefix s) space_runes.

(** [strings.Fields]: the maximal runs without a space.  [word] is the run being
    read, backwards; a round takes at least one byte. *)
Fixpoint fields_fuel (fuel : nat) (word : list ascii) (s : string) : list string :=
  let flush rest := match word with [] => rest | _ => String.string_of_list_ascii (rev word) :: rest end in
  match fuel, s with
  | 0, _ | _, "" => flush []
  | S fuel, String c s' =>
      match lead_space s with
      | Some sp => flush (fields_fuel fuel [] (str_drop (String.length sp) s))
      | None => fields_fuel fuel (c :: word) s'
      end
  end.
Definition Fields (s : string) : list string := fields_fuel (S (String.length s)) [] s.

(** [strings.Split(text, "\n\n")] *)
Fixpoint split_blank (acc : list ascii) (s : string) : list string :=
  match s with
  | "" => [String.string_of_list_ascii (rev acc)]
  | String c s' =>
      match s' with
      | String d s'' => if Ascii.eqb c newline && Ascii.eqb d newline
                        then String.string_of_list_ascii (rev acc) :: split_blank [] s''
                        else split_blank (c :: acc) s'
      | "" => split_blank (c :: acc) s'
      end
  end.

(** The loop of [wrapParagraph] over the words left. *)
Fixpoint wrap_loop (line : string) (words : list string) : list string :=
  match words with
  | [] => if String.eqb line "" then [] else ["// " +:+ line]
  | word :: words =>
      if String.eqb line "" then wrap_loop word words
      else if String.length line + 1 + String.length word <=? DocWidth then wrap_loop (line +:+ " " +:+ word) words
      else ("// " +:+ line) :: wrap_loop word words
  end.

Definition wrapParagraph (para : string) : list string :=
  match wrap_loop "" (Fields para) with [] => ["//"] | out => out end.

Fixpoint wrap_paras (first : bool) (paras : list string) : list string :=
  match paras with
  | [] => []
  | para :: paras => (if first then [] else ["//"]) ++ wrapParagraph para ++ wrap_paras false paras
  end.

Definition WrapDoc (text : string) : string :=
  str_join (String newline "") (wrap_paras true (split_blank [] (trim_space text))).

Definition Doc (name text : string) : string :=
  let text := trim_space text in
  if String.eqb text "" then ""
  else if has_prefix text name then text
  else name +:+ " " +:+ text.

Definition DeprecatedDoc (reason : string) : string :=
  let reason := trim_space reason in
  if String.eqb reason "" then "Deprecated: this symbol is deprecated." else "Deprecated: " +:+ reason.

Definition TestFileName (base : string) : string :=
  let base := trim_suffix base ".go" in
  if has_suffix base "_test" then base +:+ ".go" else base +:+ "_test.go".

Definition IsTestFileName (name : string) : bool := has_suffix (trim_suffix name ".go") "_test".

(** The loop of [DocSummary]: the length of the first sentence. *)
Fixpoint sentence (s : string) : option nat :=
  match s with
  | "" => None
  | String c s' =>
      if Ascii.eqb c "." then
        match s' with
        | "" => Some 1
        | String d _ => if Ascii.eqb d " " || Ascii.eqb d newline || Ascii.eqb d "009" then Some 1 else S <$> sentence s'
        end
      else S <$> sentence s'
  end.

Definition DocSummary (text : string) : string :=
  let text := trim_space text in
  if String.eqb text "" then ""
  else match sentence text with Some n => str_take n text | None => text end.

Definition deprecation_marker : string := "Deprecated: ".

Fixpoint deprecation_loop (lines : list string) : string * bool :=
  match lines with
  | [] => ("", false)
  | line :: lines =>
      let trimmed := trim_space line in
      if has_prefix trimmed deprecation_marker
      then (trim_space (str_drop (String.length deprecation_marker) trimmed), true)
      else deprecation_loop lines
  end.

Definition DocDeprecation (text : string) : string * bool := deprecation_loop (split_byte text newline).

End conv.

(** * lang/golang: laws of the conventions *)

Import conv.

(** ** Wrapping *)

Lemma fields_fuel_nonempty fuel word s : Forall (λ w, w ≠ "") (fields_fuel fuel word s).
Proof.
  assert (Hflush : ∀ (word : list ascii) rest, Forall (λ w : string, w ≠ "") rest →
    Forall (λ w : string, w ≠ "") (match word with [] => rest | _ => String.string_of_list_ascii (rev word) :: rest end)).
  { intros [|c wd] rest Hr; [done|]. constructor; [|done]. cbn. destruct (rev wd); cbn; done. }
  revert word s. induction fuel as [|fuel IH]; intros word s; [by apply Hflush|].
  destruct s as [|c s]; [by apply Hflush|]. cbn [fields_fuel]. destruct (lead_space (String c s)); [|apply IH].
  apply Hflush, IH.
Qed.

Definition line_of (g : list string) : string := str_join " " g.

(** Lines filled one after another: a group of words per line, and the word
    that opens a line did not fit on the one before. *)
Inductive filled : list (list string) → Prop :=
| filled_one g : g ≠ [] → String.length (line_of g) ≤ DocWidth ∨ length g = 1 → filled [g]
| filled_more g w g' gs : g ≠ [] → String.length (line_of g) ≤ DocWidth ∨ length g = 1 →
    DocWidth < String.length (line_of g) + 1 + String.length w → filled ((w :: g') :: gs) → filled (g :: (w :: g') :: gs).

Lemma line_snoc g w : g ≠ [] → line_of (g ++ [w]) = line_of g +:+ " " +:+ w.
Proof.
  induction g as [|x [|y g] IH]; intros Hg; [done|done|].
  change (line_of ((x :: y :: g) ++ [w])) with (x +:+ " " +:+ line_of ((y :: g) ++ [w])).
  change (line_of (x :: y :: g)) with (x +:+ " " +:+ line_of (y :: g)). rewrite IH by done. by rewrite !append_assoc.
Qed.

Lemma line_nonempty g : g ≠ [] → Forall (λ w, w ≠ "") g → line_of g ≠ "".
Proof. destruct g as [|x [|y g]]; intros Hg H; [done|by inversion H|]. inversion H. by destruct x. Qed.

Lemma wrap_loop_fills g words :
  g ≠ [] → Forall (λ w, w ≠ "") g → Forall (λ w, w ≠ "") words → String.length (line_of g) ≤ DocWidth ∨ length g = 1 →
  ∃ g' gs, filled ((g ++ g') :: gs) ∧ concat ((g ++ g') :: gs) = g ++ words ∧
    wrap_loop (line_of g) words = (λ l, "// " +:+ line_of l) <$> ((g ++ g') :: gs).
Proof.
  revert g. induction words as [|w words IH]; intros g Hg Hne Hw Hfit; cbn [wrap_loop].
  - rewrite (proj2 (String.eqb_neq _ _) (line_nonempty g Hg Hne)). exists [], []. rewrite app_nil_r.
    split_and!; [by constructor|cbn; by rewrite !app_nil_r|done].
  - apply Forall_cons in Hw as [Hw1 Hw]. rewrite (proj2 (String.eqb_neq _ _) (line_nonempty g Hg Hne)).
    destruct (Nat.leb_spec (String.length (line_of g) + 1 + String.length w) DocWidth) as [Hle|Hgt].
    + rewrite <- line_snoc by done. destruct (IH (g ++ [w])) as (g' & gs & Hf & Hc & ->).
      * by destruct g.
      * apply Forall_app. split; [done|]. by constructor.
      * done.
      * left. rewrite line_snoc, !append_length by done. cbn. lia.
      * exists (w :: g'), gs. rewrite <- !app_assoc in Hc. rewrite <- app_assoc in Hf. rewrite <- app_assoc.
        split_and!; [exact Hf|exact Hc|done].
    + destruct (IH [w]) as (g' & gs & Hf & Hc & E); [done|by constructor|done|by right|].
      change (line_of [w]) with w in E. rewrite E. exists [], ((w :: g') :: gs). rewrite app_nil_r.
      split_and!; [by constructor| |done]. cbn in *. by rewrite Hc.
Qed.

(** A doc comment is wrapped greedily and loses nothing.  The lines of a
    wrapped paragraph are groups of its words, in order and all of them, each
    line within [DocWidth] unless it is a single word, and each next line
    opened by a word that did not fit on the line before; a paragraph without
    words is a bare comment marker. *)
Theorem wrap_is_greedy para :
  match Fields para with
  | [] => wrapParagraph para = ["//"]
  | words => ∃ groups, wrapParagraph para = (λ g, "// " +:+ line_of g) <$> groups ∧ concat groups = words ∧ filled groups
  end.
Proof.
  unfold wrapParagraph. pose proof (fields_fuel_nonempty (S (String.length para)) [] para) as Hn.
  change (fields_fuel (S (String.length para)) [] para) with (Fields para) in Hn.
  destruct (Fields para) as [|w words]; [done|]. apply Forall_cons in Hn as [Hw Hn]. cbn [wrap_loop].
  change (String.eqb "" "") with true. cbv iota.
  destruct (wrap_loop_fills [w] words) as (g' & gs & Hf & Hc & E); [done|by constructor|done|by right|].
  change (line_of [w]) with w in E. rewrite E. exists (([w] ++ g') :: gs). by split_and!.
Qed.

Lemma wrap_example : WrapDoc (String newline "" +:+ "Builds  a value." +:+ String newline (String newline "") +:+ "Not safe.") =
  "// Builds a value." +:+ String newline "" +:+ "//" +:+ String newline "" +:+ "// Not safe.".
Proof. vm_compute. reflexivity. Qed.

(** ** Markers and names *)

Lemma trim_right_keeps f s c : f c = false → trim_right f (s +:+ String c "") = s +:+ String c "".
Proof.
  intros Hc. induction s as [|a s IH]; cbn; [by rewrite Hc|]. rewrite IH. by destruct s.
Qed.

(** A marker composed for a tool whose name is on one line is recognised. *)
Theorem generated_headers_are_recognised tool :
  str_all (λ c, negb (Ascii.eqb c newline)) tool = true → IsGeneratedSource (GeneratedHeader tool) = true.
Proof.
  intros Ht. unfold IsGeneratedSource, GeneratedHeader.
  set (t := if String.eqb tool "" then "eidos" else tool).
  assert (Ht' : str_all (λ c, negb (Ascii.eqb c newline)) t = true) by (unfold t; by destruct (String.eqb tool "")).
  clearbody t. change (". DO NOT EDIT.") with ("." +:+ " DO NOT EDIT" +:+ String "." ""). rewrite !append_assoc.
  rewrite trim_right_keeps by done. rewrite <- !append_assoc.
  change ("// Code generated by " +:+ t +:+ "." +:+ " DO NOT EDIT" +:+ String "." "")
    with (gen_open +:+ ("by " +:+ t +:+ "." +:+ gen_close)).
  unfold generatedPattern. rewrite has_prefix_app, str_drop_app. cbn [andb].
  rewrite !append_assoc. assert (Hs : has_suffix ((("by " +:+ t) +:+ ".") +:+ gen_close) gen_close = true) by (apply has_suffix_spec; eauto).
  rewrite Hs. rewrite append_length. replace (_ + _ - _) with (String.length (("by " +:+ t) +:+ ".")) by lia.
  rewrite str_take_app, !str_all_append, Ht'. done.
Qed.

Lemma generated_headers_are_recognised_witness : IsGeneratedSource (GeneratedHeader "stubgen") = true.
Proof. apply (generated_headers_are_recognised "stubgen"). vm_compute. reflexivity. Defined.

(** The subject of a composed sentinel is read back exactly when its exported
    form starts with an ASCII capital. *)
Theorem sentinel_subject_reads_back `{CaseTables} subject :
  SentinelSubject (SentinelName subject) =
    if IsExported (ExportedName subject) then (ExportedName subject, true) else (SentinelName subject, false).
Proof.
  unfold SentinelSubject, IsSentinelName, SentinelName. rewrite has_prefix_app, str_drop_app. cbn [andb].
  unfold trim_prefix. rewrite has_prefix_app, str_drop_app.
  by destruct (ExportedName subject) as [|c s]; [|cbn; destruct (byte_in "A" "Z" c)].
Qed.

(** Exporting an unexported name does not give the name back. *)
Theorem unexported_names_do_not_round_trip :
  UnexportedName "UrlPath" = "urlPath" ∧ ExportedName (UnexportedName "UrlPath") = "URLPath" ∧
  ExportedName (UnexportedName "Max_Size") = "MaxSize".
Proof. vm_compute. split_and!; reflexivity. Qed.

(** A text that opens with a longer word is taken to open with the name. *)
Theorem doc_opens_with_another_word : Doc "Get" "Getters share a lock." = "Getters share a lock.".
Proof. vm_compute. reflexivity. Qed.

(** A sentinel composed for a subject that cannot be exported is not found. *)
Theorem composed_sentinel_goes_unseen : SentinelName "2fast" = "Err2fast" ∧ IsSentinelName (SentinelName "2fast") = false.
Proof. vm_compute. split; reflexivity. Qed.
