(* ===== verification/GoEnum.v ===== *)
(** * lang/golang: enumerations

    [src/lang/golang/enum.go] and the answer it fills, [src/emit/enum_info.go]:
    where the text of a variant comes from, which texts collide, what lies
    outside the declared set, and the projection a generator renders.

    A [float64] is a [spec_float] of 53 bits; reading one from text and writing
    one as text are [strconv]'s and come as arguments.  Whether a rune prints is
    an argument of [Quote].  Variants are the non-nil ones of a declaration. *)

From Stdlib Require Import SpecFloat.
From S2P Require Import Prelude GoStrings Position Meta Directive Unicode FilePath Node NodeQueries Emit EmitCtors GoIdents GoQuote GoTypes GoSignatures GoEmbed EmitBuilder GoRefs.

Local Open Scope string_scope.
Local Open Scope nat_scope.
Local Open Scope list_scope.

Module enums.

(** ** [emit/enum_info.go] *)

Inductive EnumForm := FormIdentifier | FormValue.

Record EnumText := MkEnumText { et_Name : string; et_Text : string }.

Record EnumInfo := MkEnumInfo {
  ei_Form : EnumForm;
  ei_Variants : list EnumText;
  ei_Fallback : option emit.Ref;
  ei_FallbackFormat : string;
  ei_Zero : string;
  ei_Duplicate : string;
  ei_Foreign : list string;
  ei_UnknownText : string;
  ei_OutOfRange : string;
}.

(** ** [enum.go] *)

Definition litEmpty : string := String dquote (String dquote "").
Definition litZero : string := "0".
Definition EnumValueDirective : string := "value".

Definition EnumUnderlying (e : option Enum) : string :=
  match e with
  | Some (MkEnum _ _ _ (Some t) _ _) => t_Name t
  | _ => ""
  end.

(** The fresh node of the second case has an address of its own. *)
Definition enumFallbackType (e : option Enum) : builder.M TypeRef :=
  match e with
  | Some (MkEnum _ _ _ (Some t) _ _) => mret t
  | _ => alloc (λ p, MkTypeRef (MkBase p (MkPos "" 0 0 0) [] []) TypeRefNamed "" typeInt [] None 0 None None [] [] [] [] [])
  end.
Definition EnumFallback (e : option Enum) : builder.M (option emit.Ref * string) :=
  t ← enumFallbackType e;
  r ← FromNode (Some t);
  mret (r, FormatVerb (Some t)).

Definition foreign_loop (e : Enum) (constants : list Constant) : gset string :=
  foldl (λ seen c,
    if String.eqb (k_Package c) (e_Package e) then seen
    else if String.eqb (QName (k_Type c)) (Enum_QName e) then {[ k_Package c ]} ∪ seen
    else seen) ∅ constants.
Definition ForeignVariants (e : option Enum) (constants : list Constant) : list string :=
  match e with
  | None => []
  | Some e => sort_strings (elements (foreign_loop e constants))
  end.

Definition EnumFormOf (e : option Enum) : EnumForm :=
  if String.eqb (EnumUnderlying e) typeString then FormValue else FormIdentifier.

Fixpoint override_loop (ds : list Directive) : option string :=
  match ds with
  | [] => None
  | d :: ds =>
      match Directive.Args d with
      | a :: _ => if String.eqb (Directive.Name d) EnumValueDirective then Some a else override_loop ds
      | [] => override_loop ds
      end
  end.
Definition VariantOverride (v : EnumVariant) : option string := override_loop (base_Directives (ev_base v)).

Definition VariantText (e : Enum) (v : EnumVariant) : string :=
  match VariantOverride v with
  | Some o => o
  | None =>
      match EnumFormOf (Some e) with
      | FormValue => default (ev_Value v) (ParseStringValue (ev_Value v))
      | FormIdentifier => trim_prefix (ev_Name v) (e_Name e)
      end
  end.

Definition EnumTexts (e : option Enum) : list string :=
  match e with None => [] | Some e => VariantText e <$> e_Variants e end.

Fixpoint dup_loop (seen : gset string) (texts : list string) : option string :=
  match texts with
  | [] => None
  | t :: texts => if bool_decide (t ∈ seen) then Some t else dup_loop ({[ t ]} ∪ seen) texts
  end.
Definition DuplicateText (e : option Enum) : option string := dup_loop ∅ (EnumTexts e).

Definition isZeroValue (value : string) : bool := String.eqb value litZero || String.eqb value litEmpty.
Definition ZeroVariant (e : option Enum) : option EnumVariant :=
  match e with None => None | Some e => List.find (λ v, isZeroValue (ev_Value v)) (e_Variants e) end.

(** The loop of [EnumValues] and [EnumFloatValues]: all of them or nothing. *)
Definition all_values {A} (parse : string → option A) (e : option Enum) : option (list A) :=
  match e with
  | None => None
  | Some e => if (length (e_Variants e) =? 0) then None else mapM (λ v, parse (ev_Value v)) (e_Variants e)
  end.
Definition EnumValues (e : option Enum) : option (list Z) := all_values ParseIntValue e.

Definition marker : string := "__eidos_unknown__".
Definition OutOfRangeText (e : option Enum) : option string :=
  if bool_decide (marker ∈ EnumTexts e) then None
  else match e with
       | None => None
       | Some e => if (length (e_Variants e) =? 0) then None else Some marker
       end.

Definition OutOfRangeValue (e : option Enum) : option (option Z) :=
  match EnumFormOf e with
  | FormValue => Some None
  | FormIdentifier =>
      match EnumValues e with
      | None => Some None
      | Some values =>
          let underlying := EnumUnderlying e in
          NextOutOfRange (if String.eqb underlying "" then typeInt else underlying) values
      end
  end.

Definition enum_candidates : list string :=
  [MethodString; MethodMarshalText; MethodUnmarshalText; MethodMarshalJSON; MethodUnmarshalJSON; MethodValidate].
Definition EnumMethods (e : option Enum) : list string :=
  match e with
  | None => []
  | Some e => List.filter (λ name, negb (bool_decide (is_Some (NodeQueries.Enum_MethodByName e name)))) enum_candidates
  end.
Definition EnumDeclares (e : option Enum) (name : string) : bool :=
  match e with None => false | Some e => bool_decide (is_Some (NodeQueries.Enum_MethodByName e name)) end.

Fixpoint iota_loop (i : Z) (values : list Z) : bool :=
  match values with [] => true | v :: values => (v =? i)%Z && iota_loop (i + 1) values end.
Definition IsIotaDerived (e : option Enum) : bool :=
  match EnumValues e with
  | None => false
  | Some values => negb (length values =? 0) && iota_loop 0 values
  end.

Definition isFloatEnum (e : option Enum) : bool :=
  match e with None => false | Some e => IsFloat (e_Underlying e) end.

Definition enumFormOut (e : option Enum) : EnumForm := EnumFormOf e.

(** ** Floats

    The built-in [max] of two floats: a NaN wins, and the positive zero is
    above the negative one. *)
Definition float_max (a b : spec_float) : spec_float :=
  match a, b with
  | S754_nan, _ | _, S754_nan => S754_nan
  | S754_zero s, S754_zero s' => S754_zero (s && s')
  | _, _ => match SFcompare a b with Some Lt => b | _ => a end
  end.
Definition float_one : spec_float := S754_finite false (2 ^ 52) (-52).
Definition float_succ (a : spec_float) : spec_float := SFadd 53 1024 a float_one.

Section Texts.
  Context (is_print : N → bool).
  Context (parseFloat : string → option spec_float) (formatFloat : spec_float → string).

Definition EnumTextLiteral (e : Enum) (v : EnumVariant) : string := Quote is_print (VariantText e v).

Definition ParseFloatValue (raw : string) : option spec_float := parseFloat raw.
Definition FormatFloatValue (v : spec_float) : string := formatFloat v.
Definition EnumFloatValues (e : option Enum) : option (list spec_float) := all_values ParseFloatValue e.

Definition OutOfRangeFloat (e : option Enum) : option string :=
  match EnumFormOf e, isFloatEnum e with
  | FormIdentifier, true =>
      match EnumFloatValues e with
      | Some (v :: vs) => Some (FormatFloatValue (float_succ (foldl float_max v vs)))
      | _ => None
      end
  | _, _ => None
  end.

(** [None] only where [NextOutOfRange] has no answer at all, which it always has. *)
Definition OutOfRangeLiteral (e : option Enum) : option (option string) :=
  r ← OutOfRangeValue e;
  Some (match r with
        | Some v => Some (itoa v)
        | None => OutOfRangeFloat e
        end).

Definition enumTextsOut (e : option Enum) : list EnumText :=
  match e with
  | None => []
  | Some e => (λ v, MkEnumText (ev_Name v) (EnumTextLiteral e v)) <$> e_Variants e
  end.

Definition outOfRangeOut (e : option Enum) : option string :=
  match EnumFormOf e with
  | FormValue => Some (match OutOfRangeText e with Some t => Quote is_print t | None => "" end)
  | FormIdentifier => l ← OutOfRangeLiteral e; Some (default "" l)
  end.

Definition EnumInfoOf (e : option Enum) (constants : list Constant) : builder.M (option EnumInfo) :=
  cv ← EnumFallback e;
  mret (oor ← outOfRangeOut e;
        Some (MkEnumInfo (enumFormOut e) (enumTextsOut e) (fst cv) (snd cv)
                (match ZeroVariant e with Some v => ev_Name v | None => "" end)
                (default "" (DuplicateText e)) (ForeignVariants e constants)
                (match OutOfRangeText e with Some t => Quote is_print t | None => "" end) oor)).

End Texts.

End enums.

(** * Theorems on enumerations

    About [GoEnum]: the projection of an enumeration gives literals that read
    back as the texts, probes that lie outside the declared set, and the first
    collision of two texts. *)

Import enums.

(** ** Decimal numerals *)

Lemma digit_val_char n : (n < 10)%N → digit_val (pretty_N_char n) = Some (Z.of_N n).
Proof. intros Hn. assert (n ∈ [0; 1; 2; 3; 4; 5; 6; 7; 8; 9]%N) as Hin by (rewrite !elem_of_cons; lia). by repeat (apply elem_of_cons in Hin as [->|Hin]; [reflexivity|]); apply elem_of_nil in Hin. Qed.

Lemma digits_val_go x s : digits_val 0 (pretty_N_go x s) = digits_val (Z.of_N x) s.
Proof.
  revert s. induction (N.lt_wf_0 x) as [x _ IH]; intros s.
  assert (x = 0 ∨ 0 < x)%N as [->|Hx] by lia; [by rewrite pretty_N_go_0|].
  rewrite pretty_N_go_step by done. rewrite IH by (by apply N.div_lt).
  cbn [digits_val]. rewrite digit_val_char by (by apply N.mod_lt). cbn [mbind option_bind].
  f_equal. rewrite N2Z.inj_div, N2Z.inj_mod. pose proof (Z.div_mod (Z.of_N x) 10). lia.
Qed.

Lemma pretty_pos p : digits_val 0 (pretty (Npos p)) = Some (Zpos p) ∧
  ∃ a t, pretty (Npos p) = String a t ∧ byte_in "0" "9" a = true.
Proof.
  unfold pretty, pretty_N. rewrite decide_False by done. split; [by rewrite digits_val_go|].
  pose proof (pretty_N_go_digits (Npos p) "" eq_refl) as Hd. pose proof (digits_val_go (Npos p) "") as Hv.
  destruct (pretty_N_go (Npos p) "") as [|a t]; [done|]. apply andb_true_iff in Hd as [Ha _]. eauto.
Qed.

Lemma atoi_itoa z : in_int64 z = true → ParseIntValue (itoa z) = Some z.
Proof.
  intros Hz. unfold ParseIntValue, itoa. destruct z as [|p|p]; [done| |].
  - change (pretty (Zpos p)) with (pretty (Npos p)). destruct (pretty_pos p) as [Hv (a & t & E & Ha)].
    rewrite E in *. unfold atoi. destruct (decide (a = "-"%char)) as [->|H1]; [done|]. destruct (decide (a = "+"%char)) as [->|H2]; [done|].
    repeat case_match; simplify_eq; try done; rewrite Hv; cbn [mbind option_bind]; by rewrite Hz.
  - change (pretty (Zneg p)) with (String "-" (pretty (Npos p))). destruct (pretty_pos p) as [Hv (a & t & E & _)].
    cbn [atoi]. rewrite E in *. cbn [String.eqb]. rewrite Hv. cbn [mbind option_bind]. change (- Z.pos p)%Z with (Zneg p). by rewrite Hz.
Qed.

(** ** Collisions *)

Lemma dup_loop_spec pre texts : NoDup pre →
  match dup_loop (list_to_set pre) texts with
  | None => NoDup (pre ++ texts)
  | Some t => ∃ mid post, texts = mid ++ t :: post ∧ t ∈ pre ++ mid ∧ NoDup (pre ++ mid)
  end.
Proof.
  revert pre. induction texts as [|x texts IH]; intros pre Hp; cbn; [by rewrite app_nil_r|].
  case_bool_decide as Hx; [exists [], texts; rewrite app_nil_r; set_solver|].
  specialize (IH (pre ++ [x])). rewrite <- (app_assoc pre [x]) in IH. cbn in IH.
  assert (list_to_set (pre ++ [x]) = ({[x]} ∪ list_to_set pre : gset string)) as E by (rewrite list_to_set_app_L; set_solver).
  rewrite E in IH. assert (NoDup (pre ++ [x])) as Hn.
  { apply NoDup_app. split_and!; [done|set_solver|apply NoDup_singleton]. }
  specialize (IH Hn). destruct (dup_loop _ texts) as [t|]; [|done]. destruct IH as (mid & post & -> & Hin & Hnd).
  exists (x :: mid), post. rewrite (app_assoc pre [x] mid : pre ++ x :: mid = (pre ++ [x]) ++ mid). by split_and!.
Qed.

(** No collision is reported exactly when the texts of the variants are
    distinct, and what is reported is the first text seen twice. *)
Theorem duplicate_text_is_the_first e :
  match DuplicateText e with
  | None => NoDup (EnumTexts e)
  | Some t => ∃ pre post, EnumTexts e = pre ++ t :: post ∧ t ∈ pre ∧ NoDup pre
  end.
Proof. apply (dup_loop_spec []), NoDup_nil_2. Qed.

(** ** The foreign packages *)

Lemma foreign_loop_spec e cs seen p :
  p ∈ foldl (λ seen c, if String.eqb (k_Package c) (e_Package e) then seen
                       else if String.eqb (QName (k_Type c)) (Enum_QName e) then {[ k_Package c ]} ∪ seen
                       else seen) (seen : gset string) cs ↔
  p ∈ seen ∨ ∃ c, c ∈ cs ∧ k_Package c = p ∧ p ≠ e_Package e ∧ QName (k_Type c) = Enum_QName e.
Proof.
  revert seen. induction cs as [|c cs IH]; intros seen; cbn; [set_solver|]. rewrite IH. setoid_rewrite elem_of_cons.
  destruct (String.eqb_spec (k_Package c) (e_Package e)) as [E|E]; [naive_solver|].
  destruct (String.eqb_spec (QName (k_Type c)) (Enum_QName e)) as [Q|Q]; [|naive_solver].
  rewrite elem_of_union, elem_of_singleton. naive_solver.
Qed.

(** The foreign packages are, sorted and once each, those that declare a
    constant of the type and are not the package of the type. *)
Theorem foreign_variants_are_the_others e cs :
  StronglySorted str_le (ForeignVariants (Some e) cs) ∧ NoDup (ForeignVariants (Some e) cs) ∧
  ∀ p, p ∈ ForeignVariants (Some e) cs ↔
       ∃ c, c ∈ cs ∧ k_Package c = p ∧ p ≠ e_Package e ∧ QName (k_Type c) = Enum_QName e.
Proof.
  cbn. split_and!; [apply sort_strings_sorted|rewrite sort_strings_perm; apply NoDup_elements|].
  intros p. rewrite sort_strings_perm, elem_of_elements. unfold foreign_loop. rewrite foreign_loop_spec. set_solver.
Qed.

(** ** The probes *)

(** The integer type an enumeration is bounded by. *)
Definition enum_type (e : Enum) : string :=
  let u := EnumUnderlying (Some e) in if String.eqb u "" then typeInt else u.

Lemma bounds_int64 t lo hi : NumericBounds t = Some (lo, hi) → in_int64 lo = true ∧ in_int64 hi = true.
Proof.
  unfold NumericBounds, bounds. rewrite <- elem_of_list_to_map.
  2:{ apply (bool_decide_unpack _). vm_compute. exact I. }
  intros Hin. repeat (apply elem_of_cons in Hin as [[= -> -> ->]|Hin]; [by vm_compute|]). by apply elem_of_nil in Hin.
Qed.

Lemma fits_int64 v t : FitsIn v t = true → in_int64 v = true.
Proof.
  unfold FitsIn. destruct (NumericBounds t) as [[lo hi]|] eqn:E; [|done]. apply bounds_int64 in E as [Hl Hh].
  unfold in_int64 in *. rewrite !andb_true_iff, !Z.leb_le in *. lia.
Qed.

Lemma float_unbounded t : IsFloat (Some t) = true → NumericBounds (t_Name t) = None ∧ t_Name t ≠ "".
Proof. unfold IsFloat, IsBuiltinNamed. intros [[_ ->%String.eqb_eq]%andb_true_iff|[_ ->%String.eqb_eq]%andb_true_iff]%orb_true_iff; by vm_compute. Qed.

Section Probes.
  Context (is_print : N → bool) (parseFloat : string → option spec_float) (formatFloat : spec_float → string).

Lemma EnumInfoOf_eq e cs w : ∃ r v oor,
  outOfRangeOut is_print parseFloat formatFloat e = Some oor ∧
  (EnumInfoOf is_print parseFloat formatFloat e cs w).1 =
    Some (MkEnumInfo (enumFormOut e) (enumTextsOut is_print e) r v
            (match ZeroVariant e with Some v => ev_Name v | None => "" end)
            (default "" (DuplicateText e)) (ForeignVariants e cs)
            (match OutOfRangeText e with Some t => Quote is_print t | None => "" end) oor).
Proof.
  assert (∃ oor, outOfRangeOut is_print parseFloat formatFloat e = Some oor) as [oor E].
  { unfold outOfRangeOut. destruct (EnumFormOf e) eqn:Ef; [|eauto]. unfold OutOfRangeLiteral, OutOfRangeValue. rewrite Ef.
    destruct (EnumValues e) as [vs|]; [|cbn; eauto]. cbv zeta.
    destruct (NextOutOfRange _ vs) as [r|] eqn:En; [cbn; eauto|by apply NextOutOfRange_total in En]. }
  unfold EnumInfoOf, mbind, builder.M_bind, mret, builder.M_ret. destruct (EnumFallback e w) as [[r v] w']. cbn.
  exists r, v, oor. rewrite E. done.
Qed.

Lemma quote_nonempty s : Quote is_print s ≠ "".
Proof. done. Qed.

Lemma out_of_range_text e : match OutOfRangeText (Some e) with
  | Some t => t ∉ EnumTexts (Some e)
  | None => marker ∈ EnumTexts (Some e) ∨ e_Variants e = []
  end.
Proof.
  unfold OutOfRangeText. case_bool_decide; [by left|]. destruct (e_Variants e) eqn:E; cbn [length Nat.eqb]; [by right|done].
Qed.

Lemma out_of_range_int e lo hi values :
  EnumFormOf (Some e) = FormIdentifier → NumericBounds (enum_type e) = Some (lo, hi) → EnumValues (Some e) = Some values →
  match outOfRangeOut is_print parseFloat formatFloat (Some e) with
  | None => False
  | Some "" => ∀ v, FitsIn v (enum_type e) = true → v ∈ values
  | Some s => ∃ v, ParseIntValue s = Some v ∧ v ∉ values ∧ FitsIn v (enum_type e) = true
  end.
Proof.
  intros Ef Eb Ev. unfold outOfRangeOut, OutOfRangeLiteral, OutOfRangeValue. rewrite Ef, Ev. cbv zeta. fold (enum_type e).
  destruct (NextOutOfRange_cases _ values _ _ Eb) as (taken & Ht & Hc).
  destruct (NextOutOfRange (enum_type e) values) as [[v|]|] eqn:En; [| |done].
  - cbn. destruct (NextOutOfRange_outside _ _ _ En) as [Hf Hn]. pose proof (atoi_itoa v (fits_int64 _ _ Hf)) as Hr.
    destruct (itoa v) as [|a s]; [done|]. eauto.
  - cbn. assert (OutOfRangeFloat parseFloat formatFloat (Some e) = None) as ->.
    { unfold OutOfRangeFloat. rewrite Ef. unfold isFloatEnum. unfold enum_type in Eb.
      destruct e as [b n p [t|] vs ms]; cbn in *; [|done]. destruct (IsFloat (Some t)) eqn:Efl; [|done].
      destruct (float_unbounded _ Efl) as [Hn Hne]. apply String.eqb_neq in Hne. rewrite Hne in Eb. by rewrite Hn in Eb. }
    cbn. intros v Hv. unfold FitsIn in Hv. rewrite Eb, andb_true_iff, !Z.leb_le in Hv. apply Ht, Hc. exact Hv.
Qed.

End Probes.

(** The first text a list has for the second time. *)
Definition first_repeated (texts : list string) (t : string) : Prop :=
  ∃ pre post, texts = pre ++ t :: post ∧ t ∈ pre ∧ NoDup pre.

(** C29: What a generator is told about an enumeration holds of it, for any
    table of printable runes that has the ASCII ones.  The answer is always
    given; the literals of the variants read back as the texts, in order; a
    collision that is reported is the first text two variants share, and none
    is reported only if all texts differ or the first shared one is empty (a
    collision of empty texts is lost, [empty_duplicate_is_lost]); the unknown
    text reads back as a text no variant has, and is missing only if some
    variant has the marker or there is no variant.  The value out of range of
    an enumeration of texts is the unknown text; over an integer type with
    known bounds whose variants all have values that parse, it is a numeral of
    a value of the type outside the set, missing only when the set is all of
    the type.  Enumerations of floats, whose probe may be a declared value
    ([large_float_sets_have_no_probe]), and values that do not parse are not
    covered by the last clause. *)
Theorem enum_probes_lie_outside is_print parseFloat formatFloat e cs w :
  PrintTable is_print →
  ∃ info, (EnumInfoOf is_print parseFloat formatFloat (Some e) cs w).1 = Some info ∧
    (λ v, ParseStringValue (et_Text v)) <$> ei_Variants info = Some <$> EnumTexts (Some e) ∧
    (if String.eqb (ei_Duplicate info) "" then NoDup (EnumTexts (Some e)) ∨ first_repeated (EnumTexts (Some e)) ""
     else first_repeated (EnumTexts (Some e)) (ei_Duplicate info)) ∧
    (if String.eqb (ei_UnknownText info) "" then marker ∈ EnumTexts (Some e) ∨ e_Variants e = []
     else ∃ t, ParseStringValue (ei_UnknownText info) = Some t ∧ t ∉ EnumTexts (Some e)) ∧
    (EnumFormOf (Some e) = FormValue → ei_OutOfRange info = ei_UnknownText info) ∧
    (∀ lo hi values, EnumFormOf (Some e) = FormIdentifier → NumericBounds (enum_type e) = Some (lo, hi) →
       EnumValues (Some e) = Some values →
       match ei_OutOfRange info with
       | "" => ∀ v, FitsIn v (enum_type e) = true → v ∈ values
       | s => ∃ v, ParseIntValue s = Some v ∧ v ∉ values ∧ FitsIn v (enum_type e) = true
       end).
Proof.
  intros Hp. assert (∀ t, ParseStringValue (Quote is_print t) = Some t) as Hq.
  { intros t. unfold ParseStringValue, Unquote. by rewrite unquote_quote. }
  destruct (EnumInfoOf_eq is_print parseFloat formatFloat (Some e) cs w) as (r & v & oor & Eo & ->).
  eexists. split; [done|]. cbn [ei_Variants ei_Duplicate ei_UnknownText ei_OutOfRange]. split_and!.
  - cbn. rewrite <- !list_fmap_compose. apply list_fmap_ext. intros i x _. cbn. apply Hq.
  - pose proof (dup_loop_spec [] (EnumTexts (Some e)) (NoDup_nil_2)) as Hd. unfold DuplicateText.
    change (list_to_set [] : gset string) with (∅ : gset string) in Hd.
    destruct (dup_loop ∅ (EnumTexts (Some e))) as [t|]; [change (default "" (Some t)) with t|by left].
    destruct (String.eqb_spec t "") as [->|_]; [by right|done].
  - pose proof (out_of_range_text e) as Ht. destruct (OutOfRangeText (Some e)) as [t|]; [|done].
    cbn [Quote String.eqb]. eauto.
  - intros Ef. unfold outOfRangeOut in Eo. rewrite Ef in Eo. by injection Eo as <-.
  - intros lo hi values Ef Eb Ev. pose proof (out_of_range_int is_print parseFloat formatFloat e lo hi values Ef Eb Ev) as H.
    rewrite Eo in H. by destruct oor.
Qed.

Module enum_fixture.
Definition base (p : pointer) (ds : list Directive) : BaseNode := MkBase p zero_pos [] ds.
Definition status : Enum :=
  MkEnum (base 1 []) "Status" "cfg" (Some (Fixture.named 2 "" "uint8"))
    [MkEnumVariant (base 3 []) "StatusOff" "0"; MkEnumVariant (base 4 []) "StatusOn" "255"] [].
Definition no_float (s : string) : option spec_float := None.
End enum_fixture.

Lemma enum_probes_lie_outside_witness :
  PrintTable ascii_print ∧
  ∃ info, (EnumInfoOf ascii_print enum_fixture.no_float (λ _, "") (Some enum_fixture.status) []
             (builder.MkWorld 10%positive ∅ ∅ ∅ ∅ ∅)).1 = Some info ∧
    ei_Duplicate info = "" ∧ (λ v, ParseStringValue (et_Text v)) <$> ei_Variants info = [Some "Off"; Some "On"] ∧
    ei_OutOfRange info = "254" ∧ ei_Zero info = "StatusOff".
Proof.
  split; [exact ascii_print_table|].
  destruct (enum_probes_lie_outside ascii_print enum_fixture.no_float (λ _, "") enum_fixture.status []
              (builder.MkWorld 10%positive ∅ ∅ ∅ ∅ ∅) ascii_print_table) as (info & E & Ht & _).
  exists info. split; [exact E|].
  split; [|split; [rewrite Ht; vm_compute; reflexivity|]]; clear Ht; revert E; vm_compute; intros [= <-]; by try split.
Defined.

(** A string enumeration whose values are quoted literals and whose variants
    carry no override renders exactly those values. *)
Theorem string_enums_render_their_values is_print b name pkg t vs texts ms :
  PrintTable is_print → t_Name t = typeString →
  Forall (λ v, VariantOverride v = None) vs → ev_Value <$> vs = Quote is_print <$> texts →
  EnumTexts (Some (MkEnum b name pkg (Some t) vs ms)) = texts.
Proof.
  intros Hp Ht Hv. cbn. revert texts. induction Hv as [|v vs Ho _ IH]; intros [|x texts] E; try done.
  cbn in E. injection E as Ex E. rewrite fmap_cons. f_equal; [|by apply IH].
  unfold VariantText, EnumFormOf. cbn. rewrite Ho, Ht, Ex. change (String.eqb typeString typeString) with true. cbv iota. unfold ParseStringValue, Unquote. by rewrite unquote_quote.
Qed.

Lemma string_enums_render_their_values_witness :
  EnumTexts (Some (MkEnum (enum_fixture.base 1 []) "Region" "cfg" (Some (Fixture.named 2 "" "string"))
    [MkEnumVariant (enum_fixture.base 3 []) "US" (Quote ascii_print "us-east")] [])) = ["us-east"].
Proof. apply (string_enums_render_their_values ascii_print); [exact ascii_print_table|done|by repeat constructor|done]. Defined.

(** Values that run from zero are recognised, and then the value out of range
    is their number where the type has it. *)
Lemma iota_loop_spec i values : iota_loop i values = true ↔ values = seqZ i (Z.of_nat (length values)).
Proof.
  revert i. induction values as [|v values IH]; intros i; [done|]. cbn [iota_loop length].
  rewrite andb_true_iff, Z.eqb_eq, IH, (seqZ_cons i) by lia. replace (Z.pred (Z.of_nat (S (length values)))) with (Z.of_nat (length values)) by lia.
  unfold Z.succ. split; [by intros [-> <-]|]. intros [= -> E]. by split.
Qed.

Lemma bounds_zero t lo hi : NumericBounds t = Some (lo, hi) → (lo <= 0)%Z.
Proof.
  intros Ht. assert (map_Forall (λ _ b, (b.1 <= 0)%Z) bounds) as Hb.
  { refine (bool_decide_unpack _ _). vm_compute. exact I. }
  apply (Hb t (lo, hi) Ht).
Qed.

Theorem iota_sets_end_at_their_number e :
  IsIotaDerived (Some e) = true → EnumFormOf (Some e) = FormIdentifier →
  FitsIn (Z.of_nat (length (e_Variants e))) (enum_type e) = true →
  OutOfRangeValue (Some e) = Some (Some (Z.of_nat (length (e_Variants e)))).
Proof.
  unfold IsIotaDerived, OutOfRangeValue. intros Hi Ef Hf. rewrite Ef. destruct (EnumValues (Some e)) as [values|] eqn:Ev; [|done].
  apply andb_true_iff in Hi as [Hl Hs%iota_loop_spec]. cbv zeta. fold (enum_type e).
  assert (length values = length (e_Variants e)) as Hlen.
  { unfold EnumValues, all_values in Ev. destruct (length (e_Variants e) =? 0) in Ev; [done|]. symmetry. by eapply length_mapM. }
  rewrite <- Hlen in *. set (n := length values) in *. assert (0 < n) by (destruct n; [done|lia]).
  unfold FitsIn in Hf. destruct (NumericBounds (enum_type e)) as [[lo hi]|] eqn:Eb; [|done].
  apply andb_true_iff in Hf as [Hlo%Z.leb_le Hhi%Z.leb_le].
  destruct (NextOutOfRange_cases _ values _ _ Eb) as (taken & Ht & Hc).
  assert (∀ w, w ∈ values ↔ (0 <= w < Z.of_nat n)%Z) as Hin by (intros w; rewrite Hs, elem_of_seqZ; lia).
  assert (lo <= 0)%Z by (by eapply bounds_zero).
  assert (∀ w, w ∈ taken ↔ (0 <= w < Z.of_nat n)%Z) as Ht' by (intros w; rewrite Ht, Hin; unfold in_range; lia).
  destruct (NextOutOfRange (enum_type e) values) as [[v|]|]; [| |done].
  - destruct Hc as (_ & _ & Hc). rewrite (Hc (Z.of_nat n - 1)%Z); [do 2 f_equal; lia|apply Ht'; lia|intros w Hw%Ht'; lia|lia].
  - assert (Z.of_nat n ∈ taken) as Hn%Ht' by (apply Hc; unfold in_range; lia). lia.
Qed.

(** ** Findings *)

(** Two variants with the empty text collide and the projection says nothing:
    the collision is reported as the text, which is empty. *)
Theorem empty_duplicate_is_lost :
  let e := MkEnum (enum_fixture.base 1 []) "Region" "cfg" (Some (Fixture.named 2 "" "string"))
    [MkEnumVariant (enum_fixture.base 3 []) "None" litEmpty; MkEnumVariant (enum_fixture.base 4 []) "Unset" litEmpty] [] in
  DuplicateText (Some e) = Some "" ∧
  ei_Duplicate <$> (EnumInfoOf ascii_print enum_fixture.no_float (λ _, "") (Some e) [] (builder.MkWorld 10%positive ∅ ∅ ∅ ∅ ∅)).1 = Some "".
Proof. vm_compute. by split. Qed.

(** The largest float of a set plus one is a value of the set when it is large
    enough: at 2^53 the sum rounds back, so the probe is the declared value. *)
Theorem large_float_sets_have_no_probe parseFloat formatFloat raw :
  let top := S754_finite false (2 ^ 52) 1 in
  parseFloat raw = Some top →
  let e := MkEnum (enum_fixture.base 1 []) "Limit" "cfg" (Some (Fixture.named 2 "" "float64"))
    [MkEnumVariant (enum_fixture.base 3 []) "LimitTop" raw] [] in
  EnumFloatValues parseFloat (Some e) = Some [top] ∧
  OutOfRangeFloat parseFloat formatFloat (Some e) = Some (formatFloat top).
Proof.
  intros top Hp e. assert (EnumFloatValues parseFloat (Some e) = Some [top]) as E.
  { unfold EnumFloatValues, all_values, ParseFloatValue. cbn. by rewrite Hp. }
  split; [done|]. unfold OutOfRangeFloat. rewrite E. change (EnumFormOf (Some e)) with FormIdentifier.
  change (isFloatEnum (Some e)) with true. cbn [foldl]. unfold FormatFloatValue. by vm_compute.
Qed.

Lemma large_float_sets_have_no_probe_witness :
  OutOfRangeFloat (λ _, Some (S754_finite false (2 ^ 52) 1)) (λ _, "9.007199254740992e+15")
    (Some (MkEnum (enum_fixture.base 1 []) "Limit" "cfg" (Some (Fixture.named 2 "" "float64"))
       [MkEnumVariant (enum_fixture.base 3 []) "LimitTop" "9007199254740992"] [])) = Some "9.007199254740992e+15".
Proof. apply (large_float_sets_have_no_probe (λ _, Some (S754_finite false (2 ^ 52) 1)) (λ _, "9.007199254740992e+15") "9007199254740992"). reflexivity. Defined.
