(* ===== verification/GoWitness.v ===== *)
(** * lang/golang: witnesses and substitution

    [src/lang/golang/witness.go] with the authored stamps of
    [src/emit/witness.go] and [src/emit/sample_authored.go]: the concrete types
    a generic declaration is instantiated at, and rewriting references and
    source types at them.

    Constructors allocate and run in the memory of [EmitBuilder].  A copy of a
    reference or of a type keeps the base of the original, by which its
    metadata is found; whether a rewrite returned the very object it was given
    is a boolean beside the result.  Parameters are the non-nil ones. *)

From S2P Require Import Prelude GoStrings Position Meta Directive Unicode FilePath Node NodeQueries Emit EmitCtors GoIdents GoTypes GoSignatures GoEmbed EmitBuilder GoRefs GoSatisfies.

Local Open Scope string_scope.
Local Open Scope nat_scope.
Local Open Scope list_scope.

Module wit.

(** ** [emit/sample_authored.go] and [emit/witness.go] *)

Definition MetaSample : Key := string_key "sample.value".
Definition MetaSamplePackage : Key := string_key "sample.value.package".
Definition MetaAlternate : Key := string_key "sample.alternate".
Definition MetaAlternatePackage : Key := string_key "sample.alternate.package".
Definition MetaWitness : Key := string_key "witness.type".
Definition MetaWitnessPackage : Key := string_key "witness.type.package".

Section Authored.
  Context (h : metas).

(** The pair is the package and the symbol. *)
Definition authored (b : BaseNode) (symbolKey pkgKey : Key) : option (string * string) :=
  match read_string h (Some b) symbolKey with
  | None => None
  | Some symbol =>
      if String.eqb symbol "" then None else Some (readString h (Some b) pkgKey, symbol)
  end.
Definition AuthoredSample (b : BaseNode) : option (string * string) := authored b MetaSample MetaSamplePackage.
Definition AuthoredAlternate (b : BaseNode) : option (string * string) := authored b MetaAlternate MetaAlternatePackage.
Definition AuthoredWitness (b : BaseNode) : option (string * string) := authored b MetaWitness MetaWitnessPackage.

Definition AuthoredWitnessRef (b : BaseNode) : builder.M (option emit.Ref) :=
  match AuthoredWitness b with
  | None => mret None
  | Some (pkg, symbol) =>
      if String.eqb pkg "" then alloc (λ p, Some (ctor.Builtin p symbol))
      else alloc (λ p, Some (ctor.External p pkg symbol []))
  end.

(** ** Choosing witnesses *)

Definition WitnessPalette : list string :=
  ["string"; "int"; "bool"; "float64"; "int64"; "uint"; "uint8"; "int32"].

Definition AdmitsAnyBasicType (c : option Constraint) : bool :=
  match c with
  | None => true
  | Some c' =>
      let raw := trim_space (c_Raw c') in
      if String.eqb raw "" then Constraint_IsAny c || Constraint_IsComparable c
      else String.eqb raw "any" || String.eqb raw "interface{}" || String.eqb raw "comparable"
  end.

(** [None] is the early return of nil. *)
Fixpoint witness_loop (i : nat) (params : list TypeParam) : builder.M (option (list emit.Ref)) :=
  match params with
  | [] => mret (Some [])
  | p :: params =>
      a ← AuthoredWitnessRef (tp_base p);
      match a with
      | Some ref => rest ← witness_loop (S i) params; mret ((λ l, ref :: l) <$> rest)
      | None =>
          match WitnessPalette !! i, AdmitsAnyBasicType (tp_Constraint p) with
          | Some name, true =>
              ref ← alloc (λ q, ctor.Builtin q name);
              rest ← witness_loop (S i) params; mret ((λ l, ref :: l) <$> rest)
          | _, _ => mret None
          end
      end
  end.
Definition Witnesses (params : list TypeParam) : builder.M (list emit.Ref) :=
  r ← witness_loop 0 params; mret (default [] r).

Definition refName (r : emit.Ref) : string :=
  match r with
  | emit.RBuiltinRef _ name | emit.RExternalRef _ _ name _ => name
  | _ => ""
  end.

Definition WitnessNames (params : list TypeParam) : builder.M (list string) :=
  refs ← Witnesses params; mret (refName <$> refs).

Definition qualified_ref (r : emit.Ref) : bool :=
  match r with emit.RExternalRef _ pkg _ _ => negb (String.eqb pkg "") | _ => false end.
Definition bracketed (names : list string) : string := "[" +:+ String.concat ", " names +:+ "]".
Definition WitnessUse (params : list TypeParam) : builder.M string :=
  refs ← Witnesses params;
  mret (match refs with
        | [] => ""
        | _ => if existsb qualified_ref refs then "" else bracketed (refName <$> refs)
        end).

(** ** Rewriting references *)

Section Subst.
  Context (by_ : gmap string emit.Ref).

Fixpoint subst_ref (r : emit.Ref) : emit.Ref :=
  match r with
  | emit.RBuiltinRef _ name => match by_ !! name with Some bound => bound | None => r end
  | emit.RCompositeRef b c =>
      emit.RCompositeRef b
        (emit.MkCompositeRef (emit.cr_Shape _ c)
           (match emit.cr_Elem _ c with Some x => Some (subst_ref x) | None => None end) (emit.cr_ArrayLen _ c)
           (match emit.cr_MapKey _ c with Some x => Some (subst_ref x) | None => None end)
           (match emit.cr_MapValue _ c with Some x => Some (subst_ref x) | None => None end)
           (emit.cr_FuncParams _ c) (emit.cr_FuncReturns _ c) (emit.cr_UnionTerms _ c)
           (emit.cr_StructFields _ c) (emit.cr_StructEmbeds _ c))
  | emit.RExternalRef b pkg name args => emit.RExternalRef b pkg name (List.map subst_ref args)
  | emit.RTypeRef _ _ _ => r
  end.

End Subst.

Definition SubstituteTypeParams (r : option emit.Ref) (by_ : gmap string emit.Ref) : option emit.Ref :=
  if bool_decide (by_ = ∅) then r else subst_ref by_ <$> r.

(** A later parameter of the same name replaces an earlier one. *)
Definition bindings {A} (params : list TypeParam) (l : list A) : gmap string A :=
  foldl (λ m x, <[tp_Name x.1 := x.2]> m) ∅ (zip params l).
Definition WitnessBindings (params : list TypeParam) (witnesses : list emit.Ref) : option (gmap string emit.Ref) :=
  if (length params =? 0) || negb (length params =? length witnesses) then None
  else Some (bindings params witnesses).

Definition SubstituteSig (s : option ctor.SigInfo) (params : list TypeParam) (witnesses : list emit.Ref) : option ctor.SigInfo :=
  match s, WitnessBindings params witnesses with
  | None, _ => None
  | Some _, None => s
  | Some s, Some by_ =>
      Some (ctor.MkSigInfo (ctor.si_Name s)
              ((λ p, ctor.MkSigParam (ctor.sp_Name p) (ctor.sp_Declared p) (SubstituteTypeParams (ctor.sp_Type p) by_)
                       (ctor.sp_Source p) (ctor.sp_Field p) (ctor.sp_Variadic p)) <$> ctor.si_Params s)
              ((λ r, ctor.MkSigReturn (ctor.sr_Name r) (SubstituteTypeParams (ctor.sr_Type r) by_) (ctor.sr_Source r)
                       (ctor.sr_Field r) (ctor.sr_Local r) (ctor.sr_Error r)) <$> ctor.si_Returns s)
              [] (ctor.si_Receiver s) (ctor.si_NamedReturns s) (ctor.si_Source s) (ctor.si_ReceiverIdent s))
  end.

Fixpoint TypeParamDeclsFromEmit (params : list emit.TypeParam) : builder.M (list emit.TypeParam) :=
  match params with
  | [] => mret []
  | p :: params =>
      d ← alloc (λ q, emit.MkTypeParam (ctor.zero_base q) (emit.tp_Name p) (emit.tp_Constraint p));
      ds ← TypeParamDeclsFromEmit params;
      mret (d :: ds)
  end.
Fixpoint TypeParamRefsFromEmit (params : list emit.TypeParam) : builder.M (list emit.Ref) :=
  match params with
  | [] => mret []
  | p :: params =>
      r ← alloc (λ q, ctor.Builtin q (emit.tp_Name p)); rs ← TypeParamRefsFromEmit params; mret (r :: rs)
  end.
Definition TypeParamNamesFromEmit (params : list emit.TypeParam) : string :=
  match params with [] => "" | _ => bracketed (emit.tp_Name <$> params) end.

(** ** Rewriting source types *)

Definition named_node (p : pointer) (pkg name : string) : TypeRef :=
  MkTypeRef (MkBase p zero_pos [] []) TypeRefNamed pkg name [] None 0 None None [] [] [] [] [].
Definition witnessNode (r : emit.Ref) : builder.M TypeRef :=
  match r with
  | emit.RExternalRef _ pkg name _ => alloc (λ p, named_node p pkg name)
  | _ => alloc (λ p, named_node p "" (refName r))
  end.

Definition same_object (a b : TypeRef) : bool := bool_decide (ref (t_base a) = ref (t_base b)).

Section SubstNode.
  Context (by_ : gmap string TypeRef).

(** The rewritten type and whether it is the object that was given. *)
Fixpoint substituteNode (depth : nat) (t : TypeRef) : TypeRef * bool :=
  match depth with
  | 0 => (t, true)
  | S depth =>
      if bool_decide (t_TypeKind t = TypeRefTypeParam) then
        match by_ !! t_Name t with
        | None => (t, true)
        | Some bound => (bound, same_object bound t)
        end
      else
        let opt (o : option TypeRef) := match o with
                                        | None => (None, true)
                                        | Some x => let '(y, same) := substituteNode depth x in (Some y, same)
                                        end in
        let each (l : list TypeRef) := let ys := List.map (substituteNode depth) l in (ys.*1, forallb id ys.*2) in
        let '(elem, s1) := opt (t_Elem t) in
        let '(key, s2) := opt (t_MapKey t) in
        let '(val, s3) := opt (t_MapValue t) in
        let '(args, s4) := each (t_TypeArgs t) in
        let '(params, s5) := each (t_FuncParams t) in
        let '(returns, s6) := each (t_FuncReturns t) in
        if s1 && s2 && s3 && s4 && s5 && s6 then (t, true)
        else (MkTypeRef (t_base t) (t_TypeKind t) (t_Package t) (t_Name t) args elem (t_ArrayLen t) key val
                params returns (t_Fields t) (t_Methods t) (t_Embeds t), false)
  end.

End SubstNode.

Fixpoint witness_nodes (refs : list emit.Ref) : builder.M (list TypeRef) :=
  match refs with
  | [] => mret []
  | r :: refs => t ← witnessNode r; ts ← witness_nodes refs; mret (t :: ts)
  end.
Definition SubstituteParamsNode (t : option TypeRef) (params : list TypeParam) : builder.M (option TypeRef) :=
  match t, params with
  | None, _ | _, [] => mret t
  | Some t', _ =>
      refs ← Witnesses params;
      match refs with
      | [] => mret t
      | _ =>
          nodes ← witness_nodes refs;
          mret (Some (substituteNode (bindings params nodes) sat.maxResolveDepth t').1)
      end
  end.

Definition BindTypeArgs (body : option TypeRef) (params : list TypeParam) (args : list TypeRef) : option TypeRef :=
  match body with
  | None => None
  | Some t =>
      if (length params =? 0) || negb (length args =? length params) then body
      else Some (substituteNode (bindings params args) sat.maxResolveDepth t).1
  end.

End Authored.

End wit.

(** * Theorems on witnesses and substitution

    About [GoWitness]: witnesses are chosen for all parameters or none and are
    distinct where derived, and substituting them in a source type and then
    projecting it spells the same type as substituting in the projection. *)

Import wit.

(** ** The choice *)

(** The package and symbol the parameter at position [i] is instantiated at:
    the author's, else the entry of the palette where the constraint admits it. *)
Definition chosen (h : metas) (i : nat) (p : TypeParam) : option (string * string) :=
  match AuthoredWitness h (tp_base p) with
  | Some x => Some x
  | None => if AdmitsAnyBasicType (tp_Constraint p) then (λ n, ("", n)) <$> WitnessPalette !! i else None
  end.

Definition names_type (x : string * string) (r : emit.Ref) : Prop :=
  match r with
  | emit.RBuiltinRef _ n => x = ("", n)
  | emit.RExternalRef _ p n a => x = (p, n) ∧ p ≠ "" ∧ a = []
  | _ => False
  end.

Lemma AuthoredWitnessRef_spec h b w :
  match (AuthoredWitnessRef h b w).1, AuthoredWitness h b with
  | Some r, Some x => names_type x r
  | None, None => True
  | _, _ => False
  end.
Proof.
  unfold AuthoredWitnessRef. destruct (AuthoredWitness h b) as [[pkg symbol]|]; [|done].
  destruct (String.eqb_spec pkg "") as [->|Hp]; cbn; by rewrite ?Hp.
Qed.

(** What the loop from position [i] on gives. *)
Definition loop_ok (h : metas) (i : nat) (params : list TypeParam) (res : option (list emit.Ref)) : Prop :=
  match res with
  | Some refs => Forall2 (λ x r, ∃ y, chosen h x.1 x.2 = Some y ∧ names_type y r) (imap (λ k p, (i + k, p)) params) refs
  | None => ∃ k p, params !! k = Some p ∧ chosen h (i + k) p = None
  end.

Lemma loop_ok_cons h i p params r res x :
  chosen h i p = Some x → names_type x r → loop_ok h (S i) params res →
  loop_ok h i (p :: params) ((λ l, r :: l) <$> res).
Proof.
  intros Hc Hn Hl. destruct res as [refs|]; cbn in *.
  - constructor; [rewrite Nat.add_0_r; eauto|]. erewrite (imap_ext _ (λ k p, (S i + k, p))); [exact Hl|].
    intros k y _. cbn. f_equal. lia.
  - destruct Hl as (k & q & Hk & Hq). exists (S k), q. split; [done|]. by replace (i + S k) with (S (i + k)) by lia.
Qed.

Lemma witness_loop_spec h params i w : loop_ok h i params (witness_loop h i params w).1.
Proof.
  revert i w. induction params as [|p params IH]; intros i w; [by constructor|]. cbn [witness_loop].
  unfold mbind, builder.M_bind, mret, builder.M_ret.
  pose proof (AuthoredWitnessRef_spec h (tp_base p) w) as Ha. destruct (AuthoredWitnessRef h (tp_base p) w) as [[r|] w1]; cbn in Ha.
  - destruct (AuthoredWitness h (tp_base p)) as [x|] eqn:Ex; [|done]. specialize (IH (S i) w1).
    destruct (witness_loop h (S i) params w1) as [res w2]. cbn. eapply loop_ok_cons; [unfold chosen; by rewrite Ex|done|exact IH].
  - destruct (AuthoredWitness h (tp_base p)) as [x|] eqn:Ex; [done|].
    destruct (WitnessPalette !! i) as [n|] eqn:En; [destruct (AdmitsAnyBasicType (tp_Constraint p)) eqn:Ed|].
    + destruct (alloc _ w1) as [r w2] eqn:Er. specialize (IH (S i) w2). destruct (witness_loop h (S i) params w2) as [res w3].
      cbn. eapply (loop_ok_cons _ _ _ _ _ _ ("", n)); [unfold chosen; by rewrite Ex, Ed, En| |exact IH].
      revert Er. unfold alloc, mbind, builder.M_bind, mret, builder.M_ret. by destruct (builder.new w1) as [q w4]; intros [= <- <-].
    + exists 0, p. split; [done|]. rewrite Nat.add_0_r. unfold chosen. by rewrite Ex, Ed.
    + exists 0, p. split; [done|]. rewrite Nat.add_0_r. unfold chosen. rewrite Ex, En. by destruct (AdmitsAnyBasicType _).
Qed.

Lemma Witnesses_spec h params w : loop_ok h 0 params (witness_loop h 0 params w).1 ∧
  (Witnesses h params w).1 = default [] (witness_loop h 0 params w).1.
Proof.
  split; [apply witness_loop_spec|]. unfold Witnesses, mbind, builder.M_bind, mret, builder.M_ret.
  by destruct (witness_loop h 0 params w).
Qed.

Lemma palette_distinct : NoDup WitnessPalette.
Proof. apply (bool_decide_unpack _). vm_compute. exact I. Qed.

Lemma distinct_at_positions (refs : list emit.Ref) :
  (∀ i r, refs !! i = Some r → WitnessPalette !! i = Some (refName r)) → NoDup (refName <$> refs).
Proof.
  intros H. apply NoDup_alt. intros i j x. rewrite !list_lookup_fmap. intros Hi Hj.
  destruct (refs !! i) as [r|] eqn:Ei; [|done]. destruct (refs !! j) as [r'|] eqn:Ej; [|done]. cbn in *. simplify_eq.
  apply H in Ei, Ej. pose proof palette_distinct as Hd. rewrite NoDup_alt in Hd. eapply Hd; [exact Ei|]. rewrite Ej. congruence.
Qed.

(** Witnesses are given for every parameter or for none.  There are none
    exactly when some parameter has no author's choice and either a constraint
    that does not admit every basic type or a position past the palette;
    otherwise each parameter gets the author's type or the entry of the palette
    at its position, and where no author chose the types are distinct. *)
Theorem witnesses_are_all_or_nothing h params w :
  params ≠ [] →
  let refs := (Witnesses h params w).1 in
  (refs = [] ↔ ∃ i p, params !! i = Some p ∧ chosen h i p = None) ∧
  (refs ≠ [] → length refs = length params ∧
     ∀ i p r, params !! i = Some p → refs !! i = Some r → ∃ x, chosen h i p = Some x ∧ names_type x r) ∧
  (Forall (λ p, AuthoredWitness h (tp_base p) = None) params → NoDup (refName <$> refs)).
Proof.
  intros Hp. destruct (Witnesses_spec h params w) as [Hs ->]. cbv zeta.
  destruct (witness_loop h 0 params w).1 as [refs|]; cbn in Hs |- *; [|split_and!; [done|done|by constructor]].
  pose proof (Forall2_length _ _ _ Hs) as Hl. rewrite length_imap in Hl.
  assert (∀ i p r, params !! i = Some p → refs !! i = Some r → ∃ x, chosen h i p = Some x ∧ names_type x r) as Hi.
  { intros i p r Ep Er. apply (Forall2_lookup_lr _ _ _ i (i, p) r Hs); [by rewrite list_lookup_imap, Ep|done]. }
  split_and!; [| done|].
  - split; [intros ->; by destruct params|]. intros (i & p & Ep & Ec). assert (is_Some (refs !! i)) as [r Er].
    { apply lookup_lt_is_Some. rewrite <- Hl. by eapply lookup_lt_Some. }
    destruct (Hi i p r Ep Er) as (x & Ex & _). by rewrite Ex in Ec.
  - intros Ha. apply distinct_at_positions. intros i r Er. assert (is_Some (params !! i)) as [p Ep].
    { apply lookup_lt_is_Some. rewrite Hl. by eapply lookup_lt_Some. }
    destruct (Hi i p r Ep Er) as (x & Ex & Hn). rewrite Forall_lookup in Ha. specialize (Ha i p Ep).
    unfold chosen in Ex. rewrite Ha in Ex. destruct (AdmitsAnyBasicType _); [|done].
    destruct (WitnessPalette !! i) as [n|] eqn:En; [|done]. injection Ex as <-.
    by destruct r; cbn in *; naive_solver.
Qed.

Definition type_param (name raw : string) : TypeParam :=
  MkTypeParam (MkBase 1%positive zero_pos [] []) name (Some (MkConstraint raw [])).

Lemma witnesses_are_all_or_nothing_witness :
  let refs := (Witnesses ∅ [type_param "K" "comparable"; type_param "V" " any "] no_memory).1 in
  refName <$> refs = ["string"; "int"] ∧ NoDup (refName <$> refs).
Proof.
  split; [vm_compute; reflexivity|].
  apply (witnesses_are_all_or_nothing ∅ [type_param "K" "comparable"; type_param "V" " any "] no_memory); [discriminate|].
  repeat constructor.
Defined.

(** An author's choice may be the palette's choice for another parameter, and
    then two parameters have one type. *)
Theorem authored_witness_may_collide :
  let stamped := Meta.after (Set_ MetaWitness NewBag (VString "int") "author") in
  let h : metas := {[ 1%positive := stamped ]} in
  let k := MkTypeParam (MkBase 1%positive zero_pos [] []) "K" None in
  let v := MkTypeParam (MkBase 2%positive zero_pos [] []) "V" None in
  refName <$> (Witnesses h [k; v] no_memory).1 = ["int"; "int"].
Proof. vm_compute. reflexivity. Qed.

(** ** References of the same type

    [lifts n t r]: the reference [r] spells the type [t], which nests less
    than [n] deep: pointers, slices, arrays, maps, and named types with
    arguments. *)
Definition array_shape (e : emit.Ref) (len : Z) : emit.CompositeRef :=
  emit.MkCompositeRef emit.ShapeArray (Some e) len None None [] [] [] [] [].

Fixpoint lifts (n : nat) (t : TypeRef) (r : emit.Ref) : Prop :=
  match n with
  | 0 => False
  | S n =>
      match t_TypeKind t, r with
      | TypeRefPointer, emit.RCompositeRef _ c => ∃ e x, t_Elem t = Some e ∧ c = ptr_shape x ∧ lifts n e x
      | TypeRefSlice, emit.RCompositeRef _ c => ∃ e x, t_Elem t = Some e ∧ c = slice_shape x ∧ lifts n e x
      | TypeRefArray, emit.RCompositeRef _ c => ∃ e x, t_Elem t = Some e ∧ c = array_shape x (t_ArrayLen t) ∧ lifts n e x
      | TypeRefMap, emit.RCompositeRef _ c =>
          ∃ k v x y, t_MapKey t = Some k ∧ t_MapValue t = Some v ∧ c = map_shape x y ∧ lifts n k x ∧ lifts n v y
      | TypeRefTypeParam, emit.RBuiltinRef _ s => s = t_Name t
      | TypeRefNamed, emit.RBuiltinRef _ s => Node.t_Package t = "" ∧ s = t_Name t
      | TypeRefNamed, emit.RExternalRef _ p s args =>
          p ≠ "" ∧ p = Node.t_Package t ∧ s = t_Name t ∧ Forall2 (lifts n) (t_TypeArgs t) args
      | _, _ => False
      end
  end.

(** The types the theorem is about, nested less than [n] deep.  A predeclared
    name is not the name of a parameter, and the parameter nodes are older than
    [next]. *)
Fixpoint substitutable (names : list string) (next : pointer) (n : nat) (t : TypeRef) : Prop :=
  match n with
  | 0 => False
  | S n =>
      match t_TypeKind t with
      | TypeRefPointer | TypeRefSlice | TypeRefArray => ∃ e, t_Elem t = Some e ∧ substitutable names next n e
      | TypeRefMap => ∃ k v, t_MapKey t = Some k ∧ t_MapValue t = Some v ∧
                             substitutable names next n k ∧ substitutable names next n v
      | TypeRefTypeParam => (ref (t_base t) < next)%positive
      | TypeRefNamed => if String.eqb (Node.t_Package t) "" then t_Name t ∉ names
                        else Forall (substitutable names next n) (t_TypeArgs t)
      | _ => False
      end
  end.

Ltac unfold_m := unfold alloc, builder.new, mbind, builder.M_bind, mret, builder.M_ret.

Lemma lift_array t e w : t_TypeKind t = TypeRefArray → t_Elem t = Some e →
  ∃ b w', FromNode_some t w = (emit.RCompositeRef b (array_shape (FromNode_some e w).1 (t_ArrayLen t)), w').
Proof.
  destruct t. cbn. intros -> ->. cbn [FromNode_some]. decide_kinds. unfold_m. destruct (FromNode_some e w). cbn. by do 2 eexists.
Qed.

Lemma lift_param t w : t_TypeKind t = TypeRefTypeParam →
  ∃ b w', FromNode_some t w = (emit.RBuiltinRef b (t_Name t), w').
Proof. destruct t. cbn. intros ->. cbn [FromNode_some]. decide_kinds. unfold_m. cbn. by do 2 eexists. Qed.

Fixpoint lift_args (l : list TypeRef) : builder.M (list emit.Ref) :=
  match l with [] => mret [] | t :: l => x ← FromNode_some t; xs ← lift_args l; mret (x :: xs) end.

Lemma lift_generic t w : t_TypeKind t = TypeRefNamed → Node.t_Package t ≠ "" →
  ∃ b w', FromNode_some t w = (emit.RExternalRef b (Node.t_Package t) (t_Name t) (lift_args (t_TypeArgs t) w).1, w').
Proof.
  destruct t as [? kind pkg ? args]. intros Hk Hp. change (t_TypeKind _) with kind in Hk. change (Node.t_Package _) with pkg in Hp |- *. subst kind. cbn [FromNode_some]. decide_kinds. cbn [Node.t_Package].
  rewrite (proj2 (String.eqb_neq pkg "") Hp). change ((fix go l := match l with [] => mret [] | t :: l => x ← FromNode_some t; xs ← go l; mret (x :: xs) end) args) with (lift_args args).
  unfold_m. cbn. destruct (lift_args args w). cbn. by do 2 eexists.
Qed.

Lemma lift_args_spec (P : TypeRef → emit.Ref → Prop) l w :
  Forall (λ t, ∀ w, P t (FromNode_some t w).1) l → Forall2 P l (lift_args l w).1.
Proof.
  intros H. revert w. induction H as [|t l Ht _ IH]; intros w; cbn; [constructor|]. unfold_m.
  specialize (Ht w). destruct (FromNode_some t w) as [x w1]. specialize (IH w1). destruct (lift_args l w1). by constructor.
Qed.

Lemma FromNode_lifts names next n t w : substitutable names next n t → lifts n t (FromNode_some t w).1.
Proof.
  revert t w. induction n as [|n IH]; intros t w; [done|]. cbn [substitutable]. destruct (t_TypeKind t) eqn:Ek; try done.
  - destruct (String.eqb_spec (Node.t_Package t) "") as [Hp|Hp].
    + intros _. destruct (lift_builtin t w Ek Hp) as (b & w' & ->). cbn. by rewrite Ek.
    + intros Hf. destruct (lift_generic t w Ek Hp) as (b & w' & ->). cbn. rewrite Ek. split_and!; [done..|].
      apply lift_args_spec. eapply Forall_impl; [exact Hf|]. eauto.
  - intros (e & He & Hs). destruct (lift_ptr t e w Ek He) as (b & w' & ->). cbn. rewrite Ek. eauto 10.
  - intros (e & He & Hs). destruct (lift_slice t e w Ek He) as (b & w' & ->). cbn. rewrite Ek. eauto 10.
  - intros (e & He & Hs). destruct (lift_array t e w Ek He) as (b & w' & ->). cbn. rewrite Ek. eauto 10.
  - intros (k & v & Hk & Hv & Hs1 & Hs2). destruct (lift_map t k v w Ek Hk Hv) as (b & w' & w1 & ->). cbn. rewrite Ek. eauto 15.
  - intros _. destruct (lift_param t w Ek) as (b & w' & ->). cbn. by rewrite Ek.
Qed.

Lemma lifts_leaf n t r : lifts 1 t r → lifts (S n) t r.
Proof.
  cbn. destruct (t_TypeKind t), r as [| b p s args | |]; try done; try naive_solver.
  intros (? & ? & ? & Hf). split_and!; [done..|]. inversion Hf as [|x y l k Hx]; [constructor|done].
Qed.

(** ** One step of the rewrite *)

Section Step.
  Context (byN : gmap string TypeRef).

Abbreviation sn d t := (substituteNode byN d t).1.

Lemma subst_step d t : t_TypeKind t ≠ TypeRefTypeParam →
  (sn (S d) t = t ∧ (∀ e, e ∈ option_list (t_Elem t) ++ option_list (t_MapKey t) ++ option_list (t_MapValue t) ++ t_TypeArgs t →
                         (substituteNode byN d e).2 = true)) ∨
  (t_TypeKind (sn (S d) t) = t_TypeKind t ∧ Node.t_Package (sn (S d) t) = Node.t_Package t ∧ t_Name (sn (S d) t) = t_Name t ∧
   t_ArrayLen (sn (S d) t) = t_ArrayLen t ∧ t_Elem (sn (S d) t) = (λ e, sn d e) <$> t_Elem t ∧
   t_MapKey (sn (S d) t) = (λ e, sn d e) <$> t_MapKey t ∧ t_MapValue (sn (S d) t) = (λ e, sn d e) <$> t_MapValue t ∧
   t_TypeArgs (sn (S d) t) = (λ e, sn d e) <$> t_TypeArgs t).
Proof.
  intros Hk. cbn [substituteNode]. rewrite (bool_decide_eq_false_2 _ Hk).
  assert (∀ o : option TypeRef, match o with None => (None, true) | Some x => let '(y, same) := substituteNode byN d x in (Some y, same) end =
    ((λ e, sn d e) <$> o, match o with None => true | Some x => (substituteNode byN d x).2 end)) as Ho.
  { intros [x|]; [|done]. cbn. by destruct (substituteNode byN d x). }
  rewrite !Ho. cbv zeta. destruct (_ && _) eqn:Es.
  - left. split; [done|]. rewrite !andb_true_iff in Es. destruct Es as [[[[[H1 H2] H3] H4] _] _].
    intros e. rewrite !elem_of_app. intros [He|[He|[He|He]]].
    + destruct (t_Elem t); cbn in He; [apply list_elem_of_singleton in He as ->; exact H1|by apply elem_of_nil in He].
    + destruct (t_MapKey t); cbn in He; [apply list_elem_of_singleton in He as ->; exact H2|by apply elem_of_nil in He].
    + destruct (t_MapValue t); cbn in He; [apply list_elem_of_singleton in He as ->; exact H3|by apply elem_of_nil in He].
    + rewrite forallb_forall in H4. apply (H4 (substituteNode byN d e).2). apply list_elem_of_In.
      apply list_elem_of_fmap. eexists. split; [done|]. apply list_elem_of_fmap. by eexists.
  - right. cbn. split_and!; [done..|]. change (List.map (substituteNode byN d) (t_TypeArgs t)) with (substituteNode byN d <$> t_TypeArgs t). by rewrite <- list_fmap_compose.
Qed.

End Step.

(** ** Substitution before and after projection *)

Definition bound_alike (next : pointer) (names : list string) (byN : gmap string TypeRef) (byR : gmap string emit.Ref) : Prop :=
  ∀ s, match byN !! s, byR !! s with
       | Some t, Some r => lifts 1 t r ∧ (next <= ref (t_base t))%positive ∧ s ∈ names
       | None, None => True
       | _, _ => False
       end.

Lemma subst_same next names byN byR n d t :
  bound_alike next names byN byR → substitutable names next n t → n ≤ d →
  (substituteNode byN d t).2 = true → (substituteNode byN d t).1 = t.
Proof.
  intros Hb Hs Hd. destruct n as [|n]; [done|]. destruct d as [|d]; [lia|]. cbn [substituteNode].
  case_bool_decide as Hk.
  - cbn in Hs. rewrite Hk in Hs. specialize (Hb (t_Name t)). destruct (byN !! t_Name t) as [b|]; [|done].
    destruct (byR !! t_Name t); [|done]. destruct Hb as (_ & Hn & _). cbn. unfold same_object. rewrite bool_decide_eq_true.
    intros E. rewrite E in Hn. lia.
  - repeat match goal with |- context [match ?o with None => (None, true) | Some x => @?f x end] => destruct (match o with None => (None, true) | Some x => f x end) end.
    cbv zeta. destruct (_ && _); [done|]. discriminate.
Qed.

Lemma subst_args next names (byR : gmap string emit.Ref) n args rs (f : TypeRef → TypeRef) :
  (∀ t r, substitutable names next n t → lifts n t r → lifts n (f t) (subst_ref byR r)) →
  Forall (substitutable names next n) args → Forall2 (lifts n) args rs → Forall2 (lifts n) (f <$> args) (List.map (subst_ref byR) rs).
Proof.
  intros Hf Hs H. induction H as [|t r args rs Ht _ IH]; [constructor|]. apply Forall_cons in Hs as [Hs1 Hs2].
  constructor; [by apply Hf|by apply IH].
Qed.

(** The fields of a rewritten type that its reference depends on. *)
Lemma subst_fields next names byN byR n d t :
  bound_alike next names byN byR → n ≤ d → t_TypeKind t ≠ TypeRefTypeParam →
  let t' := (substituteNode byN (S d) t).1 in
  let rec e := (substituteNode byN d e).1 in
  let ok e := substitutable names next n e in
  t_TypeKind t' = t_TypeKind t ∧ Node.t_Package t' = Node.t_Package t ∧ t_Name t' = t_Name t ∧ t_ArrayLen t' = t_ArrayLen t ∧
  (∀ e, t_Elem t = Some e → ok e → t_Elem t' = Some (rec e)) ∧
  (∀ e, t_MapKey t = Some e → ok e → t_MapKey t' = Some (rec e)) ∧
  (∀ e, t_MapValue t = Some e → ok e → t_MapValue t' = Some (rec e)) ∧
  (Forall ok (t_TypeArgs t) → t_TypeArgs t' = rec <$> t_TypeArgs t).
Proof.
  intros Hb Hd Hk. cbv zeta. assert (∀ e, substitutable names next n e → (substituteNode byN d e).2 = true → (substituteNode byN d e).1 = e) as Hsame.
  { intros e He. by apply (subst_same next names byN byR n). }
  destruct (subst_step byN d t Hk) as [[-> Hin]|(-> & -> & -> & -> & -> & -> & -> & ->)].
  - split_and!; [done..| | | |].
    + intros e He Ho. rewrite Hsame; [done|done|]. apply Hin. rewrite He. set_solver.
    + intros e He Ho. rewrite Hsame; [done|done|]. apply Hin. rewrite He. set_solver.
    + intros e He Ho. rewrite Hsame; [done|done|]. apply Hin. rewrite He. set_solver.
    + intros Ho. symmetry. rewrite <- (list_fmap_id (t_TypeArgs t)) at 2. apply list_fmap_ext. intros i e He.
      apply Hsame; [by eapply Forall_lookup_1|]. apply Hin. rewrite !elem_of_app. do 3 right. by eapply list_elem_of_lookup_2.
  - split_and!; [done..| | | |done]; by intros e ->.
Qed.

Lemma subst_lifts next names byN byR n d t r :
  bound_alike next names byN byR → substitutable names next n t → n ≤ d → lifts n t r →
  lifts n (substituteNode byN d t).1 (subst_ref byR r).
Proof.
  intros Hb. revert d t r. induction n as [|n IH]; intros d t r Hs Hd Hl; [done|]. destruct d as [|d]; [lia|].
  destruct (decide (t_TypeKind t = TypeRefTypeParam)) as [Hk|Hk].
  { cbn [substituteNode]. rewrite bool_decide_eq_true_2 by done. cbn in Hl. rewrite Hk in Hl. destruct r as [| |b s|]; try done. subst s.
    cbn [subst_ref]. specialize (Hb (t_Name t)). destruct (byN !! t_Name t) as [x|], (byR !! t_Name t) as [y|]; try done.
    - apply lifts_leaf, Hb.
    - cbn. by rewrite Hk. }
  destruct (subst_fields next names byN byR n d t Hb ltac:(lia) Hk) as (Ek & Ep & En & Elen & Ee & Eke & Eve & Ea).
  assert (∀ e x, substitutable names next n e → lifts n e x → lifts n (substituteNode byN d e).1 (subst_ref byR x)) as IH'.
  { intros e x He Hx. apply IH; [done|lia|done]. }
  cbn [lifts substitutable] in Hs, Hl |- *. rewrite Ek, Ep, En, Elen. clear Ek Ep En Elen IH.
  destruct (t_TypeKind t); try done; destruct r as [|b p s args|b s|b c]; try done.
  - destruct Hl as (Hp0 & -> & -> & Hf). rewrite (proj2 (String.eqb_neq _ _) Hp0) in Hs. cbn [subst_ref]. rewrite (Ea Hs). split_and!; [done..|].
    by eapply subst_args.
  - destruct Hl as [Hp0 ->]. rewrite Hp0 in Hs. cbn [subst_ref String.eqb] in Hs |- *. specialize (Hb (t_Name t)).
    destruct (byR !! t_Name t) as [y|]; [|done]. by destruct (byN !! t_Name t); [destruct Hb as (_ & _ & ?)|].
  - destruct Hl as (e & x & He & -> & Hx), Hs as (e' & He' & Hs). rewrite He in He'. injection He' as <-. cbn [subst_ref]. rewrite (Ee e He Hs).
    eexists _, (subst_ref byR x). split_and!; [done|reflexivity|by apply IH'].
  - destruct Hl as (e & x & He & -> & Hx), Hs as (e' & He' & Hs). rewrite He in He'. injection He' as <-. cbn [subst_ref]. rewrite (Ee e He Hs).
    eexists _, (subst_ref byR x). split_and!; [done|reflexivity|by apply IH'].
  - destruct Hl as (e & x & He & -> & Hx), Hs as (e' & He' & Hs). rewrite He in He'. injection He' as <-. cbn [subst_ref]. rewrite (Ee e He Hs).
    eexists _, (subst_ref byR x). split_and!; [done|reflexivity|by apply IH'].
  - destruct Hl as (k & v & x & y & Hkey & Hv & -> & Hx & Hy), Hs as (k' & v' & Hkey' & Hv' & Hs1 & Hs2).
    rewrite Hkey in Hkey'. rewrite Hv in Hv'. injection Hkey' as <-. injection Hv' as <-. cbn [subst_ref]. rewrite (Eke k Hkey Hs1), (Eve v Hv Hs2).
    eexists _, _, (subst_ref byR x), (subst_ref byR y). split_and!; [done|done|reflexivity|by apply IH'..].
Qed.

(** ** Bindings *)

Lemma bindings_alike next params refs nodes :
  Forall2 (λ t r, lifts 1 t r ∧ (next <= ref (t_base t))%positive) nodes refs →
  bound_alike next (tp_Name <$> params) (bindings params nodes) (bindings params refs).
Proof.
  intros Hf. assert (∀ (ps : list TypeParam) (mN : gmap string TypeRef) (mR : gmap string emit.Ref) names,
    bound_alike next names mN mR → (∀ p, p ∈ ps → tp_Name p ∈ names) →
    bound_alike next names (foldl (λ m x, <[tp_Name x.1 := x.2]> m) mN (zip ps nodes))
                           (foldl (λ m x, <[tp_Name x.1 := x.2]> m) mR (zip ps refs))) as Hgen.
  { induction Hf as [|t r nodes refs [Hl Hn] _ IH]; intros [|p ps] mN mR names Hb Hin; try done. cbn. apply IH.
    - intros s. destruct (decide (s = tp_Name p)) as [->|Hs].
      + rewrite !lookup_insert_eq. split_and!; [done|done|]. apply Hin. by left.
      + rewrite !lookup_insert_ne by done. apply Hb.
    - intros q Hq. apply Hin. by right. }
  apply Hgen; [intros s; by rewrite !lookup_empty|]. intros p Hp. apply list_elem_of_fmap. eauto.
Qed.

Lemma witness_nodes_spec refs w : Forall (λ r, ∃ x, names_type x r) refs →
  Forall2 (λ t r, lifts 1 t r ∧ (builder.w_next w <= ref (t_base t))%positive) (witness_nodes refs w).1 refs.
Proof.
  intros H. revert w. induction H as [|r refs [x Hx] _ IH]; intros w; cbn [witness_nodes]; [constructor|].
  assert (∃ t w', witnessNode r w = (t, w') ∧ lifts 1 t r ∧ ref (t_base t) = builder.w_next w ∧ builder.w_next w' = Pos.succ (builder.w_next w))
    as (t & w' & E & Hl & Hr & Hw).
  { unfold witnessNode. destruct r; try done; cbn in Hx; unfold_m; do 2 eexists; (split; [reflexivity|]); cbn.
    - destruct Hx as (_ & Hp & ->). by split_and!.
    - by split_and!. }
  unfold mbind, builder.M_bind, mret, builder.M_ret. rewrite E. specialize (IH w'). destruct (witness_nodes refs w') as [ts w2].
  cbn. constructor; [split; [done|lia]|]. eapply Forall2_impl; [exact IH|]. cbn. intros ? ? [? ?]. split; [done|lia].
Qed.

(** What the loop allocates only moves the next address up. *)
Lemma AuthoredWitnessRef_next h b w : (builder.w_next w <= builder.w_next (AuthoredWitnessRef h b w).2)%positive.
Proof.
  unfold AuthoredWitnessRef. destruct (AuthoredWitness h b) as [[pkg symbol]|]; [|done]. destruct (String.eqb pkg ""); unfold_m; cbn; lia.
Qed.

Lemma witness_loop_next h i params w : (builder.w_next w <= builder.w_next (witness_loop h i params w).2)%positive.
Proof.
  revert i w. induction params as [|p params IH]; intros i w; cbn [witness_loop]; [done|].
  unfold mbind, builder.M_bind, mret, builder.M_ret.
  pose proof (AuthoredWitnessRef_next h (tp_base p) w) as Ha. destruct (AuthoredWitnessRef h (tp_base p) w) as [[r|] w1]; cbn in Ha.
  - specialize (IH (S i) w1). destruct (witness_loop h (S i) params w1). cbn in *. lia.
  - destruct (WitnessPalette !! i) as [n|]; [destruct (AdmitsAnyBasicType _)|]; cbn; [|done..]. unfold_m. cbn.
    set (w2 := builder.MkWorld _ _ _ _ _ _). specialize (IH (S i) w2). destruct (witness_loop h (S i) params w2).
    cbn in *. lia.
Qed.

Lemma relift n t r w : lifts n t r → lifts n t (FromNode_some t w).1.
Proof.
  revert t r w. induction n as [|n IH]; intros t r w; [done|]. cbn [lifts]. destruct (t_TypeKind t) eqn:Ek; try done; destruct r as [|b0 p s args|b0 s|b0 c]; try done.
  - intros (Hp & -> & _ & Hf). destruct (lift_generic t w Ek Hp) as (b & w' & ->). split_and!; [done..|].
    apply lift_args_spec. eapply Forall2_Forall_l; [exact Hf|]. apply Forall_forall. eauto.
  - intros (Hp & _). by destruct (lift_builtin t w Ek Hp) as (b & w' & ->).
  - intros (e & x & He & _ & Hs). destruct (lift_ptr t e w Ek He) as (b & w' & ->). cbn. eauto 10.
  - intros (e & x & He & _ & Hs). destruct (lift_slice t e w Ek He) as (b & w' & ->). cbn. eauto 10.
  - intros (e & x & He & _ & Hs). destruct (lift_array t e w Ek He) as (b & w' & ->). cbn. eauto 10.
  - intros (k & v & x & y & Hk & Hv & _ & Hs1 & Hs2). destruct (lift_map t k v w Ek Hk Hv) as (b & w' & w1 & ->). cbn. eauto 15.
  - intros _. by destruct (lift_param t w Ek) as (b & w' & ->).
Qed.

Lemma FromNode_fst t w : (FromNode (Some t) w).1 = Some (FromNode_some t w).1.
Proof. unfold FromNode, mbind, builder.M_bind, mret, builder.M_ret. by destruct (FromNode_some t w). Qed.

Lemma bindings_nonempty {A} p params (r : A) refs : bindings (p :: params) (r :: refs) ≠ ∅.
Proof.
  unfold bindings. cbn. assert (∀ l (m : gmap string A), m ≠ ∅ → foldl (λ m x, <[tp_Name x.1 := x.2]> m) m l ≠ ∅) as Hf.
  { induction l as [|x l IH]; intros m Hm; [done|]. apply IH, insert_non_empty. }
  apply Hf, insert_non_empty.
Qed.

(** C30: Substituting witnesses before projecting a type or after gives the
    same type, for the types [substitutable] describes: type parameters,
    pointers, slices, arrays and maps, types of a package with such arguments,
    and predeclared names that are not the name of a parameter, nested less
    than ten deep.  Once witnesses exist, the reference got by projecting the
    type and substituting in the projection, and the one got by substituting in
    the source type and projecting the result, spell the same type.  Function
    types and anonymous structs and interfaces are not covered: the code does
    not rewrite them ([function_types_keep_their_parameters],
    [anonymous_structs_keep_their_parameters]). *)
Theorem substitution_commutes_with_projection h t params w w1 w2 :
  let refs := (Witnesses h params w).1 in
  refs ≠ [] → substitutable (tp_Name <$> params) (builder.w_next w) sat.maxResolveDepth t →
  ∃ by_ t' r r',
    WitnessBindings params refs = Some by_ ∧
    SubstituteTypeParams (FromNode (Some t) w1).1 by_ = Some r ∧
    (SubstituteParamsNode h (Some t) params w).1 = Some t' ∧ (FromNode (Some t') w2).1 = Some r' ∧
    lifts sat.maxResolveDepth t' r ∧ lifts sat.maxResolveDepth t' r'.
Proof.
  intros refs Hne Hs. destruct (Witnesses_spec h params w) as [Hok Href]. fold refs in Href.
  destruct (witness_loop h 0 params w) as [[l|] w'] eqn:El; cbn in Hok, Href; [|done]. subst l.
  assert (length params = length refs) as Hlen by (apply Forall2_length in Hok; by rewrite length_imap in Hok).
  assert (Forall (λ r, ∃ x, names_type x r) refs) as Hn.
  { apply Forall_lookup. intros i r Er. destruct (Forall2_lookup_r _ _ _ _ _ Hok Er) as (? & _ & x & _ & Hx). eauto. }
  assert (builder.w_next w <= builder.w_next w')%positive as Hw.
  { pose proof (witness_loop_next h 0 params w) as Hx. by rewrite El in Hx. }
  pose proof (witness_nodes_spec refs w' Hn) as Hnodes. set (nodes := (witness_nodes refs w').1) in Hnodes.
  assert (bound_alike (builder.w_next w) (tp_Name <$> params) (bindings params nodes) (bindings params refs)) as Hb.
  { apply bindings_alike. eapply Forall2_impl; [exact Hnodes|]. cbn. intros ? ? [? ?]. split; [done|lia]. }
  pose proof (FromNode_lifts _ _ _ _ w1 Hs) as Hl1. pose proof (subst_lifts _ _ _ _ _ _ _ _ Hb Hs (le_n _) Hl1) as Hl.
  set (t' := (substituteNode (bindings params nodes) sat.maxResolveDepth t).1) in Hl.
  exists (bindings params refs), t', (subst_ref (bindings params refs) (FromNode_some t w1).1), (FromNode_some t' w2).1.
  destruct params as [|p params]; [by destruct refs|]. split_and!.
  - unfold WitnessBindings. rewrite Hlen, Nat.eqb_refl. by destruct (length refs).
  - rewrite FromNode_fst. unfold SubstituteTypeParams. rewrite bool_decide_eq_false_2; [done|].
    destruct refs as [|r refs]; [done|]. apply bindings_nonempty.
  - unfold SubstituteParamsNode, mbind, builder.M_bind, mret, builder.M_ret. unfold Witnesses, mbind, builder.M_bind, mret, builder.M_ret. rewrite El. cbn [default from_option id].
    unfold t', nodes. destruct refs as [|r refs']; [done|]. by destruct (witness_nodes (r :: refs') w').
  - apply FromNode_fst.
  - exact Hl.
  - by eapply relift.
Qed.

Definition map_of_params : TypeRef :=
  map_type (MkTypeRef (MkBase 1%positive zero_pos [] []) TypeRefTypeParam "" "K" [] None 0 None None [] [] [] [] [])
           (ptr_type (MkTypeRef (MkBase 2%positive zero_pos [] []) TypeRefTypeParam "" "V" [] None 0 None None [] [] [] [] [])).
Definition some_memory : builder.world := builder.MkWorld 10%positive ∅ ∅ ∅ ∅ ∅.

Lemma substitutable_map names next n t k v :
  t_TypeKind t = TypeRefMap → t_MapKey t = Some k → t_MapValue t = Some v →
  substitutable names next n k → substitutable names next n v → substitutable names next (S n) t.
Proof. intros Hk. cbn [substitutable]. rewrite Hk. eauto 10. Qed.
Lemma substitutable_ptr names next n t e :
  t_TypeKind t = TypeRefPointer → t_Elem t = Some e → substitutable names next n e → substitutable names next (S n) t.
Proof. intros Hk. cbn [substitutable]. rewrite Hk. eauto. Qed.
Lemma substitutable_param names next n t :
  t_TypeKind t = TypeRefTypeParam → (ref (t_base t) < next)%positive → substitutable names next (S n) t.
Proof. intros Hk. cbn [substitutable]. by rewrite Hk. Qed.

Lemma substitution_commutes_with_projection_witness :
  ∃ by_ t' r r',
    WitnessBindings [type_param "K" "comparable"; type_param "V" "any"]
      (Witnesses ∅ [type_param "K" "comparable"; type_param "V" "any"] some_memory).1 = Some by_ ∧
    SubstituteTypeParams (FromNode (Some map_of_params) some_memory).1 by_ = Some r ∧
    (SubstituteParamsNode ∅ (Some map_of_params) [type_param "K" "comparable"; type_param "V" "any"] some_memory).1 = Some t' ∧
    (FromNode (Some t') some_memory).1 = Some r' ∧ lifts sat.maxResolveDepth t' r ∧ lifts sat.maxResolveDepth t' r'.
Proof.
  apply (substitution_commutes_with_projection ∅ map_of_params [type_param "K" "comparable"; type_param "V" "any"]); [by vm_compute|].
  eapply substitutable_map; [reflexivity..| |].
  - apply substitutable_param; by vm_compute.
  - eapply substitutable_ptr; [reflexivity..|]. apply substitutable_param; by vm_compute.
Defined.

(** ** Findings *)

(** A function type in a projection keeps the parameter it names. *)
Theorem function_types_keep_their_parameters b :
  let f := emit.RCompositeRef b (emit.MkCompositeRef emit.ShapeFunc None 0%Z None None [emit.RBuiltinRef b "T"] [] [] [] []) in
  SubstituteTypeParams (Some f) {[ "T" := emit.RBuiltinRef b "string" ]} = Some f.
Proof. done. Qed.

(** The fields of an anonymous struct keep it in both. *)
Theorem anonymous_structs_keep_their_parameters b by_ depth name :
  let t := MkTypeRef b TypeRefTypeParam "" name [] None 0 None None [] [] [] [] [] in
  let s := MkTypeRef b TypeRefAnonStruct "" "" [] None 0 None None [] [] [MkField b "F" (Some t) ""] [] [] in
  (substituteNode by_ depth s).1 = s.
Proof. by destruct depth. Qed.
