(* ===== verification/GoSample.v ===== *)
(** * lang/golang: sample and zero values

    [src/lang/golang/sample.go] with [src/emit/sample.go], the authored half of
    [src/emit/sample_authored.go], and the value tables of [values.go] and
    [literals.go]: the pair of values a generated check writes for a type, and
    the zero of a type.

    The walk allocates references and expressions, and stamps metadata on the
    channel types it makes.  Those nodes are new and the walk never reads them,
    so their bags are collected apart, in the first component of the state.
    A resolver that reports a declaration gives one ([node.Resolver]).  A nil
    argument, which [convertExpr] writes when only the first value of a type was
    authored, is left out of the list of arguments. *)

From S2P Require Import Prelude GoStrings Position Meta Directive Unicode FilePath Node NodeQueries Emit Naming EmitCtors GoIdents GoQuote GoTypes GoSignatures GoEmbed EmitBuilder GoRefs GoSatisfies GoWitness.

Local Open Scope string_scope.
Local Open Scope nat_scope.
Local Open Scope list_scope.

Module samples.

(** ** [emit/sample.go] *)

Inductive SampleRefusal := RefusedNone | RefusedNoResolver | RefusedDepth | RefusedUnresolved | RefusedNoLiteral.
#[export] Instance SampleRefusal_eq_dec : EqDecision SampleRefusal.
Proof. solve_decision. Defined.

Definition SampleRefusal_String (r : SampleRefusal) : string :=
  match r with
  | RefusedNone => "none" | RefusedNoResolver => "no-resolver" | RefusedDepth => "depth"
  | RefusedUnresolved => "unresolved" | RefusedNoLiteral => "no-literal"
  end.
Definition Incomplete (r : SampleRefusal) : bool :=
  match r with RefusedNoResolver | RefusedDepth | RefusedUnresolved => true | _ => false end.

Record Sample := MkSample {
  sa_Ref : option emit.Ref;
  sa_Text : string;
  sa_Expr : option emit.Expr;
  sa_Composite : bool;
  sa_Refusal : SampleRefusal;
}.

Definition OK (s : Sample) : bool := negb (String.eqb (sa_Text s) "") || bool_decide (is_Some (sa_Expr s)).

Definition literalSample (text : string) : Sample := MkSample None text None false RefusedNone.
Definition expr_sample (e : emit.Expr) : Sample := MkSample None "" (Some e) false RefusedNone.
Definition typed_sample (ref : emit.Ref) (text : string) (composite : bool) : Sample :=
  MkSample (Some ref) text None composite RefusedNone.
Definition refused_one (why : SampleRefusal) : Sample := MkSample None "" None false why.
Definition refused (why : SampleRefusal) : Sample * Sample := (refused_one why, refused_one why).

(** ** State *)

Definition state : Type := metas * builder.world.
Definition G (A : Type) : Type := state → A * state.
#[export] Instance G_ret : MRet G := λ A a s, (a, s).
#[export] Instance G_bind : MBind G := λ A B f m s, let '(a, s) := m s in f a s.

Definition lift {A} (m : builder.M A) : G A := λ '(st, w), let '(a, w) := m w in (a, (st, w)).
Definition fresh {A} (f : pointer → A) : G A := lift (alloc f).
Definition stamp (p : pointer) (b : Bag) : G () := λ '(st, w), ((), (<[p := b]> st, w)).

Fixpoint each {A B} (f : A → G B) (l : list A) : G (list B) :=
  match l with [] => mret [] | x :: l => y ← f x; ys ← each f l; mret (y :: ys) end.

(** ** [values.go] and [literals.go] *)

Section Lower.
  Context `{CaseTables}.

(** [strings.ToLower] *)
Definition ToLower (s : string) : string := foldr String.append "" ((λ x, encode_rune (to_lower x.1)) <$> runes s).

Definition quoted_text (s : string) : string := String dquote (s +:+ String dquote "").

(** Two empty texts where the table has no entry. *)
Definition SampleValues (typeName fieldName : string) : string * string :=
  let lower := ToLower fieldName in
  if String.eqb typeName typeString then (quoted_text ("test-" +:+ lower), quoted_text ("other-" +:+ lower))
  else if String.eqb typeName typeBool then ("true", "false")
  else if String.eqb typeName typeFloat32 || String.eqb typeName typeFloat64 then ("3.14", "2.72")
  else if String.eqb typeName typeComplex64 || String.eqb typeName typeComplex128 then ("1 + 2i", "3 + 4i")
  else if bool_decide (typeName ∈ integerBuiltins) then ("42", "7")
  else ("", "").

End Lower.

Definition litNil : string := "nil".
Definition litFalse : string := "false".
Definition litEmpty : string := String dquote (String dquote "").
Definition litZero : string := "0".

Definition numericBuiltins : list string :=
  integerBuiltins ++ [typeFloat32; typeFloat64; typeComplex64; typeComplex128].

Abbreviation Finder := (TypeRef → option Node).

Section Zero.
  Context (h : metas) (r : option Finder).

Definition ZeroLiteral (t : option TypeRef) : option string :=
  match t with
  | None => None
  | Some t' =>
      if NodeQueries.IsPointer t' || NodeQueries.IsSlice t' || NodeQueries.IsMap t' || NodeQueries.IsFunc t' || NodeQueries.IsAnonInterface t'
      then Some litNil
      else if IsChannel h t then Some litNil
      else if NodeQueries.IsArray t' then None
      else if NodeQueries.IsAnonStruct t' then None
      else if negb (NodeQueries.IsBuiltin t') then
        if IsInterface h t || IsError h t then Some litNil else None
      else if String.eqb (t_Name t') typeBool then Some litFalse
      else if String.eqb (t_Name t') typeString then Some litEmpty
      else if String.eqb (t_Name t') typeError || String.eqb (t_Name t') typeAny then Some litNil
      else if bool_decide (t_Name t' ∈ numericBuiltins) then Some litZero
      else None
  end.

Definition spellableAsString (t : option TypeRef) : bool :=
  match t with Some t => String.eqb (Node.t_Package t) "" | None => false end.

Fixpoint zeroLiteralFor (depth : nat) (t : option TypeRef) : option string :=
  match ZeroLiteral t with
  | Some lit => Some lit
  | None =>
      match t, r, depth with
      | Some t', Some res, S depth =>
          if NodeQueries.IsArray t' then
            let elem := (ArrayElem t).1 in
            if spellableAsString elem then Some ("[" +:+ itoa (t_ArrayLen t') +:+ "]" +:+ QName elem +:+ "{}") else None
          else if negb (bool_decide (t_TypeKind t' = TypeRefNamed)) then None
          else match res t' with
               | Some (NAlias decl) =>
                   match zeroLiteralFor depth (a_Target decl) with
                   | None => None
                   | Some inner =>
                       if String.eqb inner litNil then Some litNil
                       else if negb (spellableAsString t) then None
                       else Some (QName t +:+ "(" +:+ inner +:+ ")")
                   end
               | Some (NStruct _) => if negb (spellableAsString t) then None else Some (QName t +:+ "{}")
               | Some (NInterface _) => Some litNil
               | _ => None
               end
      | _, _, _ => None
      end
  end.
Definition ZeroLiteralFor (t : option TypeRef) : option string := zeroLiteralFor sat.maxResolveDepth t.

(** The zero with its type; the chain of definitions has no bound of its own
    in the code, so [None] stands for a walk longer than the fuel. *)
Fixpoint ZeroRefFor (fuel : nat) (t : option TypeRef) : G (option (Sample * bool)) :=
  match ZeroLiteralFor t with
  | Some lit => mret (Some (literalSample lit, true))
  | None =>
      match t, r with
      | Some t', Some res =>
          if negb (bool_decide (t_TypeKind t' = TypeRefNamed)) then mret (Some (refused_one RefusedNoLiteral, false))
          else match res t' with
               | None => mret (Some (refused_one RefusedUnresolved, false))
               | Some (NAlias decl) =>
                   match a_Target decl, fuel with
                   | None, _ => mret (Some (refused_one RefusedUnresolved, false))
                   | Some _, 0 => mret None
                   | Some target, S fuel =>
                       inner ← ZeroRefFor fuel (Some target);
                       match inner with
                       | None => mret None
                       | Some (s, false) => mret (Some (refused_one (sa_Refusal s), false))
                       | Some (s, true) =>
                           match sa_Ref s with
                           | Some _ => mret (Some (refused_one RefusedNoLiteral, false))
                           | None => ref ← lift (FromNode_some t'); mret (Some (typed_sample ref (sa_Text s) false, true))
                           end
                       end
                   end
               | Some (NStruct _) => ref ← lift (FromNode_some t'); mret (Some (typed_sample ref "{}" true, true))
               | Some _ => mret (Some (refused_one RefusedNoLiteral, false))
               end
      | _, _ => mret (Some (refused_one RefusedNoResolver, false))
      end
  end.

End Zero.

(** ** Parts of [sample.go] *)

Definition trimBraces (text : string) : string := trim_suffix (trim_prefix text "{") "}".

Definition SamplePart (s : Sample) : G emit.Expr :=
  match sa_Expr s, sa_Ref s with
  | Some e, _ => mret e
  | None, Some ref =>
      if sa_Composite s then
        body ← fresh (λ p, ctor.NewRawExpr p (trimBraces (sa_Text s)));
        fresh (λ p, ctor.NewComposite p (Some ref) [body])
      else fresh (λ p, ctor.NewRawExpr p (sa_Text s))
  | None, None => fresh (λ p, ctor.NewRawExpr p (sa_Text s))
  end.

Definition elemComposite (ref : emit.Ref) (elem : Sample) : G emit.Expr :=
  part ← SamplePart elem; fresh (λ p, ctor.NewComposite p (Some ref) [part]).
Definition keyedComposite (ref : emit.Ref) (key : string) (val : Sample) : G emit.Expr :=
  part ← SamplePart val; fresh (λ p, ctor.NewCompositeKeyed p (Some ref) [key] [part]).

Fixpoint typeExpr (t : TypeRef) : G emit.Expr :=
  let exprs := fix go l : G (list emit.Expr) :=
                 match l with [] => mret [] | t :: l => x ← typeExpr t; xs ← go l; mret (x :: xs) end in
  match t with
  | MkTypeRef _ _ pkg name typeArgs _ _ _ _ _ _ _ _ _ =>
      base ← fresh (λ p, if String.eqb pkg "" then ctor.NewIdent p name else ctor.NewExternal p pkg name);
      args ← exprs typeArgs;
      match args with
      | [] => mret base
      | [arg] => fresh (λ p, ctor.NewIndex p (Some base) (Some arg))
      | _ => fresh (λ p, ctor.NewIndexList p (Some base) args)
      end
  end.

Definition convertExpr (t : TypeRef) (inner : Sample) : G emit.Expr :=
  callee ← typeExpr t; fresh (λ p, ctor.NewCall p (Some callee) (option_list (sa_Expr inner))).

(** Two texts after the same type, or two expressions. *)
Definition text_pair (ref : emit.Ref) (composite : bool) (a b : string) : Sample * Sample :=
  (typed_sample ref a composite, typed_sample ref b composite).
Definition expr_pair (f : Sample → G emit.Expr) (a b : Sample) : G (Sample * Sample) :=
  x ← f a; y ← f b; mret (expr_sample x, expr_sample y).

(** ** The standard library *)

Definition pkgTime : string := "time".
Definition timeUnix (sec : Z) : G emit.Expr :=
  callee ← fresh (λ p, ctor.NewExternal p pkgTime "Unix");
  a ← fresh (λ p, ctor.NewLiteralInt p sec); b ← fresh (λ p, ctor.NewLiteralInt p 0);
  fresh (λ p, ctor.NewCall p (Some callee) [a; b]).
Definition durationSample (t : TypeRef) : G (Sample * Sample) :=
  ref ← lift (FromNode_some t); mret (text_pair ref false "42" "7").
Definition timeSample (t : TypeRef) : G (Sample * Sample) :=
  a ← timeUnix 42; b ← timeUnix 7; mret (expr_sample a, expr_sample b).
Definition stdlibSample (t : TypeRef) : option (G (Sample * Sample)) :=
  if String.eqb (Node.t_Package t) pkgTime then
    if String.eqb (t_Name t) "Duration" then Some (durationSample t)
    else if String.eqb (t_Name t) "Time" then Some (timeSample t) else None
  else None.

(** ** Functions and channels *)

Definition func_result (i : nat) (res : TypeRef) : G (emit.Ref * emit.Stmt * emit.Expr) :=
  let name := "r" +:+ itoa (Z.of_nat i) in
  ret ← lift (FromNode_some res);
  declType ← lift (FromNode_some res);
  decl ← fresh (λ p, ctor.NewVarStmt p name (Some declType) None);
  e ← fresh (λ p, ctor.NewIdent p name);
  mret (ret, decl, e).
Definition func_param (param : TypeRef) : G emit.Param :=
  ref ← lift (FromNode_some param); fresh (λ p, emit.MkParam (ctor.zero_base p) "" (Some ref) false).
Definition func_literal (t : TypeRef) : G emit.Expr :=
  params ← each func_param (t_FuncParams t);
  match t_FuncReturns t with
  | [] => fresh (λ p, ctor.NewFuncLit p params [] [])
  | returns =>
      rs ← each (λ x, func_result x.1 x.2) (imap pair returns);
      ret ← fresh (λ p, ctor.NewReturn p rs.*2);
      fresh (λ p, ctor.NewFuncLit p params rs.*1.*1 (rs.*1.*2 ++ [ret]))
  end.
Definition funcSample (t : TypeRef) : G (Sample * Sample) :=
  a ← func_literal t; b ← func_literal t; mret (expr_sample a, expr_sample b).

Definition sampleStampedBy : string := "lang/golang.sample".
Definition chan_bag : Bag :=
  Meta.after (Set_ MetaChanDir (Meta.after (Set_ MetaIsChannel NewBag (VBool true) sampleStampedBy)) (VString "both") sampleStampedBy).
Definition made_chan (p : pointer) (elem : TypeRef) : TypeRef :=
  MkTypeRef (MkBase p zero_pos [] []) TypeRefNamed "go" "chan" [elem] None 0 None None [] [] [] [] [].
Definition chan_make (elem : TypeRef) : G emit.Expr :=
  made ← fresh (λ p, made_chan p elem);
  stamp (ref (t_base made)) chan_bag;;
  typ ← lift (FromNode_some made);
  fresh (λ p, ctor.NewMake p (Some typ) []).
Definition chanSample (h : metas) (t : TypeRef) : G (Sample * Sample) :=
  match ChanElem h (Some t) with
  | None => mret (refused RefusedNoLiteral)
  | Some elem => a ← chan_make elem; b ← chan_make elem; mret (expr_sample a, expr_sample b)
  end.

(** ** What an author named *)

Definition authored_call (x : string * string) : G Sample :=
  callee ← fresh (λ p, ctor.NewExternal p x.1 x.2); e ← fresh (λ p, ctor.NewCall p (Some callee) []); mret (expr_sample e).
Definition AuthoredSampleOf (h : metas) (b : BaseNode) : G (option Sample) :=
  match wit.AuthoredSample h b with None => mret None | Some x => s ← authored_call x; mret (Some s) end.
Definition AuthoredAlternateOf (h : metas) (b : BaseNode) : G (option Sample) :=
  match wit.AuthoredAlternate h b with None => mret None | Some x => s ← authored_call x; mret (Some s) end.
Definition authoredOver (h : metas) (target : Node) (sample alternate : Sample) : G (Sample * Sample) :=
  s ← AuthoredSampleOf h (node_base target);
  a ← AuthoredAlternateOf h (node_base target);
  mret (default sample s, default alternate a).

(** ** The walk

    [rec] is the walk with one level less to go. *)
Section Walk.
  Context `{CaseTables} (h : metas) (r : option Finder) (fieldName : string).

Section Arms.
  Context (rec : option TypeRef → G (Sample * Sample)).

Definition elem_sample (t : TypeRef) (elem : option TypeRef) : G (Sample * Sample) :=
  '(inner, innerAlt) ← rec elem;
  if negb (OK inner) then mret (refused (sa_Refusal inner))
  else
    ref ← lift (FromNode_some t);
    match sa_Expr inner with
    | Some _ => expr_pair (elemComposite ref) inner innerAlt
    | None => mret (text_pair ref true ("{" +:+ sa_Text inner +:+ "}") ("{" +:+ sa_Text innerAlt +:+ "}"))
    end.
Definition sliceSample (t : TypeRef) : G (Sample * Sample) := elem_sample t (SliceElem (Some t)).
Definition arraySample (t : TypeRef) : G (Sample * Sample) := elem_sample t (ArrayElem (Some t)).1.

Definition mapSample (t : TypeRef) : G (Sample * Sample) :=
  '(keySample, keyAlt) ← rec (MapKey (Some t));
  if negb (OK keySample) then mret (refused (sa_Refusal keySample))
  else match sa_Expr keySample with
       | Some _ => mret (refused RefusedNoLiteral)
       | None =>
           '(valSample, _) ← rec (MapValue (Some t));
           if negb (OK valSample) then mret (refused (sa_Refusal valSample))
           else
             ref ← lift (FromNode_some t);
             match sa_Expr valSample with
             | Some _ =>
                 a ← keyedComposite ref (sa_Text keySample) valSample;
                 b ← keyedComposite ref (sa_Text keyAlt) valSample;
                 mret (expr_sample a, expr_sample b)
             | None =>
                 mret (text_pair ref true ("{" +:+ sa_Text keySample +:+ ": " +:+ sa_Text valSample +:+ "}")
                                          ("{" +:+ sa_Text keyAlt +:+ ": " +:+ sa_Text valSample +:+ "}"))
             end
       end.

Definition definedSample (t : TypeRef) (decl : Alias) : G (Sample * Sample) :=
  match a_Target decl with
  | None => mret (refused RefusedUnresolved)
  | Some _ =>
      '(inner, innerAlt) ← rec (wit.BindTypeArgs (a_Target decl) (a_TypeParams decl) (t_TypeArgs t));
      if negb (OK inner) then mret (refused (sa_Refusal inner))
      else match sa_Expr inner with
           | Some _ => expr_pair (convertExpr t) inner innerAlt
           | None =>
               ref ← lift (FromNode_some t);
               mret (typed_sample ref (sa_Text inner) (sa_Composite inner), typed_sample ref (sa_Text innerAlt) (sa_Composite innerAlt))
           end
  end.

(** The fields from here on, and the first fixable reason seen so far. *)
Fixpoint struct_loop (t : TypeRef) (decl : Struct) (ref : emit.Ref) (incomplete : SampleRefusal) (fields : list Field)
    : G (Sample * Sample) :=
  match fields with
  | [] => mret (if bool_decide (incomplete = RefusedNone) then refused RefusedNoLiteral else refused incomplete)
  | f :: fields =>
      if negb (IsExported (f_Name f)) then struct_loop t decl ref incomplete fields
      else
        '(inner, innerAlt) ← rec (wit.BindTypeArgs (f_Type f) (s_TypeParams decl) (t_TypeArgs t));
        if negb (OK inner) then
          struct_loop t decl ref
            (if bool_decide (incomplete = RefusedNone) && Incomplete (sa_Refusal inner) then sa_Refusal inner else incomplete) fields
        else if bool_decide (is_Some (sa_Expr inner)) || (bool_decide (is_Some (sa_Ref inner)) && sa_Composite inner) then
          expr_pair (keyedComposite ref (f_Name f)) inner innerAlt
        else mret (text_pair ref true ("{" +:+ f_Name f +:+ ": " +:+ sa_Text inner +:+ "}")
                                      ("{" +:+ f_Name f +:+ ": " +:+ sa_Text innerAlt +:+ "}"))
  end.
Definition structSample (t : TypeRef) (decl : Struct) : G (Sample * Sample) :=
  ref ← lift (FromNode_some t); struct_loop t decl ref RefusedNone (s_Fields decl).

Definition declaredSample (t : TypeRef) (target : Node) : G (Sample * Sample) :=
  match target with
  | NAlias decl => definedSample t decl
  | NStruct decl => structSample t decl
  | _ => mret (refused RefusedNoLiteral)
  end.

End Arms.

Definition literal_pair (x : string * string) : Sample * Sample := (literalSample x.1, literalSample x.2).

Fixpoint sampleRefFor (depth : nat) (t : option TypeRef) : G (Sample * Sample) :=
  match t with
  | None => mret (refused RefusedNoResolver)
  | Some t =>
      match depth with
      | 0 => mret (refused RefusedDepth)
      | S depth =>
          let rec := sampleRefFor depth in
          if IsAny (Some t) then mret (literal_pair (SampleValues typeString fieldName))
          else if NodeQueries.IsBuiltin t then
            let x := SampleValues (t_Name t) fieldName in
            mret (if String.eqb x.1 "" then refused RefusedNoLiteral else literal_pair x)
          else if NodeQueries.IsArray t then arraySample rec t
          else if NodeQueries.IsSlice t then sliceSample rec t
          else if NodeQueries.IsMap t then mapSample rec t
          else if NodeQueries.IsFunc t then funcSample t
          else if negb (bool_decide (t_TypeKind t = TypeRefNamed)) then mret (refused RefusedNoLiteral)
          else if IsChannel h (Some t) then chanSample h t
          else match stdlibSample t with
               | Some build => build
               | None =>
                   match r with
                   | None => mret (refused RefusedNoResolver)
                   | Some res =>
                       match res t with
                       | None => mret (refused RefusedUnresolved)
                       | Some target => '(s, a) ← declaredSample rec t target; authoredOver h target s a
                       end
                   end
               end
      end
  end.

Definition SampleRefFor (t : option TypeRef) : G (Sample * Sample) := sampleRefFor sat.maxResolveDepth t.

Definition sampleFor (depth : nat) (t : option TypeRef) : G (string * string) :=
  '(s, a) ← sampleRefFor depth t;
  mret (if bool_decide (is_Some (sa_Ref s)) || bool_decide (is_Some (sa_Ref a)) then ("", "") else (sa_Text s, sa_Text a)).
Definition SampleFor (t : option TypeRef) : G (string * string) := sampleFor sat.maxResolveDepth t.

End Walk.

End samples.

(** * Theorems on sample and zero values

    About [GoSample]: samples come in distinct pairs or with a reason, and what
    an author names replaces exactly the half it is named for. *)

Import samples.

(** ** Results whatever the state *)

Definition gives {A} (m : G A) (P : A → Prop) : Prop := ∀ s, P (m s).1.

Lemma gives_ret {A} (a : A) (P : A → Prop) : P a → gives (mret a) P.
Proof. by intros H s. Qed.
Lemma gives_bind {A B} (m : G A) (f : A → G B) (Q : A → Prop) (P : B → Prop) :
  gives m Q → (∀ a, Q a → gives (f a) P) → gives (m ≫= f) P.
Proof.
  intros Hm Hf s. unfold mbind, G_bind. specialize (Hm s). destruct (m s) as [a s']. by apply Hf.
Qed.
Lemma gives_any {A} (m : G A) : gives m (λ _, True).
Proof. done. Qed.
Lemma gives_then {A B} (m : G A) (f : A → G B) (P : B → Prop) : (∀ a, gives (f a) P) → gives (m ≫= f) P.
Proof. intros H. eapply gives_bind; [apply gives_any|]. auto. Qed.

(** ** Pairs *)

Definition texts_differ (p : Sample * Sample) : Prop :=
  ∃ ref c a b, p = (MkSample ref a None c RefusedNone, MkSample ref b None c RefusedNone) ∧
    a ≠ "" ∧ b ≠ "" ∧ a ≠ b ∧
    (c = true → is_Some ref ∧ (∃ u, a = "{" +:+ u +:+ "}") ∧ ∃ u, b = "{" +:+ u +:+ "}").

(** Two expressions that stand for values a check can tell apart, or for two
    values made separately: two function literals, two channels, two literals
    or raw texts that are spelled differently, two composites with different
    keys, or two expressions of one kind with such arguments at one place. *)
Inductive apart : emit.Expr → emit.Expr → Prop :=
| apart_func x y : emit.ex_Kind x = emit.ExprFuncLit → emit.ex_Kind y = emit.ExprFuncLit → apart x y
| apart_make x y : emit.ex_Kind x = emit.ExprMake → emit.ex_Kind y = emit.ExprMake → apart x y
| apart_literal x y : emit.ex_Kind x = emit.ExprLiteral → emit.ex_Kind y = emit.ExprLiteral →
    emit.ex_RawText x ≠ emit.ex_RawText y → apart x y
| apart_raw x y : emit.ex_Kind x = emit.ExprRaw → emit.ex_Kind y = emit.ExprRaw →
    emit.ex_RawText x ≠ emit.ex_RawText y → apart x y
| apart_keys x y : emit.ex_Kind x = emit.ExprCompositeKeyed → emit.ex_Kind y = emit.ExprCompositeKeyed →
    emit.ex_Keys x ≠ emit.ex_Keys y → apart x y
| apart_part x y i a b : emit.ex_Kind x = emit.ex_Kind y →
    emit.ex_Kind x ∈ [emit.ExprCall; emit.ExprComposite; emit.ExprCompositeKeyed] →
    emit.ex_Args x !! i = Some a → emit.ex_Args y !! i = Some b → apart a b → apart x y.

Definition both_exprs (p : Sample * Sample) : Prop :=
  ∃ x y, p = (expr_sample x, expr_sample y) ∧ apart x y.
Definition both_refused (p : Sample * Sample) : Prop := ∃ why, why ≠ RefusedNone ∧ p = refused why.
Definition paired (p : Sample * Sample) : Prop := texts_differ p ∨ both_exprs p ∨ both_refused p.

(** The three shapes by the first half. *)
Lemma paired_first s a : paired (s, a) →
  if OK s then match sa_Expr s with
               | Some _ => ∃ x y, s = expr_sample x ∧ a = expr_sample y ∧ apart x y
               | None => texts_differ (s, a)
               end
  else sa_Refusal s ≠ RefusedNone.
Proof.
  intros [(ref & c & x & y & [= -> ->] & Hx & Hy & Hd & Hc)|[(x & y & [= -> ->] & Ha)|(why & Hw & [= -> ->])]].
  - assert (OK (MkSample ref x None c RefusedNone) = true) as -> by (unfold OK; cbn; by rewrite (proj2 (String.eqb_neq _ _) Hx)).
    exists ref, c, x, y. by split_and!.
  - cbn. eauto.
  - done.
Qed.

Lemma paired_refused why : why ≠ RefusedNone → paired (refused why).
Proof. intros H. right. right. by exists why. Qed.
Lemma paired_exprs x y : apart x y → paired (expr_sample x, expr_sample y).
Proof. intros H. right. left. by exists x, y. Qed.

Lemma entry_assoc (x v : string) : x +:+ ": " +:+ v +:+ "}" = (x +:+ ": " +:+ v) +:+ "}".
Proof. by rewrite !append_assoc. Qed.

Lemma paired_braced ref x y : x ≠ y → paired (text_pair ref true ("{" +:+ x +:+ "}") ("{" +:+ y +:+ "}")).
Proof.
  intros H. left. exists (Some ref), true, ("{" +:+ x +:+ "}"), ("{" +:+ y +:+ "}"). split_and!; [done..| |eauto].
  intros E%append_inj_r%append_inj_l. by apply H.
Qed.

Lemma gives_two {A B} (m : G A) (n : G A) (f : A → A → B) (P Q : A → Prop) (R : B → Prop) :
  gives m P → gives n Q → (∀ x y, P x → Q y → R (f x y)) → gives (x ← m; y ← n; mret (f x y)) R.
Proof.
  intros Hm Hn HR. eapply gives_bind; [exact Hm|]. intros x Hx. eapply gives_bind; [exact Hn|]. intros y Hy.
  apply gives_ret. auto.
Qed.

Lemma gives_fresh {A} (f : pointer → A) (P : A → Prop) : (∀ p, P (f p)) → gives (fresh f) P.
Proof. intros H [st w]. cbn. apply H. Qed.

Lemma trimBraces_braced u : trimBraces ("{" +:+ u +:+ "}") = u.
Proof.
  unfold trimBraces, trim_prefix. rewrite has_prefix_app, (str_drop_app "{"). unfold trim_suffix.
  rewrite (proj2 (has_suffix_spec _ _)) by eauto. rewrite append_length.
  replace (_ + _ - _) with (String.length u) by (cbn; lia). apply str_take_app.
Qed.

(** What [SamplePart] writes for a half. *)
Definition part_of (s : Sample) (e : emit.Expr) : Prop :=
  match sa_Expr s with
  | Some x => e = x
  | None =>
      if bool_decide (is_Some (sa_Ref s)) && sa_Composite s then
        emit.ex_Kind e = emit.ExprComposite ∧
        ∃ b, emit.ex_Args e = [b] ∧ emit.ex_Kind b = emit.ExprRaw ∧ emit.ex_RawText b = trimBraces (sa_Text s)
      else emit.ex_Kind e = emit.ExprRaw ∧ emit.ex_RawText e = sa_Text s
  end.

Lemma SamplePart_part s : gives (SamplePart s) (part_of s).
Proof.
  unfold SamplePart, part_of. destruct (sa_Expr s); [by apply gives_ret|].
  destruct (sa_Ref s); [destruct (sa_Composite s)|]; cbn.
  - eapply (gives_bind _ _ (λ b, emit.ex_Kind b = emit.ExprRaw ∧ emit.ex_RawText b = trimBraces (sa_Text s)));
      [by apply gives_fresh|]. intros b Hb. apply gives_fresh. intros p. cbn. split; [done|]. by exists b.
  - by apply gives_fresh.
  - by apply gives_fresh.
Qed.

(** The parts of the halves of a pair are apart. *)
Lemma parts_apart s a x y : paired (s, a) → OK s = true → part_of s x → part_of a y → apart x y.
Proof.
  intros Hp%paired_first Hok. rewrite Hok in Hp. unfold part_of. destruct (sa_Expr s) eqn:Ee.
  - destruct Hp as (x' & y' & -> & -> & Ha). cbn in *. injection Ee as ->. by intros -> ->.
  - destruct Hp as (ref & c & u & v & [= -> ->] & _ & _ & Hd & Hc). cbn.
    destruct (bool_decide (is_Some ref) && c) eqn:Eb.
    + apply andb_true_iff in Eb as [_ ->]. destruct (Hc eq_refl) as (_ & (u' & ->) & (v' & ->)).
      rewrite !trimBraces_braced. intros (Kx & b & Ex & Kb & Tb) (Ky & b' & Ey & Kb' & Tb').
      apply (apart_part x y 0 b b'); [congruence|rewrite Kx; set_solver|by rewrite Ex|by rewrite Ey|].
      apply apart_raw; [done..|]. rewrite Tb, Tb'. by intros ->.
    + intros [Kx Tx] [Ky Ty]. apply apart_raw; [done..|]. congruence.
Qed.

(** An expression of the kind with the one argument. *)
Definition wraps (k : emit.ExprKind) (P : emit.Expr → Prop) (e : emit.Expr) : Prop :=
  emit.ex_Kind e = k ∧ ∃ a, emit.ex_Args e = [a] ∧ P a.

Lemma wraps_apart k P Q x y :
  k ∈ [emit.ExprCall; emit.ExprComposite; emit.ExprCompositeKeyed] → (∀ a b, P a → Q b → apart a b) →
  wraps k P x → wraps k Q y → apart x y.
Proof.
  intros Hk HPQ (Kx & a & Ex & Ha) (Ky & b & Ey & Hb).
  apply (apart_part x y 0 a b); [congruence|by rewrite Kx|by rewrite Ex|by rewrite Ey|auto].
Qed.

Lemma elemComposite_wraps ref s : gives (elemComposite ref s) (wraps emit.ExprComposite (part_of s)).
Proof. eapply gives_bind; [apply SamplePart_part|]. intros a Ha. apply gives_fresh. intros p. split; [done|]. by exists a. Qed.

Lemma keyedComposite_wraps ref key s :
  gives (keyedComposite ref key s) (λ e, wraps emit.ExprCompositeKeyed (part_of s) e ∧ emit.ex_Keys e = [key]).
Proof.
  eapply gives_bind; [apply SamplePart_part|]. intros a Ha. apply gives_fresh. intros p.
  split; [|done]. split; [done|]. by exists a.
Qed.

Lemma convertExpr_wraps t x : gives (convertExpr t (expr_sample x)) (wraps emit.ExprCall (λ a, a = x)).
Proof. apply gives_then. intros callee. apply gives_fresh. intros p. split; [done|]. by exists x. Qed.

(** Wrapping both halves of a pair keeps them apart. *)
Lemma gives_expr_pair f k s a :
  k ∈ [emit.ExprCall; emit.ExprComposite; emit.ExprCompositeKeyed] → paired (s, a) → OK s = true →
  gives (f s) (wraps k (part_of s)) → gives (f a) (wraps k (part_of a)) → gives (expr_pair f s a) paired.
Proof.
  intros Hk Hp Hok Hs Ha. eapply gives_two; [exact Hs|exact Ha|]. intros x y Hx Hy. apply paired_exprs.
  eapply wraps_apart; [exact Hk| |exact Hx|exact Hy]. intros b c. by apply parts_apart.
Qed.

Section Walk.
  Context `{CaseTables} (h : metas) (fieldName : string).

Lemma sample_values_differ typeName :
  let '(a, b) := SampleValues typeName fieldName in a ≠ "" → b ≠ "" ∧ a ≠ b.
Proof.
  unfold SampleValues. cbv zeta. repeat (destruct (_ : bool); [try (by split)|]); try done.
Qed.

Lemma paired_literals typeName : (SampleValues typeName fieldName).1 ≠ "" → paired (literal_pair (SampleValues typeName fieldName)).
Proof.
  pose proof (sample_values_differ typeName) as Hd. destruct (SampleValues typeName fieldName) as [a b]. cbn. intros Ha.
  destruct (Hd Ha) as [Hb Hab]. left. by exists None, false, a, b.
Qed.

Section Arms.
  Context (rec : option TypeRef → G (Sample * Sample)) (Hrec : ∀ t, gives (rec t) paired).

Lemma elem_sample_paired t elem : gives (elem_sample rec t elem) paired.
Proof using Hrec.
  eapply gives_bind; [apply Hrec|]. intros [s a] Hp. pose proof (paired_first s a Hp) as Hf.
  destruct (OK s) eqn:Eok; cbn [negb]; [|by apply gives_ret, paired_refused]. apply gives_then. intros ref.
  destruct (sa_Expr s) eqn:Ee.
  { apply (gives_expr_pair _ emit.ExprComposite); [set_solver|done|done|apply elemComposite_wraps..]. }
  destruct Hf as (? & ? & x & y & [= -> ->] & ? & ? & Hd & _).
  by apply gives_ret, paired_braced.
Qed.

Lemma mapSample_paired t : gives (mapSample rec t) paired.
Proof using Hrec.
  eapply gives_bind; [apply Hrec|]. intros [s a] Hp%paired_first.
  destruct (OK s); cbn [negb]; [|by apply gives_ret, paired_refused].
  destruct (sa_Expr s) eqn:Ee; [by apply gives_ret, paired_refused|].
  eapply gives_bind; [apply Hrec|]. intros [v va] Hv%paired_first.
  destruct (OK v); cbn [negb]; [|by apply gives_ret, paired_refused]. apply gives_then. intros ref.
  destruct Hp as (? & ? & x & y & [= -> ->] & ? & ? & Hd & _). destruct (sa_Expr v) eqn:Ev.
  { eapply gives_two; [apply keyedComposite_wraps..|]. intros e1 e2 [[K1 _] E1] [[K2 _] E2].
    apply paired_exprs, apart_keys; [done..|]. rewrite E1, E2. cbn. congruence. }
  apply gives_ret. cbn [sa_Text].
  rewrite !entry_assoc. apply paired_braced. intros E%append_inj_l. by apply Hd.
Qed.

Lemma definedSample_paired t decl : gives (definedSample rec t decl) paired.
Proof using Hrec.
  unfold definedSample. destruct (a_Target decl) as [target|]; [|by apply gives_ret, paired_refused].
  eapply gives_bind; [apply Hrec|]. intros [s a] Hp%paired_first.
  destruct (OK s); cbn [negb]; [|by apply gives_ret, paired_refused].
  destruct (sa_Expr s) eqn:Ee.
  { destruct Hp as (x & y & -> & -> & Ha). eapply gives_two; [apply convertExpr_wraps..|]. intros e1 e2 H1 H2.
    apply paired_exprs. eapply wraps_apart; [|..|exact H1|exact H2]; [set_solver|]. by intros ? ? -> ->. }
  apply gives_then. intros ref. apply gives_ret.
  destruct Hp as (? & c & x & y & [= -> ->] & Hx & Hy & Hd & Hc). left. exists (Some ref), c, x, y.
  split_and!; [done..|]. intros Ht. destruct (Hc Ht) as (_ & ? & ?). eauto.
Qed.

Lemma struct_loop_paired t decl ref incomplete fields : gives (struct_loop rec t decl ref incomplete fields) paired.
Proof using Hrec.
  revert incomplete. induction fields as [|f fields IH]; intros incomplete; cbn [struct_loop].
  { apply gives_ret. case_bool_decide; by apply paired_refused. }
  destruct (negb (IsExported (f_Name f))); [apply IH|].
  eapply gives_bind; [apply Hrec|]. intros [s a] Hpair. pose proof (paired_first s a Hpair) as Hp.
  destruct (OK s) eqn:Eok; cbn [negb]; [|apply IH]. destruct (_ || _) eqn:Eo.
  { apply (gives_expr_pair _ emit.ExprCompositeKeyed); [set_solver|done|done|..];
      (eapply gives_bind; [apply SamplePart_part|]; intros b Hb; apply gives_fresh; intros q; split; [done|]; by exists b). }
  apply orb_false_iff in Eo as [Ee%bool_decide_eq_false _]. rewrite <- eq_None_not_Some in Ee. rewrite Ee in Hp.
  destruct Hp as (? & ? & x & y & [= -> ->] & ? & ? & Hd & _). apply gives_ret. cbn [sa_Text].
  rewrite !entry_assoc. apply paired_braced. by intros E%append_inj_r%append_inj_r.
Qed.

End Arms.

End Walk.

Lemma timeUnix_spec n : gives (timeUnix n) (λ e, emit.ex_Kind e = emit.ExprCall ∧
  ∃ a b, emit.ex_Args e = [a; b] ∧ emit.ex_Kind a = emit.ExprLiteral ∧ emit.ex_RawText a = itoa n).
Proof.
  apply gives_then. intros callee.
  eapply (gives_bind _ _ (λ a, emit.ex_Kind a = emit.ExprLiteral ∧ emit.ex_RawText a = itoa n)); [by apply gives_fresh|].
  intros a Ha. apply gives_then. intros b. apply gives_fresh. intros p. split; [done|]. by exists a, b.
Qed.

Lemma func_literal_kind t : gives (func_literal t) (λ e, emit.ex_Kind e = emit.ExprFuncLit).
Proof.
  apply gives_then. intros params. destruct (t_FuncReturns t); [by apply gives_fresh|].
  apply gives_then. intros rs. apply gives_then. intros ret. by apply gives_fresh.
Qed.

Lemma chan_make_kind elem : gives (chan_make elem) (λ e, emit.ex_Kind e = emit.ExprMake).
Proof. apply gives_then. intros made. apply gives_then. intros []. apply gives_then. intros typ. by apply gives_fresh. Qed.

Lemma stdlib_paired t build s : stdlibSample t = Some build → paired (build s).1.
Proof.
  unfold stdlibSample. destruct (String.eqb (Node.t_Package t) pkgTime); [|done].
  destruct (String.eqb (t_Name t) "Duration"); [|destruct (String.eqb (t_Name t) "Time"); [|done]]; intros [= <-]; revert s.
  - apply gives_then. intros ref. apply gives_ret. left. exists (Some ref), false, "42", "7". by split_and!.
  - eapply gives_two; [apply (timeUnix_spec 42)|apply (timeUnix_spec 7)|]. intros x y (Kx & a & b & Ex & Ka & Ta) (Ky & a' & b' & Ey & Ka' & Ta').
    apply paired_exprs, (apart_part x y 0 a a'); [congruence|rewrite Kx; set_solver|by rewrite Ex|by rewrite Ey|].
    apply apart_literal; [done..|]. rewrite Ta, Ta'. by vm_compute.
Qed.

(** No declaration the resolver finds carries an authored sample. *)
Definition nothing_authored (h : metas) (r : option Finder) : Prop :=
  ∀ res t target, r = Some res → res t = Some target →
    wit.AuthoredSample h (node_base target) = None ∧ wit.AuthoredAlternate h (node_base target) = None.

(** C31: Where nothing is authored, the walk gives two values that differ or
    says why it has none.  For every type, resolver and depth, if no declaration
    the resolver finds has an authored sample or alternate: both halves are
    refused for one stated reason; or both are non-empty texts that differ,
    written after the same type in the same form, and a composite text has a
    type and its outer braces; or both are expressions that are apart: somewhere
    inside, at the same place, one has another literal, another raw text or
    another key than the other, or each makes its own function or channel (the
    two are then separate values written the same way). *)
Theorem samples_come_in_distinct_pairs `{CaseTables} h r fieldName depth t s :
  nothing_authored h r → paired (sampleRefFor h r fieldName depth t s).1.
Proof.
  intros Hn. revert t s. induction depth as [|depth IH]; intros [t|] s; try (by apply paired_refused). cbn [sampleRefFor]. cbv zeta.
  destruct (IsAny (Some t)); [by apply paired_literals|].
  destruct (NodeQueries.IsBuiltin t).
  { cbn. destruct (String.eqb_spec (SampleValues (t_Name t) fieldName).1 ""); [by apply paired_refused|by apply paired_literals]. }
  destruct (NodeQueries.IsArray t); [apply elem_sample_paired; exact IH|].
  destruct (NodeQueries.IsSlice t); [apply elem_sample_paired; exact IH|].
  destruct (NodeQueries.IsMap t); [apply mapSample_paired; exact IH|].
  destruct (NodeQueries.IsFunc t).
  { revert s. eapply gives_two; [apply func_literal_kind..|]. intros x y Hx Hy. by apply paired_exprs, apart_func. }
  destruct (negb _); [by apply paired_refused|].
  destruct (IsChannel h (Some t)).
  { revert s. unfold chanSample. destruct (ChanElem h (Some t)); [|by apply gives_ret, paired_refused].
    eapply gives_two; [apply chan_make_kind..|]. intros x y Hx Hy. by apply paired_exprs, apart_make. }
  destruct (stdlibSample t) as [build|] eqn:Es; [by eapply stdlib_paired|].
  destruct r as [res|]; [|by apply paired_refused]. destruct (res t) as [target|] eqn:Er; [|by apply paired_refused].
  destruct (Hn res t target eq_refl Er) as [H1 H2]. revert s. eapply (gives_bind _ _ paired).
  - destruct target; try (by apply gives_ret, paired_refused).
    + apply gives_then. intros ref. by apply struct_loop_paired.
    + by apply definedSample_paired.
  - intros [a b] Hp s. unfold authoredOver, AuthoredSampleOf, AuthoredAlternateOf. by rewrite H1, H2.
Qed.

Definition point : Struct :=
  MkStruct (Fixture.at_ptr 1 []) "Point" "geo"
    [MkField (Fixture.at_ptr 2 []) "hidden" (Some (Fixture.named 3 "" "int")) "";
     MkField (Fixture.at_ptr 4 []) "X" (Some (Fixture.named 5 "" "int")) ""] [] [] [].
Definition find_point : Finder := λ t, if String.eqb (t_Name t) "Point" then Some (NStruct point) else None.
Definition memory : state := (∅, builder.MkWorld 10%positive ∅ ∅ ∅ ∅ ∅).

Lemma samples_come_in_distinct_pairs_witness :
  let p := (sampleRefFor ∅ (Some find_point) "origin" sat.maxResolveDepth (Some (Fixture.named 9 "geo" "Point")) memory).1 in
  paired p ∧ sa_Text p.1 = "{X: 42}" ∧ sa_Text p.2 = "{X: 7}".
Proof.
  split; [|by vm_compute]. apply (samples_come_in_distinct_pairs ∅ (Some find_point)).
  intros res t target [= <-] E. unfold find_point in E. destruct (String.eqb _ _); [|done]. injection E as <-. by vm_compute.
Defined.

(** What an author names for a type replaces exactly the half it is named for. *)
Theorem authored_halves_replace `{CaseTables} h res fieldName depth t target s :
  IsAny (Some t) = false → NodeQueries.IsBuiltin t = false → t_TypeKind t = TypeRefNamed →
  IsChannel h (Some t) = false → stdlibSample t = None → res t = Some target →
  let p := (sampleRefFor h (Some res) fieldName (S depth) (Some t) s).1 in
  let d := (declaredSample (sampleRefFor h (Some res) fieldName depth) t target s).1 in
  (if wit.AuthoredSample h (node_base target) then ∃ e, p.1 = expr_sample e ∧ emit.ex_Kind e = emit.ExprCall else p.1 = d.1) ∧
  (if wit.AuthoredAlternate h (node_base target) then ∃ e, p.2 = expr_sample e ∧ emit.ex_Kind e = emit.ExprCall else p.2 = d.2).
Proof.
  intros Ha Hb Hk Hc Hs Hr. cbv zeta. cbn [sampleRefFor]. cbv zeta. rewrite Ha, Hb, Hc, Hs, Hr.
  unfold NodeQueries.IsArray, NodeQueries.IsSlice, NodeQueries.IsMap, NodeQueries.IsFunc. rewrite Hk.
  repeat match goal with |- context [bool_decide ?P] => first [change (bool_decide P) with true | change (bool_decide P) with false] end.
  cbv iota. cbn [negb]. unfold mbind, G_bind, mret, G_ret, authoredOver, AuthoredSampleOf, AuthoredAlternateOf, authored_call, fresh, lift.
  destruct (declaredSample _ t target s) as [[s1 s2] [st w]]. cbn.
  destruct (wit.AuthoredSample h (node_base target)) as [[p1 n1]|], (wit.AuthoredAlternate h (node_base target)) as [[p2 n2]|]; cbn; eauto 10.
Qed.

(** ** The zero with its type *)

(** A chain of definitions no longer than the fuel is walked to its end:
    [rank] bounds how many definitions are behind a type. *)
Theorem zero_walk_returns h r rank fuel t s :
  (∀ res t decl target, r = Some res → res t = Some (NAlias decl) → a_Target decl = Some target → rank target < rank t) →
  (∀ t', t = Some t' → rank t' ≤ fuel) →
  is_Some (ZeroRefFor h r fuel t s).1.
Proof.
  intros Hr. revert t s. induction fuel as [|fuel IH]; intros t s Ht; cbn [ZeroRefFor];
    (destruct (ZeroLiteralFor h r t); [done|]); destruct t as [t|]; try done; destruct r as [res|]; try done;
    (destruct (negb _); [done|]); destruct (res t) as [[]|] eqn:E; try done; unfold mbind, G_bind, lift; try (by destruct s as [st w], (FromNode_some t w)).
  - destruct (a_Target n) as [target|] eqn:Et; [|done]. specialize (Hr res t n target eq_refl E Et). specialize (Ht t eq_refl). lia.
  - destruct (a_Target n) as [target|] eqn:Et; [|done].
    assert (is_Some (ZeroRefFor h (Some res) fuel (Some target) s).1) as [[x ok] Hx].
    { apply IH. intros t' [= <-]. specialize (Hr res t n target eq_refl E Et). specialize (Ht t eq_refl). lia. }
    destruct (ZeroRefFor h (Some res) fuel (Some target) s) as [inner s']. cbn in Hx. subst inner. destruct ok; [|done].
    destruct (sa_Ref x); [done|]. by destruct s' as [st w], (FromNode_some t w).
Qed.

Definition weekday : Alias := MkAlias (Fixture.at_ptr 1 []) "Weekday" "cal" (Some (Fixture.named 2 "" "int")) false [] [].
Definition find_weekday : Finder := λ t, if String.eqb (t_Name t) "Weekday" then Some (NAlias weekday) else None.

Lemma zero_walk_returns_witness :
  is_Some (ZeroRefFor ∅ (Some find_weekday) 1 (Some (Fixture.named 9 "cal" "Weekday")) memory).1.
Proof.
  apply (zero_walk_returns ∅ (Some find_weekday) (λ t, if String.eqb (t_Name t) "Weekday" then 1 else 0)).
  - intros res t decl target [= <-]. unfold find_weekday. destruct (String.eqb _ _); [|done]. intros [= <-] [= <-]. cbn. lia.
  - intros t' [= <-]. cbn. lia.
Defined.

(** ** Findings *)

Definition shape_iface : Interface := MkInterface (Fixture.at_ptr 1 []) "Shape" "geo" [] [] [] [].
Definition holder : Struct :=
  MkStruct (Fixture.at_ptr 2 []) "Holder" "geo" [MkField (Fixture.at_ptr 3 []) "S" (Some (Fixture.named 4 "geo" "Shape")) ""] [] [] [].
Definition find_holder : Finder := λ t,
  if String.eqb (t_Name t) "Holder" then Some (NStruct holder)
  else if String.eqb (t_Name t) "Shape" then Some (NInterface shape_iface) else None.
Definition sample_only : metas :=
  {[ 1%positive := Meta.after (Set_ wit.MetaSample NewBag (VString "NewShape") "author") ]}.

(** With a sample and no alternate authored for an interface, the alternate of
    a struct that holds it is a keyed literal with an empty value, although the
    alternate of the field was refused. *)
Theorem half_authored_field_is_left_empty :
  let '(_, a) := (SampleRefFor sample_only (Some find_holder) "s" (Some (Fixture.named 9 "geo" "Holder")) memory).1 in
  OK a = true ∧ ∃ e, sa_Expr a = Some e ∧ emit.ex_Keys e = ["S"] ∧ emit.ex_RawText <$> emit.ex_Args e = [""] ∧
    emit.ex_Kind <$> emit.ex_Args e = [emit.ExprRaw].
Proof. vm_compute. split; [done|]. eexists. by split_and!. Qed.

(** An array of no elements gets a literal with one. *)
Theorem empty_array_gets_an_element :
  let t := MkTypeRef (Fixture.at_ptr 1 []) TypeRefArray "" "" [] (Some (Fixture.named 2 "" "int")) 0 None None [] [] [] [] [] in
  sa_Text (SampleRefFor ∅ None "n" (Some t) memory).1.1 = "{42}".
Proof. vm_compute. reflexivity. Qed.
