(* ===== verification/GoMethods.v ===== *)
(** * lang/golang: the projection of a callable and what is built from it

    [src/lang/golang/method.go]: the signature a generator renders, with the
    identifiers it binds.  [src/lang/golang/construct.go] and [generics.go]: the
    types, calls and statements built from a signature.

    [UniqueIdent] always finds a name ([UniqueIdent_spec]), so the default of
    [unique] is never taken.  Parameters and returns are the non-nil ones; a nil
    type, which an incomplete model may have, is left out of a function type. *)

From S2P Require Import Prelude GoStrings Unicode FilePath Position Meta Directive Node NodeQueries Naming Emit EmitCtors EmitBuilder GoIdents GoQuote GoTypes GoSignatures GoEmbed GoSatisfies GoRefs GoWitness GoSample.

Local Open Scope string_scope.
Local Open Scope nat_scope.
Local Open Scope list_scope.

Module sig.

(** ** Options *)

Record sigOpts := MkSigOpts { receiver : string; receiverType : string; paramPrefix : string; localPrefix : string }.
Abbreviation SigOption := (sigOpts → sigOpts).

Definition DefaultReceiverIdent : string := "s".
Definition DefaultParamPrefix : string := "arg".
Definition DefaultLocalPrefix : string := "r".

Definition WithReceiverIdent (name : string) : SigOption :=
  λ o, MkSigOpts name (receiverType o) (paramPrefix o) (localPrefix o).
Definition WithReceiverFromType (typeName : string) : SigOption :=
  λ o, MkSigOpts (receiver o) typeName (paramPrefix o) (localPrefix o).
Definition WithParamPrefix (prefix : string) : SigOption :=
  λ o, MkSigOpts (receiver o) (receiverType o) prefix (localPrefix o).
Definition WithLocalPrefix (prefix : string) : SigOption :=
  λ o, MkSigOpts (receiver o) (receiverType o) (paramPrefix o) prefix.
Definition resolveOpts (opts : list SigOption) : sigOpts :=
  foldl (λ o apply, apply o) (MkSigOpts DefaultReceiverIdent "" DefaultParamPrefix DefaultLocalPrefix) opts.

(** ** Identifiers *)

Section Sig.
  Context `{UnicodeTables} `{CaseTables} (h : metas).

Definition unique (name : string) (taken : list string) : string := default name (UniqueIdent name taken).

Definition identFor (declared : string) (index : nat) (prefix : string) : string :=
  if String.eqb declared "" then prefix +:+ itoa (Z.of_nat index) else SafeIdent declared.

Definition localFor (name : string) (index : nat) (named : bool) (taken : list string) (prefix : string) : string :=
  if named then name
  else
    let local := prefix +:+ itoa (Z.of_nat index) in
    if bool_decide (local ∈ taken) then "_" +:+ local else local.

(** The field and the two counters after it. *)
Definition returnField (declared : string) (isErr : bool) (values valueIdx errIdx : nat) : string * (nat * nat) :=
  if negb (String.eqb declared "") then (Pascal Default declared, (valueIdx, errIdx))
  else if isErr then
    (if errIdx =? 0 then "Err" else "Err" +:+ itoa (Z.of_nat errIdx), (valueIdx, S errIdx))
  else
    (if values =? 1 then "Result" else "Result" +:+ itoa (Z.of_nat valueIdx), (S valueIdx, errIdx)).

(** ** Parameters and returns *)

Fixpoint params_loop (i : nat) (idents : list string) (params : list Param) (o : sigOpts) : builder.M (list ctor.SigParam) :=
  match params with
  | [] => mret []
  | p :: params =>
      let declared := if IsBlank (pa_Name p) then "" else pa_Name p in
      let name := unique (identFor declared i (paramPrefix o)) idents in
      t ← FromNode (pa_Type p);
      rest ← params_loop (S i) (idents ++ [name]) params o;
      mret (ctor.MkSigParam name declared t (pa_Type p) (Pascal Default name) (pa_Variadic p) :: rest)
  end.
Definition paramsFrom (params : list Param) (o : sigOpts) : builder.M (list ctor.SigParam) := params_loop 0 [] params o.

Fixpoint returns_loop (i : nat) (returns : list Return) (taken : list string) (named : bool) (o : sigOpts)
    (values valueIdx errIdx : nat) : builder.M (list ctor.SigReturn) :=
  match returns with
  | [] => mret []
  | r :: returns =>
      t ← FromNode (re_Type r);
      let isErr := IsError h (re_Type r) in
      let '(field, (v, e)) := returnField (re_Name r) isErr values valueIdx errIdx in
      let local := localFor (re_Name r) i named taken (localPrefix o) in
      rest ← returns_loop (S i) returns taken named o values v e;
      mret (ctor.MkSigReturn (re_Name r) t (re_Type r) field local isErr :: rest)
  end.
Definition returnsFrom (returns : list Return) (params : list ctor.SigParam) (named : bool) (o : sigOpts)
    : builder.M (list ctor.SigReturn) :=
  let values := length (List.filter (λ r, negb (IsError h (re_Type r))) returns) in
  returns_loop 0 returns (ctor.sp_Name <$> params) named o values 0 0.

(** ** Projections *)

Definition receiver_for (o : sigOpts) (idents : list string) : string :=
  if negb (String.eqb (receiverType o) "") then default "" (ReceiverIdent (receiverType o) idents)
  else if negb (String.eqb (receiver o) "") then unique (receiver o) idents
  else receiver o.

Definition SigOf (m : option Method) (opts : list SigOption) : builder.M (option ctor.SigInfo) :=
  match m with
  | None => mret None
  | Some m =>
      let o := resolveOpts opts in
      params ← paramsFrom (m_Params m) o;
      let recv := receiver_for o (ctor.sp_Name <$> params) in
      let s := ctor.MkSigInfo (m_Name m) params [] (m_TypeParams m) (m_Receiver m) false (Some m) recv in
      let named := NamedReturnsUsable (m_Returns m) (ctor.Taken (Some s)) in
      returns ← returnsFrom (m_Returns m) params named o;
      mret (Some (ctor.MkSigInfo (m_Name m) params returns (m_TypeParams m) (m_Receiver m) named (Some m) recv))
  end.

Definition SigOfFunc (f : option Function_) (opts : list SigOption) : builder.M (option ctor.SigInfo) :=
  match f with
  | None => mret None
  | Some f =>
      let o := resolveOpts opts in
      params ← paramsFrom (fn_Params f) o;
      let named := NamedReturnsUsable (fn_Returns f) (ctor.sp_Name <$> params) in
      returns ← returnsFrom (fn_Returns f) params named o;
      mret (Some (ctor.MkSigInfo (fn_Name f) params returns (fn_TypeParams f) None named None ""))
  end.

Definition isErrorRef (r : option emit.Ref) : bool :=
  match r with Some (emit.RBuiltinRef _ name) => String.eqb name typeError | _ => false end.

Fixpoint emit_params (i : nat) (idents : list string) (params : list emit.Param) (o : sigOpts) : list ctor.SigParam :=
  match params with
  | [] => []
  | p :: params =>
      let declared := emit.pa_Name p in
      let name := unique (identFor declared i (paramPrefix o)) idents in
      ctor.MkSigParam name declared (emit.pa_Type p) None (Pascal Default name) (emit.pa_Variadic p)
        :: emit_params (S i) (idents ++ [name]) params o
  end.
Fixpoint emit_returns (i : nat) (returns : list emit.Return) (o : sigOpts) (values valueIdx errIdx : nat) : list ctor.SigReturn :=
  match returns with
  | [] => []
  | r :: returns =>
      let isErr := isErrorRef (emit.re_Type r) in
      let '(field, (v, e)) := returnField "" isErr values valueIdx errIdx in
      ctor.MkSigReturn "" (emit.re_Type r) None field (localPrefix o +:+ itoa (Z.of_nat i)) isErr
        :: emit_returns (S i) returns o values v e
  end.
Definition SigOfEmit (m : option emit.Method) (opts : list SigOption) : option ctor.SigInfo :=
  match m with
  | None => None
  | Some m =>
      let o := resolveOpts opts in
      let values := length (List.filter (λ r, negb (isErrorRef (emit.re_Type r))) (emit.m_Returns m)) in
      Some (ctor.MkSigInfo (emit.m_Name m) (emit_params 0 [] (emit.m_Params m) o)
              (emit_returns 0 (emit.m_Returns m) o values 0 0) [] None false None (receiver o))
  end.

End Sig.

(** ** [generics.go] *)

Fixpoint TypeParamDecls (params : list TypeParam) : builder.M (list emit.TypeParam) :=
  match params with
  | [] => mret []
  | p :: params =>
      c ← ConstraintFromNode (tp_Constraint p);
      d ← alloc (λ q, emit.MkTypeParam (ctor.zero_base q) (tp_Name p) c);
      ds ← TypeParamDecls params;
      mret (d :: ds)
  end.
Fixpoint TypeParamRefs (params : list TypeParam) : builder.M (list emit.Ref) :=
  match params with
  | [] => mret []
  | p :: params => r ← alloc (λ q, ctor.Builtin q (tp_Name p)); rs ← TypeParamRefs params; mret (r :: rs)
  end.
Definition SelfRef (pkg name : string) (params : list TypeParam) : builder.M emit.Ref :=
  args ← TypeParamRefs params; alloc (λ p, ctor.External p pkg name args).

(** ** [construct.go] *)

Definition types_of {A} (f : A → option emit.Ref) (l : list A) : list emit.Ref := omap f l.

Definition FuncTypeFrom (params returns : list emit.Ref) : builder.M emit.Ref := alloc (λ p, ctor.FuncOf p params returns).
Definition FuncTypeOf (s : option ctor.SigInfo) : builder.M emit.Ref :=
  match s with
  | None => alloc (λ p, ctor.FuncOf p [] [])
  | Some s => alloc (λ p, ctor.FuncOf p (types_of ctor.sp_Type (ctor.si_Params s)) (types_of ctor.sr_Type (ctor.si_Returns s)))
  end.

Fixpoint each {A B} (f : A → builder.M B) (l : list A) : builder.M (list B) :=
  match l with [] => mret [] | x :: l => y ← f x; ys ← each f l; mret (y :: ys) end.

Definition params_of (s : option ctor.SigInfo) : list ctor.SigParam := match s with Some s => ctor.si_Params s | None => [] end.
Definition returns_of (s : option ctor.SigInfo) : list ctor.SigReturn := match s with Some s => ctor.si_Returns s | None => [] end.
Definition named_returns (s : option ctor.SigInfo) : bool := match s with Some s => ctor.si_NamedReturns s | None => false end.

Definition EmitParams (s : option ctor.SigInfo) : builder.M (list emit.Param) :=
  each (λ p, alloc (λ q, emit.MkParam (ctor.zero_base q) (ctor.sp_Name p) (ctor.sp_Type p) (ctor.sp_Variadic p))) (params_of s).
Definition EmitReturns (s : option ctor.SigInfo) : builder.M (list emit.Return) :=
  each (λ r, alloc (λ q, emit.MkReturn (ctor.zero_base q) (if named_returns s then ctor.sr_Name r else "") (ctor.sr_Type r))) (returns_of s).

Definition call_arg (p : ctor.SigParam) : builder.M emit.Expr :=
  if ctor.sp_Variadic p then alloc (λ q, ctor.NewRawExpr q (ctor.sp_Name p +:+ "..."))
  else alloc (λ q, ctor.NewIdent q (ctor.sp_Name p)).
Definition CallArgs (s : option ctor.SigInfo) : builder.M (list emit.Expr) := each call_arg (params_of s).

Definition FieldCall (recv field : string) (s : option ctor.SigInfo) : builder.M emit.Expr :=
  r ← alloc (λ p, ctor.NewIdent p recv);
  callee ← alloc (λ p, ctor.NewField p (Some r) field);
  args ← CallArgs s;
  alloc (λ p, ctor.NewCall p (Some callee) args).
Definition MethodCall (recv method : string) (s : option ctor.SigInfo) : builder.M emit.Expr :=
  r ← alloc (λ p, ctor.NewIdent p recv);
  args ← CallArgs s;
  alloc (λ p, ctor.NewMethodCall p (Some r) method args).

Definition DelegateBody (recv field : string) (s : option ctor.SigInfo) : builder.M (list emit.Stmt) :=
  call ← FieldCall recv field s;
  st ← alloc (λ p, if negb (ctor.HasResults s) then ctor.NewExprStmt p (Some call) else ctor.NewReturn p [call]);
  mret [st].

Definition local_idents (s : option ctor.SigInfo) : builder.M (list emit.Expr) :=
  each (λ l, alloc (λ p, ctor.NewIdent p l)) (ctor.Locals s).
Definition CaptureAssign (s : option ctor.SigInfo) (call : emit.Expr) : builder.M emit.Stmt :=
  if negb (ctor.HasResults s) then alloc (λ p, ctor.NewExprStmt p (Some call))
  else
    targets ← local_idents s;
    alloc (λ p, ctor.NewAssign p targets (if named_returns s then "=" else ":=") [call]).
Definition ReturnLocals (s : option ctor.SigInfo) : builder.M emit.Stmt :=
  if negb (ctor.HasResults s) then alloc (λ p, ctor.NewReturn p [])
  else values ← local_idents s; alloc (λ p, ctor.NewReturn p values).

(** The target expression is one object in both places. *)
Definition RecordCall (recv field : string) (callType : option emit.Ref) (s : ctor.SigInfo) (captured : bool) : builder.M emit.Stmt :=
  pvals ← each (λ p, alloc (λ q, ctor.NewIdent q (ctor.sp_Name p))) (ctor.si_Params s);
  rvals ← (if captured then each (λ r, alloc (λ q, ctor.NewIdent q (ctor.sr_Local r))) (ctor.si_Returns s) else mret []);
  let keys := (ctor.sp_Field <$> ctor.si_Params s) ++ (if captured then ctor.sr_Field <$> ctor.si_Returns s else []) in
  r ← alloc (λ p, ctor.NewIdent p recv);
  target ← alloc (λ p, ctor.NewField p (Some r) field);
  fn ← alloc (λ p, ctor.NewIdent p "append");
  entry ← alloc (λ p, ctor.NewCompositeKeyed p callType keys (pvals ++ rvals));
  appended ← alloc (λ p, ctor.NewCall p (Some fn) [target; entry]);
  alloc (λ p, ctor.NewAssign p [target] "=" [appended]).

Definition param_field (p : ctor.SigParam) : builder.M emit.Field :=
  typ ← (if ctor.sp_Variadic p then alloc (λ q, Some (ctor.SliceOf q (ctor.sp_Type p))) else mret (ctor.sp_Type p));
  alloc (λ q, emit.MkField (ctor.zero_base q) (ctor.sp_Field p) typ "" "").
Definition return_field (r : ctor.SigReturn) : builder.M emit.Field :=
  alloc (λ q, emit.MkField (ctor.zero_base q) (ctor.sr_Field r) (ctor.sr_Type r) "" "").
Definition RecordFields (s : option ctor.SigInfo) : builder.M (list emit.Field) :=
  ps ← each param_field (params_of s); rs ← each return_field (returns_of s); mret (ps ++ rs).

Definition refExpr (r : emit.Ref) : builder.M emit.Expr :=
  alloc (λ p, match r with
              | emit.RExternalRef _ pkg name _ => ctor.NewExternal p pkg name
              | emit.RBuiltinRef _ name => ctor.NewIdent p name
              | _ => ctor.NewIdent p ""
              end).
Definition NilOf (impl : emit.Ref) (byPointer : bool) : builder.M emit.Expr :=
  target ← refExpr impl;
  target ← (if byPointer then alloc (λ p, ctor.NewDeref p (Some target)) else mret target);
  paren ← alloc (λ p, ctor.NewParen p (Some target));
  nil_ ← alloc ctor.NewLiteralNil;
  alloc (λ p, ctor.NewCall p (Some paren) [nil_]).
Definition SatisfiesAssertion (iface : option emit.Ref) (impl : emit.Ref) (byPointer : bool) : builder.M emit.Variable_ :=
  init ← NilOf impl byPointer;
  alloc (λ p, emit.MkVariable (ctor.zero_base p) "_" "" iface (Some init)).

Definition ZeroValueExpr (h : metas) (t : option TypeRef) : builder.M (option emit.Expr) :=
  match samples.ZeroLiteral h t with
  | None => mret None
  | Some text =>
      alloc (λ p, Some (if String.eqb text samples.litNil then ctor.NewLiteralNil p
                        else if String.eqb text samples.litFalse then ctor.NewLiteralBool p false
                        else if String.eqb text samples.litEmpty then ctor.NewLiteralString p ""
                        else ctor.NewLiteralInt p 0))
  end.

End sig.

(** * Theorems on projected signatures *)

Import sig.

(** ** Results whatever the memory *)

Definition yields {A} (m : builder.M A) (P : A → Prop) : Prop := ∀ w, P (m w).1.

Lemma yields_ret {A} (a : A) (P : A → Prop) : P a → yields (mret a) P.
Proof. by intros H w. Qed.
Lemma yields_bind {A B} (m : builder.M A) (f : A → builder.M B) (Q : A → Prop) (P : B → Prop) :
  yields m Q → (∀ a, Q a → yields (f a) P) → yields (m ≫= f) P.
Proof. intros Hm Hf w. unfold mbind, builder.M_bind. specialize (Hm w). destruct (m w) as [a w']. by apply Hf. Qed.
Lemma yields_then {A B} (m : builder.M A) (f : A → builder.M B) (P : B → Prop) : (∀ a, yields (f a) P) → yields (m ≫= f) P.
Proof. intros H. apply (yields_bind _ _ (λ _, True)); [done|]. auto. Qed.
Lemma yields_alloc {A} (f : pointer → A) (P : A → Prop) : (∀ p, P (f p)) → yields (alloc f) P.
Proof. intros H. apply yields_then. intros p. by apply yields_ret. Qed.
Lemma yields_each {A B} (f : A → builder.M B) (R : A → B → Prop) l :
  (∀ x, yields (f x) (R x)) → yields (each f l) (Forall2 R l).
Proof.
  intros Hf. induction l as [|x l IH]; cbn; [by apply yields_ret|].
  eapply yields_bind; [apply Hf|]. intros y Hy. eapply yields_bind; [exact IH|]. intros ys Hys. apply yields_ret. by constructor.
Qed.

(** ** Identifiers *)

Section Names.
  Context `{UnicodeTables} `{CaseTables} (h : metas).

Lemma unique_spec name taken : usable (unique name taken) ∧ unique name taken ∉ taken.
Proof. unfold unique. destruct (UniqueIdent_spec name taken) as (c & -> & Hu & Ht & _). by split. Qed.

(** The identifiers chosen for a list of parameters after [idents]. *)
Definition good_params (idents : list string) (params : list Param) (ps : list ctor.SigParam) : Prop :=
  Forall usable (ctor.sp_Name <$> ps) ∧ NoDup (ctor.sp_Name <$> ps) ∧ (∀ n, n ∈ ctor.sp_Name <$> ps → n ∉ idents) ∧
  ctor.sp_Variadic <$> ps = pa_Variadic <$> params ∧ ctor.sp_Source <$> ps = pa_Type <$> params ∧
  Forall (λ p, ctor.sp_Field p = Pascal Default (ctor.sp_Name p)) ps.

Lemma params_loop_good i idents params o : yields (params_loop i idents params o) (good_params idents params).
Proof.
  revert i idents. induction params as [|p params IH]; intros i idents; cbn [params_loop].
  { apply yields_ret. split_and!; try done; [constructor|set_solver]. }
  cbv zeta. set (name := unique _ idents). destruct (unique_spec (identFor (if IsBlank (pa_Name p) then "" else pa_Name p) i (paramPrefix o)) idents) as [Hu Hn].
  fold name in Hu, Hn. apply yields_then. intros t. eapply yields_bind; [apply IH|]. intros ps (H1 & H2 & H3 & H4 & H5 & H6).
  apply yields_ret. unfold good_params. cbn. split_and!.
  - by constructor.
  - constructor; [|done]. intros Hin. apply (H3 _ Hin). set_solver.
  - intros n [->|Hin]%elem_of_cons; [done|]. specialize (H3 _ Hin). set_solver.
  - by rewrite H4.
  - by rewrite H5.
  - by constructor.
Qed.

Lemma returns_loop_good i returns taken named o values v e :
  yields (returns_loop h i returns taken named o values v e)
    (λ rs, ctor.sr_Local <$> rs = imap (λ k r, localFor (re_Name r) (i + k) named taken (localPrefix o)) returns ∧
           ctor.sr_Source <$> rs = re_Type <$> returns).
Proof.
  revert i v e. induction returns as [|r returns IH]; intros i v e; cbn [returns_loop]; [by apply yields_ret|].
  apply yields_then. intros t. destruct (returnField _ _ _ _ _) as [field [v' e']]. eapply yields_bind; [apply IH|].
  intros rs [Hl Hs]. apply yields_ret. cbn. rewrite Nat.add_0_r, Hl, Hs. split; [|done]. f_equal. apply imap_ext. intros k x _. cbn.
  f_equal. lia.
Qed.

(** Positional locals of different positions differ. *)
Lemma itoa_nat_inj i j : itoa (Z.of_nat i) = itoa (Z.of_nat j) → i = j.
Proof. intros E%itoa_inj. lia. Qed.

Lemma shifted_underscore prefix s t : prefix +:+ s = "_" +:+ prefix +:+ t → str_all (byte_in "0" "9") s = true → False.
Proof.
  revert t. induction prefix as [|c prefix IH]; intros t E Hs.
  - cbn in E. destruct s as [|a s]; [done|]. injection E as -> _. done.
  - cbn in E. injection E as -> E. by apply (IH t).
Qed.

Lemma localFor_inj n m i j taken prefix :
  localFor n i false taken prefix = localFor m j false taken prefix → i = j.
Proof.
  unfold localFor. assert (∀ k, str_all (byte_in "0" "9") (itoa (Z.of_nat k)) = true) as Hd by (intros k; apply itoa_digits; lia).
  repeat case_bool_decide; intros E.
  - by apply append_inj_r, append_inj_r, itoa_nat_inj in E.
  - symmetry in E. by apply shifted_underscore in E.
  - by apply shifted_underscore in E.
  - by apply append_inj_r, itoa_nat_inj in E.
Qed.

Lemma locals_distinct taken prefix returns :
  NoDup (imap (λ k r, localFor (re_Name r) k false taken prefix) returns).
Proof.
  apply NoDup_alt. intros i j x. rewrite !list_lookup_imap. intros Hi Hj.
  destruct (returns !! i); [|done]. destruct (returns !! j); [|done]. cbn in *. injection Hi as Hi. injection Hj as Hj.
  rewrite <- Hj in Hi. by apply localFor_inj in Hi.
Qed.

Lemma named_usable_spec used returns : named_usable_loop used returns = true →
  NoDup (re_Name <$> returns) ∧ ∀ n, n ∈ re_Name <$> returns → n ∉ used ∧ n ≠ "".
Proof.
  revert used. induction returns as [|r returns IH]; intros used; cbn; [split; [constructor|set_solver]|].
  destruct (String.eqb_spec (re_Name r) "") as [|Hne]; [done|]. case_bool_decide as Hu; [done|]. intros [Hd Hn]%IH.
  split; [constructor; [|done]|].
  - intros Hin. destruct (Hn _ Hin) as [Hc _]. set_solver.
  - intros n [->|Hin]%elem_of_cons; [done|]. destruct (Hn _ Hin). set_solver.
Qed.

End Names.

Lemma imap_const_fmap {A B} (f : A → B) l : imap (λ _ x, f x) l = f <$> l.
Proof. induction l as [|x l IH]; [done|]. cbn. f_equal. exact IH. Qed.

(** C32: The identifiers of a projected method can be bound together, up to the
    locals named here.  With a non-empty receiver option, the projection of a
    method is always given, in its own order; the parameter names are usable Go
    identifiers, distinct, and none is the receiver, which is usable too; the
    locals of the results are distinct from each other.  Named results that
    are used keep their names, which are none of the receiver and parameters.
    Otherwise the local of result [i] is the prefix followed by [i], with an
    underscore before it when a parameter has that name; so it is a parameter
    only when the parameters hold both spellings
    ([underscored_local_may_be_a_parameter]), and it is the receiver only when
    the receiver is spelled that way ([local_may_be_the_receiver]). *)
Theorem signatures_bind_distinct_names `{UnicodeTables} `{CaseTables} h m opts w :
  let o := resolveOpts opts in
  receiver o ≠ "" →
  ∃ s, (SigOf h (Some m) opts w).1 = Some s ∧
    let names := ctor.sp_Name <$> ctor.si_Params s in
    let locals := ctor.sr_Local <$> ctor.si_Returns s in
    ctor.sp_Source <$> ctor.si_Params s = pa_Type <$> m_Params m ∧
    ctor.sp_Variadic <$> ctor.si_Params s = pa_Variadic <$> m_Params m ∧
    ctor.sr_Source <$> ctor.si_Returns s = re_Type <$> m_Returns m ∧
    Forall usable (ctor.si_ReceiverIdent s :: names) ∧ NoDup (ctor.si_ReceiverIdent s :: names) ∧
    NoDup locals ∧
    if ctor.si_NamedReturns s
    then locals = re_Name <$> m_Returns m ∧ ∀ l, l ∈ locals → l ∉ ctor.si_ReceiverIdent s :: names
    else ∀ i l, locals !! i = Some l →
           let plain := localPrefix o +:+ itoa (Z.of_nat i) in
           (l = plain ∨ plain ∈ names ∧ l = "_" +:+ plain) ∧
           (l ∈ names → plain ∈ names ∧ l = "_" +:+ plain).
Proof.
  cbv zeta. set (o := resolveOpts opts). intros Hr. pattern ((SigOf h (Some m) opts w).1).
  match goal with |- ?P _ => revert w; change (yields (SigOf h (Some m) opts) P) end.
  unfold SigOf. cbv zeta. fold o. apply (yields_bind _ _ (good_params [] (m_Params m))).
  { apply params_loop_good. }
  intros ps (H1 & H2 & _ & H4 & H5 & _). set (names := ctor.sp_Name <$> ps) in *. set (recv := receiver_for o names).
  assert (usable recv ∧ recv ∉ names) as [Hru Hrn].
  { unfold recv, receiver_for. destruct (String.eqb_spec (receiverType o) "") as [|Ht]; cbn [negb].
    - rewrite (proj2 (String.eqb_neq _ _) Hr). apply unique_spec.
    - unfold ReceiverIdent. destruct (UniqueIdent_spec (if String.eqb (initial_of (runes (receiverType o))) "" then "r" else initial_of (runes (receiverType o))) names)
        as (c & -> & Hu & Hn & _). by split. }
  set (taken := ctor.Taken _). assert (taken = recv :: names) as Htk.
  { unfold taken. cbn. destruct (String.eqb_spec recv "") as [E|]; [|done]. destruct Hru as [Hi _]. rewrite E in Hi. destruct Hi as (? & ? & Hi & _). by vm_compute in Hi. }
  eapply yields_bind; [apply returns_loop_good|]. intros rs [Hl Hs]. apply yields_ret. eexists. split; [done|]. cbn [ctor.si_Params ctor.si_Returns ctor.si_ReceiverIdent ctor.si_NamedReturns]. fold names.
  split_and!; [done|done|done|by constructor|by constructor| |].
  - fold names in Hl. rewrite Hl. destruct (NamedReturnsUsable (m_Returns m) taken) eqn:En; [|apply locals_distinct].
    unfold localFor. rewrite imap_const_fmap. unfold NamedReturnsUsable in En. destruct (m_Returns m) as [|r rest]; [constructor|]. apply named_usable_spec in En as [En _]. exact En.
  - rewrite Hl. fold names. destruct (NamedReturnsUsable (m_Returns m) taken) eqn:En.
    + unfold localFor. rewrite imap_const_fmap. split; [done|]. intros l Hin. unfold NamedReturnsUsable in En.
      destruct (m_Returns m) as [|r rest]; [by apply elem_of_nil in Hin|]. apply named_usable_spec in En as [_ En].
      destruct (En l Hin) as [Hnt _]. by rewrite Htk in Hnt.
    + intros i l. rewrite list_lookup_imap. destruct (m_Returns m !! i) as [r|]; [|done]. cbn. intros [= <-]. unfold localFor.
      case_bool_decide; (split; [tauto|done]).
Qed.

Module sig_fixture.
Definition param (name : string) (t : TypeRef) (variadic : bool) : Param := MkParam (Fixture.at_ptr 1 []) name (Some t) variadic.
Definition result (t : TypeRef) : Return := MkReturn (Fixture.at_ptr 1 []) "" (Some t).
Definition string_t : TypeRef := Fixture.named 2 "" "string".
Definition error_t : TypeRef := Fixture.named 3 "" "error".
Definition save (params : list Param) (returns : list Return) : Method := MkMethod (Fixture.at_ptr 4 []) "Save" None "" params returns [].
Definition memory : builder.world := builder.MkWorld 10%positive ∅ ∅ ∅ ∅ ∅.
End sig_fixture.
Import sig_fixture.

Lemma signatures_bind_distinct_names_witness :
  ∃ s, (SigOf ∅ (Some (save [param "s" string_t false; param "_" string_t true] [result error_t])) [] memory).1 = Some s ∧
    NoDup (ctor.si_ReceiverIdent s :: (ctor.sp_Name <$> ctor.si_Params s)) ∧
    ctor.si_ReceiverIdent s :: (ctor.sp_Name <$> ctor.si_Params s) = ["s2"; "s"; "arg1"].
Proof.
  destruct (signatures_bind_distinct_names ∅ (save [param "s" string_t false; param "_" string_t true] [result error_t]) [] memory)
    as (s & E & _ & _ & _ & _ & Hn & _); [discriminate|].
  exists s. split; [exact E|]. split; [exact Hn|]. clear Hn. revert E. vm_compute. by intros [= <-].
Defined.

(** ** Recorded calls *)

Lemma yields_alloc_eq {A} (f : pointer → A) : yields (alloc f) (λ a, ∃ p, a = f p).
Proof. apply yields_alloc. eauto. Qed.

Definition ident_named (n : string) (e : emit.Expr) : Prop := emit.ex_Kind e = emit.ExprIdent ∧ emit.ex_Name e = n.

(** The entry an append statement adds. *)
Definition entry_of (st : emit.Stmt) : option emit.Expr :=
  match emit.st_Values st with [call] => emit.ex_Args call !! 1 | _ => None end.

Lemma idents_of {A} (f : A → string) l :
  yields (each (λ x, alloc (λ q, ctor.NewIdent q (f x))) l) (Forall2 (λ x e, ident_named (f x) e) l).
Proof. apply yields_each. intros x. by apply yields_alloc. Qed.

(** The statement that records a call fills exactly the fields of the struct
    the record is kept in, in order: the parameters, and when results are
    captured the locals. *)
Theorem recorded_calls_match_their_struct recv field callType s captured w w' :
  ∃ entry fields, entry_of (RecordCall recv field callType s captured w).1 = Some entry ∧
    (RecordFields (Some s) w').1 = fields ∧
    emit.ex_Keys entry = take (length (emit.ex_Keys entry)) (emit.f_Name <$> fields) ∧
    Forall2 ident_named ((ctor.sp_Name <$> ctor.si_Params s) ++ (if captured then ctor.sr_Local <$> ctor.si_Returns s else [])) (emit.ex_Args entry) ∧
    (captured = true → emit.ex_Keys entry = emit.f_Name <$> fields).
Proof.
  assert (yields (RecordFields (Some s)) (λ fs, emit.f_Name <$> fs = (ctor.sp_Field <$> ctor.si_Params s) ++ (ctor.sr_Field <$> ctor.si_Returns s))) as Hf.
  { unfold RecordFields. eapply yields_bind; [apply (yields_each _ (λ p f, emit.f_Name f = ctor.sp_Field p))|].
    { intros p. unfold param_field. apply yields_then. intros t. by apply yields_alloc. }
    intros ps Hps. eapply yields_bind; [apply (yields_each _ (λ r f, emit.f_Name f = ctor.sr_Field r))|].
    { intros r. by apply yields_alloc. }
    intros rs Hrs. apply yields_ret. rewrite fmap_app. cbn in Hps, Hrs.
    f_equal; [clear Hrs; induction Hps|clear Hps; induction Hrs]; cbn; congruence. }
  specialize (Hf w'). cbn beta in Hf. pattern ((RecordCall recv field callType s captured w).1).
  match goal with |- ?P _ => revert w; change (yields (RecordCall recv field callType s captured) P) end.
  unfold RecordCall. eapply yields_bind; [apply idents_of|]. intros pv Hpv.
  eapply (yields_bind _ _ (λ rv, Forall2 ident_named (if captured then ctor.sr_Local <$> ctor.si_Returns s else []) rv)).
  { destruct captured; [|by apply yields_ret]. intros w. apply Forall2_fmap_l. apply idents_of. }
  intros rv Hrv. do 3 (apply yields_then; intros ?).
  eapply yields_bind; [apply yields_alloc_eq|]. intros entry [q1 ->].
  eapply yields_bind; [apply yields_alloc_eq|]. intros call [q2 ->].
  apply yields_alloc. intros q. eexists _, (RecordFields (Some s) w').1. split_and!; [reflexivity|done| | |].
  - rewrite Hf. cbn. destruct captured; [by rewrite take_ge|]. by rewrite app_nil_r, take_app_length.
  - cbn. apply Forall2_app; [by apply Forall2_fmap_l|done].
  - intros ->. by rewrite Hf.
Qed.

(** The body that delegates is one statement, a call of the field that passes
    every parameter in order and spreads the variadic ones; it returns the call
    exactly when there are results. *)
Theorem delegation_forwards_every_argument recv field s w :
  ∃ st call callee, (DelegateBody recv field (Some s) w).1 = [st] ∧
    (if ctor.HasResults (Some s) then emit.st_Kind st = emit.StmtReturn ∧ emit.st_Returns st = [call]
     else emit.st_Kind st = emit.StmtExpr ∧ emit.st_Call st = Some call) ∧
    emit.ex_Callee call = Some callee ∧ emit.ex_Name callee = field ∧
    Forall2 (λ p e, if ctor.sp_Variadic p then emit.ex_RawText e = ctor.sp_Name p +:+ "..." else ident_named (ctor.sp_Name p) e)
      (ctor.si_Params s) (emit.ex_Args call).
Proof.
  pattern ((DelegateBody recv field (Some s) w).1).
  match goal with |- ?P _ => revert w; change (yields (DelegateBody recv field (Some s)) P) end.
  unfold DelegateBody. apply (yields_bind _ _ (λ call, ∃ callee, emit.ex_Callee call = Some callee ∧ emit.ex_Name callee = field ∧
    Forall2 (λ p e, if ctor.sp_Variadic p then emit.ex_RawText e = ctor.sp_Name p +:+ "..." else ident_named (ctor.sp_Name p) e)
      (ctor.si_Params s) (emit.ex_Args call))).
  - unfold FieldCall. apply yields_then. intros r. eapply yields_bind; [apply (yields_alloc _ (λ e, emit.ex_Name e = field)); done|].
    intros callee Hc. eapply yields_bind; [apply yields_each|].
    { intros p. unfold call_arg. instantiate (1 := λ p e, if ctor.sp_Variadic p then emit.ex_RawText e = ctor.sp_Name p +:+ "..." else ident_named (ctor.sp_Name p) e).
      cbn. destruct (ctor.sp_Variadic p); by apply yields_alloc. }
    intros args Ha. apply yields_alloc. intros q. by exists callee.
  - intros call (callee & H1 & H2 & H3).
    eapply (yields_bind _ _ (λ st, if ctor.HasResults (Some s) then emit.st_Kind st = emit.StmtReturn ∧ emit.st_Returns st = [call]
                                   else emit.st_Kind st = emit.StmtExpr ∧ emit.st_Call st = Some call)).
    { apply yields_alloc. intros q. by destruct (ctor.HasResults (Some s)). }
    intros st Hst. apply yields_ret. by exists st, call, callee.
Qed.

(** ** Findings *)

(** A parameter and a result may be recorded under one field name. *)
Theorem recorded_fields_may_clash :
  ∃ s, (SigOf ∅ (Some (save [param "err" error_t false] [result error_t])) [] memory).1 = Some s ∧
    emit.f_Name <$> (RecordFields (Some s) memory).1 = ["Err"; "Err"].
Proof. eexists. split; [vm_compute; reflexivity|]. vm_compute. reflexivity. Qed.

(** The receiver of a projected emit method may be one of its parameters. *)
Theorem emitted_receiver_may_be_a_parameter b :
  let m := emit.MkMethod b "Save" "" None "" [emit.MkParam b "s" None false] [] [] [] (MkOwnerRef "" "") in
  ∃ s, SigOfEmit (Some m) [] = Some s ∧ ctor.si_ReceiverIdent s = "s" ∧ ctor.sp_Name <$> ctor.si_Params s = ["s"].
Proof. eexists. split; [reflexivity|]. vm_compute. by split. Qed.

(** A local for a result may be a parameter. *)
Theorem underscored_local_may_be_a_parameter :
  ∃ s, (SigOf ∅ (Some (save [param "r0" string_t false; param "_r0" string_t false] [result error_t])) [] memory).1 = Some s ∧
    ctor.sr_Local <$> ctor.si_Returns s = ["_r0"] ∧ ctor.sp_Name <$> ctor.si_Params s = ["r0"; "_r0"].
Proof. eexists. split; [vm_compute; reflexivity|]. vm_compute. by split. Qed.

(** A local for a result may be the receiver. *)
Theorem local_may_be_the_receiver :
  ∃ s, (SigOf ∅ (Some (save [] [result error_t])) [WithReceiverIdent "r0"] memory).1 = Some s ∧
    ctor.si_ReceiverIdent s = "r0" ∧ ctor.sr_Local <$> ctor.si_Returns s = ["r0"].
Proof. eexists. split; [vm_compute; reflexivity|]. vm_compute. by split. Qed.

(** The function type for a variadic method takes one value where the call that
    is made through it spreads a slice. *)
Theorem variadic_field_takes_one_value b :
  let t := emit.RBuiltinRef b "string" in
  let s := Some (ctor.MkSigInfo "Print" [ctor.MkSigParam "args" "args" (Some t) None "Args" true] [] [] None false None "s") in
  ∃ b' c, (FuncTypeOf s memory).1 = emit.RCompositeRef b' c ∧ emit.cr_FuncParams _ c = [t] ∧
    emit.ex_RawText <$> (CallArgs s memory).1 = ["args..."].
Proof. vm_compute. by do 2 eexists. Qed.

(** A typed nil of an instantiated type names the type without its arguments. *)
Theorem typed_nil_drops_type_arguments b args byPointer w :
  (NilOf (emit.RExternalRef b "geo" "Box" args) byPointer w).1 = (NilOf (emit.RExternalRef b "geo" "Box" []) byPointer w).1.
Proof. done. Qed.
